(* ===== verification/_CoqProject ===== *)
-Q . S2P
Prelude.v
PlaybackState.v
Reducer.v
ReducerLemmas.v
LaneSpec.v
ReducerSpec.v
CommitSpec.v
Persistence.v
Store.v
Catalog.v
References.v
CatalogSpec.v
Presence.v
Actor.v
ActorMessages.v
ActorLemmas.v
ActorSpec.v
ActorSafety.v
ActorDurability.v
ActorPresence.v
ActorErrors.v
ActorEffects.v
CatalogPrune.v
Jobs.v
JobStore.v
JobStoreLemmas.v
JobStoreSpec.v
JobLifecycle.v
JobService.v
JobServiceSpec.v
JobLanes.v
JobScenario.v
JobTiming.v
Text.v
MediaPath.v
OutputReconcile.v
OutputRuntime.v
Filesystem.v
RecoveryJournal.v
JournalStore.v
Modes.v
ModeYaml.v
ModeCoordinator.v
ModeCoordinatorSpec.v
ModeReloadSpec.v
ModesSpec.v
ModeFiles.v
ModeKeeps.v
ModeFilesSpec.v
ModeStagingSpec.v
ModeMutationSpec.v
ModeAtomicity.v
ModeWorld.v
ModeScenario.v
Library.v
Playlists.v
PlaylistsSpec.v
PlaylistStore.v
PlaylistStoreSpec.v
PlaylistBook.v
PlaylistServiceSpec.v
PlaylistScenario.v
CatalogCommands.v
CatalogCommandsSpec.v
CatalogSettled.v
CatalogScenario.v
LibraryMutation.v
LibraryCoordinator.v
LibraryStore.v
LibraryStoreSpec.v
LibraryCoordinatorSpec.v
LibraryScenario.v
Auth.v
AuthStore.v
AuthSpec.v
AuthServer.v
AuthServerSpec.v
Devices.v
AuthScenario.v
