(* ===== verification/Prelude.v ===== *)
(** * Verification of the music server

    A model of the parts of the server that hold its own logic, translated from
    [crates/] by hand into executable definitions, and the theorems that make
    them correct. Definitions carry the names of the source; a Rust [Result] is
    [result] or a state monad with errors, a [BTreeMap] a [gmap] walked in key
    order, an integer an [N] or [Z] whose overflow is written out, a lock or a
    task a state passed on, and what is awaited a call that may fail or, where
    the code is about crashes, be the last one the process makes.

    ** Parts and files

    - Playback reducer, [music-domain/src/playback.rs]: [PlaybackState]
      (session state, clocks, commands), [Reducer] ([reduce] and its helpers).
      [LaneSpec] is the abstract machine of two lanes it refines; the theorems
      are in [ReducerSpec] and [CommitSpec], over the lemmas of
      [ReducerLemmas], which ends with concrete sessions.
    - Playback actor, [music-application/src/playback/actor.rs]: [Catalog],
      [References] (what commands refer to and how a new catalog prunes it),
      [Presence] (connections), [Actor] (save, commit, flush, timed effects),
      [ActorMessages] (one function per message and the select loop [run] over a
      list of wake-ups). It talks to the reducer, to the store through
      [PlaybackStateStore] ([Store], implemented by the rows of
      [music-storage/src/playback.rs] under injected faults) and writes the
      document of [Persistence] ([persistence.rs]). [ActorSpec] relates every
      run to atomic steps; [ActorSafety], [ActorDurability], [ActorPresence],
      [ActorErrors], [ActorEffects], [CatalogSpec] and [CatalogPrune] hold its
      guarantees; [ActorMessages] ends with runs of it.
    - Background jobs, [music-application/src/jobs.rs], [jobs/timing.rs],
      [music-storage/src/jobs.rs], [job_timing.rs]: [Jobs] (records and bounded
      texts), [JobStore] (every repository operation as a transaction over the
      job table), [JobService] (registry, execution context, lanes),
      [JobTiming]. [JobStoreLemmas] makes every operation a step of the table,
      [JobLifecycle] states the life of a job, [JobServiceSpec] and [JobLanes]
      what the coordinator and its lanes guarantee.
    - Modes, [music-application/src/modes.rs] and [modes/mutation.rs],
      [recovery.rs], [music-storage/src/recovery.rs], [music-media/src/yaml.rs],
      [modes.rs], [mode_mutation.rs]: [Modes] (documents, validation, the change
      a mutation makes), [RecoveryJournal] and [JournalStore] (the journal's
      protocol and its table), [Filesystem] (a file tree whose calls fail or are
      the last), [ModeYaml] (loading the catalog), [ModeFiles]
      (preparing, applying, rolling back, finishing a mutation),
      [ModeCoordinator] (the task over interfaces for all of these), [ModeWorld]
      (the interfaces implemented by the files and the table).
      [ModeStagingSpec], [ModeFilesSpec] and [ModeMutationSpec] carry
      [ModeAtomicity], the guarantees of one mutation on disk;
      [ModeCoordinatorSpec] states the coordinator's saga against the
      interfaces, [ModeWorld] proves that the wired world keeps their
      contract and draws the conclusion for the program; [ModeReloadSpec] is
      about what the task answers, [ModesSpec] about valid catalogs.
    - Media paths, [music-domain/src/media_path.rs]: [MediaPath].
    - Headless output: [OutputReconcile] ([music-output/src/reconcile.rs]) and
      [OutputRuntime] ([runtime.rs] and [mpv.rs]: the two locks, the order in which
      batches reach mpv, commands that fail).
    - Library, [music-domain/src/library.rs], [music-application/src/library.rs]
      with [library/mutation.rs] and [metadata_patch.rs],
      [music-storage/src/library.rs]: [Text] (characters, words, numbers),
      [Library] (tracks and how their rows are read back), [LibraryMutation]
      (file mutations, their journal plans and outcomes, metadata patches),
      [LibraryCoordinator] (the task that applies them, its batches, uploads,
      scans and start-up recovery, over classes for the repository, the files
      and the catalog sink), [LibraryStore] (the repository: every commit one
      transaction over the index, the state row and the journal).
      [LibraryStoreSpec] says what each commit changes; [LibraryCoordinatorSpec]
      what the coordinator guarantees over that repository; [LibraryScenario]
      runs it, through a crash and where the index does not follow the files.
    - Playlists, [music-application/src/playlists.rs] and
      [music-storage/src/playlists.rs]: [Playlists] (rules, resolution, source
      signature, the service over the class [PlaylistRepository]),
      [PlaylistStore] (the repository as transactions over three tables under
      injected faults). [PlaylistsSpec] is about resolution; [PlaylistBook] is
      the abstract book of playlists with the proof that the repository
      implements it, over the lemmas of [PlaylistStoreSpec], and
      [PlaylistServiceSpec] what the service serves across histories of
      operations and library changes; [PlaylistScenario] runs it.
    - Catalog commands, [music-application/src/playback/catalog_commands.rs]:
      [CatalogCommands] (every request, over the class [CatalogOwners] of the
      actor, the library, the modes and the playlists). [CatalogCommandsSpec]
      holds for owners that change under it; [CatalogSettled] composes it with
      the actor; [CatalogScenario] runs it.
    - Authentication, [music-application/src/auth.rs],
      [music-storage/src/auth.rs], [music-server/src/auth.rs]: [Auth] (the
      service as futures, which stop at every call of the database, the clock,
      the random source or the password worker, and the throttle), [AuthStore]
      (the statements over both tables, and many requests whose calls
      interleave), [AuthServer] (the gate in front of the password check, the
      cookie, the handlers, how a time is written). [AuthSpec] says which
      sessions there are and who is let in, over a weakest-precondition calculus
      for futures; [AuthServerSpec] is about the gate, the calendar and the
      handlers; [AuthScenario] runs them.
    - Remembered devices, [music-application/src/devices.rs] and
      [music-storage/src/devices.rs]: [Devices] (service, table, transfer
      document, and what the transfer promises).

    ** Theorems

    Invariants of the session and the actor under every command and wake-up;
    refinement of the abstract lanes, of atomic actor steps, of the life cycle
    of a job, of the book of playlists and of mutations of the modes that,
    imports apart, happen as a whole or not at all; that
    requests are applied once and refused truthfully, and that playlists are
    served as their rules resolve; that the library's index is well formed and
    changes only with its files, in one transaction with the journal, and that
    a start finishes what was interrupted; that requests are let in on sessions
    that are open, and that the sign-in gate bounds failures by its
    limits and the threads of the runtime, over every interleaving of their
    steps; that the player of the headless output is told what the server asks
    for once its batches are sent in order; durability of what was
    acknowledged and that no foreign row is overwritten; what each error leaves
    behind; round trips of the stored document, of paths, of journaled mutations
    and of exported devices; the calendar of written dates; termination of a
    job lane; exactness of timers, percentiles, bounded texts and bounded JSON.
    Each theorem with hypotheses is applied once to a concrete input, in a
    scenario file or beside it.

    ** Bounds and fuel

    A lane takes one more unit of fuel than there are queued jobs
    ([JobLanes.lanes_work_off_their_queue] shows that this is enough); the
    validation of JSON takes one more round than the node limit, at which it
    refuses ([JournalStore.journal_json_is_bounded]); the directories above a
    path are at most its characters. Everything else is
    structural recursion, over the list of wake-ups, commands, faults or
    deaths where time passes.

    ** Parameters

    Not modelled but used: the texts of serde and of the YAML reader (classes
    with a law that decoding undoes encoding), SHA-256, clocks, random and
    fresh identifiers, password hashing, which texts an HTTP header takes,
    and the answers of the database and the file system (lists of faults). A law is
    only assumed where a theorem needs it, and [ModeScenario], [JobScenario],
    [PlaylistScenario], [LibraryScenario] and [AuthScenario] give instances.

    ** Not modelled

    - The HTTP, WebSocket and administration front ends ([music-server]) but for
      sign-in, the
      TypeScript generator and the message types of [music-protocol]: serde
      types and wiring.
    - The assistant, the enrichment of the clean-up and the audio analysis:
      prompts, remote catalogs, child processes and signal processing, whose
      results come from outside.
    - Reading and writing the library's files ([music-media]: discovery, tags,
      conversion): the two classes of the library coordinator stand for them.
    - The clean-up: its rules over titles and credits
      ([music-domain/src/cleanup.rs]), its statements, and the clean-up context
      of the library's commits and of the coordinator's start; the search of the
      library with its sort expressions.
    - Sound effects: a coordinator of journaled file mutations in the style of
      the modes.
    - What mpv does by itself, as at the end of a file; a player is what mpv
      carried out of the commands it was sent.
    - Effects of a mode import on library data: an interface, implemented by
      the no-op of the source. *)

From stdpp Require Export base option list gmap sets fin_maps strings pretty sorting.
From Stdlib Require Export ZArith NArith Lia.
From Stdlib Require Import SpecFloat.

#[global] Open Scope general_if_scope.

(* ------------------------------------------------------------------ *)
(** ** Results *)

(** Rust's [Result<A, E>], with the error type first so that [result E]
    is a monad in [A] and stdpp's [x ← m; k] notation applies. *)
Inductive result (E A : Type) : Type :=
| Ok (value : A)
| Err (error : E).
Arguments Ok {E A} value.
Arguments Err {E A} error.

#[global] Instance result_ret {E} : MRet (result E) := fun A x => Ok x.
#[global] Instance result_bind {E} : MBind (result E) := fun A B f m =>
  match m with Ok x => f x | Err e => Err e end.
#[global] Instance result_fmap {E} : FMap (result E) := fun A B f m =>
  match m with Ok x => Ok (f x) | Err e => Err e end.

(** [option.ok_or(e)]. *)
Definition ok_or {E A} (e : E) (o : option A) : result E A :=
  match o with Some x => Ok x | None => Err e end.

(** [result.map_err(f)]. *)
Definition map_err {E F A} (f : E -> F) (m : result E A) : result F A :=
  match m with Ok x => Ok x | Err e => Err (f e) end.

(** [result.ok()]. *)
Definition result_ok {E A} (m : result E A) : option A :=
  match m with Ok x => Some x | Err _ => None end.

(** [iter.map(f).collect::<Result<Vec<_>, _>>()]: the first error wins. *)
Fixpoint result_collect {E A B} (f : A -> result E B) (l : list A) : result E (list B) :=
  match l with
  | [] => Ok []
  | x :: l' => y ← f x; ys ← result_collect f l'; Ok (y :: ys)
  end.

Lemma Ok_inj {E A} (x y : A) : @Ok E A x = Ok y -> x = y.
Proof. by intros [= ->]. Qed.

Lemma Err_inj {E A} (x y : E) : @Err E A x = Err y -> x = y.
Proof. by intros [= ->]. Qed.

Lemma map_err_ok {E F A} (f : E -> F) (r : result E A) x : map_err f r = Ok x <-> r = Ok x.
Proof. destruct r; naive_solver. Qed.

Lemma bind_ok {E A B} (m : result E A) (f : A -> result E B) y :
  mbind f m = Ok y <-> exists x, m = Ok x /\ f x = Ok y.
Proof.
  destruct m as [x|e]; cbn; split.
  - intros Hf. by exists x.
  - by intros (? & [= ->] & ?).
  - done.
  - by intros (? & ? & ?).
Qed.

Lemma bind_err {E A B} (m : result E A) (f : A -> result E B) e :
  mbind f m = Err e <-> m = Err e \/ exists x, m = Ok x /\ f x = Err e.
Proof.
  destruct m as [x|e']; cbn; split.
  - intros Hf. right. by exists x.
  - by intros [?|(? & [= ->] & ?)].
  - intros [= ->]. by left.
  - by intros [[= ->]|(? & ? & ?)].
Qed.

Lemma result_collect_inv {E A B} (f : A -> result E B) l l' :
  result_collect f l = Ok l' -> Forall2 (fun x y => f x = Ok y) l l'.
Proof.
  revert l'. induction l as [|x l IH]; intros l' Hl; cbn in Hl; [injection Hl as <-; constructor|].
  apply bind_ok in Hl as (y & Hy & Hl). apply bind_ok in Hl as (ys & Hys & Hl). injection Hl as <-.
  constructor; auto.
Qed.

Lemma result_collect_err {E A B} (f : A -> result E B) l e :
  result_collect f l = Err e -> exists x, x ∈ l /\ f x = Err e.
Proof.
  induction l as [|x l IH]; cbn; [done|]. intros [H|(y & _ & H)]%bind_err; [by exists x; split; [left|]|].
  apply bind_err in H as [H|(ys & _ & H)]; [|done].
  destruct (IH H) as (z & ? & ?). exists z. by split; [right|].
Qed.

Lemma result_collect_ok {E A B} (f : A -> result E B) (g : A -> B) l :
  (forall x, x ∈ l -> f x = Ok (g x)) -> result_collect f l = Ok (map g l).
Proof.
  induction l as [|x l IH]; intros Hf; [done|]. cbn.
  rewrite (Hf x) by set_solver. cbn.
  rewrite IH by (intros; apply Hf; set_solver). done.
Qed.

(* ------------------------------------------------------------------ *)
(** ** Machine integers

    [u64], [u32] are [N] and [i64] is [Z]; every operation the program
    applies to them is written with its behaviour at the width. *)

Definition u64_max : N := 18446744073709551615.
Definition u32_max : N := 4294967295.
Definition i64_max : N := 9223372036854775807.

(** [a.saturating_add(b)] on [u64]. *)
Definition u64_saturating_add (a b : N) : N := N.min (a + b) u64_max.
(** [a.saturating_sub(b)] on [u64]. *)
Definition u64_saturating_sub (a b : N) : N := a - b.
(** [a.checked_add(b)] on [u64]. *)
Definition u64_checked_add (a b : N) : option N :=
  if (a + b <=? u64_max)%N then Some (a + b)%N else None.
(** [u64::try_from(v).unwrap_or(u64::MAX)] for a non-negative wide integer. *)
Definition u64_clamp (v : N) : N := N.min v u64_max.

Lemma u64_checked_add_Some a b c :
  u64_checked_add a b = Some c <-> c = (a + b)%N /\ (a + b <= u64_max)%N.
Proof.
  unfold u64_checked_add. destruct (N.leb_spec (a + b) u64_max); split; intros Hc;
    [by injection Hc as <- | by destruct Hc as [-> _] | done | lia].
Qed.

Lemma u64_checked_add_None a b :
  u64_checked_add a b = None <-> (u64_max < a + b)%N.
Proof. unfold u64_checked_add. destruct (N.leb_spec (a + b) u64_max); split; intros; done || lia. Qed.

(* ------------------------------------------------------------------ *)
(** ** 64-bit floats

    An [f64] is a [spec_float] of the Standard Library's executable IEEE-754
    specification at precision 53 and maximal exponent 1024. The program only
    compares, stores and converts floats. *)

Definition f64 : Type := spec_float.
Definition f64_eqb : f64 -> f64 -> bool := SFeqb.
Definition f64_leb : f64 -> f64 -> bool := SFleb.
(** The float nearest to an integer literal. *)
Definition f64_of_Z (z : Z) : f64 := binary_normalize 53 1024 z 0 false.
Definition f64_is_finite (v : f64) : bool :=
  match v with S754_zero _ | S754_finite _ _ _ => true | _ => false end.
(** [(lo..=hi).contains(&v)]. *)
Definition f64_in_range (lo hi v : f64) : bool := f64_leb lo v && f64_leb v hi.

Lemma f64_eqb_refl v : f64_is_finite v = true -> f64_eqb v v = true.
Proof.
  destruct v as [[]| | |s m e]; try done; intros _.
  unfold f64_eqb, SFeqb, SFcompare. destruct s; rewrite Z.compare_refl.
  - change (Pcompare m m Eq) with (Pos.compare m m). by rewrite Pos.compare_refl.
  - change (Pcompare m m Eq) with (Pos.compare m m). by rewrite Pos.compare_refl.
Qed.

(* ------------------------------------------------------------------ *)
(** ** Vectors *)

(** [v.contains(&x)]. *)
Definition contains {A} `{EqDecision A} (x : A) (l : list A) : bool := bool_decide (x ∈ l).

(** [v.retain(p)]. *)
Definition retain {A} (p : A -> bool) (l : list A) : list A := List.filter p l.

(** [v.insert(i, x)] for [i <= v.len()]. *)
Definition vec_insert {A} (i : nat) (x : A) (l : list A) : list A :=
  take i l ++ x :: drop i l.

(** What remains after [v.remove(i)] for [i < v.len()]. *)
Definition vec_remove {A} (i : nat) (l : list A) : list A :=
  take i l ++ drop (S i) l.

(** [iter.rposition(p)]. *)
Fixpoint rposition {A} (p : A -> bool) (l : list A) : option nat :=
  match l with
  | [] => None
  | x :: l' =>
      match rposition p l' with
      | Some i => Some (S i)
      | None => if p x then Some 0 else None
      end
  end.

Lemma retain_length_eq {A} (p : A -> bool) l : length (retain p l) = length l -> retain p l = l.
Proof.
  unfold retain. induction l as [|x l IH]; [done|]. cbn.
  pose proof (List.filter_length_le p l).
  destruct (p x); cbn; intros; [f_equal; apply IH; lia | lia].
Qed.

Lemma elem_of_retain {A} (p : A -> bool) l x : x ∈ retain p l <-> x ∈ l /\ p x = true.
Proof. unfold retain. rewrite !list_elem_of_In. apply List.filter_In. Qed.

Lemma retain_Forall {A} (p : A -> bool) l : Forall (fun x => p x = true) (retain p l).
Proof. apply Forall_forall. intros x. rewrite elem_of_retain. naive_solver. Qed.

Lemma retain_id {A} (p : A -> bool) l : Forall (fun x => p x = true) l -> retain p l = l.
Proof. unfold retain. induction 1 as [|x l Hx _ IH]; cbn; [done|]. by rewrite Hx, IH. Qed.

Lemma retain_length {A} (p : A -> bool) l : length (retain p l) <= length l.
Proof. apply List.filter_length_le. Qed.

Lemma filter_none {A} (p : A -> bool) l : (forall x, x ∈ l -> p x = false) -> List.filter p l = [].
Proof. induction l as [|x l IH]; cbn; intros Hp; [done|]. rewrite Hp by set_solver. apply IH. set_solver. Qed.

Lemma filter_sublist {A} (p : A -> bool) l : List.filter p l `sublist_of` l.
Proof. induction l as [|x l IH]; cbn; [constructor|]. destruct (p x); by constructor. Qed.
Lemma filter_comm {A} (p q : A -> bool) l :
  List.filter p (List.filter q l) = List.filter q (List.filter p l).
Proof.
  induction l as [|x l IH]; cbn; [done|].
  destruct (q x) eqn:Hq, (p x) eqn:Hp; cbn; rewrite ?Hp, ?Hq, IH; done.
Qed.

Lemma vec_remove_Permutation {A} (l : list A) i x :
  l !! i = Some x -> l ≡ₚ x :: vec_remove i l.
Proof.
  intros Hi. unfold vec_remove.
  rewrite <- (take_drop_middle l i x Hi) at 1. by rewrite Permutation_middle.
Qed.

Lemma elem_of_vec_insert {A} (l : list A) i x y :
  y ∈ vec_insert i x l <-> y = x \/ y ∈ l.
Proof.
  unfold vec_insert. rewrite elem_of_app, elem_of_cons.
  rewrite <- (take_drop i l) at 3. rewrite elem_of_app. tauto.
Qed.

Lemma elem_of_vec_remove {A} (l : list A) i y : y ∈ vec_remove i l -> y ∈ l.
Proof.
  unfold vec_remove. rewrite elem_of_app.
  intros [H|H]; eapply elem_of_sublist; try apply H; [apply sublist_take | apply sublist_drop].
Qed.

Lemma rposition_Some {A} (p : A -> bool) l i :
  rposition p l = Some i ->
  exists x, l !! i = Some x /\ p x = true /\ forall j y, i < j -> l !! j = Some y -> p y = false.
Proof.
  revert i. induction l as [|x l IH]; intros i; cbn; [done|].
  destruct (rposition p l) as [k|] eqn:Hk.
  - intros [= <-]. destruct (IH k eq_refl) as (y & Hy & Hp & Hl).
    exists y. split_and!; [done..|]. intros [|j] z Hj Hz; [lia|]. eapply Hl; [|done]. lia.
  - destruct (p x) eqn:Hx; intros [= <-]. exists x. split_and!; [done..|].
    intros [|j] z Hj Hz; [lia|]. clear IH Hj. cbn in Hz. revert j z Hz Hk.
    induction l as [|w l IH]; intros j z Hz Hk; [done|]. cbn in Hk.
    destruct (rposition p l) eqn:Hl; [done|]. destruct (p w) eqn:Hw; [done|].
    destruct j as [|j]; cbn in Hz; [by simplify_eq | by eapply IH].
Qed.

Lemma rposition_None {A} (p : A -> bool) l :
  rposition p l = None -> Forall (fun x => p x = false) l.
Proof.
  induction l as [|x l IH]; cbn; [constructor|].
  destruct (rposition p l); [done|]. destruct (p x) eqn:Hx; [done|]. eauto.
Qed.

(** First-occurrence deduplication, the loop
    [for x in v { if !out.contains(&x) { out.push(x) } }]. *)
Definition push_unique {A} `{EqDecision A} (out : list A) (x : A) : list A :=
  if contains x out then out else out ++ [x].
Definition dedup {A} `{EqDecision A} (l : list A) : list A := foldl push_unique [] l.

Lemma dedup_spec_aux {A} `{EqDecision A} (l out : list A) :
  NoDup out ->
  NoDup (foldl push_unique out l) /\
  (forall x, x ∈ foldl push_unique out l <-> x ∈ out \/ x ∈ l).
Proof.
  revert out. induction l as [|y l IH]; intros out Hnd; cbn; [set_solver|].
  unfold push_unique at 2 4, contains. case_bool_decide as Hy.
  - destruct (IH out Hnd). set_solver.
  - destruct (IH (out ++ [y])) as [H1 H2].
    { apply NoDup_app. set_solver by (constructor; [set_solver|constructor]). }
    split; [done|]. intros x. rewrite H2. set_solver.
Qed.

(* ------------------------------------------------------------------ *)
(** ** Text

    A Rust [String] is the [string] of its UTF-8 bytes. *)

(** [s.starts_with(p)]. *)
Definition starts_with (p s : string) : bool := String.prefix p s.

Definition byte_of (a : Ascii.ascii) : N := Ascii.N_of_ascii a.

(** A UTF-8 continuation byte, [10xxxxxx]. *)
Definition is_continuation (a : Ascii.ascii) : bool :=
  ((128 <=? byte_of a) && (byte_of a <? 192))%N.

(** [s.chars().count()]: one scalar value per byte that is not a
    continuation byte, since a [String] is well-formed UTF-8. *)
Fixpoint chars_count (s : string) : nat :=
  match s with
  | EmptyString => 0
  | String a s' => (if is_continuation a then 0 else 1) + chars_count s'
  end.

(* ------------------------------------------------------------------ *)
(** ** Ordered traversal of maps

    A [BTreeMap] is a [gmap]; code that iterates over it sees the entries by
    increasing key, which is [sorted_entries]. *)

Section Ordered.
Context {K V : Type} `{Countable K} (leb : K -> K -> bool).

Definition entry_le (a b : K * V) : Prop := leb (fst a) (fst b) = true.
#[global] Instance entry_le_dec a b : Decision (entry_le a b).
Proof. unfold entry_le. apply _. Defined.

Definition sorted_entries (m : gmap K V) : list (K * V) :=
  merge_sort entry_le (map_to_list m).

Lemma elem_of_sorted_entries m k v : (k, v) ∈ sorted_entries m <-> m !! k = Some v.
Proof. unfold sorted_entries. by rewrite merge_sort_Permutation, elem_of_map_to_list. Qed.

Lemma NoDup_sorted_keys m : NoDup (fst <$> sorted_entries m).
Proof. unfold sorted_entries. rewrite merge_sort_Permutation. apply NoDup_fst_map_to_list. Qed.
End Ordered.

(** Byte-lexicographic order of strings, [str::cmp]. *)
Definition string_leb (a b : string) : bool := String.leb a b.

Lemma string_leb_trans a b c :
  string_leb a b = true -> string_leb b c = true -> string_leb a c = true.
Proof.
  unfold string_leb, String.leb. revert b c.
  induction a as [|x a IH]; intros [|y b] [|z c]; cbn; try done.
  unfold Ascii.compare.
  destruct (N.compare_spec (Ascii.N_of_ascii x) (Ascii.N_of_ascii y)) as [H1|H1|H1],
    (N.compare_spec (Ascii.N_of_ascii y) (Ascii.N_of_ascii z)) as [H2|H2|H2]; try done;
    destruct (N.compare_spec (Ascii.N_of_ascii x) (Ascii.N_of_ascii z)) as [H3|H3|H3];
    try done; try lia. apply IH.
Qed.

#[global] Instance N_entry_le_total {V} : Total (@entry_le N V N.leb).
Proof. intros [k v] [k' v']. unfold entry_le. cbn. rewrite !N.leb_le. lia. Qed.
#[global] Instance N_entry_le_trans {V} : Transitive (@entry_le N V N.leb).
Proof. intros [k v] [k' v'] [k'' v'']. unfold entry_le. cbn. rewrite !N.leb_le. lia. Qed.
#[global] Instance string_entry_le_total {V} : Total (@entry_le string V string_leb).
Proof. intros [k v] [k' v']. apply String.leb_total. Qed.
#[global] Instance string_entry_le_trans {V} : Transitive (@entry_le string V string_leb).
Proof. intros [k v] [k' v'] [k'' v'']. apply string_leb_trans. Qed.

Lemma sorted_entries_sorted {K V} `{Countable K} (leb : K -> K -> bool)
    `{!Total (@entry_le K V leb)} `{!Transitive (@entry_le K V leb)} (m : gmap K V) :
  StronglySorted (entry_le leb) (sorted_entries leb m).
Proof. apply StronglySorted_merge_sort; apply _. Qed.

(** [iter.collect::<BTreeMap<_, _>>()]: the last entry of a key wins. *)
Definition collect_map {K V : Type} `{Countable K} (entries : list (K * V)) : gmap K V :=
  foldl (fun m entry => <[entry.1 := entry.2]> m) ∅ entries.

(** [collect_map] keeps the last entry of each key. *)
Lemma collect_map_app {K V} `{Countable K} (l : list (K * V)) k v :
  collect_map (l ++ [(k, v)]) = <[k := v]> (collect_map l).
Proof. unfold collect_map. by rewrite foldl_app. Qed.

Lemma collect_map_dom {K V} `{Countable K} (l : list (K * V)) :
  dom (collect_map l) = list_to_set (C := gset K) (fst <$> l).
Proof.
  induction l as [|[k v] l IH] using rev_ind; [set_solver|].
  rewrite collect_map_app, dom_insert_L, IH, fmap_app. set_solver.
Qed.

Lemma collect_map_lookup {K V} `{Countable K} (l : list (K * V)) k v :
  NoDup (fst <$> l) -> collect_map l !! k = Some v <-> (k, v) ∈ l.
Proof.
  induction l as [|[k0 v0] l IH] using rev_ind; intros Hnd; [by split; set_solver|].
  rewrite fmap_app, NoDup_app in Hnd. destruct Hnd as (Hnd & Hfresh & _).
  rewrite collect_map_app, elem_of_app, list_elem_of_singleton.
  destruct (decide (k0 = k)) as [->|Hne].
  - rewrite lookup_insert_eq. split; [intros [= ->]; by right|]. intros [Hin|[= ->]]; [|done].
    exfalso. apply (Hfresh k); [|set_solver]. apply list_elem_of_fmap. by exists (k, v).
  - rewrite lookup_insert_ne, IH by done. split; [by left|]. intros [?|[= ? ?]]; [done|congruence].
Qed.

(* ------------------------------------------------------------------ *)
(** ** Sorting *)

(** A sorted list whose keys are distinct is the sort of its permutations,
    when the order ties only on one key. *)
Lemma sorted_canonical {A B} (R : relation A) `{!RelDecision R, !Total R, !Transitive R}
    (key : A -> B) (l l' : list A) :
  (forall x y, R x y -> R y x -> key x = key y) -> NoDup (key <$> l) -> l ≡ₚ l' ->
  StronglySorted R l -> l = merge_sort R l'.
Proof.
  intros Htie Hnd Hperm Hsorted. apply (StronglySorted_unique_strong R); [|done|..].
  - intros x y Hx Hy Hxy Hyx. rewrite merge_sort_Permutation, <- Hperm in Hy.
    apply list_elem_of_lookup in Hx as [i Hi], Hy as [j Hj].
    assert (i = j) as ->; [|congruence].
    eapply (NoDup_lookup (key <$> l)); [done|by rewrite list_lookup_fmap, Hi|].
    rewrite list_lookup_fmap, Hj. cbn. f_equal. symmetry. auto.
  - apply StronglySorted_merge_sort; apply _.
  - by rewrite merge_sort_Permutation.
Qed.

Lemma merge_sort_canonical {A B} (R : relation A) `{!RelDecision R, !Total R, !Transitive R}
    (key : A -> B) (l l' : list A) :
  (forall x y, R x y -> R y x -> key x = key y) -> NoDup (key <$> l) -> l ≡ₚ l' ->
  merge_sort R l = merge_sort R l'.
Proof.
  intros Htie Hnd Hperm. apply (sorted_canonical R key); [done|..].
  - by rewrite merge_sort_Permutation.
  - by rewrite merge_sort_Permutation.
  - apply StronglySorted_merge_sort; apply _.
Qed.

Lemma StronglySorted_app_le {A} (R : relation A) (l k : list A) x y :
  StronglySorted R (l ++ k) -> x ∈ l -> y ∈ k -> R x y.
Proof.
  induction l as [|z l IH]; cbn; intros Hs Hx Hy; [set_solver|].
  apply StronglySorted_inv in Hs as [Hs Hz]. apply elem_of_cons in Hx as [->|Hx]; [|by apply IH].
  rewrite Forall_forall in Hz. apply Hz. set_solver.
Qed.

Lemma fst_zip_Forall2 {A B} (P : A -> B -> Prop) l k : Forall2 P l k -> fst <$> zip l k = l.
Proof. intros HP%Forall2_length. apply fst_zip. lia. Qed.
Lemma snd_zip_Forall2 {A B} (P : A -> B -> Prop) l k : Forall2 P l k -> snd <$> zip l k = k.
Proof. intros HP%Forall2_length. apply snd_zip. lia. Qed.

Lemma fmap_StronglySorted {A B} (f : A -> B) (R : relation A) (S : relation B) l :
  (forall x y, x ∈ l -> y ∈ l -> R x y -> S (f x) (f y)) ->
  StronglySorted R l -> StronglySorted S (f <$> l).
Proof.
  induction l as [|x l IH]; intros HS Hl; cbn; [constructor|].
  apply StronglySorted_inv in Hl as [Hl Hx]. constructor.
  - apply IH; [|done]. intros y z Hy Hz. apply HS; set_solver.
  - apply Forall_fmap. rewrite Forall_forall in Hx |- *. intros y Hy. apply HS; set_solver.
Qed.

(* ------------------------------------------------------------------ *)
(** ** Stateful fallible code

    A method on [&mut self] that returns a [Result]: the state after an error
    is the state the method left behind. *)

Definition stateful (S E A : Type) : Type := S -> result E A * S.

#[global] Instance stateful_ret {S E} : MRet (stateful S E) := fun A x s => (Ok x, s).
#[global] Instance stateful_bind {S E} : MBind (stateful S E) := fun A B f m s =>
  match m s with
  | (Ok x, s) => f x s
  | (Err e, s) => (Err e, s)
  end.

(** [return Err(e)] *)
Definition throw {S E A} (e : E) : stateful S E A := fun s => (Err e, s).
(** [r?] *)
Definition try {S E A} (r : result E A) : stateful S E A := fun s => (r, s).
Definition gets {S E A} (f : S -> A) : stateful S E A := fun s => (Ok (f s), s).
Definition modify {S E} (f : S -> S) : stateful S E () := fun s => (Ok (), f s).

Lemma stateful_bind_ok {S E A B} (m : stateful S E A) (f : A -> stateful S E B) s y s' :
  mbind f m s = (Ok y, s') <-> exists x s1, m s = (Ok x, s1) /\ f x s1 = (Ok y, s').
Proof.
  unfold mbind, stateful_bind. destruct (m s) as [[x|e] s1]; split.
  - intros H. by exists x, s1.
  - by intros (? & ? & [= <- <-] & H).
  - done.
  - by intros (? & ? & ? & _).
Qed.

Lemma stateful_bind_err {S E A B} (m : stateful S E A) (f : A -> stateful S E B) s e s' :
  mbind f m s = (Err e, s') <->
  m s = (Err e, s') \/ exists x s1, m s = (Ok x, s1) /\ f x s1 = (Err e, s').
Proof.
  unfold mbind, stateful_bind. destruct (m s) as [[x|e'] s1]; split.
  - intros H. right. by exists x, s1.
  - intros [H|(x' & s2 & H & Hf)]; [done|]. by injection H as -> ->.
  - intros [= -> ->]. by left.
  - intros [[= -> ->]|(? & ? & ? & _)]; done.
Qed.

Lemma stateful_bind_cases {S E A B} (m : stateful S E A) (f : A -> stateful S E B) s r s' :
  mbind f m s = (r, s') ->
  (exists e, m s = (Err e, s') /\ r = Err e) \/ exists x s1, m s = (Ok x, s1) /\ f x s1 = (r, s').
Proof.
  unfold mbind, stateful_bind. destruct (m s) as [[x|e] s1]; intros Hrun.
  - right. by exists x, s1.
  - injection Hrun as <- <-. left. by exists e.
Qed.

Lemma stateful_bind_assoc {S E A B C} (m : stateful S E A) (f : A -> stateful S E B)
    (g : B -> stateful S E C) s :
  mbind g (mbind f m) s = mbind (fun x => mbind g (f x)) m s.
Proof. unfold mbind, stateful_bind. by destruct (m s) as [[]]. Qed.

(* ------------------------------------------------------------------ *)
(** ** Automation *)

(** Splits the first [match] or [if] of a hypothesis or the goal. *)
Ltac split_match :=
  match goal with
  | H : context [match ?x with _ => _ end] |- _ =>
      lazymatch x with context [match _ with _ => _ end] => fail | _ => destruct x eqn:? end
  | |- context [match ?x with _ => _ end] =>
      lazymatch x with context [match _ with _ => _ end] => fail | _ => destruct x eqn:? end
  end.

(** Turns equations between results into equations between their values. *)
Ltac inv_results :=
  repeat match goal with
  | H : Ok _ = Ok _ |- _ => apply Ok_inj in H; simplify_eq
  | H : Err _ = Err _ |- _ => apply Err_inj in H; simplify_eq
  | H : Ok _ = Err _ |- _ => discriminate H
  | H : Err _ = Ok _ |- _ => discriminate H
  | H : mbind _ _ = Ok _ |- _ => apply bind_ok in H as (? & ? & H)
  | H : ok_or _ ?o = Ok _ |- _ => destruct o eqn:?; cbn [ok_or] in H
  end.

(** A parser that compares its input with one text after the other. *)
Ltac parse_cases :=
  repeat match goal with |- context [String.eqb ?a ?b] =>
    destruct (String.eqb_spec a b) as [->|]; [by intros [= <-]|] end; done.

Create HintDb music discriminated.
#[export] Hint Resolve retain_Forall retain_id retain_length : music.
#[export] Hint Rewrite @elem_of_retain @elem_of_vec_insert : music.
