(* ===== verification/PlaybackState.v ===== *)
(** * Playback state

    The data of [crates/music-domain/src/playback.rs]: checked newtypes, the
    ambient and interrupt lanes, the canonical [PlaybackState], and the
    operations the type itself owns (startup normalisation and the output
    policy). The [with_f] functions are assignments to the field [f]. *)

From S2P Require Import Prelude.
From Stdlib Require Import SpecFloat.

#[local] Open Scope N_scope.

Definition MAX_POSITION_MS : N := i64_max.

Inductive PlaybackError : Type :=
| InvalidTrackId (value : Z)
| InvalidUnitInterval
| InvalidClock
| InvalidLoopingSfx
| InvalidCuePlayback
| RandomChoiceRequired
| RandomChoiceOutOfRange
| PositionEpochOverflow
| PresetRevisionOverflow.

(** [impl Display for PlaybackError] *)
Definition PlaybackError_display (error : PlaybackError) : string :=
  match error with
  | InvalidTrackId _ => "track id must be positive"
  | InvalidUnitInterval => "value must be finite and between zero and one"
  | InvalidClock => "clock sample must contain a finite non-negative wall time"
  | InvalidLoopingSfx => "looping sound effect is outside its domain bounds"
  | InvalidCuePlayback => "resolved cue is outside its domain bounds"
  | RandomChoiceRequired => "shuffle advance requires an explicit random choice"
  | RandomChoiceOutOfRange => "shuffle choice is outside the current queue"
  | PositionEpochOverflow => "playback position epoch overflowed"
  | PresetRevisionOverflow => "preset revision overflowed"
  end.

(* ------------------------------------------------------------------ *)
(** ** Checked newtypes *)

(** [TrackId(i64)] has a private field that [new] accepts only when positive:
    the values of the type are the positive integers. *)
Abbreviation TrackId := positive (only parsing).

Definition TrackId_new (value : Z) : result PlaybackError TrackId :=
  match value with
  | Zpos p => Ok p
  | _ => Err (InvalidTrackId value)
  end.

Definition TrackId_get (track_id : TrackId) : Z := Zpos track_id.

Definition unit_interval_valid (value : f64) : bool :=
  f64_is_finite value && f64_in_range (f64_of_Z 0) (f64_of_Z 1) value.

(** [UnitInterval(f64)]: the private field holds only values [new] accepted. *)
Record UnitInterval : Type := mkUnitInterval {
  unit_get : f64;
  unit_ok : unit_interval_valid unit_get = true
}.

Definition UnitInterval_new (value : f64) : result PlaybackError UnitInterval :=
  match bool_dec (unit_interval_valid value) true with
  | left valid => Ok (mkUnitInterval value valid)
  | right _ => Err InvalidUnitInterval
  end.

Definition UnitInterval_default : UnitInterval := mkUnitInterval (f64_of_Z 1) eq_refl.

(** The derived [PartialEq] compares the floats. *)
Definition unit_eqb (a b : UnitInterval) : bool := f64_eqb (unit_get a) (unit_get b).

(* ------------------------------------------------------------------ *)
(** ** Enumerations *)

Inductive LoopMode : Type := LoopMode_Off | LoopMode_Follow | LoopMode_Queue | LoopMode_Track.
Inductive ShuffleMode : Type := ShuffleMode_Off | ShuffleMode_Random.
Inductive CrossfadeType : Type :=
  CrossfadeType_Linear | CrossfadeType_EqualPower | CrossfadeType_Cut.

#[global] Instance LoopMode_eq_dec : EqDecision LoopMode.
Proof. solve_decision. Defined.
#[global] Instance ShuffleMode_eq_dec : EqDecision ShuffleMode.
Proof. solve_decision. Defined.
#[global] Instance CrossfadeType_eq_dec : EqDecision CrossfadeType.
Proof. solve_decision. Defined.

(* ------------------------------------------------------------------ *)
(** ** Components of the state *)

Record ClockSample : Type := mkClockSample {
  monotonic_ms : N;
  unix_seconds : f64
}.

Definition ClockSample_new (monotonic_ms : N) (unix_seconds : f64)
    : result PlaybackError ClockSample :=
  if f64_is_finite unix_seconds && f64_leb (f64_of_Z 0) unix_seconds
  then Ok (mkClockSample monotonic_ms unix_seconds)
  else Err InvalidClock.

Record LoopingSfx : Type := mkLoopingSfx {
  loop_id : string;
  loop_name : string;
  loop_soundboard_id : string;
  loop_item_path : string;
  loop_interval_seconds : f64;
  loop_volume : UnitInterval
}.

(** [interval_seconds.is_finite() && (1.0..=3600.0).contains(&interval_seconds)] *)
Definition loop_interval_valid (interval_seconds : f64) : bool :=
  f64_is_finite interval_seconds
  && f64_in_range (f64_of_Z 1) (f64_of_Z 3600) interval_seconds.

Definition is_empty (s : string) : bool := bool_decide (s = EmptyString).

Definition LoopingSfx_new (id name soundboard_id item_path : string)
    (interval_seconds : f64) (volume : UnitInterval) : result PlaybackError LoopingSfx :=
  if is_empty id || is_empty name || is_empty soundboard_id || is_empty item_path
     || negb (f64_is_finite interval_seconds)
     || negb (f64_in_range (f64_of_Z 1) (f64_of_Z 3600) interval_seconds)
  then Err InvalidLoopingSfx
  else Ok (mkLoopingSfx id name soundboard_id item_path interval_seconds volume).

(** The derived [PartialEq] of [LoopingSfx]. *)
Definition looping_sfx_eqb (a b : LoopingSfx) : bool :=
  bool_decide (loop_id a = loop_id b) && bool_decide (loop_name a = loop_name b)
  && bool_decide (loop_soundboard_id a = loop_soundboard_id b)
  && bool_decide (loop_item_path a = loop_item_path b)
  && f64_eqb (loop_interval_seconds a) (loop_interval_seconds b)
  && unit_eqb (loop_volume a) (loop_volume b).

Record PositionReport : Type := mkPositionReport {
  report_device_id : string;
  report_position_ms : N;
  reported_at_unix_seconds : f64
}.

(** The ambient lane; [position_anchor_ms] is the monotonic instant at which
    [position_ms] was true, present exactly while the lane is ticking. *)
Record AmbientState : Type := mkAmbientState {
  ambient_current_track_id : option TrackId;
  ambient_queue : list TrackId;
  ambient_history : list TrackId;
  ambient_position_ms : N;
  ambient_position_anchor_ms : option N;
  ambient_loop_mode : LoopMode;
  ambient_shuffle : ShuffleMode;
  ambient_source_playlist_id : option Z
}.

Definition with_ambient_current_track_id (v : option TrackId) (s : AmbientState) : AmbientState := {|
  ambient_current_track_id := v; ambient_queue := s.(ambient_queue);
  ambient_history := s.(ambient_history); ambient_position_ms := s.(ambient_position_ms);
  ambient_position_anchor_ms := s.(ambient_position_anchor_ms);
  ambient_loop_mode := s.(ambient_loop_mode); ambient_shuffle := s.(ambient_shuffle);
  ambient_source_playlist_id := s.(ambient_source_playlist_id) |}.

Definition with_ambient_queue (v : list TrackId) (s : AmbientState) : AmbientState := {|
  ambient_current_track_id := s.(ambient_current_track_id); ambient_queue := v;
  ambient_history := s.(ambient_history); ambient_position_ms := s.(ambient_position_ms);
  ambient_position_anchor_ms := s.(ambient_position_anchor_ms);
  ambient_loop_mode := s.(ambient_loop_mode); ambient_shuffle := s.(ambient_shuffle);
  ambient_source_playlist_id := s.(ambient_source_playlist_id) |}.

Definition with_ambient_history (v : list TrackId) (s : AmbientState) : AmbientState := {|
  ambient_current_track_id := s.(ambient_current_track_id); ambient_queue := s.(ambient_queue);
  ambient_history := v; ambient_position_ms := s.(ambient_position_ms);
  ambient_position_anchor_ms := s.(ambient_position_anchor_ms);
  ambient_loop_mode := s.(ambient_loop_mode); ambient_shuffle := s.(ambient_shuffle);
  ambient_source_playlist_id := s.(ambient_source_playlist_id) |}.

Definition with_ambient_position_ms (v : N) (s : AmbientState) : AmbientState := {|
  ambient_current_track_id := s.(ambient_current_track_id); ambient_queue := s.(ambient_queue);
  ambient_history := s.(ambient_history); ambient_position_ms := v;
  ambient_position_anchor_ms := s.(ambient_position_anchor_ms);
  ambient_loop_mode := s.(ambient_loop_mode); ambient_shuffle := s.(ambient_shuffle);
  ambient_source_playlist_id := s.(ambient_source_playlist_id) |}.

Definition with_ambient_position_anchor_ms (v : option N) (s : AmbientState) : AmbientState := {|
  ambient_current_track_id := s.(ambient_current_track_id); ambient_queue := s.(ambient_queue);
  ambient_history := s.(ambient_history); ambient_position_ms := s.(ambient_position_ms);
  ambient_position_anchor_ms := v; ambient_loop_mode := s.(ambient_loop_mode);
  ambient_shuffle := s.(ambient_shuffle);
  ambient_source_playlist_id := s.(ambient_source_playlist_id) |}.

Definition with_ambient_loop_mode (v : LoopMode) (s : AmbientState) : AmbientState := {|
  ambient_current_track_id := s.(ambient_current_track_id); ambient_queue := s.(ambient_queue);
  ambient_history := s.(ambient_history); ambient_position_ms := s.(ambient_position_ms);
  ambient_position_anchor_ms := s.(ambient_position_anchor_ms); ambient_loop_mode := v;
  ambient_shuffle := s.(ambient_shuffle);
  ambient_source_playlist_id := s.(ambient_source_playlist_id) |}.

Definition with_ambient_shuffle (v : ShuffleMode) (s : AmbientState) : AmbientState := {|
  ambient_current_track_id := s.(ambient_current_track_id); ambient_queue := s.(ambient_queue);
  ambient_history := s.(ambient_history); ambient_position_ms := s.(ambient_position_ms);
  ambient_position_anchor_ms := s.(ambient_position_anchor_ms);
  ambient_loop_mode := s.(ambient_loop_mode); ambient_shuffle := v;
  ambient_source_playlist_id := s.(ambient_source_playlist_id) |}.

Definition with_ambient_source_playlist_id (v : option Z) (s : AmbientState) : AmbientState := {|
  ambient_current_track_id := s.(ambient_current_track_id); ambient_queue := s.(ambient_queue);
  ambient_history := s.(ambient_history); ambient_position_ms := s.(ambient_position_ms);
  ambient_position_anchor_ms := s.(ambient_position_anchor_ms);
  ambient_loop_mode := s.(ambient_loop_mode); ambient_shuffle := s.(ambient_shuffle);
  ambient_source_playlist_id := v |}.

Definition AmbientState_default : AmbientState := {|
  ambient_current_track_id := None; ambient_queue := []; ambient_history := [];
  ambient_position_ms := 0; ambient_position_anchor_ms := None;
  ambient_loop_mode := LoopMode_Off; ambient_shuffle := ShuffleMode_Off;
  ambient_source_playlist_id := None |}.

(** A track sequence that takes over while present. *)
Record InterruptState : Type := mkInterruptState {
  interrupt_current_track_id : TrackId;
  interrupt_queue : list TrackId;
  interrupt_position_ms : N;
  interrupt_position_anchor_ms : option N;
  interrupt_return_to_ambient : bool;
  interrupt_fade_in_ms : N;
  interrupt_fade_out_ms : N;
  interrupt_duck_to : option UnitInterval
}.

Definition with_interrupt_current_track_id (v : TrackId) (s : InterruptState) : InterruptState := {|
  interrupt_current_track_id := v; interrupt_queue := s.(interrupt_queue);
  interrupt_position_ms := s.(interrupt_position_ms);
  interrupt_position_anchor_ms := s.(interrupt_position_anchor_ms);
  interrupt_return_to_ambient := s.(interrupt_return_to_ambient);
  interrupt_fade_in_ms := s.(interrupt_fade_in_ms);
  interrupt_fade_out_ms := s.(interrupt_fade_out_ms); interrupt_duck_to := s.(interrupt_duck_to) |}.

Definition with_interrupt_queue (v : list TrackId) (s : InterruptState) : InterruptState := {|
  interrupt_current_track_id := s.(interrupt_current_track_id); interrupt_queue := v;
  interrupt_position_ms := s.(interrupt_position_ms);
  interrupt_position_anchor_ms := s.(interrupt_position_anchor_ms);
  interrupt_return_to_ambient := s.(interrupt_return_to_ambient);
  interrupt_fade_in_ms := s.(interrupt_fade_in_ms);
  interrupt_fade_out_ms := s.(interrupt_fade_out_ms); interrupt_duck_to := s.(interrupt_duck_to) |}.

Definition with_interrupt_position_ms (v : N) (s : InterruptState) : InterruptState := {|
  interrupt_current_track_id := s.(interrupt_current_track_id);
  interrupt_queue := s.(interrupt_queue); interrupt_position_ms := v;
  interrupt_position_anchor_ms := s.(interrupt_position_anchor_ms);
  interrupt_return_to_ambient := s.(interrupt_return_to_ambient);
  interrupt_fade_in_ms := s.(interrupt_fade_in_ms);
  interrupt_fade_out_ms := s.(interrupt_fade_out_ms); interrupt_duck_to := s.(interrupt_duck_to) |}.

Definition with_interrupt_position_anchor_ms (v : option N) (s : InterruptState) : InterruptState := {|
  interrupt_current_track_id := s.(interrupt_current_track_id);
  interrupt_queue := s.(interrupt_queue); interrupt_position_ms := s.(interrupt_position_ms);
  interrupt_position_anchor_ms := v;
  interrupt_return_to_ambient := s.(interrupt_return_to_ambient);
  interrupt_fade_in_ms := s.(interrupt_fade_in_ms);
  interrupt_fade_out_ms := s.(interrupt_fade_out_ms); interrupt_duck_to := s.(interrupt_duck_to) |}.

(** The canonical playback state. *)
Record PlaybackState : Type := mkPlaybackState {
  publication_revision : N;
  position_epoch : N;
  is_playing : bool;
  active_mode_id : option string;
  active_output_device_ids : list string;
  multiple_outputs : bool;
  default_device_volume : UnitInterval;
  device_volumes : gmap string UnitInterval;
  active_soundboard_id : option string;
  active_preset_ids : list string;
  preset_revision : N;
  crossfade_ms : N;
  crossfade_type : CrossfadeType;
  ambient : AmbientState;
  interrupt : option InterruptState;
  looping_sfx : list LoopingSfx;
  last_position_report : option PositionReport
}.

Definition with_publication_revision (v : N) (s : PlaybackState) : PlaybackState := {|
  publication_revision := v; position_epoch := s.(position_epoch); is_playing := s.(is_playing);
  active_mode_id := s.(active_mode_id);
  active_output_device_ids := s.(active_output_device_ids);
  multiple_outputs := s.(multiple_outputs); default_device_volume := s.(default_device_volume);
  device_volumes := s.(device_volumes); active_soundboard_id := s.(active_soundboard_id);
  active_preset_ids := s.(active_preset_ids); preset_revision := s.(preset_revision);
  crossfade_ms := s.(crossfade_ms); crossfade_type := s.(crossfade_type);
  ambient := s.(ambient); interrupt := s.(interrupt); looping_sfx := s.(looping_sfx);
  last_position_report := s.(last_position_report) |}.

Definition with_position_epoch (v : N) (s : PlaybackState) : PlaybackState := {|
  publication_revision := s.(publication_revision); position_epoch := v;
  is_playing := s.(is_playing); active_mode_id := s.(active_mode_id);
  active_output_device_ids := s.(active_output_device_ids);
  multiple_outputs := s.(multiple_outputs); default_device_volume := s.(default_device_volume);
  device_volumes := s.(device_volumes); active_soundboard_id := s.(active_soundboard_id);
  active_preset_ids := s.(active_preset_ids); preset_revision := s.(preset_revision);
  crossfade_ms := s.(crossfade_ms); crossfade_type := s.(crossfade_type);
  ambient := s.(ambient); interrupt := s.(interrupt); looping_sfx := s.(looping_sfx);
  last_position_report := s.(last_position_report) |}.

Definition with_is_playing (v : bool) (s : PlaybackState) : PlaybackState := {|
  publication_revision := s.(publication_revision); position_epoch := s.(position_epoch);
  is_playing := v; active_mode_id := s.(active_mode_id);
  active_output_device_ids := s.(active_output_device_ids);
  multiple_outputs := s.(multiple_outputs); default_device_volume := s.(default_device_volume);
  device_volumes := s.(device_volumes); active_soundboard_id := s.(active_soundboard_id);
  active_preset_ids := s.(active_preset_ids); preset_revision := s.(preset_revision);
  crossfade_ms := s.(crossfade_ms); crossfade_type := s.(crossfade_type);
  ambient := s.(ambient); interrupt := s.(interrupt); looping_sfx := s.(looping_sfx);
  last_position_report := s.(last_position_report) |}.

Definition with_active_mode_id (v : option string) (s : PlaybackState) : PlaybackState := {|
  publication_revision := s.(publication_revision); position_epoch := s.(position_epoch);
  is_playing := s.(is_playing); active_mode_id := v;
  active_output_device_ids := s.(active_output_device_ids);
  multiple_outputs := s.(multiple_outputs); default_device_volume := s.(default_device_volume);
  device_volumes := s.(device_volumes); active_soundboard_id := s.(active_soundboard_id);
  active_preset_ids := s.(active_preset_ids); preset_revision := s.(preset_revision);
  crossfade_ms := s.(crossfade_ms); crossfade_type := s.(crossfade_type);
  ambient := s.(ambient); interrupt := s.(interrupt); looping_sfx := s.(looping_sfx);
  last_position_report := s.(last_position_report) |}.

Definition with_active_output_device_ids (v : list string) (s : PlaybackState) : PlaybackState := {|
  publication_revision := s.(publication_revision); position_epoch := s.(position_epoch);
  is_playing := s.(is_playing); active_mode_id := s.(active_mode_id);
  active_output_device_ids := v; multiple_outputs := s.(multiple_outputs);
  default_device_volume := s.(default_device_volume); device_volumes := s.(device_volumes);
  active_soundboard_id := s.(active_soundboard_id); active_preset_ids := s.(active_preset_ids);
  preset_revision := s.(preset_revision); crossfade_ms := s.(crossfade_ms);
  crossfade_type := s.(crossfade_type); ambient := s.(ambient); interrupt := s.(interrupt);
  looping_sfx := s.(looping_sfx); last_position_report := s.(last_position_report) |}.

Definition with_multiple_outputs (v : bool) (s : PlaybackState) : PlaybackState := {|
  publication_revision := s.(publication_revision); position_epoch := s.(position_epoch);
  is_playing := s.(is_playing); active_mode_id := s.(active_mode_id);
  active_output_device_ids := s.(active_output_device_ids); multiple_outputs := v;
  default_device_volume := s.(default_device_volume); device_volumes := s.(device_volumes);
  active_soundboard_id := s.(active_soundboard_id); active_preset_ids := s.(active_preset_ids);
  preset_revision := s.(preset_revision); crossfade_ms := s.(crossfade_ms);
  crossfade_type := s.(crossfade_type); ambient := s.(ambient); interrupt := s.(interrupt);
  looping_sfx := s.(looping_sfx); last_position_report := s.(last_position_report) |}.

Definition with_device_volumes (v : gmap string UnitInterval) (s : PlaybackState) : PlaybackState := {|
  publication_revision := s.(publication_revision); position_epoch := s.(position_epoch);
  is_playing := s.(is_playing); active_mode_id := s.(active_mode_id);
  active_output_device_ids := s.(active_output_device_ids);
  multiple_outputs := s.(multiple_outputs); default_device_volume := s.(default_device_volume);
  device_volumes := v; active_soundboard_id := s.(active_soundboard_id);
  active_preset_ids := s.(active_preset_ids); preset_revision := s.(preset_revision);
  crossfade_ms := s.(crossfade_ms); crossfade_type := s.(crossfade_type);
  ambient := s.(ambient); interrupt := s.(interrupt); looping_sfx := s.(looping_sfx);
  last_position_report := s.(last_position_report) |}.

Definition with_active_soundboard_id (v : option string) (s : PlaybackState) : PlaybackState := {|
  publication_revision := s.(publication_revision); position_epoch := s.(position_epoch);
  is_playing := s.(is_playing); active_mode_id := s.(active_mode_id);
  active_output_device_ids := s.(active_output_device_ids);
  multiple_outputs := s.(multiple_outputs); default_device_volume := s.(default_device_volume);
  device_volumes := s.(device_volumes); active_soundboard_id := v;
  active_preset_ids := s.(active_preset_ids); preset_revision := s.(preset_revision);
  crossfade_ms := s.(crossfade_ms); crossfade_type := s.(crossfade_type);
  ambient := s.(ambient); interrupt := s.(interrupt); looping_sfx := s.(looping_sfx);
  last_position_report := s.(last_position_report) |}.

Definition with_active_preset_ids (v : list string) (s : PlaybackState) : PlaybackState := {|
  publication_revision := s.(publication_revision); position_epoch := s.(position_epoch);
  is_playing := s.(is_playing); active_mode_id := s.(active_mode_id);
  active_output_device_ids := s.(active_output_device_ids);
  multiple_outputs := s.(multiple_outputs); default_device_volume := s.(default_device_volume);
  device_volumes := s.(device_volumes); active_soundboard_id := s.(active_soundboard_id);
  active_preset_ids := v; preset_revision := s.(preset_revision);
  crossfade_ms := s.(crossfade_ms); crossfade_type := s.(crossfade_type);
  ambient := s.(ambient); interrupt := s.(interrupt); looping_sfx := s.(looping_sfx);
  last_position_report := s.(last_position_report) |}.

Definition with_preset_revision (v : N) (s : PlaybackState) : PlaybackState := {|
  publication_revision := s.(publication_revision); position_epoch := s.(position_epoch);
  is_playing := s.(is_playing); active_mode_id := s.(active_mode_id);
  active_output_device_ids := s.(active_output_device_ids);
  multiple_outputs := s.(multiple_outputs); default_device_volume := s.(default_device_volume);
  device_volumes := s.(device_volumes); active_soundboard_id := s.(active_soundboard_id);
  active_preset_ids := s.(active_preset_ids); preset_revision := v;
  crossfade_ms := s.(crossfade_ms); crossfade_type := s.(crossfade_type);
  ambient := s.(ambient); interrupt := s.(interrupt); looping_sfx := s.(looping_sfx);
  last_position_report := s.(last_position_report) |}.

Definition with_crossfade_ms (v : N) (s : PlaybackState) : PlaybackState := {|
  publication_revision := s.(publication_revision); position_epoch := s.(position_epoch);
  is_playing := s.(is_playing); active_mode_id := s.(active_mode_id);
  active_output_device_ids := s.(active_output_device_ids);
  multiple_outputs := s.(multiple_outputs); default_device_volume := s.(default_device_volume);
  device_volumes := s.(device_volumes); active_soundboard_id := s.(active_soundboard_id);
  active_preset_ids := s.(active_preset_ids); preset_revision := s.(preset_revision);
  crossfade_ms := v; crossfade_type := s.(crossfade_type); ambient := s.(ambient);
  interrupt := s.(interrupt); looping_sfx := s.(looping_sfx);
  last_position_report := s.(last_position_report) |}.

Definition with_crossfade_type (v : CrossfadeType) (s : PlaybackState) : PlaybackState := {|
  publication_revision := s.(publication_revision); position_epoch := s.(position_epoch);
  is_playing := s.(is_playing); active_mode_id := s.(active_mode_id);
  active_output_device_ids := s.(active_output_device_ids);
  multiple_outputs := s.(multiple_outputs); default_device_volume := s.(default_device_volume);
  device_volumes := s.(device_volumes); active_soundboard_id := s.(active_soundboard_id);
  active_preset_ids := s.(active_preset_ids); preset_revision := s.(preset_revision);
  crossfade_ms := s.(crossfade_ms); crossfade_type := v; ambient := s.(ambient);
  interrupt := s.(interrupt); looping_sfx := s.(looping_sfx);
  last_position_report := s.(last_position_report) |}.

Definition with_ambient (v : AmbientState) (s : PlaybackState) : PlaybackState := {|
  publication_revision := s.(publication_revision); position_epoch := s.(position_epoch);
  is_playing := s.(is_playing); active_mode_id := s.(active_mode_id);
  active_output_device_ids := s.(active_output_device_ids);
  multiple_outputs := s.(multiple_outputs); default_device_volume := s.(default_device_volume);
  device_volumes := s.(device_volumes); active_soundboard_id := s.(active_soundboard_id);
  active_preset_ids := s.(active_preset_ids); preset_revision := s.(preset_revision);
  crossfade_ms := s.(crossfade_ms); crossfade_type := s.(crossfade_type); ambient := v;
  interrupt := s.(interrupt); looping_sfx := s.(looping_sfx);
  last_position_report := s.(last_position_report) |}.

Definition with_interrupt (v : option InterruptState) (s : PlaybackState) : PlaybackState := {|
  publication_revision := s.(publication_revision); position_epoch := s.(position_epoch);
  is_playing := s.(is_playing); active_mode_id := s.(active_mode_id);
  active_output_device_ids := s.(active_output_device_ids);
  multiple_outputs := s.(multiple_outputs); default_device_volume := s.(default_device_volume);
  device_volumes := s.(device_volumes); active_soundboard_id := s.(active_soundboard_id);
  active_preset_ids := s.(active_preset_ids); preset_revision := s.(preset_revision);
  crossfade_ms := s.(crossfade_ms); crossfade_type := s.(crossfade_type);
  ambient := s.(ambient); interrupt := v; looping_sfx := s.(looping_sfx);
  last_position_report := s.(last_position_report) |}.

Definition with_looping_sfx (v : list LoopingSfx) (s : PlaybackState) : PlaybackState := {|
  publication_revision := s.(publication_revision); position_epoch := s.(position_epoch);
  is_playing := s.(is_playing); active_mode_id := s.(active_mode_id);
  active_output_device_ids := s.(active_output_device_ids);
  multiple_outputs := s.(multiple_outputs); default_device_volume := s.(default_device_volume);
  device_volumes := s.(device_volumes); active_soundboard_id := s.(active_soundboard_id);
  active_preset_ids := s.(active_preset_ids); preset_revision := s.(preset_revision);
  crossfade_ms := s.(crossfade_ms); crossfade_type := s.(crossfade_type);
  ambient := s.(ambient); interrupt := s.(interrupt); looping_sfx := v;
  last_position_report := s.(last_position_report) |}.

Definition with_last_position_report (v : option PositionReport) (s : PlaybackState) : PlaybackState := {|
  publication_revision := s.(publication_revision); position_epoch := s.(position_epoch);
  is_playing := s.(is_playing); active_mode_id := s.(active_mode_id);
  active_output_device_ids := s.(active_output_device_ids);
  multiple_outputs := s.(multiple_outputs); default_device_volume := s.(default_device_volume);
  device_volumes := s.(device_volumes); active_soundboard_id := s.(active_soundboard_id);
  active_preset_ids := s.(active_preset_ids); preset_revision := s.(preset_revision);
  crossfade_ms := s.(crossfade_ms); crossfade_type := s.(crossfade_type);
  ambient := s.(ambient); interrupt := s.(interrupt); looping_sfx := s.(looping_sfx);
  last_position_report := v |}.

Definition PlaybackState_default : PlaybackState := {|
  publication_revision := 0; position_epoch := 0; is_playing := false;
  active_mode_id := None; active_output_device_ids := []; multiple_outputs := false;
  default_device_volume := UnitInterval_default; device_volumes := ∅;
  active_soundboard_id := None; active_preset_ids := []; preset_revision := 0;
  crossfade_ms := 0; crossfade_type := CrossfadeType_Linear; ambient := AmbientState_default;
  interrupt := None; looping_sfx := []; last_position_report := None |}.

(* ------------------------------------------------------------------ *)
(** ** Operations of the type *)

Definition normalize_for_startup (s : PlaybackState) : PlaybackState :=
  let s := with_is_playing false s in
  let s := with_active_output_device_ids [] s in
  let s := with_looping_sfx [] s in
  let s := with_interrupt None s in
  with_ambient (with_ambient_position_anchor_ms None (ambient s)) s.

(** Returns the new state and whether it changed. *)
Definition apply_output_policy (multiple : bool) (s : PlaybackState) : PlaybackState * bool :=
  let changed := negb (eqb (multiple_outputs s) multiple) in
  let s := with_multiple_outputs multiple s in
  if negb multiple && (1 <? length (active_output_device_ids s))%nat
  then (with_active_output_device_ids (take 1 (active_output_device_ids s)) s, true)
  else (s, changed).

(* ------------------------------------------------------------------ *)
(** ** Lemmas on the checked newtypes *)

Lemma unit_ext (a b : UnitInterval) : unit_get a = unit_get b -> a = b.
Proof.
  destruct a as [v p], b as [w q]. cbn. intros ->. f_equal.
  apply Eqdep_dec.UIP_dec. apply bool_dec.
Qed.

Lemma TrackId_new_get track_id : TrackId_new (TrackId_get track_id) = Ok track_id.
Proof. done. Qed.

Lemma UnitInterval_new_get u : UnitInterval_new (unit_get u) = Ok u.
Proof.
  unfold UnitInterval_new. destruct (bool_dec _ _) as [H|H].
  - f_equal. by apply unit_ext.
  - by destruct H; destruct u.
Qed.

Lemma unit_eqb_refl u : unit_eqb u u = true.
Proof.
  unfold unit_eqb. apply f64_eqb_refl. destruct u as [v H]. cbn.
  unfold unit_interval_valid in H. by apply andb_prop in H as [H _].
Qed.

Lemma with_multiple_outputs_id s b : multiple_outputs s = b -> with_multiple_outputs b s = s.
Proof. intros <-. by destruct s. Qed.
