(* ===== verification/Reducer.v ===== *)
(** * Playback reducer

    The operations of [crates/music-domain/src/playback.rs]: the clock of the
    two lanes, one function per mutation, and [reduce], which applies a command
    to the current state and says whether to publish and persist it. A function
    taking [&mut PlaybackState] returns the new state; one that can fail returns
    a [result], and [reduce] discards the state of a failed mutation as the
    code discards its clone. *)

From S2P Require Import Prelude PlaybackState.

#[local] Open Scope N_scope.

(* ------------------------------------------------------------------ *)
(** ** Commands, context, events *)

Record CuePreset : Type := mkCuePreset {
  cue_preset_id : string;
  cue_preset_crossfade_ms : option N
}.

Record CuePlaylist : Type := mkCuePlaylist {
  cue_track_ids : list TrackId;
  cue_start_index : nat;
  cue_start_ms : N;
  cue_source_playlist_id : Z
}.

Record CueSfx : Type := mkCueSfx {
  cue_sfx_soundboard_id : string;
  cue_sfx_item_path : string;
  cue_sfx_volume : UnitInterval
}.

Record CuePlayback : Type := mkCuePlayback {
  cue_mode_id : string;
  cue_id : string;
  cue_preset : option CuePreset;
  cue_playlist : option CuePlaylist;
  cue_loops : list LoopingSfx;
  cue_sfx : list CueSfx
}.

(** How an interrupt takes over the ambient lane and hands it back. *)
Record InterruptFade : Type := mkInterruptFade {
  fade_return_to_ambient : bool;
  fade_fade_in_ms : N;
  fade_fade_out_ms : N;
  fade_duck_to : option UnitInterval
}.

Inductive PlaybackCommand : Type :=
| SetPlaying (playing : bool)
| SetActiveMode (mode_id : option string)
| SetActiveOutputs (device_ids : list string)
| RegisterDevice (device_id : string) (activate : bool)
| RemoveActiveOutput (device_id : string)
| SetDeviceVolume (device_id : string) (volume : UnitInterval)
| SetActiveSoundboard (soundboard_id : option string)
| SetActivePresets (preset_ids : list string) (crossfade_ms : option N)
| PresetsChanged (active_preset_ids : option (list string)) (crossfade_ms : option N)
| SetCrossfade (crossfade_ms : N) (crossfade_type : option CrossfadeType)
| ReportPosition (device_id : string) (position_ms : N)
| AmbientPlayTrack (track_id : TrackId)
| AmbientSetQueue (track_ids : list TrackId)
| AmbientJumpQueue (position : nat)
| AmbientEnqueue (track_id : TrackId) (position : option nat)
| AmbientClearQueue
| AmbientSkipNext (follow_next_id expected_track_id : option TrackId)
| AmbientSkipPrevious
| AmbientSeek (position_ms : N)
| AmbientSetLoop (loop_mode : LoopMode)
| AmbientSetShuffle (shuffle : ShuffleMode)
| AmbientStop
| AmbientPlaySequence (track_ids : list TrackId) (start_index : nat)
    (source_playlist_id : option Z)
| FireInterruptSequence (track_ids : list TrackId) (fade : InterruptFade)
| InterruptSkipNext (expected_track_id : option TrackId)
| InterruptSeek (position_ms : N)
| CancelInterrupt
| FireCue (cue : CuePlayback)
| FireSfx (soundboard_id item_path : string) (volume : UnitInterval)
| StartLoop (looping : LoopingSfx)
| StopLoop (id : string).

Record ReductionContext : Type := mkReductionContext {
  clock : ClockSample;
  random_queue_index : option nat
}.

Inductive DomainEvent : Type :=
| SfxFired (soundboard_id item_path : string) (volume : UnitInterval)
| LoopStarted (looping : LoopingSfx)
| LoopStopped (id : string).

Inductive PersistenceIntent : Type :=
  PersistenceIntent_None | PersistenceIntent_Throttled | PersistenceIntent_Immediate.

Record Reduction : Type := mkReduction {
  next_state : PlaybackState;
  changed : bool;
  publish_state : bool;
  persistence : PersistenceIntent;
  events : list DomainEvent
}.

(* ------------------------------------------------------------------ *)
(** ** The clock of the lanes *)

Definition bounded_position_add (position_ms elapsed_ms : N) : N :=
  N.min (u64_saturating_add position_ms elapsed_ms) MAX_POSITION_MS.

Definition materialize_ambient (now_ms : N) (a : AmbientState) : AmbientState :=
  match ambient_position_anchor_ms a with
  | Some anchor =>
      let elapsed := u64_saturating_sub now_ms anchor in
      if 0 <? elapsed
      then with_ambient_position_anchor_ms (Some now_ms)
             (with_ambient_position_ms
                (bounded_position_add (ambient_position_ms a) elapsed) a)
      else a
  | None => a
  end.

Definition materialize_interrupt (now_ms : N) (i : InterruptState) : InterruptState :=
  match interrupt_position_anchor_ms i with
  | Some anchor =>
      let elapsed := u64_saturating_sub now_ms anchor in
      if 0 <? elapsed
      then with_interrupt_position_anchor_ms (Some now_ms)
             (with_interrupt_position_ms
                (bounded_position_add (interrupt_position_ms i) elapsed) i)
      else i
  | None => i
  end.

Definition materialize_positions (s : PlaybackState) (now_monotonic_ms : N) : PlaybackState :=
  let s := with_ambient (materialize_ambient now_monotonic_ms (ambient s)) s in
  match interrupt s with
  | Some i => with_interrupt (Some (materialize_interrupt now_monotonic_ms i)) s
  | None => s
  end.

Definition freeze_ambient (now_ms : N) (a : AmbientState) : AmbientState :=
  with_ambient_position_anchor_ms None (materialize_ambient now_ms a).

(** The lane ticks while playing, unless an interrupt that does not duck it
    has taken over. *)
Definition ambient_anchor (s : PlaybackState) (now_ms : N) : option N :=
  if is_playing s
     && match interrupt s with
        | None => true
        | Some i => match interrupt_duck_to i with Some _ => true | None => false end
        end
  then Some now_ms else None.

Definition increment_position_epoch (s : PlaybackState) : result PlaybackError PlaybackState :=
  epoch ← ok_or PositionEpochOverflow (u64_checked_add (position_epoch s) 1);
  Ok (with_position_epoch epoch s).

(* ------------------------------------------------------------------ *)
(** ** Playback, mode, output and preset settings *)

Definition set_playing (playing : bool) (now_ms : N) (s : PlaybackState) : PlaybackState * bool :=
  if eqb (is_playing s) playing then (s, false)
  else if playing then
    let s := with_is_playing true s in
    match ambient_current_track_id (ambient s) with
    | Some _ =>
        (with_ambient (with_ambient_position_anchor_ms (ambient_anchor s now_ms) (ambient s)) s,
         true)
    | None => (s, true)
    end
  else
    let s := with_ambient (freeze_ambient now_ms (ambient s)) s in
    (with_is_playing false s, true).

Definition set_active_mode (mode_id : option string) (s : PlaybackState) : PlaybackState * bool :=
  if bool_decide (active_mode_id s = mode_id) then (s, false)
  else
    let s := with_active_mode_id mode_id s in
    let s := with_active_preset_ids [] s in
    (with_active_soundboard_id None s, true).

Definition register_device (device_id : string) (activate : bool) (s : PlaybackState)
    : PlaybackState * bool :=
  let '(s, changed) :=
    match device_volumes s !! device_id with
    | None =>
        (with_device_volumes (<[device_id := default_device_volume s]> (device_volumes s)) s, true)
    | Some _ => (s, false)
    end in
  let slot_free :=
    multiple_outputs s || match active_output_device_ids s with [] => true | _ => false end in
  if activate && slot_free && negb (contains device_id (active_output_device_ids s))
  then (with_active_output_device_ids (active_output_device_ids s ++ [device_id]) s, true)
  else (s, changed).

(** The last requested device that is not already active, else the last
    requested device. The index is always within the request. *)
Definition newest_output (current requested : list string) : list string :=
  if (length requested <=? 1)%nat then requested
  else
    let index := default (length requested - 1)%nat
                   (rposition (fun device_id => negb (contains device_id current)) requested) in
    match requested !! index with
    | Some device_id => [device_id]
    | None => []
    end.

Definition set_active_outputs (device_ids : list string) (s : PlaybackState)
    : PlaybackState * bool :=
  let device_ids :=
    if multiple_outputs s then device_ids
    else newest_output (active_output_device_ids s) device_ids in
  if bool_decide (active_output_device_ids s = device_ids) then (s, false)
  else (with_active_output_device_ids device_ids s, true).

Definition remove_active_output (device_id : string) (s : PlaybackState) : PlaybackState * bool :=
  let previous_length := length (active_output_device_ids s) in
  let s := with_active_output_device_ids
             (retain (fun active => negb (bool_decide (active = device_id)))
                (active_output_device_ids s)) s in
  (s, negb (length (active_output_device_ids s) =? previous_length)%nat).

Definition set_device_volume (device_id : string) (volume : UnitInterval) (s : PlaybackState)
    : PlaybackState * bool :=
  let same := match device_volumes s !! device_id with
              | Some current => unit_eqb current volume
              | None => false
              end in
  if same then (s, false)
  else (with_device_volumes (<[device_id := volume]> (device_volumes s)) s, true).

Definition set_active_soundboard (soundboard_id : option string) (s : PlaybackState)
    : PlaybackState * bool :=
  if bool_decide (active_soundboard_id s = soundboard_id) then (s, false)
  else (with_active_soundboard_id soundboard_id s, true).

Definition set_active_presets (preset_ids : list string) (crossfade : option N)
    (s : PlaybackState) : PlaybackState * bool :=
  let deduplicated := dedup preset_ids in
  let '(s, changed) :=
    if bool_decide (active_preset_ids s = deduplicated) then (s, false)
    else (with_active_preset_ids deduplicated s, true) in
  match crossfade with
  | Some milliseconds =>
      if negb (crossfade_ms s =? milliseconds)
      then (with_crossfade_ms milliseconds s, true)
      else (s, changed)
  | None => (s, changed)
  end.

Definition presets_changed (preset_ids : option (list string)) (crossfade : option N)
    (s : PlaybackState) : result PlaybackError (PlaybackState * bool) :=
  revision ← ok_or PresetRevisionOverflow (u64_checked_add (preset_revision s) 1);
  let s := with_preset_revision revision s in
  let s := match preset_ids with Some ids => with_active_preset_ids ids s | None => s end in
  let s := match crossfade with Some ms => with_crossfade_ms ms s | None => s end in
  Ok (s, true).

Definition set_crossfade (ms : N) (kind : option CrossfadeType) (s : PlaybackState)
    : PlaybackState * bool :=
  let next_type := default (crossfade_type s) kind in
  if (crossfade_ms s =? ms) && bool_decide (crossfade_type s = next_type) then (s, false)
  else (with_crossfade_type next_type (with_crossfade_ms ms s), true).

Definition report_position (device_id : string) (position_ms : N) (sample : ClockSample)
    (s : PlaybackState) : PlaybackState :=
  let s := with_last_position_report
             (Some (mkPositionReport device_id position_ms (unix_seconds sample))) s in
  match interrupt s with
  | Some i =>
      let i := with_interrupt_position_ms position_ms i in
      let i := match interrupt_position_anchor_ms i with
               | Some _ => with_interrupt_position_anchor_ms (Some (monotonic_ms sample)) i
               | None => i
               end in
      with_interrupt (Some i) s
  | None =>
      let a := with_ambient_position_ms position_ms (ambient s) in
      let a := match ambient_position_anchor_ms a with
               | Some _ => with_ambient_position_anchor_ms (Some (monotonic_ms sample)) a
               | None => a
               end in
      with_ambient a s
  end.

(* ------------------------------------------------------------------ *)
(** ** The ambient lane *)

(** An ambient state with the given loop and shuffle modes and every other
    field at its default, [AmbientState { .., ..AmbientState::default() }]. *)
Definition ambient_reset (a : AmbientState) : AmbientState :=
  with_ambient_shuffle (ambient_shuffle a)
    (with_ambient_loop_mode (ambient_loop_mode a) AmbientState_default).

(** [position_ms = 0; position_anchor_ms = anchor] *)
Definition rewind (anchor : option N) (a : AmbientState) : AmbientState :=
  with_ambient_position_anchor_ms anchor (with_ambient_position_ms 0 a).

(** [if let Some(current) = current_track_id { history.push(current) }] *)
Definition push_current (a : AmbientState) : AmbientState :=
  match ambient_current_track_id a with
  | Some current => with_ambient_history (ambient_history a ++ [current]) a
  | None => a
  end.

Definition ambient_play_track (track_id : TrackId) (now_ms : N) (s : PlaybackState)
    : result PlaybackError PlaybackState :=
  let s := with_is_playing true s in
  let a := with_ambient_position_anchor_ms (ambient_anchor s now_ms)
             (with_ambient_current_track_id (Some track_id) (ambient_reset (ambient s))) in
  increment_position_epoch (with_ambient a s).

Definition ambient_set_queue (track_ids : list TrackId) (s : PlaybackState)
    : PlaybackState * bool :=
  if bool_decide (ambient_queue (ambient s) = track_ids) then (s, false)
  else
    (with_ambient (with_ambient_source_playlist_id None
       (with_ambient_queue track_ids (ambient s))) s, true).

Definition ambient_jump_queue (position : nat) (now_ms : N) (s : PlaybackState)
    : result PlaybackError (PlaybackState * bool) :=
  match ambient_queue (ambient s) !! position with
  | None => Ok (s, false)
  | Some track_id =>
      let a := push_current (ambient s) in
      let a := with_ambient_current_track_id (Some track_id) a in
      let a := with_ambient_queue (drop (position + 1) (ambient_queue a)) a in
      let a := with_ambient_position_ms 0 a in
      let s := with_is_playing true (with_ambient a s) in
      let s := with_ambient
                 (with_ambient_position_anchor_ms (ambient_anchor s now_ms) (ambient s)) s in
      s ← increment_position_epoch s;
      Ok (s, true)
  end.

Definition ambient_enqueue (track_id : TrackId) (position : option nat) (s : PlaybackState)
    : PlaybackState :=
  let queue := ambient_queue (ambient s) in
  let index := Nat.min (default (length queue) position) (length queue) in
  with_ambient (with_ambient_queue (vec_insert index track_id queue) (ambient s)) s.

Definition ambient_clear_queue (s : PlaybackState) : PlaybackState * bool :=
  match ambient_queue (ambient s) with
  | [] => (s, false)
  | _ => (with_ambient (with_ambient_queue [] (ambient s)) s, true)
  end.

(** The index a queue advance takes: the front, or under random shuffle the
    explicit choice. *)
Definition advance_index (shuffle : ShuffleMode) (choice : option nat) (len : nat)
    : result PlaybackError nat :=
  match shuffle with
  | ShuffleMode_Random =>
      choice ← ok_or RandomChoiceRequired choice;
      if (len <=? choice)%nat then Err RandomChoiceOutOfRange else Ok choice
  | ShuffleMode_Off => Ok 0%nat
  end.

Definition ambient_skip_next (follow_next_id expected_track_id : option TrackId)
    (context : ReductionContext) (s : PlaybackState)
    : result PlaybackError (PlaybackState * bool) :=
  if bool_decide (is_Some expected_track_id)
     && negb (bool_decide (ambient_current_track_id (ambient s) = expected_track_id))
  then Ok (s, false)
  else if bool_decide (ambient_current_track_id (ambient s) = None)
          && bool_decide (ambient_queue (ambient s) = [])
  then Ok (s, false)
  else
  let anchor := ambient_anchor s (monotonic_ms (clock context)) in
  s ← increment_position_epoch s;
  let a := ambient s in
  if bool_decide (ambient_loop_mode a = LoopMode_Track)
     && bool_decide (is_Some (ambient_current_track_id a))
  then Ok (with_ambient (rewind anchor a) s, true)
  else if negb (bool_decide (ambient_queue a = [])) then
    index ← advance_index (ambient_shuffle a) (random_queue_index context)
              (length (ambient_queue a));
    let queue := ambient_queue a in
    let a := push_current a in
    let a := with_ambient_queue (vec_remove index queue)
               (with_ambient_current_track_id (queue !! index) a) in
    Ok (with_ambient (rewind anchor a) s, true)
  else if bool_decide (ambient_loop_mode a = LoopMode_Queue)
          && (negb (bool_decide (ambient_history a = []))
              || bool_decide (is_Some (ambient_current_track_id a)))
  then
    let sequence := ambient_history (push_current a) in
    let a := with_ambient_history [] a in
    let a := with_ambient_queue (drop 1 sequence)
               (with_ambient_current_track_id (head sequence) a) in
    Ok (with_ambient (rewind anchor a) s, true)
  else
    match follow_next_id with
    | Some follow =>
        if bool_decide (ambient_loop_mode a = LoopMode_Follow) then
          let a := with_ambient_current_track_id (Some follow) (push_current a) in
          let a := with_ambient_queue [] a in
          Ok (with_ambient (rewind anchor a) s, true)
        else
          let a := rewind None (with_ambient_current_track_id None a) in
          Ok (with_is_playing false (with_ambient a s), true)
    | None =>
        let a := rewind None (with_ambient_current_track_id None a) in
        Ok (with_is_playing false (with_ambient a s), true)
    end.

Definition ambient_skip_previous (now_ms : N) (s : PlaybackState)
    : result PlaybackError (PlaybackState * bool) :=
  let a := ambient s in
  if bool_decide (ambient_history a = []) && bool_decide (ambient_current_track_id a = None)
  then Ok (s, false)
  else
    let anchor := ambient_anchor s now_ms in
    let a :=
      match last (ambient_history a) with
      | Some previous =>
          let a := with_ambient_history (removelast (ambient_history a)) a in
          let a := match ambient_current_track_id a with
                   | Some current => with_ambient_queue (current :: ambient_queue a) a
                   | None => a
                   end in
          with_ambient_current_track_id (Some previous) a
      | None => a
      end in
    s ← increment_position_epoch (with_ambient (rewind anchor a) s);
    Ok (s, true).

Definition ambient_seek (position_ms now_ms : N) (s : PlaybackState)
    : result PlaybackError (PlaybackState * bool) :=
  match ambient_current_track_id (ambient s) with
  | None => Ok (s, false)
  | Some _ =>
      let a := with_ambient_position_ms (N.min position_ms MAX_POSITION_MS) (ambient s) in
      let a := with_ambient_position_anchor_ms (ambient_anchor s now_ms) a in
      s ← increment_position_epoch (with_ambient a s);
      Ok (s, true)
  end.

Definition ambient_set_loop (loop_mode : LoopMode) (s : PlaybackState) : PlaybackState * bool :=
  if bool_decide (ambient_loop_mode (ambient s) = loop_mode) then (s, false)
  else (with_ambient (with_ambient_loop_mode loop_mode (ambient s)) s, true).

Definition ambient_set_shuffle (shuffle : ShuffleMode) (s : PlaybackState)
    : PlaybackState * bool :=
  if bool_decide (ambient_shuffle (ambient s) = shuffle) then (s, false)
  else (with_ambient (with_ambient_shuffle shuffle (ambient s)) s, true).

Definition ambient_stop (s : PlaybackState) : result PlaybackError (PlaybackState * bool) :=
  let a := ambient s in
  if bool_decide (ambient_current_track_id a = None) && bool_decide (ambient_queue a = [])
     && bool_decide (ambient_history a = []) && (ambient_position_ms a =? 0)
  then Ok (s, false)
  else
    s ← increment_position_epoch (with_ambient (ambient_reset a) s);
    Ok (s, true).

Definition ambient_play_sequence (track_ids : list TrackId) (start_index : nat)
    (source_playlist_id : option Z) (now_ms : N) (s : PlaybackState)
    : result PlaybackError (PlaybackState * bool) :=
  match track_ids with
  | [] => Ok (s, false)
  | _ =>
      let index := Nat.min start_index (length track_ids - 1) in
      let s := with_is_playing true s in
      let a := {| ambient_current_track_id := track_ids !! index;
                  ambient_queue := drop (index + 1) track_ids;
                  ambient_history := take index track_ids;
                  ambient_position_ms := 0;
                  ambient_position_anchor_ms := ambient_anchor s now_ms;
                  ambient_loop_mode := ambient_loop_mode (ambient s);
                  ambient_shuffle := ambient_shuffle (ambient s);
                  ambient_source_playlist_id := source_playlist_id |} in
      s ← increment_position_epoch (with_ambient a s);
      Ok (s, true)
  end.

(* ------------------------------------------------------------------ *)
(** ** The interrupt lane *)

Definition fire_interrupt (track_ids : list TrackId) (fade : InterruptFade) (now_ms : N)
    (s : PlaybackState) : result PlaybackError (PlaybackState * bool) :=
  match track_ids with
  | [] => Ok (s, false)
  | current :: queue =>
      let s := match fade_duck_to fade with
               | None => with_ambient (freeze_ambient now_ms (ambient s)) s
               | Some _ => s
               end in
      let i := {| interrupt_current_track_id := current;
                  interrupt_queue := queue;
                  interrupt_position_ms := 0;
                  interrupt_position_anchor_ms := Some now_ms;
                  interrupt_return_to_ambient := fade_return_to_ambient fade;
                  interrupt_fade_in_ms := fade_fade_in_ms fade;
                  interrupt_fade_out_ms := fade_fade_out_ms fade;
                  interrupt_duck_to := fade_duck_to fade |} in
      let s := with_is_playing true (with_interrupt (Some i) s) in
      s ← increment_position_epoch s;
      Ok (s, true)
  end.

Definition end_interrupt (now_ms : N) (s : PlaybackState)
    : result PlaybackError (PlaybackState * bool) :=
  match interrupt s with
  | None => Ok (s, false)
  | Some i =>
      let s := with_interrupt None s in
      let s :=
        if interrupt_return_to_ambient i then
          if is_playing s && bool_decide (is_Some (ambient_current_track_id (ambient s)))
             && bool_decide (ambient_position_anchor_ms (ambient s) = None)
          then with_ambient (with_ambient_position_anchor_ms (Some now_ms) (ambient s)) s
          else s
        else
          let s := with_is_playing false s in
          with_ambient (freeze_ambient now_ms (ambient s)) s in
      s ← increment_position_epoch s;
      Ok (s, true)
  end.

Definition interrupt_skip_next (expected_track_id : option TrackId) (now_ms : N)
    (s : PlaybackState) : result PlaybackError (PlaybackState * bool) :=
  match interrupt s with
  | None => Ok (s, false)
  | Some i =>
      if bool_decide (is_Some expected_track_id)
         && negb (bool_decide (Some (interrupt_current_track_id i) = expected_track_id))
      then Ok (s, false)
      else
        match interrupt_queue i with
        | track_id :: queue =>
            let i := with_interrupt_queue queue (with_interrupt_current_track_id track_id i) in
            let i := with_interrupt_position_anchor_ms (Some now_ms)
                       (with_interrupt_position_ms 0 i) in
            s ← increment_position_epoch (with_interrupt (Some i) s);
            Ok (s, true)
        | [] => end_interrupt now_ms s
        end
  end.

Definition interrupt_seek (position_ms now_ms : N) (s : PlaybackState)
    : result PlaybackError (PlaybackState * bool) :=
  match interrupt s with
  | None => Ok (s, false)
  | Some i =>
      let i := with_interrupt_position_anchor_ms (Some now_ms)
                 (with_interrupt_position_ms (N.min position_ms MAX_POSITION_MS) i) in
      s ← increment_position_epoch (with_interrupt (Some i) s);
      Ok (s, true)
  end.

(* ------------------------------------------------------------------ *)
(** ** Looping effects and cues *)

Definition start_loop (looping : LoopingSfx) (s : PlaybackState) : PlaybackState :=
  with_looping_sfx
    (retain (fun existing => negb (bool_decide (loop_id existing = loop_id looping)))
       (looping_sfx s) ++ [looping]) s.

Definition stop_loop (id : string) (s : PlaybackState) : PlaybackState * bool :=
  let previous_length := length (looping_sfx s) in
  let s := with_looping_sfx
             (retain (fun looping => negb (bool_decide (loop_id looping = id)))
                (looping_sfx s)) s in
  (s, negb (length (looping_sfx s) =? previous_length)%nat).

(** [format!("cue:{}:", cue.cue_id)] *)
Definition loop_prefix (cue_id : string) : string := "cue:" +:+ cue_id +:+ ":".

Definition cue_loop_valid (prefix : string) (index : nat) (looping : LoopingSfx) : bool :=
  bool_decide (loop_id looping = prefix +:+ pretty index)
  && negb (is_empty (loop_name looping)) && negb (is_empty (loop_soundboard_id looping))
  && negb (is_empty (loop_item_path looping))
  && loop_interval_valid (loop_interval_seconds looping).

(** [loops.iter().enumerate().all(..)] from index [index]. *)
Fixpoint cue_loops_valid (prefix : string) (index : nat) (loops : list LoopingSfx) : bool :=
  match loops with
  | [] => true
  | looping :: loops =>
      cue_loop_valid prefix index looping && cue_loops_valid prefix (S index) loops
  end.

Definition cue_valid (cue : CuePlayback) (s : PlaybackState) : bool :=
  negb (is_empty (cue_mode_id cue)) && negb (is_empty (cue_id cue))
  && bool_decide (active_mode_id s = Some (cue_mode_id cue))
  && match cue_preset cue with
     | Some preset => negb (is_empty (cue_preset_id preset))
     | None => true
     end
  && match cue_playlist cue with
     | Some playlist =>
         negb (bool_decide (cue_track_ids playlist = []))
         && (0 <? cue_source_playlist_id playlist)%Z
     | None => true
     end
  && cue_loops_valid (loop_prefix (cue_id cue)) 0 (cue_loops cue)
  && forallb (fun sfx => negb (is_empty (cue_sfx_soundboard_id sfx))
                         && negb (is_empty (cue_sfx_item_path sfx))) (cue_sfx cue).

Definition sfx_event (sfx : CueSfx) : DomainEvent :=
  SfxFired (cue_sfx_soundboard_id sfx) (cue_sfx_item_path sfx) (cue_sfx_volume sfx).

Definition cue_apply_playlist (playlist : CuePlaylist) (now_ms : N) (s : PlaybackState)
    : result PlaybackError PlaybackState :=
  '(s, _) ← ambient_play_sequence (cue_track_ids playlist) (cue_start_index playlist)
              (Some (cue_source_playlist_id playlist)) now_ms s;
  if 0 <? cue_start_ms playlist then
    let a := with_ambient_position_ms (N.min (cue_start_ms playlist) MAX_POSITION_MS)
               (ambient s) in
    Ok (with_ambient (with_ambient_position_anchor_ms (ambient_anchor s now_ms) a) s)
  else Ok s.

(** Returns the state, whether it changed, and the events in emission order. *)
Definition fire_cue (cue : CuePlayback) (now_ms : N) (s : PlaybackState)
    : result PlaybackError (PlaybackState * bool * list DomainEvent) :=
  if negb (cue_valid cue s) then Err InvalidCuePlayback
  else
    let '(s, changed) :=
      match cue_preset cue with
      | Some preset =>
          set_active_presets [cue_preset_id preset] (cue_preset_crossfade_ms preset) s
      | None => (s, false)
      end in
    '(s, changed) ← match cue_playlist cue with
                    | Some playlist =>
                        s ← cue_apply_playlist playlist now_ms s; Ok (s, true)
                    | None => Ok (s, changed)
                    end;
    let previous_loop_count := length (looping_sfx s) in
    let kept := retain (fun looping =>
                  negb (starts_with (loop_prefix (cue_id cue)) (loop_id looping)))
                  (looping_sfx s) in
    let changed := changed || negb (length kept =? previous_loop_count)%nat in
    let s := with_looping_sfx (kept ++ cue_loops cue) s in
    let changed := changed || negb (bool_decide (length (cue_loops cue) = 0%nat)) in
    Ok (s, changed, map LoopStarted (cue_loops cue) ++ map sfx_event (cue_sfx cue)).

(* ------------------------------------------------------------------ *)
(** ** The reducer *)

(** What a command does before the common tail of [reduce]: the state, whether
    it changed, whether to publish, the persistence intent, and the events. *)
Definition applied : Type :=
  PlaybackState * bool * bool * PersistenceIntent * list DomainEvent.

(** The initial values of [publish_state], [persistence] and [events]. *)
Definition durable (step : PlaybackState * bool) : applied :=
  (step, true, PersistenceIntent_Immediate, []).

Definition apply_command (current : PlaybackState) (command : PlaybackCommand)
    (context : ReductionContext) : result PlaybackError applied :=
  let now_ms := monotonic_ms (clock context) in
  match command with
  | SetPlaying playing => Ok (durable (set_playing playing now_ms current))
  | SetActiveMode mode_id => Ok (durable (set_active_mode mode_id current))
  | SetActiveOutputs device_ids => Ok (durable (set_active_outputs device_ids current))
  | RegisterDevice device_id activate =>
      Ok (durable (register_device device_id activate current))
  | RemoveActiveOutput device_id => Ok (durable (remove_active_output device_id current))
  | SetDeviceVolume device_id volume =>
      Ok (durable (set_device_volume device_id volume current))
  | SetActiveSoundboard soundboard_id =>
      Ok (durable (set_active_soundboard soundboard_id current))
  | SetActivePresets preset_ids crossfade =>
      Ok (durable (set_active_presets preset_ids crossfade current))
  | PresetsChanged preset_ids crossfade =>
      step ← presets_changed preset_ids crossfade current; Ok (durable step)
  | SetCrossfade ms kind => Ok (durable (set_crossfade ms kind current))
  | ReportPosition device_id position_ms =>
      let s := report_position device_id (N.min position_ms MAX_POSITION_MS)
                 (clock context) current in
      Ok (s, true, false, PersistenceIntent_Throttled, [])
  | AmbientPlayTrack track_id =>
      s ← ambient_play_track track_id now_ms current; Ok (durable (s, true))
  | AmbientSetQueue track_ids => Ok (durable (ambient_set_queue track_ids current))
  | AmbientJumpQueue position =>
      step ← ambient_jump_queue position now_ms current; Ok (durable step)
  | AmbientEnqueue track_id position =>
      Ok (durable (ambient_enqueue track_id position current, true))
  | AmbientClearQueue => Ok (durable (ambient_clear_queue current))
  | AmbientSkipNext follow_next_id expected_track_id =>
      step ← ambient_skip_next follow_next_id expected_track_id context current;
      Ok (durable step)
  | AmbientSkipPrevious =>
      step ← ambient_skip_previous now_ms current; Ok (durable step)
  | AmbientSeek position_ms =>
      step ← ambient_seek position_ms now_ms current; Ok (durable step)
  | AmbientSetLoop loop_mode => Ok (durable (ambient_set_loop loop_mode current))
  | AmbientSetShuffle shuffle => Ok (durable (ambient_set_shuffle shuffle current))
  | AmbientStop => step ← ambient_stop current; Ok (durable step)
  | AmbientPlaySequence track_ids start_index source_playlist_id =>
      step ← ambient_play_sequence track_ids start_index source_playlist_id now_ms current;
      Ok (durable step)
  | FireInterruptSequence track_ids fade =>
      step ← fire_interrupt track_ids fade now_ms current; Ok (durable step)
  | InterruptSkipNext expected_track_id =>
      step ← interrupt_skip_next expected_track_id now_ms current; Ok (durable step)
  | InterruptSeek position_ms =>
      step ← interrupt_seek position_ms now_ms current; Ok (durable step)
  | CancelInterrupt => step ← end_interrupt now_ms current; Ok (durable step)
  | FireCue cue =>
      '(s, changed, evs) ← fire_cue cue now_ms current;
      Ok (s, changed, changed,
          if changed : bool then PersistenceIntent_Immediate else PersistenceIntent_None, evs)
  | FireSfx soundboard_id item_path volume =>
      Ok (current, false, false, PersistenceIntent_None,
          [SfxFired soundboard_id item_path volume])
  | StartLoop looping =>
      Ok (start_loop looping current, true, true, PersistenceIntent_Immediate,
          [LoopStarted looping])
  | StopLoop id =>
      let '(s, changed) := stop_loop id current in
      Ok (s, changed, true, PersistenceIntent_Immediate,
          if changed then [LoopStopped id] else [])
  end.

Definition reduce (current : PlaybackState) (command : PlaybackCommand)
    (context : ReductionContext) : result PlaybackError Reduction :=
  '(s, changed, publish, persist, evs) ← apply_command current command context;
  if negb changed && bool_decide (length evs = 0%nat)
  then Ok (mkReduction s changed false PersistenceIntent_None evs)
  else Ok (mkReduction s changed publish persist evs).

(** [direct_context] of the actor and of every command without a choice. *)
Definition direct_context (sample : ClockSample) : ReductionContext :=
  mkReductionContext sample None.
