(* ===== verification/ReducerLemmas.v ===== *)
(** * Lemmas on the reducer

    The tactics that open a reduction, the outcomes of a queue advance, and the
    abstract specification of the two lanes: [lane_step] lists the only ways in
    which a command may move the clock, and every operation of the reducer is
    one of them. The theorems about [reduce] are in [ReducerSpec.v]. *)

From S2P Require Import Prelude PlaybackState Reducer.

#[local] Open Scope N_scope.

(* ------------------------------------------------------------------ *)
(** ** Opening a reduction *)

(** Case analysis on every test of an operation, keeping what was tested. *)
Ltac open_step :=
  repeat (inv_results; simplify_eq/=;
          first [ match goal with
                  | H : context [bool_decide ?P] |- _ => destruct (bool_decide_reflect P)
                  end
                | match goal with
                  | H : context [if ?b then _ else _] |- _ =>
                      lazymatch b with context [if _ then _ else _] => fail | _ => destruct b eqn:? end
                  | H : context [match ?x with _ => _ end] |- _ =>
                      lazymatch x with
                      | context [match _ with _ => _ end] => fail
                      | _ => destruct x eqn:?
                      end
                  end ]);
  inv_results; simplify_eq/=.

Lemma increment_position_epoch_ok s s' :
  increment_position_epoch s = Ok s' ->
  position_epoch s + 1 <= u64_max /\ s' = with_position_epoch (position_epoch s + 1) s.
Proof.
  unfold increment_position_epoch. intros H. inv_results.
  by apply u64_checked_add_Some in Heqo as [-> ?].
Qed.

Lemma increment_position_epoch_err s e :
  increment_position_epoch s = Err e ->
  e = PositionEpochOverflow /\ u64_max < position_epoch s + 1.
Proof.
  unfold increment_position_epoch. destruct (u64_checked_add _ _) eqn:Ho; cbn; intros [= <-].
  split; [done|]. by apply u64_checked_add_None.
Qed.

(** Replaces every successful epoch increment by its effect. *)
Ltac epoch_ok :=
  repeat match goal with
  | H : increment_position_epoch _ = Ok _ |- _ =>
      apply increment_position_epoch_ok in H as [? ->]
  end.

(** Case analysis on the step of one operation. *)
Ltac op_cases op :=
  unfold op; intros; open_step; epoch_ok; simplify_eq/=.

(* ------------------------------------------------------------------ *)
(** ** The outcomes of a queue advance *)

(** [skip_case follow choice a a' plays]: an advance from [a] selects the track
    of [a'] (position aside), and leaves playback on iff [plays]. *)
Inductive skip_case (follow : option TrackId) (choice : option nat) (a : AmbientState)
  : AmbientState -> bool -> Prop :=
| skip_repeat track_id :
    ambient_loop_mode a = LoopMode_Track ->
    ambient_current_track_id a = Some track_id ->
    skip_case follow choice a a true
| skip_advance index track_id :
    ~ (ambient_loop_mode a = LoopMode_Track /\ is_Some (ambient_current_track_id a)) ->
    advance_index (ambient_shuffle a) choice (length (ambient_queue a)) = Ok index ->
    ambient_queue a !! index = Some track_id ->
    skip_case follow choice a
      (with_ambient_queue (vec_remove index (ambient_queue a))
         (with_ambient_current_track_id (Some track_id) (push_current a))) true
| skip_wrap track_id rest :
    ambient_loop_mode a = LoopMode_Queue ->
    ambient_queue a = [] ->
    ambient_history (push_current a) = track_id :: rest ->
    skip_case follow choice a
      (with_ambient_queue rest
         (with_ambient_current_track_id (Some track_id) (with_ambient_history [] a))) true
| skip_follow track_id :
    ambient_loop_mode a = LoopMode_Follow ->
    ambient_queue a = [] ->
    follow = Some track_id ->
    skip_case follow choice a
      (with_ambient_queue []
         (with_ambient_current_track_id (Some track_id) (push_current a))) true
| skip_end :
    ambient_queue a = [] ->
    ~ (ambient_loop_mode a = LoopMode_Track /\ is_Some (ambient_current_track_id a)) ->
    ~ (ambient_loop_mode a = LoopMode_Queue /\ is_Some (ambient_current_track_id a)) ->
    ~ (ambient_loop_mode a = LoopMode_Follow /\ is_Some follow) ->
    skip_case follow choice a (with_ambient_current_track_id None a) false.

(** The guard of an advance: the observed track is stale, or there is nothing
    to advance from. *)
Definition skip_refused (expected : option TrackId) (a : AmbientState) : bool :=
  bool_decide (is_Some expected) && negb (bool_decide (ambient_current_track_id a = expected))
  || bool_decide (ambient_current_track_id a = None) && bool_decide (ambient_queue a = []).

Lemma advance_index_lt shuffle choice (queue : list TrackId) index :
  queue <> [] -> advance_index shuffle choice (length queue) = Ok index ->
  is_Some (queue !! index).
Proof.
  intros Hq H. apply lookup_lt_is_Some. unfold advance_index in H.
  destruct shuffle; [injection H as <-; destruct queue; [done|cbn; lia]|].
  destruct choice as [i|]; [cbn in H|done].
  destruct (Nat.leb_spec (length queue) i); [done|]. by injection H as <-.
Qed.

Lemma push_current_history a :
  ambient_history (push_current a)
  = ambient_history a ++ option_list (ambient_current_track_id a).
Proof. unfold push_current. destruct (ambient_current_track_id a); cbn; by rewrite ?app_nil_r. Qed.

Lemma push_current_queue a : ambient_queue (push_current a) = ambient_queue a.
Proof. unfold push_current. by destruct (ambient_current_track_id a). Qed.

Lemma push_current_loop_mode a : ambient_loop_mode (push_current a) = ambient_loop_mode a.
Proof. unfold push_current. by destruct (ambient_current_track_id a). Qed.

Lemma ambient_skip_next_refused follow expected context s :
  skip_refused expected (ambient s) = true ->
  ambient_skip_next follow expected context s = Ok (s, false).
Proof.
  unfold skip_refused, ambient_skip_next. intros H. destruct (_ && negb _); [done|].
  cbn in H. by rewrite H.
Qed.

Lemma ambient_skip_next_accepted follow expected context s s' b :
  skip_refused expected (ambient s) = false ->
  ambient_skip_next follow expected context s = Ok (s', b) ->
  b = true /\ position_epoch s + 1 <= u64_max /\
  exists a' plays,
    skip_case follow (random_queue_index context) (ambient s) a' plays /\
    let moved := with_position_epoch (position_epoch s + 1) s in
    s' = if plays : bool
         then with_ambient
                (rewind (ambient_anchor s (monotonic_ms (clock context))) a') moved
         else with_is_playing false (with_ambient (rewind None a') moved).
Proof.
  unfold skip_refused, ambient_skip_next. intros [-> ->]%orb_false_elim H.
  apply bind_ok in H as (s1 & Hs & H). apply increment_position_epoch_ok in Hs as [Hmax ->].
  change (ambient (with_position_epoch _ s)) with (ambient s) in H.
  destruct (bool_decide (_ = LoopMode_Track) && _) eqn:Htrack.
  { apply andb_prop in Htrack as [?%bool_decide_eq_true [t Ht]%bool_decide_eq_true].
    injection H as <- <-. split_and!; [done..|]. by eexists _, true; split; [eapply skip_repeat|]. }
  assert (~ (ambient_loop_mode (ambient s) = LoopMode_Track
             /\ is_Some (ambient_current_track_id (ambient s)))) as Hnt.
  { intros [H1 H2]. rewrite !bool_decide_true in Htrack by done. done. }
  case_bool_decide as Hq; cbn in H.
  - destruct (bool_decide (_ = LoopMode_Queue) && _) eqn:Hqueue.
    { apply andb_prop in Hqueue as [?%bool_decide_eq_true Hne].
      injection H as <- <-. split_and!; [done..|].
      destruct (ambient_history (push_current (ambient s))) as [|t rest] eqn:Hseq.
      { exfalso. rewrite push_current_history in Hseq. apply app_eq_nil in Hseq as [Hh Hc].
        rewrite Hh in Hne. destruct (ambient_current_track_id (ambient s)); done. }
      eexists _, true. split; [by eapply skip_wrap|done]. }
    assert (~ (ambient_loop_mode (ambient s) = LoopMode_Queue
               /\ is_Some (ambient_current_track_id (ambient s)))) as Hnq.
    { intros [H1 H2]. apply andb_false_iff in Hqueue as [Hqueue|[_ Hqueue]%orb_false_elim];
        by apply bool_decide_eq_false in Hqueue. }
    destruct follow as [f|]; [case_bool_decide as Hf|]; injection H as <- <-;
      (split_and!; [done..|]).
    + eexists _, true. split; [by eapply skip_follow|done].
    + eexists _, false. split; [apply skip_end; naive_solver|done].
    + eexists _, false. split; [apply skip_end; try done; by intros [_ []]|done].
  - apply bind_ok in H as (index & Hindex & H). injection H as <- <-.
    destruct (advance_index_lt _ _ _ _ Hq Hindex) as [t Ht].
    split_and!; [done..|]. eexists _, true.
    split; [by eapply skip_advance|]. by rewrite Ht.
Qed.

(* ------------------------------------------------------------------ *)
(** * Concrete states and commands *)

#[local] Open Scope N_scope.

Definition sample_at (ms : N) : ClockSample := mkClockSample ms (f64_of_Z 1700000000).
Definition context_at (ms : N) : ReductionContext := direct_context (sample_at ms).

(** Track 1 on air since monotonic instant 1000 at position 5000, tracks 2 and
    3 queued, track 9 in the history. *)
Definition sample_ambient : AmbientState := {|
  ambient_current_track_id := Some 1%positive;
  ambient_queue := [2%positive; 3%positive];
  ambient_history := [9%positive];
  ambient_position_ms := 5000;
  ambient_position_anchor_ms := Some 1000;
  ambient_loop_mode := LoopMode_Off;
  ambient_shuffle := ShuffleMode_Off;
  ambient_source_playlist_id := None |}.

Definition sample_loop (id : string) : LoopingSfx :=
  mkLoopingSfx id "Rain" "weather" "rain.ogg" (f64_of_Z 30) UnitInterval_default.

Definition playing_state : PlaybackState :=
  with_ambient sample_ambient
    (with_active_output_device_ids ["tablet"%string]
       (with_looping_sfx [sample_loop "thunder"%string]
          (with_is_playing true
             (with_active_mode_id (Some "dnd"%string) PlaybackState_default)))).

Definition sample_fade : InterruptFade := mkInterruptFade true 500 500 None.

(** The state after an interrupt of tracks 7 and 8 fired at instant 2000. *)
Definition interrupted_state : PlaybackState :=
  match reduce playing_state
          (FireInterruptSequence [7%positive; 8%positive] sample_fade) (context_at 2000) with
  | Ok r => next_state r
  | Err _ => playing_state
  end.

Definition sample_cue : CuePlayback := {|
  cue_mode_id := "dnd"; cue_id := "battle";
  cue_preset := Some (mkCuePreset "tense" (Some 2000));
  cue_playlist := Some (mkCuePlaylist [4%positive; 5%positive; 6%positive] 1 30000 12);
  cue_loops := [sample_loop "cue:battle:0"];
  cue_sfx := [mkCueSfx "weather" "thunder.ogg" UnitInterval_default] |}.
