(* ===== verification/LaneSpec.v ===== *)
(** * Abstract specification of the playback lanes

    [lane_step rep now s s'] lists the only ways a command may move the two lanes
    and their clock: keep, pause, resume, report, move, halt, take over, move
    within the interrupt, hand back. Every operation of the reducer is shown to
    be one of them, so that the invariants of the clock are proved once per
    rule and not once per command. *)

From S2P Require Import Prelude PlaybackState Reducer ReducerLemmas.

#[local] Open Scope N_scope.

(** What a lane plays and where, leaving out its queue and modes. *)
Definition cursor (a : AmbientState) : option TrackId * N * option N :=
  (ambient_current_track_id a, ambient_position_ms a, ambient_position_anchor_ms a).

(** The fields of the state that [lane_step] constrains. *)
Definition same_lanes (s s' : PlaybackState) : Prop :=
  is_playing s' = is_playing s /\ position_epoch s' = position_epoch s /\
  interrupt s' = interrupt s /\ cursor (ambient s') = cursor (ambient s).

Inductive lane_step (reported : bool) (now : N) (s s' : PlaybackState) : Prop :=
| Lane_Keep : same_lanes s s' -> lane_step reported now s s'
| Lane_Pause :
    is_playing s = true -> is_playing s' = false ->
    position_epoch s' = position_epoch s -> interrupt s' = interrupt s ->
    ambient s' = freeze_ambient now (ambient s) ->
    lane_step reported now s s'
| Lane_Resume :
    is_playing s = false -> is_playing s' = true ->
    position_epoch s' = position_epoch s -> interrupt s' = interrupt s ->
    ambient s' = (if ambient_current_track_id (ambient s)
                  then with_ambient_position_anchor_ms (ambient_anchor s' now) (ambient s)
                  else ambient s) ->
    lane_step reported now s s'
| Lane_Report device position sample :
    reported = true ->
    position <= MAX_POSITION_MS -> monotonic_ms sample = now ->
    s' = report_position device position sample s ->
    lane_step reported now s s'
| Lane_Move :
    position_epoch s' = position_epoch s + 1 -> position_epoch s' <= u64_max ->
    interrupt s' = interrupt s ->
    (is_playing s = true -> is_playing s' = true) ->
    is_Some (ambient_current_track_id (ambient s')) ->
    ambient_position_ms (ambient s') <= MAX_POSITION_MS ->
    ambient_position_anchor_ms (ambient s') = ambient_anchor s' now ->
    lane_step reported now s s'
| Lane_Halt :
    position_epoch s' = position_epoch s + 1 -> position_epoch s' <= u64_max ->
    interrupt s' = interrupt s ->
    ambient_current_track_id (ambient s') = None ->
    ambient_position_ms (ambient s') = 0 ->
    ambient_position_anchor_ms (ambient s') = None ->
    lane_step reported now s s'
| Lane_TakeOver i :
    position_epoch s' = position_epoch s + 1 -> position_epoch s' <= u64_max ->
    is_playing s' = true -> interrupt s' = Some i ->
    interrupt_position_ms i = 0 -> interrupt_position_anchor_ms i = Some now ->
    ambient s' = (if interrupt_duck_to i then ambient s else freeze_ambient now (ambient s)) ->
    lane_step reported now s s'
| Lane_InterruptMove i i' :
    position_epoch s' = position_epoch s + 1 -> position_epoch s' <= u64_max ->
    is_playing s' = is_playing s -> ambient s' = ambient s ->
    interrupt s = Some i -> interrupt s' = Some i' ->
    interrupt_position_ms i' <= MAX_POSITION_MS ->
    interrupt_position_anchor_ms i' = Some now ->
    interrupt_duck_to i' = interrupt_duck_to i ->
    lane_step reported now s s'
| Lane_HandBack i :
    position_epoch s' = position_epoch s + 1 -> position_epoch s' <= u64_max ->
    interrupt s = Some i -> interrupt s' = None ->
    interrupt_return_to_ambient i = true -> is_playing s' = is_playing s ->
    (ambient s' = ambient s \/
     is_playing s = true /\ is_Some (ambient_current_track_id (ambient s)) /\
     ambient_position_anchor_ms (ambient s) = None /\
     ambient s' = with_ambient_position_anchor_ms (Some now) (ambient s)) ->
    lane_step reported now s s'
| Lane_HandBackPaused i :
    position_epoch s' = position_epoch s + 1 -> position_epoch s' <= u64_max ->
    interrupt s = Some i -> interrupt s' = None ->
    interrupt_return_to_ambient i = false -> is_playing s' = false ->
    ambient s' = freeze_ambient now (ambient s) ->
    lane_step reported now s s'.

Create HintDb lanes discriminated.

Lemma same_lanes_refl s : same_lanes s s.
Proof. done. Qed.

Lemma Lane_refl rep now s : lane_step rep now s s.
Proof. by apply Lane_Keep. Qed.
#[export] Hint Resolve Lane_refl : lanes.

Lemma set_playing_lanes rep playing now s s' b :
  set_playing playing now s = (s', b) -> lane_step rep now s s'.
Proof.
  unfold set_playing. destruct (eqb (is_playing s) playing) eqn:Heq.
  { intros [= <- <-]. auto with lanes. }
  destruct playing.
  - assert (is_playing s = false) by by destruct (is_playing s).
    destruct (ambient_current_track_id _) eqn:Hc; intros [= <- <-];
      apply Lane_Resume; cbn in *; by rewrite ?Hc.
  - assert (is_playing s = true) by by destruct (is_playing s).
    intros [= <- <-]. by apply Lane_Pause.
Qed.

Lemma report_position_lanes device position sample s :
  position <= MAX_POSITION_MS ->
  lane_step true (monotonic_ms sample) s (report_position device position sample s).
Proof. intros. by eapply Lane_Report. Qed.

Lemma ambient_play_track_lanes rep track_id now s s' :
  ambient_play_track track_id now s = Ok s' -> lane_step rep now s s'.
Proof.
  unfold ambient_play_track. intros H. epoch_ok.
  apply Lane_Move; cbn; done || lia.
Qed.

Lemma ambient_jump_queue_lanes rep position now s s' b :
  ambient_jump_queue position now s = Ok (s', b) -> lane_step rep now s s'.
Proof. op_cases ambient_jump_queue; auto with lanes; apply Lane_Move; cbn; done || lia. Qed.

Lemma skip_case_current follow choice a a' plays :
  skip_case follow choice a a' plays ->
  if plays then is_Some (ambient_current_track_id a') else ambient_current_track_id a' = None.
Proof. destruct 1; cbn; try done; congruence || eauto. Qed.

Lemma ambient_skip_next_lanes rep follow expected context s s' b :
  ambient_skip_next follow expected context s = Ok (s', b) ->
  lane_step rep (monotonic_ms (clock context)) s s'.
Proof.
  intros H. destruct (skip_refused expected (ambient s)) eqn:Hr.
  { rewrite ambient_skip_next_refused in H by done. injection H as <- <-. auto with lanes. }
  apply ambient_skip_next_accepted in H as (_ & ? & a' & plays & Hc & ->); [|done].
  apply skip_case_current in Hc. destruct plays.
  - apply Lane_Move; cbn; done || lia.
  - apply Lane_Halt; cbn; done || lia.
Qed.

Lemma ambient_skip_previous_lanes rep now s s' b :
  ambient_skip_previous now s = Ok (s', b) -> lane_step rep now s s'.
Proof.
  unfold ambient_skip_previous. intros H.
  destruct (_ && _) eqn:Hidle; [injection H as <- <-; auto with lanes|].
  inv_results. epoch_ok.
  apply Lane_Move; cbn; try done || lia.
  destruct (last (ambient_history (ambient s))) eqn:Hl; cbn; [done|].
  apply last_None in Hl. rewrite Hl in Hidle. cbn in Hidle.
  apply bool_decide_eq_false in Hidle. by apply not_eq_None_Some.
Qed.

Lemma ambient_seek_lanes rep position now s s' b :
  ambient_seek position now s = Ok (s', b) -> lane_step rep now s s'.
Proof.
  op_cases ambient_seek; auto with lanes. apply Lane_Move; cbn; done || lia || by rewrite Heqo.
Qed.

Lemma ambient_stop_lanes rep now s s' b : ambient_stop s = Ok (s', b) -> lane_step rep now s s'.
Proof.
  unfold ambient_stop. intros H. destruct (_ && _) eqn:Hidle;
    [injection H as <- <-; auto with lanes|].
  inv_results. epoch_ok. apply Lane_Halt; cbn; done || lia.
Qed.

Lemma ambient_play_sequence_lanes rep tracks start source now s s' b :
  ambient_play_sequence tracks start source now s = Ok (s', b) ->
  lane_step rep now s s' /\ (tracks <> [] -> b = true /\ is_playing s' = true /\
    position_epoch s' = position_epoch s + 1 /\ position_epoch s' <= u64_max /\
    interrupt s' = interrupt s /\ is_Some (ambient_current_track_id (ambient s')) /\
    ambient s' = with_ambient_position_anchor_ms (ambient_anchor s' now) (ambient s')).
Proof.
  unfold ambient_play_sequence. destruct tracks as [|t ts]; intros H; inv_results.
  { split; [auto with lanes|done]. }
  epoch_ok. simplify_eq.
  assert (is_Some ((t :: ts) !! Nat.min start (length (t :: ts) - 1)))
    by (apply lookup_lt_is_Some; cbn; lia).
  split; [apply Lane_Move; cbn; done || lia|]. intros _. cbn. split_and!; done || lia.
Qed.

Lemma fire_interrupt_lanes rep tracks fade now s s' b :
  fire_interrupt tracks fade now s = Ok (s', b) -> lane_step rep now s s'.
Proof.
  unfold fire_interrupt. destruct tracks as [|t ts]; intros H; inv_results; auto with lanes.
  epoch_ok. simplify_eq.
  destruct (fade_duck_to fade) eqn:Hd; cbn -[u64_max] in *;
    eapply Lane_TakeOver; cbn; try done || lia; by rewrite Hd.
Qed.

Lemma end_interrupt_lanes rep now s s' b : end_interrupt now s = Ok (s', b) -> lane_step rep now s s'.
Proof.
  unfold end_interrupt. destruct (interrupt s) as [i|] eqn:Hi; intros H; inv_results;
    auto with lanes.
  epoch_ok. simplify_eq. destruct (interrupt_return_to_ambient i) eqn:Hr.
  - destruct (_ && _) eqn:Hc; eapply Lane_HandBack; cbn in *; try done || lia; [|by left].
    right. apply andb_prop in Hc as [[-> ?%bool_decide_eq_true]%andb_prop ?%bool_decide_eq_true].
    done.
  - eapply Lane_HandBackPaused; cbn in *; done || lia.
Qed.

Lemma interrupt_skip_next_lanes rep expected now s s' b :
  interrupt_skip_next expected now s = Ok (s', b) -> lane_step rep now s s'.
Proof.
  unfold interrupt_skip_next. destruct (interrupt s) as [i|] eqn:Hi; intros H;
    [|inv_results; auto with lanes].
  destruct (_ && _); [inv_results; auto with lanes|].
  destruct (interrupt_queue i) as [|t ts]; [by eapply end_interrupt_lanes|].
  inv_results. epoch_ok. simplify_eq. eapply Lane_InterruptMove; cbn; done || lia.
Qed.

Lemma interrupt_seek_lanes rep position now s s' b :
  interrupt_seek position now s = Ok (s', b) -> lane_step rep now s s'.
Proof.
  unfold interrupt_seek. destruct (interrupt s) as [i|] eqn:Hi; intros H; inv_results;
    auto with lanes.
  epoch_ok. simplify_eq. eapply Lane_InterruptMove; try done; cbn -[N.min]; lia.
Qed.

#[export] Hint Resolve set_playing_lanes report_position_lanes ambient_play_track_lanes
  ambient_jump_queue_lanes ambient_skip_next_lanes ambient_skip_previous_lanes
  ambient_seek_lanes ambient_stop_lanes fire_interrupt_lanes end_interrupt_lanes
  interrupt_skip_next_lanes interrupt_seek_lanes : lanes.

(* ------------------------------------------------------------------ *)
(** ** Settings keep the lanes *)

(** A state that differs from another only outside the lanes. *)
Definition settings_step (s s' : PlaybackState) : Prop :=
  is_playing s' = is_playing s /\ position_epoch s' = position_epoch s /\
  interrupt s' = interrupt s /\ ambient s' = ambient s.

Lemma settings_step_lanes rep now s s' : settings_step s s' -> lane_step rep now s s'.
Proof. intros (? & ? & ? & Ha). apply Lane_Keep. unfold same_lanes. by rewrite Ha. Qed.

Ltac settings op :=
  unfold op; intros; repeat split_match; simplify_eq/=; done.

Lemma set_active_mode_settings mode s s' b :
  set_active_mode mode s = (s', b) -> settings_step s s'.
Proof. settings set_active_mode. Qed.

Lemma register_device_settings device activate s s' b :
  register_device device activate s = (s', b) -> settings_step s s'.
Proof. settings register_device. Qed.

Lemma set_active_outputs_settings devices s s' b :
  set_active_outputs devices s = (s', b) -> settings_step s s'.
Proof.
  unfold set_active_outputs. generalize (if multiple_outputs s then devices
    else newest_output (active_output_device_ids s) devices).
  intros l. case_match; by intros [= <- <-].
Qed.

Lemma remove_active_output_settings device s s' b :
  remove_active_output device s = (s', b) -> settings_step s s'.
Proof. settings remove_active_output. Qed.

Lemma set_device_volume_settings device volume s s' b :
  set_device_volume device volume s = (s', b) -> settings_step s s'.
Proof. settings set_device_volume. Qed.

Lemma set_active_soundboard_settings board s s' b :
  set_active_soundboard board s = (s', b) -> settings_step s s'.
Proof. settings set_active_soundboard. Qed.

Lemma set_active_presets_settings presets crossfade s s' b :
  set_active_presets presets crossfade s = (s', b) -> settings_step s s'.
Proof. settings set_active_presets. Qed.

Lemma presets_changed_settings presets crossfade s s' b :
  presets_changed presets crossfade s = Ok (s', b) -> settings_step s s'.
Proof.
  unfold presets_changed. intros H. inv_results.
  by destruct presets, crossfade.
Qed.

Lemma set_crossfade_settings ms kind s s' b :
  set_crossfade ms kind s = (s', b) -> settings_step s s'.
Proof. settings set_crossfade. Qed.

Lemma stop_loop_settings id s s' b : stop_loop id s = (s', b) -> settings_step s s'.
Proof. settings stop_loop. Qed.

#[export] Hint Resolve settings_step_lanes set_active_mode_settings register_device_settings
  set_active_outputs_settings remove_active_output_settings set_device_volume_settings
  set_active_soundboard_settings set_active_presets_settings presets_changed_settings
  set_crossfade_settings stop_loop_settings : lanes.

(** Queue and mode edits keep the cursor. *)
Lemma ambient_edit_lanes rep now s a :
  cursor a = cursor (ambient s) -> lane_step rep now s (with_ambient a s).
Proof. intros. by apply Lane_Keep. Qed.

Lemma ambient_set_queue_lanes rep tracks now s s' b :
  ambient_set_queue tracks s = (s', b) -> lane_step rep now s s'.
Proof. unfold ambient_set_queue. case_match; intros [= <- <-]; auto using ambient_edit_lanes with lanes. Qed.

Lemma ambient_clear_queue_lanes rep now s s' b :
  ambient_clear_queue s = (s', b) -> lane_step rep now s s'.
Proof. unfold ambient_clear_queue. case_match; intros [= <- <-]; auto using ambient_edit_lanes with lanes. Qed.

Lemma ambient_set_loop_lanes rep mode now s s' b :
  ambient_set_loop mode s = (s', b) -> lane_step rep now s s'.
Proof. unfold ambient_set_loop. case_match; intros [= <- <-]; auto using ambient_edit_lanes with lanes. Qed.

Lemma ambient_set_shuffle_lanes rep mode now s s' b :
  ambient_set_shuffle mode s = (s', b) -> lane_step rep now s s'.
Proof. unfold ambient_set_shuffle. case_match; intros [= <- <-]; auto using ambient_edit_lanes with lanes. Qed.

#[export] Hint Resolve ambient_set_queue_lanes ambient_clear_queue_lanes
  ambient_set_loop_lanes ambient_set_shuffle_lanes : lanes.

(* ------------------------------------------------------------------ *)
(** ** Cues *)

(** What [fire_cue] does once the cue is known to be valid: the preset step,
    the playlist step, and the replacement of the cue's own loops. *)
Lemma fire_cue_inv cue now s s' b evs :
  fire_cue cue now s = Ok (s', b, evs) ->
  cue_valid cue s = true /\
  exists s1 b1 s2 b2,
    (match cue_preset cue with
     | Some preset =>
         set_active_presets [cue_preset_id preset] (cue_preset_crossfade_ms preset) s
     | None => (s, false)
     end) = (s1, b1) /\
    (match cue_playlist cue with
     | Some playlist => cue_apply_playlist playlist now s1 = Ok s2 /\ b2 = true
     | None => s2 = s1 /\ b2 = b1
     end) /\
    let kept := retain (fun looping =>
                  negb (starts_with (loop_prefix (cue_id cue)) (loop_id looping)))
                  (looping_sfx s2) in
    s' = with_looping_sfx (kept ++ cue_loops cue) s2 /\
    b = b2 || negb (length kept =? length (looping_sfx s2))%nat
          || negb (bool_decide (length (cue_loops cue) = 0%nat)) /\
    evs = map LoopStarted (cue_loops cue) ++ map sfx_event (cue_sfx cue).
Proof.
  unfold fire_cue. destruct (cue_valid cue s); [cbn|done].
  destruct (match cue_preset cue with Some _ => _ | None => _ end) as [s1 b1] eqn:Hp.
  intros H. split; [done|]. apply bind_ok in H as ([s2 b2] & Hpl & H).
  exists s1, b1, s2, b2. injection H as <- <- <-. split_and!; try done.
  destruct (cue_playlist cue); inv_results; [|by simplify_eq]. by simplify_eq.
Qed.

Lemma cue_apply_playlist_lanes playlist now s s' :
  cue_track_ids playlist <> [] ->
  cue_apply_playlist playlist now s = Ok s' ->
  position_epoch s' = position_epoch s + 1 /\ position_epoch s' <= u64_max /\
  is_playing s' = true /\ interrupt s' = interrupt s /\
  is_Some (ambient_current_track_id (ambient s')) /\
  ambient_position_ms (ambient s') <= MAX_POSITION_MS /\
  ambient_position_anchor_ms (ambient s') = ambient_anchor s' now.
Proof.
  intros Hne. unfold cue_apply_playlist, ambient_play_sequence. intros H.
  destruct (cue_track_ids playlist) as [|t ts]; [done|].
  apply bind_ok in H as ([s1 b1] & Hs & H). inv_results. epoch_ok. simplify_eq.
  assert (is_Some ((t :: ts) !! Nat.min (cue_start_index playlist) (length (t :: ts) - 1)))
    by (apply lookup_lt_is_Some; cbn; lia).
  destruct (0 <? cue_start_ms playlist); inv_results; cbn -[N.min u64_max MAX_POSITION_MS];
    split_and!; try done; lia.
Qed.

Lemma cue_valid_playlist cue s playlist :
  cue_valid cue s = true -> cue_playlist cue = Some playlist -> cue_track_ids playlist <> [].
Proof.
  unfold cue_valid. intros H Hp. rewrite Hp in H.
  repeat (apply andb_prop in H as [H ?]). by case_bool_decide.
Qed.

Lemma fire_cue_lanes rep cue now s s' b evs :
  fire_cue cue now s = Ok (s', b, evs) -> lane_step rep now s s'.
Proof.
  intros (Hv & s1 & b1 & s2 & b2 & Hp & Hpl & -> & _ & _)%fire_cue_inv.
  assert (settings_step s s1) as (Hplay & Hep & Hint & Hamb).
  { destruct (cue_preset cue); [by eapply set_active_presets_settings|by simplify_eq]. }
  destruct (cue_playlist cue) as [playlist|] eqn:Hc.
  - destruct Hpl as [Hpl _].
    apply cue_apply_playlist_lanes in Hpl as (? & ? & ? & ? & ? & ? & ?);
      [|by eapply cue_valid_playlist].
    apply Lane_Move; try done; cbn -[u64_max]; congruence.
  - destruct Hpl as [-> _]. apply settings_step_lanes. by unfold settings_step.
Qed.

(* ------------------------------------------------------------------ *)
(** ** The reducer implements the specification *)

Lemma durable_inv step s b pub per evs :
  durable step = (s, b, pub, per, evs) ->
  step = (s, b) /\ pub = true /\ per = PersistenceIntent_Immediate /\ evs = [].
Proof. unfold durable. by intros [= -> -> -> ->]. Qed.

(** Decomposes a successful [apply_command] into the step of its operation. *)
Ltac applied_inv :=
  repeat match goal with
  | H : mbind _ _ = Ok _ |- _ => apply bind_ok in H as (? & ? & H)
  | H : Ok _ = Ok _ |- _ => apply Ok_inj in H
  | H : durable _ = _ |- _ => apply durable_inv in H as (H & ? & ? & ?)
  end.

Definition is_report (command : PlaybackCommand) : bool :=
  match command with ReportPosition _ _ => true | _ => false end.

Lemma apply_command_lanes s command context s' b pub per evs :
  apply_command s command context = Ok (s', b, pub, per, evs) ->
  lane_step (is_report command) (monotonic_ms (clock context)) s s'.
Proof.
  destruct command; cbn [apply_command]; intros H; applied_inv; eauto with lanes.
  all: try (simplify_eq/=; eauto with lanes; fail).
  - injection H as <- <- <- <- <-. apply report_position_lanes. lia.
  - injection H as <- <-. by apply ambient_edit_lanes.
  - subst x. by eapply ambient_play_sequence_lanes.
  - destruct x as [[s2 b2] evs2]. applied_inv. injection H as <- <- <- <- <-.
    by eapply fire_cue_lanes.
  - injection H as <- <- <- <- <-. by apply settings_step_lanes.
Qed.

(* ------------------------------------------------------------------ *)
(** ** Lane operations keep the settings *)

(** Everything in the state outside the lanes and the last position report. *)
Definition settings_of (s : PlaybackState) :=
  (publication_revision s, active_mode_id s, active_output_device_ids s, multiple_outputs s,
   (default_device_volume s, device_volumes s, active_soundboard_id s, active_preset_ids s),
   (preset_revision s, crossfade_ms s, crossfade_type s, looping_sfx s)).

Definition lane_frame (s s' : PlaybackState) : Prop := settings_of s' = settings_of s.

Lemma increment_position_epoch_frame s s' :
  increment_position_epoch s = Ok s' -> lane_frame s s'.
Proof. by intros [_ ->]%increment_position_epoch_ok. Qed.

Lemma set_playing_frame playing now s s' b :
  set_playing playing now s = (s', b) -> lane_frame s s'.
Proof. unfold set_playing. intros; repeat case_match; by simplify_eq. Qed.
Lemma report_position_frame device position sample s :
  lane_frame s (report_position device position sample s).
Proof. unfold report_position. by case_match. Qed.
Lemma ambient_play_track_frame t now s s' : ambient_play_track t now s = Ok s' -> lane_frame s s'.
Proof. by intros [_ ->]%increment_position_epoch_ok. Qed.
Lemma ambient_jump_queue_frame p now s s' b :
  ambient_jump_queue p now s = Ok (s', b) -> lane_frame s s'.
Proof. by op_cases ambient_jump_queue. Qed.
Lemma ambient_skip_next_frame f e c s s' b :
  ambient_skip_next f e c s = Ok (s', b) -> lane_frame s s'.
Proof.
  intros H. destruct (skip_refused e (ambient s)) eqn:Hr.
  - rewrite ambient_skip_next_refused in H by done. by simplify_eq.
  - apply ambient_skip_next_accepted in H as (_ & _ & a' & plays & _ & ->); [|done].
    by destruct plays.
Qed.
Lemma ambient_skip_previous_frame now s s' b :
  ambient_skip_previous now s = Ok (s', b) -> lane_frame s s'.
Proof. unfold ambient_skip_previous. intros H. case_match; inv_results; by epoch_ok. Qed.
Lemma ambient_seek_frame p now s s' b : ambient_seek p now s = Ok (s', b) -> lane_frame s s'.
Proof. unfold ambient_seek. intros H. case_match; inv_results; by epoch_ok. Qed.
Lemma ambient_stop_frame s s' b : ambient_stop s = Ok (s', b) -> lane_frame s s'.
Proof. unfold ambient_stop. intros H. case_match; inv_results; by epoch_ok. Qed.
Lemma ambient_play_sequence_frame t i p now s s' b :
  ambient_play_sequence t i p now s = Ok (s', b) -> lane_frame s s'.
Proof. unfold ambient_play_sequence. intros H. case_match; inv_results; by epoch_ok. Qed.
Lemma fire_interrupt_frame t f now s s' b :
  fire_interrupt t f now s = Ok (s', b) -> lane_frame s s'.
Proof.
  unfold fire_interrupt. intros H. case_match; inv_results; epoch_ok; [done|]. by case_match.
Qed.
Lemma end_interrupt_frame now s s' b : end_interrupt now s = Ok (s', b) -> lane_frame s s'.
Proof.
  unfold end_interrupt. intros H. case_match; inv_results; epoch_ok; [|done].
  by repeat case_match.
Qed.
Lemma interrupt_skip_next_frame e now s s' b :
  interrupt_skip_next e now s = Ok (s', b) -> lane_frame s s'.
Proof.
  unfold interrupt_skip_next. intros H. repeat case_match; inv_results; epoch_ok; try done.
  by eapply end_interrupt_frame.
Qed.
Lemma interrupt_seek_frame p now s s' b : interrupt_seek p now s = Ok (s', b) -> lane_frame s s'.
Proof. unfold interrupt_seek. intros H. case_match; inv_results; by epoch_ok. Qed.
Lemma cue_apply_playlist_frame playlist now s s' :
  cue_apply_playlist playlist now s = Ok s' -> lane_frame s s'.
Proof.
  unfold cue_apply_playlist. intros ([s1 b1] & Hs & H)%bind_ok.
  apply ambient_play_sequence_frame in Hs. case_match; by inv_results.
Qed.
Lemma ambient_set_queue_frame t s s' b : ambient_set_queue t s = (s', b) -> lane_frame s s'.
Proof. unfold ambient_set_queue. case_match; by intros [= <- <-]. Qed.
Lemma ambient_clear_queue_frame s s' b : ambient_clear_queue s = (s', b) -> lane_frame s s'.
Proof. unfold ambient_clear_queue. case_match; by intros [= <- <-]. Qed.
Lemma ambient_set_loop_frame m s s' b : ambient_set_loop m s = (s', b) -> lane_frame s s'.
Proof. unfold ambient_set_loop. case_match; by intros [= <- <-]. Qed.
Lemma ambient_set_shuffle_frame m s s' b : ambient_set_shuffle m s = (s', b) -> lane_frame s s'.
Proof. unfold ambient_set_shuffle. case_match; by intros [= <- <-]. Qed.

Create HintDb frames discriminated.
#[export] Hint Resolve set_playing_frame report_position_frame ambient_play_track_frame
  ambient_jump_queue_frame ambient_skip_next_frame ambient_skip_previous_frame
  ambient_seek_frame ambient_stop_frame ambient_play_sequence_frame fire_interrupt_frame
  end_interrupt_frame interrupt_skip_next_frame interrupt_seek_frame cue_apply_playlist_frame
  ambient_set_queue_frame ambient_clear_queue_frame ambient_set_loop_frame
  ambient_set_shuffle_frame : frames.

(** The commands that only touch the lanes. *)
Definition is_lane_command (command : PlaybackCommand) : bool :=
  match command with
  | SetPlaying _ | ReportPosition _ _ | AmbientPlayTrack _ | AmbientSetQueue _
  | AmbientJumpQueue _ | AmbientEnqueue _ _ | AmbientClearQueue | AmbientSkipNext _ _
  | AmbientSkipPrevious | AmbientSeek _ | AmbientSetLoop _ | AmbientSetShuffle _
  | AmbientStop | AmbientPlaySequence _ _ _ | FireInterruptSequence _ _
  | InterruptSkipNext _ | InterruptSeek _ | CancelInterrupt | FireSfx _ _ _ => true
  | _ => false
  end.

Lemma lane_command_frame s command context s' b pub per evs :
  is_lane_command command = true ->
  apply_command s command context = Ok (s', b, pub, per, evs) -> lane_frame s s'.
Proof.
  intros Hlane. destruct command; try done; cbn [apply_command]; intros H; applied_inv; subst;
    eauto with frames; simplify_eq; eauto with frames; done.
Qed.

Lemma reduce_inv s command context r :
  reduce s command context = Ok r ->
  exists pub per,
    apply_command s command context = Ok (next_state r, changed r, pub, per, events r) /\
    if negb (changed r) && bool_decide (length (events r) = 0%nat)
    then publish_state r = false /\ persistence r = PersistenceIntent_None
    else publish_state r = pub /\ persistence r = per.
Proof.
  unfold reduce. intros ([[[[s' b] pub] per] evs] & Ha & H)%bind_ok.
  exists pub, per. destruct (_ && _) eqn:Hc; injection H as <-; cbn; by rewrite Hc.
Qed.
