(* ===== verification/ReducerSpec.v ===== *)
(** * What the reducer guarantees

    The theorems about [reduce] and [materialize_positions]: refinement of the
    lane specification, the clock invariant, the meaning of [position_epoch],
    conservation of tracks, publication and persistence discipline, errors. *)

From S2P Require Import Prelude PlaybackState Reducer ReducerLemmas LaneSpec.

#[local] Open Scope N_scope.

(* ------------------------------------------------------------------ *)
(** ** The clock invariant *)

(** Whether the ambient lane may tick under the current interrupt. *)
Definition lane_open (s : PlaybackState) : bool :=
  match interrupt s with
  | None => true
  | Some i => bool_decide (is_Some (interrupt_duck_to i))
  end.

Record clock_wf (s : PlaybackState) : Prop := {
  wf_ticking : forall t, ambient_position_anchor_ms (ambient s) = Some t ->
    is_playing s = true /\ is_Some (ambient_current_track_id (ambient s)) /\ lane_open s = true;
  wf_position : ambient_position_ms (ambient s) <= MAX_POSITION_MS;
  wf_interrupt : forall i, interrupt s = Some i ->
    interrupt_position_ms i <= MAX_POSITION_MS /\ is_Some (interrupt_position_anchor_ms i)
}.

Lemma clock_wf_default : clock_wf PlaybackState_default.
Proof. split; cbn; [done|done|done]. Qed.

Lemma ambient_anchor_Some s now t :
  ambient_anchor s now = Some t -> is_playing s = true /\ lane_open s = true /\ t = now.
Proof.
  unfold ambient_anchor, lane_open. destruct (is_playing s), (interrupt s) as [i|]; cbn; try done.
  - destruct (interrupt_duck_to i); by intros [= ->].
  - by intros [= ->].
Qed.

Lemma ambient_anchor_open s now :
  is_playing s = true -> lane_open s = true -> ambient_anchor s now = Some now.
Proof.
  unfold ambient_anchor, lane_open. intros ->. destruct (interrupt s) as [i|]; [|done].
  by destruct (interrupt_duck_to i).
Qed.

Lemma bounded_position_add_le p e : bounded_position_add p e <= MAX_POSITION_MS.
Proof. unfold bounded_position_add. lia. Qed.

Lemma ambient_materialize s now :
  ambient (materialize_positions s now) = materialize_ambient now (ambient s).
Proof. unfold materialize_positions. by case_match. Qed.

Lemma materialize_ambient_track now a :
  ambient_current_track_id (materialize_ambient now a) = ambient_current_track_id a.
Proof. unfold materialize_ambient. by repeat case_match. Qed.

Lemma materialize_ambient_ticking now a :
  is_Some (ambient_position_anchor_ms (materialize_ambient now a))
  <-> is_Some (ambient_position_anchor_ms a).
Proof.
  unfold materialize_ambient. destruct (ambient_position_anchor_ms a) as [t|] eqn:Ht;
    [|by rewrite Ht].
  case_match; cbn; [|by rewrite Ht]. split; intros; eauto.
Qed.

Lemma materialize_ambient_le now a :
  ambient_position_ms a <= MAX_POSITION_MS ->
  ambient_position_ms (materialize_ambient now a) <= MAX_POSITION_MS.
Proof.
  intros. unfold materialize_ambient. repeat case_match; cbn; try done.
  apply bounded_position_add_le.
Qed.

Lemma freeze_ambient_wf now a :
  ambient_position_ms a <= MAX_POSITION_MS ->
  ambient_position_anchor_ms (freeze_ambient now a) = None /\
  ambient_position_ms (freeze_ambient now a) <= MAX_POSITION_MS.
Proof. intros. split; [done|]. by apply materialize_ambient_le. Qed.

Lemma report_position_wf device position sample s :
  position <= MAX_POSITION_MS -> clock_wf s ->
  clock_wf (report_position device position sample s).
Proof.
  intros Hp [Ht Hpos Hi]. unfold report_position, lane_open in *.
  destruct (interrupt s) as [i|] eqn:Hint; cbn in *; rewrite ?Hint; cbn.
  - destruct (Hi i eq_refl) as [? [t Hanchor]].
    split; cbn; [intros t'; rewrite Hanchor; apply Ht|done|].
    intros i' [= <-]. rewrite Hanchor. cbn. eauto.
  - destruct (ambient_position_anchor_ms (ambient s)) as [t|] eqn:Hanchor;
      split; unfold lane_open; cbn; rewrite ?Hint, ?Hanchor; try done.
    intros t' [= <-]. by apply (Ht t).
Qed.

Lemma lane_step_wf rep now s s' : lane_step rep now s s' -> clock_wf s -> clock_wf s'.
Proof.
  intros Hstep [Ht Hpos Hi]. destruct Hstep.
  - destruct H as (Hplay & _ & Hint & [= Hc Hp Ha]).
    split; unfold lane_open; rewrite ?Hplay, ?Hint, ?Hc, ?Hp, ?Ha; try done.
  - rewrite <- H2 in Hi. destruct (freeze_ambient_wf now _ Hpos).
    split; rewrite ?H3; try done.
  - rewrite <- H2 in Hi. split; [|by rewrite H3; case_match|done].
    intros t. rewrite H3.
    destruct (ambient_current_track_id (ambient s)) eqn:Hc; cbn.
    + intros (-> & -> & _)%ambient_anchor_Some. rewrite Hc. eauto.
    + intros []%Ht. congruence.
  - subst s'. by apply report_position_wf.
  - rewrite <- H1 in Hi. split; try done.
    intros t. rewrite H5. intros (-> & -> & _)%ambient_anchor_Some. done.
  - rewrite <- H1 in Hi. split; try done; [by rewrite H4|rewrite H3; lia].
  - split; [|destruct (interrupt_duck_to i); rewrite H5; [done|]; by apply freeze_ambient_wf|].
    + intros t. rewrite H5. unfold lane_open. rewrite H2.
      destruct (interrupt_duck_to i); [|done]. intros (? & ? & _)%Ht.
      by rewrite bool_decide_true by eauto.
    + intros i'. rewrite H2. intros [= <-]. rewrite H3, H4. split; [lia|eauto].
  - split; [|congruence|].
    + intros t. rewrite H2, H1. unfold lane_open in *. rewrite H4, H7. rewrite H3 in Ht. apply Ht.
    + intros i''. rewrite H4. intros [= <-]. rewrite H6. eauto.
  - split; unfold lane_open in *; rewrite ?H2; try done.
    + intros t. destruct H5 as [Ha|(? & ? & ? & Ha)]; rewrite Ha, ?H4; [|done].
      intros (? & ? & _)%Ht. done.
    + destruct H5 as [Ha|(? & ? & ? & Ha)]; by rewrite Ha.
  - destruct (freeze_ambient_wf now _ Hpos). split; rewrite ?H5, ?H2; try done.
Qed.

Lemma playing_state_wf : clock_wf playing_state.
Proof. split; [|vm_compute; done|done]. intros t _. split_and!; try reflexivity. by eexists. Qed.

(** C14: every command that [reduce] accepts moves the lanes by one rule of the
    abstract specification: it can only keep, pause, resume, move, halt, take
    over, move within the interrupt or hand back (and a position report can
    only overwrite the position of the lane on air). *)
Theorem reduce_refines_lanes s command context r :
  reduce s command context = Ok r ->
  lane_step (is_report command) (monotonic_ms (clock context)) s (next_state r).
Proof. intros (pub & per & H & _)%reduce_inv. by eapply apply_command_lanes. Qed.

Lemma reduce_refines_lanes_witness :
  exists r, reduce interrupted_state CancelInterrupt (context_at 9000) = Ok r /\
    lane_step false 9000 interrupted_state (next_state r).
Proof.
  eexists. split; [vm_compute; reflexivity|].
  apply (reduce_refines_lanes interrupted_state CancelInterrupt (context_at 9000)).
  vm_compute. reflexivity.
Defined.

(** C1: the clock invariant is preserved by every command: the ambient lane
    ticks only while playing, with a current track, and when no interrupt has
    silenced it; positions stay within [MAX_POSITION_MS]; an interrupt always
    ticks. *)
Theorem reduce_clock_wf s command context r :
  clock_wf s -> reduce s command context = Ok r -> clock_wf (next_state r).
Proof.
  intros Hwf (pub & per & H & _)%reduce_inv.
  eapply lane_step_wf; [|exact Hwf]. by eapply apply_command_lanes.
Qed.

Lemma reduce_clock_wf_witness :
  exists r, reduce playing_state (SetPlaying false) (context_at 4000) = Ok r /\
    clock_wf (next_state r) /\ ambient_position_ms (ambient (next_state r)) = 8000.
Proof.
  eexists. split_and!; [reflexivity| |reflexivity].
  eapply (reduce_clock_wf playing_state (SetPlaying false) (context_at 4000)); [apply playing_state_wf|reflexivity].
Defined.

(* ------------------------------------------------------------------ *)
(** ** The meaning of the position epoch *)

(** What an output reconciles to at [now]: the track and live position of each
    lane. *)
Definition lane_view (s : PlaybackState) (now : N)
    : option TrackId * N * option (TrackId * N) :=
  let m := materialize_positions s now in
  (ambient_current_track_id (ambient m), ambient_position_ms (ambient m),
   (fun i => (interrupt_current_track_id i, interrupt_position_ms i)) <$> interrupt m).

Lemma materialize_interrupt_track now i :
  interrupt_current_track_id (materialize_interrupt now i) = interrupt_current_track_id i.
Proof. unfold materialize_interrupt. by repeat case_match. Qed.

Lemma lane_view_eq s now :
  lane_view s now =
  (ambient_current_track_id (ambient s),
   ambient_position_ms (materialize_ambient now (ambient s)),
   (fun i => (interrupt_current_track_id i,
              interrupt_position_ms (materialize_interrupt now i))) <$> interrupt s).
Proof.
  unfold lane_view, materialize_positions.
  destruct (interrupt s) as [i|] eqn:Hi; cbn; rewrite Hi; cbn;
    rewrite materialize_ambient_track; [|by rewrite Hi].
  by rewrite materialize_interrupt_track.
Qed.

Lemma materialize_ambient_cursor now a a' :
  cursor a' = cursor a ->
  ambient_position_ms (materialize_ambient now a')
  = ambient_position_ms (materialize_ambient now a).
Proof.
  intros [= _ Hp Ha]. unfold materialize_ambient. rewrite Ha, Hp. by repeat case_match.
Qed.

Lemma materialize_ambient_at now a :
  ambient_position_anchor_ms a = Some now \/ ambient_position_anchor_ms a = None ->
  materialize_ambient now a = a.
Proof.
  unfold materialize_ambient. intros [-> | ->]; [|done].
  unfold u64_saturating_sub. by rewrite N.sub_diag.
Qed.

Lemma freeze_ambient_view now a :
  ambient_current_track_id (freeze_ambient now a) = ambient_current_track_id a /\
  ambient_position_ms (materialize_ambient now (freeze_ambient now a))
  = ambient_position_ms (materialize_ambient now a).
Proof.
  split; [apply materialize_ambient_track|].
  rewrite materialize_ambient_at by (by right). done.
Qed.

Lemma resume_view s s' now :
  clock_wf s -> is_playing s = false ->
  ambient s' = (if ambient_current_track_id (ambient s)
                then with_ambient_position_anchor_ms (ambient_anchor s' now) (ambient s)
                else ambient s) ->
  ambient_current_track_id (ambient s') = ambient_current_track_id (ambient s) /\
  ambient_position_ms (materialize_ambient now (ambient s'))
  = ambient_position_ms (materialize_ambient now (ambient s)).
Proof.
  intros [Ht _ _] Hplay Ha.
  assert (ambient_position_anchor_ms (ambient s) = None) as Hnone.
  { destruct (ambient_position_anchor_ms (ambient s)) eqn:He; [|done].
    destruct (Ht _ eq_refl) as [? _]. congruence. }
  rewrite Ha, (materialize_ambient_at now (ambient s)) by (by right).
  case_match; [|by rewrite materialize_ambient_at by (by right)].
  rewrite materialize_ambient_at; [done|]. cbn.
  unfold ambient_anchor. case_match; auto.
Qed.

(** [position_epoch] marks exactly the position moves. A command adds 0 or
    1 to it, and when it adds 0 and is not a position report, the track and the
    live position of both lanes at that instant are unchanged, so a client
    that seeks only on a new epoch never misses a jump. *)
Theorem epoch_marks_position_moves s command context r :
  clock_wf s -> reduce s command context = Ok r ->
  (position_epoch (next_state r) = position_epoch s \/
   position_epoch (next_state r) = position_epoch s + 1) /\
  (is_report command = false -> position_epoch (next_state r) = position_epoch s ->
   let now := monotonic_ms (clock context) in
   lane_view (next_state r) now = lane_view s now).
Proof.
  intros Hwf (pub & per & H & _)%reduce_inv. apply apply_command_lanes in H.
  destruct H as [H| | | | | | | | | ]; try (split; [tauto|lia]); rewrite ?lane_view_eq.
  - destruct H as (_ & He & Hi & Hc). split; [tauto|]. intros _ _ now.
    rewrite !lane_view_eq, Hi. injection Hc as Hct Hcp Hca.
    rewrite Hct. do 2 f_equal. apply materialize_ambient_cursor. unfold cursor. congruence.
  - split; [tauto|]. intros _ _. cbv zeta. rewrite !lane_view_eq, H2, H3.
    by destruct (freeze_ambient_view (monotonic_ms (clock context)) (ambient s)) as [-> ->].
  - split; [tauto|]. intros _ _. cbv zeta. rewrite !lane_view_eq, H2.
    by destruct (resume_view s (next_state r) (monotonic_ms (clock context))) as [-> ->].
  - split; [|congruence]. left. rewrite H2. unfold report_position. by repeat case_match.
Qed.

Lemma epoch_marks_position_moves_witness :
  exists r, reduce playing_state (SetPlaying false) (context_at 4000) = Ok r /\
    lane_view (next_state r) 4000 = lane_view playing_state 4000.
Proof.
  eexists. split; [reflexivity|].
  eapply (epoch_marks_position_moves playing_state (SetPlaying false) (context_at 4000));
    [apply playing_state_wf|reflexivity..].
Defined.

(* ------------------------------------------------------------------ *)
(** ** Materialisation of the clock *)

Lemma materialize_ambient_compose t1 t2 a :
  t1 <= t2 -> ambient_position_ms a <= MAX_POSITION_MS ->
  materialize_ambient t2 (materialize_ambient t1 a) = materialize_ambient t2 a.
Proof.
  intros Ht Hp. unfold materialize_ambient at 2 3.
  destruct (ambient_position_anchor_ms a) as [x|] eqn:Hx;
    [|unfold materialize_ambient; by rewrite Hx].
  unfold u64_saturating_sub. destruct (N.ltb_spec 0 (t1 - x)) as [H1|H1].
  - unfold materialize_ambient; cbn -[bounded_position_add N.sub N.ltb].
    destruct (N.ltb_spec 0 (t2 - x)); [|lia].
    destruct (N.ltb_spec 0 (u64_saturating_sub t2 t1)) as [H2|H2]; unfold u64_saturating_sub in H2.
    + destruct a; cbn -[bounded_position_add]. unfold with_ambient_position_anchor_ms,
        with_ambient_position_ms; cbn -[bounded_position_add]. f_equal.
      unfold bounded_position_add, u64_saturating_add, u64_saturating_sub, MAX_POSITION_MS,
        i64_max, u64_max in *. lia.
    + by replace t2 with t1 by lia.
  - unfold materialize_ambient. rewrite Hx. done.
Qed.

Lemma materialize_interrupt_compose t1 t2 i :
  t1 <= t2 -> interrupt_position_ms i <= MAX_POSITION_MS ->
  materialize_interrupt t2 (materialize_interrupt t1 i) = materialize_interrupt t2 i.
Proof.
  intros Ht Hp. unfold materialize_interrupt at 2 3.
  destruct (interrupt_position_anchor_ms i) as [x|] eqn:Hx;
    [|unfold materialize_interrupt; by rewrite Hx].
  unfold u64_saturating_sub. destruct (N.ltb_spec 0 (t1 - x)) as [H1|H1].
  - unfold materialize_interrupt; cbn -[bounded_position_add N.sub N.ltb].
    destruct (N.ltb_spec 0 (t2 - x)); [|lia].
    destruct (N.ltb_spec 0 (u64_saturating_sub t2 t1)) as [H2|H2]; unfold u64_saturating_sub in H2.
    + destruct i; cbn -[bounded_position_add]. unfold with_interrupt_position_anchor_ms,
        with_interrupt_position_ms; cbn -[bounded_position_add]. f_equal.
      unfold bounded_position_add, u64_saturating_add, u64_saturating_sub, MAX_POSITION_MS,
        i64_max, u64_max in *. lia.
    + by replace t2 with t1 by lia.
  - unfold materialize_interrupt. rewrite Hx. done.
Qed.

(** Sampling the clock is compositional: materialising at [t1] and then at a
    later [t2] is materialising at [t2], so a snapshot taken between two
    mutations never disturbs the clock. The live position never goes back and
    never exceeds [MAX_POSITION_MS]. *)
Theorem materialize_positions_compose s t1 t2 :
  clock_wf s -> t1 <= t2 ->
  materialize_positions (materialize_positions s t1) t2 = materialize_positions s t2 /\
  ambient_position_ms (ambient s) <= ambient_position_ms (ambient (materialize_positions s t1)) /\
  ambient_position_ms (ambient (materialize_positions s t1)) <= MAX_POSITION_MS.
Proof.
  intros [_ Hp Hi] Ht.
  pose proof (ambient_materialize s t1) as Ha.
  split_and!; [|rewrite Ha|rewrite Ha; by apply materialize_ambient_le].
  - unfold materialize_positions at 1 3. rewrite Ha.
    rewrite materialize_ambient_compose by done.
    unfold materialize_positions. destruct (interrupt s) as [i|] eqn:Hint; cbn; rewrite ?Hint;
      cbn; rewrite ?Hint; [|done].
    by rewrite materialize_interrupt_compose by (done || by apply Hi).
  - unfold materialize_ambient. repeat case_match; cbn; try done.
    unfold bounded_position_add, u64_saturating_add, MAX_POSITION_MS, u64_max, i64_max in *. lia.
Qed.

Lemma materialize_positions_compose_witness :
  materialize_positions (materialize_positions playing_state 3000) 8000
  = materialize_positions playing_state 8000.
Proof. apply materialize_positions_compose; [apply playing_state_wf|lia]. Defined.

(** The live ambient position, as a formula. *)
Lemma ambient_position_at s t :
  ambient_position_ms (ambient s) <= MAX_POSITION_MS ->
  ambient_position_ms (ambient (materialize_positions s t)) =
  match ambient_position_anchor_ms (ambient s) with
  | Some x => N.min (ambient_position_ms (ambient s) + (t - x)) MAX_POSITION_MS
  | None => ambient_position_ms (ambient s)
  end.
Proof.
  intros Hp. rewrite ambient_materialize.
  unfold materialize_ambient, u64_saturating_sub.
  destruct (ambient_position_anchor_ms (ambient s)) as [x|]; [|done].
  destruct (N.ltb_spec 0 (t - x)); cbn -[bounded_position_add N.sub N.min];
    unfold bounded_position_add, u64_saturating_add, MAX_POSITION_MS, u64_max, i64_max in *; lia.
Qed.

(** Pausing freezes the live position and resuming continues from it: after
    a pause at [t1] and a resume at [t2], the position at any [t >= t2] is the
    one at the pause plus the time since the resume (bounded), and neither
    command counts as a position move. *)
Theorem pause_resume_continues s c1 c2 r1 r2 t :
  clock_wf s -> is_playing s = true -> interrupt s = None ->
  is_Some (ambient_current_track_id (ambient s)) ->
  reduce s (SetPlaying false) c1 = Ok r1 ->
  reduce (next_state r1) (SetPlaying true) c2 = Ok r2 ->
  monotonic_ms (clock c2) <= t ->
  ambient_position_ms (ambient (materialize_positions (next_state r2) t))
  = N.min (ambient_position_ms
             (ambient (materialize_positions s (monotonic_ms (clock c1))))
           + (t - monotonic_ms (clock c2))) MAX_POSITION_MS
  /\ position_epoch (next_state r2) = position_epoch s.
Proof.
  intros Hwf Hplay Hint Hcur H1 H2 Ht.
  destruct (freeze_ambient_wf (monotonic_ms (clock c1)) _ (wf_position _ Hwf)) as [_ Hp].
  unfold reduce, apply_command, set_playing in H1. rewrite Hplay in H1. cbn in H1.
  injection H1 as <-. cbn in *.
  unfold reduce, apply_command, set_playing in H2. cbn in H2.
  rewrite materialize_ambient_track in H2. destruct Hcur as [cur Hcur]. rewrite Hcur in H2.
  unfold ambient_anchor in H2. cbn in H2. rewrite Hint in H2. cbn in H2. injection H2 as <-.
  cbn in *. rewrite ambient_position_at by apply Hp. cbn -[N.min N.sub MAX_POSITION_MS].
  by rewrite ambient_materialize.
Qed.

Lemma pause_resume_continues_witness :
  exists r1 r2, reduce playing_state (SetPlaying false) (context_at 4000) = Ok r1 /\
    reduce (next_state r1) (SetPlaying true) (context_at 60000) = Ok r2 /\
    ambient_position_ms (ambient (materialize_positions (next_state r2) 61000)) = 9000.
Proof.
  eexists _, _. split_and!; [reflexivity|reflexivity|].
  edestruct (pause_resume_continues playing_state (context_at 4000) (context_at 60000))
    as [-> _]; [apply playing_state_wf|done|done|by eexists|reflexivity|reflexivity| |].
  - vm_compute. intros [=].
  - reflexivity.
Defined.

(* ------------------------------------------------------------------ *)
(** ** Queue, current track and history *)

(** Every track the ambient lane holds, in play order. *)
Definition lane_tracks (a : AmbientState) : list TrackId :=
  ambient_history a ++ option_list (ambient_current_track_id a) ++ ambient_queue a.

Lemma skip_case_conserves follow choice a a' plays :
  skip_case follow choice a a' plays ->
  ambient_queue a <> [] \/ ambient_loop_mode a = LoopMode_Track
    \/ ambient_loop_mode a = LoopMode_Queue ->
  is_Some (ambient_current_track_id a) \/ ambient_queue a <> [] ->
  plays = true -> lane_tracks a' ≡ₚ lane_tracks a.
Proof.
  intros Hc Hmode Hany Hplays. destruct Hc; try done; unfold lane_tracks; cbn.
  - rewrite push_current_history. rewrite <- app_assoc. f_equiv. f_equiv.
    by rewrite <- vec_remove_Permutation.
  - rewrite H0, push_current_history in *. cbn. rewrite <- H1. by rewrite app_nil_r.
  - rewrite H0 in *. naive_solver congruence.
Qed.

Lemma reduce_skip_next s follow expected context r :
  reduce s (AmbientSkipNext follow expected) context = Ok r ->
  ambient_skip_next follow expected context s = Ok (next_state r, changed r).
Proof.
  intros (pub & per & H & _)%reduce_inv. cbn in H. applied_inv. congruence.
Qed.

(** An advance neither loses nor invents tracks: when there is a queue to
    advance through, or the lane repeats its track or its queue, the tracks held
    by the lane (history, current, queue) are a permutation of those before,
    whatever the shuffle choice. *)
Theorem skip_next_conserves_tracks s follow expected context r :
  reduce s (AmbientSkipNext follow expected) context = Ok r ->
  ambient_queue (ambient s) <> [] \/ ambient_loop_mode (ambient s) = LoopMode_Track \/
    ambient_loop_mode (ambient s) = LoopMode_Queue ->
  lane_tracks (ambient (next_state r)) ≡ₚ lane_tracks (ambient s).
Proof.
  intros H%reduce_skip_next Hmode.
  destruct (skip_refused expected (ambient s)) eqn:Hr.
  { rewrite ambient_skip_next_refused in H by done. by injection H as <- _. }
  pose proof H as Hacc.
  apply ambient_skip_next_accepted in Hacc as (_ & _ & a' & plays & Hc & Hs); [|done].
  assert (is_Some (ambient_current_track_id (ambient s)) \/ ambient_queue (ambient s) <> []) as Hany.
  { unfold skip_refused in Hr. apply orb_false_elim in Hr as [_ Hr].
    destruct (ambient_current_track_id (ambient s)); [eauto|right].
    intros Hq. by rewrite Hq in Hr. }
  rewrite Hs. destruct plays.
  { change (lane_tracks a' ≡ₚ lane_tracks (ambient s)). by eapply skip_case_conserves. }
  inversion Hc; subst. naive_solver.
Qed.

Lemma skip_next_conserves_tracks_witness :
  exists r, reduce playing_state (AmbientSkipNext None (Some 1%positive)) (context_at 4000) = Ok r /\
    lane_tracks (ambient (next_state r)) ≡ₚ [9; 1; 2; 3]%positive.
Proof.
  eexists. split; [reflexivity|].
  rewrite (skip_next_conserves_tracks playing_state None (Some 1%positive) (context_at 4000));
    [reflexivity|reflexivity|]. left. done.
Defined.

Lemma ambient_skip_previous_pops now s s' b history previous :
  ambient_history (ambient s) = history ++ [previous] ->
  ambient_skip_previous now s = Ok (s', b) ->
  ambient_current_track_id (ambient s') = Some previous /\
  ambient_history (ambient s') = history /\
  ambient_queue (ambient s')
  = option_list (ambient_current_track_id (ambient s)) ++ ambient_queue (ambient s).
Proof.
  intros Hh. unfold ambient_skip_previous. rewrite Hh, last_snoc, removelast_last.
  rewrite bool_decide_false, andb_false_l by (by intros [_ ?]%app_eq_nil).
  intros H. inv_results. epoch_ok. simplify_eq/=.
  destruct (ambient_current_track_id (ambient s)); done.
Qed.

(** Going back undoes an advance: after an accepted advance from a playing
    track into the queue, [AmbientSkipPrevious] restores the current track and
    the history, and the queue up to order; without shuffle it restores the
    queue exactly. *)
Theorem skip_previous_undoes_skip_next s follow expected c1 c2 r1 r2 current :
  ambient_current_track_id (ambient s) = Some current ->
  ambient_queue (ambient s) <> [] ->
  ambient_loop_mode (ambient s) <> LoopMode_Track ->
  reduce s (AmbientSkipNext follow expected) c1 = Ok r1 -> changed r1 = true ->
  reduce (next_state r1) AmbientSkipPrevious c2 = Ok r2 ->
  ambient_current_track_id (ambient (next_state r2)) = Some current /\
  ambient_history (ambient (next_state r2)) = ambient_history (ambient s) /\
  ambient_queue (ambient (next_state r2)) ≡ₚ ambient_queue (ambient s) /\
  (ambient_shuffle (ambient s) = ShuffleMode_Off ->
   ambient_queue (ambient (next_state r2)) = ambient_queue (ambient s)).
Proof.
  intros Hcur Hq Hloop H1%reduce_skip_next Hchanged H2.
  destruct (skip_refused expected (ambient s)) eqn:Hr.
  { rewrite ambient_skip_next_refused in H1 by done. congruence. }
  apply ambient_skip_next_accepted in H1 as (_ & _ & a' & plays & Hc & Hs); [|done].
  destruct Hc as [|index t Hnt Hindex Ht| | |]; try congruence.
  apply reduce_inv in H2 as (pub & per & H2 & _). cbn in H2. applied_inv. subst x.
  apply (ambient_skip_previous_pops _ _ _ _ (ambient_history (ambient s)) current) in H
    as (-> & -> & ->); rewrite Hs; cbn; [|by rewrite push_current_history, Hcur].
  split_and!; [done..|by rewrite <- vec_remove_Permutation|].
  intros Hoff. rewrite Hoff in Hindex. injection Hindex as <-.
  destruct (ambient_queue (ambient s)); [done|]. cbn in Ht. injection Ht as ->. done.
Qed.

Lemma skip_previous_undoes_skip_next_witness :
  exists r1 r2, reduce playing_state (AmbientSkipNext None None) (context_at 4000) = Ok r1 /\
    reduce (next_state r1) AmbientSkipPrevious (context_at 5000) = Ok r2 /\
    ambient_queue (ambient (next_state r2)) = [2; 3]%positive.
Proof.
  eexists _, _. split_and!; [reflexivity|reflexivity|].
  edestruct (skip_previous_undoes_skip_next playing_state None None (context_at 4000)
    (context_at 5000)) as (_ & _ & _ & H); [reflexivity|done|done|reflexivity..|].
  by apply H.
Defined.

(** An advance that names the track it observed is refused once that track
    is no longer current: nothing changes, nothing is published or persisted. *)
Theorem stale_advance_is_refused s follow observed context :
  ambient_current_track_id (ambient s) <> Some observed ->
  reduce s (AmbientSkipNext follow (Some observed)) context
  = Ok (mkReduction s false false PersistenceIntent_None []).
Proof.
  intros Hne. unfold reduce. cbn [apply_command].
  rewrite ambient_skip_next_refused; [done|].
  unfold skip_refused. rewrite bool_decide_true by eauto.
  by rewrite bool_decide_false by done.
Qed.

Lemma stale_advance_is_refused_witness :
  reduce playing_state (AmbientSkipNext None (Some 9%positive)) (context_at 4000)
  = Ok (mkReduction playing_state false false PersistenceIntent_None []).
Proof. apply stale_advance_is_refused. done. Defined.

(** The observed track is all an advance carries, so two advances that raced for
    the end of the same track both move the lane when the next track is the same
    again: a repeated track, or its duplicate at the head of the queue. *)
Lemma racing_advances_can_both_commit :
  let repeating := with_ambient (with_ambient_loop_mode LoopMode_Track sample_ambient) playing_state in
  let duplicated := with_ambient (with_ambient_queue [1; 1]%positive sample_ambient) playing_state in
  let advance s ms := default s (next_state <$> result_ok
    (reduce s (AmbientSkipNext None (Some 1%positive)) (context_at ms))) in
  position_epoch (advance (advance repeating 4000) 4001) = position_epoch repeating + 2 /\
  ambient_queue (ambient (advance (advance duplicated 4000) 4001)) = [].
Proof. by split. Qed.
