(* ===== verification/CommitSpec.v ===== *)
(** * Outcomes of a reduction

    What [reduce] reports next to the state: when a command changed nothing,
    what is published and persisted, which errors it returns and when it must
    succeed, the output policy, the identity of looping effects, and the effect
    of a cue. *)

From S2P Require Import Prelude PlaybackState Reducer ReducerLemmas LaneSpec ReducerSpec.

#[local] Open Scope N_scope.

(* ------------------------------------------------------------------ *)
(** ** What is published and persisted *)

Ltac settle op := unfold op; intros; repeat split_match; simplify_eq/=; done.

Lemma set_playing_unchanged p now s s' : set_playing p now s = (s', false) -> s' = s.
Proof. settle set_playing. Qed.
Lemma set_active_mode_unchanged m s s' : set_active_mode m s = (s', false) -> s' = s.
Proof. settle set_active_mode. Qed.
Lemma register_device_unchanged d a s s' : register_device d a s = (s', false) -> s' = s.
Proof. settle register_device. Qed.
Lemma set_active_outputs_unchanged d s s' : set_active_outputs d s = (s', false) -> s' = s.
Proof. unfold set_active_outputs. case_match; by intros [= ->]. Qed.
Lemma with_outputs_id s : with_active_output_device_ids (active_output_device_ids s) s = s.
Proof. by destruct s. Qed.
Lemma with_loops_id s : with_looping_sfx (looping_sfx s) s = s.
Proof. by destruct s. Qed.

Lemma remove_active_output_unchanged d s s' : remove_active_output d s = (s', false) -> s' = s.
Proof.
  unfold remove_active_output. intros [= <- Hlen%negb_false_iff%Nat.eqb_eq].
  rewrite (retain_length_eq _ _ Hlen). apply with_outputs_id.
Qed.

Lemma stop_loop_unchanged id s s' : stop_loop id s = (s', false) -> s' = s.
Proof.
  unfold stop_loop. intros [= <- Hlen%negb_false_iff%Nat.eqb_eq].
  rewrite (retain_length_eq _ _ Hlen). apply with_loops_id.
Qed.

Lemma set_active_presets_unchanged p c s s' : set_active_presets p c s = (s', false) -> s' = s.
Proof. settle set_active_presets. Qed.

Ltac settle_result op := unfold op; intros; open_step; done.

Lemma ambient_jump_queue_unchanged p now s s' :
  ambient_jump_queue p now s = Ok (s', false) -> s' = s.
Proof. settle_result ambient_jump_queue. Qed.

Lemma ambient_skip_next_unchanged f e c s s' :
  ambient_skip_next f e c s = Ok (s', false) -> s' = s.
Proof.
  intros H. destruct (skip_refused e (ambient s)) eqn:Hr.
  - rewrite ambient_skip_next_refused in H by done. congruence.
  - by apply ambient_skip_next_accepted in H as [? _].
Qed.

Lemma ambient_skip_previous_unchanged now s s' :
  ambient_skip_previous now s = Ok (s', false) -> s' = s.
Proof. unfold ambient_skip_previous. intros H. case_match; inv_results; congruence. Qed.
Lemma ambient_seek_unchanged p now s s' : ambient_seek p now s = Ok (s', false) -> s' = s.
Proof. settle_result ambient_seek. Qed.
Lemma ambient_stop_unchanged s s' : ambient_stop s = Ok (s', false) -> s' = s.
Proof. unfold ambient_stop. intros H. case_match; inv_results; congruence. Qed.
Lemma ambient_play_sequence_unchanged t i p now s s' :
  ambient_play_sequence t i p now s = Ok (s', false) -> s' = s.
Proof. unfold ambient_play_sequence. intros H. case_match; inv_results; congruence. Qed.
Lemma fire_interrupt_unchanged t f now s s' : fire_interrupt t f now s = Ok (s', false) -> s' = s.
Proof. unfold fire_interrupt. intros H. case_match; inv_results; congruence. Qed.
Lemma end_interrupt_unchanged now s s' : end_interrupt now s = Ok (s', false) -> s' = s.
Proof. unfold end_interrupt. intros H. case_match; inv_results; congruence. Qed.

Lemma interrupt_skip_next_unchanged e now s s' :
  interrupt_skip_next e now s = Ok (s', false) -> s' = s.
Proof.
  unfold interrupt_skip_next. intros H. repeat case_match; inv_results; try congruence.
  by eapply end_interrupt_unchanged.
Qed.

Lemma interrupt_seek_unchanged p now s s' : interrupt_seek p now s = Ok (s', false) -> s' = s.
Proof. unfold interrupt_seek. intros H. case_match; inv_results; congruence. Qed.

Lemma fire_cue_unchanged cue now s s' evs :
  fire_cue cue now s = Ok (s', false, evs) -> s' = s.
Proof.
  intros (_ & s1 & b1 & s2 & b2 & Hp & Hpl & -> & Hb & _)%fire_cue_inv.
  symmetry in Hb. apply orb_false_elim in Hb as [[Hb2 Hlen]%orb_false_elim Hloops].
  apply negb_false_iff, Nat.eqb_eq, retain_length_eq in Hlen.
  apply negb_false_iff, bool_decide_eq_true in Hloops.
  destruct (cue_loops cue); [|done]. rewrite app_nil_r, Hlen, with_loops_id.
  destruct (cue_playlist cue); [by destruct Hpl as [_ ->]|]. destruct Hpl as [-> ->]. subst b1.
  destruct (cue_preset cue); [by eapply set_active_presets_unchanged|congruence].
Qed.

Create HintDb unchanged discriminated.
#[export] Hint Resolve set_playing_unchanged set_active_mode_unchanged register_device_unchanged
  set_active_outputs_unchanged remove_active_output_unchanged stop_loop_unchanged
  set_active_presets_unchanged ambient_jump_queue_unchanged ambient_skip_next_unchanged
  ambient_skip_previous_unchanged ambient_seek_unchanged ambient_stop_unchanged
  ambient_play_sequence_unchanged fire_interrupt_unchanged end_interrupt_unchanged
  interrupt_skip_next_unchanged interrupt_seek_unchanged fire_cue_unchanged : unchanged.

Lemma apply_command_unchanged s command context s' pub per evs :
  apply_command s command context = Ok (s', false, pub, per, evs) -> s' = s.
Proof.
  destruct command; cbn [apply_command]; intros H; applied_inv; subst; eauto with unchanged;
    try (unfold set_device_volume, set_active_soundboard, set_crossfade, ambient_set_queue,
           ambient_clear_queue, ambient_set_loop, ambient_set_shuffle in *;
         repeat case_match; congruence).
  - unfold presets_changed in H0. inv_results.
  - destruct x as [[s2 b2] evs2]. applied_inv. simplify_eq.
    eauto with unchanged.
  - destruct (stop_loop id s) as [s2 b2] eqn:Hs. applied_inv. simplify_eq.
    eauto with unchanged.
Qed.

(** The flags of the common tail of [reduce], per command. *)
Lemma apply_command_flags s command context s' b pub per evs :
  apply_command s command context = Ok (s', b, pub, per, evs) ->
  (b = true -> is_report command = true ->
     pub = false /\ per = PersistenceIntent_Throttled) /\
  (b = true -> is_report command = false ->
     pub = true /\ per = PersistenceIntent_Immediate) /\
  (b = false -> evs = [] \/ pub = false /\ per = PersistenceIntent_None).
Proof.
  destruct command; cbn [apply_command is_report]; intros H; applied_inv; subst;
    try (split_and!; intros; simplify_eq; auto; fail).
  - destruct x as [[s2 b2] evs2]. applied_inv. simplify_eq.
    destruct b; split_and!; intros; simplify_eq; auto.
  - destruct (stop_loop id s) as [s2 b2]. applied_inv. simplify_eq.
    destruct b; split_and!; intros; simplify_eq; auto.
Qed.

(** A reduction that reports no change leaves the state as it was and asks
    for neither publication nor persistence; one that reports a change is
    published and persisted immediately, except a position report, which is
    never published and persisted only on the throttled schedule. *)
Theorem reduction_commit_discipline s command context r :
  reduce s command context = Ok r ->
  if changed r then
    if is_report command
    then publish_state r = false /\ persistence r = PersistenceIntent_Throttled
    else publish_state r = true /\ persistence r = PersistenceIntent_Immediate
  else next_state r = s /\ publish_state r = false /\ persistence r = PersistenceIntent_None.
Proof.
  intros (pub & per & H & Hflags)%reduce_inv.
  pose proof (apply_command_flags _ _ _ _ _ _ _ _ H) as (Hrep & Hdur & Hnone).
  destruct (changed r) eqn:Hb; cbn in Hflags.
  - destruct Hflags as [-> ->]. destruct (is_report command); auto.
  - split; [by eapply apply_command_unchanged|].
    destruct (Hnone eq_refl) as [Hevs|[-> ->]].
    + by rewrite Hevs in Hflags.
    + by destruct (bool_decide _).
Qed.

Lemma reduction_commit_discipline_witness :
  exists r, reduce playing_state (ReportPosition "tablet" 7000) (context_at 3000) = Ok r /\
    publish_state r = false /\ persistence r = PersistenceIntent_Throttled.
Proof.
  eexists. split; [reflexivity|].
  apply (reduction_commit_discipline playing_state (ReportPosition "tablet" 7000)
           (context_at 3000) _ eq_refl).
Defined.

(* ------------------------------------------------------------------ *)
(** ** Errors *)

(** The conditions under which each error is returned. *)
Definition reduction_error (s : PlaybackState) (command : PlaybackCommand)
    (context : ReductionContext) (e : PlaybackError) : Prop :=
  match e with
  | InvalidCuePlayback => exists cue, command = FireCue cue /\ cue_valid cue s = false
  | PresetRevisionOverflow =>
      (exists ids ms, command = PresetsChanged ids ms) /\ u64_max <= preset_revision s
  | RandomChoiceRequired =>
      (exists f e, command = AmbientSkipNext f e) /\ ambient_queue (ambient s) <> [] /\
      ambient_shuffle (ambient s) = ShuffleMode_Random /\ random_queue_index context = None
  | RandomChoiceOutOfRange =>
      (exists f e, command = AmbientSkipNext f e) /\ ambient_queue (ambient s) <> [] /\
      ambient_shuffle (ambient s) = ShuffleMode_Random /\
      exists i, random_queue_index context = Some i /\ (length (ambient_queue (ambient s)) <= i)%nat
  | PositionEpochOverflow => u64_max <= position_epoch s
  | InvalidTrackId _ | InvalidUnitInterval | InvalidClock | InvalidLoopingSfx => False
  end.

Lemma ambient_skip_next_err f e context s err :
  ambient_skip_next f e context s = Err err ->
  reduction_error s (AmbientSkipNext f e) context err.
Proof.
  unfold ambient_skip_next. destruct (_ && negb _); [done|]. destruct (_ && _); [done|].
  intros [[-> Hmax]%increment_position_epoch_err|(s1 & Hs & H)]%bind_err; [cbn; lia|].
  apply increment_position_epoch_ok in Hs as [_ ->].
  destruct (_ && _); [done|]. case_bool_decide as Hq; cbn [negb] in H.
  - repeat case_match; done.
  - change (ambient (with_position_epoch _ s)) with (ambient s) in *.
    apply bind_err in H as [H|(? & ? & ?)]; [|done].
    unfold advance_index in H. destruct (ambient_shuffle (ambient s)) eqn:Hsh; [done|].
    destruct (random_queue_index context) as [i|] eqn:Hi; cbn in H.
    + destruct (Nat.leb_spec (length (ambient_queue (ambient s))) i); simplify_eq. cbn. eauto 10.
    + simplify_eq. cbn. eauto 10.
Qed.

Definition epoch_overflow (s : PlaybackState) (e : PlaybackError) : Prop :=
  e = PositionEpochOverflow /\ u64_max <= position_epoch s.

(** A failed increment is the only way most operations fail. *)
Lemma epoch_err s1 s e :
  position_epoch s1 = position_epoch s -> increment_position_epoch s1 = Err e -> epoch_overflow s e.
Proof. intros He [-> ?]%increment_position_epoch_err. split; [done|lia]. Qed.

Lemma ambient_play_track_err t now s e :
  ambient_play_track t now s = Err e -> epoch_overflow s e.
Proof. unfold ambient_play_track. by intros ?%(epoch_err _ s). Qed.
Lemma ambient_jump_queue_err p now s e :
  ambient_jump_queue p now s = Err e -> epoch_overflow s e.
Proof.
  unfold ambient_jump_queue. case_match; [|done].
  by intros [?%(epoch_err _ s)|(? & ? & ?)]%bind_err.
Qed.
Lemma ambient_skip_previous_err now s e :
  ambient_skip_previous now s = Err e -> epoch_overflow s e.
Proof.
  unfold ambient_skip_previous. case_match; [done|].
  by intros [?%(epoch_err _ s)|(? & ? & ?)]%bind_err.
Qed.
Lemma ambient_seek_err p now s e :
  ambient_seek p now s = Err e -> epoch_overflow s e.
Proof.
  unfold ambient_seek. case_match; [|done].
  by intros [?%(epoch_err _ s)|(? & ? & ?)]%bind_err.
Qed.
Lemma ambient_stop_err s e :
  ambient_stop s = Err e -> epoch_overflow s e.
Proof.
  unfold ambient_stop. case_match; [done|].
  by intros [?%(epoch_err _ s)|(? & ? & ?)]%bind_err.
Qed.
Lemma ambient_play_sequence_err t i p now s e :
  ambient_play_sequence t i p now s = Err e -> epoch_overflow s e.
Proof.
  unfold ambient_play_sequence. case_match; [done|].
  by intros [?%(epoch_err _ s)|(? & ? & ?)]%bind_err.
Qed.
Lemma fire_interrupt_err t f now s e :
  fire_interrupt t f now s = Err e -> epoch_overflow s e.
Proof.
  unfold fire_interrupt. case_match; [done|].
  intros [?%(epoch_err _ s)|(? & ? & ?)]%bind_err; [done|by case_match|done].
Qed.
Lemma end_interrupt_err now s e :
  end_interrupt now s = Err e -> epoch_overflow s e.
Proof.
  unfold end_interrupt. case_match; [|done].
  intros [?%(epoch_err _ s)|(? & ? & ?)]%bind_err; [done|by repeat case_match|done].
Qed.
Lemma interrupt_skip_next_err x now s e :
  interrupt_skip_next x now s = Err e -> epoch_overflow s e.
Proof.
  unfold interrupt_skip_next. case_match; [|done]. case_match; [done|].
  case_match; [by apply end_interrupt_err|].
  by intros [?%(epoch_err _ s)|(? & ? & ?)]%bind_err.
Qed.
Lemma interrupt_seek_err p now s e :
  interrupt_seek p now s = Err e -> epoch_overflow s e.
Proof.
  unfold interrupt_seek. case_match; [|done].
  by intros [?%(epoch_err _ s)|(? & ? & ?)]%bind_err.
Qed.

Lemma fire_cue_err cue now s e :
  fire_cue cue now s = Err e ->
  cue_valid cue s = false /\ e = InvalidCuePlayback \/ epoch_overflow s e.
Proof.
  unfold fire_cue. destruct (cue_valid cue s); [cbn|intros [= <-]; auto].
  destruct (match cue_preset cue with Some _ => _ | None => _ end) as [s1 b1] eqn:Hp.
  assert (position_epoch s1 = position_epoch s) as He.
  { destruct (cue_preset cue); [by eapply set_active_presets_settings|by simplify_eq]. }
  intros [H|([? ?] & ? & ?)]%bind_err; [right|done].
  destruct (cue_playlist cue); [|done].
  apply bind_err in H as [H|(? & ? & ?)]; [|done].
  unfold cue_apply_playlist in H. apply bind_err in H as [H|([? ?] & ? & H)].
  - apply ambient_play_sequence_err in H as [-> ?]. split; [done|by rewrite <- He].
  - by case_match.
Qed.

Lemma reduce_error_reason s command context e :
  reduce s command context = Err e -> reduction_error s command context e.
Proof.
  unfold reduce. intros [H|([[[[? ?] ?] ?] ?] & ? & H)]%bind_err; [|by case_match].
  assert (epoch_overflow s e -> reduction_error s command context e) as Hepoch by by intros [-> ?].
  destruct command; cbn [apply_command] in H; try done;
    apply bind_err in H as [H|(? & ? & H)]; try done; try (by case_match);
    eauto using ambient_play_track_err, ambient_jump_queue_err, ambient_skip_previous_err,
      ambient_seek_err, ambient_stop_err, ambient_play_sequence_err, fire_interrupt_err,
      interrupt_skip_next_err, interrupt_seek_err, end_interrupt_err, ambient_skip_next_err.
  - unfold presets_changed in H. apply bind_err in H as [H|(? & ? & ?)]; [|done].
    destruct (u64_checked_add (preset_revision s) 1) eqn:Hadd; [done|].
    apply u64_checked_add_None in Hadd. injection H as <-. cbn. split; [eauto|lia].
  - apply fire_cue_err in H as [[? ->]|?]; [cbn; eauto|auto].
  - by destruct x as [[? ?] ?].
Qed.

(** Everything [reduce] needs to succeed. *)
Record reducible (s : PlaybackState) (command : PlaybackCommand) (context : ReductionContext)
    : Prop := {
  reducible_epoch : position_epoch s < u64_max;
  reducible_presets : preset_revision s < u64_max;
  reducible_choice : forall f e, command = AmbientSkipNext f e ->
    ambient_shuffle (ambient s) = ShuffleMode_Random -> ambient_queue (ambient s) <> [] ->
    exists i, random_queue_index context = Some i /\ (i < length (ambient_queue (ambient s)))%nat;
  reducible_cue : forall cue, command = FireCue cue -> cue_valid cue s = true
}.

(** C37: [reduce] fails only for the documented reasons: an invalid cue, a
    shuffle advance without a usable choice, or a counter at [u64::MAX]; with
    room in the counters, a usable choice and a valid cue every command is
    accepted. *)
Theorem reduce_fails_only_as_documented s command context :
  (forall e, reduce s command context = Err e -> reduction_error s command context e) /\
  (reducible s command context -> exists r, reduce s command context = Ok r).
Proof.
  split; [intros e; apply reduce_error_reason|].
  intros [Hepoch Hpresets Hchoice Hcue].
  destruct (reduce s command context) as [r|e] eqn:H; [eauto|]. exfalso.
  apply reduce_error_reason in H. destruct e; cbn in H; try done; try lia.
  - destruct H as (cue & -> & Hv). by rewrite (Hcue _ eq_refl) in Hv.
  - destruct H as ((f & e & ->) & Hq & Hsh & Hnone).
    destruct (Hchoice _ _ eq_refl Hsh Hq) as (i & Hi & _). congruence.
  - destruct H as ((f & e & ->) & Hq & Hsh & i & Hi & Hle).
    destruct (Hchoice _ _ eq_refl Hsh Hq) as (j & Hj & Hlt). simplify_eq. lia.
Qed.

Lemma reduce_fails_only_as_documented_witness :
  exists r, reduce playing_state (FireCue sample_cue) (context_at 3000) = Ok r.
Proof.
  apply reduce_fails_only_as_documented. split; try done.
  intros cue [= <-]. vm_compute. reflexivity.
Defined.

(* ------------------------------------------------------------------ *)
(** ** The output policy *)

(** Without multiple outputs the room plays through at most one device. *)
Definition outputs_ok (s : PlaybackState) : Prop :=
  multiple_outputs s = false -> (length (active_output_device_ids s) <= 1)%nat.

Lemma newest_output_length current requested : (length (newest_output current requested) <= 1)%nat.
Proof.
  unfold newest_output. destruct (Nat.leb_spec (length requested) 1); [done|].
  case_match; cbn; lia.
Qed.

(** What a single-output selection keeps: the last requested device that was
    not already active, or the last one when all were. *)
Lemma newest_output_spec current requested :
  requested <> [] ->
  exists device, newest_output current requested = [device] /\ device ∈ requested /\
    ((length requested <= 1)%nat \/
     (device ∉ current /\ exists i, requested !! i = Some device /\
        forall j other, (i < j)%nat -> requested !! j = Some other -> other ∈ current) \/
     (last requested = Some device /\ forall other, other ∈ requested -> other ∈ current)).
Proof.
  intros Hne. unfold newest_output. destruct (Nat.leb_spec (length requested) 1) as [Hl|Hl].
  { destruct requested as [|d [|? ?]]; cbn in *; try done; try lia.
    exists d. split_and!; [done|set_solver|by left]. }
  destruct (rposition _ requested) as [i|] eqn:Hr; cbn.
  - apply rposition_Some in Hr as (d & Hd & Hnew & Hafter). rewrite Hd. exists d.
    unfold contains in *. rewrite negb_true_iff, bool_decide_eq_false in Hnew.
    split_and!; [done|by eapply list_elem_of_lookup_2|]. right; left. split; [done|].
    exists i. split; [done|]. intros j other Hj Ho. specialize (Hafter j other Hj Ho).
    by rewrite negb_false_iff, bool_decide_eq_true in Hafter.
  - apply rposition_None in Hr.
    destruct (last requested) as [d|] eqn:Hlast; [|by apply last_None in Hlast].
    rewrite last_lookup in Hlast. replace (length requested - 1)%nat with (pred (length requested)) by lia.
    rewrite Hlast. exists d. split_and!; [done|by eapply list_elem_of_lookup_2|].
    right; right. split; [done|]. intros other Ho. rewrite Forall_forall in Hr.
    specialize (Hr _ Ho). unfold contains in Hr.
    by rewrite negb_false_iff, bool_decide_eq_true in Hr.
Qed.

(** How the active outputs may move. *)
Inductive outputs_step (s : PlaybackState) (command : PlaybackCommand) : list string -> Prop :=
| outputs_keep : outputs_step s command (active_output_device_ids s)
| outputs_select device_ids :
    command = SetActiveOutputs device_ids ->
    outputs_step s command
      (if multiple_outputs s then device_ids
       else newest_output (active_output_device_ids s) device_ids)
| outputs_activate device_id :
    command = RegisterDevice device_id true ->
    multiple_outputs s = true \/ active_output_device_ids s = [] ->
    device_id ∉ active_output_device_ids s ->
    outputs_step s command (active_output_device_ids s ++ [device_id])
| outputs_remove device_id :
    command = RemoveActiveOutput device_id ->
    outputs_step s command
      (retain (fun active => negb (bool_decide (active = device_id)))
         (active_output_device_ids s)).

Lemma outputs_step_keep s s' command :
  active_output_device_ids s' = active_output_device_ids s ->
  outputs_step s command (active_output_device_ids s').
Proof. intros ->. constructor. Qed.

Lemma register_device_outputs device activate s s' b :
  register_device device activate s = (s', b) ->
  multiple_outputs s' = multiple_outputs s /\
  outputs_step s (RegisterDevice device activate) (active_output_device_ids s').
Proof.
  unfold register_device. destruct (device_volumes s !! device); cbn;
    (destruct (activate && _ && _) eqn:Hc; intros [= <- <-]; cbn; split; [done| |done|constructor]);
    apply andb_prop in Hc as [[-> Hfree]%andb_prop Hnew];
    apply outputs_activate; try done.
  all: unfold contains in Hnew; rewrite ?negb_true_iff, ?bool_decide_eq_false in Hnew; try done.
  all: apply orb_true_iff in Hfree as [?|?]; [by left|right].
  all: by destruct (active_output_device_ids s).
Qed.

Lemma apply_command_outputs s command context s' b pub per evs :
  apply_command s command context = Ok (s', b, pub, per, evs) ->
  multiple_outputs s' = multiple_outputs s /\
  outputs_step s command (active_output_device_ids s').
Proof.
  intros H. destruct (is_lane_command command) eqn:Hlane.
  { apply lane_command_frame in H; [|done]. unfold lane_frame, settings_of in H.
    simplify_eq. split; [congruence|apply outputs_step_keep; congruence]. }
  destruct command; try done; cbn [apply_command] in H; applied_inv; subst.
  - unfold set_active_mode in H. case_match; simplify_eq/=; split; done || exact (outputs_keep _ _).
  - unfold set_active_outputs in H. case_bool_decide as Hsame; simplify_eq/=; split; try done.
    + constructor.
    + by eapply outputs_select.
  - by eapply register_device_outputs.
  - unfold remove_active_output in H. simplify_eq/=. split; [done|]. by apply outputs_remove.
  - unfold set_device_volume in H. case_match; simplify_eq/=; split; done || exact (outputs_keep _ _).
  - unfold set_active_soundboard in H. case_match; simplify_eq/=; split; done || exact (outputs_keep _ _).
  - unfold set_active_presets in H. repeat case_match; simplify_eq/=; split; done || exact (outputs_keep _ _).
  - unfold presets_changed in H0. inv_results.
    destruct active_preset_ids, crossfade_ms; split; done || exact (outputs_keep _ _).
  - unfold set_crossfade in H. case_match; simplify_eq/=; split; done || exact (outputs_keep _ _).
  - destruct x as [[s3 b3] evs3]. applied_inv. simplify_eq.
    apply fire_cue_inv in H0 as (_ & s1 & b1 & s2 & b2 & Hp & Hpl & -> & _). cbn.
    assert (multiple_outputs s1 = multiple_outputs s /\
            active_output_device_ids s1 = active_output_device_ids s) as [Hm Ho].
    { destruct (cue_preset cue); [|by simplify_eq].
      unfold set_active_presets in Hp. repeat case_match; by simplify_eq. }
    assert (multiple_outputs s2 = multiple_outputs s1 /\
            active_output_device_ids s2 = active_output_device_ids s1) as [Hm2 Ho2].
    { destruct (cue_playlist cue); [|by destruct Hpl as [-> _]].
      destruct Hpl as [Hpl _]. apply cue_apply_playlist_frame in Hpl.
      unfold lane_frame, settings_of in Hpl. split; congruence. }
    split; [congruence|]. rewrite Ho2, Ho. constructor.
  - simplify_eq. split; [done|exact (outputs_keep _ _)].
  - unfold stop_loop in H. simplify_eq. split; [done|exact (outputs_keep _ _)].
Qed.

Lemma outputs_step_ok s s' command :
  outputs_ok s -> multiple_outputs s' = multiple_outputs s ->
  outputs_step s command (active_output_device_ids s') -> outputs_ok s'.
Proof.
  intros Hok Hm Hout. unfold outputs_ok in *. rewrite Hm. intros Hsingle. specialize (Hok Hsingle).
  inversion Hout as [|ds _ Hds|d _ Hfree _|d _ Hd]; [done|rewrite Hsingle|rewrite length_app|].
  - apply newest_output_length.
  - destruct Hfree as [?|Hnil]; [congruence|]. by rewrite Hnil.
  - etrans; [apply retain_length|done].
Qed.

(** The output policy is an invariant: without multiple outputs, no command
    leaves more than one active output; no command changes the policy, and the
    active outputs only move by a selection (narrowed to the newest requested
    device), an activation of a free slot, or a removal. *)
Theorem reduce_keeps_output_policy s command context r :
  outputs_ok s -> reduce s command context = Ok r ->
  outputs_ok (next_state r) /\ multiple_outputs (next_state r) = multiple_outputs s /\
  outputs_step s command (active_output_device_ids (next_state r)).
Proof.
  intros Hok (pub & per & H & _)%reduce_inv.
  apply apply_command_outputs in H as [Hm Hout]. split; [|done].
  by eapply outputs_step_ok.
Qed.

Lemma reduce_keeps_output_policy_witness :
  exists r, reduce playing_state (SetActiveOutputs ["tablet"; "kitchen"]%string)
              (context_at 3000) = Ok r /\
    active_output_device_ids (next_state r) = ["kitchen"]%string /\ outputs_ok (next_state r).
Proof.
  eexists. split_and!; [reflexivity|reflexivity|].
  eapply (reduce_keeps_output_policy playing_state
            (SetActiveOutputs ["tablet"; "kitchen"]%string) (context_at 3000)); [|reflexivity]. intros _. cbn. lia.
Defined.

(* ------------------------------------------------------------------ *)
(** ** The identity of looping effects *)

Definition loop_ids (s : PlaybackState) : list string := map loop_id (looping_sfx s).

Lemma map_retain_NoDup {A B} (f : A -> B) (p : A -> bool) l :
  NoDup (map f l) -> NoDup (map f (retain p l)).
Proof.
  unfold retain. induction l as [|x l IH]; [done|]. cbn.
  rewrite NoDup_cons. intros [Hx Hnd]. destruct (p x); cbn; [|auto].
  constructor; [|auto]. contradict Hx.
  apply list_elem_of_In, in_map_iff in Hx as (y & <- & Hy).
  apply list_elem_of_In, in_map_iff. exists y. split; [done|]. by eapply List.filter_In.
Qed.

Lemma start_loop_NoDup looping s : NoDup (loop_ids s) -> NoDup (loop_ids (start_loop looping s)).
Proof.
  unfold loop_ids, start_loop. cbn. intros Hnd. rewrite map_app. apply NoDup_app. split_and!.
  - by apply map_retain_NoDup.
  - intros x Hx Hin. apply list_elem_of_singleton in Hin as ->.
    apply list_elem_of_In, in_map_iff in Hx as (y & Hy & Hin).
    apply list_elem_of_In, elem_of_retain in Hin as [_ Hp].
    by rewrite bool_decide_true in Hp by done.
  - repeat constructor. set_solver.
Qed.

(** The id of the [index]-th loop of a cue, and its injectivity. *)
Lemma string_app_inj_l (p a b : string) : p +:+ a = p +:+ b -> a = b.
Proof. induction p as [|c p IH]; [done|]. intros [= H]. by apply IH. Qed.

Lemma cue_loops_valid_ids prefix index loops looping :
  cue_loops_valid prefix index loops = true -> looping ∈ loops ->
  exists i, (index <= i)%nat /\ loop_id looping = prefix +:+ pretty i.
Proof.
  revert index. induction loops as [|l loops IH]; intros index Hv Hin; [set_solver|].
  cbn in Hv. apply andb_prop in Hv as [Hl Hv].
  apply elem_of_cons in Hin as [->|Hin].
  - unfold cue_loop_valid in Hl. repeat apply andb_prop in Hl as [Hl _].
    apply bool_decide_eq_true in Hl. by exists index.
  - destruct (IH _ Hv Hin) as (i & Hi & Hid). exists i. split; [lia|done].
Qed.

Lemma cue_loops_valid_NoDup prefix index loops :
  cue_loops_valid prefix index loops = true -> NoDup (map loop_id loops).
Proof.
  revert index. induction loops as [|l loops IH]; intros index Hv; [constructor|].
  cbn in *. apply andb_prop in Hv as [Hl Hv]. constructor; [|by eapply IH].
  intros (l' & Hid & Hin)%list_elem_of_In%in_map_iff. apply list_elem_of_In in Hin.
  destruct (cue_loops_valid_ids _ _ _ _ Hv Hin) as (i & Hi & Hl').
  unfold cue_loop_valid in Hl. repeat apply andb_prop in Hl as [Hl _].
  apply bool_decide_eq_true in Hl. rewrite Hid, Hl in Hl'.
  apply string_app_inj_l, (inj pretty) in Hl'. lia.
Qed.

Lemma starts_with_app p s : starts_with p (p +:+ s) = true.
Proof.
  unfold starts_with. induction p as [|c p IH]; [by destruct s|].
  change (match Ascii.ascii_dec c c with
          | left _ => String.prefix p (p +:+ s) | right _ => false end = true).
  by destruct (Ascii.ascii_dec c c).
Qed.

Lemma cue_valid_loops cue s :
  cue_valid cue s = true -> cue_loops_valid (loop_prefix (cue_id cue)) 0 (cue_loops cue) = true.
Proof. unfold cue_valid. intros [[_ H]%andb_prop _]%andb_prop. done. Qed.

(** The loops and presets a cue leaves behind. *)
Lemma fire_cue_effect cue now s s' b evs :
  fire_cue cue now s = Ok (s', b, evs) ->
  cue_valid cue s = true /\
  evs = map LoopStarted (cue_loops cue) ++ map sfx_event (cue_sfx cue) /\
  looping_sfx s' = retain (fun looping =>
      negb (starts_with (loop_prefix (cue_id cue)) (loop_id looping))) (looping_sfx s)
    ++ cue_loops cue /\
  active_mode_id s' = active_mode_id s /\
  active_soundboard_id s' = active_soundboard_id s /\
  active_preset_ids s' = match cue_preset cue with
                         | Some preset => [cue_preset_id preset]
                         | None => active_preset_ids s
                         end /\
  match cue_playlist cue with
  | Some playlist => exists s1, ambient s1 = ambient s /\ interrupt s1 = interrupt s /\
      position_epoch s1 = position_epoch s /\
      exists s2, cue_apply_playlist playlist now s1 = Ok s2 /\
        ambient s' = ambient s2 /\ position_epoch s' = position_epoch s2 /\
        interrupt s' = interrupt s2
  | None => settings_step s s'
  end.
Proof.
  intros (Hv & s1 & b1 & s2 & b2 & Hp & Hpl & -> & _ & ->)%fire_cue_inv.
  assert (settings_step s s1) as Hstep.
  { destruct (cue_preset cue); [by eapply set_active_presets_settings|by simplify_eq]. }
  assert (looping_sfx s1 = looping_sfx s /\ active_mode_id s1 = active_mode_id s /\
          active_soundboard_id s1 = active_soundboard_id s /\
          active_preset_ids s1 = match cue_preset cue with
            Some preset => [cue_preset_id preset] | None => active_preset_ids s end)
    as (Hl & Hm & Hsb & Hps).
  { destruct (cue_preset cue) as [preset|]; [|by simplify_eq].
    unfold set_active_presets in Hp.
    assert (dedup [cue_preset_id preset] = [cue_preset_id preset]) as Hd.
    { unfold dedup, push_unique, contains. cbn. by rewrite bool_decide_false by set_solver. }
    rewrite Hd in Hp. case_bool_decide; repeat case_match; by simplify_eq/=. }
  assert (settings_of s2 = settings_of s1 /\ match cue_playlist cue with
            Some playlist => cue_apply_playlist playlist now s1 = Ok s2
          | None => s2 = s1 end) as [Hset Happ].
  { destruct (cue_playlist cue); [|by destruct Hpl as [-> _]].
    destruct Hpl as [Hpl _]. split; [by eapply cue_apply_playlist_frame|done]. }
  unfold settings_of in Hset. injection Hset as _ Hm2 _ _ _ _ Hs2 Hp2 _ _ _ Hl2.
  split_and!; [done|done|cbn; by rewrite Hl2, Hl|cbn; congruence..|].
  destruct Hstep as (? & ? & ? & ?).
  destruct (cue_playlist cue); [|by subst s2].
  exists s1. split_and!; [done..|]. by exists s2.
Qed.

Lemma apply_command_loops s command context s' b pub per evs :
  apply_command s command context = Ok (s', b, pub, per, evs) ->
  looping_sfx s' = looping_sfx s \/
  (exists looping, command = StartLoop looping /\ s' = start_loop looping s) \/
  (exists id, command = StopLoop id /\
     looping_sfx s' = retain (fun l => negb (bool_decide (loop_id l = id))) (looping_sfx s)) \/
  (exists cue, command = FireCue cue /\ cue_valid cue s = true /\
     looping_sfx s' = retain (fun looping =>
       negb (starts_with (loop_prefix (cue_id cue)) (loop_id looping))) (looping_sfx s)
       ++ cue_loops cue).
Proof.
  intros H. destruct (is_lane_command command) eqn:Hlane.
  { apply lane_command_frame in H; [|done]. unfold lane_frame, settings_of in H. left. congruence. }
  destruct command; try done; cbn [apply_command] in H; applied_inv; subst;
    try (left; unfold set_active_mode, set_active_outputs, register_device,
           remove_active_output, set_device_volume, set_active_soundboard, set_active_presets,
           set_crossfade in H; repeat case_match; by simplify_eq/=).
  - left. unfold presets_changed in H0. inv_results. by destruct active_preset_ids, crossfade_ms.
  - destruct x as [[s3 b3] evs3]. applied_inv. simplify_eq.
    apply fire_cue_effect in H0 as (? & _ & ? & _). right; right; right. eauto.
  - simplify_eq. right; left. eauto.
  - unfold stop_loop in H. simplify_eq. right; right; left. eauto.
Qed.

(** No command ever leaves two running loops with the same id. *)
Lemma apply_command_loop_ids s command context s' b pub per evs :
  NoDup (loop_ids s) -> apply_command s command context = Ok (s', b, pub, per, evs) ->
  NoDup (loop_ids s').
Proof.
  intros Hnd H. apply apply_command_loops in H
    as [H|[(l & _ & ->)|[(id & _ & H)|(cue & _ & Hv & H)]]].
  - unfold loop_ids in *. by rewrite H.
  - by apply start_loop_NoDup.
  - unfold loop_ids in *. rewrite H. by apply map_retain_NoDup.
  - apply cue_valid_loops in Hv. unfold loop_ids in *. rewrite H, map_app.
    apply NoDup_app. split_and!; [by apply map_retain_NoDup| |by eapply cue_loops_valid_NoDup].
    intros x (l & <- & Hl)%list_elem_of_In%in_map_iff (l' & Heq & Hl')%list_elem_of_In%in_map_iff.
    apply list_elem_of_In, elem_of_retain in Hl as [_ Hkeep].
    apply list_elem_of_In in Hl'.
    destruct (cue_loops_valid_ids _ _ _ _ Hv Hl') as (i & _ & Hid).
    rewrite <- Heq, Hid, starts_with_app in Hkeep. done.
Qed.

(** Firing a cue is one atomic reduction: it selects exactly the cue's
    preset, starts its playlist at the clamped start track and position with a
    new epoch, replaces exactly the loops the cue owns, and emits the loop
    starts before the one-shot effects; loops of other origins keep running. *)
Theorem fire_cue_is_atomic s cue context r :
  reduce s (FireCue cue) context = Ok r ->
  events r = map LoopStarted (cue_loops cue) ++ map sfx_event (cue_sfx cue) /\
  looping_sfx (next_state r) = retain (fun looping =>
      negb (starts_with (loop_prefix (cue_id cue)) (loop_id looping))) (looping_sfx s)
    ++ cue_loops cue /\
  (forall preset, cue_preset cue = Some preset ->
     active_preset_ids (next_state r) = [cue_preset_id preset]) /\
  (forall playlist, cue_playlist cue = Some playlist ->
     let a := ambient (next_state r) in
     let index := Nat.min (cue_start_index playlist) (length (cue_track_ids playlist) - 1) in
     ambient_current_track_id a = cue_track_ids playlist !! index /\
     lane_tracks a = cue_track_ids playlist /\
     ambient_position_ms a = N.min (cue_start_ms playlist) MAX_POSITION_MS /\
     ambient_source_playlist_id a = Some (cue_source_playlist_id playlist) /\
     position_epoch (next_state r) = position_epoch s + 1).
Proof.
  intros (pub & per & H & _)%reduce_inv. cbn in H. apply bind_ok in H as ([[s' b] evs] & H & Heq).
  simplify_eq. apply fire_cue_effect in H as (Hv & Hevs & Hloops & _ & _ & Hpresets & Hpl).
  simplify_eq. split_and!; [done|done| |].
  - intros preset Hp. by rewrite Hpresets, Hp.
  - intros playlist Hp. rewrite Hp in Hpl.
    pose proof (cue_valid_playlist _ _ _ Hv Hp) as Hne.
    destruct Hpl as (s1 & _ & _ & He1 & s2 & Happ & -> & -> & _).
    unfold cue_apply_playlist, ambient_play_sequence in Happ.
    destruct (cue_track_ids playlist) as [|t ts] eqn:Hts; [done|].
    apply bind_ok in Happ as ([s3 b3] & Hs & Happ). inv_results. epoch_ok. simplify_eq.
    set (index := Nat.min _ _) in *.
    assert (is_Some ((t :: ts) !! index)) as [x Hx] by (apply lookup_lt_is_Some; subst index; cbn; lia).
    assert (take index (t :: ts) ++ option_list ((t :: ts) !! index) ++ drop (index + 1) (t :: ts)
            = t :: ts) as Hseq.
    { rewrite Hx. cbn [option_list]. replace (index + 1)%nat with (S index) by lia.
      by apply take_drop_middle. }
    destruct (N.ltb_spec 0 (cue_start_ms playlist)); inv_results; cbn in *;
      split_and!; try done; try congruence; lia.
Qed.

Lemma fire_cue_is_atomic_witness :
  exists r, reduce playing_state (FireCue sample_cue) (context_at 3000) = Ok r /\
    map loop_id (looping_sfx (next_state r)) = ["thunder"; "cue:battle:0"]%string /\
    position_epoch (next_state r) = 1.
Proof.
  eexists. split; [reflexivity|].
  edestruct (fire_cue_is_atomic playing_state sample_cue (context_at 3000)) as (_ & -> & _ & H);
    [reflexivity|].
  split; [vm_compute; reflexivity|]. by apply (H _ eq_refl).
Defined.
