(* ===== verification/Persistence.v ===== *)
(** * The durable playback document

    [crates/music-application/src/playback/persistence.rs]: the serialised form
    of the playback aggregate, its conversions to and from [PlaybackState], and
    the store the actor persists it in. The JSON library is third-party code
    and enters as the class [SerdeJson], with the round trip it documents as
    [SerdeJsonSpec]; the JSON text is never inspected, so its type is abstract. *)

From S2P Require Import Prelude PlaybackState Reducer ReducerLemmas LaneSpec ReducerSpec.
From S2P Require Import CommitSpec.

#[local] Open Scope N_scope.

(* ------------------------------------------------------------------ *)
(** ** The document *)

Inductive PersistedLoopMode : Type :=
  PersistedLoopMode_Off | PersistedLoopMode_Follow | PersistedLoopMode_Queue
| PersistedLoopMode_Track.
Inductive PersistedShuffleMode : Type :=
  PersistedShuffleMode_Off | PersistedShuffleMode_Random.
Inductive PersistedCrossfadeType : Type :=
  PersistedCrossfadeType_Linear | PersistedCrossfadeType_EqualPower
| PersistedCrossfadeType_Cut.

Record PersistedAmbientState : Type := mkPersistedAmbientState {
  pa_current_track_id : option Z;
  pa_queue : list Z;
  pa_history : list Z;
  pa_position_ms : N;
  pa_loop_mode : PersistedLoopMode;
  pa_shuffle : PersistedShuffleMode;
  pa_source_playlist_id : option Z
}.

Record PersistedPositionReport : Type := mkPersistedPositionReport {
  pr_device_id : string;
  pr_position_ms : N;
  pr_reported_at : f64
}.

Record PersistedPlaybackState : Type := mkPersistedPlaybackState {
  p_revision : N;
  p_position_epoch : N;
  p_is_playing : bool;
  p_active_mode_id : option string;
  p_active_output_device_ids : list string;
  p_default_device_volume : f64;
  p_device_volumes : gmap string f64;
  p_active_soundboard_id : option string;
  p_active_preset_ids : list string;
  p_preset_revision : N;
  p_crossfade_ms : N;
  p_crossfade_type : PersistedCrossfadeType;
  p_ambient : PersistedAmbientState;
  p_last_position_report : option PersistedPositionReport
}.

(** The parts of [serde_json] the program uses: the derived (de)serialisers of
    the document, and [serde_json::Value] with its equality. *)
Class SerdeJson (text : Type) : Type := {
  json_error : Type;
  json_error_chain : json_error -> string;
  to_string : PersistedPlaybackState -> result json_error text;
  from_str : text -> result json_error PersistedPlaybackState;
  json_value : Type;
  value_from_str : text -> result json_error json_value;
  value_eqb : json_value -> json_value -> bool;
  (** Floats that survive printing and parsing exactly; the library does not
      promise it for every float unless its [float_roundtrip] feature is on. *)
  float_stable : f64 -> bool
}.

Inductive PersistedStateError {text : Type} `{SerdeJson text} : Type :=
| PersistedStateError_Json (error : json_error)
| PersistedStateError_Domain (error : PlaybackError).

(** [ErrorChain(&error).to_string()]: the message, then every cause. *)
Definition persisted_state_error_chain {text : Type} `{SerdeJson text}
    (error : PersistedStateError) : string :=
  match error with
  | PersistedStateError_Json cause =>
      "persisted playback state is not valid JSON: " +:+ json_error_chain cause
  | PersistedStateError_Domain cause =>
      "persisted playback state is invalid: " +:+ PlaybackError_display cause
        +:+ ": " +:+ PlaybackError_display cause
  end.

(* ------------------------------------------------------------------ *)
(** ** Conversions *)

Definition LoopMode_from (value : PersistedLoopMode) : LoopMode :=
  match value with
  | PersistedLoopMode_Off => LoopMode_Off
  | PersistedLoopMode_Follow => LoopMode_Follow
  | PersistedLoopMode_Queue => LoopMode_Queue
  | PersistedLoopMode_Track => LoopMode_Track
  end.

Definition PersistedLoopMode_from (value : LoopMode) : PersistedLoopMode :=
  match value with
  | LoopMode_Off => PersistedLoopMode_Off
  | LoopMode_Follow => PersistedLoopMode_Follow
  | LoopMode_Queue => PersistedLoopMode_Queue
  | LoopMode_Track => PersistedLoopMode_Track
  end.

Definition ShuffleMode_from (value : PersistedShuffleMode) : ShuffleMode :=
  match value with
  | PersistedShuffleMode_Off => ShuffleMode_Off
  | PersistedShuffleMode_Random => ShuffleMode_Random
  end.

Definition PersistedShuffleMode_from (value : ShuffleMode) : PersistedShuffleMode :=
  match value with
  | ShuffleMode_Off => PersistedShuffleMode_Off
  | ShuffleMode_Random => PersistedShuffleMode_Random
  end.

Definition CrossfadeType_from (value : PersistedCrossfadeType) : CrossfadeType :=
  match value with
  | PersistedCrossfadeType_Linear => CrossfadeType_Linear
  | PersistedCrossfadeType_EqualPower => CrossfadeType_EqualPower
  | PersistedCrossfadeType_Cut => CrossfadeType_Cut
  end.

Definition PersistedCrossfadeType_from (value : CrossfadeType) : PersistedCrossfadeType :=
  match value with
  | CrossfadeType_Linear => PersistedCrossfadeType_Linear
  | CrossfadeType_EqualPower => PersistedCrossfadeType_EqualPower
  | CrossfadeType_Cut => PersistedCrossfadeType_Cut
  end.

Definition valid_track_id (value : Z) : option TrackId := result_ok (TrackId_new value).

(** [impl TryFrom<PersistedAmbientState> for AmbientState]: stored ids that are
    not positive are dropped. No input is refused. *)
Definition AmbientState_try_from (persisted : PersistedAmbientState)
    : result PlaybackError AmbientState :=
  Ok {|
    ambient_current_track_id := pa_current_track_id persisted ≫= valid_track_id;
    ambient_queue := omap valid_track_id (pa_queue persisted);
    ambient_history := omap valid_track_id (pa_history persisted);
    ambient_position_ms := N.min (pa_position_ms persisted) i64_max;
    ambient_position_anchor_ms := None;
    ambient_loop_mode := LoopMode_from (pa_loop_mode persisted);
    ambient_shuffle := ShuffleMode_from (pa_shuffle persisted);
    ambient_source_playlist_id := pa_source_playlist_id persisted |}.

Definition PersistedAmbientState_from (a : AmbientState) : PersistedAmbientState := {|
  pa_current_track_id := TrackId_get <$> ambient_current_track_id a;
  pa_queue := TrackId_get <$> ambient_queue a;
  pa_history := TrackId_get <$> ambient_history a;
  pa_position_ms := ambient_position_ms a;
  pa_loop_mode := PersistedLoopMode_from (ambient_loop_mode a);
  pa_shuffle := PersistedShuffleMode_from (ambient_shuffle a);
  pa_source_playlist_id := ambient_source_playlist_id a |}.

Definition PersistedPositionReport_from (r : PositionReport) : PersistedPositionReport := {|
  pr_device_id := report_device_id r;
  pr_position_ms := report_position_ms r;
  pr_reported_at := reported_at_unix_seconds r |}.

Definition PersistedPlaybackState_from (s : PlaybackState) : PersistedPlaybackState := {|
  p_revision := publication_revision s;
  p_position_epoch := position_epoch s;
  p_is_playing := is_playing s;
  p_active_mode_id := active_mode_id s;
  p_active_output_device_ids := active_output_device_ids s;
  p_default_device_volume := unit_get (default_device_volume s);
  p_device_volumes := unit_get <$> device_volumes s;
  p_active_soundboard_id := active_soundboard_id s;
  p_active_preset_ids := active_preset_ids s;
  p_preset_revision := preset_revision s;
  p_crossfade_ms := crossfade_ms s;
  p_crossfade_type := PersistedCrossfadeType_from (crossfade_type s);
  p_ambient := PersistedAmbientState_from (ambient s);
  p_last_position_report := PersistedPositionReport_from <$> last_position_report s |}.

(** [map(|(device_id, volume)| Ok((device_id, UnitInterval::new(volume)?)))] *)
Definition volume_entry (entry : string * f64) : result PlaybackError (string * UnitInterval) :=
  volume ← UnitInterval_new entry.2; Ok (entry.1, volume).

(** Iterates over the stored map in key order and collects the checked volumes. *)
Definition device_volumes_from (volumes : gmap string f64)
    : result PlaybackError (gmap string UnitInterval) :=
  entries ← result_collect volume_entry (sorted_entries string_leb volumes);
  Ok (list_to_map entries).

(** [report.filter(..).map(..)] of [decode_persisted_state]. *)
Definition position_report_from (report : option PersistedPositionReport)
    : option PositionReport :=
  r ← report;
  if f64_is_finite (pr_reported_at r) && f64_leb (f64_of_Z 0) (pr_reported_at r)
  then Some (mkPositionReport (pr_device_id r) (N.min (pr_position_ms r) i64_max)
               (pr_reported_at r))
  else None.

(** The [PlaybackState] literal of [decode_persisted_state]. *)
Definition state_from (persisted : PersistedPlaybackState) : result PlaybackError PlaybackState :=
  default_volume ← UnitInterval_new (p_default_device_volume persisted);
  volumes ← device_volumes_from (p_device_volumes persisted);
  a ← AmbientState_try_from (p_ambient persisted);
  Ok {| publication_revision := p_revision persisted;
        position_epoch := p_position_epoch persisted;
        is_playing := p_is_playing persisted;
        active_mode_id := p_active_mode_id persisted;
        active_output_device_ids := p_active_output_device_ids persisted;
        multiple_outputs := false;
        default_device_volume := default_volume;
        device_volumes := volumes;
        active_soundboard_id := p_active_soundboard_id persisted;
        active_preset_ids := p_active_preset_ids persisted;
        preset_revision := p_preset_revision persisted;
        crossfade_ms := p_crossfade_ms persisted;
        crossfade_type := CrossfadeType_from (p_crossfade_type persisted);
        ambient := a;
        interrupt := None;
        looping_sfx := [];
        last_position_report := position_report_from (p_last_position_report persisted) |}.

Section Codec.
Context {text : Type} `{SerdeJson text}.

Definition decode_persisted_state (state_json : text)
    : result PersistedStateError PlaybackState :=
  persisted ← map_err PersistedStateError_Json (from_str state_json);
  s ← map_err PersistedStateError_Domain (state_from persisted);
  Ok (normalize_for_startup s).

Definition encode_persisted_state (s : PlaybackState) (now_monotonic_ms : N)
    : result PersistedStateError text :=
  let materialized := materialize_positions s now_monotonic_ms in
  map_err PersistedStateError_Json (to_string (PersistedPlaybackState_from materialized)).

End Codec.

(* ------------------------------------------------------------------ *)
(** * Round trip and safety of the durable document *)

#[local] Open Scope N_scope.

(* ------------------------------------------------------------------ *)
(** ** What the JSON library promises *)

Definition i64_range (z : Z) : Prop := (- 2 ^ 63 <= z < 2 ^ 63)%Z.

(** A document whose integers fit their Rust types and whose floats the JSON
    library prints and parses exactly. *)
Record document_ok (text : Type) `{SerdeJson text} (doc : PersistedPlaybackState) : Prop := {
  doc_revision : p_revision doc <= u64_max;
  doc_epoch : p_position_epoch doc <= u64_max;
  doc_preset_revision : p_preset_revision doc <= u64_max;
  doc_crossfade : p_crossfade_ms doc <= u32_max;
  doc_position : pa_position_ms (p_ambient doc) <= u64_max;
  doc_current : forall z, pa_current_track_id (p_ambient doc) = Some z -> i64_range z;
  doc_queue : Forall i64_range (pa_queue (p_ambient doc));
  doc_history : Forall i64_range (pa_history (p_ambient doc));
  doc_source : forall z, pa_source_playlist_id (p_ambient doc) = Some z -> i64_range z;
  doc_default_volume : float_stable (p_default_device_volume doc) = true;
  doc_volumes : map_Forall (fun _ v => float_stable v = true) (p_device_volumes doc);
  doc_report : forall r, p_last_position_report doc = Some r ->
    pr_position_ms r <= u64_max /\ float_stable (pr_reported_at r) = true
}.

Class SerdeJsonSpec (text : Type) `{SerdeJson text} : Prop := {
  print_parse doc : document_ok text doc ->
    exists t, to_string doc = Ok t /\ from_str t = Ok doc;
  parse_value t doc : from_str t = Ok doc -> exists v, value_from_str t = Ok v;
  value_eqb_refl v : value_eqb v v = true
}.

(** A concrete codec, the one the witnesses run: the text is the document. *)
#[global] Instance IdentityJson : SerdeJson PersistedPlaybackState := {|
  json_error := False;
  json_error_chain := fun e => match e with end;
  to_string := Ok;
  from_str := Ok;
  json_value := PersistedPlaybackState;
  value_from_str := Ok;
  value_eqb := fun _ _ => true;
  float_stable := fun _ => true |}.

(* ------------------------------------------------------------------ *)
(** ** Round trip *)

(** A state whose document is printable: integers within their types, stable
    floats, and a report the reducer could have stored. *)
Record persistable (text : Type) `{SerdeJson text} (s : PlaybackState) : Prop := {
  per_revision : publication_revision s <= u64_max;
  per_epoch : position_epoch s <= u64_max;
  per_preset_revision : preset_revision s <= u64_max;
  per_crossfade : crossfade_ms s <= u32_max;
  per_position : ambient_position_ms (ambient s) <= MAX_POSITION_MS;
  per_tracks : Forall (fun t => i64_range (TrackId_get t)) (lane_tracks (ambient s));
  per_source : forall z, ambient_source_playlist_id (ambient s) = Some z -> i64_range z;
  per_default_volume : float_stable (unit_get (default_device_volume s)) = true;
  per_volumes : map_Forall (fun _ v => float_stable (unit_get v) = true) (device_volumes s);
  per_report : forall r, last_position_report s = Some r ->
    report_position_ms r <= MAX_POSITION_MS /\
    f64_is_finite (reported_at_unix_seconds r) = true /\
    f64_leb (f64_of_Z 0) (reported_at_unix_seconds r) = true /\
    float_stable (reported_at_unix_seconds r) = true
}.

(** What a restart makes of a state: nothing of the session survives. *)
Definition startup_image (s : PlaybackState) : PlaybackState :=
  normalize_for_startup (with_multiple_outputs false s).

Lemma valid_track_ids_get (l : list TrackId) : omap valid_track_id (TrackId_get <$> l) = l.
Proof. induction l as [|t l IH]; [done|]. cbn. f_equal. apply IH. Qed.

Lemma volume_entry_get k u : volume_entry (k, unit_get u) = Ok (k, u).
Proof. unfold volume_entry. cbn. by rewrite UnitInterval_new_get. Qed.

Lemma device_volumes_from_get (m : gmap string UnitInterval) :
  device_volumes_from (unit_get <$> m) = Ok m.
Proof.
  unfold device_volumes_from.
  set (g := fun e : string * f64 =>
         (e.1, default UnitInterval_default (result_ok (UnitInterval_new e.2)))).
  rewrite (result_collect_ok volume_entry g); cbn.
  - f_equal. apply map_eq. intros k. apply option_eq. intros u.
    assert (NoDup (map g (sorted_entries string_leb (unit_get <$> m))).*1) as Hnd.
    { rewrite <- list_fmap_compose. apply NoDup_sorted_keys. }
    rewrite <- elem_of_list_to_map by done.
    change (map g ?l) with (g <$> l). rewrite list_elem_of_fmap. split.
    + intros ([k' v] & [= -> ->] & Hin). apply elem_of_sorted_entries in Hin.
      rewrite lookup_fmap in Hin. destruct (m !! k') as [u'|]; [|done].
      cbn in Hin. injection Hin as <-. by rewrite UnitInterval_new_get.
    + intros Hk. exists (k, unit_get u). unfold g. cbn. rewrite UnitInterval_new_get.
      split; [done|]. apply elem_of_sorted_entries. by rewrite lookup_fmap, Hk.
  - intros [k v] Hin%elem_of_sorted_entries. rewrite lookup_fmap in Hin.
    destruct (m !! k) as [u|]; [|done]. cbn in Hin. injection Hin as <-.
    rewrite volume_entry_get. unfold g. cbn. by rewrite UnitInterval_new_get.
Qed.

Lemma loop_mode_roundtrip m : LoopMode_from (PersistedLoopMode_from m) = m.
Proof. by destruct m. Qed.
Lemma shuffle_mode_roundtrip m : ShuffleMode_from (PersistedShuffleMode_from m) = m.
Proof. by destruct m. Qed.
Lemma crossfade_type_roundtrip m : CrossfadeType_from (PersistedCrossfadeType_from m) = m.
Proof. by destruct m. Qed.
#[export] Hint Rewrite loop_mode_roundtrip shuffle_mode_roundtrip crossfade_type_roundtrip
  valid_track_ids_get : music.

Lemma ambient_roundtrip a :
  ambient_position_ms a <= MAX_POSITION_MS ->
  AmbientState_try_from (PersistedAmbientState_from a)
  = Ok (with_ambient_position_anchor_ms None a).
Proof.
  intros Hp. unfold AmbientState_try_from, PersistedAmbientState_from. cbn -[N.min].
  autorewrite with music. unfold MAX_POSITION_MS in Hp. rewrite N.min_l by done.
  destruct a as [[]]; reflexivity.
Qed.

Section RoundTrip.
Context {text : Type} `{!SerdeJson text}.

Lemma position_report_roundtrip s :
  persistable text s ->
  position_report_from (PersistedPositionReport_from <$> last_position_report s)
  = last_position_report s.
Proof.
  intros [_ _ _ _ _ _ _ _ _ Hr]. destruct (last_position_report s) as [r|]; [|done].
  destruct (Hr r eq_refl) as (Hp & Hf & H0 & _). cbn -[N.min f64_leb f64_of_Z f64_is_finite].
  rewrite Hf, H0. cbn -[N.min].
  unfold MAX_POSITION_MS in Hp. rewrite N.min_l by done. by destruct r.
Qed.

Lemma state_roundtrip s :
  persistable text s -> interrupt s = None -> looping_sfx s = [] ->
  multiple_outputs s = false -> ambient_position_anchor_ms (ambient s) = None ->
  state_from (PersistedPlaybackState_from s) = Ok s.
Proof.
  intros Hper Hi Hl Hm Ha. pose proof (position_report_roundtrip s Hper) as Hr.
  unfold state_from, PersistedPlaybackState_from. cbn -[position_report_from device_volumes_from AmbientState_try_from].
  rewrite UnitInterval_new_get, device_volumes_from_get, ambient_roundtrip by apply Hper.
  cbn -[position_report_from device_volumes_from AmbientState_try_from]. autorewrite with music. rewrite Hr.
  destruct s as [? ? ? ? ? ? ? ? ? ? ? ? ? a ? ? ?]; cbn in *. subst. by destruct a; cbn in *; subst.
Qed.

(** The document does not see session state beyond what it writes. *)
Lemma state_from_startup s :
  persistable text s ->
  normalize_for_startup <$> state_from (PersistedPlaybackState_from s) = Ok (startup_image s).
Proof.
  intros Hper. pose proof (position_report_roundtrip s Hper) as Hr.
  unfold state_from, PersistedPlaybackState_from. cbn -[position_report_from device_volumes_from AmbientState_try_from].
  rewrite UnitInterval_new_get, device_volumes_from_get, ambient_roundtrip by apply Hper.
  cbn -[position_report_from device_volumes_from AmbientState_try_from]. autorewrite with music. rewrite Hr. by destruct s.
Qed.

Lemma lane_tracks_materialize now a :
  lane_tracks (materialize_ambient now a) = lane_tracks a.
Proof. unfold materialize_ambient. by repeat case_match. Qed.

Lemma materialize_settings s t :
  settings_of (materialize_positions s t) = settings_of s /\
  publication_revision (materialize_positions s t) = publication_revision s /\
  position_epoch (materialize_positions s t) = position_epoch s /\
  last_position_report (materialize_positions s t) = last_position_report s /\
  is_playing (materialize_positions s t) = is_playing s.
Proof. unfold materialize_positions. by case_match. Qed.

Lemma persistable_materialize s t : persistable text s -> persistable text (materialize_positions s t).
Proof.
  intros [? ? ? ? ? ? ? ? ? ?].
  destruct (materialize_settings s t) as (Hs & Hrev & He & Hr & _).
  unfold settings_of in Hs. injection Hs as ? ? ? ? ? ? ? ? ? ? ?.
  pose proof (ambient_materialize s t) as Ha.
  split; rewrite ?Hrev, ?He, ?Hr, ?Ha, ?lane_tracks_materialize; try congruence.
  - by apply materialize_ambient_le.
  - unfold materialize_ambient. by repeat case_match.
  - by replace (device_volumes (materialize_positions s t)) with (device_volumes s) by congruence.
  - done.
Qed.

Lemma persistable_document s : persistable text s -> document_ok text (PersistedPlaybackState_from s).
Proof.
  intros [? ? ? ? Hpos Ht Hsrc ? Hv Hr]. unfold lane_tracks in Ht.
  rewrite !Forall_app in Ht. destruct Ht as (Hh & Hc & Hq).
  split; cbn; try done.
  - unfold MAX_POSITION_MS, i64_max, u64_max in *. lia.
  - intros z. destruct (ambient_current_track_id _); intros [= <-]. by inversion Hc.
  - by apply Forall_fmap.
  - by apply Forall_fmap.
  - intros k v. rewrite lookup_fmap. destruct (device_volumes s !! k) eqn:Hk; intros [= <-].
    by eapply Hv.
  - intros r. destruct (last_position_report s) as [r'|]; intros [= <-].
    destruct (Hr r' eq_refl) as (? & _ & _ & ?). cbn. split; [|done].
    unfold MAX_POSITION_MS, i64_max, u64_max in *. lia.
Qed.

Lemma encode_decode s t `{!SerdeJsonSpec text} :
  persistable text s -> exists json, encode_persisted_state s t = Ok json /\
    decode_persisted_state json = Ok (startup_image (materialize_positions s t)).
Proof.
  intros Hper%(persistable_materialize _ t).
  destruct (print_parse _ (persistable_document _ Hper)) as (json & Hprint & Hparse).
  exists json. unfold encode_persisted_state, decode_persisted_state.
  rewrite Hprint, Hparse. split; [done|].
  pose proof (state_from_startup _ Hper) as Hs.
  cbn [map_err mbind result_bind]. destruct (state_from _); [|discriminate Hs].
  apply (Ok_inj (E := PlaybackError)) in Hs. cbn [map_err mbind result_bind].
  by rewrite Hs.
Qed.

Lemma startup_image_rest s t :
  materialize_positions (startup_image s) t = startup_image s /\
  startup_image (startup_image s) = startup_image s.
Proof. destruct s as [? ? ? ? ? ? ? ? ? ? ? ? ? [] ? ? ?]. split; vm_compute; reflexivity. Qed.

Lemma persistable_startup s : persistable text s -> persistable text (startup_image s).
Proof. by intros []. Qed.

(** The document round trip: a persistable state encodes, and decoding
    gives the state materialised at the instant of the write with everything
    session-bound cleared and nothing durable lost; what a restart decodes is
    a fixed point, whenever it is written again. *)
Theorem persisted_state_roundtrip s t t' `{!SerdeJsonSpec text} :
  persistable text s -> exists json json' s',
    encode_persisted_state s t = Ok json /\ decode_persisted_state json = Ok s' /\
    s' = startup_image (materialize_positions s t) /\
    encode_persisted_state s' t' = Ok json' /\ decode_persisted_state json' = Ok s'.
Proof.
  intros Hper. destruct (encode_decode s t Hper) as (json & He & Hd).
  destruct (encode_decode (startup_image (materialize_positions s t)) t') as (json' & He' & Hd').
  { by apply persistable_startup, persistable_materialize. }
  exists json, json', (startup_image (materialize_positions s t)).
  rewrite (proj1 (startup_image_rest _ _)), (proj2 (startup_image_rest _ t')) in Hd'.
  auto.
Qed.

(* ------------------------------------------------------------------ *)
(** ** What a decoded state can be *)

Lemma state_from_shape doc s :
  state_from doc = Ok s ->
  ambient_position_anchor_ms (ambient s) = None /\
  ambient_position_ms (ambient s) <= MAX_POSITION_MS /\ interrupt s = None /\
  looping_sfx s = [] /\ multiple_outputs s = false /\
  (forall r, last_position_report s = Some r -> report_position_ms r <= MAX_POSITION_MS /\
     f64_is_finite (reported_at_unix_seconds r) = true).
Proof.
  unfold state_from. intros Hs. inv_results. injection H1 as <-. simplify_eq/=.
  split_and!; try done.
  - unfold MAX_POSITION_MS. cbn -[N.min]. lia.
  - intros r Hr. unfold position_report_from in Hr.
    destruct (p_last_position_report doc) as [p|]; [|done].
    cbn -[N.min f64_leb f64_of_Z f64_is_finite] in Hr.
    destruct (_ && _) eqn:Hf; [|done]. injection Hr as <-. cbn -[N.min].
    apply andb_prop in Hf as [-> _]. unfold MAX_POSITION_MS. split; [lia|done].
Qed.

(** A state nothing plays in: what a restart may start from. *)
Record at_rest (s : PlaybackState) : Prop := {
  rest_playing : is_playing s = false;
  rest_outputs : active_output_device_ids s = [];
  rest_interrupt : interrupt s = None;
  rest_loops : looping_sfx s = [];
  rest_policy : multiple_outputs s = false;
  rest_clock : clock_wf s
}.

Lemma decoded_at_rest json s : decode_persisted_state json = Ok s -> at_rest s.
Proof.
  unfold decode_persisted_state.
  destruct (from_str json) as [doc|e] eqn:Hparse; [|done].
  unfold mbind, result_bind; cbn [map_err].
  destruct (state_from doc) as [s'|e] eqn:Hs; [|done]. cbn [map_err]. intros Heq%Ok_inj. subst s.
  destruct (state_from_shape _ _ Hs) as (Ha & Hp & Hi & Hl & Hm & _).
  split; try done.
Qed.

Lemma volume_entries_error l e :
  result_collect volume_entry l = Err e -> e = InvalidUnitInterval.
Proof.
  induction l as [|entry l IH]; [done|]. cbn.
  intros [Hs|(? & _ & Hs)]%bind_err.
  { unfold volume_entry, UnitInterval_new in Hs. case_match; [done|]. by injection Hs as <-. }
  apply bind_err in Hs as [Hs|(? & _ & Hs)]; [by apply IH|done].
Qed.

(** No document resumes session state: whatever the store holds, a decoded
    state is paused, with no output on, no interrupt, no loop and a single
    output, and satisfies the clock invariant; decoding fails only on text the
    JSON library refuses or on a volume outside the unit interval. *)
Theorem decoded_state_is_at_rest json :
  match decode_persisted_state json with
  | Ok s => at_rest s
  | Err (PersistedStateError_Json e) => from_str json = Err e
  | Err (PersistedStateError_Domain e) => e = InvalidUnitInterval
  end.
Proof.
  destruct (decode_persisted_state json) as [s|e] eqn:Hd; [by eapply decoded_at_rest|].
  unfold decode_persisted_state in Hd.
  destruct (from_str json) as [doc|e'] eqn:Hparse; cbn in Hd; [|by injection Hd as <-].
  destruct (state_from doc) as [s|e'] eqn:Hs; cbn in Hd; [done|]. injection Hd as <-.
  unfold state_from in Hs. apply bind_err in Hs as [Hs|(? & _ & Hs)].
  { unfold UnitInterval_new in Hs. case_match; [done|]. by injection Hs as <-. }
  apply bind_err in Hs as [Hs|(? & _ & Hs)]; [|by inv_results].
  unfold device_volumes_from in Hs. apply bind_err in Hs as [Hs|(? & _ & Hs)]; [|done].
  by eapply volume_entries_error.
Qed.

End RoundTrip.

#[global] Instance IdentityJson_spec : SerdeJsonSpec PersistedPlaybackState.
Proof. split; [intros doc _; by exists doc|intros t doc _; by exists t|done]. Qed.

Lemma persisted_state_roundtrip_witness :
  exists json, encode_persisted_state interrupted_state 5000 = Ok json /\
    decode_persisted_state json = Ok (startup_image (materialize_positions interrupted_state 5000)).
Proof.
  destruct (persisted_state_roundtrip interrupted_state 5000 9000) as (json & _ & s & H & H' & -> & _).
  - split; [vm_compute; by intros [=]..| |by intros z [=]|reflexivity|done|by intros r [=]].
    repeat constructor; vm_compute; by intros [=].
  - by exists json.
Defined.
