(* ===== verification/Store.v ===== *)
(** * The playback state store

    The interface [PlaybackStateStore] of [playback/persistence.rs] as a class:
    the operations, and [PlaybackStateStoreSpec], the contract the actor relies
    on over the abstract view [store_row]. The SQLite implementation
    ([crates/music-storage/src/sqlite.rs] behind [src/playback.rs]) discharges
    it: a statement acts on the [playback_state] table, and may fail before or
    after it took effect, as the next entry of [faults] says. *)

From S2P Require Import Prelude.

#[local] Open Scope Z_scope.

Definition i64_max_Z : Z := 9223372036854775807.

(** [a.checked_add(b)] on [i64], for a non-negative [b]. *)
Definition i64_checked_add (a b : Z) : option Z :=
  if a + b <=? i64_max_Z then Some (a + b) else None.

Record StoredPlaybackSnapshot (text : Type) : Type := mkStoredPlaybackSnapshot {
  state_json : text;
  snapshot_storage_revision : Z
}.
Arguments mkStoredPlaybackSnapshot {text} _ _.
Arguments state_json {text} _.
Arguments snapshot_storage_revision {text} _.

Inductive StoreCompareAndSwap : Type :=
| StoreUpdated (storage_revision : Z)
| StoreConflict.

Class PlaybackStateStore (text store : Type) : Type := {
  store_error : Type;
  store_error_chain : store_error -> string;
  store_load : Z -> store -> result store_error (option (StoredPlaybackSnapshot text)) * store;
  store_insert_if_missing : Z -> text -> store -> result store_error bool * store;
  store_compare_and_swap :
    Z -> Z -> text -> store -> result store_error StoreCompareAndSwap * store
}.

(** The contract, over the row each id holds. A failed call may still have
    written the row it was asked to write; it never touches another one. *)
Class PlaybackStateStoreSpec (text store : Type) `{PlaybackStateStore text store} : Type := {
  store_row : store -> Z -> option (StoredPlaybackSnapshot text);
  load_spec id st r st' : store_load id st = (r, st') ->
    store_row st' = store_row st /\ (forall v, r = Ok v -> v = store_row st id);
  insert_spec id json st r st' : store_insert_if_missing id json st = (r, st') ->
    (forall id', id' <> id -> store_row st' id' = store_row st id') /\
    let inserted := store_row st id = None /\
                    store_row st' id = Some (mkStoredPlaybackSnapshot json 0) in
    match r with
    | Ok true => inserted
    | Ok false => is_Some (store_row st id) /\ store_row st' id = store_row st id
    | Err _ => store_row st' id = store_row st id \/ inserted
    end;
  cas_spec id expected json st r st' : store_compare_and_swap id expected json st = (r, st') ->
    (forall id', id' <> id -> store_row st' id' = store_row st id') /\
    let swapped := snapshot_storage_revision <$> store_row st id = Some expected /\
          store_row st' id = Some (mkStoredPlaybackSnapshot json (expected + 1)) in
    match r with
    | Ok (StoreUpdated revision) => revision = expected + 1 /\ swapped
    | Ok StoreConflict => snapshot_storage_revision <$> store_row st id <> Some expected /\
                          store_row st' id = store_row st id
    | Err _ => store_row st' id = store_row st id \/ swapped
    end
}.

(* ------------------------------------------------------------------ *)
(** ** The SQLite implementation *)

Inductive CompareAndSwap : Type :=
| CompareAndSwap_Updated (storage_revision : Z)
| CompareAndSwap_Conflict.

(** What the database does to one statement. *)
Inductive Fault : Type := NoFault | FailBefore (cause : string) | FailAfter (cause : string).

(** How a body leaves its transaction. *)
Inductive TxEnd (A : Type) : Type := Tx_commit (value : A) | Tx_rollback (value : A).
Arguments Tx_commit {A} value.
Arguments Tx_rollback {A} value.

(** The errors the playback table's operations return. *)
Inductive StorageError : Type :=
| StorageError_Database (cause : string)
| StorageError_InvalidStorageRevision (revision : Z)
| StorageError_StorageRevisionOverflow.

Record SqliteStorage (text : Type) : Type := mkSqliteStorage {
  playback_state : gmap Z (text * Z);
  faults : list Fault
}.
Arguments mkSqliteStorage {text} _ _.
Arguments playback_state {text} _.
Arguments faults {text} _.

Section Sqlite.
Context {text : Type}.
Implicit Types (db : SqliteStorage text).

(** Runs a statement: it yields the rows or the count the database reports
    and the new table, and consumes one fault. *)
Definition execute_statement {A} (statement : gmap Z (text * Z) -> A * gmap Z (text * Z))
    (db : SqliteStorage text) : result StorageError A * SqliteStorage text :=
  let '(answer, table) := statement (playback_state db) in
  let remaining := tail (faults db) in
  match head (faults db) with
  | None | Some NoFault => (Ok answer, mkSqliteStorage table remaining)
  | Some (FailBefore cause) =>
      (Err (StorageError_Database cause), mkSqliteStorage (playback_state db) remaining)
  | Some (FailAfter cause) =>
      (Err (StorageError_Database cause), mkSqliteStorage table remaining)
  end.

(** [SELECT state_json, storage_revision FROM playback_state WHERE id = ?] *)
Definition select_snapshot (id : Z) (table : gmap Z (text * Z)) :=
  ((fun row => mkStoredPlaybackSnapshot row.1 row.2) <$> table !! id, table).

(** [INSERT OR IGNORE INTO playback_state ... VALUES (?, ?, 0, ..)]: the number
    of rows affected, and the table. *)
Definition insert_or_ignore (id : Z) (json : text) (table : gmap Z (text * Z)) :=
  match table !! id with
  | Some _ => (0%nat, table)
  | None => (1%nat, <[id := (json, 0)]> table)
  end.

(** [UPDATE playback_state SET .. WHERE id = ? AND storage_revision = ?] *)
Definition update_revision (id expected next : Z) (json : text) (table : gmap Z (text * Z)) :=
  match table !! id with
  | Some (_, revision) =>
      if revision =? expected then (1%nat, <[id := (json, next)]> table) else (0%nat, table)
  | None => (0%nat, table)
  end.

Definition load_playback_snapshot (id : Z) (db : SqliteStorage text) :=
  execute_statement (select_snapshot id) db.

Definition insert_playback_snapshot_if_missing (id : Z) (json : text) (db : SqliteStorage text)
    : result StorageError bool * SqliteStorage text :=
  let '(rows_affected, db) := execute_statement (insert_or_ignore id json) db in
  ((fun n => n =? 1)%nat <$> rows_affected, db).

Definition compare_and_swap_playback_snapshot (id expected_storage_revision : Z) (json : text)
    (db : SqliteStorage text) : result StorageError CompareAndSwap * SqliteStorage text :=
  if expected_storage_revision <? 0
  then (Err (StorageError_InvalidStorageRevision expected_storage_revision), db)
  else
    match i64_checked_add expected_storage_revision 1 with
    | None => (Err StorageError_StorageRevisionOverflow, db)
    | Some next_revision =>
        let '(rows_affected, db) :=
          execute_statement (update_revision id expected_storage_revision next_revision json) db in
        ((fun n => if (n =? 1)%nat then CompareAndSwap_Updated next_revision
                   else CompareAndSwap_Conflict) <$> rows_affected, db)
    end.

(** [impl PlaybackStateStore for SqliteStorage] *)
#[global] Instance SqliteStore : PlaybackStateStore text (SqliteStorage text) := {|
  store_error := StorageError;
  store_error_chain := fun e =>
    match e with
    | StorageError_Database cause => "SQLite operation failed: " +:+ cause
    | StorageError_InvalidStorageRevision revision =>
        "storage revision must be non-negative, got " +:+ pretty revision
    | StorageError_StorageRevisionOverflow => "storage revision overflow"
    end;
  store_load := load_playback_snapshot;
  store_insert_if_missing := insert_playback_snapshot_if_missing;
  store_compare_and_swap := fun id expected json db =>
    let '(r, db) := compare_and_swap_playback_snapshot id expected json db in
    ((fun swap => match swap with
                  | CompareAndSwap_Updated revision => StoreUpdated revision
                  | CompareAndSwap_Conflict => StoreConflict
                  end) <$> r, db)
|}.

Definition sqlite_row (db : SqliteStorage text) (id : Z) : option (StoredPlaybackSnapshot text) :=
  (fun row => mkStoredPlaybackSnapshot row.1 row.2) <$> playback_state db !! id.

Lemma execute_statement_inv {A} (statement : _ -> A * _) db r db' :
  execute_statement statement db = (r, db') ->
  match r with
  | Ok a => statement (playback_state db) = (a, playback_state db')
  | Err _ => playback_state db' = playback_state db \/
             (statement (playback_state db)).2 = playback_state db'
  end.
Proof.
  unfold execute_statement. destruct (statement _) as [a table].
  destruct (head (faults db)) as [[]|]; intros [= <- <-]; cbn; auto.
Qed.

Lemma sqlite_row_insert db db' id v :
  playback_state db' = <[id := v]> (playback_state db) ->
  sqlite_row db' id = Some (mkStoredPlaybackSnapshot v.1 v.2) /\
  forall id', id' <> id -> sqlite_row db' id' = sqlite_row db id'.
Proof.
  intros Heq. unfold sqlite_row. rewrite Heq. split; [by rewrite lookup_insert_eq|].
  intros id' Hne. by rewrite lookup_insert_ne.
Qed.

Lemma sqlite_row_same db db' :
  playback_state db' = playback_state db -> sqlite_row db' = sqlite_row db.
Proof. unfold sqlite_row. by intros ->. Qed.

Lemma sqlite_load_spec id db r db' :
  load_playback_snapshot id db = (r, db') ->
  sqlite_row db' = sqlite_row db /\ (forall v, r = Ok v -> v = sqlite_row db id).
Proof.
  unfold load_playback_snapshot. intros H%execute_statement_inv. unfold select_snapshot in H.
  destruct r as [v|e]; cbn in H.
  - injection H as <- Ht. split; [by apply sqlite_row_same|]. intros ? [= <-]. done.
  - split; [|done]. apply sqlite_row_same. naive_solver.
Qed.

Lemma sqlite_insert_spec id json db r db' :
  insert_playback_snapshot_if_missing id json db = (r, db') ->
  (forall id', id' <> id -> sqlite_row db' id' = sqlite_row db id') /\
  let inserted := sqlite_row db id = None /\
                  sqlite_row db' id = Some (mkStoredPlaybackSnapshot json 0) in
  match r with
  | Ok true => inserted
  | Ok false => is_Some (sqlite_row db id) /\ sqlite_row db' id = sqlite_row db id
  | Err _ => sqlite_row db' id = sqlite_row db id \/ inserted
  end.
Proof.
  unfold insert_playback_snapshot_if_missing.
  destruct (execute_statement _ db) as [affected db1] eqn:H. intros [= <- <-].
  apply execute_statement_inv in H. unfold insert_or_ignore in H. cbv zeta.
  assert (forall x, playback_state db !! id = x ->
    sqlite_row db id = (fun row => mkStoredPlaybackSnapshot row.1 row.2) <$> x) as Hrow
    by (by intros ? <-).
  destruct (playback_state db !! id) as [old|] eqn:Hold; specialize (Hrow _ eq_refl);
    destruct affected as [n|e]; cbn in *.
  - injection H as <- Ht. symmetry in Ht. apply sqlite_row_same in Ht.
    split; [by rewrite Ht|]. rewrite Ht, Hrow. by cbn.
  - assert (sqlite_row db1 = sqlite_row db) as -> by (apply sqlite_row_same; naive_solver). auto.
  - injection H as <- Ht. symmetry in Ht. by apply sqlite_row_insert in Ht as [-> ?].
  - destruct H as [H|H].
    + apply sqlite_row_same in H as ->. auto.
    + symmetry in H. apply sqlite_row_insert in H as [-> ?]. auto.
Qed.

Lemma sqlite_cas_spec id expected json db r db' :
  compare_and_swap_playback_snapshot id expected json db = (r, db') ->
  (forall id', id' <> id -> sqlite_row db' id' = sqlite_row db id') /\
  let swapped := snapshot_storage_revision <$> sqlite_row db id = Some expected /\
        sqlite_row db' id = Some (mkStoredPlaybackSnapshot json (expected + 1)) in
  match r with
  | Ok (CompareAndSwap_Updated revision) => revision = expected + 1 /\ swapped
  | Ok CompareAndSwap_Conflict => snapshot_storage_revision <$> sqlite_row db id <> Some expected /\
                                  sqlite_row db' id = sqlite_row db id
  | Err _ => sqlite_row db' id = sqlite_row db id \/ swapped
  end.
Proof.
  unfold compare_and_swap_playback_snapshot, i64_checked_add. cbv zeta.
  destruct (expected <? 0); [intros [= <- <-]; auto|].
  destruct (expected + 1 <=? i64_max_Z); [|intros [= <- <-]; auto].
  destruct (execute_statement _ db) as [affected db1] eqn:H. intros [= <- <-].
  apply execute_statement_inv in H. unfold update_revision in H.
  assert (snapshot_storage_revision <$> sqlite_row db id = snd <$> playback_state db !! id) as Hrow
    by (unfold sqlite_row; by destruct (playback_state db !! id)).
  rewrite Hrow.
  destruct (playback_state db !! id) as [[old rev]|]; cbn in H |- *;
    [destruct (Z.eqb_spec rev expected) as [Heq|Hne]|]; destruct affected as [n|err]; cbn in *;
    repeat match goal with
    | H : _ \/ _ |- _ => destruct H
    | H : (_, _) = (_, _) |- _ => injection H as <- H
    end; cbn; symmetry in H;
    first [apply sqlite_row_insert in H as [-> ?]
          |assert (sqlite_row db1 = sqlite_row db) as -> by (apply sqlite_row_same; congruence)];
    split_and?; subst; auto; congruence || naive_solver congruence.
Qed.

Lemma sqlite_store_cas_spec id expected json db r db' :
  store_compare_and_swap id expected json db = (r, db') ->
  (forall id', id' <> id -> sqlite_row db' id' = sqlite_row db id') /\
  let swapped := snapshot_storage_revision <$> sqlite_row db id = Some expected /\
        sqlite_row db' id = Some (mkStoredPlaybackSnapshot json (expected + 1)) in
  match r with
  | Ok (StoreUpdated revision) => revision = expected + 1 /\ swapped
  | Ok StoreConflict => snapshot_storage_revision <$> sqlite_row db id <> Some expected /\
                        sqlite_row db' id = sqlite_row db id
  | Err _ => sqlite_row db' id = sqlite_row db id \/ swapped
  end.
Proof.
  cbn. destruct (compare_and_swap_playback_snapshot id expected json db) as [r0 db0] eqn:H.
  intros [= <- <-]. apply sqlite_cas_spec in H. by destruct r0 as [[]|].
Qed.

(** The SQLite store meets the contract of the interface. *)
#[global] Instance SqliteStore_spec : PlaybackStateStoreSpec text (SqliteStorage text) := {|
  store_row := sqlite_row;
  load_spec := sqlite_load_spec;
  insert_spec := sqlite_insert_spec;
  cas_spec := sqlite_store_cas_spec
|}.

End Sqlite.

(* ------------------------------------------------------------------ *)
(** ** Racing writers *)

Section Race.
Context {text store : Type} `{Hspec : PlaybackStateStoreSpec text store}.

Definition is_updated {E} (r : result E StoreCompareAndSwap) : bool :=
  match r with Ok (StoreUpdated _) => true | _ => false end.

(** Writers that all read revision [expected] and swap one after the other. *)
Fixpoint race (id expected : Z) (writes : list text) (st : store)
    : list (result store_error StoreCompareAndSwap) :=
  match writes with
  | [] => []
  | json :: writes =>
      let '(r, st) := store_compare_and_swap id expected json st in
      r :: race id expected writes st
  end.

Lemma race_lost id expected writes st :
  snapshot_storage_revision <$> store_row st id <> Some expected ->
  Forall (fun r => is_updated r = false) (race id expected writes st).
Proof.
  revert st. induction writes as [|json writes IH]; intros st Hrev; cbn; [constructor|].
  destruct (store_compare_and_swap id expected json st) as [r st'] eqn:Hcas.
  apply cas_spec in Hcas as [_ Hr]. constructor.
  - destruct r as [[]|]; [|done..]. by destruct Hr as (_ & ? & _).
  - apply IH. destruct r as [[]|]; cbn in Hr.
    + by destruct Hr as (_ & ? & _).
    + by destruct Hr as [_ ->].
    + by destruct Hr as [->|[? _]].
Qed.

(** Among writers that start from the same storage revision at most one
    swap is acknowledged, whatever fails in between. *)
Theorem race_has_one_winner id expected writes st :
  (length (List.filter is_updated (race id expected writes st)) <= 1)%nat.
Proof.
  revert st. induction writes as [|json writes IH]; intros st; cbn; [lia|].
  destruct (store_compare_and_swap id expected json st) as [r st'] eqn:Hcas. cbn.
  destruct (is_updated r) eqn:Hr; [|apply IH].
  apply cas_spec in Hcas as [_ Hr']. destruct r as [[revision|]|]; try done.
  destruct Hr' as (_ & _ & Hrow).
  assert (List.filter is_updated (race id expected writes st') = []) as ->; [|cbn; lia].
  assert (snapshot_storage_revision <$> store_row st' id <> Some expected) as Hlost.
  { rewrite Hrow. cbn. intros [= ?]. lia. }
  pose proof (race_lost id expected writes st' Hlost) as Hall.
  induction Hall as [|x l Hx _ IHl]; cbn; [done|]. by rewrite Hx.
Qed.

End Race.
