(* ===== verification/Catalog.v ===== *)
(** * The catalog the playback actor checks commands against

    The data types of [crates/music-application/src/playback/actor.rs] that
    describe the library and mode catalogs, and its functions on them: which
    commands need a catalog, which references are valid, how the state is pruned
    when a catalog replaces another, and the compact path-ordered projection of
    the library. *)

From S2P Require Import Prelude PlaybackState Reducer.

#[local] Open Scope N_scope.

(* ------------------------------------------------------------------ *)
(** ** Data *)

Record CatalogGeneration : Type := mkCatalogGeneration {
  generation_library : N;
  generation_modes : N
}.

Record CatalogMode : Type := mkCatalogMode {
  mode_soundboard_items : gmap string (gset string);
  mode_cue_ids : gset string;
  mode_preset_ids : gset string;
  mode_multiple_outputs : bool
}.

Record CatalogTrack : Type := mkCatalogTrack {
  track_duration_ms : option N;
  track_follow_next_id : option TrackId
}.

(** [None] means not loaded yet; [Some ∅] is a loaded empty catalog. *)
Record CatalogSnapshot : Type := mkCatalogSnapshot {
  catalog_generation : CatalogGeneration;
  catalog_tracks : option (gmap TrackId CatalogTrack);
  catalog_modes : option (gmap string CatalogMode)
}.

Record ResolvedPlaybackCommand : Type := mkResolvedPlaybackCommand {
  resolved_command : PlaybackCommand;
  resolved_generation : option CatalogGeneration
}.

(** [ResolvedPlaybackCommand::direct] and [::at_generation]. *)
Definition resolved_direct (command : PlaybackCommand) : ResolvedPlaybackCommand :=
  mkResolvedPlaybackCommand command None.
Definition resolved_at_generation (command : PlaybackCommand) (generation : CatalogGeneration)
    : ResolvedPlaybackCommand :=
  mkResolvedPlaybackCommand command (Some generation).

Record ModePresetKey : Type := mkModePresetKey {
  key_mode_id : string;
  key_preset_id : string
}.

(** [ModePlaybackReferences] of [modes.rs] has the fields of [CatalogMode]. *)
Record ModePlaybackReferences : Type := mkModePlaybackReferences {
  refs_soundboard_items : gmap string (gset string);
  refs_cue_ids : gset string;
  refs_preset_ids : gset string;
  refs_multiple_outputs : bool
}.

(** [changed_presets] is a [BTreeSet]; the actor only asks whether any of its
    keys satisfies a predicate, so a list stands for it. *)
Record ModeCatalogPublication : Type := mkModeCatalogPublication {
  publication_generation : N;
  publication_modes : gmap string ModePlaybackReferences;
  publication_changed_presets : list ModePresetKey
}.

(** The compact row of the library index; a [LibraryPath] is ordered as the
    string it encodes, a [Duration] is a number of nanoseconds. *)
Record LibraryCatalogTrack : Type := mkLibraryCatalogTrack {
  library_track_id : TrackId;
  library_track_path : string;
  library_track_duration : N
}.

#[global] Instance CatalogGeneration_eq_dec : EqDecision CatalogGeneration.
Proof. solve_decision. Defined.
#[global] Instance CatalogMode_eq_dec : EqDecision CatalogMode.
Proof. solve_decision. Defined.
#[global] Instance CatalogTrack_eq_dec : EqDecision CatalogTrack.
Proof. solve_decision. Defined.
#[global] Instance CatalogSnapshot_eq_dec : EqDecision CatalogSnapshot.
Proof. solve_decision. Defined.

Definition CatalogMode_from (mode : ModePlaybackReferences) : CatalogMode := {|
  mode_soundboard_items := refs_soundboard_items mode;
  mode_cue_ids := refs_cue_ids mode;
  mode_preset_ids := refs_preset_ids mode;
  mode_multiple_outputs := refs_multiple_outputs mode |}.

(* ------------------------------------------------------------------ *)
(** ** The library projection *)

Definition nanos_per_ms : N := 1000000.

(** [u64::try_from(duration.as_millis()).unwrap_or(u64::MAX)] *)
Definition duration_ms (duration : N) : N := u64_clamp (duration / nanos_per_ms).

(** [left.path.cmp(&right.path).then(left.id.cmp(&right.id))], as [<=]. *)
Definition library_track_le (left right : LibraryCatalogTrack) : Prop :=
  if String.eqb (library_track_path left) (library_track_path right)
  then (library_track_id left <= library_track_id right)%positive
  else string_leb (library_track_path left) (library_track_path right) = true.

#[global] Instance library_track_le_dec left right : Decision (library_track_le left right).
Proof. unfold library_track_le. case_match; apply _. Defined.

Definition catalog_track_entry (ordered_ids : list TrackId) (index : nat)
    (track : LibraryCatalogTrack) : TrackId * CatalogTrack :=
  let duration_ms :=
    if negb (library_track_duration track =? 0)
    then Some (duration_ms (library_track_duration track)) else None in
  let follow_next_id :=
    match ordered_ids !! (index + 1)%nat with
    | Some next => Some next
    | None => head ordered_ids
    end in
  (library_track_id track, mkCatalogTrack duration_ms follow_next_id).

Definition playback_catalog_tracks (tracks : list LibraryCatalogTrack)
    : gmap TrackId CatalogTrack :=
  let tracks := merge_sort library_track_le tracks in
  let ordered_ids := library_track_id <$> tracks in
  collect_map (imap (catalog_track_entry ordered_ids) tracks).

(* ------------------------------------------------------------------ *)
(** ** Admission of commands *)

Definition command_requires_catalog (command : PlaybackCommand) : bool :=
  match command with
  | SetActiveMode _ | SetActiveSoundboard _ | SetActivePresets _ _ | PresetsChanged _ _
  | AmbientPlayTrack _ | AmbientSetQueue _ | AmbientEnqueue _ _ | AmbientPlaySequence _ _ _
  | FireInterruptSequence _ _ | FireCue _ | FireSfx _ _ _ | StartLoop _ => true
  | AmbientSkipNext (Some _) _ => true
  | _ => false
  end.

(** [catalog.tracks] knows every id; an empty list needs no catalog. *)
Definition tracks_valid (catalog : CatalogSnapshot) (track_ids : list TrackId) : bool :=
  match track_ids with
  | [] => true
  | _ => match catalog_tracks catalog with
         | Some known => forallb (fun track_id => bool_decide (is_Some (known !! track_id))) track_ids
         | None => false
         end
  end.

Definition item_valid (mode : CatalogMode) (soundboard_id item_path : string) : bool :=
  match mode_soundboard_items mode !! soundboard_id with
  | Some items => bool_decide (item_path ∈ items)
  | None => false
  end.

Definition active_mode (catalog : CatalogSnapshot) (s : PlaybackState) : option CatalogMode :=
  mode_id ← active_mode_id s; known ← catalog_modes catalog; known !! mode_id.

Definition option_is_some_and {A} (o : option A) (p : A -> bool) : bool :=
  match o with Some x => p x | None => false end.
Definition option_is_none_or {A} (o : option A) (p : A -> bool) : bool :=
  match o with Some x => p x | None => true end.

Definition presets_valid (mode : option CatalogMode) (preset_ids : list string) : bool :=
  match preset_ids with
  | [] => true
  | _ => option_is_some_and mode (fun mode =>
           forallb (fun id => bool_decide (id ∈ mode_preset_ids mode)) preset_ids)
  end.

Definition cue_references_valid (cue : CuePlayback) (catalog : CatalogSnapshot)
    (s : PlaybackState) : bool :=
  let mode := known ← catalog_modes catalog; known !! cue_mode_id cue in
  bool_decide (active_mode_id s = Some (cue_mode_id cue))
  && option_is_some_and mode (fun mode =>
       bool_decide (cue_id cue ∈ mode_cue_ids mode)
       && option_is_none_or (cue_preset cue) (fun preset =>
            bool_decide (cue_preset_id preset ∈ mode_preset_ids mode))
       && option_is_none_or (cue_playlist cue) (fun playlist =>
            negb (bool_decide (cue_track_ids playlist = []))
            && tracks_valid catalog (cue_track_ids playlist))
       && forallb (fun looping =>
            item_valid mode (loop_soundboard_id looping) (loop_item_path looping)) (cue_loops cue)
       && forallb (fun sfx =>
            item_valid mode (cue_sfx_soundboard_id sfx) (cue_sfx_item_path sfx)) (cue_sfx cue)).

Definition catalog_references_valid (command : PlaybackCommand) (catalog : CatalogSnapshot)
    (s : PlaybackState) : bool :=
  let mode := active_mode catalog s in
  match command with
  | SetActiveMode None | SetActiveSoundboard None => true
  | SetActiveMode (Some mode_id) =>
      option_is_some_and (catalog_modes catalog) (fun known =>
        bool_decide (is_Some (known !! mode_id)))
  | SetActiveSoundboard (Some soundboard_id) =>
      option_is_some_and mode (fun mode =>
        bool_decide (is_Some (mode_soundboard_items mode !! soundboard_id)))
  | FireCue cue => cue_references_valid cue catalog s
  | FireSfx soundboard_id item_path _ =>
      option_is_some_and mode (fun mode => item_valid mode soundboard_id item_path)
  | SetActivePresets preset_ids _ => presets_valid mode preset_ids
  | PresetsChanged (Some preset_ids) _ => presets_valid mode preset_ids
  | AmbientPlayTrack track_id | AmbientEnqueue track_id _ => tracks_valid catalog [track_id]
  | AmbientSetQueue track_ids | AmbientPlaySequence track_ids _ _
  | FireInterruptSequence track_ids _ => tracks_valid catalog track_ids
  | AmbientSkipNext (Some track_id) _ => tracks_valid catalog [track_id]
  | StartLoop looping =>
      option_is_some_and mode (fun mode =>
        item_valid mode (loop_soundboard_id looping) (loop_item_path looping))
  | _ => true
  end.

(* ------------------------------------------------------------------ *)
(** ** Pruning *)

Definition active_mode_allows_multiple_outputs (s : PlaybackState)
    (known : gmap string CatalogMode) : bool :=
  option_is_some_and (mode_id ← active_mode_id s; known !! mode_id) mode_multiple_outputs.

(** [tracks.contains_key(id)] *)
Definition knows_track (known : gmap TrackId CatalogTrack) (id : TrackId) : bool :=
  bool_decide (is_Some (known !! id)).

(** The tracks of the two lanes, the first block of [prune_for_catalog]. *)
Definition prune_tracks (known : gmap TrackId CatalogTrack) (now_monotonic_ms : N)
    (s : PlaybackState) : PlaybackState * bool :=
  let queue := retain (knows_track known) (ambient_queue (ambient s)) in
  let history := retain (knows_track known) (ambient_history (ambient s)) in
  let changed := negb (length (ambient_queue (ambient s)) =? length queue)%nat
                 || negb (length (ambient_history (ambient s)) =? length history)%nat in
  let s := with_ambient (with_ambient_history history
                           (with_ambient_queue queue (ambient s))) s in
  let '(s, changed) :=
    if option_is_some_and (ambient_current_track_id (ambient s)) (fun id => negb (knows_track known id))
    then (with_is_playing false
            (with_ambient (with_ambient_position_anchor_ms None
               (with_ambient_position_ms 0
                  (with_ambient_current_track_id None (ambient s)))) s), true)
    else (s, changed) in
  match interrupt s with
  | None => (s, changed)
  | Some i =>
      let queue := retain (knows_track known) (interrupt_queue i) in
      let changed := changed || negb (length (interrupt_queue i) =? length queue)%nat in
      if negb (knows_track known (interrupt_current_track_id i)) then
        let s := with_interrupt None s in
        if is_playing s && bool_decide (is_Some (ambient_current_track_id (ambient s)))
        then (with_ambient
                (with_ambient_position_anchor_ms (Some now_monotonic_ms) (ambient s)) s, true)
        else (s, true)
      else (with_interrupt (Some (with_interrupt_queue queue i)) s, changed)
  end.

(** The mode references and the output policy, its second block. *)
Definition prune_modes (known : gmap string CatalogMode) (s : PlaybackState)
    : PlaybackState * bool :=
  let '(s, changed) :=
    if option_is_some_and (active_mode_id s) (fun mode_id =>
         negb (bool_decide (is_Some (known !! mode_id))))
    then (with_looping_sfx [] (with_active_preset_ids []
            (with_active_soundboard_id None (with_active_mode_id None s))), true)
    else (s, false) in
  let mode := mode_id ← active_mode_id s; known !! mode_id in
  let '(s, changed) :=
    if option_is_some_and (active_soundboard_id s) (fun soundboard_id =>
         option_is_none_or mode (fun mode =>
           negb (bool_decide (is_Some (mode_soundboard_items mode !! soundboard_id)))))
    then (with_active_soundboard_id None s, true) else (s, changed) in
  let presets := retain (fun preset_id =>
    option_is_some_and mode (fun mode => bool_decide (preset_id ∈ mode_preset_ids mode)))
    (active_preset_ids s) in
  let changed := changed || negb (length (active_preset_ids s) =? length presets)%nat in
  let s := with_active_preset_ids presets s in
  let loops := retain (fun looping =>
    option_is_some_and mode (fun mode =>
      item_valid mode (loop_soundboard_id looping) (loop_item_path looping)))
    (looping_sfx s) in
  let changed := changed || negb (length (looping_sfx s) =? length loops)%nat in
  let s := with_looping_sfx loops s in
  let '(s, policy_changed) :=
    apply_output_policy (active_mode_allows_multiple_outputs s known) s in
  (s, changed || policy_changed).

Definition prune_for_catalog (s : PlaybackState) (catalog : CatalogSnapshot)
    (now_monotonic_ms : N) (active_preset_content_changed : bool)
    : result PlaybackError (PlaybackState * bool) :=
  let '(s, changed) :=
    match catalog_tracks catalog with
    | Some known => prune_tracks known now_monotonic_ms s
    | None => (s, false)
    end in
  let '(s, changed) :=
    match catalog_modes catalog with
    | Some known =>
        let '(s, modes_changed) := prune_modes known s in (s, changed || modes_changed)
    | None => (s, changed)
    end in
  if active_preset_content_changed then
    revision ← ok_or PresetRevisionOverflow (u64_checked_add (preset_revision s) 1);
    Ok (with_preset_revision revision s, true)
  else Ok (s, changed).
