(* ===== verification/References.v ===== *)
(** * The references commands introduce

    Which tracks, mode, soundboard and presets the state can refer to after a
    command: those it referred to before, and those the command names. With the
    actor's admission checks this gives the catalog invariant. *)

From S2P Require Import Prelude PlaybackState Reducer ReducerLemmas LaneSpec ReducerSpec.
From S2P Require Import CommitSpec.

#[local] Open Scope N_scope.

(* ------------------------------------------------------------------ *)
(** ** Tracks *)

Definition interrupt_tracks (i : option InterruptState) : list TrackId :=
  match i with
  | Some i => interrupt_current_track_id i :: interrupt_queue i
  | None => []
  end.

(** Every track either lane holds. *)
Definition held_tracks (s : PlaybackState) : list TrackId :=
  lane_tracks (ambient s) ++ interrupt_tracks (interrupt s).

Definition command_tracks (command : PlaybackCommand) : list TrackId :=
  match command with
  | AmbientPlayTrack t | AmbientEnqueue t _ => [t]
  | AmbientSetQueue ts | AmbientPlaySequence ts _ _ | FireInterruptSequence ts _ => ts
  | AmbientSkipNext f _ => option_list f
  | FireCue cue => match cue_playlist cue with Some p => cue_track_ids p | None => [] end
  | _ => []
  end.

Definition tracks_from (ts : list TrackId) (s s' : PlaybackState) : Prop :=
  forall t, t ∈ held_tracks s' -> t ∈ held_tracks s \/ t ∈ ts.

Lemma tracks_from_same ts s s' :
  lane_tracks (ambient s') = lane_tracks (ambient s) ->
  interrupt_tracks (interrupt s') = interrupt_tracks (interrupt s) -> tracks_from ts s s'.
Proof. intros H1 H2 t. unfold held_tracks. rewrite H1, H2. auto. Qed.

Lemma tracks_from_ambient ts s s' :
  interrupt s' = interrupt s ->
  (forall t, t ∈ lane_tracks (ambient s') -> t ∈ lane_tracks (ambient s) \/ t ∈ ts) ->
  tracks_from ts s s'.
Proof. intros H1 H2 t. unfold held_tracks. rewrite H1. set_solver. Qed.

Lemma elem_of_lane_tracks t a :
  t ∈ lane_tracks a <->
  t ∈ ambient_history a \/ ambient_current_track_id a = Some t \/ t ∈ ambient_queue a.
Proof.
  unfold lane_tracks. rewrite !elem_of_app. destruct (ambient_current_track_id a); set_solver.
Qed.

Lemma freeze_lane_tracks now a : lane_tracks (freeze_ambient now a) = lane_tracks a.
Proof.
  unfold freeze_ambient. unfold lane_tracks; cbn. unfold materialize_ambient.
  by repeat case_match.
Qed.

Lemma settings_tracks ts s s' : settings_step s s' -> tracks_from ts s s'.
Proof. intros (_ & _ & Hi & Ha). apply tracks_from_same; congruence. Qed.

Create HintDb tracks discriminated.
#[export] Hint Resolve settings_tracks : tracks.

Lemma set_playing_tracks ts playing now s s' b :
  set_playing playing now s = (s', b) -> tracks_from ts s s'.
Proof.
  unfold set_playing. intros H. repeat case_match; simplify_eq; apply tracks_from_same; try done.
  apply freeze_lane_tracks.
Qed.

Lemma report_position_tracks ts device position sample s :
  tracks_from ts s (report_position device position sample s).
Proof.
  unfold report_position. destruct (interrupt s) as [i|] eqn:Hi; cbn; rewrite ?Hi; apply tracks_from_same;
    cbn; rewrite ?Hi; cbn; try done; by case_match.
Qed.

Lemma ambient_play_track_tracks track_id now s s' :
  ambient_play_track track_id now s = Ok s' -> tracks_from [track_id] s s'.
Proof.
  unfold ambient_play_track. intros H. epoch_ok. apply tracks_from_ambient; [done|].
  intros t. rewrite elem_of_lane_tracks. cbn. set_solver.
Qed.

Lemma ambient_set_queue_tracks ts s s' b :
  ambient_set_queue ts s = (s', b) -> tracks_from ts s s'.
Proof.
  unfold ambient_set_queue. case_match; intros [= <- <-]; [by apply tracks_from_same|].
  apply tracks_from_ambient; [done|]. intros t. rewrite !elem_of_lane_tracks. cbn. tauto.
Qed.

Lemma elem_of_push_current t a :
  t ∈ ambient_history (push_current a) <->
  t ∈ ambient_history a \/ ambient_current_track_id a = Some t.
Proof.
  rewrite push_current_history, elem_of_app. destruct (ambient_current_track_id a); set_solver.
Qed.

Lemma ambient_jump_queue_tracks ts position now s s' b :
  ambient_jump_queue position now s = Ok (s', b) -> tracks_from ts s s'.
Proof.
  unfold ambient_jump_queue. destruct (ambient_queue (ambient s) !! position) as [track|] eqn:Ht;
    intros H; inv_results; [|by apply tracks_from_same].
  epoch_ok. simplify_eq. apply tracks_from_ambient; [done|].
  intros t. rewrite !elem_of_lane_tracks. cbn. rewrite elem_of_push_current, push_current_queue.
  intros [[?|?]|[[= ->]|Hin]]; auto.
  - apply list_elem_of_lookup_2 in Ht. auto.
  - apply list_elem_of_lookup in Hin as [i Hi]. rewrite lookup_drop in Hi.
    apply list_elem_of_lookup_2 in Hi. auto.
Qed.

Lemma ambient_enqueue_tracks track position s :
  tracks_from [track] s (ambient_enqueue track position s).
Proof.
  apply tracks_from_ambient; [done|]. intros t. rewrite !elem_of_lane_tracks. cbn.
  rewrite elem_of_vec_insert. set_solver.
Qed.

Lemma ambient_clear_queue_tracks ts s s' b :
  ambient_clear_queue s = (s', b) -> tracks_from ts s s'.
Proof.
  unfold ambient_clear_queue. case_match; intros [= <- <-]; [by apply tracks_from_same|].
  apply tracks_from_ambient; [done|]. intros t'. rewrite !elem_of_lane_tracks. cbn. set_solver.
Qed.

Lemma skip_case_tracks follow choice a a' plays t :
  skip_case follow choice a a' plays ->
  t ∈ lane_tracks a' -> t ∈ lane_tracks a \/ t ∈ option_list follow.
Proof.
  intros Hc. rewrite !elem_of_lane_tracks.
  destruct Hc as [| index track _ _ Ht | track rest _ Hq Hh | track _ Hq -> |]; cbn;
    rewrite ?elem_of_push_current.
  - auto.
  - intros [[?|?]|[[= ->]|Hin]]; auto.
    + apply list_elem_of_lookup_2 in Ht. auto.
    + apply elem_of_vec_remove in Hin. auto.
  - intros Ht. assert (t ∈ ambient_history (push_current a)) as Hin.
    { rewrite Hh. set_solver. }
    rewrite elem_of_push_current in Hin. tauto.
  - set_solver.
  - naive_solver.
Qed.

Lemma ambient_skip_next_tracks follow expected context s s' b :
  ambient_skip_next follow expected context s = Ok (s', b) ->
  tracks_from (option_list follow) s s'.
Proof.
  intros H. destruct (skip_refused expected (ambient s)) eqn:Hr.
  { rewrite ambient_skip_next_refused in H by done. simplify_eq. by apply tracks_from_same. }
  apply ambient_skip_next_accepted in H as (_ & _ & a' & plays & Hc & ->); [|done].
  destruct plays; (apply tracks_from_ambient; [done|]); intros t Ht;
    eapply skip_case_tracks; done.
Qed.

Lemma ambient_skip_previous_tracks ts now s s' b :
  ambient_skip_previous now s = Ok (s', b) -> tracks_from ts s s'.
Proof.
  unfold ambient_skip_previous. intros H.
  case_match; [inv_results; by apply tracks_from_same|]. inv_results. epoch_ok. simplify_eq.
  apply tracks_from_ambient; [done|]. intros t. rewrite !elem_of_lane_tracks. cbn.
  destruct (last (ambient_history (ambient s))) as [previous|] eqn:Hl; cbn; [|tauto].
  apply last_Some in Hl as [history Hh]. rewrite Hh, removelast_last.
  destruct (ambient_current_track_id (ambient s)); cbn; set_solver.
Qed.

Lemma ambient_seek_tracks ts position now s s' b :
  ambient_seek position now s = Ok (s', b) -> tracks_from ts s s'.
Proof.
  unfold ambient_seek. intros H. case_match; inv_results; epoch_ok; simplify_eq;
    by apply tracks_from_same.
Qed.

Lemma ambient_set_loop_tracks ts mode s s' b :
  ambient_set_loop mode s = (s', b) -> tracks_from ts s s'.
Proof. unfold ambient_set_loop. case_match; intros [= <- <-]; by apply tracks_from_same. Qed.

Lemma ambient_set_shuffle_tracks ts mode s s' b :
  ambient_set_shuffle mode s = (s', b) -> tracks_from ts s s'.
Proof. unfold ambient_set_shuffle. case_match; intros [= <- <-]; by apply tracks_from_same. Qed.

Lemma ambient_stop_tracks ts s s' b : ambient_stop s = Ok (s', b) -> tracks_from ts s s'.
Proof.
  unfold ambient_stop. intros H. case_match; inv_results; [by apply tracks_from_same|].
  epoch_ok. simplify_eq. apply tracks_from_ambient; [done|]. intros t.
  rewrite elem_of_lane_tracks. cbn. set_solver.
Qed.

Lemma ambient_play_sequence_tracks ts start source now s s' b :
  ambient_play_sequence ts start source now s = Ok (s', b) -> tracks_from ts s s'.
Proof.
  unfold ambient_play_sequence. destruct ts as [|t0 ts]; intros H; inv_results;
    [by apply tracks_from_same|].
  epoch_ok. simplify_eq. apply tracks_from_ambient; [done|]. intros t.
  rewrite elem_of_lane_tracks. cbn -[take drop lookup].
  intros [Hin|[Hin|Hin]]; right.
  - apply list_elem_of_lookup in Hin as [i [Hi _]%lookup_take_Some].
    by apply list_elem_of_lookup_2 in Hi.
  - by apply list_elem_of_lookup_2 in Hin.
  - apply list_elem_of_lookup in Hin as [i Hi]. rewrite lookup_drop in Hi.
    by apply list_elem_of_lookup_2 in Hi.
Qed.

Lemma fire_interrupt_tracks ts fade now s s' b :
  fire_interrupt ts fade now s = Ok (s', b) -> tracks_from ts s s'.
Proof.
  unfold fire_interrupt. destruct ts as [|t0 ts]; intros H; inv_results;
    [by apply tracks_from_same|].
  epoch_ok. simplify_eq. intros t. unfold held_tracks. cbn.
  destruct (fade_duck_to fade); cbn -[lane_tracks];
    rewrite ?freeze_lane_tracks, !elem_of_app; tauto.
Qed.

Lemma end_interrupt_tracks ts now s s' b :
  end_interrupt now s = Ok (s', b) -> tracks_from ts s s'.
Proof.
  unfold end_interrupt. destruct (interrupt s) as [i|] eqn:Hi; intros H; inv_results;
    [|by apply tracks_from_same].
  epoch_ok. simplify_eq. intros t. unfold held_tracks.
  assert (forall a, lane_tracks (with_ambient_position_anchor_ms (Some now) a) = lane_tracks a)
    as Hanchor by done.
  destruct (interrupt_return_to_ambient i); [case_match|]; cbn -[lane_tracks];
    rewrite ?freeze_lane_tracks, ?Hanchor, app_nil_r, elem_of_app; auto.
Qed.

Lemma interrupt_skip_next_tracks ts expected now s s' b :
  interrupt_skip_next expected now s = Ok (s', b) -> tracks_from ts s s'.
Proof.
  unfold interrupt_skip_next. destruct (interrupt s) as [i|] eqn:Hi; intros H;
    [|inv_results; by apply tracks_from_same].
  case_match; [inv_results; by apply tracks_from_same|].
  destruct (interrupt_queue i) as [|t0 queue] eqn:Hq; [by eapply end_interrupt_tracks|].
  inv_results. epoch_ok. simplify_eq. intros t. unfold held_tracks. cbn. rewrite Hi. cbn.
  rewrite Hq. set_solver.
Qed.

Lemma interrupt_seek_tracks ts position now s s' b :
  interrupt_seek position now s = Ok (s', b) -> tracks_from ts s s'.
Proof.
  unfold interrupt_seek. destruct (interrupt s) as [i|] eqn:Hi; intros H; inv_results;
    [|by apply tracks_from_same].
  epoch_ok. simplify_eq. apply tracks_from_same; [done|]. cbn. by rewrite Hi.
Qed.

Lemma fire_cue_tracks cue now s s' b evs :
  fire_cue cue now s = Ok (s', b, evs) -> tracks_from (command_tracks (FireCue cue)) s s'.
Proof.
  intros (_ & _ & _ & _ & _ & _ & Hpl)%fire_cue_effect. cbn [command_tracks].
  destruct (cue_playlist cue) as [p|]; [|by apply settings_tracks].
  destruct Hpl as (s1 & Ha & Hi & _ & s2 & H & Ha2 & _ & Hi2).
  unfold cue_apply_playlist in H. apply bind_ok in H as ([s3 b3] & Hs & H).
  apply ambient_play_sequence_tracks in Hs.
  assert (lane_tracks (ambient s2) = lane_tracks (ambient s3) /\ interrupt s2 = interrupt s3)
    as [Hl2 Hi3] by (case_match; by inv_results).
  intros t Ht. unfold held_tracks in *. unfold tracks_from, held_tracks in Hs.
  rewrite Ha2, Hi2, Hl2, Hi3 in Ht. apply Hs in Ht. by rewrite Ha, Hi in Ht.
Qed.

#[export] Hint Resolve set_playing_tracks report_position_tracks ambient_play_track_tracks
  ambient_set_queue_tracks ambient_jump_queue_tracks ambient_enqueue_tracks
  ambient_clear_queue_tracks ambient_skip_next_tracks ambient_skip_previous_tracks
  ambient_seek_tracks ambient_set_loop_tracks ambient_set_shuffle_tracks ambient_stop_tracks
  ambient_play_sequence_tracks fire_interrupt_tracks end_interrupt_tracks
  interrupt_skip_next_tracks interrupt_seek_tracks fire_cue_tracks
  set_active_mode_settings register_device_settings set_active_outputs_settings
  remove_active_output_settings set_device_volume_settings set_active_soundboard_settings
  set_active_presets_settings presets_changed_settings set_crossfade_settings
  stop_loop_settings : tracks.

Lemma apply_command_tracks s command context s' b pub per evs :
  apply_command s command context = Ok (s', b, pub, per, evs) ->
  tracks_from (command_tracks command) s s'.
Proof.
  destruct command; cbn [apply_command]; intros H; applied_inv; simplify_eq;
    first [match goal with |- tracks_from _ ?x ?x => by apply tracks_from_same end
          |by eauto with tracks|idtac].
  - destruct x as [[s1 b1] evs1]. applied_inv. simplify_eq. eauto with tracks.
  - by apply tracks_from_same.
  - unfold stop_loop in H. simplify_eq/=. by apply tracks_from_same.
Qed.

(* ------------------------------------------------------------------ *)
(** ** Mode references *)

Definition mode_refs (s : PlaybackState) : option string * option string * list string :=
  (active_mode_id s, active_soundboard_id s, active_preset_ids s).

(** How a command can change what the state refers to in its mode. *)
Inductive refs_step (command : PlaybackCommand)
    : option string * option string * list string ->
      option string * option string * list string -> Prop :=
| Refs_Keep refs : refs_step command refs refs
| Refs_Mode m refs : command = SetActiveMode m -> refs_step command refs (m, None, [])
| Refs_Soundboard m sb sb' ps : command = SetActiveSoundboard sb' ->
    refs_step command (m, sb, ps) (m, sb', ps)
| Refs_Presets m sb ps ps' crossfade : command = SetActivePresets ps' crossfade ->
    refs_step command (m, sb, ps) (m, sb, dedup ps')
| Refs_PresetsChanged m sb ps ps' crossfade : command = PresetsChanged (Some ps') crossfade ->
    refs_step command (m, sb, ps) (m, sb, ps')
| Refs_Cue cue preset m sb ps : command = FireCue cue -> cue_preset cue = Some preset ->
    refs_step command (m, sb, ps) (m, sb, [cue_preset_id preset]).

Lemma elem_of_dedup (x : string) l : x ∈ dedup l <-> x ∈ l.
Proof. unfold dedup. destruct (dedup_spec_aux l [] (NoDup_nil_2)) as [_ ->]. set_solver. Qed.

Lemma apply_command_refs s command context s' b pub per evs :
  apply_command s command context = Ok (s', b, pub, per, evs) ->
  refs_step command (mode_refs s) (mode_refs s').
Proof.
  intros H. destruct (is_lane_command command) eqn:Hlane.
  { apply lane_command_frame in H; [|done]. unfold lane_frame, settings_of in H.
    replace (mode_refs s') with (mode_refs s) by (unfold mode_refs; congruence). constructor. }
  destruct command; try done; cbn [apply_command] in H; applied_inv; subst;
    try (match goal with H : ?op = (s', b) |- _ => unfold
           set_active_outputs, register_device, remove_active_output, set_device_volume,
           set_crossfade, stop_loop in H end;
         repeat case_match; simplify_eq/=; by apply Refs_Keep).
  - unfold set_active_mode in H. case_match; simplify_eq/=; [by apply Refs_Keep|by apply Refs_Mode].
  - unfold set_active_soundboard in H. case_match; simplify_eq/=;
      [by apply Refs_Keep|by apply Refs_Soundboard].
  - unfold set_active_presets in H. case_bool_decide; repeat case_match; simplify_eq/=;
      try (by apply Refs_Keep); by eapply Refs_Presets.
  - unfold presets_changed in H0. inv_results.
    destruct active_preset_ids, crossfade_ms; cbn;
      first [by eapply Refs_PresetsChanged|by apply Refs_Keep].
  - destruct x as [[s1 b1] evs1]. applied_inv. simplify_eq.
    apply fire_cue_effect in H0 as (_ & _ & _ & Hm & Hsb & Hps & _).
    unfold mode_refs. rewrite Hm, Hsb, Hps. destruct (cue_preset cue) eqn:Hp;
      [by eapply Refs_Cue|by apply Refs_Keep].
  - simplify_eq. apply Refs_Keep.
  - unfold stop_loop in H. simplify_eq/=. apply Refs_Keep.
Qed.
