(* ===== verification/CatalogSpec.v ===== *)
(** * Pruning and admission keep references valid

    The catalog invariant: once a catalog is loaded, the state only refers to
    resources it knows, and the output policy is the one of the active mode.
    Pruning establishes it; admission checks keep it under commands. *)

From S2P Require Import Prelude PlaybackState Reducer ReducerLemmas LaneSpec ReducerSpec.
From S2P Require Import CommitSpec Catalog References.

#[local] Open Scope N_scope.

(* ------------------------------------------------------------------ *)
(** ** The invariant *)

(** The active mode is known, and so are its selected soundboard and presets. *)
Definition refs_ok (known : gmap string CatalogMode)
    (refs : option string * option string * list string) : Prop :=
  let '(mode_id, soundboard_id, preset_ids) := refs in
  let mode := mode_id ≫= (fun id => known !! id) in
  (is_Some mode_id -> is_Some mode) /\
  (forall board, soundboard_id = Some board ->
     exists m, mode = Some m /\ is_Some (mode_soundboard_items m !! board)) /\
  (forall preset, preset ∈ preset_ids -> exists m, mode = Some m /\ preset ∈ mode_preset_ids m).

Record catalog_ok (known : CatalogSnapshot) (s : PlaybackState) : Prop := {
  ok_tracks : forall tracks, catalog_tracks known = Some tracks ->
    forall t, t ∈ held_tracks s -> is_Some (tracks !! t);
  ok_refs : forall modes, catalog_modes known = Some modes -> refs_ok modes (mode_refs s);
  ok_policy : forall modes, catalog_modes known = Some modes ->
    multiple_outputs s = active_mode_allows_multiple_outputs s modes
}.

(* ------------------------------------------------------------------ *)
(** ** Admission *)

Lemma tracks_valid_spec known tracks ts t :
  tracks_valid known ts = true -> catalog_tracks known = Some tracks -> t ∈ ts ->
  is_Some (tracks !! t).
Proof.
  unfold tracks_valid. intros Hv Hk Hin. destruct ts as [|t0 ts]; [set_solver|].
  rewrite Hk, forallb_forall in Hv. apply list_elem_of_In in Hin.
  by apply Hv, bool_decide_eq_true in Hin.
Qed.

Lemma admitted_tracks_known command known tracks s t :
  catalog_references_valid command known s = true -> catalog_tracks known = Some tracks ->
  t ∈ command_tracks command -> is_Some (tracks !! t).
Proof.
  destruct command; cbn [catalog_references_valid command_tracks]; intros Hv Hk Ht;
    try (by eapply tracks_valid_spec); try set_solver.
  - destruct follow_next_id; cbn in Ht; [by eapply tracks_valid_spec|set_solver].
  - unfold cue_references_valid in Hv. apply andb_prop in Hv as [_ Hv].
    destruct (_ ≫= _) as [m|] in Hv; [cbn in Hv|done].
    destruct (cue_playlist cue) as [p|]; [|set_solver]. cbn in Hv.
    repeat (apply andb_prop in Hv as [Hv ?]).
    match goal with H : _ && tracks_valid _ _ = true |- _ => apply andb_prop in H as [_ H] end.
    by eapply tracks_valid_spec.
Qed.

Lemma presets_valid_spec mode ps p :
  presets_valid mode ps = true -> p ∈ ps -> exists m, mode = Some m /\ p ∈ mode_preset_ids m.
Proof.
  unfold presets_valid. intros Hv Hin. destruct ps as [|p0 ps]; [set_solver|].
  destruct mode as [m|]; [|done]. exists m. split; [done|]. cbn [option_is_some_and] in Hv.
  rewrite forallb_forall in Hv. apply list_elem_of_In in Hin.
  by apply Hv, bool_decide_eq_true in Hin.
Qed.

Lemma active_mode_eq known modes s :
  catalog_modes known = Some modes ->
  active_mode known s = active_mode_id s ≫= (fun id => modes !! id).
Proof. unfold active_mode. intros ->. by destruct (active_mode_id s). Qed.

Lemma admitted_refs_ok command known modes s refs :
  catalog_references_valid command known s = true -> catalog_modes known = Some modes ->
  refs_ok modes (mode_refs s) -> refs_step command (mode_refs s) refs -> refs_ok modes refs.
Proof.
  intros Hv Hk Hok Hstep. pose proof (active_mode_eq known modes s Hk) as Hmode.
  unfold mode_refs in *. inversion Hstep as
    [r Hr|m r -> Hr|m sb sb' ps -> Hr|m sb ps ps' c -> Hr|m sb ps ps' c -> Hr|cue p m sb ps -> Hp Hr];
    subst; [done|..]; cbn [catalog_references_valid] in Hv.
  - destruct m as [m|]; [|split_and!; [by intros []|done|set_solver]].
    rewrite Hk in Hv. cbn in Hv. apply bool_decide_eq_true in Hv.
    split_and!; [done|done|set_solver].
  - destruct Hok as (Hm & _ & Hps). split_and!; try done. intros board ->.
    rewrite Hmode in Hv. destruct (active_mode_id s ≫= _) as [md|]; [cbn in Hv|done].
    apply bool_decide_eq_true in Hv. by exists md.
  - destruct Hok as (Hm & Hsb & _). split_and!; try done. intros p Hp.
    rewrite elem_of_dedup in Hp. rewrite <- Hmode. by eapply presets_valid_spec.
  - destruct Hok as (Hm & Hsb & _). split_and!; try done. intros p Hp.
    rewrite <- Hmode. by eapply presets_valid_spec.
  - destruct Hok as (Hm & Hsb & _). split_and!; try done. intros p' ->%list_elem_of_singleton.
    unfold cue_references_valid in Hv. rewrite Hk in Hv. cbn in Hv.
    apply andb_prop in Hv as [Hid%bool_decide_eq_true Hv]. rewrite Hid. cbn.
    destruct (modes !! cue_mode_id cue) as [md|]; [|done]. exists md. split; [done|].
    cbn in Hv. rewrite Hp in Hv. repeat (apply andb_prop in Hv as [Hv ?]). cbn in *.
    by match goal with H : bool_decide (cue_preset_id p ∈ _) = true |- _ =>
      apply bool_decide_eq_true in H end.
Qed.

(* ------------------------------------------------------------------ *)
(** ** Pruning *)

(** What pruning preserves and establishes, one block at a time. *)
Lemma retain_known known l t :
  t ∈ retain (knows_track known) l -> is_Some (known !! t).
Proof. rewrite elem_of_retain. by intros [_ ?%bool_decide_eq_true]. Qed.

Lemma prune_tracks_known known now s s' b t :
  prune_tracks known now s = (s', b) -> t ∈ held_tracks s' -> is_Some (known !! t).
Proof.
  unfold prune_tracks.
  assert (forall x, x ∈ option_list (ambient_current_track_id (ambient s)) ->
    option_is_some_and (ambient_current_track_id (ambient s)) (fun id => negb (knows_track known id)) = false ->
    is_Some (known !! x)) as Hcur.
  { intros x. destruct (ambient_current_track_id (ambient s)) as [c|]; [|set_solver]. cbn.
    intros ->%list_elem_of_singleton ?%negb_false_iff%bool_decide_eq_true. done. }
  assert (forall i x, x ∈ interrupt_tracks (Some (with_interrupt_queue
      (retain (knows_track known) (interrupt_queue i)) i)) -> negb (knows_track known (interrupt_current_track_id i)) = false ->
    is_Some (known !! x)) as Hint.
  { intros i x. cbn. rewrite elem_of_cons.
    intros [->|Hin] ?%negb_false_iff%bool_decide_eq_true; [done|by eapply retain_known]. }
  cbn [ambient with_ambient ambient_current_track_id with_ambient_history with_ambient_queue].
  destruct (option_is_some_and _ _) eqn:Hc; cbn [interrupt with_is_playing with_ambient];
    destruct (interrupt s) as [i|] eqn:Hi;
    try destruct (negb (knows_track known (interrupt_current_track_id i))) eqn:Hd;
    try match goal with |- context [if ?x && ?y then _ else _] => destruct (x && y) end;
    intros [= <- <-]; unfold held_tracks, lane_tracks;
    cbn -[interrupt_tracks]; rewrite ?Hi; rewrite !elem_of_app;
    repeat match goal with |- _ \/ _ -> _ => intros [?|?] | |- _ -> _ => intros ? end;
    repeat match goal with H : _ \/ _ |- _ => destruct H as [H|H] end;
    try (by eapply retain_known); try (by eapply Hcur); try (by eapply Hint); set_solver.
Qed.

Lemma prune_tracks_frame known now s s' b :
  prune_tracks known now s = (s', b) -> lane_frame s s'.
Proof.
  unfold prune_tracks. destruct (option_is_some_and _ _); cbn [interrupt with_is_playing with_ambient];
    destruct (interrupt s) as [i|]; repeat case_match; by intros [= <- <-].
Qed.

Lemma prune_tracks_clock known now s s' b :
  prune_tracks known now s = (s', b) -> clock_wf s -> clock_wf s'.
Proof.
  unfold prune_tracks. intros H [Ht Hp Hi]. revert H.
  destruct (option_is_some_and _ _) eqn:Hc; cbn [interrupt with_is_playing with_ambient];
    destruct (interrupt s) as [i|] eqn:Hint.
  - destruct (negb _); [destruct (_ && _) eqn:Hplay; [discriminate Hplay|]|];
      intros [= <- <-]; (split; unfold lane_open; cbn; try done).
    intros i' [= <-]. by apply (Hi i).
  - intros [= <- <-]. split; unfold lane_open; cbn; rewrite ?Hint; done.
  - destruct (negb _).
    + destruct (_ && _) eqn:Hplay; cbn in Hplay |- *; intros [= <- <-];
        (split; unfold lane_open; cbn; try done).
      * intros t _. apply andb_prop in Hplay as [? ?%bool_decide_eq_true]. done.
      * intros t Hanchor. apply Ht in Hanchor as (? & ? & _). done.
    + intros [= <- <-]. split; unfold lane_open in *; cbn; try rewrite Hint in Ht; try done.
      intros i' [= <-]. by apply (Hi i).
  - intros [= <- <-]. split; unfold lane_open in *; cbn; rewrite ?Hint in *; done.
Qed.

Lemma with_ambient_lists_id s q h :
  q = ambient_queue (ambient s) -> h = ambient_history (ambient s) ->
  with_ambient (with_ambient_history h (with_ambient_queue q (ambient s))) s = s.
Proof. intros -> ->. destruct s as [? ? ? ? ? ? ? ? ? ? ? ? ? []]; reflexivity. Qed.

Lemma with_interrupt_queue_id s i q :
  interrupt s = Some i -> q = interrupt_queue i ->
  with_interrupt (Some (with_interrupt_queue q i)) s = s.
Proof. intros Hi ->. destruct s, i; cbn in *. by subst. Qed.

Lemma prune_tracks_unchanged known now s s' :
  prune_tracks known now s = (s', false) -> s' = s.
Proof.
  unfold prune_tracks. intros H.
  destruct (option_is_some_and _ _); cbn [interrupt with_is_playing with_ambient] in H;
    destruct (interrupt s) as [i|] eqn:Hi;
    try destruct (negb (knows_track known _)); try destruct (_ && _); try discriminate H;
    injection H as <- H; rewrite ?orb_false_iff, ?negb_false_iff, ?Nat.eqb_eq in H.
  - destruct H as [[Hq Hh] Hiq]. symmetry in Hq, Hh, Hiq.
    apply retain_length_eq in Hq, Hh, Hiq.
    rewrite with_ambient_lists_id by done. by apply with_interrupt_queue_id.
  - destruct H as [Hq Hh]. symmetry in Hq, Hh. apply retain_length_eq in Hq, Hh.
    by rewrite with_ambient_lists_id.
Qed.

Lemma apply_output_policy_spec multiple s s' b :
  apply_output_policy multiple s = (s', b) ->
  multiple_outputs s' = multiple /\ outputs_ok s' /\ settings_step s s' /\
  mode_refs s' = mode_refs s /\ looping_sfx s' = looping_sfx s /\
  publication_revision s' = publication_revision s /\ preset_revision s' = preset_revision s /\
  (forall d, d ∈ active_output_device_ids s' -> d ∈ active_output_device_ids s) /\
  (multiple_outputs s = multiple -> outputs_ok s -> s' = s /\ b = false) /\
  (b = false -> s' = s).
Proof.
  unfold apply_output_policy, outputs_ok. intros H.
  destruct (negb multiple && _) eqn:Hc; injection H as <- <-; cbn.
  - apply andb_prop in Hc as [->%negb_true_iff Hl%Nat.ltb_lt].
    split_and!; try done.
    + intros _. rewrite length_take. lia.
    + intros d Hd. by eapply elem_of_sublist, (sublist_take _ 1).
    + intros Hm Hok. specialize (Hok Hm). cbn in Hl. lia.
  - split_and!; try done.
    + intros ->. cbn in Hc. by destruct (length (active_output_device_ids s)) as [|[|n]]; [lia..|].
    + intros Hm _. split; [by apply with_multiple_outputs_id|]. rewrite Hm.
      by rewrite eqb_reflx.
    + intros Heq%negb_false_iff%eqb_prop. by apply with_multiple_outputs_id.
Qed.

Lemma with_presets_id s ps : ps = active_preset_ids s -> with_active_preset_ids ps s = s.
Proof. intros ->. by destruct s. Qed.

(** The three mode references after pruning, and what else may change. *)
Record pruned_modes (known : gmap string CatalogMode) (s s' : PlaybackState) : Prop := {
  pruned_settings : settings_step s s';
  pruned_refs : refs_ok known (mode_refs s');
  pruned_policy : multiple_outputs s' = active_mode_allows_multiple_outputs s' known;
  pruned_outputs : outputs_ok s';
  pruned_active : forall d, d ∈ active_output_device_ids s' -> d ∈ active_output_device_ids s;
  pruned_loops : NoDup (loop_ids s) -> NoDup (loop_ids s');
  pruned_revisions : publication_revision s' = publication_revision s /\
    preset_revision s' = preset_revision s
}.

Lemma prune_modes_spec known s s' b :
  prune_modes known s = (s', b) -> pruned_modes known s s' /\ (b = false -> s' = s).
Proof.
  unfold prune_modes.
  set (stale := option_is_some_and (active_mode_id s) _).
  destruct (if stale then _ else _) as [s1 b1] eqn:Hs1.
  assert (settings_step s s1 /\ (is_Some (active_mode_id s1) ->
            is_Some (active_mode_id s1 ≫= (fun id => known !! id))) /\
          active_output_device_ids s1 = active_output_device_ids s /\
          (NoDup (loop_ids s) -> NoDup (loop_ids s1)) /\
          publication_revision s1 = publication_revision s /\
          preset_revision s1 = preset_revision s /\ (b1 = false -> s1 = s))
    as (Hset1 & Hm1 & Ha1 & Hl1 & Hp1 & Hr1 & Hid1).
  { destruct stale eqn:Hst; injection Hs1 as <- <-; subst stale.
    - split_and!; try done; [by intros []|]. intros _. constructor.
    - split_and!; try done. destruct (active_mode_id s) as [m|]; [|by intros []]. cbn in *.
      apply negb_false_iff, bool_decide_eq_true in Hst. done. }
  clear Hs1 stale. set (mode := active_mode_id s1 ≫= _).
  set (dangling := option_is_some_and (active_soundboard_id s1) _).
  destruct (if dangling then _ else _) as [s2 b2] eqn:Hs2.
  assert (settings_step s1 s2 /\ active_mode_id s2 = active_mode_id s1 /\
          (forall board, active_soundboard_id s2 = Some board ->
             exists m, mode = Some m /\ is_Some (mode_soundboard_items m !! board)) /\
          active_output_device_ids s2 = active_output_device_ids s1 /\
          looping_sfx s2 = looping_sfx s1 /\
          publication_revision s2 = publication_revision s1 /\
          preset_revision s2 = preset_revision s1 /\ (b2 = false -> s2 = s1 /\ b1 = false))
    as (Hset2 & Hm2 & Hsb2 & Ha2 & Hl2 & Hp2 & Hr2 & Hid2).
  { destruct dangling eqn:Hd; injection Hs2 as <- <-; subst dangling; split_and!; try done.
    intros board Hb. rewrite Hb in Hd. cbn in Hd. destruct mode as [m|]; [|done]. exists m.
    cbn in Hd. apply negb_false_iff, bool_decide_eq_true in Hd. done. }
  clear Hs2 dangling.
  set (presets := retain _ (active_preset_ids s2)).
  change (looping_sfx (with_active_preset_ids presets s2)) with (looping_sfx s2).
  set (loops := retain _ (looping_sfx s2)).
  set (s3 := with_looping_sfx loops (with_active_preset_ids presets s2)).
  destruct (apply_output_policy _ s3) as [s4 b4] eqn:Hpol.
  apply apply_output_policy_spec in Hpol
    as (Hmul & Hok & Hset4 & Hrefs & Hl4 & Hp4 & Hr4 & Ha4 & _ & Hid4).
  intros [= <- <-]. split; [split|].
  - unfold settings_step in *. destruct Hset1, Hset2, Hset4. cbn in *. split_and!; naive_solver congruence.
  - rewrite Hrefs. unfold mode_refs, refs_ok. cbn. rewrite Hm2. fold mode. split_and!; [done|done|].
    intros p Hp. subst presets. apply elem_of_retain in Hp as [_ Hp].
    destruct mode as [m|]; [|done]. exists m. split; [done|]. by apply bool_decide_eq_true in Hp.
  - rewrite Hmul. unfold active_mode_allows_multiple_outputs. unfold mode_refs in Hrefs.
    injection Hrefs as -> _ _. cbn. done.
  - done.
  - intros d Hd. apply Ha4 in Hd. cbn in Hd. congruence.
  - intros Hnd. unfold loop_ids in *. rewrite Hl4. cbn. apply map_retain_NoDup. rewrite Hl2. auto.
  - split; [rewrite Hp4; cbn; congruence|rewrite Hr4; cbn; congruence].
  - rewrite !orb_false_iff, !negb_false_iff, !Nat.eqb_eq. intros [[[Hb2 Hps] Hls] Hb4].
    apply Hid4 in Hb4 as ->. apply Hid2 in Hb2 as [-> Hb1]. apply Hid1 in Hb1 as ->.
    symmetry in Hps, Hls. apply retain_length_eq in Hps, Hls.
    subst s3 presets loops. rewrite with_presets_id by done. by rewrite Hls, with_loops_id.
Qed.

(* ------------------------------------------------------------------ *)
(** ** The whole of [prune_for_catalog] *)

Lemma lane_frame_mode_refs s s' : lane_frame s s' -> mode_refs s' = mode_refs s.
Proof. unfold lane_frame, settings_of, mode_refs. intros H. congruence. Qed.

Lemma settings_clock_wf s s' : settings_step s s' -> clock_wf s -> clock_wf s'.
Proof. intros H. eapply lane_step_wf with (rep := false) (now := 0). by apply settings_step_lanes. Qed.

(** Everything pruning guarantees about the state it returns. *)
Record pruned (s : PlaybackState) (known : CatalogSnapshot) (s' : PlaybackState) : Prop := {
  pruned_catalog_ok : catalog_ok known s';
  pruned_clock : clock_wf s -> clock_wf s';
  pruned_outputs_ok : outputs_ok s -> outputs_ok s';
  pruned_subset : forall d, d ∈ active_output_device_ids s' -> d ∈ active_output_device_ids s;
  pruned_loop_ids : NoDup (loop_ids s) -> NoDup (loop_ids s');
  pruned_publication : publication_revision s' = publication_revision s
}.

Lemma prune_for_catalog_spec s known now content_changed s' b :
  prune_for_catalog s known now content_changed = Ok (s', b) ->
  pruned s known s' /\ (b = false -> s' = s /\ content_changed = false).
Proof.
  unfold prune_for_catalog.
  destruct (match catalog_tracks known with Some _ => _ | None => _ end) as [s1 b1] eqn:Hs1.
  assert (lane_frame s s1 /\ (forall tracks, catalog_tracks known = Some tracks ->
            forall t, t ∈ held_tracks s1 -> is_Some (tracks !! t)) /\
          (clock_wf s -> clock_wf s1) /\ (b1 = false -> s1 = s)) as (Hf1 & Ht1 & Hw1 & Hid1).
  { destruct (catalog_tracks known) as [tracks|]; [|by simplify_eq].
    split_and!; [by eapply prune_tracks_frame| |by eapply prune_tracks_clock|].
    - intros ? [= <-] t. by eapply prune_tracks_known.
    - intros ->. by eapply prune_tracks_unchanged. }
  clear Hs1. unfold lane_frame, settings_of in Hf1. injection Hf1 as Hpr Hm Hout Hmul _ _ Hsb Hps Hprev _ _ Hl.
  destruct (match catalog_modes known with Some _ => _ | None => _ end) as [s2 b2] eqn:Hs2.
  assert (pruned s known s2 /\ (b2 = false -> s2 = s)) as [Hp2 Hid2].
  { destruct (catalog_modes known) as [modes|] eqn:Hmodes.
    - destruct (prune_modes modes s1) as [s3 b3] eqn:Hp. injection Hs2 as <- <-.
      apply prune_modes_spec in Hp as [[Hset Hrefs Hpol Hok Hact Hloops Hrev] Hid3].
      split.
      + destruct Hset as (? & ? & Hint & Hamb). split.
        * split; [|intros ? H1; rewrite Hmodes in H1; by simplify_eq..].
          intros tracks Htr t. unfold held_tracks. rewrite Hint, Hamb. by apply Ht1.
        * intros Hwf. by eapply settings_clock_wf, Hw1.
        * done.
        * intros d Hd. apply Hact in Hd. congruence.
        * intros Hnd. apply Hloops. unfold loop_ids in *. by rewrite Hl.
        * destruct Hrev. congruence.
      + intros [Hb1 Hb3]%orb_false_iff. rewrite (Hid3 Hb3). auto.
    - injection Hs2 as <- <-. split; [|done]. split; try done.
      + split; [done|congruence..].
      + unfold outputs_ok. by rewrite Hmul, Hout.
      + intros d. by rewrite Hout.
      + unfold loop_ids. by rewrite Hl. }
  clear Hs2. destruct content_changed.
  - intros H. inv_results. split; [|done].
    destruct Hp2 as [[] Hw ? ? ? ?]. split; try done. intros Hwf. by destruct (Hw Hwf).
  - intros [= <- <-]. split; [done|]. auto.
Qed.
