(* ===== verification/Presence.v ===== *)
(** * Live connections of the playback actor

    The connection records of [crates/music-application/src/playback/actor.rs],
    their public projection, the checks on a registration, and the error type
    of the actor. A [ConnectionId] is the [u64] it wraps. *)

From S2P Require Import Prelude PlaybackState Reducer Catalog.

#[local] Open Scope N_scope.

Definition MAX_CLIENT_ID_LENGTH : nat := 64.
Definition MAX_CLIENT_NAME_LENGTH : nat := 128.

Inductive PlaybackActorError : Type :=
| InvalidConfiguration (detail : string)
| InvalidRegistration (detail : string)
| UnknownConnection (connection_id : N)
| MissingCatalogResolution
| StaleCatalog (resolved current : CatalogGeneration)
| InvalidCatalogReference
| CatalogGenerationRegressed
| DisconnectedOutput (device_ids : list string)
| InactivePositionReporter (device_id : string)
| PublicationRevisionOverflow
| ConnectionIdOverflow
| Persistence (detail : string)
| PersistenceConflict
| ClockUnavailable
| Domain (error : PlaybackError)
| Stopped.

(** The errors that stop the actor. *)
Definition is_fatal (error : PlaybackActorError) : bool :=
  match error with
  | Persistence _ | PersistenceConflict | PublicationRevisionOverflow
  | ConnectionIdOverflow | ClockUnavailable => true
  | _ => false
  end.

Record ConnectedClient : Type := mkConnectedClient {
  client_client_id : string;
  client_name : string;
  client_is_default_output : bool
}.

Record ClientRegistration : Type := mkClientRegistration {
  registration_client_id : string;
  registration_name : string;
  registration_remembered_name : option string;
  registration_is_default_output : bool
}.

Record ConnectionRecord : Type := mkConnectionRecord {
  record_registration : option ClientRegistration
}.

#[global] Instance ConnectedClient_eq_dec : EqDecision ConnectedClient.
Proof. solve_decision. Defined.
#[global] Instance ClientRegistration_eq_dec : EqDecision ClientRegistration.
Proof. solve_decision. Defined.
#[global] Instance ConnectionRecord_eq_dec : EqDecision ConnectionRecord.
Proof. solve_decision. Defined.

Notation Connections := (gmap N ConnectionRecord).

(** [connections.values()], in the order of the connection ids. *)
Definition connection_records (connections : Connections) : list ConnectionRecord :=
  snd <$> sorted_entries N.leb connections.

Definition projected_client (registration : ClientRegistration) : ConnectedClient := {|
  client_client_id := registration_client_id registration;
  client_name := default (registration_name registration)
                   (registration_remembered_name registration);
  client_is_default_output := registration_is_default_output registration |}.

(** One client per client id, the newest connection's registration winning,
    ordered by client id. *)
Definition connected_clients (connections : Connections) : list ConnectedClient :=
  let registrations := omap record_registration (connection_records connections) in
  let clients := collect_map
    ((fun r => (registration_client_id r, projected_client r)) <$> registrations) in
  snd <$> sorted_entries string_leb clients.

Definition connected_client_ids (connections : Connections) : gset string :=
  list_to_set (registration_client_id <$> omap record_registration (connection_records connections)).

Definition record_has_client (client_id : string) (record : ConnectionRecord) : bool :=
  option_is_some_and (record_registration record) (fun registration =>
    bool_decide (registration_client_id registration = client_id)).

Definition has_registered_sibling (connections : Connections) (connection_id : N)
    (client_id : string) : bool :=
  existsb (fun entry => negb (entry.1 =? connection_id) && record_has_client client_id entry.2)
    (sorted_entries N.leb connections).

(** [(1..=limit).contains(&value.chars().count())] *)
Definition length_within (limit : nat) (value : string) : bool :=
  let count := chars_count value in (1 <=? count)%nat && (count <=? limit)%nat.

Definition client_id_message : string := "client_id must contain 1 to 64 characters".
Definition name_message : string := "name must contain 1 to 128 characters".
Definition remembered_name_message : string := "remembered name must contain 1 to 128 characters".

(** [registration.remembered_name.is_some_and(|name| !(1..=128).contains(..))] *)
Definition remembered_name_invalid (remembered_name : option string) : bool :=
  option_is_some_and remembered_name (fun name =>
    negb (length_within MAX_CLIENT_NAME_LENGTH name)).

Definition validate_registration (registration : ClientRegistration)
    : result PlaybackActorError () :=
  if negb (length_within MAX_CLIENT_ID_LENGTH (registration_client_id registration))
  then Err (InvalidRegistration client_id_message)
  else if negb (length_within MAX_CLIENT_NAME_LENGTH (registration_name registration))
  then Err (InvalidRegistration name_message)
  else if remembered_name_invalid (registration_remembered_name registration)
  then Err (InvalidRegistration remembered_name_message)
  else Ok ().

(** The loop of [refresh_client_metadata] over [connections.values_mut()]. *)
Definition refresh_record (client_id : string) (remembered_name : option string)
    (is_default_output : bool) (record : ConnectionRecord) : ConnectionRecord :=
  match record_registration record with
  | Some registration =>
      if bool_decide (registration_client_id registration = client_id)
      then mkConnectionRecord (Some (mkClientRegistration
             (registration_client_id registration) (registration_name registration)
             remembered_name is_default_output))
      else record
  | None => record
  end.

(* ------------------------------------------------------------------ *)
(** * The public projection of the connections *)

#[local] Open Scope N_scope.

(* ------------------------------------------------------------------ *)
(** ** Ordered traversal *)

(** An entry with the largest key comes last. *)
Lemma sorted_entries_snoc {V} (m : gmap N V) k v :
  (forall k', is_Some (m !! k') -> k' < k) ->
  sorted_entries N.leb (<[k := v]> m) = sorted_entries N.leb m ++ [(k, v)].
Proof.
  intros Hk. assert (m !! k = None) as Hnone.
  { destruct (m !! k) as [v'|] eqn:Hv; [|done]. specialize (Hk k ltac:(eauto)). lia. }
  apply (StronglySorted_unique_strong (entry_le N.leb)).
  - intros [k1 v1] [k2 v2] H1%elem_of_sorted_entries H2.
    unfold entry_le. cbn. rewrite !N.leb_le. intros Hle1 Hle2.
    assert (k1 = k2) as <- by lia. apply elem_of_app in H2 as [H2%elem_of_sorted_entries|H2].
    + rewrite lookup_insert_ne in H1; [congruence|]. intros ->. congruence.
    + apply list_elem_of_singleton in H2. injection H2 as -> ->.
      rewrite lookup_insert_eq in H1. congruence.
  - apply sorted_entries_sorted; apply _.
  - apply StronglySorted_app_2; [|apply sorted_entries_sorted; apply _|by repeat constructor].
    intros [k1 v1] [k2 v2] H1%elem_of_sorted_entries H2%list_elem_of_singleton.
    injection H2 as -> ->. unfold entry_le. cbn. apply N.leb_le.
    specialize (Hk k1 ltac:(eauto)). lia.
  - unfold sorted_entries. rewrite !merge_sort_Permutation, map_to_list_insert by done.
    by rewrite Permutation_app_comm.
Qed.

(* ------------------------------------------------------------------ *)
(** ** Connected ids *)

(** [conns] has a connection registered as [reg]. *)
Definition registered (conns : Connections) (id : N) (reg : ClientRegistration) : Prop :=
  exists record, conns !! id = Some record /\ record_registration record = Some reg.

Lemma elem_of_connection_records conns record :
  record ∈ connection_records conns <-> exists id, conns !! id = Some record.
Proof.
  unfold connection_records. rewrite list_elem_of_fmap. split.
  - intros ([id r] & -> & Hin%elem_of_sorted_entries). by exists id.
  - intros [id Hid]. exists (id, record). split; [done|]. by apply elem_of_sorted_entries.
Qed.

Lemma elem_of_connected_ids conns d :
  d ∈ connected_client_ids conns <->
  exists id reg, registered conns id reg /\ registration_client_id reg = d.
Proof.
  unfold connected_client_ids, registered. rewrite elem_of_list_to_set, list_elem_of_fmap.
  setoid_rewrite list_elem_of_omap. setoid_rewrite elem_of_connection_records. naive_solver.
Qed.

Lemma existsb_has_client conns d :
  existsb (record_has_client d) (connection_records conns) = true <-> d ∈ connected_client_ids conns.
Proof.
  rewrite existsb_exists, elem_of_connected_ids. unfold record_has_client, registered.
  setoid_rewrite <- list_elem_of_In. setoid_rewrite elem_of_connection_records. split.
  - intros (record & [id Hid] & H). destruct (record_registration record) as [reg|] eqn:Hr; [|done].
    cbn in H. apply bool_decide_eq_true in H. exists id, reg. split; [by exists record|done].
  - intros (id & reg & (record & Hid & Hr) & <-). exists record. split; [eauto|].
    rewrite Hr. cbn. by apply bool_decide_eq_true.
Qed.

Lemma has_registered_sibling_spec conns id d :
  has_registered_sibling conns id d = true ->
  exists id' reg, id' <> id /\ registered conns id' reg /\ registration_client_id reg = d.
Proof.
  unfold has_registered_sibling. rewrite existsb_exists.
  intros ([id' record] & Hin%list_elem_of_In%elem_of_sorted_entries & H).
  apply andb_prop in H as [Hne%negb_true_iff%N.eqb_neq H]. cbn in *.
  unfold record_has_client in H. destruct (record_registration record) as [reg|] eqn:Hr; [|done].
  apply bool_decide_eq_true in H. exists id', reg. split; [done|]. split; [by exists record|done].
Qed.

(** A new connection is not registered yet. *)
Lemma connected_ids_open conns id :
  conns !! id = None ->
  connected_client_ids (<[id := mkConnectionRecord None]> conns) = connected_client_ids conns.
Proof.
  intros Hid. apply set_eq. intros d. rewrite !elem_of_connected_ids. unfold registered.
  split; intros (id' & reg & (record & Hl & Hr) & Hd); exists id', reg; (split; [|done]);
    exists record; (split; [|done]).
  - destruct (decide (id' = id)) as [->|Hne]; [|by rewrite lookup_insert_ne in Hl].
    rewrite lookup_insert_eq in Hl. by injection Hl as <-.
  - rewrite lookup_insert_ne; [done|]. intros <-. congruence.
Qed.

Lemma connected_clients_open conns id :
  (forall id', is_Some (conns !! id') -> id' < id) ->
  connected_clients (<[id := mkConnectionRecord None]> conns) = connected_clients conns.
Proof.
  intros Hid. unfold connected_clients, connection_records.
  rewrite sorted_entries_snoc, fmap_app, omap_app by done. cbn. by rewrite app_nil_r.
Qed.

Lemma refresh_record_id client_id remembered def record :
  registration_client_id <$> record_registration (refresh_record client_id remembered def record)
  = registration_client_id <$> record_registration record.
Proof.
  unfold refresh_record. destruct (record_registration record) as [reg|] eqn:Hr; [|by rewrite Hr].
  case_bool_decide; cbn; [done|by rewrite Hr].
Qed.

Lemma connected_ids_refresh conns client_id remembered def :
  connected_client_ids (refresh_record client_id remembered def <$> conns)
  = connected_client_ids conns.
Proof.
  apply set_eq. intros d. rewrite !elem_of_connected_ids. unfold registered. split.
  - intros (id & reg & (record & Hl & Hr) & Hd). rewrite lookup_fmap in Hl.
    destruct (conns !! id) as [r0|] eqn:H0; [|done]. injection Hl as <-.
    pose proof (refresh_record_id client_id remembered def r0) as Hid. rewrite Hr in Hid.
    destruct (record_registration r0) as [reg0|] eqn:Hr0; [|done]. injection Hid as Hid.
    exists id, reg0. split; [by exists r0|congruence].
  - intros (id & reg & (record & Hl & Hr) & Hd).
    pose proof (refresh_record_id client_id remembered def record) as Hid. rewrite Hr in Hid.
    destruct (record_registration (refresh_record _ _ _ _)) as [reg'|] eqn:Hr'; [|done].
    injection Hid as Hid. exists id, reg'. split; [|congruence].
    exists (refresh_record client_id remembered def record). by rewrite lookup_fmap, Hl.
Qed.

(* ------------------------------------------------------------------ *)
(** ** The projection *)

(** The registrations of a list of connections, keyed by client id. *)
Definition client_entries (entries : list (N * ConnectionRecord)) : list (string * ConnectedClient) :=
  (fun r => (registration_client_id r, projected_client r))
    <$> omap record_registration (snd <$> entries).

(** [reg] is the newest registration of its client id in [entries]. *)
Definition newest_in (entries : list (N * ConnectionRecord)) (id : N) (reg : ClientRegistration) : Prop :=
  (exists record, (id, record) ∈ entries /\ record_registration record = Some reg) /\
  forall id' record' reg', (id', record') ∈ entries -> record_registration record' = Some reg' ->
    registration_client_id reg' = registration_client_id reg -> id' <= id.

Lemma client_entries_lookup entries k c :
  StronglySorted (entry_le N.leb) entries -> NoDup (fst <$> entries) ->
  collect_map (client_entries entries) !! k = Some c <->
  exists id reg, newest_in entries id reg /\ registration_client_id reg = k /\ c = projected_client reg.
Proof.
  induction entries as [|[id record] entries IH] using rev_ind; intros Hs Hnd.
  { split; [done|]. intros (id & reg & [(record & Hin & _) _] & _). set_solver. }
  apply StronglySorted_app in Hs as (Hle & Hs & _).
  rewrite fmap_app, NoDup_app in Hnd. destruct Hnd as (Hnd & Hfresh & _).
  specialize (IH Hs Hnd). unfold client_entries in *. rewrite fmap_app, omap_app, fmap_app.
  assert (forall id0 reg, newest_in (entries ++ [(id, record)]) id0 reg ->
    (record_registration record = Some reg /\ id0 = id) \/
    (newest_in entries id0 reg /\ forall reg', record_registration record = Some reg' ->
       registration_client_id reg' <> registration_client_id reg)) as Hnew.
  { intros id0 reg [(r0 & Hin & Hr) Hmax]. apply elem_of_app in Hin as [Hin|Hin].
    - right. split.
      + split; [by exists r0|]. intros ? ? ? ?. eapply Hmax, elem_of_app. by left.
      + intros reg' Hr' Heq. assert (id <= id0) as H1.
        { eapply Hmax; [|exact Hr'|done]. apply elem_of_app. right. by apply list_elem_of_singleton. }
        specialize (Hle _ (id, record) Hin ltac:(by apply list_elem_of_singleton)).
        unfold entry_le in Hle. cbn in Hle. apply N.leb_le in Hle.
        apply (Hfresh id0); [|assert (id0 = id) as -> by lia; set_solver].
        apply list_elem_of_fmap. by exists (id0, r0).
    - apply list_elem_of_singleton in Hin. injection Hin as -> ->. by left. }
  destruct (record_registration record) as [reg|] eqn:Hreg; cbn; rewrite Hreg; cbn.
  - rewrite collect_map_app. destruct (decide (registration_client_id reg = k)) as [<-|Hne].
    + rewrite lookup_insert_eq. split.
      * intros [= <-]. exists id, reg. split; [|done]. split.
        { exists record. split; [|done]. apply elem_of_app. right. by apply list_elem_of_singleton. }
        intros id' r' reg' [Hin|Hin%list_elem_of_singleton]%elem_of_app _ _; [|injection Hin as -> _; lia].
        specialize (Hle _ (id, record) Hin ltac:(by apply list_elem_of_singleton)).
        unfold entry_le in Hle. cbn in Hle. by apply N.leb_le in Hle.
      * intros (id0 & reg0 & Hn & Hk & ->). apply Hnew in Hn as [[[= ->] _]|[_ Hn]]; [done|].
        by destruct (Hn reg eq_refl).
    + rewrite lookup_insert_ne, IH by done. split; intros (id0 & reg0 & Hn & Hk & ->);
        exists id0, reg0; (split; [|done]).
      * destruct Hn as [(r0 & Hin & Hr) Hmax]. split.
        { exists r0. split; [|done]. apply elem_of_app. by left. }
        intros id' r' reg' [Hin'|Hin'%list_elem_of_singleton]%elem_of_app Hr' Heq; [by eapply Hmax|].
        injection Hin' as -> ->. congruence.
      * apply Hnew in Hn as [[[= <-] _]|[Hn _]]; [congruence|done].
  - rewrite app_nil_r, IH. split; intros (id0 & reg0 & Hn & Hk & ->); exists id0, reg0; (split; [|done]).
    + destruct Hn as [(r0 & Hin & Hr) Hmax]. split.
      { exists r0. split; [|done]. apply elem_of_app. by left. }
      intros id' r' reg' [Hin'|Hin'%list_elem_of_singleton]%elem_of_app Hr' Heq; [by eapply Hmax|].
      injection Hin' as -> ->. congruence.
    + apply Hnew in Hn as [[? _]|[Hn _]]; done.
Qed.

(** [reg] is the registration of the newest connection of its client id. *)
Definition newest_registration (conns : Connections) (id : N) (reg : ClientRegistration) : Prop :=
  registered conns id reg /\
  forall id' reg', registered conns id' reg' ->
    registration_client_id reg' = registration_client_id reg -> id' <= id.

Lemma newest_in_connections conns id reg :
  newest_in (sorted_entries N.leb conns) id reg <-> newest_registration conns id reg.
Proof.
  unfold newest_in, newest_registration, registered. setoid_rewrite elem_of_sorted_entries.
  naive_solver.
Qed.

Lemma connected_clients_entries conns :
  let clients := collect_map (client_entries (sorted_entries N.leb conns)) in
  connected_clients conns = snd <$> sorted_entries string_leb clients /\
  client_client_id <$> connected_clients conns = fst <$> sorted_entries string_leb clients.
Proof.
  cbv zeta. split; [done|].
  change (connected_clients conns) with
    (snd <$> sorted_entries string_leb (collect_map (client_entries (sorted_entries N.leb conns)))).
  rewrite <- list_fmap_compose. apply list_fmap_ext. intros i [k c] Hi%list_elem_of_lookup_2.
  apply elem_of_sorted_entries, client_entries_lookup in Hi as (id & reg & _ & <- & ->); [done| |].
  - apply sorted_entries_sorted; apply _.
  - apply NoDup_sorted_keys.
Qed.

(** The public client list has one client per connected client id, in the
    order of the ids, shown as the newest of its connections registered it. *)
Theorem connected_clients_spec conns :
  Sorted (fun x y => string_leb x y = true) (client_client_id <$> connected_clients conns) /\
  NoDup (client_client_id <$> connected_clients conns) /\
  (forall c, c ∈ connected_clients conns <->
     exists id reg, newest_registration conns id reg /\ c = projected_client reg) /\
  (forall d, d ∈ client_client_id <$> connected_clients conns <-> d ∈ connected_client_ids conns).
Proof.
  destruct (connected_clients_entries conns) as [Hc Hids].
  set (clients := collect_map (client_entries (sorted_entries N.leb conns))) in *.
  assert (forall c, c ∈ connected_clients conns <->
     exists id reg, newest_registration conns id reg /\ c = projected_client reg) as Helem.
  { intros c. rewrite Hc, list_elem_of_fmap. setoid_rewrite <- newest_in_connections. split.
    - intros ([k c'] & -> & Hin%elem_of_sorted_entries).
      apply client_entries_lookup in Hin as (id & reg & Hn & _ & ->); [by exists id, reg| |].
      + apply sorted_entries_sorted; apply _.
      + apply NoDup_sorted_keys.
    - intros (id & reg & Hn & ->). exists (registration_client_id reg, projected_client reg).
      split; [done|]. apply elem_of_sorted_entries, client_entries_lookup.
      + apply sorted_entries_sorted; apply _.
      + apply NoDup_sorted_keys.
      + by exists id, reg. }
  split_and!; [| |done|].
  - rewrite Hids. apply StronglySorted_Sorted.
    pose proof (sorted_entries_sorted string_leb clients) as Hs.
    clear Hc Hids Helem. induction Hs as [|e l _ IH Hle]; cbn; [constructor|].
    constructor; [done|]. apply Forall_fmap. by eapply Forall_impl.
  - rewrite Hids. apply NoDup_sorted_keys.
  - intros d. rewrite list_elem_of_fmap. setoid_rewrite Helem. rewrite elem_of_connected_ids. split.
    + intros (c & -> & id & reg & [Hr _] & ->). by exists id, reg.
    + intros (id & reg & (record & Hid & Hr) & <-).
      assert (registration_client_id reg ∈ dom clients) as [c Hk]%elem_of_dom.
      { unfold clients. rewrite collect_map_dom, elem_of_list_to_set. unfold client_entries.
        rewrite <- list_fmap_compose, list_elem_of_fmap. exists reg. split; [done|].
        apply list_elem_of_omap. exists record. split; [|done].
        apply elem_of_connection_records. by exists id. }
      apply client_entries_lookup in Hk as (id' & reg' & Hn & Hk & ->).
      * exists (projected_client reg'). split; [done|]. exists id', reg'.
        split; [by apply newest_in_connections|done].
      * apply sorted_entries_sorted; apply _.
      * apply NoDup_sorted_keys.
Qed.
