(* ===== verification/Actor.v ===== *)
(** * The playback actor

    [crates/music-application/src/playback/actor.rs]: the actor that owns the
    playback state. A method on [&mut self] is a [stateful] function over
    [PlaybackActor]; an awaited store call acts on [actor_store]. The clock and
    the random source are classes, read by position: the [n]-th sample is
    [clock_sample n]. The watch channel of publications and the broadcast
    channel of events are the lists of what was sent, newest last. A [Duration]
    is a number of nanoseconds. *)

From S2P Require Import Prelude PlaybackState Reducer Persistence Store Catalog Presence.
From Stdlib Require Import SpecFloat.

#[local] Open Scope N_scope.

(* ------------------------------------------------------------------ *)
(** ** Interfaces *)

Class PlaybackClock : Type := {
  clock_sample : nat -> result PlaybackActorError ClockSample
}.

(** Samples are well formed and never go back; the only failures are the
    ones [SystemPlaybackClock] has. *)
Class PlaybackClockSpec `{PlaybackClock} : Prop := {
  clock_monotone n m x y : (n <= m)%nat -> clock_sample n = Ok x -> clock_sample m = Ok y ->
    monotonic_ms x <= monotonic_ms y;
  clock_valid n x : clock_sample n = Ok x ->
    monotonic_ms x <= u64_max /\ f64_is_finite (unix_seconds x) = true /\
    f64_leb (f64_of_Z 0) (unix_seconds x) = true;
  clock_error n e : clock_sample n = Err e -> e = ClockUnavailable \/ e = Domain InvalidClock
}.

Class QueueRandom : Type := {
  random_index : nat -> nat -> nat
}.

(** [index(upper_exclusive)] is below its bound. *)
Class QueueRandomSpec `{QueueRandom} : Prop := {
  random_index_lt draw upper : (0 < upper)%nat -> (random_index draw upper < upper)%nat
}.

(* ------------------------------------------------------------------ *)
(** ** Durations *)

Definition nanos_per_second : N := 1000000000.

(** Nearest integer to [num / den], ties to even. *)
Definition round_half_even (num den : N) : N :=
  let q := num / den in
  match (2 * (num mod den)) ?= den with
  | Lt => q
  | Gt => q + 1
  | Eq => if N.even q then q else q + 1
  end.

(** The nanoseconds of a non-negative finite number of seconds. *)
Definition nanos_of_binary (m : positive) (e : Z) : N :=
  match e with
  | Z0 => Npos m * nanos_per_second
  | Zpos k => Npos m * 2 ^ Npos k * nanos_per_second
  | Zneg k => round_half_even (Npos m * nanos_per_second) (2 ^ Npos k)
  end.

(** [Duration::try_from_secs_f64]: refuses negative and non-finite values, and
    [2^64] seconds or more. *)
Definition duration_try_from_secs_f64 (secs : f64) : option N :=
  match secs with
  | S754_zero _ => Some 0
  | S754_finite false m e =>
      let nanos := nanos_of_binary m e in
      if nanos <? 2 ^ 64 * nanos_per_second then Some nanos else None
  | _ => None
  end.

Definition MAX_EFFECT_SLEEP : N := 24 * 60 * 60 * nanos_per_second.
Definition DEFAULT_TRACK_END_GRACE : N := 750 * nanos_per_ms.
Definition DEFAULT_INTERRUPT_UNKNOWN_DURATION : N := 300 * nanos_per_second.

Definition effect_delay (remaining_ms : Z) : N :=
  if (remaining_ms <=? 0)%Z then 0
  else N.min (u64_clamp (Z.to_N remaining_ms) * nanos_per_ms) MAX_EFFECT_SLEEP.

Definition remaining_track_ms (duration_ms grace_ms position_ms : N) : Z :=
  (Z.of_N (u64_saturating_add duration_ms grace_ms) - Z.of_N position_ms)%Z.

Definition loop_interval_ms (looping : LoopingSfx) : N :=
  N.max (match duration_try_from_secs_f64 (loop_interval_seconds looping) with
         | Some duration => duration_ms duration
         | None => u64_max
         end) 1.

Definition initial_loop_deadlines (loops : list LoopingSfx) (now_monotonic_ms : N)
    : gmap string N :=
  collect_map ((fun looping =>
    (loop_id looping, u64_saturating_add now_monotonic_ms (loop_interval_ms looping))) <$> loops).

(* ------------------------------------------------------------------ *)
(** ** Configuration, publications, messages *)

Record PlaybackActorConfig : Type := mkPlaybackActorConfig {
  state_id : Z;
  mailbox_capacity : nat;
  event_capacity : nat;
  position_flush_interval : N;
  track_end_grace : N;
  interrupt_unknown_duration : N
}.

Definition PlaybackActorConfig_default : PlaybackActorConfig := {|
  state_id := 1; mailbox_capacity := 128; event_capacity := 128;
  position_flush_interval := 5 * nanos_per_second;
  track_end_grace := DEFAULT_TRACK_END_GRACE;
  interrupt_unknown_duration := DEFAULT_INTERRUPT_UNKNOWN_DURATION |}.

Definition validate_config (c : PlaybackActorConfig) : result PlaybackActorError () :=
  if (state_id c <=? 0)%Z then Err (InvalidConfiguration "state_id must be positive")
  else if (mailbox_capacity c =? 0)%nat
  then Err (InvalidConfiguration "mailbox_capacity must be positive")
  else if (event_capacity c =? 0)%nat
  then Err (InvalidConfiguration "event_capacity must be positive")
  else if position_flush_interval c =? 0
  then Err (InvalidConfiguration "position_flush_interval must be positive")
  else if interrupt_unknown_duration c =? 0
  then Err (InvalidConfiguration "interrupt_unknown_duration must be positive")
  else Ok ().

Record PlaybackPublication : Type := mkPlaybackPublication {
  publication_state : PlaybackState;
  publication_clients : list ConnectedClient;
  sampled_at : ClockSample
}.

Record PlaybackCommandResult : Type := mkPlaybackCommandResult {
  result_changed : bool;
  result_publication_revision : N
}.

Inductive TrackLane : Type := TrackLane_Interrupt | TrackLane_Ambient.

Record TrackEffectPlan : Type := mkTrackEffectPlan {
  remaining_ms : Z;
  plan_lane : TrackLane;
  plan_track_id : TrackId
}.

(** [ActorMessage], its reply channel aside. *)
Inductive ActorMessage : Type :=
| Execute (command : ResolvedPlaybackCommand)
| Snapshot
| AmbientSkipNextMessage (expected_track_id : option TrackId)
| OpenConnection
| RegisterConnection (connection_id : N) (registration : ClientRegistration)
| RefreshClientMetadata (client_id : string) (remembered_name : option string)
    (is_default_output : bool)
| Disconnect (connection_id : N)
| ReplaceCatalog (catalog : CatalogSnapshot) (active_preset_content_changed : bool)
| ReplaceLibraryCatalog (generation : N) (tracks : gmap TrackId CatalogTrack)
| ReplaceModeCatalog (publication : ModeCatalogPublication).

(** What is sent on the message's reply channel. *)
Inductive Reply : Type :=
| ReplyResult (r : result PlaybackActorError PlaybackCommandResult)
| ReplyPublication (r : result PlaybackActorError PlaybackPublication)
| ReplyConnection (r : result PlaybackActorError N).

Definition publication (s : PlaybackState) (connections : Connections) (sample : ClockSample)
    : PlaybackPublication := {|
  publication_state := materialize_positions s (monotonic_ms sample);
  publication_clients := connected_clients connections;
  sampled_at := sample |}.

Definition bump_publication_revision (s : PlaybackState) (current_revision : N)
    : result PlaybackActorError PlaybackState :=
  revision ← ok_or PublicationRevisionOverflow (u64_checked_add current_revision 1);
  Ok (with_publication_revision revision s).

Definition is_ambient_skip_next (command : PlaybackCommand) : bool :=
  match command with AmbientSkipNext _ _ => true | _ => false end.

(* ------------------------------------------------------------------ *)
(** ** The actor *)

Record PlaybackActor (store : Type) : Type := mkPlaybackActor {
  actor_store : store;
  clock_reads : nat;
  random_draws : nat;
  config : PlaybackActorConfig;
  actor_state : PlaybackState;
  storage_revision : Z;
  dirty_position : bool;
  loop_deadlines_ms : gmap string N;
  catalog : CatalogSnapshot;
  connections : Connections;
  next_connection_id : N;
  published : list PlaybackPublication;
  emitted : list DomainEvent
}.
Arguments mkPlaybackActor {store}.
Arguments actor_store {store}.
Arguments clock_reads {store}.
Arguments random_draws {store}.
Arguments config {store}.
Arguments actor_state {store}.
Arguments storage_revision {store}.
Arguments dirty_position {store}.
Arguments loop_deadlines_ms {store}.
Arguments catalog {store}.
Arguments connections {store}.
Arguments next_connection_id {store}.
Arguments published {store}.
Arguments emitted {store}.

Section Setters.
Context {store : Type}.

Definition set_actor_store (v : store) (a : PlaybackActor store) : PlaybackActor store := {|
  actor_store := v; clock_reads := clock_reads a; random_draws := random_draws a; config :=
  config a; actor_state := actor_state a; storage_revision := storage_revision a;
  dirty_position := dirty_position a; loop_deadlines_ms := loop_deadlines_ms a; catalog :=
  catalog a; connections := connections a; next_connection_id := next_connection_id a;
  published := published a; emitted := emitted a |}.

Definition set_clock_reads (v : nat) (a : PlaybackActor store) : PlaybackActor store := {|
  actor_store := actor_store a; clock_reads := v; random_draws := random_draws a; config :=
  config a; actor_state := actor_state a; storage_revision := storage_revision a;
  dirty_position := dirty_position a; loop_deadlines_ms := loop_deadlines_ms a; catalog :=
  catalog a; connections := connections a; next_connection_id := next_connection_id a;
  published := published a; emitted := emitted a |}.

Definition set_random_draws (v : nat) (a : PlaybackActor store) : PlaybackActor store := {|
  actor_store := actor_store a; clock_reads := clock_reads a; random_draws := v; config :=
  config a; actor_state := actor_state a; storage_revision := storage_revision a;
  dirty_position := dirty_position a; loop_deadlines_ms := loop_deadlines_ms a; catalog :=
  catalog a; connections := connections a; next_connection_id := next_connection_id a;
  published := published a; emitted := emitted a |}.

Definition set_actor_state (v : PlaybackState) (a : PlaybackActor store) : PlaybackActor store := {|
  actor_store := actor_store a; clock_reads := clock_reads a; random_draws := random_draws
  a; config := config a; actor_state := v; storage_revision := storage_revision a;
  dirty_position := dirty_position a; loop_deadlines_ms := loop_deadlines_ms a; catalog :=
  catalog a; connections := connections a; next_connection_id := next_connection_id a;
  published := published a; emitted := emitted a |}.

Definition set_storage_revision (v : Z) (a : PlaybackActor store) : PlaybackActor store := {|
  actor_store := actor_store a; clock_reads := clock_reads a; random_draws := random_draws
  a; config := config a; actor_state := actor_state a; storage_revision := v; dirty_position
  := dirty_position a; loop_deadlines_ms := loop_deadlines_ms a; catalog := catalog a;
  connections := connections a; next_connection_id := next_connection_id a; published :=
  published a; emitted := emitted a |}.

Definition set_dirty_position (v : bool) (a : PlaybackActor store) : PlaybackActor store := {|
  actor_store := actor_store a; clock_reads := clock_reads a; random_draws := random_draws
  a; config := config a; actor_state := actor_state a; storage_revision := storage_revision
  a; dirty_position := v; loop_deadlines_ms := loop_deadlines_ms a; catalog := catalog a;
  connections := connections a; next_connection_id := next_connection_id a; published :=
  published a; emitted := emitted a |}.

Definition set_loop_deadlines_ms (v : gmap string N) (a : PlaybackActor store) : PlaybackActor store := {|
  actor_store := actor_store a; clock_reads := clock_reads a; random_draws := random_draws
  a; config := config a; actor_state := actor_state a; storage_revision := storage_revision
  a; dirty_position := dirty_position a; loop_deadlines_ms := v; catalog := catalog a;
  connections := connections a; next_connection_id := next_connection_id a; published :=
  published a; emitted := emitted a |}.

Definition set_catalog (v : CatalogSnapshot) (a : PlaybackActor store) : PlaybackActor store := {|
  actor_store := actor_store a; clock_reads := clock_reads a; random_draws := random_draws
  a; config := config a; actor_state := actor_state a; storage_revision := storage_revision
  a; dirty_position := dirty_position a; loop_deadlines_ms := loop_deadlines_ms a; catalog
  := v; connections := connections a; next_connection_id := next_connection_id a; published
  := published a; emitted := emitted a |}.

Definition set_connections (v : Connections) (a : PlaybackActor store) : PlaybackActor store := {|
  actor_store := actor_store a; clock_reads := clock_reads a; random_draws := random_draws
  a; config := config a; actor_state := actor_state a; storage_revision := storage_revision
  a; dirty_position := dirty_position a; loop_deadlines_ms := loop_deadlines_ms a; catalog
  := catalog a; connections := v; next_connection_id := next_connection_id a; published :=
  published a; emitted := emitted a |}.

Definition set_next_connection_id (v : N) (a : PlaybackActor store) : PlaybackActor store := {|
  actor_store := actor_store a; clock_reads := clock_reads a; random_draws := random_draws
  a; config := config a; actor_state := actor_state a; storage_revision := storage_revision
  a; dirty_position := dirty_position a; loop_deadlines_ms := loop_deadlines_ms a; catalog
  := catalog a; connections := connections a; next_connection_id := v; published :=
  published a; emitted := emitted a |}.

Definition set_published (v : list PlaybackPublication) (a : PlaybackActor store) : PlaybackActor store := {|
  actor_store := actor_store a; clock_reads := clock_reads a; random_draws := random_draws
  a; config := config a; actor_state := actor_state a; storage_revision := storage_revision
  a; dirty_position := dirty_position a; loop_deadlines_ms := loop_deadlines_ms a; catalog
  := catalog a; connections := connections a; next_connection_id := next_connection_id a;
  published := v; emitted := emitted a |}.

Definition set_emitted (v : list DomainEvent) (a : PlaybackActor store) : PlaybackActor store := {|
  actor_store := actor_store a; clock_reads := clock_reads a; random_draws := random_draws
  a; config := config a; actor_state := actor_state a; storage_revision := storage_revision
  a; dirty_position := dirty_position a; loop_deadlines_ms := loop_deadlines_ms a; catalog
  := catalog a; connections := connections a; next_connection_id := next_connection_id a;
  published := published a; emitted := v |}.

End Setters.

Section Actor.
Context {text store : Type}.
Context `{!SerdeJson text} `{!PlaybackStateStore text store}.
Context `{!PlaybackClock} `{!QueueRandom}.

Definition act : Type -> Type := stateful (PlaybackActor store) PlaybackActorError.

(* ------------------------------------------------------------------ *)
(** ** Saving *)

(** [persistence_failure] on each of the two error types it receives. *)
Definition persistence_failure (chain : string) : PlaybackActorError := Persistence chain.

Definition from_store {A} (call : store -> result store_error A * store)
    : stateful store PlaybackActorError A := fun st =>
  let '(r, st) := call st in
  (map_err (fun e => persistence_failure (store_error_chain e)) r, st).

Definition encode (s : PlaybackState) (now_monotonic_ms : N) : result PlaybackActorError text :=
  map_err (fun e => persistence_failure (persisted_state_error_chain e))
    (encode_persisted_state s now_monotonic_ms).

Definition json_equivalent (l r : text) : bool :=
  match value_from_str l, value_from_str r with
  | Ok l_value, Ok r_value => value_eqb l_value r_value
  | _, _ => false
  end.

Definition compare_and_swap (id revision : Z) (encoded : text)
    : stateful store PlaybackActorError Z :=
  swap ← from_store (store_compare_and_swap id revision encoded);
  match swap with
  | StoreUpdated revision => mret revision
  | StoreConflict => throw PersistenceConflict
  end.

Definition persist_candidate (id revision : Z) (s : PlaybackState) (now_monotonic_ms : N)
    : stateful store PlaybackActorError Z :=
  encoded ← try (encode s now_monotonic_ms);
  compare_and_swap id revision encoded.

Definition load_or_initialize (id : Z) (now_monotonic_ms : N)
    : stateful store PlaybackActorError (PlaybackState * Z) :=
  loaded ← from_store (store_load id);
  match loaded with
  | Some snapshot =>
      s ← try (map_err (fun e => persistence_failure (persisted_state_error_chain e))
                 (decode_persisted_state (state_json snapshot)));
      encoded ← try (encode s now_monotonic_ms);
      if json_equivalent (state_json snapshot) encoded
      then mret (s, snapshot_storage_revision snapshot)
      else
        revision ← compare_and_swap id (snapshot_storage_revision snapshot) encoded;
        mret (s, revision)
  | None =>
      encoded ← try (encode PlaybackState_default now_monotonic_ms);
      inserted ← from_store (store_insert_if_missing id encoded);
      if inserted : bool then mret (PlaybackState_default, 0%Z) else throw PersistenceConflict
  end.

(** [start_playback_actor]: the actor it spawns. The clock is read once. *)
Definition start_playback_actor (c : PlaybackActorConfig) (known : CatalogSnapshot)
    : stateful store PlaybackActorError (PlaybackActor store) :=
  _ ← try (validate_config c);
  sample ← try (clock_sample 0);
  '(s, revision) ← load_or_initialize (state_id c) (monotonic_ms sample);
  '(s, pruned) ← try (map_err Domain (prune_for_catalog s known (monotonic_ms sample) false));
  revision ← (if pruned : bool
              then persist_candidate (state_id c) revision s (monotonic_ms sample)
              else mret revision);
  st ← gets (fun st => st);
  mret {| actor_store := st; clock_reads := 1; random_draws := 0; config := c;
          actor_state := s; storage_revision := revision; dirty_position := false;
          loop_deadlines_ms := initial_loop_deadlines (looping_sfx s) (monotonic_ms sample);
          catalog := known; connections := ∅; next_connection_id := 1;
          published := [publication s ∅ sample]; emitted := [] |}.

(* ------------------------------------------------------------------ *)
(** ** Steps shared by the methods *)

Definition sample_clock : act ClockSample := fun a =>
  (clock_sample (clock_reads a), set_clock_reads (S (clock_reads a)) a).

Definition emit_events (events : list DomainEvent) : act () :=
  modify (fun a => set_emitted (emitted a ++ events) a).

Definition publish (sample : ClockSample) : act () :=
  modify (fun a =>
    set_published (published a ++ [publication (actor_state a) (connections a) sample]) a).

(** [self.result(changed)] *)
Definition command_result (changed : bool) : act PlaybackCommandResult :=
  gets (fun a => mkPlaybackCommandResult changed (publication_revision (actor_state a))).

(** [self.storage_revision = persist_candidate(..).await?] *)
Definition save (s : PlaybackState) (now_monotonic_ms : N) : act () := fun a =>
  let '(r, st) := persist_candidate (state_id (config a)) (storage_revision a) s
                    now_monotonic_ms (actor_store a) in
  let a := set_actor_store st a in
  match r with
  | Ok revision => (Ok (), set_storage_revision revision a)
  | Err e => (Err e, a)
  end.

(** [random_queue_index]: a draw only when the advance needs a choice. *)
Definition draw_queue_index (command : PlaybackCommand) : act (option nat) := fun a =>
  let queue := ambient_queue (ambient (actor_state a)) in
  if is_ambient_skip_next command
     && bool_decide (ambient_shuffle (ambient (actor_state a)) = ShuffleMode_Random)
     && negb (bool_decide (queue = []))
  then (Ok (Some (random_index (random_draws a) (length queue))),
        set_random_draws (S (random_draws a)) a)
  else (Ok None, a).

(* ------------------------------------------------------------------ *)
(** ** Admission *)

Definition validate_resolved_command (resolved : ResolvedPlaybackCommand) (known : CatalogSnapshot)
    : result PlaybackActorError () :=
  if command_requires_catalog (resolved_command resolved) then
    generation ← ok_or MissingCatalogResolution (resolved_generation resolved);
    if bool_decide (generation = catalog_generation known) then Ok ()
    else Err (StaleCatalog generation (catalog_generation known))
  else Ok ().

Definition validate_outputs (command : PlaybackCommand) (a : PlaybackActor store)
    : result PlaybackActorError () :=
  match command with
  | SetActiveOutputs device_ids =>
      let connected := connected_client_ids (connections a) in
      let disconnected := retain (fun device_id =>
        negb (contains device_id (active_output_device_ids (actor_state a)))
        && negb (bool_decide (device_id ∈ connected))) device_ids in
      match disconnected with [] => Ok () | _ => Err (DisconnectedOutput disconnected) end
  | ReportPosition device_id _ =>
      if contains device_id (active_output_device_ids (actor_state a)) then Ok ()
      else Err (InactivePositionReporter device_id)
  | _ => Ok ()
  end.

Definition validate_live_references (command : PlaybackCommand) (a : PlaybackActor store)
    : result PlaybackActorError () :=
  _ ← validate_outputs command a;
  if catalog_references_valid command (catalog a) (actor_state a) then Ok ()
  else Err InvalidCatalogReference.

(* ------------------------------------------------------------------ *)
(** ** Loop deadlines *)

(** [loops.iter().find(|l| l.id == id)] *)
Definition find_loop (id : string) (loops : list LoopingSfx) : option LoopingSfx :=
  List.find (fun looping => bool_decide (loop_id looping = id)) loops.

(** The loop of this id is running now exactly as it was before. *)
Definition loop_unchanged (previous current : list LoopingSfx) (id : string) : bool :=
  option_is_some_and (find_loop id current) (fun current =>
    option_is_some_and (find_loop id previous) (fun previous =>
      looping_sfx_eqb previous current)).

Definition retained_deadlines (previous current : list LoopingSfx) (restarted_ids : gset string)
    (deadlines : gmap string N) : gmap string N :=
  filter (fun entry => entry.1 ∉ restarted_ids /\
                       loop_unchanged previous current entry.1 = true) deadlines.

(** [entry(id).or_insert_with(..)] for one running loop. *)
Definition add_deadline (now_monotonic_ms : N) (deadlines : gmap string N)
    (looping : LoopingSfx) : gmap string N :=
  match deadlines !! loop_id looping with
  | Some _ => deadlines
  | None => <[loop_id looping :=
               u64_saturating_add now_monotonic_ms (loop_interval_ms looping)]> deadlines
  end.

Definition reconcile_loop_deadlines (previous : list LoopingSfx) (restarted_ids : gset string)
    (now_monotonic_ms : N) : act () :=
  modify (fun a =>
    let current := looping_sfx (actor_state a) in
    let retained := retained_deadlines previous current restarted_ids (loop_deadlines_ms a) in
    set_loop_deadlines_ms (foldl (add_deadline now_monotonic_ms) retained current) a).

Definition started_loop_id (event : DomainEvent) : option string :=
  match event with LoopStarted looping => Some (loop_id looping) | _ => None end.

(* ------------------------------------------------------------------ *)
(** ** Commands *)

(** The [PersistenceIntent::Immediate] branch of [execute] for a changed
    reduction. *)
Definition commit_reduction (reduction : Reduction) (sample : ClockSample)
    : act PlaybackCommandResult :=
  s ← gets actor_state;
  candidate ← try (if publish_state reduction
                   then bump_publication_revision (next_state reduction) (publication_revision s)
                   else Ok (next_state reduction));
  _ ← save candidate (monotonic_ms sample);
  _ ← modify (set_actor_state candidate);
  _ ← reconcile_loop_deadlines (looping_sfx s)
        (list_to_set (omap started_loop_id (events reduction))) (monotonic_ms sample);
  _ ← modify (set_dirty_position false);
  _ ← (if publish_state reduction then publish sample else mret ());
  _ ← emit_events (events reduction);
  command_result true.

(** The output policy of the mode the reduction leads to, in the same commit. *)
Definition with_output_policy (known : CatalogSnapshot) (reduction : Reduction) : Reduction :=
  match catalog_modes known with
  | Some modes =>
      let '(s, policy_changed) :=
        apply_output_policy (active_mode_allows_multiple_outputs (next_state reduction) modes)
          (next_state reduction) in
      mkReduction s (changed reduction || policy_changed) (publish_state reduction)
        (persistence reduction) (events reduction)
  | None => reduction
  end.

Definition commit (reduction : Reduction) (sample : ClockSample) : act PlaybackCommandResult :=
  match persistence reduction with
  | PersistenceIntent_None =>
      _ ← emit_events (events reduction);
      command_result (changed reduction)
  | PersistenceIntent_Throttled =>
      _ ← modify (set_actor_state (next_state reduction));
      _ ← modify (set_dirty_position true);
      _ ← emit_events (events reduction);
      command_result (changed reduction)
  | PersistenceIntent_Immediate =>
      if negb (changed reduction) then
        _ ← emit_events (events reduction);
        command_result false
      else commit_reduction reduction sample
  end.

Definition execute (resolved : ResolvedPlaybackCommand) : act PlaybackCommandResult :=
  known ← gets catalog;
  _ ← try (validate_resolved_command resolved known);
  checked ← gets (validate_live_references (resolved_command resolved));
  _ ← try checked;
  sample ← sample_clock;
  random_queue_index ← draw_queue_index (resolved_command resolved);
  s ← gets actor_state;
  reduction ← try (map_err Domain
    (reduce s (resolved_command resolved) (mkReductionContext sample random_queue_index)));
  commit (with_output_policy known reduction) sample.

(** The catalog successor of the current ambient track, when the lane follows
    the library order and its queue is empty. *)
Definition follow_successor (current_track_id : option TrackId) (a : PlaybackActor store)
    : option TrackId :=
  if bool_decide (ambient_loop_mode (ambient (actor_state a)) = LoopMode_Follow)
     && bool_decide (ambient_queue (ambient (actor_state a)) = [])
  then
    current ← current_track_id;
    tracks ← catalog_tracks (catalog a);
    track ← tracks !! current;
    track_follow_next_id track
  else None.

Definition execute_ambient_skip_next (expected_track_id : option TrackId)
    : act PlaybackCommandResult :=
  follow_next_id ← gets (fun a =>
    follow_successor (ambient_current_track_id (ambient (actor_state a))) a);
  known ← gets catalog;
  execute (resolved_at_generation (AmbientSkipNext follow_next_id expected_track_id)
             (catalog_generation known)).

(* ------------------------------------------------------------------ *)
(** ** Timed effects *)

(** The first candidate with the least remaining time. *)
Definition min_by_remaining (plans : list TrackEffectPlan) : option TrackEffectPlan :=
  foldl (fun best plan =>
    match best with
    | Some b => if (remaining_ms plan <? remaining_ms b)%Z then Some plan else Some b
    | None => Some plan
    end) None plans.

Definition known_duration (known : CatalogSnapshot) (track_id : TrackId) : option N :=
  tracks ← catalog_tracks known;
  track ← tracks !! track_id;
  duration ← track_duration_ms track;
  if 0 <? duration then Some duration else None.

Definition interrupt_effect_plan (materialized : PlaybackState) (a : PlaybackActor store)
    : list TrackEffectPlan :=
  match interrupt materialized with
  | Some i =>
      if bool_decide (is_Some (interrupt_position_anchor_ms i)) then
        let duration := default (duration_ms (interrupt_unknown_duration (config a)))
                          (known_duration (catalog a) (interrupt_current_track_id i)) in
        [mkTrackEffectPlan
           (remaining_track_ms duration (duration_ms (track_end_grace (config a)))
              (interrupt_position_ms i))
           TrackLane_Interrupt (interrupt_current_track_id i)]
      else []
  | None => []
  end.

Definition ambient_effect_plan (materialized : PlaybackState) (a : PlaybackActor store)
    : list TrackEffectPlan :=
  match ambient_current_track_id (ambient materialized),
        ambient_position_anchor_ms (ambient materialized) with
  | Some track_id, Some _ =>
      match known_duration (catalog a) track_id with
      | Some duration =>
          [mkTrackEffectPlan
             (remaining_track_ms duration (duration_ms (track_end_grace (config a)))
                (ambient_position_ms (ambient materialized)))
             TrackLane_Ambient track_id]
      | None => []
      end
  | _, _ => []
  end.

Definition track_effect_plan (sample : ClockSample) (a : PlaybackActor store)
    : option TrackEffectPlan :=
  let materialized := materialize_positions (actor_state a) (monotonic_ms sample) in
  min_by_remaining (interrupt_effect_plan materialized a ++ ambient_effect_plan materialized a).

(** [iter.min()] *)
Definition min_Z (l : list Z) : option Z :=
  foldl (fun best z => match best with Some b => Some (Z.min b z) | None => Some z end) None l.

Definition next_effect_delay : act (option N) :=
  sample ← sample_clock;
  a ← gets (fun a => a);
  let track_remaining := remaining_ms <$> track_effect_plan sample a in
  let loop_remaining := min_Z
    ((fun entry : string * N => Z.of_N entry.2 - Z.of_N (monotonic_ms sample))%Z
       <$> sorted_entries string_leb (loop_deadlines_ms a)) in
  mret match track_remaining, loop_remaining with
       | Some track, Some looping => Some (effect_delay (Z.min track looping))
       | Some track, None => Some (effect_delay track)
       | None, Some looping => Some (effect_delay looping)
       | None, None => None
       end.

(** The loop body of [run_due_effects] for one due loop id. *)
Definition fire_due_loop (sample : ClockSample) (id : string) : act () :=
  a ← gets (fun a => a);
  match find_loop id (looping_sfx (actor_state a)) with
  | None => modify (fun a => set_loop_deadlines_ms (delete id (loop_deadlines_ms a)) a)
  | Some looping =>
      let deadline := u64_saturating_add (monotonic_ms sample) (loop_interval_ms looping) in
      _ ← modify (fun a => set_loop_deadlines_ms (<[id := deadline]> (loop_deadlines_ms a)) a);
      emit_events [SfxFired (loop_soundboard_id looping) (loop_item_path looping)
                     (loop_volume looping)]
  end.

Fixpoint fire_due_loops (sample : ClockSample) (ids : list string) : act () :=
  match ids with
  | [] => mret ()
  | id :: ids => _ ← fire_due_loop sample id; fire_due_loops sample ids
  end.

Definition due_loop_ids (now_monotonic_ms : N) (deadlines : gmap string N) : list string :=
  fst <$> List.filter (fun entry => entry.2 <=? now_monotonic_ms)
            (sorted_entries string_leb deadlines).

Definition effect_command (plan : TrackEffectPlan) (a : PlaybackActor store)
    : ResolvedPlaybackCommand :=
  match plan_lane plan with
  | TrackLane_Interrupt => resolved_direct (InterruptSkipNext (Some (plan_track_id plan)))
  | TrackLane_Ambient =>
      resolved_at_generation
        (AmbientSkipNext (follow_successor (Some (plan_track_id plan)) a)
           (Some (plan_track_id plan)))
        (catalog_generation (catalog a))
  end.

Definition due_plan (sample : ClockSample) (a : PlaybackActor store) : option TrackEffectPlan :=
  plan ← track_effect_plan sample a;
  if (remaining_ms plan <=? 0)%Z then Some plan else None.

Definition run_due_effects : act () :=
  sample ← sample_clock;
  deadlines ← gets loop_deadlines_ms;
  _ ← fire_due_loops sample (due_loop_ids (monotonic_ms sample) deadlines);
  a ← gets (fun a => a);
  match due_plan sample a with
  | None => mret ()
  | Some plan => _ ← execute (effect_command plan a); mret ()
  end.

End Actor.
