(* ===== verification/ActorMessages.v ===== *)
(** * Messages and the run loop of the playback actor

    The rest of [crates/music-application/src/playback/actor.rs]: connections,
    catalog replacement, the position flush, [handle_message] and the select
    loop of [run], driven by an explicit sequence of wake-ups. *)

From S2P Require Import Prelude PlaybackState Reducer ReducerLemmas Persistence Store Catalog.
From S2P Require Import Presence Actor.

#[local] Open Scope N_scope.

(** What [tokio::select!] wakes up on. *)
Inductive Wakeup : Type :=
| Cancelled
| MailboxClosed
| Received (message : ActorMessage)
| EffectDue
| FlushTick.

Section Messages.
Context {text store : Type}.
Context `{!SerdeJson text} `{!PlaybackStateStore text store}.
Context `{!PlaybackClock} `{!QueueRandom}.

#[local] Notation act := (act (store := store)).

(* ------------------------------------------------------------------ *)
(** ** Committing presence *)

Definition commit_external_change (candidate_state : PlaybackState)
    (candidate_connections : Connections) (durable_changed presence_changed : bool)
    (sample : ClockSample) : act PlaybackCommandResult :=
  if negb durable_changed && negb presence_changed then
    _ ← modify (set_connections candidate_connections);
    command_result false
  else
    a ← gets (fun a => a);
    candidate_state ← try (bump_publication_revision candidate_state
                             (publication_revision (actor_state a)));
    _ ← (if durable_changed || dirty_position a then
           _ ← save candidate_state (monotonic_ms sample);
           modify (set_dirty_position false)
         else mret ());
    _ ← modify (set_actor_state candidate_state);
    _ ← modify (set_connections candidate_connections);
    _ ← publish sample;
    command_result true.

(** [reduce(&candidate_state, command, direct_context(sample))?] with the
    running [durable_changed]. *)
Definition reduce_direct (step : PlaybackState * bool) (command : PlaybackCommand)
    (sample : ClockSample) : result PlaybackActorError (PlaybackState * bool) :=
  reduction ← map_err Domain (reduce step.1 command (direct_context sample));
  Ok (next_state reduction, step.2 || changed reduction).

(* ------------------------------------------------------------------ *)
(** ** Connections *)

Definition open_connection : act N := fun a =>
  match u64_checked_add (next_connection_id a) 1 with
  | None => (Err ConnectionIdOverflow, a)
  | Some next =>
      let connection_id := next_connection_id a in
      let a := set_next_connection_id next a in
      (Ok connection_id,
       set_connections (<[connection_id := mkConnectionRecord None]> (connections a)) a)
  end.

(** A registration that changes the client id of its connection retires the
    previous id unless another connection still carries it. *)
Definition retire_previous (candidate_connections : Connections) (connection_id : N)
    (previous : option ClientRegistration) (registration : ClientRegistration)
    (sample : ClockSample) (s : PlaybackState) : result PlaybackActorError (PlaybackState * bool) :=
  match previous with
  | Some previous =>
      if negb (bool_decide (registration_client_id previous = registration_client_id registration))
         && negb (has_registered_sibling candidate_connections connection_id
                    (registration_client_id previous))
      then reduce_direct (s, false) (RemoveActiveOutput (registration_client_id previous)) sample
      else Ok (s, false)
  | None => Ok (s, false)
  end.

Definition register_connection (connection_id : N) (registration : ClientRegistration)
    : act PlaybackCommandResult :=
  _ ← try (validate_registration registration);
  a ← gets (fun a => a);
  match connections a !! connection_id with
  | None => throw (UnknownConnection connection_id)
  | Some current_record =>
      if bool_decide (record_registration current_record = Some registration)
      then command_result false
      else
        let before_projection := connected_clients (connections a) in
        let candidate_connections :=
          <[connection_id := mkConnectionRecord (Some registration)]> (connections a) in
        sample ← sample_clock;
        step ← try (retire_previous candidate_connections connection_id
                      (record_registration current_record) registration sample (actor_state a));
        step ← try (reduce_direct step
                      (RegisterDevice (registration_client_id registration)
                         (registration_is_default_output registration)) sample);
        let presence_changed :=
          negb (bool_decide (before_projection = connected_clients candidate_connections)) in
        commit_external_change step.1 candidate_connections step.2 presence_changed sample
  end.

Definition disconnect (connection_id : N) : act PlaybackCommandResult :=
  a ← gets (fun a => a);
  match connections a !! connection_id with
  | None => throw (UnknownConnection connection_id)
  | Some record =>
      let before_projection := connected_clients (connections a) in
      let candidate_connections := delete connection_id (connections a) in
      sample ← sample_clock;
      step ← try match record_registration record with
        | Some registration =>
            if negb (existsb (record_has_client (registration_client_id registration))
                       (connection_records candidate_connections))
            then reduce_direct (actor_state a, false)
                   (RemoveActiveOutput (registration_client_id registration)) sample
            else Ok (actor_state a, false)
        | None => Ok (actor_state a, false)
        end;
      let presence_changed :=
        negb (bool_decide (before_projection = connected_clients candidate_connections)) in
      commit_external_change step.1 candidate_connections step.2 presence_changed sample
  end.

Definition refresh_client_metadata (client_id : string) (remembered_name : option string)
    (is_default_output : bool) : act PlaybackCommandResult :=
  if negb (length_within MAX_CLIENT_ID_LENGTH client_id)
  then throw (InvalidRegistration client_id_message)
  else if remembered_name_invalid remembered_name
  then throw (InvalidRegistration remembered_name_message)
  else
    before ← gets (fun a => connected_clients (connections a));
    _ ← modify (fun a => set_connections
           (refresh_record client_id remembered_name is_default_output <$> connections a) a);
    after ← gets (fun a => connected_clients (connections a));
    let changed := negb (bool_decide (before = after)) in
    _ ← (if changed : bool then sample ← sample_clock; publish sample else mret ());
    command_result changed.

(* ------------------------------------------------------------------ *)
(** ** Catalogs and the position flush *)

Definition replace_catalog (next : CatalogSnapshot) (active_preset_content_changed : bool)
    : act PlaybackCommandResult :=
  a ← gets (fun a => a);
  let generation := catalog_generation next in
  let current := catalog_generation (catalog a) in
  if (generation_library generation <? generation_library current)
     || (generation_modes generation <? generation_modes current)
  then throw CatalogGenerationRegressed
  else if bool_decide (next = catalog a) && negb active_preset_content_changed
  then command_result false
  else
    sample ← sample_clock;
    '(candidate, changed) ← try (map_err Domain
      (prune_for_catalog (actor_state a) next (monotonic_ms sample)
         active_preset_content_changed));
    if negb changed then
      _ ← modify (set_catalog next);
      command_result false
    else
      candidate ← try (bump_publication_revision candidate
                         (publication_revision (actor_state a)));
      _ ← save candidate (monotonic_ms sample);
      _ ← modify (set_catalog next);
      _ ← modify (set_actor_state candidate);
      _ ← reconcile_loop_deadlines (looping_sfx (actor_state a)) ∅ (monotonic_ms sample);
      _ ← modify (set_dirty_position false);
      _ ← publish sample;
      command_result true.

(** The bodies of the [ReplaceLibraryCatalog] and [ReplaceModeCatalog] arms. *)
Definition replace_library_catalog (generation : N) (tracks : gmap TrackId CatalogTrack)
    : act PlaybackCommandResult :=
  known ← gets catalog;
  replace_catalog
    (mkCatalogSnapshot
       (mkCatalogGeneration generation (generation_modes (catalog_generation known)))
       (Some tracks) (catalog_modes known)) false.

Definition preset_content_changed (p : ModeCatalogPublication) (s : PlaybackState) : bool :=
  option_is_some_and (active_mode_id s) (fun active_mode_id =>
    existsb (fun key => bool_decide (key_mode_id key = active_mode_id)
                        && contains (key_preset_id key) (active_preset_ids s))
      (publication_changed_presets p)).

Definition replace_mode_catalog (p : ModeCatalogPublication) : act PlaybackCommandResult :=
  active_preset_content_changed ← gets (fun a => preset_content_changed p (actor_state a));
  known ← gets catalog;
  replace_catalog
    (mkCatalogSnapshot
       (mkCatalogGeneration (generation_library (catalog_generation known))
          (publication_generation p))
       (catalog_tracks known) (Some (CatalogMode_from <$> publication_modes p)))
    active_preset_content_changed.

Definition flush_position : act () :=
  a ← gets (fun a => a);
  if negb (dirty_position a) then mret ()
  else
    sample ← sample_clock;
    _ ← save (actor_state a) (monotonic_ms sample);
    modify (set_dirty_position false).

(** [ActorMessage::Snapshot]: a fresh publication that is not broadcast. *)
Definition snapshot : act PlaybackPublication :=
  sample ← sample_clock;
  gets (fun a => publication (actor_state a) (connections a) sample).

(* ------------------------------------------------------------------ *)
(** ** The mailbox *)

(** Sends the result of a command and stops the actor on a fatal error. *)
Definition reply_command (operation : act PlaybackCommandResult) (a : PlaybackActor store)
    : Reply * result PlaybackActorError () * PlaybackActor store :=
  let '(r, a) := operation a in
  (ReplyResult r,
   match r with
   | Err e => if is_fatal e then Err e else Ok ()
   | Ok _ => Ok ()
   end, a).

Definition handle_message (message : ActorMessage) (a : PlaybackActor store)
    : Reply * result PlaybackActorError () * PlaybackActor store :=
  match message with
  | Execute command => reply_command (execute command) a
  | Snapshot => let '(r, a) := snapshot a in (ReplyPublication r, Ok (), a)
  | AmbientSkipNextMessage expected => reply_command (execute_ambient_skip_next expected) a
  | OpenConnection => let '(r, a) := open_connection a in (ReplyConnection r, Ok (), a)
  | RegisterConnection connection_id registration =>
      reply_command (register_connection connection_id registration) a
  | RefreshClientMetadata client_id remembered_name is_default_output =>
      let '(r, a) := refresh_client_metadata client_id remembered_name is_default_output a in
      (ReplyResult r, Ok (), a)
  | Disconnect connection_id => reply_command (disconnect connection_id) a
  | ReplaceCatalog next active_preset_content_changed =>
      reply_command (replace_catalog next active_preset_content_changed) a
  | ReplaceLibraryCatalog generation tracks =>
      reply_command (replace_library_catalog generation tracks) a
  | ReplaceModeCatalog p => reply_command (replace_mode_catalog p) a
  end.

(** [self.handle_message(message).await?] in the loop. *)
Definition receive (message : ActorMessage) : act bool := fun a =>
  let '(_, r, a) := handle_message message a in
  match r with Ok _ => (Ok true, a) | Err e => (Err e, a) end.

(** One turn of the select loop: whether the loop goes on. A timer that is not
    armed ([next_effect_delay] is [None]) never fires. *)
Definition run_turn (wakeup : Wakeup) : act bool :=
  effect_delay ← next_effect_delay;
  match wakeup with
  | Cancelled | MailboxClosed => mret false
  | Received message => receive message
  | EffectDue =>
      match effect_delay with
      | Some _ => _ ← run_due_effects; mret true
      | None => mret true
      end
  | FlushTick => _ ← flush_position; mret true
  end.

(** [run] on the wake-ups it meets; the task ends with the last flush. *)
Fixpoint run (wakeups : list Wakeup) : act () :=
  match wakeups with
  | [] => mret ()
  | wakeup :: wakeups =>
      go_on ← run_turn wakeup;
      if go_on : bool then run wakeups else flush_position
  end.

End Messages.

(* ------------------------------------------------------------------ *)
(** * A concrete environment for the actor *)

#[local] Open Scope N_scope.

#[global] Instance HalfSecondClock : PlaybackClock := {|
  clock_sample := fun n => Ok (sample_at (N.min (500 * N.of_nat n) u64_max))
|}.

#[global] Instance HalfSecondClock_spec : PlaybackClockSpec.
Proof.
  split.
  - intros n m x y Hle [= <-] [= <-]. cbn -[N.mul N.min u64_max]. lia.
  - intros n x [= <-]. cbn -[N.mul N.min u64_max]. split; [lia|by split].
  - by intros n e [=].
Qed.

#[global] Instance CyclicRandom : QueueRandom := {|
  random_index := fun draw upper => (draw mod upper)%nat
|}.

#[global] Instance CyclicRandom_spec : QueueRandomSpec.
Proof. split. intros draw upper H. cbn. apply Nat.mod_upper_bound. lia. Qed.

Definition Table : Type := SqliteStorage PersistedPlaybackState.
Definition empty_table : Table := mkSqliteStorage ∅ [].

Definition dnd_mode : CatalogMode := {|
  mode_soundboard_items := {["weather"%string := {["rain.ogg"%string; "thunder.ogg"%string]}]};
  mode_cue_ids := {["battle"%string]};
  mode_preset_ids := {["tense"%string; "calm"%string]};
  mode_multiple_outputs := false |}.

(** Tracks 1 to 9 of two seconds each, following one another. *)
Definition sample_tracks : gmap TrackId CatalogTrack :=
  list_to_map ((fun id => (id, mkCatalogTrack (Some 2000)
    (Some (if (id =? 9)%positive then 1%positive else Pos.succ id))))
    <$> [1; 2; 3; 4; 5; 6; 7; 8; 9]%positive).

Definition sample_catalog : CatalogSnapshot := {|
  catalog_generation := mkCatalogGeneration 1 1;
  catalog_tracks := Some sample_tracks;
  catalog_modes := Some {["dnd"%string := dnd_mode]} |}.

Definition blank_actor : PlaybackActor Table := {|
  actor_store := empty_table; clock_reads := 0; random_draws := 0;
  config := PlaybackActorConfig_default; actor_state := PlaybackState_default;
  storage_revision := 0; dirty_position := false; loop_deadlines_ms := ∅;
  catalog := sample_catalog; connections := ∅; next_connection_id := 1;
  published := []; emitted := [] |}.

(** The actor spawned on [st]; [blank_actor] when the spawn fails. *)
Definition spawned (st : Table) : PlaybackActor Table :=
  match (start_playback_actor PlaybackActorConfig_default sample_catalog st).1 with
  | Ok a => a
  | Err _ => blank_actor
  end.

Definition admit_now (command : PlaybackCommand) : Wakeup :=
  Received (Execute (resolved_at_generation command (mkCatalogGeneration 1 1))).

Definition tablet : ClientRegistration := mkClientRegistration "tablet" "Tablet" None true.

(** A client connects, the mode is entered and track 1 starts; a loop runs. *)
Definition session_start : list Wakeup :=
  [ Received OpenConnection;
    Received (RegisterConnection 1 tablet);
    admit_now (SetActiveMode (Some "dnd"%string));
    admit_now (AmbientPlaySequence [1; 2; 3]%positive 0 None);
    admit_now (StartLoop (sample_loop "rain")) ].

Definition running : PlaybackActor Table := (run session_start (spawned empty_table)).2.

Example running_state :
  let s := actor_state running in
  active_mode_id s = Some "dnd"%string /\ is_playing s = true /\
  active_output_device_ids s = ["tablet"%string] /\
  ambient_current_track_id (ambient s) = Some 1%positive /\
  publication_revision s = 4 /\ storage_revision running = 4%Z /\ dirty_position running = false.
Proof. vm_compute. by split_and!. Qed.
