(* ===== verification/ActorLemmas.v ===== *)
(** * What the actor's methods do, outcome by outcome

    Inversion lemmas of the actor: each method either leaves the actor as it was
    (up to its environment: the store, the clock and the random source), or
    performs one commit. The invariants of the later files are proved from
    these outcomes. *)

From S2P Require Import Prelude PlaybackState Reducer Persistence Store Catalog Presence Actor.
From S2P Require Import ActorMessages.

#[local] Open Scope N_scope.

Ltac act_simpl H :=
  unfold mbind, stateful_bind, gets, modify, try, throw, mret, stateful_ret, command_result in H;
  cbn beta iota in H.

(** Runs the next step of [m a = (r, a')], splitting on its outcome. *)
Ltac act_step H :=
  act_simpl H;
  match type of H with
  | (match ?m with pair x y => _ end) = _ =>
      let r := fresh "r" in let a := fresh "a" in let E := fresh "E" in
      destruct m as [[r|r] a] eqn:E
  end; act_simpl H.

Section Lemmas.
Context {text store : Type}.
Context `{!SerdeJson text} `{!PlaybackStateStore text store}.
Context `{!PlaybackStateStoreSpec text store}.
Context {clk : PlaybackClock} {clk_spec : PlaybackClockSpec} {rnd : QueueRandom}.

#[local] Notation actor := (PlaybackActor store).
Implicit Types (a : actor).

(** [a] in the environment [a'] ended in. *)
Definition env (a' a : actor) : actor :=
  set_actor_store (actor_store a')
    (set_clock_reads (clock_reads a') (set_random_draws (random_draws a') a)).

Lemma env_refl a : env a a = a.
Proof. by destruct a. Qed.

Lemma env_env a1 a2 a3 : env a1 (env a2 a3) = env a1 a3.
Proof. done. Qed.

(** The row of the actor's document. *)
Definition own_row a : option (StoredPlaybackSnapshot text) :=
  store_row (actor_store a) (state_id (config a)).

(** What [save] does: the swap is acknowledged and the next revision recorded,
    or the actor is left as it was with a persistence error. *)
Definition saved (s : PlaybackState) (now : N) a (r : result PlaybackActorError ()) a' : Prop :=
  match r with
  | Ok _ => a' = set_storage_revision (storage_revision a + 1)%Z (env a' a) /\
      exists json, encode_persisted_state s now = Ok json /\
        snapshot_storage_revision <$> own_row a = Some (storage_revision a) /\
        own_row a' = Some (mkStoredPlaybackSnapshot json (storage_revision a + 1)%Z)
  | Err e => a' = env a' a /\
      (snapshot_storage_revision <$> own_row a <> Some (storage_revision a) ->
       own_row a' = own_row a) /\
      ((exists detail, e = Persistence detail) \/
       e = PersistenceConflict /\
       snapshot_storage_revision <$> own_row a <> Some (storage_revision a))
  end.

Lemma save_inv s now a r a' : save s now a = (r, a') -> saved s now a r a'.
Proof.
  unfold save, persist_candidate, encode, compare_and_swap, from_store.
  destruct (encode_persisted_state s now) as [json|e] eqn:He;
    unfold mbind, stateful_bind, try, mret, stateful_ret, throw; cbn [map_err]; [|intros [= <- <-]; split_and!; by eauto].
  destruct (store_compare_and_swap (state_id (config a)) (storage_revision a) json
              (actor_store a)) as [swap st] eqn:Hcas.
  pose proof (cas_spec _ _ _ _ _ _ Hcas) as [_ Hsw]. cbv zeta in Hsw.
  destruct swap as [[revision|]|e]; cbn; intros [= <- <-].
  - destruct Hsw as (-> & Hrow & Hrow'). split; [done|]. by exists json.
  - destruct Hsw as [Hrow Hsame]. split_and!; [done|done|by right].
  - split_and!; [done| |left; by eexists]. intros Hne. by destruct Hsw as [|[? _]].
Qed.

Lemma sample_clock_inv a r a' :
  sample_clock a = (r, a') -> a' = env a' a /\ actor_store a' = actor_store a.
Proof. unfold sample_clock. by intros [= <- <-]. Qed.

Lemma draw_queue_index_inv command a r a' :
  draw_queue_index command a = (r, a') ->
  a' = env a' a /\ actor_store a' = actor_store a /\ exists choice, r = Ok choice.
Proof.
  unfold draw_queue_index. case_match; intros [= <- <-]; split_and!; try done; try by eexists.
  by rewrite env_refl.
Qed.


(* ------------------------------------------------------------------ *)
(** ** Outcomes *)

(** An operation that returned [e] and changed nothing of the actor. Only a
    persistence failure may have touched the store, never a row that somebody
    else has written, and a conflict means that somebody has. *)
Record refused (e : PlaybackActorError) a a' : Prop := {
  refused_same : a' = env a' a;
  refused_store : is_fatal e = false -> actor_store a' = actor_store a;
  refused_row : snapshot_storage_revision <$> own_row a <> Some (storage_revision a) ->
    own_row a' = own_row a;
  refused_conflict : e = PersistenceConflict ->
    snapshot_storage_revision <$> own_row a <> Some (storage_revision a)
}.

(** The row now holds an encoding of [s], one revision further. *)
Record stored (s : PlaybackState) (now : N) a a' : Prop := {
  stored_revision : storage_revision a' = (storage_revision a + 1)%Z;
  stored_before : snapshot_storage_revision <$> own_row a = Some (storage_revision a);
  stored_row : exists json, encode_persisted_state s now = Ok json /\
    own_row a' = Some (mkStoredPlaybackSnapshot json (storage_revision a'))
}.

(** What [commit] does to the actor, by persistence intent. *)
Definition committed (red : Reduction) (sample : ClockSample) a
    (r : PlaybackCommandResult) a' : Prop :=
  match persistence red, changed red with
  | PersistenceIntent_None, b | PersistenceIntent_Immediate, (false as b) =>
      r = mkPlaybackCommandResult b (publication_revision (actor_state a)) /\
      a' = set_emitted (emitted a ++ events red) (env a' a) /\
      actor_store a' = actor_store a
  | PersistenceIntent_Throttled, b =>
      r = mkPlaybackCommandResult b (publication_revision (next_state red)) /\
      a' = set_emitted (emitted a ++ events red)
             (set_dirty_position true (set_actor_state (next_state red) (env a' a))) /\
      actor_store a' = actor_store a
  | PersistenceIntent_Immediate, true =>
      exists candidate,
      (if publish_state red
       then publication_revision (actor_state a) < u64_max /\
            candidate = with_publication_revision (publication_revision (actor_state a) + 1)
                          (next_state red)
       else candidate = next_state red) /\
      r = mkPlaybackCommandResult true (publication_revision candidate) /\
      stored candidate (monotonic_ms sample) a a' /\
      a' = set_emitted (emitted a ++ events red)
             (set_published (if publish_state red
                             then published a ++ [publication candidate (connections a) sample]
                             else published a)
             (set_dirty_position false
             (set_loop_deadlines_ms
                (foldl (add_deadline (monotonic_ms sample))
                   (retained_deadlines (looping_sfx (actor_state a)) (looping_sfx candidate)
                      (list_to_set (omap started_loop_id (events red))) (loop_deadlines_ms a))
                   (looping_sfx candidate))
             (set_actor_state candidate
             (set_storage_revision (storage_revision a') (env a' a))))))
  end.

Lemma saved_ok s now a u a' :
  saved s now a (Ok u) a' -> stored s now a a' /\ a' = set_storage_revision (storage_revision a') (env a' a).
Proof.
  intros [Heq (json & He & Hb & Hr)].
  assert (storage_revision a' = storage_revision a + 1)%Z as Hrev
    by (apply (f_equal storage_revision) in Heq; exact Heq).
  split; [split; [done..|]|].
  - exists json. by rewrite Hrev.
  - by rewrite Hrev.
Qed.

Lemma saved_refused s now a e a' : saved s now a (Err e) a' -> refused e a a'.
Proof.
  intros (Heq & Hsame & [[detail ->]|[-> Hrow]]); split; done.
Qed.

Lemma refused_env e a a1 a' :
  a1 = env a1 a -> actor_store a1 = actor_store a -> refused e a1 a' -> refused e a a'.
Proof.
  intros He1 Hs [Hsame Hst Hr Hc].
  assert (own_row a1 = own_row a) as Hrow.
  { unfold own_row. rewrite Hs. by rewrite He1. }
  split.
  - rewrite Hsame at 1. by rewrite He1.
  - intros ?. rewrite Hst; done.
  - rewrite <- Hrow. rewrite (f_equal storage_revision He1 : storage_revision a1 = storage_revision a) in Hr. auto.
  - intros He. rewrite <- Hrow. rewrite (f_equal storage_revision He1 : storage_revision a1 = storage_revision a) in Hc. auto.
Qed.

Lemma bump_ok s revision s' :
  bump_publication_revision s revision = Ok s' ->
  revision < u64_max /\ s' = with_publication_revision (revision + 1) s.
Proof.
  unfold bump_publication_revision. intros H. inv_results.
  apply u64_checked_add_Some in Heqo as [-> ?]. simplify_eq. split; [lia|done].
Qed.

Lemma bump_err s revision e :
  bump_publication_revision s revision = Err e -> e = PublicationRevisionOverflow.
Proof.
  unfold bump_publication_revision. intros [H|(? & _ & H)]%bind_err; [|done].
  unfold ok_or in H. case_match; simplify_eq. done.
Qed.

Lemma commit_inv red sample a r a' :
  commit red sample a = (r, a') ->
  match r with
  | Ok v => committed red sample a v a'
  | Err e => refused e a a'
  end.
Proof.
  unfold commit, committed. intros H.
  destruct (persistence red) eqn:Hp.
  - act_simpl H. injection H as <- <-. by destruct a.
  - act_simpl H. injection H as <- <-. by destruct a.
  - destruct (changed red); [cbn [negb] in H|act_simpl H; injection H as <- <-; by destruct a].
    unfold commit_reduction in H. act_simpl H.
    set (bump := if publish_state red then _ else _) in H.
    destruct bump as [candidate|e] eqn:Hb; subst bump.
    2: { injection H as <- <-. destruct (publish_state red); [|done].
         apply bump_err in Hb as ->. split; [by destruct a|done|done|done]. }
    act_step H.
    2: { injection H as <- <-. by apply save_inv, saved_refused in E. }
    apply save_inv, saved_ok in E as [Hst Ha0].
    unfold reconcile_loop_deadlines, emit_events, publish in H. act_simpl H.
    destruct Hst as [Hrev Hbefore Hrow].
    destruct (publish_state red); [apply bump_ok in Hb as [? ?]|apply Ok_inj in Hb];
      act_simpl H; injection H as <- <-; exists candidate;
      split_and?; try done; try by symmetry.
      all: try (split; [exact Hrev|exact Hbefore|exact Hrow]).
      all: rewrite Ha0; reflexivity.
Qed.

(** What committing fails with. *)
Definition commit_error (e : PlaybackActorError) : bool :=
  match e with
  | Persistence _ | PersistenceConflict | PublicationRevisionOverflow => true
  | _ => false
  end.

Lemma commit_fails_with red sample a e a' : commit red sample a = (Err e, a') -> commit_error e = true.
Proof.
  unfold commit. destruct (persistence red); [by intros [=]|by intros [=]|].
  destruct (negb (changed red)); [by intros [=]|]. unfold commit_reduction. intros H. act_simpl H.
  set (bump := if publish_state red then _ else _) in H.
  destruct bump as [candidate|e'] eqn:Hb; subst bump.
  2: { injection H as <- <-. destruct (publish_state red); [|done]. by apply bump_err in Hb as ->. }
  act_step H.
  - unfold reconcile_loop_deadlines, emit_events, publish in H. act_simpl H.
    by destruct (publish_state red).
  - injection H as <- <-. apply save_inv in E as (_ & _ & [[detail ->]|[-> _]]); done.
Qed.

Lemma refused_refl e a : is_fatal e = false -> refused e a a.
Proof. intros He. split; [by destruct a|done|done|]. by intros ->. Qed.

Lemma sample_clock_refused e a a' : sample_clock a = (Err e, a') -> refused e a a'.
Proof.
  unfold sample_clock. intros [= He <-].
  split; [by destruct a|done|done|]. intros ->. by apply clock_error in He as [].
Qed.

(** A step that only read the environment. *)
Definition reads a a1 : Prop := a1 = env a1 a /\ actor_store a1 = actor_store a.

Lemma reads_refl a : reads a a.
Proof. split; [by rewrite env_refl|done]. Qed.

Lemma reads_trans a a1 a2 : reads a a1 -> reads a1 a2 -> reads a a2.
Proof. intros [H1 S1] [H2 S2]. split; [rewrite H2; by rewrite H1|congruence]. Qed.

Lemma sample_clock_reads r a a' : sample_clock a = (r, a') -> reads a a'.
Proof. apply sample_clock_inv. Qed.

Lemma reads_refused e a a1 a' : reads a a1 -> refused e a1 a' -> refused e a a'.
Proof. intros [? ?]. by apply refused_env. Qed.

Lemma reads_fields a a1 :
  reads a a1 ->
  actor_state a1 = actor_state a /\ storage_revision a1 = storage_revision a /\
  config a1 = config a /\ dirty_position a1 = dirty_position a /\
  loop_deadlines_ms a1 = loop_deadlines_ms a /\ catalog a1 = catalog a /\
  connections a1 = connections a /\ next_connection_id a1 = next_connection_id a /\
  published a1 = published a /\ emitted a1 = emitted a /\ own_row a1 = own_row a.
Proof.
  intros [H Hs]. unfold own_row. rewrite Hs. rewrite H. done.
Qed.

Lemma reads_committed red sample a a1 r a' :
  reads a a1 -> committed red sample a1 r a' -> committed red sample a r a'.
Proof.
  intros Hr. pose proof (reads_fields _ _ Hr) as (Hst & Hrev & Hc & Hd & Hl & Hcat & Hcon & Hn & Hp & He & Ho).
  destruct Hr as [Heq Hstore]. unfold committed. rewrite ?Hst, ?He, ?Hp, ?Hl, ?Hcon, ?Hstore.
  assert (env a' a1 = env a' a) as -> by (by rewrite Heq).
  destruct (persistence red), (changed red); try done;
    intros (candidate & ? & ? & [] & ?); exists candidate;
    (split_and!; [done|done|split; congruence|done]).
Qed.

(** The checks of [execute] on the command it is given. *)
Record admitted (resolved : ResolvedPlaybackCommand) a : Prop := {
  admitted_generation : command_requires_catalog (resolved_command resolved) = true ->
    resolved_generation resolved = Some (catalog_generation (catalog a));
  admitted_outputs : validate_outputs (resolved_command resolved) a = Ok ();
  admitted_references :
    catalog_references_valid (resolved_command resolved) (catalog a) (actor_state a) = true
}.

Lemma admission_inv resolved a :
  validate_resolved_command resolved (catalog a) = Ok () ->
  validate_live_references (resolved_command resolved) a = Ok () -> admitted resolved a.
Proof.
  unfold validate_resolved_command, validate_live_references. intros H1 H2. split.
  - intros Hc. rewrite Hc in H1. inv_results. by case_bool_decide; simplify_eq.
  - inv_results. by destruct x.
  - inv_results. by case_match.
Qed.

(** Errors of the checks leave everything alone. *)
Lemma admission_not_fatal resolved a e :
  validate_resolved_command resolved (catalog a) = Err e \/
  validate_live_references (resolved_command resolved) a = Err e -> is_fatal e = false.
Proof.
  unfold validate_resolved_command, validate_live_references, validate_outputs.
  intros [H|H]; repeat (case_match; simplify_eq/=; try done).
  all: try (destruct (resolved_generation resolved); cbn in H; [case_bool_decide|]; by simplify_eq).
  all: try (apply bind_err in H as [H|(? & _ & H)]; repeat (case_match; simplify_eq/=; try done)).
Qed.

Lemma execute_inv resolved a r a' :
  execute resolved a = (r, a') ->
  match r with
  | Err e => refused e a a'
  | Ok v => admitted resolved a /\ exists sample choice red,
      clock_sample (clock_reads a) = Ok sample /\
      reduce (actor_state a) (resolved_command resolved) (mkReductionContext sample choice) = Ok red /\
      committed (with_output_policy (catalog a) red) sample a v a'
  end.
Proof.
  unfold execute. intros H. act_simpl H.
  destruct (validate_resolved_command resolved (catalog a)) as [[]|e] eqn:Hv1.
  2: { injection H as <- <-. eapply refused_refl, admission_not_fatal. by left. }
  destruct (validate_live_references (resolved_command resolved) a) as [[]|e] eqn:Hv2.
  2: { injection H as <- <-. eapply refused_refl, admission_not_fatal. by right. }
  destruct (sample_clock a) as [[sample|e] a1] eqn:Hs.
  2: { injection H as <- <-. by apply sample_clock_refused. }
  assert (clock_sample (clock_reads a) = Ok sample) as Hclock by (by injection Hs).
  apply sample_clock_reads in Hs as Hr1.
  destruct (draw_queue_index (resolved_command resolved) a1) as [choice a2] eqn:Hd.
  apply draw_queue_index_inv in Hd as (He2 & Hs2 & choice' & ->).
  assert (reads a a2) as Hr2 by (by eapply reads_trans).
  pose proof (reads_fields _ _ Hr2) as (Hst & _). rewrite Hst in H.
  destruct (reduce (actor_state a) _ _) as [red|e] eqn:Hred; cbn [map_err] in H.
  2: { injection H as <- <-. eapply reads_refused; [done|]. by apply refused_refl. }
  apply commit_inv in H. destruct r as [v|e].
  - split; [by apply admission_inv|]. exists sample, choice', red.
    split_and!; [done..|]. by eapply reads_committed.
  - by eapply reads_refused.
Qed.

(* ------------------------------------------------------------------ *)
(** ** Connections, catalogs, flush *)

(** What [commit_external_change] does: nothing but the connection table when
    neither changed, else one publication, stored when durable state changed
    or a position was pending. *)
Definition externally_committed (s : PlaybackState) (conns : Connections)
    (durable presence : bool) (sample : ClockSample) a (r : PlaybackCommandResult) a' : Prop :=
  if negb durable && negb presence then
    r = mkPlaybackCommandResult false (publication_revision (actor_state a)) /\
    a' = set_connections conns (env a' a) /\ actor_store a' = actor_store a
  else
    let candidate := with_publication_revision (publication_revision (actor_state a) + 1) s in
    publication_revision (actor_state a) < u64_max /\
    r = mkPlaybackCommandResult true (publication_revision candidate) /\
    a' = set_published (published a ++ [publication candidate conns sample])
           (set_connections conns (set_actor_state candidate (set_dirty_position false
              (set_storage_revision (storage_revision a') (env a' a))))) /\
    (if durable || dirty_position a then stored candidate (monotonic_ms sample) a a'
     else storage_revision a' = storage_revision a /\ own_row a' = own_row a).

Lemma commit_external_change_inv s conns durable presence sample a r a' :
  commit_external_change s conns durable presence sample a = (r, a') ->
  match r with
  | Ok v => externally_committed s conns durable presence sample a v a'
  | Err e => refused e a a'
  end.
Proof.
  unfold commit_external_change, externally_committed. intros H.
  destruct (negb durable && negb presence).
  { act_simpl H. injection H as <- <-. by destruct a. }
  act_simpl H. destruct (bump_publication_revision s _) as [candidate|e] eqn:Hb.
  2: { injection H as <- <-. apply bump_err in Hb as ->. split; [by destruct a|done|done|done]. }
  apply bump_ok in Hb as [Hlt ->]. cbv zeta. unfold publish in H.
  destruct (durable || dirty_position a) eqn:Hd; act_simpl H.
  - set (candidate := with_publication_revision _ s) in *.
    destruct (save candidate (monotonic_ms sample) a) as [[u|e] a1] eqn:Hs;
      act_simpl H; injection H as <- <-; apply save_inv in Hs; [|by apply saved_refused in Hs].
    apply saved_ok in Hs as [[Hrev Hbefore Hrow] Ha1].
    split_and!; [done|done| |by split].
    rewrite Ha1. reflexivity.
  - injection H as <- <-. apply orb_false_iff in Hd as [_ Hd].
    split_and!; try done. destruct a; cbn in *. by rewrite Hd.
Qed.

(** What [replace_catalog] does when it succeeds. *)
Definition catalog_replaced (next : CatalogSnapshot) (content_changed : bool)
    a (r : PlaybackCommandResult) a' : Prop :=
  (generation_library (catalog_generation (catalog a)) <= generation_library (catalog_generation next) /\
   generation_modes (catalog_generation (catalog a)) <= generation_modes (catalog_generation next)) /\
  (next = catalog a /\ content_changed = false /\ a' = a /\
   r = mkPlaybackCommandResult false (publication_revision (actor_state a)) \/
   exists n sample pruned changed, clock_sample n = Ok sample /\
   prune_for_catalog (actor_state a) next (monotonic_ms sample) content_changed
     = Ok (pruned, changed) /\
   if changed then
     let candidate := with_publication_revision (publication_revision (actor_state a) + 1) pruned in
     publication_revision (actor_state a) < u64_max /\
     r = mkPlaybackCommandResult true (publication_revision candidate) /\
     stored candidate (monotonic_ms sample) a a' /\
     a' = set_published (published a ++ [publication candidate (connections a) sample])
            (set_dirty_position false
            (set_loop_deadlines_ms
               (foldl (add_deadline (monotonic_ms sample))
                  (retained_deadlines (looping_sfx (actor_state a)) (looping_sfx candidate) ∅
                     (loop_deadlines_ms a))
                  (looping_sfx candidate))
            (set_actor_state candidate (set_catalog next
            (set_storage_revision (storage_revision a') (env a' a))))))
   else
     r = mkPlaybackCommandResult false (publication_revision (actor_state a)) /\
     a' = set_catalog next (env a' a) /\ actor_store a' = actor_store a).

Lemma replace_catalog_inv next content_changed a r a' :
  replace_catalog next content_changed a = (r, a') ->
  match r with
  | Ok v => catalog_replaced next content_changed a v a'
  | Err e => refused e a a'
  end.
Proof.
  unfold replace_catalog, catalog_replaced. intros H. act_simpl H.
  destruct (_ || _) eqn:Hgen; act_simpl H.
  { injection H as <- <-. by apply refused_refl. }
  apply orb_false_iff in Hgen as [Hl%N.ltb_ge Hm%N.ltb_ge].
  destruct (bool_decide (next = catalog a) && negb content_changed) eqn:Hsame; act_simpl H.
  { injection H as <- <-. split; [done|]. left.
    apply andb_true_iff in Hsame as [->%bool_decide_eq_true Hc]. by destruct content_changed. }
  destruct (sample_clock a) as [[sample|e] a1] eqn:Hs; act_simpl H.
  2: { injection H as <- <-. by apply sample_clock_refused. }
  assert (clock_sample (clock_reads a) = Ok sample) as Hclock by (by injection Hs).
  apply sample_clock_reads in Hs as Hr1. clear Hs. pose proof Hr1 as [Ha1 Hstore1].
  destruct (prune_for_catalog _ _ _ _) as [[pruned changed]|e] eqn:Hp; cbn [map_err] in H.
  2: { injection H as <- <-. eapply reads_refused; [done|]. by apply refused_refl. }
  destruct changed; cbn [negb] in H; act_simpl H.
  2: { injection H as <- <-. split; [done|]. right.
       exists (clock_reads a), sample, pruned, false.
       split_and!; try done; try exact Hstore1. all: by rewrite Ha1. }
  destruct (bump_publication_revision pruned _) as [candidate|e] eqn:Hb; act_simpl H.
  2: { injection H as <- <-. apply bump_err in Hb as ->. eapply reads_refused; [done|].
       split; [by destruct a1|done|done|done]. }
  apply bump_ok in Hb as [Hlt ->].
  set (candidate := with_publication_revision _ pruned) in *.
  destruct (save candidate (monotonic_ms sample) a1) as [[u|e] a2] eqn:Hsv; act_simpl H;
    apply save_inv in Hsv.
  2: { injection H as <- <-. eapply reads_refused; [done|]. by apply saved_refused in Hsv. }
  unfold reconcile_loop_deadlines, publish in H. act_simpl H.
  injection H as <- <-. split; [done|]. right.
  exists (clock_reads a), sample, pruned, true.
  apply saved_ok in Hsv as [[Hrev Hbefore Hrow] Ha2].
  pose proof (reads_fields _ _ Hr1) as (_ & Hrev1 & _ & _ & _ & _ & _ & _ & _ & _ & Hrow1).
  split_and!; try done.
  - split; [by rewrite <- Hrev1|by rewrite <- Hrev1, <- Hrow1|exact Hrow].
  - rewrite Ha2. rewrite Ha1. reflexivity.
Qed.

Lemma flush_position_inv a r a' :
  flush_position a = (r, a') ->
  match r with
  | Err e => refused e a a'
  | Ok _ => if dirty_position a
            then exists n sample, clock_sample n = Ok sample /\
                 stored (actor_state a) (monotonic_ms sample) a a' /\
                 a' = set_dirty_position false
                        (set_storage_revision (storage_revision a') (env a' a))
            else a' = a
  end.
Proof.
  unfold flush_position. intros H. act_simpl H.
  destruct (dirty_position a); cbn [negb] in H; act_simpl H; [|by injection H as <- <-].
  destruct (sample_clock a) as [[sample|e] a1] eqn:Hs; act_simpl H.
  2: { injection H as <- <-. by apply sample_clock_refused. }
  assert (clock_sample (clock_reads a) = Ok sample) as Hclock by (by injection Hs).
  apply sample_clock_reads in Hs as Hr1. clear Hs. pose proof Hr1 as [Ha1 Hstore1].
  destruct (save (actor_state a) (monotonic_ms sample) a1) as [[u|e] a2] eqn:Hsv; act_simpl H;
    apply save_inv in Hsv; injection H as <- <-.
  2: { eapply reads_refused; [done|]. by apply saved_refused in Hsv. }
  exists (clock_reads a), sample. apply saved_ok in Hsv as [[Hrev Hbefore Hrow] Ha2].
  pose proof (reads_fields _ _ Hr1) as (_ & Hrev1 & _ & _ & _ & _ & _ & _ & _ & _ & Hrow1).
  split_and!; [done| |].
  - split; [by rewrite <- Hrev1|by rewrite <- Hrev1, <- Hrow1|exact Hrow].
  - rewrite Ha2. by rewrite Ha1.
Qed.

Lemma open_connection_inv a r a' :
  open_connection a = (r, a') ->
  match r with
  | Err e => e = ConnectionIdOverflow /\ a' = a
  | Ok id => id = next_connection_id a /\ id < u64_max /\
      a' = set_connections (<[id := mkConnectionRecord None]> (connections a))
             (set_next_connection_id (id + 1) a)
  end.
Proof.
  unfold open_connection. destruct (u64_checked_add _ _) as [next|] eqn:Hadd; intros [= <- <-]; [|done].
  apply u64_checked_add_Some in Hadd as [-> ?]. split_and!; [done|lia|done].
Qed.

(* ------------------------------------------------------------------ *)
(** ** Registrations *)

Lemma reduce_direct_remove s b device_id sample :
  reduce_direct (s, b) (RemoveActiveOutput device_id) sample
  = Ok ((remove_active_output device_id s).1, b || (remove_active_output device_id s).2).
Proof.
  unfold reduce_direct, reduce. cbn [apply_command fst snd]. unfold durable.
  destruct (remove_active_output device_id s) as [s' []]; done.
Qed.

Lemma reduce_direct_register s b device_id activate sample :
  reduce_direct (s, b) (RegisterDevice device_id activate) sample
  = Ok ((register_device device_id activate s).1, b || (register_device device_id activate s).2).
Proof.
  unfold reduce_direct, reduce. cbn [apply_command fst snd]. unfold durable.
  destruct (register_device device_id activate s) as [s' []]; done.
Qed.

(** The state once the previous client id of the connection is retired. *)
Definition retired (conns : Connections) (connection_id : N)
    (previous : option ClientRegistration) (registration : ClientRegistration)
    (s : PlaybackState) : PlaybackState * bool :=
  match previous with
  | Some previous =>
      if negb (bool_decide (registration_client_id previous = registration_client_id registration))
         && negb (has_registered_sibling conns connection_id (registration_client_id previous))
      then remove_active_output (registration_client_id previous) s
      else (s, false)
  | None => (s, false)
  end.

Definition presence_changed (before after : Connections) : bool :=
  negb (bool_decide (connected_clients before = connected_clients after)).

Definition connection_registered (connection_id : N) (registration : ClientRegistration)
    a (r : PlaybackCommandResult) a' : Prop :=
  validate_registration registration = Ok () /\
  exists record, connections a !! connection_id = Some record /\
  (record_registration record = Some registration /\ a' = a /\
   r = mkPlaybackCommandResult false (publication_revision (actor_state a)) \/
   exists sample,
   let conns := <[connection_id := mkConnectionRecord (Some registration)]> (connections a) in
   let s1 := retired conns connection_id (record_registration record) registration
               (actor_state a) in
   let s2 := register_device (registration_client_id registration)
               (registration_is_default_output registration) s1.1 in
   externally_committed s2.1 conns (s1.2 || s2.2) (presence_changed (connections a) conns)
     sample a r a').

Lemma reads_externally s conns durable presence sample a a1 r a' :
  reads a a1 -> externally_committed s conns durable presence sample a1 r a' ->
  externally_committed s conns durable presence sample a r a'.
Proof.
  intros Hr. pose proof (reads_fields _ _ Hr)
    as (Hst & Hrev & Hc & Hd & Hl & Hcat & Hcon & Hn & Hp & He & Ho).
  destruct Hr as [Heq Hstore]. unfold externally_committed. rewrite Hst, Hd, Hp, Hstore, Hrev, Ho.
  assert (env a' a1 = env a' a) as -> by (by rewrite Heq).
  destruct (negb durable && negb presence); [done|]. cbv zeta.
  intros (? & ? & ? & Hs). split_and!; [done..|].
  destruct (durable || dirty_position a); [|done].
  destruct Hs. split; congruence.
Qed.

Lemma register_connection_inv connection_id registration a r a' :
  register_connection connection_id registration a = (r, a') ->
  match r with
  | Ok v => connection_registered connection_id registration a v a'
  | Err e => refused e a a'
  end.
Proof.
  unfold register_connection, connection_registered. intros H. act_simpl H.
  destruct (validate_registration registration) as [[]|e] eqn:Hv; act_simpl H.
  2: { injection H as <- <-. apply refused_refl. unfold validate_registration in Hv.
       by repeat case_match; simplify_eq. }
  destruct (connections a !! connection_id) as [record|] eqn:Hrec; act_simpl H.
  2: { injection H as <- <-. by apply refused_refl. }
  case_bool_decide as Hsame; act_simpl H.
  { injection H as <- <-. split; [done|]. exists record. split; [done|]. by left. }
  destruct (sample_clock a) as [[sample|e] a1] eqn:Hs; act_simpl H.
  2: { injection H as <- <-. by apply sample_clock_refused. }
  apply sample_clock_reads in Hs as Hr1.
  set (conns := <[connection_id := _]> (connections a)) in *.
  set (s1 := retired conns connection_id (record_registration record) registration
               (actor_state a)).
  assert (retire_previous conns connection_id (record_registration record) registration sample
            (actor_state a) = Ok s1) as Hret.
  { unfold retire_previous, s1, retired. destruct (record_registration record) as [p|]; [|done].
    destruct (negb _ && negb _); [|done]. rewrite reduce_direct_remove.
    by rewrite orb_false_l, <- surjective_pairing. }
  rewrite Hret in H. rewrite (surjective_pairing s1) in H.
  rewrite reduce_direct_register in H. cbn [fst snd] in H.
  apply commit_external_change_inv in H. destruct r as [v|e].
  - split; [done|]. exists record. split; [done|]. right. exists sample. cbv zeta.
    by eapply reads_externally.
  - by eapply reads_refused.
Qed.

Definition connection_closed (connection_id : N) a (r : PlaybackCommandResult) a' : Prop :=
  exists record sample, connections a !! connection_id = Some record /\
  let conns := delete connection_id (connections a) in
  let s1 := match record_registration record with
            | Some registration =>
                if existsb (record_has_client (registration_client_id registration))
                     (connection_records conns)
                then (actor_state a, false)
                else remove_active_output (registration_client_id registration) (actor_state a)
            | None => (actor_state a, false)
            end in
  externally_committed s1.1 conns s1.2 (presence_changed (connections a) conns) sample a r a'.

Lemma disconnect_inv connection_id a r a' :
  disconnect connection_id a = (r, a') ->
  match r with
  | Ok v => connection_closed connection_id a v a'
  | Err e => refused e a a'
  end.
Proof.
  unfold disconnect, connection_closed. intros H. act_simpl H.
  destruct (connections a !! connection_id) as [record|] eqn:Hrec; act_simpl H.
  2: { injection H as <- <-. by apply refused_refl. }
  destruct (sample_clock a) as [[sample|e] a1] eqn:Hs; act_simpl H.
  2: { injection H as <- <-. by apply sample_clock_refused. }
  apply sample_clock_reads in Hs as Hr1.
  set (conns := delete connection_id (connections a)) in *.
  match type of H with (match ?step with Ok _ => _ | Err _ => _ end = _) => set (st := step) in H end.
  assert (exists s1 : PlaybackState * bool, st = Ok s1 /\
    s1 = match record_registration record with
         | Some registration =>
             if existsb (record_has_client (registration_client_id registration))
                  (connection_records conns)
             then (actor_state a, false)
             else remove_active_output (registration_client_id registration) (actor_state a)
         | None => (actor_state a, false)
         end) as (s1 & Hst & Hs1).
  { subst st. destruct (record_registration record) as [reg|]; [|eauto].
    destruct (existsb _ _); cbn [negb]; [eauto|]. rewrite reduce_direct_remove.
    eexists. split; [done|]. by rewrite orb_false_l, <- surjective_pairing. }
  rewrite Hst in H. apply commit_external_change_inv in H. destruct r as [v|e].
  - exists record, sample. split; [done|]. cbv zeta. rewrite <- Hs1. by eapply reads_externally.
  - by eapply reads_refused.
Qed.

(** [refresh_client_metadata] publishes, without a new revision, when the
    projection changed; a clock failure leaves the refreshed table behind. *)
Definition metadata_refreshed (client_id : string) (remembered_name : option string)
    (is_default_output : bool) a (r : result PlaybackActorError PlaybackCommandResult) a' : Prop :=
  let conns := refresh_record client_id remembered_name is_default_output <$> connections a in
  actor_store a' = actor_store a /\
  match r with
  | Ok v =>
      v = mkPlaybackCommandResult (presence_changed (connections a) conns)
            (publication_revision (actor_state a)) /\
      if presence_changed (connections a) conns
      then exists sample, a' = set_published (published a ++ [publication (actor_state a) conns sample])
                                 (set_connections conns (env a' a))
      else a' = set_connections conns a
  | Err e => a' = a /\ is_fatal e = false \/
      clock_sample (clock_reads a) = Err e /\ a' = set_connections conns (env a' a)
  end.

Lemma refresh_client_metadata_inv client_id remembered_name is_default_output a r a' :
  refresh_client_metadata client_id remembered_name is_default_output a = (r, a') ->
  metadata_refreshed client_id remembered_name is_default_output a r a'.
Proof.
  unfold refresh_client_metadata, metadata_refreshed. intros H. cbv zeta.
  destruct (negb (length_within MAX_CLIENT_ID_LENGTH client_id)); act_simpl H.
  { injection H as <- <-. split; [done|]. by left. }
  destruct (remembered_name_invalid remembered_name); act_simpl H.
  { injection H as <- <-. split; [done|]. by left. }
  set (conns := refresh_record _ _ _ <$> connections a) in *.
  change (negb (bool_decide (connected_clients (connections a) =
            connected_clients (connections (set_connections conns a)))))
    with (presence_changed (connections a) conns) in H.
  destruct (presence_changed (connections a) conns); act_simpl H.
  - unfold sample_clock, publish in H. act_simpl H.
    destruct (clock_sample _) as [sample|e] eqn:Hs; injection H as <- <-.
    + split; [done|]. split; [done|]. by exists sample.
    + split; [done|]. right. split; [done|by destruct a].
  - injection H as <- <-. split; [done|]. by split.
Qed.

End Lemmas.
