(* ===== verification/ActorSpec.v ===== *)
(** * The playback actor as a transition system

    [actor_step] lists the atomic steps the actor takes; [run_refines_steps]
    shows that whatever sequence of wake-ups the select loop meets, the actor
    only takes such steps, and stops at the first error without having changed
    anything. Invariants of [actor_step] are invariants of every run. *)

From S2P Require Import Prelude PlaybackState Reducer ReducerLemmas Persistence Store.
From S2P Require Import Catalog Presence Actor ActorMessages ActorLemmas.
From stdpp Require Import relations.

#[local] Open Scope N_scope.

Section Steps.
Context {text store : Type}.
Context `{!SerdeJson text} `{!PlaybackStateStore text store}.
Context `{!PlaybackStateStoreSpec text store}.
Context {clk : PlaybackClock} {clk_spec : PlaybackClockSpec} {rnd : QueueRandom}.

#[local] Notation actor := (PlaybackActor store).
Implicit Types (a : actor).

(** The commands the clients may send; the timers of the actor send the other
    two whatever the clients do. *)
Variable allowed : PlaybackCommand -> Prop.
Hypothesis timers_allowed : forall follow expected,
  allowed (AmbientSkipNext follow expected) /\ allowed (InterruptSkipNext expected).

Definition wakeup_allowed (wakeup : Wakeup) : Prop :=
  match wakeup with
  | Received (Execute resolved) => allowed (resolved_command resolved)
  | _ => True
  end.

Inductive actor_step a a' : Prop :=
| Step_Read : reads a a' -> actor_step a a'
| Step_Refused e : is_fatal e = false -> refused e a a' -> actor_step a a'
| Step_Command resolved n sample choice red v :
    allowed (resolved_command resolved) -> admitted resolved a -> clock_sample n = Ok sample ->
    reduce (actor_state a) (resolved_command resolved) (mkReductionContext sample choice) = Ok red ->
    committed (with_output_policy (catalog a) red) sample a v a' ->
    actor_step a a'
| Step_Open id :
    id = next_connection_id a ->
    a' = set_connections (<[id := mkConnectionRecord None]> (connections a))
           (set_next_connection_id (id + 1) a) ->
    actor_step a a'
| Step_Register id registration v : connection_registered id registration a v a' -> actor_step a a'
| Step_Close id v : connection_closed id a v a' -> actor_step a a'
| Step_Refresh client_id remembered_name is_default_output r :
    metadata_refreshed client_id remembered_name is_default_output a r a' -> actor_step a a'
| Step_Catalog next content_changed v :
    catalog_replaced next content_changed a v a' -> actor_step a a'
| Step_Flush n sample :
    dirty_position a = true -> clock_sample n = Ok sample ->
    stored (actor_state a) (monotonic_ms sample) a a' ->
    a' = set_dirty_position false (set_storage_revision (storage_revision a') (env a' a)) ->
    actor_step a a'
| Step_Tick sample id looping :
    find_loop id (looping_sfx (actor_state a)) = Some looping ->
    a' = set_emitted (emitted a ++ [SfxFired (loop_soundboard_id looping)
                                      (loop_item_path looping) (loop_volume looping)])
           (set_loop_deadlines_ms
              (<[id := u64_saturating_add (monotonic_ms sample) (loop_interval_ms looping)]>
                 (loop_deadlines_ms a)) a) ->
    actor_step a a'
| Step_Forget id :
    find_loop id (looping_sfx (actor_state a)) = None ->
    a' = set_loop_deadlines_ms (delete id (loop_deadlines_ms a)) a ->
    actor_step a a'.

Definition actor_steps : relation actor := rtc actor_step.

(** A run that is still going ends in steps; one that stopped ends in a refused
    operation after some steps. *)
Definition outcome {A} a (r : result PlaybackActorError A) a' : Prop :=
  match r with
  | Ok _ => actor_steps a a'
  | Err e => exists a1, actor_steps a a1 /\ refused e a1 a'
  end.

Lemma outcome_refused {A} e a a' : refused e a a' -> outcome (A := A) a (Err e) a'.
Proof. intros. exists a. split; [constructor|done]. Qed.

Lemma outcome_trans {A} a a1 (r : result PlaybackActorError A) a' :
  actor_steps a a1 -> outcome a1 r a' -> outcome a r a'.
Proof.
  intros H. destruct r; cbn; [by intros; etrans|].
  intros (a2 & ? & ?). exists a2. split; [by etrans|done].
Qed.

Lemma outcome_step {A} a (v : A) a' : actor_step a a' -> outcome a (Ok v) a'.
Proof. apply rtc_once. Qed.

Lemma execute_outcome resolved a r a' :
  allowed (resolved_command resolved) -> execute resolved a = (r, a') -> outcome a r a'.
Proof.
  intros Hallowed H%execute_inv. destruct r; [|by apply outcome_refused].
  destruct H as (? & sample & choice & red & ? & ? & ?). by eapply outcome_step, Step_Command.
Qed.

Lemma execute_ambient_skip_next_outcome expected a r a' :
  execute_ambient_skip_next expected a = (r, a') -> outcome a r a'.
Proof. unfold execute_ambient_skip_next. intros H. act_simpl H.
  apply execute_outcome in H; [done|]. exact (proj1 (timers_allowed _ _)).
Qed.

Lemma register_outcome id registration a r a' :
  register_connection id registration a = (r, a') -> outcome a r a'.
Proof.
  intros H%register_connection_inv. destruct r; [by eapply outcome_step, Step_Register|].
  by apply outcome_refused.
Qed.

Lemma disconnect_outcome id a r a' : disconnect id a = (r, a') -> outcome a r a'.
Proof.
  intros H%disconnect_inv. destruct r; [by eapply outcome_step, Step_Close|].
  by apply outcome_refused.
Qed.

Lemma replace_catalog_outcome next content_changed a r a' :
  replace_catalog next content_changed a = (r, a') -> outcome a r a'.
Proof.
  intros H%replace_catalog_inv. destruct r; [by eapply outcome_step, Step_Catalog|].
  by apply outcome_refused.
Qed.

Lemma flush_outcome a r a' : flush_position a = (r, a') -> outcome a r a'.
Proof.
  intros H%flush_position_inv. destruct r; [|by apply outcome_refused].
  destruct (dirty_position a) eqn:Hd; [|subst; constructor].
  destruct H as (n & sample & ? & ? & ?). by eapply outcome_step, Step_Flush.
Qed.

Lemma fire_due_loop_outcome sample id a r a' :
  fire_due_loop sample id a = (r, a') -> r = Ok () /\ actor_step a a'.
Proof.
  unfold fire_due_loop, emit_events. intros H. act_simpl H.
  destruct (find_loop id _) as [looping|] eqn:Hf; act_simpl H; injection H as <- <-;
    (split; [done|]).
  - by eapply Step_Tick.
  - by eapply Step_Forget.
Qed.

Lemma fire_due_loops_outcome sample ids a r a' :
  fire_due_loops sample ids a = (r, a') -> r = Ok () /\ actor_steps a a'.
Proof.
  revert a. induction ids as [|id ids IH]; intros a H; cbn [fire_due_loops] in H.
  { act_simpl H. injection H as <- <-. split; [done|constructor]. }
  act_step H; apply fire_due_loop_outcome in E as [E Hstep]; [|done].
  apply IH in H as [-> Hsteps]. split; [done|]. by eapply rtc_l.
Qed.

Lemma run_due_effects_outcome a r a' : run_due_effects a = (r, a') -> outcome a r a'.
Proof.
  unfold run_due_effects. intros H. act_step H.
  2: { injection H as <- <-. by apply outcome_refused, sample_clock_refused. }
  apply sample_clock_reads in E.
  act_step H; apply fire_due_loops_outcome in E0 as [E0 Hsteps]; [|done].
  eapply outcome_trans; [eapply rtc_l; [by eapply Step_Read|exact Hsteps]|].
  destruct (due_plan _ _) as [plan|]; [|act_simpl H; injection H as <- <-; constructor].
  assert (allowed (resolved_command (effect_command plan a1))) as Hallowed.
  { unfold effect_command. destruct (plan_lane plan);
      [exact (proj2 (timers_allowed None _))|exact (proj1 (timers_allowed _ _))]. }
  act_step H; (apply execute_outcome in E1; [|done]); by injection H as <- <-.
Qed.

Lemma reply_command_outcome operation a reply r a' :
  (forall r a', operation a = (r, a') -> outcome a r a') ->
  reply_command operation a = (reply, r, a') -> outcome a r a'.
Proof.
  unfold reply_command. intros Hop. destruct (operation a) as [v a1] eqn:E.
  specialize (Hop _ _ eq_refl). intros [= _ <- <-]. destruct v as [v|e]; [done|].
  destruct (is_fatal e) eqn:Hf; [done|]. destruct Hop as (a2 & Hs & Hr).
  eapply rtc_r; [exact Hs|]. by eapply Step_Refused.
Qed.

Lemma handle_message_outcome message a reply r a' :
  wakeup_allowed (Received message) -> handle_message message a = (reply, r, a') -> outcome a r a'.
Proof.
  destruct message; cbn [handle_message wakeup_allowed]; intros Hallowed;
    try (apply reply_command_outcome; intros r' a1);
    eauto using execute_outcome, execute_ambient_skip_next_outcome, register_outcome,
      disconnect_outcome, replace_catalog_outcome.
  - unfold snapshot. intros H. act_simpl H. unfold sample_clock in H.
    destruct (clock_sample _); injection H as _ <- <-; apply rtc_once, Step_Read; by destruct a.
  - destruct (open_connection a) as [id a1] eqn:E. apply open_connection_inv in E.
    intros [= _ <- <-]. destruct id as [id|e]; [|destruct E as [_ ->]; constructor].
    destruct E as (? & _ & ?). by apply rtc_once, (Step_Open _ _ id).
  - destruct (refresh_client_metadata _ _ _ a) as [v a1] eqn:E.
    apply refresh_client_metadata_inv in E. intros [= _ <- <-].
    by eapply rtc_once, Step_Refresh.
  - unfold replace_library_catalog. intros H. act_simpl H. by apply replace_catalog_outcome in H.
  - unfold replace_mode_catalog. intros H. act_simpl H. by apply replace_catalog_outcome in H.
Qed.

Lemma next_effect_delay_inv a r a' :
  next_effect_delay a = (r, a') ->
  match r with Ok _ => reads a a' | Err e => refused e a a' end.
Proof.
  unfold next_effect_delay. intros H. act_step H; injection H as <- <-.
  - by apply sample_clock_reads in E.
  - by apply sample_clock_refused in E.
Qed.

Lemma run_turn_outcome wakeup a r a' :
  wakeup_allowed wakeup -> run_turn wakeup a = (r, a') -> outcome a r a'.
Proof.
  unfold run_turn. intros Hallowed H. act_step H; apply next_effect_delay_inv in E.
  2: { injection H as <- <-. by apply outcome_refused. }
  eapply outcome_trans; [by apply rtc_once, Step_Read|].
  destruct wakeup as [| |message| |].
  - act_simpl H. injection H as <- <-. constructor.
  - act_simpl H. injection H as <- <-. constructor.
  - unfold receive in H. destruct (handle_message message _) as [[reply s] a1] eqn:Hm.
    apply handle_message_outcome in Hm; [|done]. destruct s; injection H as <- <-; exact Hm.
  - destruct r0; act_simpl H; [|injection H as <- <-; constructor].
    act_step H; apply run_due_effects_outcome in E0; by injection H as <- <-.
  - act_step H; apply flush_outcome in E0; by injection H as <- <-.
Qed.

Lemma run_outcome wakeups a r a' :
  Forall wakeup_allowed wakeups -> run wakeups a = (r, a') -> outcome a r a'.
Proof.
  intros Hall. revert a. induction Hall as [|wakeup wakeups Hw _ IH]; intros a H; cbn [run] in H.
  { act_simpl H. injection H as <- <-. constructor. }
  act_step H; (apply run_turn_outcome in E; [|done]).
  - eapply outcome_trans; [exact E|].
    destruct r0; [by apply IH|by apply flush_outcome].
  - injection H as <- <-. exact E.
Qed.

(** C18: the actor refines its transition system: whatever sequence of
    wake-ups the select loop meets, a run that is still going is a sequence of
    atomic steps, each a read, one complete commit or one refused operation, and
    a run that stopped on an error is such a sequence followed by an operation
    that was refused and changed nothing of the actor. *)
Theorem run_refines_steps wakeups a r a' :
  Forall wakeup_allowed wakeups -> run wakeups a = (r, a') ->
  match r with
  | Ok _ => actor_steps a a'
  | Err e => exists a1, actor_steps a a1 /\ refused e a1 a'
  end.
Proof. apply run_outcome. Qed.

(** An invariant of the steps that a refused operation cannot break holds at
    the end of every run. *)
Lemma run_invariant (I : actor -> Prop) wakeups a r a' :
  (forall a a', actor_step a a' -> I a -> I a') ->
  (forall e a a', refused e a a' -> I a -> I a') ->
  Forall wakeup_allowed wakeups -> run wakeups a = (r, a') -> I a -> I a'.
Proof.
  intros Hstep Href Hall H%run_outcome Ha; [|done].
  assert (forall a1, actor_steps a a1 -> I a1) as Hsteps.
  { intros a1 Hs. revert Ha. clear H. induction Hs; eauto. }
  destruct r; cbn in H; [auto|]. destruct H as (a1 & ? & ?). eauto.
Qed.

End Steps.

(** Every command, for the invariants that no command can break. *)
Definition any_command (command : PlaybackCommand) : Prop := True.

Lemma any_wakeup wakeups : Forall (wakeup_allowed any_command) wakeups.
Proof. apply Forall_true. by intros [| |[]| |]. Qed.

(** The session up to the shutdown, and one that ends on a failing write. *)
Lemma run_refines_steps_witness :
  actor_steps any_command (spawned empty_table) running /\
  exists e a1 a', run session_start (spawned (mkSqliteStorage ∅ [NoFault; NoFault; NoFault; FailBefore "full"]))
    = (Err e, a') /\ refused e a1 a'.
Proof.
  split.
  - apply (run_refines_steps any_command (fun _ _ => conj I I) session_start (spawned empty_table)
      (Ok ()) running (any_wakeup _)).
    vm_compute. reflexivity.
  - set (a := spawned _). destruct (run session_start a) as [[u|e] a'] eqn:H.
    + exfalso. apply (f_equal (fun x => match x.1 with Ok _ => true | Err _ => false end)) in H.
      vm_compute in H. discriminate H.
    + pose proof (run_refines_steps any_command (fun _ _ => conj I I) session_start a (Err e) a'
        (any_wakeup _) H) as (a1 & _ & Href).
      exists e, a1, a'. split; [reflexivity|exact Href].
Defined.
