(* ===== verification/ActorSafety.v ===== *)
(** * Safety of the playback actor

    [actor_wf] gathers the invariants of the actor's live state: the clock and
    output invariants of the reducer, the catalog invariant, unique loops and
    exactly one deadline per running loop. They hold from the spawn on, under
    every sequence of wake-ups, whatever the store, clock and commands do. *)

From S2P Require Import Prelude PlaybackState Reducer ReducerLemmas LaneSpec ReducerSpec.
From S2P Require Import CommitSpec Persistence Store Catalog References.
From S2P Require Import CatalogSpec Presence Actor ActorMessages ActorLemmas ActorSpec.
From S2P Require Import ActorMessages.

#[local] Open Scope N_scope.

Record state_wf (known : CatalogSnapshot) (s : PlaybackState) : Prop := {
  wf_clock : clock_wf s;
  wf_outputs : outputs_ok s;
  wf_catalog : catalog_ok known s;
  wf_loop_ids : NoDup (loop_ids s)
}.

(** The publication revision is not part of what [state_wf] says. *)
Lemma state_wf_revision known s n : state_wf known s -> state_wf known (with_publication_revision n s).
Proof. intros [[] ? [] ?]. split; try done; by split. Qed.

(* ------------------------------------------------------------------ *)
(** ** Loop deadlines *)

Lemma find_loop_Some id loops looping :
  find_loop id loops = Some looping -> looping ∈ loops /\ loop_id looping = id.
Proof.
  unfold find_loop. intros [Hin H]%find_some. apply bool_decide_eq_true in H.
  split; [by apply list_elem_of_In|done].
Qed.

Lemma find_loop_None id loops : find_loop id loops = None -> id ∉ map loop_id loops.
Proof.
  unfold find_loop. intros H Hin. apply list_elem_of_In, in_map_iff in Hin as (l & Hid & Hin).
  pose proof (find_none _ _ H _ Hin) as Hne. cbn in Hne. by apply bool_decide_eq_false in Hne.
Qed.

Lemma add_deadlines_dom now loops deadlines :
  dom (foldl (add_deadline now) deadlines loops)
  = dom deadlines ∪ list_to_set (map loop_id loops).
Proof.
  revert deadlines. induction loops as [|l loops IH]; intros deadlines; cbn; [set_solver|].
  rewrite IH. unfold add_deadline. destruct (deadlines !! loop_id l) eqn:Hl.
  - apply elem_of_dom_2 in Hl. set_solver.
  - rewrite dom_insert_L. set_solver.
Qed.

Lemma retained_deadlines_dom previous current restarted deadlines id :
  id ∈ dom (retained_deadlines previous current restarted deadlines) ->
  id ∈ map loop_id current.
Proof.
  unfold retained_deadlines. intros [d Hd]%elem_of_dom.
  apply map_lookup_filter_Some in Hd as [_ [_ Hu]]. cbn in Hu. unfold loop_unchanged in Hu.
  destruct (find_loop id current) as [l|] eqn:Hf; [|done].
  apply find_loop_Some in Hf as [Hin <-]. apply list_elem_of_In, in_map. by apply list_elem_of_In.
Qed.

Lemma reconciled_dom now previous current restarted deadlines :
  dom (foldl (add_deadline now) (retained_deadlines previous current restarted deadlines) current)
  = list_to_set (map loop_id current).
Proof.
  rewrite add_deadlines_dom. apply set_eq. intros id. rewrite elem_of_union, elem_of_list_to_set.
  split; [|auto]. intros [H|H]; [|done]. by apply retained_deadlines_dom in H.
Qed.

(* ------------------------------------------------------------------ *)
(** ** Commands *)

Lemma admitted_command_wf known s command context red :
  state_wf known s -> catalog_references_valid command known s = true ->
  reduce s command context = Ok red -> state_wf known (next_state (with_output_policy known red)).
Proof.
  intros [Hc Ho [Htr Href Hpol] Hl] Hv (pub & per & H & _)%reduce_inv.
  assert (clock_wf (next_state red)) as Hc'.
  { eapply lane_step_wf; [by eapply apply_command_lanes|done]. }
  apply apply_command_outputs in H as Hout. destruct Hout as [Hm Hout].
  assert (outputs_ok (next_state red)) as Ho' by by eapply outputs_step_ok.
  assert (NoDup (loop_ids (next_state red))) as Hl' by by eapply apply_command_loop_ids.
  assert (forall tracks, catalog_tracks known = Some tracks ->
    forall t, t ∈ held_tracks (next_state red) -> is_Some (tracks !! t)) as Htr'.
  { intros tracks Hk t Ht. apply (apply_command_tracks _ _ _ _ _ _ _ _ H) in Ht as [Ht|Ht].
    - by eapply Htr.
    - by eapply admitted_tracks_known. }
  unfold with_output_policy. destruct (catalog_modes known) as [modes|] eqn:Hmodes.
  2: { split; [done|done| |done]. split; [done|congruence..]. }
  destruct (apply_output_policy _ _) as [s' b] eqn:Hp. cbn.
  apply apply_output_policy_spec in Hp as (Hmul & Hok & Hset & Hrefs & Hloops & _).
  split; [by eapply settings_clock_wf|done| |unfold loop_ids in *; by rewrite Hloops].
  split; rewrite ?Hmodes.
  - intros tracks Hk t. unfold held_tracks. destruct Hset as (_ & _ & -> & ->). by apply Htr'.
  - intros ? [= <-]. rewrite Hrefs. eapply admitted_refs_ok; try done; [by apply Href|].
    by eapply apply_command_refs.
  - intros ? [= <-]. rewrite Hmul. unfold active_mode_allows_multiple_outputs.
    unfold mode_refs in Hrefs. by injection Hrefs as -> _ _.
Qed.

Lemma with_output_policy_intent known red :
  persistence (with_output_policy known red) = persistence red /\
  publish_state (with_output_policy known red) = publish_state red /\
  events (with_output_policy known red) = events red.
Proof.
  unfold with_output_policy. destruct (catalog_modes known); [|done].
  by destruct (apply_output_policy _ _).
Qed.

Lemma report_position_loops device position sample s :
  looping_sfx (report_position device position sample s) = looping_sfx s.
Proof.
  pose proof (report_position_frame device position sample s) as Hf.
  unfold lane_frame, settings_of in Hf. congruence.
Qed.

(** On a state that already follows the policy of its mode, nothing is left
    to apply. *)
Lemma with_output_policy_id known red :
  (forall modes, catalog_modes known = Some modes -> multiple_outputs (next_state red)
     = active_mode_allows_multiple_outputs (next_state red) modes) ->
  outputs_ok (next_state red) -> with_output_policy known red = red.
Proof.
  unfold with_output_policy. intros Hpol Ho. destruct (catalog_modes known) as [modes|]; [|done].
  destruct (apply_output_policy _ _) as [s' b] eqn:Hp.
  apply apply_output_policy_spec in Hp as (_ & _ & _ & _ & _ & _ & _ & _ & Hid & _).
  destruct Hid as [-> ->]; [by apply Hpol|done|]. rewrite orb_false_r. by destruct red.
Qed.

(** A throttled reduction is a report. *)
Lemma throttled_report known s command context red :
  state_wf known s -> reduce s command context = Ok red ->
  persistence (with_output_policy known red) = PersistenceIntent_Throttled ->
  with_output_policy known red = red /\ publish_state red = false /\ events red = [] /\
  exists device position, next_state red = report_position device position (clock context) s.
Proof.
  intros [_ Ho [_ _ Hpol] _] Hred. destruct (with_output_policy_intent known red) as [-> _].
  intros Hthr. pose proof Hred as (pub & per & H & Hflags)%reduce_inv.
  assert (is_report command = true) as Hrep.
  { destruct (negb (changed red) && _) eqn:Hcond; destruct Hflags as [_ Hper]; [congruence|].
    rewrite Hthr in Hper. subst per.
    pose proof (apply_command_flags _ _ _ _ _ _ _ _ H) as (_ & Himm & Hnone).
    destruct (is_report command) eqn:Hrep; [done|].
    destruct (changed red); [by destruct (Himm eq_refl eq_refl)|].
    destruct (Hnone eq_refl) as [Hevs|[_ ?]]; [|done]. by rewrite Hevs in Hcond. }
  destruct command; try done. cbn [apply_command] in H. injection H as Hs _ Hpub0 _ Hev.
  destruct (negb (changed red) && _); destruct Hflags as [Hpub Hper]; [congruence|].
  split_and!; [|congruence|done|by eexists _, _].
  apply with_output_policy_id; rewrite <- Hs.
  - intros modes Hk. pose proof (report_position_frame device_id (N.min position_ms MAX_POSITION_MS)
      (clock context) s) as Hf. unfold lane_frame, settings_of in Hf.
    injection Hf as _ Hmode _ Hmul _ _ _ _ _ _ _ _.
    rewrite Hmul, (Hpol _ Hk). unfold active_mode_allows_multiple_outputs. by rewrite Hmode.
  - pose proof (report_position_frame device_id (N.min position_ms MAX_POSITION_MS)
      (clock context) s) as Hf. unfold lane_frame, settings_of in Hf.
    injection Hf as _ _ Hout Hmul _ _ _ _ _ _ _ _. unfold outputs_ok. by rewrite Hout, Hmul.
Qed.

(* ------------------------------------------------------------------ *)
(** ** Presence *)

(** The two operations presence uses change only outputs and volumes. *)
Definition presence_step (s s' : PlaybackState) : Prop :=
  settings_step s s' /\ mode_refs s' = mode_refs s /\ looping_sfx s' = looping_sfx s /\
  multiple_outputs s' = multiple_outputs s /\ (outputs_ok s -> outputs_ok s').

Lemma presence_step_refl s : presence_step s s.
Proof. by split_and!. Qed.

Lemma presence_step_trans s1 s2 s3 :
  presence_step s1 s2 -> presence_step s2 s3 -> presence_step s1 s3.
Proof.
  intros ((? & ? & ? & ?) & ? & ? & ? & ?) ((? & ? & ? & ?) & ? & ? & ? & ?).
  split_and!; try congruence; [split_and!; congruence|auto].
Qed.

Lemma remove_presence device s : presence_step s (remove_active_output device s).1.
Proof.
  split_and!; try done. intros Hok Hm. cbn in *. etrans; [apply retain_length|by apply Hok].
Qed.

Lemma register_presence device activate s : presence_step s (register_device device activate s).1.
Proof.
  destruct (register_device device activate s) as [s' b] eqn:H. cbn.
  pose proof H as Hout. apply register_device_outputs in Hout as [Hm Hout].
  split_and!; [by eapply register_device_settings| | |done|intros; by eapply outputs_step_ok].
  - unfold register_device in H. repeat case_match; by simplify_eq.
  - unfold register_device in H. repeat case_match; by simplify_eq.
Qed.

Lemma retired_presence conns id previous registration s :
  presence_step s (retired conns id previous registration s).1.
Proof.
  unfold retired. destruct previous; [case_match|]; auto using presence_step_refl, remove_presence.
Qed.

Lemma presence_wf known s s' : presence_step s s' -> state_wf known s -> state_wf known s'.
Proof.
  intros (Hset & Hrefs & Hloops & Hm & Ho) [Hc Hok [Htr Href Hpol] Hl].
  split; [by eapply settings_clock_wf|auto| |unfold loop_ids; by rewrite Hloops].
  split.
  - intros tracks Hk t. unfold held_tracks. destruct Hset as (_ & _ & -> & ->). by apply Htr.
  - intros modes Hk. rewrite Hrefs. by apply Href.
  - intros modes Hk. rewrite Hm, (Hpol _ Hk). unfold active_mode_allows_multiple_outputs.
    unfold mode_refs in Hrefs. by injection Hrefs as -> _ _.
Qed.

Section Safety.
Context {text store : Type}.
Context `{!SerdeJson text} `{!PlaybackStateStore text store}.
Context `{!PlaybackStateStoreSpec text store}.
Context {clk : PlaybackClock} {clk_spec : PlaybackClockSpec} {rnd : QueueRandom}.

#[local] Notation actor := (PlaybackActor store).
Implicit Types (a : actor).

Record actor_wf a : Prop := {
  actor_state_wf : state_wf (catalog a) (actor_state a);
  actor_deadlines : dom (loop_deadlines_ms a) = list_to_set (loop_ids (actor_state a))
}.

Lemma externally_committed_wf s conns durable presence sample a v a' :
  presence_step (actor_state a) s ->
  externally_committed s conns durable presence sample a v a' -> actor_wf a -> actor_wf a'.
Proof.
  unfold externally_committed. intros Hs H [Hwf Hd].
  destruct (negb durable && negb presence).
  - destruct H as (_ & -> & _). by split.
  - destruct H as (_ & _ & -> & _). split; cbn.
    + apply state_wf_revision. by eapply presence_wf.
    + rewrite Hd. destruct Hs as (_ & _ & Hl & _). unfold loop_ids. cbn. by rewrite Hl.
Qed.

Lemma actor_step_wf allowed a a' : actor_step allowed a a' -> actor_wf a -> actor_wf a'.
Proof.
  intros Hstep Hwf. pose proof Hwf as [Hst Hd].
  destruct Hstep as [[-> _]|e _ [-> _ _ _]|resolved n sample choice red v _ [_ _ Hrefs] _ Hred Hcom
    |id _ ->|id registration v (_ & record & _ & Hreg)|id v (record & sample & _ & Hclose)
    |client_id remembered def r (_ & Hr)|next cc v (_ & Hcat)|n sample _ _ _ ->
    |sample id looping Hf ->|id Hf ->]; try by split.
  - pose proof (admitted_command_wf _ _ _ _ _ Hst Hrefs Hred) as Hst'.
    assert (persistence (with_output_policy (catalog a) red) = PersistenceIntent_Throttled ->
            looping_sfx (next_state (with_output_policy (catalog a) red))
            = looping_sfx (actor_state a)) as Hthr.
    { intros Hper. destruct (throttled_report _ _ _ _ _ Hst Hred Hper)
        as (-> & _ & _ & device & position & ->). apply report_position_loops. }
    revert Hst' Hthr Hcom. generalize (with_output_policy (catalog a) red). clear red Hred Hrefs.
    intros red Hst' Hthr. unfold committed.
    destruct (persistence red) eqn:Hper; [intros (_ & -> & _); by split| |].
    + intros (_ & -> & _). split; cbn; [done|]. unfold loop_ids. by rewrite Hthr.
    + destruct (changed red); [|intros (_ & -> & _); by split].
      intros (candidate & Hcand & _ & _ & ->). split; cbn; [|by apply reconciled_dom].
      destruct (publish_state red); [destruct Hcand as [_ ->]; by apply state_wf_revision|by subst].
  - destruct Hreg as [(_ & -> & _)|[sample Hreg]]; [done|].
    eapply externally_committed_wf; [|exact Hreg|done].
    eapply presence_step_trans; [apply retired_presence|apply register_presence].
  - eapply externally_committed_wf; [|exact Hclose|done].
    destruct (record_registration record); [case_match|];
      auto using presence_step_refl, remove_presence.
  - destruct r; [destruct Hr as [_ Hr]; case_match; [destruct Hr as [? ->]|subst]|
                 destruct Hr as [[-> _]|[_ ->]]]; by split.
  - destruct Hcat as [(-> & _ & -> & _)|(n & sample & s' & changed & _ & Hp & H)]; [done|].
    apply prune_for_catalog_spec in Hp as [[Hok Hclk Hout _ Hloops _] Hid].
    assert (state_wf next s') as Hst' by (destruct Hst; split; auto).
    destruct changed; cbn in H.
    + destruct H as (_ & _ & _ & ->). split; cbn; [by apply state_wf_revision|by apply reconciled_dom].
    + destruct H as (_ & -> & _). destruct (Hid eq_refl) as [-> _]. by split.
  - split; cbn; [done|]. rewrite dom_insert_L, Hd.
    apply find_loop_Some in Hf as [Hin <-].
    assert (loop_id looping ∈ loop_ids (actor_state a)).
    { apply list_elem_of_In, in_map. by apply list_elem_of_In. }
    set_solver.
  - split; cbn; [done|]. apply find_loop_None in Hf. rewrite dom_delete_L, Hd.
    unfold loop_ids. set_solver.
Qed.

Lemma refused_wf e a a' : refused e a a' -> actor_wf a -> actor_wf a'.
Proof. intros [-> _ _ _] [Hwf Hd]. by split. Qed.

(* ------------------------------------------------------------------ *)
(** ** The spawn *)

(** The row [id] of [st] records [s]: it decodes to it or is an encoding of it. *)
Definition row_records (st : store) (id : Z) (revision : Z) (s : PlaybackState) : Prop :=
  exists json, store_row st id = Some (mkStoredPlaybackSnapshot json revision) /\
    (decode_persisted_state json = Ok s \/ exists now, encode_persisted_state s now = Ok json).

Lemma default_at_rest : at_rest PlaybackState_default.
Proof. split; done. Qed.

Lemma from_store_ok {A} (call : store -> result store_error A * store) st v st' :
  from_store call st = (Ok v, st') -> call st = (Ok v, st').
Proof. unfold from_store. destruct (call st) as [[x|e] st1]; cbn; by intros [= <- <-]. Qed.

Lemma compare_and_swap_ok id revision encoded st revision' st' :
  compare_and_swap id revision encoded st = (Ok revision', st') ->
  store_row st' id = Some (mkStoredPlaybackSnapshot encoded revision').
Proof.
  unfold compare_and_swap. intros H. act_step H; [|done]. apply from_store_ok in E.
  pose proof (cas_spec _ _ _ _ _ _ E) as [_ Hcas]. cbv zeta in Hcas.
  destruct r0; act_simpl H; [|done]. injection H as <- <-. by destruct Hcas as (-> & _ & ?).
Qed.

Lemma persist_candidate_ok id revision s now st revision' st' :
  persist_candidate id revision s now st = (Ok revision', st') ->
  row_records st' id revision' s.
Proof.
  unfold persist_candidate, encode. intros H. act_simpl H.
  destruct (encode_persisted_state s now) as [json|] eqn:He; cbn [map_err] in H; [|done].
  apply compare_and_swap_ok in H. exists json. split; [done|]. right. by exists now.
Qed.

Lemma load_or_initialize_ok id now st s revision st' :
  load_or_initialize id now st = (Ok (s, revision), st') ->
  at_rest s /\ row_records st' id revision s.
Proof.
  unfold load_or_initialize, encode. intros H. act_step H; [|done]. apply from_store_ok in E.
  pose proof (load_spec _ _ _ _ E) as [Hrow Hv]. specialize (Hv _ eq_refl). subst r0.
  destruct (store_row st id) as [[json rev]|] eqn:Hst; act_simpl H; cbn [state_json] in H.
  - destruct (decode_persisted_state json) as [s0|] eqn:Hd; cbn [map_err] in H; act_simpl H; [|done].
    destruct (encode_persisted_state s0 now) as [encoded|] eqn:He; cbn [map_err] in H;
      act_simpl H; [|done].
    destruct (json_equivalent json encoded); act_simpl H.
    + injection H as <- <- <-. split; [by eapply decoded_at_rest|]. exists json.
      rewrite Hrow, Hst. split; [done|by left].
    + act_step H; [|done]. injection H as <- <- <-. split; [by eapply decoded_at_rest|].
      apply compare_and_swap_ok in E0. exists encoded. split; [done|]. right. by exists now.
  - destruct (encode_persisted_state _ now) as [encoded|] eqn:He; cbn [map_err] in H;
      act_simpl H; [|done].
    act_step H; [|done]. apply from_store_ok in E0.
    match type of H with (if ?b then _ else _) _ = _ => destruct b end; act_simpl H; [|done].
    injection H as <- <- <-. split; [apply default_at_rest|].
    pose proof (insert_spec _ _ _ _ _ E0) as [_ [_ Hins]]. exists encoded. split; [done|].
    right. by exists now.
Qed.

Lemma at_rest_wf s : at_rest s -> clock_wf s /\ outputs_ok s /\ NoDup (loop_ids s).
Proof.
  intros [_ Ho _ Hl _ Hc]. split_and!; [done| |].
  - intros _. rewrite Ho. cbn. lia.
  - unfold loop_ids. rewrite Hl. constructor.
Qed.

Lemma initial_deadlines_dom loops now :
  dom (initial_loop_deadlines loops now) = list_to_set (map loop_id loops).
Proof.
  unfold initial_loop_deadlines, collect_map.
  assert (forall m : gmap string N, dom (foldl (fun m entry => <[entry.1 := entry.2]> m) m
    ((fun looping => (loop_id looping,
       u64_saturating_add now (loop_interval_ms looping))) <$> loops))
    = dom m ∪ list_to_set (map loop_id loops)) as Hgen; [|rewrite Hgen; set_solver].
  induction loops as [|l loops IH]; intros m; cbn; [set_solver|].
  rewrite IH, dom_insert_L. set_solver.
Qed.

Lemma start_playback_actor_ok c known st a st' :
  start_playback_actor c known st = (Ok a, st') ->
  actor_wf a /\ config a = c /\ catalog a = known /\ connections a = ∅ /\
  active_output_device_ids (actor_state a) = [] /\
  dirty_position a = false /\ actor_store a = st' /\
  row_records (actor_store a) (state_id c) (storage_revision a) (actor_state a) /\
  exists sample, published a = [publication (actor_state a) ∅ sample].
Proof.
  unfold start_playback_actor. intros H. act_simpl H.
  destruct (validate_config c); [|done].
  destruct (clock_sample 0) as [sample|]; [|done].
  act_step H; [|done]. destruct r0 as [s revision].
  apply load_or_initialize_ok in E as [Hrest Hrec].
  destruct (prune_for_catalog _ _ _ _) as [[s' changed]|] eqn:Hp; cbn [map_err] in H; [|done].
  apply prune_for_catalog_spec in Hp as [[Hok Hclk Hout Hsub Hloops Hpub] Hid].
  destruct (at_rest_wf _ Hrest) as (Hc & Ho & Hl).
  assert (state_wf known s') as Hst by (split; auto).
  assert (active_output_device_ids s' = []) as Hact.
  { destruct (active_output_device_ids s') as [|d ds] eqn:Hd; [done|].
    assert (d ∈ active_output_device_ids s) as Hin by (apply Hsub; set_solver).
    rewrite (rest_outputs _ Hrest) in Hin. set_solver. }
  assert (forall st2 rev, (if changed then row_records st2 (state_id c) rev s'
            else row_records st2 (state_id c) rev s) ->
          row_records st2 (state_id c) rev s') as Hrow.
  { intros st2 rev. destruct changed; [done|]. by destruct (Hid eq_refl) as [-> _]. }
  destruct changed; act_simpl H.
  - act_step H; [|done]. injection H as <- <-. apply persist_candidate_ok in E.
    split_and!; try done; [split; [done|by apply initial_deadlines_dom]|by exists sample].
  - injection H as <- <-.
    split_and!; try done; [split; [done|by apply initial_deadlines_dom]|by apply Hrow|by exists sample].
Qed.

Lemma spawned_run_wf c known st a st' wakeups r a' :
  start_playback_actor c known st = (Ok a, st') -> run wakeups a = (r, a') -> actor_wf a'.
Proof.
  intros (Hwf & _)%start_playback_actor_ok Hrun. revert Hwf.
  eapply (run_invariant any_command); [done|apply actor_step_wf|apply refused_wf|apply any_wakeup|done].
Qed.

(** C2: a spawned actor is safe forever: whatever wake-ups, commands, store
    answers and clock readings it meets, its state satisfies the clock and
    output invariants, refers only to resources of the loaded catalogs, has the
    output policy of its mode and unique loops, and every running loop has
    exactly one deadline. *)
Theorem actor_is_always_safe c known st a st' wakeups r a' :
  start_playback_actor c known st = (Ok a, st') -> run wakeups a = (r, a') -> actor_wf a'.
Proof. apply spawned_run_wf. Qed.

End Safety.

Lemma actor_is_always_safe_witness :
  is_playing (actor_state running) = true /\ actor_wf running.
Proof.
  split; [vm_compute; reflexivity|].
  apply (actor_is_always_safe PlaybackActorConfig_default sample_catalog empty_table
    (spawned empty_table) (actor_store (spawned empty_table)) session_start (Ok ())).
  - vm_compute. reflexivity.
  - vm_compute. reflexivity.
Defined.
