(* ===== verification/ActorDurability.v ===== *)
(** * Durability of the playback actor

    As long as nobody else writes its row, the actor's optimistic updates always
    succeed and the row records the live state: exactly, but for the
    publication revision, unless a position report is waiting for its flush. When
    somebody else has written the row, the actor never overwrites it. *)

From S2P Require Import Prelude PlaybackState Reducer ReducerLemmas LaneSpec ReducerSpec.
From S2P Require Import CommitSpec Persistence Store Catalog References.
From S2P Require Import CatalogSpec Presence Actor ActorMessages ActorLemmas ActorSpec ActorSafety.
From S2P Require Import ActorMessages.

#[local] Open Scope N_scope.

(** A state without what a position report changes. *)
Definition unreported (s : PlaybackState) : PlaybackState :=
  with_publication_revision 0 (with_last_position_report None
    (with_ambient (rewind None (ambient s))
      (with_interrupt ((fun i => with_interrupt_position_ms 0
                                   (with_interrupt_position_anchor_ms None i)) <$> interrupt s) s))).

(** [s] is [live] up to the publication revision, and up to a position report
    when one is waiting. *)
Definition agrees (dirty : bool) (s live : PlaybackState) : Prop :=
  if dirty then unreported s = unreported live
  else with_publication_revision 0 s = with_publication_revision 0 live.

Lemma agrees_refl dirty s : agrees dirty s s.
Proof. by destruct dirty. Qed.

Lemma agrees_unreported dirty s live : agrees dirty s live -> unreported s = unreported live.
Proof.
  destruct dirty; [done|]. intros H. cbn in H. apply (f_equal unreported) in H.
  by destruct s, live.
Qed.

Lemma agrees_revision dirty s live n : agrees dirty s live -> agrees dirty s (with_publication_revision n live).
Proof. by destruct dirty. Qed.

Lemma unreported_report device position sample s :
  unreported (report_position device position sample s) = unreported s.
Proof.
  destruct s as [? ? ? ? ? ? ? ? ? ? ? ? ? [? ? ? ? [] ? ? ?] [[? ? ? []]|] ? ?]; reflexivity.
Qed.

Lemma remove_unchanged device s :
  (remove_active_output device s).2 = false -> (remove_active_output device s).1 = s.
Proof.
  intros H. destruct (remove_active_output device s) as [s' b] eqn:E. cbn in *. subst.
  by apply remove_active_output_unchanged in E.
Qed.

Lemma register_unchanged device activate s :
  (register_device device activate s).2 = false -> (register_device device activate s).1 = s.
Proof.
  intros H. destruct (register_device device activate s) as [s' b] eqn:E. cbn in *. subst.
  by apply register_device_unchanged in E.
Qed.

Section Durability.
Context {text store : Type}.
Context `{!SerdeJson text} `{!PlaybackStateStore text store}.
Context `{!PlaybackStateStoreSpec text store}.
Context {clk : PlaybackClock} {clk_spec : PlaybackClockSpec} {rnd : QueueRandom}.

#[local] Notation actor := (PlaybackActor store).
Implicit Types (a : actor).

(** The row of the actor carries its storage revision and records its state. *)
Definition durable_record a : Prop :=
  exists s, row_records (actor_store a) (state_id (config a)) (storage_revision a) s /\
            agrees (dirty_position a) s (actor_state a).

Lemma durable_record_owned a :
  durable_record a -> snapshot_storage_revision <$> own_row a = Some (storage_revision a).
Proof. intros (s & (json & Hrow & _) & _). unfold own_row. by rewrite Hrow. Qed.

(** A step that keeps the store, the revision and the configuration. *)
Lemma durable_record_keep a a' :
  actor_store a' = actor_store a -> config a' = config a ->
  storage_revision a' = storage_revision a ->
  (forall s, agrees (dirty_position a) s (actor_state a) ->
             agrees (dirty_position a') s (actor_state a')) ->
  durable_record a -> durable_record a'.
Proof.
  intros Hst Hc Hr Hag (s & Hrec & Ha). exists s. rewrite Hst, Hc, Hr. auto.
Qed.

Lemma stored_durable s now a a' :
  stored s now a a' -> config a' = config a -> agrees (dirty_position a') s (actor_state a') ->
  durable_record a'.
Proof.
  intros [_ _ (json & He & Hrow)] Hc Hag. exists s. split; [|done].
  exists json. split; [exact Hrow|]. right. by exists now.
Qed.

Lemma externally_committed_durable s conns durable presence sample a v a' :
  (durable = false -> s = actor_state a) ->
  externally_committed s conns durable presence sample a v a' ->
  durable_record a -> durable_record a'.
Proof.
  unfold externally_committed. intros Hs H Hd.
  destruct (negb durable && negb presence).
  { destruct H as (_ & -> & Hst). apply (durable_record_keep a); try done. }
  destruct H as (_ & _ & Ha' & H). destruct (durable || dirty_position a) eqn:Hor.
  - eapply stored_durable; [done|by rewrite Ha'|by rewrite Ha'].
  - apply orb_false_iff in Hor as [-> Hdirty]. destruct H as [Hr Hrow].
    destruct Hd as (s0 & (json & Hrow0 & Henc) & Hag). exists s0. rewrite Hdirty in Hag.
    split; [|rewrite Ha', (Hs eq_refl); exact Hag].
    exists json. split; [|done]. rewrite Hr, <- Hrow0. exact Hrow.
Qed.

Lemma retired_unchanged conns id previous registration s :
  (retired conns id previous registration s).2 = false ->
  (retired conns id previous registration s).1 = s.
Proof.
  unfold retired. destruct previous; [case_match|]; try done. apply remove_unchanged.
Qed.

Lemma durable_step allowed a a' :
  actor_step allowed a a' -> actor_wf a -> durable_record a -> durable_record a'.
Proof.
  intros Hstep [Hst _] Hd.
  destruct Hstep as [[-> Hs]|e He [-> Hs _ _]|resolved n sample choice red v _ _ _ Hred Hcom
    |id _ ->|id registration v (_ & record & _ & Hreg)|id v (record & sample & _ & Hclose)
    |client_id remembered def r (Hs & Hr)|next cc v (_ & Hcat)|n sample Hdirty _ Hsto Ha'
    |sample id looping Hf ->|id Hf ->]; try (by apply (durable_record_keep a)); try done.
  - apply (durable_record_keep a); try done. by apply Hs.
  - revert Hcom. unfold committed.
    destruct (persistence _) eqn:Hper.
    + intros (_ & -> & Hs). by apply (durable_record_keep a).
    + destruct (throttled_report _ _ _ _ _ Hst Hred Hper) as (-> & _ & _ & device & position & Hrep).
      intros (_ & -> & Hs). apply (durable_record_keep a); try done.
      intros s Hag%agrees_unreported. cbn. by rewrite Hrep, unreported_report.
    + destruct (changed _); [|intros (_ & -> & Hs); by apply (durable_record_keep a)].
      intros (candidate & _ & _ & Hsto & Ha').
      eapply stored_durable; [done|by rewrite Ha'|rewrite Ha'; apply agrees_refl].
  - destruct Hreg as [(_ & -> & _)|[sample Hreg]]; [done|].
    eapply externally_committed_durable; [|exact Hreg|done].
    intros [H1 H2]%orb_false_iff. apply retired_unchanged in H1. rewrite H1 in *.
    by apply register_unchanged.
  - eapply externally_committed_durable; [|exact Hclose|done].
    destruct (record_registration record); [case_match|]; try done. apply remove_unchanged.
  - destruct r; [destruct Hr as [_ Hr]; case_match; [destruct Hr as [? ->]|subst]|
                 destruct Hr as [[-> _]|[_ ->]]]; by apply (durable_record_keep a).
  - destruct Hcat as [(-> & _ & -> & _)|(n & sample & s' & changed & _ & Hp & H)]; [done|].
    destruct changed; cbn in H.
    + destruct H as (_ & _ & Hsto & Ha').
      eapply stored_durable; [done|by rewrite Ha'|rewrite Ha'; apply agrees_refl].
    + destruct H as (_ & -> & Hs). by apply (durable_record_keep a).
  - eapply stored_durable; [done|by rewrite Ha'|rewrite Ha'; apply agrees_refl].
Qed.

Lemma durable_started c known st a st' :
  start_playback_actor c known st = (Ok a, st') -> durable_record a.
Proof.
  intros (_ & Hc & _ & _ & _ & Hd & _ & Hrow & _)%start_playback_actor_ok.
  exists (actor_state a). rewrite Hc. split; [done|apply agrees_refl].
Qed.

(** What holds of the actor in between two operations of the sole writer. *)
Definition sole_writer c a : Prop := actor_wf a /\ durable_record a /\ config a = c.

Lemma actor_step_config allowed a a' : actor_step allowed a a' -> config a' = config a.
Proof.
  intros Hstep.
  destruct Hstep as [[-> Hs]|e He [-> _ _ _]|resolved n sample choice red v _ _ _ Hred Hcom
    |id _ ->|id registration v (_ & record & _ & Hreg)|id v (record & sample & _ & Hclose)
    |client_id remembered def r (_ & Hr)|next cc v (_ & Hcat)|n sample _ _ _ Ha'
    |sample id looping Hf ->|id Hf ->]; try done.
  - revert Hcom. unfold committed. destruct (persistence _).
    + by intros (_ & -> & _).
    + by intros (_ & -> & _).
    + destruct (changed _); [by intros (candidate & _ & _ & _ & ->)|by intros (_ & -> & _)].
  - destruct Hreg as [(_ & -> & _)|[sample Hreg]]; [done|]. unfold externally_committed in Hreg.
    destruct (negb _ && _); [by destruct Hreg as (_ & -> & _)|by destruct Hreg as (_ & _ & -> & _)].
  - unfold externally_committed in Hclose.
    destruct (negb _ && _); [by destruct Hclose as (_ & -> & _)|by destruct Hclose as (_ & _ & -> & _)].
  - destruct r; [destruct Hr as [_ Hr]; case_match; [destruct Hr as [? ->]|subst]|
                 destruct Hr as [[-> _]|[_ ->]]]; done.
  - destruct Hcat as [(_ & _ & -> & _)|(n & sample & s' & changed & _ & _ & H)]; [done|].
    destruct changed; [by destruct H as (_ & _ & _ & ->)|by destruct H as (_ & -> & _)].
  - by rewrite Ha'.
Qed.

Lemma sole_writer_steps allowed c a a' :
  actor_steps allowed a a' -> sole_writer c a -> sole_writer c a'.
Proof.
  intros Hs. induction Hs as [b|b b1 b' Hs _ IH]; [done|]. intros (? & ? & Hc). apply IH.
  split_and!; [by eapply actor_step_wf|by eapply durable_step|].
  by rewrite (actor_step_config _ _ _ Hs).
Qed.

Lemma sole_writer_started c known st a st' :
  start_playback_actor c known st = (Ok a, st') -> sole_writer c a.
Proof.
  intros H. split_and!; [|by eapply durable_started|];
    by apply start_playback_actor_ok in H as (? & ? & _).
Qed.

(** An actor that is the only writer of its row never meets a persistence
    conflict: from the spawn on, whatever it is asked and whatever fails, every
    optimistic update it makes names the revision the row carries. *)
Theorem sole_writer_never_conflicts c known st a st' wakeups r a' :
  start_playback_actor c known st = (Ok a, st') -> run wakeups a = (r, a') ->
  r <> Err PersistenceConflict.
Proof.
  intros Hw%sole_writer_started Hrun ->.
  apply (run_outcome any_command) in Hrun; [|done|apply any_wakeup].
  destruct Hrun as (a1 & Hs & Href). pose proof (sole_writer_steps _ _ _ _ Hs Hw) as (_ & Hd & _).
  by apply (refused_conflict _ _ _ Href eq_refl), durable_record_owned.
Qed.

Lemma run_stopped wakeups a a' :
  run wakeups a = (Ok (), a') -> Cancelled ∈ wakeups -> dirty_position a' = false.
Proof.
  revert a. induction wakeups as [|w wakeups IH]; intros a H Hin; [set_solver|]. cbn [run] in H.
  act_step H; [|done]. destruct r0.
  - apply IH in H; [done|]. destruct w; [|set_solver..].
    unfold run_turn in E. act_step E; done.
  - apply flush_position_inv in H. destruct (dirty_position a0) eqn:Hd; [|by subst].
    destruct H as (n & sample & _ & _ & ->). done.
Qed.

(** C3: what a run acknowledged survives a crash: after any run that has not
    stopped on an error, the row carries the actor's storage revision and a
    document of the live state, up to the publication revision and, only while
    a flush is pending, up to the last position report. Decoding it gives what
    a restart makes of that state, and a run that was shut down in order leaves
    no flush pending. *)
Theorem acknowledged_state_survives_a_crash c known st a st' wakeups a' `{!SerdeJsonSpec text} :
  start_playback_actor c known st = (Ok a, st') -> run wakeups a = (Ok (), a') ->
  (Cancelled ∈ wakeups -> dirty_position a' = false) /\
  exists json s,
    store_row (actor_store a') (state_id c)
      = Some (mkStoredPlaybackSnapshot json (storage_revision a')) /\
    agrees (dirty_position a') s (actor_state a') /\
    (decode_persisted_state json = Ok s \/
     exists now, encode_persisted_state s now = Ok json /\
       (persistable text s ->
        decode_persisted_state json = Ok (startup_image (materialize_positions s now)))).
Proof.
  intros Hw%sole_writer_started Hrun. split; [by eapply run_stopped|].
  apply (run_outcome any_command) in Hrun; [|done|apply any_wakeup].
  pose proof (sole_writer_steps _ _ _ _ Hrun Hw) as (_ & (s & (json & Hrow & Henc) & Hag) & Hc).
  rewrite Hc in Hrow. exists json, s. split_and!; [done..|].
  destruct Henc as [?|[now He]]; [by left|right]. exists now. split; [done|].
  intros (json' & He' & Hdec)%(encode_decode _ now). congruence.
Qed.

(** A step either leaves the row and the revision alone or stores a state. *)
Lemma actor_step_row allowed a a' :
  actor_step allowed a a' ->
  own_row a' = own_row a /\ storage_revision a' = storage_revision a \/
  exists s now, stored s now a a'.
Proof.
  assert (forall b, actor_store b = actor_store a -> config b = config a ->
    own_row b = own_row a) as Hkeep by (unfold own_row; by intros ? -> ->).
  assert (forall s conns durable presence sample v,
    externally_committed s conns durable presence sample a v a' ->
    own_row a' = own_row a /\ storage_revision a' = storage_revision a \/
    exists s now, stored s now a a') as Hext.
  { unfold externally_committed. intros s conns durable presence sample v.
    destruct (negb _ && _); [intros (_ & -> & ?); left; split; [by apply Hkeep|done]|].
    intros (_ & _ & _ & H). destruct (_ || _); [right; by eexists _, _|by left; destruct H]. }
  intros Hstep. pose proof (actor_step_config _ _ _ Hstep) as Hc.
  destruct Hstep as [[-> Hs]|e He [-> Hs _ _]|resolved n sample choice red v _ _ _ Hred Hcom
    |id _ ->|id registration v (_ & record & _ & Hreg)|id v (record & sample & _ & Hclose)
    |client_id remembered def r (Hs & Hr)|next cc v (_ & Hcat)|n sample _ _ Hsto Ha'
    |sample id looping Hf ->|id Hf ->]; try (by left; split; [apply Hkeep; auto|]).
  - revert Hcom. unfold committed. destruct (persistence _).
    + intros (_ & -> & Hs). left. by split; [apply Hkeep|].
    + intros (_ & -> & Hs). left. by split; [apply Hkeep|].
    + destruct (changed _); [|intros (_ & -> & Hs); left; by split; [apply Hkeep|]].
      intros (candidate & _ & _ & Hsto & _). right. by eexists _, _.
  - destruct Hreg as [(_ & -> & _)|[sample Hreg]]; [by left|by eapply Hext].
  - by eapply Hext.
  - left. split; [by apply Hkeep|].
    destruct r; [destruct Hr as [_ Hr]; destruct (presence_changed _ _);
                 [destruct Hr as [? ->]|subst]|destruct Hr as [[-> _]|[_ ->]]]; done.
  - destruct Hcat as [(-> & _ & -> & _)|(n & sample & s' & changed & _ & Hp & H)]; [by left|].
    destruct changed; cbn in H.
    + destruct H as (_ & _ & Hsto & _). right. by eexists _, _.
    + destruct H as (_ & -> & Hs). left. by split; [apply Hkeep|].
  - right. by eexists _, _.
Qed.

(** C20: a row somebody else has written is never overwritten: once the revision
    of the row is not the one the actor holds, no wake-up, command or shutdown
    changes the row. *)
Theorem foreign_row_is_never_overwritten a wakeups r a' :
  snapshot_storage_revision <$> own_row a <> Some (storage_revision a) ->
  run wakeups a = (r, a') -> own_row a' = own_row a.
Proof.
  intros Hne Hrun.
  set (I := fun b => own_row b = own_row a /\ storage_revision b = storage_revision a).
  assert (I a') as [? _]; [|done].
  assert (forall b, I b -> snapshot_storage_revision <$> own_row b <> Some (storage_revision b))
    as Hforeign by (by intros b [-> ->]).
  eapply (run_invariant any_command); [done| | |apply any_wakeup|exact Hrun|by split].
  - intros b b' Hstep Hb. pose proof (Hforeign _ Hb) as Hno.
    destruct Hb as [Hb1 Hb2]. destruct (actor_step_row _ _ _ Hstep) as [[Hr1 Hr2]|(s & now & [])];
      [split; congruence|done].
  - intros e b b' [Heq _ Hrow _] Hb. pose proof (Hforeign _ Hb) as Hno. destruct Hb as [Hb1 Hb2].
    split; [rewrite <- Hb1; auto|rewrite Heq; exact Hb2].
Qed.

End Durability.

(* ------------------------------------------------------------------ *)
(** ** Witnesses *)

Lemma sole_writer_never_conflicts_witness :
  (run (session_start ++ [Received (Execute (resolved_direct (ReportPosition "tablet" 900)));
                          Cancelled]) (spawned empty_table)).1 <> Err PersistenceConflict.
Proof.
  destruct (run _ _) as [r a'] eqn:Hrun.
  eapply (sole_writer_never_conflicts PlaybackActorConfig_default sample_catalog empty_table
            (spawned empty_table)); [|exact Hrun].
  vm_compute. reflexivity.
Defined.

Lemma acknowledged_state_survives_a_crash_witness :
  exists json s, store_row (actor_store running) 1
      = Some (mkStoredPlaybackSnapshot json (storage_revision running)) /\
    agrees (dirty_position running) s (actor_state running) /\
    storage_revision running = 4%Z /\ dirty_position running = false.
Proof.
  destruct (acknowledged_state_survives_a_crash PlaybackActorConfig_default sample_catalog
    empty_table (spawned empty_table) (actor_store (spawned empty_table)) session_start running)
    as (_ & json & s & Hrow & Hag & _).
  - vm_compute. reflexivity.
  - vm_compute. reflexivity.
  - exists json, s. split; [exact Hrow|]. split; [exact Hag|]. vm_compute. by split.
Defined.

(** Another process has written revision 9. *)
Definition overtaken : PlaybackActor Table :=
  set_actor_store (mkSqliteStorage {[1%Z := (PersistedPlaybackState_from PlaybackState_default, 9%Z)]} [])
    running.

Lemma foreign_row_is_never_overwritten_witness :
  let '(r, a') := run [admit_now (AmbientEnqueue 4%positive None)] overtaken in
  r = Err PersistenceConflict /\ own_row a' = own_row overtaken.
Proof.
  destruct (run _ _) as [r a'] eqn:Hrun. split.
  - change (fst (r, a') = Err PersistenceConflict). rewrite <- Hrun. vm_compute. reflexivity.
  - eapply foreign_row_is_never_overwritten; [|exact Hrun]. vm_compute. by intros [=].
Defined.
