(* ===== verification/ActorPresence.v ===== *)
(** * Presence and publications of the playback actor

    The active outputs are always connected clients, and the last publication
    always shows the clients, the revision and the state the actor holds. *)

From S2P Require Import Prelude PlaybackState Reducer ReducerLemmas LaneSpec ReducerSpec.
From S2P Require Import CommitSpec Persistence Store Catalog References CatalogSpec Presence Actor.
From S2P Require Import ActorMessages ActorLemmas ActorSpec ActorSafety ActorDurability.

#[local] Open Scope N_scope.

(** The commands of clients: a device is only activated by registering its
    connection. *)
Definition client_command (command : PlaybackCommand) : Prop :=
  match command with RegisterDevice _ true => False | _ => True end.

Lemma newest_output_subset current requested d : d ∈ newest_output current requested -> d ∈ requested.
Proof.
  unfold newest_output. case_match; [done|]. case_match eqn:Hl; [|set_solver].
  intros ->%list_elem_of_singleton. by eapply list_elem_of_lookup_2.
Qed.

(** The outputs of a command that passed the actor's checks. *)
Lemma admitted_outputs_connected {store} command (a : PlaybackActor store) outputs d :
  client_command command -> validate_outputs command a = Ok () ->
  outputs_step (actor_state a) command outputs -> d ∈ outputs ->
  d ∈ active_output_device_ids (actor_state a) \/ d ∈ connected_client_ids (connections a).
Proof.
  intros Hallowed Hv Hout Hd.
  destruct Hout as [|device_ids ->|device_id -> _ _|device_id ->]; [by left| |done|].
  - assert (d ∈ device_ids) as Hin.
    { destruct (multiple_outputs _); [done|]. by eapply newest_output_subset. }
    destruct (decide (d ∈ active_output_device_ids (actor_state a))) as [?|Hna]; [by left|].
    destruct (decide (d ∈ connected_client_ids (connections a))) as [?|Hnc]; [by right|]. exfalso.
    cbn in Hv. unfold retain in Hv.
    destruct (List.filter _ device_ids) as [|x l] eqn:Hf; [|done].
    assert (d ∈ List.filter (fun device_id =>
      negb (contains device_id (active_output_device_ids (actor_state a)))
      && negb (bool_decide (device_id ∈ connected_client_ids (connections a)))) device_ids) as Hdf.
    { apply list_elem_of_In, List.filter_In. split; [by apply list_elem_of_In|].
      unfold contains. by rewrite !bool_decide_eq_false_2. }
    rewrite Hf in Hdf. set_solver.
  - left. by apply elem_of_retain in Hd as [? _].
Qed.

Lemma register_outputs device activate s d :
  d ∈ active_output_device_ids (register_device device activate s).1 ->
  d ∈ active_output_device_ids s \/ d = device.
Proof.
  destruct (register_device device activate s) as [s' b] eqn:E. cbn.
  apply register_device_outputs in E as [_ Hout]. revert Hout.
  generalize (active_output_device_ids s'). intros l Hout.
  destruct Hout as [|? [=]|? [= <- _] _ _|? [=]]; set_solver.
Qed.

Lemma remove_outputs device s d :
  d ∈ active_output_device_ids (remove_active_output device s).1 ->
  d ∈ active_output_device_ids s /\ d <> device.
Proof.
  cbn. intros [? H]%elem_of_retain. split; [done|]. by apply negb_true_iff, bool_decide_eq_false in H.
Qed.

Section Presence.
Context {text store : Type}.
Context `{!SerdeJson text} `{!PlaybackStateStore text store}.
Context `{!PlaybackStateStoreSpec text store}.
Context {clk : PlaybackClock} {clk_spec : PlaybackClockSpec} {rnd : QueueRandom}.

#[local] Notation actor := (PlaybackActor store).
Implicit Types (a : actor).

(** Connection ids are never reused, and an active output is connected. *)
Record presence_wf a : Prop := {
  fresh_ids : forall id, is_Some (connections a !! id) -> id < next_connection_id a;
  outputs_connected : forall d, d ∈ active_output_device_ids (actor_state a) ->
    d ∈ connected_client_ids (connections a)
}.

Lemma presence_wf_keep a a' :
  connections a' = connections a -> next_connection_id a' = next_connection_id a ->
  (forall d, d ∈ active_output_device_ids (actor_state a') ->
     d ∈ active_output_device_ids (actor_state a) \/ d ∈ connected_client_ids (connections a)) ->
  presence_wf a -> presence_wf a'.
Proof.
  intros Hc Hn Hd [Hf Ho]. split; rewrite ?Hc, ?Hn; [done|]. intros d [?|?]%Hd; auto.
Qed.

Lemma externally_committed_presence s conns durable presence sample a v a' :
  (forall id, is_Some (conns !! id) -> is_Some (connections a !! id)) ->
  (durable = false -> s = actor_state a) ->
  (forall d, d ∈ active_output_device_ids s -> d ∈ connected_client_ids conns) ->
  externally_committed s conns durable presence sample a v a' -> presence_wf a -> presence_wf a'.
Proof.
  unfold externally_committed. intros Hsub Hsame Hs H [Hf Ho].
  destruct (negb durable && negb presence) eqn:Hb.
  - destruct H as (_ & -> & _). apply andb_prop in Hb as [Hb%negb_true_iff _].
    split; cbn; [auto|]. by rewrite <- (Hsame Hb).
  - destruct H as (_ & _ & -> & _). split; cbn; auto.
Qed.

(** Registering keeps every active output connected. *)
Lemma registered_outputs_connected conns0 id record reg s :
  conns0 !! id = Some record ->
  (forall d, d ∈ active_output_device_ids s -> d ∈ connected_client_ids conns0) ->
  let conns := <[id := mkConnectionRecord (Some reg)]> conns0 in
  forall d, d ∈ active_output_device_ids
    (register_device (registration_client_id reg) (registration_is_default_output reg)
       (retired conns id (record_registration record) reg s).1).1 ->
  d ∈ connected_client_ids conns.
Proof.
  intros Hid Ho conns d Hd.
  assert (registered conns id reg) as Hnew.
  { eexists. split; [apply lookup_insert_eq|done]. }
  assert (forall id' reg', id' <> id -> registered conns0 id' reg' -> registered conns id' reg') as Hold.
  { intros id' reg' Hne (r & Hl & Hr). exists r. split; [|done]. unfold conns. by rewrite lookup_insert_ne. }
  apply register_outputs in Hd as [Hd| ->]; [|apply elem_of_connected_ids; by exists id, reg].
  assert (forall d, d ∈ active_output_device_ids s ->
    d ∈ connected_client_ids conns \/ registration_client_id <$> record_registration record = Some d)
    as Hcases.
  { intros d' (id' & reg' & Hreg' & <-)%Ho%elem_of_connected_ids.
    destruct (decide (id' = id)) as [->|Hne].
    - right. destruct Hreg' as (r & Hl & Hr). simplify_eq. by rewrite Hr.
    - left. apply elem_of_connected_ids. exists id', reg'. auto. }
  unfold retired in Hd. destruct (record_registration record) as [p|]; [|by destruct (Hcases d Hd)].
  destruct (negb _ && negb _) eqn:Hb.
  - apply remove_outputs in Hd as [Hd Hne]. destruct (Hcases d Hd) as [?|[= <-]]; done.
  - destruct (Hcases d Hd) as [?|[= <-]]; [done|]. apply elem_of_connected_ids.
    apply andb_false_iff in Hb as [Hb%negb_false_iff%bool_decide_eq_true|Hb%negb_false_iff].
    + exists id, reg. by rewrite Hb.
    + apply has_registered_sibling_spec in Hb as (id' & reg' & _ & ? & ?). by exists id', reg'.
Qed.

Lemma closed_outputs_connected conns0 id record s :
  conns0 !! id = Some record ->
  (forall d, d ∈ active_output_device_ids s -> d ∈ connected_client_ids conns0) ->
  let conns := delete id conns0 in
  forall d, d ∈ active_output_device_ids
    match record_registration record with
    | Some reg =>
        if existsb (record_has_client (registration_client_id reg)) (connection_records conns)
        then (s, false) else remove_active_output (registration_client_id reg) s
    | None => (s, false)
    end.1 ->
  d ∈ connected_client_ids conns.
Proof.
  intros Hid Ho conns d Hd.
  assert (forall d, d ∈ active_output_device_ids s ->
    d ∈ connected_client_ids conns \/ registration_client_id <$> record_registration record = Some d)
    as Hcases.
  { intros d' (id' & reg' & (r & Hl & Hr) & <-)%Ho%elem_of_connected_ids.
    destruct (decide (id' = id)) as [->|Hne].
    - right. simplify_eq. by rewrite Hr.
    - left. apply elem_of_connected_ids. exists id', reg'. split; [|done]. exists r.
      split; [|done]. unfold conns. by rewrite lookup_delete_ne. }
  destruct (record_registration record) as [reg|]; [|by destruct (Hcases d Hd)].
  destruct (existsb _ _) eqn:He.
  - destruct (Hcases d Hd) as [?|[= <-]]; [done|]. by apply existsb_has_client.
  - apply remove_outputs in Hd as [Hd Hne]. destruct (Hcases d Hd) as [?|[= <-]]; done.
Qed.

Lemma closed_unchanged conns record s :
  let s1 := match record_registration record with
            | Some reg =>
                if existsb (record_has_client (registration_client_id reg)) (connection_records conns)
                then (s, false) else remove_active_output (registration_client_id reg) s
            | None => (s, false)
            end in
  s1.2 = false -> s1.1 = s.
Proof. cbv zeta. repeat case_match; try done. apply remove_unchanged. Qed.

Lemma register_steps_unchanged conns id previous reg device activate s :
  let s1 := retired conns id previous reg s in
  s1.2 || (register_device device activate s1.1).2 = false ->
  (register_device device activate s1.1).1 = s.
Proof.
  cbv zeta. intros [H1 H2]%orb_false_iff. apply retired_unchanged in H1. rewrite H1 in *.
  by apply register_unchanged.
Qed.

Lemma presence_step_wf a a' :
  actor_step client_command a a' -> presence_wf a -> presence_wf a'.
Proof.
  intros Hstep Hp. pose proof Hp as [Hf Ho].
  destruct Hstep as [[-> _]|e _ [-> _ _ _]|resolved n sample choice red v Hallowed [_ Hv _] _ Hred Hcom
    |id -> ->|id registration v (_ & record & Hid & Hreg)|id v (record & sample & Hid & Hclose)
    |client_id remembered def r (_ & Hr)|next cc v (_ & Hcat)|n sample _ _ _ Ha'
    |sample id looping Hl ->|id Hl ->]; try done.
  - apply reduce_inv in Hred as (pub & per & [_ Hout]%apply_command_outputs & _).
    assert (forall d, d ∈ active_output_device_ids (next_state (with_output_policy (catalog a) red)) ->
      d ∈ active_output_device_ids (actor_state a) \/ d ∈ connected_client_ids (connections a)) as Hd.
    { intros d Hd. eapply admitted_outputs_connected; [done..|].
      unfold with_output_policy in Hd. destruct (catalog_modes (catalog a)); [|done].
      destruct (apply_output_policy _ _) as [s' b] eqn:Hpol.
      apply apply_output_policy_spec in Hpol as (_ & _ & _ & _ & _ & _ & _ & Hsub & _). by apply Hsub. }
    revert Hcom. unfold committed. destruct (persistence _).
    + by intros (_ & -> & _).
    + intros (_ & -> & _). by apply (presence_wf_keep a).
    + destruct (changed _); [|by intros (_ & -> & _)].
      intros (candidate & Hcand & _ & _ & ->). apply (presence_wf_keep a); try done. cbn.
      intros d. destruct (publish_state _); [destruct Hcand as [_ ->]|subst candidate]; apply Hd.
  - split; cbn.
    + intros id [->|[? Hid]]%lookup_insert_is_Some; [lia|]. specialize (Hf _ Hid). lia.
    + intros d Hd. rewrite connected_ids_open; [auto|].
      destruct (connections a !! _) eqn:Hc; [|done]. specialize (Hf _ ltac:(eauto)). lia.
  - destruct Hreg as [(_ & -> & _)|[sample Hreg]]; [done|].
    eapply externally_committed_presence; [| | |exact Hreg|done].
    + intros id' [<-|[? ?]]%lookup_insert_is_Some; [eauto|done].
    + apply register_steps_unchanged.
    + by apply registered_outputs_connected.
  - eapply externally_committed_presence; [| | |exact Hclose|done].
    + intros id' [? ?%lookup_delete_Some]. naive_solver.
    + apply closed_unchanged.
    + by apply closed_outputs_connected.
  - assert (forall b, actor_state b = actor_state a -> next_connection_id b = next_connection_id a ->
      connections b = refresh_record client_id remembered def <$> connections a -> presence_wf b) as Hb.
    { intros b Hs Hn Hc. split; rewrite Hc, ?Hs, ?Hn.
      - intros id. rewrite lookup_fmap, fmap_is_Some. apply Hf.
      - intros d. rewrite connected_ids_refresh. apply Ho. }
    destruct r; [destruct Hr as [_ Hr]; destruct (presence_changed _ _);
                 [destruct Hr as [? ->]|subst]|destruct Hr as [[-> _]|[_ ->]]]; try done; by apply Hb.
  - destruct Hcat as [(_ & _ & -> & _)|(n & sample & s' & changed & _ & Hpr & H)]; [done|].
    apply prune_for_catalog_spec in Hpr as [[_ _ _ Hsub _ _] _].
    destruct changed; [destruct H as (_ & _ & _ & ->)|destruct H as (_ & -> & _)];
      apply (presence_wf_keep a); try done; cbn; auto.
  - rewrite Ha'. by apply (presence_wf_keep a); auto.
Qed.

Lemma presence_started c known st a st' :
  start_playback_actor c known st = (Ok a, st') -> presence_wf a.
Proof.
  intros (_ & _ & _ & Hc & Ho & _)%start_playback_actor_ok. split; rewrite ?Hc, ?Ho; [|set_solver].
  intros id [? ?]. by rewrite lookup_empty in *.
Qed.

(** Sound only goes to connected clients: as long as clients activate
    devices by registering them, every active output of a spawned actor is
    registered by an open connection, through selections, renames, disconnects
    and catalog changes, and a connection id is never handed out twice. *)
Theorem active_outputs_are_connected c known st a st' wakeups r a' :
  start_playback_actor c known st = (Ok a, st') ->
  Forall (wakeup_allowed client_command) wakeups -> run wakeups a = (r, a') ->
  (forall d, d ∈ active_output_device_ids (actor_state a') ->
     exists id reg, registered (connections a') id reg /\ registration_client_id reg = d) /\
  (forall id, is_Some (connections a' !! id) -> id < next_connection_id a').
Proof.
  intros Hst Hall Hrun. apply presence_started in Hst.
  assert (presence_wf a') as [Hf Ho].
  { eapply (run_invariant client_command); [done|apply presence_step_wf| |done|exact Hrun|done].
    intros e b b' [-> _ _ _] [? ?]. by split. }
  split; [|done]. intros d Hd. by apply elem_of_connected_ids, Ho.
Qed.

End Presence.

(* ------------------------------------------------------------------ *)
(** ** Witness *)

Lemma session_start_clients : Forall (wakeup_allowed client_command) session_start.
Proof. repeat constructor. Qed.

Lemma active_outputs_are_connected_witness :
  active_output_device_ids (actor_state running) = ["tablet"%string] /\
  exists id reg, registered (connections running) id reg /\ registration_client_id reg = "tablet"%string.
Proof.
  split; [vm_compute; reflexivity|].
  apply (active_outputs_are_connected PlaybackActorConfig_default sample_catalog empty_table
    (spawned empty_table) (actor_store (spawned empty_table)) session_start (Ok ()) running).
  - vm_compute. reflexivity.
  - apply session_start_clients.
  - vm_compute. reflexivity.
  - assert (active_output_device_ids (actor_state running) = ["tablet"%string]) as ->
      by (vm_compute; reflexivity).
    by apply list_elem_of_singleton.
Defined.

(* ------------------------------------------------------------------ *)
(** * Publications of the playback actor *)

#[local] Open Scope N_scope.

Lemma unreported_materialize s now : unreported (materialize_positions s now) = unreported s.
Proof.
  destruct s as [? ? ? ? ? ? ? ? ? ? ? ? ? [? ? ? ? [] ? ? ?] [[? ? ? []]|] ? ?];
    unfold materialize_positions, materialize_ambient, materialize_interrupt, unreported; cbn;
    repeat case_match; reflexivity.
Qed.

(** [p] shows the state [s], but for where its tracks are. *)
Definition shows (p : PlaybackPublication) (s : PlaybackState) : Prop :=
  publication_revision (publication_state p) = publication_revision s /\
  unreported (publication_state p) = unreported s.

Lemma publication_shows s conns sample : shows (publication s conns sample) s.
Proof.
  split; [|apply unreported_materialize]. apply materialize_settings.
Qed.

Lemma shows_reported p s device position sample :
  shows p s -> shows p (report_position device position sample s).
Proof.
  intros [Hr Hu]. split; [|by rewrite unreported_report]. rewrite Hr.
  pose proof (report_position_frame device position sample s) as Hf.
  unfold lane_frame, settings_of in Hf. congruence.
Qed.

(** [q] follows [p]: a new revision, or the same state under the same one. *)
Definition next_publication (p q : PlaybackPublication) : Prop :=
  publication_revision (publication_state q) = publication_revision (publication_state p) + 1 \/
  shows q (publication_state p).

Definition numbered (l : list PlaybackPublication) : Prop :=
  forall i p q, l !! i = Some p -> l !! S i = Some q -> next_publication p q.

Lemma numbered_snoc l p q :
  numbered l -> last l = Some p -> next_publication p q -> numbered (l ++ [q]).
Proof.
  intros Hl Hlast Hpq i x y Hx Hy. rewrite last_lookup in Hlast.
  apply lookup_app_Some in Hy as [Hy|[Hge Hy]].
  - eapply Hl; [|exact Hy]. rewrite lookup_app_l in Hx; [done|]. apply lookup_lt_Some in Hy. lia.
  - apply list_lookup_singleton_Some in Hy as [Hi <-].
    rewrite lookup_app_l in Hx by lia. replace (pred (length l)) with i in Hlast by lia. congruence.
Qed.

(** A policy that is already followed leaves an unchanged reduction alone, and
    what is saved at once is also published. *)
Lemma immediate_publishes known s command context red :
  reduce s command context = Ok red ->
  persistence (with_output_policy known red) = PersistenceIntent_Immediate ->
  publish_state (with_output_policy known red) = true.
Proof.
  destruct (with_output_policy_intent known red) as (-> & -> & _).
  intros (pub & per & H & Hflags)%reduce_inv Hper.
  destruct (negb (changed red) && _) eqn:Hcond; destruct Hflags as [-> Hp]; [congruence|].
  rewrite Hper in Hp. subst per.
  pose proof (apply_command_flags _ _ _ _ _ _ _ _ H) as (Hthr & Himm & Hnone).
  destruct (changed red); cbn in Hcond.
  - destruct (is_report command); [by destruct (Hthr eq_refl eq_refl)|by destruct (Himm eq_refl eq_refl)].
  - destruct (Hnone eq_refl) as [Hevs|[_ ?]]; [|done]. by rewrite Hevs in Hcond.
Qed.

Section Publications.
Context {text store : Type}.
Context `{!SerdeJson text} `{!PlaybackStateStore text store}.
Context `{!PlaybackStateStoreSpec text store}.
Context {clk : PlaybackClock} {clk_spec : PlaybackClockSpec} {rnd : QueueRandom}.

#[local] Notation actor := (PlaybackActor store).
Implicit Types (a : actor).

(** The last publication shows the state of the actor and, if [clients], its
    connections. *)
Definition published_ok (clients : Prop) a : Prop :=
  numbered (published a) /\
  exists p, last (published a) = Some p /\ shows p (actor_state a) /\
    (clients -> publication_clients p = connected_clients (connections a)).

Lemma published_ok_keep clients a a' :
  published a' = published a -> (forall p, shows p (actor_state a) -> shows p (actor_state a')) ->
  connected_clients (connections a') = connected_clients (connections a) ->
  published_ok clients a -> published_ok clients a'.
Proof. intros Hp Hs Hc (Hn & p & Hl & Hsh & Hcl). split; rewrite Hp; [done|]. exists p. rewrite Hc. auto. Qed.

Lemma published_ok_next clients s sample a a' :
  published a' = published a ++ [publication s (connections a') sample] -> actor_state a' = s ->
  publication_revision s = publication_revision (actor_state a) + 1 \/ s = actor_state a ->
  published_ok clients a -> published_ok clients a'.
Proof.
  intros Hp Hs Hrev (Hn & p & Hl & [Hr Hu] & Hcl). split; rewrite Hp.
  - eapply numbered_snoc; [done..|].
    destruct (publication_shows s (connections a') sample) as [Hr' Hu'].
    destruct Hrev as [Hrev| ->]; [left; congruence|right; split; congruence].
  - eexists. split; [by rewrite last_snoc|]. rewrite Hs. split; [apply publication_shows|done].
Qed.

Lemma externally_committed_published clients s conns durable presence sample a v a' :
  (presence = false -> connected_clients conns = connected_clients (connections a)) ->
  externally_committed s conns durable presence sample a v a' ->
  published_ok clients a -> published_ok clients a'.
Proof.
  unfold externally_committed. intros Hpres H Hp.
  destruct (negb durable && negb presence) eqn:Hb.
  - destruct H as (_ & -> & _). apply andb_prop in Hb as [_ Hb%negb_true_iff].
    apply (published_ok_keep _ a); try done. cbn. auto.
  - destruct H as (_ & _ & -> & _). eapply published_ok_next; [done|done|by left|done].
Qed.

Lemma presence_unchanged before after :
  presence_changed before after = false -> connected_clients after = connected_clients before.
Proof. unfold presence_changed. by intros ->%negb_false_iff%bool_decide_eq_true. Qed.

Lemma published_step allowed clients a a' :
  (clients -> forall n, exists sample, clock_sample n = Ok sample) ->
  actor_step allowed a a' -> actor_wf a ->
  (forall id, is_Some (connections a !! id) -> id < next_connection_id a) ->
  published_ok clients a -> published_ok clients a'.
Proof.
  intros Hclock Hstep [Hst _] Hfresh Hp.
  destruct Hstep as [[-> _]|e _ [-> _ _ _]|resolved n sample choice red v _ _ _ Hred Hcom
    |id -> ->|id registration v (_ & record & Hid & Hreg)|id v (record & sample & Hid & Hclose)
    |client_id remembered def r (_ & Hr)|next cc v (_ & Hcat)|n sample _ _ _ Ha'
    |sample id looping Hl ->|id Hl ->]; try done.
  - revert Hcom. unfold committed. destruct (persistence _) eqn:Hper.
    + by intros (_ & -> & _).
    + destruct (throttled_report _ _ _ _ _ Hst Hred Hper) as (-> & _ & _ & device & position & Hrep).
      intros (_ & -> & _). apply (published_ok_keep _ a); try done. cbn.
      intros p. rewrite Hrep. apply shows_reported.
    + rewrite (immediate_publishes _ _ _ _ _ Hred Hper).
      destruct (changed _); [|by intros (_ & -> & _)].
      intros (candidate & [_ ->] & _ & _ & ->). eapply published_ok_next; [done|done|by left|done].
  - apply (published_ok_keep _ a); try done. cbn. by rewrite connected_clients_open.
  - destruct Hreg as [(_ & -> & _)|[sample Hreg]]; [done|].
    eapply externally_committed_published; [apply presence_unchanged|exact Hreg|done].
  - eapply externally_committed_published; [apply presence_unchanged|exact Hclose|done].
  - destruct r.
    + destruct Hr as [_ Hr]. destruct (presence_changed _ _) eqn:Hpres.
      * destruct Hr as [sample ->]. eapply published_ok_next; [done|done|by right|done].
      * subst a'. apply (published_ok_keep _ a); try done. cbn. by apply presence_unchanged.
    + destruct Hr as [[-> _]|[Herr ->]]; [done|]. destruct Hp as (Hn & p & Hl & Hs & _).
      split; [done|]. exists p. split_and!; [done..|]. intros Hc.
      destruct (Hclock Hc (clock_reads a)) as [sample ?]. congruence.
  - destruct Hcat as [(_ & _ & -> & _)|(n & sample & s' & changed & _ & _ & H)]; [done|].
    destruct changed; cbn in H.
    + destruct H as (_ & _ & _ & ->). eapply published_ok_next; [done|done|by left|done].
    + destruct H as (_ & -> & _). by apply (published_ok_keep _ a).
  - rewrite Ha'. by apply (published_ok_keep _ a).
Qed.

Definition watched (clients : Prop) a : Prop := actor_wf a /\ presence_wf a /\ published_ok clients a.

Lemma run_watched clients c known st a st' wakeups r a' :
  (clients -> forall n, exists sample, clock_sample n = Ok sample) ->
  start_playback_actor c known st = (Ok a, st') ->
  Forall (wakeup_allowed client_command) wakeups -> run wakeups a = (r, a') -> watched clients a'.
Proof.
  intros Hclock Hst Hall Hrun.
  eapply (run_invariant client_command); [done| | |done|exact Hrun|].
  - intros b b' Hs (Hw & Hp & Hpub). split_and!; [by eapply actor_step_wf|by eapply presence_step_wf|].
    eapply published_step; [done|done|done|apply Hp|done].
  - intros e b b' [-> _ _ _] ([] & [] & (? & p & ? & ? & ?)).
    split_and!; [by split|by split|split; [done|by exists p]].
  - pose proof (presence_started _ _ _ _ _ Hst) as Hp.
    apply start_playback_actor_ok in Hst as (Hw & _ & _ & Hc & _ & _ & _ & _ & sample & Hpub).
    split_and!; [done|done|]. split; rewrite Hpub.
    + intros [|i] p q; cbn; [done|]. by destruct i.
    + eexists. split; [done|]. split; [apply publication_shows|]. by rewrite Hc.
Qed.

(** C34: watchers see the current state: after any run, whether or not it ended
    in an error, the last publication has the revision of the actor's state and
    shows all of it except where the tracks are since the last report; while
    the clock can be read it also lists exactly the connected clients. *)
Theorem last_publication_is_current c known st a st' wakeups r a' :
  start_playback_actor c known st = (Ok a, st') ->
  Forall (wakeup_allowed client_command) wakeups -> run wakeups a = (r, a') ->
  exists p, last (published a') = Some p /\
    publication_revision (publication_state p) = publication_revision (actor_state a') /\
    unreported (publication_state p) = unreported (actor_state a') /\
    ((forall n, exists sample, clock_sample n = Ok sample) ->
     publication_clients p = connected_clients (connections a')).
Proof.
  intros Hst Hall Hrun.
  destruct (run_watched (forall n, exists sample, clock_sample n = Ok sample)
    _ _ _ _ _ _ _ _ id Hst Hall Hrun) as (_ & _ & _ & p & Hl & [? ?] & ?).
  by exists p.
Qed.

(** Publication revisions count without gaps: of two consecutive
    publications the later has the next revision, or it has the same revision
    and the same state (a change of a client's remembered name). *)
Theorem publications_are_numbered c known st a st' wakeups r a' i p q :
  start_playback_actor c known st = (Ok a, st') ->
  Forall (wakeup_allowed client_command) wakeups -> run wakeups a = (r, a') ->
  published a' !! i = Some p -> published a' !! S i = Some q ->
  publication_revision (publication_state q) = publication_revision (publication_state p) + 1 \/
  publication_revision (publication_state q) = publication_revision (publication_state p) /\
  unreported (publication_state q) = unreported (publication_state p).
Proof.
  intros Hst Hall Hrun. destruct (run_watched False _ _ _ _ _ _ _ _ ltac:(done) Hst Hall Hrun)
    as (_ & _ & Hn & _). apply Hn.
Qed.

End Publications.

(* ------------------------------------------------------------------ *)
(** ** Witnesses *)

Lemma last_publication_is_current_witness :
  exists p, last (published running) = Some p /\
    publication_revision (publication_state p) = 4 /\
    unreported (publication_state p) = unreported (actor_state running) /\
    publication_clients p = [mkConnectedClient "tablet" "Tablet" true].
Proof.
  destruct (last_publication_is_current PlaybackActorConfig_default sample_catalog empty_table
    (spawned empty_table) (actor_store (spawned empty_table)) session_start (Ok ()) running)
    as (p & Hl & Hr & Hu & Hc).
  - vm_compute. reflexivity.
  - apply session_start_clients.
  - vm_compute. reflexivity.
  - exists p. split; [exact Hl|]. split; [rewrite Hr; vm_compute; reflexivity|]. split; [exact Hu|].
    rewrite Hc by (intros n; by eexists). vm_compute. reflexivity.
Defined.

(** The tablet is renamed: the watchers get the new name under revision 4. *)
Definition renamed : PlaybackActor Table :=
  (run [Received (RefreshClientMetadata "tablet" (Some "Kitchen tablet"%string) true)] running).2.

Lemma publications_are_numbered_witness :
  exists p q, published renamed !! 4%nat = Some p /\ published renamed !! 5%nat = Some q /\
    publication_revision (publication_state q) = publication_revision (publication_state p) /\
    client_name <$> publication_clients p = ["Tablet"%string] /\
    client_name <$> publication_clients q = ["Kitchen tablet"%string].
Proof.
  assert (exists p q, published renamed !! 4%nat = Some p /\ published renamed !! 5%nat = Some q /\
    client_name <$> publication_clients p = ["Tablet"%string] /\
    client_name <$> publication_clients q = ["Kitchen tablet"%string] /\
    publication_revision (publication_state q) <> publication_revision (publication_state p) + 1)
    as (p & q & Hp & Hq & Hcp & Hcq & Hne).
  { eexists _, _. vm_compute. by split_and!. }
  assert (start_playback_actor PlaybackActorConfig_default sample_catalog empty_table
          = (Ok (spawned empty_table), actor_store (spawned empty_table))) as Hstart
    by (vm_compute; reflexivity).
  assert (run (session_start ++ [Received (RefreshClientMetadata "tablet" (Some "Kitchen tablet"%string) true)])
            (spawned empty_table) = (Ok (), renamed)) as Hrun by (vm_compute; reflexivity).
  assert (Forall (wakeup_allowed client_command)
    (session_start ++ [Received (RefreshClientMetadata "tablet" (Some "Kitchen tablet"%string) true)]))
    as Hall by (apply Forall_app; split; [apply session_start_clients|by repeat constructor]).
  exists p, q. split; [exact Hp|]. split; [exact Hq|]. split; [|split; [exact Hcp|exact Hcq]].
  destruct (publications_are_numbered _ _ _ _ _ _ _ _ _ _ _ Hstart Hall Hrun Hp Hq) as [H|[H _]];
    [by destruct (Hne H)|exact H].
Defined.
