(* ===== verification/ActorErrors.v ===== *)
(** * Errors of the playback actor

    A message that fails leaves the actor exactly as it was; which messages are
    refused; and which errors stop the actor. *)

From S2P Require Import Prelude PlaybackState Reducer ReducerLemmas LaneSpec ReducerSpec.
From S2P Require Import CommitSpec Persistence Store Catalog References.
From S2P Require Import CatalogSpec Presence Actor ActorMessages ActorLemmas.
From S2P Require Import ActorSpec ActorMessages.

#[local] Open Scope N_scope.

Definition reply_error (reply : Reply) : option PlaybackActorError :=
  match reply with
  | ReplyResult (Err e) | ReplyPublication (Err e) | ReplyConnection (Err e) => Some e
  | _ => None
  end.

(** The messages whose fatal errors are only reported, not acted on. *)
Definition only_replies (message : ActorMessage) : bool :=
  match message with
  | Snapshot | OpenConnection | RefreshClientMetadata _ _ _ => true
  | _ => false
  end.

Section Errors.
Context {text store : Type}.
Context `{!SerdeJson text} `{!PlaybackStateStore text store}.
Context `{!PlaybackStateStoreSpec text store}.
Context {clk : PlaybackClock} {clk_spec : PlaybackClockSpec} {rnd : QueueRandom}.

#[local] Notation actor := (PlaybackActor store).
Implicit Types (a : actor).

Lemma reply_command_error operation a reply r a' e :
  (forall e a', operation a = (Err e, a') -> refused e a a') ->
  reply_command operation a = (reply, r, a') -> reply_error reply = Some e ->
  refused e a a' /\ r = if is_fatal e then Err e else Ok ().
Proof.
  unfold reply_command. intros Hop. destruct (operation a) as [[v|e'] a1] eqn:E.
  - by intros [= <- _ _].
  - intros [= <- <- <-] [= ->]. auto.
Qed.

Lemma execute_refused resolved a e a' : execute resolved a = (Err e, a') -> refused e a a'.
Proof. by intros H%execute_inv. Qed.

Lemma replace_refused next cc a e a' : replace_catalog next cc a = (Err e, a') -> refused e a a'.
Proof. by intros H%replace_catalog_inv. Qed.

(** C19: a message that is answered with an error leaves the state, the
    revisions, the deadlines, the catalog, the publications and the events
    untouched, and the store too unless the store itself failed. It leaves the
    connections untouched as well, except that a metadata refresh that finds the
    clock unreadable when it wants to publish keeps the refreshed records. A
    fatal error stops the actor, except in answer to a snapshot, an opened
    connection or a metadata refresh, where it is only reported. *)
Theorem failed_message_changes_nothing message a reply r a' e :
  handle_message message a = (reply, r, a') -> reply_error reply = Some e ->
  actor_state a' = actor_state a /\ storage_revision a' = storage_revision a /\
  dirty_position a' = dirty_position a /\ loop_deadlines_ms a' = loop_deadlines_ms a /\
  catalog a' = catalog a /\ published a' = published a /\ emitted a' = emitted a /\
  (is_fatal e = false \/ only_replies message = true -> actor_store a' = actor_store a) /\
  match message with
  | RefreshClientMetadata client_id remembered_name is_default_output =>
      connections a' = connections a \/
      clock_sample (clock_reads a) = Err e /\
      connections a' = refresh_record client_id remembered_name is_default_output <$> connections a
  | _ => connections a' = connections a
  end /\
  r = if is_fatal e && negb (only_replies message) then Err e else Ok ().
Proof.
  intros H He.
  assert (only_replies message = false -> refused e a a' /\ r = if is_fatal e then Err e else Ok ())
    as Hcommands.
  { destruct message; try done; intros _; cbn [handle_message] in H;
      (eapply reply_command_error; [|exact H|exact He]); intros e' a1 Hop.
    - by apply execute_refused in Hop.
    - unfold execute_ambient_skip_next in Hop. act_simpl Hop. by apply execute_refused in Hop.
    - by apply register_connection_inv in Hop.
    - by apply disconnect_inv in Hop.
    - by apply replace_refused in Hop.
    - unfold replace_library_catalog in Hop. act_simpl Hop. by apply replace_refused in Hop.
    - unfold replace_mode_catalog in Hop. act_simpl Hop. by apply replace_refused in Hop. }
  destruct (only_replies message) eqn:Hm.
  - rewrite andb_false_r. clear Hcommands. destruct message; try done; cbn [handle_message] in H.
    + unfold snapshot in H. act_simpl H. unfold sample_clock in H.
      destruct (clock_sample _); injection H as <- <- <-; by split_and!.
    + destruct (open_connection a) as [id a1] eqn:E. apply open_connection_inv in E.
      injection H as <- <- <-. destruct id; [done|]. destruct E as [_ ->]. by split_and!.
    + destruct (refresh_client_metadata _ _ _ a) as [v a1] eqn:E.
      apply refresh_client_metadata_inv in E as [Hst E]. injection H as <- <- <-.
      destruct v as [v|e']; [done|]. injection He as ->.
      destruct E as [[-> _]|[Hclock E]].
      * split_and!; [done..|by left|done].
      * rewrite E. split_and!; [done..| |by right|done]. intros _. by rewrite <- E.
  - rewrite andb_true_r. destruct (Hcommands eq_refl) as [[Heq Hst _ _] ->].
    rewrite Heq. split_and!; [done..| |by destruct message|done].
    intros [Hfatal|]; [|done]. rewrite <- Heq. by apply Hst.
Qed.

(** Commands resolved against an outdated catalog are refused: a command
    that refers to the library or the modes is only applied when it names the
    generation the actor has loaded, and the refusal reads no clock, draws no
    random number and touches nothing. *)
Theorem stale_command_is_refused resolved a :
  command_requires_catalog (resolved_command resolved) = true ->
  resolved_generation resolved <> Some (catalog_generation (catalog a)) ->
  execute resolved a =
    (Err match resolved_generation resolved with
         | Some generation => StaleCatalog generation (catalog_generation (catalog a))
         | None => MissingCatalogResolution
         end, a).
Proof.
  intros Hc Hg. unfold execute, validate_resolved_command, mbind, stateful_bind, gets, try. cbn.
  rewrite Hc. destruct (resolved_generation resolved) as [generation|]; cbn; [|done].
  rewrite bool_decide_eq_false_2; [done|congruence].
Qed.

(** A selection of outputs that are neither active nor connected is refused
    naming exactly those devices, and a report from a device that is not an
    active output is refused; neither changes anything. *)
Theorem outputs_are_checked a device_ids device position :
  let unknown := filter (fun d => d ∉ active_output_device_ids (actor_state a) /\
                                  d ∉ connected_client_ids (connections a)) device_ids in
  (unknown <> [] ->
   execute (resolved_direct (SetActiveOutputs device_ids)) a = (Err (DisconnectedOutput unknown), a)) /\
  (device ∉ active_output_device_ids (actor_state a) ->
   execute (resolved_direct (ReportPosition device position)) a
   = (Err (InactivePositionReporter device), a)).
Proof.
  cbv zeta. unfold execute, validate_resolved_command, validate_live_references, validate_outputs,
    mbind, stateful_bind, gets, try. cbn. split.
  - assert (retain (fun d => negb (contains d (active_output_device_ids (actor_state a)))
        && negb (bool_decide (d ∈ connected_client_ids (connections a)))) device_ids
      = filter (fun d => d ∉ active_output_device_ids (actor_state a) /\
                         d ∉ connected_client_ids (connections a)) device_ids) as ->.
    { unfold retain, contains. induction device_ids as [|d l IH]; [done|].
      rewrite filter_cons. cbn [List.filter]. rewrite IH.
      repeat case_bool_decide; cbn; case_decide; tauto || done. }
    intros Hne. by destruct (filter _ device_ids).
  - intros Hn. unfold contains. by rewrite bool_decide_eq_false_2.
Qed.

(** Catalogs never go back: a replacement older in either generation is
    refused without effect, and after a catalog message both generations are
    at least what they were. *)
Theorem catalog_generations_never_regress next content_changed a r a' :
  replace_catalog next content_changed a = (r, a') ->
  let old := catalog_generation (catalog a) in
  (generation_library (catalog_generation next) < generation_library old \/
   generation_modes (catalog_generation next) < generation_modes old ->
   r = Err CatalogGenerationRegressed /\ a' = a) /\
  generation_library old <= generation_library (catalog_generation (catalog a')) /\
  generation_modes old <= generation_modes (catalog_generation (catalog a')) /\
  (forall v, r = Ok v -> catalog a' = next).
Proof.
  intros H. cbv zeta. split.
  { intros Hlt. unfold replace_catalog in H. act_simpl H.
    assert ((generation_library (catalog_generation next) <? generation_library (catalog_generation (catalog a)))
      || (generation_modes (catalog_generation next) <? generation_modes (catalog_generation (catalog a)))
      = true) as Hb by (rewrite orb_true_iff, !N.ltb_lt; exact Hlt).
    rewrite Hb in H. by injection H as <- <-. }
  apply replace_catalog_inv in H. destruct r as [v|e].
  2: { destruct H as [-> _ _ _]. cbn. split_and!; [lia|lia|done]. }
  destruct H as [[Hl Hm] [(-> & _ & -> & _)|(n & sample & s' & changed & _ & _ & H)]].
  { split_and!; [lia|lia|done]. }
  assert (catalog a' = next) as ->; [|done].
  destruct changed; cbn in H; [by destruct H as (_ & _ & _ & ->)|by destruct H as (_ & -> & _)].
Qed.

End Errors.

(* ------------------------------------------------------------------ *)
(** ** Witnesses *)

Lemma failed_message_changes_nothing_witness :
  exists reply a', handle_message (Disconnect 9) running = (reply, Ok (), a') /\
    reply_error reply = Some (UnknownConnection 9) /\ actor_state a' = actor_state running.
Proof.
  destruct (handle_message (Disconnect 9) running) as [[reply r] a'] eqn:H.
  assert (reply_error reply = Some (UnknownConnection 9)) as He.
  { change (reply_error (reply, r, a').1.1 = Some (UnknownConnection 9)). rewrite <- H.
    vm_compute. reflexivity. }
  destruct (failed_message_changes_nothing _ _ _ _ _ _ H He) as (Hsame & _ & _ & _ & _ & _ & _ & _ & _ & ->).
  exists reply, a'. split; [reflexivity|]. split; [exact He|exact Hsame].
Defined.

Lemma stale_command_is_refused_witness :
  (execute (resolved_at_generation (AmbientPlayTrack 4%positive) (mkCatalogGeneration 1 0)) running).1
  = Err (StaleCatalog (mkCatalogGeneration 1 0) (mkCatalogGeneration 1 1)).
Proof.
  rewrite (stale_command_is_refused
    (resolved_at_generation (AmbientPlayTrack 4%positive) (mkCatalogGeneration 1 0)) running);
    [vm_compute; reflexivity|reflexivity|vm_compute; by intros [=]].
Defined.

Lemma outputs_are_checked_witness :
  execute (resolved_direct (SetActiveOutputs ["attic"; "tablet"]%string)) running
  = (Err (DisconnectedOutput ["attic"%string]), running).
Proof.
  destruct (outputs_are_checked running ["attic"; "tablet"]%string "attic" 0) as [H _].
  apply H. vm_compute. by intros [=].
Defined.

Lemma catalog_generations_never_regress_witness :
  let next := mkCatalogSnapshot (mkCatalogGeneration 0 5) None None in
  replace_catalog next false running = (Err CatalogGenerationRegressed, running).
Proof.
  intros next. destruct (replace_catalog next false running) as [r a'] eqn:H.
  destruct (catalog_generations_never_regress next false running r a' H) as [Hr _].
  destruct Hr as [-> ->]; [left; vm_compute; reflexivity|reflexivity].
Defined.
