(* ===== verification/ActorEffects.v ===== *)
(** * Timed effects of the playback actor

    Looping effects fire when their deadline has passed and are re-armed; the
    track that runs out first is advanced; the timer sleeps until the next of
    these events. *)

From S2P Require Import Prelude PlaybackState Reducer ReducerLemmas LaneSpec ReducerSpec.
From S2P Require Import CommitSpec Persistence Store Catalog References CatalogSpec Presence Actor.
From S2P Require Import ActorMessages ActorLemmas ActorSpec ActorSafety.
From Stdlib Require Import SpecFloat.

#[local] Open Scope N_scope.

(* ------------------------------------------------------------------ *)
(** ** Deadlines *)

Lemma loop_interval_positive looping : 1 <= loop_interval_ms looping.
Proof. unfold loop_interval_ms. lia. Qed.

(** The deadline a loop gets when it is armed at [now]. *)
Definition armed_at (now : N) (looping : LoopingSfx) : N :=
  u64_saturating_add now (loop_interval_ms looping).

(** A deadline after [now], or the last instant there is. *)
Definition beyond (now deadline : N) : Prop := now < deadline \/ deadline = u64_max.

Lemma armed_later now later looping : now <= later -> beyond now (armed_at later looping).
Proof.
  unfold beyond, armed_at, u64_saturating_add. pose proof (loop_interval_positive looping). lia.
Qed.

Lemma find_loop_cons id looping loops :
  find_loop id (looping :: loops) = if decide (loop_id looping = id) then Some looping else find_loop id loops.
Proof. unfold find_loop. cbn. case_bool_decide; by case_decide. Qed.

Lemma add_deadlines_lookup now loops deadlines id :
  foldl (add_deadline now) deadlines loops !! id
  = match deadlines !! id with
    | Some deadline => Some deadline
    | None => armed_at now <$> find_loop id loops
    end.
Proof.
  revert deadlines. induction loops as [|l loops IH]; intros deadlines; cbn [foldl].
  { by destruct (deadlines !! id). }
  rewrite IH, find_loop_cons. unfold add_deadline.
  destruct (deadlines !! loop_id l) as [d|] eqn:Hl.
  - destruct (deadlines !! id) eqn:Hid; [done|]. case_decide; [congruence|done].
  - case_decide as Hd.
    + subst id. by rewrite lookup_insert_eq, Hl.
    + by rewrite lookup_insert_ne.
Qed.

Lemma retained_lookup previous current restarted deadlines id :
  retained_deadlines previous current restarted deadlines !! id
  = if decide (id ∈ restarted) then None
    else if loop_unchanged previous current id then deadlines !! id else None.
Proof.
  unfold retained_deadlines. apply option_eq. intros d. rewrite map_lookup_filter_Some. cbn.
  case_decide; [naive_solver|]. destruct (loop_unchanged previous current id); naive_solver.
Qed.

(** A failure of the store or the clock, or a full counter. *)
Definition environment_error (e : PlaybackActorError) : bool :=
  match e with
  | Persistence _ | PersistenceConflict | ClockUnavailable | PublicationRevisionOverflow
  | Domain InvalidClock | Domain PositionEpochOverflow => true
  | _ => false
  end.

Lemma commit_environment e : commit_error e = true -> environment_error e = true.
Proof. by destruct e. Qed.

Section Effects.
Context {text store : Type}.
Context `{!SerdeJson text} `{!PlaybackStateStore text store}.
Context `{!PlaybackStateStoreSpec text store}.
Context {clk : PlaybackClock} {clk_spec : PlaybackClockSpec} {rnd : QueueRandom}.

#[local] Notation actor := (PlaybackActor store).
Implicit Types (a : actor).

(** After every commit each running loop has exactly one deadline, and no
    other has one: a loop that kept running as it was keeps its cadence, one
    that was started, restarted or changed is armed one interval from now. *)
Theorem reconcile_loop_deadlines_spec previous restarted now a id :
  loop_deadlines_ms (reconcile_loop_deadlines previous restarted now a).2 !! id
  = (fun looping =>
       if decide (id ∈ restarted) then armed_at now looping
       else if loop_unchanged previous (looping_sfx (actor_state a)) id
       then default (armed_at now looping) (loop_deadlines_ms a !! id)
       else armed_at now looping) <$> find_loop id (looping_sfx (actor_state a)).
Proof.
  cbn. rewrite add_deadlines_lookup, retained_lookup. unfold loop_unchanged.
  destruct (find_loop id (looping_sfx (actor_state a))) as [l|]; cbn; [|by case_decide].
  case_decide; [done|]. destruct (find_loop id previous) as [p|]; cbn; [|done].
  destruct (looping_sfx_eqb p l); [|done]. by destruct (loop_deadlines_ms a !! id).
Qed.

(* ------------------------------------------------------------------ *)
(** ** Firing loops *)

Definition loop_event (looping : LoopingSfx) : DomainEvent :=
  SfxFired (loop_soundboard_id looping) (loop_item_path looping) (loop_volume looping).

(** The actor once the loops [ids] have fired. *)
Definition fired (now : N) (ids : list string) a : actor :=
  let loops := looping_sfx (actor_state a) in
  set_emitted (emitted a ++ omap (fun id => loop_event <$> find_loop id loops) ids)
    (set_loop_deadlines_ms
       (foldl (fun m id => match find_loop id loops with
                           | Some looping => <[id := armed_at now looping]> m
                           | None => delete id m
                           end) (loop_deadlines_ms a) ids) a).

Lemma fire_due_loops_eq sample ids a :
  fire_due_loops sample ids a = (Ok (), fired (monotonic_ms sample) ids a).
Proof.
  revert a. induction ids as [|id ids IH]; intros a.
  { unfold fired. cbn. rewrite app_nil_r. by destruct a. }
  cbn [fire_due_loops]. unfold mbind, stateful_bind.
  assert (exists b, fire_due_loop sample id a = (Ok (), b) /\ fired (monotonic_ms sample) ids b
    = fired (monotonic_ms sample) (id :: ids) a) as (b & -> & Hb); [|by rewrite IH, Hb].
  unfold fire_due_loop, emit_events, gets, modify, mbind, stateful_bind. cbn beta iota.
  destruct (find_loop id (looping_sfx (actor_state a))) as [looping|] eqn:Hf; cbn beta iota.
  - eexists. split; [done|]. unfold fired. cbn. rewrite Hf. cbn. by rewrite <- app_assoc.
  - eexists. split; [done|]. unfold fired. cbn. by rewrite Hf.
Qed.

Lemma fired_deadlines now ids a id d :
  loop_deadlines_ms (fired now ids a) !! id = Some d ->
  (exists looping, d = armed_at now looping) \/ (id ∉ ids /\ loop_deadlines_ms a !! id = Some d).
Proof.
  unfold fired. cbn. generalize (looping_sfx (actor_state a)) as loops. intros loops.
  induction ids as [|x ids IH] using rev_ind; cbn.
  - right. split; [set_solver|done].
  - rewrite foldl_app. cbn. destruct (decide (x = id)) as [->|Hne].
    + destruct (find_loop id loops) as [l|].
      * rewrite lookup_insert_eq. intros [= <-]. left. by exists l.
      * by rewrite lookup_delete_eq.
    + intros H. assert (foldl _ (loop_deadlines_ms a) ids !! id = Some d) as [?|[? ?]]%IH.
      { destruct (find_loop x loops); [by rewrite lookup_insert_ne in H|by rewrite lookup_delete_ne in H]. }
      * by left.
      * right. set_solver.
Qed.

(** The loops that are due, each once, and no other. *)
Lemma elem_of_due now deadlines id :
  id ∈ due_loop_ids now deadlines <-> exists d, deadlines !! id = Some d /\ d <= now.
Proof.
  unfold due_loop_ids. rewrite list_elem_of_fmap. split.
  - intros ([id' d] & -> & Hin). apply list_elem_of_In, List.filter_In in Hin as [Hin Hle].
    apply list_elem_of_In, elem_of_sorted_entries in Hin. exists d. split; [done|].
    cbn in Hle. by apply N.leb_le in Hle.
  - intros (d & Hd & Hle). exists (id, d). split; [done|].
    apply list_elem_of_In, List.filter_In. split.
    + by apply list_elem_of_In, elem_of_sorted_entries.
    + cbn. by apply N.leb_le.
Qed.

Lemma due_NoDup now deadlines : NoDup (due_loop_ids now deadlines).
Proof.
  unfold due_loop_ids. pose proof (NoDup_sorted_keys string_leb deadlines) as Hnd.
  eapply sublist_NoDup; [exact Hnd|]. clear Hnd.
  induction (sorted_entries string_leb deadlines) as [|e l IH]; cbn; [constructor|].
  destruct (e.2 <=? now); cbn; by constructor.
Qed.

(* ------------------------------------------------------------------ *)
(** ** Advancing tracks *)

(** The two commands the timer sends. *)
Definition is_advance (command : PlaybackCommand) : bool :=
  match command with AmbientSkipNext _ _ | InterruptSkipNext _ => true | _ => false end.

Lemma advance_reduction s command context red :
  is_advance command = true -> reduce s command context = Ok red ->
  events red = [] /\ looping_sfx (next_state red) = looping_sfx s.
Proof.
  intros Hadv (pub & per & H & _)%reduce_inv. split.
  - destruct command; try done; cbn [apply_command] in H; unfold durable in H;
      apply bind_ok in H as ([s' b] & _ & H); injection H; congruence.
  - apply lane_command_frame in H; [|by destruct command].
    unfold lane_frame, settings_of in H. congruence.
Qed.

Lemma advance_policy known s command context red :
  is_advance command = true -> reduce s command context = Ok red ->
  events (with_output_policy known red) = [] /\
  looping_sfx (next_state (with_output_policy known red)) = looping_sfx s.
Proof.
  intros Hadv Hred. destruct (advance_reduction _ _ _ _ Hadv Hred) as [He Hl].
  destruct (with_output_policy_intent known red) as (_ & _ & ->). split; [done|].
  unfold with_output_policy. destruct (catalog_modes known); [|done].
  destruct (apply_output_policy _ _) as [s' b] eqn:Hp. cbn.
  apply apply_output_policy_spec in Hp as (_ & _ & _ & _ & -> & _). done.
Qed.

(** An advance emits nothing and leaves no deadline in the past. *)
Lemma execute_advance resolved a v a' t :
  is_advance (resolved_command resolved) = true -> execute resolved a = (Ok v, a') ->
  (forall x, clock_sample (clock_reads a) = Ok x -> t <= monotonic_ms x) ->
  (forall id d, loop_deadlines_ms a !! id = Some d -> beyond t d) ->
  emitted a' = emitted a /\ forall id d, loop_deadlines_ms a' !! id = Some d -> beyond t d.
Proof.
  intros Hadv (_ & sample & choice & red & Hs & Hred & Hcom)%execute_inv Hclock Hd.
  destruct (advance_policy (catalog a) _ _ _ _ Hadv Hred) as [He Hl].
  specialize (Hclock _ Hs).
  revert Hcom. unfold committed. rewrite He, app_nil_r.
  destruct (persistence _); [by intros (_ & -> & _)..|].
  destruct (changed _); [|by intros (_ & -> & _)].
  intros (candidate & _ & _ & _ & ->). cbn. split; [done|].
  intros id d. rewrite add_deadlines_lookup, retained_lookup.
  destruct (decide _); [|destruct (loop_unchanged _ _ _); [destruct (loop_deadlines_ms a !! id) eqn:Hid|]];
    try (intros [= <-]; by eapply Hd);
    (intros (l & _ & ->)%fmap_Some; by apply armed_later).
Qed.

Lemma due_sorted now deadlines : StronglySorted (fun x y => string_leb x y = true) (due_loop_ids now deadlines).
Proof.
  unfold due_loop_ids. pose proof (sorted_entries_sorted string_leb deadlines) as Hs.
  induction (sorted_entries string_leb deadlines) as [|e l IH]; cbn; [constructor|].
  cbn in Hs. apply StronglySorted_inv in Hs as [Hs Hall]. specialize (IH Hs).
  destruct (e.2 <=? now); [|done]. cbn. constructor; [done|].
  apply List.Forall_forall. intros id (e' & <- & [Hin _]%List.filter_In)%List.in_map_iff.
  by apply (proj1 (List.Forall_forall _ _) Hall).
Qed.

(** C35: a turn of the timer fires every loop whose deadline has passed exactly
    once, in the ascending order of their ids, and no other, and leaves every
    deadline beyond the instant it read (or at the last instant a [u64] can
    name): no loop can fire twice for one instant and the timer cannot spin. *)
Theorem due_loops_fire_once a a' :
  actor_wf a -> run_due_effects a = (Ok (), a') ->
  exists sample due loops,
    clock_sample (clock_reads a) = Ok sample /\
    NoDup due /\ StronglySorted (fun x y => string_leb x y = true) due /\
    (forall id, id ∈ due <-> exists d, loop_deadlines_ms a !! id = Some d /\ d <= monotonic_ms sample) /\
    Forall2 (fun id looping => looping ∈ looping_sfx (actor_state a) /\ loop_id looping = id) due loops /\
    emitted a' = emitted a ++ map loop_event loops /\
    forall id d, loop_deadlines_ms a' !! id = Some d -> monotonic_ms sample < d \/ d = u64_max.
Proof.
  intros [_ Hdom] H. unfold run_due_effects in H. act_step H; [|done].
  assert (clock_sample (clock_reads a) = Ok r0) as Hclock by (unfold sample_clock in E; by injection E).
  assert (clock_reads a0 = S (clock_reads a)) as Hreads by (unfold sample_clock in E; by injection E as _ <-).
  apply sample_clock_reads in E. destruct (reads_fields _ _ E)
    as (Hst & _ & _ & _ & Hdl & _ & _ & _ & _ & He & _).
  rewrite fire_due_loops_eq in H. rewrite Hdl in H.
  set (now := monotonic_ms r0) in *. set (due := due_loop_ids now (loop_deadlines_ms a)) in *.
  assert (exists loops, Forall2 (fun id looping => looping ∈ looping_sfx (actor_state a) /\ loop_id looping = id) due loops
    /\ omap (fun id => loop_event <$> find_loop id (looping_sfx (actor_state a))) due = map loop_event loops)
    as (loops & Hloops & Hev).
  { assert (forall id, id ∈ due -> id ∈ loop_ids (actor_state a)) as Hin.
    { intros id (d & Hd & _)%elem_of_due. apply elem_of_dom_2 in Hd. rewrite Hdom in Hd. set_solver. }
    clear -Hin. induction due as [|id l IH]; [by exists []|].
    destruct IH as (loops & Hf & Heq); [set_solver|].
    destruct (find_loop id (looping_sfx (actor_state a))) as [x|] eqn:Hx.
    - exists (x :: loops). split; [constructor; [by apply find_loop_Some|done]|].
      cbn. rewrite Hx. cbn. by rewrite Heq.
    - apply find_loop_None in Hx. exfalso. apply Hx, Hin. set_solver. }
  exists r0, due, loops. split; [done|]. split; [apply due_NoDup|]. split; [apply due_sorted|].
  split; [intros; apply elem_of_due|]. split; [done|].
  set (b := fired now due a0) in *.
  assert (emitted b = emitted a ++ map loop_event loops) as Hb.
  { unfold b, fired. cbn. by rewrite Hst, He, Hev. }
  assert (forall id d, loop_deadlines_ms b !! id = Some d -> beyond now d) as Hdb.
  { intros id d [[l ->]|[Hn Hd]]%fired_deadlines; [by apply armed_later|].
    rewrite Hdl in Hd. destruct (N.lt_ge_cases now d) as [?|Hle]; [by left|].
    destruct Hn. apply elem_of_due. by exists d. }
  destruct (due_plan r0 b) as [plan|]; [|act_simpl H; by injection H as <-].
  act_step H; [|done]. injection H as <-. rewrite <- Hb.
  eapply execute_advance; [|exact E0| |done].
  - unfold effect_command. by destruct (plan_lane plan).
  - intros x Hx. eapply (clock_monotone (clock_reads a)); [|done|exact Hx].
    unfold b, fired. cbn. lia.
Qed.

(* ------------------------------------------------------------------ *)
(** ** The timer cannot be stopped by a command error *)

(** Every track of the library is followed by a known one. *)
Definition successors_known (known : CatalogSnapshot) : Prop :=
  forall tracks id track next, catalog_tracks known = Some tracks -> tracks !! id = Some track ->
    track_follow_next_id track = Some next -> is_Some (tracks !! next).

Lemma effect_admitted plan a :
  successors_known (catalog a) ->
  validate_resolved_command (effect_command plan a) (catalog a) = Ok () /\
  validate_live_references (resolved_command (effect_command plan a)) a = Ok ().
Proof.
  intros Hk. unfold effect_command. destruct (plan_lane plan); [done|].
  unfold validate_resolved_command, validate_live_references. cbn.
  destruct (follow_successor _ a) as [next|] eqn:Hf; [|done]. cbn.
  rewrite bool_decide_eq_true_2 by done. split; [done|].
  unfold follow_successor in Hf. case_match; [|done]. cbn in Hf.
  destruct (catalog_tracks (catalog a)) as [tracks|] eqn:Ht; [|done].
  apply bind_Some in Hf as (? & [= <-] & Hf). apply bind_Some in Hf as (track & Htr & Hn). cbn.
  by rewrite bool_decide_eq_true_2 by by eapply Hk.
Qed.

Lemma execute_advance_error {random_spec : QueueRandomSpec} resolved a e a' :
  is_advance (resolved_command resolved) = true ->
  validate_resolved_command resolved (catalog a) = Ok () ->
  validate_live_references (resolved_command resolved) a = Ok () ->
  execute resolved a = (Err e, a') ->
  environment_error e = true.
Proof.
  unfold execute. intros Hadv Hv1 Hv2 H. act_simpl H. rewrite Hv1, Hv2 in H.
  destruct (sample_clock a) as [[sample|e'] a1] eqn:Hs.
  2: { injection H as <- <-. unfold sample_clock in Hs. injection Hs as Hs _.
       by apply clock_error in Hs as [-> | ->]. }
  apply sample_clock_reads, reads_fields in Hs as (Hst & _).
  destruct (draw_queue_index (resolved_command resolved) a1) as [choice a2] eqn:Hd.
  pose proof (draw_queue_index_inv _ _ _ _ Hd) as (He2 & Hs2 & choice' & ->).
  assert (actor_state a2 = actor_state a) as Hst2 by (rewrite He2; exact Hst).
  rewrite Hst2 in H.
  destruct (reduce (actor_state a) _ _) as [red|e'] eqn:Hred; cbn [map_err] in H.
  { by eapply commit_environment, commit_fails_with. }
  injection H as <- <-. apply reduce_error_reason in Hred.
  assert (ambient_queue (ambient (actor_state a)) <> [] ->
    ambient_shuffle (ambient (actor_state a)) = ShuffleMode_Random ->
    is_ambient_skip_next (resolved_command resolved) = true ->
    exists i, choice' = Some i /\ (i < length (ambient_queue (ambient (actor_state a))))%nat) as Hdraw.
  { intros Hq Hsh Hcmd. unfold draw_queue_index in Hd. rewrite Hst, Hcmd, Hsh in Hd.
    rewrite bool_decide_eq_true_2, bool_decide_eq_false_2 in Hd by done. cbn in Hd.
    injection Hd as <- _. eexists. split; [done|]. apply random_index_lt.
    destruct (ambient_queue _); [done|cbn; lia]. }
  destruct e'; try done; cbn in Hred.
  - destruct Hred as (? & Hcmd & _). by rewrite Hcmd in Hadv.
  - destruct Hred as ((? & ? & Hcmd) & Hq & Hsh & Hnone). rewrite Hcmd in Hdraw.
    destruct (Hdraw Hq Hsh eq_refl) as (i & -> & _). done.
  - destruct Hred as ((? & ? & Hcmd) & Hq & Hsh & i & Hi & Hle). rewrite Hcmd in Hdraw.
    destruct (Hdraw Hq Hsh eq_refl) as (i' & -> & ?). injection Hi as <-. lia.
  - destruct Hred as ((? & ? & Hcmd) & _). by rewrite Hcmd in Hadv.
Qed.

(** The timer is only stopped by its environment: while the successors of
    the catalog are known tracks, running the due effects (which has nobody to
    report an error to, so that any error ends the actor) fails only when the
    store or the clock does or a 64-bit counter is full; no catalog, shuffle or
    admission error can come from it. *)
Theorem due_effects_fail_only_with_the_environment {random_spec : QueueRandomSpec} a e a' :
  successors_known (catalog a) -> run_due_effects a = (Err e, a') ->
  environment_error e = true.
Proof.
  intros Hk H. unfold run_due_effects in H. act_step H.
  2: { injection H as <- <-. unfold sample_clock in E. injection E as E _.
       by apply clock_error in E as [-> | ->]. }
  apply sample_clock_reads, reads_fields in E as (Hst & _ & _ & _ & _ & Hcat & _).
  rewrite fire_due_loops_eq in H. set (b := fired _ _ a0) in *.
  assert (catalog b = catalog a) as Hb by exact Hcat.
  destruct (due_plan r0 b) as [plan|]; act_simpl H; [|done].
  act_step H; [done|]. injection H as <- <-.
  destruct (effect_admitted plan b) as [Hv1 Hv2]; [by rewrite Hb|].
  eapply execute_advance_error; [|exact Hv1|exact Hv2|exact E].
  unfold effect_command. by destruct (plan_lane plan).
Qed.

(* ------------------------------------------------------------------ *)
(** ** The timer *)

Lemma min_by_remaining_spec plans :
  match min_by_remaining plans with
  | None => plans = []
  | Some p => p ∈ plans /\ forall q, q ∈ plans -> (remaining_ms p <= remaining_ms q)%Z
  end.
Proof.
  unfold min_by_remaining. induction plans as [|x plans IH] using rev_ind; [done|].
  rewrite foldl_app. cbn [foldl]. destruct (foldl _ None plans) as [p|]; cbn.
  - destruct IH as [Hin Hmin]. destruct (Z.ltb_spec (remaining_ms x) (remaining_ms p)); (split; [set_solver|]);
      intros q [Hq|Hq%list_elem_of_singleton]%elem_of_app; subst; try lia;
      specialize (Hmin _ Hq); lia.
  - subst plans. cbn. split; [set_solver|]. intros q Hq%list_elem_of_singleton. by subst.
Qed.

Lemma min_Z_spec l :
  match min_Z l with
  | None => l = []
  | Some z => z ∈ l /\ forall y, y ∈ l -> (z <= y)%Z
  end.
Proof.
  unfold min_Z. induction l as [|x l IH] using rev_ind; [done|].
  rewrite foldl_app. cbn [foldl]. destruct (foldl _ None l) as [z|]; cbn.
  - destruct IH as [Hin Hmin]. split.
    + destruct (Z.min_spec z x) as [[_ ->]|[_ ->]]; set_solver.
    + intros y [Hy|Hy%list_elem_of_singleton]%elem_of_app; [specialize (Hmin _ Hy)|]; lia.
  - subst l. cbn. split; [set_solver|]. intros y Hy%list_elem_of_singleton. by subst.
Qed.

Lemma effect_delay_spec z :
  effect_delay z <= MAX_EFFECT_SLEEP /\ (effect_delay z = 0 <-> (z <= 0)%Z) /\
  effect_delay z / nanos_per_ms <= Z.to_N z /\
  (effect_delay z < MAX_EFFECT_SLEEP -> (0 < z)%Z -> effect_delay z = Z.to_N z * nanos_per_ms).
Proof.
  unfold effect_delay, MAX_EFFECT_SLEEP, u64_clamp, nanos_per_ms, nanos_per_second, u64_max.
  destruct (Z.leb_spec z 0); split_and!; try split; intros;
    try (apply N.Div0.div_le_upper_bound); lia.
Qed.

(** What is left, at [sample], of the thing that is due first. *)
Definition next_due (sample : ClockSample) a : option Z :=
  min_Z (option_list (remaining_ms <$> track_effect_plan sample a)
         ++ ((fun entry : string * N => Z.of_N entry.2 - Z.of_N (monotonic_ms sample))%Z
               <$> sorted_entries string_leb (loop_deadlines_ms a))).

(** Something is due at [sample]. *)
Definition effect_due (sample : ClockSample) a : Prop :=
  due_loop_ids (monotonic_ms sample) (loop_deadlines_ms a) <> [] \/ is_Some (due_plan sample a).

Lemma min_Z_app l x : min_Z (x :: l) = Some match min_Z l with Some z => Z.min x z | None => x end.
Proof.
  pose proof (min_Z_spec (x :: l)) as H1. pose proof (min_Z_spec l) as H2.
  destruct (min_Z (x :: l)) as [z|]; [|done]. destruct H1 as [Hin Hmin]. f_equal.
  pose proof (Hmin x ltac:(set_solver)). destruct (min_Z l) as [y|].
  - destruct H2 as [Hy Hmin2]. pose proof (Hmin y ltac:(set_solver)).
    apply elem_of_cons in Hin as [->|Hin%Hmin2]; lia.
  - subst l. by apply list_elem_of_singleton in Hin.
Qed.

Lemma next_effect_delay_eq a sample :
  clock_sample (clock_reads a) = Ok sample ->
  (next_effect_delay a).1 = Ok (effect_delay <$> next_due sample a).
Proof.
  intros Hs. unfold next_effect_delay, mbind, stateful_bind, sample_clock, gets. rewrite Hs. cbn.
  unfold next_due. change (track_effect_plan sample (set_clock_reads _ a)) with (track_effect_plan sample a).
  destruct (track_effect_plan sample a); cbn [option_list option_rect app fmap option_fmap option_map].
  - rewrite min_Z_app. by destruct (min_Z _).
  - by destruct (min_Z _).
Qed.

Lemma due_plan_spec sample a :
  is_Some (due_plan sample a) <->
  exists p, track_effect_plan sample a = Some p /\ (remaining_ms p <= 0)%Z.
Proof.
  unfold due_plan. destruct (track_effect_plan sample a) as [p|]; cbn.
  - destruct (Z.leb_spec (remaining_ms p) 0); split.
    + intros _. by exists p.
    + by eexists.
    + by intros [].
    + intros (p' & [= <-] & ?). lia.
  - split; [by intros []|by intros (? & ? & _)].
Qed.

Lemma next_due_spec sample a :
  match next_due sample a with
  | None => loop_deadlines_ms a = ∅ /\ track_effect_plan sample a = None
  | Some z => ((z <= 0)%Z <-> effect_due sample a)
  end.
Proof.
  unfold next_due, effect_due.
  match goal with |- context [min_Z ?l] => pose proof (min_Z_spec l) as H; destruct (min_Z l) as [z|] end.
  - rewrite due_plan_spec. destruct H as [Hin Hmin].
    assert (forall y, (exists id d, loop_deadlines_ms a !! id = Some d /\ y = (Z.of_N d - Z.of_N (monotonic_ms sample))%Z)
      \/ (exists p, track_effect_plan sample a = Some p /\ y = remaining_ms p) <->
      y ∈ option_list (remaining_ms <$> track_effect_plan sample a)
         ++ ((fun entry : string * N => Z.of_N entry.2 - Z.of_N (monotonic_ms sample))%Z
               <$> sorted_entries string_leb (loop_deadlines_ms a))) as Hel.
    { intros y. rewrite elem_of_app, list_elem_of_fmap. split.
      - intros [(id & d & Hd & ->)|(p & Hp & ->)].
        + right. exists (id, d). split; [done|]. by apply elem_of_sorted_entries.
        + left. rewrite Hp. cbn. by apply list_elem_of_singleton.
      - intros [Hy|([id d] & -> & Hd%elem_of_sorted_entries)].
        + right. destruct (track_effect_plan sample a) as [p|]; cbn in Hy; [|set_solver].
          apply list_elem_of_singleton in Hy. by exists p.
        + left. by exists id, d. }
    split.
    + intros Hz. apply Hel in Hin as [(id & d & Hd & ->)|(p & Hp & ->)]; [left|right; eauto].
      intros Hnil. assert (id ∈ due_loop_ids (monotonic_ms sample) (loop_deadlines_ms a)) as Hd2.
      { apply elem_of_due. exists d. split; [done|lia]. }
      rewrite Hnil in Hd2. set_solver.
    + intros [Hne|(p & Hp & Hle)].
      * destruct (due_loop_ids _ _) as [|id l] eqn:Hd; [done|].
        assert (id ∈ due_loop_ids (monotonic_ms sample) (loop_deadlines_ms a)) as (d & Hdl & Hle)%elem_of_due
          by (rewrite Hd; set_solver).
        etrans; [apply Hmin, Hel; left; by exists id, d|lia].
      * etrans; [apply Hmin, Hel; right; by exists p|done].
  - apply app_eq_nil in H as [Hp Hl]. split; [|by destruct (track_effect_plan sample a)].
    apply fmap_nil_inv in Hl. apply map_eq. intros id. rewrite lookup_empty.
    destruct (loop_deadlines_ms a !! id) as [d|] eqn:Hd; [|done].
    apply (elem_of_sorted_entries string_leb) in Hd. rewrite Hl in Hd. set_solver.
Qed.

(** No lane is anchored after [now], and no track is longer than a position
    can be. *)
Record timely (now : N) a : Prop := {
  timely_ambient : forall t, ambient_position_anchor_ms (ambient (actor_state a)) = Some t -> t <= now;
  timely_interrupt : forall i t, interrupt (actor_state a) = Some i ->
    interrupt_position_anchor_ms i = Some t -> t <= now;
  timely_known : forall id duration, known_duration (catalog a) id = Some duration ->
    u64_saturating_add duration (duration_ms (track_end_grace (config a))) <= MAX_POSITION_MS;
  timely_unknown : u64_saturating_add (duration_ms (interrupt_unknown_duration (config a)))
    (duration_ms (track_end_grace (config a))) <= MAX_POSITION_MS
}.

(** The position, at [now], of a lane anchored at [t]. *)
Definition played (position t now : N) : N :=
  if 0 <? u64_saturating_sub now t
  then bounded_position_add position (u64_saturating_sub now t) else position.

Lemma lane_advances position t now later duration grace :
  t <= now -> now <= later -> u64_saturating_add duration grace <= MAX_POSITION_MS ->
  (remaining_track_ms duration grace (played position t now) <= Z.of_N (later - now))%Z ->
  (remaining_track_ms duration grace (played position t later) <= 0)%Z.
Proof.
  intros Ht Hn Hd. unfold played, remaining_track_ms, bounded_position_add, u64_saturating_sub.
  assert (MAX_POSITION_MS <= u64_max) by (unfold MAX_POSITION_MS, i64_max, u64_max; lia).
  unfold u64_saturating_add in *. destruct (N.ltb_spec 0 (now - t)), (N.ltb_spec 0 (later - t)); lia.
Qed.

Lemma materialized_interrupt s now :
  interrupt (materialize_positions s now) = materialize_interrupt now <$> interrupt s.
Proof. unfold materialize_positions. by destruct (interrupt s) eqn:Hi; cbn; rewrite ?Hi. Qed.

Lemma interrupt_plan_eq now a :
  interrupt_effect_plan (materialize_positions (actor_state a) now) a =
  match interrupt (actor_state a) with
  | Some i =>
      match interrupt_position_anchor_ms i with
      | Some t =>
          [mkTrackEffectPlan
             (remaining_track_ms
                (default (duration_ms (interrupt_unknown_duration (config a)))
                   (known_duration (catalog a) (interrupt_current_track_id i)))
                (duration_ms (track_end_grace (config a))) (played (interrupt_position_ms i) t now))
             TrackLane_Interrupt (interrupt_current_track_id i)]
      | None => []
      end
  | None => []
  end.
Proof.
  unfold interrupt_effect_plan, played. rewrite materialized_interrupt.
  destruct (interrupt (actor_state a)) as [i|]; [|done]. cbn.
  unfold materialize_interrupt. destruct (interrupt_position_anchor_ms i) as [t|] eqn:Ht.
  - destruct (0 <? _); cbn; [done|]. by rewrite Ht.
  - by rewrite Ht.
Qed.

Lemma ambient_plan_eq now a :
  ambient_effect_plan (materialize_positions (actor_state a) now) a =
  match ambient_current_track_id (ambient (actor_state a)),
        ambient_position_anchor_ms (ambient (actor_state a)) with
  | Some track_id, Some t =>
      match known_duration (catalog a) track_id with
      | Some duration =>
          [mkTrackEffectPlan
             (remaining_track_ms duration (duration_ms (track_end_grace (config a)))
                (played (ambient_position_ms (ambient (actor_state a))) t now))
             TrackLane_Ambient track_id]
      | None => []
      end
  | _, _ => []
  end.
Proof.
  unfold ambient_effect_plan, played. rewrite ambient_materialize, materialize_ambient_track.
  destruct (ambient_current_track_id _) as [id|]; [|done]. unfold materialize_ambient.
  destruct (ambient_position_anchor_ms (ambient (actor_state a))) as [t|] eqn:Ht.
  - destruct (0 <? _); cbn; [done|]. by rewrite Ht.
  - by rewrite Ht.
Qed.

Definition lane_plans (sample : ClockSample) a : list TrackEffectPlan :=
  let materialized := materialize_positions (actor_state a) (monotonic_ms sample) in
  interrupt_effect_plan materialized a ++ ambient_effect_plan materialized a.

(** A plan that is due within [later - now] is due at [later]. *)
Lemma lane_plans_advance sample later a p :
  timely (monotonic_ms sample) a -> monotonic_ms sample <= monotonic_ms later ->
  p ∈ lane_plans sample a ->
  (remaining_ms p <= Z.of_N (monotonic_ms later - monotonic_ms sample))%Z ->
  exists q, q ∈ lane_plans later a /\ (remaining_ms q <= 0)%Z.
Proof.
  intros [Ha Hi Hk Hu] Hle Hp Hrem. unfold lane_plans in *.
  rewrite interrupt_plan_eq, ambient_plan_eq in *.
  apply elem_of_app in Hp as [Hp|Hp].
  - destruct (interrupt (actor_state a)) as [i|]; [|set_solver].
    specialize (Hi i). destruct (interrupt_position_anchor_ms i) as [t|]; [|set_solver].
    apply list_elem_of_singleton in Hp. subst p. cbn in Hrem.
    eexists. split; [apply elem_of_app; left; by apply list_elem_of_singleton|]. cbn.
    eapply lane_advances; [by eapply Hi|exact Hle| |exact Hrem].
    destruct (known_duration _ _) eqn:Hkd; cbn; [by eapply Hk|done].
  - destruct (ambient_current_track_id _) as [id|]; [|set_solver].
    destruct (ambient_position_anchor_ms _) as [t|]; [|set_solver].
    destruct (known_duration _ _) eqn:Hkd; [|set_solver].
    apply list_elem_of_singleton in Hp. subst p. cbn in Hrem.
    eexists. split; [apply elem_of_app; right; by apply list_elem_of_singleton|]. cbn.
    eapply lane_advances; [by eapply Ha|exact Hle|by eapply Hk|exact Hrem].
Qed.

Lemma effect_due_later sample later a z :
  timely (monotonic_ms sample) a -> next_due sample a = Some z ->
  monotonic_ms sample <= monotonic_ms later ->
  (z <= Z.of_N (monotonic_ms later - monotonic_ms sample))%Z -> effect_due later a.
Proof.
  intros Ht Hz Hle Hrem. unfold next_due in Hz.
  match type of Hz with min_Z ?l = _ => pose proof (min_Z_spec l) as H end. rewrite Hz in H.
  destruct H as [Hin _]. apply elem_of_app in Hin as [Hin|Hin].
  - right. apply due_plan_spec.
    pose proof (min_by_remaining_spec (lane_plans sample a)) as Hp.
    change (min_by_remaining (lane_plans sample a)) with (track_effect_plan sample a) in Hp.
    destruct (track_effect_plan sample a) as [p|]; [|cbn in Hin; set_solver].
    cbn in Hin. apply list_elem_of_singleton in Hin. subst z. destruct Hp as [Hp _].
    destruct (lane_plans_advance _ _ _ _ Ht Hle Hp Hrem) as (q & Hq & Hqr).
    pose proof (min_by_remaining_spec (lane_plans later a)) as Hp'.
    change (min_by_remaining (lane_plans later a)) with (track_effect_plan later a) in Hp'.
    destruct (track_effect_plan later a) as [p'|]; [|rewrite Hp' in Hq; set_solver].
    exists p'. split; [done|]. destruct Hp' as [_ Hmin]. specialize (Hmin _ Hq). lia.
  - left. apply list_elem_of_fmap in Hin as ([id d] & -> & Hd%elem_of_sorted_entries). cbn in Hrem.
    intros Hnil. assert (id ∈ due_loop_ids (monotonic_ms later) (loop_deadlines_ms a)) as Hin.
    { apply elem_of_due. exists d. split; [done|lia]. }
    rewrite Hnil in Hin. set_solver.
Qed.

Lemma played_slowly position t now later : now <= later -> played position t later <= played position t now + (later - now).
Proof.
  unfold played, bounded_position_add, u64_saturating_sub, u64_saturating_add, MAX_POSITION_MS.
  destruct (N.ltb_spec 0 (now - t)), (N.ltb_spec 0 (later - t)); lia.
Qed.

(** A plan of [later] was a plan before, with at most the elapsed time more left. *)
Lemma lane_plans_wait sample later a q :
  monotonic_ms sample <= monotonic_ms later -> q ∈ lane_plans later a ->
  exists p, p ∈ lane_plans sample a /\
    (remaining_ms p <= remaining_ms q + Z.of_N (monotonic_ms later - monotonic_ms sample))%Z.
Proof.
  intros Hle Hq. unfold lane_plans in *. rewrite interrupt_plan_eq, ambient_plan_eq in *.
  apply elem_of_app in Hq as [Hq|Hq].
  - destruct (interrupt (actor_state a)) as [i|]; [|set_solver].
    destruct (interrupt_position_anchor_ms i) as [t|]; [|set_solver].
    apply list_elem_of_singleton in Hq. subst q.
    eexists. split; [apply elem_of_app; left; by apply list_elem_of_singleton|]. cbn. unfold remaining_track_ms.
    pose proof (played_slowly (interrupt_position_ms i) t _ _ Hle). lia.
  - destruct (ambient_current_track_id _) as [id|]; [|set_solver].
    destruct (ambient_position_anchor_ms _) as [t|]; [|set_solver].
    destruct (known_duration _ _) eqn:Hkd; [|set_solver].
    apply list_elem_of_singleton in Hq. subst q.
    eexists. split; [apply elem_of_app; right; by apply list_elem_of_singleton|]. cbn. unfold remaining_track_ms.
    pose proof (played_slowly (ambient_position_ms (ambient (actor_state a))) t _ _ Hle). lia.
Qed.

Lemma nothing_due_before sample later a z :
  next_due sample a = Some z -> monotonic_ms sample <= monotonic_ms later ->
  (Z.of_N (monotonic_ms later - monotonic_ms sample) < z)%Z -> ~ effect_due later a.
Proof.
  intros Hz Hle Hlt. unfold next_due in Hz.
  match type of Hz with min_Z ?l = _ => pose proof (min_Z_spec l) as H end. rewrite Hz in H.
  destruct H as [_ Hmin]. intros [Hne|(q & Hq & Hle0)%due_plan_spec].
  - destruct (due_loop_ids _ _) as [|id l] eqn:Hd; [done|].
    assert (id ∈ due_loop_ids (monotonic_ms later) (loop_deadlines_ms a)) as (d & Hdl & Hdue)%elem_of_due
      by (rewrite Hd; set_solver).
    enough (z <= Z.of_N d - Z.of_N (monotonic_ms sample))%Z by lia. apply Hmin, elem_of_app. right.
    apply list_elem_of_fmap. exists (id, d). split; [done|]. by apply elem_of_sorted_entries.
  - pose proof (min_by_remaining_spec (lane_plans later a)) as Hp'.
    change (min_by_remaining (lane_plans later a)) with (track_effect_plan later a) in Hp'.
    rewrite Hq in Hp'. destruct Hp' as [Hin _].
    destruct (lane_plans_wait _ _ _ _ Hle Hin) as (p & Hp & Hrem).
    pose proof (min_by_remaining_spec (lane_plans sample a)) as Hs.
    change (min_by_remaining (lane_plans sample a)) with (track_effect_plan sample a) in Hs.
    destruct (track_effect_plan sample a) as [p0|]; [|rewrite Hs in Hp; set_solver].
    destruct Hs as [_ Hs]. specialize (Hs _ Hp).
    enough (z <= remaining_ms p0)%Z by lia. apply Hmin, elem_of_app. left. by apply list_elem_of_singleton.
Qed.

(** C36: the timer is exact: it is unarmed exactly when no loop runs and no
    track of known end plays; otherwise it sleeps at most a day, not at all
    exactly when something is due, nothing becomes due before it wakes, and
    when it does, unless the day cut the sleep short, something is due, given
    that no lane is anchored in the future and no track is longer than a
    position can be. *)
Theorem effect_timer_is_exact a delay a' :
  next_effect_delay a = (Ok delay, a') ->
  exists sample, clock_sample (clock_reads a) = Ok sample /\
    (delay = None <-> loop_deadlines_ms a = ∅ /\ track_effect_plan sample a = None) /\
    forall nanos, delay = Some nanos ->
      nanos <= MAX_EFFECT_SLEEP /\ (nanos = 0 <-> effect_due sample a) /\
      (forall later, monotonic_ms sample <= monotonic_ms later ->
        monotonic_ms later < monotonic_ms sample + nanos / nanos_per_ms -> ~ effect_due later a) /\
      (forall later, timely (monotonic_ms sample) a -> nanos < MAX_EFFECT_SLEEP ->
        monotonic_ms sample + nanos / nanos_per_ms <= monotonic_ms later -> effect_due later a).
Proof.
  intros H. destruct (clock_sample (clock_reads a)) as [sample|e] eqn:Hs.
  2: { unfold next_effect_delay in H. act_step H; [|done].
       unfold sample_clock in E. rewrite Hs in E. done. }
  exists sample. split; [done|]. pose proof (next_effect_delay_eq _ _ Hs) as Heq.
  rewrite H in Heq. cbn in Heq. injection Heq as ->.
  pose proof (next_due_spec sample a) as Hdue.
  destruct (next_due sample a) as [z|] eqn:Hz; cbn; [|by split].
  split. { split; [done|]. intros [Hl Hp]. unfold next_due in Hz. by rewrite Hl, Hp in Hz. }
  intros nanos [= <-]. destruct (effect_delay_spec z) as (Hmax & Hzero & Hlong & Hexact).
  split_and!; [done|by rewrite Hzero| |].
  - intros later Hle Hlt. eapply nothing_due_before; [done..|]. lia.
  - intros later Ht Hlt Hlater. eapply effect_due_later; [done..| |].
    + pose proof (N.le_0_l (effect_delay z / nanos_per_ms)). lia.
    + destruct (Z.le_gt_cases z 0) as [Hle|Hgt]; [lia|].
      rewrite (Hexact Hlt ltac:(lia)), N.div_mul in Hlater by done. lia.
Qed.

End Effects.

(* ------------------------------------------------------------------ *)
(** ** Witnesses *)

Lemma actor_wf_clock n (a : PlaybackActor Table) : actor_wf a -> actor_wf (set_clock_reads n a).
Proof. intros []. by split. Qed.

Lemma running_wf : actor_wf running.
Proof.
  assert (start_playback_actor PlaybackActorConfig_default sample_catalog empty_table
          = (Ok (spawned empty_table), actor_store (spawned empty_table))) as Hstart
    by (vm_compute; reflexivity).
  assert (run session_start (spawned empty_table) = (Ok (), running)) as Hrun by (vm_compute; reflexivity).
  exact (spawned_run_wf _ _ _ _ _ _ _ _ Hstart Hrun).
Qed.

(** The running session after 40 seconds: its loop is due, and so is its track. *)
Definition overdue : PlaybackActor Table := set_clock_reads 80 running.

Lemma overdue_wf : actor_wf overdue.
Proof. exact (actor_wf_clock 80 running running_wf). Qed.

Lemma due_loops_fire_once_witness :
  exists a', run_due_effects overdue = (Ok (), a') /\
    emitted a' = emitted overdue ++ [SfxFired "weather" "rain.ogg" UnitInterval_default] /\
    ambient_current_track_id (ambient (actor_state a')) = Some 2%positive /\
    forall id d, loop_deadlines_ms a' !! id = Some d -> 40000 < d.
Proof.
  destruct (run_due_effects overdue) as [r a'] eqn:H.
  assert (r = Ok () /\ ambient_current_track_id (ambient (actor_state a')) = Some 2%positive /\
    emitted a' = emitted overdue ++ [SfxFired "weather" "rain.ogg" UnitInterval_default])
    as (-> & Hcur & Hem).
  { assert (r = (run_due_effects overdue).1) as -> by (rewrite H; reflexivity).
    assert (a' = (run_due_effects overdue).2) as -> by (rewrite H; reflexivity). vm_compute. split; [reflexivity|split; reflexivity]. }
  exists a'. split; [reflexivity|]. split; [exact Hem|]. split; [exact Hcur|].
  destruct (due_loops_fire_once overdue a' overdue_wf H) as (sample & due & loops & Hs & _ & _ & _ & _ & _ & Hlater).
  assert (sample_at 40000 = sample) as <- by (apply (Ok_inj (E := PlaybackActorError)); exact Hs).
  intros id d Hd. destruct (Hlater id d Hd) as [Hlt| ->]; [exact Hlt|reflexivity].
Defined.

Lemma sample_successors : successors_known sample_catalog.
Proof.
  intros tracks id track next [= <-] Hid Hnext.
  assert (map_Forall (fun _ t => option_is_none_or (track_follow_next_id t)
    (fun n => bool_decide (is_Some (sample_tracks !! n))) = true) sample_tracks) as Hall
    by (refine (bool_decide_eq_true_1 _ _); vm_compute; reflexivity).
  specialize (Hall _ _ Hid). cbv beta in Hall. rewrite Hnext in Hall.
  exact (bool_decide_eq_true_1 _ Hall).
Qed.

(** The table refuses the write of the advance. *)
Definition failing : PlaybackActor Table :=
  set_actor_store (mkSqliteStorage (playback_state (actor_store overdue)) [FailBefore "disk I/O error"])
    overdue.

Lemma due_effects_fail_only_with_the_environment_witness :
  exists e a', run_due_effects failing = (Err e, a') /\ environment_error e = true.
Proof.
  destruct (run_due_effects failing) as [[u|e] a'] eqn:H.
  - exfalso. apply (f_equal fst) in H. vm_compute in H. discriminate H.
  - exists e, a'. split; [reflexivity|].
    apply (due_effects_fail_only_with_the_environment failing e a'); [|exact H].
    assert (catalog failing = sample_catalog) as -> by (vm_compute; reflexivity).
    apply sample_successors.
Defined.

Lemma effect_timer_is_exact_witness :
  exists delay a', next_effect_delay running = (Ok (Some delay), a') /\ delay <> 0 /\
    delay = 1250 * nanos_per_ms /\
    forall later, 5000 <= monotonic_ms later -> monotonic_ms later < 6250 -> ~ effect_due later running.
Proof.
  destruct (next_effect_delay running) as [[[delay|]|e] a'] eqn:H.
  - destruct (effect_timer_is_exact running (Some delay) a' H) as (sample & Hs & _ & Hexact).
    destruct (Hexact delay eq_refl) as (_ & _ & Hbefore & _).
    assert (sample_at 5000 = sample) as <- by (apply (Ok_inj (E := PlaybackActorError)); exact Hs).
    exists delay, a'. split; [reflexivity|].
    assert (delay = 1250000000) as -> by (apply (f_equal fst) in H; vm_compute in H; by injection H as <-).
    split; [by intros [=]|]. split; [reflexivity|]. exact Hbefore.
  - exfalso. apply (f_equal fst) in H. vm_compute in H. discriminate H.
  - exfalso. apply (f_equal fst) in H. vm_compute in H. discriminate H.
Defined.

(* ------------------------------------------------------------------ *)
(** * The interval of a loop in milliseconds *)

#[local] Open Scope N_scope.

Lemma round_half_even_ge a num den : den <> 0 -> a * den <= num -> a <= round_half_even num den.
Proof.
  intros Hden Ha. assert (a <= num / den) by (apply N.div_le_lower_bound; lia).
  unfold round_half_even. repeat case_match; lia.
Qed.

Lemma round_half_even_le b num den : den <> 0 -> num <= b * den -> round_half_even num den <= b.
Proof.
  intros Hden Hb. unfold round_half_even.
  pose proof (N.div_mod num den Hden) as Heq. pose proof (N.mod_lt num den Hden) as Hlt.
  assert (num / den <= b) as Hq by (apply N.Div0.div_le_upper_bound; lia).
  revert Heq Hlt Hq. generalize (num / den) as q, (num mod den) as r. intros q r -> Hlt Hq.
  assert (r <> 0 -> q < b) as Hstrict.
  { intros Hne. apply N.lt_eq_cases in Hq as [?| ->]; [done|lia]. }
  destruct (N.compare_spec (2 * r) den) as [Hc|Hc|Hc]; [|lia|].
  - destruct (N.even q); [lia|]. assert (q < b) by (apply Hstrict; lia). lia.
  - assert (q < b) by (apply Hstrict; lia). lia.
Qed.

Lemma digits2_pos_bounds m : 2 ^ Npos (digits2_pos m) <= 2 * Npos m /\ Npos m < 2 ^ Npos (digits2_pos m).
Proof.
  induction m as [m [IH1 IH2]|m [IH1 IH2]|]; cbn [digits2_pos]; [..|by split].
  all: change (Npos (Pos.succ (digits2_pos m))) with (N.succ (Npos (digits2_pos m)));
    rewrite N.pow_succ_r'; lia.
Qed.

(** The representable floats between 1 and 3600. *)
Lemma interval_shape x :
  valid_binary 53 1024 x = true -> loop_interval_valid x = true ->
  exists m e, x = S754_finite false m (Zneg e) /\ (41 <= e <= 52)%positive /\
    2 ^ 52 <= Npos m < 2 ^ 53 /\ (e = 41%positive -> Npos m <= 3600 * 2 ^ 41).
Proof.
  unfold loop_interval_valid, f64_in_range, f64_leb. intros Hv [Hfin [Hlo Hhi]%andb_prop]%andb_prop.
  change (f64_of_Z 1) with (S754_finite false 4503599627370496 (-52)) in Hlo.
  change (f64_of_Z 3600) with (S754_finite false 7916483719987200 (-41)) in Hhi.
  destruct x as [s| | |[] m e]; try done.
  unfold SFleb, SFcompare in Hlo, Hhi.
  cbn [valid_binary] in Hv. apply andb_prop in Hv as [Hcan _].
  unfold canonical_mantissa, fexp, emin in Hcan. apply Zeq_bool_eq in Hcan.
  assert (-52 <= e <= -41)%Z as He.
  { destruct (Z.compare_spec (-52) e), (Z.compare_spec e (-41)); try done; lia. }
  assert (Z.pos (digits2_pos m) = 53)%Z as Hdig by lia.
  destruct e as [|e|e]; [lia|lia|]. assert (41 <= e <= 52)%positive as Hpos by lia.
  assert (digits2_pos m = 53%positive) as Hd by lia.
  pose proof (digits2_pos_bounds m) as [H1 H2]. rewrite Hd in H1, H2.
  exists m, e. split_and!; [done|lia|lia| |lia|].
  - change (2 ^ 53) with (2 * 2 ^ 52) in H1. lia.
  - intros ->. rewrite Z.compare_refl in Hhi. cbv iota in Hhi. change (3600 * 2 ^ 41) with 7916483719987200.
    unfold N.le. cbn [N.compare]. unfold Pos.compare. by destruct (Pos.compare_cont Eq m _).
Qed.

Lemma interval_nanos x :
  valid_binary 53 1024 x = true -> loop_interval_valid x = true ->
  exists nanos, duration_try_from_secs_f64 x = Some nanos /\
    1 * nanos_per_second <= nanos <= 3600 * nanos_per_second.
Proof.
  intros Hv Hi. destruct (interval_shape x Hv Hi) as (m & e & -> & He & Hm & Hmax).
  cbn [duration_try_from_secs_f64 nanos_of_binary].
  assert (2 ^ Npos e <> 0) as Hden by (apply N.pow_nonzero; lia).
  assert (2 ^ Npos e <= 2 ^ 52 /\ 2 ^ 41 <= 2 ^ Npos e) as [Hhi Hlo]
    by (split; apply N.pow_le_mono_r; lia).
  assert (1 * nanos_per_second <= round_half_even (Npos m * nanos_per_second) (2 ^ Npos e)
          <= 3600 * nanos_per_second) as Hb.
  { split; [apply round_half_even_ge|apply round_half_even_le]; try done.
    - unfold nanos_per_second. lia.
    - destruct (decide (e = 41%positive)) as [->|Hne].
      + specialize (Hmax eq_refl). unfold nanos_per_second. lia.
      + assert (2 ^ 42 <= 2 ^ Npos e) by (apply N.pow_le_mono_r; lia).
        unfold nanos_per_second. change (2 ^ 53) with (2048 * 2 ^ 42) in Hm. lia. }
  destruct (N.ltb_spec (round_half_even (Npos m * nanos_per_second) (2 ^ Npos e))
              (2 ^ 64 * nanos_per_second)).
  - by eexists.
  - change (2 ^ 64) with 18446744073709551616 in *. unfold nanos_per_second in *. lia.
Qed.

(** A loop whose interval the domain accepts beats at most once a second
    and at least once an hour: the milliseconds between two deadlines are the
    whole milliseconds of the interval rounded to a nanosecond, never the
    fallbacks for invalid floats. *)
Theorem loop_interval_bounds l :
  valid_binary 53 1024 (loop_interval_seconds l) = true ->
  loop_interval_valid (loop_interval_seconds l) = true ->
  1000 <= loop_interval_ms l <= 3600000 /\
  exists nanos, duration_try_from_secs_f64 (loop_interval_seconds l) = Some nanos /\
    loop_interval_ms l = nanos / nanos_per_ms.
Proof.
  intros Hv Hi. destruct (interval_nanos _ Hv Hi) as (nanos & Hd & Hlo & Hhi).
  assert (1000 <= nanos / nanos_per_ms <= 3600000) as Hms.
  { unfold nanos_per_second, nanos_per_ms in *. split.
    - apply N.div_le_lower_bound; lia.
    - apply N.Div0.div_le_upper_bound. lia. }
  assert (loop_interval_ms l = nanos / nanos_per_ms) as Heq.
  { unfold loop_interval_ms, duration_ms, u64_clamp. rewrite Hd. unfold u64_max. lia. }
  rewrite Heq. split; [done|]. by exists nanos.
Qed.

Lemma loop_interval_bounds_witness : loop_interval_ms (sample_loop "rain") = 30000.
Proof.
  destruct (loop_interval_bounds (sample_loop "rain")) as [_ (nanos & Hd & ->)].
  - reflexivity.
  - reflexivity.
  - vm_compute in Hd. injection Hd as <-. reflexivity.
Defined.
