(* ===== verification/CatalogPrune.v ===== *)
(** * Pruning settles

    Pruning a state for a catalog is idempotent: what it returns refers to known
    resources only, and pruning such a state again, at any time, changes
    nothing. *)

From S2P Require Import Prelude PlaybackState Reducer ReducerLemmas LaneSpec ReducerSpec.
From S2P Require Import CommitSpec Persistence Store Catalog References.
From S2P Require Import CatalogSpec Presence Actor ActorMessages.

#[local] Open Scope N_scope.

(** The loops play items of the active mode. *)
Definition loops_known (known : gmap string CatalogMode) (s : PlaybackState) : Prop :=
  Forall (fun looping => option_is_some_and (active_mode_id s ≫= (fun id => known !! id))
    (fun mode => item_valid mode (loop_soundboard_id looping) (loop_item_path looping)) = true)
    (looping_sfx s).

Lemma retain_known_id known l :
  (forall t, t ∈ l -> is_Some (known !! t)) -> retain (knows_track known) l = l.
Proof.
  intros H. apply retain_id, Forall_forall. intros t Ht. by apply bool_decide_eq_true_2, H.
Qed.

Lemma prune_tracks_id known now s :
  (forall t, t ∈ held_tracks s -> is_Some (known !! t)) -> prune_tracks known now s = (s, false).
Proof.
  unfold held_tracks, lane_tracks. intros Hk. unfold prune_tracks.
  rewrite !retain_known_id by (intros t Ht; apply Hk; set_solver).
  rewrite !Nat.eqb_refl, with_ambient_lists_id by done. cbn [negb orb].
  assert (option_is_some_and (ambient_current_track_id (ambient s))
            (fun id => negb (knows_track known id)) = false) as ->.
  { destruct (ambient_current_track_id (ambient s)) as [t|]; [|done]. cbn.
    unfold knows_track. rewrite bool_decide_eq_true_2; [done|]. apply Hk. set_solver. }
  destruct (interrupt s) as [i|] eqn:Hi; [|done]. cbn in Hk.
  unfold knows_track at 1. rewrite bool_decide_eq_true_2 by (apply Hk; set_solver). cbn [negb].
  rewrite retain_known_id by (intros t Ht; apply Hk; set_solver).
  rewrite Nat.eqb_refl. by rewrite with_interrupt_queue_id.
Qed.

Lemma prune_modes_id known s :
  refs_ok known (mode_refs s) -> loops_known known s ->
  multiple_outputs s = active_mode_allows_multiple_outputs s known -> outputs_ok s ->
  prune_modes known s = (s, false).
Proof.
  unfold refs_ok, mode_refs, loops_known. intros (Hm & Hb & Hp) Hl Hpol Ho. unfold prune_modes.
  assert (option_is_some_and (active_mode_id s)
    (fun mode_id => negb (bool_decide (is_Some (known !! mode_id)))) = false) as ->.
  { destruct (active_mode_id s) as [m|]; [|done]. cbn.
    rewrite bool_decide_eq_true_2; [done|]. by apply Hm. }
  set (mode := active_mode_id s ≫= _) in *.
  assert (option_is_some_and (active_soundboard_id s) (fun soundboard_id =>
    option_is_none_or mode (fun mode =>
      negb (bool_decide (is_Some (mode_soundboard_items mode !! soundboard_id))))) = false) as ->.
  { destruct (active_soundboard_id s) as [b|]; [|done]. cbn.
    destruct (Hb b eq_refl) as (m & -> & Hin). cbn. by rewrite bool_decide_eq_true_2. }
  rewrite (retain_id _ (active_preset_ids s));
    [|apply Forall_forall; intros p (m & -> & Hin)%Hp; by apply bool_decide_eq_true_2].
  rewrite with_presets_id by done.
  rewrite (retain_id _ (looping_sfx s)) by done. rewrite !Nat.eqb_refl. cbn [negb orb].
  rewrite with_loops_id.
  destruct (apply_output_policy _ s) as [s' b] eqn:Hpo.
  apply apply_output_policy_spec in Hpo as (_ & _ & _ & _ & _ & _ & _ & _ & Hid & _).
  by destruct (Hid Hpol Ho) as [-> ->].
Qed.

Lemma prune_modes_loops known s s' b : prune_modes known s = (s', b) -> loops_known known s'.
Proof.
  unfold prune_modes. destruct (if option_is_some_and (active_mode_id s) _ then _ else _) as [s1 b1].
  destruct (if option_is_some_and (active_soundboard_id s1) _ then _ else _) as [s2 b2] eqn:Hs2.
  assert (active_mode_id s2 = active_mode_id s1) as Hm by (by case_match; injection Hs2 as <- <-).
  destruct (apply_output_policy _ _) as [s4 b4] eqn:Hpol.
  apply apply_output_policy_spec in Hpol as (_ & _ & _ & Hrefs & Hl & _).
  intros [= <- _]. unfold loops_known. rewrite Hl. unfold mode_refs in Hrefs. injection Hrefs as -> _ _.
  cbn. rewrite Hm. apply retain_Forall.
Qed.

(** Pruning settles: it fails only on a full preset counter, what it
    returns refers to known tracks, modes, soundboards, presets and loop items
    only, follows the output policy of its mode and keeps the clock invariant,
    and pruning that state again at any later time reports no change. *)
Theorem pruning_settles s known now content_changed :
  clock_wf s -> outputs_ok s ->
  match prune_for_catalog s known now content_changed with
  | Err e => e = PresetRevisionOverflow /\ content_changed = true /\ u64_max <= preset_revision s
  | Ok (s', changed) =>
      catalog_ok known s' /\ (forall modes, catalog_modes known = Some modes -> loops_known modes s') /\
      clock_wf s' /\ outputs_ok s' /\
      (changed = false -> s' = s /\ content_changed = false) /\
      forall later, prune_for_catalog s' known later false = Ok (s', false)
  end.
Proof.
  intros Hc Ho. destruct (prune_for_catalog s known now content_changed) as [[s' b]|e] eqn:H.
  - pose proof H as [[Hok Hclk Hout _ _ _] Hid]%prune_for_catalog_spec.
    assert (forall modes, catalog_modes known = Some modes -> loops_known modes s') as Hloops.
    { intros modes Hm. unfold prune_for_catalog in H.
      destruct (match catalog_tracks known with Some _ => _ | None => _ end) as [s1 b1].
      rewrite Hm in H. destruct (prune_modes modes s1) as [s2 b2] eqn:H2.
      apply prune_modes_loops in H2. destruct content_changed; [|by injection H as <- _].
      apply bind_ok in H as (revision & _ & H). by injection H as <- _. }
    split_and!; [done|done|by apply Hclk|by apply Hout|exact Hid|].
    intros later. unfold prune_for_catalog. destruct Hok as [Ht Hr Hp].
    assert (match catalog_tracks known with Some known => prune_tracks known later s' | None => (s', false) end
            = (s', false)) as ->.
    { destruct (catalog_tracks known) as [tracks|]; [|done]. apply prune_tracks_id. by apply Ht. }
    destruct (catalog_modes known) as [modes|]; [|done].
    rewrite prune_modes_id; [done|by apply Hr|by apply Hloops|by apply Hp|by apply Hout].
  - unfold prune_for_catalog in H.
    destruct (match catalog_tracks known with Some _ => _ | None => _ end) as [s1 b1] eqn:H1.
    assert (preset_revision s1 = preset_revision s) as Hr1.
    { destruct (catalog_tracks known); [|by injection H1 as <- _].
      apply prune_tracks_frame in H1. unfold lane_frame, settings_of in H1. congruence. }
    destruct (match catalog_modes known with Some _ => _ | None => _ end) as [s2 b2] eqn:H2.
    assert (preset_revision s2 = preset_revision s) as Hr2.
    { rewrite <- Hr1. destruct (catalog_modes known); [|by injection H2 as <- _].
      destruct (prune_modes _ s1) as [s3 b3] eqn:H3. injection H2 as <- _.
      apply prune_modes_spec in H3 as [[_ _ _ _ _ _ [_ ?]] _]. done. }
    destruct content_changed; [|done].
    apply bind_err in H as [H|(? & _ & H)]; [|done]. unfold ok_or in H.
    destruct (u64_checked_add _ 1) as [r|] eqn:Hadd; [done|]. injection H as <-.
    apply u64_checked_add_None in Hadd. split_and!; [done|done|lia].
Qed.

Lemma pruning_settles_witness :
  exists s', prune_for_catalog interrupted_state sample_catalog 9000 true = Ok (s', true) /\
    prune_for_catalog s' sample_catalog 12000 false = Ok (s', false).
Proof.
  destruct (prune_for_catalog interrupted_state sample_catalog 9000 true) as [[s' b]|e] eqn:H.
  - assert (clock_wf interrupted_state) as Hc.
    { split; [intros t [=]|vm_compute; by intros [=]|].
      intros i [= <-]. split; [vm_compute; by intros [=]|by eexists]. }
    assert (outputs_ok interrupted_state) as Ho by (intros _; vm_compute; lia).
    pose proof (pruning_settles interrupted_state sample_catalog 9000 true Hc Ho) as Hp.
    rewrite H in Hp. destruct Hp as (_ & _ & _ & _ & _ & Hid).
    assert (b = true) as -> by (vm_compute in H; injection H as _ <-; reflexivity).
    exists s'. split; [reflexivity|apply Hid].
  - exfalso. vm_compute in H. discriminate H.
Defined.

(* ------------------------------------------------------------------ *)
(** ** A ducked lane loses its progress *)

(** The session while a ducking interrupt of track 9 plays over track 1. *)
Definition ducked_state : PlaybackState :=
  match reduce playing_state (FireInterruptSequence [9%positive]
          (mkInterruptFade true 500 500 (Some UnitInterval_default))) (context_at 2000) with
  | Ok r => next_state r
  | Err _ => playing_state
  end.

(** Track 9 is deleted from the library. *)
Definition catalog_without_nine : CatalogSnapshot :=
  mkCatalogSnapshot (mkCatalogGeneration 2 1) (Some (delete 9%positive sample_tracks)) None.

(** Dropping the interrupt of a ducked ambient lane re-anchors the lane without
    adding what it has played since its last anchor: the track on air jumps
    back to where it was anchored, under an unchanged position epoch. Ending
    the same interrupt by a command keeps the lane where it is. *)
Theorem pruning_rewinds_a_ducked_lane :
  exists pruned ended,
    prune_for_catalog ducked_state catalog_without_nine 60000 false = Ok (pruned, true) /\
    reduce ducked_state CancelInterrupt (context_at 60000) = Ok ended /\
    ambient_position_ms (ambient (materialize_positions ducked_state 60000)) = 64000 /\
    ambient_position_ms (ambient (materialize_positions pruned 60000)) = 5000 /\
    position_epoch pruned = position_epoch ducked_state /\
    ambient_position_ms (ambient (materialize_positions (next_state ended) 60000)) = 64000.
Proof.
  exists (match prune_for_catalog ducked_state catalog_without_nine 60000 false with
          | Ok (s, _) => s | Err _ => ducked_state end),
    (match reduce ducked_state CancelInterrupt (context_at 60000) with
     | Ok r => r | Err _ => mkReduction ducked_state false false PersistenceIntent_None [] end).
  split; [vm_compute; reflexivity|]. split; [vm_compute; reflexivity|].
  split; [vm_compute; reflexivity|]. split; [vm_compute; reflexivity|].
  split; vm_compute; reflexivity.
Qed.

(* ------------------------------------------------------------------ *)
(** * The path-ordered projection of the library *)

#[local] Open Scope N_scope.

#[global] Instance library_track_le_total : Total library_track_le.
Proof.
  intros x y. unfold library_track_le. rewrite (String.eqb_sym (library_track_path y)).
  destruct (String.eqb _ _); [lia|]. apply String.leb_total.
Qed.

#[global] Instance library_track_le_trans : Transitive library_track_le.
Proof.
  intros x y z. unfold library_track_le.
  destruct (String.eqb_spec (library_track_path x) (library_track_path y)) as [Hxy|Hxy],
    (String.eqb_spec (library_track_path y) (library_track_path z)) as [Hyz|Hyz],
    (String.eqb_spec (library_track_path x) (library_track_path z)) as [Hxz|Hxz];
    rewrite ?Hxy, ?Hyz, ?Hxz in *; try congruence; try lia; try done.
  - intros H1 H2. exfalso. apply Hyz. by apply String.leb_antisym.
  - apply string_leb_trans.
Qed.

(** The entry of the [i]-th track of [order]. *)
Definition projected_track (order : list LibraryCatalogTrack) (i : nat) (t : LibraryCatalogTrack)
    : CatalogTrack := {|
  track_duration_ms :=
    if library_track_duration t =? 0 then None else Some (duration_ms (library_track_duration t));
  track_follow_next_id := library_track_id <$> order !! ((i + 1) mod length order)%nat |}.

Lemma catalog_track_entry_eq order i t :
  order !! i = Some t ->
  catalog_track_entry (library_track_id <$> order) i t = (library_track_id t, projected_track order i t).
Proof.
  intros Hi. unfold catalog_track_entry, projected_track. f_equal. f_equal.
  - by destruct (library_track_duration t =? 0).
  - apply lookup_lt_Some in Hi as Hlt. rewrite list_lookup_fmap.
    destruct (decide (i + 1 = length order)%nat) as [Heq|Hne].
    + rewrite Heq, Nat.Div0.mod_same, lookup_ge_None_2 by lia. by destruct order.
    + rewrite Nat.mod_small by lia.
      destruct (lookup_lt_is_Some_2 order (i + 1)) as [x ->]; [lia|done].
Qed.

Lemma projection_keys order :
  fst <$> imap (catalog_track_entry (library_track_id <$> order)) order = library_track_id <$> order.
Proof.
  apply list_eq. intros i. rewrite !list_lookup_fmap, list_lookup_imap.
  destruct (order !! i) as [t|] eqn:Hi; cbn [fmap option_fmap option_map]; [|done].
  by rewrite catalog_track_entry_eq.
Qed.

(** The library is one cycle: the projection has an entry for every track,
    and following entry after entry visits the whole library in path order and
    then starts over. *)
Theorem library_order_is_a_cycle tracks :
  NoDup (library_track_id <$> tracks) ->
  let order := merge_sort library_track_le tracks in
  order ≡ₚ tracks /\ StronglySorted library_track_le order /\
  dom (playback_catalog_tracks tracks) = list_to_set (library_track_id <$> tracks) /\
  (forall i t, order !! i = Some t ->
     playback_catalog_tracks tracks !! library_track_id t = Some (projected_track order i t)) /\
  (forall id track, playback_catalog_tracks tracks !! id = Some track ->
     exists next, track_follow_next_id track = Some next /\
                  is_Some (playback_catalog_tracks tracks !! next)).
Proof.
  intros Hnd order. assert (order ≡ₚ tracks) as Hperm by apply merge_sort_Permutation.
  assert (dom (playback_catalog_tracks tracks) = list_to_set (library_track_id <$> tracks)) as Hdom.
  { unfold playback_catalog_tracks. rewrite collect_map_dom, projection_keys. fold order.
    apply list_to_set_perm_L. by rewrite Hperm. }
  assert (forall id track, playback_catalog_tracks tracks !! id = Some track <->
    exists i t, order !! i = Some t /\ id = library_track_id t /\ track = projected_track order i t) as Hlookup.
  { intros id track. unfold playback_catalog_tracks. fold order. rewrite collect_map_lookup.
    - rewrite elem_of_lookup_imap. split.
      + intros (i & t & Heq & Hi). rewrite catalog_track_entry_eq in Heq by done.
        injection Heq as -> ->. by exists i, t.
      + intros (i & t & Hi & -> & ->). exists i, t. by rewrite catalog_track_entry_eq.
    - rewrite projection_keys. by rewrite Hperm. }
  split_and!; [done|apply StronglySorted_merge_sort; apply _|done| |].
  - intros i t Hi. apply Hlookup. by exists i, t.
  - intros id track (i & t & Hi & -> & ->)%Hlookup. cbn.
    apply lookup_lt_Some in Hi.
    destruct (lookup_lt_is_Some_2 order ((i + 1) mod length order)) as [x Hx];
      [apply Nat.mod_upper_bound; lia|].
    rewrite Hx. cbn. exists (library_track_id x). split; [done|].
    apply elem_of_dom. rewrite Hdom, elem_of_list_to_set, <- Hperm.
    apply list_elem_of_fmap. exists x. split; [done|]. by eapply list_elem_of_lookup_2.
Qed.

Definition sample_library : list LibraryCatalogTrack := [
  mkLibraryCatalogTrack 7 "b/storm.ogg" 180500000000;
  mkLibraryCatalogTrack 3 "a/tavern.ogg" 0;
  mkLibraryCatalogTrack 5 "c/road.ogg" 90000000000 ].

Lemma library_order_is_a_cycle_witness :
  playback_catalog_tracks sample_library !! 7%positive
  = Some (mkCatalogTrack (Some 180500) (Some 5%positive)).
Proof.
  destruct (library_order_is_a_cycle sample_library) as (_ & _ & _ & H & _).
  - repeat constructor; set_solver.
  - exact (H 1%nat (mkLibraryCatalogTrack 7 "b/storm.ogg" 180500000000) eq_refl).
Defined.
