(* ===== verification/Jobs.v ===== *)
(** * Background jobs: the data of the job service

    [crates/music-application/src/jobs.rs]: statuses, lanes, definitions and
    records of jobs, the validated progress report with its UTF-8 safe
    truncation, the errors with their texts, and the registry of job kinds. A
    [serde_json::Value] and its [Map] are the types [value] and [object] of
    the class [Json], which stands for the library. *)

From S2P Require Import Prelude.

#[local] Open Scope string_scope.
#[local] Open Scope N_scope.

(* ------------------------------------------------------------------ *)
(** ** JSON documents *)

(** The part of [serde_json] the jobs use: [Value::Object], the pattern
    [Value::Object(_)], [to_string] on an object and [from_str]. *)
Class Json (value object : Type) : Type := {
  Value_Object : object -> value;
  as_object : value -> option object;
  json_to_string : object -> result string string;
  json_from_str : string -> result string value
}.

(** An object is read back from its text, and matching undoes wrapping. *)
Class JsonSpec (value object : Type) `{Json value object} : Prop := {
  as_object_Object (o : object) : as_object (Value_Object o) = Some o;
  from_str_to_string (o : object) (text : string) :
    json_to_string o = Ok text -> json_from_str text = Ok (Value_Object o)
}.

(* ------------------------------------------------------------------ *)
(** ** Statuses, lanes, policies *)

Inductive JobValidationError : Type :=
| InvalidKind
| InvalidStatus
| InvalidLane
| InvalidCheckpointPolicy
| InvalidSchemaVersion
| JobInvalidParameters
| InvalidResult
| InvalidProgress
| DuplicateKind.

Definition JobValidationError_fmt (error : JobValidationError) : string :=
  match error with
  | InvalidKind => "job kind must contain between 1 and 128 bytes"
  | InvalidStatus => "stored job status is invalid"
  | InvalidLane => "stored job lane is invalid"
  | InvalidCheckpointPolicy => "stored job checkpoint policy is invalid"
  | InvalidSchemaVersion => "job schema version must be positive"
  | JobInvalidParameters => "job parameters must be a JSON object"
  | InvalidResult => "job result must be a JSON object"
  | InvalidProgress => "job progress must satisfy 0 <= current <= total"
  | DuplicateKind => "job kind is registered more than once"
  end.

Inductive JobStatus : Type :=
| Queued
| Running
| CancelRequested
| Succeeded
| Failed
| Cancelled.

#[global] Instance JobStatus_eq_dec : EqDecision JobStatus.
Proof. solve_decision. Defined.

Definition JobStatus_as_str (status : JobStatus) : string :=
  match status with
  | Queued => "queued"
  | Running => "running"
  | CancelRequested => "cancel_requested"
  | Succeeded => "succeeded"
  | Failed => "failed"
  | Cancelled => "cancelled"
  end.

Definition JobStatus_parse (value : string) : result JobValidationError JobStatus :=
  if String.eqb value "queued" then Ok Queued
  else if String.eqb value "running" then Ok Running
  else if String.eqb value "cancel_requested" then Ok CancelRequested
  else if String.eqb value "succeeded" then Ok Succeeded
  else if String.eqb value "failed" then Ok Failed
  else if String.eqb value "cancelled" then Ok Cancelled
  else Err InvalidStatus.

Definition is_active (status : JobStatus) : bool :=
  match status with Queued | Running | CancelRequested => true | _ => false end.

Definition can_retry (status : JobStatus) : bool :=
  match status with Failed | Cancelled => true | _ => false end.

Inductive JobLane : Type := Local | Provider.

#[global] Instance JobLane_eq_dec : EqDecision JobLane.
Proof. solve_decision. Defined.

Definition JobLane_as_str (lane : JobLane) : string :=
  match lane with Local => "local" | Provider => "provider" end.

Definition JobLane_parse (value : string) : result JobValidationError JobLane :=
  if String.eqb value "local" then Ok Local
  else if String.eqb value "provider" then Ok Provider
  else Err InvalidLane.

Inductive JobCheckpointPolicy : Type := Replace.

Definition JobCheckpointPolicy_as_str (policy : JobCheckpointPolicy) : string :=
  match policy with Replace => "replace" end.

Definition JobCheckpointPolicy_parse (value : string)
    : result JobValidationError JobCheckpointPolicy :=
  if String.eqb value "replace" then Ok Replace else Err InvalidCheckpointPolicy.

Lemma JobStatus_parse_as_str status : JobStatus_parse (JobStatus_as_str status) = Ok status.
Proof. by destruct status. Qed.
Lemma JobLane_parse_as_str lane : JobLane_parse (JobLane_as_str lane) = Ok lane.
Proof. by destruct lane. Qed.
Lemma JobCheckpointPolicy_parse_as_str policy :
  JobCheckpointPolicy_parse (JobCheckpointPolicy_as_str policy) = Ok policy.
Proof. by destruct policy. Qed.

#[global] Instance JobStatus_as_str_inj : Inj eq eq JobStatus_as_str.
Proof. by intros [] []. Qed.
#[global] Instance JobLane_as_str_inj : Inj eq eq JobLane_as_str.
Proof. by intros [] []. Qed.

(* ------------------------------------------------------------------ *)
(** ** Definitions and records *)

Definition MAX_JOB_KIND_BYTES : nat := 128.
Definition MAX_PROGRESS_PHASE_BYTES : nat := 128.
Definition MAX_PROGRESS_MESSAGE_BYTES : nat := 512.
Definition MAX_ERROR_BYTES : nat := 2000.

Record JobDefinition : Type := mkJobDefinition {
  definition_kind : string;
  definition_schema_version : N;
  definition_lane : JobLane;
  definition_restartable : bool;
  definition_checkpoint_policy : JobCheckpointPolicy
}.

(** [JobDefinition::validate] *)
Definition definition_validate (definition : JobDefinition) : result JobValidationError () :=
  if String.eqb (definition_kind definition) ""
     || (MAX_JOB_KIND_BYTES <? String.length (definition_kind definition))%nat
  then Err InvalidKind
  else if definition_schema_version definition =? 0 then Err InvalidSchemaVersion
  else Ok ().

Record JobRecord (object : Type) : Type := mkJobRecord {
  job_id : string;
  job_kind : string;
  job_status : JobStatus;
  job_parameters : object;
  job_result : option object;
  job_error : option string;
  job_progress_current : N;
  job_progress_total : option N;
  job_progress_phase : string;
  job_progress_message : string;
  job_attempts : N;
  job_retry_of_id : option string;
  job_created_at : Z;
  job_updated_at : Z;
  job_started_at : option Z;
  job_finished_at : option Z;
  job_lane : JobLane;
  job_schema_version : N;
  job_restartable : bool;
  job_checkpoint_policy : JobCheckpointPolicy;
  job_execution_id : option string
}.
#[global] Arguments mkJobRecord {object}.
#[global] Arguments job_id {object}.
#[global] Arguments job_kind {object}.
#[global] Arguments job_status {object}.
#[global] Arguments job_parameters {object}.
#[global] Arguments job_result {object}.
#[global] Arguments job_error {object}.
#[global] Arguments job_progress_current {object}.
#[global] Arguments job_progress_total {object}.
#[global] Arguments job_progress_phase {object}.
#[global] Arguments job_progress_message {object}.
#[global] Arguments job_attempts {object}.
#[global] Arguments job_retry_of_id {object}.
#[global] Arguments job_created_at {object}.
#[global] Arguments job_updated_at {object}.
#[global] Arguments job_started_at {object}.
#[global] Arguments job_finished_at {object}.
#[global] Arguments job_lane {object}.
#[global] Arguments job_schema_version {object}.
#[global] Arguments job_restartable {object}.
#[global] Arguments job_checkpoint_policy {object}.
#[global] Arguments job_execution_id {object}.

Record JobListFilter : Type := mkJobListFilter {
  filter_kind : option string;
  filter_status : option JobStatus;
  filter_limit : N
}.

Definition JobListFilter_default : JobListFilter := mkJobListFilter None None 25.

Record NewJob (object : Type) : Type := mkNewJob {
  new_job_id : string;
  new_job_definition : JobDefinition;
  new_job_parameters : object;
  new_job_retry_of_id : option string
}.
#[global] Arguments mkNewJob {object}.
#[global] Arguments new_job_id {object}.
#[global] Arguments new_job_definition {object}.
#[global] Arguments new_job_parameters {object}.
#[global] Arguments new_job_retry_of_id {object}.

Record JobClaim (object : Type) : Type := mkJobClaim {
  claim_job : JobRecord object;
  claim_execution_id : string
}.
#[global] Arguments mkJobClaim {object}.
#[global] Arguments claim_job {object}.
#[global] Arguments claim_execution_id {object}.

Inductive JobLeaseState : Type := Lease_Active | Lease_CancellationRequested | Lease_Lost.

#[global] Instance JobLeaseState_eq_dec : EqDecision JobLeaseState.
Proof. solve_decision. Defined.

Inductive JobFinish (object : Type) : Type :=
| Finish_Succeeded (result : object)
| Finish_Failed (error : string)
| Finish_Cancelled
| Finish_Interrupted (restartable : bool).
#[global] Arguments Finish_Succeeded {object}.
#[global] Arguments Finish_Failed {object}.
#[global] Arguments Finish_Cancelled {object}.
#[global] Arguments Finish_Interrupted {object}.

(* ------------------------------------------------------------------ *)
(** ** Progress *)

(** [value.is_char_boundary(index)] *)
Definition is_char_boundary (value : string) (index : nat) : bool :=
  match index with
  | O => true
  | _ =>
      match String.get index value with
      | Some byte => negb (is_continuation byte)
      | None => (index =? String.length value)%nat
      end
  end.

(** [while boundary > 0 && !value.is_char_boundary(boundary) { boundary -= 1 }] *)
Fixpoint floor_boundary (value : string) (boundary : nat) : nat :=
  match boundary with
  | O => O
  | S lower => if is_char_boundary value boundary then boundary else floor_boundary value lower
  end.

Definition truncate_utf8 (value : string) (maximum_bytes : nat) : string :=
  if (String.length value <=? maximum_bytes)%nat then value
  else String.substring 0 (floor_boundary value maximum_bytes) value.

Record JobProgress : Type := mkJobProgress {
  progress_current : N;
  progress_total : option N;
  progress_phase : string;
  progress_message : string
}.

Definition JobProgress_new (current : N) (total : option N) (phase message : string)
    : result JobValidationError JobProgress :=
  if match total with Some total => total <? current | None => false end
  then Err InvalidProgress
  else Ok {|
    progress_current := current;
    progress_total := total;
    progress_phase := truncate_utf8 phase MAX_PROGRESS_PHASE_BYTES;
    progress_message := truncate_utf8 message MAX_PROGRESS_MESSAGE_BYTES |}.

(* ------------------------------------------------------------------ *)
(** ** Errors of an execution *)

Inductive JobExecutionError : Type :=
| Execution_Cancelled
| Execution_Stopping
| Execution_LeaseLost
| Execution_Dependency.

Definition JobExecutionError_fmt (error : JobExecutionError) : string :=
  match error with
  | Execution_Cancelled => "job cancellation was requested"
  | Execution_Stopping => "job runner is stopping"
  | Execution_LeaseLost => "job execution lease was lost"
  | Execution_Dependency => "job storage is unavailable"
  end.

Inductive JobHandlerErrorKind : Type :=
| Kind_Failed
| Kind_Cancelled
| Kind_Stopping
| Kind_LeaseLost
| Kind_Dependency.

Record JobHandlerError : Type := mkJobHandlerError {
  handler_error_detail : string;
  handler_error_kind : JobHandlerErrorKind
}.

(** [JobHandlerError::new]; [caused_by] and [with_reason] also log the cause. *)
Definition JobHandlerError_new (detail : string) : JobHandlerError :=
  mkJobHandlerError (truncate_utf8 detail MAX_ERROR_BYTES) Kind_Failed.

Definition from_execution (error : JobExecutionError) : JobHandlerError := {|
  handler_error_detail := JobExecutionError_fmt error;
  handler_error_kind :=
    match error with
    | Execution_Cancelled => Kind_Cancelled
    | Execution_Stopping => Kind_Stopping
    | Execution_LeaseLost => Kind_LeaseLost
    | Execution_Dependency => Kind_Dependency
    end |}.

Inductive JobServiceError : Type :=
| Service_UnknownKind
| Service_JobNotFound
| Service_NotRetryable
| Service_AlreadyTerminal (status : JobStatus)
| Service_InvalidParameters
| Service_Dependency.

Definition JobServiceError_fmt (error : JobServiceError) : string :=
  match error with
  | Service_UnknownKind => "the job type is not registered"
  | Service_JobNotFound => "job not found"
  | Service_NotRetryable => "only failed or cancelled jobs can be retried"
  | Service_AlreadyTerminal _ => "job is already in a terminal state"
  | Service_InvalidParameters => "job parameters must be a JSON object"
  | Service_Dependency => "job storage is unavailable"
  end.

Inductive JobCoordinatorError : Type := Coordinator_Recovery | Coordinator_Dependency.

Definition JobCoordinatorError_fmt (error : JobCoordinatorError) : string :=
  match error with
  | Coordinator_Recovery => "background job recovery failed"
  | Coordinator_Dependency => "background job storage failed"
  end.

(* ------------------------------------------------------------------ *)
(** * Bounded job texts *)

#[local] Open Scope string_scope.
#[local] Open Scope nat_scope.

Lemma floor_boundary_spec value bound :
  floor_boundary value bound <= bound /\
  is_char_boundary value (floor_boundary value bound) = true /\
  forall index, floor_boundary value bound < index <= bound -> is_char_boundary value index = false.
Proof.
  induction bound as [|lower IH]; cbn [floor_boundary]; [split_and!; [lia|done|lia]|].
  destruct (is_char_boundary value (S lower)) eqn:Hb.
  - split_and!; [lia|done|lia].
  - destruct IH as (Hle & Hbound & Hlast). split_and!; [lia|done|].
    intros index Hindex. destruct (decide (index = S lower)) as [->|]; [done|]. apply Hlast. lia.
Qed.

Lemma substring_prefix_length value n : n <= String.length value -> String.length (String.substring 0 n value) = n.
Proof.
  revert n. induction value as [|byte value IH]; intros [|n] Hn; cbn in *; try lia; [done..|].
  rewrite IH; lia.
Qed.

Lemma substring_all value : String.substring 0 (String.length value) value = value.
Proof. induction value as [|byte value IH]; [done|]. cbn. by rewrite IH. Qed.

Lemma substring_none value : String.substring 0 0 value = "".
Proof. by destruct value. Qed.

Lemma substring_app value n :
  n <= String.length value ->
  (String.substring 0 n value ++ String.substring n (String.length value - n) value)%string = value.
Proof.
  revert n. induction value as [|byte value IH]; intros n Hn.
  - assert (n = 0) as -> by (cbn in Hn; lia). done.
  - destruct n as [|n].
    + rewrite substring_none, Nat.sub_0_r, substring_all. done.
    + cbn in Hn. change (String byte (String.substring 0 n value ++
        String.substring n (String.length value - n) value) = String byte value).
      rewrite IH by lia. done.
Qed.

Lemma string_app_nil_r value : (value ++ "")%string = value.
Proof.
  induction value as [|byte value IH]; [done|].
  change (String byte (value ++ "")%string = String byte value). by rewrite IH.
Qed.

(** Truncation returns a short enough text unchanged; otherwise it returns
    a prefix of at most the given bytes that ends on a character boundary, and
    no longer such prefix exists. *)
Theorem truncation_keeps_whole_characters value maximum_bytes :
  let kept := truncate_utf8 value maximum_bytes in
  (exists rest, value = (kept ++ rest)%string) /\ String.length kept <= maximum_bytes /\
  is_char_boundary value (String.length kept) = true /\
  (kept = value \/
   maximum_bytes < String.length value /\
   forall index, String.length kept < index <= maximum_bytes -> is_char_boundary value index = false).
Proof.
  unfold truncate_utf8. destruct (Nat.leb_spec (String.length value) maximum_bytes) as [Hle|Hlt]; cbv zeta.
  - split_and!; [exists ""; by rewrite string_app_nil_r|done| |by left].
    unfold is_char_boundary. destruct (String.length value) as [|n] eqn:Hlen; [done|].
    assert (String.get (S n) value = None) as ->; [|by rewrite Nat.eqb_refl].
    rewrite <- Hlen. clear. induction value as [|byte value IH]; [done|]. cbn. done.
  - destruct (floor_boundary_spec value maximum_bytes) as (Hbound & Hchar & Hlast).
    rewrite substring_prefix_length by lia. split_and!; [|done|done|right; done].
    exists (String.substring (floor_boundary value maximum_bytes)
      (String.length value - floor_boundary value maximum_bytes) value).
    symmetry. apply substring_app. lia.
Qed.
