(* ===== verification/JobStore.v ===== *)
(** * The job repository

    The trait [JobRepository] of [crates/music-application/src/jobs.rs] as a
    class, and its SQLite implementation
    [crates/music-storage/src/jobs.rs] on the table [background_jobs]. A
    transaction acts on the rows and is rolled back when its body fails; the
    next entry of [jobs_faults] makes the database fail before the work or, for
    a commit whose outcome is reported lost, after it. [CURRENT_TIMESTAMP] and
    UUIDs are read by position. *)

From S2P Require Import Prelude Store Jobs.

#[local] Open Scope string_scope.
#[local] Open Scope Z_scope.
#[local] Open Scope list_scope.

(* ------------------------------------------------------------------ *)
(** ** The interface *)

Class JobRepository (object store : Type) : Type := {
  repository_error : Type;
  repository_create : NewJob object -> stateful store repository_error (JobRecord object);
  repository_create_unique_active :
    NewJob object -> stateful store repository_error (JobRecord object * bool);
  repository_get : string -> stateful store repository_error (option (JobRecord object));
  repository_list : JobListFilter -> stateful store repository_error (list (JobRecord object));
  repository_request_cancellation :
    string -> stateful store repository_error (option (JobRecord object * bool));
  repository_claim_next : JobLane -> stateful store repository_error (option (JobClaim object));
  repository_lease_state : string -> string -> stateful store repository_error JobLeaseState;
  repository_update_progress :
    JobClaim object -> JobProgress -> stateful store repository_error JobLeaseState;
  repository_checkpoint :
    JobClaim object -> object -> stateful store repository_error JobLeaseState;
  repository_finish :
    JobClaim object -> JobFinish object -> stateful store repository_error JobLeaseState;
  repository_recover_interrupted :
    gmap string JobDefinition -> stateful store repository_error nat
}.

(** SQLite's clock and the random UUIDs. *)
Class SqliteClock : Type := { current_timestamp : nat -> Z }.
Class ExecutionIds : Type := { execution_uuid : nat -> string }.
(** UUIDs do not repeat. *)
Class ExecutionIdsSpec `{ExecutionIds} : Prop := {
  #[global] execution_uuid_inj :: Inj eq eq execution_uuid
}.

(* ------------------------------------------------------------------ *)
(** ** The table *)

(** A row of [background_jobs]; a [DATETIME] is the number of seconds
    [strftime('%s', ..)] reads from it. *)
Record JobRow : Type := mkJobRow {
  row_rowid : Z;
  row_id : string;
  row_kind : string;
  row_status : string;
  row_parameters_json : string;
  row_result_json : option string;
  row_error : option string;
  row_progress_current : Z;
  row_progress_total : option Z;
  row_progress_phase : string;
  row_progress_message : string;
  row_attempts : Z;
  row_retry_of_id : option string;
  row_created_at : Z;
  row_updated_at : Z;
  row_started_at : option Z;
  row_finished_at : option Z;
  row_lane : string;
  row_schema_version : Z;
  row_restartable : Z;
  row_checkpoint_policy : string;
  row_execution_id : option string
}.

Inductive JobStorageError : Type :=
| JobStorage_Database (cause : string)
| InvalidJobRecord (detail : string)
| JobSerialization (cause : string).

Record SqliteJobs : Type := mkSqliteJobs {
  jobs_table : list JobRow;
  jobs_clock : nat;
  jobs_uuids : nat;
  jobs_faults : list Fault
}.

Definition set_rows (rows : list JobRow) (db : SqliteJobs) : SqliteJobs :=
  mkSqliteJobs rows (jobs_clock db) (jobs_uuids db) (jobs_faults db).

Definition tx (A : Type) : Type := stateful SqliteJobs JobStorageError A.

(** [BEGIN IMMEDIATE], the body, [COMMIT]; a body that fails drops the
    transaction, which rolls its rows back. *)
Definition transaction {A} (body : tx A) : tx A := fun db =>
  let rest := mkSqliteJobs (jobs_table db) (jobs_clock db) (jobs_uuids db) (tail (jobs_faults db)) in
  match head (jobs_faults db) with
  | Some (FailBefore cause) => (Err (JobStorage_Database cause), rest)
  | Some (FailAfter cause) =>
      match body rest with
      | (Ok _, after) => (Err (JobStorage_Database cause), after)
      | (Err e, after) => (Err e, set_rows (jobs_table db) after)
      end
  | Some NoFault | None =>
      match body rest with
      | (Ok a, after) => (Ok a, after)
      | (Err e, after) => (Err e, set_rows (jobs_table db) after)
      end
  end.

(** The columns the statements assign; the others keep their values. *)
Definition set_job (status phase : string) (result_json error : option string) (attempts : Z)
    (started_at finished_at : option Z) (execution_id : option string) (updated_at : Z)
    (row : JobRow) : JobRow := {|
  row_rowid := row_rowid row;
  row_id := row_id row;
  row_kind := row_kind row;
  row_status := status;
  row_parameters_json := row_parameters_json row;
  row_result_json := result_json;
  row_error := error;
  row_progress_current := row_progress_current row;
  row_progress_total := row_progress_total row;
  row_progress_phase := phase;
  row_progress_message := row_progress_message row;
  row_attempts := attempts;
  row_retry_of_id := row_retry_of_id row;
  row_created_at := row_created_at row;
  row_updated_at := updated_at;
  row_started_at := started_at;
  row_finished_at := finished_at;
  row_lane := row_lane row;
  row_schema_version := row_schema_version row;
  row_restartable := row_restartable row;
  row_checkpoint_policy := row_checkpoint_policy row;
  row_execution_id := execution_id |}.

Definition set_progress (current : Z) (total : option Z) (phase message : string) (updated_at : Z)
    (row : JobRow) : JobRow := {|
  row_rowid := row_rowid row;
  row_id := row_id row;
  row_kind := row_kind row;
  row_status := row_status row;
  row_parameters_json := row_parameters_json row;
  row_result_json := row_result_json row;
  row_error := row_error row;
  row_progress_current := current;
  row_progress_total := total;
  row_progress_phase := phase;
  row_progress_message := message;
  row_attempts := row_attempts row;
  row_retry_of_id := row_retry_of_id row;
  row_created_at := row_created_at row;
  row_updated_at := updated_at;
  row_started_at := row_started_at row;
  row_finished_at := row_finished_at row;
  row_lane := row_lane row;
  row_schema_version := row_schema_version row;
  row_restartable := row_restartable row;
  row_checkpoint_policy := row_checkpoint_policy row;
  row_execution_id := row_execution_id row |}.

(** [ORDER BY created_at, rowid] *)
Definition job_before (a b : JobRow) : Prop :=
  row_created_at a < row_created_at b \/
  (row_created_at a = row_created_at b /\ row_rowid a <= row_rowid b).
(** [ORDER BY created_at DESC, rowid DESC] *)
Definition job_after (a b : JobRow) : Prop := job_before b a.

#[global] Instance job_before_dec a b : Decision (job_before a b).
Proof. unfold job_before. apply _. Defined.
#[global] Instance job_after_dec a b : Decision (job_after a b).
Proof. unfold job_after. apply _. Defined.
#[global] Instance job_before_total : Total job_before.
Proof. intros a b. unfold job_before. lia. Qed.
#[global] Instance job_before_trans : Transitive job_before.
Proof. intros a b c. unfold job_before. lia. Qed.
#[global] Instance job_after_total : Total job_after.
Proof. intros a b. unfold job_after, job_before. lia. Qed.
#[global] Instance job_after_trans : Transitive job_after.
Proof. intros a b c. unfold job_after, job_before. lia. Qed.

Definition oldest_first (rows : list JobRow) : list JobRow := merge_sort job_before rows.
Definition newest_first (rows : list JobRow) : list JobRow := merge_sort job_after rows.

(** [WHERE id = ?] *)
Definition has_id (id : string) (row : JobRow) : bool := String.eqb (row_id row) id.
Definition has_status (status : JobStatus) (row : JobRow) : bool :=
  String.eqb (row_status row) (JobStatus_as_str status).
(** [status IN ('running', 'cancel_requested')] *)
Definition leased (row : JobRow) : bool :=
  String.eqb (row_status row) "running" || String.eqb (row_status row) "cancel_requested".
(** [status IN ('queued', 'running', 'cancel_requested')] *)
Definition unfinished (row : JobRow) : bool :=
  String.eqb (row_status row) "queued" || leased row.
(** [WHERE id = ? AND execution_id = ? AND status IN ('running', 'cancel_requested')] *)
Definition held_by (id execution_id : string) (row : JobRow) : bool :=
  has_id id row && bool_decide (row_execution_id row = Some execution_id) && leased row.

Definition find_row (id : string) (rows : list JobRow) : option JobRow :=
  List.find (has_id id) rows.

(** [Option::map(f).transpose()] *)
Definition option_transpose {E A B} (f : A -> result E B) (o : option A) : result E (option B) :=
  match o with Some x => y ← f x; Ok (Some y) | None => Ok None end.

(** [i64::try_from(u64)], [u64::try_from(i64)], [u32::try_from(i64)] *)
Definition i64_try_from_u64 (v : N) : option Z :=
  if Z.of_N v <=? i64_max_Z then Some (Z.of_N v) else None.
Definition u64_try_from_i64 (v : Z) : option N := if 0 <=? v then Some (Z.to_N v) else None.
Definition u32_try_from_i64 (v : Z) : option N :=
  if (0 <=? v) && (v <=? Z.of_N u32_max) then Some (Z.to_N v) else None.

Section Sqlite.
Context {value object : Type} `{Json value object} `{SqliteClock} `{ExecutionIds}.

(* ------------------------------------------------------------------ *)
(** ** Reading rows *)

Definition json_object (text detail : string) : result JobStorageError object :=
  parsed ← map_err JobSerialization (json_from_str text);
  ok_or (InvalidJobRecord detail) (as_object parsed).

Definition required_timestamp (column : option Z) : result JobStorageError Z :=
  ok_or (InvalidJobRecord "timestamp") column.

Definition row_to_job (row : JobRow) : result JobStorageError (JobRecord object) :=
  parameters ← json_object (row_parameters_json row) "parameters are not an object";
  result_object ← option_transpose (fun text => json_object text "result is not an object")
                    (row_result_json row);
  status ← map_err (fun _ => InvalidJobRecord "status") (JobStatus_parse (row_status row));
  progress_current ← ok_or (InvalidJobRecord "negative progress")
                       (u64_try_from_i64 (row_progress_current row));
  progress_total ← option_transpose (fun total => ok_or (InvalidJobRecord "negative progress total")
                       (u64_try_from_i64 total)) (row_progress_total row);
  attempts ← ok_or (InvalidJobRecord "attempt count") (u32_try_from_i64 (row_attempts row));
  created_at ← required_timestamp (Some (row_created_at row));
  updated_at ← required_timestamp (Some (row_updated_at row));
  lane ← map_err (fun _ => InvalidJobRecord "lane") (JobLane_parse (row_lane row));
  schema_version ← ok_or (InvalidJobRecord "schema version")
                     (match u32_try_from_i64 (row_schema_version row) with
                      | Some version => if (0 <? version)%N then Some version else None
                      | None => None
                      end);
  checkpoint_policy ← map_err (fun _ => InvalidJobRecord "checkpoint policy")
                        (JobCheckpointPolicy_parse (row_checkpoint_policy row));
  Ok {|
    job_id := row_id row;
    job_kind := row_kind row;
    job_status := status;
    job_parameters := parameters;
    job_result := result_object;
    job_error := row_error row;
    job_progress_current := progress_current;
    job_progress_total := progress_total;
    job_progress_phase := row_progress_phase row;
    job_progress_message := row_progress_message row;
    job_attempts := attempts;
    job_retry_of_id := row_retry_of_id row;
    job_created_at := created_at;
    job_updated_at := updated_at;
    job_started_at := row_started_at row;
    job_finished_at := row_finished_at row;
    job_lane := lane;
    job_schema_version := schema_version;
    job_restartable := negb (row_restartable row =? 0);
    job_checkpoint_policy := checkpoint_policy;
    job_execution_id := row_execution_id row |}.

Definition select {A} (query : list JobRow -> A) : tx A := gets (fun db => query (jobs_table db)).

Definition read_job (id : string) : tx (option (JobRecord object)) :=
  row ← select (find_row id);
  try (option_transpose row_to_job row).

Definition lease_state (id execution_id : string) : tx JobLeaseState :=
  row ← select (find_row id);
  mret match row with
       | None => Lease_Lost
       | Some row =>
           if bool_decide (row_execution_id row <> Some execution_id) then Lease_Lost
           else if String.eqb (row_status row) "running" then Lease_Active
           else if String.eqb (row_status row) "cancel_requested"
           then Lease_CancellationRequested
           else Lease_Lost
       end.

(* ------------------------------------------------------------------ *)
(** ** Writing rows *)

(** [UPDATE background_jobs SET .. WHERE ..]: the rows affected. *)
Definition update_where (where_ : JobRow -> bool) (set : Z -> JobRow -> JobRow) : tx nat := fun db =>
  let now := current_timestamp (jobs_clock db) in
  (Ok (length (List.filter where_ (jobs_table db))),
   mkSqliteJobs (map (fun row => if where_ row then set now row else row) (jobs_table db))
     (S (jobs_clock db)) (jobs_uuids db) (jobs_faults db)).

(** SQLite's next rowid: one more than the largest. *)
Definition next_rowid (rows : list JobRow) : Z :=
  foldr (fun row next => Z.max (row_rowid row + 1) next) 1 rows.

Definition inserted_row (job : NewJob object) (parameters_json : string) (rowid now : Z) : JobRow := {|
  row_rowid := rowid;
  row_id := new_job_id job;
  row_kind := definition_kind (new_job_definition job);
  row_status := "queued";
  row_parameters_json := parameters_json;
  row_result_json := None;
  row_error := None;
  row_progress_current := 0;
  row_progress_total := None;
  row_progress_phase := "Queued";
  row_progress_message := "";
  row_attempts := 0;
  row_retry_of_id := new_job_retry_of_id job;
  row_created_at := now;
  row_updated_at := now;
  row_started_at := None;
  row_finished_at := None;
  row_lane := JobLane_as_str (definition_lane (new_job_definition job));
  row_schema_version := Z.of_N (definition_schema_version (new_job_definition job));
  row_restartable := if definition_restartable (new_job_definition job) then 1 else 0;
  row_checkpoint_policy :=
    JobCheckpointPolicy_as_str (definition_checkpoint_policy (new_job_definition job));
  row_execution_id := None |}.

(** The primary key and the [CHECK] constraint on the schema version refuse
    the row as database errors. *)
Definition insert_job (job : NewJob object) : tx () :=
  parameters ← try (map_err JobSerialization (json_to_string (new_job_parameters job)));
  rows ← select id;
  if (definition_schema_version (new_job_definition job) =? 0)%N
  then throw (JobStorage_Database "CHECK constraint failed: schema_version > 0")
  else if existsb (has_id (new_job_id job)) rows
  then throw (JobStorage_Database "UNIQUE constraint failed: background_jobs.id")
  else fun db =>
    let now := current_timestamp (jobs_clock db) in
    (Ok (), mkSqliteJobs (jobs_table db ++ [inserted_row job parameters (next_rowid rows) now])
              (S (jobs_clock db)) (jobs_uuids db) (jobs_faults db)).

Definition require_job (detail : string) (record : option (JobRecord object))
    : tx (JobRecord object) := try (ok_or (InvalidJobRecord detail) record).

Definition create (job : NewJob object) : tx (JobRecord object) :=
  transaction (
    insert_job job;;
    record ← read_job (new_job_id job);
    require_job "insert disappeared" record).

Definition create_unique_active (job : NewJob object) : tx (JobRecord object * bool) :=
  transaction (
    existing ← select (fun rows => head (newest_first (List.filter (fun row =>
      String.eqb (row_kind row) (definition_kind (new_job_definition job)) && unfinished row) rows)));
    match existing with
    | Some row => record ← try (row_to_job row); mret (record, false)
    | None =>
        insert_job job;;
        record ← read_job (new_job_id job);
        record ← require_job "insert disappeared" record;
        mret (record, true)
    end).

Definition get_job (id : string) : tx (option (JobRecord object)) := transaction (read_job id).

Definition matches_filter (filter : JobListFilter) (row : JobRow) : bool :=
  match filter_kind filter with None => true | Some kind => String.eqb (row_kind row) kind end &&
  match filter_status filter with None => true | Some status => has_status status row end.

Definition list_jobs (filter : JobListFilter) : tx (list (JobRecord object)) :=
  transaction (
    rows ← select (fun rows => take (N.to_nat (filter_limit filter))
                     (newest_first (List.filter (matches_filter filter) rows)));
    try (result_collect row_to_job rows)).

Definition cancel_queued (now : Z) (row : JobRow) : JobRow :=
  set_job "cancelled" "Cancelled" (row_result_json row) (row_error row) (row_attempts row)
    (row_started_at row) (Some now) None now row.
Definition cancel_running (now : Z) (row : JobRow) : JobRow :=
  set_job "cancel_requested" "Cancelling" (row_result_json row) (row_error row) (row_attempts row)
    (row_started_at row) (row_finished_at row) (row_execution_id row) now row.

Definition request_cancellation (id : string) : tx (option (JobRecord object * bool)) :=
  transaction (
    before ← read_job id;
    match before with
    | None => mret None
    | Some before =>
        changed ← match job_status before with
                  | Queued =>
                      affected ← update_where (fun row => has_id id row && has_status Queued row)
                                   cancel_queued;
                      mret (affected =? 1)%nat
                  | Running =>
                      affected ← update_where (fun row => has_id id row && has_status Running row)
                                   cancel_running;
                      mret (affected =? 1)%nat
                  | CancelRequested | Succeeded | Failed | Cancelled => mret false
                  end;
        current ← read_job id;
        current ← require_job "job disappeared" current;
        mret (Some (current, changed))
    end).

(** [Uuid::new_v4().simple().to_string()] *)
Definition new_execution_id : tx string := fun db =>
  (Ok (execution_uuid (jobs_uuids db)),
   mkSqliteJobs (jobs_table db) (jobs_clock db) (S (jobs_uuids db)) (jobs_faults db)).

Definition start_execution (execution_id : string) (now : Z) (row : JobRow) : JobRow :=
  set_job "running" "Starting" (row_result_json row) None (row_attempts row + 1)
    (Some now) None (Some execution_id) now row.

Definition claimable (lane : JobLane) (row : JobRow) : bool :=
  has_status Queued row && String.eqb (row_lane row) (JobLane_as_str lane).

Definition claim_next (lane : JobLane) : tx (option (JobClaim object)) :=
  transaction (
    next ← select (fun rows => head (oldest_first (List.filter (claimable lane) rows)));
    match next with
    | None => mret None
    | Some next =>
        execution_id ← new_execution_id;
        changed ← update_where (fun row => has_id (row_id next) row && has_status Queued row)
                    (start_execution execution_id);
        if negb (changed =? 1)%nat then mret None
        else
          job ← read_job (row_id next);
          job ← require_job "claim disappeared" job;
          mret (Some (mkJobClaim job execution_id))
    end).

Definition repository_lease (id execution_id : string) : tx JobLeaseState :=
  transaction (lease_state id execution_id).

Definition update_progress (claim : JobClaim object) (progress : JobProgress) : tx JobLeaseState :=
  current ← try (ok_or (InvalidJobRecord "progress current overflow")
                   (i64_try_from_u64 (progress_current progress)));
  total ← try (option_transpose (fun total => ok_or (InvalidJobRecord "progress total overflow")
                   (i64_try_from_u64 total)) (progress_total progress));
  transaction (update_where (held_by (job_id (claim_job claim)) (claim_execution_id claim))
    (set_progress current total (progress_phase progress) (progress_message progress)));;
  transaction (lease_state (job_id (claim_job claim)) (claim_execution_id claim)).

Definition set_result (encoded : string) (now : Z) (row : JobRow) : JobRow :=
  set_job (row_status row) (row_progress_phase row) (Some encoded) (row_error row)
    (row_attempts row) (row_started_at row) (row_finished_at row) (row_execution_id row) now row.

Definition checkpoint (claim : JobClaim object) (result_object : object) : tx JobLeaseState :=
  encoded ← try (map_err JobSerialization (json_to_string result_object));
  transaction (update_where (held_by (job_id (claim_job claim)) (claim_execution_id claim))
    (set_result encoded));;
  transaction (lease_state (job_id (claim_job claim)) (claim_execution_id claim)).

(** [(status, phase, result, error, clear_started, finished)] *)
Definition finish_columns (finish : JobFinish object) (state : JobLeaseState)
    : result JobStorageError (string * string * option string * option string * bool * bool) :=
  if bool_decide (state = Lease_CancellationRequested)
  then Ok ("cancelled", "Cancelled", None, None, false, true)
  else
    match finish with
    | Finish_Succeeded result_object =>
        encoded ← map_err JobSerialization (json_to_string result_object);
        Ok ("succeeded", "Complete", Some encoded, None, false, true)
    | Finish_Failed error => Ok ("failed", "Failed", None, Some error, false, true)
    | Finish_Cancelled => Ok ("cancelled", "Cancelled", None, None, false, true)
    | Finish_Interrupted true => Ok ("queued", "Queued for restart", None, None, true, false)
    | Finish_Interrupted false =>
        Ok ("failed", "Interrupted", None,
            Some "Job was interrupted during server shutdown.", false, true)
    end.

Definition finish_row (columns : string * string * option string * option string * bool * bool)
    (now : Z) (row : JobRow) : JobRow :=
  let '(status, phase, result_json, error, clear_started, finished) := columns in
  set_job status phase
    (match result_json with Some text => Some text | None => row_result_json row end)
    error (row_attempts row)
    (if clear_started : bool then None else row_started_at row)
    (if finished : bool then Some now else None)
    None now row.

Definition apply_finish (claim : JobClaim object) (finish : JobFinish object)
    (state : JobLeaseState) : tx () :=
  columns ← try (finish_columns finish state);
  update_where (held_by (job_id (claim_job claim)) (claim_execution_id claim))
    (finish_row columns);;
  mret ().

Definition finish_job (claim : JobClaim object) (finish : JobFinish object) : tx JobLeaseState :=
  transaction (
    state ← lease_state (job_id (claim_job claim)) (claim_execution_id claim);
    if bool_decide (state = Lease_Lost) then mret state
    else apply_finish claim finish state;; mret Lease_Lost).

Definition recover_cancelled (now : Z) (row : JobRow) : JobRow :=
  set_job "cancelled" "Cancelled" (row_result_json row) (row_error row) (row_attempts row)
    (row_started_at row) (Some now) None now row.
Definition recover_requeued (now : Z) (row : JobRow) : JobRow :=
  set_job "queued" "Queued after server restart" (row_result_json row) (row_error row)
    (row_attempts row) None (row_finished_at row) None now row.
Definition recover_failed (now : Z) (row : JobRow) : JobRow :=
  set_job "failed" "Interrupted" (row_result_json row)
    (Some "Job was interrupted by a server restart.") (row_attempts row)
    (row_started_at row) (Some now) None now row.

Definition can_restart (definitions : gmap string JobDefinition) (row : JobRow) : bool :=
  match definitions !! row_kind row with
  | Some definition =>
      definition_restartable definition && negb (row_restartable row =? 0) &&
      (Z.of_N (definition_schema_version definition) =? row_schema_version row) &&
      String.eqb (JobLane_as_str (definition_lane definition)) (row_lane row)
  | None => false
  end.

Definition recover_row (definitions : gmap string JobDefinition) (row : JobRow) : tx () :=
  update_where (has_id (row_id row))
    (if String.eqb (row_status row) "cancel_requested" then recover_cancelled
     else if can_restart definitions row then recover_requeued else recover_failed);;
  mret ().

Fixpoint recover_rows (definitions : gmap string JobDefinition) (rows : list JobRow) : tx () :=
  match rows with
  | [] => mret ()
  | row :: rows => recover_row definitions row;; recover_rows definitions rows
  end.

Definition recover_interrupted (definitions : gmap string JobDefinition) : tx nat :=
  transaction (
    rows ← select (List.filter leased);
    recover_rows definitions rows;;
    mret (length rows)).

(** [impl JobRepository for SqliteStorage] *)
#[global] Instance SqliteJobRepository : JobRepository object SqliteJobs := {|
  repository_error := JobStorageError;
  repository_create := create;
  repository_create_unique_active := create_unique_active;
  repository_get := get_job;
  repository_list := list_jobs;
  repository_request_cancellation := request_cancellation;
  repository_claim_next := claim_next;
  repository_lease_state := repository_lease;
  repository_update_progress := update_progress;
  repository_checkpoint := checkpoint;
  repository_finish := finish_job;
  repository_recover_interrupted := recover_interrupted
|}.

End Sqlite.
