(* ===== verification/JobStoreLemmas.v ===== *)
(** * The job table as a transition system

    Every repository call, whatever the database does to it, is one step of
    [table_step] on the rows of [background_jobs]: nothing, an insertion, or
    one guarded update. The invariants of the table and the life cycle of a job
    are then proved by cases on the step. *)

From S2P Require Import Prelude Store Jobs JobStore.

#[local] Open Scope string_scope.
#[local] Open Scope Z_scope.
#[local] Open Scope list_scope.

(** The rows after [UPDATE .. WHERE p]. *)
Definition update_rows (p : JobRow -> bool) (f : JobRow -> JobRow) (rows : list JobRow)
    : list JobRow := map (fun row => if p row then f row else row) rows.
#[global] Arguments update_rows : simpl never.
#[global] Arguments find_row : simpl never.

(** The lease of a claim, read off the rows. *)
Definition lease_of (rows : list JobRow) (id execution_id : string) : JobLeaseState :=
  match find_row id rows with
  | None => Lease_Lost
  | Some row =>
      if bool_decide (row_execution_id row <> Some execution_id) then Lease_Lost
      else if String.eqb (row_status row) "running" then Lease_Active
      else if String.eqb (row_status row) "cancel_requested" then Lease_CancellationRequested
      else Lease_Lost
  end.

Definition recover_one (definitions : gmap string JobDefinition) (row : JobRow) : Z -> JobRow -> JobRow :=
  if String.eqb (row_status row) "cancel_requested" then recover_cancelled
  else if can_restart definitions row then recover_requeued else recover_failed.

(* ------------------------------------------------------------------ *)
(** ** Rows and updates *)

Lemma leased_spec row :
  leased row = true <-> row_status row = "running" \/ row_status row = "cancel_requested".
Proof. unfold leased. by rewrite orb_true_iff, !String.eqb_eq. Qed.

Lemma unfinished_spec row :
  unfinished row = true <-> row_status row = "queued" \/ leased row = true.
Proof. unfold unfinished. by rewrite orb_true_iff, String.eqb_eq. Qed.

Lemma has_id_spec id row : has_id id row = true <-> row_id row = id.
Proof. apply String.eqb_eq. Qed.

Lemma has_status_spec status row :
  has_status status row = true <-> row_status row = JobStatus_as_str status.
Proof. apply String.eqb_eq. Qed.

Lemma held_by_spec id execution_id row :
  held_by id execution_id row = true <->
  row_id row = id /\ row_execution_id row = Some execution_id /\ leased row = true.
Proof.
  unfold held_by. rewrite !andb_true_iff, has_id_spec, bool_decide_eq_true. tauto.
Qed.

Lemma find_row_Some id rows row :
  find_row id rows = Some row -> row ∈ rows /\ row_id row = id.
Proof. intros [? ?%has_id_spec]%List.find_some. by rewrite list_elem_of_In. Qed.

Lemma find_row_None id rows : find_row id rows = None <-> id ∉ row_id <$> rows.
Proof.
  unfold find_row. split.
  - intros Hnone (row & -> & Hin)%list_elem_of_fmap. rewrite list_elem_of_In in Hin.
    eapply List.find_none in Hnone; [|done]. unfold has_id in Hnone. by rewrite String.eqb_refl in Hnone.
  - intros Hid. destruct (List.find _ rows) as [row|] eqn:Hrow; [|done].
    apply find_row_Some in Hrow as [Hin <-]. destruct Hid. by apply list_elem_of_fmap_2.
Qed.

Lemma existsb_has_id id rows : existsb (has_id id) rows = false <-> id ∉ row_id <$> rows.
Proof.
  rewrite <- not_true_iff_false, existsb_exists, list_elem_of_fmap.
  setoid_rewrite <- list_elem_of_In. setoid_rewrite has_id_spec. naive_solver.
Qed.

Lemma find_row_elem id rows row :
  NoDup (row_id <$> rows) -> row ∈ rows -> row_id row = id -> find_row id rows = Some row.
Proof.
  unfold find_row. intros Hnd Hin Hid. induction rows as [|other rows IH]; [set_solver|].
  cbn in *. apply NoDup_cons in Hnd as [Hfresh Hnd]. apply elem_of_cons in Hin as [<-|Hin].
  - unfold has_id. by rewrite Hid, String.eqb_refl.
  - unfold has_id at 1. destruct (String.eqb_spec (row_id other) id) as [Heq|]; [|auto].
    destruct Hfresh. rewrite Heq, <- Hid. by apply list_elem_of_fmap_2.
Qed.

Lemma ids_unique rows a b :
  NoDup (row_id <$> rows) -> a ∈ rows -> b ∈ rows -> row_id a = row_id b -> a = b.
Proof.
  intros Hnd Ha Hb Heq.
  pose proof (find_row_elem (row_id b) rows a Hnd Ha Heq).
  pose proof (find_row_elem (row_id b) rows b Hnd Hb eq_refl). congruence.
Qed.

Lemma filter_ids p rows : NoDup (row_id <$> rows) -> NoDup (row_id <$> List.filter p rows).
Proof.
  induction rows as [|row rows IH]; [done|]. cbn. intros [Hfresh Hnd]%NoDup_cons.
  destruct (p row); [|by apply IH]. cbn. constructor; [|by apply IH].
  intros (other & Hid & Hin)%list_elem_of_fmap. apply Hfresh. rewrite Hid.
  apply list_elem_of_fmap_2. rewrite list_elem_of_In, List.filter_In, <- list_elem_of_In in Hin.
  by destruct Hin.
Qed.

(** A guarded statement on an id selects at most the row of that id. *)
Lemma filter_by_id id rows row guard :
  NoDup (row_id <$> rows) -> row ∈ rows -> has_id id row && guard row = true ->
  List.filter (fun row => has_id id row && guard row) rows = [row].
Proof.
  intros Hnd Hin Hsel. pose proof Hsel as [<-%has_id_spec _]%andb_true_iff.
  induction rows as [|other rows IH]; [set_solver|].
  cbn in *. apply NoDup_cons in Hnd as [Hfresh Hnd]. apply elem_of_cons in Hin as [<-|Hin].
  - rewrite Hsel. f_equal. clear IH Hsel Hnd.
    induction rows as [|next rows IH]; [done|]. cbn in *.
    apply not_elem_of_cons in Hfresh as [Hne Hfresh].
    unfold has_id at 1. destruct (String.eqb_spec (row_id next) (row_id row)); [congruence|]. auto.
  - unfold has_id at 1. destruct (String.eqb_spec (row_id other) (row_id row)) as [Heq|]; [|auto].
    destruct Hfresh. rewrite Heq. by apply list_elem_of_fmap_2.
Qed.

Lemma lease_of_lost rows id e :
  lease_of rows id e <> Lease_Lost <-> exists row, find_row id rows = Some row /\ held_by id e row = true.
Proof.
  unfold lease_of. destruct (find_row id rows) as [row|] eqn:Hrow.
  - pose proof (find_row_Some _ _ _ Hrow) as [_ Hid].
    setoid_rewrite held_by_spec. setoid_rewrite leased_spec.
    case_bool_decide as He.
    { split; [done|]. naive_solver. }
    destruct (String.eqb_spec (row_status row) "running"); [naive_solver|].
    destruct (String.eqb_spec (row_status row) "cancel_requested"); naive_solver.
  - split; [done|]. naive_solver.
Qed.

Lemma held_by_row rows id e row :
  NoDup (row_id <$> rows) -> row ∈ rows -> held_by id e row = true -> find_row id rows = Some row.
Proof. intros Hnd Hin (Hid & _)%held_by_spec. by apply find_row_elem. Qed.

Lemma update_rows_id p f rows : Forall (fun row => p row = false) rows -> update_rows p f rows = rows.
Proof. unfold update_rows. induction 1 as [|row rows Hp _ IH]; cbn; [done|]. by rewrite Hp, IH. Qed.

Lemma update_rows_ext p q f g rows :
  (forall row, row ∈ rows -> p row = q row /\ (p row = true -> f row = g row)) ->
  update_rows p f rows = update_rows q g rows.
Proof.
  intros H. unfold update_rows. apply map_ext_in. intros row Hin%list_elem_of_In.
  destruct (H row Hin) as [<- Hf]. destruct (p row); auto.
Qed.

(** A guard that needs a lost claim's lease matches no row. *)
Lemma lost_matches_nothing rows id e f :
  NoDup (row_id <$> rows) -> lease_of rows id e = Lease_Lost -> update_rows (held_by id e) f rows = rows.
Proof.
  intros Hnd Hlost. apply update_rows_id, Forall_forall. intros row Hin.
  destruct (held_by id e row) eqn:Hheld; [|done].
  assert (lease_of rows id e <> Lease_Lost); [|done].
  apply lease_of_lost. exists row. split; [by eapply held_by_row|done].
Qed.

Definition keeps_id (f : JobRow -> JobRow) : Prop := forall row, row_id (f row) = row_id row.

Lemma update_rows_ids p f rows : keeps_id f -> row_id <$> update_rows p f rows = row_id <$> rows.
Proof.
  intros Hf. unfold update_rows. induction rows as [|row rows IH]; [done|]. cbn. f_equal; [|done].
  destruct (p row); auto.
Qed.

Lemma find_row_update p f id rows :
  keeps_id f ->
  find_row id (update_rows p f rows) = (fun row => if p row then f row else row) <$> find_row id rows.
Proof.
  intros Hf. unfold find_row, update_rows. induction rows as [|row rows IH]; [done|]. cbn.
  assert (has_id id (if p row then f row else row) = has_id id row) as ->.
  { unfold has_id. destruct (p row); [by rewrite Hf|done]. }
  by destruct (has_id id row).
Qed.

Lemma find_row_app id rows row :
  row_id row ∉ row_id <$> rows ->
  find_row id (rows ++ [row]) = if has_id id row then Some row else find_row id rows.
Proof.
  intros Hfresh. unfold find_row. induction rows as [|other rows IH]; cbn.
  - by destruct (has_id id row).
  - cbn in Hfresh. rewrite IH by set_solver. destruct (has_id id other) eqn:Ho; [|done].
    destruct (has_id id row) eqn:Hr; [|done]. apply has_id_spec in Ho, Hr. set_solver.
Qed.

Lemma next_rowid_fresh rows row : row ∈ rows -> row_rowid row < next_rowid rows.
Proof.
  unfold next_rowid. induction rows as [|other rows IH]; [set_solver|].
  cbn. intros [->|Hin]%elem_of_cons; [lia|]. specialize (IH Hin). lia.
Qed.

(** The head of an ordered selection is its least row. *)
Lemma oldest_head p rows row :
  head (oldest_first (List.filter p rows)) = Some row ->
  row ∈ rows /\ p row = true /\ forall other, other ∈ rows -> p other = true -> job_before row other.
Proof.
  unfold oldest_first. intros Hhead.
  assert (forall other, other ∈ merge_sort job_before (List.filter p rows) <-> other ∈ rows /\ p other = true)
    as Helem.
  { intros other. by rewrite merge_sort_Permutation, list_elem_of_In, List.filter_In, <- list_elem_of_In. }
  pose proof (StronglySorted_merge_sort job_before (List.filter p rows)) as Hsorted.
  destruct (merge_sort _ _) as [|first rest]; [done|]. injection Hhead as ->.
  pose proof (proj1 (Helem row) (list_elem_of_here _ _)) as [Hin Hp]. split_and!; [done..|].
  intros other Hother Hpo. pose proof (proj2 (Helem other) (conj Hother Hpo)) as Hor.
  apply StronglySorted_inv in Hsorted as [_ Hall]. rewrite Forall_forall in Hall.
  apply elem_of_cons in Hor as [->|Hor]; [|by apply Hall]. unfold job_before. lia.
Qed.

Lemma oldest_none p rows :
  head (oldest_first (List.filter p rows)) = None -> Forall (fun row => p row = false) rows.
Proof.
  unfold oldest_first. intros Hhead. apply Forall_forall. intros row Hin.
  destruct (p row) eqn:Hp; [|done]. exfalso.
  assert (row ∈ merge_sort job_before (List.filter p rows)) as Hrow.
  { by rewrite merge_sort_Permutation, list_elem_of_In, List.filter_In, <- list_elem_of_In. }
  destruct (merge_sort _ _); [set_solver|done].
Qed.

Section Steps.
Context {value object : Type} `{Json value object} `{SqliteClock} `{ExecutionIds}.
Notation row_to_job := (row_to_job (value := value) (object := object)).

(* ------------------------------------------------------------------ *)
(** ** Steps *)

(** [table_step (rows, k) (rows', k')]: [k] execution ids have been drawn before
    and [k'] after. *)
Inductive table_step : list JobRow * nat -> list JobRow * nat -> Prop :=
| step_none rows k k' : (k <= k')%nat -> table_step (rows, k) (rows, k')
| step_insert rows k (job : NewJob object) text now record :
    new_job_id job ∉ row_id <$> rows ->
    row_to_job (inserted_row job text (next_rowid rows) now) = Ok record ->
    table_step (rows, k) (rows ++ [inserted_row job text (next_rowid rows) now], k)
| step_cancel_queued rows k id now :
    table_step (rows, k)
      (update_rows (fun row => has_id id row && has_status Queued row) (cancel_queued now) rows, k)
| step_cancel_running rows k id now :
    table_step (rows, k)
      (update_rows (fun row => has_id id row && has_status Running row) (cancel_running now) rows, k)
| step_claim rows k lane next now record :
    head (oldest_first (List.filter (claimable lane) rows)) = Some next ->
    row_to_job (start_execution (execution_uuid k) now next) = Ok record ->
    table_step (rows, k)
      (update_rows (fun row => has_id (row_id next) row && has_status Queued row)
         (start_execution (execution_uuid k) now) rows, S k)
| step_progress rows k k' id e current total phase message now :
    (k <= k')%nat -> 0 <= current -> match total with Some total => 0 <= total | None => True end ->
    table_step (rows, k)
      (update_rows (held_by id e) (set_progress current total phase message now) rows, k')
| step_checkpoint rows k k' id e (result_object : object) text now :
    (k <= k')%nat -> json_to_string result_object = Ok text ->
    table_step (rows, k) (update_rows (held_by id e) (set_result text now) rows, k')
| step_finish rows k id e (finish : JobFinish object) columns now :
    lease_of rows id e <> Lease_Lost ->
    finish_columns finish (lease_of rows id e) = Ok columns ->
    table_step (rows, k) (update_rows (held_by id e) (finish_row columns now) rows, k)
| step_recover rows k definitions (now : JobRow -> Z) :
    table_step (rows, k)
      (update_rows leased (fun row => recover_one definitions row (now row) row) rows, k).

(* ------------------------------------------------------------------ *)
(** ** Transactions *)

Definition position (db : SqliteJobs) : list JobRow * nat := (jobs_table db, jobs_uuids db).

(** A body draws execution ids and never gives one back. *)
Definition draws {A} (m : tx A) : Prop := forall db, (jobs_uuids db <= jobs_uuids (m db).2)%nat.

Lemma draws_ret {A} (x : A) : draws (mret x).
Proof. intros db. cbn. lia. Qed.
Lemma draws_try {A} (r : result JobStorageError A) : draws (try r).
Proof. intros db. cbn. lia. Qed.
Lemma draws_throw {A} e : draws (throw (A := A) e).
Proof. intros db. cbn. lia. Qed.
Lemma draws_select {A} (q : list JobRow -> A) : draws (select q).
Proof. intros db. cbn. lia. Qed.
Lemma draws_update p f : draws (update_where p f).
Proof. intros db. cbn. lia. Qed.
Lemma draws_new_execution_id : draws new_execution_id.
Proof. intros db. cbn. lia. Qed.
Lemma draws_bind {A B} (m : tx A) (f : A -> tx B) :
  draws m -> (forall x, draws (f x)) -> draws (mbind f m).
Proof.
  intros Hm Hf db. unfold mbind, stateful_bind. specialize (Hm db).
  destruct (m db) as [[x|e] db1]; cbn in *; [|lia]. specialize (Hf x db1). lia.
Qed.
Lemma draws_insert (job : NewJob object) : draws (insert_job job).
Proof.
  unfold insert_job. repeat (apply draws_bind; [apply draws_try || apply draws_select|intros ?]).
  destruct (_ =? _)%N; [apply draws_throw|]. destruct (existsb _ _); [apply draws_throw|].
  intros db. cbn. lia.
Qed.
Lemma draws_read_job id : draws (read_job (object := object) id).
Proof. apply draws_bind; [apply draws_select|]. intros. apply draws_try. Qed.
Lemma draws_lease_state id e : draws (lease_state id e).
Proof. apply draws_bind; [apply draws_select|]. intros. apply draws_ret. Qed.
Lemma draws_recover_rows definitions rows : draws (recover_rows definitions rows).
Proof.
  induction rows as [|row rows IH]; cbn; [apply draws_ret|].
  apply draws_bind; [|done]. apply draws_bind; [apply draws_update|]. intros. apply draws_ret.
Qed.

(** What a transaction leaves: the rows it found, or those of a completed body. *)
Lemma transaction_inv {A} (body : tx A) db r db' :
  draws body -> transaction body db = (r, db') ->
  (exists e, r = Err e /\ jobs_table db' = jobs_table db /\ (jobs_uuids db <= jobs_uuids db')%nat) \/
  (exists a after rest, position rest = position db /\ body rest = (Ok a, after) /\
     position db' = position after /\ (r = Ok a \/ exists cause, r = Err (JobStorage_Database cause))).
Proof.
  intros Hdraws. unfold transaction.
  set (rest := mkSqliteJobs _ _ _ _). specialize (Hdraws rest).
  assert (position rest = position db) as Hrest by done.
  destruct (head (jobs_faults db)) as [[|cause|cause]|].
  2:{ intros [= <- <-]. left. exists (JobStorage_Database cause). split; [done|]. cbn. auto. }
  all: destruct (body rest) as [[a|e] after] eqn:Hbody; intros [= <- <-]; cbn in Hdraws.
  all: first [ left; eexists; split; [reflexivity|]; cbn in *; split; [done|lia]
             | right; exists a, after, rest; split_and!; eauto ].
Qed.

End Steps.

#[export] Hint Resolve draws_ret draws_try draws_throw draws_select draws_update
  draws_new_execution_id draws_bind draws_insert draws_read_job draws_lease_state
  draws_recover_rows : music.

(* ------------------------------------------------------------------ *)
(** * Every repository call is one step of the job table *)

#[local] Open Scope string_scope.
#[local] Open Scope Z_scope.
#[local] Open Scope list_scope.

Lemma try_ok {S E A} (r : result E A) (s : S) x s' : try r s = (Ok x, s') -> r = Ok x /\ s' = s.
Proof. by intros [= -> ->]. Qed.

Lemma ret_ok {S E A} (x : A) (s : S) y s' :
  (mret x : stateful S E A) s = (Ok y, s') -> y = x /\ s' = s.
Proof. by intros [= -> ->]. Qed.

Lemma select_ok {A} (q : list JobRow -> A) db x db' :
  select q db = (Ok x, db') -> x = q (jobs_table db) /\ db' = db.
Proof. by intros [= <- <-]. Qed.

Lemma ok_or_ok {E A} (e : E) (o : option A) x : ok_or e o = Ok x <-> o = Some x.
Proof. destruct o; naive_solver. Qed.

Section Operations.
Context {value object : Type} `{Json value object} `{SqliteClock} `{ExecutionIds}.
Notation row_to_job := (row_to_job (value := value) (object := object)).
Notation table_step := (table_step (value := value) (object := object)).

(** The ids are the table's primary key. *)
Definition unique_ids (db : SqliteJobs) : Prop := NoDup (row_id <$> jobs_table db).

Lemma update_where_ok p f db n db' :
  update_where p f db = (Ok n, db') ->
  n = length (List.filter p (jobs_table db)) /\
  exists now, position db' = (update_rows p (f now) (jobs_table db), jobs_uuids db).
Proof. intros [= <- <-]. split; [done|]. by eexists. Qed.

Lemma read_job_ok id db record db' :
  read_job (object := object) id db = (Ok record, db') ->
  db' = db /\
  match find_row id (jobs_table db) with
  | Some row => exists job, record = Some job /\ row_to_job row = Ok job
  | None => record = None
  end.
Proof.
  unfold read_job. intros (row & db1 & [-> ->]%select_ok & [Hrow ->]%try_ok)%stateful_bind_ok.
  split; [done|]. destruct (find_row id _) as [row|]; cbn in Hrow; [|congruence].
  apply bind_ok in Hrow as (job & Hjob & [= <-]). by exists job.
Qed.

Lemma lease_state_ok id e db state db' :
  lease_state id e db = (Ok state, db') -> db' = db /\ state = lease_of (jobs_table db) id e.
Proof.
  unfold lease_state. intros (row & db1 & [-> ->]%select_ok & [-> ->]%ret_ok)%stateful_bind_ok.
  done.
Qed.

Lemma insert_job_ok (job : NewJob object) db u db' :
  insert_job job db = (Ok u, db') ->
  new_job_id job ∉ row_id <$> jobs_table db /\
  exists text now, json_to_string (new_job_parameters job) = Ok text /\
    position db' = (jobs_table db ++ [inserted_row job text (next_rowid (jobs_table db)) now],
                    jobs_uuids db).
Proof.
  unfold insert_job.
  intros (text & db1 & [Htext ->]%try_ok & Hdb)%stateful_bind_ok. apply map_err_ok in Htext.
  apply stateful_bind_ok in Hdb as (rows & db1 & [-> ->]%select_ok & Hdb).
  destruct (_ =? 0)%N; [done|].
  destruct (existsb _ _) eqn:Hfresh; [done|]. apply existsb_has_id in Hfresh.
  injection Hdb as <- <-. split; [done|]. by exists text, (current_timestamp (jobs_clock db)).
Qed.

Lemma transaction_step {A} (body : tx A) db r db' :
  draws body ->
  (forall rest a after, body rest = (Ok a, after) -> unique_ids rest ->
     table_step (position rest) (position after)) ->
  transaction body db = (r, db') -> unique_ids db -> table_step (position db) (position db').
Proof.
  intros Hdraws Hbody Htx Hids.
  apply transaction_inv in Htx as [(e & -> & Hrows & Hk)|(a & after & rest & Hrest & Hrun & Hafter & _)];
    [|rewrite Hafter, <- Hrest|done].
  - unfold position. rewrite Hrows. by constructor.
  - eapply Hbody; [done|]. unfold unique_ids. injection Hrest as -> _. done.
Qed.

(** A transaction that only reads. *)
Lemma transaction_reads {A} (body : tx A) db r db' :
  draws body -> (forall rest a after, body rest = (Ok a, after) -> after = rest) ->
  transaction body db = (r, db') -> jobs_table db' = jobs_table db /\ (jobs_uuids db <= jobs_uuids db')%nat.
Proof.
  intros Hdraws Hbody Htx.
  apply transaction_inv in Htx as [(e & -> & Hrows & Hk)|(a & after & rest & Hrest & Hrun & Hafter & _)];
    [done| |done].
  apply Hbody in Hrun as ->. rewrite Hrest in Hafter. injection Hafter as -> ->. done.
Qed.

Ltac draws_tac := eauto 12 with music nocore.

Lemma inserted_reads job text rows now :
  new_job_id job ∉ row_id <$> rows ->
  find_row (new_job_id job) (rows ++ [inserted_row job text (next_rowid rows) now]) =
  Some (inserted_row (object := object) job text (next_rowid rows) now).
Proof.
  intros Hfresh. rewrite find_row_app by done. unfold has_id. cbn. by rewrite String.eqb_refl.
Qed.

(** An insertion whose row is read back. *)
Lemma insert_and_read_step (job : NewJob object) db u db1 record db2 detail job_read db3 :
  insert_job job db = (Ok u, db1) ->
  read_job (new_job_id job) db1 = (Ok record, db2) ->
  require_job detail record db2 = (Ok job_read, db3) ->
  table_step (position db) (position db3).
Proof.
  intros (Hfresh & text & now & Htext & Hdb1)%insert_job_ok [-> Hrow]%read_job_ok
    [Hrecord ->]%try_ok. apply ok_or_ok in Hrecord as ->.
  rewrite Hdb1. injection Hdb1 as Htable Huuids. rewrite Htable, inserted_reads in Hrow by done.
  destruct Hrow as (job' & [= <-] & Hrow). unfold position. by econstructor.
Qed.

Lemma draws_require detail (record : option (JobRecord object)) : draws (require_job detail record).
Proof. apply draws_try. Qed.

Lemma create_step (job : NewJob object) db r db' :
  create job db = (r, db') -> unique_ids db -> table_step (position db) (position db').
Proof.
  apply transaction_step.
  - apply draws_bind; [apply draws_insert|]. intros _. apply draws_bind; [apply draws_read_job|].
    intros. apply draws_require.
  - intros rest a after (u & db1 & Hins & Hrun)%stateful_bind_ok _.
    apply stateful_bind_ok in Hrun as (record & db2 & Hread & Hreq).
    by eapply insert_and_read_step.
Qed.

Lemma create_unique_active_step (job : NewJob object) db r db' :
  create_unique_active job db = (r, db') -> unique_ids db -> table_step (position db) (position db').
Proof.
  apply transaction_step.
  - apply draws_bind; [apply draws_select|]. intros [row|].
    + apply draws_bind; [apply draws_try|]. intros. apply draws_ret.
    + apply draws_bind; [apply draws_insert|]. intros _. apply draws_bind; [apply draws_read_job|].
      intros. apply draws_bind; [apply draws_require|]. intros. apply draws_ret.
  - intros rest a after (existing & db1 & [-> ->]%select_ok & Hrun)%stateful_bind_ok _.
    destruct (head _) as [row|].
    + apply stateful_bind_ok in Hrun as (record & db1 & [_ ->]%try_ok & [_ ->]%ret_ok).
      by constructor.
    + apply stateful_bind_ok in Hrun as (u & db1 & Hins & Hrun).
      apply stateful_bind_ok in Hrun as (record & db2 & Hread & Hrun).
      apply stateful_bind_ok in Hrun as (record' & db3 & Hreq & [_ ->]%ret_ok).
      by eapply insert_and_read_step.
Qed.

Lemma request_cancellation_step id db r db' :
  request_cancellation (object := object) id db = (r, db') -> unique_ids db ->
  table_step (position db) (position db').
Proof.
  apply transaction_step.
  - apply draws_bind; [apply draws_read_job|]. intros [before|]; [|apply draws_ret].
    apply draws_bind.
    { destruct (job_status before); try apply draws_ret;
        (apply draws_bind; [apply draws_update|]; intros; apply draws_ret). }
    intros. apply draws_bind; [apply draws_read_job|]. intros.
    apply draws_bind; [apply draws_require|]. intros. apply draws_ret.
  - intros rest a after (before & db1 & [-> Hbefore]%read_job_ok & Hrun)%stateful_bind_ok _.
    destruct before as [before|]; [|apply ret_ok in Hrun as [_ ->]; by constructor].
    apply stateful_bind_ok in Hrun as (changed & db1 & Hchanged & Hrun).
    apply stateful_bind_ok in Hrun as (current & db2 & [-> _]%read_job_ok & Hrun).
    apply stateful_bind_ok in Hrun as (record & db3 & [_ ->]%try_ok & [_ ->]%ret_ok).
    destruct (job_status before);
      try (apply ret_ok in Hchanged as [_ ->]; by constructor);
      apply stateful_bind_ok in Hchanged as (n & db2 & Hup & [_ ->]%ret_ok);
      apply update_where_ok in Hup as (_ & now & ->); by econstructor.
Qed.

Lemma claim_next_step lane db r db' :
  claim_next (object := object) lane db = (r, db') -> unique_ids db ->
  table_step (position db) (position db').
Proof.
  apply transaction_step.
  - apply draws_bind; [apply draws_select|]. intros [next|]; [|apply draws_ret].
    apply draws_bind; [apply draws_new_execution_id|]. intros e.
    apply draws_bind; [apply draws_update|]. intros n. destruct (negb _); [apply draws_ret|].
    apply draws_bind; [apply draws_read_job|]. intros.
    apply draws_bind; [apply draws_require|]. intros. apply draws_ret.
  - intros rest a after (next & db1 & [Hnext ->]%select_ok & Hrun)%stateful_bind_ok Hids.
    destruct next as [next|]; [|apply ret_ok in Hrun as [_ ->]; by constructor].
    apply stateful_bind_ok in Hrun as (e & db1 & [= <- <-] & Hrun).
    apply stateful_bind_ok in Hrun as (n & db2 & Hup & Hrun).
    pose proof Hup as (Hn & now & Hdb2)%update_where_ok. cbn in Hn, Hdb2.
    assert (next ∈ jobs_table rest /\ claimable lane next = true) as [Hin Hclaim].
    { symmetry in Hnext. by apply oldest_head in Hnext as (? & ? & _). }
    assert (has_id (row_id next) next && has_status Queued next = true) as Hsel.
    { apply andb_true_iff in Hclaim as [-> _]. by rewrite (proj2 (has_id_spec _ _) eq_refl). }
    destruct (n =? 1)%nat eqn:Hone; cbn in Hrun.
    + apply stateful_bind_ok in Hrun as (record & db3 & [-> Hread]%read_job_ok & Hrun).
      apply stateful_bind_ok in Hrun as (job & db4 & [Hjob ->]%try_ok & [_ ->]%ret_ok).
      apply ok_or_ok in Hjob as ->. rewrite Hdb2. injection Hdb2 as Htable _.
      rewrite Htable, find_row_update in Hread by done.
      rewrite (find_row_elem _ _ next) in Hread by done. cbn in Hread. rewrite Hsel in Hread.
      destruct Hread as (job' & [= <-] & Hread). unfold position. by econstructor.
    + exfalso. apply Nat.eqb_neq in Hone. apply Hone. rewrite Hn.
      by rewrite (filter_by_id _ _ next (has_status Queued)).
Qed.

Lemma lease_read id e db r db' :
  repository_lease id e db = (r, db') ->
  jobs_table db' = jobs_table db /\ (jobs_uuids db <= jobs_uuids db')%nat.
Proof.
  apply transaction_reads; [apply draws_lease_state|].
  by intros rest a after [-> _]%lease_state_ok.
Qed.

Lemma get_job_read id db r db' :
  get_job (object := object) id db = (r, db') ->
  jobs_table db' = jobs_table db /\ (jobs_uuids db <= jobs_uuids db')%nat.
Proof.
  apply transaction_reads; [apply draws_read_job|]. by intros rest a after [-> _]%read_job_ok.
Qed.

Lemma list_jobs_read filter db r db' :
  list_jobs (object := object) filter db = (r, db') ->
  jobs_table db' = jobs_table db /\ (jobs_uuids db <= jobs_uuids db')%nat.
Proof.
  apply transaction_reads.
  - apply draws_bind; [apply draws_select|]. intros. apply draws_try.
  - by intros rest a after (rows & db1 & [_ ->]%select_ok & [_ ->]%try_ok)%stateful_bind_ok.
Qed.

(** One guarded statement and a read of the lease. *)
Lemma statement_and_lease_step id e (set : Z -> JobRow -> JobRow) db r db' :
  (forall rows k k' now, (k <= k')%nat ->
     table_step (rows, k) (update_rows (held_by id e) (set now) rows, k')) ->
  mbind (fun _ => repository_lease id e) (transaction (update_where (held_by id e) set)) db
    = (r, db') ->
  table_step (position db) (position db').
Proof.
  intros Hstep Hrun. unfold mbind, stateful_bind in Hrun.
  destruct (transaction (update_where _ _) db) as [r1 db1] eqn:Htx.
  assert (jobs_table db' = jobs_table db1 /\ (jobs_uuids db1 <= jobs_uuids db')%nat) as [Hrows Hk].
  { destruct r1; [by eapply lease_read|]. by injection Hrun as <- <-. }
  apply transaction_inv in Htx as [(e0 & -> & Hsame & Hk0)|(a & after & rest & Hrest & Hset & Hafter & _)];
    [| |apply draws_update]; unfold position in *; rewrite Hrows.
  - rewrite Hsame. constructor. lia.
  - apply update_where_ok in Hset as (_ & now & Hset). unfold position in Hset.
    rewrite Hset in Hafter. injection Hafter as -> Hu. injection Hrest as -> Hu'.
    apply Hstep. lia.
Qed.

Lemma update_progress_step (claim : JobClaim object) progress db r db' :
  update_progress claim progress db = (r, db') -> table_step (position db) (position db').
Proof.
  unfold update_progress, mbind at 1 2, stateful_bind. cbn [try].
  unfold i64_try_from_u64 at 1. destruct (Z.leb _ _); cbn [ok_or].
  2:{ intros [= <- <-]. by constructor. }
  destruct (progress_total progress) as [total|]; cbn [option_transpose].
  - unfold i64_try_from_u64. destruct (Z.leb _ _); cbn.
    2:{ intros [= <- <-]. by constructor. }
    intros Hrun. eapply statement_and_lease_step; [|exact Hrun].
    intros. apply step_progress; lia.
  - intros Hrun. eapply statement_and_lease_step; [|exact Hrun].
    intros. apply step_progress; [lia..|done].
Qed.

Lemma checkpoint_step (claim : JobClaim object) (result_object : object) db r db' :
  checkpoint claim result_object db = (r, db') -> table_step (position db) (position db').
Proof.
  unfold checkpoint, mbind at 1, stateful_bind. cbn [try].
  destruct (json_to_string result_object) as [text|e] eqn:Htext; cbn [map_err].
  2:{ intros [= <- <-]. by constructor. }
  intros Hrun. eapply statement_and_lease_step; [|exact Hrun].
  intros. by eapply step_checkpoint.
Qed.

Lemma finish_job_step (claim : JobClaim object) (finish : JobFinish object) db r db' :
  finish_job claim finish db = (r, db') -> unique_ids db ->
  table_step (position db) (position db').
Proof.
  apply transaction_step.
  - apply draws_bind; [apply draws_lease_state|]. intros state.
    case_bool_decide; [apply draws_ret|].
    apply draws_bind; [|intros; apply draws_ret].
    apply draws_bind; [apply draws_try|]. intros.
    apply draws_bind; [apply draws_update|]. intros. apply draws_ret.
  - intros rest a after (state & db1 & [-> ->]%lease_state_ok & Hrun)%stateful_bind_ok _.
    case_bool_decide as Hlost; [apply ret_ok in Hrun as [_ ->]; by constructor|].
    apply stateful_bind_ok in Hrun as (u & db1 & Hfin & [_ ->]%ret_ok).
    apply stateful_bind_ok in Hfin as (columns & db2 & [Hcols ->]%try_ok & Hfin).
    apply stateful_bind_ok in Hfin as (n & db2 & Hup & [_ ->]%ret_ok).
    apply update_where_ok in Hup as (_ & now & ->). by eapply step_finish.
Qed.

(** The recovery loop updates the rows it read one by one, each once. *)
Lemma recover_rows_ok definitions todo : forall db u db',
  recover_rows definitions todo db = (Ok u, db') ->
  NoDup (row_id <$> todo) ->
  jobs_uuids db' = jobs_uuids db /\
  exists now : string -> Z, jobs_table db' =
    map (fun row => match List.find (has_id (row_id row)) todo with
                    | Some seen => recover_one definitions seen (now (row_id row)) row
                    | None => row
                    end) (jobs_table db).
Proof.
  induction todo as [|seen todo IH]; intros db u db' Hrun Hnd; cbn in Hrun.
  - injection Hrun as _ <-. split; [done|]. exists (fun _ => 0). cbn. by rewrite map_id.
  - cbn in Hnd. apply NoDup_cons in Hnd as [Hfresh Hnd].
    apply stateful_bind_ok in Hrun as (u1 & db1 & Hone & Hrun).
    apply stateful_bind_ok in Hone as (n & db2 & Hup & [_ ->]%ret_ok).
    apply update_where_ok in Hup as (_ & now & Hdb2).
    apply IH in Hrun as (Hk & later & Htable); [|done].
    injection Hdb2 as Ht Hk2. split; [congruence|].
    exists (fun id => if String.eqb id (row_id seen) then now else later id).
    rewrite Htable, Ht. unfold update_rows. rewrite map_map. apply map_ext. intros row.
    fold (recover_one definitions seen). cbn [List.find].
    destruct (String.eqb_spec (row_id row) (row_id seen)) as [Heq|Hne].
    + rewrite (proj2 (has_id_spec (row_id seen) row)), (proj2 (has_id_spec (row_id row) seen)) by done.
      assert (row_id (recover_one definitions seen now row) = row_id row) as Hid.
      { unfold recover_one. by destruct (String.eqb _ _), (can_restart definitions seen). }
      rewrite Hid, Heq.
      destruct (List.find _ todo) as [other|] eqn:Hfind; [|done].
      apply find_row_Some in Hfind as [Hin Hid']. destruct Hfresh. rewrite <- Hid'.
      by apply list_elem_of_fmap_2.
    + destruct (has_id (row_id seen) row) eqn:H1'; [by apply has_id_spec in H1'|].
      destruct (has_id (row_id row) seen) eqn:H2'; [by apply has_id_spec in H2'|]. done.
Qed.

(** All of them at once, when they are the leased rows. *)
Lemma recover_rows_all definitions db u db' :
  recover_rows definitions (List.filter leased (jobs_table db)) db = (Ok u, db') -> unique_ids db ->
  exists now : JobRow -> Z, jobs_uuids db' = jobs_uuids db /\ jobs_table db' =
    update_rows leased (fun row => recover_one definitions row (now row) row) (jobs_table db).
Proof.
  intros Hrun Hids. apply recover_rows_ok in Hrun as (Hk & now & ->); [|by apply filter_ids].
  exists (fun row => now (row_id row)). split; [done|].
  apply map_ext_in. intros row Hin%list_elem_of_In.
  destruct (List.find _ _) as [seen|] eqn:Hfind.
  - apply List.find_some in Hfind as [Hseen Hid%has_id_spec].
    apply List.filter_In in Hseen as [Hseen%list_elem_of_In Hl].
    assert (seen = row) as -> by by eapply ids_unique. by rewrite Hl.
  - destruct (leased row) eqn:Hl; [|done]. exfalso.
    eapply List.find_none in Hfind; [|apply List.filter_In; split; [by apply list_elem_of_In|done]].
    unfold has_id in Hfind. by rewrite String.eqb_refl in Hfind.
Qed.

Lemma recover_interrupted_step definitions db r db' :
  recover_interrupted definitions db = (r, db') -> unique_ids db ->
  table_step (position db) (position db').
Proof.
  apply transaction_step.
  - apply draws_bind; [apply draws_select|]. intros.
    apply draws_bind; [apply draws_recover_rows|]. intros. apply draws_ret.
  - intros rest a after (rows & db1 & [-> ->]%select_ok & Hrun)%stateful_bind_ok Hids.
    apply stateful_bind_ok in Hrun as (u & db1 & Hrun & [_ ->]%ret_ok).
    apply recover_rows_all in Hrun as (now & Hk & Htable); [|done].
    unfold position. rewrite Hk, Htable. apply step_recover.
Qed.

(* ------------------------------------------------------------------ *)
(** ** Histories *)

(** A repository call by name. *)
Inductive RepositoryOp : Type :=
| Op_create (job : NewJob object)
| Op_create_unique_active (job : NewJob object)
| Op_get (id : string)
| Op_list (filter : JobListFilter)
| Op_request_cancellation (id : string)
| Op_claim_next (lane : JobLane)
| Op_lease_state (id execution_id : string)
| Op_update_progress (claim : JobClaim object) (progress : JobProgress)
| Op_checkpoint (claim : JobClaim object) (result_object : object)
| Op_finish (claim : JobClaim object) (finish : JobFinish object)
| Op_recover (definitions : gmap string JobDefinition).

Definition run_op (op : RepositoryOp) (db : SqliteJobs) : SqliteJobs :=
  match op with
  | Op_create job => (create job db).2
  | Op_create_unique_active job => (create_unique_active job db).2
  | Op_get id => (get_job (object := object) id db).2
  | Op_list filter => (list_jobs (object := object) filter db).2
  | Op_request_cancellation id => (request_cancellation (object := object) id db).2
  | Op_claim_next lane => (claim_next (object := object) lane db).2
  | Op_lease_state id execution_id => (repository_lease id execution_id db).2
  | Op_update_progress claim progress => (update_progress claim progress db).2
  | Op_checkpoint claim result_object => (checkpoint claim result_object db).2
  | Op_finish claim finish => (finish_job claim finish db).2
  | Op_recover definitions => (recover_interrupted definitions db).2
  end.

Definition run_ops (ops : list RepositoryOp) (db : SqliteJobs) : SqliteJobs :=
  foldl (fun db op => run_op op db) db ops.

Lemma run_op_step op db : unique_ids db -> table_step (position db) (position (run_op op db)).
Proof.
  intros Hids.
  assert (forall A (p : result JobStorageError A * SqliteJobs),
    jobs_table p.2 = jobs_table db /\ (jobs_uuids db <= jobs_uuids p.2)%nat ->
    table_step (position db) (position p.2)) as Hread.
  { intros A p [Hrows Hk]. unfold position. rewrite Hrows. by constructor. }
  destruct op; cbn [run_op].
  - eapply create_step; [apply surjective_pairing|done].
  - eapply create_unique_active_step; [apply surjective_pairing|done].
  - apply Hread. eapply get_job_read, surjective_pairing.
  - apply Hread. eapply list_jobs_read, surjective_pairing.
  - eapply request_cancellation_step; [apply surjective_pairing|done].
  - eapply claim_next_step; [apply surjective_pairing|done].
  - apply Hread. eapply lease_read, surjective_pairing.
  - eapply update_progress_step, surjective_pairing.
  - eapply checkpoint_step, surjective_pairing.
  - eapply finish_job_step; [apply surjective_pairing|done].
  - eapply recover_interrupted_step; [apply surjective_pairing|done].
Qed.
End Operations.
