(* ===== verification/JobStoreSpec.v ===== *)
(** * What the job repository keeps

    The well-formedness of the job table, the life cycle of a job, the safety of
    leases, the order of the queue and the recovery after a crash, over every
    history of repository calls and database faults. *)

From S2P Require Import Prelude Store Jobs JobStore JobStoreLemmas.

#[local] Open Scope string_scope.
#[local] Open Scope Z_scope.
#[local] Open Scope list_scope.

Definition columns_between (lo hi v : Z) : Prop := lo <= v <= hi.

(** The transitions of a job. *)
Inductive life_step : JobStatus -> JobStatus -> Prop :=
| life_claimed : life_step Queued Running
| life_withdrawn : life_step Queued Cancelled
| life_cancelling : life_step Running CancelRequested
| life_succeeded : life_step Running Succeeded
| life_failed : life_step Running Failed
| life_stopped : life_step Running Cancelled
| life_requeued : life_step Running Queued
| life_cancelled : life_step CancelRequested Cancelled.

(** The columns no call changes. *)
Definition same_job (a b : JobRow) : Prop :=
  row_rowid b = row_rowid a /\ row_id b = row_id a /\ row_kind b = row_kind a /\
  row_parameters_json b = row_parameters_json a /\ row_retry_of_id b = row_retry_of_id a /\
  row_created_at b = row_created_at a /\ row_lane b = row_lane a /\
  row_schema_version b = row_schema_version a /\ row_restartable b = row_restartable a /\
  row_checkpoint_policy b = row_checkpoint_policy a.

Section Spec.
Context {value object : Type} `{Hjson : JsonSpec value object} `{SqliteClock}.
Context `{Hids : ExecutionIdsSpec}.
Notation row_to_job := (row_to_job (value := value) (object := object)).
Notation table_step := (table_step (value := value) (object := object)).

(* ------------------------------------------------------------------ *)
(** ** Rows that decode *)

Definition decodes_object (text : string) : Prop :=
  exists parsed (o : object), json_from_str text = Ok parsed /\ as_object parsed = Some o.

(** The columns a row needs to be read back as a job. *)
Record decodable (row : JobRow) : Prop := {
  dec_parameters : decodes_object (row_parameters_json row);
  dec_result : forall text, row_result_json row = Some text -> decodes_object text;
  dec_status : exists status, row_status row = JobStatus_as_str status;
  dec_current : 0 <= row_progress_current row;
  dec_total : forall total, row_progress_total row = Some total -> 0 <= total;
  dec_attempts : 0 <= row_attempts row <= Z.of_N u32_max;
  dec_lane : exists lane, row_lane row = JobLane_as_str lane;
  dec_version : 0 < row_schema_version row <= Z.of_N u32_max;
  dec_policy : row_checkpoint_policy row = "replace"
}.

Lemma json_object_ok text detail (o : object) :
  json_object text detail = Ok o <-> exists parsed, json_from_str text = Ok parsed /\ as_object parsed = Some o.
Proof.
  unfold json_object. rewrite bind_ok. setoid_rewrite map_err_ok. by setoid_rewrite ok_or_ok.
Qed.

Lemma JobStatus_parse_ok text status :
  JobStatus_parse text = Ok status <-> text = JobStatus_as_str status.
Proof.
  split; [|intros ->; apply JobStatus_parse_as_str]. unfold JobStatus_parse.
  parse_cases.
Qed.

Lemma JobLane_parse_ok text lane : JobLane_parse text = Ok lane <-> text = JobLane_as_str lane.
Proof.
  split; [|intros ->; apply JobLane_parse_as_str]. unfold JobLane_parse.
  parse_cases.
Qed.

Lemma u64_from_ok v : is_Some (u64_try_from_i64 v) <-> 0 <= v.
Proof.
  unfold u64_try_from_i64. destruct (Z.leb_spec 0 v); split; intros Hv; try done; try lia.
Qed.

Lemma u32_from_ok v n : u32_try_from_i64 v = Some n <-> 0 <= v <= Z.of_N u32_max /\ n = Z.to_N v.
Proof.
  unfold u32_try_from_i64.
  destruct (andb (0 <=? v) (v <=? Z.of_N u32_max)) eqn:Hb;
    [apply andb_true_iff in Hb|apply andb_false_iff in Hb];
    rewrite ?Z.leb_le, ?Z.leb_gt in Hb; split.
  - intros [= <-]. split; [|done]. lia.
  - by intros [_ ->].
  - done.
  - intros [? _]. lia.
Qed.

Lemma version_ok v n :
  match u32_try_from_i64 v with
  | Some version => if (0 <? version)%N then Some version else None
  | None => None
  end = Some n <-> 0 < v <= Z.of_N u32_max /\ n = Z.to_N v.
Proof.
  destruct (u32_try_from_i64 v) as [m|] eqn:Hm.
  - apply u32_from_ok in Hm as [Hv ->]. destruct (N.ltb_spec 0 (Z.to_N v)); split;
      [intros [= <-]; split; [lia|done]|by intros [_ ->]|done|intros [? _]; lia].
  - split; [done|]. intros [Hv ->].
    assert (u32_try_from_i64 v = Some (Z.to_N v)) by (apply u32_from_ok; split; [lia|done]). congruence.
Qed.

Lemma option_transpose_ok {E A B} (f : A -> result E B) o y x :
  option_transpose f o = Ok y -> o = Some x -> exists z, f x = Ok z.
Proof. intros Ho ->. cbn in Ho. apply bind_ok in Ho as (z & Hz & _). by exists z. Qed.

Lemma option_transpose_total {E A B} (f : A -> result E B) o :
  (forall x, o = Some x -> exists z, f x = Ok z) -> exists y, option_transpose f o = Ok y.
Proof.
  destruct o as [x|]; intros Hf; [|by eexists].
  destruct (Hf x eq_refl) as [z Hz]. cbn. rewrite Hz. by eexists.
Qed.

Lemma row_to_job_ok row job :
  row_to_job row = Ok job -> decodable row /\ row_status row = JobStatus_as_str (job_status job) /\
    job_id job = row_id row /\ job_execution_id job = row_execution_id row /\
    row_lane row = JobLane_as_str (job_lane job).
Proof.
  unfold row_to_job. intros Hr. inv_results.
  repeat match goal with
  | H : map_err _ _ = Ok _ |- _ => apply map_err_ok in H
  | H : JobStatus_parse _ = Ok _ |- _ => apply JobStatus_parse_ok in H
  | H : JobLane_parse _ = Ok _ |- _ => apply JobLane_parse_ok in H
  | H : json_object _ _ = Ok _ |- _ => apply json_object_ok in H
  | H : u32_try_from_i64 _ = Some _ |- _ => apply u32_from_ok in H
  | H : match u32_try_from_i64 _ with _ => _ end = Some _ |- _ => apply version_ok in H
  | H : u64_try_from_i64 _ = Some _ |- _ => apply mk_is_Some, u64_from_ok in H
  end.
  split_and!; try done. destruct_and?. constructor; try done.
  - match goal with H : exists _, _ |- _ => destruct H as (parsed & ? & ?) end. by eexists _, _.
  - intros text Htext. eapply option_transpose_ok in Htext as [o Ho]; [|done].
    apply json_object_ok in Ho as (parsed & ? & ?). by exists parsed, o.
  - by eexists.
  - intros total Htotal. eapply option_transpose_ok in Htotal as [n Hn]; [|done].
    apply ok_or_ok, mk_is_Some, u64_from_ok in Hn. done.
  - by eexists.
  - unfold JobCheckpointPolicy_parse in *.
    destruct (String.eqb_spec (row_checkpoint_policy row) "replace"); done.
Qed.

Lemma decodable_row_to_job row : decodable row -> exists job, row_to_job row = Ok job.
Proof.
  intros []. destruct dec_parameters0 as (parsed & o & Hparse & Ho).
  destruct dec_status0 as [status Hstatus], dec_lane0 as [lane Hlane].
  assert (exists y, option_transpose
    (fun text => json_object (object := object) text "result is not an object") (row_result_json row) = Ok y)
    as [result_object Hresult].
  { apply option_transpose_total. intros text (parsed' & o' & ? & ?)%dec_result0.
    exists o'. apply json_object_ok. eauto. }
  assert (exists y, option_transpose (fun total => ok_or (InvalidJobRecord "negative progress total")
      (u64_try_from_i64 total)) (row_progress_total row) = Ok y) as [total Htotal].
  { apply option_transpose_total. intros total [n Hn]%dec_total0%u64_from_ok.
    exists n. by apply ok_or_ok. }
  destruct (proj2 (u64_from_ok (row_progress_current row)) dec_current0) as [current Hcurrent].
  unfold row_to_job.
  rewrite (proj2 (json_object_ok _ _ o)) by eauto. cbn. rewrite Hresult. cbn.
  rewrite Hstatus, JobStatus_parse_as_str. cbn. rewrite Hcurrent. cbn. rewrite Htotal. cbn.
  rewrite (proj2 (u32_from_ok _ _) (conj dec_attempts0 eq_refl)). cbn.
  rewrite Hlane, JobLane_parse_as_str. cbn.
  rewrite (proj2 (version_ok _ _) (conj dec_version0 eq_refl)). cbn.
  rewrite dec_policy0. by eexists.
Qed.

(** An object's text decodes. *)
Lemma decodes_encoded (o : object) text : json_to_string o = Ok text -> decodes_object text.
Proof. intros Ho%from_str_to_string. exists (Value_Object o), o. split; [done|apply as_object_Object]. Qed.

(* ------------------------------------------------------------------ *)
(** ** Well-formedness *)

(** [k] execution ids have been drawn. *)
Record row_wf (k : nat) (row : JobRow) : Prop := {
  wf_decodes : exists job, row_to_job row = Ok job;
  wf_lease : is_Some (row_execution_id row) <-> leased row = true;
  wf_issued e : row_execution_id row = Some e -> exists n, (n < k)%nat /\ e = execution_uuid n;
  wf_finished : is_Some (row_finished_at row) <-> unfinished row = false;
  wf_started : leased row = true -> is_Some (row_started_at row);
  wf_waiting : row_status row = "queued" -> row_started_at row = None;
  wf_attempts : leased row = true -> 1 <= row_attempts row
}.

(** Every row decodes, holds an execution exactly while leased, and no two rows
    share an id, a rowid or an execution. *)
Record table_wf (table : list JobRow * nat) : Prop := {
  wf_rows : Forall (row_wf table.2) table.1;
  wf_ids : NoDup (row_id <$> table.1);
  wf_rowids : NoDup (row_rowid <$> table.1);
  wf_exclusive a b e : a ∈ table.1 -> b ∈ table.1 ->
    row_execution_id a = Some e -> row_execution_id b = Some e -> a = b
}.

Lemma row_wf_mono k k' row : (k <= k')%nat -> row_wf k row -> row_wf k' row.
Proof. intros Hk []. split; try done. intros e (n & ? & ?)%wf_issued0. exists n. split; [lia|done]. Qed.

Lemma row_wf_decodable k row : row_wf k row -> decodable row.
Proof. intros [[job Hjob%row_to_job_ok]]. tauto. Qed.

(** An update that keeps rowids, well-formed where it applies, and that draws
    at most one fresh execution id for at most one row. *)
Lemma table_wf_update p f rows k k' :
  table_wf (rows, k) -> (k <= k')%nat -> keeps_id f ->
  (forall row, row_rowid (f row) = row_rowid row) ->
  (forall row, row ∈ rows -> p row = true -> row_wf k' (f row)) ->
  (forall row, row ∈ rows -> p row = true -> row_execution_id (f row) = None \/
     row_execution_id (f row) = row_execution_id row \/
     (row_execution_id (f row) = Some (execution_uuid k) /\
      forall other, other ∈ rows -> p other = true -> other = row)) ->
  table_wf (update_rows p f rows, k').
Proof.
  intros [Hrows Hid Hrowid Hexcl] Hk Hkeep Hkeep' Hwf Hexec. cbn in *. split; cbn.
  - unfold update_rows. apply Forall_map, Forall_forall. intros row Hin.
    rewrite Forall_forall in Hrows. destruct (p row) eqn:Hp; [by apply Hwf|].
    eapply row_wf_mono; [done|by apply Hrows].
  - by rewrite update_rows_ids.
  - enough (row_rowid <$> update_rows p f rows = row_rowid <$> rows) as -> by done.
    unfold update_rows. clear -Hkeep'. induction rows as [|row rows IH]; [done|]. cbn. f_equal; [|done].
    by destruct (p row).
  - intros a b e Ha Hb Hea Heb. unfold update_rows in Ha, Hb.
    apply list_elem_of_fmap in Ha as (a0 & -> & Ha), Hb as (b0 & -> & Hb).
    assert (forall row, row ∈ rows -> row_execution_id row <> Some (execution_uuid k)) as Hfresh.
    { intros row Hin He. rewrite Forall_forall in Hrows.
      destruct (wf_issued _ _ (Hrows row Hin) _ He) as (n & Hn & Heq%(inj execution_uuid)). lia. }
    assert (a0 = b0) as ->; [|done].
    destruct (p a0) eqn:Hpa, (p b0) eqn:Hpb.
    + destruct (Hexec a0 Ha Hpa) as [?|[Ha'|[Ha' Hu]]]; [congruence| |by symmetry; apply Hu].
      destruct (Hexec b0 Hb Hpb) as [?|[Hb'|[Hb' Hu]]]; [congruence| |by apply Hu].
      apply (Hexcl a0 b0 e); congruence || done.
    + destruct (Hexec a0 Ha Hpa) as [?|[Ha'|[Ha' _]]]; [congruence|apply (Hexcl a0 b0 e); congruence || done|].
      destruct (Hfresh b0 Hb). congruence.
    + destruct (Hexec b0 Hb Hpb) as [?|[Hb'|[Hb' _]]]; [congruence|apply (Hexcl a0 b0 e); congruence || done|].
      destruct (Hfresh a0 Ha). congruence.
    + by eapply Hexcl.
Qed.

(** What a new lease state has to agree on. *)
Record lease_columns (k : nat) (status : string) (attempts : Z) (started finished : option Z)
    (execution : option string) : Prop := {
  lc_status : exists s, status = JobStatus_as_str s;
  lc_lease : is_Some execution <-> status = "running" \/ status = "cancel_requested";
  lc_issued e : execution = Some e -> exists n, (n < k)%nat /\ e = execution_uuid n;
  lc_finished : is_Some finished <->
    status <> "queued" /\ status <> "running" /\ status <> "cancel_requested";
  lc_started : status = "running" \/ status = "cancel_requested" -> is_Some started;
  lc_waiting : status = "queued" -> started = None;
  lc_attempts : status = "running" \/ status = "cancel_requested" -> 1 <= attempts
}.

Lemma row_wf_columns k row :
  row_wf k row <-> (exists job, row_to_job row = Ok job) /\
    lease_columns k (row_status row) (row_attempts row) (row_started_at row) (row_finished_at row)
      (row_execution_id row).
Proof.
  assert (unfinished row = false <->
    row_status row <> "queued" /\ row_status row <> "running" /\ row_status row <> "cancel_requested")
    as Hun.
  { rewrite <- not_true_iff_false, unfinished_spec, leased_spec. tauto. }
  split.
  - intros Hwf. split; [by destruct Hwf|].
    pose proof (dec_status _ (row_wf_decodable _ _ Hwf)) as Hstatus. destruct Hwf.
    split; rewrite <- ?leased_spec; try done. by rewrite <- Hun.
  - intros [Hdec []]. split; rewrite ?leased_spec; try done. by rewrite Hun.
Qed.

Lemma row_wf_set_job k row status phase result_json error attempts started finished execution now :
  decodable row -> (forall text, result_json = Some text -> decodes_object text) ->
  0 <= attempts <= Z.of_N u32_max ->
  lease_columns k status attempts started finished execution ->
  row_wf k (set_job status phase result_json error attempts started finished execution now row).
Proof.
  intros [] Hresult Hattempts Hcols. apply row_wf_columns. split; [|done].
  apply decodable_row_to_job. split; try done. apply Hcols.
Qed.

Lemma row_wf_cancel_queued k row now :
  row_wf k row -> has_status Queued row = true -> row_wf k (cancel_queued now row).
Proof.
  intros Hwf Hq%has_status_spec. pose proof (row_wf_decodable _ _ Hwf) as Hdec.
  apply row_wf_set_job; try (by destruct Hdec). split; try done; [by exists Cancelled|by naive_solver..].
Qed.

Lemma row_wf_cancel_running k row now :
  row_wf k row -> has_status Running row = true -> row_wf k (cancel_running now row).
Proof.
  intros Hwf Hr%has_status_spec. pose proof (row_wf_decodable _ _ Hwf) as Hdec.
  apply row_wf_columns in Hwf as [_ []]. cbn in Hr. rewrite Hr in *.
  apply row_wf_set_job; try (by destruct Hdec).
  split; try done; [by exists CancelRequested|naive_solver..].
Qed.

(** A lease that ended: no execution, and a finish time exactly when the job is over. *)
Lemma lease_columns_ended k status attempts started now (finished : bool) :
  status ∈ (if finished then ["succeeded"; "failed"; "cancelled"] else ["queued"]) ->
  (finished = false -> started = None) ->
  lease_columns k status attempts started (if finished then Some now else None) None.
Proof.
  intros Hstatus Hstarted.
  assert (status <> "running" /\ status <> "cancel_requested" /\ (finished = true <-> status <> "queued"))
    as (Hr & Hc & Hq) by (destruct finished; set_solver).
  split.
  - destruct finished; [|by exists Queued; set_solver].
    apply elem_of_cons in Hstatus as [->|Hstatus]; [by exists Succeeded|].
    apply elem_of_cons in Hstatus as [->|Hstatus]; [by exists Failed|].
    exists Cancelled. set_solver.
  - split; [by intros []|]. by intros [].
  - done.
  - destruct finished; split; [|by eexists|by intros []|].
    + intros _. split; [by apply Hq|done].
    + intros [Hne _]. by apply Hq in Hne.
  - by intros [].
  - intros Hqueued. apply Hstarted. destruct finished; [|done]. by apply Hq in Hqueued.
  - by intros [].
Qed.

Lemma finish_columns_ok (finish : JobFinish object) state columns :
  finish_columns finish state = Ok columns ->
  let '(status, phase, result_json, error, clear_started, finished) := columns in
  clear_started = negb finished /\
  (status ∈ if finished : bool then ["succeeded"; "failed"; "cancelled"] else ["queued"]) /\
  (state = Lease_CancellationRequested -> status = "cancelled") /\
  (forall text, result_json = Some text -> decodes_object text).
Proof.
  unfold finish_columns. case_bool_decide as Hstate.
  - intros [= <-]. split_and!; (set_solver || done).
  - destruct finish as [o|error| |[]]; try (intros [= <-]; split_and!; (set_solver || done)).
    intros (text & Htext & [= <-])%bind_ok. split_and!; try (set_solver || done).
    intros ? [= <-]. apply map_err_ok in Htext. by eapply decodes_encoded.
Qed.

Lemma row_wf_finish k row (finish : JobFinish object) state columns now :
  row_wf k row -> finish_columns finish state = Ok columns -> row_wf k (finish_row columns now row).
Proof.
  intros Hwf Hcols%finish_columns_ok. destruct columns as [[[[[status phase] res] error] clear] finished].
  destruct Hcols as (-> & Hstatus & _ & Hres).
  pose proof (row_wf_decodable _ _ Hwf) as Hdec. apply row_wf_set_job; try (by destruct Hdec).
  - intros text. destruct res as [t|]; [|apply Hdec]. intros [= <-]. by apply Hres.
  - apply (lease_columns_ended _ _ _ _ now finished); [done|]. by intros ->.
Qed.

Lemma row_wf_recover k row definitions now :
  row_wf k row -> leased row = true -> row_wf k (recover_one definitions row now row).
Proof.
  intros Hwf Hl. pose proof (row_wf_decodable _ _ Hwf) as Hdec. unfold recover_one.
  destruct (String.eqb _ _); [|destruct (can_restart definitions row)];
    apply row_wf_set_job; try (by destruct Hdec).
  - apply (lease_columns_ended _ _ _ _ now true); [set_solver|done].
  - assert (row_finished_at row = None) as ->.
    { destruct (row_finished_at row) eqn:Hf; [|done].
      assert (unfinished row = false) by (apply (wf_finished _ _ Hwf); by eexists).
      assert (unfinished row = true) by (apply unfinished_spec; by right). congruence. }
    apply (lease_columns_ended _ _ _ _ now false); [set_solver|done].
  - apply (lease_columns_ended _ _ _ _ now true); [set_solver|done].
Qed.

Lemma row_wf_start k row now job :
  row_wf k row -> has_status Queued row = true ->
  row_to_job (start_execution (execution_uuid k) now row) = Ok job ->
  row_wf (S k) (start_execution (execution_uuid k) now row).
Proof.
  intros Hwf Hq%has_status_spec Hjob. pose proof (row_wf_decodable _ _ Hwf) as Hdec.
  apply row_wf_columns. split; [by exists job|]. cbn. split; try naive_solver.
  - by exists Running.
  - intros _. destruct Hdec. lia.
Qed.

Lemma row_wf_progress k row current total phase message now :
  row_wf k row -> 0 <= current -> match total with Some total => 0 <= total | None => True end ->
  row_wf k (set_progress current total phase message now row).
Proof.
  intros Hwf Hc Ht. pose proof (row_wf_decodable _ _ Hwf) as Hdec.
  apply row_wf_columns in Hwf as [_ Hcols]. apply row_wf_columns. split; [|done].
  apply decodable_row_to_job. destruct Hdec. split; try done. cbn. by intros ? ->.
Qed.

Lemma row_wf_result k row (o : object) text now :
  row_wf k row -> json_to_string o = Ok text -> row_wf k (set_result text now row).
Proof.
  intros Hwf Ht. pose proof (row_wf_decodable _ _ Hwf) as Hdec.
  apply row_wf_columns in Hwf as [_ Hcols]. apply row_wf_columns. split; [|done].
  apply decodable_row_to_job. destruct Hdec. split; try done. intros ? [= <-]. by eapply decodes_encoded.
Qed.

Lemma row_wf_inserted k (job : NewJob object) text rowid now record :
  row_to_job (inserted_row job text rowid now) = Ok record -> row_wf k (inserted_row job text rowid now).
Proof.
  intros Hrecord. apply row_wf_columns. split; [by exists record|].
  apply (lease_columns_ended _ _ _ _ now false); [set_solver|done].
Qed.

Lemma table_step_wf t t' : table_step t t' -> table_wf t -> table_wf t'.
Proof.
  intros Hstep Hwf. pose proof (wf_rows _ Hwf) as Hrows. rewrite Forall_forall in Hrows.
  destruct Hstep as [rows k k' Hk|rows k job text now record Hfresh Hrecord|rows k id now|rows k id now
    |rows k lane next now record Hnext Hrecord|rows k k' id e current total phase message now Hk Hc Ht
    |rows k k' id e o text now Hk Ho|rows k id e finish columns now Hlease Hcols|rows k definitions now].
  - destruct Hwf as [? ? ? ?]. split; cbn in *; try done.
    eapply Forall_impl; [done|]. intros row. by apply row_wf_mono.
  - pose proof Hwf as [_ Hid Hrowid Hexcl]. cbn in *. split; cbn.
    + apply Forall_app. split; [by apply Forall_forall|]. constructor; [|constructor].
      by eapply row_wf_inserted.
    + rewrite fmap_app. apply NoDup_app. split_and!; [done| |apply NoDup_singleton]. set_solver.
    + rewrite fmap_app. apply NoDup_app. split_and!; [done| |apply NoDup_singleton].
      intros v (row & -> & Hin)%list_elem_of_fmap. apply next_rowid_fresh in Hin. cbn. set_solver by lia.
    + intros a b e [Ha|Ha]%elem_of_app [Hb|Hb]%elem_of_app;
        rewrite ?list_elem_of_singleton in *; subst; try done. by eapply Hexcl.
  - apply table_wf_update with k; try done; auto.
    intros row Hin [_ Hq]%andb_true_iff. apply row_wf_cancel_queued; [by apply Hrows|done].
  - apply table_wf_update with k; try done; auto.
    intros row Hin [_ Hq]%andb_true_iff. apply row_wf_cancel_running; [by apply Hrows|done].
  - apply table_wf_update with k; try done; auto.
    + intros row Hin [Hid%has_id_spec Hq]%andb_true_iff.
      assert (row = next) as ->.
      { eapply ids_unique; [apply Hwf|done| |done]. by apply oldest_head in Hnext as [? _]. }
      eapply row_wf_start; [by apply Hrows|done..].
    + intros row Hin [Hid%has_id_spec _]%andb_true_iff. right. right. split; [done|].
      intros other Hother [Hid'%has_id_spec _]%andb_true_iff.
      eapply ids_unique; [apply Hwf|done..|congruence].
  - apply table_wf_update with k; try done; auto.
    intros row Hin _. eapply row_wf_mono; [done|]. apply row_wf_progress; [by apply Hrows|done..].
  - apply table_wf_update with k; try done; auto.
    intros row Hin _. eapply row_wf_mono; [done|]. eapply row_wf_result; [by apply Hrows|done].
  - apply table_wf_update with k; try done; auto.
    + intros row. by destruct columns as [[[[[? ?] ?] ?] ?] ?].
    + intros row. by destruct columns as [[[[[? ?] ?] ?] ?] ?].
    + intros row Hin _. eapply row_wf_finish; [by apply Hrows|done].
    + intros row _ _. left. by destruct columns as [[[[[? ?] ?] ?] ?] ?].
  - apply table_wf_update with k; try done; auto.
    + intros row. unfold recover_one. by destruct (String.eqb _ _), (can_restart definitions row).
    + intros row. unfold recover_one. by destruct (String.eqb _ _), (can_restart definitions row).
    + intros row Hin Hl. apply row_wf_recover; [by apply Hrows|done].
    + intros row _ _. left. unfold recover_one. by destruct (String.eqb _ _), (can_restart definitions row).
Qed.
End Spec.
