(* ===== verification/JobLifecycle.v ===== *)
(** * The life of a job in the repository

    The theorems on histories of repository calls: the table stays well formed,
    a job moves only along [life_step], a lost lease stays lost and lets its
    holder change nothing, the queue is served in order and recovery leaves no
    lease behind. *)

From S2P Require Import Prelude Store Jobs JobStore JobStoreLemmas JobStoreSpec.

#[local] Open Scope string_scope.
#[local] Open Scope Z_scope.
#[local] Open Scope list_scope.

(** What one call may do to a row. *)
Definition row_evolves (a b : JobRow) : Prop :=
  same_job a b /\
  exists before after, row_status a = JobStatus_as_str before /\ row_status b = JobStatus_as_str after /\
    (before = after \/ life_step before after) /\ (is_active before = false -> b = a).

Section Histories.
Context {value object : Type} `{Hjson : JsonSpec value object} `{SqliteClock}.
Context `{Hids : ExecutionIdsSpec}.
Notation row_to_job := (row_to_job (value := value) (object := object)).
Notation table_step := (table_step (value := value) (object := object)).
Notation table_wf := (table_wf (value := value) (object := object)).
Notation row_wf := (row_wf (value := value) (object := object)).
Notation RepositoryOp := (RepositoryOp (object := object)).

Lemma run_ops_ind (P : SqliteJobs -> Prop) (ops : list RepositoryOp) db :
  table_wf (position db) -> P db ->
  (forall op db, table_wf (position db) -> P db -> P (run_op op db)) ->
  table_wf (position (run_ops ops db)) /\ P (run_ops ops db).
Proof.
  intros Hwf HP Hstep. unfold run_ops. revert db Hwf HP.
  induction ops as [|op ops IH]; intros db Hwf HP; [done|]. cbn. apply IH; [|by apply Hstep].
  eapply table_step_wf; [|done]. apply run_op_step. apply Hwf.
Qed.

Lemma run_op_wf (op : RepositoryOp) db : table_wf (position db) -> table_wf (position (run_op op db)).
Proof. intros Hwf. eapply table_step_wf; [|done]. apply run_op_step, Hwf. Qed.

(** C21: a job table that is well formed (rows decode, a row holds an execution
    exactly while it is leased and a finish time exactly once it is over, ids,
    rowids and executions are unique) stays so under every history of repository
    calls and database faults; the empty table is well formed. *)
Theorem job_table_stays_well_formed (ops : list RepositoryOp) db :
  table_wf (position db) \/ jobs_table db = [] -> table_wf (position (run_ops ops db)).
Proof.
  intros Hwf. apply (run_ops_ind (fun _ => True)); [|done..].
  destruct Hwf as [Hwf|Hempty]; [done|]. unfold position. rewrite Hempty.
  split; cbn; [constructor|constructor|constructor|set_solver].
Qed.

(* ------------------------------------------------------------------ *)
(** ** The life cycle *)

Lemma same_job_refl a : same_job a a.
Proof. by unfold same_job. Qed.

Lemma row_evolves_refl k a : row_wf k a -> row_evolves a a.
Proof.
  intros Hwf. destruct (dec_status _ (row_wf_decodable _ _ Hwf)) as [status Hstatus].
  split; [apply same_job_refl|]. exists status, status. split_and!; auto.
Qed.

Lemma row_evolves_to k a b before after :
  row_wf k a -> same_job a b -> row_status a = JobStatus_as_str before ->
  row_status b = JobStatus_as_str after -> before = after \/ life_step before after ->
  is_active before = true -> row_evolves a b.
Proof.
  intros _ Hsame Ha Hb Hlife Hactive. split; [done|]. exists before, after.
  split_and!; [done..|]. congruence.
Qed.

Lemma evolves_update p f rows k :
  Forall (row_wf k) rows -> (forall row, row ∈ rows -> p row = true -> row_evolves row (f row)) ->
  Forall2 row_evolves rows (update_rows p f rows).
Proof.
  intros Hwf Hf. unfold update_rows. rewrite Forall2_fmap_r.
  apply Forall_Forall2_diag, Forall_forall. intros row Hin. rewrite Forall_forall in Hwf.
  change (row_evolves row (if p row then f row else row)).
  destruct (p row) eqn:Hp; [by apply Hf|]. eapply row_evolves_refl, Hwf, Hin.
Qed.

Lemma leased_status row :
  leased row = true -> exists status, row_status row = JobStatus_as_str status /\
    (status = Running \/ status = CancelRequested).
Proof. intros [->| ->]%leased_spec; [exists Running|exists CancelRequested]; auto. Qed.

Lemma held_evolves k row (f : JobRow -> JobRow) id e :
  row_wf k row -> held_by id e row = true -> same_job row (f row) ->
  row_status (f row) = row_status row -> row_evolves row (f row).
Proof.
  intros Hwf (_ & _ & (status & Hstatus & Hl)%leased_status)%held_by_spec Hsame Heq.
  eapply row_evolves_to; [done..| |by left|].
  - by rewrite Heq.
  - by destruct Hl as [->| ->].
Qed.

Lemma finish_evolves rows k row (finish : JobFinish object) id e columns now :
  table_wf (rows, k) -> row ∈ rows -> held_by id e row = true ->
  finish_columns finish (lease_of rows id e) = Ok columns -> row_evolves row (finish_row columns now row).
Proof.
  intros Hwf Hin Hheld Hcols. pose proof (wf_rows _ Hwf) as Hrows. rewrite Forall_forall in Hrows.
  pose proof (held_by_row _ _ _ _ (wf_ids _ Hwf) Hin Hheld) as Hfind.
  pose proof Hheld as (_ & He & Hl)%held_by_spec.
  apply finish_columns_ok in Hcols.
  destruct columns as [[[[[status phase] res] error] clear] finished].
  destruct Hcols as (-> & Hstatus & Hcancel & _).
  assert (same_job row (finish_row (status, phase, res, error, negb finished, finished) now row)) as Hsame
    by done.
  apply leased_spec in Hl as [Hrun|Hreq].
  - assert (exists after, status = JobStatus_as_str after /\ life_step Running after) as (after & -> & Hlife).
    { destruct finished.
      - apply elem_of_cons in Hstatus as [->|Hstatus]; [exists Succeeded; split; [done|constructor]|].
        apply elem_of_cons in Hstatus as [->|Hstatus]; [exists Failed; split; [done|constructor]|].
        apply list_elem_of_singleton in Hstatus as ->. exists Cancelled. split; [done|constructor].
      - apply list_elem_of_singleton in Hstatus as ->. exists Queued. split; [done|constructor]. }
    eapply (row_evolves_to k _ _ Running after); auto.
  - assert (status = "cancelled") as ->.
    { apply Hcancel. unfold lease_of. change (find_row id rows = Some row) in Hfind.
      rewrite Hfind, Hreq, He. by case_bool_decide. }
    eapply (row_evolves_to k _ _ CancelRequested Cancelled); auto. right. constructor.
Qed.

Lemma recover_evolves k row definitions now :
  row_wf k row -> leased row = true -> row_evolves row (recover_one definitions row now row).
Proof.
  intros Hwf Hl%leased_spec. unfold recover_one.
  destruct (String.eqb_spec (row_status row) "cancel_requested") as [Hreq|Hne].
  - eapply (row_evolves_to k _ _ CancelRequested Cancelled); auto; [done|]. right. constructor.
  - destruct Hl as [Hrun|]; [|done]. destruct (can_restart _ _).
    + eapply (row_evolves_to k _ _ Running Queued); auto; [done|]. right. constructor.
    + eapply (row_evolves_to k _ _ Running Failed); auto; [done|]. right. constructor.
Qed.

Lemma table_step_evolves rows k rows' k' :
  table_step (rows, k) (rows', k') -> table_wf (rows, k) ->
  exists kept fresh, rows' = kept ++ fresh /\ Forall2 row_evolves rows kept /\
    (fresh = [] \/ exists row, fresh = [row] /\ row_status row = "queued" /\ row_id row ∉ row_id <$> rows).
Proof.
  intros Hstep Hwf. pose proof (wf_rows _ Hwf) as Hrows. cbn in Hrows.
  assert (forall p f, (forall row, row ∈ rows -> p row = true -> row_evolves row (f row)) ->
    exists kept fresh, update_rows p f rows = kept ++ fresh /\ Forall2 row_evolves rows kept /\
      (fresh = [] \/ exists row, fresh = [row] /\ row_status row = "queued" /\
       row_id row ∉ row_id <$> rows)) as Hupdate.
  { intros p f Hf. exists (update_rows p f rows), []. rewrite app_nil_r.
    split_and!; [done|by eapply evolves_update|by left]. }
  assert (forall row, row ∈ rows -> row_wf k row) as Hrow by (by rewrite <- Forall_forall).
  inversion Hstep; subst.
  - exists rows', []. rewrite app_nil_r. split_and!; [done| |by left].
    apply Forall_Forall2_diag. eapply Forall_impl; [done|]. intros. by eapply row_evolves_refl.
  - eexists rows, [_]. split_and!; [done| |right; by eexists].
    apply Forall_Forall2_diag. eapply Forall_impl; [done|]. intros. by eapply row_evolves_refl.
  - apply Hupdate. intros row Hin [_ Hq%has_status_spec]%andb_true_iff.
    eapply (row_evolves_to _ _ _ Queued Cancelled); auto; [done|]. right. constructor.
  - apply Hupdate. intros row Hin [_ Hr%has_status_spec]%andb_true_iff.
    eapply (row_evolves_to _ _ _ Running CancelRequested); auto; [done|]. right. constructor.
  - apply Hupdate. intros row Hin [_ Hq%has_status_spec]%andb_true_iff.
    eapply (row_evolves_to _ _ _ Queued Running); auto; [done|]. right. constructor.
  - apply Hupdate. intros row Hin Hheld. eapply held_evolves; eauto; done.
  - apply Hupdate. intros row Hin Hheld. eapply held_evolves; eauto; done.
  - apply Hupdate. intros row Hin Hheld. by eapply finish_evolves.
  - apply Hupdate. intros row Hin Hl. eapply recover_evolves; auto.
Qed.

(** A row's past and future: the same job, a path of [life_step]s, and nothing
    at all once it is over. *)
Definition row_descends (a b : JobRow) : Prop :=
  same_job a b /\
  exists before after, row_status a = JobStatus_as_str before /\ row_status b = JobStatus_as_str after /\
    rtc life_step before after /\ (is_active before = false -> b = a).

Lemma row_evolves_descends a b c : row_descends a b -> row_evolves b c -> row_descends a c.
Proof.
  intros [Hab (s & t & Hs & Ht & Hpath & Hdone)] [Hbc (t' & u & Ht' & Hu & Hlife & Hdone')].
  assert (t' = t) as -> by (apply (inj JobStatus_as_str); congruence).
  split; [unfold same_job in *; intuition congruence|]. exists s, u. split_and!; [done..| |].
  - etrans; [done|]. destruct Hlife as [->|Hlife]; [done|by apply rtc_once].
  - intros Hover. specialize (Hdone Hover) as ->.
    assert (t = s) as -> by (apply (inj JobStatus_as_str); congruence). auto.
Qed.

(** C22: no call loses a job or changes its identity; over every history its
    status follows the transitions of [life_step], and a job that is over
    (succeeded, failed or cancelled) is never written again. *)
Theorem jobs_follow_the_life_cycle (ops : list RepositoryOp) db row :
  table_wf (position db) -> row ∈ jobs_table db ->
  exists row', find_row (row_id row) (jobs_table (run_ops ops db)) = Some row' /\ row_descends row row'.
Proof.
  intros Hwf Hin.
  destruct (run_ops_ind (fun db' => exists row', row' ∈ jobs_table db' /\ row_descends row row') ops db)
    as [Hwf' (row' & Hin' & Hdesc)]; [done| | |].
  - exists row. split; [done|]. pose proof (wf_rows _ Hwf) as Hrows. cbn in Hrows.
    rewrite Forall_forall in Hrows.
    destruct (row_evolves_refl _ _ (Hrows _ Hin)) as [Hsame (s & t & Hs & Ht & _ & _)].
    split; [done|]. exists s, s. by split_and!.
  - intros op db1 Hwf1 (row1 & Hin1 & Hdesc).
    pose proof (run_op_step op db1 (wf_ids _ Hwf1)) as Hstep.
    apply table_step_evolves in Hstep as (kept & fresh & Hrows & Hkept & _); [|done].
    apply list_elem_of_lookup in Hin1 as [i Hi].
    destruct (Forall2_lookup_l _ _ _ _ _ Hkept Hi) as (row2 & Hlookup & Hev).
    exists row2. split; [|by eapply row_evolves_descends].
    rewrite Hrows. apply elem_of_app. left. by eapply list_elem_of_lookup_2.
  - exists row'. split; [|done]. apply find_row_elem; [apply Hwf'|done|].
    by destruct Hdesc as [(_ & -> & _) _].
Qed.

(* ------------------------------------------------------------------ *)
(** ** Leases *)

Definition unheld (id e : string) (rows : list JobRow) : Prop :=
  Forall (fun row => held_by id e row = false) rows.

Lemma lost_unheld rows id e : NoDup (row_id <$> rows) -> lease_of rows id e = Lease_Lost <-> unheld id e rows.
Proof.
  intros Hnd. unfold unheld. rewrite Forall_forall. split.
  - intros Hlost row Hin. destruct (held_by id e row) eqn:Hheld; [|done].
    assert (lease_of rows id e <> Lease_Lost); [|done].
    apply lease_of_lost. exists row. split; [by eapply held_by_row|done].
  - intros Hall. destruct (decide (lease_of rows id e = Lease_Lost)) as [|Hne]; [done|].
    apply lease_of_lost in Hne as (row & [Hin _]%find_row_Some & Hheld).
    rewrite Hall in Hheld by done. done.
Qed.

Lemma unheld_update id e p f rows :
  unheld id e rows ->
  (forall row, row ∈ rows -> p row = true -> held_by id e (f row) = true -> held_by id e row = true) ->
  unheld id e (update_rows p f rows).
Proof.
  unfold unheld, update_rows. rewrite Forall_map, !Forall_forall. intros Hall Hf row Hin.
  destruct (p row) eqn:Hp; [|by apply Hall].
  destruct (held_by id e (f row)) eqn:Hheld; [|done]. rewrite <- (Hall row Hin). symmetry. by apply Hf.
Qed.

Lemma table_step_unheld rows k rows' k' id n :
  table_step (rows, k) (rows', k') -> (n < k)%nat ->
  unheld id (execution_uuid n) rows -> unheld id (execution_uuid n) rows'.
Proof.
  intros Hstep Hn Hun. set (e := execution_uuid n) in *.
  assert (forall row, row_execution_id row = None -> held_by id e row = true -> False) as Hnone.
  { intros row Hrow (_ & He & _)%held_by_spec. congruence. }
  inversion Hstep; subst; try (apply unheld_update; [done|]).
  - done.
  - apply Forall_app. split; [done|]. constructor; [|constructor].
    destruct (held_by _ _ _) eqn:Hh; [|done]. by apply Hnone in Hh.
  - intros row _ _ Hh. by apply Hnone in Hh.
  - intros row _ [_ Hr%has_status_spec]%andb_true_iff (Hid & He & _)%held_by_spec.
    apply held_by_spec. split_and!; [done..|]. apply leased_spec. by left.
  - intros row _ _ (_ & He & _)%held_by_spec. cbn in He. injection He as He%(inj execution_uuid). lia.
  - by intros row _ _ Hh.
  - by intros row _ _ Hh.
  - intros row _ _ Hh. exfalso. eapply Hnone; [|done]. by destruct columns as [[[[[? ?] ?] ?] ?] ?].
  - intros row _ _ Hh. exfalso. eapply Hnone; [|done]. unfold recover_one.
    by destruct (String.eqb _ _), (can_restart definitions row).
Qed.

Lemma run_op_draws (op : RepositoryOp) db : unique_ids db -> (jobs_uuids db <= jobs_uuids (run_op op db))%nat.
Proof. intros Hdb. pose proof (run_op_step op db Hdb) as Hstep. inversion Hstep; lia. Qed.

Lemma guarded_statement_stale id e set db r db' :
  unique_ids db -> lease_of (jobs_table db) id e = Lease_Lost ->
  mbind (fun _ => repository_lease id e) (transaction (update_where (held_by id e) set)) db
    = (r, db') -> jobs_table db' = jobs_table db.
Proof.
  intros Hdb Hlost Hrun. unfold mbind, stateful_bind in Hrun.
  destruct (transaction (update_where _ _) db) as [r1 db1] eqn:Htx.
  assert (jobs_table db' = jobs_table db1) as ->.
  { destruct r1; [by eapply lease_read|]. by injection Hrun as _ <-. }
  apply transaction_inv in Htx as [(e0 & _ & Hsame & _)|(a & after & rest & Hrest & Hset & Hafter & _)];
    [done| |apply draws_update].
  apply update_where_ok in Hset as (_ & now & Hset). rewrite Hset in Hafter.
  injection Hafter as -> _. injection Hrest as -> _. by apply lost_matches_nothing.
Qed.

Lemma stale_claims_write_nothing db (claim : JobClaim object) progress (result_object : object)
    (finish : JobFinish object) :
  unique_ids db -> lease_of (jobs_table db) (job_id (claim_job claim)) (claim_execution_id claim) = Lease_Lost ->
  jobs_table (update_progress claim progress db).2 = jobs_table db /\
  jobs_table (checkpoint claim result_object db).2 = jobs_table db /\
  jobs_table (finish_job claim finish db).2 = jobs_table db.
Proof.
  intros Hdb Hlost. split_and!.
  - unfold update_progress, mbind at 1 2, stateful_bind. cbn [try].
    destruct (ok_or _ (i64_try_from_u64 _)) as [current|]; [|done].
    destruct (option_transpose _ _) as [total|]; [|done].
    eapply guarded_statement_stale; [done..|apply surjective_pairing].
  - unfold checkpoint, mbind at 1, stateful_bind. cbn [try].
    destruct (map_err _ _) as [text|]; [|done].
    eapply guarded_statement_stale; [done..|apply surjective_pairing].
  - destruct (finish_job claim finish db) as [r db'] eqn:Hrun. cbn. unfold finish_job in Hrun.
    apply transaction_inv in Hrun as [(e0 & _ & Hsame & _)|(a & after & rest & Hrest & Hset & Hafter & _)];
      [done| |].
    + apply stateful_bind_ok in Hset as (state & db1 & [-> ->]%lease_state_ok & Hset).
      injection Hrest as Ht _. rewrite Ht, Hlost in Hset. cbn in Hset. injection Hset as _ <-.
      injection Hafter as -> _. done.
    + apply draws_bind; [apply draws_lease_state|]. intros state.
      case_bool_decide; [apply draws_ret|]. apply draws_bind; [|intros; apply draws_ret].
      apply draws_bind; [apply draws_try|]. intros.
      apply draws_bind; [apply draws_update|]. intros. apply draws_ret.
Qed.

(** A claim whose lease is lost never gets it back, whatever calls and
    faults follow, and through it no progress, checkpoint or result is ever
    written. *)
Theorem lost_leases_stay_lost (ops : list RepositoryOp) db (claim : JobClaim object) n progress
    (result_object : object) (finish : JobFinish object) :
  table_wf (position db) -> (n < jobs_uuids db)%nat -> claim_execution_id claim = execution_uuid n ->
  lease_of (jobs_table db) (job_id (claim_job claim)) (claim_execution_id claim) = Lease_Lost ->
  let after := run_ops ops db in
  lease_of (jobs_table after) (job_id (claim_job claim)) (claim_execution_id claim) = Lease_Lost /\
  jobs_table (run_op (Op_update_progress claim progress) after) = jobs_table after /\
  jobs_table (run_op (Op_checkpoint claim result_object) after) = jobs_table after /\
  jobs_table (run_op (Op_finish claim finish) after) = jobs_table after.
Proof.
  intros Hwf Hn He Hlost after.
  destruct (run_ops_ind (fun db => (n < jobs_uuids db)%nat /\
    unheld (job_id (claim_job claim)) (claim_execution_id claim) (jobs_table db)) ops db)
    as [Hwf' [Hn' Hun]]; [done| | |].
  - split; [done|]. apply lost_unheld; [apply Hwf|done].
  - intros op db1 Hwf1 [Hn1 Hun1]. split.
    + pose proof (run_op_draws op db1 (wf_ids _ Hwf1)). lia.
    + rewrite He in *. by eapply table_step_unheld; [apply run_op_step, Hwf1|..].
  - assert (lease_of (jobs_table after) (job_id (claim_job claim)) (claim_execution_id claim) = Lease_Lost)
      as Hlost' by (by apply lost_unheld; [apply Hwf'|]).
    split; [done|]. apply stale_claims_write_nothing; [apply Hwf'|done].
Qed.

(* ------------------------------------------------------------------ *)
(** ** The queue *)

(** The job a claim of [lane] starts: queued in the lane, and the first in
    creation order, insertion order within a second. *)
Definition next_in_lane (lane : JobLane) (rows : list JobRow) (row : JobRow) : Prop :=
  row ∈ rows /\ claimable lane row = true /\
  forall other, other ∈ rows -> claimable lane other = true -> job_before row other.

Definition started (rows : list JobRow) (row : JobRow) (execution_id : string) (now : Z)
    : list JobRow := update_rows (has_id (row_id row)) (start_execution execution_id now) rows.

Lemma started_guarded rows row e now :
  NoDup (row_id <$> rows) -> row ∈ rows -> has_status Queued row = true ->
  update_rows (fun other => has_id (row_id row) other && has_status Queued other)
    (start_execution e now) rows = started rows row e now.
Proof.
  intros Hnd Hin Hq. apply update_rows_ext. intros other Hother. split; [|done].
  destruct (has_id (row_id row) other) eqn:Hid; [|done]. apply has_id_spec in Hid.
  assert (other = row) as -> by by eapply ids_unique. by rewrite Hq.
Qed.

Lemma claim_body_ok lane rest a after :
  mbind (fun next => match next with
    | None => mret None
    | Some next =>
        execution_id ← new_execution_id;
        changed ← update_where (fun row => has_id (row_id next) row && has_status Queued row)
                    (start_execution execution_id);
        if negb (changed =? 1)%nat then mret None
        else
          job ← read_job (object := object) (row_id next);
          job ← require_job "claim disappeared" job;
          mret (Some (mkJobClaim job execution_id))
    end) (select (fun rows => head (oldest_first (List.filter (claimable lane) rows)))) rest
    = (Ok a, after) ->
  unique_ids rest ->
  match a with
  | None => Forall (fun row => claimable lane row = false) (jobs_table rest) /\ after = rest
  | Some claim =>
      exists row now, next_in_lane lane (jobs_table rest) row /\
        claim_execution_id claim = execution_uuid (jobs_uuids rest) /\
        row_to_job (start_execution (claim_execution_id claim) now row) = Ok (claim_job claim) /\
        position after = (started (jobs_table rest) row (claim_execution_id claim) now, S (jobs_uuids rest))
  end.
Proof.
  intros (next & db1 & [Hnext ->]%select_ok & Hrun)%stateful_bind_ok Hdb.
  destruct next as [next|].
  2:{ apply ret_ok in Hrun as [-> ->]. split; [|done]. by apply oldest_none. }
  symmetry in Hnext. apply oldest_head in Hnext as (Hin & Hclaim & Hleast).
  pose proof Hclaim as [Hq _]%andb_true_iff.
  apply stateful_bind_ok in Hrun as (e & db1 & [= <- <-] & Hrun).
  apply stateful_bind_ok in Hrun as (m & db2 & Hup & Hrun).
  apply update_where_ok in Hup as (Hm & now & Hdb2). cbn in Hm, Hdb2.
  rewrite (filter_by_id _ _ next (has_status Queued)) in Hm;
    [|done..|by rewrite Hq, (proj2 (has_id_spec _ _) eq_refl)].
  subst m. cbn in Hrun.
  apply stateful_bind_ok in Hrun as (record & db3 & [-> Hread]%read_job_ok & Hrun).
  apply stateful_bind_ok in Hrun as (job & db4 & [Hjob ->]%try_ok & [-> ->]%ret_ok).
  apply ok_or_ok in Hjob as ->. rewrite started_guarded in Hdb2 by done.
  rewrite Hdb2. injection Hdb2 as Htable _. unfold started in Htable.
  rewrite Htable, find_row_update in Hread by done.
  rewrite (find_row_elem _ _ next) in Hread by done. cbn in Hread.
  rewrite (proj2 (has_id_spec _ _) eq_refl) in Hread.
  destruct Hread as (job' & [= <-] & Hread). by exists next, now.
Qed.

(** A claim starts the first queued job of its lane (by creation time, then
    insertion order) with a fresh execution id, holds its active lease and
    changes no other row; it answers nothing exactly when the lane has no queued
    job, and on a fault either nothing happened or exactly that start did. *)
Theorem claims_serve_the_queue_in_order lane db r db' :
  table_wf (position db) -> claim_next (object := object) lane db = (r, db') ->
  let start row now := next_in_lane lane (jobs_table db) row /\
    jobs_table db' = started (jobs_table db) row (execution_uuid (jobs_uuids db)) now in
  match r with
  | Ok None => Forall (fun row => claimable lane row = false) (jobs_table db) /\
               jobs_table db' = jobs_table db
  | Ok (Some claim) =>
      exists row now, start row now /\ job_id (claim_job claim) = row_id row /\
        job_lane (claim_job claim) = lane /\ job_status (claim_job claim) = Running /\
        claim_execution_id claim = execution_uuid (jobs_uuids db) /\
        lease_of (jobs_table db') (row_id row) (claim_execution_id claim) = Lease_Active
  | Err _ => jobs_table db' = jobs_table db \/ exists row now, start row now
  end.
Proof.
  intros Hwf Hrun start. unfold claim_next in Hrun.
  apply transaction_inv in Hrun as [(e & -> & Hsame & _)|(a & after & rest & Hrest & Hbody & Hafter & Hr)];
    [by left| |].
  2:{ apply draws_bind; [apply draws_select|]. intros [next|]; [|apply draws_ret].
      apply draws_bind; [apply draws_new_execution_id|]. intros e.
      apply draws_bind; [apply draws_update|]. intros m. destruct (negb _); [apply draws_ret|].
      apply draws_bind; [apply draws_read_job|]. intros.
      apply draws_bind; [apply draws_try|]. intros. apply draws_ret. }
  injection Hrest as Htable Huuids.
  apply claim_body_ok in Hbody; [|unfold unique_ids; rewrite Htable; apply Hwf].
  destruct a as [claim|].
  - destruct Hbody as (row & now & Hnext & He & Hjob & Hpos). rewrite Hpos in Hafter.
    injection Hafter as Hrows _. rewrite Huuids in He. rewrite Htable in Hnext.
    rewrite He, Htable in Hrows. rewrite He in Hjob.
    destruct Hr as [->|[cause ->]]; [|right; by exists row, now].
    apply row_to_job_ok in Hjob as (_ & Hstatus & Hid & _ & Hlane).
    exists row, now. split; [done|]. split_and!; [done| | |done|].
    + destruct Hnext as (_ & [_ Hl%String.eqb_eq]%andb_true_iff & _).
      apply (inj JobLane_as_str). rewrite <- Hlane, <- Hl. done.
    + by apply (inj JobStatus_as_str).
    + unfold lease_of. rewrite He, Hrows. unfold started. rewrite find_row_update by done.
      rewrite (find_row_elem _ _ row); [|apply Hwf|apply Hnext|done]. cbn.
      rewrite (proj2 (has_id_spec _ _) eq_refl). cbn. by rewrite bool_decide_false by naive_solver.
  - destruct Hbody as [Hnone ->]. injection Hafter as Hrows _.
    destruct Hr as [->|[cause ->]]; [|left; congruence]. by rewrite Hrows, Htable in *.
Qed.

(* ------------------------------------------------------------------ *)
(** ** Recovery *)

(** What recovery makes of a row: a cancellation that was asked for is
    confirmed, a restartable job whose stored contract is still the registered
    one goes back to its place in the queue, and any other leased job fails. *)
Definition recovered (definitions : gmap string JobDefinition) (a b : JobRow) : Prop :=
  same_job a b /\
  if leased a then
    row_execution_id b = None /\
    row_status b = (if String.eqb (row_status a) "cancel_requested" then "cancelled"
                    else if can_restart definitions a then "queued" else "failed")
  else b = a.

Lemma recover_body_ok definitions rest m after :
  mbind (fun rows => recover_rows definitions rows;; mret (length rows)) (select (List.filter leased)) rest
    = (Ok m, after) -> unique_ids rest ->
  m = length (List.filter leased (jobs_table rest)) /\
  exists now : JobRow -> Z, jobs_table after =
    update_rows leased (fun row => recover_one definitions row (now row) row) (jobs_table rest).
Proof.
  intros (rows & db1 & [-> ->]%select_ok & Hrun)%stateful_bind_ok Hdb.
  apply stateful_bind_ok in Hrun as (u & db1 & Hrun & [-> ->]%ret_ok). split; [done|].
  apply recover_rows_all in Hrun as (now & _ & Htable); [|done]. by exists now.
Qed.

Lemma recovered_rows definitions rows (now : JobRow -> Z) :
  Forall2 (recovered definitions) rows
    (update_rows leased (fun row => recover_one definitions row (now row) row) rows).
Proof.
  unfold update_rows. rewrite Forall2_fmap_r. apply Forall_Forall2_diag, Forall_forall. intros row _.
  change (recovered definitions row (if leased row then recover_one definitions row (now row) row else row)).
  unfold recovered. destruct (leased row) eqn:Hl; [|by split].
  unfold recover_one. by destruct (String.eqb _ _), (can_restart definitions row).
Qed.

Lemma recovered_unleased definitions rows rows' :
  Forall2 (recovered definitions) rows rows' -> Forall (fun row => leased row = false) rows'.
Proof.
  intros Hall. apply Forall_forall. intros b Hb.
  apply list_elem_of_lookup in Hb as [i Hi].
  destruct (Forall2_lookup_r _ _ _ _ _ Hall Hi) as (a & _ & _ & Hab).
  destruct (leased a) eqn:Ha; [|by subst b].
  destruct Hab as [_ Hstatus]. apply not_true_iff_false. rewrite leased_spec, Hstatus.
  destruct (String.eqb _ _); [naive_solver|]. destruct (can_restart _ _); naive_solver.
Qed.

(** C25: recovery counts the leased jobs and settles every one of them: none is
    left leased, so every claim handed out before is lost; the other rows are
    not touched. On a fault it happened completely or not at all. *)
Theorem recovery_settles_every_lease definitions db r db' :
  table_wf (position db) -> recover_interrupted definitions db = (r, db') ->
  let settled := Forall2 (recovered definitions) (jobs_table db) (jobs_table db') /\
    forall id execution_id, lease_of (jobs_table db') id execution_id = Lease_Lost in
  match r with
  | Ok n => n = length (List.filter leased (jobs_table db)) /\ settled
  | Err _ => jobs_table db' = jobs_table db \/ settled
  end.
Proof.
  intros Hwf Hrun settled. unfold recover_interrupted in Hrun.
  apply transaction_inv in Hrun as [(e & -> & Hsame & _)|(m & after & rest & Hrest & Hbody & Hafter & Hr)];
    [by left| |].
  2:{ apply draws_bind; [apply draws_select|]. intros.
      apply draws_bind; [apply draws_recover_rows|]. intros. apply draws_ret. }
  injection Hrest as Htable _.
  apply recover_body_ok in Hbody as (-> & now & Hrows); [|unfold unique_ids; rewrite Htable; apply Hwf].
  injection Hafter as Hafter _. rewrite Htable in *.
  assert (settled) as Hsettled.
  { assert (Forall2 (recovered definitions) (jobs_table db) (jobs_table db')) as Hall.
    { rewrite Hafter, Hrows. apply recovered_rows. }
    split; [done|]. intros id e. destruct (decide (lease_of (jobs_table db') id e = Lease_Lost)) as [|Hne]; [done|].
    apply lease_of_lost in Hne as (row & [Hin _]%find_row_Some & (_ & _ & Hl)%held_by_spec).
    apply recovered_unleased in Hall. rewrite Forall_forall in Hall. by rewrite Hall in Hl. }
  destruct Hr as [->|[cause ->]]; [done|by right].
Qed.
End Histories.
