(* ===== verification/JobService.v ===== *)
(** * The job service and its coordinator

    [JobRegistry], [JobService], [JobExecutionContext] and the coordinator tasks
    of [crates/music-application/src/jobs.rs], over any [JobRepository]. A
    handler is the program of calls it makes on its context; what other tasks
    do between two awaits of the coordinator is the next [Poll]. *)

From S2P Require Import Prelude Store Jobs JobStore.

#[local] Open Scope string_scope.
#[local] Open Scope Z_scope.
#[local] Open Scope list_scope.

(** [Uuid::new_v4().simple().to_string()] for the ids of jobs. *)
Class JobIds : Type := { job_uuid : nat -> string }.

Section Service.
Context {value object store : Type} `{Json value object} `{!JobRepository object store} `{JobIds}.

(* ------------------------------------------------------------------ *)
(** ** Handlers *)

Record JobExecutionContext : Type := mkJobExecutionContext { context_claim : JobClaim object }.

Definition context_job_id (context : JobExecutionContext) : string :=
  job_id (claim_job (context_claim context)).

(** [started.checked_sub(created).and_then(|e| u64::try_from(e).ok())] *)
Definition queue_wait_seconds (context : JobExecutionContext) : option N :=
  match job_started_at (claim_job (context_claim context)) with
  | Some started =>
      let elapsed := started - job_created_at (claim_job (context_claim context)) in
      if (-9223372036854775808 <=? elapsed) && (elapsed <=? i64_max_Z)
      then u64_try_from_i64 elapsed else None
  | None => None
  end.

Definition context_progress_current (context : JobExecutionContext) : N :=
  job_progress_current (claim_job (context_claim context)).
Definition context_progress_total (context : JobExecutionContext) : option N :=
  job_progress_total (claim_job (context_claim context)).

(** The calls a handler awaits on its context, and what it goes on with. *)
Inductive handler_program : Type :=
| Return (outcome : result JobHandlerError value)
| UpdateProgress (progress : JobProgress) (continue : result JobExecutionError () -> handler_program)
| Checkpoint (checkpoint : object) (continue : result JobExecutionError () -> handler_program)
| CheckCancelled (continue : result JobExecutionError () -> handler_program)
| RelatedJob (id : string)
    (continue : result JobExecutionError (option (JobRecord object)) -> handler_program).

(** The trait [JobHandler]. *)
Record JobHandler : Type := mkJobHandler {
  handler_definition : JobDefinition;
  handler_execute : JobExecutionContext -> object -> handler_program
}.

(* ------------------------------------------------------------------ *)
(** ** The registry *)

Record JobRegistry : Type := mkJobRegistry {
  registry_definitions : gmap string JobDefinition;
  registry_handlers : gmap string JobHandler
}.

Definition register (registry : JobRegistry) (handler : JobHandler)
    : result JobValidationError JobRegistry :=
  let definition := handler_definition handler in
  definition_validate definition;;
  match registry_definitions registry !! definition_kind definition with
  | Some _ => Err DuplicateKind
  | None => Ok {|
      registry_definitions := <[definition_kind definition := definition]> (registry_definitions registry);
      registry_handlers := <[definition_kind definition := handler]> (registry_handlers registry) |}
  end.

Fixpoint register_all (registry : JobRegistry) (handlers : list JobHandler)
    : result JobValidationError JobRegistry :=
  match handlers with
  | [] => Ok registry
  | handler :: handlers => registry ← register registry handler; register_all registry handlers
  end.

(** [JobRegistry::new] *)
Definition JobRegistry_new (handlers : list JobHandler) : result JobValidationError JobRegistry :=
  register_all (mkJobRegistry ∅ ∅) handlers.

Definition registry_definition (registry : JobRegistry) (kind : string) : option JobDefinition :=
  registry_definitions registry !! kind.
Definition registry_handler (registry : JobRegistry) (kind : string) : option JobHandler :=
  registry_handlers registry !! kind.

(* ------------------------------------------------------------------ *)
(** ** The service *)

(** A [Notify] is its stored permit; [notify_waiters] stores none. *)
Record JobService : Type := mkJobService {
  service_store : store;
  service_registry : JobRegistry;
  service_local_wake : bool;
  service_provider_wake : bool;
  service_shutdown : bool;
  service_job_ids : nat
}.

(** [JobService::new] *)
Definition JobService_new (repository : store) (registry : JobRegistry) : JobService :=
  mkJobService repository registry false false false 0.

Definition service (A : Type) : Type := stateful JobService JobServiceError A.

(** An awaited repository call, its error mapped by [service_dependency]. *)
Definition call_repository {A} (call : stateful store repository_error A) : service A := fun s =>
  let '(r, st) := call (service_store s) in
  (map_err (fun _ => Service_Dependency) r,
   mkJobService st (service_registry s) (service_local_wake s) (service_provider_wake s)
     (service_shutdown s) (service_job_ids s)).

Definition wake (lane : JobLane) : service () := fun s =>
  (Ok (), match lane with
          | Local => mkJobService (service_store s) (service_registry s) true
                       (service_provider_wake s) (service_shutdown s) (service_job_ids s)
          | Provider => mkJobService (service_store s) (service_registry s) (service_local_wake s)
                          true (service_shutdown s) (service_job_ids s)
          end).

Definition fresh_job_id : service string := fun s =>
  (Ok (job_uuid (service_job_ids s)),
   mkJobService (service_store s) (service_registry s) (service_local_wake s)
     (service_provider_wake s) (service_shutdown s) (S (service_job_ids s))).

Definition new_job (kind : string) (parameters : value) (retry_of_id : option string)
    : service (NewJob object) :=
  definition ← (fun s => (ok_or Service_UnknownKind (registry_definition (service_registry s) kind), s));
  parameters ← try (ok_or Service_InvalidParameters (as_object parameters));
  id ← fresh_job_id;
  mret (mkNewJob id definition parameters retry_of_id).

Definition enqueue_with_retry (kind : string) (parameters : value) (retry_of_id : option string)
    : service (JobRecord object) :=
  job ← new_job kind parameters retry_of_id;
  record ← call_repository (repository_create job);
  wake (definition_lane (new_job_definition job));;
  mret record.

Definition enqueue (kind : string) (parameters : value) : service (JobRecord object) :=
  enqueue_with_retry kind parameters None.

Definition enqueue_unique_active (kind : string) (parameters : value)
    : service (JobRecord object * bool) :=
  job ← new_job kind parameters None;
  created ← call_repository (repository_create_unique_active job);
  (if created.2 : bool then wake (definition_lane (new_job_definition job)) else mret ());;
  mret created.

Definition service_get (id : string) : service (option (JobRecord object)) :=
  call_repository (repository_get id).

Definition service_list (filter : JobListFilter) : service (list (JobRecord object)) :=
  call_repository (repository_list filter).

Definition service_cancel (id : string) : service (JobRecord object) :=
  cancelled ← call_repository (repository_request_cancellation id);
  match cancelled with
  | None => throw Service_JobNotFound
  | Some (job, changed) =>
      if negb changed then throw (Service_AlreadyTerminal (job_status job))
      else wake (job_lane job);; mret job
  end.

Definition retry (id : string) : service (JobRecord object) :=
  found ← service_get id;
  previous ← try (ok_or Service_JobNotFound found);
  if negb (can_retry (job_status previous)) then throw Service_NotRetryable
  else
    known ← gets (fun s => registry_definition (service_registry s) (job_kind previous));
    match known with
    | None => throw Service_UnknownKind
    | Some _ => enqueue_with_retry (job_kind previous) (Value_Object (job_parameters previous))
                  (Some (job_id previous))
    end.

Definition shutdown (s : JobService) : JobService :=
  mkJobService (service_store s) (service_registry s) (service_local_wake s)
    (service_provider_wake s) true (service_job_ids s).

(* ------------------------------------------------------------------ *)
(** ** Executing a claim *)

(** What happens at one await of the coordinator: what other tasks do to the
    store, whether shutdown is requested, and, once it is, whether [select!]
    takes the shutdown branch. *)
Record Poll : Type := mkPoll {
  poll_store : store -> store;
  poll_shutdown : bool;
  poll_takes_shutdown : bool
}.

Record Runner : Type := mkRunner {
  runner_store : store;
  runner_shutdown : bool;
  runner_polls : list Poll
}.

(** The next await; the answer is whether the shutdown branch is taken. *)
Definition poll_once (runner : Runner) : bool * Runner :=
  match runner_polls runner with
  | [] => (false, runner)
  | poll :: polls =>
      let stopping := runner_shutdown runner || poll_shutdown poll in
      (stopping && poll_takes_shutdown poll,
       mkRunner (poll_store poll (runner_store runner)) stopping polls)
  end.

Definition ensure_active (stopping : bool) (state : JobLeaseState) : result JobExecutionError () :=
  if stopping then Err Execution_Stopping
  else match state with
       | Lease_Active => Ok ()
       | Lease_CancellationRequested => Err Execution_Cancelled
       | Lease_Lost => Err Execution_LeaseLost
       end.

(** A context call: the repository's answer, its error mapped by
    [execution_dependency]. *)
Definition on_store {A} (call : stateful store repository_error A) (runner : Runner)
    : result JobExecutionError A * Runner :=
  let '(r, st) := call (runner_store runner) in
  (map_err (fun _ => Execution_Dependency) r,
   mkRunner st (runner_shutdown runner) (runner_polls runner)).

Definition lease_call (call : stateful store repository_error JobLeaseState) (runner : Runner)
    : result JobExecutionError () * Runner :=
  let '(r, runner) := on_store call runner in
  (state ← r; ensure_active (runner_shutdown runner) state, runner).

Definition context_update_progress (context : JobExecutionContext) (progress : JobProgress) :=
  lease_call (repository_update_progress (context_claim context) progress).
Definition context_checkpoint (context : JobExecutionContext) (result_object : object) :=
  lease_call (repository_checkpoint (context_claim context) result_object).
Definition check_cancelled (context : JobExecutionContext) (runner : Runner)
    : result JobExecutionError () * Runner :=
  if runner_shutdown runner then (Err Execution_Stopping, runner)
  else lease_call (repository_lease_state (context_job_id context)
                     (claim_execution_id (context_claim context))) runner.
Definition related_job (id : string) := on_store (repository_get (object := object) id).

(** The handler's future inside [select!]: [None] when the shutdown branch
    completed first and the future was dropped. *)
Fixpoint run_program (context : JobExecutionContext) (program : handler_program) (runner : Runner)
    : option (result JobHandlerError value) * Runner :=
  let '(dropped, runner) := poll_once runner in
  if dropped : bool then (None, runner)
  else match program with
       | Return outcome => (Some outcome, runner)
       | UpdateProgress progress continue =>
           let '(r, runner) := context_update_progress context progress runner in
           run_program context (continue r) runner
       | Checkpoint result_object continue =>
           let '(r, runner) := context_checkpoint context result_object runner in
           run_program context (continue r) runner
       | CheckCancelled continue =>
           let '(r, runner) := check_cancelled context runner in
           run_program context (continue r) runner
       | RelatedJob id continue =>
           let '(r, runner) := related_job id runner in
           run_program context (continue r) runner
       end.

(** [repository.finish(&claim, &finish).await.map_err(coordinator_dependency)?] *)
Definition finish_claim (claim : JobClaim object) (finish : JobFinish object) (runner : Runner)
    : result JobCoordinatorError () * Runner :=
  let '(r, st) := repository_finish claim finish (runner_store runner) in
  (match r with Ok _ => Ok () | Err _ => Err Coordinator_Dependency end,
   mkRunner st (runner_shutdown runner) (runner_polls runner)).

(** What [execute_claim] does about the handler's outcome: a finish to record,
    or an early return. *)
Definition finish_of (definition : JobDefinition) (context : JobExecutionContext)
    (outcome : option (result JobHandlerError value)) (runner : Runner)
    : (JobFinish object + result JobCoordinatorError ()) * Runner :=
  let interrupted := Finish_Interrupted (definition_restartable definition) in
  match outcome with
  | None => (inl interrupted, runner)
  | Some (Ok answer) =>
      match as_object answer with
      | Some result_object =>
          let '(checked, runner) := check_cancelled context runner in
          (match checked with
           | Ok _ => inl (Finish_Succeeded result_object)
           | Err Execution_Cancelled => inl Finish_Cancelled
           | Err Execution_Stopping => inl interrupted
           | Err Execution_LeaseLost => inr (Ok ())
           | Err Execution_Dependency => inr (Err Coordinator_Dependency)
           end, runner)
      | None => (inl (Finish_Failed "Job handler returned a non-object result."), runner)
      end
  | Some (Err error) =>
      (match handler_error_kind error with
       | Kind_Failed => inl (Finish_Failed (handler_error_detail error))
       | Kind_Cancelled => inl Finish_Cancelled
       | Kind_Stopping => inl interrupted
       | Kind_LeaseLost => inr (Ok ())
       | Kind_Dependency => inr (Err Coordinator_Dependency)
       end, runner)
  end.

(** The stored contract is still the handler's. *)
Definition contract_matches (definition : JobDefinition) (job : JobRecord object) : bool :=
  (definition_schema_version definition =? job_schema_version job)%N &&
  bool_decide (definition_lane definition = job_lane job) &&
  Bool.eqb (definition_restartable definition) (job_restartable job).

Definition execute_claim (registry : JobRegistry) (claim : JobClaim object) (runner : Runner)
    : result JobCoordinatorError () * Runner :=
  match registry_handler registry (job_kind (claim_job claim)) with
  | None => finish_claim claim (Finish_Failed "No handler is registered for this job type.") runner
  | Some handler =>
      let definition := handler_definition handler in
      if negb (contract_matches definition (claim_job claim))
      then finish_claim claim (Finish_Failed "Stored job contract is no longer available.") runner
      else
        let context := mkJobExecutionContext claim in
        let '(outcome, runner) :=
          run_program context (handler_execute handler context (job_parameters (claim_job claim))) runner in
        let '(finish, runner) := finish_of definition context outcome runner in
        match finish with
        | inl finish => finish_claim claim finish runner
        | inr returned => (returned, runner)
        end
  end.

(* ------------------------------------------------------------------ *)
(** ** The coordinator *)

(** [Lane_waiting]: the lane waits for a wake-up and no further poll is given. *)
Inductive LaneOutcome : Type :=
| Lane_returned (outcome : result JobCoordinatorError ())
| Lane_waiting
| Lane_out_of_fuel.

Fixpoint run_lane (fuel : nat) (registry : JobRegistry) (lane : JobLane) (runner : Runner)
    : LaneOutcome * Runner :=
  match fuel with
  | O => (Lane_out_of_fuel, runner)
  | S fuel =>
      if runner_shutdown runner then (Lane_returned (Ok ()), runner)
      else
        let '(claim, st) := repository_claim_next (object := object) lane (runner_store runner) in
        let runner := mkRunner st (runner_shutdown runner) (runner_polls runner) in
        match claim with
        | Err _ => (Lane_returned (Err Coordinator_Dependency), runner)
        | Ok (Some claim) =>
            let '(executed, runner) := execute_claim registry claim runner in
            match executed with
            | Err e => (Lane_returned (Err e), runner)
            | Ok _ => run_lane fuel registry lane runner
            end
        | Ok None =>
            match runner_polls runner with
            | [] => (Lane_waiting, runner)
            | _ :: _ =>
                let '(stopped, runner) := poll_once runner in
                if stopped : bool then (Lane_returned (Ok ()), runner)
                else run_lane fuel registry lane runner
            end
        end
  end.

(** What [start_job_coordinator] does before it spawns the two lanes. *)
Definition start_job_coordinator (handlers : list JobHandler)
    : stateful store JobCoordinatorError JobService := fun st =>
  match JobRegistry_new handlers with
  | Err _ => (Err Coordinator_Recovery, st)
  | Ok registry =>
      let '(r, st) := repository_recover_interrupted (object := object) (registry_definitions registry) st in
      match r with
      | Err _ => (Err Coordinator_Recovery, st)
      | Ok _ => (Ok (JobService_new st registry), st)
      end
  end.

End Service.
#[global] Arguments handler_program : clear implicits.
#[global] Arguments JobHandler : clear implicits.
#[global] Arguments JobExecutionContext : clear implicits.
#[global] Arguments JobRegistry : clear implicits.
#[global] Arguments JobService : clear implicits.
#[global] Arguments Poll : clear implicits.
#[global] Arguments Runner : clear implicits.
