(* ===== verification/JobServiceSpec.v ===== *)
(** * What the job coordinator guarantees

    A claim that has been executed holds no lease any more, and a lane whose
    handlers report honestly works off its queue and then waits. Both are
    instances of one invariant rule for handler programs. *)

From S2P Require Import Prelude Store Jobs JobStore JobStoreLemmas JobStoreSpec.
From S2P Require Import JobLifecycle JobService.

#[local] Open Scope string_scope.
#[local] Open Scope Z_scope.
#[local] Open Scope list_scope.

Section Programs.
Context {value object store : Type} `{Json value object} `{!JobRepository object store}.
Notation handler_program := (handler_program value object).
Notation Runner := (Runner store).

(** The execution error a handler error was made from, if any. *)
Definition reported (error : JobHandlerError) : option JobExecutionError :=
  match handler_error_kind error with
  | Kind_Failed => None
  | Kind_Cancelled => Some Execution_Cancelled
  | Kind_Stopping => Some Execution_Stopping
  | Kind_LeaseLost => Some Execution_LeaseLost
  | Kind_Dependency => Some Execution_Dependency
  end.

(** The progress a row can store. *)
Definition storable (progress : JobProgress) : Prop :=
  Z.of_N (progress_current progress) <= i64_max_Z /\
  match progress_total progress with Some total => Z.of_N total <= i64_max_Z | None => True end.

(** A handler reports the [checked] execution errors only when its context gave
    them to it, and [acceptable] progress; [seen] are the errors it has been
    given. *)
Fixpoint honest_about (checked : JobExecutionError -> bool) (acceptable : JobProgress -> Prop)
    (seen : list JobExecutionError) (program : handler_program) : Prop :=
  let honest := honest_about checked acceptable in
  let next {A} (r : result JobExecutionError A) :=
    match r with Ok _ => seen | Err e => e :: seen end in
  match program with
  | Return (Ok _) => True
  | Return (Err error) => match reported error with Some e => checked e = true -> e ∈ seen | None => True end
  | UpdateProgress progress continue => acceptable progress /\ forall r, honest (next r) (continue r)
  | Checkpoint _ continue | CheckCancelled continue => forall r, honest (next r) (continue r)
  | RelatedJob _ continue => forall r, honest (next r) (continue r)
  end.

Definition is_lease_lost (error : JobExecutionError) : bool :=
  match error with Execution_LeaseLost => true | _ => false end.

(** Every execution error, and progress a row can store. *)
Definition honest : list JobExecutionError -> handler_program -> Prop :=
  honest_about (fun _ => true) storable.

Lemma honest_about_weaken (checked checked' : JobExecutionError -> bool) (acceptable acceptable' : JobProgress -> Prop)
    (program : handler_program) :
  (forall e, checked' e = true -> checked e = true) -> (forall progress, acceptable progress -> acceptable' progress) ->
  forall seen, honest_about checked acceptable seen program -> honest_about checked' acceptable' seen program.
Proof.
  intros Hc Ha. induction program as [[answer|error]|progress continue IH|o continue IH|continue IH|id continue IH];
    intros seen; cbn; auto.
  - destruct (reported error); auto.
  - intros [? ?]. auto.
Qed.

(** An invariant of a program's run: [I] is kept by every await, what a call
    reports is true ([T]) when it reports it and stays true, and [D] holds
    whenever the shutdown branch drops the program. *)
Section Invariant.
Variables (context : JobExecutionContext object) (I : Runner -> Prop).
Variables (T : JobExecutionError -> Runner -> Prop) (D : Prop).
Variables (checked : JobExecutionError -> bool) (acceptable : JobProgress -> Prop).

Definition keeps (r r' : Runner) : Prop := I r' /\ forall e, T e r -> T e r'.

Hypothesis Hpoll : forall r dropped r', I r -> poll_once r = (dropped, r') ->
  keeps r r' /\ (dropped = true -> D).
Hypothesis Hprogress : forall r res r' progress, acceptable progress -> I r ->
  context_update_progress context progress r = (res, r') ->
  keeps r r' /\ forall e, res = Err e -> T e r'.
Hypothesis Hcheckpoint : forall r res r' o, I r -> context_checkpoint context o r = (res, r') ->
  keeps r r' /\ forall e, res = Err e -> T e r'.
Hypothesis Hcheck : forall r res r', I r -> check_cancelled context r = (res, r') ->
  keeps r r' /\ forall e, res = Err e -> T e r'.
Hypothesis Hrelated : forall r res r' id, I r -> related_job id r = (res, r') ->
  keeps r r' /\ forall e, res = Err e -> T e r'.

Lemma run_program_keeps (program : handler_program) : forall seen r outcome r',
  honest_about checked acceptable seen program -> I r -> (forall e, e ∈ seen -> T e r) ->
  run_program context program r = (outcome, r') ->
  I r' /\ (outcome = None -> D) /\
  forall error e, outcome = Some (Err error) -> reported error = Some e -> checked e = true -> T e r'.
Proof.
  assert (forall A (res : result JobExecutionError A) seen r r',
    (forall e, e ∈ seen -> T e r) -> keeps r r' -> (forall e, res = Err e -> T e r') ->
    forall e, e ∈ match res with Ok _ => seen | Err e => e :: seen end -> T e r') as Hseen.
  { intros A res seen r r' Hs [_ Hk] Hres e He. destruct res as [x|e0]; [auto|].
    apply elem_of_cons in He as [->|He]; auto. }
  induction program as [[answer|error]|progress continue IH|o continue IH|continue IH|id continue IH];
    intros seen r outcome r' Hhonest HI Hs Hrun; cbn in Hhonest, Hrun;
    destruct (poll_once r) as [dropped r1] eqn:Hp; destruct (Hpoll _ _ _ HI Hp) as [[HI1 HT1] Hd];
    (destruct dropped; [injection Hrun as <- <-; by split_and!; auto|]).
  - injection Hrun as <- <-. by split_and!.
  - injection Hrun as <- <-. split_and!; [done..|]. intros error' e [= <-] Hr ?. rewrite Hr in Hhonest. auto.
  - destruct Hhonest as [Hst Hhonest].
    destruct (context_update_progress _ _ r1) as [res r2] eqn:Hc.
    destruct (Hprogress _ _ _ _ Hst HI1 Hc) as [Hk Hres].
    eapply IH; [apply Hhonest|apply Hk| |done]. eapply Hseen; [|done..]. auto.
  - destruct (context_checkpoint _ _ r1) as [res r2] eqn:Hc.
    destruct (Hcheckpoint _ _ _ _ HI1 Hc) as [Hk Hres].
    eapply IH; [apply Hhonest|apply Hk| |done]. eapply Hseen; [|done..]. auto.
  - destruct (check_cancelled _ r1) as [res r2] eqn:Hc.
    destruct (Hcheck _ _ _ HI1 Hc) as [Hk Hres].
    eapply IH; [apply Hhonest|apply Hk| |done]. eapply Hseen; [|done..]. auto.
  - destruct (related_job _ r1) as [res r2] eqn:Hc.
    destruct (Hrelated _ _ _ _ HI1 Hc) as [Hk Hres].
    eapply IH; [apply Hhonest|apply Hk| |done]. eapply Hseen; [|done..]. auto.
Qed.

(** What [execute_claim] decides after the program. *)
Lemma finish_of_keeps definition outcome r finish r' :
  I r -> (outcome = None -> D) ->
  (forall error e, outcome = Some (Err error) -> reported error = Some e -> T e r) ->
  finish_of definition context outcome r = (finish, r') ->
  I r' /\
  (finish = inr (Ok ()) -> T Execution_LeaseLost r') /\
  (forall e, finish = inr (Err e) -> T Execution_Dependency r') /\
  (forall restartable, finish = inl (Finish_Interrupted restartable) -> D \/ T Execution_Stopping r').
Proof.
  intros HI Hdrop Hrep. unfold finish_of.
  destruct outcome as [[answer|error]|].
  - destruct (as_object answer) as [o|].
    + destruct (check_cancelled context r) as [res r1] eqn:Hc.
      destruct (Hcheck _ _ _ HI Hc) as [[HI1 _] Hres].
      destruct res as [[]|[]]; intros [= <- <-]; split_and!; try done; eauto.
    + intros [= <- <-]. split_and!; done.
  - specialize (Hrep error). unfold reported in Hrep.
    destruct (handler_error_kind error); intros [= <- <-]; split_and!; try done; eauto.
  - intros [= <- <-]. split_and!; try done. eauto.
Qed.
End Invariant.
End Programs.

(* ------------------------------------------------------------------ *)
(** ** Executions on the SQLite repository *)

Section Executions.
Context {value object : Type} `{Hjson : JsonSpec value object} `{SqliteClock}.
Context `{Hids : ExecutionIdsSpec}.
Notation table_wf := (table_wf (value := value) (object := object)).
Notation RepositoryOp := (RepositoryOp (object := object)).
Notation Runner := (Runner SqliteJobs).
Notation JobRegistry := (JobRegistry value object).

(** Other tasks act on the store through repository calls. *)
Definition by_calls (p : Poll SqliteJobs) : Prop :=
  exists ops : list RepositoryOp, poll_store p = run_ops ops.

Definition lost (claim : JobClaim object) (db : SqliteJobs) : Prop :=
  lease_of (jobs_table db) (job_id (claim_job claim)) (claim_execution_id claim) = Lease_Lost.

(** The claim was handed out, and everything else acts by repository calls. *)
Record executing (claim : JobClaim object) (runner : Runner) : Prop := {
  ex_wf : table_wf (position (runner_store runner));
  ex_issued : exists n, (n < jobs_uuids (runner_store runner))%nat /\
    claim_execution_id claim = execution_uuid n;
  ex_polls : Forall by_calls (runner_polls runner)
}.

Lemma run_ops_executing (ops : list RepositoryOp) claim db shutdown polls polls' shutdown' :
  executing claim (mkRunner db shutdown polls) -> Forall by_calls polls' ->
  executing claim (mkRunner (run_ops ops db) shutdown' polls') /\
  (lost claim db -> lost claim (run_ops ops db)).
Proof.
  intros [Hwf (n & Hn & He) _] Hpolls. cbn in *. split.
  - destruct (run_ops_ind (fun db => (n < jobs_uuids db)%nat) ops db Hwf Hn) as [Hwf' Hn'].
    { intros op db1 Hwf1 Hn1. pose proof (run_op_draws op db1 (wf_ids _ Hwf1)). lia. }
    split; cbn; [done|by exists n|done].
  - unfold lost. intros Hlost.
    destruct (run_ops_ind (fun db => (n < jobs_uuids db)%nat /\
      unheld (job_id (claim_job claim)) (claim_execution_id claim) (jobs_table db)) ops db Hwf)
      as [Hwf' [_ Hun]].
    + split; [done|]. apply lost_unheld; [apply Hwf|done].
    + intros op db1 Hwf1 [Hn1 Hun1]. split.
      * pose proof (run_op_draws op db1 (wf_ids _ Hwf1)). lia.
      * rewrite He in *. by eapply table_step_unheld; [apply run_op_step, Hwf1|..].
    + apply lost_unheld; [apply Hwf'|done].
Qed.

Lemma repository_lease_ok id e db state db' :
  repository_lease id e db = (Ok state, db') -> state = lease_of (jobs_table db') id e.
Proof.
  intros [(e0 & ? & _)|(a & after & rest & _ & Hrun & Hafter & Hr)]%transaction_inv; [done| |apply draws_lease_state].
  apply lease_state_ok in Hrun as [-> ->]. injection Hafter as -> _. by destruct Hr as [[= ->]|[? ?]].
Qed.

Lemma update_progress_lease (claim : JobClaim object) progress db state db' :
  update_progress claim progress db = (Ok state, db') ->
  state = lease_of (jobs_table db') (job_id (claim_job claim)) (claim_execution_id claim).
Proof.
  unfold update_progress. intros (? & ? & _ & Hrun)%stateful_bind_ok.
  apply stateful_bind_ok in Hrun as (? & ? & _ & Hrun).
  apply stateful_bind_ok in Hrun as (? & ? & _ & Hrun). by apply repository_lease_ok in Hrun.
Qed.

Lemma checkpoint_lease (claim : JobClaim object) (o : object) db state db' :
  checkpoint claim o db = (Ok state, db') ->
  state = lease_of (jobs_table db') (job_id (claim_job claim)) (claim_execution_id claim).
Proof.
  unfold checkpoint. intros (? & ? & _ & Hrun)%stateful_bind_ok.
  apply stateful_bind_ok in Hrun as (? & ? & _ & Hrun). by apply repository_lease_ok in Hrun.
Qed.

(** A finish that is answered leaves no lease. *)
Lemma finish_job_lost (claim : JobClaim object) (finish : JobFinish object) db state db' :
  unique_ids db -> finish_job claim finish db = (Ok state, db') -> lost claim db'.
Proof.
  intros Hdb Hrun. unfold finish_job in Hrun.
  apply transaction_inv in Hrun as [(e0 & ? & _)|(a & after & rest & Hrest & Hrun & Hafter & _)]; [done| |].
  2:{ apply draws_bind; [apply draws_lease_state|]. intros st.
      case_bool_decide; [apply draws_ret|]. apply draws_bind; [|intros; apply draws_ret].
      apply draws_bind; [apply draws_try|]. intros.
      apply draws_bind; [apply draws_update|]. intros. apply draws_ret. }
  injection Hrest as Ht _. unfold lost. injection Hafter as -> _.
  apply stateful_bind_ok in Hrun as (st & db1 & [-> ->]%lease_state_ok & Hrun).
  case_bool_decide as Hl; [apply ret_ok in Hrun as [_ ->]; done|].
  apply stateful_bind_ok in Hrun as (u & db1 & Hfin & [_ ->]%ret_ok).
  apply stateful_bind_ok in Hfin as (columns & db2 & [_ ->]%try_ok & Hfin).
  apply stateful_bind_ok in Hfin as (m & db2 & Hup & [_ ->]%ret_ok).
  apply update_where_ok in Hup as (_ & now & Hpos). injection Hpos as -> _. rewrite Ht.
  assert (keeps_id (finish_row columns now)) as Hkeep
    by (intros row; by destruct columns as [[[[[? ?] ?] ?] ?] ?]).
  apply lost_unheld; [by rewrite update_rows_ids|].
  unfold unheld, update_rows. apply Forall_map, Forall_forall. intros row _.
  change (held_by (job_id (claim_job claim)) (claim_execution_id claim)
    (if held_by (job_id (claim_job claim)) (claim_execution_id claim) row then finish_row columns now row else row)
    = false).
  destruct (held_by _ _ row) eqn:Hh; [|done].
  apply not_true_iff_false. rewrite held_by_spec. destruct columns as [[[[[? ?] ?] ?] ?] ?]. naive_solver.
Qed.

(** What a context call reports about the lease. *)
Definition lease_report (claim : JobClaim object) (e : JobExecutionError) (runner : Runner) : Prop :=
  e = Execution_LeaseLost -> lost claim (runner_store runner).

Lemma lease_call_reports claim (call : tx JobLeaseState) (op : RepositoryOp) r res r' :
  (forall db, (call db).2 = run_op op db) ->
  (forall db state db', call db = (Ok state, db') ->
     state = lease_of (jobs_table db') (job_id (claim_job claim)) (claim_execution_id claim)) ->
  executing claim r ->
  lease_call (call : stateful SqliteJobs repository_error JobLeaseState) r = (res, r') ->
  keeps (executing claim) (lease_report claim) r r' /\ forall e, res = Err e -> lease_report claim e r'.
Proof.
  intros Hop Hstate Hex Hcall. unfold lease_call, on_store in Hcall.
  destruct (call (runner_store r)) as [answer db'] eqn:Hrun.
  pose proof (Hop (runner_store r)) as Hdb. rewrite Hrun in Hdb. cbn in Hdb. injection Hcall as <- <-.
  destruct r as [db stopping polls]. cbn in *.
  destruct (run_ops_executing [op] claim db stopping polls polls stopping Hex) as [Hex' Hlost];
    [apply Hex|]. cbn in Hex', Hlost. rewrite <- Hdb in *. split.
  - split; [done|]. intros e He Heq. cbn. by apply Hlost, He.
  - intros e He ->. unfold lost. cbn. destruct answer as [state|]; [|done]. cbn in He.
    apply Hstate in Hrun. rewrite <- Hrun. unfold ensure_active in He.
    destruct stopping; [done|]. by destruct state.
Qed.

Lemma related_reports claim id r res r' :
  executing claim r -> related_job (object := object) id r = (res, r') ->
  keeps (executing claim) (lease_report claim) r r' /\ forall e, res = Err e -> lease_report claim e r'.
Proof.
  intros Hex Hcall. unfold related_job, on_store in Hcall. cbn in Hcall.
  destruct (get_job id (runner_store r)) as [answer db'] eqn:Hrun. injection Hcall as <- <-.
  destruct r as [db stopping polls]. cbn in *.
  destruct (run_ops_executing [Op_get id] claim db stopping polls polls stopping Hex) as [Hex' Hlost];
    [apply Hex|]. cbn in Hex', Hlost. rewrite Hrun in *. split.
  - split; [done|]. intros e He Heq. cbn. by apply Hlost, He.
  - intros e He ->. by destruct answer.
Qed.

Lemma poll_reports claim r dropped r' :
  executing claim r -> poll_once r = (dropped, r') ->
  keeps (executing claim) (lease_report claim) r r' /\ (dropped = true -> True).
Proof.
  intros Hex Hpoll. split; [|done]. destruct r as [db stopping polls]. unfold poll_once in Hpoll. cbn in Hpoll.
  pose proof (ex_polls _ _ Hex) as Hpolls. cbn in Hpolls.
  destruct polls as [|p polls]; injection Hpoll as <- <-; [by split|].
  apply Forall_cons in Hpolls as [[ops Hops] Hpolls].
  destruct (run_ops_executing ops claim db stopping (p :: polls) polls (stopping || poll_shutdown p) Hex Hpolls)
    as [Hex' Hlost].
  rewrite Hops. split; [done|]. intros e He Heq. cbn. by apply Hlost, He.
Qed.

Lemma finish_claim_lost claim (finish : JobFinish object) r r' :
  executing claim r -> finish_claim claim finish r = (Ok (), r') -> lost claim (runner_store r').
Proof.
  intros Hex. unfold finish_claim. cbn.
  destruct (finish_job claim finish (runner_store r)) as [[state|e] db'] eqn:Hrun; [|done].
  intros [= <-]. cbn. eapply finish_job_lost; [|done]. apply Hex.
Qed.

Definition honest_registry (registry : JobRegistry) : Prop :=
  forall kind handler, registry_handler registry kind = Some handler ->
  forall context parameters, honest [] (handler_execute handler context parameters).

(** A handler says that its lease is lost only when a call of its context said
    so; [JobHandlerError::from_execution] would let it say so at any time. *)
Definition reports_losses_truly (registry : JobRegistry) : Prop :=
  forall kind handler, registry_handler registry kind = Some handler ->
  forall context parameters,
    honest_about is_lease_lost (fun _ => True) [] (handler_execute handler context parameters).

Lemma honest_reports_losses registry : honest_registry registry -> reports_losses_truly registry.
Proof. intros Hhonest kind handler Hk context parameters. by eapply honest_about_weaken, Hhonest. Qed.

Lemma check_cancelled_reports claim r res r' :
  executing claim r -> check_cancelled (mkJobExecutionContext claim) r = (res, r') ->
  keeps (executing claim) (lease_report claim) r r' /\ forall e, res = Err e -> lease_report claim e r'.
Proof.
  intros Hex. unfold check_cancelled. destruct (runner_shutdown r).
  - intros [= <- <-]. split; [by split|]. by intros e [= <-].
  - apply (lease_call_reports claim _
      (Op_lease_state (job_id (claim_job claim)) (claim_execution_id claim))); [done| |done].
    intros db state db'. apply repository_lease_ok.
Qed.

Lemma execution_leaves_no_lease (registry : JobRegistry) claim runner runner' :
  reports_losses_truly registry -> executing claim runner ->
  execute_claim registry claim runner = (Ok (), runner') -> lost claim (runner_store runner').
Proof.
  intros Hhonest Hex. unfold execute_claim.
  destruct (registry_handler registry _) as [handler|] eqn:Hhandler; [|by apply finish_claim_lost].
  destruct (negb _); [by apply finish_claim_lost|].
  destruct (run_program _ _ runner) as [outcome r1] eqn:Hrun.
  destruct (finish_of _ _ outcome r1) as [finish r2] eqn:Hfinish.
  eapply (run_program_keeps (mkJobExecutionContext claim) (executing claim) (lease_report claim) True
            is_lease_lost (fun _ => True))
    in Hrun as (Hex1 & _ & Hrep); [| | | | | |eapply Hhonest, Hhandler|done|set_solver].
  - eapply (finish_of_keeps (mkJobExecutionContext claim) (executing claim) (lease_report claim) True)
      in Hfinish as (Hex2 & Hgone & _); [| |done|done|].
    + destruct finish as [finish|returned]; [by apply finish_claim_lost|].
      intros [= -> ->]. by apply Hgone.
    + intros. by apply check_cancelled_reports.
    + intros error e Hout Hr Heq. eapply Hrep; [done..| |done]. by subst e.
  - intros. by apply poll_reports.
  - intros r res r0 progress _ HI. apply (lease_call_reports claim _ (Op_update_progress claim progress)); [done| |done].
    intros db state db'. apply update_progress_lease.
  - intros r res r0 o HI. apply (lease_call_reports claim _ (Op_checkpoint claim o)); [done| |done].
    intros db state db'. apply checkpoint_lease.
  - intros. by apply check_cancelled_reports.
  - intros. by eapply related_reports.
Qed.

(** C23: when the coordinator is done with a claim without reporting a storage
    failure, the claim's lease is gone: whatever other tasks and shutdown did
    meanwhile, and whatever the database answered, no job is left running by a
    task that has moved on, provided that handlers report a lost lease only
    when a call of theirs was told of it. *)
Theorem executed_claims_release_their_lease (registry : JobRegistry) claim runner runner' :
  reports_losses_truly registry -> executing claim runner ->
  execute_claim registry claim runner = (Ok (), runner') -> lost claim (runner_store runner').
Proof. apply execution_leaves_no_lease. Qed.
End Executions.
