(* ===== verification/JobLanes.v ===== *)
(** * A lane works off its queue

    On a database that answers, a lane that is not shut down claims its queued
    jobs one by one, finishes each of them and comes to rest waiting; the number
    of its queued jobs bounds the turns it takes. *)

From S2P Require Import Prelude Store Jobs JobStore JobStoreLemmas JobStoreSpec.
From S2P Require Import JobLifecycle JobService JobServiceSpec.

#[local] Open Scope string_scope.
#[local] Open Scope Z_scope.
#[local] Open Scope list_scope.

Lemma filter_update_le (q p : JobRow -> bool) f rows :
  (forall row, p row = true -> q (f row) = true -> q row = true) ->
  (length (List.filter q (update_rows p f rows)) <= length (List.filter q rows))%nat.
Proof.
  intros Hf. unfold update_rows. induction rows as [|row rows IH]; cbn; [lia|].
  destruct (p row) eqn:Hp.
  - specialize (Hf row Hp). destruct (q (f row)), (q row); cbn; (lia || by specialize (Hf eq_refl)).
  - destruct (q row); cbn; lia.
Qed.

Lemma filter_update_lt (q p : JobRow -> bool) f rows row :
  (forall row, p row = true -> q (f row) = true -> q row = true) ->
  row ∈ rows -> p row = true -> q row = true -> q (f row) = false ->
  (length (List.filter q (update_rows p f rows)) < length (List.filter q rows))%nat.
Proof.
  intros Hf Hin Hp Hq Hqf. induction rows as [|other rows IH]; [set_solver|].
  apply elem_of_cons in Hin as [<-|Hin].
  - unfold update_rows. cbn. rewrite Hp, Hqf, Hq. cbn.
    pose proof (filter_update_le q p f rows Hf) as Hle. unfold update_rows in Hle. lia.
  - specialize (IH Hin). unfold update_rows in *. cbn. destruct (p other) eqn:Hpo.
    + specialize (Hf other Hpo). destruct (q (f other)), (q other); cbn; (lia || by specialize (Hf eq_refl)).
    + destruct (q other); cbn; lia.
Qed.

Section Lanes.
Context {value object : Type} `{Hjson : JsonSpec value object} `{SqliteClock}.
Context `{Hids : ExecutionIdsSpec}.
Notation table_wf := (table_wf (value := value) (object := object)).
Notation table_step := (table_step (value := value) (object := object)).
Notation row_to_job := (row_to_job (value := value) (object := object)).
Notation Runner := (Runner SqliteJobs).
Notation JobRegistry := (JobRegistry value object).

(** A database without faults, and a lane nobody disturbs. *)
Definition healthy (rows : list JobRow) (clock uuids : nat) : SqliteJobs := mkSqliteJobs rows clock uuids [].
Definition undisturbed (rows : list JobRow) (clock uuids : nat) : Runner :=
  mkRunner (healthy rows clock uuids) false [].

(** Every object has a text. *)
Definition total_json : Prop := forall o : object, exists text, json_to_string o = Ok text.

(* ------------------------------------------------------------------ *)
(** ** Calls on a healthy database *)

Lemma healthy_lease id e rows c u :
  repository_lease id e (healthy rows c u) = (Ok (lease_of rows id e), healthy rows c u).
Proof.
  unfold repository_lease, transaction, lease_state, lease_of, healthy, mbind, stateful_bind,
    select, gets. cbn. done.
Qed.

Lemma healthy_guarded id e set rows c u :
  mbind (fun _ => repository_lease id e) (transaction (update_where (held_by id e) set)) (healthy rows c u) =
  let rows' := update_rows (held_by id e) (set (current_timestamp c)) rows in
  (Ok (lease_of rows' id e), healthy rows' (S c) u).
Proof. cbv zeta. rewrite <- healthy_lease. done. Qed.

Lemma healthy_progress (claim : JobClaim object) progress rows c u :
  storable progress -> exists now current total, 0 <= current /\
  match total with Some total => 0 <= total | None => True end /\
  let rows' := update_rows (held_by (job_id (claim_job claim)) (claim_execution_id claim))
    (set_progress current total (progress_phase progress) (progress_message progress) now) rows in
  update_progress claim progress (healthy rows c u) =
  (Ok (lease_of rows' (job_id (claim_job claim)) (claim_execution_id claim)), healthy rows' (S c) u).
Proof.
  intros [Hc Ht]. exists (current_timestamp c), (Z.of_N (progress_current progress)),
    (Z.of_N <$> progress_total progress).
  split; [lia|]. split; [destruct (progress_total progress); cbn; [lia|done]|]. cbv zeta.
  unfold update_progress, mbind at 1 2, stateful_bind. cbn [try].
  unfold i64_try_from_u64 at 1. rewrite (proj2 (Z.leb_le _ _) Hc). cbn [ok_or].
  destruct (progress_total progress) as [total|]; cbn [option_transpose].
  - unfold i64_try_from_u64. rewrite (proj2 (Z.leb_le _ _) Ht). cbn [ok_or]. apply healthy_guarded.
  - apply healthy_guarded.
Qed.

Lemma healthy_checkpoint (claim : JobClaim object) (o : object) text rows c u :
  json_to_string o = Ok text ->
  let rows' := update_rows (held_by (job_id (claim_job claim)) (claim_execution_id claim))
    (set_result text (current_timestamp c)) rows in
  checkpoint claim o (healthy rows c u) =
  (Ok (lease_of rows' (job_id (claim_job claim)) (claim_execution_id claim)), healthy rows' (S c) u).
Proof.
  intros Ht. cbv zeta. unfold checkpoint, mbind at 1, stateful_bind. cbn [try]. rewrite Ht. cbn [map_err].
  apply healthy_guarded.
Qed.

Lemma healthy_get id rows c u :
  table_wf (rows, u) -> exists job, get_job (object := object) id (healthy rows c u) = (Ok job, healthy rows c u).
Proof.
  intros Hwf. unfold get_job, transaction, read_job, healthy, mbind, stateful_bind, select, gets, try. cbn.
  destruct (find_row id rows) as [row|] eqn:Hrow; cbn; [|by eexists].
  apply find_row_Some in Hrow as [Hin _]. pose proof (wf_rows _ Hwf) as Hrows. cbn in Hrows.
  rewrite Forall_forall in Hrows. destruct (wf_decodes _ _ (Hrows row Hin)) as [job Hjob].
  rewrite Hjob. cbn. by eexists.
Qed.

Lemma healthy_finish (claim : JobClaim object) (finish : JobFinish object) rows c u :
  total_json -> finish <> Finish_Interrupted true ->
  exists c' rows' state, finish_job claim finish (healthy rows c u) = (Ok state, healthy rows' c' u) /\
  (rows' = rows \/
   exists columns now, lease_of rows (job_id (claim_job claim)) (claim_execution_id claim) <> Lease_Lost /\
     finish_columns finish (lease_of rows (job_id (claim_job claim)) (claim_execution_id claim)) = Ok columns /\
     columns.1.1.1.1.1 <> "queued" /\
     rows' = update_rows (held_by (job_id (claim_job claim)) (claim_execution_id claim))
               (finish_row columns now) rows).
Proof.
  intros Htotal Hfinish. set (state := lease_of rows _ _).
  assert (exists columns, finish_columns finish state = Ok columns /\ columns.1.1.1.1.1 <> "queued")
    as (columns & Hcols & Hnq).
  { unfold finish_columns. case_bool_decide; [eexists; split; [reflexivity|discriminate]|].
    destruct finish as [o|error| |[]]; try (eexists; split; [reflexivity|discriminate]); [|done].
    destruct (Htotal o) as [text ->]. eexists. split; [reflexivity|discriminate]. }
  destruct (decide (state = Lease_Lost)) as [Hl|Hl].
  - exists c, rows, Lease_Lost. split; [|by left].
    unfold finish_job, transaction, healthy, mbind at 1, stateful_bind, lease_state. cbn.
    unfold mbind, stateful_bind, select, gets. cbn. fold state.
    change (match find_row (job_id (claim_job claim)) rows with
            | Some row => if bool_decide (row_execution_id row <> Some (claim_execution_id claim)) then Lease_Lost
              else if String.eqb (row_status row) "running" then Lease_Active
              else if String.eqb (row_status row) "cancel_requested" then Lease_CancellationRequested
              else Lease_Lost
            | None => Lease_Lost end) with state.
    by rewrite Hl.
  - exists (S c), (update_rows (held_by (job_id (claim_job claim)) (claim_execution_id claim))
               (finish_row columns (current_timestamp c)) rows), Lease_Lost.
    split; [|right; by exists columns, (current_timestamp c)].
    unfold finish_job, transaction, healthy, mbind at 1, stateful_bind, lease_state. cbn.
    unfold mbind, stateful_bind, select, gets. cbn.
    change (match find_row (job_id (claim_job claim)) rows with
            | Some row => if bool_decide (row_execution_id row <> Some (claim_execution_id claim)) then Lease_Lost
              else if String.eqb (row_status row) "running" then Lease_Active
              else if String.eqb (row_status row) "cancel_requested" then Lease_CancellationRequested
              else Lease_Lost
            | None => Lease_Lost end) with state.
    rewrite bool_decide_false by done. unfold apply_finish, mbind, stateful_bind, try. rewrite Hcols. done.
Qed.

Lemma healthy_claim lane rows c u :
  table_wf (rows, u) ->
  Forall (fun row => claimable lane row = true -> row_attempts row < Z.of_N u32_max) rows ->
  (Forall (fun row => claimable lane row = false) rows /\
   claim_next (object := object) lane (healthy rows c u) = (Ok None, healthy rows c u)) \/
  exists row claim, next_in_lane lane rows row /\ claim_execution_id claim = execution_uuid u /\
    job_id (claim_job claim) = row_id row /\
    row_to_job (start_execution (execution_uuid u) (current_timestamp c) row) = Ok (claim_job claim) /\
    claim_next (object := object) lane (healthy rows c u) =
      (Ok (Some claim), healthy (started rows row (execution_uuid u) (current_timestamp c)) (S c) (S u)).
Proof.
  intros Hwf Hattempts. rewrite Forall_forall in Hattempts.
  unfold claim_next, transaction, healthy, read_job, mbind, stateful_bind, select, gets,
    new_execution_id, update_where, require_job, try.
  cbn [jobs_faults tail head jobs_table jobs_clock jobs_uuids].
  destruct (head (oldest_first (List.filter (claimable lane) rows))) as [row|] eqn:Hhead.
  2:{ left. split; [by apply oldest_none|done]. }
  right. apply oldest_head in Hhead as Hnext. destruct Hnext as (Hin & Hclaim & Hleast).
  pose proof Hclaim as [Hq _]%andb_true_iff.
  pose proof (wf_rows _ Hwf) as Hrows. cbn in Hrows. rewrite Forall_forall in Hrows.
  assert (exists job, row_to_job (start_execution (execution_uuid u) (current_timestamp c) row) = Ok job)
    as [job Hjob].
  { apply decodable_row_to_job. pose proof (row_wf_decodable _ _ (Hrows row Hin)) as [].
    specialize (Hattempts row Hin Hclaim). split; try done; [by exists Running|].
    change (0 <= row_attempts row + 1 <= Z.of_N u32_max). lia. }
  exists row, (mkJobClaim job (execution_uuid u)). split; [done|]. split; [done|].
  split; [by apply row_to_job_ok in Hjob as (_ & _ & ? & _)|]. split; [done|].
  cbn [jobs_faults tail head jobs_table jobs_clock jobs_uuids].
  rewrite (filter_by_id (row_id row) rows row (has_status Queued));
    [|apply Hwf|done|by rewrite Hq, (proj2 (has_id_spec _ _) eq_refl)].
  cbn [length Nat.eqb negb jobs_table].
  change (map (fun other => if has_id (row_id row) other && has_status Queued other
    then start_execution (execution_uuid u) (current_timestamp c) other else other) rows)
    with (update_rows (fun other => has_id (row_id row) other && has_status Queued other)
           (start_execution (execution_uuid u) (current_timestamp c)) rows).
  rewrite started_guarded; [|apply Hwf|done|done].
  cbn. unfold started. rewrite find_row_update by done.
  rewrite (find_row_elem _ _ row); [|apply Hwf|done|done]. cbn. rewrite (proj2 (has_id_spec _ _) eq_refl), Hjob. done.
Qed.

(* ------------------------------------------------------------------ *)
(** ** The lane's invariant *)

Section Lane.
Variables (lane : JobLane) (start : list JobRow).

(** The rows are those of [start] by id and lane, queued ones can be started
    once more, and at most [m] wait in the lane. *)
Record lane_inv (m : nat) (rows : list JobRow) (u : nat) : Prop := {
  li_wf : table_wf (rows, u);
  li_attempts : Forall (fun row => claimable lane row = true -> row_attempts row < Z.of_N u32_max) rows;
  li_count : (length (List.filter (claimable lane) rows) <= m)%nat;
  li_same : Forall2 (fun a b => row_id b = row_id a /\ row_lane b = row_lane a) start rows
}.

(** Every lease is one of [start]'s, or that of the claim being executed. *)
Definition leases_from (held : JobRow -> bool) (rows : list JobRow) : Prop :=
  Forall (fun row => leased row = true -> row ∈ start \/ held row = true) rows.

Lemma lane_inv_update m rows u u' p f :
  lane_inv m rows u -> table_wf (update_rows p f rows, u') ->
  (forall row, p row = true -> row_id (f row) = row_id row /\ row_lane (f row) = row_lane row /\
     row_status (f row) <> "queued") ->
  lane_inv m (update_rows p f rows) u'.
Proof.
  intros [Hwf Hattempts Hcount Hsame] Hwf' Hf.
  assert (forall row, p row = true -> claimable lane (f row) = false) as Hclaim.
  { intros row (_ & _ & Hq)%Hf. unfold claimable. apply andb_false_iff. left.
    apply not_true_iff_false. by rewrite has_status_spec. }
  split; [done| | |].
  - unfold update_rows. apply Forall_map. eapply Forall_impl; [exact Hattempts|]. intros row Hrow. cbn.
    destruct (p row) eqn:Hp; [|done]. by rewrite Hclaim.
  - etrans; [apply filter_update_le|done]. intros row Hp. by rewrite Hclaim.
  - unfold update_rows. apply Forall2_fmap_r. eapply Forall2_impl; [exact Hsame|].
    intros a b [Hid Hl]. cbn. destruct (p b) eqn:Hp; [|done]. destruct (Hf b Hp) as (-> & -> & _). done.
Qed.

Lemma leases_from_update held rows f :
  leases_from held rows ->
  (forall row, held row = true -> leased (f row) = true -> held (f row) = true) ->
  leases_from held (update_rows held f rows).
Proof.
  unfold leases_from, update_rows. intros Hall Hf. apply Forall_map. eapply Forall_impl; [exact Hall|].
  intros row Hrow. cbn. destruct (held row) eqn:Hh; intros Hl.
  - right. by apply Hf.
  - destruct (Hrow Hl) as [?|?]; [by left|congruence].
Qed.

#[local] Arguments repository_lease : simpl never.
#[local] Arguments get_job : simpl never.
#[local] Arguments finish_job : simpl never.

Definition held (claim : JobClaim object) : JobRow -> bool :=
  held_by (job_id (claim_job claim)) (claim_execution_id claim).

(** The state while [claim] is executed. *)
Definition busy (claim : JobClaim object) (m : nat) (r : Runner) : Prop :=
  exists rows c u, r = undisturbed rows c u /\ lane_inv m rows u /\ leases_from (held claim) rows.

(** What an undisturbed execution reports is never a shutdown or a failure. *)
Definition calm_report (e : JobExecutionError) (r : Runner) : Prop :=
  e <> Execution_Stopping /\ e <> Execution_Dependency.

Lemma busy_update claim m rows u f c' :
  lane_inv m rows u -> leases_from (held claim) rows ->
  table_wf (update_rows (held claim) f rows, u) ->
  (forall row, held claim row = true -> row_id (f row) = row_id row /\ row_lane (f row) = row_lane row /\
     row_status (f row) <> "queued" /\ (leased (f row) = true -> held claim (f row) = true)) ->
  busy claim m (undisturbed (update_rows (held claim) f rows) c' u).
Proof.
  intros Hinv Hleases Hwf Hf. eexists _, _, _. split; [done|]. split.
  - eapply lane_inv_update; [done..|]. intros row Hrow. destruct (Hf row Hrow) as (? & ? & ? & _). done.
  - apply leases_from_update; [done|]. intros row Hrow. by destruct (Hf row Hrow) as (_ & _ & _ & ?).
Qed.

Lemma held_not_queued claim row : held claim row = true -> row_status row <> "queued".
Proof. intros (_ & _ & [-> | ->]%leased_spec)%held_by_spec; done. Qed.

Lemma calm_lease claim m r r' state res :
  busy claim m r' -> (Ok state ≫= ensure_active false) = res ->
  keeps (busy claim m) calm_report r r' /\ forall e, res = Err e -> calm_report e r'.
Proof. intros Hbusy <-. split; [by split|]. intros e. destruct state; cbn; [done|by intros [= <-]..]. Qed.

Lemma busy_progress claim m progress r res r' :
  storable progress -> busy claim m r ->
  context_update_progress (mkJobExecutionContext claim) progress r = (res, r') ->
  keeps (busy claim m) calm_report r r' /\ forall e, res = Err e -> calm_report e r'.
Proof.
  intros Hst (rows & c & u & -> & Hinv & Hleases). unfold context_update_progress, lease_call, on_store. cbn.
  destruct (healthy_progress claim progress rows c u Hst) as (now & current & total & Hc & Ht & ->).
  fold (held claim). intros [= <- <-].
  eapply calm_lease; [|done]. apply busy_update; [done..| |].
  - eapply table_step_wf; [|apply Hinv]. by apply step_progress.
  - intros row Hrow. split_and!; [done..|by apply held_not_queued in Hrow|done].
Qed.

Lemma busy_checkpoint claim m o r res r' :
  total_json -> busy claim m r ->
  context_checkpoint (mkJobExecutionContext claim) o r = (res, r') ->
  keeps (busy claim m) calm_report r r' /\ forall e, res = Err e -> calm_report e r'.
Proof.
  intros Htotal (rows & c & u & -> & Hinv & Hleases). unfold context_checkpoint, lease_call, on_store. cbn.
  destruct (Htotal o) as [text Htext]. rewrite (healthy_checkpoint claim o text rows c u Htext).
  fold (held claim). intros [= <- <-].
  eapply calm_lease; [|done]. apply busy_update; [done..| |].
  - eapply table_step_wf; [|apply Hinv]. by eapply step_checkpoint.
  - intros row Hrow. split_and!; [done..|by apply held_not_queued in Hrow|done].
Qed.

Lemma busy_check claim m r res r' :
  busy claim m r -> check_cancelled (mkJobExecutionContext claim) r = (res, r') ->
  keeps (busy claim m) calm_report r r' /\ forall e, res = Err e -> calm_report e r'.
Proof.
  intros Hbusy. pose proof Hbusy as (rows & c & u & -> & Hinv & Hleases).
  unfold check_cancelled, lease_call, on_store. cbn. rewrite healthy_lease. intros [= <- <-].
  by eapply calm_lease.
Qed.

Lemma busy_related claim m id r res r' :
  busy claim m r -> related_job (object := object) id r = (res, r') ->
  keeps (busy claim m) calm_report r r' /\ forall e, res = Err e -> calm_report e r'.
Proof.
  intros Hbusy. pose proof Hbusy as (rows & c & u & -> & Hinv & Hleases).
  unfold related_job, on_store. cbn. destruct (healthy_get id rows c u (li_wf _ _ _ Hinv)) as [job ->].
  intros [= <- <-]. split; [by split|done].
Qed.

Lemma busy_finish claim m (finish : JobFinish object) r returned r' :
  total_json -> finish <> Finish_Interrupted true -> busy claim m r ->
  finish_claim claim finish r = (returned, r') -> returned = Ok () /\ busy claim m r'.
Proof.
  intros Htotal Hfinish (rows & c & u & -> & Hinv & Hleases). unfold finish_claim. cbn.
  destruct (healthy_finish claim finish rows c u Htotal Hfinish) as (c' & rows' & state & -> & Hrows).
  intros [= <- <-]. split; [done|]. destruct Hrows as [->|(columns & now & Hl & Hcols & Hq & ->)].
  - by exists rows, c', u.
  - apply busy_update; [done..| |].
    + eapply table_step_wf; [|apply Hinv]. by eapply step_finish.
    + intros row _. apply finish_columns_ok in Hcols.
      destruct columns as [[[[[status phase] text] error] clear] finished].
      destruct Hcols as (_ & Hstatus & _). cbn in Hq. split_and!; [done..|].
      intros [Hr|Hr]%leased_spec; cbn in Hr; subst status; destruct finished; set_solver.
Qed.

Lemma busy_execution registry claim m r returned r' :
  total_json -> honest_registry registry -> busy claim m r ->
  execute_claim registry claim r = (returned, r') -> returned = Ok () /\ busy claim m r'.
Proof.
  intros Htotal Hhonest Hbusy. unfold execute_claim.
  destruct (registry_handler registry _) as [handler|] eqn:Hhandler; [|by apply busy_finish].
  destruct (negb _); [by apply busy_finish|].
  destruct (run_program _ _ r) as [outcome r1] eqn:Hrun.
  destruct (finish_of _ _ outcome r1) as [finish r2] eqn:Hfinish.
  eapply (run_program_keeps (mkJobExecutionContext claim) (busy claim m) calm_report False (fun _ => true) storable)
    in Hrun as (Hbusy1 & Hdrop & Hrep); [| | | | | |eapply Hhonest, Hhandler|done|set_solver].
  - eapply (finish_of_keeps (mkJobExecutionContext claim) (busy claim m) calm_report False)
      in Hfinish as (Hbusy2 & _ & Herr & Hint); [| |done|done|by eauto].
    + destruct finish as [finish|[[]|e]].
      * apply busy_finish; [done| |done]. intros ->. by destruct (Hint true eq_refl) as [|[]].
      * by intros [= <- <-].
      * by destruct (Herr e eq_refl).
    + intros. by eapply busy_check.
  - intros r0 dropped r0' (rows & c & u & -> & Hinv & Hleases). intros [= <- <-]. split; [|done].
    split; [by exists rows, c, u|done].
  - intros. by eapply busy_progress.
  - intros. by eapply busy_checkpoint.
  - intros. by eapply busy_check.
  - intros. by eapply busy_related.
Qed.

(** No lease but those of [start]. *)
Definition at_rest : list JobRow -> Prop := leases_from (fun _ => false).

Lemma at_rest_after claim rows :
  NoDup (row_id <$> rows) -> leases_from (held claim) rows ->
  lease_of rows (job_id (claim_job claim)) (claim_execution_id claim) = Lease_Lost -> at_rest rows.
Proof.
  unfold at_rest, leases_from. rewrite !Forall_forall. intros Hnd Hall Hlost row Hin Hl.
  destruct (Hall row Hin Hl) as [?|Hheld]; [by left|].
  apply lost_unheld in Hlost; [|done]. unfold unheld in Hlost. rewrite Forall_forall in Hlost.
  unfold held in Hheld. by rewrite (Hlost row Hin) in Hheld.
Qed.

Lemma busy_started m rows c u row claim :
  lane_inv (S m) rows u -> at_rest rows -> next_in_lane lane rows row ->
  claim_execution_id claim = execution_uuid u -> job_id (claim_job claim) = row_id row ->
  row_to_job (start_execution (execution_uuid u) (current_timestamp c) row) = Ok (claim_job claim) ->
  busy claim m (undisturbed (started rows row (execution_uuid u) (current_timestamp c)) (S c) (S u)).
Proof.
  intros Hinv Hrest (Hin & Hclaim & Hleast) He Hid Hjob.
  pose proof Hclaim as [Hq Hlane]%andb_true_iff.
  assert (NoDup (row_id <$> rows)) as Hnd by apply (li_wf _ _ _ Hinv).
  assert (table_wf (started rows row (execution_uuid u) (current_timestamp c), S u)) as Hwf'.
  { rewrite <- started_guarded by done. eapply table_step_wf; [|apply Hinv].
    apply (step_claim _ _ lane _ _ (claim_job claim)); [|exact Hjob].
    assert (forall other, head (oldest_first (List.filter (claimable lane) rows)) = Some other -> other = row)
      as Hhead.
    { intros other (Hin' & Hc' & Hleast')%oldest_head.
      specialize (Hleast other Hin' Hc'). specialize (Hleast' row Hin Hclaim). unfold job_before in *.
      pose proof (wf_rowids _ (li_wf _ _ _ Hinv)) as Hrowids. cbn in Hrowids.
      apply list_elem_of_lookup in Hin as [i Hi], Hin' as [k Hk].
      assert (i = k); [|congruence].
      eapply NoDup_lookup; [exact Hrowids|rewrite list_lookup_fmap, Hi; done|].
      rewrite list_lookup_fmap, Hk. cbn. f_equal. lia. }
    destruct (head _) as [other|] eqn:Hother; [by rewrite <- (Hhead other eq_refl)|].
    apply oldest_none in Hother. rewrite Forall_forall in Hother. by rewrite Hother in Hclaim. }
  assert (forall other, has_id (row_id row) other = true ->
    claimable lane (start_execution (execution_uuid u) (current_timestamp c) other) = false) as Hgone by done.
  eexists _, _, _. split; [done|]. split.
  - destruct Hinv as [Hwf Hattempts Hcount Hsame]. split; [done| | |].
    + unfold started, update_rows. apply Forall_map. eapply Forall_impl; [exact Hattempts|].
      intros other Hother. cbn. destruct (has_id (row_id row) other) eqn:Ho; [|done]. done.
    + assert (length (List.filter (claimable lane)
        (started rows row (execution_uuid u) (current_timestamp c))) <
        length (List.filter (claimable lane) rows))%nat; [|lia].
      apply filter_update_lt with row; try done. by apply has_id_spec.
    + unfold started, update_rows. apply Forall2_fmap_r. eapply Forall2_impl; [exact Hsame|].
      intros a b Hab. cbn. by destruct (has_id (row_id row) b).
  - unfold leases_from, started, update_rows. apply Forall_map. eapply Forall_impl; [exact Hrest|].
    intros other Hother. cbn. destruct (has_id (row_id row) other) eqn:Ho; intros Hl.
    + right. apply held_by_spec. apply has_id_spec in Ho. cbn. by rewrite He, Hid, Ho.
    + destruct (Hother Hl) as [?|?]; [by left|done].
Qed.

Lemma run_lane_settles registry fuel : forall m rows c u,
  total_json -> honest_registry registry -> lane_inv m rows u -> at_rest rows -> (m < fuel)%nat ->
  exists rows' c' u', run_lane fuel registry lane (undisturbed rows c u) =
    (Lane_waiting, undisturbed rows' c' u') /\
  lane_inv 0 rows' u' /\ at_rest rows'.
Proof.
  induction fuel as [|fuel IH]; intros m rows c u Htotal Hhonest Hinv Hrest Hfuel; [lia|].
  cbn [run_lane]. change (runner_shutdown (undisturbed rows c u)) with false. cbn match.
  change (runner_store (undisturbed rows c u)) with (healthy rows c u).
  change (repository_claim_next (object := object) lane (healthy rows c u))
    with (claim_next (object := object) lane (healthy rows c u)).
  destruct (healthy_claim lane rows c u (li_wf _ _ _ Hinv) (li_attempts _ _ _ Hinv))
    as [[Hnone ->]|(row & claim & Hnext & He & Hid & Hjob & ->)].
  - exists rows, c, u. split; [done|]. split; [|done]. destruct Hinv as [? ? Hcount ?]. split; try done.
    assert (List.filter (claimable lane) rows = []) as ->; [|done].
    clear -Hnone. induction Hnone as [|row rows Hrow _ IHr]; [done|]. cbn. by rewrite Hrow.
  - destruct m as [|m].
    { exfalso. destruct Hinv as [_ _ Hcount _]. destruct Hnext as (Hin & Hclaim & _).
      assert (row ∈ List.filter (claimable lane) rows) as Hf
        by (by rewrite list_elem_of_In, List.filter_In, <- list_elem_of_In).
      destruct (List.filter (claimable lane) rows); [set_solver|cbn in Hcount; lia]. }
    pose proof (busy_started m rows c u row claim Hinv Hrest Hnext He Hid Hjob) as Hbusy.
    set (r1 := undisturbed (started _ _ _ _) _ _) in *.
    change (mkRunner (healthy (started rows row (execution_uuid u) (current_timestamp c)) (S c) (S u))
      false (runner_polls (undisturbed rows c u))) with r1.
    destruct (execute_claim registry claim r1) as [returned r2] eqn:Hexec.
    pose proof (busy_execution registry claim m r1 returned r2 Htotal Hhonest Hbusy Hexec) as [-> Hbusy2].
    assert (lost claim (runner_store r2)) as Hlost.
    { eapply execution_leaves_no_lease; [by apply honest_reports_losses| |done]. destruct Hbusy as (rows1 & c1 & u1 & Hr1 & Hinv1 & _).
      injection Hr1 as Hrows Hc Hu. split; cbn.
      - rewrite Hrows. unfold position. cbn. rewrite Hu. apply Hinv1.
      - exists u. split; [lia|done].
      - constructor. }
    destruct Hbusy2 as (rows2 & c2 & u2 & -> & Hinv2 & Hleases2).
    apply (IH m); try done; [|lia].
    eapply at_rest_after; [apply (li_wf _ _ _ Hinv2)|done|done].
Qed.
End Lane.

(** C24: a lane that is not disturbed works off its queue. On a database that
    answers, with handlers that report only what their context told them, and
    jobs whose attempt counter is not exhausted, the coordinator needs no more
    turns than the lane has queued jobs plus one: it comes to rest waiting, every
    job that was queued in the lane is over, and no lease it took is left. *)
Theorem lanes_work_off_their_queue (registry : JobRegistry) lane rows clock uuids fuel :
  total_json -> honest_registry registry -> table_wf (rows, uuids) ->
  Forall (fun row => claimable lane row = true -> row_attempts row < Z.of_N u32_max) rows ->
  (length (List.filter (claimable lane) rows) < fuel)%nat ->
  exists rows' clock' uuids',
    run_lane fuel registry lane (undisturbed rows clock uuids) =
      (Lane_waiting, undisturbed rows' clock' uuids') /\
    Forall (fun row => claimable lane row = false) rows' /\
    (forall row, row ∈ rows' -> leased row = true -> row ∈ rows) /\
    (forall row, row ∈ rows -> claimable lane row = true ->
       exists row', find_row (row_id row) rows' = Some row' /\ unfinished row' = false).
Proof.
  intros Htotal Hhonest Hwf Hattempts Hfuel.
  destruct (run_lane_settles lane rows registry fuel _ rows clock uuids Htotal Hhonest
    (Build_lane_inv lane rows _ rows uuids Hwf Hattempts (le_n _)
      (Forall_Forall2_diag _ _ (Forall_true _ _ (fun _ => conj eq_refl eq_refl)))))
    as (rows' & c' & u' & Hrun & [Hwf' _ Hcount Hsame] & Hrest); [|done|].
  { apply Forall_forall. intros row Hin Hl. by left. }
  exists rows', c', u'. split; [done|].
  assert (Forall (fun row => claimable lane row = false) rows') as Hdrained.
  { apply Forall_forall. intros row Hin. destruct (claimable lane row) eqn:Hc; [|done]. exfalso.
    assert (row ∈ List.filter (claimable lane) rows') as Hf
      by (by rewrite list_elem_of_In, List.filter_In, <- list_elem_of_In).
    destruct (List.filter (claimable lane) rows'); [set_solver|cbn in Hcount; lia]. }
  unfold at_rest, leases_from in Hrest. rewrite Forall_forall in Hrest, Hdrained.
  assert (forall row, row ∈ rows' -> leased row = true -> row ∈ rows) as Hleases.
  { intros row Hin Hl. by destruct (Hrest row Hin Hl). }
  split; [by apply Forall_forall|]. split; [done|].
  intros row Hin Hclaim. pose proof Hin as [i Hi]%list_elem_of_lookup.
  destruct (Forall2_lookup_l _ _ _ _ _ Hsame Hi) as (row' & Hi' & Hid & Hlane).
  assert (row' ∈ rows') as Hin' by by eapply list_elem_of_lookup_2.
  exists row'. split; [apply find_row_elem; [apply Hwf'|done|done]|].
  apply not_true_iff_false. intros [Hq|Hl]%unfinished_spec.
  - assert (claimable lane row' = true) as Hc'; [|by rewrite (Hdrained row' Hin') in Hc'].
    apply andb_true_iff in Hclaim as [_ Hl]. apply andb_true_iff. rewrite Hlane. by rewrite has_status_spec.
  - assert (row' = row) as -> by (eapply ids_unique; [apply Hwf|by apply Hleases|done|done]).
    apply andb_true_iff in Hclaim as [Hq%has_status_spec _]. apply leased_spec in Hl. rewrite Hq in Hl.
    by destruct Hl.
Qed.
End Lanes.
