(* ===== verification/JobScenario.v ===== *)
(** * A concrete job session

    A JSON library, a clock and UUIDs to run the job repository and the
    coordinator on, and the theorems about them applied to sessions that run. *)

From S2P Require Import Prelude Store Jobs JobStore JobStoreLemmas JobStoreSpec.
From S2P Require Import JobLifecycle JobService JobServiceSpec JobLanes.

#[local] Open Scope string_scope.
#[local] Open Scope Z_scope.
#[local] Open Scope list_scope.

Definition brace : Ascii.ascii := Ascii.ascii_of_nat 123.

(** Objects are their text after the brace; every other value is [None]. *)
#[global] Instance TextJson : Json (option string) string := {|
  Value_Object := Some;
  as_object := id;
  json_to_string := fun o => Ok (String brace o);
  json_from_str := fun text =>
    match text with
    | String first o => if Ascii.eqb first brace then Ok (Some o) else Ok None
    | EmptyString => Ok None
    end
|}.

#[global] Instance TextJson_spec : JsonSpec (option string) string.
Proof. split; [done|]. by intros o text [= <-]. Qed.

#[global] Instance CountingClock : SqliteClock := {| current_timestamp := Z.of_nat |}.
#[global] Instance CountingIds : ExecutionIds := {| execution_uuid := fun n => pretty n |}.
#[global] Instance CountingIds_spec : ExecutionIdsSpec.
Proof. split. intros a b Hab. by apply (inj pretty) in Hab. Qed.

Notation Op := (RepositoryOp (object := string)).

Definition scan_definition : JobDefinition := mkJobDefinition "library.scan" 1 Local true Replace.
Definition tag_definition : JobDefinition := mkJobDefinition "assistant.model-tagging" 1 Provider false Replace.

Definition scan_job (id : string) : NewJob string := mkNewJob id scan_definition "}" None.
Definition tag_job (id : string) : NewJob string := mkNewJob id tag_definition "}" None.

Definition empty_jobs : SqliteJobs := mkSqliteJobs [] 0 0 [].

(** Two scans and one tagging run are queued, and the first scan is claimed. *)
Definition session_ops : list Op :=
  [Op_create (scan_job "a"); Op_create (tag_job "b"); Op_create (scan_job "c"); Op_claim_next Local].
Definition session : SqliteJobs := run_ops session_ops empty_jobs.

Lemma session_wf : table_wf (object := string) (value := option string) (position session).
Proof.
  unfold session. eapply (run_ops_ind (value := option string) (fun _ => True)); [|done..].
  split; cbn; [constructor|constructor|constructor|set_solver].
Qed.

(** The claim the session handed out, and its end. *)
Definition first_claim : JobClaim string :=
  match claim_next (object := string) Local (run_ops (take 3 session_ops) empty_jobs) with
  | (Ok (Some claim), _) => claim
  | _ => mkJobClaim (mkJobRecord "" "" Queued "" None None 0 None "" "" 0 None 0 0 None None Local 1 false
           Replace None) ""
  end.

Lemma job_table_stays_well_formed_witness :
  table_wf (value := option string) (object := string)
    (position (run_ops session_ops (mkSqliteJobs [] 0 0 [NoFault; FailAfter "disk"; FailBefore "busy"]))).
Proof. apply job_table_stays_well_formed. right. reflexivity. Defined.

Lemma jobs_follow_the_life_cycle_witness :
  exists row row', head (jobs_table session) = Some row /\ row_status row = "running" /\
    find_row "a" (jobs_table (run_ops (object := string) [Op_finish first_claim (Finish_Succeeded "}")] session))
      = Some row' /\ row_status row' = "succeeded" /\ row_descends row row'.
Proof.
  destruct (head (jobs_table session)) as [row|] eqn:Hrow; [|vm_compute in Hrow; discriminate Hrow].
  destruct (jobs_follow_the_life_cycle (value := option string)
    [Op_finish first_claim (Finish_Succeeded "}")] session row session_wf) as (row' & Hfind & Hdesc).
  { destruct (jobs_table session); [discriminate Hrow|]. injection Hrow as ->. left. }
  exists row, row'.
  assert (row_id row = "a") as Hid by (vm_compute in Hrow; injection Hrow as <-; reflexivity).
  rewrite Hid in Hfind. split; [reflexivity|].
  split; [vm_compute in Hrow; injection Hrow as <-; reflexivity|].
  split; [exact Hfind|]. split; [vm_compute in Hfind; injection Hfind as <-; reflexivity|exact Hdesc].
Defined.

Lemma lost_leases_stay_lost_witness :
  let finished := run_op (object := string) (Op_finish first_claim (Finish_Failed "boom")) session in
  let after := run_ops [Op_claim_next Local; Op_recover ∅] finished in
  lease_of (jobs_table after) "a" "0" = Lease_Lost /\
  jobs_table (run_op (Op_update_progress first_claim (mkJobProgress 1 (Some 2%N) "Scanning" "half")) after)
    = jobs_table after /\
  jobs_table (run_op (Op_checkpoint first_claim "}") after) = jobs_table after /\
  jobs_table (run_op (Op_finish first_claim (Finish_Succeeded "}")) after) = jobs_table after.
Proof.
  apply (lost_leases_stay_lost (value := option string) [Op_claim_next Local; Op_recover ∅]
    (run_op (Op_finish first_claim (Finish_Failed "boom")) session) first_claim 0).
  - apply run_op_wf. apply session_wf.
  - vm_compute. lia.
  - vm_compute. reflexivity.
  - vm_compute. reflexivity.
Defined.

Lemma claims_serve_the_queue_in_order_witness :
  exists claim, (claim_next (object := string) Provider session).1 = Ok (Some claim) /\
    job_id (claim_job claim) = "b" /\
    exists row now, next_in_lane Provider (jobs_table session) row /\
      jobs_table (claim_next (object := string) Provider session).2 =
        started (jobs_table session) row "1" now.
Proof.
  pose proof (claims_serve_the_queue_in_order (value := option string) Provider session _ _ session_wf
    (surjective_pairing _)) as Hclaim.
  destruct (claim_next (object := string) Provider session) as [[[claim|]|e] db'] eqn:Hrun;
    [|vm_compute in Hrun; discriminate Hrun..].
  exists claim. split; [reflexivity|]. split; [vm_compute in Hrun; injection Hrun as <- _; reflexivity|].
  destruct Hclaim as (row & now & [Hnext Htable] & _). exists row, now. split; [exact Hnext|exact Htable].
Defined.

Lemma recovery_settles_every_lease_witness :
  (recover_interrupted {["library.scan" := scan_definition]} session).1 = Ok 1%nat /\
  Forall2 (recovered {["library.scan" := scan_definition]}) (jobs_table session)
    (jobs_table (recover_interrupted {["library.scan" := scan_definition]} session).2) /\
  map row_status (jobs_table (recover_interrupted {["library.scan" := scan_definition]} session).2)
    = ["queued"; "queued"; "queued"].
Proof.
  pose proof (recovery_settles_every_lease (value := option string) (object := string)
    {["library.scan" := scan_definition]} session _ _ session_wf (surjective_pairing _)) as Hrec.
  destruct (recover_interrupted {["library.scan" := scan_definition]} session) as [[n|e] db'] eqn:Hrun;
    [|vm_compute in Hrun; discriminate Hrun].
  destruct Hrec as [Hn [Hall _]]. split; [rewrite Hn; vm_compute; reflexivity|]. split; [exact Hall|].
  vm_compute in Hrun. injection Hrun as _ <-. vm_compute. reflexivity.
Defined.

(* ------------------------------------------------------------------ *)
(** ** The coordinator *)

(** Reports progress, checks for cancellation, and answers an object. *)
Definition scan_program : handler_program (option string) string :=
  let stop e := Return (Err (from_execution e)) in
  UpdateProgress (mkJobProgress 1 (Some 2%N) "Scanning" "half") (fun r =>
    match r with
    | Err e => stop e
    | Ok _ => Checkpoint "half}" (fun r =>
        match r with
        | Err e => stop e
        | Ok _ => CheckCancelled (fun r =>
            match r with Err e => stop e | Ok _ => Return (Ok (Some "done}")) end)
        end)
    end).

Definition scan_handler : JobHandler (option string) string :=
  mkJobHandler scan_definition (fun _ _ => scan_program).

Definition scan_registry : JobRegistry (option string) string :=
  mkJobRegistry {["library.scan" := scan_definition]} {["library.scan" := scan_handler]}.

Lemma reported_from_execution e : reported (from_execution e) = Some e.
Proof. by destruct e. Qed.

Lemma scan_registry_honest : honest_registry scan_registry.
Proof.
  intros kind handler Hhandler context parameters. unfold registry_handler, scan_registry in Hhandler.
  cbn in Hhandler. apply lookup_singleton_Some in Hhandler as [_ <-].
  assert (forall (e : JobExecutionError) seen,
    honest (value := option string) (object := string) (e :: seen) (Return (Err (from_execution e)))) as Hstop.
  { intros e seen. cbn. rewrite reported_from_execution. intros _. left. }
  unfold honest in *. cbn [handler_execute scan_handler scan_program honest_about]. split; [split; vm_compute; discriminate|].
  intros [|e]; [|apply Hstop]. intros [|e]; [|apply Hstop]. intros [|e]; [exact I|apply Hstop].
Qed.

(** While the first scan runs, its cancellation is requested from outside. *)
Definition cancel_poll : Poll SqliteJobs :=
  mkPoll (run_ops (object := string) [Op_request_cancellation "a"]) false false.
Definition cancelled_runner : Runner SqliteJobs := mkRunner session false [cancel_poll].

Lemma executed_claims_release_their_lease_witness :
  exists runner', execute_claim scan_registry first_claim cancelled_runner = (Ok (), runner') /\
    lost first_claim (runner_store runner') /\
    map row_status (jobs_table (runner_store runner')) = ["cancelled"; "queued"; "queued"].
Proof.
  destruct (execute_claim scan_registry first_claim cancelled_runner) as [returned runner'] eqn:Hrun.
  assert (returned = Ok ()) as Hok by (vm_compute in Hrun; injection Hrun as <- _; reflexivity).
  exists runner'. rewrite Hok in Hrun |- *. split; [reflexivity|]. split.
  - apply (executed_claims_release_their_lease scan_registry first_claim cancelled_runner runner').
    + apply honest_reports_losses, scan_registry_honest.
    + split; [apply session_wf| |].
      * exists 0%nat. split; [vm_compute; lia|vm_compute; reflexivity].
      * constructor; [|constructor]. by eexists.
    + exact Hrun.
  - vm_compute in Hrun. injection Hrun as <-. vm_compute. reflexivity.
Defined.

Definition queued_session : SqliteJobs := run_ops (take 3 session_ops) empty_jobs.

Lemma queued_session_wf : table_wf (object := string) (value := option string) (position queued_session).
Proof.
  apply (run_ops_ind (value := option string) (fun _ => True) (take 3 session_ops) empty_jobs); [|done..].
  split; cbn; [constructor|constructor|constructor|set_solver].
Qed.

Lemma lanes_work_off_their_queue_witness :
  exists rows' clock' uuids',
    run_lane 3 scan_registry Local (undisturbed (jobs_table queued_session) 3 0) =
      (Lane_waiting, undisturbed rows' clock' uuids') /\
    map row_status rows' = ["succeeded"; "queued"; "succeeded"].
Proof.
  destruct (lanes_work_off_their_queue scan_registry Local (jobs_table queued_session) 3 0 3)
    as (rows' & clock' & uuids' & Hrun & _).
  - intros o. by eexists.
  - apply scan_registry_honest.
  - exact queued_session_wf.
  - apply Forall_forall. intros row Hin%list_elem_of_In _. apply Z.ltb_lt. revert row Hin.
    apply forallb_forall. vm_compute. reflexivity.
  - vm_compute. lia.
  - exists rows', clock', uuids'. split; [exact Hrun|].
    vm_compute in Hrun. injection Hrun as <- _ _. vm_compute. reflexivity.
Defined.
