(* ===== verification/JobTiming.v ===== *)
(** * Job timing reports

    [crates/music-application/src/jobs/timing.rs] and the query of
    [crates/music-storage/src/job_timing.rs]: the newest jobs grouped by lane
    and kind, with nearest-rank percentiles of queue wait and execution. *)

From S2P Require Import Prelude Store Jobs JobStore.

#[local] Open Scope string_scope.
#[local] Open Scope Z_scope.
#[local] Open Scope list_scope.

Definition MAX_JOB_TIMING_SAMPLE : Z := 10000.
Definition DEFAULT_JOB_TIMING_SAMPLE : Z := 1000.

Record JobTimingSample : Type := mkJobTimingSample {
  sample_kind : string;
  sample_lane : JobLane;
  sample_status : JobStatus;
  sample_attempts : N;
  sample_created_at : option Z;
  sample_started_at : option Z;
  sample_finished_at : option Z
}.

Record DurationSummary : Type := mkDurationSummary {
  measured : nat;
  unavailable : nat;
  p50 : option N;
  p95 : option N;
  summary_max : option N
}.

Record JobTimingGroup : Type := mkJobTimingGroup {
  group_lane : JobLane;
  group_kind : string;
  group_jobs : nat;
  group_statuses : gmap string nat;
  group_restarted_jobs : nat;
  group_queue_wait_seconds : DurationSummary;
  group_execution_seconds : DurationSummary
}.

Record JobTimingReport : Type := mkJobTimingReport {
  report_schema_version : N;
  report_timestamp_resolution_seconds : N;
  report_sample_limit : Z;
  report_sampled_jobs : nat;
  report_has_more : bool;
  report_groups : list JobTimingGroup
}.

(* ------------------------------------------------------------------ *)
(** ** Durations *)

(** [(values.len() * percent).div_ceil(100)], and the value of that rank. *)
Definition percentile (values : list N) (percent : nat) : option N :=
  let rank := ((length values * percent + 99) / 100)%nat in
  match rank with
  | O => None
  | S index => values !! index
  end.

(** [DurationSummary::new] *)
Definition DurationSummary_new (values : list (option N)) (total : nat) : DurationSummary :=
  let values := merge_sort N.le (omap id values) in {|
  measured := length values;
  unavailable := total - length values;
  p50 := percentile values 50;
  p95 := percentile values 95;
  summary_max := last values |}.

(** [value.filter(|value| *value >= 0)] *)
Definition non_negative (value : option Z) : option Z :=
  match value with Some v => if 0 <=? v then Some v else None | None => None end.

Definition elapsed (start end_ : option Z) : option N :=
  match non_negative start, non_negative end_ with
  | Some start, Some end_ => u64_try_from_i64 (end_ - start)
  | _, _ => None
  end.

(* ------------------------------------------------------------------ *)
(** ** The report *)

(** The order of the keys [(JobLane, &str)]. *)
Definition lane_leb (a b : JobLane) : bool :=
  match a, b with Provider, Local => false | _, _ => true end.
Definition timing_key (sample : JobTimingSample) : JobLane * string :=
  (sample_lane sample, sample_kind sample).
Definition key_le (a b : JobLane * string) : Prop :=
  if bool_decide (fst a = fst b) then string_leb (snd a) (snd b) = true
  else lane_leb (fst a) (fst b) = true.
#[global] Instance key_le_dec a b : Decision (key_le a b).
Proof. unfold key_le. case_match; apply _. Defined.

(** The keys of the [BTreeMap], in order, and each key's samples in theirs. *)
Definition timing_keys (samples : list JobTimingSample) : list (JobLane * string) :=
  merge_sort key_le (dedup (map timing_key samples)).
Definition samples_of (key : JobLane * string) (samples : list JobTimingSample)
    : list JobTimingSample := List.filter (fun sample => bool_decide (timing_key sample = key)) samples.

Definition count_status (statuses : gmap string nat) (sample : JobTimingSample) : gmap string nat :=
  let status := JobStatus_as_str (sample_status sample) in
  <[status := S (default 0%nat (statuses !! status))]> statuses.

Definition queue_wait (sample : JobTimingSample) : option N :=
  if (sample_attempts sample =? 1)%N && negb (bool_decide (sample_status sample = Queued))
  then elapsed (sample_created_at sample) (sample_started_at sample) else None.

Definition execution_time (sample : JobTimingSample) : option N :=
  if (sample_attempts sample =? 1)%N && negb (is_active (sample_status sample))
  then elapsed (sample_started_at sample) (sample_finished_at sample) else None.

Definition timing_group (key : JobLane * string) (samples : list JobTimingSample) : JobTimingGroup := {|
  group_lane := fst key;
  group_kind := snd key;
  group_jobs := length samples;
  group_statuses := foldl count_status ∅ samples;
  group_restarted_jobs := length (List.filter (fun sample => 1 <? sample_attempts sample)%N samples);
  group_queue_wait_seconds := DurationSummary_new (map queue_wait samples) (length samples);
  group_execution_seconds := DurationSummary_new (map execution_time samples) (length samples) |}.

Definition summarize_job_timing (samples : list JobTimingSample) (sample_limit : Z) (has_more : bool)
    : JobTimingReport := {|
  report_schema_version := 1;
  report_timestamp_resolution_seconds := 1;
  report_sample_limit := sample_limit;
  report_sampled_jobs := length samples;
  report_has_more := has_more;
  report_groups := map (fun key => timing_group key (samples_of key samples)) (timing_keys samples) |}.

Definition row_to_sample (row : JobRow) : result JobStorageError JobTimingSample :=
  lane ← map_err (fun _ => InvalidJobRecord "unknown lane") (JobLane_parse (row_lane row));
  status ← map_err (fun _ => InvalidJobRecord "unknown status") (JobStatus_parse (row_status row));
  attempts ← ok_or (InvalidJobRecord "invalid attempts") (u32_try_from_i64 (row_attempts row));
  Ok {|
    sample_kind := row_kind row;
    sample_lane := lane;
    sample_status := status;
    sample_attempts := attempts;
    sample_created_at := Some (row_created_at row);
    sample_started_at := row_started_at row;
    sample_finished_at := row_finished_at row |}.

(** The report of a table; [None] stands for the option error on the limit. *)
Definition read_job_timing_report (limit : Z) (rows : list JobRow)
    : option (result JobStorageError JobTimingReport) :=
  if negb ((1 <=? limit) && (limit <=? MAX_JOB_TIMING_SAMPLE)) then None
  else
    let rows := take (Z.to_nat (limit + 1)) (newest_first rows) in
    let has_more := limit <? Z.of_nat (length rows) in
    Some (samples ← result_collect row_to_sample (take (Z.to_nat limit) rows);
          Ok (summarize_job_timing samples limit has_more)).

(* ------------------------------------------------------------------ *)
(** ** Nearest rank *)

#[global] Instance N_le_trans : Transitive N.le.
Proof. intros a b c. lia. Qed.
#[global] Instance N_le_total : Total N.le.
Proof. intros a b. lia. Qed.

Definition count (p : N -> bool) (values : list N) : nat := length (List.filter p values).

#[global] Instance count_proper p : Proper (Permutation ==> eq) (count p).
Proof.
  intros a b. unfold count. induction 1 as [|x a b _ IH|x y a|a b c _ IH1 _ IH2]; cbn; try done.
  - destruct (p x); cbn; congruence.
  - destruct (p x), (p y); done.
  - congruence.
Qed.

Lemma sorted_rank values i v :
  StronglySorted N.le values -> values !! i = Some v ->
  (i < count (fun x => x <=? v)%N values)%nat /\ (count (fun x => x <? v)%N values <= i)%nat.
Proof.
  unfold count. revert i. induction values as [|x values IH]; intros i Hs Hi; [done|].
  apply StronglySorted_inv in Hs as [Hs Hall]. rewrite Forall_forall in Hall.
  destruct i as [|i]; cbn in Hi.
  - injection Hi as ->. cbn. rewrite N.leb_refl, N.ltb_irrefl. cbn. split; [lia|].
    assert (List.filter (fun x => (x <? v)%N) values = []) as ->; [|done].
    clear IH Hs. induction values as [|y values IH]; [done|]. cbn.
    assert (v <= y)%N as Hv by (apply Hall; set_solver).
    rewrite (proj2 (N.ltb_ge y v)) by done. apply IH. set_solver.
  - destruct (IH i Hs Hi) as [Hle Hlt]. apply list_elem_of_lookup_2 in Hi as Hin.
    specialize (Hall v Hin). cbn. rewrite (proj2 (N.leb_le x v)) by done. cbn.
    split; [lia|]. destruct (x <? v)%N; cbn; lia.
Qed.

Lemma omap_id_length (values : list (option N)) : (length (omap id values) <= length values)%nat.
Proof. induction values as [|[v|] values IH]; cbn; lia. Qed.

Lemma percentile_bounds values percent v :
  StronglySorted N.le values -> percentile values percent = Some v ->
  v ∈ values /\
  (length values * percent <= 100 * count (fun x => x <=? v)%N values)%nat /\
  (100 * count (fun x => x <? v)%N values < length values * percent)%nat.
Proof.
  unfold percentile. intros Hs Hv.
  set (n := (length values * percent)%nat) in *.
  pose proof (Nat.div_mod (n + 99) 100 ltac:(lia)) as Hdiv.
  pose proof (Nat.mod_upper_bound (n + 99) 100 ltac:(lia)) as Hmod.
  destruct ((n + 99) / 100)%nat as [|index]; [done|].
  destruct (sorted_rank _ _ _ Hs Hv) as [Hle Hlt].
  split; [by eapply list_elem_of_lookup_2|]. lia.
Qed.

Lemma percentile_some values percent :
  (0 < percent <= 100)%nat -> values <> [] -> is_Some (percentile values percent).
Proof.
  intros Hp Hne. unfold percentile. destruct values as [|x values]; [done|].
  set (l := x :: values) in *. assert (0 < length l)%nat by (cbn; lia).
  pose proof (Nat.div_mod (length l * percent + 99) 100 ltac:(lia)) as Hdiv.
  pose proof (Nat.mod_upper_bound (length l * percent + 99) 100 ltac:(lia)) as Hmod.
  assert (length l <= length l * percent)%nat by nia.
  assert (length l * percent <= 100 * length l)%nat by nia.
  destruct ((length l * percent + 99) / 100)%nat as [|index]; [lia|].
  apply lookup_lt_is_Some. lia.
Qed.

(** The measured values of a summary. *)
Definition measured_values (values : list (option N)) : list N := omap id values.

(** A duration summary counts every job once, as measured or unavailable;
    it has percentiles exactly when something was measured, and its [p]-th
    percentile is a measured value such that at least [p] percent of the values
    are not above it and fewer than [p] percent are below it. *)
Theorem percentiles_are_nearest_rank (values : list (option N)) :
  let summary := DurationSummary_new values (length values) in
  let ranked percent p := match p with
    | Some v => v ∈ measured_values values /\
        (length (measured_values values) * percent <= 100 * count (fun x => x <=? v)%N (measured_values values))%nat /\
        (100 * count (fun x => x <? v)%N (measured_values values) < length (measured_values values) * percent)%nat
    | None => measured_values values = []
    end in
  (measured summary + unavailable summary = length values)%nat /\
  measured summary = length (measured_values values) /\
  ranked 50%nat (p50 summary) /\ ranked 95%nat (p95 summary) /\ ranked 100%nat (summary_max summary).
Proof.
  set (sorted := merge_sort N.le (omap id values)).
  assert (sorted ≡ₚ measured_values values) as Hperm by apply merge_sort_Permutation.
  assert (StronglySorted N.le sorted) as Hsorted by (apply StronglySorted_merge_sort; apply _).
  assert (forall percent v, percentile sorted percent = Some v ->
    v ∈ measured_values values /\
    (length (measured_values values) * percent <= 100 * count (fun x => x <=? v)%N (measured_values values))%nat /\
    (100 * count (fun x => x <? v)%N (measured_values values) < length (measured_values values) * percent)%nat)
    as Hrank.
  { intros percent v Hv. rewrite <- Hperm. by apply percentile_bounds. }
  assert (forall percent, (0 < percent <= 100)%nat -> percentile sorted percent = None ->
    measured_values values = []) as Hnone.
  { intros percent Hp Hv. destruct (decide (sorted = [])) as [Heq|Hne].
    - rewrite Heq in Hperm. by apply Permutation_nil_l in Hperm.
    - apply (percentile_some _ percent) in Hne as [v Hv']; [congruence|done]. }
  assert (last sorted = percentile sorted 100) as Hlast.
  { unfold percentile. rewrite last_lookup.
    assert ((length sorted * 100 + 99) / 100 = length sorted)%nat as ->.
    { symmetry. apply (Nat.div_unique _ 100 _ 99); lia. }
    by destruct sorted. }
  cbv zeta. unfold DurationSummary_new. cbn [measured unavailable p50 p95 summary_max].
  fold sorted. rewrite Hlast.
  pose proof (omap_id_length values) as Hlen. unfold measured_values in Hperm.
  split; [rewrite Hperm; lia|]. split; [by rewrite Hperm|].
  assert (forall percent, (0 < percent <= 100)%nat ->
    match percentile sorted percent with
    | Some v => v ∈ measured_values values /\
        (length (measured_values values) * percent <= 100 * count (fun x => x <=? v)%N (measured_values values))%nat /\
        (100 * count (fun x => x <? v)%N (measured_values values) < length (measured_values values) * percent)%nat
    | None => measured_values values = []
    end) as Hall.
  { intros percent Hp. destruct (percentile sorted percent) as [v|] eqn:Hv; [by apply Hrank|by eapply Hnone]. }
  split; [|split]; apply Hall; lia.
Qed.
