(* ===== verification/Text.v ===== *)
(** * Text

    The parts of Rust's [str] and of the Unicode crates that rules over text
    use: the characters of a string, its words, decimal numbers, and, as the
    class [Unicode], the normalisation, case folding and categories the crates
    [unicode-normalization], [unicode-casefold] and
    [unicode-general-category] provide. *)

From S2P Require Import Prelude.
From Stdlib Require Import DecimalString DecimalN DecimalPos.

#[local] Open Scope string_scope.
#[local] Open Scope list_scope.

(* ------------------------------------------------------------------ *)
(** ** Characters *)

(** A [char] is its UTF-8 encoding. *)
Abbreviation char := string (only parsing).

Definition begins_with_continuation (s : string) : bool :=
  match s with String first _ => is_continuation first | EmptyString => false end.

(** [s.chars()]: a character begins at every byte that continues none. *)
Fixpoint chars (s : string) : list char :=
  match s with
  | EmptyString => []
  | String byte rest =>
      match chars rest with
      | character :: characters =>
          if begins_with_continuation character then String byte character :: characters
          else String byte "" :: character :: characters
      | [] => [String byte ""]
      end
  end.

Fixpoint bytes_of (s : string) : list N :=
  match s with EmptyString => [] | String byte rest => byte_of byte :: bytes_of rest end.

(** [char::is_whitespace]: the characters with the property White_Space, by
    their UTF-8 bytes. *)
Definition is_whitespace (character : char) : bool :=
  match bytes_of character with
  | [b] => ((9 <=? b) && (b <=? 13) || (b =? 32))%N
  | [194; b]%N => ((b =? 133) || (b =? 160))%N
  | [225; 154; b]%N => (b =? 128)%N
  | [226; 128; b]%N =>
      ((128 <=? b) && (b <=? 138) || (b =? 168) || (b =? 169) || (b =? 175))%N
  | [226; 129; b]%N => (b =? 159)%N
  | [227; 128; b]%N => (b =? 128)%N
  | _ => false
  end.

Definition emit_word (word : string) : list string :=
  match word with EmptyString => [] | _ => [word] end.

(** [s.split_whitespace()] *)
Fixpoint words_from (word : string) (characters : list char) : list string :=
  match characters with
  | [] => emit_word word
  | character :: characters =>
      if is_whitespace character then emit_word word ++ words_from "" characters
      else words_from (word +:+ character) characters
  end.
Definition split_whitespace (s : string) : list string := words_from "" (chars s).

(** [words.collect::<Vec<_>>().join(separator)] *)
Fixpoint join_with (separator : string) (words : list string) : string :=
  match words with
  | [] => ""
  | [word] => word
  | word :: words => word +:+ separator +:+ join_with separator words
  end.

(** [(lo..=hi).contains(&text.chars().count())] *)
Definition chars_within (lo hi : nat) (text : string) : bool :=
  (lo <=? chars_count text)%nat && (chars_count text <=? hi)%nat.

(* ------------------------------------------------------------------ *)
(** ** Unicode *)

(** [GeneralCategory] of the crate, the classes of the Unicode standard. *)
Inductive GeneralCategory : Type :=
| UppercaseLetter | LowercaseLetter | TitlecaseLetter | ModifierLetter | OtherLetter
| NonspacingMark | SpacingMark | EnclosingMark
| DecimalNumber | LetterNumber | OtherNumber
| ConnectorPunctuation | DashPunctuation | OpenPunctuation | ClosePunctuation
| InitialPunctuation | FinalPunctuation | OtherPunctuation
| MathSymbol | CurrencySymbol | ModifierSymbol | OtherSymbol
| SpaceSeparator | LineSeparator | ParagraphSeparator
| Control | Format | PrivateUse | Surrogate | Unassigned.

Class Unicode : Type := {
  (** [s.nfkc().collect::<String>()] *)
  nfkc : string -> string;
  (** [s.case_fold().collect::<String>()] *)
  case_fold : string -> string;
  get_general_category : char -> GeneralCategory
}.

(** [hex::encode(Sha256::digest(bytes))] *)
Class Sha256 : Type := { sha256_hex : string -> string }.

(* ------------------------------------------------------------------ *)
(** ** Decimal numbers *)

(** [n.to_string()] on an unsigned integer. *)
Definition decimal (n : N) : string := NilZero.string_of_uint (N.to_uint n).

(** [text.parse()] for digits only. *)
Definition parse_decimal (text : string) : option N :=
  N.of_uint <$> NilZero.uint_of_string text.

(** [n.to_string()] on a signed integer. *)
Definition decimal_Z (z : Z) : string :=
  match z with
  | Z0 => "0"
  | Zpos p => decimal (Npos p)
  | Zneg p => "-" +:+ decimal (Npos p)
  end.

Lemma parse_decimal_of n : parse_decimal (decimal n) = Some n.
Proof.
  unfold parse_decimal, decimal. rewrite NilZero.usu.
  - cbn. by rewrite DecimalN.Unsigned.of_to.
  - destruct n as [|p]; [done|]. apply DecimalPos.Unsigned.to_uint_nonnil.
Qed.

Lemma decimal_inj m n : decimal m = decimal n -> m = n.
Proof. intros Heq. apply (f_equal parse_decimal) in Heq. rewrite !parse_decimal_of in Heq. congruence. Qed.

(** The first byte of a number's text is a digit. *)
Lemma decimal_head n : match decimal n with
  | String byte _ => (48 <= byte_of byte <= 57)%N
  | EmptyString => False
  end.
Proof.
  unfold decimal. destruct (N.to_uint n); cbn; unfold byte_of; cbn; lia.
Qed.

Lemma decimal_Z_inj x y : decimal_Z x = decimal_Z y -> x = y.
Proof.
  assert (forall p q, decimal (Npos p) <> "-" +:+ decimal (Npos q)) as Hsign.
  { intros p q Heq. pose proof (decimal_head (Npos p)) as Hd. rewrite Heq in Hd.
    destruct Hd as [Hd _]. by vm_compute in Hd. }
  assert (decimal 0 = "0") as H0 by reflexivity.
  destruct x as [|p|p], y as [|q|q]; cbn [decimal_Z]; intros Heq; try done.
  - rewrite <- H0 in Heq. by apply decimal_inj in Heq.
  - rewrite <- H0 in Heq. by apply decimal_inj in Heq.
  - apply decimal_inj in Heq. congruence.
  - by apply Hsign in Heq.
  - by symmetry in Heq; apply Hsign in Heq.
  - cbn in Heq. injection Heq as Heq. apply decimal_inj in Heq. congruence.
Qed.

(* ------------------------------------------------------------------ *)
(** ** Laws *)

Lemma chars_concat s : String.concat "" (chars s) = s.
Proof.
  induction s as [|byte s IH]; [done|]. cbn [chars].
  destruct (chars s) as [|c cs]; cbn in IH.
  - by subst s.
  - destruct (begins_with_continuation c).
    + rewrite <- IH. by destruct cs.
    + rewrite <- IH. by destruct cs.
Qed.

(** A character is a byte and the continuation bytes that follow it. *)
Lemma chars_heads s : Forall (fun c => begins_with_continuation c = false) (tail (chars s)).
Proof.
  induction s as [|byte s IH]; [constructor|]. cbn [chars].
  destruct (chars s) as [|c cs]; [constructor|].
  destruct (begins_with_continuation c) eqn:Hc; cbn in IH |- *; [done|by constructor].
Qed.

(** A text that begins with a character has as many characters as bytes that
    begin one. *)
Lemma chars_length s :
  begins_with_continuation s = false -> length (chars s) = chars_count s.
Proof.
  assert (forall s, length (chars s) =
    (if begins_with_continuation s then 1 else 0) + chars_count s) as Hgen.
  { clear s. induction s as [|byte s IH]; [done|]. cbn.
    destruct (chars s) as [|c cs] eqn:Hs.
    - destruct s as [|b s]; [by destruct (is_continuation byte)|].
      cbn in Hs. destruct (chars s); [done|]. by destruct (begins_with_continuation _).
    - assert (begins_with_continuation c = begins_with_continuation s) as ->.
      { destruct s as [|b s]; [done|]. cbn in Hs.
        destruct (chars s); [by injection Hs as <- _|].
        destruct (begins_with_continuation _); by injection Hs as <- _. }
      destruct (begins_with_continuation s) eqn:Hb; cbn in IH |- *;
        destruct (is_continuation byte); lia. }
  intros Hs. by rewrite Hgen, Hs.
Qed.

(** The words are not empty. *)
Lemma words_from_nonempty word characters : Forall (fun w => w <> "") (words_from word characters).
Proof.
  assert (forall w, Forall (fun w => w <> "") (emit_word w)) as Hemit
    by (intros []; cbn; repeat constructor; done).
  revert word. induction characters as [|c cs IH]; intros word; cbn; [done|].
  destruct (is_whitespace c); [apply Forall_app; auto | auto].
Qed.

(* ------------------------------------------------------------------ *)
(** ** Bits as text

    A text for any countable value, for concrete codecs. *)

Definition zero_char : Ascii.ascii := Ascii.ascii_of_nat 48.
Definition one_char : Ascii.ascii := Ascii.ascii_of_nat 49.
Fixpoint bools_text (bools : list bool) : string :=
  match bools with
  | [] => ""
  | b :: bools => String (if b then one_char else zero_char) (bools_text bools)
  end.
Fixpoint text_bools (text : string) : list bool :=
  match text with
  | "" => []
  | String a text => Ascii.eqb a one_char :: text_bools text
  end.

Lemma text_bools_text bools : text_bools (bools_text bools) = bools.
Proof. induction bools as [|[] bools IH]; cbn [bools_text text_bools]; rewrite ?IH; reflexivity. Qed.

Fixpoint positive_bools (p : positive) : list bool :=
  match p with xH => [] | xO p => false :: positive_bools p | xI p => true :: positive_bools p end.
Fixpoint bools_positive (bools : list bool) : positive :=
  match bools with [] => xH | false :: bools => xO (bools_positive bools) | true :: bools => xI (bools_positive bools) end.

Lemma bools_positive_bools p : bools_positive (positive_bools p) = p.
Proof. induction p; cbn; congruence. Qed.
