(* ===== verification/MediaPath.v ===== *)
(** * Media paths

    [crates/music-domain/src/media_path.rs]: the canonical, relative, POSIX
    paths of the library and the SFX roots. A [String] is its UTF-8 bytes. *)

From S2P Require Import Prelude.

#[local] Open Scope nat_scope.

(** [MAX_MEDIA_PATH_BYTES] *)
Definition MAX_MEDIA_PATH_BYTES : nat := 1024.

Inductive LibraryMedia : Type := .
Inductive SfxMedia : Type := .

(** The marker distinguishes the roots; the data is the encoded text. *)
Record RootedMediaPath (Kind : Type) : Type := mkRootedMediaPath { encoded : string }.
Arguments mkRootedMediaPath {Kind} _.
Arguments encoded {Kind} _.

Definition LibraryPath : Type := RootedMediaPath LibraryMedia.
Definition SfxPath : Type := RootedMediaPath SfxMedia.

Inductive MediaPathError : Type :=
| Path_Empty
| Path_TooLong
| Path_Absolute
| Path_PlatformSeparator
| Path_EmptyComponent
| Path_CurrentDirectoryComponent
| Path_ParentDirectoryComponent
| Path_PlatformPrefix
| Path_ControlCharacter.

Definition MediaPathError_fmt (error : MediaPathError) : string :=
  match error with
  | Path_Empty => "media path must not be empty"
  | Path_TooLong => "media path exceeds 1024 UTF-8 bytes"
  | Path_Absolute => "media path must be relative"
  | Path_PlatformSeparator => "media path must use forward slashes"
  | Path_EmptyComponent => "media path contains an empty component"
  | Path_CurrentDirectoryComponent => "media path contains a current-directory component"
  | Path_ParentDirectoryComponent => "media path contains a parent-directory component"
  | Path_PlatformPrefix => "media path contains a platform-specific path prefix"
  | Path_ControlCharacter => "media path contains a control character"
  end.

(* ------------------------------------------------------------------ *)
(** ** Text *)

Definition slash : Ascii.ascii := Ascii.ascii_of_nat 47.
Definition backslash : Ascii.ascii := Ascii.ascii_of_nat 92.
Definition colon : Ascii.ascii := Ascii.ascii_of_nat 58.
Definition dot : Ascii.ascii := Ascii.ascii_of_nat 46.

(** [value.contains(c)] for an ASCII [c]. *)
Fixpoint contains_char (c : Ascii.ascii) (value : string) : bool :=
  match value with
  | EmptyString => false
  | String first rest => Ascii.eqb first c || contains_char c rest
  end.

(** [value.starts_with(c)] *)
Definition starts_with_char (c : Ascii.ascii) (value : string) : bool :=
  match value with String first _ => Ascii.eqb first c | EmptyString => false end.

(** [value.chars().any(char::is_control)]: U+0000 to U+001F, U+007F, and
    U+0080 to U+009F, which UTF-8 writes as C2 80 to C2 9F. *)
Fixpoint any_control (value : string) : bool :=
  match value with
  | EmptyString => false
  | String first rest =>
      (byte_of first <? 32)%N || (byte_of first =? 127)%N ||
      ((byte_of first =? 194)%N &&
       match rest with String second _ => (128 <=? byte_of second)%N && (byte_of second <? 160)%N
       | EmptyString => false end) ||
      any_control rest
  end.

(** [value.split(c)] *)
Fixpoint split_on (c : Ascii.ascii) (value : string) : list string :=
  match value with
  | EmptyString => [EmptyString]
  | String first rest =>
      if Ascii.eqb first c then EmptyString :: split_on c rest
      else match split_on c rest with
           | component :: components => String first component :: components
           | [] => [String first EmptyString]
           end
  end.

(** [value.rsplit_once(c)] *)
Fixpoint rsplit_once (c : Ascii.ascii) (value : string) : option (string * string) :=
  match value with
  | EmptyString => None
  | String first rest =>
      match rsplit_once c rest with
      | Some (before, after) => Some (String first before, after)
      | None => if Ascii.eqb first c then Some (EmptyString, rest) else None
      end
  end.

(* ------------------------------------------------------------------ *)
(** ** Validation *)

Definition is_ascii_alphabetic (c : Ascii.ascii) : bool :=
  (((65 <=? byte_of c) && (byte_of c <=? 90)) || ((97 <=? byte_of c) && (byte_of c <=? 122)))%N.

Definition has_windows_drive_prefix (component : string) : bool :=
  match component with
  | String first (String second _) => is_ascii_alphabetic first && Ascii.eqb second colon
  | _ => false
  end.

Definition validate_component (component : string) : result MediaPathError () :=
  if String.eqb component "" then Err Path_EmptyComponent
  else if String.eqb component "." then Err Path_CurrentDirectoryComponent
  else if String.eqb component ".." then Err Path_ParentDirectoryComponent
  else if has_windows_drive_prefix component then Err Path_PlatformPrefix
  else Ok ().

Fixpoint validate_components (components : list string) : result MediaPathError () :=
  match components with
  | [] => Ok ()
  | component :: components => validate_component component;; validate_components components
  end.

Definition validate (value : string) : result MediaPathError () :=
  if String.eqb value "" then Err Path_Empty
  else if MAX_MEDIA_PATH_BYTES <? String.length value then Err Path_TooLong
  else if starts_with_char slash value then Err Path_Absolute
  else if contains_char backslash value then Err Path_PlatformSeparator
  else if any_control value then Err Path_ControlCharacter
  else validate_components (split_on slash value).

(* ------------------------------------------------------------------ *)
(** ** Operations *)

Section Operations.
Context {Kind : Type}.
Implicit Types path : RootedMediaPath Kind.

(** [RootedMediaPath::parse]; [FromStr] and [TryFrom<String>] call it. *)
Definition path_parse (value : string) : result MediaPathError (RootedMediaPath Kind) :=
  validate value;; Ok (mkRootedMediaPath value).

Definition as_str path : string := encoded path.

Definition file_name path : string :=
  match rsplit_once slash (encoded path) with
  | Some (_, name) => name
  | None => encoded path
  end.

Definition parent path : option (RootedMediaPath Kind) :=
  (fun split => mkRootedMediaPath split.1) <$> rsplit_once slash (encoded path).

Definition join path (descendant : string) : result MediaPathError (RootedMediaPath Kind) :=
  path_parse (encoded path +:+ String slash descendant).

(** [name.rfind('.')] and the slice before it. *)
Definition file_stem path : string :=
  let name := file_name path in
  match rsplit_once dot name with
  | Some (stem, _) => if 0 <? String.length stem then stem else name
  | None => name
  end.

Definition with_extension path (extension : string) : result MediaPathError (RootedMediaPath Kind) :=
  let name := file_stem path +:+ String dot extension in
  match parent path with
  | None => path_parse name
  | Some parent => join parent name
  end.
End Operations.

(* ------------------------------------------------------------------ *)
(** * What a media path is *)

#[local] Open Scope nat_scope.

(* ------------------------------------------------------------------ *)
(** ** Text *)

Lemma app_cons first a b : String first a +:+ b = String first (a +:+ b).
Proof. reflexivity. Qed.
Lemma app_nil b : "" +:+ b = b.
Proof. reflexivity. Qed.
Hint Rewrite app_cons app_nil : text.

Lemma app_assoc_str a b c : a +:+ (b +:+ c) = (a +:+ b) +:+ c.
Proof. induction a as [|first a IH]; [done|]. by rewrite !app_cons, IH. Qed.

Lemma app_length_str a b : String.length (a +:+ b) = String.length a + String.length b.
Proof. induction a as [|first a IH]; [done|]. rewrite app_cons. cbn. by rewrite IH. Qed.

Lemma contains_app c a b : contains_char c (a +:+ b) = contains_char c a || contains_char c b.
Proof. induction a as [|first a IH]; [done|]. rewrite app_cons. cbn. by rewrite IH, orb_assoc. Qed.

Lemma any_control_slash a b :
  any_control (a +:+ String slash b) = any_control a || any_control b.
Proof.
  induction a as [|first a IH]; [done|]. rewrite app_cons. cbn [any_control]. rewrite IH.
  destruct a as [|second a]; rewrite ?app_nil, ?app_cons; [|by rewrite orb_assoc].
  change (any_control "") with false. rewrite (andb_false_r (byte_of first =? 194)%N).
  change ((128 <=? byte_of slash)%N && (byte_of slash <? 160)%N) with false.
  by rewrite andb_false_r, !orb_false_r.
Qed.

(** [components.join("/")] *)
Fixpoint intercalate (components : list string) : string :=
  match components with
  | [] => ""
  | [component] => component
  | component :: components => component +:+ String slash (intercalate components)
  end.

Lemma intercalate_cons component components :
  components <> [] -> intercalate (component :: components) = component +:+ String slash (intercalate components).
Proof. by destruct components. Qed.

Lemma intercalate_snoc components component :
  components <> [] -> intercalate (components ++ [component]) = intercalate components +:+ String slash component.
Proof.
  induction components as [|first components IH]; [done|]. intros _.
  destruct components as [|second components]; [done|].
  change ((first :: second :: components) ++ [component]) with (first :: ((second :: components) ++ [component])).
  rewrite intercalate_cons by (by destruct components). rewrite IH by done.
  rewrite (intercalate_cons first) by done. rewrite <- app_assoc_str. reflexivity.
Qed.

Lemma split_on_nonempty c value : split_on c value <> [].
Proof.
  destruct value as [|first rest]; [done|]. cbn. destruct (Ascii.eqb first c); [done|].
  by destruct (split_on c rest).
Qed.

Lemma intercalate_split value : intercalate (split_on slash value) = value.
Proof.
  induction value as [|first rest IH]; [done|]. cbn.
  destruct (Ascii.eqb_spec first slash) as [->|Hne].
  - rewrite intercalate_cons by apply split_on_nonempty. by rewrite IH.
  - destruct (split_on slash rest) as [|component components] eqn:Hs; [by apply split_on_nonempty in Hs|].
    destruct components as [|next components]; cbn in *; [congruence|]. rewrite app_cons. congruence.
Qed.

Lemma split_on_free c value : Forall (fun component => contains_char c component = false) (split_on c value).
Proof.
  induction value as [|first rest IH]; cbn; [by repeat constructor|].
  destruct (Ascii.eqb first c) eqn:Hc; [by constructor|].
  destruct (split_on c rest) as [|component components]; [by repeat constructor; cbn; rewrite Hc|].
  apply Forall_cons in IH as [Hh Ht]. constructor; [|done]. cbn. by rewrite Hc.
Qed.

Lemma split_on_app c a b :
  contains_char c a = false -> split_on c (a +:+ String c b) = a :: split_on c b.
Proof.
  induction a as [|first a IH]; cbn; [by rewrite app_nil; cbn; rewrite Ascii.eqb_refl|].
  intros [Hf Ha]%orb_false_iff. rewrite app_cons. cbn. by rewrite Hf, IH.
Qed.

Lemma split_on_single c a : contains_char c a = false -> split_on c a = [a].
Proof.
  induction a as [|first a IH]; cbn; [done|]. intros [Hf Ha]%orb_false_iff. by rewrite Hf, IH.
Qed.

Lemma split_intercalate components :
  components <> [] -> Forall (fun component => contains_char slash component = false) components ->
  split_on slash (intercalate components) = components.
Proof.
  intros Hne Hall. induction Hall as [|component components Hc Hall IH]; [done|].
  destruct components as [|next components]; [by apply split_on_single|].
  rewrite intercalate_cons, split_on_app by done. by rewrite IH.
Qed.

Lemma rsplit_once_none c value : rsplit_once c value = None <-> contains_char c value = false.
Proof.
  induction value as [|first rest IH]; [done|]. cbn. destruct (rsplit_once c rest) as [[before after]|].
  - split; [done|]. intros [_ Hr]%orb_false_iff. by apply IH in Hr.
  - rewrite (proj1 IH) by done. destruct (Ascii.eqb first c); done.
Qed.

Lemma rsplit_once_app c before after :
  contains_char c after = false -> rsplit_once c (before +:+ String c after) = Some (before, after).
Proof.
  intros Hafter. induction before as [|first before IH].
  - rewrite app_nil. cbn. rewrite (proj2 (rsplit_once_none c after)) by done. by rewrite Ascii.eqb_refl.
  - rewrite app_cons. cbn. by rewrite IH.
Qed.

Lemma rsplit_once_some c value before after :
  rsplit_once c value = Some (before, after) -> value = before +:+ String c after /\ contains_char c after = false.
Proof.
  revert before after. induction value as [|first rest IH]; [done|]. cbn. intros before after.
  destruct (rsplit_once c rest) as [[b a]|] eqn:Hr.
  - intros [= <- <-]. destruct (IH b a eq_refl) as [-> ?]. by rewrite app_cons.
  - destruct (Ascii.eqb_spec first c) as [->|]; [|done]. intros [= <- <-]. by apply rsplit_once_none in Hr.
Qed.

(* ------------------------------------------------------------------ *)
(** ** Canonical paths *)

(** One component of a canonical path. *)
Record plain_component (component : string) : Prop := {
  plain_name : component <> "" /\ component <> "." /\ component <> "..";
  plain_separators : contains_char slash component = false /\ contains_char backslash component = false;
  plain_prefix : has_windows_drive_prefix component = false;
  plain_text : any_control component = false
}.

Definition canonical (value : string) : Prop :=
  String.length value <= MAX_MEDIA_PATH_BYTES /\
  exists components, components <> [] /\ value = intercalate components /\ Forall plain_component components.

Lemma validate_component_ok component :
  validate_component component = Ok () <->
  (component <> "" /\ component <> "." /\ component <> "..") /\ has_windows_drive_prefix component = false.
Proof.
  unfold validate_component.
  destruct (String.eqb_spec component ""), (String.eqb_spec component "."), (String.eqb_spec component "..");
    try (split; [done|by intros [(? & ? & ?) _]]).
  destruct (has_windows_drive_prefix component); split; [done|by intros [_ ?]|done|done].
Qed.

Lemma validate_components_ok components :
  validate_components components = Ok () <-> Forall (fun c => validate_component c = Ok ()) components.
Proof.
  induction components as [|component components IH]; [done|].
  cbn. rewrite Forall_cons, <- IH. destruct (validate_component component) as [[]|]; cbn; naive_solver.
Qed.

Lemma contains_intercalate c components :
  c <> slash -> contains_char c (intercalate components) = false <->
  Forall (fun component => contains_char c component = false) components.
Proof.
  intros Hc. induction components as [|component components IH]; [done|].
  rewrite Forall_cons, <- IH. destruct components as [|next components]; [by cbn; tauto|].
  rewrite intercalate_cons, contains_app by done. cbn [contains_char].
  destruct (Ascii.eqb_spec slash c); [congruence|]. by rewrite orb_false_l, orb_false_iff.
Qed.

Lemma control_intercalate components :
  any_control (intercalate components) = false <-> Forall (fun c => any_control c = false) components.
Proof.
  induction components as [|component components IH]; [done|].
  rewrite Forall_cons, <- IH. destruct components as [|next components]; [by cbn; tauto|].
  by rewrite intercalate_cons, any_control_slash, orb_false_iff.
Qed.

Lemma starts_intercalate components :
  components <> [] -> Forall plain_component components -> starts_with_char slash (intercalate components) = false.
Proof.
  intros Hne Hall. destruct Hall as [|component components [(Hn & _) [Hs _] _ _] _]; [done|].
  destruct component as [|first component]; [done|]. cbn in Hs. apply orb_false_iff in Hs as [Hs _].
  destruct components; [done|]. rewrite intercalate_cons, app_cons by done. done.
Qed.

Lemma intercalate_not_empty components :
  components <> [] -> Forall plain_component components -> intercalate components <> "".
Proof.
  intros Hne Hall. destruct Hall as [|component components [(Hn & _) _ _ _] _]; [done|].
  destruct component as [|first component]; [done|].
  destruct components; [done|]. by rewrite intercalate_cons, app_cons.
Qed.

Lemma validate_canonical value : validate value = Ok () <-> canonical value.
Proof.
  unfold validate, canonical. split.
  - destruct (String.eqb_spec value "") as [->|Hne]; [done|].
    destruct (Nat.ltb_spec MAX_MEDIA_PATH_BYTES (String.length value)); [done|].
    destruct (starts_with_char slash value); [done|].
    destruct (contains_char backslash value) eqn:Hb; [done|].
    destruct (any_control value) eqn:Hc; [done|]. intros Hv%validate_components_ok.
    split; [done|]. exists (split_on slash value).
    split; [apply split_on_nonempty|]. split; [by rewrite intercalate_split|].
    rewrite <- (intercalate_split value) in Hb, Hc.
    apply contains_intercalate in Hb; [|done]. apply control_intercalate in Hc.
    pose proof (split_on_free slash value) as Hs. rewrite Forall_forall in *.
    intros component Hin. specialize (Hv _ Hin). apply validate_component_ok in Hv as [? ?].
    split; auto.
  - intros (Hlen & components & Hne & -> & Hall).
    destruct (String.eqb_spec (intercalate components) "") as [He|_];
      [by apply intercalate_not_empty in He|].
    destruct (Nat.ltb_spec MAX_MEDIA_PATH_BYTES (String.length (intercalate components))); [lia|].
    rewrite starts_intercalate by done.
    rewrite (proj2 (contains_intercalate backslash components ltac:(done)))
      by (eapply Forall_impl; [done|by intros c []; destruct plain_separators0]).
    rewrite (proj2 (control_intercalate components)) by (eapply Forall_impl; [done|by intros c []]).
    rewrite split_intercalate by (done || (eapply Forall_impl; [done|by intros c []; destruct plain_separators0])).
    apply validate_components_ok. eapply Forall_impl; [done|]. intros c [].
    by apply validate_component_ok.
Qed.

Lemma path_parse_ok {Kind} value (path : RootedMediaPath Kind) :
  path_parse value = Ok path <-> canonical value /\ path = mkRootedMediaPath value.
Proof.
  unfold path_parse. rewrite bind_ok, <- validate_canonical. split.
  - intros ([] & Hv & [= <-]). done.
  - intros [Hv ->]. by exists ().
Qed.

Lemma parent_split components component :
  components <> [] -> contains_char slash component = false ->
  rsplit_once slash (intercalate (components ++ [component])) = Some (intercalate components, component).
Proof. intros Hne Hs. rewrite intercalate_snoc by done. by apply rsplit_once_app. Qed.

Lemma canonical_single component :
  String.length component <= MAX_MEDIA_PATH_BYTES -> plain_component component -> canonical component.
Proof.
  intros Hlen Hc. split; [done|]. exists [component]. split; [done|]. split; [done|].
  by apply Forall_singleton.
Qed.

Lemma canonical_intercalate components :
  String.length (intercalate components) <= MAX_MEDIA_PATH_BYTES -> components <> [] ->
  Forall plain_component components -> canonical (intercalate components).
Proof. intros. split; [done|]. by exists components. Qed.

(** Resolving a relative path by name against the directory stack of a root,
    the way a file system without links does: an absolute path starts over at
    the file system's own root, and ".." goes up. *)
Fixpoint walk (directories components : list string) : list string :=
  match components with
  | [] => directories
  | component :: components =>
      if String.eqb component "" || String.eqb component "." then walk directories components
      else if String.eqb component ".." then walk (take (length directories - 1) directories) components
      else walk (directories ++ [component]) components
  end.
Definition resolve (root : list string) (value : string) : list string :=
  walk (if starts_with_char slash value then [] else root) (split_on slash value).

Lemma walk_plain directories components :
  Forall plain_component components -> walk directories components = directories ++ components.
Proof.
  intros Hall. revert directories. induction Hall as [|c components [(H1 & H2 & H3) _ _ _] _ IH];
    intros directories; [by rewrite app_nil_r|]. cbn.
  destruct (String.eqb_spec c ""), (String.eqb_spec c "."), (String.eqb_spec c ".."); try done.
  cbn. rewrite IH. by rewrite <- app_assoc.
Qed.

Section Paths.
Context {Kind : Type}.
Implicit Types path : RootedMediaPath Kind.

(** C33: parsing keeps the text and accepts exactly the canonical paths: at most
    1024 bytes and a non-empty list of plain components joined by slashes. Such
    a path resolves strictly below whatever root it is joined to. *)
Theorem parsing_accepts_canonical_paths value :
  (forall path, path_parse value = Ok path <-> canonical value /\ as_str path = value) /\
  (canonical value -> forall root,
     exists component components, resolve root value = root ++ component :: components).
Proof.
  split.
  - intros path. rewrite path_parse_ok. destruct path as [text]. unfold as_str. cbn. naive_solver.
  - intros (_ & components & Hne & -> & Hall) root. unfold resolve.
    rewrite starts_intercalate, split_intercalate, walk_plain
      by (done || (eapply Forall_impl; [done|by intros c []; destruct plain_separators0])).
    destruct components as [|component components]; [done|]. by exists component, components.
Qed.

Lemma file_name_canonical path : canonical (as_str path) -> canonical (file_name path).
Proof.
  destruct path as [value]. unfold as_str, file_name. cbn [encoded].
  intros (Hlen & components & Hne & -> & Hall).
  destruct (exists_last Hne) as (init & component & ->).
  apply Forall_app in Hall as [Hinit Hc]. apply Forall_cons in Hc as [Hc _].
  destruct init as [|first init].
  - cbn [app intercalate]. rewrite (proj2 (rsplit_once_none slash component)) by (by destruct Hc as [_ [? _] _ _]).
    by apply canonical_single.
  - rewrite parent_split by (done || by destruct Hc as [_ [? _] _ _]).
    apply canonical_single; [|done].
    rewrite intercalate_snoc, app_length_str in Hlen by done. cbn in Hlen. lia.
Qed.

(** The accessors stay inside the type and decompose it: the file name of a
    path is a path, its parent (built without validation) is a path, joining
    the two gives the path back, and a joined name is read back. *)
Theorem path_accessors_are_canonical path name joined :
  canonical (as_str path) ->
  canonical (file_name path) /\
  match parent path with
  | None => file_name path = as_str path
  | Some directory => canonical (as_str directory) /\ join directory (file_name path) = Ok path
  end /\
  (contains_char slash name = false -> join path name = Ok joined ->
   canonical (as_str joined) /\ parent joined = Some path /\ file_name joined = name).
Proof.
  intros Hpath. split; [by apply file_name_canonical|]. revert Hpath.
  destruct path as [value]. unfold as_str, file_name, parent, join. cbn [encoded].
  intros (Hlen & components & Hne & -> & Hall). split.
  - destruct (exists_last Hne) as (init & component & ->).
    apply Forall_app in Hall as [Hinit Hc]. apply Forall_cons in Hc as [Hc _].
    destruct init as [|first init].
    + cbn [app intercalate]. by rewrite (proj2 (rsplit_once_none slash component)) by (by destruct Hc as [_ [? _] _ _]).
    + rewrite parent_split by (done || by destruct Hc as [_ [? _] _ _]). cbn [fmap option_fmap option_map fst].
      split.
      * apply canonical_intercalate; [|done..].
        rewrite intercalate_snoc, app_length_str in Hlen by done. lia.
      * apply path_parse_ok. cbn [encoded]. rewrite <- intercalate_snoc by done. split; [|done].
        apply canonical_intercalate; [done|by destruct init|]. apply Forall_app. by rewrite Forall_singleton.
  - intros Hslash [Hcan ->]%path_parse_ok. split; [done|]. cbn. by rewrite rsplit_once_app.
Qed.

Lemma file_stem_plain path :
  canonical (as_str path) -> file_stem path <> "" /\ contains_char slash (file_stem path) = false.
Proof.
  intros Hpath. assert (contains_char slash (file_name path) = false) as Hslash.
  { unfold file_name. destruct (rsplit_once slash (encoded path)) as [[b a]|] eqn:Hr.
    - by apply rsplit_once_some in Hr as [_ ?].
    - by apply rsplit_once_none in Hr. }
  assert (file_name path <> "") as Hname.
  { destruct (file_name_canonical path Hpath) as (_ & components & Hne & -> & Hall).
    by apply intercalate_not_empty. }
  unfold file_stem. destruct (rsplit_once dot (file_name path)) as [[stem ext]|] eqn:Hr; [|done].
  apply rsplit_once_some in Hr as [Heq _].
  destruct (Nat.ltb_spec 0 (String.length stem)) as [Hl|]; [|done].
  split; [intros ->; cbn in Hl; lia|].
  rewrite Heq, contains_app in Hslash. by apply orb_false_iff in Hslash as [? _].
Qed.
End Paths.

(** An extension without dots and slashes replaces the old one: the stem and
    the directory stay. *)
Lemma with_extension_keeps_stem {Kind} (path replaced : RootedMediaPath Kind) extension :
  canonical (as_str path) -> contains_char dot extension = false -> contains_char slash extension = false ->
  with_extension path extension = Ok replaced ->
  file_stem replaced = file_stem path /\ parent replaced = parent path /\
  file_name replaced = file_stem path +:+ String dot extension.
Proof.
  intros Hpath Hdot Hslash Hext.
  destruct (file_stem_plain path Hpath) as [Hstem Hplain].
  assert (contains_char slash (file_stem path +:+ String dot extension) = false) as Hname.
  { rewrite contains_app, Hplain. cbn. by rewrite Hslash. }
  assert (file_name replaced = file_stem path +:+ String dot extension /\ parent replaced = parent path)
    as [Hfile Hparent].
  { unfold with_extension, join in Hext. destruct (parent path) as [directory|].
    - apply path_parse_ok in Hext as [_ ->]. unfold file_name, parent. cbn [encoded].
      rewrite rsplit_once_app by done. by destruct directory.
    - apply path_parse_ok in Hext as [_ ->]. unfold file_name, parent. cbn [encoded].
      by rewrite (proj2 (rsplit_once_none slash _) Hname). }
  split; [|done]. unfold file_stem at 1. rewrite Hfile, rsplit_once_app by done.
  destruct (file_stem path) as [|first rest]; [done|]. done.
Qed.

Lemma parsing_accepts_canonical_paths_witness :
  (forall path : LibraryPath, path_parse "Albums/01 - Joga.flac" = Ok path <->
     canonical "Albums/01 - Joga.flac" /\ as_str path = "Albums/01 - Joga.flac") /\
  path_parse (Kind := LibraryMedia) "Albums/../secret" = Err Path_ParentDirectoryComponent /\
  exists component components,
    resolve ["srv"; "music"] "Albums/01 - Joga.flac" = ["srv"; "music"] ++ component :: components.
Proof.
  destruct (parsing_accepts_canonical_paths (Kind := LibraryMedia) "Albums/01 - Joga.flac") as [Hparse Hresolve].
  split; [exact Hparse|]. split; [reflexivity|]. apply Hresolve. apply validate_canonical. reflexivity.
Defined.

Lemma path_accessors_are_canonical_witness :
  let path : LibraryPath := mkRootedMediaPath "Albums/Joga" in
  let joined : LibraryPath := mkRootedMediaPath "Albums/Joga/front.jpg" in
  canonical (file_name path) /\
  (forall directory, parent path = Some directory -> join directory (file_name path) = Ok path) /\
  parent joined = Some path /\ file_name joined = "front.jpg".
Proof.
  destruct (path_accessors_are_canonical (Kind := LibraryMedia) (mkRootedMediaPath "Albums/Joga") "front.jpg"
    (mkRootedMediaPath "Albums/Joga/front.jpg")) as (Hname & Hparent & Hjoin).
  - apply validate_canonical. reflexivity.
  - split; [exact Hname|]. split.
    + intros directory Hdir. rewrite Hdir in Hparent. apply Hparent.
    + destruct Hjoin as (_ & Hp & Hf); [reflexivity|reflexivity|]. split; [exact Hp|exact Hf].
Defined.
