(* ===== verification/OutputReconcile.v ===== *)
(** * The reconciler of the headless output

    [crates/music-output/src/reconcile.rs]: the reconciler that turns the
    server's player states and the local switches into commands for the player.
    The fields of the protocol's [PlayerState] the reconciler reads are kept. *)

From S2P Require Import Prelude.
From Stdlib Require Import SpecFloat.

#[local] Open Scope string_scope.
#[local] Open Scope Z_scope.
#[local] Open Scope list_scope.

(** [a * b], [a / b] and [a < b] on [f64]. *)
Definition f64_mul (a b : f64) : f64 := SFmul 53 1024 a b.
Definition f64_div (a b : f64) : f64 := SFdiv 53 1024 a b.
Definition f64_ltb (a b : f64) : bool := SFltb a b.

(** [PlaybackCommand] of the output. *)
Inductive OutputCommand : Type :=
| SetVolume (volume : f64)
| Load (url : string) (start_seconds : f64)
| SetPaused (paused : bool)
| Stop
| SeekAbsolute (seconds : f64).

Record ReconcileOutcome : Type := mkReconcileOutcome {
  outcome_accepted : bool;
  outcome_commands : list OutputCommand
}.

Record ControlSnapshot : Type := mkControlSnapshot {
  control_on : bool;
  control_volume : f64;
  control_is_playing : bool;
  control_track_id : option Z
}.

Record OutputLane : Type := mkOutputLane {
  lane_track_id : option Z;
  lane_position_ms : Z
}.

(** The protocol's [PlayerState], as far as the output reads it; the interrupt
    is its track and position. *)
Record PlayerState : Type := mkPlayerState {
  player_revision : Z;
  player_position_epoch : Z;
  player_is_playing : bool;
  player_active_output_device_ids : list string;
  player_default_device_volume : f64;
  player_device_volumes : gmap string f64;
  player_ambient : OutputLane;
  player_interrupt : option (Z * Z)
}.

Record Reconciler : Type := mkReconciler {
  server_url : string;
  reconciler_client_id : string;
  respect_console : bool;
  local_on : bool;
  local_volume : f64;
  reconciler_state : option PlayerState;
  loaded_url : option string;
  last_epoch : option Z;
  has_state_this_connection : bool
}.

(** [f64::clamp(0.0, 1.0)] on finite values, 0 otherwise. *)
Definition clamp01 (value : f64) : f64 :=
  if f64_is_finite value then
    if f64_ltb value (f64_of_Z 0) then f64_of_Z 0
    else if f64_ltb (f64_of_Z 1) value then f64_of_Z 1 else value
  else f64_of_Z 0.

Definition nonnegative_seconds (position_ms : Z) : f64 :=
  f64_div (f64_of_Z (Z.max position_ms 0)) (f64_of_Z 1000).

(** [s.trim_end_matches('/')] *)
Fixpoint trim_end_slashes (s : string) : string :=
  match s with
  | EmptyString => EmptyString
  | String first rest =>
      match trim_end_slashes rest with
      | EmptyString => if Ascii.eqb first (Ascii.ascii_of_nat 47) then EmptyString else String first EmptyString
      | trimmed => String first trimmed
      end
  end.

(** [Reconciler::new] *)
Definition Reconciler_new (server client : string) (respect on : bool) (volume : f64) : Reconciler :=
  mkReconciler (trim_end_slashes server) client respect on (clamp01 volume) None None None false.

Definition begin_connection (r : Reconciler) : Reconciler :=
  mkReconciler (server_url r) (reconciler_client_id r) (respect_console r) (local_on r) (local_volume r)
    (reconciler_state r) (loaded_url r) (last_epoch r) false.

Definition output_volume (r : Reconciler) (event_volume : f64) : f64 :=
  let server_volume :=
    match reconciler_state r with
    | None => f64_of_Z 1
    | Some state => default (player_default_device_volume state)
                      (player_device_volumes state !! reconciler_client_id r)
    end in
  f64_mul (f64_mul (clamp01 event_volume) (clamp01 server_volume)) (local_volume r).

Definition active_lane (r : Reconciler) : option Z * bool :=
  match reconciler_state r with
  | None => (None, false)
  | Some state =>
      match player_interrupt state with
      | None => (lane_track_id (player_ambient state), player_is_playing state)
      | Some (track_id, _) => (Some track_id, true)
      end
  end.

Definition control_snapshot (r : Reconciler) : ControlSnapshot :=
  let '(track_id, is_playing) := active_lane r in
  mkControlSnapshot (local_on r) (local_volume r) is_playing track_id.

Definition is_active_output (r : Reconciler) (state : PlayerState) : bool :=
  existsb (fun device_id => String.eqb device_id (reconciler_client_id r))
    (player_active_output_device_ids state).

Definition may_report_position (r : Reconciler) : bool :=
  match reconciler_state r with
  | None => false
  | Some state =>
      let '(track_id, playing) := active_lane r in
      local_on r && playing && bool_decide (is_Some track_id) && is_active_output r state
  end.

Definition sfx_allowed (r : Reconciler) : bool :=
  match reconciler_state r with
  | None => false
  | Some state => local_on r && (negb (respect_console r) || is_active_output r state)
  end.

Definition stream_url (r : Reconciler) (track_id : Z) : string :=
  server_url r +:+ "/api/library/tracks/" +:+ pretty track_id +:+ "/stream".

(** [self.loaded_url = ..] and [self.last_epoch = ..] *)
Definition set_loaded (url : option string) (r : Reconciler) : Reconciler :=
  mkReconciler (server_url r) (reconciler_client_id r) (respect_console r) (local_on r) (local_volume r)
    (reconciler_state r) url (last_epoch r) (has_state_this_connection r).
Definition set_last_epoch (epoch : Z) (r : Reconciler) : Reconciler :=
  mkReconciler (server_url r) (reconciler_client_id r) (respect_console r) (local_on r) (local_volume r)
    (reconciler_state r) (loaded_url r) (Some epoch) (has_state_this_connection r).

Definition reconcile (r : Reconciler) : list OutputCommand * Reconciler :=
  match reconciler_state r with
  | None => ([], r)
  | Some state =>
      let '(track_id, playing, position_ms) :=
        match player_interrupt state with
        | Some (track_id, position_ms) => (Some track_id, true, position_ms)
        | None => (lane_track_id (player_ambient state), player_is_playing state,
                   lane_position_ms (player_ambient state))
        end in
      let console_on := is_active_output r state in
      let on := local_on r && (negb (respect_console r) || console_on) in
      let volume := SetVolume (output_volume r (f64_of_Z 1)) in
      if negb on || bool_decide (track_id = None) || negb playing then
        if bool_decide (track_id = None) then ([volume; Stop], set_loaded None r)
        else ([volume; SetPaused true], r)
      else
        let url := stream_url r (default 0 track_id) in
        let start_seconds := nonnegative_seconds position_ms in
        if bool_decide (loaded_url r <> Some url) then
          ([volume; Load url start_seconds],
           set_last_epoch (player_position_epoch state) (set_loaded (Some url) r))
        else
          let seek := match last_epoch r with
                      | Some epoch => negb (epoch =? player_position_epoch state)
                      | None => false
                      end in
          (volume :: (if seek then [SeekAbsolute start_seconds] else []) ++ [SetPaused false],
           set_last_epoch (player_position_epoch state) r)
  end.

Definition on_state (state : PlayerState) (r : Reconciler) : ReconcileOutcome * Reconciler :=
  if has_state_this_connection r &&
     match reconciler_state r with
     | Some current => player_revision state <? player_revision current
     | None => false
     end
  then (mkReconcileOutcome false [], r)
  else
    let r := mkReconciler (server_url r) (reconciler_client_id r) (respect_console r) (local_on r)
               (local_volume r) (Some state) (loaded_url r) (last_epoch r) true in
    let '(commands, r) := reconcile r in
    (mkReconcileOutcome true commands, r).

Definition set_local (on : option bool) (volume : option f64) (r : Reconciler)
    : list OutputCommand * Reconciler :=
  let on := default (local_on r) on in
  let volume := match volume with Some volume => clamp01 volume | None => local_volume r end in
  reconcile (mkReconciler (server_url r) (reconciler_client_id r) (respect_console r) on volume
    (reconciler_state r) (loaded_url r) (last_epoch r) (has_state_this_connection r)).

(* ------------------------------------------------------------------ *)
(** ** Revisions *)

(** Within one connection accepted revisions never go back, a refused state
    changes nothing, and an accepted one sends a position (a load or a seek)
    only when the stream changes or the server's epoch differs from the one last
    played. *)
Theorem stale_states_are_refused state r :
  let '(outcome, r') := on_state state r in
  (outcome_accepted outcome = false ->
     r' = r /\ outcome_commands outcome = [] /\ has_state_this_connection r = true /\
     exists current, reconciler_state r = Some current /\ player_revision state < player_revision current) /\
  (outcome_accepted outcome = true ->
     reconciler_state r' = Some state /\ has_state_this_connection r' = true /\
     (forall current, has_state_this_connection r = true -> reconciler_state r = Some current ->
        player_revision current <= player_revision state) /\
     (forall position, SeekAbsolute position ∈ outcome_commands outcome ->
        exists epoch, last_epoch r = Some epoch /\ epoch <> player_position_epoch state) /\
     (forall url position, Load url position ∈ outcome_commands outcome -> loaded_url r <> Some url)).
Proof.
  unfold on_state.
  destruct (has_state_this_connection r && _) eqn:Hstale.
  - split; [|done]. intros _. apply andb_true_iff in Hstale as [Hconn Hrev].
    destruct (reconciler_state r) as [current|]; [|done]. apply Z.ltb_lt in Hrev.
    split_and!; try done. by exists current.
  - set (r1 := mkReconciler _ _ _ _ _ _ _ _ _).
    destruct (reconcile r1) as [commands r2] eqn:Hrec. split; [done|]. intros _. cbn [outcome_commands].
    assert (reconciler_state r2 = Some state /\ has_state_this_connection r2 = true /\
      (forall position, SeekAbsolute position ∈ commands ->
        exists epoch, last_epoch r = Some epoch /\ epoch <> player_position_epoch state) /\
      (forall url position, Load url position ∈ commands -> loaded_url r <> Some url))
      as (Hs & Hc & Hseek & Hload).
    { revert Hrec. unfold reconcile. cbn [reconciler_state r1].
      destruct (match player_interrupt state with Some _ => _ | None => _ end) as [[track playing] position].
      destruct (negb _ || _ || _); [destruct (bool_decide _)|]; [intros [= <- <-]; split_and!; set_solver..|].
      case_bool_decide as Hl; intros [= <- <-]; split_and!; try done.
      - set_solver.
      - intros url pos. rewrite !elem_of_cons. intros [?|[[= -> _]|?]]; [done|exact Hl|set_solver].
      - intros pos. rewrite elem_of_cons, elem_of_app. intros [?|[Hin|?]]; [done| |set_solver].
        cbn [last_epoch r1] in Hin. destruct (last_epoch r) as [epoch|]; [|set_solver].
        destruct (Z.eqb_spec epoch (player_position_epoch state)); cbn in Hin; [set_solver|]. by exists epoch.
      - intros url pos. rewrite elem_of_cons, elem_of_app. intros [?|[Hin|?]]; [done| |set_solver].
        destruct (match last_epoch r1 with Some _ => _ | None => _ end); set_solver. }
    split_and!; try done. intros current Hconn Hcur. rewrite Hconn, Hcur in Hstale. cbn in Hstale.
    by apply Z.ltb_ge in Hstale.
Qed.
