(* ===== verification/OutputRuntime.v ===== *)
(** * The headless output

    [crates/music-output/src/runtime.rs] and [MpvPlayer::execute] of
    [src/mpv.rs]: one task serves the server's socket, others the local
    switches. Each reconciles under the reconciler's lock, gives that lock up,
    and only then waits for the player's lock to send its commands, one after
    the other, to mpv. A command may fail before or after mpv carried it out, and
    a failed one ends the batch; a request whose client hangs up is dropped
    wherever it is. The player is known only by the commands mpv carried out:
    what mpv does by itself, at the end of a file say, is not part of it. *)

From S2P Require Import Prelude OutputReconcile.
From Stdlib Require Import SpecFloat.

#[local] Open Scope string_scope.
#[local] Open Scope Z_scope.
#[local] Open Scope list_scope.

(* ------------------------------------------------------------------ *)
(** ** Commands to mpv *)

(** The JSON commands [MpvPlayer::execute] sends to the music process. *)
Inductive MpvCommand : Type :=
| Mpv_set_volume (volume : f64)
| Mpv_loadfile (url : string) (start : f64)
| Mpv_set_pause (pause : bool)
| Mpv_stop
| Mpv_seek (seconds : f64).

(** [x.max(0.0)] *)
Definition max_zero (x : f64) : f64 :=
  if f64_ltb (f64_of_Z 0) x then x else f64_of_Z 0.

Definition mpv_commands (command : OutputCommand) : list MpvCommand :=
  match command with
  | SetVolume volume => [Mpv_set_volume (f64_mul volume (f64_of_Z 100))]
  | Load url start_seconds => [Mpv_loadfile url (max_zero start_seconds); Mpv_set_pause false]
  | SetPaused paused => [Mpv_set_pause paused]
  | Stop => [Mpv_stop]
  | SeekAbsolute seconds => [Mpv_seek (max_zero seconds)]
  end.

(** What a call of [MpvPlayer::execute] has to send. *)
Definition to_send (commands : list OutputCommand) : list MpvCommand := concat (mpv_commands <$> commands).

(** The last file, pause, volume and position that mpv carried out. *)
Record Player : Type := mkPlayer {
  playing_url : option string;
  paused : bool;
  player_volume : option f64;
  told_position : option f64
}.

Definition idle_player : Player := mkPlayer None false None None.

Definition carry_out (player : Player) (command : MpvCommand) : Player :=
  match command with
  | Mpv_set_volume volume => mkPlayer (playing_url player) (paused player) (Some volume) (told_position player)
  | Mpv_loadfile url start => mkPlayer (Some url) (paused player) (player_volume player) (Some start)
  | Mpv_set_pause pause => mkPlayer (playing_url player) pause (player_volume player) (told_position player)
  | Mpv_stop => mkPlayer None (paused player) (player_volume player) (told_position player)
  | Mpv_seek seconds => mkPlayer (playing_url player) (paused player) (player_volume player) (Some seconds)
  end.

(* ------------------------------------------------------------------ *)
(** ** The tasks *)

Inductive Task : Type := Socket | Switch.

#[global] Instance Task_eq_dec : EqDecision Task.
Proof. solve_decision. Defined.

(** The batches that were reconciled and wait for the player, in the order they
    were reconciled; the one that holds the player, with what it has left to
    send; whether the socket's task still runs. *)
Record Output : Type := mkOutput {
  output_reconciler : Reconciler;
  waiting : list (Task * list MpvCommand);
  sending : option (Task * list MpvCommand);
  output_player : Player;
  listening : bool
}.

Definition Output_new (server client : string) (respect on : bool) (volume : f64) : Output :=
  mkOutput (Reconciler_new server client respect on volume) [] None idle_player true.

Inductive MpvAnswer : Type :=
| Mpv_success
| Mpv_failed (carried_out : bool).

Inductive OutputMove : Type :=
| Connected
| StateReceived (state : PlayerState)
| SwitchTurned (on : option bool) (volume : option f64)
| PlayerLocked (batch : nat)
| MpvAnswered (answer : MpvAnswer)
| WaitingDropped (batch : nat)
| SendingDropped (carried_out : bool)
| ClientEnded (carried_out : bool).

(** The commands a move reconciles, and the reconciler after it. *)
Definition reconciled (move : OutputMove) (r : Reconciler) : list OutputCommand * Reconciler :=
  match move with
  | Connected => ([], begin_connection r)
  | StateReceived state => let '(outcome, r) := on_state state r in (outcome_commands outcome, r)
  | SwitchTurned on volume => set_local on volume r
  | _ => ([], r)
  end.

(** The socket's task waits for its own batch before it reads on. *)
Definition socket_is_busy (s : Output) : bool :=
  existsb (fun batch => bool_decide (batch.1 = Socket)) (waiting s) ||
  match sending s with Some (task, _) => bool_decide (task = Socket) | None => false end.

(** The lock is given up after the last command. *)
Definition holding (task : Task) (rest : list MpvCommand) : option (Task * list MpvCommand) :=
  match rest with [] => None | _ => Some (task, rest) end.

Definition drop_nth {A} (n : nat) (l : list A) : list A := take n l ++ drop (S n) l.

Definition carry_out_if (carried_out : bool) (rest : list MpvCommand) (player : Player) : Player :=
  match rest with
  | command :: _ => if carried_out then carry_out player command else player
  | [] => player
  end.

Definition output_move (move : OutputMove) (s : Output) : option Output :=
  let '(commands, r) := reconciled move (output_reconciler s) in
  let batch_of task := mkOutput r (waiting s ++ [(task, to_send commands)]) (sending s) (output_player s) (listening s) in
  match move with
  | Connected =>
      if listening s && negb (socket_is_busy s)
      then Some (mkOutput r (waiting s) (sending s) (output_player s) (listening s)) else None
  | StateReceived state =>
      if listening s && negb (socket_is_busy s) then
        if outcome_accepted (on_state state (output_reconciler s)).1 then Some (batch_of Socket)
        else Some s
      else None
  | SwitchTurned _ _ => Some (batch_of Switch)
  | PlayerLocked n =>
      match sending s, waiting s !! n with
      | None, Some (task, rest) =>
          Some (mkOutput r (drop_nth n (waiting s)) (holding task rest) (output_player s) (listening s))
      | _, _ => None
      end
  | MpvAnswered Mpv_success =>
      match sending s with
      | Some (task, command :: rest) =>
          Some (mkOutput r (waiting s) (holding task rest) (carry_out (output_player s) command) (listening s))
      | _ => None
      end
  | MpvAnswered (Mpv_failed carried_out) =>
      match sending s with
      | Some (task, rest) =>
          Some (mkOutput r (waiting s) None (carry_out_if carried_out rest (output_player s))
                  (listening s && bool_decide (task <> Socket)))
      | None => None
      end
  | WaitingDropped n =>
      match waiting s !! n with
      | Some (Switch, _) =>
          Some (mkOutput r (drop_nth n (waiting s)) (sending s) (output_player s) (listening s))
      | _ => None
      end
  | SendingDropped carried_out =>
      match sending s with
      | Some (Switch, rest) =>
          Some (mkOutput r (waiting s) None (carry_out_if carried_out rest (output_player s)) (listening s))
      | _ => None
      end
  | ClientEnded carried_out =>
      let waiting := List.filter (fun batch => bool_decide (batch.1 = Switch)) (waiting s) in
      match sending s with
      | Some (Socket, rest) =>
          Some (mkOutput r waiting None (carry_out_if carried_out rest (output_player s)) false)
      | _ => Some (mkOutput r waiting (sending s) (output_player s) false)
      end
  end.

Definition run_output (moves : list OutputMove) (s : Output) : option Output :=
  foldl (fun s move => s ≫= output_move move) (Some s) moves.

(* ------------------------------------------------------------------ *)
(** ** The output follows the server *)

(** What the server's state and the switches ask of the output. *)
Definition should_play (r : Reconciler) (state : PlayerState) : bool :=
  local_on r && (negb (respect_console r) || is_active_output r state) && (active_lane r).2.












Lemma told_app player a b : foldl carry_out player (a ++ b) = foldl carry_out (foldl carry_out player a) b.
Proof. apply foldl_app. Qed.










(* ------------------------------------------------------------------ *)
(** ** Runs of the output *)

Definition track_seven : PlayerState :=
  mkPlayerState 1 1 true [] (f64_of_Z 1) ∅ (mkOutputLane (Some 7) 5000) None.
Definition output_at_home (on : bool) : Output := Output_new "http://music.test/" "device" false on (f64_of_Z 1).
Definition answered_ok (n : nat) : list OutputMove := replicate n (MpvAnswered Mpv_success).
Definition executed (n : nat) : list OutputMove := PlayerLocked 0 :: answered_ok n.

(** The server's state is reconciled first and the switch turned off second, and
    the second batch gets the player first. *)
Definition swapped : list OutputMove :=
  [StateReceived track_seven; SwitchTurned (Some false) None; PlayerLocked 1] ++ answered_ok 2 ++ executed 3.
Definition seven_url : string := "http://music.test/api/library/tracks/7/stream".

(** An output that was switched off plays on: nothing is outstanding, and mpv was
    told to play. *)
Example swapped_batches_play_while_off :
  exists s, run_output swapped (output_at_home true) = Some s /\ waiting s = [] /\ sending s = None /\
    local_on (output_reconciler s) = false /\
    playing_url (output_player s) = Some seven_url /\ paused (output_player s) = false.
Proof. eexists. split; [by vm_compute|]. by vm_compute. Qed.



(** Switching on loads the track; mpv refuses, the request is answered 503. *)
Definition failed_load : list OutputMove :=
  StateReceived track_seven :: executed 2 ++
  [SwitchTurned (Some true) None; PlayerLocked 0; MpvAnswered Mpv_success; MpvAnswered (Mpv_failed false)].

(** Switching on again only unpauses: the reconciler takes the stream for loaded,
    and mpv has none. *)
Example failed_load_is_not_repeated :
  exists s, run_output (failed_load ++ SwitchTurned (Some true) None :: executed 2) (output_at_home false) = Some s /\
    waiting s = [] /\ sending s = None /\ should_play (output_reconciler s) track_seven = true /\
    loaded_url (output_reconciler s) = Some seven_url /\ playing_url (output_player s) = None.
Proof. eexists. split; [by vm_compute|]. by vm_compute. Qed.
