(* ===== verification/Filesystem.v ===== *)
(** * A file tree with failing and crashing system calls

    The part of [std::fs] the mode mutations use: a tree of regular files and
    directories below one root, and the calls that change it. Every call that
    changes the tree or reads a file consumes one fate: it is carried out, it
    fails and changes nothing, or the process dies before it. [exists],
    [is_file] and [is_dir] are answered from the tree. Entries that are neither
    file nor directory (links, devices) are not part of the tree. *)

From S2P Require Import Prelude.

#[local] Open Scope string_scope.
#[local] Open Scope list_scope.

(** A path below the root, outermost component first; [[]] is the root. *)
Abbreviation FsPath := (list string) (only parsing).

Inductive FsNode : Type :=
| FsFile (content : string)
| FsDirectory.

#[global] Instance FsNode_eq_dec : EqDecision FsNode.
Proof. solve_decision. Defined.

(** The root itself is always a directory and not listed. *)
Abbreviation FsTree :=
  (@gmap (list string) (@list_eq_dec string String.eq_dec)
     (@list_countable string String.eq_dec String.countable) FsNode) (only parsing).

Inductive SyscallFate : Type := Sys_done | Sys_failed | Sys_crash.

Record Filesystem : Type := mkFilesystem {
  fs_tree : FsTree;
  fs_fates : list SyscallFate
}.

(** A crash is no value the program sees: nothing runs after it. *)
Inductive FsError : Type :=
| Fs_failed (detail : string)
| Fs_crashed.

Definition fs (A : Type) : Type := stateful Filesystem FsError A.

(* ------------------------------------------------------------------ *)
(** ** Reading the tree *)

Definition fs_node (p : FsPath) (t : FsTree) : option FsNode :=
  match p with [] => Some FsDirectory | _ => t !! p end.

(** [path.exists()], [path.is_file()], [path.is_dir()] *)
Definition fs_exists (p : FsPath) (t : FsTree) : bool := bool_decide (is_Some (fs_node p t)).
Definition fs_is_file (p : FsPath) (t : FsTree) : bool :=
  match fs_node p t with Some (FsFile _) => true | _ => false end.
Definition fs_is_dir (p : FsPath) (t : FsTree) : bool :=
  match fs_node p t with Some FsDirectory => true | _ => false end.

(** The rest of [p] below [base]. *)
Fixpoint strip (base p : FsPath) : option FsPath :=
  match base, p with
  | [], _ => Some p
  | b :: base, c :: p => if decide (b = c) then strip base p else None
  | _ :: _, [] => None
  end.

(** [path.parent()] is a directory. *)
Definition parent_is_dir (p : FsPath) (t : FsTree) : bool :=
  match p with [] => false | _ => fs_is_dir (removelast p) t end.

(** The entries below [p], [p] itself excluded. *)
Definition fs_below (p : FsPath) (t : FsTree) : list FsPath :=
  List.filter (fun q => match strip p q with Some (_ :: _) => true | _ => false end)
    (map_to_list t).*1.

(* ------------------------------------------------------------------ *)
(** ** System calls *)

(** One call: [body] is its effect on the tree, [None] when the tree refuses it. *)
Definition syscall {A : Type} (detail : string) (body : FsTree -> option (A * FsTree)) : fs A := fun f =>
  let rest t := mkFilesystem t (tail (fs_fates f)) in
  match head (fs_fates f) with
  | Some Sys_crash => (Err Fs_crashed, rest (fs_tree f))
  | Some Sys_failed => (Err (Fs_failed detail), rest (fs_tree f))
  | Some Sys_done | None =>
      match body (fs_tree f) with
      | Some (a, t) => (Ok a, rest t)
      | None => (Err (Fs_failed detail), rest (fs_tree f))
      end
  end.

(** [fs::create_dir(p)] *)
Definition fs_create_dir (detail : string) (p : FsPath) : fs () :=
  syscall detail (fun t =>
    if negb (fs_exists p t) && parent_is_dir p t then Some ((), <[p := FsDirectory]> t) else None).

(** [OpenOptions::new().write(true).create_new(true).open(p)] *)
Definition fs_create_new (detail : string) (p : FsPath) : fs () :=
  syscall detail (fun t =>
    if negb (fs_exists p t) && parent_is_dir p t then Some ((), <[p := FsFile ""]> t) else None).

(** [file.write_all(content).and_then(|()| file.sync_all())] on a new file *)
Definition fs_write_all (detail : string) (p : FsPath) (content : string) : fs () :=
  syscall detail (fun t => if fs_is_file p t then Some ((), <[p := FsFile content]> t) else None).

(** Reading a whole file. *)
Definition fs_read (detail : string) (p : FsPath) : fs string :=
  syscall detail (fun t => match t !! p with Some (FsFile content) => Some (content, t) | _ => None end).

(** [fs::remove_file(p)] *)
Definition fs_remove_file (detail : string) (p : FsPath) : fs () :=
  syscall detail (fun t => if fs_is_file p t then Some ((), delete p t) else None).

(** [fs::remove_dir(p)]: the directory must be empty. *)
Definition fs_remove_dir (detail : string) (p : FsPath) : fs () :=
  syscall detail (fun t =>
    match t !! p, fs_below p t with
    | Some FsDirectory, [] => Some ((), delete p t)
    | _, _ => None
    end).

(** [fs::hard_link(original, link)]: files are never written again once they
    have content, so a second name is a second entry with the same content. *)
Definition fs_hard_link (detail : string) (original link : FsPath) : fs () :=
  syscall detail (fun t =>
    match t !! original with
    | Some (FsFile content) =>
        if negb (fs_exists link t) && parent_is_dir link t
        then Some ((), <[link := FsFile content]> t) else None
    | _ => None
    end).

(** Where the entry at [p] is once [src] has become [dst]. *)
Definition moved (src dst p : FsPath) : FsPath :=
  match strip src p with Some rest => dst ++ rest | None => p end.

Definition move_tree (src dst : FsPath) (t : FsTree) : FsTree :=
  list_to_map ((fun entry => (moved src dst entry.1, entry.2)) <$> map_to_list t).

(** [fs::rename(src, dst)]: an existing file is replaced by a file, an existing
    empty directory by a directory. *)
Definition fs_rename (detail : string) (src dst : FsPath) : fs () :=
  syscall detail (fun t =>
    match t !! src with
    | None => None
    | Some node =>
        if decide (src = dst) then Some ((), t)
        else if bool_decide (is_Some (strip src dst)) || negb (parent_is_dir dst t) then None
        else
          match t !! dst, node with
          | None, _ => Some ((), move_tree src dst t)
          | Some (FsFile _), FsFile _ => Some ((), move_tree src dst (delete dst t))
          | Some FsDirectory, FsDirectory =>
              match fs_below dst t with
              | [] => Some ((), move_tree src dst (delete dst t))
              | _ => None
              end
          | _, _ => None
          end
    end).

(** Lexicographic order of paths. *)
Fixpoint path_leb (p q : FsPath) : bool :=
  match p, q with
  | [], _ => true
  | _ :: _, [] => false
  | a :: p, b :: q => if decide (a = b) then path_leb p q else string_leb a b
  end.
Definition path_ge (p q : FsPath) : Prop := path_leb q p = true.
#[global] Instance path_ge_dec p q : Decision (path_ge p q).
Proof. unfold path_ge. apply _. Defined.

(** [fs::remove_dir_all(p)] removes one entry after the other, each after what
    is below it; the order among siblings, which the system leaves open, is the
    descending one. *)
Fixpoint remove_entries (detail : string) (paths : list FsPath) : fs () :=
  match paths with
  | [] => mret ()
  | p :: paths =>
      _ ← syscall detail (fun t =>
            match t !! p with Some _ => Some ((), delete p t) | None => None end);
      remove_entries detail paths
  end.

Definition fs_remove_dir_all (detail : string) (p : FsPath) : fs () :=
  t ← gets fs_tree;
  if fs_is_dir p t then remove_entries detail (merge_sort path_ge (fs_below p t) ++ [p])
  else throw (Fs_failed detail).

(** [let _ = call;]: a failure is dropped, a crash is not. *)
Definition ignore_failure (call : fs ()) : fs () := fun f =>
  match call f with
  | (Err (Fs_failed _), f) => (Ok (), f)
  | other => other
  end.

(** The answer of a call as a value; a crash still ends everything. *)
Definition attempt {A : Type} (call : fs A) : fs (result string A) := fun f =>
  match call f with
  | (Ok a, f) => (Ok (Ok a), f)
  | (Err (Fs_failed detail), f) => (Ok (Err detail), f)
  | (Err Fs_crashed, f) => (Err Fs_crashed, f)
  end.

(* ------------------------------------------------------------------ *)
(** * Reasoning about programs on the file tree *)

#[local] Open Scope list_scope.

(* ------------------------------------------------------------------ *)
(** ** Paths and moves *)

Lemma strip_Some base p rest : strip base p = Some rest <-> p = base ++ rest.
Proof.
  revert p. induction base as [|b base IH]; intros p; cbn; [split; congruence|].
  destruct p as [|c p]; [done|]. case_decide as Hbc; [|split; congruence].
  rewrite IH. subst. split; congruence.
Qed.

Lemma strip_app base rest : strip base (base ++ rest) = Some rest.
Proof. by apply strip_Some. Qed.

Lemma strip_self p : strip p p = Some [].
Proof. apply strip_Some. by rewrite app_nil_r. Qed.

Lemma strip_None base p : strip base p = None <-> forall rest, p <> base ++ rest.
Proof.
  destruct (strip base p) as [rest|] eqn:H; split; try done.
  - intros Hne. apply strip_Some in H as ->. by destruct (Hne rest).
  - intros _ rest ->. by rewrite strip_app in H.
Qed.

(** Two paths of which neither lies below the other. *)
Definition apart (p q : FsPath) : Prop := strip p q = None /\ strip q p = None.

Lemma apart_sym p q : apart p q -> apart q p.
Proof. unfold apart. tauto. Qed.

Lemma apart_app p q rest : apart p q -> strip p (q ++ rest) = None.
Proof.
  rewrite strip_None. intros [H1 H2] tail Heq.
  rewrite strip_None in H1, H2. revert p H1 H2 Heq.
  induction q as [|c q IH]; intros [|b p] H1 H2 Heq; cbn in *.
  - by apply (H1 []).
  - by apply (H2 (b :: p)).
  - by apply (H1 (c :: q)).
  - injection Heq as -> Heq. apply (IH p); [| |done].
    + intros x ->. by apply (H1 x).
    + intros x ->. by apply (H2 x).
Qed.

Lemma apart_apps p q r s : apart p q -> p ++ r <> q ++ s.
Proof.
  intros Hap Heq. pose proof (apart_app p q s Hap) as H. rewrite <- Heq, strip_app in H. done.
Qed.

Lemma apart_ne p q : apart p q -> p <> q.
Proof. intros [H _] ->. by rewrite strip_self in H. Qed.

Lemma apart_cons a p q : apart p q -> apart (a :: p) (a :: q).
Proof. unfold apart. cbn. by destruct (decide (a = a)). Qed.

Lemma apart_heads a b p q : a <> b -> apart (a :: p) (b :: q).
Proof. intros Hne. unfold apart. cbn. split; by case_decide. Qed.

Lemma apart_nonempty p q : apart p q -> p <> [] /\ q <> [].
Proof. intros [H1 H2]. split; intros ->; by destruct p || destruct q. Qed.

(** What a move makes of every path: below [dst] what was below [src], below
    [src] nothing. *)
Lemma lookup_move src dst t p :
  apart src dst -> (forall rest, t !! (dst ++ rest) = None) ->
  move_tree src dst t !! p =
    match strip dst p with
    | Some rest => t !! (src ++ rest)
    | None => match strip src p with Some _ => None | None => t !! p end
    end.
Proof.
  intros Hap Hfree. unfold move_tree.
  set (f := fun entry : FsPath * FsNode => (moved src dst entry.1, entry.2)).
  assert (NoDup ((f <$> map_to_list t).*1)) as Hnd.
  { rewrite <- list_fmap_compose.
    apply NoDup_fmap_2_strong; [|apply NoDup_map_to_list].
    intros [q1 n1] [q2 n2] H1%elem_of_map_to_list H2%elem_of_map_to_list. cbn. unfold moved.
    destruct (strip src q1) as [r1|] eqn:Hs1, (strip src q2) as [r2|] eqn:Hs2; intros Heq.
    - apply app_inv_head in Heq as ->. apply strip_Some in Hs1 as ->, Hs2 as ->. congruence.
    - subst. by rewrite Hfree in H2.
    - subst. by rewrite Hfree in H1.
    - congruence. }
  apply option_eq. intros n. etrans; [symmetry; apply (elem_of_list_to_map (M := gmap FsPath)); done|].
  rewrite list_elem_of_fmap. unfold f, moved. split.
  - intros ([q m] & [= -> ->] & Hin%elem_of_map_to_list). cbn.
    destruct (strip src q) as [r|] eqn:Hs.
    + rewrite strip_app. by apply strip_Some in Hs as ->.
    + rewrite Hs. destruct (strip dst q) as [r|] eqn:Hd; [|done].
      apply strip_Some in Hd as ->. by rewrite Hfree in Hin.
  - destruct (strip dst p) as [r|] eqn:Hd.
    + intros Hin. exists (src ++ r, n). cbn. rewrite strip_app.
      split; [|by apply elem_of_map_to_list]. by apply strip_Some in Hd as ->.
    + destruct (strip src p) as [r|] eqn:Hs; [done|]. intros Hin.
      exists (p, n). cbn. rewrite Hs. split; [done|]. by apply elem_of_map_to_list.
Qed.

Lemma move_frame src dst t p :
  apart src dst -> (forall rest, t !! (dst ++ rest) = None) ->
  strip src p = None -> strip dst p = None -> move_tree src dst t !! p = t !! p.
Proof. intros Hap Hfree Hs Hd. by rewrite lookup_move, Hs, Hd. Qed.

Lemma elem_of_fs_below p t q :
  q ∈ fs_below p t <-> is_Some (t !! q) /\ exists c rest, q = p ++ c :: rest.
Proof.
  unfold fs_below. rewrite list_elem_of_In, List.filter_In, <- list_elem_of_In.
  rewrite list_elem_of_fmap. split.
  - intros [([q' n] & -> & Hin%elem_of_map_to_list) Hs]. cbn in *. split; [by exists n|].
    destruct (strip p q') as [[|c rest]|] eqn:Hstrip; try done.
    apply strip_Some in Hstrip. by exists c, rest.
  - intros [[n Hn] (c & rest & ->)]. split; [|by rewrite strip_app].
    exists (p ++ c :: rest, n). split; [done|]. by apply elem_of_map_to_list.
Qed.

(* ------------------------------------------------------------------ *)
(** ** Triples *)

Definition fs_spec {A : Type} (P : FsTree -> Prop) (m : fs A) (Q : A -> FsTree -> Prop)
    (R : FsTree -> Prop) : Prop :=
  forall f r f', P (fs_tree f) -> m f = (r, f') ->
    match r with Ok a => Q a (fs_tree f') | Err _ => R (fs_tree f') end.

(** Without faults [m] answers, in [Q]. *)
Definition fs_runs {A : Type} (P : FsTree -> Prop) (m : fs A) (Q : A -> FsTree -> Prop) : Prop :=
  forall t, P t -> exists a t', m (mkFilesystem t []) = (Ok a, mkFilesystem t' []) /\ Q a t'.

Section Rules.
Context {A B : Type}.
Implicit Types (detail : string) (p : FsPath) (paths : list FsPath) (P R : FsTree -> Prop).

Lemma fs_spec_weaken P P' (m : fs A) (Q Q' : A -> FsTree -> Prop) R R' :
  fs_spec P m Q R -> (forall t, P' t -> P t) -> (forall a t, Q a t -> Q' a t) ->
  (forall t, R t -> R' t) -> fs_spec P' m Q' R'.
Proof. intros H HP HQ HR f r f' Hf Hrun. specialize (H f r f' (HP _ Hf) Hrun). destruct r; auto. Qed.

Lemma fs_spec_pre P P' (m : fs A) (Q : A -> FsTree -> Prop) R :
  fs_spec P m Q R -> (forall t, P' t -> P t) -> fs_spec P' m Q R.
Proof. intros H HP. by eapply fs_spec_weaken. Qed.

Lemma fs_spec_ret P (a : A) (Q : A -> FsTree -> Prop) R :
  (forall t, P t -> Q a t) -> fs_spec P (mret a) Q R.
Proof. intros H f r f' Hf [= <- <-]. by apply H. Qed.

Lemma fs_spec_throw P (e : FsError) (Q : A -> FsTree -> Prop) R :
  (forall t, P t -> R t) -> fs_spec P (throw e) Q R.
Proof. intros H f r f' Hf [= <- <-]. by apply H. Qed.

Lemma fs_spec_try P (o : result FsError A) (Q : A -> FsTree -> Prop) R :
  (forall a t, o = Ok a -> P t -> Q a t) -> (forall t, P t -> R t) -> fs_spec P (try o) Q R.
Proof. intros HQ HR f r f' Hf [= <- <-]. destruct o; auto. Qed.

Lemma fs_spec_bind P (m : fs A) (k : A -> fs B) (Q0 : A -> FsTree -> Prop) (Q : B -> FsTree -> Prop) R :
  fs_spec P m Q0 R -> (forall a, fs_spec (Q0 a) (k a) Q R) -> fs_spec P (mbind k m) Q R.
Proof.
  intros Hm Hk f r f' Hf Hrun. unfold mbind, stateful_bind in Hrun.
  destruct (m f) as [[a|e] f1] eqn:Hr.
  - eapply Hk; [|done]. by apply (Hm f (Ok a) f1).
  - injection Hrun as <- <-. by apply (Hm f (Err e) f1).
Qed.

(** A [gets] hands the tree on. *)
Lemma fs_spec_gets P (g : FsTree -> A) (k : A -> fs B) (Q : B -> FsTree -> Prop) R :
  (forall t, P t -> fs_spec (fun t' => t' = t) (k (g t)) Q R) ->
  fs_spec P (x ← gets (fun f => g (fs_tree f)); k x) Q R.
Proof. intros Hk f r f' Hf Hrun. by eapply (Hk (fs_tree f)). Qed.

Lemma fs_spec_syscall P detail (body : FsTree -> option (A * FsTree)) (Q : A -> FsTree -> Prop) R :
  (forall t a t', P t -> body t = Some (a, t') -> Q a t') -> (forall t, P t -> R t) ->
  fs_spec P (syscall detail body) Q R.
Proof.
  intros HQ HR f r f' Hf. unfold syscall.
  destruct (head (fs_fates f)) as [[]|]; [|intros [= <- <-]; cbn; by apply HR..|];
    (destruct (body (fs_tree f)) as [[a t]|] eqn:Hb; intros [= <- <-]; cbn; [by eapply HQ|by apply HR]).
Qed.

Lemma fs_spec_pure (φ : Prop) P (m : fs A) (Q : A -> FsTree -> Prop) R :
  (φ -> fs_spec P m Q R) -> fs_spec (fun t => φ /\ P t) m Q R.
Proof. intros H f r f' [Hφ Hf] Hrun. by apply (H Hφ f r f'). Qed.

Lemma fs_spec_each P (m : fs A) (Q : A -> FsTree -> Prop) R :
  (forall t, P t -> fs_spec (fun t' => t' = t) m Q R) -> fs_spec P m Q R.
Proof. intros H f r f' Hf Hrun. by apply (H _ Hf f r f'). Qed.

Lemma fs_runs_weaken P P' (m : fs A) (Q Q' : A -> FsTree -> Prop) :
  fs_runs P m Q -> (forall t, P' t -> P t) -> (forall a t, Q a t -> Q' a t) -> fs_runs P' m Q'.
Proof. intros H HP HQ t Ht. destruct (H t (HP t Ht)) as (a & t' & ? & ?). exists a, t'. auto. Qed.

Lemma fs_runs_ret P (a : A) (Q : A -> FsTree -> Prop) :
  (forall t, P t -> Q a t) -> fs_runs P (mret a) Q.
Proof. intros H t Ht. exists a, t. split; [done|auto]. Qed.

Lemma fs_runs_bind P (m : fs A) (k : A -> fs B) (Q0 : A -> FsTree -> Prop) (Q : B -> FsTree -> Prop) :
  fs_runs P m Q0 -> (forall a, fs_runs (Q0 a) (k a) Q) -> fs_runs P (mbind k m) Q.
Proof.
  intros Hm Hk t Ht. destruct (Hm t Ht) as (a & t1 & Hrun & H1). destruct (Hk a t1 H1) as (b & t2 & Hrun2 & H2).
  exists b, t2. split; [|done]. unfold mbind, stateful_bind. by rewrite Hrun.
Qed.

Lemma fs_runs_syscall P detail (body : FsTree -> option (A * FsTree)) (Q : A -> FsTree -> Prop) :
  (forall t, P t -> exists a t', body t = Some (a, t') /\ Q a t') -> fs_runs P (syscall detail body) Q.
Proof.
  intros H t Ht. destruct (H t Ht) as (a & t' & Hb & HQ). exists a, t'. split; [|done].
  unfold syscall. cbn. by rewrite Hb.
Qed.

Lemma fs_runs_each P (m : fs A) (Q : A -> FsTree -> Prop) :
  (forall t, P t -> fs_runs (fun t' => t' = t) m Q) -> fs_runs P m Q.
Proof. intros H t Ht. by apply (H t Ht t). Qed.
End Rules.

(* ------------------------------------------------------------------ *)
(** ** Rules for the calls of a program *)

Section Calls.
Context {A B : Type}.
Implicit Types (detail : string) (p : FsPath) (paths : list FsPath) (P R : FsTree -> Prop).

Lemma fs_spec_get P (k : FsTree -> fs B) (Q : B -> FsTree -> Prop) R :
  (forall t, P t -> fs_spec (eq t) (k t) Q R) -> fs_spec P (t ← gets fs_tree; k t) Q R.
Proof. intros Hk f r f' Hf Hrun. by eapply (Hk (fs_tree f)). Qed.

Lemma fs_spec_seq P (m : fs A) (k : fs B) (Q0 : FsTree -> Prop) (Q : B -> FsTree -> Prop) R :
  fs_spec P m (fun _ => Q0) R -> fs_spec Q0 k Q R -> fs_spec P (_ ← m; k) Q R.
Proof. intros Hm Hk. by eapply fs_spec_bind. Qed.

Lemma fs_runs_seq P (m : fs A) (k : fs B) (Q0 : FsTree -> Prop) (Q : B -> FsTree -> Prop) :
  fs_runs P m (fun _ => Q0) -> fs_runs Q0 k Q -> fs_runs P (_ ← m; k) Q.
Proof. intros Hm Hk. by eapply fs_runs_bind. Qed.

(** A computation that only answers. *)
Lemma fs_spec_known P (m : fs A) a (k : A -> fs B) (Q : B -> FsTree -> Prop) R :
  (forall f, m f = (Ok a, f)) -> fs_spec P (k a) Q R -> fs_spec P (mbind k m) Q R.
Proof.
  intros Hm Hk f r f' Hf Hrun. unfold mbind, stateful_bind in Hrun. rewrite Hm in Hrun. by eapply Hk.
Qed.

Lemma fs_runs_get P (k : FsTree -> fs B) (Q : B -> FsTree -> Prop) :
  (forall t, P t -> fs_runs (eq t) (k t) Q) -> fs_runs P (t ← gets fs_tree; k t) Q.
Proof. intros Hk t Ht. by apply (Hk t Ht t). Qed.

Lemma fs_runs_known P (m : fs A) a (k : A -> fs B) (Q : B -> FsTree -> Prop) :
  (forall f, m f = (Ok a, f)) -> fs_runs P (k a) Q -> fs_runs P (mbind k m) Q.
Proof.
  intros Hm Hk t Ht. destruct (Hk t Ht) as (b & t' & Hrun & HQ). exists b, t'. split; [|done].
  unfold mbind, stateful_bind. by rewrite Hm.
Qed.
End Calls.

(** Nothing at [p] and below; the same entries below [p] and below [q]; one
    file at [p]. *)
Definition clear (p : FsPath) (t : FsTree) : Prop := forall rest, t !! (p ++ rest) = None.
Definition same_below (p : FsPath) (t : FsTree) (q : FsPath) (u : FsTree) : Prop :=
  forall rest, t !! (p ++ rest) = u !! (q ++ rest).
Definition single_file (p : FsPath) (content : string) (t : FsTree) : Prop :=
  t !! p = Some (FsFile content) /\ forall c rest, t !! (p ++ c :: rest) = None.

Lemma clear_lookup p t : clear p t -> t !! p = None.
Proof. intros H. by rewrite <- (app_nil_r p). Qed.

Lemma same_below_lookup p t q u : same_below p t q u -> t !! p = u !! q.
Proof. intros H. specialize (H []). by rewrite !app_nil_r in H. Qed.

Lemma same_below_trans p t q u r w : same_below p t q u -> same_below q u r w -> same_below p t r w.
Proof. intros H1 H2 rest. by rewrite H1, H2. Qed.

Lemma same_below_clear p t q u : same_below p t q u -> clear q u -> clear p t.
Proof. intros H1 H2 rest. by rewrite H1, H2. Qed.

Lemma same_below_single p t q u content :
  same_below p t q u -> single_file q content u -> single_file p content t.
Proof.
  intros H1 [H2 H3]. split; [by rewrite (same_below_lookup p t q u H1)|]. intros c rest. by rewrite H1, H3.
Qed.

Lemma single_file_same p content t q v :
  single_file p content t -> single_file q content v -> same_below p t q v.
Proof. intros [H1 H2] [H3 H4] [|c rest]; [by rewrite !app_nil_r, H1, H3|by rewrite H2, H4]. Qed.

Lemma single_file_delete p content t : single_file p content t -> clear p (delete p t).
Proof.
  intros [_ H] [|c rest]; [by rewrite app_nil_r, lookup_delete_eq|].
  apply lookup_delete_None. right. apply H.
Qed.

(** What a single changed entry leaves alone. *)
Lemma apart_ne_app p q rest : apart p q -> p <> q ++ rest.
Proof. intros Hap Heq. rewrite <- (app_nil_r p) in Heq. by apply (apart_apps p q [] rest Hap). Qed.

Lemma insert_other p q n t : apart p q -> same_below q (<[p := n]> t) q t.
Proof. intros Hap rest. apply lookup_insert_ne. by apply apart_ne_app. Qed.

Lemma delete_other p q t : apart p q -> same_below q (delete p t) q t.
Proof. intros Hap rest. apply lookup_delete_ne. by apply apart_ne_app. Qed.

Lemma clear_delete p q t : clear p t -> clear p (delete q t).
Proof. intros H rest. apply lookup_delete_None. right. apply H. Qed.

Lemma single_file_insert p content t : clear p t -> single_file p content (<[p := FsFile content]> t).
Proof.
  intros H. split; [apply lookup_insert_eq|]. intros c rest. rewrite lookup_insert_ne; [apply H|].
  intros Heq. rewrite <- (app_nil_r p) in Heq at 1. by apply app_inv_head in Heq.
Qed.

(** A move, by what it does to the two subtrees and to the rest. *)
Lemma move_there src dst t : apart src dst -> clear dst t -> same_below dst (move_tree src dst t) src t.
Proof. intros Hap Hc rest. by rewrite lookup_move, strip_app. Qed.

Lemma move_gone src dst t : apart src dst -> clear dst t -> clear src (move_tree src dst t).
Proof.
  intros Hap Hc rest. rewrite lookup_move, apart_app by (done || by apply apart_sym). by rewrite strip_app.
Qed.

Lemma move_other src dst q t :
  apart src dst -> clear dst t -> apart src q -> apart dst q -> same_below q (move_tree src dst t) q t.
Proof. intros Hap Hc Hs Hd rest. apply move_frame; [done..| |]; by apply apart_app. Qed.

(** The tree as a file system keeps it: what contains something is a directory. *)
Definition tree_wf (t : FsTree) : Prop :=
  forall p c, is_Some (t !! (p ++ [c])) -> fs_is_dir p t = true.

Lemma tree_wf_parent p t : tree_wf t -> p <> [] -> is_Some (t !! p) -> parent_is_dir p t = true.
Proof.
  intros Hwf Hp Ht. destruct (exists_last Hp) as (q & c & ->).
  unfold parent_is_dir. destruct (q ++ [c]) eqn:Heq; [by destruct q|]. rewrite <- Heq in *.
  rewrite removelast_last. by apply (Hwf q c).
Qed.

Lemma tree_wf_below p t : tree_wf t -> p <> [] -> fs_is_dir p t = false ->
  forall c rest, t !! (p ++ c :: rest) = None.
Proof.
  intros Hwf Hp Hdir c rest. apply eq_None_not_Some. revert c.
  induction rest as [|d rest IH] using rev_ind; intros c Hsome.
  - apply (Hwf p c) in Hsome. congruence.
  - change (p ++ c :: rest ++ [d]) with (p ++ (c :: rest) ++ [d]) in Hsome. rewrite app_assoc in Hsome.
    apply Hwf in Hsome. apply (IH c). unfold fs_is_dir, fs_node in Hsome.
    destruct (p ++ c :: rest) eqn:Heq; [by destruct p|]. rewrite <- Heq in *.
    by destruct (t !! (p ++ c :: rest)).
Qed.

Lemma tree_wf_clear p t : tree_wf t -> p <> [] -> t !! p = None -> clear p t.
Proof.
  intros Hwf Hp Hnone [|c rest]; [by rewrite app_nil_r|]. apply tree_wf_below; [done..|].
  unfold fs_is_dir, fs_node. destruct p; [done|]. by rewrite Hnone.
Qed.

Lemma tree_wf_single p content t : tree_wf t -> t !! p = Some (FsFile content) -> p <> [] -> single_file p content t.
Proof.
  intros Hwf Hfile Hp. split; [done|]. apply tree_wf_below; [done..|].
  unfold fs_is_dir, fs_node. destruct p; [done|]. by rewrite Hfile.
Qed.

Lemma fs_exists_true p t : p <> [] -> fs_exists p t = true <-> is_Some (t !! p).
Proof. intros Hp. unfold fs_exists. rewrite bool_decide_eq_true. by destruct p. Qed.

Lemma fs_exists_false p t : p <> [] -> fs_exists p t = false <-> t !! p = None.
Proof. intros Hp. rewrite <- not_true_iff_false, fs_exists_true, <- eq_None_not_Some by done. done. Qed.

Lemma fs_is_file_true p t : p <> [] -> fs_is_file p t = true <-> exists content, t !! p = Some (FsFile content).
Proof.
  intros Hp. unfold fs_is_file, fs_node. destruct p; [done|]. destruct (t !! _) as [[]|]; naive_solver.
Qed.

(* ------------------------------------------------------------------ *)
(** ** Rules for the system calls *)

Section Syscalls.
Implicit Types (detail : string) (p : FsPath) (paths : list FsPath) (P R : FsTree -> Prop) (Q : () -> FsTree -> Prop).

Lemma fs_spec_rename P detail src dst Q R :
  apart src dst -> (forall t, P t -> clear dst t) ->
  (forall t, P t -> is_Some (t !! src) -> Q () (move_tree src dst t)) -> (forall t, P t -> R t) ->
  fs_spec P (fs_rename detail src dst) Q R.
Proof.
  intros Hap Hclear HQ HR. apply fs_spec_syscall; [|done]. intros t [] t' Ht Hbody.
  destruct (t !! src) as [node|] eqn:Hsrc; [|done]. rewrite decide_False in Hbody by (by apply apart_ne).
  destruct (_ || _); [done|]. rewrite clear_lookup in Hbody by auto. injection Hbody as <-. by apply HQ.
Qed.

Lemma fs_runs_rename P detail src dst Q :
  apart src dst -> (forall t, P t -> clear dst t /\ is_Some (t !! src) /\ parent_is_dir dst t = true) ->
  (forall t, P t -> Q () (move_tree src dst t)) -> fs_runs P (fs_rename detail src dst) Q.
Proof.
  intros Hap HP HQ. apply fs_runs_syscall. intros t Ht. exists (), (move_tree src dst t). split; [|by apply HQ].
  destruct (HP t Ht) as (Hclear & [node Hsrc] & Hdir).
  rewrite Hsrc, decide_False by (by apply apart_ne). destruct Hap as [Hap _]. rewrite Hap, Hdir. cbn.
  by rewrite clear_lookup.
Qed.

Lemma fs_spec_remove_file P detail p Q R :
  p <> [] -> (forall t content, P t -> t !! p = Some (FsFile content) -> Q () (delete p t)) ->
  (forall t, P t -> R t) -> fs_spec P (fs_remove_file detail p) Q R.
Proof.
  intros Hp HQ HR. apply fs_spec_syscall; [|done]. intros t [] t' Ht Hbody.
  destruct (fs_is_file p t) eqn:Hfile; [|done]. apply fs_is_file_true in Hfile as [content Hfile]; [|done].
  injection Hbody as <-. by eapply HQ.
Qed.

Lemma fs_runs_remove_file P detail p Q :
  p <> [] -> (forall t, P t -> (exists content, t !! p = Some (FsFile content)) /\ Q () (delete p t)) ->
  fs_runs P (fs_remove_file detail p) Q.
Proof.
  intros Hp HP. apply fs_runs_syscall. intros t Ht. destruct (HP t Ht) as [Hfile HQ].
  exists (), (delete p t). split; [|done]. by apply fs_is_file_true in Hfile as ->.
Qed.

Lemma fs_spec_read P detail p (Q : string -> FsTree -> Prop) R :
  (forall t content, P t -> t !! p = Some (FsFile content) -> Q content t) -> (forall t, P t -> R t) ->
  fs_spec P (fs_read detail p) Q R.
Proof.
  intros HQ HR. apply fs_spec_syscall; [|done]. intros t content t' Ht Hbody.
  destruct (t !! p) as [[|]|] eqn:Hp; [|done..]. injection Hbody as <- <-. by apply HQ.
Qed.

Lemma fs_runs_read P detail p content (Q : string -> FsTree -> Prop) :
  (forall t, P t -> t !! p = Some (FsFile content) /\ Q content t) -> fs_runs P (fs_read detail p) Q.
Proof.
  intros HP. apply fs_runs_syscall. intros t Ht. destruct (HP t Ht) as [Hp HQ]. exists content, t.
  by rewrite Hp.
Qed.

Lemma fs_spec_create_dir P detail p Q R :
  p <> [] -> (forall t, P t -> t !! p = None -> Q () (<[p := FsDirectory]> t)) -> (forall t, P t -> R t) ->
  fs_spec P (fs_create_dir detail p) Q R.
Proof.
  intros Hp HQ HR. apply fs_spec_syscall; [|done]. intros t [] t' Ht Hbody.
  destruct (_ && _) eqn:Hok; [|done]. apply andb_true_iff in Hok as [Hnew%negb_true_iff _].
  apply fs_exists_false in Hnew; [|done]. injection Hbody as <-. by apply HQ.
Qed.

(** Removing a tree of entries one after the other, [p] itself last. *)
Lemma remove_entries_app detail paths paths' :
  forall f, remove_entries detail (paths ++ paths') f =
    (_ ← remove_entries detail paths; remove_entries detail paths') f.
Proof.
  induction paths as [|q paths IH]; intros f; [done|].
  cbn [remove_entries app]. unfold mbind, stateful_bind in *. destruct (syscall _ _ f) as [[]]; [apply IH|done].
Qed.

Lemma fs_spec_remove_entries P detail p paths :
  (forall t c rest, P t -> P (delete (p ++ c :: rest) t)) ->
  Forall (fun q => exists c rest, q = p ++ c :: rest) paths ->
  fs_spec (fun t => P t /\ forall c rest, is_Some (t !! (p ++ c :: rest)) -> (p ++ c :: rest) ∈ paths)
    (remove_entries detail paths) (fun _ t => P t /\ forall c rest, t !! (p ++ c :: rest) = None) P.
Proof.
  intros Hclosed. induction 1 as [|q paths (c & rest & ->) Hall IH]; cbn [remove_entries].
  - apply fs_spec_ret. intros t [HP Hin]. split; [done|]. intros c rest. apply eq_None_not_Some.
    intros Hsome%Hin. by apply not_elem_of_nil in Hsome.
  - eapply fs_spec_seq; [|apply IH]. apply fs_spec_syscall; [|by intros t []].
    intros t [] t' [HP Hin] Hbody. destruct (t !! _) eqn:Ht; [|done]. injection Hbody as <-. split; [by apply Hclosed|].
    intros c' rest' [n [Hne Hn]%lookup_delete_Some].
    pose proof (Hin c' rest' (ex_intro _ _ Hn)) as [Heq|?]%elem_of_cons; [by rewrite Heq in Hne|done].
Qed.

Lemma elem_of_removal p t q :
  q ∈ merge_sort path_ge (fs_below p t) <-> is_Some (t !! q) /\ exists c rest, q = p ++ c :: rest.
Proof. by rewrite merge_sort_Permutation, elem_of_fs_below. Qed.

Lemma removal_proper p t : Forall (fun q => exists c rest, q = p ++ c :: rest) (merge_sort path_ge (fs_below p t)).
Proof. apply Forall_forall. by intros q [_ ?]%elem_of_removal. Qed.

Lemma clear_delete_self p t : (forall c rest, t !! (p ++ c :: rest) = None) -> clear p (delete p t).
Proof.
  intros H [|c rest]; [by rewrite app_nil_r, lookup_delete_eq|]. apply lookup_delete_None. right. apply H.
Qed.

Lemma fs_spec_remove_dir_all P detail p (Q : () -> FsTree -> Prop) :
  (forall t c rest, P t -> P (delete (p ++ c :: rest) t)) ->
  (forall t, P t -> (forall c rest, t !! (p ++ c :: rest) = None) -> Q () (delete p t)) ->
  fs_spec P (fs_remove_dir_all detail p) Q P.
Proof.
  intros Hclosed HQ. apply fs_spec_get. intros t Ht.
  destruct (fs_is_dir p t); [|by apply fs_spec_throw; intros ? <-].
  intros f r f' Hf Hrun. rewrite remove_entries_app in Hrun. revert f r f' Hf Hrun.
  eapply fs_spec_seq.
  - eapply fs_spec_weaken; [apply (fs_spec_remove_entries P _ p _ Hclosed), removal_proper| |done..].
    intros ? <-. split; [done|]. intros c rest Hsome. apply elem_of_removal. eauto.
  - cbn [remove_entries]. apply (fs_spec_seq _ _ _ (Q ())); [|by apply fs_spec_ret; intros ? ?].
    apply fs_spec_syscall; [|by intros t' []].
    intros t' [] t'' [HP Hnone] Hbody. destruct (t' !! p); [|done]. injection Hbody as <-. by apply HQ.
Qed.

Lemma fs_runs_remove_entries P detail p paths :
  (forall t c rest, P t -> P (delete (p ++ c :: rest) t)) ->
  Forall (fun q => exists c rest, q = p ++ c :: rest) paths -> NoDup paths ->
  fs_runs (fun t => P t /\ (forall c rest, is_Some (t !! (p ++ c :: rest)) -> (p ++ c :: rest) ∈ paths) /\
             Forall (fun q => is_Some (t !! q)) paths)
    (remove_entries detail paths) (fun _ t => P t /\ forall c rest, t !! (p ++ c :: rest) = None).
Proof.
  intros Hclosed Hall Hnd. induction Hnd as [|q paths Hq Hnd IH]; cbn [remove_entries].
  - apply fs_runs_ret. intros t (HP & Hin & _). split; [done|]. intros c rest. apply eq_None_not_Some.
    intros Hsome%Hin. by apply not_elem_of_nil in Hsome.
  - apply Forall_cons in Hall as [(c & rest & ->) Hall].
    eapply fs_runs_seq; [|by apply IH]. apply fs_runs_syscall.
    intros t (HP & Hin & [[n Hn] Hpaths]%Forall_cons). rewrite Hn. eexists _, _. split; [done|].
    split_and!; [by apply Hclosed| |].
    + intros c' rest' [n' [Hne Hn']%lookup_delete_Some].
      pose proof (Hin c' rest' (ex_intro _ _ Hn')) as [Heq|?]%elem_of_cons; [by rewrite Heq in Hne|done].
    + rewrite Forall_forall in *. intros q Hin'. rewrite lookup_delete_ne by congruence. by apply Hpaths.
Qed.

Lemma fs_runs_remove_dir_all P detail p (Q : () -> FsTree -> Prop) :
  p <> [] -> (forall t, P t -> t !! p = Some FsDirectory) ->
  (forall t c rest, P t -> P (delete (p ++ c :: rest) t)) ->
  (forall t, P t -> (forall c rest, t !! (p ++ c :: rest) = None) -> Q () (delete p t)) ->
  fs_runs P (fs_remove_dir_all detail p) Q.
Proof.
  intros Hp Hdir Hclosed HQ. apply fs_runs_get. intros t Ht.
  assert (fs_is_dir p t = true) as -> by (unfold fs_is_dir, fs_node; destruct p; [done|]; by rewrite Hdir).
  intros t0 <-. rewrite remove_entries_app. revert t Ht. intros t Ht.
  eapply (fs_runs_seq (eq t)); [| |done].
  - eapply fs_runs_weaken; [apply (fs_runs_remove_entries P _ p)| |]; [done|apply removal_proper| | |].
    + rewrite merge_sort_Permutation. unfold fs_below.
      apply NoDup_ListNoDup, List.NoDup_filter, NoDup_ListNoDup, NoDup_fst_map_to_list.
    + intros ? <-. split_and!; [done| |].
      * intros c rest Hsome. apply elem_of_removal. eauto.
      * apply Forall_forall. by intros q [Hq _]%elem_of_removal.
    + intros ? t' Ht'. exact Ht'.
  - cbn [remove_entries]. apply (fs_runs_seq _ _ _ (Q ())); [|by apply fs_runs_ret; intros ? ?].
    apply fs_runs_syscall. intros t' [HP Hnone]. rewrite (Hdir t') by done. eexists _, _. split; [done|]. by apply HQ.
Qed.

Lemma fs_spec_ignore P (m : fs ()) :
  fs_spec P m (fun _ => P) P -> fs_spec P (ignore_failure m) (fun _ => P) P.
Proof.
  intros Hm f r f' Hf. unfold ignore_failure. destruct (m f) as [[a|[detail|]] f1] eqn:Hrun;
    intros [= <- <-]; exact (Hm f _ _ Hf Hrun).
Qed.

Lemma fs_spec_remove_dir P detail p :
  (forall t, P t -> P (delete p t)) -> fs_spec P (fs_remove_dir detail p) (fun _ => P) P.
Proof.
  intros Hclosed. apply fs_spec_syscall; [|done]. intros t [] t' Ht Hbody.
  destruct (t !! p) as [[]|]; [done| |done]. destruct (fs_below p t); [|done]. injection Hbody as <-. by apply Hclosed.
Qed.

Lemma fs_runs_ignore_remove_dir P detail p :
  (forall t, P t -> P (delete p t)) -> fs_runs P (ignore_failure (fs_remove_dir detail p)) (fun _ => P).
Proof.
  intros Hclosed t Ht. unfold ignore_failure, fs_remove_dir, syscall. cbn.
  destruct (t !! p) as [[]|]; [by eauto| |by eauto]. destruct (fs_below p t); eauto.
Qed.
End Syscalls.

Section MoreCalls.
Implicit Types (detail : string) (p : FsPath) (P R : FsTree -> Prop) (Q : () -> FsTree -> Prop).

Lemma fs_spec_create_new P detail p Q R :
  p <> [] -> (forall t, P t -> t !! p = None -> Q () (<[p := FsFile ""]> t)) -> (forall t, P t -> R t) ->
  fs_spec P (fs_create_new detail p) Q R.
Proof.
  intros Hp HQ HR. apply fs_spec_syscall; [|done]. intros t [] t' Ht Hbody.
  destruct (_ && _) eqn:Hok; [|done]. apply andb_true_iff in Hok as [Hnew%negb_true_iff _].
  apply fs_exists_false in Hnew; [|done]. injection Hbody as <-. by apply HQ.
Qed.

Lemma fs_spec_write_all P detail p content Q R :
  (forall t, P t -> Q () (<[p := FsFile content]> t)) -> (forall t, P t -> R t) ->
  fs_spec P (fs_write_all detail p content) Q R.
Proof.
  intros HQ HR. apply fs_spec_syscall; [|done]. intros t [] t' Ht Hbody.
  destruct (fs_is_file p t); [|done]. injection Hbody as <-. by apply HQ.
Qed.

Lemma fs_spec_attempt {A : Type} P (m : fs A) (Q : A -> FsTree -> Prop) R :
  fs_spec P m Q R ->
  fs_spec P (attempt m) (fun r t => match r with Ok a => Q a t | Err _ => R t end) R.
Proof.
  intros Hm f r f' Hf. unfold attempt. destruct (m f) as [[a|[detail|]] f1] eqn:Hrun;
    intros [= <- <-]; exact (Hm f _ _ Hf Hrun).
Qed.
End MoreCalls.

(* ------------------------------------------------------------------ *)
(** * Trees stay well-formed *)

#[local] Open Scope string_scope.
#[local] Open Scope list_scope.

Definition fs_keeps (P : FsTree -> Prop) {A : Type} (m : fs A) : Prop := fs_spec P m (fun _ => P) P.

Create HintDb fs_keeps.

Section Keeps.
Variable P : FsTree -> Prop.
Context {A B : Type}.

Lemma keeps_ret (a : A) : fs_keeps P (mret a).
Proof. by apply fs_spec_ret. Qed.
Lemma keeps_throw (e : FsError) : fs_keeps P (throw (A := A) e).
Proof. by apply fs_spec_throw. Qed.
Lemma keeps_try (o : result FsError A) : fs_keeps P (try o).
Proof. by apply fs_spec_try. Qed.
Lemma keeps_gets (f : Filesystem -> A) : fs_keeps P (gets f).
Proof. by intros f' r f'' Hf [= <- <-]. Qed.
Lemma keeps_bind (m : fs A) (k : A -> fs B) : fs_keeps P m -> (forall a, fs_keeps P (k a)) -> fs_keeps P (mbind k m).
Proof. intros Hm Hk. by apply (fs_spec_bind _ _ _ (fun _ => P)). Qed.
Lemma keeps_ignore (m : fs ()) : fs_keeps P m -> fs_keeps P (ignore_failure m).
Proof. apply fs_spec_ignore. Qed.
Lemma keeps_attempt (m : fs A) : fs_keeps P m -> fs_keeps P (attempt m).
Proof.
  intros Hm f r f' Hf. unfold attempt. destruct (m f) as [[a|[detail|]] f1] eqn:Hrun;
    intros [= <- <-]; exact (Hm f _ _ Hf Hrun).
Qed.
Lemma keeps_syscall detail (body : FsTree -> option (A * FsTree)) :
  (forall t a t', P t -> body t = Some (a, t') -> P t') -> fs_keeps P (syscall detail body).
Proof. intros H. by apply fs_spec_syscall. Qed.
End Keeps.

Lemma keeps_read P detail p : fs_keeps P (fs_read detail p).
Proof. apply keeps_syscall. intros t content t' Ht. by case_match; [case_match|]; intros [= _ <-]. Qed.

#[export] Hint Resolve keeps_ret keeps_throw keeps_try keeps_gets keeps_ignore keeps_attempt keeps_read : fs_keeps.

(** Follows a program down to its calls. *)
Ltac fs_keeps :=
  repeat first
    [ solve [auto with fs_keeps]
    | match goal with |- fs_keeps _ (mbind _ _) => apply keeps_bind; [|intros ?] end
    | progress cbv zeta
    | case_match ].

(* ------------------------------------------------------------------ *)
(** ** Well-formed trees *)

Lemma fs_is_dir_lookup p t : p <> [] -> fs_is_dir p t = true <-> t !! p = Some FsDirectory.
Proof. unfold fs_is_dir, fs_node. destruct p; [done|]. intros _. by destruct (t !! _) as [[]|]. Qed.

Lemma fs_is_dir_insert p q n t : p <> q -> fs_is_dir q t = true -> fs_is_dir q (<[p := n]> t) = true.
Proof.
  intros Hne. destruct q as [|c q]; [done|]. rewrite !fs_is_dir_lookup by done. by rewrite lookup_insert_ne.
Qed.

Lemma parent_is_dir_snoc p c t : parent_is_dir (p ++ [c]) t = fs_is_dir p t.
Proof. unfold parent_is_dir. rewrite removelast_last. by destruct p. Qed.

(** A new entry below a directory. *)
Lemma tree_wf_insert p n t : tree_wf t -> t !! p = None -> parent_is_dir p t = true -> tree_wf (<[p := n]> t).
Proof.
  intros Hwf Hnone Hparent q c Hsome.
  assert (p <> q) as Hne.
  { intros ->. rewrite lookup_insert_ne in Hsome by (intros Heq; by apply (f_equal length) in Heq; rewrite length_app in Heq; cbn in Heq; lia).
    apply Hwf in Hsome. destruct q; [done|]. apply fs_is_dir_lookup in Hsome; [congruence|done]. }
  apply fs_is_dir_insert; [done|]. destruct (decide (p = q ++ [c])) as [->|Hp].
  - by rewrite parent_is_dir_snoc in Hparent.
  - rewrite lookup_insert_ne in Hsome by done. by eapply Hwf.
Qed.

(** An entry that stays a file. *)
Lemma tree_wf_overwrite p content n t : tree_wf t -> t !! p = Some (FsFile content) -> tree_wf (<[p := FsFile n]> t).
Proof.
  intros Hwf Hp q c Hsome.
  assert (is_Some (t !! (q ++ [c]))) as Ht by (by apply lookup_insert_is_Some' in Hsome as [<-|?]; [eexists|]).
  apply Hwf in Ht. destruct (decide (p = q)) as [->|Hne]; [|by apply fs_is_dir_insert].
  unfold fs_is_dir, fs_node in *. destruct q; [done|]. by rewrite Hp in Ht.
Qed.

(** An entry with nothing below it. *)
Lemma tree_wf_delete p t : tree_wf t -> (forall c rest, t !! (p ++ c :: rest) = None) -> tree_wf (delete p t).
Proof.
  intros Hwf Hbelow q c [n [Hne Hn]%lookup_delete_Some].
  pose proof (Hwf q c (ex_intro _ _ Hn)) as Hdir. destruct q as [|d q]; [done|].
  rewrite fs_is_dir_lookup in * by done. rewrite lookup_delete_ne; [done|]. intros ->. by rewrite Hbelow in Hn.
Qed.

Lemma tree_wf_delete_file p content t : tree_wf t -> p <> [] -> t !! p = Some (FsFile content) -> tree_wf (delete p t).
Proof.
  intros Hwf Hne Hp. apply tree_wf_delete; [done|]. apply tree_wf_below; [done..|].
  unfold fs_is_dir, fs_node. destruct p; [done|]. by rewrite Hp.
Qed.

Lemma fs_below_nil p t : fs_below p t = [] -> forall c rest, t !! (p ++ c :: rest) = None.
Proof.
  intros Hnil c rest. apply eq_None_not_Some. intros Hsome.
  assert ((p ++ c :: rest) ∈ fs_below p t) as Hin by (apply elem_of_fs_below; eauto).
  rewrite Hnil in Hin. by apply not_elem_of_nil in Hin.
Qed.

(** A subtree moved to a free place below a directory. *)
Lemma tree_wf_move src dst t : tree_wf t -> apart src dst -> clear dst t -> parent_is_dir dst t = true ->
  tree_wf (move_tree src dst t).
Proof.
  intros Hwf Hap Hclear Hparent q c Hsome. rewrite lookup_move in Hsome by done.
  pose proof Hap as [Hsd Hds]. destruct (apart_nonempty _ _ Hap) as [Hs Hd].
  destruct (decide (q = [])) as [->|Hq]; [done|].
  assert (forall base, strip base (q ++ [c]) = None -> strip base q = None) as Hup.
  { intros base Hnone. apply strip_None. intros rest ->. apply (proj1 (strip_None _ _) Hnone (rest ++ [c])).
    by rewrite app_assoc. }
  apply fs_is_dir_lookup; [done|]. rewrite lookup_move by done.
  destruct (strip dst (q ++ [c])) as [rest|] eqn:Hdst.
  - apply strip_Some in Hdst. destruct (decide (rest = [])) as [->|Hrest].
    + rewrite app_nil_r in Hdst. subst dst. rewrite parent_is_dir_snoc in Hparent.
      assert (strip (q ++ [c]) q = None) as ->.
      { apply strip_None. intros rest Heq. apply (f_equal length) in Heq. rewrite !length_app in Heq. cbn in Heq. lia. }
      rewrite (Hup _ Hsd). by apply fs_is_dir_lookup.
    + destruct (exists_last Hrest) as (rest' & c' & ->). rewrite app_assoc in Hdst.
      apply app_inj_tail in Hdst as [-> ->]. rewrite strip_app.
      rewrite app_assoc in Hsome. apply Hwf in Hsome. apply fs_is_dir_lookup; [|done]. by destruct src.
  - destruct (strip src (q ++ [c])) as [rest|] eqn:Hsrc; [by destruct Hsome|].
    rewrite (Hup _ Hdst), (Hup _ Hsrc). apply Hwf in Hsome. by apply fs_is_dir_lookup.
Qed.

(* ------------------------------------------------------------------ *)
(** ** The calls keep trees well-formed *)

Lemma wf_create_dir detail p : fs_keeps tree_wf (fs_create_dir detail p).
Proof.
  apply keeps_syscall. intros t [] t' Hwf. destruct (_ && _) eqn:Hok; intros [= <-].
  apply andb_true_iff in Hok as [Hnew%negb_true_iff Hparent]. apply tree_wf_insert; [done| |done].
  destruct p; [done|]. by apply fs_exists_false.
Qed.

Lemma wf_create_new detail p : fs_keeps tree_wf (fs_create_new detail p).
Proof.
  apply keeps_syscall. intros t [] t' Hwf. destruct (_ && _) eqn:Hok; intros [= <-].
  apply andb_true_iff in Hok as [Hnew%negb_true_iff Hparent]. apply tree_wf_insert; [done| |done].
  destruct p; [done|]. by apply fs_exists_false.
Qed.

Lemma wf_write_all detail p content : fs_keeps tree_wf (fs_write_all detail p content).
Proof.
  apply keeps_syscall. intros t [] t' Hwf. destruct (fs_is_file p t) eqn:Hfile; intros [= <-].
  destruct p as [|c p]; [done|]. apply fs_is_file_true in Hfile as [old Hold]; [|done]. by eapply tree_wf_overwrite.
Qed.

Lemma wf_remove_file detail p : fs_keeps tree_wf (fs_remove_file detail p).
Proof.
  apply keeps_syscall. intros t [] t' Hwf. destruct (fs_is_file p t) eqn:Hfile; intros [= <-].
  destruct p as [|c p]; [done|]. apply fs_is_file_true in Hfile as [old Hold]; [|done]. by eapply tree_wf_delete_file.
Qed.

Lemma wf_remove_dir detail p : fs_keeps tree_wf (fs_remove_dir detail p).
Proof.
  apply keeps_syscall. intros t [] t' Hwf. repeat (case_match; try done). intros [= <-].
  apply tree_wf_delete; [done|]. by apply fs_below_nil.
Qed.

Lemma wf_hard_link detail original link : fs_keeps tree_wf (fs_hard_link detail original link).
Proof.
  apply keeps_syscall. intros t [] t' Hwf. destruct (t !! original) as [[content|]|]; [|done..].
  destruct (_ && _) eqn:Hok; intros [= <-].
  apply andb_true_iff in Hok as [Hnew%negb_true_iff Hparent]. apply tree_wf_insert; [done| |done].
  destruct link; [done|]. by apply fs_exists_false.
Qed.

(** What a rename replaces has nothing below it. *)
Lemma wf_rename_onto src dst node t : tree_wf t -> t !! src = Some node -> src <> dst -> src <> [] ->
  strip src dst = None -> parent_is_dir dst t = true ->
  (forall c rest, t !! (dst ++ c :: rest) = None) ->
  tree_wf (move_tree src dst (delete dst t)).
Proof.
  intros Hwf Hsrc Hne Hs Hsd Hparent Hbelow.
  assert (apart src dst) as Hap.
  { split; [done|]. apply strip_None. intros [|c rest] ->; [by rewrite app_nil_r in Hne|].
    by rewrite Hbelow in Hsrc. }
  apply tree_wf_move; [by apply tree_wf_delete|done|by apply clear_delete_self|].
  destruct (apart_nonempty _ _ Hap) as [_ Hd]. destruct (exists_last Hd) as (d & e & ->).
  rewrite parent_is_dir_snoc in *. destruct d as [|c d]; [done|]. rewrite fs_is_dir_lookup in * by done.
  rewrite lookup_delete_ne; [done|]. intros Heq. apply (f_equal length) in Heq. rewrite length_app in Heq. cbn in Heq. lia.
Qed.

Lemma wf_rename detail src dst : fs_keeps tree_wf (fs_rename detail src dst).
Proof.
  apply keeps_syscall. intros t [] t' Hwf. destruct (t !! src) as [node|] eqn:Hsrc; [|done].
  destruct (decide (src = dst)) as [->|Hne]; [by intros [= <-]|].
  destruct (bool_decide _ || _) eqn:Hok; [done|]. apply orb_false_iff in Hok as [Hsd Hparent%negb_false_iff].
  apply bool_decide_eq_false in Hsd. apply eq_None_not_Some in Hsd.
  assert (dst <> []) as Hd by by destruct dst.
  assert (src <> []) as Hs by by destruct src.
  destruct (t !! dst) as [[content|]|] eqn:Hdst; destruct node; try done.
  - intros [= <-]. eapply wf_rename_onto; eauto. apply tree_wf_below; [done..|].
    unfold fs_is_dir, fs_node. destruct dst; [done|]. by rewrite Hdst.
  - destruct (fs_below dst t) eqn:Hbelow; intros [= <-]. eapply wf_rename_onto; eauto. by apply fs_below_nil.
  - intros [= <-]. rewrite <- (delete_id t dst) by done. eapply wf_rename_onto; eauto.
    intros c rest. by apply tree_wf_clear.
  - intros [= <-]. rewrite <- (delete_id t dst) by done. eapply wf_rename_onto; eauto.
    intros c rest. by apply tree_wf_clear.
Qed.

(* ------------------------------------------------------------------ *)
(** ** Removing a tree *)

Lemma path_leb_total p q : path_leb p q = true \/ path_leb q p = true.
Proof.
  revert q. induction p as [|a p IH]; intros [|b q]; cbn; [by left..|by right|].
  destruct (decide (a = b)) as [->|Hne]; [rewrite decide_True by done; apply IH|].
  rewrite decide_False by congruence. apply String.leb_total.
Qed.

Lemma path_leb_trans p q r : path_leb p q = true -> path_leb q r = true -> path_leb p r = true.
Proof.
  revert q r. induction p as [|a p IH]; intros [|b q] [|c r]; cbn; try done.
  destruct (decide (a = b)) as [->|Hab], (decide (b = c)) as [->|Hbc]; [apply IH| | |].
  - done.
  - by rewrite decide_False.
  - intros Hab' Hbc'. destruct (decide (a = c)) as [->|Hac]; [|by eapply string_leb_trans].
    destruct Hab. by apply String.leb_antisym.
Qed.

#[global] Instance path_ge_total : Total path_ge.
Proof. intros p q. unfold path_ge. destruct (path_leb_total p q); auto. Qed.
#[global] Instance path_ge_trans : Transitive path_ge.
Proof. intros p q r Hpq Hqr. by eapply path_leb_trans. Qed.

(** A longer path comes first. *)
Lemma path_ge_below q c rest : ~ path_ge q (q ++ c :: rest).
Proof.
  unfold path_ge. induction q as [|a q IH]; cbn; [done|]. by rewrite decide_True.
Qed.

Lemma wf_remove_entries detail paths :
  StronglySorted path_ge paths ->
  fs_spec (fun t => tree_wf t /\
      forall q c rest, q ∈ paths -> is_Some (t !! (q ++ c :: rest)) -> (q ++ c :: rest) ∈ paths)
    (remove_entries detail paths) (fun _ => tree_wf) tree_wf.
Proof.
  induction 1 as [|q paths Hsorted IH Hq]; cbn [remove_entries]; [by apply fs_spec_ret; intros t []|].
  rewrite Forall_forall in Hq.
  eapply fs_spec_seq; [|exact IH]. apply fs_spec_syscall; [|by intros t []].
  intros t [] t' [Hwf Hclosed] Hbody. destruct (t !! q); [|done]. injection Hbody as <-.
  assert (forall c rest, t !! (q ++ c :: rest) = None) as Hnone.
  { intros c rest. apply eq_None_not_Some. intros Hsome.
    apply Hclosed in Hsome; [|by left]. apply elem_of_cons in Hsome as [Heq|Hin].
    - apply (f_equal length) in Heq. rewrite length_app in Heq. cbn in Heq. lia.
    - by eapply path_ge_below, Hq. }
  split; [by apply tree_wf_delete|]. intros q' c rest Hin [n [Hne Hn]%lookup_delete_Some].
  assert ((q' ++ c :: rest) ∈ q :: paths) as [Heq|?]%elem_of_cons by (apply Hclosed; [by right|by eexists]); [|done].
  by rewrite Heq in Hne.
Qed.

Lemma wf_remove_dir_all detail p : fs_keeps tree_wf (fs_remove_dir_all detail p).
Proof.
  apply fs_spec_get. intros t Ht. destruct (fs_is_dir p t); [|by apply fs_spec_throw; intros ? <-].
  eapply fs_spec_pre; [apply wf_remove_entries|].
  - apply StronglySorted_app_2; [|apply (StronglySorted_merge_sort path_ge)|by repeat constructor].
    intros q r (_ & c & rest & ->)%elem_of_removal ->%list_elem_of_singleton.
    destruct (path_leb_total (p) (p ++ c :: rest)) as [?|Hle]; [done|]. by apply path_ge_below in Hle.
  - intros ? <-. split; [done|]. intros q c rest [Hin|Hin]%elem_of_app Hsome; apply elem_of_app; left; apply elem_of_removal.
    + apply elem_of_removal in Hin as (_ & d & rest' & ->). split; [done|]. exists d, (rest' ++ c :: rest). by rewrite <- app_assoc.
    + apply list_elem_of_singleton in Hin as ->. eauto.
Qed.

#[export] Hint Resolve wf_create_dir wf_create_new wf_write_all wf_remove_file wf_remove_dir wf_hard_link
  wf_rename wf_remove_dir_all : fs_keeps.
