(* ===== verification/RecoveryJournal.v ===== *)
(** * The recovery journal

    [crates/music-application/src/recovery.rs] and its SQLite repository
    [crates/music-storage/src/recovery.rs]: the life of a journaled operation,
    the bounds on its JSON, the interface the coordinators use and the table
    behind it. A [serde_json::Value] is its constructors; its text is the class
    [JsonText], which stands for the library. *)

From S2P Require Import Prelude Text Store.

#[local] Open Scope string_scope.
#[local] Open Scope Z_scope.
#[local] Open Scope list_scope.

(* ------------------------------------------------------------------ *)
(** ** JSON values *)

(** [serde_json::Value]; a number keeps its text, an object its entries by key. *)
Inductive JsonValue : Type :=
| Json_Null
| Json_Bool (b : bool)
| Json_Number (text : string)
| Json_String (text : string)
| Json_Array (values : list JsonValue)
| Json_Object (entries : list (string * JsonValue)).

(** [serde_json::to_string] ([to_vec] is its bytes) and [from_str]. *)
Class JsonText : Type := {
  value_to_string : JsonValue -> result string string;
  value_from_str : string -> result string JsonValue
}.

Class JsonTextSpec `{JsonText} : Prop := {
  value_from_str_to_string value text :
    value_to_string value = Ok text -> value_from_str text = Ok value
}.

(** [value.as_object().cloned().unwrap_or_default()] *)
Definition object_entries (value : JsonValue) : list (string * JsonValue) :=
  match value with Json_Object entries => entries | _ => [] end.

(** [map.insert(key, value)] on the entries by key. *)
Fixpoint object_insert (key : string) (value : JsonValue) (entries : list (string * JsonValue))
    : list (string * JsonValue) :=
  match entries with
  | [] => [(key, value)]
  | (k, v) :: rest =>
      if String.eqb k key then (key, value) :: rest
      else if string_leb key k then (key, value) :: (k, v) :: rest
      else (k, v) :: object_insert key value rest
  end.

(** Values as the [json!] macro and [Value::from] write them. *)
Definition json_number (n : N) : JsonValue := Json_Number (decimal n).
Definition json_integer (z : Z) : JsonValue := Json_Number (decimal_Z z).
Definition json_option {A} (f : A -> JsonValue) (o : option A) : JsonValue :=
  match o with Some x => f x | None => Json_Null end.
Definition json_strings (l : list string) : JsonValue := Json_Array (Json_String <$> l).

(** A [serde_json::Map], ordered by key. *)
Definition json_map (entries : list (string * JsonValue)) : JsonValue :=
  Json_Object (foldl (fun map entry => object_insert entry.1 entry.2 map) [] entries).

(** The parts of the derived [Deserialize]. *)
Definition as_string (value : JsonValue) : option string :=
  match value with Json_String text => Some text | _ => None end.
Definition as_bool (value : JsonValue) : option bool :=
  match value with Json_Bool b => Some b | _ => None end.
Definition as_unsigned (maximum : N) (value : JsonValue) : option N :=
  match value with
  | Json_Number text => n ← parse_decimal text; if (n <=? maximum)%N then Some n else None
  | _ => None
  end.
Definition as_option {A} (f : JsonValue -> option A) (value : JsonValue) : option (option A) :=
  match value with Json_Null => Some None | _ => Some <$> f value end.
Definition as_strings (value : JsonValue) : option (list string) :=
  match value with Json_Array values => mapM as_string values | _ => None end.

Definition lookup_field (name : string) (entries : list (string * JsonValue)) : option JsonValue :=
  snd <$> List.find (fun entry => String.eqb entry.1 name) entries.

Lemma as_unsigned_of maximum n : (n <= maximum)%N -> as_unsigned maximum (json_number n) = Some n.
Proof.
  intros Hn. unfold as_unsigned, json_number. rewrite parse_decimal_of. cbn.
  by destruct (N.leb_spec n maximum); [|lia].
Qed.

(** A map of entries with distinct keys has those entries. *)
Lemma object_insert_Permutation key value entries :
  key ∉ entries.*1 -> object_insert key value entries ≡ₚ (key, value) :: entries.
Proof.
  induction entries as [|[k v] entries IH]; [done|]. cbn [fmap list_fmap fst object_insert].
  intros [Hne Hin]%not_elem_of_cons.
  destruct (String.eqb_spec k key); [congruence|]. destruct (string_leb key k); [done|].
  rewrite IH by done. apply perm_swap.
Qed.

Lemma json_map_entries entries :
  NoDup (entries.*1) -> exists sorted, json_map entries = Json_Object sorted /\ sorted ≡ₚ entries.
Proof.
  intros Hnd. eexists. split; [done|].
  assert (forall acc, NoDup (acc.*1 ++ entries.*1) ->
    foldl (fun map entry => object_insert entry.1 entry.2 map) acc entries ≡ₚ acc ++ entries) as Hgen.
  { clear Hnd. induction entries as [|[k v] entries IH]; intros acc Hnd; cbn [foldl fst snd];
      [by rewrite app_nil_r|].
    cbn [fmap list_fmap fst] in Hnd. rewrite <- Permutation_middle in Hnd.
    assert (k ∉ acc.*1) as Hk by (apply NoDup_cons in Hnd as [Hk _]; set_solver).
    pose proof (object_insert_Permutation k v acc Hk) as Hperm.
    rewrite IH by (by rewrite Hperm). rewrite Hperm. cbn. by rewrite Permutation_middle. }
  by apply (Hgen []).
Qed.

(* ------------------------------------------------------------------ *)
(** ** Names and states *)

Definition JOURNAL_ID_LENGTH : nat := 32.
Definition MAX_OPERATION_LENGTH : nat := 64.
Definition MAX_JSON_BYTES : nat := 64 * 1024.
Definition MAX_JSON_DEPTH : nat := 64.
Definition MAX_JSON_NODES : nat := 16384.

Inductive RecoveryValidationError : Type :=
| Recovery_InvalidId
| Recovery_InvalidDomain
| Recovery_InvalidOperation
| Recovery_InvalidState
| Recovery_InvalidTransition
| Recovery_InvalidCompletion
| JsonTooLarge
| JsonTooDeep
| JsonTooComplex.

Definition RecoveryValidationError_fmt (error : RecoveryValidationError) : string :=
  match error with
  | Recovery_InvalidId => "recovery journal id is invalid"
  | Recovery_InvalidDomain => "recovery journal domain is invalid"
  | Recovery_InvalidOperation => "recovery journal operation is invalid"
  | Recovery_InvalidState => "recovery journal state is invalid"
  | Recovery_InvalidTransition => "recovery journal state transition is invalid"
  | Recovery_InvalidCompletion => "recovery journal completion timestamp is inconsistent"
  | JsonTooLarge => "recovery journal JSON exceeds the size limit"
  | JsonTooDeep => "recovery journal JSON exceeds the depth limit"
  | JsonTooComplex => "recovery journal JSON exceeds the node limit"
  end.

Record RecoveryJournalId : Type := mkRecoveryJournalId { journal_id_text : string }.
Record RecoveryOperation : Type := mkRecoveryOperation { operation_text : string }.

#[global] Instance RecoveryJournalId_eq_dec : EqDecision RecoveryJournalId.
Proof. solve_decision. Defined.

Fixpoint all_bytes (p : Ascii.ascii -> bool) (s : string) : bool :=
  match s with
  | EmptyString => true
  | String byte s => p byte && all_bytes p s
  end.

Definition in_bytes (lo hi : N) (byte : Ascii.ascii) : bool :=
  ((lo <=? byte_of byte) && (byte_of byte <=? hi))%N.
(** [byte.is_ascii_digit()], [(b'a'..=b'f').contains(&byte)],
    [byte.is_ascii_lowercase()] *)
Definition is_ascii_digit : Ascii.ascii -> bool := in_bytes 48 57.
Definition is_hex_letter : Ascii.ascii -> bool := in_bytes 97 102.
Definition is_ascii_lowercase : Ascii.ascii -> bool := in_bytes 97 122.

(** The letters of ASCII without their case, as SQLite compares them. *)
Definition ascii_lower (c : Ascii.ascii) : Ascii.ascii :=
  if in_bytes 65 90 c then Ascii.ascii_of_N (byte_of c + 32) else c.
Fixpoint lower (value : string) : string :=
  match value with
  | EmptyString => EmptyString
  | String c rest => String (ascii_lower c) (lower rest)
  end.

Definition RecoveryJournalId_parse (value : string)
    : result RecoveryValidationError RecoveryJournalId :=
  if negb (String.length value =? JOURNAL_ID_LENGTH)%nat
     || negb (all_bytes (fun byte => is_ascii_digit byte || is_hex_letter byte) value)
  then Err Recovery_InvalidId
  else Ok (mkRecoveryJournalId value).

Inductive RecoveryDomain : Type :=
| Domain_Library | Domain_Sfx | Domain_Modes | Domain_Authoring | Domain_Cleanup.

#[global] Instance RecoveryDomain_eq_dec : EqDecision RecoveryDomain.
Proof. solve_decision. Defined.

Definition RecoveryDomain_as_str (domain : RecoveryDomain) : string :=
  match domain with
  | Domain_Library => "library"
  | Domain_Sfx => "sfx"
  | Domain_Modes => "modes"
  | Domain_Authoring => "authoring"
  | Domain_Cleanup => "cleanup"
  end.

Definition RecoveryDomain_parse (value : string) : result RecoveryValidationError RecoveryDomain :=
  if String.eqb value "library" then Ok Domain_Library
  else if String.eqb value "sfx" then Ok Domain_Sfx
  else if String.eqb value "modes" then Ok Domain_Modes
  else if String.eqb value "authoring" then Ok Domain_Authoring
  else if String.eqb value "cleanup" then Ok Domain_Cleanup
  else Err Recovery_InvalidDomain.

Definition RecoveryOperation_parse (value : string)
    : result RecoveryValidationError RecoveryOperation :=
  if String.eqb value "" || (MAX_OPERATION_LENGTH <? String.length value)%nat
     || negb (all_bytes (fun byte => is_ascii_lowercase byte || is_ascii_digit byte
                                     || (byte_of byte =? 95)%N) value)
  then Err Recovery_InvalidOperation
  else Ok (mkRecoveryOperation value).

Inductive RecoveryState : Type :=
| Planned | Applying | Committed | RollingBack | RolledBack | State_Failed.

#[global] Instance RecoveryState_eq_dec : EqDecision RecoveryState.
Proof. solve_decision. Defined.

Definition RecoveryState_as_str (state : RecoveryState) : string :=
  match state with
  | Planned => "planned"
  | Applying => "applying"
  | Committed => "committed"
  | RollingBack => "rolling_back"
  | RolledBack => "rolled_back"
  | State_Failed => "failed"
  end.

Definition RecoveryState_parse (value : string) : result RecoveryValidationError RecoveryState :=
  if String.eqb value "planned" then Ok Planned
  else if String.eqb value "applying" then Ok Applying
  else if String.eqb value "committed" then Ok Committed
  else if String.eqb value "rolling_back" then Ok RollingBack
  else if String.eqb value "rolled_back" then Ok RolledBack
  else if String.eqb value "failed" then Ok State_Failed
  else Err Recovery_InvalidState.

Definition is_terminal (state : RecoveryState) : bool :=
  match state with Committed | RolledBack | State_Failed => true | _ => false end.

Definition allows (state next : RecoveryState) : bool :=
  match state, next with
  | Planned, (Applying | RollingBack | State_Failed)
  | Applying, (Committed | RollingBack | State_Failed)
  | RollingBack, (RolledBack | State_Failed)
  | State_Failed, RollingBack => true
  | _, _ => false
  end.

(* ------------------------------------------------------------------ *)
(** ** Bounded JSON *)

Section Values.
Context `{JsonText}.

(** The work list of [validate_json]: the last pushed value is looked at first.
    Every round counts one node, so [MAX_JSON_NODES + 1] rounds are enough. *)
Fixpoint validate_nodes (fuel nodes : nat) (work : list (JsonValue * nat))
    : result RecoveryValidationError () :=
  match fuel, work with
  | _, [] => Ok ()
  | O, _ => Err JsonTooComplex
  | S fuel, (current, depth) :: work =>
      let nodes := S nodes in
      if (MAX_JSON_NODES <? nodes)%nat then Err JsonTooComplex
      else if (MAX_JSON_DEPTH <? depth)%nat then Err JsonTooDeep
      else
        let pushed := match current with
          | Json_Array values => values
          | Json_Object entries => entries.*2
          | _ => []
          end in
        validate_nodes fuel nodes (rev ((fun value => (value, S depth)) <$> pushed) ++ work)
  end.

Definition validate_json (value : JsonValue) : result RecoveryValidationError () :=
  match value_to_string value with
  | Err _ => Err JsonTooLarge
  | Ok encoded =>
      if (MAX_JSON_BYTES <? String.length encoded)%nat then Err JsonTooLarge
      else validate_nodes (S MAX_JSON_NODES) 0 [(value, 0%nat)]
  end.

Definition validate_recovery_progress : JsonValue -> result RecoveryValidationError () :=
  validate_json.

Record RecoveryJournalDraft : Type := mkRecoveryJournalDraft {
  draft_id : RecoveryJournalId;
  draft_domain : RecoveryDomain;
  draft_operation : RecoveryOperation;
  draft_plan : JsonValue;
  draft_progress : JsonValue
}.

(** [id] is the fresh UUID [RecoveryJournalId::new] draws. *)
Definition RecoveryJournalDraft_new (id : RecoveryJournalId) (domain : RecoveryDomain)
    (operation : RecoveryOperation) (plan : JsonValue)
    : result RecoveryValidationError RecoveryJournalDraft :=
  _ ← validate_json plan;
  Ok (mkRecoveryJournalDraft id domain operation plan (Json_Object [])).

Record RecoveryJournalEntry : Type := mkRecoveryJournalEntry {
  entry_id : RecoveryJournalId;
  entry_domain : RecoveryDomain;
  entry_operation : RecoveryOperation;
  entry_state : RecoveryState;
  entry_plan : JsonValue;
  entry_progress : JsonValue;
  entry_created_at_unix_seconds : Z;
  entry_updated_at_unix_seconds : Z;
  entry_completed_at_unix_seconds : option Z
}.

Definition entry_validate (entry : RecoveryJournalEntry) : result RecoveryValidationError () :=
  _ ← validate_json (entry_plan entry);
  _ ← validate_json (entry_progress entry);
  if negb (eqb (is_terminal (entry_state entry))
               (bool_decide (is_Some (entry_completed_at_unix_seconds entry))))
  then Err Recovery_InvalidCompletion
  else Ok ().

Inductive RecoveryTransition : Type :=
| Transition_Applied (entry : RecoveryJournalEntry)
| Transition_Conflict (current : option RecoveryJournalEntry).
End Values.

(** The repository the coordinators write through. *)
Class RecoveryJournalRepository (store : Type) : Type := {
  journal_error : Type;
  create_recovery_journal : RecoveryJournalDraft -> stateful store journal_error RecoveryJournalEntry;
  unfinished_recovery_journals : RecoveryDomain -> stateful store journal_error (list RecoveryJournalEntry);
  transition_recovery_journal : RecoveryJournalId -> RecoveryState -> RecoveryState -> JsonValue ->
    stateful store journal_error RecoveryTransition
}.
