(* ===== verification/JournalStore.v ===== *)
(** * The recovery journal in SQLite

    [crates/music-storage/src/recovery.rs]: the [recovery_journal] table, its
    three operations with injected database faults, and the contract of
    [RecoveryJournalRepository] they implement. *)

From stdpp Require Import countable.
From S2P Require Import Prelude Store Text RecoveryJournal.

#[local] Open Scope string_scope.
#[local] Open Scope Z_scope.
#[local] Open Scope list_scope.

Definition MAX_UNFINISHED_JOURNALS : nat := 1000.

Record JournalRow : Type := mkJournalRow {
  journal_row_id : string;
  journal_row_domain : string;
  journal_row_operation : string;
  journal_row_state : string;
  journal_row_plan_json : string;
  journal_row_progress_json : string;
  journal_row_created_at : Z;
  journal_row_updated_at : Z;
  journal_row_completed_at : option Z
}.

Inductive JournalStorageError : Type :=
| Journal_Database (cause : string)
| InvalidRecoveryJournal (error : RecoveryValidationError)
| RecoveryJournalSerialization (cause : string)
| RecoveryJournalCapacityExceeded
| InvalidRecoveryTransition
| InvalidRecoveryJournalRecord.

(** [CURRENT_TIMESTAMP] of the n-th statement, in seconds. *)
Class JournalClock : Type := { journal_timestamp : nat -> Z }.

(** The table by its primary key. *)
Record SqliteJournal : Type := mkSqliteJournal {
  journal_table : gmap string JournalRow;
  journal_clock : nat;
  journal_faults : list Fault
}.

Section Sqlite.
Context `{JsonText, JournalClock}.

Definition jtx (A : Type) : Type := stateful SqliteJournal JournalStorageError A.

(** One statement: its answer and the new table, at the current time; a [None]
    is a violated constraint. It consumes one fault. *)
Definition journal_statement {A} (body : Z -> gmap string JournalRow -> option (A * gmap string JournalRow))
    : jtx A := fun db =>
  let next table := mkSqliteJournal table (S (journal_clock db)) (tail (journal_faults db)) in
  match head (journal_faults db) with
  | Some (FailBefore cause) => (Err (Journal_Database cause), next (journal_table db))
  | fault =>
      match body (journal_timestamp (journal_clock db)) (journal_table db) with
      | None => (Err (Journal_Database "constraint failed"), next (journal_table db))
      | Some (answer, table) =>
          match fault with
          | Some (FailAfter cause) => (Err (Journal_Database cause), next table)
          | _ => (Ok answer, next table)
          end
      end
  end.

Definition entry_from_row (row : JournalRow) : result JournalStorageError RecoveryJournalEntry :=
  id ← map_err InvalidRecoveryJournal (RecoveryJournalId_parse (journal_row_id row));
  domain ← map_err InvalidRecoveryJournal (RecoveryDomain_parse (journal_row_domain row));
  operation ← map_err InvalidRecoveryJournal (RecoveryOperation_parse (journal_row_operation row));
  state ← map_err InvalidRecoveryJournal (RecoveryState_parse (journal_row_state row));
  plan ← map_err RecoveryJournalSerialization (value_from_str (journal_row_plan_json row));
  progress ← map_err RecoveryJournalSerialization (value_from_str (journal_row_progress_json row));
  let entry := mkRecoveryJournalEntry id domain operation state plan progress
    (journal_row_created_at row) (journal_row_updated_at row) (journal_row_completed_at row) in
  _ ← map_err InvalidRecoveryJournal (entry_validate entry);
  Ok entry.

Definition read_entry (id : RecoveryJournalId) : jtx (option RecoveryJournalEntry) :=
  row ← journal_statement (fun _ table => Some (table !! journal_id_text id, table));
  match row with
  | None => mret None
  | Some row => entry ← try (entry_from_row row); mret (Some entry)
  end.

(** The row of [INSERT INTO recovery_journal .. VALUES (?, ?, ?, 'planned', ..)] *)
Definition planned_row (draft : RecoveryJournalDraft) (plan_json progress_json : string) (now : Z)
    : JournalRow := {|
  journal_row_id := journal_id_text (draft_id draft);
  journal_row_domain := RecoveryDomain_as_str (draft_domain draft);
  journal_row_operation := operation_text (draft_operation draft);
  journal_row_state := "planned";
  journal_row_plan_json := plan_json;
  journal_row_progress_json := progress_json;
  journal_row_created_at := now;
  journal_row_updated_at := now;
  journal_row_completed_at := None |}.

Definition insert_journal (row : Z -> JournalRow) : jtx () :=
  journal_statement (fun now table =>
    let row := row now in
    match table !! journal_row_id row with
    | Some _ => None
    | None => Some ((), <[journal_row_id row := row]> table)
    end).

Definition create_journal (draft : RecoveryJournalDraft) : jtx RecoveryJournalEntry :=
  _ ← try (map_err InvalidRecoveryJournal (validate_recovery_progress (draft_plan draft)));
  _ ← try (map_err InvalidRecoveryJournal (validate_recovery_progress (draft_progress draft)));
  plan_json ← try (map_err RecoveryJournalSerialization (value_to_string (draft_plan draft)));
  progress_json ← try (map_err RecoveryJournalSerialization (value_to_string (draft_progress draft)));
  _ ← insert_journal (planned_row draft plan_json progress_json);
  entry ← read_entry (draft_id draft);
  try (ok_or InvalidRecoveryJournalRecord entry).

(** [ORDER BY created_at, id] *)
Definition journal_row_le (a b : JournalRow) : Prop :=
  (journal_row_created_at a < journal_row_created_at b) \/
  (journal_row_created_at a = journal_row_created_at b /\
   string_leb (journal_row_id a) (journal_row_id b) = true).
#[global] Instance journal_row_le_dec a b : Decision (journal_row_le a b).
Proof. unfold journal_row_le. apply _. Defined.

(** [WHERE domain = ? AND state NOT IN ('committed', 'rolled_back', 'failed')] *)
Definition journal_unfinished (domain : RecoveryDomain) (row : JournalRow) : bool :=
  String.eqb (journal_row_domain row) (RecoveryDomain_as_str domain)
  && negb (existsb (String.eqb (journal_row_state row)) ["committed"; "rolled_back"; "failed"]).

Definition unfinished_rows (domain : RecoveryDomain) (table : gmap string JournalRow) : list JournalRow :=
  take (S MAX_UNFINISHED_JOURNALS)
    (merge_sort journal_row_le (List.filter (journal_unfinished domain) (map_to_list table).*2)).

Definition unfinished_journals (domain : RecoveryDomain) : jtx (list RecoveryJournalEntry) :=
  rows ← journal_statement (fun _ table => Some (unfinished_rows domain table, table));
  if (MAX_UNFINISHED_JOURNALS <? length rows)%nat then throw RecoveryJournalCapacityExceeded
  else try (result_collect entry_from_row rows).

(** [SET state = ?, progress_json = ?, updated_at = CURRENT_TIMESTAMP, completed_at = ..] *)
Definition transitioned_row (next : RecoveryState) (progress_json : string) (now : Z)
    (row : JournalRow) : JournalRow := {|
  journal_row_id := journal_row_id row;
  journal_row_domain := journal_row_domain row;
  journal_row_operation := journal_row_operation row;
  journal_row_state := RecoveryState_as_str next;
  journal_row_plan_json := journal_row_plan_json row;
  journal_row_progress_json := progress_json;
  journal_row_created_at := journal_row_created_at row;
  journal_row_updated_at := now;
  journal_row_completed_at := if is_terminal next then Some now else None |}.

(** [UPDATE recovery_journal SET .. WHERE id = ? AND state = ?]: the rows affected. *)
Definition update_journal (id : RecoveryJournalId) (expected : RecoveryState)
    (set : Z -> JournalRow -> JournalRow) : jtx nat :=
  journal_statement (fun now table =>
    match table !! journal_id_text id with
    | Some row =>
        if String.eqb (journal_row_state row) (RecoveryState_as_str expected)
        then Some (1%nat, <[journal_id_text id := set now row]> table) else Some (0%nat, table)
    | None => Some (0%nat, table)
    end).

Definition transition_journal (id : RecoveryJournalId) (expected next : RecoveryState)
    (progress : JsonValue) : jtx RecoveryTransition :=
  if negb (allows expected next) then throw InvalidRecoveryTransition
  else
    _ ← try (map_err InvalidRecoveryJournal (validate_recovery_progress progress));
    progress_json ← try (map_err RecoveryJournalSerialization (value_to_string progress));
    rows_affected ← update_journal id expected (transitioned_row next progress_json);
    current ← read_entry id;
    if (rows_affected =? 1)%nat
    then entry ← try (ok_or InvalidRecoveryJournalRecord current); mret (Transition_Applied entry)
    else mret (Transition_Conflict current).

#[global] Instance SqliteJournalRepository : RecoveryJournalRepository SqliteJournal := {|
  journal_error := JournalStorageError;
  create_recovery_journal := create_journal;
  unfinished_recovery_journals := unfinished_journals;
  transition_recovery_journal := transition_journal
|}.
End Sqlite.

(* ------------------------------------------------------------------ *)
(** * What the recovery journal promises *)

#[local] Open Scope string_scope.
#[local] Open Scope Z_scope.
#[local] Open Scope list_scope.

(* ------------------------------------------------------------------ *)
(** ** JSON bounds *)

Section JsonInd.
Variable P : JsonValue -> Prop.
Hypotheses (HNull : P Json_Null) (HBool : forall b, P (Json_Bool b))
  (HNumber : forall text, P (Json_Number text)) (HString : forall text, P (Json_String text))
  (HArray : forall values, Forall P values -> P (Json_Array values))
  (HObject : forall entries, Forall (fun entry => P entry.2) entries -> P (Json_Object entries)).

Fixpoint JsonValue_rect' (value : JsonValue) : P value :=
  match value with
  | Json_Null => HNull
  | Json_Bool b => HBool b
  | Json_Number text => HNumber text
  | Json_String text => HString text
  | Json_Array values => HArray values
      ((fix all values : Forall P values :=
         match values with
         | [] => Forall_nil_2 P
         | value :: values => Forall_cons_2 P value values (JsonValue_rect' value) (all values)
         end) values)
  | Json_Object entries => HObject entries
      ((fix all entries : Forall (fun entry => P entry.2) entries :=
         match entries with
         | [] => Forall_nil_2 _
         | entry :: entries => Forall_cons_2 _ entry entries (JsonValue_rect' entry.2) (all entries)
         end) entries)
  end.
End JsonInd.

(** The values directly inside a value. *)
Definition json_children (value : JsonValue) : list JsonValue :=
  match value with
  | Json_Array values => values
  | Json_Object entries => entries.*2
  | _ => []
  end.

(** The reference reading: how many nodes a value has and how deep it is. *)
Fixpoint json_nodes (value : JsonValue) : nat :=
  match value with
  | Json_Array values => S (sum_list ((fix map l := match l with [] => [] | v :: l => json_nodes v :: map l end) values))
  | Json_Object entries => S (sum_list ((fix map l := match l with [] => [] | (_, v) :: l => json_nodes v :: map l end) entries))
  | _ => 1
  end.

Fixpoint json_depth (value : JsonValue) : nat :=
  match value with
  | Json_Array values => (fix deepest l := match l with [] => 0%nat | v :: l => Nat.max (S (json_depth v)) (deepest l) end) values
  | Json_Object entries => (fix deepest l := match l with [] => 0%nat | (_, v) :: l => Nat.max (S (json_depth v)) (deepest l) end) entries
  | _ => 0%nat
  end.

Lemma json_nodes_children value : json_nodes value = S (sum_list (json_nodes <$> json_children value)).
Proof.
  destruct value as [| | | |values|entries]; cbn; try done; repeat f_equal.
  induction entries as [|[k v] entries IH]; [done|]. cbn. by rewrite IH.
Qed.

Lemma json_depth_children value limit :
  (json_depth value <= limit)%nat <->
  Forall (fun child => (S (json_depth child) <= limit)%nat) (json_children value).
Proof.
  destruct value as [| | | |values|entries]; cbn; try (split; [constructor|lia]).
  - induction values as [|v values IH]; [by split; [constructor|lia]|].
    rewrite Forall_cons, <- IH. lia.
  - induction entries as [|[k v] entries IH]; [by split; [constructor|lia]|].
    cbn [fmap list_fmap]. rewrite Forall_cons, <- IH. cbn [snd]. lia.
Qed.

Definition work_nodes (work : list (JsonValue * nat)) : nat := sum_list ((fun item => json_nodes item.1) <$> work).
Definition work_fits (work : list (JsonValue * nat)) : Prop :=
  Forall (fun item => (item.2 + json_depth item.1 <= MAX_JSON_DEPTH)%nat) work.

Lemma work_nodes_app a b : work_nodes (a ++ b) = (work_nodes a + work_nodes b)%nat.
Proof. induction a as [|x a IH]; [done|]. unfold work_nodes in *. cbn in *. lia. Qed.

Lemma pushed_nodes values depth :
  work_nodes (rev ((fun value => (value, depth)) <$> values)) = sum_list (json_nodes <$> values).
Proof.
  induction values as [|v values IH]; [done|]. cbn [fmap list_fmap rev].
  rewrite work_nodes_app. change (list_fmap _ _ ?f ?l) with (f <$> l). rewrite IH. cbn. lia.
Qed.

Lemma Forall_rev_iff {A} (P : A -> Prop) l : Forall P (rev l) <-> Forall P l.
Proof. split; [rewrite <- (rev_involutive l) at 2|]; apply Forall_rev. Qed.

Lemma pushed_fits values depth :
  work_fits (rev ((fun value => (value, S depth)) <$> values)) <->
  Forall (fun child => (depth + S (json_depth child) <= MAX_JSON_DEPTH)%nat) values.
Proof.
  unfold work_fits. rewrite Forall_rev_iff, Forall_fmap. apply Forall_iff. intros child. cbn. lia.
Qed.

(** The loop accepts exactly the work that is within both bounds, whatever the
    order it is visited in; [fuel] never runs out. *)
Lemma validate_nodes_ok fuel nodes work :
  (MAX_JSON_NODES < fuel + nodes)%nat -> (nodes <= MAX_JSON_NODES)%nat ->
  validate_nodes fuel nodes work = Ok () <->
  (nodes + work_nodes work <= MAX_JSON_NODES)%nat /\ work_fits work.
Proof.
  revert nodes work. induction fuel as [|fuel IH]; intros nodes work Hfuel Hnodes; [lia|].
  destruct work as [|[value depth] work].
  { change (work_nodes []) with 0%nat. rewrite Nat.add_0_r. split; [|done]. intros _.
    split; [done|by apply Forall_nil]. }
  cbn [validate_nodes].
  assert (work_nodes ((value, depth) :: work)
    = S (sum_list (json_nodes <$> json_children value) + work_nodes work)) as ->.
  { unfold work_nodes. cbn [fmap list_fmap fst]. cbn [sum_list_with id]. by rewrite json_nodes_children. }
  assert (work_fits ((value, depth) :: work) <->
    (depth + json_depth value <= MAX_JSON_DEPTH)%nat /\ work_fits work) as ->
    by (unfold work_fits; by rewrite Forall_cons).
  destruct (Nat.ltb_spec MAX_JSON_NODES (S nodes)); [split; [done|lia]|].
  destruct (Nat.ltb_spec MAX_JSON_DEPTH depth); [split; [done|lia]|].
  change (match value with Json_Array values => values | Json_Object entries => entries.*2 | _ => [] end)
    with (json_children value).
  rewrite IH by lia. rewrite work_nodes_app, pushed_nodes.
  assert (work_fits (rev ((fun child => (child, S depth)) <$> json_children value) ++ work) <->
    (depth + json_depth value <= MAX_JSON_DEPTH)%nat /\ work_fits work) as ->.
  { unfold work_fits at 1. rewrite Forall_app. fold (work_fits work).
    fold (work_fits (rev ((fun child => (child, S depth)) <$> json_children value))).
    rewrite pushed_fits. apply and_iff_compat_r.
    transitivity (json_depth value <= MAX_JSON_DEPTH - depth)%nat; [|lia].
    rewrite json_depth_children. apply Forall_iff. intros child. lia. }
  intuition lia.
Qed.

(** The iterative check of a journal document ends and accepts exactly the
    values whose text has at most 65,536 bytes and that have, read recursively,
    at most 16,384 nodes and a depth of at most 64. *)
Theorem journal_json_is_bounded `{JsonText} (value : JsonValue) :
  validate_json value = Ok () <->
  (exists text, value_to_string value = Ok text /\ (String.length text <= MAX_JSON_BYTES)%nat) /\
  (json_nodes value <= MAX_JSON_NODES)%nat /\ (json_depth value <= MAX_JSON_DEPTH)%nat.
Proof.
  unfold validate_json. destruct (value_to_string value) as [text|e].
  2:{ split; [done|]. by intros [(? & ? & _) _]. }
  destruct (Nat.ltb_spec MAX_JSON_BYTES (String.length text)).
  { split; [done|]. intros [(? & [= <-] & ?) _]. lia. }
  rewrite validate_nodes_ok by lia.
  assert (work_nodes [(value, 0%nat)] = json_nodes value) as -> by (unfold work_nodes; cbn; lia).
  assert (work_fits [(value, 0%nat)] <-> (json_depth value <= MAX_JSON_DEPTH)%nat) as ->
    by (unfold work_fits; by rewrite Forall_singleton).
  split; [intros []; split_and!; by eauto|]. by intros [_ []].
Qed.

(* ------------------------------------------------------------------ *)
(** ** The contract of the repository *)

(** What the types of the program guarantee of every draft. *)
Definition draft_wf (draft : RecoveryJournalDraft) : Prop :=
  RecoveryJournalId_parse (journal_id_text (draft_id draft)) = Ok (draft_id draft) /\
  RecoveryOperation_parse (operation_text (draft_operation draft)) = Ok (draft_operation draft).

Definition planned_entry (draft : RecoveryJournalDraft) (entry : RecoveryJournalEntry) : Prop :=
  entry_id entry = draft_id draft /\ entry_domain entry = draft_domain draft /\
  entry_operation entry = draft_operation draft /\ entry_state entry = Planned /\
  entry_plan entry = draft_plan draft /\ entry_progress entry = draft_progress draft.

Definition moved_entry (next : RecoveryState) (progress : JsonValue) (old entry : RecoveryJournalEntry)
    : Prop :=
  entry_id entry = entry_id old /\ entry_domain entry = entry_domain old /\
  entry_operation entry = entry_operation old /\ entry_state entry = next /\
  entry_plan entry = entry_plan old /\ entry_progress entry = progress.

(** The journal as a map of entries. A call that reports an error happened
    completely or not at all. *)
Class RecoveryJournalContract (store : Type) `{RecoveryJournalRepository store} : Type := {
  journal_ok : store -> Prop;
  journal_entries : store -> gmap string RecoveryJournalEntry;
  journal_keyed st key entry :
    journal_ok st -> journal_entries st !! key = Some entry -> journal_id_text (entry_id entry) = key;
  create_contract draft st r st' :
    journal_ok st -> draft_wf draft -> create_recovery_journal draft st = (r, st') ->
    let created entry := planned_entry draft entry /\
      journal_entries st !! journal_id_text (draft_id draft) = None /\
      journal_entries st' = <[journal_id_text (draft_id draft) := entry]> (journal_entries st) in
    journal_ok st' /\
    match r with
    | Ok entry => created entry
    | Err _ => journal_entries st' = journal_entries st \/ exists entry, created entry
    end;
  unfinished_contract domain st r st' :
    journal_ok st -> unfinished_recovery_journals domain st = (r, st') ->
    journal_ok st' /\ journal_entries st' = journal_entries st /\
    match r with
    | Ok entries => NoDup (entry_id <$> entries) /\
        forall entry, entry ∈ entries <->
          journal_entries st !! journal_id_text (entry_id entry) = Some entry /\
          entry_domain entry = domain /\ is_terminal (entry_state entry) = false
    | Err _ => True
    end;
  transition_contract id expected next progress st r st' :
    journal_ok st -> transition_recovery_journal id expected next progress st = (r, st') ->
    let moved entry := exists old, journal_entries st !! journal_id_text id = Some old /\
      entry_state old = expected /\ allows expected next = true /\ moved_entry next progress old entry /\
      journal_entries st' = <[journal_id_text id := entry]> (journal_entries st) in
    journal_ok st' /\
    match r with
    | Ok (Transition_Applied entry) => moved entry
    | Ok (Transition_Conflict current) =>
        current = journal_entries st !! journal_id_text id /\
        entry_state <$> current <> Some expected /\ journal_entries st' = journal_entries st
    | Err _ => journal_entries st' = journal_entries st \/ exists entry, moved entry
    end
}.

(* ------------------------------------------------------------------ *)
(** * The SQLite journal keeps the contract *)

#[local] Open Scope string_scope.
#[local] Open Scope Z_scope.
#[local] Open Scope list_scope.

Lemma state_parse_as_str state : RecoveryState_parse (RecoveryState_as_str state) = Ok state.
Proof. by destruct state. Qed.

Lemma state_parse_ok text state :
  RecoveryState_parse text = Ok state -> text = RecoveryState_as_str state.
Proof.
  unfold RecoveryState_parse. parse_cases.
Qed.

Lemma domain_parse_as_str domain : RecoveryDomain_parse (RecoveryDomain_as_str domain) = Ok domain.
Proof. by destruct domain. Qed.

Lemma domain_parse_ok text domain :
  RecoveryDomain_parse text = Ok domain -> text = RecoveryDomain_as_str domain.
Proof.
  unfold RecoveryDomain_parse. parse_cases.
Qed.

Lemma journal_id_parse_ok text id : RecoveryJournalId_parse text = Ok id -> journal_id_text id = text.
Proof. unfold RecoveryJournalId_parse. case_match; [done|]. by intros [= <-]. Qed.

Section Sqlite.
Context `{JsonText, JournalClock}.

Lemma entry_from_row_ok row entry :
  entry_from_row row = Ok entry <->
  RecoveryJournalId_parse (journal_row_id row) = Ok (entry_id entry) /\
  RecoveryDomain_parse (journal_row_domain row) = Ok (entry_domain entry) /\
  RecoveryOperation_parse (journal_row_operation row) = Ok (entry_operation entry) /\
  RecoveryState_parse (journal_row_state row) = Ok (entry_state entry) /\
  value_from_str (journal_row_plan_json row) = Ok (entry_plan entry) /\
  value_from_str (journal_row_progress_json row) = Ok (entry_progress entry) /\
  entry_created_at_unix_seconds entry = journal_row_created_at row /\
  entry_updated_at_unix_seconds entry = journal_row_updated_at row /\
  entry_completed_at_unix_seconds entry = journal_row_completed_at row /\
  entry_validate entry = Ok ().
Proof.
  unfold entry_from_row. split.
  - intros Hrow.
    apply bind_ok in Hrow as (? & ?%map_err_ok & Hrow). apply bind_ok in Hrow as (? & ?%map_err_ok & Hrow).
    apply bind_ok in Hrow as (? & ?%map_err_ok & Hrow). apply bind_ok in Hrow as (? & ?%map_err_ok & Hrow).
    apply bind_ok in Hrow as (? & ?%map_err_ok & Hrow). apply bind_ok in Hrow as (? & ?%map_err_ok & Hrow).
    apply bind_ok in Hrow as ([] & ?%map_err_ok & Hrow). by injection Hrow as <-.
  - intros (-> & -> & -> & -> & -> & -> & Hc & Hu & Hd & Hv). cbn.
    destruct entry. cbn in *. subst. by rewrite Hv.
Qed.

Lemma entry_validate_ok entry :
  entry_validate entry = Ok () <->
  validate_json (entry_plan entry) = Ok () /\ validate_json (entry_progress entry) = Ok () /\
  is_terminal (entry_state entry) = bool_decide (is_Some (entry_completed_at_unix_seconds entry)).
Proof.
  unfold entry_validate. destruct (validate_json (entry_plan entry)) as [[]|]; cbn; [|split; [done|by intros [? _]]].
  destruct (validate_json (entry_progress entry)) as [[]|]; cbn; [|split; [done|by intros (_ & ? & _)]].
  destruct (eqb _ _) eqn:Heqb; cbn.
  - apply eqb_prop in Heqb. by rewrite Heqb.
  - split; [done|]. intros (_ & _ & Heq). rewrite Heq, eqb_reflx in Heqb. done.
Qed.

(** Every row decodes, under its key. *)
Definition table_decodes (table : gmap string JournalRow) : Prop :=
  forall key row, table !! key = Some row ->
    journal_row_id row = key /\ exists entry, entry_from_row row = Ok entry.

Definition decoded (table : gmap string JournalRow) : gmap string RecoveryJournalEntry :=
  omap (fun row => result_ok (entry_from_row row)) table.

Lemma lookup_decoded table key :
  decoded table !! key = row ← table !! key; result_ok (entry_from_row row).
Proof. unfold decoded. by rewrite lookup_omap. Qed.

Lemma decoded_insert table key row entry :
  entry_from_row row = Ok entry -> decoded (<[key := row]> table) = <[key := entry]> (decoded table).
Proof. intros Hrow. unfold decoded. apply omap_insert_Some. by rewrite Hrow. Qed.

Lemma table_decodes_insert table row entry :
  table_decodes table -> entry_from_row row = Ok entry ->
  table_decodes (<[journal_row_id row := row]> table).
Proof.
  intros Htable Hrow key row'. destruct (decide (journal_row_id row = key)) as [<-|Hne].
  - rewrite lookup_insert_eq. intros [= <-]. split; [done|]. by exists entry.
  - rewrite lookup_insert_ne by done. apply Htable.
Qed.

Lemma decoded_None table key :
  table_decodes table -> decoded table !! key = None <-> table !! key = None.
Proof.
  intros Htable. rewrite lookup_decoded. destruct (table !! key) as [row|] eqn:Hrow; [|done].
  destruct (Htable _ _ Hrow) as (_ & entry & He). cbn. by rewrite He.
Qed.

(** One statement either reports a fault, having done all or nothing, or answers. *)
Lemma journal_statement_inv {A} (body : Z -> gmap string JournalRow -> option (A * gmap string JournalRow))
    db r db' :
  journal_statement body db = (r, db') ->
  let now := journal_timestamp (journal_clock db) in
  match r with
  | Ok answer => body now (journal_table db) = Some (answer, journal_table db')
  | Err _ => journal_table db' = journal_table db \/
             exists answer, body now (journal_table db) = Some (answer, journal_table db')
  end.
Proof.
  unfold journal_statement. intros Hrun.
  destruct (head (journal_faults db)) as [[| |]|]; cbn in Hrun;
    try (destruct (body _ _) as [[answer table]|] eqn:Hbody); injection Hrun as <- <-; cbn; eauto.
Qed.

Lemma read_entry_inv id db r db' :
  table_decodes (journal_table db) -> read_entry id db = (r, db') ->
  journal_table db' = journal_table db /\
  match r with Ok entry => entry = decoded (journal_table db) !! journal_id_text id | Err _ => True end.
Proof.
  intros Htable Hrun. unfold read_entry in Hrun. unfold mbind, stateful_bind in Hrun.
  destruct (journal_statement _ db) as [[row|e] db1] eqn:Hst; apply journal_statement_inv in Hst; cbn in Hst.
  - injection Hst as <- Htab. rewrite lookup_decoded, Htab.
    destruct (journal_table db1 !! journal_id_text id) as [row|] eqn:Hrow.
    + rewrite Htab in Htable, Hrun. destruct (Htable _ _ Hrow) as (_ & entry & He).
      rewrite Hrow in Hrun. unfold try in Hrun. rewrite He in Hrun. injection Hrun as <- <-.
      cbn. by rewrite He.
    + rewrite Htab, Hrow in Hrun. by injection Hrun as <- <-.
  - injection Hrun as <- <-. split; [|done]. destruct Hst as [Hst|(? & [= _ Hst])]; done.
Qed.

Lemma planned_row_decodes `{!JsonTextSpec} draft plan_json progress_json now :
  draft_wf draft ->
  validate_json (draft_plan draft) = Ok () -> validate_json (draft_progress draft) = Ok () ->
  value_to_string (draft_plan draft) = Ok plan_json ->
  value_to_string (draft_progress draft) = Ok progress_json ->
  exists entry, entry_from_row (planned_row draft plan_json progress_json now) = Ok entry /\
    planned_entry draft entry.
Proof.
  intros [Hid Hop] Hplan Hprogress Hplan_json Hprogress_json.
  exists (mkRecoveryJournalEntry (draft_id draft) (draft_domain draft) (draft_operation draft) Planned
    (draft_plan draft) (draft_progress draft) now now None).
  split; [|done]. apply entry_from_row_ok. cbn.
  rewrite domain_parse_as_str. split_and!; try done; try by apply value_from_str_to_string.
  by apply entry_validate_ok.
Qed.

Lemma transitioned_row_decodes `{!JsonTextSpec} row old next progress progress_json now :
  entry_from_row row = Ok old -> validate_json progress = Ok () ->
  value_to_string progress = Ok progress_json ->
  exists entry, entry_from_row (transitioned_row next progress_json now row) = Ok entry /\
    moved_entry next progress old entry.
Proof.
  intros (Hid & Hd & Ho & _ & Hp & _ & _ & _ & _ & Hv)%entry_from_row_ok Hprogress Hjson.
  apply entry_validate_ok in Hv as (Hplan & _ & _).
  exists (mkRecoveryJournalEntry (entry_id old) (entry_domain old) (entry_operation old) next
    (entry_plan old) progress (journal_row_created_at row) now (if is_terminal next then Some now else None)).
  split; [|done]. apply entry_from_row_ok. cbn. rewrite state_parse_as_str.
  split_and!; try done; [by apply value_from_str_to_string|].
  apply entry_validate_ok. cbn. split_and!; [done..|]. by destruct (is_terminal next).
Qed.

Lemma insert_journal_inv row db r db' :
  insert_journal row db = (r, db') ->
  let now := journal_timestamp (journal_clock db) in
  let inserted := journal_table db !! journal_row_id (row now) = None /\
    journal_table db' = <[journal_row_id (row now) := row now]> (journal_table db) in
  match r with
  | Ok _ => inserted
  | Err _ => journal_table db' = journal_table db \/ inserted
  end.
Proof.
  unfold insert_journal. intros Hrun%journal_statement_inv. cbn in Hrun.
  destruct (journal_table db !! _) as [old|].
  - destruct r; [done|]. left. by destruct Hrun as [?|(? & ?)].
  - destruct r as [[]|].
    + injection Hrun as <-. done.
    + destruct Hrun as [?|(? & [= _ <-])]; [by left|by right].
Qed.

Lemma update_journal_inv id expected set db r db' :
  update_journal id expected set db = (r, db') ->
  let now := journal_timestamp (journal_clock db) in
  let updated := exists row, journal_table db !! journal_id_text id = Some row /\
    journal_row_state row = RecoveryState_as_str expected /\
    journal_table db' = <[journal_id_text id := set now row]> (journal_table db) in
  match r with
  | Ok 1%nat => updated
  | Ok _ => journal_table db' = journal_table db /\
            forall row, journal_table db !! journal_id_text id = Some row ->
              journal_row_state row <> RecoveryState_as_str expected
  | Err _ => journal_table db' = journal_table db \/ updated
  end.
Proof.
  unfold update_journal. intros Hrun%journal_statement_inv. cbn in Hrun.
  destruct (journal_table db !! journal_id_text id) as [row|] eqn:Hrow;
    [destruct (String.eqb_spec (journal_row_state row) (RecoveryState_as_str expected)) as [Heq|Hne]|];
    destruct r as [n|e]; try (injection Hrun as <- <-); try destruct Hrun as [?|(? & [= _ <-])];
    try (by left); try (right; by exists row); try by split; [|intros ? [= <-]].
  by exists row.
Qed.
End Sqlite.

(** The contract, discharged by the table. *)
Section Contract.
Context `{JsonText, !JsonTextSpec, JournalClock}.

Definition sqlite_journal_ok (db : SqliteJournal) : Prop := table_decodes (journal_table db).
Definition sqlite_journal_entries (db : SqliteJournal) : gmap string RecoveryJournalEntry :=
  decoded (journal_table db).

Lemma sqlite_keyed db key entry :
  sqlite_journal_ok db -> sqlite_journal_entries db !! key = Some entry ->
  journal_id_text (entry_id entry) = key.
Proof.
  unfold sqlite_journal_entries. intros Hok Hentry. rewrite lookup_decoded in Hentry.
  destruct (journal_table db !! key) as [row|] eqn:Hrow; [|done]. cbn in Hentry.
  destruct (Hok _ _ Hrow) as (<- & entry' & He). rewrite He in Hentry. injection Hentry as ->.
  apply entry_from_row_ok in He as (Hid & _). by apply journal_id_parse_ok in Hid.
Qed.

Lemma sqlite_create draft db r db' :
  sqlite_journal_ok db -> draft_wf draft -> create_journal draft db = (r, db') ->
  let created entry := planned_entry draft entry /\
    sqlite_journal_entries db !! journal_id_text (draft_id draft) = None /\
    sqlite_journal_entries db' = <[journal_id_text (draft_id draft) := entry]> (sqlite_journal_entries db) in
  sqlite_journal_ok db' /\
  match r with
  | Ok entry => created entry
  | Err _ => sqlite_journal_entries db' = sqlite_journal_entries db \/ exists entry, created entry
  end.
Proof.
  intros Hok Hdraft Hrun created. unfold create_journal in Hrun.
  unfold mbind, stateful_bind, try in Hrun.
  destruct (validate_recovery_progress (draft_plan draft)) as [[]|] eqn:Hplan; cbn in Hrun;
    [|injection Hrun as <- <-; by split; [|left]].
  destruct (validate_recovery_progress (draft_progress draft)) as [[]|] eqn:Hprogress; cbn in Hrun;
    [|injection Hrun as <- <-; by split; [|left]].
  destruct (value_to_string (draft_plan draft)) as [plan_json|] eqn:Hplan_json; cbn in Hrun;
    [|injection Hrun as <- <-; by split; [|left]].
  destruct (value_to_string (draft_progress draft)) as [progress_json|] eqn:Hprogress_json; cbn in Hrun;
    [|injection Hrun as <- <-; by split; [|left]].
  destruct (planned_row_decodes draft plan_json progress_json
    (journal_timestamp (journal_clock db)) Hdraft Hplan Hprogress Hplan_json Hprogress_json)
    as (entry & Hrow & Hentry).
  destruct (insert_journal _ db) as [ins db1] eqn:Hins. apply insert_journal_inv in Hins. cbn in Hins.
  assert (journal_table db !! journal_id_text (draft_id draft) = None /\
    journal_table db1 = <[journal_id_text (draft_id draft) := planned_row draft plan_json progress_json
      (journal_timestamp (journal_clock db))]> (journal_table db) ->
    sqlite_journal_ok db1 /\ sqlite_journal_entries db !! journal_id_text (draft_id draft) = None /\
    sqlite_journal_entries db1 = <[journal_id_text (draft_id draft) := entry]> (sqlite_journal_entries db))
    as Hdone.
  { intros [Hfresh Htable]. unfold sqlite_journal_ok, sqlite_journal_entries. rewrite Htable. split_and!.
    - by apply (table_decodes_insert _ (planned_row draft plan_json progress_json
        (journal_timestamp (journal_clock db))) entry).
    - by apply decoded_None.
    - by apply decoded_insert. }
  destruct ins as [[]|e].
  - destruct (Hdone Hins) as (Hok1 & Hfresh & Hentries).
    destruct (read_entry (draft_id draft) db1) as [read db2] eqn:Hread.
    apply read_entry_inv in Hread as [Htable Hread]; [|done].
    assert (sqlite_journal_ok db2 /\ sqlite_journal_entries db2 = sqlite_journal_entries db1) as [Hok2 Hsame]
      by (unfold sqlite_journal_ok, sqlite_journal_entries; by rewrite Htable).
    destruct read as [found|e]; injection Hrun as <- <-.
    + subst found. fold (sqlite_journal_entries db1). rewrite Hentries, lookup_insert_eq. cbn.
      split; [done|]. split_and!; [done..|]. by rewrite Hsame.
    + split; [done|]. right. exists entry. split_and!; [done..|]. by rewrite Hsame.
  - injection Hrun as <- <-. destruct Hins as [Hsame|Hins].
    + split; [|left]; unfold sqlite_journal_ok, sqlite_journal_entries; by rewrite Hsame.
    + destruct (Hdone Hins) as (? & ? & ?). split; [done|]. right. by exists entry.
Qed.

Lemma sqlite_transition id expected next progress db r db' :
  sqlite_journal_ok db -> transition_journal id expected next progress db = (r, db') ->
  let moved entry := exists old, sqlite_journal_entries db !! journal_id_text id = Some old /\
    entry_state old = expected /\ allows expected next = true /\ moved_entry next progress old entry /\
    sqlite_journal_entries db' = <[journal_id_text id := entry]> (sqlite_journal_entries db) in
  sqlite_journal_ok db' /\
  match r with
  | Ok (Transition_Applied entry) => moved entry
  | Ok (Transition_Conflict current) =>
      current = sqlite_journal_entries db !! journal_id_text id /\
      entry_state <$> current <> Some expected /\
      sqlite_journal_entries db' = sqlite_journal_entries db
  | Err _ => sqlite_journal_entries db' = sqlite_journal_entries db \/ exists entry, moved entry
  end.
Proof.
  intros Hok Hrun moved. unfold transition_journal in Hrun.
  destruct (allows expected next) eqn:Hallows; cbn [negb] in Hrun; [|injection Hrun as <- <-; by split; [|left]].
  unfold mbind, stateful_bind, try in Hrun.
  destruct (validate_recovery_progress progress) as [[]|] eqn:Hprogress; cbn in Hrun;
    [|injection Hrun as <- <-; by split; [|left]].
  destruct (value_to_string progress) as [progress_json|] eqn:Hjson; cbn in Hrun;
    [|injection Hrun as <- <-; by split; [|left]].
  destruct (update_journal _ _ _ db) as [upd db1] eqn:Hupd. apply update_journal_inv in Hupd. cbn in Hupd.
  set (now := journal_timestamp (journal_clock db)) in Hupd.
  assert ((exists row, journal_table db !! journal_id_text id = Some row /\
      journal_row_state row = RecoveryState_as_str expected /\
      journal_table db1 = <[journal_id_text id := transitioned_row next progress_json now row]> (journal_table db)) ->
    exists entry, sqlite_journal_ok db1 /\ exists old, sqlite_journal_entries db !! journal_id_text id = Some old /\
      entry_state old = expected /\ moved_entry next progress old entry /\
      sqlite_journal_entries db1 = <[journal_id_text id := entry]> (sqlite_journal_entries db)) as Hdone.
  { intros (row & Hrow & Hstate & Htable). destruct (Hok _ _ Hrow) as (Hkey & old & Hold).
    destruct (transitioned_row_decodes row old next progress progress_json now Hold Hprogress Hjson)
      as (entry & Hentry & Hmoved).
    exists entry. unfold sqlite_journal_ok, sqlite_journal_entries. rewrite Htable. split.
    - rewrite <- Hkey. by apply (table_decodes_insert _ (transitioned_row next progress_json now row) entry).
    - exists old. split_and!; [|..|done|by apply decoded_insert].
      + rewrite lookup_decoded, Hrow. cbn. by rewrite Hold.
      + apply entry_from_row_ok in Hold as (_ & _ & _ & Hs & _).
        rewrite Hstate, state_parse_as_str in Hs. congruence. }
  destruct upd as [n|e].
  - destruct (read_entry id db1) as [read db2] eqn:Hread.
    assert (sqlite_journal_ok db1) as Hok1.
    { destruct (decide (n = 1%nat)) as [->|Hn]; [by destruct (Hdone Hupd) as (? & ? & _)|].
      destruct n as [|[|n]]; [|done|]; destruct Hupd as [Hsame _]; unfold sqlite_journal_ok; by rewrite Hsame. }
    apply read_entry_inv in Hread as [Htable Hread]; [|done].
    assert (sqlite_journal_ok db2 /\ sqlite_journal_entries db2 = sqlite_journal_entries db1) as [Hok2 Hsame]
      by (unfold sqlite_journal_ok, sqlite_journal_entries; by rewrite Htable).
    destruct (decide (n = 1%nat)) as [->|Hn].
    + destruct (Hdone Hupd) as (entry & _ & old & Hold & Hstate & Hmoved & Hentries).
      rewrite <- Hsame in Hentries.
      destruct read as [found|e]; cbn in Hrun.
      * fold (sqlite_journal_entries db1) in Hread. rewrite <- Hsame, Hentries, lookup_insert_eq in Hread.
        subst found. cbn in Hrun. injection Hrun as <- <-. split; [done|]. by exists old.
      * injection Hrun as <- <-. split; [done|]. right. exists entry, old. done.
    + assert (journal_table db1 = journal_table db /\ forall row, journal_table db !! journal_id_text id = Some row ->
        journal_row_state row <> RecoveryState_as_str expected) as [Hsame1 Hother]
        by (destruct n as [|[|n]]; done).
      assert (sqlite_journal_entries db2 = sqlite_journal_entries db) as Hsame2
        by (rewrite Hsame; unfold sqlite_journal_entries; by rewrite Hsame1).
      rewrite (proj2 (Nat.eqb_neq n 1) Hn) in Hrun.
      destruct read as [found|e]; injection Hrun as <- <-; split; try done; [|by left].
      subst found. fold (sqlite_journal_entries db1). rewrite <- Hsame, Hsame2. split_and!; [done| |done].
      unfold sqlite_journal_entries. rewrite lookup_decoded.
      destruct (journal_table db !! journal_id_text id) as [row|] eqn:Hrow; [|done]. cbn.
      destruct (Hok _ _ Hrow) as (_ & old & Hold). rewrite Hold. cbn. intros [= Hstate].
      apply (Hother row eq_refl). apply entry_from_row_ok in Hold as (_ & _ & _ & Hs & _).
      apply state_parse_ok in Hs. congruence.
  - injection Hrun as <- <-. destruct Hupd as [Hsame|Hupd].
    + split; [|left]; unfold sqlite_journal_ok, sqlite_journal_entries; by rewrite Hsame.
    + destruct (Hdone Hupd) as (entry & ? & old & ?). split; [done|]. right. exists entry, old. naive_solver.
Qed.

Lemma unfinished_entry domain row entry :
  entry_from_row row = Ok entry ->
  journal_unfinished domain row = true <->
  entry_domain entry = domain /\ is_terminal (entry_state entry) = false.
Proof.
  intros (_ & Hd%domain_parse_ok & _ & Hs%state_parse_ok & _)%entry_from_row_ok.
  unfold journal_unfinished. rewrite Hd, Hs, andb_true_iff, String.eqb_eq.
  split; intros [Hdom Hstate]; (split; [by destruct (entry_domain entry), domain|by destruct (entry_state entry)]).
Qed.

Lemma elem_of_unfinished_rows domain table row :
  (length (unfinished_rows domain table) <= MAX_UNFINISHED_JOURNALS)%nat ->
  row ∈ unfinished_rows domain table <->
  journal_unfinished domain row = true /\ exists key, table !! key = Some row.
Proof.
  unfold unfinished_rows. rewrite length_take. intros Hlen.
  set (rows := merge_sort journal_row_le _) in *.
  rewrite take_ge by lia. unfold rows.
  rewrite merge_sort_Permutation, list_elem_of_In, List.filter_In, <- list_elem_of_In, list_elem_of_fmap.
  split; [intros [([key row'] & -> & Hin%elem_of_map_to_list) ?]; split; [done|by exists key]|].
  intros [? [key Hkey]]. split; [|done]. exists (key, row). split; [done|]. by apply elem_of_map_to_list.
Qed.

Lemma unfinished_rows_NoDup domain table :
  table_decodes table -> NoDup (journal_row_id <$> unfinished_rows domain table).
Proof.
  intros Htable. unfold unfinished_rows. rewrite fmap_take.
  eapply sublist_NoDup; [|apply sublist_take]. rewrite merge_sort_Permutation.
  apply (sublist_NoDup _ (journal_row_id <$> (map_to_list table).*2)).
  - rewrite <- list_fmap_compose.
    assert ((journal_row_id ∘ snd) <$> map_to_list table = (map_to_list table).*1) as ->.
    { apply list_fmap_ext. intros i [key row] Hin%list_elem_of_lookup_2%elem_of_map_to_list. cbn.
      by destruct (Htable _ _ Hin). }
    apply NoDup_fst_map_to_list.
  - induction ((map_to_list table).*2) as [|row rows IH]; [done|]. cbn.
    destruct (journal_unfinished domain row); by constructor.
Qed.

Lemma sqlite_unfinished domain db r db' :
  sqlite_journal_ok db -> unfinished_journals domain db = (r, db') ->
  sqlite_journal_ok db' /\ sqlite_journal_entries db' = sqlite_journal_entries db /\
  match r with
  | Ok entries => NoDup (entry_id <$> entries) /\
      forall entry, entry ∈ entries <->
        sqlite_journal_entries db !! journal_id_text (entry_id entry) = Some entry /\
        entry_domain entry = domain /\ is_terminal (entry_state entry) = false
  | Err _ => True
  end.
Proof.
  intros Hok Hrun. unfold unfinished_journals, mbind, stateful_bind in Hrun.
  destruct (journal_statement _ db) as [[rows|e] db1] eqn:Hst; apply journal_statement_inv in Hst; cbn in Hst.
  2:{ injection Hrun as <- <-. unfold sqlite_journal_ok, sqlite_journal_entries.
      assert (journal_table db1 = journal_table db) as -> by (by destruct Hst as [?|(? & [= _ ?])]). done. }
  injection Hst as <- Htable.
  assert (sqlite_journal_ok db1 /\ sqlite_journal_entries db1 = sqlite_journal_entries db) as [Hok1 Hsame]
    by (unfold sqlite_journal_ok, sqlite_journal_entries; by rewrite <- Htable).
  set (rows := unfinished_rows domain (journal_table db)) in *.
  destruct (Nat.ltb_spec MAX_UNFINISHED_JOURNALS (length rows)); [injection Hrun as <- <-; done|].
  unfold try in Hrun. injection Hrun as <- <-. split_and!; [done..|].
  assert (forall row, row ∈ rows -> exists key, journal_table db !! key = Some row /\ journal_row_id row = key /\
    journal_unfinished domain row = true /\ exists entry, entry_from_row row = Ok entry) as Hrows.
  { intros row [? [key Hkey]]%elem_of_unfinished_rows; [|done]. exists key.
    destruct (Hok _ _ Hkey) as [? ?]. done. }
  destruct (result_collect entry_from_row rows) as [entries|] eqn:Hcollect; [|done].
  apply result_collect_inv in Hcollect.
  split.
  - pose proof (unfinished_rows_NoDup domain (journal_table db) Hok) as Hnd. fold rows in Hnd.
    apply (NoDup_fmap_1 journal_id_text).
    rewrite <- list_fmap_compose.
    assert ((journal_id_text ∘ entry_id) <$> entries = journal_row_id <$> rows) as ->; [|done].
    clear -Hcollect. induction Hcollect as [|row entry rows entries Hrow _ IH]; [done|]. cbn. rewrite <- IH. f_equal.
    apply entry_from_row_ok in Hrow as (Hid & _). by apply journal_id_parse_ok in Hid.
  - intros entry. unfold sqlite_journal_entries. rewrite lookup_decoded. split.
    + intros Hin. apply list_elem_of_lookup in Hin as [i Hi].
      destruct (Forall2_lookup_r _ _ _ _ _ Hcollect Hi) as (row & Hrow & He).
      apply list_elem_of_lookup_2 in Hrow. destruct (Hrows _ Hrow) as (key & Hkey & <- & Hun & _).
      pose proof He as (Hid & _)%entry_from_row_ok. apply journal_id_parse_ok in Hid. rewrite Hid, Hkey. cbn.
      rewrite He. split; [done|]. by apply (unfinished_entry _ row).
    + intros [Hlook Hun]. destruct (journal_table db !! _) as [row|] eqn:Hkey; [|done]. cbn in Hlook.
      destruct (entry_from_row row) as [entry'|] eqn:He; [|done]. injection Hlook as ->.
      assert (row ∈ rows) as Hrow.
      { apply elem_of_unfinished_rows; [done|]. split; [by apply (unfinished_entry _ _ entry)|by eexists]. }
      apply list_elem_of_lookup in Hrow as [i Hi].
      destruct (Forall2_lookup_l _ _ _ _ _ Hcollect Hi) as (entry' & Hlook & He').
      rewrite He in He'. injection He' as <-. by apply list_elem_of_lookup_2 in Hlook.
Qed.

#[global] Instance SqliteJournalContract : RecoveryJournalContract SqliteJournal := {|
  journal_ok := sqlite_journal_ok;
  journal_entries := sqlite_journal_entries;
  journal_keyed := sqlite_keyed;
  create_contract := sqlite_create;
  unfinished_contract := sqlite_unfinished;
  transition_contract := sqlite_transition
|}.
End Contract.

(* ------------------------------------------------------------------ *)
(** * A concrete JSON text *)

#[local] Open Scope string_scope.
#[local] Open Scope list_scope.

Fixpoint json_tree (value : JsonValue) : gen_tree string :=
  match value with
  | Json_Null => GenNode 0 []
  | Json_Bool b => GenNode (if b then 1 else 2) []
  | Json_Number text => GenNode 3 [GenLeaf text]
  | Json_String text => GenNode 4 [GenLeaf text]
  | Json_Array values => GenNode 5 (map json_tree values)
  | Json_Object entries =>
      GenNode 6 (map (fun entry => GenNode 7 [GenLeaf entry.1; json_tree entry.2]) entries)
  end.

Fixpoint tree_json (tree : gen_tree string) : JsonValue :=
  match tree with
  | GenNode 1 [] => Json_Bool true
  | GenNode 2 [] => Json_Bool false
  | GenNode 3 [GenLeaf text] => Json_Number text
  | GenNode 4 [GenLeaf text] => Json_String text
  | GenNode 5 trees => Json_Array (map tree_json trees)
  | GenNode 6 trees =>
      Json_Object (map (fun tree => match tree with
                                    | GenNode _ [GenLeaf key; value] => (key, tree_json value)
                                    | _ => ("", Json_Null)
                                    end) trees)
  | _ => Json_Null
  end.

Fixpoint tree_json_tree (value : JsonValue) : tree_json (json_tree value) = value.
Proof.
  destruct value as [|b|text|text|values|entries]; cbn; [done|by destruct b|done|done| |].
  - f_equal. rewrite map_map. induction values as [|v values IH]; cbn; [done|].
    by rewrite tree_json_tree, IH.
  - f_equal. rewrite map_map. induction entries as [|[key v] entries IH]; cbn; [done|].
    by rewrite tree_json_tree, IH.
Qed.

#[global] Instance coded_text : JsonText := {|
  value_to_string value := Ok (String one_char (bools_text (positive_bools (encode (json_tree value)))));
  value_from_str text :=
    match text with
    | String _ bits =>
        match decode (bools_positive (text_bools bits)) with
        | Some tree => Ok (tree_json tree)
        | None => Err "not a value"
        end
    | "" => Err "EOF while parsing a value"
    end |}.

#[global] Instance coded_text_spec : JsonTextSpec.
Proof.
  split. intros value text [= <-]. cbn [value_from_str coded_text].
  by rewrite text_bools_text, bools_positive_bools, decode_encode, tree_json_tree.
Qed.
