(* ===== verification/Modes.v ===== *)
(** * Mode documents and their mutations

    [crates/music-application/src/modes.rs] and [src/modes/mutation.rs]: the
    documents of a mode, the catalog of modes, what playback is told about it,
    the validation of authored documents and the change a mutation makes to the
    catalog. Maps ordered by key are [gmap]s; the [serde] attributes are the
    loader's, an unknown field is kept in [extra]. *)

From S2P Require Import Prelude PlaybackState Catalog RecoveryJournal.

#[local] Open Scope string_scope.
#[local] Open Scope N_scope.
#[local] Open Scope list_scope.

(* ------------------------------------------------------------------ *)
(** ** Documents *)

Record InterruptDocument : Type := mkInterruptDocument {
  interrupt_name : string;
  interrupt_playlist : option string;
  interrupt_soundboard_item : option string;
  interrupt_fade_in_ms : Z;
  interrupt_fade_out_ms : Z;
  interrupt_document_return_to_ambient : bool;
  interrupt_document_duck_to : option f64;
  interrupt_extra : gmap string JsonValue
}.

Record IntegrationsDocument : Type := mkIntegrationsDocument {
  integrations_lights : option (gmap string JsonValue);
  integrations_extra : gmap string JsonValue
}.

Record ModeDocument : Type := mkModeDocument {
  manifest_id : string;
  manifest_name : string;
  manifest_theme : option string;
  manifest_panels : list string;
  manifest_playlist_categories : list string;
  manifest_interrupts : list InterruptDocument;
  manifest_integrations : IntegrationsDocument;
  manifest_default_crossfade_ms : Z;
  manifest_default_soundboard : option string;
  manifest_multiple_outputs : bool;
  manifest_extra : gmap string JsonValue
}.

Record SoundboardItemDocument : Type := mkSoundboardItemDocument {
  item_file : string;
  item_name : string;
  item_icon : option string;
  item_hotkey : option string;
  item_extra : gmap string JsonValue
}.

Record SoundboardCategoryDocument : Type := mkSoundboardCategoryDocument {
  category_id : string;
  category_name : string;
  category_items : list SoundboardItemDocument;
  category_extra : gmap string JsonValue
}.

Record SoundboardDocument : Type := mkSoundboardDocument {
  soundboard_document_id : option string;
  soundboard_document_name : option string;
  soundboard_categories : list SoundboardCategoryDocument;
  soundboard_extra : gmap string JsonValue
}.

Record CueSfxDocument : Type := mkCueSfxDocument {
  cue_sfx_document_soundboard : string;
  cue_sfx_document_item : string;
  cue_sfx_document_volume : f64;
  cue_sfx_document_extra : gmap string JsonValue
}.

Record CueLoopDocument : Type := mkCueLoopDocument {
  cue_loop_soundboard : string;
  cue_loop_item : string;
  cue_loop_interval_s : f64;
  cue_loop_volume : f64;
  cue_loop_extra : gmap string JsonValue
}.

Record CueDocument : Type := mkCueDocument {
  cue_document_id : option string;
  cue_document_name : string;
  cue_document_description : option string;
  cue_document_preset : option string;
  cue_document_playlist : option string;
  cue_document_start_index : N;
  cue_document_start_ms : N;
  cue_document_sfx : list CueSfxDocument;
  cue_document_loops : list CueLoopDocument;
  cue_document_extra : gmap string JsonValue
}.

Record EffectDocument : Type := mkEffectDocument {
  effect_type : string;
  effect_parameters : gmap string JsonValue
}.

Record PresetDocument : Type := mkPresetDocument {
  preset_document_id : option string;
  preset_document_name : string;
  preset_document_description : option string;
  preset_document_effects : list EffectDocument;
  preset_document_crossfade_ms : option N;
  preset_document_extra : gmap string JsonValue
}.

Record ModeBundle : Type := mkModeBundle {
  bundle_manifest : ModeDocument;
  bundle_soundboards : gmap string SoundboardDocument;
  bundle_cues : gmap string CueDocument;
  bundle_presets : gmap string PresetDocument;
  bundle_theme_css : option string
}.

Record ModeCatalog : Type := mkModeCatalog {
  mode_catalog_generation : N;
  mode_catalog_modes : gmap string ModeBundle
}.

Record ModeLoadAttempt : Type := mkModeLoadAttempt {
  attempt_modes : gmap string ModeBundle;
  attempt_errors : gmap string string
}.

(** [soundboard.categories.iter().flat_map(|category| &category.items)] *)
Definition soundboard_items (soundboard : SoundboardDocument) : list SoundboardItemDocument :=
  flat_map category_items (soundboard_categories soundboard).

(** [ModeBundle::soundboard_item] *)
Definition bundle_soundboard_item (mode : ModeBundle) (soundboard_id item_path : string)
    : option SoundboardItemDocument :=
  soundboard ← bundle_soundboards mode !! soundboard_id;
  List.find (fun item => String.eqb (item_file item) item_path) (soundboard_items soundboard).

(** [ModeCatalog::soundboard_item] *)
Definition catalog_soundboard_item (known : ModeCatalog) (mode_id soundboard_id item_path : string)
    : option SoundboardItemDocument :=
  mode ← mode_catalog_modes known !! mode_id;
  bundle_soundboard_item mode soundboard_id item_path.

Definition references_sfx_path (known : ModeCatalog) (item_path : string) : bool :=
  existsb (fun mode =>
    existsb (fun soundboard =>
      existsb (fun item => String.eqb (item_file item) item_path) (soundboard_items soundboard))
      (map_to_list (bundle_soundboards mode)).*2)
    (map_to_list (mode_catalog_modes known)).*2.

(* ------------------------------------------------------------------ *)
(** ** What playback is told *)

Definition mode_references (mode : ModeBundle) : ModePlaybackReferences := {|
  refs_soundboard_items :=
    (fun soundboard => list_to_set (item_file <$> soundboard_items soundboard)) <$> bundle_soundboards mode;
  refs_cue_ids := dom (bundle_cues mode);
  refs_preset_ids := dom (bundle_presets mode);
  refs_multiple_outputs := manifest_multiple_outputs (bundle_manifest mode) |}.

Definition playback_references (modes : gmap string ModeBundle) : gmap string ModePlaybackReferences :=
  mode_references <$> modes.

(** [serde_json]'s [PartialEq] on values. *)
Class ValueEq : Type := { value_eqb : JsonValue -> JsonValue -> bool }.

(** The derived [PartialEq] of the preset documents. *)
Section Equality.
Context `{ValueEq}.

Definition map_eqb {A} (eqb : A -> A -> bool) (m n : gmap string A) : bool :=
  (size m =? size n)%nat
  && forallb (fun entry => match n !! entry.1 with Some other => eqb entry.2 other | None => false end)
       (map_to_list m).

Fixpoint list_eqb {A} (eqb : A -> A -> bool) (l k : list A) : bool :=
  match l, k with
  | [], [] => true
  | x :: l, y :: k => eqb x y && list_eqb eqb l k
  | _, _ => false
  end.

Definition option_eqb {A} (eqb : A -> A -> bool) (o p : option A) : bool :=
  match o, p with
  | None, None => true
  | Some x, Some y => eqb x y
  | _, _ => false
  end.

Definition effect_eqb (a b : EffectDocument) : bool :=
  String.eqb (effect_type a) (effect_type b)
  && map_eqb value_eqb (effect_parameters a) (effect_parameters b).

Definition preset_eqb (a b : PresetDocument) : bool :=
  option_eqb String.eqb (preset_document_id a) (preset_document_id b)
  && String.eqb (preset_document_name a) (preset_document_name b)
  && option_eqb String.eqb (preset_document_description a) (preset_document_description b)
  && list_eqb effect_eqb (preset_document_effects a) (preset_document_effects b)
  && option_eqb N.eqb (preset_document_crossfade_ms a) (preset_document_crossfade_ms b)
  && map_eqb value_eqb (preset_document_extra a) (preset_document_extra b).

Definition presets_of (mode : option ModeBundle) : gmap string PresetDocument :=
  match mode with Some mode => bundle_presets mode | None => ∅ end.

(** The keys of one mode whose preset differs between two catalogs. *)
Definition changed_in_mode (mode_id : string) (previous following : option ModeBundle)
    : list ModePresetKey :=
  mkModePresetKey mode_id <$>
    List.filter (fun preset_id =>
      negb (option_eqb preset_eqb (presets_of previous !! preset_id) (presets_of following !! preset_id)))
      (elements (dom (presets_of previous) ∪ dom (presets_of following) : gset string)).

(** A list without repetition stands for the [BTreeSet] of keys. *)
Definition changed_presets (current : option ModeCatalog) (next : gmap string ModeBundle)
    : list ModePresetKey :=
  match current with
  | None => []
  | Some current =>
      flat_map (fun mode_id =>
        changed_in_mode mode_id (mode_catalog_modes current !! mode_id) (next !! mode_id))
        (elements (dom (mode_catalog_modes current) ∪ dom next : gset string))
  end.
End Equality.

(* ------------------------------------------------------------------ *)
(** ** Mutations *)

Record ModeImportPlaylist : Type := mkModeImportPlaylist {
  import_playlist_name : string;
  import_playlist_category : option string;
  import_playlist_track_ids : list TrackId
}.

Inductive ModeMutation : Type :=
| CreateMode (expected_generation : N) (manifest : ModeDocument)
| DeleteMode (expected_generation : N) (mode_id : string)
| PutManifest (expected_generation : N) (mode_id : string) (manifest : ModeDocument)
| PutSoundboard (expected_generation : N) (mode_id soundboard_id : string)
    (document : SoundboardDocument) (create_only : bool)
| DeleteSoundboard (expected_generation : N) (mode_id soundboard_id : string)
| PutCue (expected_generation : N) (mode_id cue_id : string) (document : CueDocument)
    (create_only : bool)
| DeleteCue (expected_generation : N) (mode_id cue_id : string)
| PutPreset (expected_generation : N) (mode_id preset_id : string) (document : PresetDocument)
    (create_only : bool)
| DeletePreset (expected_generation : N) (mode_id preset_id : string)
| ImportResources (expected_generation : N) (mode_id : string) (manifest : ModeDocument)
    (soundboards : gmap string SoundboardDocument) (cues : gmap string CueDocument)
    (presets : gmap string PresetDocument) (playlists : list ModeImportPlaylist).

Record PreparedModeMutation : Type := mkPreparedModeMutation {
  prepared_operation : RecoveryOperation;
  prepared_plan : JsonValue
}.

Definition expected_generation (mutation : ModeMutation) : N :=
  match mutation with
  | CreateMode generation _ | DeleteMode generation _ | PutManifest generation _ _
  | PutSoundboard generation _ _ _ _ | DeleteSoundboard generation _ _
  | PutCue generation _ _ _ _ | DeleteCue generation _ _ | PutPreset generation _ _ _ _
  | DeletePreset generation _ _ | ImportResources generation _ _ _ _ _ _ => generation
  end.

Definition mutation_mode_id (mutation : ModeMutation) : string :=
  match mutation with
  | CreateMode _ manifest => manifest_id manifest
  | DeleteMode _ mode_id | PutManifest _ mode_id _ | PutSoundboard _ mode_id _ _ _
  | DeleteSoundboard _ mode_id _ | PutCue _ mode_id _ _ _ | DeleteCue _ mode_id _
  | PutPreset _ mode_id _ _ _ | DeletePreset _ mode_id _
  | ImportResources _ mode_id _ _ _ _ _ => mode_id
  end.

Definition deletes_mode (mutation : ModeMutation) : bool :=
  match mutation with DeleteMode _ _ => true | _ => false end.

Inductive ModeMutationFailureKind : Type :=
| Mode_Stale | Mode_Invalid | Mode_NotFound | Mode_Conflict | Mode_Unavailable.

Record ModeMutationError : Type := mkModeMutationError {
  mutation_error_kind : ModeMutationFailureKind;
  mutation_error_code : string
}.

Definition invalid (code : string) : ModeMutationError := mkModeMutationError Mode_Invalid code.
Definition not_found (code : string) : ModeMutationError := mkModeMutationError Mode_NotFound code.
Definition conflict (code : string) : ModeMutationError := mkModeMutationError Mode_Conflict code.

(* ------------------------------------------------------------------ *)
(** ** Validation *)

(** A slug has only ASCII characters, each its own byte; a byte of a longer
    character is refused like the character. *)
Definition slug_character (byte : Ascii.ascii) : bool :=
  is_ascii_lowercase byte || is_ascii_digit byte || (byte_of byte =? 45) || (byte_of byte =? 95).

Definition validate_slug (value : string) : result ModeMutationError () :=
  match value with
  | EmptyString => Err (invalid "resource id is empty")
  | String first rest =>
      if (64 <? chars_count value)%nat
         || negb (is_ascii_lowercase first || is_ascii_digit first)
         || negb (all_bytes slug_character rest)
      then Err (invalid "resource id is not a lowercase filesystem slug")
      else Ok ()
  end.

Definition out_of_unit (value : f64) : bool :=
  negb (f64_is_finite value) || negb (f64_in_range (f64_of_Z 0) (f64_of_Z 1) value).

Definition validate_manifest (manifest : ModeDocument) (soundboards : gmap string SoundboardDocument)
    : result ModeMutationError () :=
  _ ← validate_slug (manifest_id manifest);
  if option_is_some_and (manifest_default_soundboard manifest) (fun id =>
       negb (bool_decide (is_Some (soundboards !! id))))
  then Err (invalid "default soundboard is not present")
  else if existsb (fun interrupt =>
            option_is_some_and (interrupt_document_duck_to interrupt) out_of_unit)
            (manifest_interrupts manifest)
  then Err (invalid "interrupt ducking is outside the supported range")
  else Ok ().

Definition validate_cue (id : string) (document : CueDocument) : result ModeMutationError () :=
  if negb (bool_decide (cue_document_id document = Some id))
  then Err (invalid "cue id does not match its filename")
  else if existsb (fun sfx => out_of_unit (cue_sfx_document_volume sfx)) (cue_document_sfx document)
          || existsb (fun spec =>
               out_of_unit (cue_loop_volume spec)
               || negb (f64_is_finite (cue_loop_interval_s spec))
               || negb (f64_in_range (f64_of_Z 1) (f64_of_Z 3600) (cue_loop_interval_s spec)))
               (cue_document_loops document)
  then Err (invalid "cue timing or volume is outside the supported range")
  else Ok ().

Definition supported_effect (effect : EffectDocument) : bool :=
  existsb (String.eqb (effect_type effect))
    ["eq"; "reverb"; "lowpass"; "highpass"; "bandpass"; "delay"; "distortion"; "tremolo"].

Definition validate_preset (id : string) (document : PresetDocument) : result ModeMutationError () :=
  if negb (bool_decide (preset_document_id document = Some id))
  then Err (invalid "preset id does not match its filename")
  else if option_is_some_and (preset_document_crossfade_ms document) (fun value => 60000 <? value)
          || existsb (fun effect => negb (supported_effect effect)) (preset_document_effects document)
  then Err (invalid "preset contains an unsupported effect")
  else Ok ().

(** [document.id.as_deref() != Some(soundboard_id)] *)
Definition validate_soundboard_id (id : string) (document : SoundboardDocument)
    : result ModeMutationError () :=
  if negb (bool_decide (soundboard_document_id document = Some id))
  then Err (invalid "soundboard id does not match its filename") else Ok ().

(* ------------------------------------------------------------------ *)
(** ** The change to the catalog *)

(** [for (id, document) in documents { validate(id, document)?; }] *)
Fixpoint validate_each {A} (validate : string -> A -> result ModeMutationError ())
    (documents : list (string * A)) : result ModeMutationError () :=
  match documents with
  | [] => Ok ()
  | (id, document) :: documents => _ ← validate id document; validate_each validate documents
  end.

(** The checks on a document that is put in place of another or created. *)
Definition put_allowed (kind : string) (create_only exists_ : bool) : result ModeMutationError () :=
  if create_only && exists_ then Err (conflict (kind +:+ " already exists"))
  else if negb create_only && negb exists_ then Err (not_found (kind +:+ " not found"))
  else Ok ().

Definition get_mode (modes : gmap string ModeBundle) (mode_id : string)
    : result ModeMutationError ModeBundle := ok_or (not_found "mode not found") (modes !! mode_id).

Definition with_manifest (manifest : ModeDocument) (mode : ModeBundle) : ModeBundle :=
  mkModeBundle manifest (bundle_soundboards mode) (bundle_cues mode) (bundle_presets mode)
    (bundle_theme_css mode).
Definition with_soundboards (soundboards : gmap string SoundboardDocument) (mode : ModeBundle)
    : ModeBundle :=
  mkModeBundle (bundle_manifest mode) soundboards (bundle_cues mode) (bundle_presets mode)
    (bundle_theme_css mode).
Definition with_cues (cues : gmap string CueDocument) (mode : ModeBundle) : ModeBundle :=
  mkModeBundle (bundle_manifest mode) (bundle_soundboards mode) cues (bundle_presets mode)
    (bundle_theme_css mode).
Definition with_presets (presets : gmap string PresetDocument) (mode : ModeBundle) : ModeBundle :=
  mkModeBundle (bundle_manifest mode) (bundle_soundboards mode) (bundle_cues mode) presets
    (bundle_theme_css mode).

(** [a.keys().any(|key| b.contains_key(key))] *)
Definition shares_key {A} (a b : gmap string A) : bool :=
  existsb (fun key => bool_decide (is_Some (b !! key))) (map_to_list a).*1.

Definition import_resources (manifest : ModeDocument) (soundboards : gmap string SoundboardDocument)
    (cues : gmap string CueDocument) (presets : gmap string PresetDocument) (mode : ModeBundle)
    : result ModeMutationError ModeBundle :=
  if shares_key soundboards (bundle_soundboards mode) || shares_key cues (bundle_cues mode)
     || shares_key presets (bundle_presets mode)
  then Err (conflict "import target resource already exists")
  else
    _ ← validate_each (fun id document => _ ← validate_slug id; validate_soundboard_id id document)
          (sorted_entries string_leb soundboards);
    _ ← validate_each validate_cue (sorted_entries string_leb cues);
    _ ← validate_each validate_preset (sorted_entries string_leb presets);
    _ ← validate_manifest manifest (soundboards ∪ bundle_soundboards mode);
    Ok (mkModeBundle manifest (soundboards ∪ bundle_soundboards mode) (cues ∪ bundle_cues mode)
          (presets ∪ bundle_presets mode) (bundle_theme_css mode)).

Definition apply_catalog_mutation (current : ModeCatalog) (mutation : ModeMutation)
    : result ModeMutationError (gmap string ModeBundle) :=
  let modes := mode_catalog_modes current in
  match mutation with
  | CreateMode _ manifest =>
      _ ← validate_slug (manifest_id manifest);
      _ ← validate_manifest manifest ∅;
      if bool_decide (is_Some (modes !! manifest_id manifest))
      then Err (conflict "mode already exists")
      else Ok (<[manifest_id manifest := mkModeBundle manifest ∅ ∅ ∅ None]> modes)
  | DeleteMode _ mode_id =>
      _ ← validate_slug mode_id;
      match modes !! mode_id with
      | None => Err (not_found "mode not found")
      | Some _ => Ok (delete mode_id modes)
      end
  | PutManifest _ mode_id manifest =>
      _ ← validate_slug mode_id;
      if negb (String.eqb (manifest_id manifest) mode_id)
      then Err (invalid "mode manifest id does not match the mode")
      else
        mode ← get_mode modes mode_id;
        _ ← validate_manifest manifest (bundle_soundboards mode);
        Ok (<[mode_id := with_manifest manifest mode]> modes)
  | PutSoundboard _ mode_id soundboard_id document create_only =>
      _ ← validate_slug mode_id;
      _ ← validate_slug soundboard_id;
      _ ← validate_soundboard_id soundboard_id document;
      mode ← get_mode modes mode_id;
      _ ← put_allowed "soundboard" create_only
            (bool_decide (is_Some (bundle_soundboards mode !! soundboard_id)));
      Ok (<[mode_id := with_soundboards (<[soundboard_id := document]> (bundle_soundboards mode)) mode]> modes)
  | DeleteSoundboard _ mode_id soundboard_id =>
      _ ← validate_slug mode_id;
      _ ← validate_slug soundboard_id;
      mode ← get_mode modes mode_id;
      if bool_decide (manifest_default_soundboard (bundle_manifest mode) = Some soundboard_id)
      then Err (conflict "default soundboard cannot be deleted")
      else match bundle_soundboards mode !! soundboard_id with
      | None => Err (not_found "soundboard not found")
      | Some _ => Ok (<[mode_id := with_soundboards (delete soundboard_id (bundle_soundboards mode)) mode]> modes)
      end
  | PutCue _ mode_id cue_id document create_only =>
      _ ← validate_slug mode_id;
      _ ← validate_slug cue_id;
      _ ← validate_cue cue_id document;
      mode ← get_mode modes mode_id;
      _ ← put_allowed "cue" create_only (bool_decide (is_Some (bundle_cues mode !! cue_id)));
      Ok (<[mode_id := with_cues (<[cue_id := document]> (bundle_cues mode)) mode]> modes)
  | DeleteCue _ mode_id cue_id =>
      _ ← validate_slug mode_id;
      _ ← validate_slug cue_id;
      mode ← get_mode modes mode_id;
      match bundle_cues mode !! cue_id with
      | None => Err (not_found "cue not found")
      | Some _ => Ok (<[mode_id := with_cues (delete cue_id (bundle_cues mode)) mode]> modes)
      end
  | PutPreset _ mode_id preset_id document create_only =>
      _ ← validate_slug mode_id;
      _ ← validate_slug preset_id;
      _ ← validate_preset preset_id document;
      mode ← get_mode modes mode_id;
      _ ← put_allowed "preset" create_only (bool_decide (is_Some (bundle_presets mode !! preset_id)));
      Ok (<[mode_id := with_presets (<[preset_id := document]> (bundle_presets mode)) mode]> modes)
  | DeletePreset _ mode_id preset_id =>
      _ ← validate_slug mode_id;
      _ ← validate_slug preset_id;
      mode ← get_mode modes mode_id;
      match bundle_presets mode !! preset_id with
      | None => Err (not_found "preset not found")
      | Some _ => Ok (<[mode_id := with_presets (delete preset_id (bundle_presets mode)) mode]> modes)
      end
  | ImportResources _ mode_id manifest soundboards cues presets _ =>
      _ ← validate_slug mode_id;
      if negb (String.eqb (manifest_id manifest) mode_id)
      then Err (invalid "mode manifest id does not match the mode")
      else
        mode ← get_mode modes mode_id;
        mode ← import_resources manifest soundboards cues presets mode;
        Ok (<[mode_id := mode]> modes)
  end.
