(* ===== verification/ModeYaml.v ===== *)
(** * Authored mode documents as text

    [crates/music-media/src/yaml.rs]: how an authored document is accepted, and
    how it is written. The YAML reader and writer ([serde_saphyr]) are the class
    [YamlText]. *)

From S2P Require Import Prelude Catalog MediaPath Filesystem RecoveryJournal Modes.

#[local] Open Scope string_scope.
#[local] Open Scope N_scope.
#[local] Open Scope list_scope.

Definition MAX_YAML_INPUT_BYTES : N := 1024 * 1024.

Inductive YamlDocumentError : Type :=
| Yaml_TooLarge (actual maximum : N)
| Yaml_Parse (message : string)
| Yaml_Serialize (message : string)
| Yaml_IdMismatch (kind expected actual : string)
| Yaml_InvalidValue (field : string).

Definition YamlDocumentError_fmt (error : YamlDocumentError) : string :=
  match error with
  | Yaml_TooLarge actual maximum =>
      "authored YAML is " +:+ pretty actual +:+ " bytes; maximum is " +:+ pretty maximum
  | Yaml_Parse message => "authored YAML is invalid: " +:+ message
  | Yaml_Serialize message => "authored YAML could not be serialized: " +:+ message
  | Yaml_IdMismatch kind expected actual =>
      kind +:+ " id '" +:+ actual +:+ "' does not match its location '" +:+ expected +:+ "'"
  | Yaml_InvalidValue field => "invalid authored value: " +:+ field
  end.

(** [serde_saphyr::from_str_with_options] and [to_string] at one document type. *)
Class YamlText (document : Type) : Type := {
  yaml_from_str : string -> result string document;
  yaml_to_string : document -> result string string
}.

Definition validate_size (actual : N) : result YamlDocumentError () :=
  if MAX_YAML_INPUT_BYTES <? actual then Err (Yaml_TooLarge actual MAX_YAML_INPUT_BYTES) else Ok ().

Definition text_len (text : string) : N := N.of_nat (String.length text).

Definition deserialize_document {document} `{YamlText document} (input : string)
    : result YamlDocumentError document :=
  _ ← validate_size (text_len input);
  map_err Yaml_Parse (yaml_from_str input).

Definition serialize_document {document} `{YamlText document} (value : document)
    : result YamlDocumentError string :=
  serialized ← map_err Yaml_Serialize (yaml_to_string value);
  _ ← validate_size (text_len serialized);
  Ok serialized.

Definition validate_required_id (kind expected actual : string) : result YamlDocumentError () :=
  if negb (String.eqb actual expected) then Err (Yaml_IdMismatch kind expected actual) else Ok ().

(** The id the document has afterwards. *)
Definition resolve_optional_id (kind expected : string) (actual : option string)
    : result YamlDocumentError (option string) :=
  match actual with
  | Some id => _ ← validate_required_id kind expected id; Ok (Some id)
  | None => Ok (Some expected)
  end.

Definition validate_range (field : string) (value minimum maximum : f64) : result YamlDocumentError () :=
  if negb (f64_is_finite value) || negb (f64_in_range minimum maximum value)
  then Err (Yaml_InvalidValue field) else Ok ().

Definition validate_unit_interval (field : string) (value : f64) : result YamlDocumentError () :=
  validate_range field value (f64_of_Z 0) (f64_of_Z 1).

Definition is_supported_effect (effect_type : string) : bool :=
  existsb (String.eqb effect_type)
    ["eq"; "reverb"; "lowpass"; "highpass"; "bandpass"; "delay"; "distortion"; "tremolo"].

(** [for x in list { check(x)?; }] *)
Fixpoint check_each {A E} (check : A -> result E ()) (list : list A) : result E () :=
  match list with
  | [] => Ok ()
  | x :: list => _ ← check x; check_each check list
  end.

Section Parsing.
Context `{YamlText ModeDocument, YamlText SoundboardDocument, YamlText CueDocument, YamlText PresetDocument}.

Definition parse_mode_document (input expected_id : string) : result YamlDocumentError ModeDocument :=
  document ← deserialize_document input;
  _ ← validate_required_id "mode" expected_id (manifest_id document);
  _ ← check_each (fun interrupt =>
        match interrupt_document_duck_to interrupt with
        | Some duck_to => validate_unit_interval "interrupts[].duck_to" duck_to
        | None => Ok ()
        end) (manifest_interrupts document);
  Ok document.

Definition with_soundboard_id (id : option string) (document : SoundboardDocument) : SoundboardDocument :=
  mkSoundboardDocument id (soundboard_document_name document) (soundboard_categories document)
    (soundboard_extra document).

Definition parse_soundboard_document (input expected_id : string)
    : result YamlDocumentError SoundboardDocument :=
  document ← deserialize_document input;
  id ← resolve_optional_id "soundboard" expected_id (soundboard_document_id document);
  Ok (with_soundboard_id id document).

Definition with_cue_document_id (id : option string) (document : CueDocument) : CueDocument :=
  mkCueDocument id (cue_document_name document) (cue_document_description document)
    (cue_document_preset document) (cue_document_playlist document) (cue_document_start_index document)
    (cue_document_start_ms document) (cue_document_sfx document) (cue_document_loops document)
    (cue_document_extra document).

Definition parse_cue_document (input expected_id : string) : result YamlDocumentError CueDocument :=
  document ← deserialize_document input;
  id ← resolve_optional_id "cue" expected_id (cue_document_id document);
  let document := with_cue_document_id id document in
  _ ← check_each (fun sfx => validate_unit_interval "sfx[].volume" (cue_sfx_document_volume sfx))
        (cue_document_sfx document);
  _ ← check_each (fun spec =>
        _ ← validate_range "loops[].interval_s" (cue_loop_interval_s spec) (f64_of_Z 1) (f64_of_Z 3600);
        validate_unit_interval "loops[].volume" (cue_loop_volume spec)) (cue_document_loops document);
  Ok document.

Definition with_preset_document_id (id : option string) (document : PresetDocument) : PresetDocument :=
  mkPresetDocument id (preset_document_name document) (preset_document_description document)
    (preset_document_effects document) (preset_document_crossfade_ms document)
    (preset_document_extra document).

Definition parse_preset_document (input expected_id : string) : result YamlDocumentError PresetDocument :=
  document ← deserialize_document input;
  id ← resolve_optional_id "preset" expected_id (preset_document_id document);
  let document := with_preset_document_id id document in
  if option_is_some_and (preset_document_crossfade_ms document) (fun value => 60000 <? value)
  then Err (Yaml_InvalidValue "crossfade_ms")
  else
    _ ← check_each (fun effect =>
          if negb (is_supported_effect (effect_type effect))
          then Err (Yaml_InvalidValue "effects[].type") else Ok ()) (preset_document_effects document);
    Ok document.
End Parsing.

(* ------------------------------------------------------------------ *)
(** * Loading the mode catalog from disk *)

#[local] Open Scope string_scope.
#[local] Open Scope N_scope.
#[local] Open Scope list_scope.

Definition MAX_ROOT_ENTRIES : nat := 1024.
Definition MAX_MODES : nat := 256.
Definition MAX_DOCUMENTS_PER_MODE : nat := 4096.
Definition MAX_AUTHORED_DOCUMENT_BYTES : N := 1024 * 1024.
Definition MAX_THEME_BYTES : N := 512 * 1024.
Definition MAX_SLUG_CHARS : nat := 64.

(** Well-formed UTF-8, as [read_to_string] and [into_string] ask: [expected]
    are the ranges of the bytes that complete the current character. *)
Definition utf8_continuations (byte : N) : option (list (N * N)) :=
  let tail := (128, 191) in
  if byte <? 128 then Some []
  else if byte <? 194 then None
  else if byte <? 224 then Some [tail]
  else if byte =? 224 then Some [(160, 191); tail]
  else if byte =? 237 then Some [(128, 159); tail]
  else if byte <? 240 then Some [tail; tail]
  else if byte =? 240 then Some [(144, 191); tail; tail]
  else if byte <? 244 then Some [tail; tail; tail]
  else if byte =? 244 then Some [(128, 143); tail; tail]
  else None.

Fixpoint utf8_from (expected : list (N * N)) (s : string) : bool :=
  match s, expected with
  | EmptyString, [] => true
  | EmptyString, _ => false
  | String byte s, (lo, hi) :: expected => in_bytes lo hi byte && utf8_from expected s
  | String byte s, [] =>
      match utf8_continuations (byte_of byte) with
      | Some expected => utf8_from expected s
      | None => false
      end
  end.
Definition utf8_valid (s : string) : bool := utf8_from [] s.

(** The names directly inside a directory, sorted. *)
Definition name_le (a b : string) : Prop := string_leb a b = true.
#[global] Instance name_le_dec a b : Decision (name_le a b).
Proof. unfold name_le. apply _. Defined.

Definition dir_entries (p : FsPath) (t : FsTree) : list string :=
  merge_sort name_le
    (omap (fun q => match strip p q with Some [name] => Some name | _ => None end)
      (map_to_list t).*1).

Definition is_ascii_slug_character (character : Ascii.ascii) : bool :=
  is_ascii_lowercase character || is_ascii_digit character.

Definition valid_slug (value : string) : bool :=
  match value with
  | EmptyString => false
  | String first rest =>
      (chars_count value <=? MAX_SLUG_CHARS)%nat && is_ascii_slug_character first
      && all_bytes (fun character => is_ascii_slug_character character
                                     || (byte_of character =? 45) || (byte_of character =? 95)) rest
  end.

(** [path.extension()] and [path.file_stem()] of a file name: split at the last
    dot, unless it is the first character. *)
Definition split_extension (name : string) : string * option string :=
  match rsplit_once dot name with
  | Some (EmptyString, _) | None => (name, None)
  | Some (stem, extension) => (stem, Some extension)
  end.

Section Loading.
Context `{YamlText ModeDocument, YamlText SoundboardDocument, YamlText CueDocument, YamlText PresetDocument}.

(** [map_err(|error| ModeBundleError(error.to_string()))] *)
Definition parsed {A} (r : result YamlDocumentError A) : fs A :=
  try (map_err (fun error => Fs_failed (YamlDocumentError_fmt error)) r).

Definition read_document (path : FsPath) (label : string) : fs string :=
  t ← gets fs_tree;
  match fs_node path t with
  | None => throw (Fs_failed (label +:+ " could not be inspected"))
  | Some FsDirectory => throw (Fs_failed (label +:+ " must be a regular file"))
  | Some (FsFile content) =>
      if MAX_AUTHORED_DOCUMENT_BYTES <? text_len content
      then throw (Fs_failed (label +:+ " is too large"))
      else
        content ← fs_read (label +:+ " is not valid UTF-8") path;
        if utf8_valid content then mret content
        else throw (Fs_failed (label +:+ " is not valid UTF-8"))
  end.

Section Documents.
Context {document : Type}.
Variables (directory : FsPath) (kind : string)
  (parse : string -> string -> result YamlDocumentError document).

(** One [.yaml] file of the directory; other files are skipped. *)
Definition load_document (documents : gmap string document) (name : string)
    : fs (gmap string document) :=
  let '(stem, extension) := split_extension name in
  if negb (bool_decide (extension = Some "yaml")) then mret documents
  else
    t ← gets fs_tree;
    if negb (fs_is_file (directory ++ [name]) t)
    then throw (Fs_failed (kind +:+ " document must be a regular file"))
    else if negb (valid_slug stem)
    then throw (Fs_failed (kind +:+ " filename is not a valid slug"))
    else
      source ← read_document (directory ++ [name]) kind;
      parsed_document ← parsed (parse source stem);
      match documents !! stem with
      | Some _ => throw (Fs_failed ("duplicate " +:+ kind +:+ " id"))
      | None => mret (<[stem := parsed_document]> documents)
      end.

Fixpoint load_each (documents : gmap string document) (names : list string) : fs (gmap string document) :=
  match names with
  | [] => mret documents
  | name :: names => documents ← load_document documents name; load_each documents names
  end.

Definition load_documents : fs (gmap string document) :=
  t ← gets fs_tree;
  match fs_node directory t with
  | None => mret ∅
  | Some (FsFile _) => throw (Fs_failed (kind +:+ " path must be a regular directory"))
  | Some FsDirectory =>
      let names := dir_entries directory t in
      if (MAX_DOCUMENTS_PER_MODE <? length names)%nat
      then throw (Fs_failed (kind +:+ " directory contains too many documents"))
      else load_each ∅ names
  end.
End Documents.

(** [Path::components] of a relative path, [None] when one of them is not a
    name: the root, the current directory at the front, or the parent. *)
Definition normal_components (relative : string) : option FsPath :=
  if starts_with_char slash relative then None
  else
    let parts := split_on slash relative in
    if bool_decide (head parts = Some ".") || existsb (String.eqb "..") parts then None
    else Some (List.filter (fun part => negb (String.eqb part "") && negb (String.eqb part ".")) parts).

(** Every part but the last is a directory and the last a file. *)
Fixpoint theme_parts (base : FsPath) (parts : FsPath) (t : FsTree) : result FsError FsPath :=
  match parts with
  | [] => Ok base
  | part :: parts =>
      let candidate := base ++ [part] in
      match fs_node candidate t, parts with
      | None, _ => Err (Fs_failed "theme file could not be inspected")
      | Some FsDirectory, _ :: _ | Some (FsFile _), [] => theme_parts candidate parts t
      | _, _ => Err (Fs_failed "theme path is unsafe")
      end
  end.

Definition read_theme (mode_root : FsPath) (relative : string) : fs string :=
  match normal_components relative with
  | Some parts =>
      if String.eqb relative "" || contains_char backslash relative
      then throw (Fs_failed "theme path is unsafe")
      else
        t ← gets fs_tree;
        path ← try (theme_parts mode_root parts t);
        match fs_node path t with
        | Some (FsFile content) =>
            if MAX_THEME_BYTES <? text_len content then throw (Fs_failed "theme file is too large")
            else
              content ← fs_read "theme file is not valid UTF-8" path;
              if utf8_valid content then mret content
              else throw (Fs_failed "theme file is not valid UTF-8")
        | _ => throw (Fs_failed "theme file is not valid UTF-8")
        end
  | None => throw (Fs_failed "theme path is unsafe")
  end.

Definition load_mode (path : FsPath) (mode_id : string) : fs ModeBundle :=
  manifest_source ← read_document (path ++ ["manifest.yaml"]) "manifest.yaml";
  manifest ← parsed (parse_mode_document manifest_source mode_id);
  soundboards ← load_documents (path ++ ["soundboards"]) "soundboard" parse_soundboard_document;
  cues ← load_documents (path ++ ["cues"]) "cue" parse_cue_document;
  presets ← load_documents (path ++ ["presets"]) "preset" parse_preset_document;
  if option_is_some_and (manifest_default_soundboard manifest) (fun id =>
       negb (bool_decide (is_Some (soundboards !! id))))
  then throw (Fs_failed "default_soundboard does not name a loaded soundboard")
  else
    theme_css ← match manifest_theme manifest with
                | None => mret None
                | Some theme => css ← read_theme path theme; mret (Some css)
                end;
    mret (mkModeBundle manifest soundboards cues presets theme_css).

Definition add_mode_error (name detail : string) (loaded : ModeLoadAttempt) : ModeLoadAttempt :=
  mkModeLoadAttempt (attempt_modes loaded) (<[name := detail]> (attempt_errors loaded)).

Fixpoint load_entries (index mode_directories : nat) (entries : list string) (loaded : ModeLoadAttempt)
    : fs ModeLoadAttempt :=
  match entries with
  | [] => mret loaded
  | name :: entries =>
      if negb (utf8_valid name)
      then load_entries (S index) mode_directories entries
             (add_mode_error ("<invalid-" +:+ pretty index +:+ ">")
                "mode directory name is not valid Unicode" loaded)
      else if starts_with "." name then load_entries (S index) mode_directories entries loaded
      else
        t ← gets fs_tree;
        if negb (fs_is_dir [name] t) then load_entries (S index) mode_directories entries loaded
        else if (MAX_MODES <? S mode_directories)%nat
        then throw (Fs_failed "modes directory contains too many modes")
        else if negb (valid_slug name)
        then load_entries (S index) (S mode_directories) entries
               (add_mode_error name "mode id must be a lowercase filesystem slug" loaded)
        else
          r ← attempt (load_mode [name] name);
          load_entries (S index) (S mode_directories) entries
            match r with
            | Ok mode => mkModeLoadAttempt (<[name := mode]> (attempt_modes loaded)) (attempt_errors loaded)
            | Err detail => add_mode_error name detail loaded
            end
  end.

Definition load_catalog : fs ModeLoadAttempt :=
  t ← gets fs_tree;
  let entries := dir_entries [] t in
  if (MAX_ROOT_ENTRIES <? length entries)%nat
  then throw (Fs_failed "modes directory contains too many entries")
  else load_entries 0 0 entries (mkModeLoadAttempt ∅ ∅).
End Loading.
