(* ===== verification/ModeCoordinator.v ===== *)
(** * The mode coordinator

    [crates/music-application/src/modes.rs] from the loader's interface on: the
    task that owns the catalog, reloads it and carries out mutations as journaled
    operations. What it calls (the loader, playback, the journal, the effects)
    are classes over one world; before every call the process may die. *)

From S2P Require Import Prelude PlaybackState Catalog RecoveryJournal Modes.

#[local] Open Scope string_scope.
#[local] Open Scope N_scope.
#[local] Open Scope list_scope.

Definition MAX_MODE_ERRORS : nat := 128.
Definition MAX_MODE_ERROR_CHARS : nat := 512.

(** What a call reports: a [ModeMutationError], any other error by its text,
    or the death of the process in it. *)
Inductive ModeCallError : Type :=
| Call_rejected (error : ModeMutationError)
| Call_failed (detail : string)
| Call_died.

Definition call_error_text (error : ModeCallError) : string :=
  match error with
  | Call_rejected error => mutation_error_code error
  | Call_failed detail => detail
  | Call_died => ""
  end.

Definition world_call (W A : Type) : Type := stateful W ModeCallError A.

Class ModeCatalogSource (W : Type) : Type := { source_load : world_call W ModeLoadAttempt }.
Class ModeCatalogSink (W : Type) : Type := { sink_publish : ModeCatalogPublication -> world_call W () }.
Class ModeMutationEffects (W : Type) : Type := {
  effects_prepare : RecoveryJournalId -> ModeMutation -> world_call W PreparedModeMutation;
  effects_apply : RecoveryJournalEntry -> world_call W ();
  effects_rollback : RecoveryJournalEntry -> world_call W ();
  effects_finish : RecoveryJournalEntry -> world_call W ();
  effects_cleanup_orphans : world_call W ()
}.
Class ModeMutationDataEffects (W : Type) : Type := {
  data_apply : RecoveryJournalEntry -> world_call W RecoveryJournalEntry;
  data_rollback : RecoveryJournalEntry -> world_call W ();
  data_finish : RecoveryJournalEntry -> world_call W ();
  data_cleanup_orphans : world_call W ()
}.

(** [NoopModeMutationDataEffects] *)
Definition NoopModeMutationDataEffects {W : Type} : ModeMutationDataEffects W := {|
  data_apply journal := mret journal;
  data_rollback _ := mret ();
  data_finish _ := mret ();
  data_cleanup_orphans := mret ()
|}.

(** [current_unix_seconds()] and [RecoveryJournalId::new()] at their n-th call. *)
Class ModeClock : Type := { mode_unix_seconds : nat -> N }.
Class JournalIds : Type := { fresh_journal_id : nat -> RecoveryJournalId }.

(* ------------------------------------------------------------------ *)
(** ** State *)

Inductive ModeLoadState : Type := Load_Starting | Load_Current | Load_Degraded | Load_Failed.

Record ModeStatus : Type := mkModeStatus {
  status_state : ModeLoadState;
  status_generation : N;
  status_last_load_at : option N;
  status_loaded_ids : list string;
  status_errors : gmap string string
}.
Definition ModeStatus_default : ModeStatus := mkModeStatus Load_Starting 0 None [] ∅.

Record ModeReloadReport : Type := mkModeReloadReport {
  report_loaded_ids : list string;
  report_errors : gmap string string;
  report_published : bool;
  report_generation : N
}.
Record ModeMutationReport : Type := mkModeMutationReport { report_catalog : ModeCatalog }.

Inductive ModeCoordinatorError : Type :=
| Coordinator_CommandClosed
| Coordinator_ReplyDropped
| Coordinator_GenerationOverflow
| Coordinator_CatalogSink (detail : string)
| Coordinator_MutationRecovery (detail : string).

Definition ModeCoordinatorError_fmt (error : ModeCoordinatorError) : string :=
  match error with
  | Coordinator_CommandClosed => "mode coordinator is unavailable"
  | Coordinator_ReplyDropped => "mode coordinator dropped its reply"
  | Coordinator_GenerationOverflow => "mode catalog generation overflowed"
  | Coordinator_CatalogSink detail | Coordinator_MutationRecovery detail => detail
  end.

(** [ModeMutationExecutionError], and the death of the process. *)
Inductive ModeStop : Type :=
| Stop_rejected (error : ModeMutationError)
| Stop_fatal (error : ModeCoordinatorError)
| Stop_died.

(** The task: what it calls, its catalog, the two watched values, the deaths to
    come (one per call), and how often it read the clock and drew an id. *)
Record Coordinator (W : Type) : Type := mkCoordinator {
  world : W;
  current_catalog : option ModeCatalog;
  watched_catalog : option ModeCatalog;
  watched_status : ModeStatus;
  deaths : list bool;
  clock_reads : nat;
  ids_drawn : nat
}.
#[global] Arguments mkCoordinator {W} _ _ _ _ _ _ _.
#[global] Arguments world {W} _.
#[global] Arguments current_catalog {W} _.
#[global] Arguments watched_catalog {W} _.
#[global] Arguments watched_status {W} _.
#[global] Arguments deaths {W} _.
#[global] Arguments clock_reads {W} _.
#[global] Arguments ids_drawn {W} _.

(** [detail.chars().take(n)]: a continuation byte belongs to the character
    before it. *)
Fixpoint take_chars (n : nat) (s : string) : string :=
  match s with
  | EmptyString => EmptyString
  | String a s =>
      if is_continuation a then String a (take_chars n s)
      else match n with O => EmptyString | S n => String a (take_chars n s) end
  end.

Definition bounded_errors (errors : gmap string string) : gmap string string :=
  list_to_map ((fun entry => (entry.1, take_chars MAX_MODE_ERROR_CHARS entry.2))
    <$> take MAX_MODE_ERRORS (sorted_entries string_leb errors)).

Definition mode_ids (modes : gmap string ModeBundle) : list string := (sorted_entries string_leb modes).*1.

Definition progress_with_stage (entry : RecoveryJournalEntry) (stage : string) : JsonValue :=
  Json_Object (object_insert "stage" (Json_String stage) (object_entries (entry_progress entry))).
Definition progress_with_catalog_generation (entry : RecoveryJournalEntry) (generation : N) : JsonValue :=
  Json_Object (object_insert "catalog_generation" (Json_Number (pretty generation))
    (object_entries (entry_progress entry))).

Definition dependency_mutation_error (error : ModeCallError) (fallback_code : string) : ModeMutationError :=
  match error with
  | Call_rejected error => error
  | _ => mkModeMutationError Mode_Unavailable fallback_code
  end.
Definition unavailable (code : string) : ModeStop := Stop_rejected (mkModeMutationError Mode_Unavailable code).
Definition recovery_failed (detail : string) : ModeStop := Stop_fatal (Coordinator_MutationRecovery detail).

Section Coordinator.
Context {W : Type} `{ModeCatalogSource W, ModeCatalogSink W, ModeMutationEffects W, ModeMutationDataEffects W}.
Context `{RecoveryJournalRepository W, ModeClock, JournalIds, JsonText, ValueEq}.

Definition coord (A : Type) : Type := stateful (Coordinator W) ModeStop A.

Definition after_call (w : W) (c : Coordinator W) : Coordinator W :=
  mkCoordinator w (current_catalog c) (watched_catalog c) (watched_status c) (tail (deaths c))
    (clock_reads c) (ids_drawn c).

(** A call whose error the caller looks at. *)
Definition call {A} (op : world_call W A) : coord (result ModeCallError A) := fun c =>
  match head (deaths c) with
  | Some true => (Err Stop_died, after_call (world c) c)
  | _ =>
      match op (world c) with
      | (Ok a, w) => (Ok (Ok a), after_call w c)
      | (Err Call_died, w) => (Err Stop_died, after_call w c)
      | (Err e, w) => (Ok (Err e), after_call w c)
      end
  end.

(** [op.await.map_err(..)?] *)
Definition call_or {A} (stop : ModeCallError -> ModeStop) (op : world_call W A) : coord A :=
  r ← call op;
  match r with Ok a => mret a | Err e => throw (stop e) end.

Definition journal_call {A} (op : stateful W (journal_error (store := W)) A) : world_call W A := fun w =>
  match op w with
  | (Ok a, w) => (Ok a, w)
  | (Err _, w) => (Err (Call_failed "journal"), w)
  end.

Definition unix_seconds : coord N := fun c =>
  (Ok (mode_unix_seconds (clock_reads c)),
   mkCoordinator (world c) (current_catalog c) (watched_catalog c) (watched_status c) (deaths c)
     (S (clock_reads c)) (ids_drawn c)).
Definition new_journal_id : coord RecoveryJournalId := fun c =>
  (Ok (fresh_journal_id (ids_drawn c)),
   mkCoordinator (world c) (current_catalog c) (watched_catalog c) (watched_status c) (deaths c)
     (clock_reads c) (S (ids_drawn c))).

Definition set_status (status : ModeStatus) : coord () := modify (fun c =>
  mkCoordinator (world c) (current_catalog c) (watched_catalog c) status (deaths c) (clock_reads c) (ids_drawn c)).
(** [*current = Some(next); catalog_sender.send_replace(Some(next));] *)
Definition set_catalog (next : ModeCatalog) : coord () := modify (fun c =>
  mkCoordinator (world c) (Some next) (Some next) (watched_status c) (deaths c) (clock_reads c) (ids_drawn c)).

Definition catalog_generation (catalog : option ModeCatalog) : N :=
  match catalog with Some catalog => mode_catalog_generation catalog | None => 0 end.

(* ------------------------------------------------------------------ *)
(** ** Reloading *)

(** The catalog stays as it is. *)
Definition refuse_reload (loaded_at : N) (loaded_ids : list string) (errors : gmap string string)
    : coord ModeReloadReport :=
  c ← gets id;
  let generation := catalog_generation (current_catalog c) in
  _ ← set_status (mkModeStatus
        (if bool_decide (is_Some (current_catalog c)) then Load_Degraded else Load_Failed)
        generation (Some loaded_at) loaded_ids errors);
  mret (mkModeReloadReport loaded_ids errors false generation).

Definition publication_of (generation : N) (modes : gmap string ModeBundle) (changed : list ModePresetKey)
    : ModeCatalogPublication := {|
  publication_generation := generation;
  publication_modes := playback_references modes;
  publication_changed_presets := changed |}.

Definition sink_stop (error : ModeCallError) : ModeStop :=
  Stop_fatal (Coordinator_CatalogSink (call_error_text error)).

Definition perform_reload : coord ModeReloadReport :=
  loaded_at ← unix_seconds;
  loaded ← call source_load;
  match loaded with
  | Err error => refuse_reload loaded_at [] (bounded_errors {["<root>" := call_error_text error]})
  | Ok attempt =>
      let loaded_ids := mode_ids (attempt_modes attempt) in
      let errors := bounded_errors (attempt_errors attempt) in
      if negb (bool_decide (errors = ∅)) then refuse_reload loaded_at loaded_ids errors
      else
        c ← gets id;
        generation ← try (ok_or (Stop_fatal Coordinator_GenerationOverflow)
          (u64_checked_add (catalog_generation (current_catalog c)) 1));
        _ ← call_or sink_stop (sink_publish (publication_of generation (attempt_modes attempt)
              (changed_presets (current_catalog c) (attempt_modes attempt))));
        _ ← set_catalog (mkModeCatalog generation (attempt_modes attempt));
        _ ← set_status (mkModeStatus Load_Current generation (Some loaded_at) loaded_ids ∅);
        mret (mkModeReloadReport loaded_ids ∅ true generation)
  end.

(* ------------------------------------------------------------------ *)
(** ** Mutations *)

Definition transition_mode_journal (current : RecoveryJournalEntry) (next : RecoveryState) (progress : JsonValue)
    : coord RecoveryJournalEntry :=
  transition ← call_or (fun _ => recovery_failed "mode mutation journal transition failed")
    (journal_call (transition_recovery_journal (entry_id current) (entry_state current) next progress));
  match transition with
  | Transition_Applied entry => mret entry
  | Transition_Conflict _ => throw (recovery_failed "mode mutation journal transition conflicted")
  end.

(** [let _ = program;]: its error is dropped, the death of the process is not. *)
Definition ignore_stop {A} (program : coord A) : coord () := fun c =>
  match program c with
  | (Err Stop_died, c) => (Err Stop_died, c)
  | (_, c) => (Ok (), c)
  end.

Definition is_err {E A} (r : result E A) : bool := match r with Ok _ => false | Err _ => true end.

Definition rollback_mode_mutation (applying : RecoveryJournalEntry) : coord () :=
  rolling_back ← transition_mode_journal applying RollingBack (progress_with_stage applying "rolling_back");
  data ← call (data_rollback rolling_back);
  filesystem ← call (effects_rollback rolling_back);
  if is_err data || is_err filesystem then
    _ ← ignore_stop (transition_mode_journal rolling_back State_Failed
                       (progress_with_stage rolling_back "rollback_failed"));
    throw (recovery_failed "mode mutation rollback failed")
  else
    _ ← transition_mode_journal rolling_back RolledBack (progress_with_stage rolling_back "rolled_back");
    mret ().

(** Undo, then report the error. *)
Definition rolled_back_with {A} (applying : RecoveryJournalEntry) (error : ModeMutationError) : coord A :=
  _ ← rollback_mode_mutation applying;
  throw (Stop_rejected error).

(** The checks before anything is staged. *)
Definition admit_mutation (mutation : ModeMutation) : coord (ModeCatalog * N * gmap string ModeBundle) :=
  c ← gets id;
  current ← try (ok_or (unavailable "mode catalog is not loaded") (current_catalog c));
  if negb (expected_generation mutation =? mode_catalog_generation current)
  then throw (Stop_rejected (mkModeMutationError Mode_Stale "mode catalog generation changed"))
  else
    generation ← try (ok_or (Stop_fatal Coordinator_GenerationOverflow)
                        (u64_checked_add (mode_catalog_generation current) 1));
    proposed ← try (map_err Stop_rejected (apply_catalog_mutation current mutation));
    mret (current, generation, proposed).

(** Staging and journaling. *)
Definition plan_mutation (mutation : ModeMutation) : coord RecoveryJournalEntry :=
  journal_id ← new_journal_id;
  prepared ← call_or (fun error => Stop_rejected
                 (dependency_mutation_error error "mode mutation could not be staged"))
               (effects_prepare journal_id mutation);
  draft ← try (map_err (fun _ => recovery_failed "mode mutation journal plan is invalid")
                 (RecoveryJournalDraft_new journal_id Domain_Modes (prepared_operation prepared)
                    (prepared_plan prepared)));
  created ← call (journal_call (create_recovery_journal draft));
  match created with
  | Ok planned => mret planned
  | Err _ =>
      _ ← call_or (fun _ => recovery_failed "unjournaled mode staging could not be cleaned")
            effects_cleanup_orphans;
      throw (recovery_failed "mode mutation journal could not be created")
  end.

Definition apply_mutation (applying : RecoveryJournalEntry) : coord RecoveryJournalEntry :=
  applied ← call (effects_apply applying);
  match applied with
  | Err error => rolled_back_with applying (dependency_mutation_error error "mode filesystem mutation failed")
  | Ok _ =>
      data ← call (data_apply applying);
      match data with
      | Err error => rolled_back_with applying (dependency_mutation_error error "mode data mutation failed")
      | Ok applying => mret applying
      end
  end.

(** The modes as they are on disk now, and what the load reported. *)
Definition verify_mutation (applying : RecoveryJournalEntry) (mutation : ModeMutation)
    (proposed : gmap string ModeBundle) : coord (gmap string ModeBundle * ModeLoadAttempt) :=
  let target := mutation_mode_id mutation in
  loaded ← call source_load;
  match loaded with
  | Err _ => rolled_back_with applying (mkModeMutationError Mode_Unavailable "mode mutation could not be verified")
  | Ok attempt =>
      if deletes_mode mutation then
        if bool_decide (is_Some (attempt_modes attempt !! target))
           || bool_decide (is_Some (attempt_errors attempt !! target))
        then rolled_back_with applying
               (mkModeMutationError Mode_Unavailable "deleted mode remained visible on disk")
        else mret (proposed, attempt)
      else
        match attempt_modes attempt !! target with
        | None => rolled_back_with applying
                    (mkModeMutationError Mode_Unavailable "written mode did not pass catalog validation")
        | Some disk_mode => mret (<[target := disk_mode]> proposed, attempt)
        end
  end.

(** The commit point; when the journal does not take it, the mutation is undone
    as far as that works. *)
Definition commit_mutation (applying : RecoveryJournalEntry) (generation : N) : coord RecoveryJournalEntry := fun c =>
  match transition_mode_journal applying Committed (progress_with_catalog_generation applying generation) c with
  | (Ok committed, c) => (Ok committed, c)
  | (Err Stop_died, c) => (Err Stop_died, c)
  | (Err error, c) => (_ ← ignore_stop (rollback_mode_mutation applying); throw error) c
  end.

Definition publish_mutation (committed : RecoveryJournalEntry) (current : ModeCatalog) (generation : N)
    (proposed : gmap string ModeBundle) (attempt : ModeLoadAttempt) : coord ModeMutationReport :=
  _ ← call_or sink_stop (sink_publish (publication_of generation proposed (changed_presets (Some current) proposed)));
  let next := mkModeCatalog generation proposed in
  _ ← set_catalog next;
  let errors := bounded_errors (attempt_errors attempt) in
  loaded_at ← unix_seconds;
  _ ← set_status (mkModeStatus (if bool_decide (errors = ∅) then Load_Current else Load_Degraded)
        generation (Some loaded_at) (mode_ids (attempt_modes attempt)) errors);
  _ ← ignore_stop (call (data_finish committed));
  _ ← ignore_stop (call (effects_finish committed));
  mret (mkModeMutationReport next).

Definition perform_mutation (mutation : ModeMutation) : coord ModeMutationReport :=
  '(current, generation, proposed) ← admit_mutation mutation;
  planned ← plan_mutation mutation;
  applying ← transition_mode_journal planned Applying (Json_Object [("stage", Json_String "applying")]);
  applying ← apply_mutation applying;
  '(proposed, attempt) ← verify_mutation applying mutation proposed;
  committed ← commit_mutation applying generation;
  publish_mutation committed current generation proposed attempt.

(* ------------------------------------------------------------------ *)
(** ** Recovery at start-up *)

Definition recover_entry (entry : RecoveryJournalEntry) : coord () :=
  rolling_back ← (if bool_decide (entry_state entry = RollingBack) then mret entry
                  else transition_mode_journal entry RollingBack (progress_with_stage entry "startup_rollback"));
  _ ← call_or (fun _ => recovery_failed "mode data startup rollback failed") (data_rollback rolling_back);
  _ ← call_or (fun _ => recovery_failed "mode startup rollback failed") (effects_rollback rolling_back);
  _ ← transition_mode_journal rolling_back RolledBack (progress_with_stage rolling_back "startup_rolled_back");
  mret ().

Fixpoint recover_entries (entries : list RecoveryJournalEntry) : coord () :=
  match entries with
  | [] => mret ()
  | entry :: entries => _ ← recover_entry entry; recover_entries entries
  end.

Definition recover_mode_mutations : coord () :=
  unfinished ← call_or (fun _ => recovery_failed "mode recovery journals could not be loaded")
    (journal_call (unfinished_recovery_journals Domain_Modes));
  _ ← recover_entries unfinished;
  _ ← call_or (fun _ => recovery_failed "mode data cleanup failed") data_cleanup_orphans;
  call_or (fun _ => recovery_failed "mode staging cleanup failed") effects_cleanup_orphans.

(* ------------------------------------------------------------------ *)
(** ** The task *)

Inductive ModeCommand : Type := Command_Reload | Command_Mutate (mutation : ModeMutation).
Inductive ModeReply : Type :=
| Reply_Reload (answer : result ModeCoordinatorError ModeReloadReport)
| Reply_Mutate (answer : result ModeMutationError ModeMutationReport).

(** The commands in the order they are received, [mutable] when mutations are
    configured; the replies sent, and the error the task ends with. *)
Fixpoint run_commands (mutable : bool) (commands : list ModeCommand) (c : Coordinator W)
    : list ModeReply * result ModeStop () * Coordinator W :=
  match commands with
  | [] => ([], Ok (), c)
  | Command_Reload :: commands =>
      match perform_reload c with
      | (Ok report, c) =>
          let '(replies, r, c) := run_commands mutable commands c in (Reply_Reload (Ok report) :: replies, r, c)
      | (Err (Stop_fatal error), c) => ([Reply_Reload (Err error)], Err (Stop_fatal error), c)
      | (Err stop, c) => ([], Err stop, c)
      end
  | Command_Mutate mutation :: commands =>
      if negb mutable then
        let '(replies, r, c) := run_commands mutable commands c in
        (Reply_Mutate (Err (mkModeMutationError Mode_Unavailable "mode mutations are not configured")) :: replies, r, c)
      else
        match perform_mutation mutation c with
        | (Ok report, c) =>
            let '(replies, r, c) := run_commands mutable commands c in (Reply_Mutate (Ok report) :: replies, r, c)
        | (Err (Stop_rejected error), c) =>
            let '(replies, r, c) := run_commands mutable commands c in (Reply_Mutate (Err error) :: replies, r, c)
        | (Err (Stop_fatal error), c) =>
            ([Reply_Mutate (Err (mkModeMutationError Mode_Unavailable "mode mutation recovery failed"))],
             Err (Stop_fatal error), c)
        | (Err Stop_died, c) => ([], Err Stop_died, c)
        end
  end.

Definition run_mode_coordinator (mutable : bool) (commands : list ModeCommand) (c : Coordinator W)
    : list ModeReply * result ModeStop () * Coordinator W :=
  match perform_reload c with
  | (Ok _, c) => run_commands mutable commands c
  | (Err stop, c) => ([], Err stop, c)
  end.

(** A fresh task over a world. *)
Definition start_coordinator (w : W) (deaths : list bool) : Coordinator W :=
  mkCoordinator w None None ModeStatus_default deaths 0 0.

(** [start_mutable_mode_coordinator_with_data]: recovery first. *)
Definition start_mutable_mode_coordinator (commands : list ModeCommand) (w : W) (deaths : list bool)
    : list ModeReply * result ModeStop () * Coordinator W :=
  match recover_mode_mutations (start_coordinator w deaths) with
  | (Ok _, c) => run_mode_coordinator true commands c
  | (Err stop, c) => ([], Err stop, c)
  end.
End Coordinator.
