(* ===== verification/ModeCoordinatorSpec.v ===== *)
(** * The guarantees of the mode coordinator

    Against the interfaces: what the coordinator calls as a contract over one
    world, triples for its programs, and with them that a mutation is applied,
    undone or left for recovery, and that recovery settles what was left. *)

From S2P Require Import Prelude Catalog RecoveryJournal JournalStore Modes ModeCoordinator.

#[local] Open Scope string_scope.
#[local] Open Scope N_scope.
#[local] Open Scope list_scope.

(** What recovery needs of a journal entry: its domain, state and plan. *)
Definition journal_view (entry : RecoveryJournalEntry) : RecoveryDomain * RecoveryState * JsonValue :=
  (entry_domain entry, entry_state entry, entry_plan entry).
Definition journal_states {W : Type} `{RecoveryJournalContract W} (w : W)
    : gmap string (RecoveryDomain * RecoveryState * JsonValue) := journal_view <$> journal_entries w.

(** What there is to see of a world: [files] is the part the effects work on,
    [published] what a reader of the modes finds in it; a mutation with [exact]
    set is one the effects undo exactly. *)
Class ModeWorldView (W : Type) `{RecoveryJournalContract W} : Type := {
  mode_files : Type;
  mode_disk : Type;
  files : W -> mode_files;
  files_ok : mode_files -> Prop;
  published : mode_files -> mode_disk;
  told : W -> option ModeCatalogPublication;
  exact : ModeMutation -> bool;
  (** Of a journal id and its plan: prepared, to be undone, carried out, from
      what was published before. *)
  staged_mutation : RecoveryJournalId -> JsonValue -> ModeMutation -> mode_disk -> mode_files -> Prop;
  undoable : RecoveryJournalId -> JsonValue -> mode_disk -> mode_files -> Prop;
  applied : RecoveryJournalId -> JsonValue -> ModeMutation -> mode_disk -> mode_files -> Prop
}.

(** What every call leaves alone unless it is about it. *)
Record world_same {W : Type} `{ModeWorldView W} (w w' : W) : Prop := {
  same_states : journal_states w' = journal_states w;
  same_journal_ok : journal_ok w -> journal_ok w';
  same_files_ok : files_ok (files w) -> files_ok (files w');
  same_told : told w' = told w
}.

(** The contract of everything the coordinator calls. *)
Class ModeWorldContract (W : Type) `{ModeCatalogSource W, ModeCatalogSink W, ModeMutationEffects W,
    ModeMutationDataEffects W, ModeWorldView W} : Prop := {
  create_files draft w r w' : create_recovery_journal draft w = (r, w') -> files w' = files w /\ told w' = told w;
  unfinished_files domain w r w' :
    unfinished_recovery_journals domain w = (r, w') -> files w' = files w /\ told w' = told w;
  transition_files id expected next progress w r w' :
    transition_recovery_journal id expected next progress w = (r, w') -> files w' = files w /\ told w' = told w;

  load_law w r w' : source_load w = (r, w') -> world_same w w' /\ files w' = files w;
  publish_law publication w r w' : sink_publish publication w = (r, w') ->
    files w' = files w /\ journal_states w' = journal_states w /\ (journal_ok w -> journal_ok w') /\
    match r with Ok _ => told w' = Some publication | Err _ => True end;

  prepare_law id mutation w r w' :
    files_ok (files w) -> RecoveryJournalId_parse (journal_id_text id) = Ok id ->
    effects_prepare id mutation w = (r, w') ->
    world_same w w' /\ published (files w') = published (files w) /\
    match r with
    | Ok prepared =>
        RecoveryOperation_parse (operation_text (prepared_operation prepared)) = Ok (prepared_operation prepared) /\
        (exact mutation = true ->
         staged_mutation id (prepared_plan prepared) mutation (published (files w)) (files w'))
    | Err _ => True
    end;
  staged_undoable id plan mutation disk f : staged_mutation id plan mutation disk f -> undoable id plan disk f;
  apply_law entry mutation disk w r w' :
    entry_domain entry = Domain_Modes -> staged_mutation (entry_id entry) (entry_plan entry) mutation disk (files w) ->
    effects_apply entry w = (r, w') ->
    world_same w w' /\ undoable (entry_id entry) (entry_plan entry) disk (files w') /\
    match r with
    | Ok _ => applied (entry_id entry) (entry_plan entry) mutation disk (files w')
    | Err _ => True
    end;
  rollback_law entry disk w r w' :
    entry_domain entry = Domain_Modes -> undoable (entry_id entry) (entry_plan entry) disk (files w) ->
    effects_rollback entry w = (r, w') ->
    world_same w w' /\ undoable (entry_id entry) (entry_plan entry) disk (files w') /\
    match r with Ok _ => published (files w') = disk | Err _ => True end;
  finish_law entry mutation disk w r w' :
    entry_domain entry = Domain_Modes -> applied (entry_id entry) (entry_plan entry) mutation disk (files w) ->
    effects_finish entry w = (r, w') ->
    world_same w w' /\ applied (entry_id entry) (entry_plan entry) mutation disk (files w');
  cleanup_law w r w' : effects_cleanup_orphans w = (r, w') ->
    world_same w w' /\ published (files w') = published (files w) /\
    (forall id plan mutation disk, staged_mutation id plan mutation disk (files w) -> undoable id plan disk (files w')) /\
    (forall id plan mutation disk, applied id plan mutation disk (files w) -> applied id plan mutation disk (files w'));

  data_apply_law entry w r w' : data_apply entry w = (r, w') ->
    world_same w w' /\ files w' = files w /\
    match r with
    | Ok entry' => entry_id entry' = entry_id entry /\ journal_view entry' = journal_view entry
    | Err _ => True
    end;
  data_rollback_law entry w r w' : data_rollback entry w = (r, w') -> world_same w w' /\ files w' = files w;
  data_finish_law entry w r w' : data_finish entry w = (r, w') -> world_same w w' /\ files w' = files w;
  data_cleanup_law w r w' : data_cleanup_orphans w = (r, w') -> world_same w w' /\ files w' = files w
}.

(* ------------------------------------------------------------------ *)
(** ** Triples for the coordinator *)

Section Triples.
Context {W : Type}.
Implicit Types (P : Coordinator W -> Prop) (R : ModeStop -> Coordinator W -> Prop).

Definition coord_spec {A : Type} P (m : coord (W := W) A) (Q : A -> Coordinator W -> Prop) R : Prop :=
  forall c r c', P c -> m c = (r, c') -> match r with Ok a => Q a c' | Err stop => R stop c' end.

Lemma coord_weaken {A : Type} P P' (m : coord A) (Q Q' : A -> Coordinator W -> Prop) R R' :
  coord_spec P m Q R -> (forall c, P' c -> P c) -> (forall a c, Q a c -> Q' a c) ->
  (forall stop c, R stop c -> R' stop c) -> coord_spec P' m Q' R'.
Proof. intros H HP HQ HR c r c' Hc Hrun. specialize (H c r c' (HP _ Hc) Hrun). destruct r; auto. Qed.

Lemma coord_pre {A : Type} P P' (m : coord A) (Q : A -> Coordinator W -> Prop) R :
  coord_spec P m Q R -> (forall c, P' c -> P c) -> coord_spec P' m Q R.
Proof. intros H HP. by eapply coord_weaken. Qed.

Lemma coord_ret {A : Type} P (a : A) (Q : A -> Coordinator W -> Prop) R :
  (forall c, P c -> Q a c) -> coord_spec P (mret a) Q R.
Proof. intros HQ c r c' Hc [= <- <-]. auto. Qed.

Lemma coord_throw {A : Type} P stop (Q : A -> Coordinator W -> Prop) R :
  (forall c, P c -> R stop c) -> coord_spec P (throw stop) Q R.
Proof. intros HR c r c' Hc [= <- <-]. auto. Qed.

Lemma coord_bind {A B : Type} P (m : coord A) (k : A -> coord B) Q0 (Q : B -> Coordinator W -> Prop) R :
  coord_spec P m Q0 R -> (forall a, coord_spec (Q0 a) (k a) Q R) -> coord_spec P (mbind k m) Q R.
Proof.
  intros Hm Hk c r c' Hc Hrun. unfold mbind, stateful_bind in Hrun.
  destruct (m c) as [[a|stop] c1] eqn:Hr.
  - eapply (Hk a); [|done]. by apply (Hm c (Ok a) c1).
  - injection Hrun as <- <-. by apply (Hm c (Err stop) c1).
Qed.

Lemma coord_try {A : Type} P (o : result ModeStop A) (Q : A -> Coordinator W -> Prop) R :
  (forall a c, o = Ok a -> P c -> Q a c) -> (forall stop c, o = Err stop -> P c -> R stop c) ->
  coord_spec P (try o) Q R.
Proof. intros HQ HR c r c' Hc [= <- <-]. destruct o; auto. Qed.

Lemma coord_gets {A : Type} P (k : Coordinator W -> coord A) (Q : A -> Coordinator W -> Prop) R :
  (forall c, P c -> coord_spec (eq c) (k c) Q R) -> coord_spec P (c ← gets id; k c) Q R.
Proof. intros Hk c r c' Hc Hrun. by eapply (Hk c). Qed.

Lemma coord_ignore {A : Type} P (m : coord A) (Q : Coordinator W -> Prop) R :
  coord_spec P m (fun _ => Q) (fun stop c => match stop with Stop_died => R Stop_died c | _ => Q c end) ->
  coord_spec P (ignore_stop m) (fun _ => Q) R.
Proof.
  intros Hm c r c' Hc. unfold ignore_stop. destruct (m c) as [[a|[]] c1] eqn:Hr;
    intros [= <- <-]; exact (Hm c _ _ Hc Hr).
Qed.

Lemma coord_pure {A : Type} (φ : Prop) P (m : coord A) (Q : A -> Coordinator W -> Prop) R :
  (φ -> coord_spec P m Q R) -> coord_spec (fun c => φ /\ P c) m Q R.
Proof. intros H c r c' [Hφ Hc]. by apply H. Qed.

(** The task's own values, which no call changes. *)
Definition own (c : Coordinator W) : option ModeCatalog * option ModeCatalog * ModeStatus :=
  (current_catalog c, watched_catalog c, watched_status c).

Lemma coord_call {A : Type} P (op : world_call W A) (Q : result ModeCallError A -> Coordinator W -> Prop) R :
  (forall c r w', P c -> op (world c) = (r, w') -> Q r (after_call w' c)) ->
  (forall c r, Q r c -> R Stop_died c) -> (forall c, P c -> R Stop_died (after_call (world c) c)) ->
  coord_spec P (call op) Q R.
Proof.
  intros HQ HR HP c r c' Hc Hrun. unfold call in Hrun. destruct (op (world c)) as [r' w'] eqn:Hop.
  specialize (HQ c r' w' Hc Hop).
  destruct (head (deaths c)) as [[]|]; [injection Hrun as <- <-; auto| |];
    (destruct r' as [a|[error|detail|]]; injection Hrun as <- <-; [done..|by eapply HR]).
Qed.

(** A call in a state of the world [Pw], with the task's values [x]. *)
Definition on (x : option ModeCatalog * option ModeCatalog * ModeStatus) (Pw : W -> Prop) (c : Coordinator W) : Prop :=
  own c = x /\ Pw (world c).

Lemma coord_at {A : Type} (Pw : W -> Prop) (m : coord A) (Q : A -> Coordinator W -> Prop) R :
  (forall x, coord_spec (on x Pw) m Q R) -> coord_spec (fun c => Pw (world c)) m Q R.
Proof. intros H c r c' Hc. by apply (H (own c)). Qed.

Lemma call_on {A : Type} x (Pw Lw : W -> Prop) (op : world_call W A) (Qw : result ModeCallError A -> W -> Prop) R :
  (forall w r w', Pw w -> op w = (r, w') -> Qw r w') -> (forall w r, Qw r w -> Lw w) -> (forall w, Pw w -> Lw w) ->
  (forall c, on x Lw c -> R Stop_died c) ->
  coord_spec (on x Pw) (call op) (fun r => on x (Qw r)) R.
Proof.
  intros HQ HL HP HR. apply coord_call.
  - intros c r w' [Hx Hc] Hop. split; [done|]. by eapply HQ.
  - intros c r [Hx Hc]. apply HR. split; eauto.
  - intros c [Hx Hc]. apply HR. split; auto.
Qed.

Lemma call_or_on {A : Type} x (Pw Lw : W -> Prop) stop (op : world_call W A) (Qw : A -> W -> Prop)
    (Ew : ModeCallError -> W -> Prop) R :
  (forall w r w', Pw w -> op w = (r, w') -> match r with Ok a => Qw a w' | Err e => Ew e w' end) ->
  (forall w a, Qw a w -> Lw w) -> (forall w e, Ew e w -> Lw w) -> (forall w, Pw w -> Lw w) ->
  (forall c, on x Lw c -> R Stop_died c) -> (forall e c, on x (Ew e) c -> R (stop e) c) ->
  coord_spec (on x Pw) (call_or stop op) (fun a => on x (Qw a)) R.
Proof.
  intros HQ HLQ HLE HP HR HE. unfold call_or.
  eapply (coord_bind _ _ _ (fun r => on x (fun w => match r with Ok a => Qw a w | Err e => Ew e w end))).
  - apply (call_on x Pw Lw); [done| |done|done]. intros w [a|e]; eauto.
  - intros [a|e]; [by apply coord_ret|apply coord_throw, HE].
Qed.
End Triples.

(* ------------------------------------------------------------------ *)
(** ** Journal steps *)

Section Saga.
Context {W : Type} `{Contract : ModeWorldContract W} `{ModeClock, JournalIds, JsonText, ValueEq}.

Lemma world_same_refl (w : W) : world_same w w.
Proof. split; auto. Qed.
Lemma world_same_trans (w1 w2 w3 : W) : world_same w1 w2 -> world_same w2 w3 -> world_same w1 w3.
Proof. intros [] []. split; [congruence|auto|auto|congruence]. Qed.

Lemma states_lookup (w : W) key domain state plan :
  journal_states w !! key = Some (domain, state, plan) <->
  exists entry, journal_entries w !! key = Some entry /\ journal_view entry = (domain, state, plan).
Proof. unfold journal_states. rewrite lookup_fmap, fmap_Some. split; intros (entry & ? & ?); exists entry; split; congruence. Qed.

Lemma journal_id_inj (a b : RecoveryJournalId) : journal_id_text a = journal_id_text b -> a = b.
Proof. destruct a, b. cbn. congruence. Qed.

Notation key := (fun entry => journal_id_text (entry_id entry)).

(** A transition moves the state of its entry, or changes nothing. *)
Definition moves_to (entry : RecoveryJournalEntry) (next : RecoveryState) (w w' : W) : Prop :=
  journal_states w' = <[key entry := (entry_domain entry, next, entry_plan entry)]> (journal_states w).
Definition stays (w w' : W) : Prop := journal_states w' = journal_states w.

Lemma transition_call (entry : RecoveryJournalEntry) next progress (w : W) r w' :
  journal_ok w -> journal_states w !! key entry = Some (journal_view entry) ->
  journal_call (transition_recovery_journal (entry_id entry) (entry_state entry) next progress) w = (r, w') ->
  journal_ok w' /\ files w' = files w /\ told w' = told w /\
  match r with
  | Ok (Transition_Applied entry') =>
      entry_id entry' = entry_id entry /\ journal_view entry' = (entry_domain entry, next, entry_plan entry) /\
      moves_to entry next w w'
  | _ => stays w w' \/ moves_to entry next w w'
  end.
Proof.
  intros Hok Hstate Hrun. unfold journal_call in Hrun.
  destruct (transition_recovery_journal _ _ _ _ w) as [t w1] eqn:Ht.
  destruct (transition_files _ _ _ _ _ _ _ Ht) as [Hfiles Htold].
  destruct (transition_contract _ _ _ _ _ _ _ Hok Ht) as [Hok' Hmoved].
  apply states_lookup in Hstate as (old & Hold & Hview). injection Hview as Hd Hs Hp.
  assert (forall entry', moved_entry next progress old entry' ->
    journal_entries w1 = <[key entry := entry']> (journal_entries w) ->
    entry_id entry' = entry_id entry /\ journal_view entry' = (entry_domain entry, next, entry_plan entry) /\
    moves_to entry next w w1) as Hmove.
  { intros entry' (Hid & Hd' & _ & Hs' & Hp' & _) Hentries.
    assert (journal_view entry' = (entry_domain entry, next, entry_plan entry)) as Hv.
    { unfold journal_view. congruence. }
    split_and!; [|done|].
    - rewrite Hid. apply journal_id_inj. by apply (journal_keyed w).
    - unfold moves_to, journal_states. by rewrite Hentries, fmap_insert, Hv. }
  destruct t as [[entry'|current]|e].
  - injection Hrun as <- <-. do 3 (split; [done|]).
    destruct Hmoved as (old' & Hold' & _ & _ & Hm & Hentries). rewrite Hold in Hold'. injection Hold' as <-. by apply Hmove.
  - injection Hrun as <- <-. split_and!; [done..|]. left. destruct Hmoved as (_ & _ & Hsame).
    unfold stays, journal_states. by rewrite Hsame.
  - injection Hrun as <- <-. split_and!; [done..|].
    destruct Hmoved as [Hsame|(entry' & old' & Hold' & _ & _ & Hm & Hentries)].
    + left. unfold stays, journal_states. by rewrite Hsame.
    + right. rewrite Hold in Hold'. injection Hold' as <-. by eapply Hmove.
Qed.

(** A transition from another state than the entry's never moves it. *)
Lemma transition_elsewhere (entry : RecoveryJournalEntry) next progress (w : W) r w' view :
  journal_ok w -> journal_states w !! key entry = Some view -> snd (fst view) <> entry_state entry ->
  journal_call (transition_recovery_journal (entry_id entry) (entry_state entry) next progress) w = (r, w') ->
  journal_ok w' /\ files w' = files w /\ told w' = told w /\ stays w w' /\
  forall entry', r <> Ok (Transition_Applied entry').
Proof.
  intros Hok Hstate Hne Hrun. unfold journal_call in Hrun.
  destruct (transition_recovery_journal _ _ _ _ w) as [t w1] eqn:Ht.
  destruct (transition_files _ _ _ _ _ _ _ Ht) as [Hfiles Htold].
  destruct (transition_contract _ _ _ _ _ _ _ Hok Ht) as [Hok' Hmoved].
  destruct view as [[d s] p]. apply states_lookup in Hstate as (old & Hold & Hview). injection Hview as Hd Hs Hp.
  cbn in Hne. assert (stays w w1) as Hstays.
  { unfold stays, journal_states. destruct t as [[entry'|current]|e].
    - destruct Hmoved as (old' & Hold' & Hexp & _). congruence.
    - destruct Hmoved as (_ & _ & ->). done.
    - destruct Hmoved as [->|(entry' & old' & Hold' & Hexp & _)]; [done|congruence]. }
  destruct t as [[entry'|current]|e]; [|by injection Hrun as <- <-..].
  destruct Hmoved as (old' & Hold' & Hexp & _). congruence.
Qed.

(* ------------------------------------------------------------------ *)
(** ** The states of one mutation *)

Variables (mutation : ModeMutation) (disk : mode_disk) (id : RecoveryJournalId)
  (before : gmap string (RecoveryDomain * RecoveryState * JsonValue)) (publication : option ModeCatalogPublication).
Hypothesis Hid : RecoveryJournalId_parse (journal_id_text id) = Ok id.

Definition sound (w : W) : Prop := journal_ok w /\ files_ok (files w).
Definition with_entry (state : RecoveryState) (plan : JsonValue)
    : gmap string (RecoveryDomain * RecoveryState * JsonValue) :=
  <[journal_id_text id := (Domain_Modes, state, plan)]> before.

(** Nothing of the mutation is left; its entry is in [state] and [F] holds of
    the files. *)
Definition untouched (w : W) : Prop :=
  sound w /\ told w = publication /\ journal_states w = before /\ published (files w) = disk.
Definition journaled (state : RecoveryState) (plan : JsonValue) (F : mode_files -> Prop) (w : W) : Prop :=
  sound w /\ told w = publication /\ journal_states w = with_entry state plan /\ F (files w).
Definition undone (w : W) : Prop :=
  untouched w \/ exists plan, journaled RolledBack plan (fun f => published f = disk) w.
Definition committed_as (plan : JsonValue) (w : W) : Prop :=
  sound w /\ journal_states w = with_entry Committed plan /\ applied id plan mutation disk (files w).
Definition committed (w : W) : Prop := exists plan, committed_as plan w.
(** The rollback failed and the journal says so. *)
Definition rollback_failed (w : W) : Prop :=
  exists plan, sound w /\ journal_states w = with_entry State_Failed plan.
Definition in_flight (w : W) : Prop :=
  exists state plan, is_terminal state = false /\ journaled state plan (undoable id plan disk) w.

Definition settled (w : W) : Prop := undone w \/ committed w \/ rollback_failed w.
Definition left_open (w : W) : Prop := settled w \/ in_flight w.

(** How the coordinator may stop, with its own values as they were when the
    mutation is only refused. *)
Definition stops (x : option ModeCatalog * option ModeCatalog * ModeStatus) (stop : ModeStop) (c : Coordinator W) : Prop :=
  match stop with
  | Stop_rejected _ => own c = x /\ undone (world c)
  | _ => left_open (world c)
  end.

Lemma undone_open w : undone w -> left_open w.
Proof. by left; left. Qed.
Lemma unfinished_open state plan w : is_terminal state = false -> journaled state plan (undoable id plan disk) w -> left_open w.
Proof. right. by exists state, plan. Qed.

Lemma journaled_same state plan (F F' : mode_files -> Prop) (w w' : W) :
  world_same w w' -> F' (files w') -> journaled state plan F w -> journaled state plan F' w'.
Proof.
  intros [Hs Hj Hf Ht] HF ([Hok Hfo] & Htold & Hstates & _). split_and!; [split; auto|congruence|congruence|done].
Qed.

Lemma journaled_move state next plan (F F' : mode_files -> Prop) (entry : RecoveryJournalEntry) (w w' : W) :
  entry_id entry = id -> journal_view entry = (Domain_Modes, state, plan) ->
  journaled state plan F w -> journal_ok w' -> files w' = files w -> told w' = told w -> moves_to entry next w w' ->
  F' (files w) -> journaled next plan F' w'.
Proof.
  intros Hentry [= Hd Hs Hp] ([Hok Hfo] & Htold & Hstates & _) Hok' Hfiles Htold' Hmove HF.
  split_and!; [split; [done|by rewrite Hfiles]|congruence| |by rewrite Hfiles].
  unfold moves_to in Hmove. rewrite Hmove, Hentry, Hd, Hp, Hstates. apply insert_insert_eq.
Qed.

Lemma journaled_stay state plan (F : mode_files -> Prop) (w w' : W) :
  journaled state plan F w -> journal_ok w' -> files w' = files w -> told w' = told w -> stays w w' ->
  journaled state plan F w'.
Proof.
  intros ([Hok Hfo] & Htold & Hstates & HF) Hok' Hfiles Htold' Hstay.
  split_and!; [split; [done|by rewrite Hfiles]|congruence|by rewrite Hstay|by rewrite Hfiles].
Qed.

Lemma journaled_lookup state plan F (w : W) (entry : RecoveryJournalEntry) :
  entry_id entry = id -> journal_view entry = (Domain_Modes, state, plan) -> journaled state plan F w ->
  journal_states w !! journal_id_text (entry_id entry) = Some (journal_view entry).
Proof. intros -> -> (_ & _ & -> & _). apply lookup_insert_eq. Qed.

(** One transition of the mutation's entry: taken, or its outcome unknown. *)
Lemma transition_step x (entry : RecoveryJournalEntry) state next plan progress (F : mode_files -> Prop) :
  entry_id entry = id -> journal_view entry = (Domain_Modes, state, plan) ->
  coord_spec (on x (journaled state plan F)) (transition_mode_journal entry next progress)
    (fun entry' c => entry_id entry' = id /\ journal_view entry' = (Domain_Modes, next, plan) /\
       on x (journaled next plan F) c)
    (fun stop c => (forall error, stop <> Stop_rejected error) /\
       on x (fun w => journaled state plan F w \/ journaled next plan F w) c).
Proof.
  intros Hentry Hview. unfold transition_mode_journal.
  set (either w := journaled state plan F w \/ journaled next plan F w).
  eapply coord_bind.
  - apply (call_or_on x (journaled state plan F) either _ _
      (fun t w => match t with
        | Transition_Applied entry' => entry_id entry' = id /\ journal_view entry' = (Domain_Modes, next, plan) /\
                                       journaled next plan F w
        | Transition_Conflict _ => either w
        end) (fun _ => either)); [|by unfold either; intros w [entry'|current]; naive_solver| |by left|by split..].
    + intros w r w' Hw Hrun.
      apply transition_call in Hrun as (Hok' & Hfiles & Htold & Hr); [|by apply Hw|by eapply journaled_lookup].
      assert (moves_to entry next w w' -> journaled next plan F w') as Hmoved.
      { intros Hm. by eapply journaled_move; [..|apply Hw]. }
      assert (stays w w' -> journaled state plan F w') as Hstayed.
      { intros Hm. by eapply journaled_stay. }
      injection Hview as Hd Hs Hp.
      destruct r as [[entry'|current]|e]; [|by unfold either; destruct Hr; auto..].
      destruct Hr as (Hi & Hv & Hm). split_and!; [congruence|congruence|by apply Hmoved].
    + done.
  - intros [entry'|current].
    + apply coord_ret. intros c [Hx (Hi & Hv & Hj)]. split_and!; done.
    + apply coord_throw. by intros c.
Qed.

Lemma transition_spec x (entry : RecoveryJournalEntry) state next plan progress (F : mode_files -> Prop) R :
  entry_id entry = id -> journal_view entry = (Domain_Modes, state, plan) ->
  (forall w, journaled state plan F w -> left_open w) -> (forall w, journaled next plan F w -> left_open w) ->
  (forall stop c, (forall error, stop <> Stop_rejected error) -> left_open (world c) -> R stop c) ->
  coord_spec (on x (journaled state plan F)) (transition_mode_journal entry next progress)
    (fun entry' c => entry_id entry' = id /\ journal_view entry' = (Domain_Modes, next, plan) /\
       on x (journaled next plan F) c) R.
Proof.
  intros Hentry Hview Hopen Hopen' HR. eapply coord_weaken; [by eapply transition_step|done..|].
  intros stop c [Hne [_ Hw]]. apply HR; [done|]. destruct Hw; auto.
Qed.

Lemma journaled_weaken state plan (F F' : mode_files -> Prop) w :
  (forall f, F f -> F' f) -> journaled state plan F w -> journaled state plan F' w.
Proof. intros HF (? & ? & ? & ?). split_and!; auto. Qed.

Lemma stops_open x stop c : (forall error, stop <> Stop_rejected error) -> left_open (world c) -> stops x stop c.
Proof. destruct stop; [intros Hne; by destruct (Hne error)|done..]. Qed.

Lemma died_open x c : on x left_open c -> stops x Stop_died c.
Proof. by intros []. Qed.

Lemma rolled_back_undone plan (F : mode_files -> Prop) w :
  (forall f, F f -> published f = disk) -> journaled RolledBack plan F w -> undone w.
Proof. intros HF Hw. right. exists plan. by eapply journaled_weaken. Qed.

Lemma failed_open plan F w : journaled State_Failed plan F w -> left_open w.
Proof. intros (? & _ & ? & _). left. right. right. by exists plan. Qed.

Lemma undoable_open state plan (F : mode_files -> Prop) w : is_terminal state = false ->
  (forall f, F f -> undoable id plan disk f) -> journaled state plan F w -> left_open w.
Proof. intros Hs HF Hw. eapply unfinished_open; [done|]. by eapply journaled_weaken. Qed.

(** The two rollbacks, by the entry that is rolling back. *)
Lemma undo_calls x (entry : RecoveryJournalEntry) plan :
  entry_id entry = id -> journal_view entry = (Domain_Modes, RollingBack, plan) ->
  forall A (k : result ModeCallError () -> result ModeCallError () -> coord (W := W) A) Q,
  (forall data filesystem,
     coord_spec (on x (journaled RollingBack plan (fun f => undoable id plan disk f /\
                         (filesystem = Ok () -> published f = disk)))) (k data filesystem) Q (stops x)) ->
  coord_spec (on x (journaled RollingBack plan (undoable id plan disk)))
    (data ← call (data_rollback entry); filesystem ← call (effects_rollback entry); k data filesystem) Q (stops x).
Proof.
  intros Hentry [= Hd Hs Hp] A k Q Hk.
  assert (forall w, journaled RollingBack plan (undoable id plan disk) w -> left_open w) as Hopen
    by by intros w; apply undoable_open.
  eapply coord_bind.
  { apply (call_on x _ left_open _ (fun _ => journaled RollingBack plan (undoable id plan disk))); [|auto using died_open..].
    - intros w r w' Hw Hrun. apply data_rollback_law in Hrun as [Hsame Hfiles].
      eapply journaled_same; [done| |done]. rewrite Hfiles. apply Hw. }
  intros data. eapply coord_bind; [|intros filesystem; apply Hk].
  apply (call_on x _ left_open); [|intros w r; apply undoable_open; [done|by intros f []]|exact Hopen|intros c; apply died_open].
  intros w r w' Hw Hrun. pose proof Hw as (_ & _ & _ & Hundo).
  eapply rollback_law in Hrun as (Hsame & Hundo' & Hr); [|done|rewrite Hentry, Hp; exact Hundo].
  rewrite Hentry, Hp in Hundo'. eapply journaled_same; [done| |done].
  split; [done|]. by intros ->.
Qed.

Lemma rollback_spec x (applying : RecoveryJournalEntry) plan :
  entry_id applying = id -> journal_view applying = (Domain_Modes, Applying, plan) ->
  coord_spec (on x (journaled Applying plan (undoable id plan disk))) (rollback_mode_mutation applying)
    (fun _ => on x undone) (stops x).
Proof.
  intros Hentry Hview. unfold rollback_mode_mutation.
  eapply coord_bind.
  { eapply transition_spec; [done..|by intros w; apply undoable_open|by intros w; apply undoable_open|apply stops_open]. }
  intros rolling_back. apply coord_pure. intros Hentry'. apply coord_pure. intros Hview'.
  apply (undo_calls x rolling_back plan Hentry' Hview'). intros data filesystem.
  destruct (is_err data || is_err filesystem) eqn:Herr.
  - eapply (coord_bind _ _ _ (fun _ c => left_open (world c))).
    + apply coord_ignore. eapply coord_weaken; [|done| |].
      * eapply (transition_spec x rolling_back RollingBack State_Failed plan); [done..| | |].
        -- intros w. apply undoable_open; [done|by intros f []].
        -- intros w. apply failed_open.
        -- instantiate (1 := fun stop c => left_open (world c)). done.
      * intros a c (_ & _ & _ & Hw). by eapply failed_open.
      * by intros [] c Hc.
    + intros ?. apply coord_throw. by intros c.
  - apply orb_false_iff in Herr as [_ Herr]. destruct filesystem as [[]|]; [|done].
    eapply coord_bind.
    + eapply (transition_spec x rolling_back RollingBack RolledBack plan); [done..| | |apply stops_open].
      * intros w. apply undoable_open; [done|by intros f []].
      * intros w Hw. apply undone_open. eapply rolled_back_undone; [|done]. intros f [_ Hf]. by apply Hf.
    + intros entry'. apply coord_ret. intros c (_ & _ & Hx & Hw). split; [done|].
      eapply rolled_back_undone; [|done]. intros f [_ Hf]. by apply Hf.
Qed.

Lemma rolled_back_with_spec {A : Type} x (applying : RecoveryJournalEntry) plan error (Q : A -> Coordinator W -> Prop) :
  entry_id applying = id -> journal_view applying = (Domain_Modes, Applying, plan) ->
  coord_spec (on x (journaled Applying plan (undoable id plan disk))) (rolled_back_with applying error) Q (stops x).
Proof.
  intros Hentry Hview. eapply coord_bind; [by apply rollback_spec|].
  intros []. apply coord_throw. intros c [Hx Hw]. by split.
Qed.

(* ------------------------------------------------------------------ *)
(** ** One mutation, step by step *)

Definition carried_out (plan : JsonValue) (f : mode_files) : Prop :=
  undoable id plan disk f /\ applied id plan mutation disk f.

Lemma apply_spec x (applying : RecoveryJournalEntry) plan :
  entry_id applying = id -> journal_view applying = (Domain_Modes, Applying, plan) ->
  coord_spec (on x (journaled Applying plan (staged_mutation id plan mutation disk))) (apply_mutation applying)
    (fun applying' c => entry_id applying' = id /\ journal_view applying' = (Domain_Modes, Applying, plan) /\
       on x (journaled Applying plan (carried_out plan)) c) (stops x).
Proof.
  intros Hentry Hview. pose proof Hview as [= Hd Hs Hp]. unfold apply_mutation.
  assert (forall (F : mode_files -> Prop) w, (forall f, F f -> undoable id plan disk f) ->
    journaled Applying plan F w -> left_open w) as Hopen by by intros F w; apply undoable_open.
  eapply coord_bind.
  { apply (call_on x _ left_open _ (fun r => journaled Applying plan (fun f =>
      undoable id plan disk f /\ (r = Ok () -> applied id plan mutation disk f)))).
    - intros w r w' Hw Hrun. pose proof Hw as (_ & _ & _ & Hstaged).
      eapply apply_law in Hrun as (Hsame & Hundo & Hr); [|done|rewrite Hentry, Hp; exact Hstaged].
      rewrite Hentry, Hp in Hundo, Hr. eapply journaled_same; [done| |done]. split; [done|]. by intros ->.
    - intros w r. apply Hopen. by intros f [].
    - intros w. apply Hopen. apply staged_undoable.
    - intros c. apply died_open. }
  intros [[]|error].
  2:{ eapply coord_pre; [by apply rolled_back_with_spec|]. intros c [Hx Hw]. split; [done|].
      eapply journaled_weaken; [|done]. by intros f []. }
  eapply coord_bind.
  { apply (call_on x _ left_open _ (fun r w => journaled Applying plan (carried_out plan) w /\
      match r with Ok applying' => entry_id applying' = id /\ journal_view applying' = (Domain_Modes, Applying, plan)
      | Err _ => True end)).
    - intros w r w' Hw Hrun. apply data_apply_law in Hrun as (Hsame & Hfiles & Hr).
      pose proof Hw as (_ & _ & _ & Hundo & Happ). split.
      + eapply journaled_same; [done| |done]. rewrite Hfiles. split; [done|by apply Happ].
      + destruct r; [|done]. destruct Hr as [-> ->]. done.
    - intros w r [Hw _]. eapply Hopen; [|done]. by intros f [].
    - intros w. apply Hopen. by intros f [].
    - intros c. apply died_open. }
  intros [applying'|error].
  - apply coord_ret. intros c [Hx (Hw & Hi & Hv)]. by split_and!.
  - eapply coord_pre; [by apply rolled_back_with_spec|]. intros c [Hx [Hw _]]. split; [done|].
    eapply journaled_weaken; [|done]. by intros f [].
Qed.

(** The modes that are published: what was proposed, with the target as it is on
    disk. *)
Definition verified (proposed final : gmap string ModeBundle) : Prop :=
  if deletes_mode mutation then final = proposed
  else exists disk_mode, final = <[mutation_mode_id mutation := disk_mode]> proposed.

Lemma verify_spec x (applying : RecoveryJournalEntry) plan proposed :
  entry_id applying = id -> journal_view applying = (Domain_Modes, Applying, plan) ->
  coord_spec (on x (journaled Applying plan (carried_out plan))) (verify_mutation applying mutation proposed)
    (fun final c => verified proposed final.1 /\ on x (journaled Applying plan (carried_out plan)) c) (stops x).
Proof.
  intros Hentry Hview. unfold verify_mutation.
  assert (forall w, journaled Applying plan (carried_out plan) w -> left_open w) as Hopen
    by by intros w; apply undoable_open; [|intros f []].
  assert (forall A error Q, coord_spec (on x (journaled Applying plan (carried_out plan)))
    (rolled_back_with (A := A) applying error) Q (stops x)) as Hback.
  { intros A error Q. eapply coord_pre; [by apply rolled_back_with_spec|]. intros c [Hx Hw]. split; [done|].
    eapply journaled_weaken; [|done]. by intros f []. }
  eapply coord_bind.
  { apply (call_on x _ left_open _ (fun _ => journaled Applying plan (carried_out plan))); [|auto..|].
    - intros w r w' Hw Hrun. apply load_law in Hrun as [Hsame Hfiles].
      eapply journaled_same; [done| |done]. rewrite Hfiles. apply Hw.
    - intros c. apply died_open. }
  unfold verified. intros [attempt|error]; [|apply Hback].
  destruct (deletes_mode mutation).
  - destruct (_ || _); [apply Hback|by apply coord_ret].
  - destruct (attempt_modes attempt !! mutation_mode_id mutation); [|apply Hback].
    apply coord_ret. intros c Hc. split; [by eexists|done].
Qed.

(** When the commit is not taken the rollback runs against the entry as the
    journal has it: a commit that happened after all is not undone. *)
Lemma rollback_committed x (applying : RecoveryJournalEntry) plan :
  entry_id applying = id -> journal_view applying = (Domain_Modes, Applying, plan) ->
  coord_spec (on x committed) (rollback_mode_mutation applying) (fun _ c => left_open (world c))
    (fun _ c => left_open (world c)).
Proof.
  intros Hentry [= Hd Hs Hp]. unfold rollback_mode_mutation.
  assert (forall w, committed w -> left_open w) as Hopen by (intros w ?; left; right; by left).
  eapply (coord_bind _ _ _ (fun _ c => False)); [|by intros ? ? ? ? []].
  unfold transition_mode_journal.
  eapply (coord_bind _ _ _ (fun t c => committed (world c) /\ forall entry', t <> Transition_Applied entry')).
  - eapply coord_weaken; [apply (call_or_on x committed left_open _ _
      (fun t w => committed w /\ forall entry', t <> Transition_Applied entry') (fun _ => committed)
      (fun _ c => left_open (world c)))| | |].
    + intros w r w' (plan' & [Hok Hfo] & Hstates & Happ) Hrun.
      eapply transition_elsewhere in Hrun as (Hok' & Hfiles & Htold & Hstays & Hne); [|done| |].
      * assert (committed w') as Hc.
        { exists plan'. split_and!; [split|congruence|]; by rewrite ?Hfiles. }
        destruct r as [t|]; [|done]. split; [done|]. intros entry' ->. by apply (Hne entry').
      * rewrite Hstates, Hentry. apply lookup_insert_eq.
      * by rewrite Hs.
    + intros w t [Hc _]. auto.
    + auto.
    + auto.
    + intros c []. done.
    + intros e c [_ Hc]. by apply Hopen.
    + done.
    + intros t c [_ Hc]. exact Hc.
    + done.
  - intros [entry'|current].
    + apply coord_ret. intros c [_ Hne]. by destruct (Hne entry').
    + apply coord_throw. intros c [Hc _]. by apply Hopen.
Qed.

Lemma commit_spec x (applying : RecoveryJournalEntry) plan generation :
  entry_id applying = id -> journal_view applying = (Domain_Modes, Applying, plan) ->
  coord_spec (on x (journaled Applying plan (carried_out plan))) (commit_mutation applying generation)
    (fun entry' c => entry_id entry' = id /\ journal_view entry' = (Domain_Modes, Committed, plan) /\
       on x (committed_as plan) c)
    (stops x).
Proof.
  intros Hentry Hview c r c' Hc Hrun. unfold commit_mutation in Hrun.
  destruct (transition_mode_journal _ _ _ c) as [t c1] eqn:Ht.
  pose proof (transition_step x applying Applying Committed plan _ _ Hentry Hview c t c1 Hc Ht) as Hstep.
  assert (forall w, journaled Committed plan (carried_out plan) w -> committed_as plan w) as Hcommitted
    by by intros w (? & _ & ? & _ & ?).
  destruct t as [entry'|stop].
  { injection Hrun as <- <-. destruct Hstep as (? & ? & ? & ?). split_and!; [done..|]. split; auto. }
  destruct Hstep as [Hne Hstep].
  destruct stop as [error|error|]; [by destruct (Hne error)| |].
  2:{ injection Hrun as <- <-. destruct Hstep as [_ [Hw|Hw]].
      - eapply undoable_open; [..|done]; [done|]. by intros f [].
      - left. right. left. exists plan. auto. }
  assert (forall r1 c2, rollback_mode_mutation applying c1 = (r1, c2) -> left_open (world c2)) as Hback.
  { intros r1 c2 Hrun1. destruct Hstep as [Hx [Hw|Hw]].
    - assert (on x (journaled Applying plan (undoable id plan disk)) c1) as Hu.
      { split; [done|]. eapply journaled_weaken; [|apply Hw]. by intros f []. }
      pose proof (rollback_spec x applying plan Hentry Hview c1 r1 c2 Hu Hrun1) as Hr.
      destruct r1 as [[]|[]]; [by apply undone_open, Hr|by apply undone_open, Hr|done..].
    - assert (on x committed c1) as Hcm by (split; [done|]; exists plan; auto).
      pose proof (rollback_committed x applying plan Hentry Hview c1 r1 c2 Hcm Hrun1) as Hr. by destruct r1. }
  unfold mbind, stateful_bind, ignore_stop, throw in Hrun.
  destruct (rollback_mode_mutation applying c1) as [[[]|[]] c2]; injection Hrun as <- <-; by eapply Hback.
Qed.
(** Staged, and not yet in the journal. *)
Definition prepared_as (plan : JsonValue) (w : W) : Prop :=
  untouched w /\ staged_mutation id plan mutation disk (files w).

Lemma create_call operation plan draft (w : W) r w' :
  RecoveryOperation_parse (operation_text operation) = Ok operation ->
  RecoveryJournalDraft_new id Domain_Modes operation plan = Ok draft -> prepared_as plan w ->
  journal_call (create_recovery_journal draft) w = (r, w') ->
  match r with
  | Ok entry => entry_id entry = id /\ journal_view entry = (Domain_Modes, Planned, plan) /\
                journaled Planned plan (staged_mutation id plan mutation disk) w'
  | Err _ => prepared_as plan w' \/ journaled Planned plan (staged_mutation id plan mutation disk) w'
  end.
Proof.
  intros Hop Hdraft [([Hok Hfo] & Htold & Hstates & Hpub) Hstaged] Hrun. unfold journal_call in Hrun.
  destruct (create_recovery_journal draft w) as [t w1] eqn:Hc.
  destruct (create_files _ _ _ _ Hc) as [Hfiles Htold'].
  assert (draft = mkRecoveryJournalDraft id Domain_Modes operation plan (Json_Object [])) as ->.
  { unfold RecoveryJournalDraft_new in Hdraft. destruct (validate_json plan); [|done].
    by injection Hdraft as <-. }
  apply create_contract in Hc as [Hok' Hcreated]; [|done|by split]. cbn in Hcreated.
  assert (forall entry, planned_entry (mkRecoveryJournalDraft id Domain_Modes operation plan (Json_Object [])) entry ->
    journal_entries w1 = <[journal_id_text id := entry]> (journal_entries w) ->
    entry_id entry = id /\ journal_view entry = (Domain_Modes, Planned, plan) /\
    journaled Planned plan (staged_mutation id plan mutation disk) w1) as Hnew.
  { intros entry (Hi & Hd & _ & Hs & Hp & _) Hentries. cbn in *.
    assert (journal_view entry = (Domain_Modes, Planned, plan)) as Hv by (unfold journal_view; congruence).
    split_and!; [done..|]. split_and!; [split; [done|by rewrite Hfiles]|congruence| |by rewrite Hfiles].
    unfold journal_states, with_entry. by rewrite Hentries, fmap_insert, Hv, <- Hstates. }
  destruct t as [entry|e]; injection Hrun as <- <-.
  - destruct Hcreated as (? & _ & ?). by apply Hnew.
  - destruct Hcreated as [Hsame|(entry & ? & _ & ?)]; [left|right; by apply (Hnew entry)].
    split; [|by rewrite Hfiles]. split_and!; [split; [done|by rewrite Hfiles]|congruence| |by rewrite Hfiles].
    unfold journal_states. by rewrite Hsame.
Qed.

Hypothesis Hexact : exact mutation = true.

Lemma prepare_call (w : W) r w' :
  untouched w -> effects_prepare id mutation w = (r, w') ->
  untouched w' /\
  match r with
  | Ok prepared => prepared_as (prepared_plan prepared) w' /\
      RecoveryOperation_parse (operation_text (prepared_operation prepared)) = Ok (prepared_operation prepared)
  | Err _ => True
  end.
Proof.
  intros ([Hok Hfo] & Htold & Hstates & Hpub) Hrun.
  apply prepare_law in Hrun as ([Hs Hj Hf Ht] & Hpub' & Hr); [|done..].
  assert (untouched w') as Hw by (split_and!; [split; auto|congruence..]).
  split; [done|]. destruct r as [prepared|]; [|done]. destruct Hr as [Hop Hstaged].
  split; [|done]. split; [done|]. rewrite <- Hpub. by apply Hstaged.
Qed.

(** Cleaning up what was staged takes nothing away that undoing it needs. *)
Lemma cleanup_call plan (w : W) r w' :
  prepared_as plan w \/ journaled Planned plan (staged_mutation id plan mutation disk) w ->
  effects_cleanup_orphans w = (r, w') -> left_open w'.
Proof.
  intros Hw Hrun. apply cleanup_law in Hrun as ([Hs Hj Hf Ht] & Hpub & Hundo & _).
  destruct Hw as [[([Hok Hfo] & Htold & Hstates & Hd) _]|([Hok Hfo] & Htold & Hstates & Hstaged)].
  - apply undone_open. left. split_and!; [split; auto|congruence..].
  - apply (unfinished_open Planned plan); [done|]. split_and!; [split; auto|congruence..|].
    by eapply Hundo.
Qed.

Lemma plan_spec x :
  coord_spec (fun c => fresh_journal_id (ids_drawn c) = id /\ on x untouched c) (plan_mutation mutation)
    (fun planned c => exists plan, entry_id planned = id /\ journal_view planned = (Domain_Modes, Planned, plan) /\
       on x (journaled Planned plan (staged_mutation id plan mutation disk)) c) (stops x).
Proof.
  unfold plan_mutation.
  eapply (coord_bind _ _ _ (fun journal_id c => journal_id = id /\ on x untouched c)).
  { intros c r c' [Hnew Hc] [= <- <-]. split; [done|]. exact Hc. }
  intros journal_id. apply coord_pure. intros ->.
  assert (forall w, untouched w -> undone w) as Hundone by by left.
  eapply coord_bind.
  { apply (call_or_on x untouched undone _ _ (fun prepared w => prepared_as (prepared_plan prepared) w /\
      RecoveryOperation_parse (operation_text (prepared_operation prepared)) = Ok (prepared_operation prepared))
      (fun _ => untouched)); [| | |done| |].
    - intros w r w' Hw Hrun. apply prepare_call in Hrun as [Hw' Hr]; [|done]. by destruct r.
    - intros w prepared [[Hw _] _]. auto.
    - auto.
    - intros c [_ Hc]. by apply undone_open.
    - intros e c [Hx Hc]. split; auto. }
  intros prepared.
  eapply (coord_bind _ _ _ (fun draft c => RecoveryJournalDraft_new id Domain_Modes (prepared_operation prepared)
      (prepared_plan prepared) = Ok draft /\ on x (fun w => prepared_as (prepared_plan prepared) w /\
      RecoveryOperation_parse (operation_text (prepared_operation prepared)) = Ok (prepared_operation prepared)) c)).
  { apply coord_try.
    - intros draft c Hd Hc. split; [|done]. by destruct (RecoveryJournalDraft_new _ _ _ _); [injection Hd as ->|].
    - intros stop c Hd [_ [[Hw _] _]].
      destruct (RecoveryJournalDraft_new _ _ _ _); [done|]. injection Hd as <-. by apply undone_open, Hundone. }
  intros draft. apply coord_pure. intros Hdraft.
  set (either w := prepared_as (prepared_plan prepared) w \/
    journaled Planned (prepared_plan prepared) (staged_mutation id (prepared_plan prepared) mutation disk) w).
  assert (forall w, either w -> left_open w) as Hopen.
  { intros w [[Hw _]|Hw]; [by apply undone_open, Hundone|].
    eapply undoable_open; [..|exact Hw]; [done|]. intros f. apply staged_undoable. }
  eapply coord_bind.
  { apply (call_on x _ left_open _ (fun r w => match r with
      | Ok entry => entry_id entry = id /\ journal_view entry = (Domain_Modes, Planned, prepared_plan prepared) /\
          journaled Planned (prepared_plan prepared) (staged_mutation id (prepared_plan prepared) mutation disk) w
      | Err _ => either w end)).
    - intros w r w' [Hw Hop] Hrun. by eapply create_call.
    - intros w [entry|e] Hw; apply Hopen; [right; apply Hw|done].
    - intros w [Hw _]. apply Hopen. by left.
    - intros c. apply died_open. }
  intros [planned|e].
  - apply coord_ret. intros c [Hx (Hi & Hv & Hw)]. eexists. split_and!; [done..|]. split; [done|exact Hw].
  - eapply (coord_bind _ _ _ (fun _ => on x left_open)); [|intros ?; apply coord_throw; by intros c [_ Hc]].
    apply (call_or_on x either left_open _ _ (fun _ => left_open) (fun _ => left_open)); [|auto..| |].
    + intros w r w' Hw Hrun. eapply cleanup_call in Hrun; [|exact Hw]. by destruct r.
    + intros c. apply died_open.
    + by intros e' c [_ Hc].
Qed.
(** The new catalog, in place and told. *)
Definition replaced (current : ModeCatalog) (report : ModeMutationReport) (c : Coordinator W) : Prop :=
  let next := report_catalog report in
  mode_catalog_generation next = mode_catalog_generation current + 1 /\ mode_catalog_generation next <= u64_max /\
  current_catalog c = Some next /\ watched_catalog c = Some next /\
  status_generation (watched_status c) = mode_catalog_generation next /\
  told (world c) = Some (publication_of (mode_catalog_generation next) (mode_catalog_modes next)
                           (changed_presets (Some current) (mode_catalog_modes next))).

Lemma finish_step x plan publication' A (finish : RecoveryJournalEntry -> world_call W A) (entry : RecoveryJournalEntry) :
  (forall w r w', committed_as plan w -> finish entry w = (r, w') -> committed_as plan w' /\ told w' = told w) ->
  coord_spec (on x (fun w => committed_as plan w /\ told w = publication'))
    (ignore_stop (call (finish entry)))
    (fun _ => on x (fun w => committed_as plan w /\ told w = publication'))
    (fun stop c => stop = Stop_died /\ left_open (world c)).
Proof.
  intros Hfinish. apply coord_ignore. eapply coord_weaken; [|done| |].
  - apply (call_on x _ (committed_as plan) _
      (fun _ w => committed_as plan w /\ told w = publication') (fun stop c => stop = Stop_died /\ committed_as plan (world c)));
      [|naive_solver..|by intros c []].
    intros w r w' [Hw <-] Hrun. by eapply Hfinish.
  - done.
  - intros stop c [-> Hw]. split; [done|]. left. right. left. by exists plan.
Qed.

Lemma committed_same plan w w' :
  world_same w w' -> applied id plan mutation disk (files w') -> committed_as plan w -> committed_as plan w'.
Proof. intros [Hs Hj Hf Ht] Happ ([Hok Hfo] & Hstates & _). split_and!; [split; auto|congruence|done]. Qed.

Lemma publish_spec x (entry : RecoveryJournalEntry) plan current proposed attempt :
  entry_id entry = id -> journal_view entry = (Domain_Modes, Committed, plan) ->
  mode_catalog_generation current + 1 <= u64_max ->
  coord_spec (on x (committed_as plan))
    (publish_mutation entry current (mode_catalog_generation current + 1) proposed attempt)
    (fun report c => mode_catalog_modes (report_catalog report) = proposed /\
       replaced current report c /\ committed (world c)) (stops x).
Proof.
  intros Hentry [= Hd _ Hp] Hgeneration. unfold publish_mutation.
  set (next := mkModeCatalog _ proposed). set (publication' := publication_of _ _ _).
  assert (forall w, committed_as plan w -> left_open w) as Hopen by (intros w Hw; left; right; left; by exists plan).
  eapply coord_bind.
  { apply (call_or_on x _ left_open _ _ (fun _ w => committed_as plan w /\ told w = Some publication')
      (fun _ => committed_as plan)); [|by naive_solver|auto|auto| |].
    - intros w r w' ([Hok Hfo] & Hstates & Happ) Hrun.
      apply publish_law in Hrun as (Hfiles & Hs & Hj & Hr).
      assert (committed_as plan w') as Hw by (split_and!; [split; [auto|]|congruence|]; by rewrite Hfiles).
      by destruct r.
    - intros c. apply died_open.
    - intros e c [_ Hc]. by apply Hopen. }
  intros []. set (y status := (Some next, Some next, status) : option ModeCatalog * option ModeCatalog * ModeStatus).
  eapply (coord_bind _ _ _ (fun _ => on (y x.2) (fun w => committed_as plan w /\ told w = Some publication'))).
  { intros c r c' [Hx Hw] [= <- <-]. subst x. by split. }
  intros []. eapply (coord_bind _ _ _ (fun _ => on (y x.2) (fun w => committed_as plan w /\ told w = Some publication'))).
  { intros c r c' [Hx Hw] [= <- <-]. by split. }
  intros loaded_at. set (status := mkModeStatus _ _ _ _ _).
  eapply (coord_bind _ _ _ (fun _ => on (y status) (fun w => committed_as plan w /\ told w = Some publication'))).
  { intros c r c' [Hx Hw] [= <- <-]. injection Hx as Hc Hw' _. split; [|done]. unfold own. cbn. by rewrite Hc, Hw'. }
  intros []. eapply coord_bind.
  { eapply coord_weaken; [apply (finish_step (y status) plan)|done..|by intros stop c [-> Hc]].
    intros w r w' Hw Hrun. apply data_finish_law in Hrun as [Hsame Hfiles].
    split; [|by apply same_told]. eapply committed_same; [done| |done]. rewrite Hfiles. apply Hw. }
  intros []. eapply coord_bind.
  { eapply coord_weaken; [apply (finish_step (y status) plan)|done..|by intros stop c [-> Hc]].
    intros w r w' Hw Hrun. eapply finish_law in Hrun as [Hsame Happ]; [|done|rewrite Hentry, Hp; apply Hw].
    rewrite Hentry, Hp in Happ. split; [|by apply same_told]. by eapply committed_same. }
  intros []. apply coord_ret. intros c [[= Hcurrent Hwatched Hstatus] [Hw Htold]].
  split; [done|]. split; [|by exists plan]. unfold replaced. cbn. rewrite Hstatus. by split_and!.
Qed.
Lemma admit_spec x :
  coord_spec (on x untouched) (admit_mutation mutation)
    (fun admitted c => x.1.1 = Some admitted.1.1 /\ expected_generation mutation = mode_catalog_generation admitted.1.1 /\
       admitted.1.2 = mode_catalog_generation admitted.1.1 + 1 /\ mode_catalog_generation admitted.1.1 + 1 <= u64_max /\
       apply_catalog_mutation admitted.1.1 mutation = Ok admitted.2 /\ on x untouched c) (stops x).
Proof.
  intros c r c' [Hx Hw] Hrun.
  assert (undone (world c)) as Hundone by by left.
  assert (forall error, stops x (Stop_rejected error) c) as Hrejected by (intros error; by split).
  revert Hrun. unfold admit_mutation, mbind, stateful_bind, gets, try, ok_or, throw, Datatypes.id.
  destruct (current_catalog c) as [current|] eqn:Hcurrent; cbn; [|by intros [= <- <-]].
  destruct (N.eqb_spec (expected_generation mutation) (mode_catalog_generation current)) as [Hgen|]; cbn;
    [|by intros [= <- <-]].
  destruct (u64_checked_add _ 1) as [generation|] eqn:Hadd; cbn; [|by intros [= <- <-]; left; left].
  apply u64_checked_add_Some in Hadd as [-> Hmax].
  destruct (apply_catalog_mutation current mutation) as [proposed|error] eqn:Happ; cbn; intros [= <- <-]; [|done].
  cbn. by rewrite <- Hx, <- Hcurrent.
Qed.

Theorem perform_spec x :
  coord_spec (fun c => fresh_journal_id (ids_drawn c) = id /\ on x untouched c) (perform_mutation mutation)
    (fun report c => exists current proposed, x.1.1 = Some current /\
       expected_generation mutation = mode_catalog_generation current /\
       apply_catalog_mutation current mutation = Ok proposed /\
       verified proposed (mode_catalog_modes (report_catalog report)) /\
       replaced current report c /\ committed (world c)) (stops x).
Proof.
  unfold perform_mutation. eapply coord_bind.
  { intros c r c' [Hnew Hc] Hrun. pose proof (admit_spec x c r c' Hc Hrun) as Hr.
    assert (ids_drawn c' = ids_drawn c) as Hids.
    { revert Hrun. unfold admit_mutation, mbind, stateful_bind, gets, try, ok_or, throw, Datatypes.id.
      repeat case_match; by intros [= <- <-]. }
    instantiate (1 := fun admitted c => (x.1.1 = Some admitted.1.1 /\
      expected_generation mutation = mode_catalog_generation admitted.1.1 /\
      admitted.1.2 = mode_catalog_generation admitted.1.1 + 1 /\ mode_catalog_generation admitted.1.1 + 1 <= u64_max /\
      apply_catalog_mutation admitted.1.1 mutation = Ok admitted.2) /\
      fresh_journal_id (ids_drawn c) = id /\ on x untouched c).
    destruct r; [|done]. rewrite <- Hids in Hnew. naive_solver. }
  intros [[current generation] proposed]. apply coord_pure. cbn. intros (Hcurrent & Hgen & -> & Hmax & Happ).
  eapply coord_bind; [apply plan_spec|]. intros planned c r c' (plan & Hi & Hv & Hc). revert c r c' Hc.
  change (coord_spec (on x (journaled Planned plan (staged_mutation id plan mutation disk)))
    (applying ← transition_mode_journal planned Applying (Json_Object [("stage", Json_String "applying")]);
     applying ← apply_mutation applying;
     '(proposed, attempt) ← verify_mutation applying mutation proposed;
     committed ← commit_mutation applying (mode_catalog_generation current + 1);
     publish_mutation committed current (mode_catalog_generation current + 1) proposed attempt)
    (fun report c => exists current proposed, x.1.1 = Some current /\
       expected_generation mutation = mode_catalog_generation current /\
       apply_catalog_mutation current mutation = Ok proposed /\
       verified proposed (mode_catalog_modes (report_catalog report)) /\
       replaced current report c /\ committed (world c)) (stops x)).
  eapply coord_bind.
  { apply (transition_spec x planned Planned Applying plan); [done..| | |apply stops_open];
      intros w; apply undoable_open; try done; intros f; apply staged_undoable. }
  intros applying. apply coord_pure. intros Hi'. apply coord_pure. intros Hv'.
  eapply coord_bind; [by apply apply_spec|]. intros applying2. apply coord_pure. intros Hi2. apply coord_pure. intros Hv2.
  eapply coord_bind; [by apply verify_spec|]. intros [final attempt]. apply coord_pure. cbn. intros Hfinal.
  eapply coord_bind; [by apply commit_spec|]. intros entry. apply coord_pure. intros Hi3. apply coord_pure. intros Hv3.
  eapply coord_weaken; [by apply (publish_spec x entry plan)|done| |done].
  intros report c (Hmodes & Hreplaced & Hcommitted). exists current, proposed. by rewrite Hmodes.
Qed.
(* ------------------------------------------------------------------ *)
(** ** Recovery *)

(** No other mode mutation is unfinished. *)
Definition quiet : Prop :=
  forall k domain state plan, before !! k = Some (domain, state, plan) ->
    domain = Domain_Modes -> is_terminal state = true.
Hypothesis Hquiet : quiet.

Definition terminal_states (states : gmap string (RecoveryDomain * RecoveryState * JsonValue)) : Prop :=
  forall k domain state plan, states !! k = Some (domain, state, plan) -> domain = Domain_Modes -> is_terminal state = true.

Lemma with_entry_terminal state plan : is_terminal state = true -> terminal_states (with_entry state plan).
Proof.
  intros Hs k domain state' plan' Hk Hd. unfold with_entry in Hk.
  apply lookup_insert_Some in Hk as [[_ [= <- <- <-]]|[_ Hk]]; [done|by eapply Hquiet].
Qed.

(** What does not change while there is nothing to recover. *)
Definition steady (P : W -> Prop) : Prop :=
  (forall w, P w -> sound w /\ terminal_states (journal_states w)) /\
  forall w w', P w -> world_same w w' -> published (files w') = published (files w) ->
    (forall plan, applied id plan mutation disk (files w) -> applied id plan mutation disk (files w')) -> P w'.

Lemma undone_steady : steady undone.
Proof.
  split.
  - intros w [(? & _ & -> & _)|(plan & ? & _ & -> & _)]; split; [done|done|done|by apply with_entry_terminal].
  - intros w w' Hw [Hs Hj Hf Ht] Hpub _.
    destruct Hw as [([] & Htold & Hstates & Hd)|(plan & [] & Htold & Hstates & Hd)];
      [left|right; exists plan]; (split_and!; [split; auto|congruence..]).
Qed.
Lemma committed_steady : steady committed.
Proof.
  split.
  - intros w (plan & ? & -> & _). split; [done|by apply with_entry_terminal].
  - intros w w' (plan & [] & Hstates & Happ) [Hs Hj Hf Ht] Hpub Hkeep.
    exists plan. split_and!; [split; auto|congruence|auto].
Qed.
Lemma failed_steady : steady rollback_failed.
Proof.
  split.
  - intros w (plan & ? & ->). split; [done|by apply with_entry_terminal].
  - intros w w' (plan & [] & Hstates) [Hs Hj Hf Ht] _ _. exists plan. split; [split; auto|congruence].
Qed.

Lemma unfinished_call (w : W) r w' :
  journal_ok w -> journal_call (unfinished_recovery_journals Domain_Modes) w = (r, w') ->
  world_same w w' /\ files w' = files w /\
  match r with
  | Ok entries => NoDup (entry_id <$> entries) /\ forall entry, entry ∈ entries <->
      journal_entries w' !! journal_id_text (entry_id entry) = Some entry /\
      entry_domain entry = Domain_Modes /\ is_terminal (entry_state entry) = false
  | Err _ => True
  end.
Proof.
  intros Hok Hrun. unfold journal_call in Hrun.
  destruct (unfinished_recovery_journals Domain_Modes w) as [t w1] eqn:Hu.
  destruct (unfinished_files _ _ _ _ Hu) as [Hfiles Htold].
  apply unfinished_contract in Hu as (Hok' & Hentries & Hr); [|done].
  assert (world_same w w1).
  { split; [unfold journal_states; by rewrite Hentries|done|by rewrite Hfiles|done]. }
  destruct t; injection Hrun as <- <-; [|done]. rewrite Hentries. done.
Qed.

Lemma steady_cleanup P :
  steady P ->
  coord_spec (fun c => P (world c))
    (_ ← call_or (fun _ => recovery_failed "mode data cleanup failed") data_cleanup_orphans;
     call_or (fun _ => recovery_failed "mode staging cleanup failed") effects_cleanup_orphans)
    (fun _ c => P (world c)) (fun _ c => P (world c)).
Proof.
  intros [_ Hsteady]. apply coord_at. intros x.
  eapply (coord_bind _ _ _ (fun _ => on x P)).
  - apply (call_or_on x P P _ _ (fun _ => P) (fun _ => P)); [|done..|by intros c []|by intros e c []].
    intros w r w' Hw Hrun. apply data_cleanup_law in Hrun as [Hsame Hfiles].
    assert (P w') by (eapply Hsteady; [done|done|by rewrite Hfiles|by rewrite Hfiles]). by destruct r.
  - intros []. eapply (coord_weaken _ _ _ (fun _ => on x P) _ (fun _ c => P (world c))); [|done|intros a c Hc; apply Hc|done].
    apply (call_or_on x P P _ _ (fun _ => P) (fun _ => P)); [|done..|by intros c []|by intros e c []].
    intros w r w' Hw Hrun. apply cleanup_law in Hrun as (Hsame & Hpub & _ & Happ).
    assert (P w') by (eapply Hsteady; [done..|eauto]). by destruct r.
Qed.
Lemma recover_steady P :
  steady P ->
  coord_spec (fun c => P (world c)) recover_mode_mutations (fun _ c => P (world c)) (fun _ c => P (world c)).
Proof.
  intros HP. pose proof HP as [Hsound Hsteady]. unfold recover_mode_mutations.
  eapply (coord_bind _ _ _ (fun entries c => entries = [] /\ P (world c))).
  - apply coord_at. intros x.
    eapply (coord_weaken _ _ _ (fun entries => on x (fun w => entries = [] /\ P w)) _ (fun _ c => P (world c)));
      [|done|intros a c Hc; apply Hc|done].
    apply (call_or_on x P P _ _ (fun entries w => entries = [] /\ P w) (fun _ => P)); [|naive_solver..|by intros c []|by intros e c []].
    intros w r w' Hw Hrun. destruct (Hsound w Hw) as [[Hok _] Hterminal].
    apply unfinished_call in Hrun as (Hsame & Hfiles & Hr); [|done].
    assert (P w') by (eapply Hsteady; [done|done|by rewrite Hfiles|by rewrite Hfiles]).
    destruct r as [entries|]; [|done]. split; [|done]. destruct Hr as [_ Hr].
    destruct entries as [|entry entries]; [done|].
    destruct (proj1 (Hr entry) ltac:(by left)) as (Hentry & Hdomain & Hstate).
    assert (journal_states w' !! journal_id_text (entry_id entry) = Some (journal_view entry)) as Hv
      by (apply states_lookup; by exists entry).
    rewrite (same_states _ _ Hsame) in Hv. by rewrite (Hterminal _ _ _ _ Hv) in Hstate.
  - intros entries. apply coord_pure. intros ->. cbn.
    eapply (coord_bind _ _ _ (fun _ c => P (world c))); [by apply coord_ret|]. intros []. by apply steady_cleanup.
Qed.

(** Carrying on, the entry as the journal has it. *)
Lemma recover_entry_spec x (entry : RecoveryJournalEntry) state plan :
  entry_id entry = id -> journal_view entry = (Domain_Modes, state, plan) -> is_terminal state = false ->
  coord_spec (on x (journaled state plan (undoable id plan disk))) (recover_entry entry)
    (fun _ => on x undone) (stops x).
Proof.
  intros Hentry Hview Hopen. unfold recover_entry.
  eapply (coord_bind _ _ _ (fun rolling_back c => entry_id rolling_back = id /\
    journal_view rolling_back = (Domain_Modes, RollingBack, plan) /\ on x (journaled RollingBack plan (undoable id plan disk)) c)).
  { case_bool_decide as Hs.
    - apply coord_ret. intros c Hc. pose proof Hview as [= _ Hv _]. subst state. rewrite Hs in *. by split_and!.
    - apply transition_spec; [done..| | |apply stops_open]; intros w; by apply undoable_open. }
  intros rolling_back. apply coord_pure. intros Hi. apply coord_pure. intros Hv.
  pose proof Hv as [= Hd _ Hp].
  set (good filesystem := journaled RollingBack plan (fun f => undoable id plan disk f /\
    (filesystem = true -> published f = disk))).
  assert (forall b w, good b w -> left_open w) as Hgood by by intros b w; apply undoable_open; [|intros f []].
  eapply (coord_bind _ _ _ (fun _ => on x (journaled RollingBack plan (undoable id plan disk)))).
  { apply (call_or_on x _ left_open _ _ (fun _ => journaled RollingBack plan (undoable id plan disk))
      (fun _ => journaled RollingBack plan (undoable id plan disk)));
      [|by intros; eapply undoable_open; [..|done]|by intros; eapply undoable_open; [..|done]|
       by intros; eapply undoable_open; [..|done]|intros c; apply died_open|
       intros e c [_ Hw]; by eapply undoable_open; [..|done]].
    intros w r w' Hw Hrun. apply data_rollback_law in Hrun as [Hsame Hfiles].
    assert (journaled RollingBack plan (undoable id plan disk) w')
      by (eapply journaled_same; [done| |done]; rewrite Hfiles; apply Hw). by destruct r. }
  intros _. eapply (coord_bind _ _ _ (fun _ => on x (good true))).
  { apply (call_or_on x _ left_open _ _ (fun _ => good true) (fun _ => good false));
      [|by intros w _; apply Hgood|by intros w _; apply Hgood|by intros; eapply undoable_open; [..|done]|
       intros c; apply died_open|intros e c [_ Hw]; by eapply Hgood].
    intros w r w' Hw Hrun. pose proof Hw as (_ & _ & _ & Hundo).
    eapply rollback_law in Hrun as (Hsame & Hundo' & Hr); [|done|rewrite Hi, Hp; exact Hundo].
    rewrite Hi, Hp in Hundo'. destruct r; (eapply journaled_same; [done| |done]); by split. }
  intros _. eapply coord_bind.
  { apply (transition_spec x rolling_back RollingBack RolledBack plan); [done..|apply Hgood| |apply stops_open].
    intros w Hw. apply undone_open. eapply rolled_back_undone; [|done]. intros f [_ Hf]. by apply Hf. }
  intros entry'. apply coord_ret. intros c (_ & _ & Hx & Hw). split; [done|].
  eapply rolled_back_undone; [|done]. intros f [_ Hf]. by apply Hf.
Qed.

Lemma recover_unfinished :
  coord_spec (fun c => in_flight (world c)) recover_mode_mutations
    (fun _ c => undone (world c)) (fun _ c => left_open (world c)).
Proof.
  apply coord_at. intros x c r c' [Hx (state & plan & Hopen & Hw)]. revert c r c' Hx Hw.
  enough (coord_spec (on x (journaled state plan (undoable id plan disk))) recover_mode_mutations
    (fun _ c => undone (world c)) (fun _ c => left_open (world c))) as H' by (intros c r c' Hx Hw; by apply H').
  assert (forall w, journaled state plan (undoable id plan disk) w -> left_open w) as Hleft
    by (intros w Hw; by eapply undoable_open; [..|exact Hw]).
  unfold recover_mode_mutations.
  eapply (coord_bind _ _ _ (fun entries c => (exists entry, entries = [entry] /\ entry_id entry = id /\
    journal_view entry = (Domain_Modes, state, plan)) /\ on x (journaled state plan (undoable id plan disk)) c)).
  - eapply (coord_weaken _ _ _ (fun entries => on x (fun w => (exists entry, entries = [entry] /\ entry_id entry = id /\
      journal_view entry = (Domain_Modes, state, plan)) /\ journaled state plan (undoable id plan disk) w)) _
      (fun _ c => left_open (world c))); [|done|by intros a c (? & ? & ?); split|done].
    apply (call_or_on x _ left_open _ _ (fun entries w => (exists entry, entries = [entry] /\ entry_id entry = id /\
      journal_view entry = (Domain_Modes, state, plan)) /\ journaled state plan (undoable id plan disk) w)
      (fun _ => journaled state plan (undoable id plan disk))); [|naive_solver..|by intros c []|by intros e c [_ Hc]; apply Hleft].
    intros w r w' Hw Hrun. apply unfinished_call in Hrun as (Hsame & Hfiles & Hr); [|apply Hw].
    assert (journaled state plan (undoable id plan disk) w') as Hw'
      by (eapply journaled_same; [done| |done]; rewrite Hfiles; apply Hw).
    destruct r as [entries|]; [|done]. split; [|done]. destruct Hr as [Hnodup Hr].
    pose proof Hw' as (_ & _ & Hstates & _).
    assert (exists entry, entry ∈ entries /\ entry_id entry = id /\ journal_view entry = (Domain_Modes, state, plan))
      as (entry & Hin & Hi & Hv).
    { assert (journal_states w' !! journal_id_text id = Some (Domain_Modes, state, plan)) as Hl
        by (rewrite Hstates; apply lookup_insert_eq).
      apply states_lookup in Hl as (entry & Hl & Hv).
      assert (entry_id entry = id) as Hi by (apply journal_id_inj; eapply journal_keyed; [apply Hw'|done]).
      exists entry. split; [|done]. apply Hr. pose proof Hv as [= Hd Hs Hp]. rewrite Hi, Hs. by split_and!. }
    assert (forall other, other ∈ entries -> entry_id other = id) as Honly.
    { intros other Hother. apply Hr in Hother as (Hl & Hd & Hs).
      destruct (decide (journal_id_text (entry_id other) = journal_id_text id)) as [He|He]; [by apply journal_id_inj|].
      assert (journal_states w' !! journal_id_text (entry_id other) = Some (journal_view other)) as Hl'
        by (apply states_lookup; by exists other).
      rewrite Hstates in Hl'. unfold with_entry in Hl'. rewrite lookup_insert_ne in Hl' by done.
      pose proof (Hquiet _ _ _ _ Hl' Hd). congruence. }
    exists entry. split; [|done]. destruct entries as [|a [|b entries]]; [by apply not_elem_of_nil in Hin| |].
    + by apply list_elem_of_singleton in Hin as ->.
    + exfalso. apply NoDup_cons in Hnodup as [Hnodup _]. apply Hnodup. cbn.
      rewrite (Honly a), (Honly b) by set_solver. left.
  - intros entries. apply coord_pure. intros (entry & -> & Hi & Hv).
    eapply (coord_bind _ _ _ (fun _ c => undone (world c))).
    + eapply (coord_bind _ _ _ (fun _ => on x undone)); [|intros _; apply coord_ret; by intros c []].
      eapply coord_weaken; [by apply (recover_entry_spec x entry state plan)|done..|].
      intros [] c Hc; [by apply undone_open, Hc|done..].
    + intros _. eapply coord_weaken; [apply (steady_cleanup undone), undone_steady|done..|].
      intros stop c Hc. by apply undone_open.
Qed.

(** One start: what was settled stays, what was unfinished is undone; if the
    recovery fails itself, everything is as recoverable as it was. *)
Lemma recovery_spec :
  coord_spec (fun c => left_open (world c)) recover_mode_mutations
    (fun _ c => settled (world c)) (fun _ c => left_open (world c)).
Proof.
  intros c r c' [Hsettled|Hunfinished] Hrun; [destruct Hsettled as [Hw|[Hw|Hw]]|].
  - pose proof (recover_steady _ undone_steady c r c' Hw Hrun). destruct r; [by left|by left; left].
  - pose proof (recover_steady _ committed_steady c r c' Hw Hrun). destruct r; [by right; left|by left; right; left].
  - pose proof (recover_steady _ failed_steady c r c' Hw Hrun). destruct r; [by right; right|by left; right; right].
  - pose proof (recover_unfinished c r c' Hunfinished Hrun). destruct r; [by left|done].
Qed.
End Saga.
