(* ===== verification/ModeReloadSpec.v ===== *)
(** * What the mode coordinator answers

    For every command, whatever the calls report: the catalog, the watched
    values and the generations, and the bounds of the errors it publishes. *)

From S2P Require Import Prelude Catalog RecoveryJournal Modes ModeCoordinator ModeCoordinatorSpec.

#[local] Open Scope string_scope.
#[local] Open Scope N_scope.
#[local] Open Scope list_scope.

(* ------------------------------------------------------------------ *)
(** ** Bounded errors *)

(** [chars().count()] *)
Fixpoint char_count (s : string) : nat :=
  match s with
  | EmptyString => 0
  | String a s => if is_continuation a then char_count s else S (char_count s)
  end.

Lemma take_chars_count n s : (char_count (take_chars n s) <= n)%nat.
Proof.
  revert n. induction s as [|a s IH]; intros n; cbn; [lia|].
  destruct (is_continuation a) eqn:Ha; cbn; rewrite ?Ha; [apply IH|].
  destruct n; cbn; rewrite ?Ha; [lia|]. specialize (IH n). lia.
Qed.

Lemma take_chars_all n s : (char_count s <= n)%nat -> take_chars n s = s.
Proof.
  revert n. induction s as [|a s IH]; intros n; cbn; [done|]. destruct (is_continuation a); intros Hn.
  - by rewrite IH.
  - destruct n; [lia|]. rewrite IH; [done|lia].
Qed.

Lemma bounded_errors_bounds (errors : gmap string string) :
  (size (bounded_errors errors) <= MAX_MODE_ERRORS)%nat /\
  map_Forall (fun key detail => (char_count detail <= MAX_MODE_ERROR_CHARS)%nat /\
    exists full, errors !! key = Some full /\ detail = take_chars MAX_MODE_ERROR_CHARS full) (bounded_errors errors).
Proof.
  unfold bounded_errors. split.
  - rewrite map_size_list_to_map.
    + rewrite length_fmap, length_take. lia.
    + rewrite <- list_fmap_compose. cbn.
      eapply sublist_NoDup; [apply (NoDup_sorted_keys string_leb errors)|].
      apply fmap_sublist, sublist_take.
  - intros key detail Hk. apply elem_of_list_to_map_2 in Hk.
    apply list_elem_of_fmap in Hk as ([k full] & [= -> ->] & Hin). split; [apply take_chars_count|].
    exists full. split; [|done]. apply elem_of_sorted_entries with (leb := string_leb).
    apply elem_of_take in Hin as (i & Hi & _). by eapply list_elem_of_lookup_2.
Qed.

Lemma bounded_errors_empty (errors : gmap string string) : bounded_errors errors = ∅ <-> errors = ∅.
Proof.
  split; [|by intros ->]. intros He. apply map_empty. intros key.
  destruct (errors !! key) as [detail|] eqn:Hk; [|done]. exfalso.
  assert (sorted_entries string_leb errors <> []) as Hne.
  { intros Hnil. assert ((key, detail) ∈ sorted_entries string_leb errors) as Hin by by apply elem_of_sorted_entries.
    rewrite Hnil in Hin. by apply not_elem_of_nil in Hin. }
  unfold bounded_errors in He. destruct (sorted_entries string_leb errors) as [|[k d] entries]; [done|].
  cbn in He. by apply insert_non_empty in He.
Qed.

(* ------------------------------------------------------------------ *)
(** ** The task's own values *)

Section Answers.
Context {W : Type} `{ModeCatalogSource W, ModeCatalogSink W, ModeMutationEffects W, ModeMutationDataEffects W}.
Context `{RecoveryJournalRepository W, ModeClock, JournalIds, JsonText, ValueEq}.
Implicit Types c : Coordinator W.

(** A program that leaves the catalog and the watched values alone. *)
Definition keeps {A : Type} (m : coord (W := W) A) : Prop := forall c r c', m c = (r, c') -> own c' = own c.

Lemma own_keeps_ret {A : Type} (a : A) : keeps (mret a).
Proof. by intros c r c' [= _ <-]. Qed.
Lemma own_keeps_throw {A : Type} stop : keeps (throw (A := A) stop).
Proof. by intros c r c' [= _ <-]. Qed.
Lemma own_keeps_try {A : Type} (o : result ModeStop A) : keeps (try o).
Proof. by intros c r c' [= _ <-]. Qed.
Lemma own_keeps_gets {A : Type} (f : Coordinator W -> A) : keeps (gets f).
Proof. by intros c r c' [= _ <-]. Qed.
Lemma own_keeps_bind {A B : Type} (m : coord A) (k : A -> coord B) : keeps m -> (forall a, keeps (k a)) -> keeps (mbind k m).
Proof.
  intros Hm Hk c r c'. unfold mbind, stateful_bind. destruct (m c) as [[a|stop] c1] eqn:Hr.
  - intros Hrun. rewrite (Hk a _ _ _ Hrun). by eapply Hm.
  - intros [= _ <-]. by eapply Hm.
Qed.
Lemma keeps_call {A : Type} (op : world_call W A) : keeps (call op).
Proof. intros c r c'. unfold call. repeat case_match; by intros [= _ <-]. Qed.
Lemma own_keeps_ignore {A : Type} (m : coord A) : keeps m -> keeps (ignore_stop m).
Proof.
  intros Hm c r c'. unfold ignore_stop. destruct (m c) as [[a|[]] c1] eqn:Hr; intros [= _ <-]; by eapply Hm.
Qed.
Lemma keeps_clock : keeps unix_seconds.
Proof. by intros c r c' [= _ <-]. Qed.
Lemma keeps_id : keeps new_journal_id.
Proof. by intros c r c' [= _ <-]. Qed.
#[local] Hint Resolve own_keeps_ret own_keeps_throw own_keeps_try own_keeps_gets own_keeps_bind keeps_call own_keeps_ignore keeps_clock keeps_id : keeps.

Ltac keeps := repeat first [apply own_keeps_bind; [|intros ?] | solve [auto with keeps] | case_match].

Lemma keeps_call_or {A : Type} stop (op : world_call W A) : keeps (call_or stop op).
Proof. unfold call_or. keeps. Qed.
#[local] Hint Resolve keeps_call_or : keeps.
Lemma keeps_transition entry next progress : keeps (transition_mode_journal entry next progress).
Proof. unfold transition_mode_journal. keeps. Qed.
#[local] Hint Resolve keeps_transition : keeps.
Lemma keeps_rollback entry : keeps (rollback_mode_mutation entry).
Proof. unfold rollback_mode_mutation. keeps. Qed.
#[local] Hint Resolve keeps_rollback : keeps.
Lemma keeps_rolled_back {A : Type} entry error : keeps (rolled_back_with (A := A) entry error).
Proof. unfold rolled_back_with. keeps. Qed.
#[local] Hint Resolve keeps_rolled_back : keeps.

Lemma keeps_plan mutation : keeps (plan_mutation mutation).
Proof. unfold plan_mutation. keeps. Qed.
Lemma keeps_apply entry : keeps (apply_mutation entry).
Proof. unfold apply_mutation. keeps. Qed.
Lemma keeps_verify entry mutation proposed : keeps (verify_mutation entry mutation proposed).
Proof. unfold verify_mutation. keeps. Qed.
Lemma keeps_commit entry generation : keeps (commit_mutation entry generation).
Proof.
  intros c r c'. unfold commit_mutation.
  destruct (transition_mode_journal _ _ _ c) as [t c1] eqn:Ht. pose proof (keeps_transition _ _ _ _ _ _ Ht) as Hown.
  destruct t as [entry'|[| |]]; [by intros [= _ <-]| | |by intros [= _ <-]];
    intros Hrun; rewrite <- Hown; revert Hrun; eapply own_keeps_bind; auto with keeps.
Qed.

(** The generation a task is at. *)
Definition generation_of c : N := catalog_generation (current_catalog c).

(** The watched catalog is the current one, and the status names its
    generation. *)
Definition consistent c : Prop :=
  watched_catalog c = current_catalog c /\ status_generation (watched_status c) = generation_of c.

(** The catalog was replaced by the next one, and is watched. *)
Definition advanced c (next : ModeCatalog) c' : Prop :=
  mode_catalog_generation next = generation_of c + 1 /\ mode_catalog_generation next <= u64_max /\
  current_catalog c' = Some next /\ watched_catalog c' = Some next /\
  status_generation (watched_status c') = mode_catalog_generation next.
Lemma bind_split {A B : Type} (m : coord (W := W) A) (k : A -> coord B) c r c' :
  mbind k m c = (r, c') ->
  (exists a c1, m c = (Ok a, c1) /\ k a c1 = (r, c')) \/ exists stop, m c = (Err stop, c') /\ r = Err stop.
Proof.
  unfold mbind, stateful_bind. destruct (m c) as [[a|stop] c1]; [by left; exists a, c1|].
  intros [= <- <-]. right. by exists stop.
Qed.

(** What a program answers that only keeps. *)
Lemma call_or_stop {A : Type} stop (op : world_call W A) c s c' :
  call_or stop op c = (Err s, c') -> s = Stop_died \/ exists e, s = stop e.
Proof.
  unfold call_or. intros [(r & c1 & Hc & Hr)|(s' & Hc & [= ->])]%bind_split.
  - destruct r; [done|]. injection Hr as <- _. eauto.
  - left. revert Hc. unfold call. repeat case_match; by intros [= <- _].
Qed.

Lemma ignore_stop_stop {A : Type} (m : coord (W := W) A) c s c' : ignore_stop m c = (Err s, c') -> s = Stop_died.
Proof. unfold ignore_stop. destruct (m c) as [[a|[]] c1]; by intros [= <- _]. Qed.

Lemma publish_answer entry current generation proposed attempt c r c' :
  publish_mutation entry current generation proposed attempt c = (r, c') ->
  match r with
  | Ok report =>
      let next := mkModeCatalog generation proposed in
      report_catalog report = next /\ current_catalog c' = Some next /\ watched_catalog c' = Some next /\
      status_generation (watched_status c') = generation
  | Err (Stop_rejected _) => False
  | Err (Stop_fatal _) => own c' = own c
  | Err Stop_died => True
  end.
Proof.
  unfold publish_mutation. intros [([] & c1 & Hc1 & Hrun)|(stop & Hc & ->)]%bind_split.
  2:{ pose proof (keeps_call_or _ _ _ _ _ Hc). apply call_or_stop in Hc as [->|[e ->]]; done. }
  apply bind_split in Hrun as [([] & c2 & [= <-] & Hrun)|(? & ? & _)]; [|done].
  apply bind_split in Hrun as [(loaded_at & c3 & [= _ <-] & Hrun)|(? & ? & _)]; [|done].
  apply bind_split in Hrun as [([] & c4 & [= <-] & Hrun)|(? & ? & _)]; [|done].
  apply bind_split in Hrun as [([] & c5 & Hc5 & Hrun)|(stop & Hc & ->)]; [|by apply ignore_stop_stop in Hc as ->].
  apply own_keeps_ignore in Hc5; [|apply keeps_call].
  apply bind_split in Hrun as [([] & c6 & Hc6 & Hrun)|(stop & Hc & ->)]; [|by apply ignore_stop_stop in Hc as ->].
  apply own_keeps_ignore in Hc6; [|apply keeps_call].
  injection Hrun as <- <-. rewrite Hc5 in Hc6. injection Hc6 as Hcurrent Hwatched Hstatus.
  cbn. rewrite Hcurrent, Hwatched, Hstatus. by split_and!.
Qed.

Lemma admit_answer mutation c r c' :
  admit_mutation mutation c = (r, c') ->
  c' = c /\
  match r with
  | Ok (current, generation, proposed) =>
      current_catalog c = Some current /\ expected_generation mutation = mode_catalog_generation current /\
      generation = mode_catalog_generation current + 1 /\ generation <= u64_max
  | Err Stop_died => False
  | Err _ => True
  end.
Proof.
  unfold admit_mutation, mbind, stateful_bind, gets, try, ok_or, throw, Datatypes.id.
  destruct (current_catalog c) as [current|]; [|by intros [= <- <-]].
  destruct (N.eqb_spec (expected_generation mutation) (mode_catalog_generation current)); cbn [negb];
    [|by intros [= <- <-]].
  destruct (u64_checked_add _ 1) eqn:Hadd; [|by intros [= <- <-]].
  apply u64_checked_add_Some in Hadd as [-> ?].
  destruct (apply_catalog_mutation current mutation); by intros [= <- <-].
Qed.

(** The answer of one mutation and what it does to the task's values. *)
Lemma perform_answer mutation c r c' :
  perform_mutation mutation c = (r, c') ->
  match r with
  | Ok report => expected_generation mutation = generation_of c /\ advanced c (report_catalog report) c'
  | Err Stop_died => True
  | Err _ => own c' = own c
  end.
Proof.
  unfold perform_mutation.
  intros [([[current generation] proposed] & c1 & Hadmit & Hrun)|(stop & Hadmit & ->)]%bind_split;
    apply admit_answer in Hadmit as [Hsame Hadmit]; subst; [|by destruct stop].
  destruct Hadmit as (Hcurrent & Hgen & -> & Hmax).
  assert (generation_of c = mode_catalog_generation current) as Hgc by (unfold generation_of; by rewrite Hcurrent).
  assert (forall c2 r c', own c2 = own c -> forall committed final attempt,
    publish_mutation committed current (mode_catalog_generation current + 1) final attempt c2 = (r, c') ->
    match r with
    | Ok report => expected_generation mutation = generation_of c /\ advanced c (report_catalog report) c'
    | Err Stop_died => True
    | Err _ => own c' = own c
    end) as Hpublish.
  { intros c2 r2 c2' Hown committed final attempt Hp%publish_answer. rewrite Hown in Hp.
    destruct r2 as [report|[]]; [|done..]. destruct Hp as (Hr & Hc & Hw & Hs). split; [by rewrite Hgc|].
    unfold advanced. rewrite Hr, Hgc, Hc, Hw, Hs. by split_and!. }
  assert (forall stop, own c' = own c -> match stop with Stop_died => True | _ => own c' = own c end) as Hstop
    by by intros [].
  clear Hcurrent Hgc Hgen.
  apply bind_split in Hrun as [(planned & c1 & Hc1 & Hrun)|(stop & Hc & ->)]; [|by apply keeps_plan in Hc; apply Hstop].
  apply keeps_plan in Hc1.
  apply bind_split in Hrun as [(applying & c2 & Hc2 & Hrun)|(stop & Hc & ->)];
    [|by apply keeps_transition in Hc; apply Hstop; rewrite Hc].
  apply keeps_transition in Hc2. rewrite Hc1 in Hc2. clear Hc1.
  apply bind_split in Hrun as [(applying' & c3 & Hc3 & Hrun)|(stop & Hc & ->)];
    [|by apply keeps_apply in Hc; apply Hstop; rewrite Hc].
  apply keeps_apply in Hc3. rewrite Hc2 in Hc3. clear Hc2.
  apply bind_split in Hrun as [([final attempt] & c4 & Hc4 & Hrun)|(stop & Hc & ->)];
    [|by apply keeps_verify in Hc; apply Hstop; rewrite Hc].
  apply keeps_verify in Hc4. rewrite Hc3 in Hc4. clear Hc3.
  apply bind_split in Hrun as [(committed & c5 & Hc5 & Hrun)|(stop & Hc & ->)];
    [|by apply keeps_commit in Hc; apply Hstop; rewrite Hc].
  apply keeps_commit in Hc5. eapply Hpublish; [|exact Hrun]. by rewrite Hc5.
Qed.
Definition errors_bounded (errors : gmap string string) : Prop :=
  (size errors <= MAX_MODE_ERRORS)%nat /\ map_Forall (fun _ detail => (char_count detail <= MAX_MODE_ERROR_CHARS)%nat) errors.

Lemma bounded_errors_bounded errors : errors_bounded (bounded_errors errors).
Proof.
  destruct (bounded_errors_bounds errors) as [Hsize Hdetails]. split; [done|].
  intros key detail Hk. by apply (Hdetails key).
Qed.

(** The catalog and what is watched of it stay; the status says why. *)
Definition refused c (report : ModeReloadReport) c' : Prop :=
  current_catalog c' = current_catalog c /\ watched_catalog c' = watched_catalog c /\
  report_errors report <> ∅ /\ report_generation report = generation_of c /\
  status_state (watched_status c') = match current_catalog c with Some _ => Load_Degraded | None => Load_Failed end.

Definition reported (report : ModeReloadReport) c' : Prop :=
  errors_bounded (report_errors report) /\
  status_errors (watched_status c') = report_errors report /\
  status_loaded_ids (watched_status c') = report_loaded_ids report /\
  status_generation (watched_status c') = report_generation report.

Lemma refuse_answer loaded_at loaded_ids errors c r c' : errors_bounded errors -> errors <> ∅ ->
  refuse_reload loaded_at loaded_ids errors c = (r, c') ->
  exists report, r = Ok report /\ report_published report = false /\ reported report c' /\ refused c report c'.
Proof.
  intros Hb Hne [= <- <-]. eexists. split_and!; [done..| |].
  - by split_and!.
  - split_and!; try done. cbn. by destruct (current_catalog c).
Qed.

Lemma reload_answer c r c' :
  perform_reload c = (r, c') ->
  match r with
  | Ok report =>
      reported report c' /\
      if report_published report
      then report_errors report = ∅ /\ status_state (watched_status c') = Load_Current /\
           exists modes, report_loaded_ids report = mode_ids modes /\
             advanced c (mkModeCatalog (report_generation report) modes) c'
      else refused c report c'
  | Err (Stop_rejected _) => False
  | Err _ => own c' = own c
  end.
Proof.
  unfold perform_reload. intros [(loaded_at & c1 & [= _ <-] & Hrun)|(? & ? & _)]%bind_split; [|done].
  set (c1 := mkCoordinator _ _ _ _ _ _ _) in Hrun. assert (own c1 = own c) as Hown by done. clearbody c1.
  apply bind_split in Hrun as [(loaded & c2 & Hload & Hrun)|(stop & Hload & ->)].
  2:{ pose proof (keeps_call _ _ _ _ Hload) as Hk. assert (stop = Stop_died) as ->; [|by rewrite Hk].
      revert Hload. unfold call. repeat case_match; by intros [= <- _]. }
  apply keeps_call in Hload. rewrite Hown in Hload. clear c1 Hown.
  injection Hload as Hcurrent Hwatched Hstatus.
  assert (forall errors loaded_ids, errors_bounded errors -> errors <> ∅ ->
    refuse_reload loaded_at loaded_ids errors c2 = (r, c') ->
    exists report, r = Ok report /\ report_published report = false /\ reported report c' /\ refused c report c') as Hrefuse.
  { intros errors ids Hb Hne Hr. apply refuse_answer in Hr as (report & -> & Hp & Hrep & Href); [|done..].
    exists report. unfold refused, generation_of in *. rewrite Hcurrent, Hwatched in Href. done. }
  destruct loaded as [attempt|error].
  2:{ apply Hrefuse in Hrun as (report & -> & -> & ?); [done|apply bounded_errors_bounded|].
      intros He. apply (proj1 (bounded_errors_empty _)) in He. by apply map_non_empty_singleton in He. }
  destruct (bool_decide_reflect (bounded_errors (attempt_errors attempt) = ∅)) as [He|He]; cbn [negb] in Hrun.
  2:{ apply Hrefuse in Hrun as (report & -> & -> & ?); [done|apply bounded_errors_bounded|done]. }
  apply bind_split in Hrun as [(c3 & c4 & [= <- <-] & Hrun)|(? & ? & _)]; [|done].
  apply bind_split in Hrun as [(generation & c5 & Htry & Hrun)|(stop & Htry & ->)].
  2:{ revert Htry. unfold try, ok_or, Datatypes.id. case_match; intros [= <- <-]. unfold own. by rewrite Hcurrent, Hwatched, Hstatus. }
  unfold try, ok_or, Datatypes.id in Htry. rewrite Hcurrent in Htry.
  destruct (u64_checked_add _ 1) eqn:Hadd; [|done]. injection Htry as -> <-. apply u64_checked_add_Some in Hadd as [-> Hmax].
  apply bind_split in Hrun as [([] & c6 & Hpublish & Hrun)|(stop & Hpublish & ->)].
  2:{ pose proof (keeps_call_or _ _ _ _ _ Hpublish) as Hk. unfold own in *. rewrite Hcurrent, Hwatched, Hstatus in Hk.
      apply call_or_stop in Hpublish as [->|[e ->]]; done. }
  injection Hrun as <- <-. cbn.
  split; [split_and!; [rewrite <- He; apply bounded_errors_bounded|done..]|]. split_and!; [done..|].
  exists (attempt_modes attempt). split; [done|]. unfold advanced. by split_and!.
Qed.
(** C39: a reload answers with at most 128 errors of at most 512 characters and
    publishes only without errors: then the catalog is the loaded one, a
    generation further; otherwise the last good catalog stays, and the status
    says degraded, or failed when there never was one. A reload that ends the
    task has changed nothing of it. *)
Theorem reloads_keep_the_last_good_catalog c r c' :
  perform_reload c = (r, c') ->
  match r with
  | Ok report =>
      reported report c' /\
      if report_published report
      then report_errors report = ∅ /\ status_state (watched_status c') = Load_Current /\
           exists modes, report_loaded_ids report = mode_ids modes /\
             advanced c (mkModeCatalog (report_generation report) modes) c'
      else refused c report c'
  | Err (Stop_rejected _) => False
  | Err _ => own c' = own c
  end.
Proof. apply reload_answer. Qed.

(** The replies that say a catalog was published, and with which generation. *)
Definition published_generation (reply : ModeReply) : option N :=
  match reply with
  | Reply_Reload (Ok report) => if report_published report then Some (report_generation report) else None
  | Reply_Mutate (Ok report) => Some (mode_catalog_generation (report_catalog report))
  | _ => None
  end.

(** The numbers that follow [start], one by one. *)
Fixpoint counts_from (start : N) (generations : list N) : Prop :=
  match generations with
  | [] => True
  | generation :: generations => generation = start + 1 /\ generation <= u64_max /\ counts_from generation generations
  end.

Lemma consistent_own c c' : own c' = own c -> consistent c -> consistent c' /\ generation_of c' = generation_of c.
Proof. intros [= Hc Hw Hs]. unfold consistent, generation_of. by rewrite Hc, Hw, Hs. Qed.

Lemma advanced_consistent c next c' : advanced c next c' ->
  consistent c' /\ generation_of c' = mode_catalog_generation next.
Proof. intros (_ & _ & Hc & Hw & Hs). unfold consistent, generation_of. by rewrite Hc, Hw, Hs. Qed.

Lemma reload_step c r c' : consistent c -> perform_reload c = (r, c') ->
  consistent c' /\
  match r with
  | Ok report => if report_published report
                 then report_generation report = generation_of c + 1 /\ report_generation report <= u64_max /\
                      generation_of c' = report_generation report
                 else generation_of c' = generation_of c
  | Err stop => generation_of c' = generation_of c /\ forall error, stop <> Stop_rejected error
  end.
Proof.
  intros Hc Hr%reload_answer. destruct r as [report|stop].
  - destruct Hr as [(_ & _ & _ & Hstatus) Hr]. destruct (report_published report).
    + destruct Hr as (_ & _ & modes & _ & Hadv). pose proof (advanced_consistent _ _ _ Hadv) as [? ?].
      destruct Hadv as (? & ? & _). by split_and!.
    + destruct Hr as (Hcur & Hwatched & _ & Hgen & _). destruct Hc as [Hw Hs].
      unfold consistent, generation_of in *. rewrite Hcur, Hwatched, Hstatus, Hgen. by split_and!.
  - destruct stop as [error|error|]; [done|..]; destruct (consistent_own _ _ Hr Hc); by split_and!.
Qed.

Lemma perform_step mutation c r c' : consistent c -> perform_mutation mutation c = (r, c') ->
  match r with
  | Ok report => consistent c' /\ generation_of c = expected_generation mutation /\
      mode_catalog_generation (report_catalog report) = generation_of c + 1 /\
      mode_catalog_generation (report_catalog report) <= u64_max /\
      generation_of c' = mode_catalog_generation (report_catalog report)
  | Err Stop_died => True
  | Err _ => consistent c' /\ generation_of c' = generation_of c
  end.
Proof.
  intros Hc Hr%perform_answer. destruct r as [report|[]]; [|by apply consistent_own..|done].
  destruct Hr as [-> Hadv]. pose proof (advanced_consistent _ _ _ Hadv) as [? ?]. destruct Hadv as (? & ? & _). by split_and!.
Qed.

Lemma last_step {A} (x d : A) l : List.last (x :: l) d = List.last l x.
Proof. revert x d. induction l as [|y l IH]; intros x d; [done|].
  change (List.last (y :: l) d = List.last (y :: l) x). by rewrite !IH.
Qed.

(** What a run of replies says of the generations, from [start] to the task [c']. *)
Definition counted (start : N) (replies : list ModeReply) (r : result ModeStop ()) c' : Prop :=
  counts_from start (omap published_generation replies) /\
  (r <> Err Stop_died -> consistent c' /\
     generation_of c' = List.last (omap published_generation replies) start).

Lemma counted_reply start reply replies r c' :
  counted (match published_generation reply with Some generation => generation | None => start end) replies r c' ->
  (forall generation, published_generation reply = Some generation -> generation = start + 1 /\ generation <= u64_max) ->
  counted start (reply :: replies) r c'.
Proof.
  intros [Hcounts Hend] Hstep. unfold counted. cbn. destruct (published_generation reply) as [generation|]; [|done].
  destruct (Hstep generation eq_refl) as [-> Hmax]. split; [by split_and!|].
  intros Hr. destruct (Hend Hr) as [? Hlast]. split; [done|]. by rewrite last_step.
Qed.

Lemma counted_stop c replies r c' : r <> Err Stop_died -> consistent c' -> generation_of c' = generation_of c ->
  omap published_generation replies = [] -> counted (generation_of c) replies r c'.
Proof. intros Hr Hc Hg Ho. unfold counted. rewrite Ho. by split. Qed.

Lemma counted_died start r c' : r = Err Stop_died -> counted start [] r c'.
Proof. intros ->. by split. Qed.

Lemma run_counted mutable commands c replies r c' :
  consistent c -> run_commands mutable commands c = (replies, r, c') ->
  counted (generation_of c) replies r c'.
Proof.
  revert c replies r c'. induction commands as [|[|mutation] commands IH]; intros c replies r c' Hc Hrun; cbn in Hrun.
  - injection Hrun as <- <- <-. by apply counted_stop.
  - destruct (perform_reload c) as [[report|stop] c1] eqn:Hreload;
      pose proof (reload_step c _ c1 Hc Hreload) as [Hc1 Hr].
    + destruct (run_commands mutable commands c1) as [[replies1 r1] c1'] eqn:Hrest. injection Hrun as <- <- <-.
      pose proof (IH _ _ _ _ Hc1 Hrest) as Hcount. apply counted_reply; cbn;
        destruct (report_published report); [|by rewrite Hr in Hcount| |done].
      * destruct Hr as (_ & _ & <-). done.
      * destruct Hr as (? & ? & _). by intros ? [= <-].
    + destruct Hr as [Hg Hne]. destruct stop as [error|error|]; [by destruct (Hne error)|..];
        injection Hrun as <- <- <-; [by apply counted_stop|by apply counted_died].
  - destruct mutable; cbn in Hrun.
    + destruct (perform_mutation mutation c) as [[report|[error|error|]] c1] eqn:Hmutate;
        pose proof (perform_step mutation c _ c1 Hc Hmutate) as Hr.
      * destruct Hr as (Hc1 & _ & Hg & Hmax & Hnext).
        destruct (run_commands true commands c1) as [[replies1 r1] c1'] eqn:Hrest. injection Hrun as <- <- <-.
        pose proof (IH _ _ _ _ Hc1 Hrest) as Hcount. rewrite Hnext in Hcount.
        apply counted_reply; [done|]. by intros ? [= <-].
      * destruct Hr as [Hc1 Hg]. destruct (run_commands true commands c1) as [[replies1 r1] c1'] eqn:Hrest.
        injection Hrun as <- <- <-. pose proof (IH _ _ _ _ Hc1 Hrest) as Hcount. rewrite Hg in Hcount.
        by apply counted_reply.
      * injection Hrun as <- <- <-. destruct Hr. by apply counted_stop.
      * injection Hrun as <- <- <-. by apply counted_died.
    + destruct (run_commands false commands c) as [[replies1 r1] c1'] eqn:Hrest. injection Hrun as <- <- <-.
      apply counted_reply; [|done]. by apply (IH c).
Qed.

(** In a run of the task the generations that replies report are numbered
    without a gap from the one it started with; unless the process dies, the
    watched catalog is then the current one, at the last generation reported,
    and the status names it. *)
Theorem published_generations_are_consecutive mutable commands w deaths replies r c' :
  run_mode_coordinator mutable commands (start_coordinator w deaths) = (replies, r, c') ->
  exists first, first <= 1 /\ counts_from first (omap published_generation replies) /\
    (r <> Err Stop_died ->
       watched_catalog c' = current_catalog c' /\
       status_generation (watched_status c') = catalog_generation (current_catalog c') /\
       catalog_generation (current_catalog c') = List.last (omap published_generation replies) first).
Proof.
  set (c := start_coordinator w deaths). assert (consistent c) as Hc by done. unfold run_mode_coordinator.
  destruct (perform_reload c) as [[report|stop] c1] eqn:Hreload;
    pose proof (reload_step c _ c1 Hc Hreload) as [Hc1 Hr]; intros Hrun.
  - exists (generation_of c1). pose proof (run_counted _ _ _ _ _ _ Hc1 Hrun) as [Hcounts Hend]. split_and!; [|done|].
    + destruct (report_published report); [destruct Hr as (Hr & _ & ->)|]; rewrite Hr; cbn; lia.
    + intros Hlive. by destruct (Hend Hlive) as [[? ?] ?].
  - injection Hrun as <- <- <-. exists 0. split_and!; [lia|done|]. intros _. destruct Hr as [Hg _], Hc1. by split_and!.
Qed.
End Answers.
