(* ===== verification/ModesSpec.v ===== *)
(** * Valid catalogs

    What a valid mode is, that the loader accepts only documents the
    application would accept, and that a mutation keeps a catalog valid and
    touches only its mode. *)

From S2P Require Import Prelude PlaybackState Catalog RecoveryJournal Filesystem.
From S2P Require Import Modes ModeYaml.

#[local] Open Scope string_scope.
#[local] Open Scope N_scope.
#[local] Open Scope list_scope.

(** Every document passes its own validation under its name, and the default
    soundboard exists. *)
Record bundle_valid (mode_id : string) (mode : ModeBundle) : Prop := {
  valid_id : manifest_id (bundle_manifest mode) = mode_id;
  valid_manifest : validate_manifest (bundle_manifest mode) (bundle_soundboards mode) = Ok ();
  valid_soundboards :
    map_Forall (fun id document => validate_soundboard_id id document = Ok ()) (bundle_soundboards mode);
  valid_cues : map_Forall (fun id document => validate_cue id document = Ok ()) (bundle_cues mode);
  valid_presets : map_Forall (fun id document => validate_preset id document = Ok ()) (bundle_presets mode)
}.

Definition catalog_valid (modes : gmap string ModeBundle) : Prop := map_Forall bundle_valid modes.

(* ------------------------------------------------------------------ *)
(** ** What validation means *)

Lemma validate_manifest_ok manifest soundboards :
  validate_manifest manifest soundboards = Ok () <->
  validate_slug (manifest_id manifest) = Ok () /\
  (forall id, manifest_default_soundboard manifest = Some id -> is_Some (soundboards !! id)) /\
  Forall (fun interrupt => forall value, interrupt_document_duck_to interrupt = Some value ->
    out_of_unit value = false) (manifest_interrupts manifest).
Proof.
  unfold validate_manifest.
  destruct (validate_slug (manifest_id manifest)) as [[]|]; cbn; [|split; [done|by intros [? _]]].
  destruct (option_is_some_and _ _) eqn:Hdefault.
  { split; [done|]. intros (_ & Hhas & _). destruct (manifest_default_soundboard manifest) as [id|]; [|done].
    cbn in Hdefault. rewrite bool_decide_true in Hdefault by auto. done. }
  assert (forall id, manifest_default_soundboard manifest = Some id -> is_Some (soundboards !! id)) as Hhas.
  { intros id Hid. rewrite Hid in Hdefault. cbn in Hdefault. by apply negb_false_iff, bool_decide_eq_true in Hdefault. }
  destruct (existsb _ _) eqn:Hduck.
  - split; [done|]. intros (_ & _ & Hall). apply existsb_exists in Hduck as (interrupt & Hin & Hout).
    rewrite Forall_forall in Hall. rewrite <- list_elem_of_In in Hin.
    destruct (interrupt_document_duck_to interrupt) as [value|] eqn:Hv; [|done]. cbn in Hout.
    by rewrite (Hall _ Hin _ Hv) in Hout.
  - split; [|done]. intros _. split_and!; [done..|]. apply Forall_forall. intros interrupt Hin value Hv.
    apply not_true_iff_false. intros Hout. apply not_true_iff_false in Hduck. apply Hduck.
    apply existsb_exists. exists interrupt. rewrite <- list_elem_of_In. split; [done|]. by rewrite Hv.
Qed.

Lemma validate_manifest_grow manifest soundboards soundboards' :
  (forall id, is_Some (soundboards !! id) -> is_Some (soundboards' !! id)) ->
  validate_manifest manifest soundboards = Ok () -> validate_manifest manifest soundboards' = Ok ().
Proof. rewrite !validate_manifest_ok. intros Hgrow (? & ? & ?). split_and!; auto. Qed.

Lemma validate_each_ok {A} (validate : string -> A -> result ModeMutationError ()) documents :
  validate_each validate documents = Ok () <->
  Forall (fun entry => validate entry.1 entry.2 = Ok ()) documents.
Proof.
  induction documents as [|[id document] documents IH]; cbn; [by split; [constructor|]|].
  rewrite Forall_cons, <- IH. cbn. destruct (validate id document) as [[]|]; cbn; [tauto|].
  split; [done|by intros [? _]].
Qed.

Lemma validate_sorted_ok {A} (validate : string -> A -> result ModeMutationError ()) documents :
  validate_each validate (sorted_entries string_leb documents) = Ok () <->
  map_Forall (fun id document => validate id document = Ok ()) documents.
Proof.
  rewrite validate_each_ok, Forall_forall. split.
  - intros Hall id document Hin. by apply (Hall (id, document)), elem_of_sorted_entries.
  - intros Hall [id document] Hin%elem_of_sorted_entries. by apply Hall.
Qed.

(* ------------------------------------------------------------------ *)
(** ** Mutations *)

Lemma bundle_valid_manifest mode_id manifest mode :
  bundle_valid mode_id mode -> manifest_id manifest = mode_id ->
  validate_manifest manifest (bundle_soundboards mode) = Ok () ->
  bundle_valid mode_id (with_manifest manifest mode).
Proof. intros [] **. by constructor. Qed.

Lemma bundle_valid_put_soundboard mode_id id document mode :
  bundle_valid mode_id mode -> validate_soundboard_id id document = Ok () ->
  bundle_valid mode_id (with_soundboards (<[id := document]> (bundle_soundboards mode)) mode).
Proof.
  intros [] ?. constructor; cbn; try done; [|by apply map_Forall_insert_2].
  eapply validate_manifest_grow; [|done]. intros other Hother.
  rewrite lookup_insert_is_Some'. auto.
Qed.

Lemma bundle_valid_delete_soundboard mode_id id mode :
  bundle_valid mode_id mode -> manifest_default_soundboard (bundle_manifest mode) <> Some id ->
  bundle_valid mode_id (with_soundboards (delete id (bundle_soundboards mode)) mode).
Proof.
  intros [] Hdefault. constructor; cbn; try done; [|by apply map_Forall_delete].
  rewrite !validate_manifest_ok in *. destruct valid_manifest0 as (? & Hhas & ?). split_and!; [done| |done].
  intros other Hother. rewrite lookup_delete_ne; [by apply Hhas|congruence].
Qed.

Lemma bundle_valid_cues mode_id cues mode :
  bundle_valid mode_id mode -> map_Forall (fun id document => validate_cue id document = Ok ()) cues ->
  bundle_valid mode_id (with_cues cues mode).
Proof. intros [] **. by constructor. Qed.

Lemma bundle_valid_presets mode_id presets mode :
  bundle_valid mode_id mode -> map_Forall (fun id document => validate_preset id document = Ok ()) presets ->
  bundle_valid mode_id (with_presets presets mode).
Proof. intros [] **. by constructor. Qed.

Lemma bundle_valid_import mode_id manifest soundboards cues presets mode mode' :
  bundle_valid mode_id mode -> manifest_id manifest = mode_id ->
  import_resources manifest soundboards cues presets mode = Ok mode' -> bundle_valid mode_id mode'.
Proof.
  intros [] Hid Himport. unfold import_resources in Himport. case_match; [done|].
  apply bind_ok in Himport as ([] & Hs%validate_sorted_ok & Himport).
  apply bind_ok in Himport as ([] & Hc%validate_sorted_ok & Himport).
  apply bind_ok in Himport as ([] & Hp%validate_sorted_ok & Himport).
  apply bind_ok in Himport as ([] & Hm & Himport). injection Himport as <-.
  constructor; cbn; try done; apply map_Forall_union_2; try done.
  intros id document Hdoc. specialize (Hs _ _ Hdoc). cbn in Hs.
  by apply bind_ok in Hs as ([] & _ & ?).
Qed.

Lemma catalog_valid_insert modes mode_id mode :
  catalog_valid modes -> bundle_valid mode_id mode -> catalog_valid (<[mode_id := mode]> modes).
Proof. intros. by apply map_Forall_insert_2. Qed.

Lemma get_mode_ok modes mode_id mode :
  get_mode modes mode_id = Ok mode <-> modes !! mode_id = Some mode.
Proof. unfold get_mode. destruct (modes !! mode_id); cbn; split; congruence. Qed.

(** Every accepted mutation leaves out its mode or puts a valid one in place. *)
Lemma apply_catalog_mutation_ok current mutation modes :
  catalog_valid (mode_catalog_modes current) -> apply_catalog_mutation current mutation = Ok modes ->
  validate_slug (mutation_mode_id mutation) = Ok () /\
  if deletes_mode mutation
  then is_Some (mode_catalog_modes current !! mutation_mode_id mutation) /\
       modes = delete (mutation_mode_id mutation) (mode_catalog_modes current)
  else exists mode, bundle_valid (mutation_mode_id mutation) mode /\
       modes = <[mutation_mode_id mutation := mode]> (mode_catalog_modes current).
Proof.
  intros Hvalid Happly.
  assert (forall mode_id mode, mode_catalog_modes current !! mode_id = Some mode -> bundle_valid mode_id mode)
    as Hmode by apply Hvalid.
  destruct mutation as [generation manifest|generation mode_id|generation mode_id manifest
    |generation mode_id soundboard_id document create_only|generation mode_id soundboard_id
    |generation mode_id cue_id document create_only|generation mode_id cue_id
    |generation mode_id preset_id document create_only|generation mode_id preset_id
    |generation mode_id manifest soundboards cues presets playlists];
    cbn [apply_catalog_mutation mutation_mode_id deletes_mode] in *;
    apply bind_ok in Happly as ([] & Hslug & Happly); (split; [done|]).
  - apply bind_ok in Happly as ([] & Hmanifest & Happly). case_bool_decide; [done|].
    injection Happly as <-. eexists. split; [|done]. by constructor.
  - destruct (mode_catalog_modes current !! mode_id) eqn:Hlookup; [|done]. by injection Happly as <-.
  - destruct (String.eqb_spec (manifest_id manifest) mode_id); [|done]. cbn in Happly.
    apply bind_ok in Happly as (mode & Hm%get_mode_ok & Happly).
    apply bind_ok in Happly as ([] & Hmanifest & Happly). injection Happly as <-.
    eexists. split; [|done]. apply bundle_valid_manifest; auto.
  - apply bind_ok in Happly as ([] & _ & Happly). apply bind_ok in Happly as ([] & Hid & Happly).
    apply bind_ok in Happly as (mode & Hm%get_mode_ok & Happly).
    apply bind_ok in Happly as ([] & _ & Happly). injection Happly as <-.
    eexists. split; [|done]. apply bundle_valid_put_soundboard; auto.
  - apply bind_ok in Happly as ([] & _ & Happly). apply bind_ok in Happly as (mode & Hm%get_mode_ok & Happly).
    case_bool_decide; [done|]. case_match; [|done]. injection Happly as <-.
    eexists. split; [|done]. apply bundle_valid_delete_soundboard; auto.
  - apply bind_ok in Happly as ([] & _ & Happly). apply bind_ok in Happly as ([] & Hcue & Happly).
    apply bind_ok in Happly as (mode & Hm%get_mode_ok & Happly).
    apply bind_ok in Happly as ([] & _ & Happly). injection Happly as <-.
    eexists. split; [|done]. apply bundle_valid_cues; [by auto|]. apply map_Forall_insert_2; [done|].
    exact (valid_cues _ _ (Hmode _ _ Hm)).
  - apply bind_ok in Happly as ([] & _ & Happly). apply bind_ok in Happly as (mode & Hm%get_mode_ok & Happly).
    case_match; [|done]. injection Happly as <-.
    eexists. split; [|done]. apply bundle_valid_cues; [by auto|]. apply map_Forall_delete.
    exact (valid_cues _ _ (Hmode _ _ Hm)).
  - apply bind_ok in Happly as ([] & _ & Happly). apply bind_ok in Happly as ([] & Hpreset & Happly).
    apply bind_ok in Happly as (mode & Hm%get_mode_ok & Happly).
    apply bind_ok in Happly as ([] & _ & Happly). injection Happly as <-.
    eexists. split; [|done]. apply bundle_valid_presets; [by auto|]. apply map_Forall_insert_2; [done|].
    exact (valid_presets _ _ (Hmode _ _ Hm)).
  - apply bind_ok in Happly as ([] & _ & Happly). apply bind_ok in Happly as (mode & Hm%get_mode_ok & Happly).
    case_match; [|done]. injection Happly as <-.
    eexists. split; [|done]. apply bundle_valid_presets; [by auto|]. apply map_Forall_delete.
    exact (valid_presets _ _ (Hmode _ _ Hm)).
  - destruct (String.eqb_spec (manifest_id manifest) mode_id); [|done]. cbn in Happly.
    apply bind_ok in Happly as (mode & Hm%get_mode_ok & Happly).
    apply bind_ok in Happly as (mode' & Himport & Happly). injection Happly as <-.
    eexists. split; [|done]. eapply bundle_valid_import; eauto.
Qed.

(** C38: an accepted mutation of a valid catalog gives a valid catalog (every
    document passes its validation under its own name, the default soundboard
    of each mode exists); it touches only its own mode, which is gone exactly
    after a deletion. *)
Theorem mutations_keep_the_catalog_valid current mutation modes :
  catalog_valid (mode_catalog_modes current) -> apply_catalog_mutation current mutation = Ok modes ->
  catalog_valid modes /\
  (forall mode_id, mode_id <> mutation_mode_id mutation ->
     modes !! mode_id = mode_catalog_modes current !! mode_id) /\
  (modes !! mutation_mode_id mutation = None <-> deletes_mode mutation = true).
Proof.
  intros Hvalid [_ Happly]%apply_catalog_mutation_ok; [|done].
  destruct (deletes_mode mutation).
  - destruct Happly as [_ ->]. split_and!; [by apply map_Forall_delete| |by rewrite lookup_delete_eq].
    intros mode_id Hne. by rewrite lookup_delete_ne.
  - destruct Happly as (mode & Hmode & ->). split_and!; [by apply catalog_valid_insert| |].
    + intros mode_id Hne. by rewrite lookup_insert_ne.
    + by rewrite lookup_insert_eq.
Qed.

(* ------------------------------------------------------------------ *)
(** ** Loading *)

Lemma check_each_ok {A E} (check : A -> result E ()) l :
  check_each check l = Ok () <-> Forall (fun x => check x = Ok ()) l.
Proof.
  induction l as [|x l IH]; cbn; [by split; [constructor|]|].
  rewrite Forall_cons, <- IH. destruct (check x) as [[]|]; cbn; [tauto|]. split; [done|by intros [? _]].
Qed.

Lemma validate_range_ok field value minimum maximum :
  validate_range field value minimum maximum = Ok () <->
  negb (f64_is_finite value) || negb (f64_in_range minimum maximum value) = false.
Proof. unfold validate_range. by destruct (_ || _). Qed.

Lemma resolve_optional_id_ok kind expected actual id :
  resolve_optional_id kind expected actual = Ok id -> id = Some expected.
Proof.
  unfold resolve_optional_id, validate_required_id. destruct actual as [actual|]; [|by intros [= <-]].
  destruct (String.eqb_spec actual expected) as [->|]; cbn; [by intros [= <-]|done].
Qed.

Lemma existsb_none {A} (p : A -> bool) l : Forall (fun x => p x = false) l -> existsb p l = false.
Proof. induction 1 as [|x l Hx _ IH]; cbn; [done|]. by rewrite Hx, IH. Qed.

Section Loading.
Context `{YamlText ModeDocument, YamlText SoundboardDocument, YamlText CueDocument, YamlText PresetDocument}.

Lemma parse_soundboard_valid input id document :
  parse_soundboard_document input id = Ok document -> validate_soundboard_id id document = Ok ().
Proof.
  unfold parse_soundboard_document. intros Hparse.
  apply bind_ok in Hparse as (raw & _ & Hparse). apply bind_ok in Hparse as (found & Hid & Hparse).
  injection Hparse as <-. apply resolve_optional_id_ok in Hid as ->.
  unfold validate_soundboard_id. cbn. by rewrite bool_decide_true.
Qed.

Lemma parse_cue_valid input id document :
  parse_cue_document input id = Ok document -> validate_cue id document = Ok ().
Proof.
  unfold parse_cue_document. intros Hparse.
  apply bind_ok in Hparse as (raw & _ & Hparse). apply bind_ok in Hparse as (found & Hid & Hparse).
  apply resolve_optional_id_ok in Hid as ->.
  apply bind_ok in Hparse as ([] & Hsfx%check_each_ok & Hparse).
  apply bind_ok in Hparse as ([] & Hloops%check_each_ok & Hparse). injection Hparse as <-.
  unfold validate_cue. cbn [with_cue_document_id cue_document_id]. rewrite bool_decide_true by done. cbn [negb].
  rewrite !existsb_none; [done| |].
  - eapply Forall_impl; [exact Hloops|]. intros spec Hspec. cbv beta in Hspec.
    apply bind_ok in Hspec as ([] & Hinterval%validate_range_ok & Hvolume%validate_range_ok).
    apply orb_false_iff in Hinterval as [Hfin Hrange]. unfold out_of_unit. rewrite Hvolume, Hfin, Hrange. done.
  - eapply Forall_impl; [exact Hsfx|]. intros sfx Hvolume%validate_range_ok. exact Hvolume.
Qed.

Lemma parse_preset_valid input id document :
  parse_preset_document input id = Ok document -> validate_preset id document = Ok ().
Proof.
  unfold parse_preset_document. intros Hparse.
  apply bind_ok in Hparse as (raw & _ & Hparse). apply bind_ok in Hparse as (found & Hid & Hparse).
  apply resolve_optional_id_ok in Hid as ->.
  destruct (option_is_some_and _ _) eqn:Hcrossfade; [done|].
  apply bind_ok in Hparse as ([] & Heffects%check_each_ok & Hparse). injection Hparse as <-.
  unfold validate_preset. cbn [with_preset_document_id preset_document_id]. rewrite bool_decide_true by done. cbn [negb].
  rewrite Hcrossfade, existsb_none; [done|].
  eapply Forall_impl; [exact Heffects|]. intros effect Heffect. cbv beta in Heffect |- *.
  change (supported_effect effect) with (is_supported_effect (effect_type effect)).
  by destruct (is_supported_effect (effect_type effect)).
Qed.

Lemma parse_mode_valid input id manifest soundboards :
  valid_slug id = true -> parse_mode_document input id = Ok manifest ->
  (forall board, manifest_default_soundboard manifest = Some board -> is_Some (soundboards !! board)) ->
  manifest_id manifest = id /\ validate_manifest manifest soundboards = Ok ().
Proof.
  unfold parse_mode_document. intros Hslug Hparse Hdefault.
  apply bind_ok in Hparse as (raw & _ & Hparse). apply bind_ok in Hparse as ([] & Hid & Hparse).
  apply bind_ok in Hparse as ([] & Hducks%check_each_ok & Hparse). injection Hparse as <-.
  unfold validate_required_id in Hid. destruct (String.eqb_spec (manifest_id raw) id) as [Heq|]; [|done].
  split; [done|]. apply validate_manifest_ok. split_and!; [|done|].
  - rewrite Heq. unfold validate_slug. unfold valid_slug in Hslug. destruct id as [|first rest]; [done|].
    apply andb_true_iff in Hslug as [[Hlen Hfirst]%andb_true_iff Hrest].
    rewrite Nat.leb_antisym in Hlen. apply negb_true_iff in Hlen. unfold MAX_SLUG_CHARS in Hlen. rewrite Hlen.
    unfold is_ascii_slug_character in Hfirst. rewrite Hfirst.
    change (all_bytes slug_character rest = true) in Hrest. by rewrite Hrest.
  - eapply Forall_impl; [exact Hducks|]. intros interrupt Hduck value Hvalue. cbv beta in Hduck. rewrite Hvalue in Hduck.
    by apply validate_range_ok in Hduck.
Qed.

(** Whatever the tree and its faults: an answer satisfies [Q]. *)
Definition yields {A} (m : fs A) (Q : A -> Prop) : Prop :=
  fs_spec (fun _ => True) m (fun a _ => Q a) (fun _ => True).

Lemma yields_bind {A B} (m : fs A) (k : A -> fs B) (Q : A -> Prop) (R : B -> Prop) :
  yields m Q -> (forall a, Q a -> yields (k a) R) -> yields (mbind k m) R.
Proof.
  intros Hm Hk. eapply fs_spec_bind; [exact Hm|]. intros a f r f' Ha Hrun. by eapply (Hk a Ha f).
Qed.

Lemma yields_any {A} (m : fs A) : yields m (fun _ => True).
Proof. intros f r f' _ _. by destruct r. Qed.

Lemma yields_ret {A} (a : A) (Q : A -> Prop) : Q a -> yields (mret a) Q.
Proof. intros HQ. by apply fs_spec_ret. Qed.

Lemma yields_throw {A} e (Q : A -> Prop) : yields (throw e) Q.
Proof. by apply fs_spec_throw. Qed.

Lemma yields_parsed {A} (r : result YamlDocumentError A) : yields (parsed r) (fun a => r = Ok a).
Proof. intros f o f' _ [= <- <-]. by destruct r. Qed.

Lemma yields_attempt {A} (m : fs A) (Q : A -> Prop) :
  yields m Q -> yields (attempt m) (fun r => forall a, r = Ok a -> Q a).
Proof.
  intros Hm f r f' _ Hrun. unfold attempt in Hrun. destruct (m f) as [[a|[detail|]] f1] eqn:Hf; injection Hrun as <- <-.
  - intros a' [= <-]. by apply (Hm f (Ok a) f1).
  - by intros a' [=].
  - done.
Qed.

Lemma load_documents_valid {document} (directory : FsPath) (kind : string)
    (parse : string -> string -> result YamlDocumentError document) (valid : string -> document -> Prop) :
  (forall input id doc, parse input id = Ok doc -> valid id doc) ->
  yields (load_documents directory kind parse) (map_Forall valid).
Proof.
  intros Hparse. unfold load_documents. eapply yields_bind; [apply yields_any|]. intros t _.
  destruct (fs_node directory t) as [[]|]; [apply yields_throw| |apply yields_ret, map_Forall_empty].
  case_match; [apply yields_throw|].
  assert (forall names documents, map_Forall valid documents ->
    yields (load_each directory kind parse documents names) (map_Forall valid)) as Heach;
    [|apply Heach, map_Forall_empty].
  induction names as [|name names IH]; intros documents Hdocs; cbn [load_each]; [by apply yields_ret|].
  eapply yields_bind; [|exact IH]. unfold load_document.
  destruct (split_extension name) as [stem extension]. case_match; [by apply yields_ret|].
  eapply yields_bind; [apply yields_any|]. intros t1 _. case_match; [apply yields_throw|].
  case_match; [apply yields_throw|]. eapply yields_bind; [apply yields_any|]. intros source _.
  eapply yields_bind; [apply yields_parsed|]. intros doc Hdoc.
  destruct (documents !! stem); [apply yields_throw|]. apply yields_ret, map_Forall_insert_2; [|done].
  exact (Hparse _ _ _ Hdoc).
Qed.

Lemma load_mode_valid path mode_id :
  valid_slug mode_id = true -> yields (load_mode path mode_id) (bundle_valid mode_id).
Proof.
  intros Hslug. unfold load_mode. eapply yields_bind; [apply yields_any|]. intros source _.
  eapply yields_bind; [apply yields_parsed|]. intros manifest Hmanifest.
  eapply yields_bind; [apply load_documents_valid, parse_soundboard_valid|]. intros soundboards Hs.
  eapply yields_bind; [apply load_documents_valid, parse_cue_valid|]. intros cues Hc.
  eapply yields_bind; [apply load_documents_valid, parse_preset_valid|]. intros presets Hp.
  destruct (option_is_some_and _ _) eqn:Hdefault; [apply yields_throw|].
  eapply yields_bind; [apply yields_any|]. intros theme_css _. apply yields_ret.
  destruct (parse_mode_valid source mode_id manifest soundboards Hslug Hmanifest) as [? ?]; [|by constructor].
  intros board Hboard. rewrite Hboard in Hdefault. cbn in Hdefault.
  by apply negb_false_iff, bool_decide_eq_true in Hdefault.
Qed.

(** Whatever is on disk and whichever reads fail, every mode the loader
    returns is valid by the application's own rules, so the catalog the
    coordinator starts from is one its mutations keep valid. *)
Theorem loaded_catalogs_are_valid f r f' :
  load_catalog f = (r, f') ->
  match r with Ok loaded => catalog_valid (attempt_modes loaded) | Err _ => True end.
Proof.
  intros Hrun.
  assert (yields load_catalog (fun loaded => catalog_valid (attempt_modes loaded))) as Hload;
    [|by apply (Hload f r f' I)].
  unfold load_catalog. eapply yields_bind; [apply yields_any|]. intros t _. case_match; [apply yields_throw|].
  assert (forall entries index count loaded, catalog_valid (attempt_modes loaded) ->
    yields (load_entries index count entries loaded) (fun loaded => catalog_valid (attempt_modes loaded)))
    as Hentries; [|apply Hentries, map_Forall_empty].
  induction entries as [|name entries IH]; intros index count loaded Hloaded; cbn [load_entries];
    [by apply yields_ret|].
  case_match; [by apply IH|]. case_match; [by apply IH|].
  eapply yields_bind; [apply yields_any|]. intros t1 _. case_match; [by apply IH|].
  case_match; [apply yields_throw|]. destruct (valid_slug name) eqn:Hslug; cbn [negb]; [|by apply IH].
  eapply yields_bind; [by apply yields_attempt, load_mode_valid|]. intros r0 Hr. apply IH.
  destruct r0 as [mode|detail]; [|done]. cbn. apply catalog_valid_insert; auto.
Qed.
End Loading.
