(* ===== verification/ModeFiles.v ===== *)
(** * Mode mutations on the file tree

    [crates/music-media/src/mode_mutation.rs]: a mutation is staged below the
    staging directory, published by renames and links, and rolled back from the
    plan kept in the recovery journal. Paths are below the modes root. *)

From S2P Require Import Prelude Text PlaybackState Catalog RecoveryJournal Filesystem Modes.
From S2P Require Import ModeYaml.
From S2P Require Import ModeYaml.
From S2P Require Import MediaPath.

#[local] Open Scope string_scope.
#[local] Open Scope N_scope.
#[local] Open Scope list_scope.

Definition PLAN_VERSION : N := 1.
Definition STAGING_DIRECTORY : string := ".music-mode-journal".
Definition MODE_MARKER : string := ".music-journal-id".
Definition MAX_PLAN_PATH_CHARS : nat := 512.

Inductive FilesystemMutationKind : Type :=
| Kind_WriteFile | Kind_DeleteFile | Kind_CreateMode | Kind_DeleteMode | Kind_ImportResources.

Record FilesystemWritePlan : Type := mkFilesystemWritePlan {
  write_target : string;
  write_candidate : string;
  write_backup : option string;
  write_target_existed : bool;
  write_candidate_sha256 : string
}.

Record ImportPlaylistPlan : Type := mkImportPlaylistPlan {
  playlist_plan_name : string;
  playlist_plan_category : option string;
  playlist_plan_track_ids : list Z
}.

Record FilesystemMutationPlan : Type := mkFilesystemMutationPlan {
  plan_version : N;
  plan_journal_id : string;
  plan_kind : FilesystemMutationKind;
  plan_target : string;
  plan_stage_directory : string;
  plan_candidate : option string;
  plan_backup_path : option string;
  plan_target_existed : bool;
  plan_candidate_sha256 : option string;
  plan_writes : list FilesystemWritePlan;
  plan_playlists : list ImportPlaylistPlan
}.

(** The derived [serde] form of a plan. *)
Class PlanCodec : Type := {
  plan_to_value : FilesystemMutationPlan -> result string JsonValue;
  plan_from_value : JsonValue -> result string FilesystemMutationPlan
}.
Class PlanCodecSpec `{PlanCodec} : Prop := {
  plan_from_to_value plan value : plan_to_value plan = Ok value -> plan_from_value value = Ok plan
}.

(* ------------------------------------------------------------------ *)
(** ** Paths *)

(** [s.strip_suffix(suffix)] *)
Definition strip_suffix (suffix s : string) : option string :=
  let kept := (String.length s - String.length suffix)%nat in
  if (String.length suffix <=? String.length s)%nat
     && String.eqb (String.substring kept (String.length suffix) s) suffix
  then Some (String.substring 0 kept s) else None.

Definition validated_relative_components (relative : string) : result FsError FsPath :=
  if String.eqb relative "" || (MAX_PLAN_PATH_CHARS <? chars_count relative)%nat
  then Err (Fs_failed "mode plan path is invalid")
  else
    match normal_components relative with
    | Some components =>
        if existsb (contains_char backslash) components
        then Err (Fs_failed "mode plan path is invalid") else Ok components
    | None => Err (Fs_failed "mode plan path is invalid")
    end.

Definition rooted_target (relative : string) : result FsError FsPath :=
  components ← validated_relative_components relative;
  let valid := match components with
    | [mode_id] => valid_slug mode_id
    | [mode_id; file] => valid_slug mode_id && String.eqb file "manifest.yaml"
    | [mode_id; directory; file] =>
        valid_slug mode_id
        && existsb (String.eqb directory) ["soundboards"; "cues"; "presets"]
        && option_is_some_and (strip_suffix ".yaml" file) valid_slug
    | _ => false
    end in
  if valid then Ok components else Err (Fs_failed "mode target path is invalid").

Definition rooted_artifact (relative journal_id : string) : result FsError FsPath :=
  components ← validated_relative_components relative;
  match components with
  | staging :: journal :: rest =>
      if negb (String.eqb staging STAGING_DIRECTORY) || negb (String.eqb journal journal_id)
         || (1 <? length rest)%nat
      then Err (Fs_failed "mode artifact path is invalid") else Ok components
  | _ => Err (Fs_failed "mode artifact path is invalid")
  end.

Section Effects.
Context `{PlanCodec, Sha256}.

(** [option.as_deref().ok_or_else(..)] followed by [rooted_artifact] *)
Definition required_artifact (detail : string) (relative : option string) (journal_id : string)
    : fs FsPath :=
  relative ← try (ok_or (Fs_failed detail) relative);
  try (rooted_artifact relative journal_id).

Definition plan_candidate_from_plan (plan : FilesystemMutationPlan) : fs FsPath :=
  required_artifact "mode candidate is missing from the plan" (plan_candidate plan)
    (plan_journal_id plan).

Definition decode_plan (journal : RecoveryJournalEntry) : fs FilesystemMutationPlan :=
  if negb (bool_decide (entry_domain journal = Domain_Modes))
  then throw (Fs_failed "recovery journal has the wrong domain")
  else
    plan ← try (map_err (fun _ => Fs_failed "mode recovery plan is invalid")
                  (plan_from_value (entry_plan journal)));
    if negb (plan_version plan =? PLAN_VERSION)
       || negb (String.eqb (plan_journal_id plan) (journal_id_text (entry_id journal)))
       || negb (String.eqb (plan_stage_directory plan)
                  (STAGING_DIRECTORY +:+ "/" +:+ journal_id_text (entry_id journal)))
    then throw (Fs_failed "mode recovery plan identity is invalid")
    else mret plan.

(** [plan_candidate] and [plan_backup] of the source, by the journal's id *)
Definition journal_candidate (plan : FilesystemMutationPlan) (journal : RecoveryJournalEntry) : fs FsPath :=
  required_artifact "mode candidate is missing from the plan" (plan_candidate plan)
    (journal_id_text (entry_id journal)).
Definition journal_backup (plan : FilesystemMutationPlan) (journal : RecoveryJournalEntry) : fs FsPath :=
  required_artifact "mode backup is missing from the plan" (plan_backup_path plan)
    (journal_id_text (entry_id journal)).

(* ------------------------------------------------------------------ *)
(** ** Small file operations *)

Definition write_synced (path : FsPath) (content : string) : fs () :=
  _ ← fs_create_new "mode candidate file could not be created" path;
  fs_write_all "mode candidate file could not be synced" path content.

Definition sha256_file (path : FsPath) : fs string :=
  content ← fs_read "mode document could not be hashed" path;
  mret (sha256_hex content).

Definition mode_marker_matches (mode_directory : FsPath) (journal_id : string) : fs bool :=
  t ← gets fs_tree;
  if negb (fs_exists (mode_directory ++ [MODE_MARKER]) t) then mret false
  else
    value ← fs_read "mode publication marker could not be read" (mode_directory ++ [MODE_MARKER]);
    mret (String.eqb value journal_id).

Definition regular_file_exists (path : FsPath) : fs bool :=
  t ← gets fs_tree;
  match fs_node path t with
  | Some (FsFile _) => mret true
  | Some FsDirectory => throw (Fs_failed "mode document target is unsafe")
  | None => mret false
  end.

Definition ensure_mode_target_absent (mode_id : string) : fs () :=
  target ← try (rooted_target mode_id);
  t ← gets fs_tree;
  if fs_exists target t then throw (Fs_failed "mode already exists") else mret ().

Definition ensure_mode_target (mode_id : string) : fs () :=
  target ← try (rooted_target mode_id);
  t ← gets fs_tree;
  match fs_node target t with
  | None => throw (Fs_failed "mode does not exist")
  | Some (FsFile _) => throw (Fs_failed "mode target is unsafe")
  | Some FsDirectory => mret ()
  end.

Definition ensure_document_parent (target : FsPath) : fs () :=
  let parent := removelast target in
  t ← gets fs_tree;
  match fs_node parent t with
  | Some FsDirectory => mret ()
  | Some (FsFile _) => throw (Fs_failed "mode document parent is unsafe")
  | None =>
      if negb (fs_is_dir (removelast parent) t)
      then throw (Fs_failed "mode directory is unavailable")
      else fs_create_dir "mode document parent could not be created" parent
  end.

Definition restore_backup (backup target : FsPath) : fs () :=
  t ← gets fs_tree;
  if fs_exists backup t then
    if fs_exists target t then throw (Fs_failed "mode target was recreated before rollback")
    else fs_rename "mode backup could not be restored" backup target
  else mret ().

Definition remove_stage (plan : FilesystemMutationPlan) (journal_id : string) : fs () :=
  stage ← try (rooted_artifact (plan_stage_directory plan) journal_id);
  t ← gets fs_tree;
  _ ← (if fs_exists stage t
       then fs_remove_dir_all "mode mutation staging could not be removed" stage else mret ());
  ignore_failure (fs_remove_dir "" [STAGING_DIRECTORY]).

(* ------------------------------------------------------------------ *)
(** ** Applying *)

(** Replacing a document: the old one becomes the backup, the candidate takes
    its place. *)
Definition apply_replacement (plan : FilesystemMutationPlan) (candidate target : FsPath)
    (expected_hash : string) : fs () :=
  backup ← required_artifact "mode backup is missing from the plan" (plan_backup_path plan)
             (plan_journal_id plan);
  t ← gets fs_tree;
  _ ← (if negb (fs_exists backup t) then
         if negb (fs_is_file target t) then throw (Fs_failed "mode replacement target disappeared")
         else fs_rename "mode replacement backup could not be created" target backup
       else mret ());
  t ← gets fs_tree;
  _ ← (if fs_exists candidate t then
         if fs_exists target t then throw (Fs_failed "mode replacement target is occupied")
         else fs_rename "mode replacement could not be published" candidate target
       else mret ());
  hash ← sha256_file target;
  if negb (String.eqb hash expected_hash)
  then throw (Fs_failed "published mode document hash differs") else mret ().

(** Creating a document: the candidate is linked to its place, then released. *)
Definition apply_creation (candidate target : FsPath) (expected_hash : string) : fs () :=
  _ ← ensure_document_parent target;
  t ← gets fs_tree;
  if fs_exists target t then
    hash ← sha256_file target;
    if negb (String.eqb hash expected_hash) then throw (Fs_failed "mode create target is occupied")
    else
      t ← gets fs_tree;
      if fs_exists candidate t
      then fs_remove_file "mode candidate link could not be released" candidate else mret ()
  else
    _ ← fs_hard_link "mode document could not be published without clobbering" candidate target;
    fs_remove_file "mode candidate link could not be released" candidate.

Definition apply_file_write (plan : FilesystemMutationPlan) (target : FsPath) : fs () :=
  candidate ← plan_candidate_from_plan plan;
  expected_hash ← try (ok_or (Fs_failed "mode candidate hash is missing from the plan")
                         (plan_candidate_sha256 plan));
  if plan_target_existed plan then apply_replacement plan candidate target expected_hash
  else apply_creation candidate target expected_hash.

(** Deleting a document or a mode: it becomes the backup. *)
Definition apply_deletion (backup target : FsPath) (detail : string) : fs () :=
  t ← gets fs_tree;
  if fs_exists backup t then
    if fs_exists target t then throw (Fs_failed "mode delete has both target and backup") else mret ()
  else fs_rename detail target backup.

Definition import_write_plan (batch : FilesystemMutationPlan) (write : FilesystemWritePlan)
    : FilesystemMutationPlan :=
  mkFilesystemMutationPlan (plan_version batch) (plan_journal_id batch) Kind_WriteFile (write_target write)
    (plan_stage_directory batch) (Some (write_candidate write)) (write_backup write)
    (write_target_existed write) (Some (write_candidate_sha256 write)) [] [].

Fixpoint apply_writes (plan : FilesystemMutationPlan) (writes : list FilesystemWritePlan) : fs () :=
  match writes with
  | [] => mret ()
  | write :: writes =>
      target ← try (rooted_target (write_target write));
      _ ← apply_file_write (import_write_plan plan write) target;
      apply_writes plan writes
  end.

Definition fs_apply (journal : RecoveryJournalEntry) : fs () :=
  plan ← decode_plan journal;
  target ← try (rooted_target (plan_target plan));
  _ ← try (rooted_artifact (plan_stage_directory plan) (journal_id_text (entry_id journal)));
  match plan_kind plan with
  | Kind_WriteFile => apply_file_write plan target
  | Kind_DeleteFile =>
      backup ← journal_backup plan journal;
      apply_deletion backup target "mode document could not be staged for deletion"
  | Kind_CreateMode =>
      candidate ← journal_candidate plan journal;
      t ← gets fs_tree;
      if fs_exists target t then
        matches ← mode_marker_matches target (journal_id_text (entry_id journal));
        if matches : bool then mret () else throw (Fs_failed "mode create target is occupied")
      else fs_rename "mode could not be published" candidate target
  | Kind_DeleteMode =>
      backup ← journal_backup plan journal;
      apply_deletion backup target "mode could not be staged for deletion"
  | Kind_ImportResources => apply_writes plan (plan_writes plan)
  end.

(* ------------------------------------------------------------------ *)
(** ** Rolling back *)

Definition rollback_file_write (plan : FilesystemMutationPlan) (target : FsPath) : fs () :=
  if plan_target_existed plan then
    backup ← required_artifact "mode backup is missing from the plan" (plan_backup_path plan)
               (plan_journal_id plan);
    t ← gets fs_tree;
    if fs_exists backup t then
      _ ← (if fs_exists target t then
             expected_hash ← try (ok_or (Fs_failed "mode candidate hash is missing from the plan")
                                    (plan_candidate_sha256 plan));
             hash ← sha256_file target;
             if negb (String.eqb hash expected_hash)
             then throw (Fs_failed "mode document changed before rollback")
             else fs_remove_file "mode replacement could not be removed" target
           else mret ());
      fs_rename "mode backup could not be restored" backup target
    else mret ()
  else
    t ← gets fs_tree;
    if fs_exists target t then
      candidate ← plan_candidate_from_plan plan;
      t ← gets fs_tree;
      if fs_exists candidate t then mret ()
      else
        expected_hash ← try (ok_or (Fs_failed "mode candidate hash is missing from the plan")
                               (plan_candidate_sha256 plan));
        hash ← sha256_file target;
        if negb (String.eqb hash expected_hash)
        then throw (Fs_failed "created mode document changed before rollback")
        else fs_remove_file "created mode document could not be rolled back" target
    else mret ().

Fixpoint rollback_writes (plan : FilesystemMutationPlan) (writes : list FilesystemWritePlan) : fs () :=
  match writes with
  | [] => mret ()
  | write :: writes =>
      target ← try (rooted_target (write_target write));
      _ ← rollback_file_write (import_write_plan plan write) target;
      rollback_writes plan writes
  end.

Definition fs_rollback (journal : RecoveryJournalEntry) : fs () :=
  plan ← decode_plan journal;
  target ← try (rooted_target (plan_target plan));
  _ ← match plan_kind plan with
      | Kind_WriteFile => rollback_file_write plan target
      | Kind_DeleteFile | Kind_DeleteMode =>
          backup ← journal_backup plan journal;
          restore_backup backup target
      | Kind_CreateMode =>
          t ← gets fs_tree;
          if fs_exists target t then
            matches ← mode_marker_matches target (journal_id_text (entry_id journal));
            if negb matches then throw (Fs_failed "created mode changed before rollback")
            else fs_remove_dir_all "created mode could not be rolled back" target
          else mret ()
      | Kind_ImportResources => rollback_writes plan (rev (plan_writes plan))
      end;
  remove_stage plan (journal_id_text (entry_id journal)).

Definition fs_finish (journal : RecoveryJournalEntry) : fs () :=
  plan ← decode_plan journal;
  _ ← match plan_kind plan with
      | Kind_CreateMode =>
          target ← try (rooted_target (plan_target plan));
          t ← gets fs_tree;
          if fs_exists (target ++ [MODE_MARKER]) t
          then fs_remove_file "mode publication marker could not be removed" (target ++ [MODE_MARKER])
          else mret ()
      | _ => mret ()
      end;
  remove_stage plan (journal_id_text (entry_id journal)).

Definition fs_cleanup_orphans : fs () :=
  t ← gets fs_tree;
  match fs_node [STAGING_DIRECTORY] t with
  | None => mret ()
  | Some (FsFile _) => throw (Fs_failed "mode staging root is unsafe")
  | Some FsDirectory => fs_remove_dir_all "mode staging root could not be cleaned" [STAGING_DIRECTORY]
  end.

(* ------------------------------------------------------------------ *)
(** ** Preparing *)

Definition dependency_error {A E} (detail : string) (r : result E A) : fs A :=
  try (map_err (fun _ => Fs_failed detail) r).

Definition prepare_stage_directory (stage : FsPath) : fs () :=
  t ← gets fs_tree;
  _ ← match fs_node [STAGING_DIRECTORY] t with
      | Some (FsFile _) => throw (Fs_failed "mode staging root is unsafe")
      | Some FsDirectory => mret ()
      | None => fs_create_dir "mode staging root could not be created" [STAGING_DIRECTORY]
      end;
  fs_create_dir "mode staging directory already exists" stage.

(** A write or a creation whose target must not, or must, be there already. *)
Definition require_target (create_only target_existed : bool) (exists_detail absent_detail : string) : fs () :=
  if create_only && target_existed then throw (Fs_failed exists_detail)
  else if negb create_only && negb target_existed then throw (Fs_failed absent_detail)
  else mret ().

Definition delete_plan (journal_id : RecoveryJournalId) (kind : FilesystemMutationKind)
    (target stage_relative : string) : FilesystemMutationPlan := {|
  plan_version := PLAN_VERSION;
  plan_journal_id := journal_id_text journal_id;
  plan_kind := kind;
  plan_target := target;
  plan_stage_directory := stage_relative;
  plan_candidate := None;
  plan_backup_path := Some (stage_relative +:+ "/backup");
  plan_target_existed := true;
  plan_candidate_sha256 := None;
  plan_writes := [];
  plan_playlists := [] |}.

Record Staging : Type := mkStaging {
  staging_stage : FsPath;
  staging_relative : string;
  staging_journal_id : RecoveryJournalId
}.

Definition prepare_file_write (staging : Staging) (target content : string) (create_only : bool)
    : fs FilesystemMutationPlan :=
  target_path ← try (rooted_target target);
  target_existed ← regular_file_exists target_path;
  _ ← require_target create_only target_existed "mode document already exists" "mode document does not exist";
  let candidate := staging_stage staging ++ ["candidate.yaml"] in
  _ ← write_synced candidate content;
  candidate_sha256 ← sha256_file candidate;
  mret {|
    plan_version := PLAN_VERSION;
    plan_journal_id := journal_id_text (staging_journal_id staging);
    plan_kind := Kind_WriteFile;
    plan_target := target;
    plan_stage_directory := staging_relative staging;
    plan_candidate := Some (staging_relative staging +:+ "/candidate.yaml");
    plan_backup_path := if target_existed : bool then Some (staging_relative staging +:+ "/backup.yaml") else None;
    plan_target_existed := target_existed;
    plan_candidate_sha256 := Some candidate_sha256;
    plan_writes := [];
    plan_playlists := [] |}.

Definition prepare_file_delete (staging : Staging) (target : string) : fs FilesystemMutationPlan :=
  target_path ← try (rooted_target target);
  exists_ ← regular_file_exists target_path;
  if negb exists_ then throw (Fs_failed "mode document does not exist")
  else mret (delete_plan (staging_journal_id staging) Kind_DeleteFile target (staging_relative staging)).

Definition stage_import_write (staging : Staging) (index : nat) (target content : string)
    (create_only : bool) : fs FilesystemWritePlan :=
  target_path ← try (rooted_target target);
  target_existed ← regular_file_exists target_path;
  _ ← require_target create_only target_existed "mode import target already exists"
        "mode import target does not exist";
  let candidate_name := "candidate-" +:+ pretty index +:+ ".yaml" in
  let candidate := staging_stage staging ++ [candidate_name] in
  _ ← write_synced candidate content;
  candidate_sha256 ← sha256_file candidate;
  mret {|
    write_target := target;
    write_candidate := staging_relative staging +:+ "/" +:+ candidate_name;
    write_backup := if target_existed : bool
      then Some (staging_relative staging +:+ "/backup-" +:+ pretty index +:+ ".yaml") else None;
    write_target_existed := target_existed;
    write_candidate_sha256 := candidate_sha256 |}.

(** One document of an import: its target, its text, whether it must be new. *)
Definition ImportDocument : Type := (string * string * bool)%type.

Fixpoint stage_import_writes (staging : Staging) (index : nat) (documents : list ImportDocument)
    : fs (list FilesystemWritePlan) :=
  match documents with
  | [] => mret []
  | (target, content, create_only) :: documents =>
      write ← stage_import_write staging index target content create_only;
      writes ← stage_import_writes staging (S index) documents;
      mret (write :: writes)
  end.

Section Preparing.
Context `{YamlText ModeDocument, YamlText SoundboardDocument, YamlText CueDocument, YamlText PresetDocument}.

Definition document_path (mode_id directory id : string) : string :=
  mode_id +:+ "/" +:+ directory +:+ "/" +:+ id +:+ ".yaml".
Definition manifest_path (mode_id : string) : string := mode_id +:+ "/manifest.yaml".

(** [for (id, document) in documents { ..push((.., serialize_document(document)?, true)); }] *)
Definition import_documents {document} `{YamlText document} (detail mode_id directory : string)
    (documents : gmap string document) : result FsError (list ImportDocument) :=
  result_collect (fun entry : string * document =>
      text ← map_err (fun _ => Fs_failed detail) (serialize_document entry.2);
      Ok (document_path mode_id directory entry.1, text, true))
    (sorted_entries string_leb documents).

Definition prepare_import_resources (staging : Staging) (mode_id : string) (manifest : ModeDocument)
    (soundboards : gmap string SoundboardDocument) (cues : gmap string CueDocument)
    (presets : gmap string PresetDocument) (playlists : list ModeImportPlaylist)
    : fs FilesystemMutationPlan :=
  _ ← ensure_mode_target mode_id;
  manifest_text ← dependency_error "mode manifest could not be serialized" (serialize_document manifest);
  soundboard_documents ← try (import_documents "soundboard could not be serialized" mode_id "soundboards" soundboards);
  cue_documents ← try (import_documents "cue could not be serialized" mode_id "cues" cues);
  preset_documents ← try (import_documents "preset could not be serialized" mode_id "presets" presets);
  writes ← stage_import_writes staging 0
    ((manifest_path mode_id, manifest_text, false)
     :: soundboard_documents ++ cue_documents ++ preset_documents);
  mret {|
    plan_version := PLAN_VERSION;
    plan_journal_id := journal_id_text (staging_journal_id staging);
    plan_kind := Kind_ImportResources;
    plan_target := mode_id;
    plan_stage_directory := staging_relative staging;
    plan_candidate := None;
    plan_backup_path := None;
    plan_target_existed := true;
    plan_candidate_sha256 := None;
    plan_writes := writes;
    plan_playlists := (fun playlist =>
      mkImportPlaylistPlan (import_playlist_name playlist) (import_playlist_category playlist)
        (TrackId_get <$> import_playlist_track_ids playlist)) <$> playlists |}.

(** The staged directory of a new mode. *)
Definition stage_mode (staging : Staging) (manifest : ModeDocument) : fs FilesystemMutationPlan :=
  let target := manifest_id manifest in
  let candidate := staging_stage staging ++ ["candidate"] in
  _ ← ensure_mode_target_absent target;
  _ ← fs_create_dir "mode candidate could not be created" candidate;
  _ ← fs_create_dir "soundboard directory could not be staged" (candidate ++ ["soundboards"]);
  _ ← fs_create_dir "cue directory could not be staged" (candidate ++ ["cues"]);
  _ ← fs_create_dir "preset directory could not be staged" (candidate ++ ["presets"]);
  manifest_text ← dependency_error "mode manifest could not be serialized" (serialize_document manifest);
  _ ← write_synced (candidate ++ ["manifest.yaml"]) manifest_text;
  _ ← write_synced (candidate ++ [MODE_MARKER]) (journal_id_text (staging_journal_id staging));
  mret {|
    plan_version := PLAN_VERSION;
    plan_journal_id := journal_id_text (staging_journal_id staging);
    plan_kind := Kind_CreateMode;
    plan_target := target;
    plan_stage_directory := staging_relative staging;
    plan_candidate := Some (staging_relative staging +:+ "/candidate");
    plan_backup_path := None;
    plan_target_existed := false;
    plan_candidate_sha256 := None;
    plan_writes := [];
    plan_playlists := [] |}.

Definition prepare_document {document} `{YamlText document} (staging : Staging) (detail target : string)
    (value : document) (create_only : bool) : fs FilesystemMutationPlan :=
  text ← dependency_error detail (serialize_document value);
  prepare_file_write staging target text create_only.

Definition prepare_plan (staging : Staging) (mutation : ModeMutation) : fs (string * FilesystemMutationPlan) :=
  match mutation with
  | CreateMode _ manifest => plan ← stage_mode staging manifest; mret ("create_mode", plan)
  | DeleteMode _ mode_id =>
      _ ← ensure_mode_target mode_id;
      mret ("delete_mode",
        delete_plan (staging_journal_id staging) Kind_DeleteMode mode_id (staging_relative staging))
  | PutManifest _ mode_id manifest =>
      plan ← prepare_document staging "mode manifest could not be serialized"
               (manifest_path mode_id) manifest false;
      mret ("write_manifest", plan)
  | PutSoundboard _ mode_id soundboard_id document create_only =>
      plan ← prepare_document staging "soundboard could not be serialized"
               (document_path mode_id "soundboards" soundboard_id) document create_only;
      mret ("write_soundboard", plan)
  | DeleteSoundboard _ mode_id soundboard_id =>
      plan ← prepare_file_delete staging (document_path mode_id "soundboards" soundboard_id);
      mret ("delete_soundboard", plan)
  | PutCue _ mode_id cue_id document create_only =>
      plan ← prepare_document staging "cue could not be serialized"
               (document_path mode_id "cues" cue_id) document create_only;
      mret ("write_cue", plan)
  | DeleteCue _ mode_id cue_id =>
      plan ← prepare_file_delete staging (document_path mode_id "cues" cue_id);
      mret ("delete_cue", plan)
  | PutPreset _ mode_id preset_id document create_only =>
      plan ← prepare_document staging "preset could not be serialized"
               (document_path mode_id "presets" preset_id) document create_only;
      mret ("write_preset", plan)
  | DeletePreset _ mode_id preset_id =>
      plan ← prepare_file_delete staging (document_path mode_id "presets" preset_id);
      mret ("delete_preset", plan)
  | ImportResources _ mode_id manifest soundboards cues presets playlists =>
      plan ← prepare_import_resources staging mode_id manifest soundboards cues presets playlists;
      mret ("import_mode_resources", plan)
  end.

Definition prepare_inner (staging : Staging) (mutation : ModeMutation) : fs PreparedModeMutation :=
  '(operation, plan) ← prepare_plan staging mutation;
  operation ← dependency_error "mode operation is invalid" (RecoveryOperation_parse operation);
  value ← dependency_error "mode plan could not be encoded" (plan_to_value plan);
  mret (mkPreparedModeMutation operation value).

Definition stage_relative_of (journal_id : RecoveryJournalId) : string :=
  STAGING_DIRECTORY +:+ "/" +:+ journal_id_text journal_id.

(** What a refused preparation leaves behind is removed as far as it can be. *)
Definition fs_prepare (journal_id : RecoveryJournalId) (mutation : ModeMutation) : fs PreparedModeMutation :=
  stage ← try (rooted_artifact (stage_relative_of journal_id) (journal_id_text journal_id));
  _ ← prepare_stage_directory stage;
  prepared ← attempt (prepare_inner (mkStaging stage (stage_relative_of journal_id) journal_id) mutation);
  match prepared with
  | Ok prepared => mret prepared
  | Err detail =>
      _ ← ignore_failure (fs_remove_dir_all "" stage);
      _ ← ignore_failure (fs_remove_dir "" [STAGING_DIRECTORY]);
      throw (Fs_failed detail)
  end.
End Preparing.

(** The error the coordinator sees: a target that appeared is a conflict. *)
Definition mode_dependency (detail : string) : string + ModeMutationError :=
  if existsb (String.eqb detail)
       ["mode import target already exists"; "mode document already exists";
        "mode create target is occupied"; "mode replacement target is occupied"]
  then inr (mkModeMutationError Mode_Conflict "target resource appeared during import")
  else inl detail.
End Effects.
