(* ===== verification/ModeKeeps.v ===== *)
(** * What the mode programs keep

    Loading changes nothing; preparing, applying, rolling back, finishing and
    cleaning up keep the tree well-formed. *)

From S2P Require Import Prelude Text MediaPath Filesystem RecoveryJournal Modes ModeYaml.
From S2P Require Import ModeFiles.

Section Loading.
Context `{YamlText ModeDocument, YamlText SoundboardDocument, YamlText CueDocument, YamlText PresetDocument}.
Variable P : FsTree -> Prop.

Lemma keeps_parsed {A} (r : result YamlDocumentError A) : fs_keeps P (parsed r).
Proof. unfold parsed. fs_keeps. Qed.
Lemma keeps_read_document path label : fs_keeps P (read_document path label).
Proof. unfold read_document. fs_keeps. Qed.
#[local] Hint Resolve keeps_parsed keeps_read_document : fs_keeps.

Lemma keeps_load_document {document} directory kind (parse : string -> string -> result YamlDocumentError document) documents name :
  fs_keeps P (load_document directory kind parse documents name).
Proof. unfold load_document. fs_keeps. Qed.
#[local] Hint Resolve keeps_load_document : fs_keeps.
Lemma keeps_load_each {document} directory kind (parse : string -> string -> result YamlDocumentError document) names documents :
  fs_keeps P (load_each directory kind parse documents names).
Proof. revert documents. induction names; intros documents; cbn [load_each]; fs_keeps. Qed.
#[local] Hint Resolve keeps_load_each : fs_keeps.
Lemma keeps_load_documents {document} directory kind (parse : string -> string -> result YamlDocumentError document) :
  fs_keeps P (load_documents directory kind parse).
Proof. unfold load_documents. fs_keeps. Qed.
Lemma keeps_read_theme mode_root relative : fs_keeps P (read_theme mode_root relative).
Proof. unfold read_theme. fs_keeps. Qed.
#[local] Hint Resolve keeps_load_documents keeps_read_theme : fs_keeps.
Lemma keeps_load_mode path mode_id : fs_keeps P (load_mode path mode_id).
Proof. unfold load_mode. fs_keeps. Qed.
#[local] Hint Resolve keeps_load_mode : fs_keeps.
Lemma keeps_load_entries entries index directories loaded : fs_keeps P (load_entries index directories entries loaded).
Proof.
  revert index directories loaded. induction entries; intros; cbn [load_entries]; fs_keeps.
Qed.
#[local] Hint Resolve keeps_load_entries : fs_keeps.
Lemma keeps_load_catalog : fs_keeps P load_catalog.
Proof. unfold load_catalog. fs_keeps. Qed.
End Loading.

Section Effects.
Context `{PlanCodec, Sha256}.
Notation wf m := (fs_keeps tree_wf m) (only parsing).

Lemma wf_decode_plan journal : wf (decode_plan journal).
Proof. unfold decode_plan. fs_keeps. Qed.
Lemma wf_required_artifact detail relative journal_id : wf (required_artifact detail relative journal_id).
Proof. unfold required_artifact. fs_keeps. Qed.
#[local] Hint Resolve wf_decode_plan wf_required_artifact : fs_keeps.
Lemma wf_candidate_from_plan plan : wf (plan_candidate_from_plan plan).
Proof. apply wf_required_artifact. Qed.
Lemma wf_journal_candidate plan journal : wf (journal_candidate plan journal).
Proof. apply wf_required_artifact. Qed.
Lemma wf_journal_backup plan journal : wf (journal_backup plan journal).
Proof. apply wf_required_artifact. Qed.
Lemma wf_write_synced path content : wf (write_synced path content).
Proof. unfold write_synced. fs_keeps. Qed.
Lemma wf_sha256_file path : wf (sha256_file path).
Proof. unfold sha256_file. fs_keeps. Qed.
Lemma wf_marker mode_directory journal_id : wf (mode_marker_matches mode_directory journal_id).
Proof. unfold mode_marker_matches. fs_keeps. Qed.
Lemma wf_regular_file path : wf (regular_file_exists path).
Proof. unfold regular_file_exists. fs_keeps. Qed.
Lemma wf_target_absent mode_id : wf (ensure_mode_target_absent mode_id).
Proof. unfold ensure_mode_target_absent. fs_keeps. Qed.
Lemma wf_target mode_id : wf (ensure_mode_target mode_id).
Proof. unfold ensure_mode_target. fs_keeps. Qed.
Lemma wf_document_parent target : wf (ensure_document_parent target).
Proof. unfold ensure_document_parent. fs_keeps. Qed.
Lemma wf_restore_backup backup target : wf (restore_backup backup target).
Proof. unfold restore_backup. fs_keeps. Qed.
Lemma wf_remove_stage plan journal_id : wf (remove_stage plan journal_id).
Proof. unfold remove_stage. fs_keeps. Qed.
Lemma wf_apply_deletion backup target detail : wf (apply_deletion backup target detail).
Proof. unfold apply_deletion. fs_keeps. Qed.
#[local] Hint Resolve wf_candidate_from_plan wf_journal_candidate wf_journal_backup wf_write_synced wf_sha256_file
  wf_marker wf_regular_file wf_target_absent wf_target wf_document_parent wf_restore_backup wf_remove_stage
  wf_apply_deletion : fs_keeps.

Lemma wf_apply_replacement plan candidate target hash : wf (apply_replacement plan candidate target hash).
Proof. unfold apply_replacement. fs_keeps. Qed.
Lemma wf_apply_creation candidate target hash : wf (apply_creation candidate target hash).
Proof. unfold apply_creation. fs_keeps. Qed.
#[local] Hint Resolve wf_apply_replacement wf_apply_creation : fs_keeps.
Lemma wf_apply_file_write plan target : wf (apply_file_write plan target).
Proof. unfold apply_file_write. fs_keeps. Qed.
#[local] Hint Resolve wf_apply_file_write : fs_keeps.
Lemma wf_apply_writes plan writes : wf (apply_writes plan writes).
Proof. induction writes; cbn [apply_writes]; fs_keeps. Qed.
#[local] Hint Resolve wf_apply_writes : fs_keeps.
Lemma wf_apply journal : wf (fs_apply journal).
Proof. unfold fs_apply. fs_keeps. Qed.

Lemma wf_rollback_file_write plan target : wf (rollback_file_write plan target).
Proof. unfold rollback_file_write. fs_keeps. Qed.
#[local] Hint Resolve wf_rollback_file_write : fs_keeps.
Lemma wf_rollback_writes plan writes : wf (rollback_writes plan writes).
Proof. induction writes; cbn [rollback_writes]; fs_keeps. Qed.
#[local] Hint Resolve wf_rollback_writes : fs_keeps.
Lemma wf_rollback journal : wf (fs_rollback journal).
Proof. unfold fs_rollback. fs_keeps. Qed.
Lemma wf_finish journal : wf (fs_finish journal).
Proof. unfold fs_finish. fs_keeps. Qed.
Lemma wf_cleanup : wf fs_cleanup_orphans.
Proof. unfold fs_cleanup_orphans. fs_keeps. Qed.

Lemma wf_stage_directory stage : wf (prepare_stage_directory stage).
Proof. unfold prepare_stage_directory. fs_keeps. Qed.
Lemma wf_require_target create_only existed detail detail' : wf (require_target create_only existed detail detail').
Proof. unfold require_target. fs_keeps. Qed.
Lemma wf_dependency_error {A E} detail (r : result E A) : wf (dependency_error detail r).
Proof. unfold dependency_error. fs_keeps. Qed.
#[local] Hint Resolve wf_stage_directory wf_require_target wf_dependency_error : fs_keeps.
Lemma wf_prepare_file_write staging target content create_only : wf (prepare_file_write staging target content create_only).
Proof. unfold prepare_file_write. fs_keeps. Qed.
Lemma wf_prepare_file_delete staging target : wf (prepare_file_delete staging target).
Proof. unfold prepare_file_delete. fs_keeps. Qed.
Lemma wf_import_write staging index target content create_only : wf (stage_import_write staging index target content create_only).
Proof. unfold stage_import_write. fs_keeps. Qed.
#[local] Hint Resolve wf_prepare_file_write wf_prepare_file_delete wf_import_write : fs_keeps.
Lemma wf_import_writes staging documents index : wf (stage_import_writes staging index documents).
Proof. revert index. induction documents; intros index; cbn [stage_import_writes]; fs_keeps. Qed.
#[local] Hint Resolve wf_import_writes : fs_keeps.

Section Preparing.
Context `{YamlText ModeDocument, YamlText SoundboardDocument, YamlText CueDocument, YamlText PresetDocument}.
Lemma wf_prepare_import staging mode_id manifest soundboards cues presets playlists :
  wf (prepare_import_resources staging mode_id manifest soundboards cues presets playlists).
Proof. unfold prepare_import_resources. fs_keeps. Qed.
Lemma wf_stage_mode staging manifest : wf (stage_mode staging manifest).
Proof. unfold stage_mode. fs_keeps. Qed.
Lemma wf_prepare_document {document} `{YamlText document} staging detail target (value : document) create_only :
  wf (prepare_document staging detail target value create_only).
Proof. unfold prepare_document. fs_keeps. Qed.
#[local] Hint Resolve wf_prepare_import wf_stage_mode wf_prepare_document : fs_keeps.
Lemma wf_prepare_plan staging mutation : wf (prepare_plan staging mutation).
Proof. unfold prepare_plan. fs_keeps. Qed.
#[local] Hint Resolve wf_prepare_plan : fs_keeps.
Lemma wf_prepare_inner staging mutation : wf (prepare_inner staging mutation).
Proof. unfold prepare_inner. fs_keeps. Qed.
#[local] Hint Resolve wf_prepare_inner : fs_keeps.
Lemma wf_prepare journal_id mutation : wf (fs_prepare journal_id mutation).
Proof. unfold fs_prepare. fs_keeps. Qed.
End Preparing.
End Effects.

(* ------------------------------------------------------------------ *)
(** * Paths of a mutation *)

#[local] Open Scope string_scope.
#[local] Open Scope list_scope.

(** An id as [RecoveryJournalId::parse] accepts it. *)
Definition journal_id_valid (id : RecoveryJournalId) : Prop :=
  RecoveryJournalId_parse (journal_id_text id) = Ok id.

(** The staging directory of one journal. *)
Definition stage_path (id : RecoveryJournalId) : FsPath := [STAGING_DIRECTORY; journal_id_text id].

Definition plain_name (name : string) : bool :=
  negb (String.eqb name "") && negb (String.eqb name ".") && negb (String.eqb name "..")
  && negb (contains_char slash name) && negb (contains_char backslash name).

Lemma chars_count_length s : (chars_count s <= String.length s)%nat.
Proof. induction s as [|a s IH]; cbn; [lia|]. destruct (is_continuation a); lia. Qed.

Lemma all_bytes_impl (p q : Ascii.ascii -> bool) s :
  (forall a, p a = true -> q a = true) -> all_bytes p s = true -> all_bytes q s = true.
Proof.
  intros Himpl. induction s as [|a s IH]; cbn; [done|]. intros [Ha Hs]%andb_true_iff.
  by rewrite (Himpl _ Ha), IH.
Qed.

Lemma all_bytes_free (p : Ascii.ascii -> bool) c s :
  p c = false -> all_bytes p s = true -> contains_char c s = false.
Proof.
  intros Hc. induction s as [|a s IH]; cbn; [done|]. intros [Ha Hs]%andb_true_iff.
  rewrite (IH Hs), orb_false_r. destruct (Ascii.eqb_spec a c) as [->|]; congruence.
Qed.

Lemma journal_id_plain id : journal_id_valid id ->
  String.length (journal_id_text id) = JOURNAL_ID_LENGTH /\ plain_name (journal_id_text id) = true.
Proof.
  unfold journal_id_valid, RecoveryJournalId_parse. destruct (_ || _) eqn:Hbad; [done|]. intros _.
  apply orb_false_iff in Hbad as [Hlen Hbytes].
  apply negb_false_iff, Nat.eqb_eq in Hlen. apply negb_false_iff in Hbytes. split; [done|].
  unfold plain_name. rewrite (all_bytes_free _ slash _ eq_refl Hbytes).
  rewrite (all_bytes_free _ backslash _ eq_refl Hbytes).
  destruct (String.eqb_spec (journal_id_text id) "") as [H|]; [by rewrite H in Hlen|].
  destruct (String.eqb_spec (journal_id_text id) ".") as [H|]; [by rewrite H in Hlen|].
  by destruct (String.eqb_spec (journal_id_text id) "..") as [H|]; [rewrite H in Hlen|].
Qed.

Lemma plain_name_inv name : plain_name name = true ->
  name <> "" /\ name <> "." /\ name <> ".." /\ contains_char slash name = false /\ contains_char backslash name = false.
Proof.
  unfold plain_name. rewrite !andb_true_iff, !negb_true_iff, !String.eqb_neq. tauto.
Qed.

(** A path of plain names is read as these names. *)
Lemma normal_components_plain parts :
  parts <> [] -> Forall (fun part => plain_name part = true) parts ->
  normal_components (intercalate parts) = Some parts.
Proof.
  intros Hne Hall. unfold normal_components.
  assert (split_on slash (intercalate parts) = parts) as ->.
  { apply split_intercalate; [done|]. eapply Forall_impl; [exact Hall|].
    intros part Hpart%plain_name_inv. tauto. }
  assert (starts_with_char slash (intercalate parts) = false) as ->.
  { destruct Hall as [|part parts Hpart%plain_name_inv Hall]; [done|]. destruct Hpart as (Hp & _ & _ & Hfree & _).
    destruct part as [|c part]; [done|]. cbn in Hfree. apply orb_false_iff in Hfree as [Hc _].
    by destruct parts. }
  rewrite bool_decide_eq_false_2; cbn [orb].
  2:{ destruct Hall as [|part parts Hpart%plain_name_inv]; [done|]. cbn. intros [= ->]. naive_solver. }
  destruct (existsb (String.eqb "..") parts) eqn:Hup.
  - apply existsb_exists in Hup as (part & Hin & <-%String.eqb_eq). rewrite Forall_forall in Hall.
    rewrite <- list_elem_of_In in Hin. by apply Hall in Hin.
  - clear Hup Hne. f_equal. induction Hall as [|part parts Hpart%plain_name_inv Hall IH]; [done|]. cbn.
    destruct (String.eqb_spec part ""), (String.eqb_spec part "."); cbn; [naive_solver..|by rewrite IH].
Qed.

Lemma artifact_components parts :
  parts <> [] -> Forall (fun part => plain_name part = true) parts ->
  (String.length (intercalate parts) <= MAX_PLAN_PATH_CHARS)%nat ->
  validated_relative_components (intercalate parts) = Ok parts.
Proof.
  intros Hne Hall Hlen. unfold validated_relative_components.
  rewrite normal_components_plain by done.
  destruct (String.eqb_spec (intercalate parts) "") as [Hempty|_].
  { destruct Hall as [|part parts Hpart%plain_name_inv]; [done|]. destruct part, parts; naive_solver. }
  destruct (Nat.ltb_spec MAX_PLAN_PATH_CHARS (chars_count (intercalate parts))) as [Hlong|_].
  { pose proof (chars_count_length (intercalate parts)). lia. }
  destruct (existsb (contains_char backslash) parts) eqn:Hback; [|done].
  apply existsb_exists in Hback as (part & Hin & Hpart). rewrite <- list_elem_of_In in Hin.
  rewrite Forall_forall in Hall. apply Hall, plain_name_inv in Hin. naive_solver congruence.
Qed.

Lemma stage_relative_intercalate id :
  stage_relative_of id = intercalate (stage_path id).
Proof. reflexivity. Qed.

Lemma stage_artifact_intercalate id name :
  stage_relative_of id +:+ String slash name = intercalate (stage_path id ++ [name]).
Proof. rewrite intercalate_snoc by done. reflexivity. Qed.

Lemma rooted_artifact_stage id : journal_id_valid id ->
  rooted_artifact (stage_relative_of id) (journal_id_text id) = Ok (stage_path id).
Proof.
  intros Hid. pose proof (journal_id_plain id Hid) as [Hlen Hplain].
  unfold rooted_artifact. rewrite stage_relative_intercalate, artifact_components.
  - cbn. by rewrite String.eqb_refl.
  - done.
  - repeat constructor. done.
  - rewrite <- stage_relative_intercalate. unfold stage_relative_of, STAGING_DIRECTORY, MAX_PLAN_PATH_CHARS.
    rewrite !app_length_str, Hlen. cbn. unfold JOURNAL_ID_LENGTH. lia.
Qed.

Lemma rooted_artifact_name id name : journal_id_valid id ->
  plain_name name = true -> (String.length name <= 400)%nat ->
  rooted_artifact (stage_relative_of id +:+ String slash name) (journal_id_text id) = Ok (stage_path id ++ [name]).
Proof.
  intros Hid Hname Hshort. pose proof (journal_id_plain id Hid) as [Hlen Hplain].
  unfold rooted_artifact. rewrite stage_artifact_intercalate, artifact_components.
  - cbn. by rewrite String.eqb_refl.
  - done.
  - repeat constructor; done.
  - rewrite <- stage_artifact_intercalate. unfold stage_relative_of, STAGING_DIRECTORY, MAX_PLAN_PATH_CHARS.
    rewrite !app_length_str. cbn [String.length]. rewrite Hlen. unfold JOURNAL_ID_LENGTH. cbn. lia.
Qed.

(** A path of the staging area, and one of the published modes. *)
Definition staged (p : FsPath) : bool := bool_decide (head p = Some STAGING_DIRECTORY).

Lemma rooted_target_ok relative target :
  rooted_target relative = Ok target ->
  exists mode_id rest, target = mode_id :: rest /\ staged target = false.
Proof.
  unfold rooted_target. intros (components & _ & Hvalid)%bind_ok. cbn in Hvalid.
  assert (forall mode_id rest, valid_slug mode_id = true ->
    exists id rest', mode_id :: rest = id :: rest' /\ staged (mode_id :: rest) = false) as Hslug.
  { intros mode_id rest Hmode. exists mode_id, rest. split; [done|]. apply bool_decide_eq_false. intros [= ->]. done. }
  case_match; [|done]. injection Hvalid as <-.
  destruct components as [|mode_id [|a [|b [|]]]]; try done; apply Hslug; [done|..].
  - by apply andb_true_iff in H as [? _].
  - by apply andb_true_iff in H as [[? _]%andb_true_iff _].
Qed.
