(* ===== verification/ModeFilesSpec.v ===== *)
(** * Edits of the mode tree that survive a crash

    Triples for the steps of a plan: whatever call fails or never returns, the
    tree stays in one of the states from which a rollback gives the original
    back, and a rollback that answers has done so. *)

From S2P Require Import Prelude Text RecoveryJournal Filesystem ModeYaml ModeFiles.
From S2P Require Import ModeKeeps.

#[local] Open Scope string_scope.
#[local] Open Scope list_scope.

(** Both trees have the same entries wherever [touched] does not hold. *)
Definition agree (touched : FsPath -> Prop) (u t : FsTree) : Prop :=
  forall p, ~ touched p -> t !! p = u !! p.

Lemma agree_trans touched t1 t2 t3 : agree touched t1 t2 -> agree touched t2 t3 -> agree touched t1 t3.
Proof. intros H1 H2 p Hp. by rewrite H2, H1. Qed.

Lemma agree_insert touched u t p n : touched p -> agree touched u t -> agree touched u (<[p := n]> t).
Proof. intros Hp H q Hq. rewrite lookup_insert_ne; [by apply H|by intros ->]. Qed.

Lemma agree_delete touched u t p : touched p -> agree touched u t -> agree touched u (delete p t).
Proof. intros Hp H q Hq. rewrite lookup_delete_ne; [by apply H|by intros ->]. Qed.

Lemma agree_move touched u t src dst :
  apart src dst -> clear dst t -> (forall rest, touched (src ++ rest)) -> (forall rest, touched (dst ++ rest)) ->
  agree touched u t -> agree touched u (move_tree src dst t).
Proof.
  intros Hap Hclear Hsrc Hdst H q Hq. rewrite move_frame; [by apply H|done..| |];
    apply strip_None; intros rest ->; by apply Hq.
Qed.

(** What holds of the rest of the tree, whatever happens to the [touched]
    paths. *)
Record frame_of (touched : FsPath -> Prop) (frame : FsTree -> Prop) : Prop := {
  frame_insert p n t : touched p -> frame t -> frame (<[p := n]> t);
  frame_delete p t : touched p -> frame t -> frame (delete p t);
  frame_move src dst t : apart src dst -> clear dst t ->
    (forall rest, touched (src ++ rest)) -> (forall rest, touched (dst ++ rest)) ->
    frame t -> frame (move_tree src dst t)
}.

Lemma agree_frame touched u : frame_of touched (agree touched u).
Proof.
  split; intros; [by apply agree_insert|by apply agree_delete|by apply agree_move].
Qed.

Lemma frame_and touched frame frame' :
  frame_of touched frame -> frame_of touched frame' -> frame_of touched (fun t => frame t /\ frame' t).
Proof.
  intros [Hi Hd Hm] [Hi' Hd' Hm'].
  split; [intros ? ? ? ? []|intros ? ? ? []|intros ? ? ? ? ? ? ? []]; split; auto.
Qed.

Lemma fs_spec_sha256 `{Sha256} (P R : FsTree -> Prop) (Q : string -> FsTree -> Prop) p :
  (forall t content, P t -> t !! p = Some (FsFile content) -> Q (sha256_hex content) t) ->
  (forall t, P t -> R t) -> fs_spec P (sha256_file p) Q R.
Proof.
  intros HQ HR. unfold sha256_file.
  eapply (fs_spec_bind _ _ _ (fun content t => P t /\ t !! p = Some (FsFile content))).
  - by apply fs_spec_read.
  - intros content. apply fs_spec_ret. intros t [Ht Hp]. by apply HQ.
Qed.

Lemma fs_runs_sha256 `{Sha256} (P : FsTree -> Prop) (Q : string -> FsTree -> Prop) p content :
  (forall t, P t -> t !! p = Some (FsFile content) /\ Q (sha256_hex content) t) ->
  fs_runs P (sha256_file p) Q.
Proof.
  intros HP. unfold sha256_file.
  eapply (fs_runs_bind _ _ _ (fun c t => c = content /\ P t)).
  - apply (fs_runs_read _ _ _ content). intros t Ht. split; [by apply HP|done].
  - intros c. apply fs_runs_ret. intros t [-> Ht]. by apply HP.
Qed.

(* ------------------------------------------------------------------ *)
(** ** A document or mode that is put aside *)

Section Stashed.
Variables (v : FsTree) (touched : FsPath -> Prop) (frame : FsTree -> Prop) (T B : FsPath).
Hypothesis Hframe : frame_of touched frame.
Hypothesis Hapart : apart T B.
Hypothesis HT : forall rest, touched (T ++ rest).
Hypothesis HB : forall rest, touched (B ++ rest).

(** Where the original of [T] is: in its place, in the backup with nothing in
    its place, or in the backup with the replacement in its place. *)
Inductive stash (replacement : option string) (t : FsTree) : Prop :=
| original_in_place : same_below T t T v -> clear B t -> stash replacement t
| original_aside : same_below B t T v -> clear T t -> stash replacement t
| original_replaced content : replacement = Some content ->
    same_below B t T v -> single_file T content t -> stash replacement t.

Definition in_place (t : FsTree) : Prop := frame t /\ same_below T t T v /\ clear B t.
Definition aside (t : FsTree) : Prop := frame t /\ same_below B t T v /\ clear T t.
Definition deleting (t : FsTree) : Prop := frame t /\ stash None t.

Lemma in_place_aside t : in_place t -> aside (move_tree T B t).
Proof.
  intros (Hu & Hv & HBc). split_and!.
  - by apply (frame_move _ _ Hframe).
  - eapply same_below_trans; [by apply move_there|done].
  - by apply move_gone.
Qed.

Lemma aside_in_place t : aside t -> in_place (move_tree B T t).
Proof.
  intros (Hu & Hv & HTc). assert (apart B T) by (by apply apart_sym). split_and!.
  - by apply (frame_move _ _ Hframe).
  - eapply same_below_trans; [by apply move_there|done].
  - by apply move_gone.
Qed.

Lemma in_place_deleting t : in_place t -> deleting t.
Proof. intros (? & ? & ?). split; [done|by apply original_in_place]. Qed.
Lemma aside_deleting t : aside t -> deleting t.
Proof. intros (? & ? & ?). split; [done|by apply original_aside]. Qed.

Hypothesis Hv : is_Some (v !! T).

(** The backup exists exactly when the original is there. *)
Lemma backup_exists t : stash None t -> fs_exists B t = true -> same_below B t T v /\ clear T t.
Proof.
  pose proof (apart_nonempty _ _ Hapart) as [_ HBne]. intros [Hp Hc|Hb Hc|? ? ? ?] Hex; [|done..].
  apply fs_exists_true in Hex; [|done]. by rewrite (clear_lookup _ _ Hc) in Hex; destruct Hex.
Qed.

Lemma backup_missing t : stash None t -> fs_exists B t = false -> same_below T t T v /\ clear B t.
Proof.
  pose proof (apart_nonempty _ _ Hapart) as [_ HBne]. intros [Hp Hc|Hb Hc|? ? ? ?] Hex; [done| |done].
  apply fs_exists_false in Hex; [|done]. rewrite (same_below_lookup _ _ _ _ Hb) in Hex. destruct Hv. congruence.
Qed.

Lemma target_missing t : clear T t -> fs_exists T t = false.
Proof. intros H. apply fs_exists_false; [by apply (apart_nonempty _ B)|]. by apply clear_lookup. Qed.

Lemma apply_deletion_spec detail : fs_spec in_place (apply_deletion B T detail) (fun _ => aside) deleting.
Proof.
  apply fs_spec_get. intros t Ht. destruct (fs_exists B t) eqn:HBe.
  - destruct Ht as (? & ? & Hc). apply fs_exists_true in HBe; [|by apply (apart_nonempty T)].
    rewrite (clear_lookup _ _ Hc) in HBe. by destruct HBe.
  - apply fs_spec_rename; [done|..]; [intros ? <-; by destruct Ht as (? & ? & ?)|..].
    + intros ? <- _. by apply in_place_aside.
    + intros ? <-. by apply in_place_deleting.
Qed.

Lemma restore_backup_spec : fs_spec deleting (restore_backup B T) (fun _ => in_place) deleting.
Proof.
  apply fs_spec_get. intros t [Hu Hs]. destruct (fs_exists B t) eqn:HBe.
  - apply backup_exists in HBe as [Hb Hc]; [|done]. rewrite target_missing by done.
    apply fs_spec_rename; [by apply apart_sym|..]; [by intros ? <-|..].
    + intros ? <- _. by apply aside_in_place.
    + by intros ? <-.
  - apply backup_missing in HBe as [Hp Hc]; [|done]. apply fs_spec_ret. by intros ? <-.
Qed.

Hypothesis Hparent : forall t, frame t -> parent_is_dir T t = true.

Lemma restore_backup_runs : fs_runs deleting (restore_backup B T) (fun _ => in_place).
Proof.
  apply fs_runs_get. intros t [Hu Hs]. destruct (fs_exists B t) eqn:HBe.
  - pose proof HBe as Hex%fs_exists_true; [|by apply (apart_nonempty T)].
    apply backup_exists in HBe as [Hb Hc]; [|done]. rewrite target_missing by done.
    apply fs_runs_rename; [by apply apart_sym|..]; [by intros ? <-; auto|].
    intros ? <-. by apply aside_in_place.
  - apply backup_missing in HBe as [Hp Hc]; [|done]. apply fs_runs_ret. by intros ? <-.
Qed.
End Stashed.

(* ------------------------------------------------------------------ *)
(** ** A document that is replaced *)

(** What is left of a staged file: all of it or nothing. *)
Definition candidate_left (C : FsPath) (content : string) (t : FsTree) : Prop :=
  single_file C content t \/ clear C t.

Lemma candidate_left_same C content t t' :
  same_below C t' C t -> candidate_left C content t -> candidate_left C content t'.
Proof.
  intros Hsame [H|H]; [left; by eapply same_below_single|right; by eapply same_below_clear].
Qed.

Section Replaced.
Context `{PlanCodec, Sha256}.
Variables (v : FsTree) (touched : FsPath -> Prop) (frame : FsTree -> Prop) (T B C : FsPath) (content : string).
Hypothesis Hframe : frame_of touched frame.
Hypothesis HTB : apart T B.
Hypothesis HTC : apart T C.
Hypothesis HBC : apart B C.
Hypothesis HT : forall rest, touched (T ++ rest).
Hypothesis HB : forall rest, touched (B ++ rest).
Hypothesis HC : forall rest, touched (C ++ rest).

Definition replacing (t : FsTree) : Prop :=
  frame t /\ stash v T B (Some content) t /\ candidate_left C content t.
Definition prepared_replacement (t : FsTree) : Prop := in_place v frame T B t /\ single_file C content t.
Definition replaced (t : FsTree) : Prop :=
  frame t /\ same_below B t T v /\ single_file T content t /\ clear C t.
Definition replacement_undone (t : FsTree) : Prop := in_place v frame T B t /\ candidate_left C content t.

Lemma prepared_replacing t : prepared_replacement t -> replacing t.
Proof. intros [(? & ? & ?) ?]. split_and!; [done|by apply original_in_place|by left]. Qed.
Lemma undone_replacing t : replacement_undone t -> replacing t.
Proof. intros [(? & ? & ?) ?]. split_and!; [done|by apply original_in_place|done]. Qed.
Lemma replaced_replacing t : replaced t -> replacing t.
Proof. intros (? & ? & ? & ?). split_and!; [done|by eapply original_replaced|by right]. Qed.

Variables (plan : FilesystemMutationPlan).
Hypothesis Hbackup : forall f, required_artifact "mode backup is missing from the plan"
  (plan_backup_path plan) (plan_journal_id plan) f = (Ok B, f).
Hypothesis Hcandidate : forall f, plan_candidate_from_plan plan f = (Ok C, f).
Hypothesis Hhash : plan_candidate_sha256 plan = Some (sha256_hex content).

Definition half_replaced (t : FsTree) : Prop := aside v frame T B t /\ single_file C content t.

Lemma half_replaced_move t : prepared_replacement t -> half_replaced (move_tree T B t).
Proof.
  intros [Hin Hc]. split; [by eapply in_place_aside|]. destruct Hin as (_ & _ & HBc).
  eapply same_below_single; [|done]. apply move_other; done || by apply apart_sym.
Qed.

Lemma replaced_move t : half_replaced t -> replaced (move_tree C T t).
Proof.
  intros [(Hu & Hv & HTc) Hc]. assert (apart C T) by by apply apart_sym.
  split_and!.
  - by apply (frame_move _ _ Hframe).
  - eapply same_below_trans; [apply move_other; done || by apply apart_sym|done].
  - eapply same_below_single; [by apply move_there|done].
  - by apply move_gone.
Qed.

Lemma half_replacing t : half_replaced t -> replacing t.
Proof. intros [(? & ? & ?) ?]. split_and!; [done|by apply original_aside|by left]. Qed.

Lemma apply_replacement_spec :
  fs_spec prepared_replacement (apply_replacement plan C T (sha256_hex content)) (fun _ => replaced) replacing.
Proof.
  pose proof (apart_nonempty _ _ HTB) as [HTne HBne]. pose proof (apart_nonempty _ _ HTC) as [_ HCne].
  unfold apply_replacement. eapply fs_spec_known; [apply Hbackup|].
  apply fs_spec_get. intros t Ht. apply (fs_spec_seq _ _ _ half_replaced).
  { rewrite (proj2 (fs_exists_false B t HBne)) by (apply clear_lookup, Ht). cbn [negb].
    destruct (fs_is_file T t) eqn:Hf; cbn [negb]; [|apply fs_spec_throw; intros ? <-; by apply prepared_replacing].
    apply fs_spec_rename; [done|intros ? <-; apply Ht|..]; intros ? <-; [intros _; by apply half_replaced_move|by apply prepared_replacing]. }
  clear t Ht. apply fs_spec_get. intros t Ht. apply (fs_spec_seq _ _ _ replaced).
  { rewrite (proj2 (fs_exists_true C t HCne)) by (destruct Ht as [_ [Hc _]]; by rewrite Hc).
    rewrite (proj2 (fs_exists_false T t HTne)) by (apply clear_lookup, Ht).
    apply fs_spec_rename; [by apply apart_sym|intros ? <-; apply Ht|..]; intros ? <-;
      [intros _; by apply replaced_move|by apply half_replacing]. }
  eapply (fs_spec_bind _ _ _ (fun _ => replaced)).
  - apply fs_spec_sha256; [done|apply replaced_replacing].
  - intros hash. destruct (negb _); [apply fs_spec_throw, replaced_replacing|by apply fs_spec_ret].
Qed.

Hypothesis Hexisted : plan_target_existed plan = true.
Hypothesis Hv : is_Some (v !! T).

Lemma undone_move t : aside v frame T B t -> candidate_left C content t ->
  replacement_undone (move_tree B T t).
Proof.
  intros Has Hc. split; [by eapply aside_in_place|]. destruct Has as (_ & _ & HTc).
  eapply candidate_left_same; [|done]. apply move_other; done || by apply apart_sym.
Qed.

(** Removing the replacement leaves the original in the backup. *)
Lemma remove_replacement_aside t : replacing t -> same_below B t T v -> single_file T content t ->
  aside v frame T B (delete T t) /\ candidate_left C content (delete T t).
Proof.
  intros (Hu & _ & Hc) Hb Hf. split; [split_and!|].
  - apply (frame_delete _ _ Hframe); [by rewrite <- (app_nil_r T)|done].
  - eapply same_below_trans; [by apply delete_other|done].
  - by eapply single_file_delete.
  - eapply candidate_left_same; [by apply delete_other|done].
Qed.

Definition restorable (t : FsTree) : Prop := aside v frame T B t /\ candidate_left C content t.

Lemma restorable_replacing t : restorable t -> replacing t.
Proof. intros [(? & ? & ?) ?]. split_and!; [done|by apply original_aside|done]. Qed.

(** The backup exists exactly when the original is not in its place. *)
Lemma replacing_backup t : replacing t ->
  if fs_exists B t then same_below B t T v /\ (clear T t \/ single_file T content t)
  else replacement_undone t.
Proof.
  pose proof (apart_nonempty _ _ HTB) as [HTne HBne]. intros (Hu & Hs & Hc).
  assert (same_below B t T v -> fs_exists B t = true) as Hex.
  { intros Hb. apply fs_exists_true; [done|]. by rewrite (same_below_lookup _ _ _ _ Hb). }
  destruct Hs as [Hp Hb|Hb Ht|c Hcontent Hb Hf].
  - rewrite (proj2 (fs_exists_false B t HBne)) by by apply clear_lookup. by split.
  - rewrite Hex by done. auto.
  - injection Hcontent as <-. rewrite Hex by done. auto.
Qed.

Lemma rollback_replacement_spec :
  fs_spec replacing (rollback_file_write plan T) (fun _ => replacement_undone) replacing.
Proof.
  pose proof (apart_nonempty _ _ HTB) as [HTne HBne].
  unfold rollback_file_write. rewrite Hexisted. eapply fs_spec_known; [apply Hbackup|].
  apply fs_spec_get. intros t Ht. pose proof (replacing_backup t Ht) as Hwhere.
  destruct (fs_exists B t) eqn:HBe; [|apply fs_spec_ret; by intros ? <-].
  destruct Hwhere as [Hb HTs]. apply (fs_spec_seq _ _ _ restorable).
  - destruct (fs_exists T t) eqn:HTe.
    + rewrite Hhash. eapply fs_spec_known; [done|]. eapply (fs_spec_bind _ _ _ (fun _ => eq t)).
      { apply fs_spec_sha256; [done|by intros ? <-]. }
      intros hash. destruct (negb _); [apply fs_spec_throw; by intros ? <-|].
      apply fs_spec_remove_file; [done|intros ? found <- Hfound|by intros ? <-].
      destruct HTs as [Hc|Hf]; [by rewrite (clear_lookup _ _ Hc) in Hfound|].
      by apply remove_replacement_aside.
    + apply fs_spec_ret. intros ? <-. destruct Ht as (Hu & _ & Hc).
      destruct HTs as [HTc|[Hf _]]; [by split|]. apply fs_exists_false in HTe; [congruence|done].
  - apply fs_spec_rename; [by apply apart_sym|by intros ? [(_ & _ & ?) _]|..].
    + intros t' [Has Hc] _. by apply undone_move.
    + apply restorable_replacing.
Qed.

Hypothesis Hparent : forall t, frame t -> parent_is_dir T t = true.

Lemma rollback_replacement_runs : fs_runs replacing (rollback_file_write plan T) (fun _ => replacement_undone).
Proof.
  pose proof (apart_nonempty _ _ HTB) as [HTne HBne].
  unfold rollback_file_write. rewrite Hexisted. eapply fs_runs_known; [apply Hbackup|].
  apply fs_runs_get. intros t Ht. pose proof (replacing_backup t Ht) as Hwhere.
  destruct (fs_exists B t) eqn:HBe; [|apply fs_runs_ret; by intros ? <-].
  destruct Hwhere as [Hb HTs]. apply (fs_runs_seq _ _ _ restorable).
  - destruct (fs_exists T t) eqn:HTe.
    + destruct HTs as [Hc|Hf].
      { apply fs_exists_true in HTe; [|done]. rewrite (clear_lookup _ _ Hc) in HTe. by destruct HTe. }
      rewrite Hhash. eapply fs_runs_known; [done|].
      eapply (fs_runs_bind _ _ _ (fun hash t' => hash = sha256_hex content /\ t' = t)).
      { apply (fs_runs_sha256 _ _ _ content). intros ? <-. by destruct Hf. }
      intros hash. apply fs_runs_each. intros ? [-> ->]. rewrite String.eqb_refl. cbn [negb].
      apply fs_runs_remove_file; [done|]. intros ? ->. split; [exists content; apply Hf|].
      by apply remove_replacement_aside.
    + apply fs_runs_ret. intros ? <-. destruct Ht as (Hu & _ & Hc).
      destruct HTs as [HTc|[Hf _]]; [by split|]. apply fs_exists_false in HTe; [congruence|done].
  - apply fs_runs_rename; [by apply apart_sym|..].
    + intros t' [(Hu' & Hb' & HTc) Hc]. split_and!; [done| |by apply Hparent].
      by rewrite (same_below_lookup _ _ _ _ Hb').
    + intros t' [Has Hc]. by apply undone_move.
Qed.
End Replaced.

(* ------------------------------------------------------------------ *)
(** ** A document that is created *)

Section Created.
Context `{PlanCodec, Sha256}.
Variables (u : FsTree) (touched : FsPath -> Prop) (frame : FsTree -> Prop) (T C : FsPath) (content : string).
Hypothesis Hframe : frame_of touched frame.
Hypothesis HTC : apart T C.
Hypothesis HT : forall rest, touched (T ++ rest).
Hypothesis HC : forall rest, touched (C ++ rest).
Hypothesis HD : forall rest, removelast T <> C ++ rest.

(** The directory of the document is the one there was, or a new one. *)
Definition parent_made (t : FsTree) : Prop :=
  fs_node (removelast T) t = fs_node (removelast T) u \/
  (fs_node (removelast T) u = None /\ fs_node (removelast T) t = Some FsDirectory).

(** [touched] has the parent as well: what happened to it is [parent_made]. *)
Hypothesis HP : touched (removelast T).

Definition creating (t : FsTree) : Prop :=
  frame t /\ parent_made t /\ candidate_left C content t /\ (clear T t \/ single_file T content t).
(** Between the link and the release both names are there. *)
Definition linked (t : FsTree) : Prop := creating t /\ is_Some (t !! T) /\ is_Some (t !! C).
Definition prepared_creation (t : FsTree) : Prop :=
  frame t /\ parent_made t /\ single_file C content t /\ clear T t.
Definition created (t : FsTree) : Prop :=
  frame t /\ parent_made t /\ clear C t /\ single_file T content t.
Definition creation_undone (t : FsTree) : Prop := creating t /\ clear T t.

Lemma removelast_apart rest : removelast T <> T ++ rest.
Proof.
  pose proof (apart_nonempty _ _ HTC) as [HTne _]. destruct (exists_last HTne) as (q & c & ->).
  rewrite removelast_last, <- app_assoc. intros Heq. rewrite <- (app_nil_r q) in Heq at 1.
  by apply app_inv_head in Heq.
Qed.

Lemma parent_node_insert p n t : p <> removelast T -> p <> [] ->
  fs_node (removelast T) (<[p := n]> t) = fs_node (removelast T) t.
Proof.
  unfold fs_node. generalize (removelast T). intros [|c q] Hp Hne; [done|]. by apply lookup_insert_ne.
Qed.

Lemma parent_node_delete p t : p <> removelast T -> p <> [] ->
  fs_node (removelast T) (delete p t) = fs_node (removelast T) t.
Proof.
  unfold fs_node. generalize (removelast T). intros [|c q] Hp Hne; [done|]. by apply lookup_delete_ne.
Qed.

Lemma parent_not_target : T <> removelast T.
Proof. intros Heq. apply (removelast_apart []). by rewrite app_nil_r. Qed.
Lemma parent_not_candidate : C <> removelast T.
Proof. intros Heq. apply (HD []). by rewrite app_nil_r. Qed.

Lemma prepared_creating t : prepared_creation t -> creating t.
Proof. intros (? & ? & ? & ?). split_and!; [done..|by left|by left]. Qed.
Lemma created_creating t : created t -> creating t.
Proof. intros (? & ? & ? & ?). split_and!; [done..|by right|by right]. Qed.

(** Linking the candidate, then releasing it. *)
Lemma link_creating t : prepared_creation t ->
  creating (<[T := FsFile content]> t) /\ single_file T content (<[T := FsFile content]> t) /\
  single_file C content (<[T := FsFile content]> t).
Proof.
  pose proof (apart_nonempty _ _ HTC) as [HTne _]. intros (Hu & Hp & Hc & HTc).
  assert (single_file T content (<[T := FsFile content]> t)) as Hs by by apply single_file_insert.
  assert (single_file C content (<[T := FsFile content]> t)) as Hs'.
  { eapply same_below_single; [by apply insert_other|done]. }
  split; [|done]. split_and!; [| |by left|by right].
  - apply (frame_insert _ _ Hframe); [by rewrite <- (app_nil_r T)|done].
  - unfold parent_made. rewrite parent_node_insert; [done|apply parent_not_target|done].
Qed.

Lemma release_created t : creating t -> single_file T content t -> single_file C content t -> created (delete C t).
Proof.
  pose proof (apart_nonempty _ _ HTC) as [_ HCne]. intros (Hu & Hp & _ & _) Hf Hc. split_and!.
  - apply (frame_delete _ _ Hframe); [by rewrite <- (app_nil_r C)|done].
  - unfold parent_made. rewrite parent_node_delete; [done|apply parent_not_candidate|done].
  - by eapply single_file_delete.
  - eapply same_below_single; [apply delete_other; by apply apart_sym|done].
Qed.

Lemma make_parent t : prepared_creation t -> t !! removelast T = None -> removelast T <> [] ->
  prepared_creation (<[removelast T := FsDirectory]> t).
Proof.
  intros (Hu & Hp & Hc & HTc) Hnone Hne.
  assert (forall q, (forall rest, removelast T <> q ++ rest) ->
    same_below q (<[removelast T := FsDirectory]> t) q t) as Hother.
  { intros q Hq rest. by apply lookup_insert_ne. }
  split_and!.
  - by apply (frame_insert _ _ Hframe).
  - right. unfold fs_node, parent_made in *. destruct (removelast T) as [|c d] eqn:HTd; [done|].
    cbn [fs_node] in Hp. unfold fs_node in Hp. rewrite Hnone in Hp. rewrite lookup_insert_eq. split; [|done].
    by destruct Hp as [<-|[? ?]].
  - eapply same_below_single; [by apply Hother|done].
  - eapply same_below_clear; [by apply Hother, removelast_apart|done].
Qed.

Lemma ensure_parent_spec :
  fs_spec prepared_creation (ensure_document_parent T) (fun _ => prepared_creation) creating.
Proof.
  apply fs_spec_get. intros t Ht. pose proof (prepared_creating _ Ht).
  destruct (fs_node (removelast T) t) as [[|]|] eqn:Hnode.
  - apply fs_spec_throw. by intros ? <-.
  - apply fs_spec_ret. by intros ? <-.
  - destruct (negb _); [apply fs_spec_throw; by intros ? <-|].
    assert (removelast T <> []) as Hne by by intros Heq; rewrite Heq in Hnode.
    apply fs_spec_create_dir; [done|intros ? <- Hnone; by apply make_parent|by intros ? <-].
Qed.

Lemma apply_creation_spec :
  fs_spec prepared_creation (apply_creation C T (sha256_hex content)) (fun _ => created) creating.
Proof.
  pose proof (apart_nonempty _ _ HTC) as [HTne HCne].
  apply (fs_spec_seq _ _ _ prepared_creation); [apply ensure_parent_spec|].
  apply fs_spec_get. intros t Ht. pose proof (prepared_creating _ Ht).
  rewrite (proj2 (fs_exists_false T t HTne)) by (apply clear_lookup, Ht).
  apply (fs_spec_seq _ _ _ (fun t => creating t /\ single_file T content t /\ single_file C content t)).
  - apply fs_spec_syscall; [|by intros ? <-]. intros ? [] t' <- Hbody.
    pose proof Ht as (_ & _ & [Hc _] & _). rewrite Hc in Hbody. destruct (_ && _); [|done].
    injection Hbody as <-. by apply link_creating.
  - apply fs_spec_remove_file; [done| |by intros t' [? _]].
    intros t' found (Hcr & Hf & Hc) _. by apply release_created.
Qed.

Variables (plan : FilesystemMutationPlan).
Hypothesis Hcandidate : forall f, plan_candidate_from_plan plan f = (Ok C, f).
Hypothesis Hhash : plan_candidate_sha256 plan = Some (sha256_hex content).
Hypothesis Hexisted : plan_target_existed plan = false.

Lemma undo_creation t : creating t -> single_file T content t -> creation_undone (delete T t).
Proof.
  pose proof (apart_nonempty _ _ HTC) as [HTne _]. intros (Hu & Hp & Hc & _) Hf.
  assert (clear T (delete T t)) by by eapply single_file_delete.
  split; [|done]. split_and!; [| | |by left].
  - apply (frame_delete _ _ Hframe); [by rewrite <- (app_nil_r T)|done].
  - unfold parent_made. rewrite parent_node_delete; [done|apply parent_not_target|done].
  - eapply candidate_left_same; [by apply delete_other|done].
Qed.

(** A rollback undoes the creation, unless both names are there: then it
    leaves everything as it is. *)
Lemma rollback_creation_spec :
  fs_spec (fun t => creating t /\ ~ linked t) (rollback_file_write plan T) (fun _ => creation_undone)
    (fun t => creating t /\ ~ linked t).
Proof.
  pose proof (apart_nonempty _ _ HTC) as [HTne HCne].
  unfold rollback_file_write. rewrite Hexisted. apply fs_spec_get. intros t [Ht Hlinked].
  destruct (fs_exists T t) eqn:HTe.
  - eapply fs_spec_known; [apply Hcandidate|]. apply fs_spec_get. intros ? <-.
    apply fs_exists_true in HTe; [|done].
    destruct (fs_exists C t) eqn:HCe.
    { destruct Hlinked. split_and!; [done..|by apply fs_exists_true]. }
    rewrite Hhash. eapply fs_spec_known; [done|]. eapply (fs_spec_bind _ _ _ (fun _ => eq t)).
    { apply fs_spec_sha256; [done|by intros ? <-]. }
    intros hash. destruct (negb _); [apply fs_spec_throw; by intros ? <-|].
    apply fs_spec_remove_file; [done|intros ? found <- Hfound|by intros ? <-].
    pose proof Ht as (_ & _ & _ & [Hc|Hf]); [by rewrite (clear_lookup _ _ Hc) in Hfound|]. by apply undo_creation.
  - apply fs_spec_ret. intros ? <-. apply fs_exists_false in HTe; [|done]. split; [done|].
    pose proof Ht as (_ & _ & _ & [Hc|[Hf _]]); [done|congruence].
Qed.

Lemma rollback_linked_keeps t : linked t -> forall fates,
  rollback_file_write plan T (mkFilesystem t fates) = (Ok (), mkFilesystem t fates).
Proof.
  pose proof (apart_nonempty _ _ HTC) as [HTne HCne]. intros (_ & HTs & HCs) fates.
  unfold rollback_file_write. rewrite Hexisted. unfold mbind at 1, stateful_bind at 1, gets at 1. cbn [fs_tree].
  rewrite (proj2 (fs_exists_true T t HTne)) by done.
  unfold mbind at 1, stateful_bind at 1. rewrite Hcandidate.
  unfold mbind at 1, stateful_bind at 1, gets at 1. cbn [fs_tree].
  by rewrite (proj2 (fs_exists_true C t HCne)).
Qed.

Lemma rollback_creation_runs : fs_runs creating (rollback_file_write plan T) (fun _ => creating).
Proof.
  pose proof (apart_nonempty _ _ HTC) as [HTne HCne]. intros t Ht.
  destruct (fs_exists T t) eqn:HTe; [destruct (fs_exists C t) eqn:HCe|].
  - apply fs_exists_true in HTe; [|done]. apply fs_exists_true in HCe; [|done].
    exists (), t. split; [by apply rollback_linked_keeps|done].
  - revert t Ht HTe HCe. enough (fs_runs (fun t => creating t /\ fs_exists T t = true /\ fs_exists C t = false)
      (rollback_file_write plan T) (fun _ => creating)) as Hrun by (intros t ? ? ?; by apply Hrun).
    unfold rollback_file_write. rewrite Hexisted. apply fs_runs_get. intros t (Ht & HTe & HCe). rewrite HTe.
    eapply fs_runs_known; [apply Hcandidate|]. apply fs_runs_get. intros ? <-. rewrite HCe, Hhash.
    eapply fs_runs_known; [done|]. apply fs_exists_true in HTe as [n HTe]; [|done].
    pose proof Ht as (_ & _ & _ & [Hc|Hf]); [by rewrite (clear_lookup _ _ Hc) in HTe|].
    eapply (fs_runs_bind _ _ _ (fun hash t' => hash = sha256_hex content /\ t' = t)).
    { apply (fs_runs_sha256 _ _ _ content). intros ? <-. by destruct Hf. }
    intros hash. apply fs_runs_each. intros ? [-> ->]. rewrite String.eqb_refl. cbn [negb].
    apply fs_runs_remove_file; [done|]. intros ? ->. split; [exists content; apply Hf|].
    by apply undo_creation.
  - unfold rollback_file_write. rewrite Hexisted. unfold mbind at 1, stateful_bind at 1, gets at 1. cbn [fs_tree].
    rewrite HTe. by exists (), t.
Qed.
End Created.

(* ------------------------------------------------------------------ *)
(** ** A mode that is created *)

Section NewMode.
Variables (touched : FsPath -> Prop) (frame : FsTree -> Prop) (T C : FsPath).
Hypothesis Hframe : frame_of touched frame.
Hypothesis HTC : apart T C.
Hypothesis HT : forall rest, touched (T ++ rest).
Hypothesis HC : forall rest, touched (C ++ rest).

(** Nothing is below a directory that is gone. *)
Definition publishing (t : FsTree) : Prop := frame t /\ (t !! T = None -> clear T t).
Definition mode_withdrawn (t : FsTree) : Prop := frame t /\ clear T t.

Lemma withdrawn_publishing t : mode_withdrawn t -> publishing t.
Proof. intros [? ?]. by split. Qed.

Lemma publish_mode_spec detail t0 : mode_withdrawn t0 ->
  fs_spec (eq t0) (fs_rename detail C T) (fun _ t => publishing t /\ same_below T t C t0) publishing.
Proof.
  intros [Hu Hc]. assert (apart C T) by by apply apart_sym.
  apply fs_spec_rename; [done|by intros ? <-|..]; intros ? <-; [intros [n Hn]|by split].
  pose proof (move_there C T t0) as Hthere.
  split; [split|by apply Hthere]; [by apply (frame_move _ _ Hframe)|].
  rewrite (same_below_lookup _ _ _ _ (Hthere ltac:(done) ltac:(done))), Hn. done.
Qed.

Lemma withdraw_mode_spec detail :
  fs_spec (fun t => frame t /\ is_Some (t !! T)) (fs_remove_dir_all detail T)
    (fun _ => mode_withdrawn) publishing.
Proof.
  eapply fs_spec_weaken; [apply (fs_spec_remove_dir_all (fun t => frame t /\ is_Some (t !! T)) _ T (fun _ => mode_withdrawn))| |by intros ? ? ?|].
  - intros t c rest [Hu Hs]. split; [apply (frame_delete _ _ Hframe); [apply HT|done]|].
    rewrite lookup_delete_ne; [done|]. intros Heq. rewrite <- (app_nil_r T) in Heq at 2.
    by apply app_inv_head in Heq.
  - intros t [Hu _] Hnone. split; [apply (frame_delete _ _ Hframe); [by rewrite <- (app_nil_r T)|done]|].
    by apply clear_delete_self.
  - done.
  - intros t [Hu [n Hn]]. split; [done|]. congruence.
Qed.
End NewMode.

(* ------------------------------------------------------------------ *)
(** ** The staging directory *)

(** What holds whatever staged entry goes. *)
Definition staging_free (P : FsTree -> Prop) : Prop := forall t p, staged p = true -> P t -> P (delete p t).

Lemma stage_path_staged id rest : staged (stage_path id ++ rest) = true.
Proof. by apply bool_decide_eq_true. Qed.

Section Stage.
Context `{PlanCodec, Sha256}.
Variables (plan : FilesystemMutationPlan) (id : RecoveryJournalId).
Hypothesis Hid : journal_id_valid id.
Hypothesis Hstage : plan_stage_directory plan = stage_relative_of id.

Lemma remove_stage_spec P : staging_free P ->
  fs_spec P (remove_stage plan (journal_id_text id)) (fun _ => P) P.
Proof.
  intros Hfree. unfold remove_stage. rewrite Hstage, rooted_artifact_stage by done.
  eapply fs_spec_known; [done|]. apply fs_spec_get. intros t Ht. apply (fs_spec_seq _ _ _ P).
  - destruct (fs_exists _ t); [|apply fs_spec_ret; by intros ? <-].
    eapply fs_spec_weaken; [apply (fs_spec_remove_dir_all P _ (stage_path id) (fun _ => P))|by intros ? <-|done..].
    + intros t' c rest Ht'. apply Hfree; [apply stage_path_staged|done].
    + intros t' Ht' _. by apply Hfree.
  - apply fs_spec_ignore, fs_spec_remove_dir. intros t'. by apply Hfree.
Qed.

Lemma remove_stage_runs P : staging_free P ->
  fs_runs (fun t => P t /\ (t !! stage_path id = None \/ t !! stage_path id = Some FsDirectory))
    (remove_stage plan (journal_id_text id)) (fun _ => P).
Proof.
  intros Hfree. unfold remove_stage. rewrite Hstage, rooted_artifact_stage by done.
  eapply fs_runs_known; [done|]. apply fs_runs_get. intros t [Ht Hdir]. apply (fs_runs_seq _ _ _ P).
  - destruct (fs_exists _ t) eqn:Hex; [|apply fs_runs_ret; by intros ? <-].
    apply fs_exists_true in Hex as [n Hex]; [|done].
    eapply (fs_runs_weaken (fun t => P t /\ t !! stage_path id = Some FsDirectory));
      [apply (fs_runs_remove_dir_all _ _ _ (fun _ => P)); [done|by intros ? []|..]| |by intros ? ? ?].
    + intros t' c rest [Ht' Hd]. split; [apply Hfree; [apply stage_path_staged|done]|].
      by rewrite lookup_delete_ne.
    + intros t' [Ht' _] _. by apply Hfree.
    + intros ? <-. split; [done|]. destruct Hdir; congruence.
  - apply fs_runs_ignore_remove_dir. intros t'. by apply Hfree.
Qed.
End Stage.
