(* ===== verification/ModeStagingSpec.v ===== *)
(** * What the preparation of a mutation stages

    Preparing never changes a published path, whether it answers, fails or
    crashes; when it answers, the plan names what was staged and found. *)

From S2P Require Import Prelude Text RecoveryJournal Filesystem Modes ModeYaml.
From S2P Require Import ModeYaml ModeFiles.
From S2P Require Import ModeKeeps ModeFilesSpec.

#[local] Open Scope string_scope.
#[local] Open Scope list_scope.

(** The published paths of both trees are the same. *)
Definition same_published (u t : FsTree) : Prop := agree (fun p => staged p = true) u t.

Lemma same_published_lookup u t p : same_published u t -> staged p = false -> t !! p = u !! p.
Proof. intros H Hp. apply H. by rewrite Hp. Qed.

Section Staging.
Context `{PlanCodec, Sha256}.
Context `{YamlText ModeDocument, YamlText SoundboardDocument, YamlText CueDocument, YamlText PresetDocument}.
Variables (t0 : FsTree) (id : RecoveryJournalId).
Hypothesis Hid : journal_id_valid id.

Notation stage := (stage_path id).
Definition artifact (name : string) : FsPath := stage_path id ++ [name].

Lemma artifact_staged name rest : staged (artifact name ++ rest) = true.
Proof. by apply bool_decide_eq_true. Qed.

Lemma same_insert t p n : staged p = true -> same_published t0 t -> same_published t0 (<[p := n]> t).
Proof. apply (agree_insert (fun p => staged p = true)). Qed.
Lemma same_delete t p : staged p = true -> same_published t0 t -> same_published t0 (delete p t).
Proof. apply (agree_delete (fun p => staged p = true)). Qed.

(** The directory of the journal, with nothing inside but [names]. *)
Definition stage_holds (names : list string) (t : FsTree) : Prop :=
  t !! stage = Some FsDirectory /\ forall name, name ∉ names -> clear (artifact name) t.

Definition preparing (names : list string) (t : FsTree) : Prop := same_published t0 t /\ stage_holds names t.

Lemma artifact_apart name other : name <> other -> apart (artifact name) (artifact other).
Proof. intros Hne. by apply apart_cons, apart_cons, apart_heads. Qed.

Lemma preparing_insert names name rest n t : name ∈ names ->
  preparing names t -> preparing names (<[artifact name ++ rest := n]> t).
Proof.
  intros Hin [Hs [Hdir Hc]]. split; [apply same_insert; [apply artifact_staged|done]|]. split.
  - rewrite lookup_insert_ne; [done|]. done.
  - intros other Hother rest'. rewrite lookup_insert_ne; [by apply Hc|].
    apply apart_apps, artifact_apart. by intros ->.
Qed.

Lemma preparing_more names name t : preparing names t -> preparing (name :: names) t.
Proof. intros [Hs [Hdir Hc]]. split; [done|]. split; [done|]. intros other Hother. apply Hc. set_solver. Qed.

Hypothesis Hwf : tree_wf t0.

Lemma prepare_stage_directory_spec :
  fs_spec (eq t0) (prepare_stage_directory stage) (fun _ => preparing []) (same_published t0).
Proof.
  apply fs_spec_get. intros ? <-.
  set (P t := same_published t0 t /\ (t0 !! stage = t !! stage) /\ forall name, t !! stage = None -> clear (artifact name) t).
  assert (P t0) as HP0.
  { split_and!; [done..|]. intros name Hnone rest. unfold artifact. rewrite <- app_assoc. by apply tree_wf_clear. }
  apply (fs_spec_seq _ _ _ P).
  - destruct (fs_node [STAGING_DIRECTORY] t0) as [[|]|]; [by apply fs_spec_throw; intros ? <-|by apply fs_spec_ret; intros ? <-|].
    apply fs_spec_create_dir; [done| |by intros ? <-]. intros ? <- Hnone.
    split_and!; [by apply same_insert|by rewrite lookup_insert_ne|].
    intros name Hstage rest. rewrite lookup_insert_ne in Hstage by done. rewrite lookup_insert_ne by done.
    by apply HP0.
  - apply fs_spec_create_dir; [done| |by intros t []]. intros t (Hs & _ & Hc) Hnone.
    split; [by apply same_insert|]. split; [apply lookup_insert_eq|].
    intros name _ rest. rewrite lookup_insert_ne by (unfold artifact; by rewrite <- app_assoc). by apply Hc.
Qed.

(** Writing one staged file. *)
Lemma write_synced_spec name rest content names : name ∈ names ->
  fs_spec (preparing names) (write_synced (artifact name ++ rest) content)
    (fun _ t => preparing names t /\ t !! (artifact name ++ rest) = Some (FsFile content)) (same_published t0).
Proof.
  intros Hin. apply (fs_spec_seq _ _ _ (preparing names)).
  - apply fs_spec_create_new; [done| |by intros t []]. intros t Ht _. by apply preparing_insert.
  - apply fs_spec_write_all; [|by intros t []]. intros t Ht. split; [by apply preparing_insert|apply lookup_insert_eq].
Qed.

Definition present (existed : bool) (p : FsPath) : Prop :=
  if existed then exists content, t0 !! p = Some (FsFile content) else t0 !! p = None.

Lemma regular_file_exists_spec p P : staged p = false -> p <> [] -> (forall t, P t -> same_published t0 t) ->
  fs_spec P (regular_file_exists p) (fun existed t => present existed p /\ P t) (same_published t0).
Proof.
  intros Hp Hne HP. apply fs_spec_get. intros t Ht.
  assert (fs_node p t = t0 !! p) as ->.
  { rewrite <- (same_published_lookup t0 t) by auto. by destruct p. }
  destruct (t0 !! p) as [[content|]|] eqn:Hnode.
  - apply fs_spec_ret. intros ? <-. split; [by exists content|done].
  - apply fs_spec_throw. intros ? <-. auto.
  - apply fs_spec_ret. by intros ? <-.
Qed.

Lemma require_target_spec create_only existed detail detail' P R : (forall t, P t -> R t) ->
  fs_spec P (require_target create_only existed detail detail') (fun _ t => existed = negb create_only /\ P t) R.
Proof.
  intros HR. unfold require_target.
  destruct create_only, existed; cbn; [by apply fs_spec_throw|by apply fs_spec_ret..|by apply fs_spec_throw].
Qed.

Definition write_plan (target : string) (existed : bool) (hash : string) : FilesystemMutationPlan := {|
  plan_version := PLAN_VERSION;
  plan_journal_id := journal_id_text id;
  plan_kind := Kind_WriteFile;
  plan_target := target;
  plan_stage_directory := stage_relative_of id;
  plan_candidate := Some (stage_relative_of id +:+ "/candidate.yaml");
  plan_backup_path := if existed then Some (stage_relative_of id +:+ "/backup.yaml") else None;
  plan_target_existed := existed;
  plan_candidate_sha256 := Some hash;
  plan_writes := [];
  plan_playlists := [] |}.

Definition create_plan (target : string) : FilesystemMutationPlan := {|
  plan_version := PLAN_VERSION;
  plan_journal_id := journal_id_text id;
  plan_kind := Kind_CreateMode;
  plan_target := target;
  plan_stage_directory := stage_relative_of id;
  plan_candidate := Some (stage_relative_of id +:+ "/candidate");
  plan_backup_path := None;
  plan_target_existed := false;
  plan_candidate_sha256 := None;
  plan_writes := [];
  plan_playlists := [] |}.

(** The document a mutation writes, and the target it deletes. *)
Definition put_document (mutation : ModeMutation) : option (string * result YamlDocumentError string * bool) :=
  match mutation with
  | PutManifest _ mode_id manifest => Some (manifest_path mode_id, serialize_document manifest, false)
  | PutSoundboard _ mode_id soundboard_id document create_only =>
      Some (document_path mode_id "soundboards" soundboard_id, serialize_document document, create_only)
  | PutCue _ mode_id cue_id document create_only =>
      Some (document_path mode_id "cues" cue_id, serialize_document document, create_only)
  | PutPreset _ mode_id preset_id document create_only =>
      Some (document_path mode_id "presets" preset_id, serialize_document document, create_only)
  | _ => None
  end.
Definition deleted_target (mutation : ModeMutation) : option (FilesystemMutationKind * string) :=
  match mutation with
  | DeleteMode _ mode_id => Some (Kind_DeleteMode, mode_id)
  | DeleteSoundboard _ mode_id soundboard_id =>
      Some (Kind_DeleteFile, document_path mode_id "soundboards" soundboard_id)
  | DeleteCue _ mode_id cue_id => Some (Kind_DeleteFile, document_path mode_id "cues" cue_id)
  | DeletePreset _ mode_id preset_id => Some (Kind_DeleteFile, document_path mode_id "presets" preset_id)
  | _ => None
  end.
Definition new_mode (mutation : ModeMutation) : option ModeDocument :=
  match mutation with CreateMode _ manifest => Some manifest | _ => None end.

(** A staged mode has its manifest, its marker and three empty directories. *)
Definition mode_directory (root : FsPath) (manifest_text : string) (t : FsTree) : Prop :=
  t !! root = Some FsDirectory /\
  t !! (root ++ ["manifest.yaml"]) = Some (FsFile manifest_text) /\
  t !! (root ++ [MODE_MARKER]) = Some (FsFile (journal_id_text id)) /\
  forall directory, directory ∈ ["soundboards"; "cues"; "presets"] -> t !! (root ++ [directory]) = Some FsDirectory.

Inductive staged_plan (mutation : ModeMutation) (t : FsTree) : FilesystemMutationPlan -> Prop :=
| staged_write target text create_only path :
    put_document mutation = Some (target, Ok text, create_only) -> rooted_target target = Ok path ->
    present (negb create_only) path ->
    stage_holds ["candidate.yaml"] t -> single_file (artifact "candidate.yaml") text t ->
    staged_plan mutation t (write_plan target (negb create_only) (sha256_hex text))
| staged_deletion kind target path :
    deleted_target mutation = Some (kind, target) -> rooted_target target = Ok path -> is_Some (t0 !! path) ->
    stage_holds [] t -> staged_plan mutation t (delete_plan id kind target (stage_relative_of id))
| staged_mode manifest text path :
    new_mode mutation = Some manifest -> rooted_target (manifest_id manifest) = Ok path -> t0 !! path = None ->
    serialize_document manifest = Ok text -> stage_holds ["candidate"] t ->
    mode_directory (artifact "candidate") text t -> staged_plan mutation t (create_plan (manifest_id manifest))
| staged_import plan :
    (exists generation mode_id manifest soundboards cues presets playlists,
       mutation = ImportResources generation mode_id manifest soundboards cues presets playlists) ->
    staged_plan mutation t plan.

(* ------------------------------------------------------------------ *)
(** ** Preparing one mutation *)

Notation staging := (mkStaging stage (stage_relative_of id) id).
Definition staged_file (name content : string) (t : FsTree) : Prop :=
  same_published t0 t /\ stage_holds [name] t /\ single_file (artifact name) content t.

Lemma insert_staged_file name content t : preparing [name] t -> (forall c rest, t !! (artifact name ++ c :: rest) = None) ->
  staged_file name content (<[artifact name := FsFile content]> t).
Proof.
  intros Ht Hbelow. pose proof (preparing_insert [name] name [] (FsFile content) t) as Hins.
  rewrite app_nil_r in Hins. destruct Hins as [Hs Hh]; [set_solver|done|]. split_and!; [done..|].
  split; [apply lookup_insert_eq|]. intros c rest. rewrite lookup_insert_ne; [apply Hbelow|].
  intros Heq. rewrite <- (app_nil_r (artifact name)) in Heq at 1. by apply app_inv_head in Heq.
Qed.

Lemma write_file_spec name content :
  fs_spec (preparing []) (write_synced (artifact name) content) (fun _ => staged_file name content) (same_published t0).
Proof.
  apply (fs_spec_seq _ _ _ (staged_file name "")).
  - apply fs_spec_create_new; [done| |by intros t []]. intros t Ht _.
    apply insert_staged_file; [by apply preparing_more|]. intros c rest. destruct Ht as (_ & _ & Hc). apply Hc. set_solver.
  - apply fs_spec_write_all; [|by intros t []]. intros t (Hs & Hh & [_ Hb]). by apply insert_staged_file.
Qed.

Lemma stage_file_spec {A} name content (k : string -> fs A) (Q : A -> FsTree -> Prop) :
  fs_spec (staged_file name content) (k (sha256_hex content)) Q (same_published t0) ->
  fs_spec (preparing []) (_ ← write_synced (artifact name) content; hash ← sha256_file (artifact name); k hash)
    Q (same_published t0).
Proof.
  intros Hk. eapply fs_spec_seq; [apply write_file_spec|].
  eapply (fs_spec_bind _ _ _ (fun hash t => hash = sha256_hex content /\ staged_file name content t)).
  - apply fs_spec_sha256; [|by intros t []]. intros t found Ht Hfound. split; [|done].
    destruct Ht as (_ & _ & [Hf _]). congruence.
  - intros hash. by apply fs_spec_pure; intros ->.
Qed.

Lemma prepare_file_write_spec target text create_only :
  fs_spec (preparing []) (prepare_file_write staging target text create_only)
    (fun plan t => same_published t0 t /\ exists path, rooted_target target = Ok path /\
       plan = write_plan target (negb create_only) (sha256_hex text) /\
       present (negb create_only) path /\ stage_holds ["candidate.yaml"] t /\
       single_file (artifact "candidate.yaml") text t)
    (same_published t0).
Proof.
  unfold prepare_file_write. eapply (fs_spec_bind _ _ _ (fun path t => rooted_target target = Ok path /\ preparing [] t)).
  { by apply fs_spec_try; [|intros t []]. }
  intros path. apply fs_spec_pure. intros Hpath. destruct (rooted_target_ok _ _ Hpath) as (? & ? & Hcons & Hstaged).
  eapply fs_spec_bind; [apply regular_file_exists_spec; [done|by subst|by intros t []]|].
  intros existed. apply fs_spec_pure. intros Hpresent.
  eapply fs_spec_bind; [apply require_target_spec; by intros t []|]. intros []. apply fs_spec_pure. intros ->.
  apply (stage_file_spec "candidate.yaml" text). apply fs_spec_ret. intros t (Hs & Hh & Hf).
  split; [done|]. exists path. split_and!; [done| |done..]. by destruct create_only.
Qed.

Lemma prepare_document_spec {document} `{YamlText document} detail target (value : document) create_only :
  fs_spec (preparing []) (prepare_document staging detail target value create_only)
    (fun plan t => same_published t0 t /\ exists text path, serialize_document value = Ok text /\
       rooted_target target = Ok path /\
       plan = write_plan target (negb create_only) (sha256_hex text) /\
       present (negb create_only) path /\ stage_holds ["candidate.yaml"] t /\
       single_file (artifact "candidate.yaml") text t)
    (same_published t0).
Proof.
  unfold prepare_document, dependency_error.
  eapply (fs_spec_bind _ _ _ (fun text t => serialize_document value = Ok text /\ preparing [] t)).
  { apply fs_spec_try; [|by intros t []]. intros text t Hok Ht. split; [|done].
    destruct (serialize_document value); [by injection Hok as <-|done]. }
  intros text. apply fs_spec_pure. intros Htext.
  eapply fs_spec_weaken; [apply prepare_file_write_spec|done| |done].
  intros plan t (Hs & path & Hrest). split; [done|]. exists text, path. tauto.
Qed.

Lemma prepare_file_delete_spec target :
  fs_spec (preparing []) (prepare_file_delete staging target)
    (fun plan t => same_published t0 t /\ exists path, rooted_target target = Ok path /\
       plan = delete_plan id Kind_DeleteFile target (stage_relative_of id) /\
       is_Some (t0 !! path) /\ stage_holds [] t)
    (same_published t0).
Proof.
  unfold prepare_file_delete. eapply (fs_spec_bind _ _ _ (fun path t => rooted_target target = Ok path /\ preparing [] t)).
  { by apply fs_spec_try; [|intros t []]. }
  intros path. apply fs_spec_pure. intros Hpath. destruct (rooted_target_ok _ _ Hpath) as (? & ? & Hcons & Hstaged).
  eapply fs_spec_bind; [apply regular_file_exists_spec; [done|by subst|by intros t []]|].
  intros existed. apply fs_spec_pure. intros Hpresent.
  destruct existed; [|by apply fs_spec_throw; intros t []]. destruct Hpresent as [content Hcontent].
  apply fs_spec_ret. intros t [Hs Hh]. split; [done|]. exists path. split_and!; [done..|by eexists|done].
Qed.

Lemma published_node t path : same_published t0 t -> staged path = false -> path <> [] -> fs_node path t = t0 !! path.
Proof. intros Hs Hp Hne. rewrite <- (same_published_lookup t0 t path Hs Hp). by destruct path. Qed.

Lemma ensure_mode_target_spec mode_id :
  fs_spec (preparing []) (ensure_mode_target mode_id)
    (fun _ t => preparing [] t /\ exists path, rooted_target mode_id = Ok path /\ is_Some (t0 !! path))
    (same_published t0).
Proof.
  eapply (fs_spec_bind _ _ _ (fun path t => rooted_target mode_id = Ok path /\ preparing [] t)).
  { by apply fs_spec_try; [|intros t []]. }
  intros path. apply fs_spec_pure. intros Hpath. destruct (rooted_target_ok _ _ Hpath) as (? & ? & Hcons & Hstaged).
  apply fs_spec_get. intros t Ht. rewrite published_node by (apply Ht || done || by subst).
  destruct (t0 !! path) as [[|]|] eqn:Hnode; [apply fs_spec_throw; by intros ? <-; destruct Ht| |apply fs_spec_throw; by intros ? <-; destruct Ht].
  apply fs_spec_ret. intros ? <-. split; [done|]. exists path. by rewrite Hnode.
Qed.

Lemma ensure_mode_target_absent_spec mode_id :
  fs_spec (preparing []) (ensure_mode_target_absent mode_id)
    (fun _ t => preparing [] t /\ exists path, rooted_target mode_id = Ok path /\ t0 !! path = None)
    (same_published t0).
Proof.
  eapply (fs_spec_bind _ _ _ (fun path t => rooted_target mode_id = Ok path /\ preparing [] t)).
  { by apply fs_spec_try; [|intros t []]. }
  intros path. apply fs_spec_pure. intros Hpath. destruct (rooted_target_ok _ _ Hpath) as (? & ? & Hcons & Hstaged).
  apply fs_spec_get. intros t Ht. unfold fs_exists. rewrite published_node by (apply Ht || done || by subst).
  case_bool_decide as Hsome; [apply fs_spec_throw; by intros ? <-; destruct Ht|].
  apply fs_spec_ret. intros ? <-. split; [done|]. exists path. by rewrite eq_None_not_Some.
Qed.

(** Building the directory of a new mode entry by entry. *)
Definition building (entries : list (FsPath * FsNode)) (t : FsTree) : Prop :=
  preparing ["candidate"] t /\ Forall (fun entry => t !! entry.1 = Some entry.2) entries.

Lemma building_insert entries rest n t : building entries t ->
  Forall (fun entry => entry.1 <> artifact "candidate" ++ rest) entries ->
  building ((artifact "candidate" ++ rest, n) :: entries) (<[artifact "candidate" ++ rest := n]> t).
Proof.
  intros [Ht Hall] Hne. split; [by apply preparing_insert; [set_solver|]|]. constructor; [apply lookup_insert_eq|].
  rewrite Forall_forall in *. intros entry Hin. rewrite lookup_insert_ne; [by apply Hall|].
  intros Heq. by apply (Hne entry).
Qed.

Lemma building_fresh entries rest t : building entries t -> t !! (artifact "candidate" ++ rest) = None ->
  Forall (fun entry => entry.1 <> artifact "candidate" ++ rest) entries.
Proof.
  intros [_ Hall] Hnone. eapply Forall_impl; [exact Hall|]. intros [p n] Hp Heq. cbn in *. congruence.
Qed.

Lemma build_directory_spec entries detail rest :
  fs_spec (building entries) (fs_create_dir detail (artifact "candidate" ++ rest))
    (fun _ => building ((artifact "candidate" ++ rest, FsDirectory) :: entries)) (same_published t0).
Proof.
  apply fs_spec_create_dir; [done| |by intros t [[]]]. intros t Ht Hnone.
  apply building_insert; [done|]. by eapply building_fresh.
Qed.

Lemma build_file_spec entries rest content :
  fs_spec (building entries) (write_synced (artifact "candidate" ++ rest) content)
    (fun _ => building ((artifact "candidate" ++ rest, FsFile content) :: entries)) (same_published t0).
Proof.
  apply (fs_spec_seq _ _ _ (fun t => building entries t /\
    Forall (fun entry => entry.1 <> artifact "candidate" ++ rest) entries)).
  - apply fs_spec_create_new; [done| |by intros t [[]]]. intros t Ht Hnone.
    pose proof (building_fresh _ _ _ Ht Hnone) as Hne. split; [|done].
    destruct (building_insert entries rest (FsFile "") t Ht Hne) as [Hb [_ Hall]%Forall_cons]. by split.
  - apply fs_spec_write_all; [|by intros t [[[]]]]. intros t [Ht Hne]. by apply building_insert.
Qed.

Lemma serialized_spec {document} `{YamlText document} (value : document) detail P :
  (forall t, P t -> same_published t0 t) ->
  fs_spec P (dependency_error detail (serialize_document value))
    (fun text t => serialize_document value = Ok text /\ P t) (same_published t0).
Proof.
  intros HP. apply fs_spec_try; [|done]. intros text t Hok Ht. split; [|done].
  destruct (serialize_document value); [by injection Hok as <-|done].
Qed.

Lemma stage_mode_spec manifest :
  fs_spec (preparing []) (stage_mode staging manifest)
    (fun plan t => same_published t0 t /\ exists text path, plan = create_plan (manifest_id manifest) /\
       rooted_target (manifest_id manifest) = Ok path /\ t0 !! path = None /\
       serialize_document manifest = Ok text /\ stage_holds ["candidate"] t /\
       mode_directory (artifact "candidate") text t)
    (same_published t0).
Proof.
  unfold stage_mode. eapply fs_spec_seq; [apply ensure_mode_target_absent_spec|].
  eapply (fs_spec_pre (fun t => (exists path, rooted_target (manifest_id manifest) = Ok path /\ t0 !! path = None)
    /\ building [] t)); [|intros t [Ht Hpath]; split; [done|]; split; [by apply preparing_more|by apply Forall_nil]].
  apply fs_spec_pure. intros (path & Hpath & Hnone).
  eapply fs_spec_seq.
  { pose proof (build_directory_spec [] "mode candidate could not be created" []) as Hbuild.
    rewrite app_nil_r in Hbuild. exact Hbuild. }
  eapply fs_spec_seq; [apply (build_directory_spec _ _ ["soundboards"])|].
  eapply fs_spec_seq; [apply (build_directory_spec _ _ ["cues"])|].
  eapply fs_spec_seq; [apply (build_directory_spec _ _ ["presets"])|].
  eapply fs_spec_bind; [apply serialized_spec; by intros t [[]]|]. intros text. apply fs_spec_pure. intros Htext.
  eapply fs_spec_seq; [apply (build_file_spec _ ["manifest.yaml"])|].
  eapply fs_spec_seq; [apply (build_file_spec _ [MODE_MARKER])|].
  apply fs_spec_ret. intros t [[Hs Hh] Hall].
  split; [done|]. exists text, path. split_and!; [done..|].
  rewrite !Forall_cons in Hall. destruct Hall as (Hmark & Hman & Hpre & Hcue & Hsound & Hdir & _). cbn in *.
  split_and!; [done..|]. intros directory Hin. set_solver.
Qed.

(** An import only writes staged files. *)
Lemma stage_import_write_spec index target content create_only :
  fs_spec (same_published t0) (stage_import_write staging index target content create_only)
    (fun _ => same_published t0) (same_published t0).
Proof.
  unfold stage_import_write. eapply fs_spec_bind; [by apply (fs_spec_try _ _ (fun _ => same_published t0))|]. intros path.
  eapply (fs_spec_bind _ _ _ (fun _ => same_published t0)).
  { apply fs_spec_get. intros t Ht. destruct (fs_node path t) as [[]|];
      [apply fs_spec_ret|apply fs_spec_throw|apply fs_spec_ret]; by intros ? <-. }
  intros existed. eapply fs_spec_bind; [by apply require_target_spec|]. intros []. apply fs_spec_pure. intros _.
  set (file := artifact ("candidate-" +:+ pretty index +:+ ".yaml")). assert (staged file = true) as Hfile.
  { unfold file, artifact. apply bool_decide_eq_true. done. }
  apply (fs_spec_seq _ _ _ (same_published t0)).
  - change (staging_stage staging ++ _) with file. apply (fs_spec_seq _ _ _ (same_published t0)).
    + apply fs_spec_create_new; [done|intros t Ht _; by apply same_insert|done].
    + apply fs_spec_write_all; [intros t Ht; by apply same_insert|done].
  - eapply (fs_spec_bind _ _ _ (fun _ => same_published t0)); [by apply fs_spec_sha256|].
    intros hash. by apply fs_spec_ret.
Qed.

Lemma stage_import_writes_spec documents : forall index,
  fs_spec (same_published t0) (stage_import_writes staging index documents)
    (fun _ => same_published t0) (same_published t0).
Proof.
  induction documents as [|[[target content] create_only] documents IH]; intros index; [by apply fs_spec_ret|].
  eapply fs_spec_bind; [apply stage_import_write_spec|]. intros write. cbv beta.
  eapply fs_spec_bind; [apply IH|]. intros writes. by apply fs_spec_ret.
Qed.

Lemma prepare_import_spec mode_id manifest soundboards cues presets playlists :
  fs_spec (preparing []) (prepare_import_resources staging mode_id manifest soundboards cues presets playlists)
    (fun _ => same_published t0) (same_published t0).
Proof.
  unfold prepare_import_resources. apply (fs_spec_seq _ _ _ (same_published t0)).
  { eapply fs_spec_weaken; [apply ensure_mode_target_spec|done| |done]. by intros ? t [[] _]. }
  eapply fs_spec_bind; [by apply serialized_spec|]. intros text. apply fs_spec_pure. intros _.
  do 3 (eapply fs_spec_bind; [by apply (fs_spec_try _ _ (fun _ => same_published t0))|]; intros ?; cbv beta).
  eapply fs_spec_bind; [apply stage_import_writes_spec|]. intros writes. by apply fs_spec_ret.
Qed.

Lemma prepare_plan_spec mutation :
  fs_spec (preparing []) (prepare_plan staging mutation)
    (fun prepared t => same_published t0 t /\ staged_plan mutation t prepared.2) (same_published t0).
Proof.
  assert (forall document `{YamlText document} detail target (value : document) create_only name,
    put_document mutation = Some (target, serialize_document value, create_only) ->
    fs_spec (preparing []) (plan ← prepare_document staging detail target value create_only; mret (name, plan))
      (fun (prepared : string * FilesystemMutationPlan) t => same_published t0 t /\ staged_plan mutation t prepared.2)
      (same_published t0)) as Hput.
  { intros document Hyaml detail target value create_only name Hdoc.
    eapply fs_spec_bind; [apply prepare_document_spec|]. intros plan. apply fs_spec_ret.
    intros t (Hs & text & path & Htext & Hpath & -> & Hpresent & Hh & Hf). split; [done|].
    apply (staged_write _ _ _ _ _ path); [by rewrite Hdoc, Htext|done..]. }
  assert (forall target name, deleted_target mutation = Some (Kind_DeleteFile, target) ->
    fs_spec (preparing []) (plan ← prepare_file_delete staging target; mret (name, plan))
      (fun (prepared : string * FilesystemMutationPlan) t => same_published t0 t /\ staged_plan mutation t prepared.2)
      (same_published t0)) as Hdelete.
  { intros target name Hdel. eapply fs_spec_bind; [apply prepare_file_delete_spec|]. intros plan. apply fs_spec_ret.
    intros t (Hs & path & Hpath & -> & Hsome & Hh). split; [done|]. by apply (staged_deletion _ _ _ _ path). }
  destruct mutation; cbn [prepare_plan]; try (apply Hput; reflexivity); try (apply Hdelete; reflexivity).
  - eapply fs_spec_bind; [apply stage_mode_spec|]. intros plan. apply fs_spec_ret.
    intros t (Hs & text & path & -> & Hpath & Hnone & Htext & Hh & Hm). split; [done|].
    by eapply staged_mode.
  - eapply fs_spec_seq; [apply ensure_mode_target_spec|]. apply fs_spec_ret.
    intros t ([Hs Hh] & path & Hpath & Hsome). split; [done|]. by eapply staged_deletion.
  - eapply fs_spec_bind; [apply prepare_import_spec|]. intros plan. apply fs_spec_ret.
    intros t Hs. split; [done|]. apply staged_import. naive_solver.
Qed.

(** The whole preparation, its clean-up included. *)
Lemma fs_prepare_spec mutation :
  fs_spec (eq t0) (fs_prepare id mutation)
    (fun prepared t => same_published t0 t /\
       exists plan, plan_to_value plan = Ok (prepared_plan prepared) /\ staged_plan mutation t plan)
    (same_published t0).
Proof.
  unfold fs_prepare. rewrite rooted_artifact_stage by done. eapply fs_spec_known; [done|].
  eapply fs_spec_seq; [apply prepare_stage_directory_spec|].
  eapply fs_spec_bind.
  { apply fs_spec_attempt. unfold prepare_inner. eapply fs_spec_bind; [apply prepare_plan_spec|].
    intros [operation plan]. cbn [snd]. unfold dependency_error.
    eapply (fs_spec_bind _ _ _ (fun _ t => same_published t0 t /\ staged_plan mutation t plan)).
    { by apply fs_spec_try; [|intros t []]. }
    intros parsed_operation.
    eapply (fs_spec_bind _ _ _ (fun value t => plan_to_value plan = Ok value /\
      same_published t0 t /\ staged_plan mutation t plan)).
    { apply fs_spec_try; [|by intros t []]. intros value t Hok Ht. split; [|done].
      destruct (plan_to_value plan); [by injection Hok as <-|done]. }
    intros value. apply fs_spec_pure. intros Hvalue.
    apply (fs_spec_ret _ _ (fun prepared t => same_published t0 t /\
      exists plan, plan_to_value plan = Ok (prepared_plan prepared) /\ staged_plan mutation t plan)).
    intros t [Hs Hplan]. split; [done|]. by exists plan. }
  intros [prepared|detail]; [by apply fs_spec_ret|].
  apply (fs_spec_seq _ _ _ (same_published t0)).
  { apply fs_spec_ignore. eapply fs_spec_weaken;
      [apply (fs_spec_remove_dir_all (same_published t0) _ stage (fun _ => same_published t0))|done..].
    - intros t c rest Ht. apply same_delete; [apply stage_path_staged|done].
    - intros t Ht _. by apply same_delete. }
  apply (fs_spec_seq _ _ _ (same_published t0)); [|by apply fs_spec_throw].
  apply fs_spec_ignore, fs_spec_remove_dir. intros t. by apply same_delete.
Qed.
End Staging.
