(* ===== verification/ModeMutationSpec.v ===== *)
(** * Mode mutations are atomic

    From the preparation to the last rollback: whatever call fails and wherever
    the process dies, a rollback that answers has put the published modes back,
    and a mutation that is applied is published as a whole. *)

From S2P Require Import Prelude Text RecoveryJournal Filesystem Modes ModeYaml.
From S2P Require Import ModeYaml ModeFiles.
From S2P Require Import MediaPath ModeKeeps ModeFilesSpec ModeStagingSpec.

#[local] Open Scope string_scope.
#[local] Open Scope list_scope.

(** One run of a program, under some faults. *)
Definition runs_to {A : Type} (m : fs A) (r : result FsError A) (t t' : FsTree) : Prop :=
  exists fates f', m (mkFilesystem t fates) = (r, f') /\ fs_tree f' = t'.

Lemma fs_spec_runs_to {A : Type} P (m : fs A) Q R r t t' : fs_spec P m Q R -> P t -> runs_to m r t t' ->
  match r with Ok a => Q a t' | Err _ => R t' end.
Proof. intros Hm Ht (fates & f' & Hrun & <-). exact (Hm (mkFilesystem t fates) r f' Ht Hrun). Qed.

Section Recovery.
Context `{PlanCodec, !PlanCodecSpec, Sha256}.

(** The journal entry a preparation led to. *)
Record journal_records (id : RecoveryJournalId) (prepared : PreparedModeMutation)
    (journal : RecoveryJournalEntry) : Prop := {
  records_id : entry_id journal = id;
  records_domain : entry_domain journal = Domain_Modes;
  records_plan : entry_plan journal = prepared_plan prepared
}.

(** The trees the process can leave: the mutation was not applied, or it was,
    completely or not; then any number of rollbacks did not complete. *)
Definition applied_or_not (journal : RecoveryJournalEntry) (tp t : FsTree) : Prop :=
  t = tp \/ exists r, runs_to (fs_apply journal) r tp t.
Definition failed_rollback (journal : RecoveryJournalEntry) (t t' : FsTree) : Prop :=
  exists e, runs_to (fs_rollback journal) (Err e) t t'.
Definition left_behind (journal : RecoveryJournalEntry) (tp t : FsTree) : Prop :=
  exists t1, applied_or_not journal tp t1 /\ rtc (failed_rollback journal) t1 t.

(** What makes a journaled plan recoverable. *)
Record recoverable (journal : RecoveryJournalEntry) (tp : FsTree) (inv undone : FsTree -> Prop) : Prop := {
  recoverable_prepared : inv tp;
  recoverable_apply : fs_spec (eq tp) (fs_apply journal) (fun _ => inv) inv;
  recoverable_rollback : fs_spec inv (fs_rollback journal) (fun _ => undone) inv
}.

Lemma left_behind_inv journal tp inv undone t :
  recoverable journal tp inv undone -> left_behind journal tp t -> inv t.
Proof.
  intros [Hp Ha Hr] (t1 & Ht1 & Hrtc).
  assert (inv t1) as Hinv.
  { destruct Ht1 as [->|[r Hrun]]; [done|]. pose proof (fs_spec_runs_to _ _ _ _ _ _ _ Ha eq_refl Hrun). by destruct r. }
  clear Ht1. induction Hrtc as [|t1 t2 t3 [e Hrun] _ IH]; [done|]. apply IH.
  exact (fs_spec_runs_to _ _ _ _ _ _ _ Hr Hinv Hrun).
Qed.

Lemma left_behind_undone journal tp inv undone t t' :
  recoverable journal tp inv undone -> left_behind journal tp t ->
  runs_to (fs_rollback journal) (Ok ()) t t' -> undone t'.
Proof.
  intros Hrec Hleft Hrun. pose proof (left_behind_inv _ _ _ _ _ Hrec Hleft) as Hinv.
  exact (fs_spec_runs_to _ _ _ _ _ _ _ (recoverable_rollback _ _ _ _ Hrec) Hinv Hrun).
Qed.

(* ------------------------------------------------------------------ *)
(** ** The frame of a mutation of one target *)

Section Target.
Variables (t0 tp : FsTree) (id : RecoveryJournalId) (journal : RecoveryJournalEntry)
  (prepared : PreparedModeMutation) (plan : FilesystemMutationPlan) (path : FsPath).
Hypothesis Hid : journal_id_valid id.
Hypothesis Hjournal : journal_records id prepared journal.
Hypothesis Hplan : plan_to_value plan = Ok (prepared_plan prepared).
Hypothesis Hversion : plan_version plan = PLAN_VERSION.
Hypothesis Hjid : plan_journal_id plan = journal_id_text id.
Hypothesis Hstage : plan_stage_directory plan = stage_relative_of id.
Hypothesis Htarget : rooted_target (plan_target plan) = Ok path.

Lemma target_unstaged : staged path = false /\ path <> [].
Proof. by destruct (rooted_target_ok _ _ Htarget) as (? & ? & -> & ?). Qed.

Lemma target_below_unstaged rest : staged (path ++ rest) = false.
Proof.
  destruct target_unstaged as [Hs Hne]. unfold staged in *. by destruct path.
Qed.

Lemma decode_journal : forall f, decode_plan journal f = (Ok plan, f).
Proof.
  intros f. destruct Hjournal as [Hi Hd Hp]. unfold decode_plan. rewrite Hd, bool_decide_true by done. cbn [negb].
  rewrite Hp, (plan_from_to_value plan) by done. unfold mbind, stateful_bind, try. cbn [map_err].
  rewrite Hversion, Hjid, Hi, Hstage, N.eqb_refl, String.eqb_refl. unfold stage_relative_of.
  by rewrite String.eqb_refl.
Qed.

Lemma target_apart name : apart path (artifact id name).
Proof.
  destruct target_unstaged as [Hs Hne]. destruct path as [|c rest]; [done|]. apply apart_heads.
  unfold staged in Hs. cbn in Hs. intros ->. by apply bool_decide_eq_false in Hs.
Qed.

Lemma staged_apart_target p : staged p = true -> forall rest, p <> path ++ rest.
Proof. intros Hp rest ->. by rewrite target_below_unstaged in Hp. Qed.

(** The staging directory is a directory or gone. *)
Definition stage_ok (t : FsTree) : Prop := t !! stage_path id = None \/ t !! stage_path id = Some FsDirectory.

(** The paths a mutation of [path] may change, and [extra] besides. *)
Variable extra : FsPath -> Prop.
Hypothesis Hextra : forall p, extra p -> staged p = false.
Definition touched (p : FsPath) : Prop :=
  (staged p = true /\ p <> stage_path id) \/ (exists rest, p = path ++ rest) \/ extra p.
Definition changed (p : FsPath) : Prop := staged p = true \/ (exists rest, p = path ++ rest) \/ extra p.
Definition frame (t : FsTree) : Prop := agree changed t0 t /\ stage_ok t.

Lemma touched_changed p : touched p -> changed p.
Proof. intros [[? _]|?]; [by left|by right]. Qed.

Lemma touched_not_stage p : touched p -> p <> stage_path id.
Proof.
  intros [[_ ?]|[[rest ->]|Hx]] Heq; [done|..].
  - symmetry in Heq. by eapply (staged_apart_target (stage_path id)).
  - apply Hextra in Hx. by rewrite Heq in Hx.
Qed.

Lemma frame_is_frame : frame_of touched frame.
Proof.
  apply frame_and.
  - split; intros; [apply agree_insert|apply agree_delete|apply agree_move]; auto using touched_changed.
  - split; unfold stage_ok.
    + intros p n t Hp Ht. rewrite lookup_insert_ne; [done|by apply touched_not_stage].
    + intros p t Hp Ht. rewrite lookup_delete_ne; [done|by apply touched_not_stage].
    + intros src dst t Hap Hc Hsrc Hdst Ht. rewrite move_frame; [done|done|done|..];
        apply strip_None; intros rest Heq; [apply (touched_not_stage _ (Hsrc rest))|apply (touched_not_stage _ (Hdst rest))]; done.
Qed.

Lemma touched_target rest : touched (path ++ rest).
Proof. right. left. by eexists. Qed.

Lemma touched_artifact name rest : touched (artifact id name ++ rest).
Proof. left. split; [apply artifact_staged|]. done. Qed.

Lemma frame_delete_staged t p : staged p = true -> frame t -> frame (delete p t).
Proof.
  intros Hp [Ha Hs]. split; [apply agree_delete; [by left|done]|]. unfold stage_ok.
  destruct (decide (p = stage_path id)) as [->|Hne]; [left; apply lookup_delete_eq|by rewrite lookup_delete_ne].
Qed.

Lemma frame_published t : frame t -> clear path t -> clear path t0 -> (forall p, ~ extra p) -> same_published t0 t.
Proof.
  intros [Ha _] Hc Hc0 Hx p Hp. destruct (decide (is_Some (strip path p))) as [[rest ->%strip_Some]|Hstrip].
  - by rewrite Hc, Hc0.
  - apply Ha. intros [?|[[rest ->]|?]]; [done| |by eapply Hx]. apply Hstrip. by rewrite strip_app.
Qed.

Lemma frame_in_place t : frame t -> same_below path t path t0 -> (forall p, ~ extra p) -> same_published t0 t.
Proof.
  intros [Ha _] Hsame Hx p Hp. destruct (decide (is_Some (strip path p))) as [[rest ->%strip_Some]|Hstrip].
  - apply Hsame.
  - apply Ha. intros [?|[[rest ->]|?]]; [done| |by eapply Hx]. apply Hstrip. by rewrite strip_app.
Qed.

Lemma same_published_frame t : same_published t0 t -> stage_ok t -> frame t.
Proof. intros Hs Hok. split; [|done]. intros p Hp. apply Hs. intros ?. by apply Hp; left. Qed.

Lemma same_below_published t : same_published t0 t -> same_below path t path t0.
Proof. intros Hs rest. apply Hs. by rewrite target_below_unstaged. Qed.

Lemma staged_delete_below t p q u : staged p = true -> same_below path t q u -> same_below path (delete p t) q u.
Proof. intros Hp Hs rest. rewrite lookup_delete_ne; [apply Hs|by apply staged_apart_target]. Qed.

Lemma candidate_left_delete C content p t :
  candidate_left C content t -> candidate_left C content (delete p t).
Proof.
  intros [[Hf Hb]|Hc]; [|right; by apply clear_delete].
  destruct (decide (p = C)) as [->|Hne].
  - right. by apply (single_file_delete _ content).
  - left. split; [by rewrite lookup_delete_ne|]. intros c rest. apply lookup_delete_None. right. apply Hb.
Qed.

Hypothesis Hwf : tree_wf t0.
Lemma frame_parent t : frame t -> (forall p, ~ extra p) -> is_Some (t0 !! path) -> parent_is_dir path t = true.
Proof.
  intros [Ha _] Hx Hsome. destruct target_unstaged as [Hs Hne].
  pose proof (tree_wf_parent path t0 Hwf Hne Hsome) as Hdir. unfold parent_is_dir in *.
  destruct (exists_last Hne) as (q & c & Heq). rewrite Heq in *. rewrite removelast_last in *.
  destruct (q ++ [c]) eqn:Hq; [by destruct q|]. rewrite <- Hq in *. clear Hq.
  unfold fs_is_dir, fs_node in *. destruct q as [|d q]; [done|].
  rewrite Ha; [done|]. intros [Hst|[[rest Hr]|Hex]]; [|..|by eapply Hx].
  - unfold staged in *. cbn in *. congruence.
  - apply (f_equal length) in Hr. apply (f_equal length) in Heq. rewrite !length_app in Hr, Heq. cbn in Hr, Heq. lia.
Qed.

Lemma known_target : forall f : Filesystem, @try Filesystem FsError _ (rooted_target (plan_target plan)) f = (Ok path, f).
Proof. intros f. unfold try. by rewrite Htarget. Qed.

Lemma known_artifact detail name (relative : option string) journal_id :
  relative = Some (stage_relative_of id +:+ String slash name) -> plain_name name = true ->
  (String.length name <= 400)%nat -> journal_id = journal_id_text id ->
  forall f, required_artifact detail relative journal_id f = (Ok (artifact id name), f).
Proof.
  intros -> Hname Hlen -> f. unfold required_artifact, mbind, stateful_bind, try. cbn [ok_or].
  by rewrite rooted_artifact_name.
Qed.

(** The parts every apply and every rollback have in common. *)
Lemma apply_body_spec P Q R :
  (fs_spec P
    match plan_kind plan with
    | Kind_WriteFile => apply_file_write plan path
    | Kind_DeleteFile =>
        backup ← journal_backup plan journal;
        apply_deletion backup path "mode document could not be staged for deletion"
    | Kind_CreateMode =>
        candidate ← journal_candidate plan journal;
        t ← gets fs_tree;
        if fs_exists path t then
          matches ← mode_marker_matches path (journal_id_text (entry_id journal));
          if matches : bool then mret () else throw (Fs_failed "mode create target is occupied")
        else fs_rename "mode could not be published" candidate path
    | Kind_DeleteMode =>
        backup ← journal_backup plan journal;
        apply_deletion backup path "mode could not be staged for deletion"
    | Kind_ImportResources => apply_writes plan (plan_writes plan)
    end Q R) ->
  fs_spec P (fs_apply journal) Q R.
Proof.
  intros Hbody. unfold fs_apply. eapply fs_spec_known; [apply decode_journal|].
  eapply fs_spec_known; [apply known_target|].
  eapply fs_spec_known; [|exact Hbody].
  intros f. unfold try. by rewrite Hstage, (records_id _ _ _ Hjournal), rooted_artifact_stage.
Qed.

Definition rollback_body : fs () :=
  match plan_kind plan with
  | Kind_WriteFile => rollback_file_write plan path
  | Kind_DeleteFile | Kind_DeleteMode =>
      backup ← journal_backup plan journal;
      restore_backup backup path
  | Kind_CreateMode =>
      t ← gets fs_tree;
      if fs_exists path t then
        matches ← mode_marker_matches path (journal_id_text (entry_id journal));
        if negb matches then throw (Fs_failed "created mode changed before rollback")
        else fs_remove_dir_all "created mode could not be rolled back" path
      else mret ()
  | Kind_ImportResources => rollback_writes plan (rev (plan_writes plan))
  end.

Lemma rollback_parts_spec P (Q0 : FsTree -> Prop) R :
  fs_spec P rollback_body (fun _ => Q0) R -> staging_free Q0 -> (forall t, Q0 t -> R t) ->
  fs_spec P (fs_rollback journal) (fun _ => Q0) R.
Proof.
  intros Hbody Hfree HR. unfold fs_rollback. eapply fs_spec_known; [apply decode_journal|].
  eapply fs_spec_known; [apply known_target|]. apply (fs_spec_seq _ _ _ Q0); [exact Hbody|].
  rewrite (records_id _ _ _ Hjournal). eapply fs_spec_weaken; [by apply remove_stage_spec|done..].
Qed.

Lemma rollback_parts_runs P (Q0 : FsTree -> Prop) :
  fs_runs P rollback_body (fun _ => Q0) -> staging_free Q0 -> (forall t, Q0 t -> stage_ok t) ->
  fs_runs P (fs_rollback journal) (fun _ => Q0).
Proof.
  intros Hbody Hfree Hok. unfold fs_rollback. eapply fs_runs_known; [apply decode_journal|].
  eapply fs_runs_known; [apply known_target|]. apply (fs_runs_seq _ _ _ Q0); [exact Hbody|].
  rewrite (records_id _ _ _ Hjournal).
  eapply fs_runs_weaken; [by apply (remove_stage_runs _ _ Hid Hstage Q0)| |done]. intros t Ht. split; [done|by apply Hok].
Qed.

Hypothesis Hprepared : same_published t0 tp.

Lemma prepared_frame names : stage_holds id names tp -> frame tp.
Proof. intros [Hdir _]. apply same_published_frame; [done|by right]. Qed.

(** ** Deletions *)

Section Deletion.
Hypothesis Hnoextra : forall p, ~ extra p.
Hypothesis Hkind : plan_kind plan = Kind_DeleteFile \/ plan_kind plan = Kind_DeleteMode.
Hypothesis Hbackup : plan_backup_path plan = Some (stage_relative_of id +:+ "/backup").
Hypothesis Hthere : is_Some (t0 !! path).
Hypothesis Hholds : stage_holds id [] tp.

Notation backup := (artifact id "backup").
Notation deletable := (deleting t0 frame path backup).

Lemma known_backup : forall f, journal_backup plan journal f = (Ok backup, f).
Proof. apply known_artifact; [done|done|cbn; lia|by rewrite (records_id _ _ _ Hjournal)]. Qed.

Lemma deletion_prepared : in_place t0 frame path backup tp.
Proof.
  split_and!; [by eapply prepared_frame|by apply same_below_published|]. destruct Hholds as [_ Hc]. apply Hc. set_solver.
Qed.

Lemma in_place_free : staging_free (in_place t0 frame path backup).
Proof.
  intros t p Hp (Hf & Hs & Hc). split_and!; [by apply frame_delete_staged|by apply staged_delete_below|by apply clear_delete].
Qed.

Lemma deletion_applied : fs_spec (eq tp) (fs_apply journal) (fun _ => aside t0 frame path backup) deletable.
Proof.
  apply apply_body_spec. eapply fs_spec_pre; [|intros ? <-; apply deletion_prepared].
  destruct Hkind as [->| ->]; (eapply fs_spec_known; [apply known_backup|]);
    apply (apply_deletion_spec _ touched); auto using frame_is_frame, target_apart, touched_target, touched_artifact.
Qed.

Lemma deletion_rolled_back : fs_spec deletable (fs_rollback journal) (fun _ => in_place t0 frame path backup) deletable.
Proof.
  apply rollback_parts_spec; [|apply in_place_free|apply in_place_deleting].
  unfold rollback_body. destruct Hkind as [->| ->]; (eapply fs_spec_known; [apply known_backup|]);
    apply (restore_backup_spec _ touched); auto using frame_is_frame, target_apart, touched_target, touched_artifact.
Qed.

Lemma deletion_recoverable : recoverable journal tp deletable (fun t => deletable t /\ same_published t0 t).
Proof.
  split.
  - apply in_place_deleting, deletion_prepared.
  - eapply fs_spec_weaken; [apply deletion_applied|done| |done]. intros ? t; apply aside_deleting.
  - eapply fs_spec_weaken; [apply deletion_rolled_back|done| |done].
    intros ? t Hin. split; [by apply in_place_deleting|]. destruct Hin as (Hf & Hs & _). by apply frame_in_place.
Qed.

Lemma deletion_rollback_runs : fs_runs deletable (fs_rollback journal) (fun _ => in_place t0 frame path backup).
Proof.
  apply rollback_parts_runs; [|apply in_place_free|intros t (Hf & _ & _); exact (proj2 Hf)].
  unfold rollback_body. destruct Hkind as [->| ->]; (eapply fs_runs_known; [apply known_backup|]);
    apply (restore_backup_runs _ touched); auto using frame_is_frame, target_apart, touched_target, touched_artifact, frame_parent.
Qed.
End Deletion.

(** ** Documents that are written *)

Section Written.
Variable content : string.
Hypothesis Hkind : plan_kind plan = Kind_WriteFile.
Hypothesis Hcandidate : plan_candidate plan = Some (stage_relative_of id +:+ "/candidate.yaml").
Hypothesis Hhash : plan_candidate_sha256 plan = Some (sha256_hex content).
Hypothesis Hholds : stage_holds id ["candidate.yaml"] tp.
Hypothesis Hfile : single_file (artifact id "candidate.yaml") content tp.

Notation candidate := (artifact id "candidate.yaml").

Lemma known_candidate : forall f, plan_candidate_from_plan plan f = (Ok candidate, f).
Proof. apply known_artifact; [done|done|cbn; lia|done]. Qed.

Lemma known_hash detail : forall f : Filesystem,
  @try Filesystem FsError _ (ok_or (Fs_failed detail) (plan_candidate_sha256 plan)) f = (Ok (sha256_hex content), f).
Proof. intros f. unfold try. by rewrite Hhash. Qed.

Section Replacement.
Hypothesis Hnoextra : forall p, ~ extra p.
Hypothesis Hexisted : plan_target_existed plan = true.
Hypothesis Hbackup : plan_backup_path plan = Some (stage_relative_of id +:+ "/backup.yaml").
Hypothesis Hthere : is_Some (t0 !! path).

Notation backup := (artifact id "backup.yaml").
Notation replaceable := (replacing t0 frame path backup candidate content).

Lemma known_replacement_backup : forall f, required_artifact "mode backup is missing from the plan"
  (plan_backup_path plan) (plan_journal_id plan) f = (Ok backup, f).
Proof. apply known_artifact; [done|done|cbn; lia|done]. Qed.

Lemma replacement_prepared : prepared_replacement t0 frame path backup candidate content tp.
Proof.
  split; [|done]. split_and!; [by eapply prepared_frame|by apply same_below_published|].
  destruct Hholds as [_ Hc]. apply Hc. set_solver.
Qed.

Lemma undone_free : staging_free (replacement_undone t0 frame path backup candidate content).
Proof.
  intros t p Hp [(Hf & Hs & Hc) Hleft].
  split; [split_and!; [by apply frame_delete_staged|by apply staged_delete_below|by apply clear_delete]|].
  by apply candidate_left_delete.
Qed.

Lemma replacement_applied : fs_spec (eq tp) (fs_apply journal)
  (fun _ => replaced t0 frame path backup candidate content) replaceable.
Proof.
  apply apply_body_spec. rewrite Hkind. eapply fs_spec_pre; [|intros ? <-; apply replacement_prepared].
  unfold apply_file_write. eapply fs_spec_known; [apply known_candidate|].
  eapply fs_spec_known; [apply known_hash|]. rewrite Hexisted.
  apply (apply_replacement_spec _ touched); auto using frame_is_frame, target_apart, artifact_apart, touched_target, touched_artifact, known_replacement_backup.
Qed.

Lemma replacement_rolled_back : fs_spec replaceable (fs_rollback journal)
  (fun _ => replacement_undone t0 frame path backup candidate content) replaceable.
Proof.
  apply rollback_parts_spec; [|apply undone_free|intros t; by apply undone_replacing].
  unfold rollback_body. rewrite Hkind.
  apply (rollback_replacement_spec _ touched); auto using frame_is_frame, target_apart, artifact_apart, touched_target, touched_artifact, known_replacement_backup.
Qed.

Lemma prepared_undone : replacement_undone t0 frame path backup candidate content tp.
Proof. destruct replacement_prepared as [Hin Hf]. split; [done|by left]. Qed.

Lemma replacement_recoverable : recoverable journal tp replaceable (fun t => replaceable t /\ same_published t0 t).
Proof.
  split.
  - apply prepared_replacing, replacement_prepared.
  - eapply fs_spec_weaken; [apply replacement_applied|done| |done]. intros ? t; apply replaced_replacing.
  - eapply fs_spec_weaken; [apply replacement_rolled_back|done| |done].
    intros ? t Hin. split; [by apply undone_replacing|]. destruct Hin as [(Hf & Hs & _) _]. by apply frame_in_place.
Qed.

Lemma replacement_rollback_runs : fs_runs replaceable (fs_rollback journal)
  (fun _ => replacement_undone t0 frame path backup candidate content).
Proof.
  apply rollback_parts_runs; [|apply undone_free|intros t [(Hf & _ & _) _]; exact (proj2 Hf)].
  unfold rollback_body. rewrite Hkind.
  apply (rollback_replacement_runs _ touched); auto using frame_is_frame, target_apart, artifact_apart, touched_target, touched_artifact, known_replacement_backup, frame_parent.
Qed.
End Replacement.

Section Creation.
Hypothesis Hparent_extra : forall p, extra p <-> p = removelast path.
Hypothesis Hexisted : plan_target_existed plan = false.
Hypothesis Hnone : t0 !! path = None.

Notation creatable := (creating t0 frame path candidate content).

Lemma parent_unstaged : staged (removelast path) = false.
Proof. by apply Hextra, Hparent_extra. Qed.

Lemma parent_not_staged p : staged p = true -> p <> removelast path.
Proof. intros Hp ->. by rewrite parent_unstaged in Hp. Qed.

Lemma target_clear : clear path t0.
Proof. by apply tree_wf_clear; [|apply target_unstaged|]. Qed.

Lemma parent_published t : same_published t0 t -> fs_node (removelast path) t = fs_node (removelast path) t0.
Proof.
  intros Hs. pose proof parent_unstaged as Hu. revert Hu. unfold fs_node. generalize (removelast path).
  intros [|c q] Hu; [done|]. by apply same_published_lookup.
Qed.

Lemma parent_made_free t p : staged p = true -> parent_made t0 path t -> parent_made t0 path (delete p t).
Proof.
  intros Hp. unfold parent_made. rewrite parent_node_delete; [done|by apply parent_not_staged|by intros ->].
Qed.

Lemma creation_prepared : prepared_creation t0 frame path candidate content tp.
Proof.
  split_and!; [by eapply prepared_frame|left; by apply parent_published|done|].
  eapply same_below_clear; [by apply same_below_published|apply target_clear].
Qed.

Lemma creating_free : staging_free creatable.
Proof.
  intros t p Hp (Hf & Hm & Hc & HT). split_and!; [by apply frame_delete_staged|by apply parent_made_free|by apply candidate_left_delete|].
  destruct HT as [HT|HT]; [left; by apply clear_delete|right].
  eapply same_below_single; [|exact HT]. by apply staged_delete_below.
Qed.

Lemma candidate_not_parent rest : removelast path <> candidate ++ rest.
Proof. intros Heq. apply (parent_not_staged (candidate ++ rest)); [apply artifact_staged|done]. Qed.

Lemma touched_parent : touched (removelast path).
Proof. right. right. by apply Hparent_extra. Qed.

Lemma creation_applied : fs_spec (eq tp) (fs_apply journal)
  (fun _ => created t0 frame path candidate content) creatable.
Proof.
  apply apply_body_spec. rewrite Hkind. eapply fs_spec_pre; [|intros ? <-; apply creation_prepared].
  unfold apply_file_write. eapply fs_spec_known; [apply known_candidate|].
  eapply fs_spec_known; [apply known_hash|]. rewrite Hexisted.
  apply (apply_creation_spec _ touched); auto using frame_is_frame, target_apart, touched_target, touched_artifact, candidate_not_parent, touched_parent.
Qed.

Notation both := (linked t0 frame path candidate content).

Lemma creation_rolled_back : fs_spec (fun t => creatable t /\ ~ both t) (fs_rollback journal)
  (fun _ => creation_undone t0 frame path candidate content) (fun t => creatable t /\ ~ both t).
Proof.
  assert (HTne : path <> []) by apply target_unstaged.
  apply rollback_parts_spec.
  - unfold rollback_body. rewrite Hkind.
    apply (rollback_creation_spec _ touched); auto using frame_is_frame, target_apart, touched_target, touched_artifact, candidate_not_parent, touched_parent, known_candidate.
  - intros t p Hp [Hc HT]. split; [by apply creating_free|by apply clear_delete].
  - intros t [Hc HT]. split; [done|]. intros (_ & [n Hn] & _). by rewrite (clear_lookup _ _ HT) in Hn.
Qed.

(** With both names there the document stays. *)
Lemma creation_kept : fs_spec both (fs_rollback journal)
  (fun _ t => creatable t /\ is_Some (t !! path)) creatable.
Proof.
  set (Q t := creatable t /\ is_Some (t !! path)).
  eapply fs_spec_weaken; [apply (rollback_parts_spec both Q creatable)|done..].
  - apply (fs_spec_each both). intros t Ht f r f' Hf Hrun.
    unfold rollback_body in Hrun. rewrite Hkind in Hrun. destruct f as [tf fates]. cbn in Hf. subst tf.
    rewrite (rollback_linked_keeps t0 frame path candidate content) in Hrun; auto using target_apart, known_candidate.
    injection Hrun as <- <-. destruct Ht as (? & ? & ?). by split.
  - intros t p Hp [Hc HT]. split; [by apply creating_free|].
    rewrite lookup_delete_ne; [done|]. intros Heq. destruct target_unstaged as [Hu _]. congruence.
  - by intros t [].
Qed.

Lemma creation_recoverable : recoverable journal tp creatable creatable.
Proof.
  split.
  - apply prepared_creating, creation_prepared.
  - eapply fs_spec_weaken; [apply creation_applied|done| |done]. intros ? t; apply created_creating.
  - intros f r f' Hf Hrun. destruct (decide (is_Some (fs_tree f !! path) /\ is_Some (fs_tree f !! candidate))) as [[HT HC]|Hno].
    + pose proof (creation_kept f r f' (conj Hf (conj HT HC)) Hrun) as Hr. destruct r; [apply Hr|done].
    + assert (creatable (fs_tree f) /\ ~ both (fs_tree f)) as Hs by (split; [done|intros (_ & ? & ?); by apply Hno]).
      pose proof (creation_rolled_back f r f' Hs Hrun) as Hr. destruct r; apply Hr.
Qed.

Lemma creation_published t : creatable t -> forall p, staged p = false -> p <> path -> p <> removelast path ->
  t !! p = t0 !! p.
Proof.
  intros ([Ha _] & _ & _ & HT) p Hp Hne Hpar.
  destruct (decide (is_Some (strip path p))) as [[rest ->%strip_Some]|Hstrip].
  - rewrite target_clear. destruct rest as [|c rest]; [by destruct Hne; rewrite app_nil_r|].
    destruct HT as [HT|[_ HT]]; apply HT.
  - apply Ha. intros [?|[[rest ->]|Hex%Hparent_extra]]; [congruence| |done]. apply Hstrip. by rewrite strip_app.
Qed.
End Creation.
End Written.

(** ** New modes *)

Section NewMode.
Hypothesis Hnoextra : forall p, ~ extra p.
Hypothesis Hkind : plan_kind plan = Kind_CreateMode.
Hypothesis Hcandidate : plan_candidate plan = Some (stage_relative_of id +:+ "/candidate").
Hypothesis Hnone : t0 !! path = None.
Hypothesis Hholds : stage_holds id ["candidate"] tp.

Notation candidate := (artifact id "candidate").

Lemma known_mode_candidate : forall f, journal_candidate plan journal f = (Ok candidate, f).
Proof. apply known_artifact; [done|done|cbn; lia|by rewrite (records_id _ _ _ Hjournal)]. Qed.

Lemma mode_clear : clear path t0.
Proof. by apply tree_wf_clear; [|apply target_unstaged|]. Qed.

Lemma mode_prepared : mode_withdrawn frame path tp.
Proof.
  split; [by eapply prepared_frame|]. eapply same_below_clear; [by apply same_below_published|apply mode_clear].
Qed.

Lemma mode_applied : fs_spec (eq tp) (fs_apply journal)
  (fun _ t => publishing frame path t /\ same_below path t candidate tp) (publishing frame path).
Proof.
  apply apply_body_spec. rewrite Hkind. eapply fs_spec_known; [apply known_mode_candidate|].
  apply fs_spec_get. intros ? <-. destruct target_unstaged as [_ Hne].
  rewrite (proj2 (fs_exists_false path tp Hne)) by (apply clear_lookup, mode_prepared).
  apply (publish_mode_spec touched); auto using frame_is_frame, target_apart, touched_target, touched_artifact, mode_prepared.
Qed.

Lemma withdrawn_free : staging_free (mode_withdrawn frame path).
Proof. intros t p Hp [Hf Hc]. split; [by apply frame_delete_staged|by apply clear_delete]. Qed.

Lemma mode_rolled_back : fs_spec (publishing frame path) (fs_rollback journal)
  (fun _ => mode_withdrawn frame path) (publishing frame path).
Proof.
  destruct target_unstaged as [_ Hne]. apply rollback_parts_spec.
  - unfold rollback_body. rewrite Hkind. apply fs_spec_get. intros t Ht. destruct (fs_exists path t) eqn:Hex.
    + eapply (fs_spec_bind _ _ _ (fun _ => eq t)).
      { unfold mode_marker_matches. apply fs_spec_get. intros ? <-. destruct (negb _); [by apply fs_spec_ret|].
        eapply (fs_spec_bind _ _ _ (fun _ => eq t)); [by apply fs_spec_read; [|intros ? <-]|]. intros value. by apply fs_spec_ret. }
      intros matches. destruct (negb matches); [apply fs_spec_throw; by intros ? <-|].
      eapply fs_spec_pre; [by apply (withdraw_mode_spec touched frame path frame_is_frame touched_target)|].
      intros ? <-. split; [apply Ht|by apply fs_exists_true].
    + apply fs_spec_ret. intros ? <-. apply fs_exists_false in Hex; [|done]. destruct Ht as [Hf Hc]. split; auto.
  - apply withdrawn_free.
  - apply withdrawn_publishing.
Qed.

Lemma mode_recoverable : recoverable journal tp (publishing frame path) (fun t => publishing frame path t /\ same_published t0 t).
Proof.
  split.
  - apply withdrawn_publishing, mode_prepared.
  - eapply fs_spec_weaken; [apply mode_applied|done| |done]. by intros ? t [].
  - eapply fs_spec_weaken; [apply mode_rolled_back|done| |done].
    intros ? t Hin. split; [by apply withdrawn_publishing|]. destruct Hin as [Hf Hc]. apply frame_published; auto using mode_clear.
Qed.
End NewMode.
End Target.
End Recovery.
