(* ===== verification/ModeAtomicity.v ===== *)
(** * Atomicity of mode mutations

    The guarantees of the preparation, the application and the rollback of a
    mutation, over every interruption, with the state of the tree as a reader
    of the modes sees it. *)

From S2P Require Import Prelude Text RecoveryJournal Filesystem Modes ModeYaml.
From S2P Require Import ModeYaml ModeFiles.
From S2P Require Import ModeKeeps ModeFilesSpec ModeStagingSpec ModeMutationSpec.

#[local] Open Scope string_scope.
#[local] Open Scope list_scope.

(** The premises of the lemmas on one staged plan. *)
Ltac staged_side := first [eassumption | reflexivity | done | by intros ? []].

Section Atomicity.
Context `{PlanCodec, !PlanCodecSpec, Sha256}.
Context `{YamlText ModeDocument, YamlText SoundboardDocument, YamlText CueDocument, YamlText PresetDocument}.

(** The mutations a rollback undoes without a trace, and those whose rollback
    can be started again after any crash. *)
Definition undone_exactly (mutation : ModeMutation) : bool :=
  match mutation with
  | ImportResources _ _ _ _ _ _ _ => false
  | _ => match put_document mutation with Some (_, _, create_only) => negb create_only | None => true end
  end.
Definition restartable (mutation : ModeMutation) : bool :=
  match mutation with CreateMode _ _ => false | _ => undone_exactly mutation end.

Definition no_extra (p : FsPath) : Prop := False.

Lemma deleted_kind mutation kind target : deleted_target mutation = Some (kind, target) ->
  kind = Kind_DeleteFile \/ kind = Kind_DeleteMode.
Proof. destruct mutation; intros [= <- _]; auto. Qed.

Lemma staged_recoverable t0 tp id mutation prepared plan :
  tree_wf t0 -> journal_id_valid id -> undone_exactly mutation = true -> same_published t0 tp ->
  plan_to_value plan = Ok (prepared_plan prepared) -> staged_plan t0 id mutation tp plan ->
  exists inv, (exists free, staging_free free /\ free tp /\ forall t, free t -> inv t) /\
    forall journal, journal_records id prepared journal ->
      recoverable journal tp inv (fun t => inv t /\ same_published t0 t) /\
      (restartable mutation = true -> exists done, fs_runs inv (fs_rollback journal) (fun _ => done)).
Proof.
  intros Hwf Hid Hexact Hsame Hvalue Hstaged.
  set (entry := mkRecoveryJournalEntry id Domain_Modes (prepared_operation prepared) Planned (prepared_plan prepared)
    (Json_Object []) 0%Z 0%Z None).
  assert (journal_records id prepared entry) as Hentry by done.
  destruct Hstaged as [target text create_only path Hput Hpath Hpresent Hholds Hfile
    |kind target path Hdel Hpath Hthere Hholds|manifest text path Hnew Hpath Hnone Htext Hholds Hdir|plan Himport].
  - destruct create_only; [by destruct mutation; cbn in Hput; simplify_eq/=|].
    assert (is_Some (t0 !! path)) as Hthere by (destruct Hpresent as [content Hc]; by eexists).
    exists (replacing t0 (frame t0 id path no_extra) path (artifact id "backup.yaml") (artifact id "candidate.yaml") text).
    split; [|intros journal Hjournal; split].
    + eexists. split; [eapply undone_free with (extra := no_extra) (plan := write_plan id target (negb false) (sha256_hex text)); staged_side|].
      split; [eapply prepared_undone with (journal := entry) (extra := no_extra) (plan := write_plan id target (negb false) (sha256_hex text)); staged_side|apply undone_replacing].
    + eapply replacement_recoverable with (path := path) (extra := no_extra) (content := text); staged_side.
    + intros _. eexists.
      eapply replacement_rollback_runs with (path := path) (extra := no_extra) (content := text); staged_side.
  - apply deleted_kind in Hdel.
    exists (deleting t0 (frame t0 id path no_extra) path (artifact id "backup")).
    split; [|intros journal Hjournal; split].
    + eexists. split; [eapply in_place_free with (extra := no_extra) (plan := delete_plan id kind target (stage_relative_of id)); staged_side|].
      split; [eapply deletion_prepared with (journal := entry) (extra := no_extra) (plan := delete_plan id kind target (stage_relative_of id)); staged_side|apply in_place_deleting].
    + eapply deletion_recoverable with (path := path) (extra := no_extra); staged_side.
    + intros _. eexists.
      eapply deletion_rollback_runs with (path := path) (extra := no_extra); staged_side.
  - exists (publishing (frame t0 id path no_extra) path).
    split; [|intros journal Hjournal; split].
    + eexists. split; [apply withdrawn_free|].
      split; [eapply mode_prepared with (extra := no_extra) (plan := create_plan id (manifest_id manifest)); staged_side|apply withdrawn_publishing].
    + eapply mode_recoverable with (path := path) (extra := no_extra); staged_side.
    + by destruct mutation.
  - by destruct Himport as (? & ? & ? & ? & ? & ? & ? & ->).
Qed.

Lemma prepared_staged t0 id mutation prepared tp :
  tree_wf t0 -> journal_id_valid id -> runs_to (fs_prepare id mutation) (Ok prepared) t0 tp ->
  same_published t0 tp /\
  exists plan, plan_to_value plan = Ok (prepared_plan prepared) /\ staged_plan t0 id mutation tp plan.
Proof.
  intros Hwf Hid Hrun.
  exact (fs_spec_runs_to _ _ _ _ _ _ _ (fs_prepare_spec t0 id Hid Hwf mutation) eq_refl Hrun).
Qed.

(** Preparing a mutation changes no published path, whether it answers,
    fails or the process dies in it. *)
Theorem preparing_publishes_nothing t0 id mutation r t :
  tree_wf t0 -> journal_id_valid id -> runs_to (fs_prepare id mutation) r t0 t ->
  forall p, staged p = false -> t !! p = t0 !! p.
Proof.
  intros Hwf Hid Hrun p Hp.
  pose proof (fs_spec_runs_to _ _ _ _ _ _ _ (fs_prepare_spec t0 id Hid Hwf mutation) eq_refl Hrun) as Hr.
  destruct r as [prepared|e]; [destruct Hr as [Hr _]|]; by apply same_published_lookup.
Qed.

(** Whatever happened to a mutation that replaces or deletes a document or
    creates or deletes a mode (applied or not, stopped at any call, then rolled
    back any number of times without success), a rollback that answers has
    restored every published path; unless a mode was created, a rollback with
    no more faults does answer. *)
Theorem unfinished_mutations_are_undone t0 id mutation prepared journal tp t :
  tree_wf t0 -> journal_id_valid id -> undone_exactly mutation = true ->
  runs_to (fs_prepare id mutation) (Ok prepared) t0 tp -> journal_records id prepared journal ->
  left_behind journal tp t ->
  (forall t' p, runs_to (fs_rollback journal) (Ok ()) t t' -> staged p = false -> t' !! p = t0 !! p) /\
  (restartable mutation = true -> exists t', runs_to (fs_rollback journal) (Ok ()) t t').
Proof.
  intros Hwf Hid Hexact Hprepare Hjournal Hleft.
  destruct (prepared_staged _ _ _ _ _ Hwf Hid Hprepare) as (Hsame & plan & Hvalue & Hstaged).
  destruct (staged_recoverable _ _ _ _ _ _ Hwf Hid Hexact Hsame Hvalue Hstaged) as (inv & _ & Hrecs).
  destruct (Hrecs journal Hjournal) as [Hrec Hruns].
  split.
  - intros t' p Hrun Hp. apply same_published_lookup; [|done].
    by apply (left_behind_undone _ _ _ _ _ _ Hrec Hleft Hrun).
  - intros (? & Hr)%Hruns. destruct (Hr t) as ([] & t' & Hrun & _); [by eapply left_behind_inv|].
    exists t', []. by eexists.
Qed.

(** Outside the target and the staging directory nothing changed. *)
Lemma frame_others t0 id path extra t p : frame t0 id path extra t -> staged p = false ->
  strip path p = None -> ~ extra p -> t !! p = t0 !! p.
Proof.
  intros [Ha _] Hp Hstrip Hx. apply Ha. intros [?|[[rest ->]|?]]; [congruence| |done]. by rewrite strip_app in Hstrip.
Qed.

Lemma frame_document t0 id path extra text t p : tree_wf t0 -> path <> [] ->
  frame t0 id path extra t -> single_file path text t -> fs_is_dir path t0 = false ->
  staged p = false -> p <> path -> ~ extra p -> t !! p = t0 !! p.
Proof.
  intros Hwf Hne Hf [_ Hbelow] Hdir Hp Hpath Hx. destruct (strip path p) as [rest|] eqn:Hstrip; [|by eapply frame_others].
  apply strip_Some in Hstrip as ->. destruct rest as [|c rest]; [by destruct Hpath; rewrite app_nil_r|].
  by rewrite Hbelow, tree_wf_below.
Qed.

Lemma present_not_directory t0 existed path : path <> [] -> present t0 existed path -> fs_is_dir path t0 = false.
Proof.
  intros Hne. unfold present, fs_is_dir, fs_node. destruct path; [done|].
  destruct existed; [intros [content ->]; done|by intros ->].
Qed.

(** The path whose creation a new document may need. *)
Definition parent_extra (path p : FsPath) : Prop := p = removelast path.

Lemma removelast_unstaged target path : rooted_target target = Ok path -> staged (removelast path) = false.
Proof. intros (mode_id & rest & -> & Hs)%rooted_target_ok. by destruct rest. Qed.

Lemma published_document t0 id mutation prepared journal tp t target text create_only path :
  tree_wf t0 -> journal_id_valid id -> journal_records id prepared journal -> same_published t0 tp ->
  plan_to_value (write_plan id target (negb create_only) (sha256_hex text)) = Ok (prepared_plan prepared) ->
  put_document mutation = Some (target, Ok text, create_only) -> rooted_target target = Ok path ->
  present t0 (negb create_only) path -> stage_holds id ["candidate.yaml"] tp ->
  single_file (artifact id "candidate.yaml") text tp -> runs_to (fs_apply journal) (Ok ()) tp t ->
  t !! path = Some (FsFile text) /\
  forall p, staged p = false -> p <> path -> (create_only = true -> p <> removelast path) -> t !! p = t0 !! p.
Proof.
  intros Hwf Hid Hjournal Hsame Hvalue Hput Hpath Hpresent Hholds Hfile Hrun.
  assert (Hne : path <> []) by by apply rooted_target_ok in Hpath as (? & ? & -> & _).
  pose proof (present_not_directory _ _ _ Hne Hpresent) as Hdir.
  assert (exists extra, frame t0 id path extra t /\ single_file path text t /\
    forall p, (create_only = true -> p <> removelast path) -> ~ extra p) as (extra & Hf & Hs & Hx).
  - destruct create_only.
    + exists (parent_extra path).
      eapply fs_spec_runs_to in Hrun; [|eapply creation_applied with (path := path) (extra := parent_extra path) (content := text); first [by intros ? ->; eapply removelast_unstaged|staged_side]|done].
      destruct Hrun as (? & _ & _ & ?). split_and!; [done..|]. intros p Hp Hex. by apply Hp.
    + exists no_extra.
      eapply fs_spec_runs_to in Hrun; [|eapply replacement_applied with (path := path) (extra := no_extra) (content := text);
        first [staged_side|by destruct Hpresent as [content Hc]; eexists]|done].
      destruct Hrun as (? & _ & ? & _). split_and!; [done..|]. by intros p _ [].
  - split; [apply Hs|]. intros p Hp Hpp Hpar. eapply frame_document; eauto.
Qed.

(** The mutation as a reader of the modes finds it: the document in its place,
    the deleted document or mode gone, the new mode with what a mode has; all
    else as before, except that a new document may bring its directory. *)
Definition published_as (id : RecoveryJournalId) (mutation : ModeMutation) (t0 t : FsTree) : Prop :=
  (forall target text create_only path,
     put_document mutation = Some (target, Ok text, create_only) -> rooted_target target = Ok path ->
     t !! path = Some (FsFile text) /\
     forall p, staged p = false -> p <> path -> (create_only = true -> p <> removelast path) -> t !! p = t0 !! p) /\
  (forall kind target path, deleted_target mutation = Some (kind, target) -> rooted_target target = Ok path ->
     clear path t /\ forall p, staged p = false -> strip path p = None -> t !! p = t0 !! p) /\
  (forall manifest path, new_mode mutation = Some manifest -> rooted_target (manifest_id manifest) = Ok path ->
     (exists text, serialize_document manifest = Ok text /\ mode_directory id path text t) /\
     forall p, staged p = false -> strip path p = None -> t !! p = t0 !! p).

Lemma staged_applied t0 id mutation prepared journal tp plan t :
  tree_wf t0 -> journal_id_valid id -> same_published t0 tp -> plan_to_value plan = Ok (prepared_plan prepared) ->
  staged_plan t0 id mutation tp plan -> journal_records id prepared journal ->
  runs_to (fs_apply journal) (Ok ()) tp t -> published_as id mutation t0 t.
Proof.
  intros Hwf Hid Hsame Hvalue Hstaged Hjournal Hrun. unfold published_as.
  destruct Hstaged as [target text create_only path Hput Hpath Hpresent Hholds Hfile
    |kind target path Hdel Hpath Hthere Hholds|manifest text path Hnew Hpath Hnone Htext Hholds Hdir|plan Himport].
  - split_and!; [|intros; by destruct mutation|intros; by destruct mutation].
    intros target' text' create_only' path' Hput' Hpath'. rewrite Hput in Hput'. injection Hput' as <- <- <-.
    rewrite Hpath in Hpath'. injection Hpath' as <-. by eapply published_document.
  - split_and!; [intros; by destruct mutation| |intros; by destruct mutation].
    intros kind' target' path' Hdel' Hpath'. rewrite Hdel in Hdel'. injection Hdel' as <- <-.
    rewrite Hpath in Hpath'. injection Hpath' as <-. pose proof (deleted_kind _ _ _ Hdel).
    eapply fs_spec_runs_to in Hrun; [|eapply deletion_applied with (path := path) (extra := no_extra); staged_side|done].
    destruct Hrun as (Hf & _ & Hc). split; [done|]. intros p Hp Hstrip. eapply frame_others; eauto.
  - split_and!; [intros; by destruct mutation..|].
    intros manifest' path' Hnew' Hpath'. rewrite Hnew in Hnew'. injection Hnew' as <-.
    rewrite Hpath in Hpath'. injection Hpath' as <-.
    eapply fs_spec_runs_to in Hrun; [|eapply mode_applied with (path := path) (extra := no_extra); staged_side|done].
    destruct Hrun as [[Hf _] Hthere]. split.
    + exists text. split; [done|]. destruct Hdir as (Hd & Hm & Hmark & Hdirs). unfold mode_directory.
      rewrite (same_below_lookup _ _ _ _ Hthere), !Hthere. split_and!; [done..|].
      intros directory Hin. rewrite Hthere. by apply Hdirs.
    + intros p Hp Hstrip. eapply frame_others; eauto.
  - destruct Himport as (? & ? & ? & ? & ? & ? & ? & ->). by split_and!.
Qed.

(** An application that answers has published the mutation as a whole: the
    document is in its place with its text, the deleted document or mode is
    gone with everything below it, the new mode has its manifest, its marker
    and its directories; every other published path is as it was, except that
    a new document may have brought its directory. *)
Theorem applied_mutations_are_published t0 id mutation prepared journal tp t :
  tree_wf t0 -> journal_id_valid id -> runs_to (fs_prepare id mutation) (Ok prepared) t0 tp ->
  journal_records id prepared journal -> runs_to (fs_apply journal) (Ok ()) tp t ->
  published_as id mutation t0 t.
Proof.
  intros Hwf Hid Hprepare Hjournal Hrun.
  destruct (prepared_staged _ _ _ _ _ Hwf Hid Hprepare) as (Hsame & plan & Hvalue & Hstaged).
  by eapply staged_applied.
Qed.

(** The rollback of a created document leaves every other published path
    as it was (its directory may stay), and withdraws the document, except
    when both the document and its staged candidate are there, as a crash
    between the link and the release leaves them: then, and only then, the
    document stays published although the rollback answers. *)
Theorem created_documents_are_withdrawn_unless_linked t0 id mutation target text path prepared journal tp t t' :
  tree_wf t0 -> journal_id_valid id -> put_document mutation = Some (target, Ok text, true) ->
  rooted_target target = Ok path -> runs_to (fs_prepare id mutation) (Ok prepared) t0 tp ->
  journal_records id prepared journal -> left_behind journal tp t -> runs_to (fs_rollback journal) (Ok ()) t t' ->
  (forall p, staged p = false -> p <> path -> p <> removelast path -> t' !! p = t0 !! p) /\
  (is_Some (t' !! path) <-> is_Some (t !! path) /\ is_Some (t !! artifact id "candidate.yaml")).
Proof.
  intros Hwf Hid Hput Hpath Hprepare Hjournal Hleft Hrun.
  destruct (prepared_staged _ _ _ _ _ Hwf Hid Hprepare) as (Hsame & plan & Hvalue & Hstaged).
  destruct Hstaged as [target' text' create_only path' Hput' Hpath' Hpresent Hholds Hfile
    |kind target' path' Hdel|manifest text' path' Hnew|plan Himport];
    [|by destruct mutation..|by destruct Himport as (? & ? & ? & ? & ? & ? & ? & ->)].
  rewrite Hput in Hput'. injection Hput' as <- <- <-. rewrite Hpath in Hpath'. injection Hpath' as <-.
  set (inv := creating t0 (frame t0 id path (parent_extra path)) path (artifact id "candidate.yaml") text).
  assert (recoverable journal tp inv inv) as Hrec.
  { eapply creation_recoverable with (path := path) (extra := parent_extra path) (content := text);
      first [by intros ? ->; eapply removelast_unstaged|staged_side]. }
  pose proof (left_behind_inv _ _ _ _ _ Hrec Hleft) as Hinv.
  pose proof (left_behind_undone _ _ _ _ _ _ Hrec Hleft Hrun) as Hinv'. split.
  - intros p. eapply creation_published with (content := text) (id := id) (extra := parent_extra path)
      (plan := write_plan id target (negb true) (sha256_hex text));
      first [eassumption|by intros ? ->; eapply removelast_unstaged|staged_side].
  - split.
    + intros Hsome. apply dec_stable. intros Hno.
      assert (inv t /\ ~ linked t0 (frame t0 id path (parent_extra path)) path (artifact id "candidate.yaml") text t) as Hunlinked
        by (split; [done|by intros (_ & ? & ?); apply Hno]).
      eapply fs_spec_runs_to in Hrun; [|eapply creation_rolled_back with (path := path) (extra := parent_extra path) (content := text);
        first [eassumption|by intros ? ->; eapply removelast_unstaged|staged_side]|exact Hunlinked].
      destruct Hrun as [_ Hc]. rewrite (clear_lookup _ _ Hc) in Hsome. by destruct Hsome.
    + intros [HT HC]. eapply fs_spec_runs_to in Hrun; [|eapply creation_kept with (path := path) (extra := parent_extra path) (content := text);
        first [eassumption|by intros ? ->; eapply removelast_unstaged|staged_side]|by split].
      apply Hrun.
Qed.
End Atomicity.
