(* ===== verification/ModeWorld.v ===== *)
(** * The mode subsystem as it is wired

    The world the coordinator runs in: the modes directory, the recovery
    journal in SQLite and playback as the catalog sink. The interfaces of
    [ModeCoordinator.v] are implemented by the loader, the mutations on the file
    system and the journal store, wired as
    [start_mutable_mode_coordinator_with_data] does, without effects on library
    data. *)

From S2P Require Import Prelude Store Catalog Text Filesystem RecoveryJournal JournalStore Modes.
From S2P Require Import ModeYaml ModeFiles ModeKeeps ModeFilesSpec ModeStagingSpec.
From S2P Require Import ModeMutationSpec ModeAtomicity ModeCoordinator ModeCoordinatorSpec.

#[local] Open Scope string_scope.
#[local] Open Scope list_scope.

(** The sink's answers to come, an error or not, and what it was told last. *)
Record ModeWorld : Type := mkModeWorld {
  world_disk : Filesystem;
  world_journal : SqliteJournal;
  world_sink : list (option string);
  world_told : option ModeCatalogPublication
}.

Definition with_disk (f : Filesystem) (w : ModeWorld) : ModeWorld :=
  mkModeWorld f (world_journal w) (world_sink w) (world_told w).
Definition with_journal (db : SqliteJournal) (w : ModeWorld) : ModeWorld :=
  mkModeWorld (world_disk w) db (world_sink w) (world_told w).

(** A worker on the modes directory, its error as the coordinator gets it. *)
Definition on_disk {A : Type} (error : string -> ModeCallError) (m : fs A) : world_call ModeWorld A := fun w =>
  match m (world_disk w) with
  | (Ok a, f) => (Ok a, with_disk f w)
  | (Err (Fs_failed detail), f) => (Err (error detail), with_disk f w)
  | (Err Fs_crashed, f) => (Err Call_died, with_disk f w)
  end.

(** [.map_err(mode_dependency)] and [.map_err(|error| Box::new(error))] *)
Definition dependency_call_error (detail : string) : ModeCallError :=
  match mode_dependency detail with inl detail => Call_failed detail | inr error => Call_rejected error end.

Definition on_journal {A : Type} (m : stateful SqliteJournal JournalStorageError A)
    : stateful ModeWorld JournalStorageError A := fun w =>
  let '(r, db) := m (world_journal w) in (r, with_journal db w).

Section World.
Context `{PlanCodec, Sha256, JsonText, JournalClock}.
Context `{YamlText ModeDocument, YamlText SoundboardDocument, YamlText CueDocument, YamlText PresetDocument}.

#[global] Instance FilesystemModeCatalogSource : ModeCatalogSource ModeWorld := {|
  source_load := on_disk Call_failed load_catalog
|}.

(** [FilesystemModeMutations] *)
#[global] Instance FilesystemModeMutations : ModeMutationEffects ModeWorld := {|
  effects_prepare id mutation := on_disk dependency_call_error (fs_prepare id mutation);
  effects_apply journal := on_disk dependency_call_error (fs_apply journal);
  effects_rollback journal := on_disk Call_failed (fs_rollback journal);
  effects_finish journal := on_disk Call_failed (fs_finish journal);
  effects_cleanup_orphans := on_disk Call_failed fs_cleanup_orphans
|}.

#[global] Instance WorldJournal : RecoveryJournalRepository ModeWorld := {|
  journal_error := JournalStorageError;
  create_recovery_journal draft := on_journal (create_journal draft);
  unfinished_recovery_journals domain := on_journal (unfinished_journals domain);
  transition_recovery_journal id expected next progress :=
    on_journal (transition_journal id expected next progress)
|}.

#[global] Instance WorldSink : ModeCatalogSink ModeWorld := {|
  sink_publish publication w :=
    match head (world_sink w) with
    | Some (Some detail) =>
        (Err (Call_failed detail), mkModeWorld (world_disk w) (world_journal w) (tail (world_sink w)) (world_told w))
    | _ =>
        (Ok (), mkModeWorld (world_disk w) (world_journal w) (tail (world_sink w)) (Some publication))
    end
|}.

#[global] Instance WorldData : ModeMutationDataEffects ModeWorld := NoopModeMutationDataEffects.
End World.

(* ------------------------------------------------------------------ *)
(** * The wired world keeps the coordinator's contract *)

#[local] Open Scope string_scope.
#[local] Open Scope list_scope.

(* ------------------------------------------------------------------ *)
(** ** Published trees *)

(** The part of a tree readers of the modes see. *)
Definition published_tree (t : FsTree) : FsTree := filter (fun entry => staged entry.1 = false) t.

Lemma lookup_published t p : published_tree t !! p = if staged p then None else t !! p.
Proof.
  unfold published_tree. destruct (staged p) eqn:Hp.
  - apply map_lookup_filter_None. right. cbn. intros n _. congruence.
  - destruct (t !! p) as [n|] eqn:Ht.
    + by apply map_lookup_filter_Some.
    + apply map_lookup_filter_None. by left.
Qed.

Lemma published_same u t : published_tree t = published_tree u <-> same_published u t.
Proof.
  split.
  - intros Heq p Hp. apply not_true_iff_false in Hp. pose proof (lookup_published t p) as Ht.
    rewrite Heq, lookup_published, Hp in Ht. done.
  - intros Hs. apply map_eq. intros p. rewrite !lookup_published. destruct (staged p) eqn:Hp; [done|].
    by apply same_published_lookup.
Qed.

Lemma published_free disk : staging_free (fun t => published_tree t = disk).
Proof.
  intros t p Hp <-. apply published_same. intros q Hq. rewrite lookup_delete_ne; [done|]. by intros ->.
Qed.

Section Contract.
Context `{PlanCodec, !PlanCodecSpec, Sha256, JsonText, !JsonTextSpec, JournalClock}.
Context `{YamlText ModeDocument, YamlText SoundboardDocument, YamlText CueDocument, YamlText PresetDocument}.

(** The document a mutation must create, and its text. *)
Definition created_document (mutation : ModeMutation) : option (FsPath * string) :=
  match put_document mutation with
  | Some (target, Ok text, true) =>
      match rooted_target target with Ok path => Some (path, text) | Err _ => None end
  | _ => None
  end.

(** A tree apart from a document to be created, while it is the whole text, and
    from the directory it needs. *)
Definition apart_from (created : option (FsPath * string)) (t : FsTree) : FsTree :=
  match created with
  | None => t
  | Some (path, text) =>
      filter (fun entry => entry <> (path, FsFile text) /\
                (entry.1 = removelast path -> fs_is_dir (removelast path) t = false)) t
  end.

Lemma apart_from_lookup path text t p :
  p <> path -> p <> removelast path -> apart_from (Some (path, text)) t !! p = t !! p.
Proof.
  intros Hp Hparent. unfold apart_from. destruct (t !! p) as [n|] eqn:Hn.
  - apply map_lookup_filter_Some. split; [done|]. cbn. split; [congruence|done].
  - apply map_lookup_filter_None. by left.
Qed.

(** Two trees are the same apart from the new document and its directory. *)
Lemma apart_from_same path text t t' :
  path <> [] -> (forall p, p <> path -> p <> removelast path -> t' !! p = t !! p) ->
  t !! path = None -> (t' !! path = None \/ t' !! path = Some (FsFile text)) ->
  fs_node (removelast path) t' = fs_node (removelast path) t \/
    (fs_node (removelast path) t = None /\ fs_node (removelast path) t' = Some FsDirectory) ->
  apart_from (Some (path, text)) t' = apart_from (Some (path, text)) t.
Proof.
  intros Hne Hothers Hnone Hdoc Hparent. apply map_eq. intros p.
  destruct (decide (p = path)) as [->|Hp]; [|destruct (decide (p = removelast path)) as [->|Hpp]].
  - trans (@None FsNode); [|symmetry]; apply map_lookup_filter_None; [|by left].
    destruct Hdoc as [Hdoc|Hdoc]; [by left|right]. intros n Hn [Hno _]. congruence.
  - assert (forall u, fs_is_dir (removelast path) u = true -> apart_from (Some (path, text)) u !! removelast path = None) as Hdir.
    { intros u Hu. apply map_lookup_filter_None. right. intros n _ [_ Hno]. cbn in Hno. rewrite Hno in Hu; done. }
    assert (forall u, fs_is_dir (removelast path) u = false -> apart_from (Some (path, text)) u !! removelast path = u !! removelast path) as Hfile.
    { intros u Hu. unfold apart_from. destruct (u !! removelast path) as [n|] eqn:Hn.
      - apply map_lookup_filter_Some. split; [done|]. cbn. split; [|done]. intros [= Heq _].
        apply exists_last in Hne as (q & c & ->). rewrite removelast_last in Heq.
        apply (f_equal length) in Heq. rewrite length_app in Heq. cbn in Heq. lia.
      - apply map_lookup_filter_None. by left. }
    assert (forall u, fs_is_dir (removelast path) u = false -> u !! removelast path = fs_node (removelast path) u) as Hnode
      by (intros u; unfold fs_is_dir, fs_node; by destruct (removelast path)).
    assert (forall u v, fs_node (removelast path) u = fs_node (removelast path) v ->
      fs_is_dir (removelast path) u = fs_is_dir (removelast path) v) as Hsame by (intros u v Huv; unfold fs_is_dir; by rewrite Huv).
    destruct Hparent as [Heq|[Hold Hnew]].
    + destruct (fs_is_dir (removelast path) t) eqn:Ht.
      * rewrite !Hdir; [done|done|]. by rewrite (Hsame _ _ Heq).
      * rewrite !Hfile by (done || by rewrite (Hsame _ _ Heq)). rewrite !Hnode by (done || by rewrite (Hsame _ _ Heq)). done.
    + assert (fs_is_dir (removelast path) t = false) as Ht by (unfold fs_is_dir; by rewrite Hold).
      rewrite (Hdir t') by (unfold fs_is_dir; by rewrite Hnew). by rewrite Hfile, Hnode, Hold.
  - by rewrite !apart_from_lookup, Hothers.
Qed.

(** What a reader finds of a tree, apart from a document to be created. *)
Definition observed (created : option (FsPath * string)) (t : FsTree) : FsTree :=
  apart_from created (published_tree t).

Lemma observed_free created disk : staging_free (fun t => observed created t = disk).
Proof. intros t p Hp <-. unfold observed. by rewrite (published_free (published_tree t)). Qed.

(** What a mutation makes of the published modes. A new mode's marker goes
    when the mutation is finished. *)
Definition carried_out (mutation : ModeMutation) (t0 t : FsTree) : Prop :=
  (forall target text create_only path,
     put_document mutation = Some (target, Ok text, create_only) -> rooted_target target = Ok path ->
     t !! path = Some (FsFile text) /\
     forall p, staged p = false -> p <> path -> (create_only = true -> p <> removelast path) -> t !! p = t0 !! p) /\
  (forall kind target path, deleted_target mutation = Some (kind, target) -> rooted_target target = Ok path ->
     (forall rest, t !! (path ++ rest) = None) /\
     forall p, staged p = false -> strip path p = None -> t !! p = t0 !! p) /\
  (forall manifest path, new_mode mutation = Some manifest -> rooted_target (manifest_id manifest) = Ok path ->
     (exists text, serialize_document manifest = Ok text /\ t !! (path ++ ["manifest.yaml"]) = Some (FsFile text)) /\
     (forall directory, directory ∈ ["soundboards"; "cues"; "presets"] -> t !! (path ++ [directory]) = Some FsDirectory) /\
     forall p, staged p = false -> strip path p = None -> t !! p = t0 !! p).

Lemma created_document_Some mutation path text : created_document mutation = Some (path, text) ->
  exists target, put_document mutation = Some (target, Ok text, true) /\ rooted_target target = Ok path.
Proof.
  unfold created_document. destruct (put_document mutation) as [[[target [content|]] []]|]; try done.
  destruct (rooted_target target) eqn:Hpath; [|done]. intros [= -> ->]. eauto.
Qed.

Lemma created_document_put mutation target text path :
  put_document mutation = Some (target, Ok text, true) -> rooted_target target = Ok path ->
  created_document mutation = Some (path, text).
Proof. intros Hput Hpath. unfold created_document. by rewrite Hput, Hpath. Qed.

Lemma undone_exactly_creates mutation : undone_exactly mutation = true -> created_document mutation = None.
Proof.
  unfold undone_exactly, created_document. destruct mutation; try done; cbn;
    destruct (serialize_document _) as [|]; try done; by destruct create_only.
Qed.

(** Nothing of what a mutation promises is about what it may leave behind. *)
Lemma carried_out_apart mutation t0 t :
  carried_out mutation (apart_from (created_document mutation) t0) t <-> carried_out mutation t0 t.
Proof.
  destruct (created_document mutation) as [[path text]|] eqn:Hcreated; [|done].
  pose proof (created_document_Some _ _ _ Hcreated) as (target & Hput & Hpath). unfold carried_out.
  split; intros (Hdoc & _ & _); (split_and!; [|intros; by destruct mutation..]);
    intros target' text' create_only' path' Hput' Hpath'; destruct (Hdoc _ _ _ _ Hput' Hpath') as [Hfile Hothers];
    (split; [done|]); intros p Hp Hne Hparent; specialize (Hothers p Hp Hne Hparent);
    rewrite Hput in Hput'; injection Hput' as <- <- <-; rewrite Hpath in Hpath'; injection Hpath' as <-;
    specialize (Hparent eq_refl).
  - by rewrite Hothers, apart_from_lookup.
  - by rewrite Hothers, apart_from_lookup.
Qed.

(** The mutations whose interruptions are settled as a whole: all but imports. *)
Definition settled_whole (mutation : ModeMutation) : bool :=
  match mutation with ImportResources _ _ _ _ _ _ _ => false | _ => true end.

(** The plan names a new mode's directory only for a new mode. *)
Definition plan_fits (mutation : ModeMutation) (plan : FilesystemMutationPlan) : Prop :=
  plan_kind plan = Kind_CreateMode ->
  exists manifest, new_mode mutation = Some manifest /\ plan_target plan = manifest_id manifest.

Section Observed.
(** The document that the mutation under way must create. *)
Variable created : option (FsPath * string).

Definition world_staged (id : RecoveryJournalId) (value : JsonValue) (mutation : ModeMutation) (disk t : FsTree) : Prop :=
  journal_id_valid id /\ settled_whole mutation = true /\ created_document mutation = created /\
  exists t0 plan, tree_wf t0 /\ observed created t0 = disk /\ same_published t0 t /\
    plan_to_value plan = Ok value /\ staged_plan t0 id mutation t plan.

(** What the entry records. *)
Definition entry_of (id : RecoveryJournalId) (value : JsonValue) (journal : RecoveryJournalEntry) : Prop :=
  entry_id journal = id /\ entry_domain journal = Domain_Modes /\ entry_plan journal = value.

Definition world_undoable (id : RecoveryJournalId) (value : JsonValue) (disk t : FsTree) : Prop :=
  exists inv, inv t /\ forall journal, entry_of id value journal ->
    fs_spec inv (fs_rollback journal) (fun _ t => inv t /\ observed created t = disk) inv.
End Observed.

Definition world_applied (id : RecoveryJournalId) (value : JsonValue) (mutation : ModeMutation) (disk t : FsTree) : Prop :=
  journal_id_valid id /\
  (exists plan, plan_to_value plan = Ok value /\ plan_fits mutation plan) /\
  carried_out mutation disk (published_tree t).

#[global] Instance WorldJournalContract : RecoveryJournalContract ModeWorld.
Proof.
  refine {| journal_ok w := sqlite_journal_ok (world_journal w);
            journal_entries w := sqlite_journal_entries (world_journal w) |}.
  - intros w. apply sqlite_keyed.
  - intros draft w r w' Hok Hwf Hrun. cbn in Hrun. unfold on_journal in Hrun.
    destruct (create_journal draft (world_journal w)) as [r' db] eqn:Hc. injection Hrun as <- <-. by apply (sqlite_create draft (world_journal w)).
  - intros domain w r w' Hok Hrun. cbn in Hrun. unfold on_journal in Hrun.
    destruct (unfinished_journals domain (world_journal w)) as [r' db] eqn:Hc. injection Hrun as <- <-.
    by apply (sqlite_unfinished domain (world_journal w)).
  - intros id expected next progress w r w' Hok Hrun. cbn in Hrun. unfold on_journal in Hrun.
    destruct (transition_journal id expected next progress (world_journal w)) as [r' db] eqn:Hc. injection Hrun as <- <-.
    by apply (sqlite_transition id expected next progress (world_journal w)).
Defined.

Definition WorldView (created : option (FsPath * string)) : ModeWorldView ModeWorld := {|
  mode_files := FsTree;
  mode_disk := FsTree;
  files w := fs_tree (world_disk w);
  files_ok := tree_wf;
  published := observed created;
  told := world_told;
  exact mutation := settled_whole mutation && bool_decide (created_document mutation = created);
  staged_mutation := world_staged created;
  undoable := world_undoable created;
  applied := world_applied
|}.

(* ------------------------------------------------------------------ *)
(** ** The workers *)

Lemma on_disk_spec {A : Type} P error (m : fs A) Q R (w : ModeWorld) r w' :
  fs_spec P m Q R -> P (fs_tree (world_disk w)) -> on_disk error m w = (r, w') ->
  match r with Ok a => Q a (fs_tree (world_disk w')) | Err _ => R (fs_tree (world_disk w')) end.
Proof.
  intros Hm HP. unfold on_disk. destruct (m (world_disk w)) as [[a|[detail|]] f] eqn:Hrun;
    intros [= <- <-]; exact (Hm _ _ _ HP Hrun).
Qed.

Section Viewed.
Variable created : option (FsPath * string).
#[local] Instance CurrentView : ModeWorldView ModeWorld := WorldView created.

Lemma on_disk_same {A : Type} error (m : fs A) (w : ModeWorld) r w' :
  fs_keeps tree_wf m -> on_disk error m w = (r, w') -> world_same w w'.
Proof.
  intros Hm Hrun. assert (world_journal w' = world_journal w /\ world_told w' = world_told w) as [Hj Ht].
  { revert Hrun. unfold on_disk. repeat case_match; by intros [= <- <-]. }
  split; unfold journal_states; cbn; rewrite ?Hj; try done.
  intros Hwf. pose proof (on_disk_spec _ _ _ _ _ _ _ _ Hm Hwf Hrun) as Hr. by destruct r.
Qed.

Lemma decode_plan_spec P journal id value : entry_of id value journal ->
  fs_spec P (decode_plan journal) (fun plan t => P t /\ plan_from_value value = Ok plan /\
    plan_stage_directory plan = stage_relative_of id) P.
Proof.
  intros (<- & Hdomain & <-). unfold decode_plan. rewrite bool_decide_true by done. cbn [negb].
  apply (fs_spec_bind _ _ _ (fun plan t => P t /\ plan_from_value (entry_plan journal) = Ok plan)).
  { apply fs_spec_try; [|done]. intros plan t. by destruct (plan_from_value _); intros [= ->]. }
  intros plan. destruct (_ || _) eqn:Hcheck; [by apply fs_spec_throw; intros t []|].
  apply orb_false_iff in Hcheck as [_ Hstage%negb_false_iff%String.eqb_eq].
  apply fs_spec_ret. intros t [? ?]. by split_and!.
Qed.

Lemma cleanup_spec P : staging_free P -> fs_spec P fs_cleanup_orphans (fun _ => P) P.
Proof.
  intros Hfree. apply fs_spec_get. intros t Ht. destruct (fs_node _ t) as [[|]|].
  - apply fs_spec_throw. by intros ? <-.
  - eapply fs_spec_pre; [apply (fs_spec_remove_dir_all P _ _ (fun _ => P))|by intros ? <-].
    + intros t' c rest. by apply Hfree.
    + intros t' Ht' _. by apply Hfree.
  - apply fs_spec_ret. by intros ? <-.
Qed.

(** Finishing changes nothing published but the marker of a new mode. *)
Lemma published_delete p t : published_tree (delete p t) = delete p (published_tree t).
Proof. apply map_filter_delete. Qed.

Lemma carried_out_unmarked mutation manifest path disk t :
  new_mode mutation = Some manifest -> rooted_target (manifest_id manifest) = Ok path ->
  carried_out mutation disk t -> carried_out mutation disk (delete (path ++ [MODE_MARKER]) t).
Proof.
  intros Hnew Hpath (_ & _ & Hmode). split_and!; [by destruct mutation..|].
  intros manifest' path' Hnew' Hpath'. rewrite Hnew in Hnew'. injection Hnew' as <-.
  rewrite Hpath in Hpath'. injection Hpath' as <-.
  destruct (Hmode _ _ Hnew Hpath) as ((text & Htext & Hmanifest) & Hdirs & Hothers).
  assert (forall name, name <> MODE_MARKER -> delete (path ++ [MODE_MARKER]) t !! (path ++ [name]) = t !! (path ++ [name])) as Hname.
  { intros name Hne. rewrite lookup_delete_ne; [done|]. intros Heq. apply app_inv_head in Heq. congruence. }
  split_and!.
  - exists text. split; [done|]. by rewrite Hname.
  - intros directory Hin. rewrite Hname; [by apply Hdirs|]. intros Heq. unfold MODE_MARKER in Heq. clear -Hin Heq. set_solver.
  - intros p Hp Hstrip. rewrite lookup_delete_ne; [by apply Hothers|]. intros <-. by rewrite strip_app in Hstrip.
Qed.

Lemma finish_spec id value mutation disk journal : entry_of id value journal ->
  fs_spec (world_applied id value mutation disk) (fs_finish journal)
    (fun _ => world_applied id value mutation disk) (world_applied id value mutation disk).
Proof.
  intros Hentry. apply (fs_spec_each (world_applied id value mutation disk)). intros t (Hid & (plan & Hvalue & Hfits) & Hout).
  set (P t := carried_out mutation disk (published_tree t)).
  enough (fs_spec P (fs_finish journal) (fun _ => P) P) as Hspec.
  { eapply fs_spec_weaken; [exact Hspec|by intros ? <-| |]; intros; split_and!; eauto. }
  assert (staging_free P) as Hfree.
  { intros t' p Hp Ht'. unfold P. by rewrite (published_free (published_tree t')). }
  unfold fs_finish. eapply fs_spec_bind; [by apply decode_plan_spec|].
  intros plan'. eapply (fs_spec_pre (fun t => (plan' = plan /\ plan_stage_directory plan = stage_relative_of id) /\ P t)).
  2:{ intros t' (Ht' & Hfrom & Hstage). rewrite (plan_from_to_value plan) in Hfrom by done. injection Hfrom as <-. by split. }
  apply fs_spec_pure. intros [-> Hstage]. eapply fs_spec_seq.
  - instantiate (1 := P). destruct (plan_kind plan) eqn:Hkind; try by apply fs_spec_ret.
    destruct (Hfits Hkind) as (manifest & Hnew & ->).
    eapply fs_spec_bind; [apply (fs_spec_try _ _ (fun path t => rooted_target (manifest_id manifest) = Ok path /\ P t)); [|done]|].
    + by intros path t'.
    + intros path. apply fs_spec_pure. intros Hpath. apply fs_spec_get. intros t' Ht'.
      destruct (fs_exists _ t'); [|by apply fs_spec_ret; intros ? <-].
      eapply fs_spec_pre; [apply (keeps_syscall P)|by intros ? <-].
      intros u [] u' Hu. destruct (fs_is_file _ u); intros [= <-]. unfold P. rewrite published_delete.
      by eapply carried_out_unmarked.
  - destruct Hentry as (-> & _). by apply remove_stage_spec.
Qed.

Lemma fs_spec_true {A : Type} P (m : fs A) : fs_spec P m (fun _ _ => True) (fun _ => True).
Proof. by intros f [] f' _ _. Qed.

(** What the coordinator prepares is a legal operation. *)
Lemma prepare_operation id mutation :
  fs_spec (fun _ => True) (fs_prepare id mutation)
    (fun prepared _ => RecoveryOperation_parse (operation_text (prepared_operation prepared)) = Ok (prepared_operation prepared))
    (fun _ => True).
Proof.
  unfold fs_prepare. eapply fs_spec_bind; [apply fs_spec_true|]. intros stage.
  eapply (fs_spec_seq _ _ _ (fun _ => True)); [apply fs_spec_true|].
  eapply fs_spec_bind.
  - apply (fs_spec_attempt (fun _ => True) _ (fun prepared _ =>
      RecoveryOperation_parse (operation_text (prepared_operation prepared)) = Ok (prepared_operation prepared)) (fun _ => True)).
    unfold prepare_inner. eapply fs_spec_bind; [apply fs_spec_true|].
    intros [operation plan]. eapply (fs_spec_bind _ _ _ (fun op _ => RecoveryOperation_parse (operation_text op) = Ok op)).
    + apply fs_spec_try; [|done]. intros op t Hop _. destruct (RecoveryOperation_parse operation) eqn:Hparse; [|done].
      injection Hop as ->. pose proof Hparse as Hparse'. unfold RecoveryOperation_parse in Hparse'.
      case_match; [done|]. by injection Hparse' as <-.
    + intros op. eapply (fs_spec_bind _ _ _ (fun _ _ => RecoveryOperation_parse (operation_text op) = Ok op)).
      * by apply fs_spec_try.
      * intros value. by apply fs_spec_ret.
  - intros [prepared|detail]; [by apply fs_spec_ret|].
    do 2 (eapply fs_spec_bind; [apply fs_spec_true|]; intros ?). by apply fs_spec_throw.
Qed.

(* ------------------------------------------------------------------ *)
(** ** The contract *)

Lemma rooted_published target path t : rooted_target target = Ok path ->
  forall rest, published_tree t !! (path ++ rest) = t !! (path ++ rest).
Proof.
  intros (mode_id & below & -> & Hs)%rooted_target_ok rest. rewrite lookup_published.
  by replace (staged ((mode_id :: below) ++ rest)) with (staged (mode_id :: below)) by done; rewrite Hs.
Qed.

Lemma published_as_carried_out id mutation t0 t :
  published_as id mutation t0 t -> carried_out mutation (published_tree t0) (published_tree t).
Proof.
  intros (Hput & Hdelete & Hmode).
  assert (forall p, staged p = false -> t !! p = t0 !! p -> published_tree t !! p = published_tree t0 !! p) as Hsame
    by by intros p Hp Heq; rewrite !lookup_published, Hp.
  assert (forall target path, rooted_target target = Ok path -> published_tree t !! path = t !! path) as Hself
    by (intros target path Hpath; rewrite <- (app_nil_r path); by eapply rooted_published).
  split_and!.
  - intros target text create_only path Hp Hpath. destruct (Hput _ _ _ _ Hp Hpath) as [Hfile Hothers].
    split; [by erewrite Hself|]. intros p Hu Hne Hparent. apply Hsame; auto.
  - intros kind target path Hd Hpath. destruct (Hdelete _ _ _ Hd Hpath) as [Hclear Hothers].
    split; [intros rest; by erewrite rooted_published|]. auto.
  - intros manifest path Hn Hpath. destruct (Hmode _ _ Hn Hpath) as [(text & Htext & _ & Hmanifest & _ & Hdirs) Hothers].
    split_and!; [|intros directory Hin; erewrite rooted_published by done; by apply Hdirs|auto].
    exists text. split; [done|]. by erewrite rooted_published.
Qed.

Lemma staged_fits id mutation t0 t plan : settled_whole mutation = true -> staged_plan t0 id mutation t plan -> plan_fits mutation plan.
Proof.
  intros Hexact Hstaged Hkind.
  destruct Hstaged as [? ? ? ? ? ? ? ? ?|kind target path Hdel| |? (? & ? & ? & ? & ? & ? & ? & ->)]; [done| | |done].
  - cbn in Hkind. subst. by destruct mutation.
  - eauto.
Qed.

(** A mutation with an exact rollback is undone as readers see it. *)
Lemma exactly_undoable id value mutation t0 t plan :
  tree_wf t0 -> journal_id_valid id -> undone_exactly mutation = true -> same_published t0 t ->
  plan_to_value plan = Ok value -> staged_plan t0 id mutation t plan ->
  exists inv free, (staging_free free /\ free t /\ forall t, free t -> inv t) /\
    forall journal, entry_of id value journal -> recoverable journal t inv (fun t' => inv t' /\ same_published t0 t').
Proof.
  intros Hwf Hid Hexact Hsame Hvalue Hstaged.
  destruct (staged_recoverable t0 t id mutation (mkPreparedModeMutation (mkRecoveryOperation "") value) plan
    Hwf Hid Hexact Hsame Hvalue Hstaged) as (inv & (free & Hfree & Ht & Himpl) & Hrec).
  exists inv, free. split; [by split_and!|]. intros journal (Hi & Hd & Hp). by destruct (Hrec journal) as [? _].
Qed.

(** A document that must be created is withdrawn, or stays as its whole text. *)
Lemma creation_undoable id value mutation t0 t plan path text :
  tree_wf t0 -> journal_id_valid id -> created_document mutation = Some (path, text) -> same_published t0 t ->
  plan_to_value plan = Ok value -> staged_plan t0 id mutation t plan ->
  exists inv, staging_free inv /\ (forall t, inv t -> observed (Some (path, text)) t = observed (Some (path, text)) t0) /\
    forall journal, entry_of id value journal -> recoverable journal t inv inv.
Proof.
  intros Hwf Hid Hcreated Hsame Hvalue Hstaged.
  pose proof (created_document_Some _ _ _ Hcreated) as (target & Hput & Hpath).
  destruct Hstaged as [target' text' create_only path' Hput' Hpath' Hpresent Hholds Hfile
    |kind target' path' Hdel|manifest text' path' Hnew|plan Himport];
    [|by destruct mutation..|by destruct Himport as (? & ? & ? & ? & ? & ? & ? & ->)].
  rewrite Hput in Hput'. injection Hput' as <- <- <-. rewrite Hpath in Hpath'. injection Hpath' as <-.
  set (prepared := mkPreparedModeMutation (mkRecoveryOperation "") value).
  assert (path <> []) as Hne by by apply rooted_target_ok in Hpath as (? & ? & -> & _).
  exists (creating t0 (frame t0 id path (parent_extra path)) path (artifact id "candidate.yaml") text).
  split_and!.
  - eapply creating_free with (extra := parent_extra path)
      (plan := write_plan id target (negb true) (sha256_hex text));
      first [by intros ? ->; eapply removelast_unstaged|staged_side].
  - intros t' Hin. unfold observed. pose proof Hin as (_ & Hparent & _ & Hdoc).
    assert (forall p, staged p = false -> p <> path -> p <> removelast path -> t' !! p = t0 !! p) as Hothers.
    { intros p. eapply creation_published with (content := text) (id := id) (extra := parent_extra path)
        (plan := write_plan id target (negb true) (sha256_hex text));
        first [eassumption|by intros ? ->; eapply removelast_unstaged|staged_side]. }
    destruct (rooted_target_ok _ _ Hpath) as (? & ? & _ & Hstaged).
    pose proof (removelast_unstaged _ _ Hpath) as Hstaged'.
    assert (forall u, fs_node (removelast path) (published_tree u) = fs_node (removelast path) u) as Hnode.
    { intros u. unfold fs_node. destruct (removelast path) as [|c q] eqn:Hq; [done|]. by rewrite lookup_published, Hstaged'. }
    apply apart_from_same; [done|..]; rewrite ?Hnode.
    + intros p Hp Hparent'. rewrite !lookup_published. destruct (staged p) eqn:Hu; [done|]. by apply Hothers.
    + rewrite lookup_published, Hstaged. exact Hpresent.
    + rewrite lookup_published, Hstaged. destruct Hdoc as [Hc|[Hf _]]; [left; by apply clear_lookup|by right].
    + exact Hparent.
  - intros journal (Hi & Hd & Hp).
    eapply creation_recoverable with (path := path) (extra := parent_extra path) (content := text) (prepared := prepared);
      first [by intros ? ->; eapply removelast_unstaged|by split_and!|staged_side].
Qed.

Lemma whole_without_creation id mutation t0 t plan :
  settled_whole mutation = true -> created_document mutation = None -> staged_plan t0 id mutation t plan ->
  undone_exactly mutation = true.
Proof.
  intros Hwhole Hnone Hstaged.
  destruct Hstaged as [target text create_only path Hput Hpath|? ? ? Hdel|? ? ? Hnew|plan Himport].
  - destruct create_only; [by rewrite (created_document_put _ _ _ _ Hput Hpath) in Hnone|].
    destruct mutation; try done; cbn in *; by injection Hput as _ _ ->.
  - by destruct mutation.
  - by destruct mutation.
  - by destruct Himport as (? & ? & ? & ? & ? & ? & ? & ->).
Qed.

Lemma world_staged_undoable id value mutation disk t :
  world_staged created id value mutation disk t ->
  exists inv free, (staging_free free /\ free t /\ forall t, free t -> inv t) /\ inv t /\
    forall journal, entry_of id value journal ->
      fs_spec (eq t) (fs_apply journal) (fun _ => inv) inv /\
      fs_spec inv (fs_rollback journal) (fun _ t => inv t /\ observed created t = disk) inv.
Proof.
  intros (Hid & Hwhole & Hcreated & t0 & plan & Hwf & <- & Hsame & Hvalue & Hstaged).
  destruct (created_document mutation) as [[path text]|] eqn:Hdoc; subst created.
  - destruct (creation_undoable _ _ _ _ _ _ _ _ Hwf Hid Hdoc Hsame Hvalue Hstaged) as (inv & Hfree & Hobs & Hrec).
    assert (inv t) as Ht.
    { pose (journal := mkRecoveryJournalEntry id Domain_Modes (mkRecoveryOperation "") Planned value (Json_Object []) 0%Z 0%Z None).
      by destruct (Hrec journal ltac:(done)) as [? _ _]. }
    exists inv, inv. split_and!; [done..|]. intros journal Hentry. destruct (Hrec journal Hentry) as [_ Happly Hback].
    split; [done|]. eapply fs_spec_weaken; [exact Hback|done| |done]. intros [] t' Hin. split; [done|by apply Hobs].
  - assert (undone_exactly mutation = true) as Hexact by (by eapply whole_without_creation).
    destruct (exactly_undoable _ _ _ _ _ _ Hwf Hid Hexact Hsame Hvalue Hstaged) as (inv & free & Hfree & Hrec).
    assert (inv t) as Ht by (destruct Hfree as (_ & ? & Himpl); auto).
    exists inv, free. split_and!; [apply Hfree..|done|]. intros journal Hentry. destruct (Hrec journal Hentry) as [_ Happly Hback].
    split; [done|]. eapply fs_spec_weaken; [exact Hback|done| |done]. intros [] t' [? Hs]. split; [done|].
    unfold observed. cbn [apart_from]. by apply published_same.
Qed.

Lemma world_apply id value mutation disk t journal : entry_of id value journal ->
  world_staged created id value mutation disk t ->
  fs_spec (eq t) (fs_apply journal)
    (fun _ t' => world_undoable created id value disk t' /\ world_applied id value mutation disk t') (world_undoable created id value disk).
Proof.
  intros Hentry Hstaged. pose proof (world_staged_undoable _ _ _ _ _ Hstaged) as (inv & free & _ & Hinv & Hall).
  intros f r f' Heq Hrun. destruct (Hall journal Hentry) as [Happly _].
  pose proof (Happly f r f' Heq Hrun) as Hr.
  assert (forall t, inv t -> world_undoable created id value disk t) as Hundo by (intros t' Ht; exists inv; split; [done|apply Hall]).
  destruct r as [[]|]; [|by apply Hundo]. split; [by apply Hundo|].
  destruct Hstaged as (Hid & Hexact & Hcreated & t0 & plan & Hwf & <- & Hsame & Hvalue & Hstaged).
  split_and!; [done|exists plan; split; [done|by eapply staged_fits]|].
  unfold observed. rewrite <- Hcreated. apply carried_out_apart, (published_as_carried_out id).
  eapply (staged_applied t0 id mutation (mkPreparedModeMutation (mkRecoveryOperation "") value)); [done..| |].
  - destruct Hentry as (? & ? & ?). by split.
  - exists (fs_fates f), f'. split; [subst t; by destruct f|done].
Qed.

Lemma same_observed u t : same_published u t -> observed created t = observed created u.
Proof. intros Hs. unfold observed. by rewrite (proj2 (published_same u t) Hs). Qed.

#[local] Instance WorldContract : ModeWorldContract ModeWorld.
Proof.
  split.
  - intros draft w r w'. cbn. unfold on_journal. destruct (create_journal _ _). by intros [= _ <-].
  - intros domain w r w'. cbn. unfold on_journal. destruct (unfinished_journals _ _). by intros [= _ <-].
  - intros id expected next progress w r w'. cbn. unfold on_journal. destruct (transition_journal _ _ _ _ _). by intros [= _ <-].
  - intros w r w' Hrun. split; [eapply on_disk_same; [apply keeps_load_catalog|exact Hrun]|].
    pose proof (on_disk_spec (eq (fs_tree (world_disk w))) _ _ _ _ _ _ _ (keeps_load_catalog _) eq_refl Hrun) as Hr.
    by destruct r.
  - intros publication w r w' Hrun. cbn in Hrun.
    destruct (head (world_sink w)) as [[detail|]|]; injection Hrun as <- <-; by split_and!.
  - intros id mutation w r w' Hwf Hid Hrun.
    pose proof (on_disk_spec _ _ _ _ _ _ _ _ (fs_prepare_spec _ id Hid Hwf mutation) eq_refl Hrun) as Hr.
    pose proof (on_disk_spec _ _ _ _ _ _ _ _ (prepare_operation id mutation) I Hrun) as Hop.
    split; [eapply on_disk_same; [apply wf_prepare|exact Hrun]|]. destruct r as [prepared|]; cbn.
    + destruct Hr as (Hsame & plan & Hvalue & Hstaged). split_and!; [by apply same_observed|done|].
      intros [Hwhole Hcreated%bool_decide_eq_true]%andb_true_iff. split_and!; [done..|].
      by exists (fs_tree (world_disk w)), plan.
    + split; [by apply same_observed|done].
  - intros id value mutation disk t Hstaged. destruct (world_staged_undoable _ _ _ _ _ Hstaged) as (inv & _ & _ & Hinv & Hall).
    exists inv. split; [done|]. apply Hall.
  - intros entry mutation disk w r w' Hdomain Hstaged Hrun. split; [eapply on_disk_same; [apply wf_apply|exact Hrun]|].
    pose proof (on_disk_spec _ _ _ _ _ _ _ _ (world_apply _ _ _ _ _ entry (conj eq_refl (conj Hdomain eq_refl)) Hstaged) eq_refl Hrun) as Hr.
    destruct r; [done|]. by split.
  - intros entry disk w r w' Hdomain (inv & Hinv & Hall) Hrun. split; [eapply on_disk_same; [apply wf_rollback|exact Hrun]|].
    pose proof (on_disk_spec _ _ _ _ _ _ _ _ (Hall entry (conj eq_refl (conj Hdomain eq_refl))) Hinv Hrun) as Hr.
    destruct r as [[]|]; [destruct Hr|]; (split; [by exists inv|done]).
  - intros entry mutation disk w r w' Hdomain Happlied Hrun. split; [eapply on_disk_same; [apply wf_finish|exact Hrun]|].
    pose proof (on_disk_spec _ _ _ _ _ _ _ _ (finish_spec _ _ _ _ entry (conj eq_refl (conj Hdomain eq_refl))) Happlied Hrun) as Hr.
    by destruct r.
  - intros w r w' Hrun. split; [eapply on_disk_same; [apply wf_cleanup|exact Hrun]|].
    assert (forall P, staging_free P -> P (fs_tree (world_disk w)) -> P (fs_tree (world_disk w'))) as Hkeep.
    { intros P Hfree HP. pose proof (on_disk_spec _ _ _ _ _ _ _ _ (cleanup_spec P Hfree) HP Hrun) as Hr. by destruct r. }
    split_and!.
    + apply (Hkeep (fun t => observed created t = observed created (fs_tree (world_disk w)))); [apply observed_free|done].
    + intros id value mutation disk Hstaged.
      destruct (world_staged_undoable _ _ _ _ _ Hstaged) as (inv & free & (Hfree & Hin & Himpl) & _ & Hall).
      exists inv. split; [apply Himpl; by apply (Hkeep free)|apply Hall].
    + intros id value mutation disk (Hid & Hplan & Hout). split_and!; [done..|].
      apply (Hkeep (fun t => carried_out mutation disk (published_tree t))); [|done].
      intros t p Hp Ht. by rewrite (published_free (published_tree t)).
  - intros entry w r w' [= <- <-]. split; [apply world_same_refl|done].
  - intros entry w r w' [= <- <-]. split; [apply world_same_refl|done].
  - intros entry w r w' [= <- <-]. split; [apply world_same_refl|done].
  - intros w r w' [= <- <-]. split; [apply world_same_refl|done].
Qed.

End Viewed.

(* ------------------------------------------------------------------ *)
(** ** From the command to the last restart *)

Context `{ModeClock, JournalIds, ValueEq}.

Abbreviation published_of w := (published_tree (fs_tree (world_disk w))) (only parsing).

(** A start whose recovery failed, at whatever call. *)
Definition failed_start (w w' : ModeWorld) : Prop :=
  exists deaths stop c, recover_mode_mutations (start_coordinator w deaths) = (Err stop, c) /\ world c = w'.

(** The world is sound, no mutation is unfinished, and the next id is legal. *)
Record ready (c : Coordinator ModeWorld) : Prop := {
  ready_journal : sqlite_journal_ok (world_journal (world c));
  ready_tree : tree_wf (fs_tree (world_disk (world c)));
  ready_quiet : quiet (journal_states (world c));
  ready_id : journal_id_valid (fresh_journal_id (ids_drawn c))
}.

(** The rollback of the journal's mutation failed and the journal says so. *)
Definition marked_failed (id : RecoveryJournalId) (w : ModeWorld) : Prop :=
  exists plan, journal_states w !! journal_id_text id = Some (Domain_Modes, State_Failed, plan).

(** The published modes as they were before the mutation; apart from the
    document it must create, which may stay, or be withdrawn, as a whole, and
    from the directory of that document. *)
Definition as_before (mutation : ModeMutation) (disk0 disk : FsTree) : Prop :=
  apart_from (created_document mutation) disk = apart_from (created_document mutation) disk0.

Section Settled.
Variable mutation : ModeMutation.
#[local] Instance ThisView : ModeWorldView ModeWorld := CurrentView (created_document mutation).
#[local] Instance ThisContract : ModeWorldContract ModeWorld := WorldContract (created_document mutation).

Section States.
Variables (disk0 : FsTree) (id : RecoveryJournalId)
  (before : gmap string (RecoveryDomain * RecoveryState * JsonValue)) (publication : option ModeCatalogPublication).
Implicit Types w : ModeWorld.
Notation disk := (apart_from (created_document mutation) disk0).

Lemma undone_published w : undone (W := ModeWorld) disk id before publication w -> as_before mutation disk0 (published_of w).
Proof. by intros [(_ & _ & _ & ?)|(plan & _ & _ & _ & ?)]. Qed.

Lemma committed_carried_out w : committed (W := ModeWorld) mutation disk id before w -> carried_out mutation disk0 (published_of w).
Proof. intros (plan & _ & _ & _ & _ & Hout). by apply carried_out_apart. Qed.

Lemma settled_outcome w : settled (W := ModeWorld) mutation disk id before publication w ->
  as_before mutation disk0 (published_of w) \/ carried_out mutation disk0 (published_of w) \/ marked_failed id w.
Proof.
  intros [Hw|[Hw|(plan & _ & Hw)]]; [left; by apply undone_published|right; left; by apply committed_carried_out|].
  right. right. exists plan. rewrite Hw. apply lookup_insert_eq.
Qed.

Hypothesis Hid : journal_id_valid id.
Hypothesis Hwhole : settled_whole mutation = true.
Hypothesis Hquiet : quiet before.

Lemma whole_exact : exact (W := ModeWorld) mutation = true.
Proof. cbn. by rewrite Hwhole, bool_decide_true. Qed.

Lemma failed_starts_left_open w w' : rtc failed_start w w' ->
  left_open (W := ModeWorld) mutation disk id before publication w -> left_open mutation disk id before publication w'.
Proof.
  induction 1 as [|w1 w2 w3 (deaths & stop & c & Hrun & <-) _ IH]; [done|]. intros Hw. apply IH.
  exact (recovery_spec mutation disk id before publication Hid whole_exact Hquiet (start_coordinator w1 deaths) _ _ Hw Hrun).
Qed.

Lemma recovered_outcome w w' deaths c2 : rtc failed_start w w' ->
  left_open (W := ModeWorld) mutation disk id before publication w ->
  recover_mode_mutations (start_coordinator w' deaths) = (Ok (), c2) ->
  as_before mutation disk0 (published_of (world c2)) \/ carried_out mutation disk0 (published_of (world c2)) \/
  marked_failed id (world c2).
Proof.
  intros Hrtc Hw Hrun. apply settled_outcome. pose proof (failed_starts_left_open _ _ Hrtc Hw) as Hw'.
  exact (recovery_spec mutation disk id before publication Hid whole_exact Hquiet (start_coordinator w' deaths) _ _ Hw' Hrun).
Qed.
End States.

(** C4: one mutation, other than an import, from the command to the last restart,
    with the files, the journal and the sink failing and the process dying
    wherever they may. An answer means that it is published as a whole, on disk
    and as the next catalog; a refusal that nothing of the task changed and the
    published modes are as they were before; and after any other end, and any
    number of starts whose recovery failed, the recovery that answers leaves the
    published modes as they were before or as the mutation makes them, or the
    journal names the mutation as failed. As before means exactly so, unless the
    mutation had to create its document: then the document may stay, as its
    whole text, and its directory too, but nothing else is different. *)
Theorem mode_mutations_survive_crashes c r c' :
  ready c -> settled_whole mutation = true -> perform_mutation mutation c = (r, c') ->
  match r with
  | Ok report =>
      exists current, current_catalog c = Some current /\ replaced current report c' /\
        carried_out mutation (published_of (world c)) (published_of (world c'))
  | Err (Stop_rejected _) => own c' = own c /\ as_before mutation (published_of (world c)) (published_of (world c'))
  | Err _ => forall w deaths c2, rtc failed_start (world c') w ->
      recover_mode_mutations (start_coordinator w deaths) = (Ok (), c2) ->
      as_before mutation (published_of (world c)) (published_of (world c2)) \/
      carried_out mutation (published_of (world c)) (published_of (world c2)) \/
      marked_failed (fresh_journal_id (ids_drawn c)) (world c2)
  end.
Proof.
  intros [Hok Hwf Hquiet Hid] Hwhole Hrun.
  pose proof (perform_spec mutation (apart_from (created_document mutation) (published_of (world c)))
    (fresh_journal_id (ids_drawn c)) (journal_states (world c)) (world_told (world c)) Hid (whole_exact Hwhole)
    (own c) c r c') as Hr.
  specialize (Hr ltac:(by split_and!) Hrun).
  destruct r as [report|[error|error|]].
  - destruct Hr as (current & proposed & Hcurrent & _ & _ & _ & Hreplaced & Hcommitted).
    exists current. split_and!; [done..|]. by eapply committed_carried_out.
  - destruct Hr as [? Hundone]. split; [done|]. by eapply undone_published.
  - intros w deaths c2 Hrtc Hrec. by eapply recovered_outcome.
  - intros w deaths c2 Hrtc Hrec. by eapply recovered_outcome.
Qed.
End Settled.
End Contract.
