(* ===== verification/ModeScenario.v ===== *)
(** * A concrete modes directory

    Instances of the parameters of the mode files and a small tree with one
    mode, on which the guarantees are exercised, two crashes after which a
    rollback does not restore the modes, and the commands of the coordinator in
    the wired world: answered, or cut off and settled by a restart. *)

From S2P Require Import Prelude PlaybackState Catalog Text Filesystem.
From S2P Require Import RecoveryJournal JournalStore Modes ModeYaml ModeCoordinator.
From S2P Require Import ModeCoordinatorSpec ModeReloadSpec ModesSpec ModeFiles ModeKeeps.
From S2P Require Import ModeFilesSpec ModeStagingSpec ModeMutationSpec ModeAtomicity ModeWorld.
From S2P Require Import ModeWorld.

#[local] Open Scope string_scope.
#[local] Open Scope list_scope.

(* ------------------------------------------------------------------ *)
(** ** A codec for plans *)

Definition bits_value (p : positive) : JsonValue := Json_String (bools_text (positive_bools p)).
Definition value_bits (value : JsonValue) : positive :=
  match value with Json_String text => bools_positive (text_bools text) | _ => xH end.

Lemma value_bits_value p : value_bits (bits_value p) = p.
Proof. cbn. by rewrite text_bools_text, bools_positive_bools. Qed.

#[global] Instance FilesystemMutationKind_eq_dec : EqDecision FilesystemMutationKind.
Proof. solve_decision. Defined.

Definition kind_code (kind : FilesystemMutationKind) : N :=
  match kind with Kind_WriteFile => 0 | Kind_DeleteFile => 1 | Kind_CreateMode => 2 | Kind_DeleteMode => 3
  | Kind_ImportResources => 4 end%N.
Definition kind_of (code : N) : FilesystemMutationKind :=
  match code with 0 => Kind_WriteFile | 1 => Kind_DeleteFile | 2 => Kind_CreateMode | 3 => Kind_DeleteMode
  | _ => Kind_ImportResources end%N.

Definition write_fields (write : FilesystemWritePlan) :=
  (write_target write, write_candidate write, (write_backup write, write_target_existed write, write_candidate_sha256 write)).
Definition playlist_fields (playlist : ImportPlaylistPlan) :=
  (playlist_plan_name playlist, playlist_plan_category playlist, playlist_plan_track_ids playlist).
Definition plan_fields (plan : FilesystemMutationPlan) :=
  ((plan_version plan, plan_journal_id plan, kind_code (plan_kind plan)),
   (plan_target plan, plan_stage_directory plan, plan_candidate plan),
   ((plan_backup_path plan, plan_target_existed plan, plan_candidate_sha256 plan),
    (write_fields <$> plan_writes plan, playlist_fields <$> plan_playlists plan))).

Definition fields_write (fields : string * string * (option string * bool * string)) : FilesystemWritePlan :=
  let '(target, candidate, (backup, existed, hash)) := fields in mkFilesystemWritePlan target candidate backup existed hash.
Definition fields_playlist (fields : string * option string * list Z) : ImportPlaylistPlan :=
  let '(name, category, tracks) := fields in mkImportPlaylistPlan name category tracks.

#[global] Instance bits_codec : PlanCodec := {|
  plan_to_value plan := Ok (bits_value (encode (plan_fields plan)));
  plan_from_value value :=
    match decode (value_bits value) with
    | Some ((version, journal_id, kind), (target, stage, candidate), ((backup, existed, hash), (writes, playlists))) =>
        Ok (mkFilesystemMutationPlan version journal_id (kind_of kind) target stage candidate backup existed hash
          (fields_write <$> writes) (fields_playlist <$> playlists))
    | None => Err "not a plan"
    end |}.

#[global] Instance bits_codec_spec : PlanCodecSpec.
Proof.
  split. intros plan value [= <-]. cbn [plan_from_value bits_codec].
  rewrite value_bits_value, decode_encode. destruct plan as [version journal_id kind target stage candidate backup existed hash writes playlists].
  cbn. f_equal. f_equal.
  - by destruct kind.
  - rewrite <- list_fmap_compose. rewrite <- (list_fmap_id writes) at 2. apply list_fmap_ext. by intros ? [].
  - rewrite <- list_fmap_compose. rewrite <- (list_fmap_id playlists) at 2. apply list_fmap_ext. by intros ? [].
Qed.

(** A digest, and the texts of the documents: one document of each kind. *)
#[global] Instance identity_digest : Sha256 := { sha256_hex content := content }.

Definition plain_manifest (mode_id : string) : ModeDocument :=
  mkModeDocument mode_id "Night" None [] [] [] (mkIntegrationsDocument None ∅) 3000 None false ∅.
Definition plain_soundboard : SoundboardDocument := mkSoundboardDocument None None [] ∅.
Definition plain_cue : CueDocument := mkCueDocument None "Storm" None None None 0 0 [] [] ∅.
Definition plain_preset : PresetDocument := mkPresetDocument None "Hall" None [] None ∅.

#[global] Instance manifest_yaml : YamlText ModeDocument :=
  { yaml_from_str text := Ok (plain_manifest text); yaml_to_string document := Ok (manifest_id document) }.
#[global] Instance soundboard_yaml : YamlText SoundboardDocument :=
  { yaml_from_str _ := Ok plain_soundboard; yaml_to_string _ := Ok "soundboard" }.
#[global] Instance cue_yaml : YamlText CueDocument :=
  { yaml_from_str _ := Ok plain_cue; yaml_to_string _ := Ok "cue" }.
#[global] Instance preset_yaml : YamlText PresetDocument :=
  { yaml_from_str text := if String.eqb text "broken" then Err "not a preset" else Ok plain_preset;
    yaml_to_string _ := Ok "preset" }.

(* ------------------------------------------------------------------ *)
(** ** One mode on disk *)

Definition night_tree : FsTree := list_to_map [
  (["night"], FsDirectory);
  (["night"; "manifest.yaml"], FsFile "night");
  (["night"; "cues"], FsDirectory);
  (["night"; "cues"; "storm.yaml"], FsFile "storm");
  (["night"; "presets"], FsDirectory)].

Definition journal_7 : RecoveryJournalId := mkRecoveryJournalId "00000000000000000000000000000007".

Lemma journal_7_valid : journal_id_valid journal_7.
Proof. reflexivity. Defined.

(** Well-formedness of a concrete tree, checked entry by entry. *)
Definition tree_wfb (t : FsTree) : bool :=
  forallb (fun p => match p with [] => false | _ => parent_is_dir p t end) (map_to_list t).*1.

Lemma tree_wfb_ok t : tree_wfb t = true -> tree_wf t.
Proof.
  intros Hb p c [n Hn]. unfold tree_wfb in Hb.
  rewrite forallb_forall in Hb. specialize (Hb (p ++ [c])).
  rewrite <- list_elem_of_In in Hb. unfold parent_is_dir in Hb. rewrite removelast_last in Hb.
  destruct (p ++ [c]) eqn:Heq; [by destruct p|]. apply Hb. rewrite <- Heq in *.
  apply list_elem_of_fmap. exists (p ++ [c], n). split; [by rewrite Heq|]. by apply elem_of_map_to_list.
Qed.

Lemma night_tree_wf : tree_wf night_tree.
Proof. apply tree_wfb_ok. vm_compute. reflexivity. Defined.

(** A journal entry for a prepared mutation. *)
Definition planned_journal (prepared : PreparedModeMutation) : RecoveryJournalEntry :=
  mkRecoveryJournalEntry journal_7 Domain_Modes (prepared_operation prepared) Applying (prepared_plan prepared)
    (Json_Object []) 0 0 None.

Lemma planned_journal_records prepared : journal_records journal_7 prepared (planned_journal prepared).
Proof. by split. Defined.

Definition no_prepared : PreparedModeMutation := mkPreparedModeMutation (mkRecoveryOperation "") Json_Null.
Definition prepared_of (t : FsTree) (mutation : ModeMutation) : PreparedModeMutation :=
  match fs_prepare journal_7 mutation (mkFilesystem t []) with (Ok prepared, _) => prepared | _ => no_prepared end.
Definition tree_after {A : Type} (m : fs A) (t : FsTree) (fates : list SyscallFate) : FsTree :=
  fs_tree (m (mkFilesystem t fates)).2.
Definition prepared_tree (t : FsTree) (mutation : ModeMutation) : FsTree := tree_after (fs_prepare journal_7 mutation) t [].

Definition done_times (n : nat) : list SyscallFate := repeat Sys_done n ++ [Sys_crash].

Definition delete_storm : ModeMutation := DeleteCue 1 "night" "storm".
Definition delete_night : ModeMutation := DeleteMode 1 "night".
Definition replace_storm : ModeMutation := PutCue 1 "night" "storm" plain_cue false.
Definition create_rain : ModeMutation := PutCue 1 "night" "rain" plain_cue true.
Definition create_day : ModeMutation := CreateMode 1 (plain_manifest "day").

Lemma runs_to_after {A : Type} (m : fs A) t fates r :
  fst (m (mkFilesystem t fates)) = r -> runs_to m r t (tree_after m t fates).
Proof.
  intros <-. exists fates, (snd (m (mkFilesystem t fates))). split; [|done]. by destruct (m _).
Qed.

Lemma left_behind_after journal tp applied rolled e :
  fst (fs_rollback journal (mkFilesystem (tree_after (fs_apply journal) tp applied) rolled)) = Err e ->
  left_behind journal tp (tree_after (fs_rollback journal) (tree_after (fs_apply journal) tp applied) rolled).
Proof.
  intros Hrun. exists (tree_after (fs_apply journal) tp applied). split.
  - right. exists (fst (fs_apply journal (mkFilesystem tp applied))). by apply runs_to_after.
  - apply rtc_once. exists e. by apply runs_to_after.
Qed.

Lemma left_behind_applied journal tp applied :
  left_behind journal tp (tree_after (fs_apply journal) tp applied).
Proof.
  exists (tree_after (fs_apply journal) tp applied). split; [|done].
  right. exists (fst (fs_apply journal (mkFilesystem tp applied))). by apply runs_to_after.
Qed.

(** The replacement of a cue stops between its two renames, the first rollback
    stops before anything is restored. *)
Definition replace_journal : RecoveryJournalEntry := planned_journal (prepared_of night_tree replace_storm).
Definition half_replaced_tree : FsTree :=
  tree_after (fs_rollback replace_journal)
    (tree_after (fs_apply replace_journal) (prepared_tree night_tree replace_storm) (done_times 1)) (done_times 0).

Example half_replaced_tree_has_no_cue : half_replaced_tree !! ["night"; "cues"; "storm.yaml"] = None.
Proof. vm_compute. reflexivity. Qed.

Lemma preparing_publishes_nothing_witness :
  forall p, staged p = false -> prepared_tree night_tree replace_storm !! p = night_tree !! p.
Proof.
  intros p Hp.
  apply (preparing_publishes_nothing night_tree journal_7 replace_storm (Ok (prepared_of night_tree replace_storm)));
    [apply night_tree_wf|apply journal_7_valid| |exact Hp].
  apply runs_to_after. vm_compute. reflexivity.
Defined.

Lemma unfinished_mutations_are_undone_witness :
  (forall t' p, runs_to (fs_rollback replace_journal) (Ok ()) half_replaced_tree t' -> staged p = false ->
     t' !! p = night_tree !! p) /\
  (restartable replace_storm = true -> exists t', runs_to (fs_rollback replace_journal) (Ok ()) half_replaced_tree t').
Proof.
  apply (unfinished_mutations_are_undone night_tree journal_7 replace_storm (prepared_of night_tree replace_storm)
    replace_journal (prepared_tree night_tree replace_storm)).
  - apply night_tree_wf.
  - apply journal_7_valid.
  - reflexivity.
  - apply runs_to_after. vm_compute. reflexivity.
  - apply planned_journal_records.
  - apply (left_behind_after _ _ _ _ Fs_crashed). vm_compute. reflexivity.
Defined.

Lemma applied_mutations_are_published_witness :
  let journal := planned_journal (prepared_of night_tree delete_night) in
  let t := tree_after (fs_apply journal) (prepared_tree night_tree delete_night) [] in
  clear ["night"] t /\ forall p, staged p = false -> strip ["night"] p = None -> t !! p = night_tree !! p.
Proof.
  intros journal t.
  destruct (applied_mutations_are_published night_tree journal_7 delete_night (prepared_of night_tree delete_night)
    journal (prepared_tree night_tree delete_night) t) as (_ & Hdelete & _).
  - apply night_tree_wf.
  - apply journal_7_valid.
  - apply runs_to_after. vm_compute. reflexivity.
  - apply planned_journal_records.
  - apply runs_to_after. vm_compute. reflexivity.
  - exact (Hdelete Kind_DeleteMode "night" ["night"] eq_refl eq_refl).
Defined.

(** The creation of a cue stops between the link and the release. *)
Definition rain_journal : RecoveryJournalEntry := planned_journal (prepared_of night_tree create_rain).
Definition linked_tree : FsTree :=
  tree_after (fs_apply rain_journal) (prepared_tree night_tree create_rain) (done_times 1).

Lemma created_documents_are_withdrawn_unless_linked_witness :
  let t' := tree_after (fs_rollback rain_journal) linked_tree [] in
  is_Some (t' !! ["night"; "cues"; "rain.yaml"]) <->
  is_Some (linked_tree !! ["night"; "cues"; "rain.yaml"]) /\ is_Some (linked_tree !! artifact journal_7 "candidate.yaml").
Proof.
  intros t'.
  apply (created_documents_are_withdrawn_unless_linked night_tree journal_7 create_rain "night/cues/rain.yaml" "cue"
    ["night"; "cues"; "rain.yaml"] (prepared_of night_tree create_rain) rain_journal
    (prepared_tree night_tree create_rain) linked_tree t').
  - apply night_tree_wf.
  - apply journal_7_valid.
  - reflexivity.
  - reflexivity.
  - apply runs_to_after. vm_compute. reflexivity.
  - apply planned_journal_records.
  - apply left_behind_applied.
  - apply runs_to_after. vm_compute. reflexivity.
Defined.

(** The journal says rolled back, the staging directory is gone, and the
    document is published. *)
Lemma crashed_creation_stays_published :
  let t' := tree_after (fs_rollback rain_journal) linked_tree [] in
  fst (fs_rollback rain_journal (mkFilesystem linked_tree [])) = Ok () /\
  night_tree !! ["night"; "cues"; "rain.yaml"] = None /\
  t' !! ["night"; "cues"; "rain.yaml"] = Some (FsFile "cue") /\ t' !! [STAGING_DIRECTORY] = None.
Proof. vm_compute. auto. Qed.

(** A crash in the rollback of a created mode, after its marker is removed:
    from then on every rollback refuses, without any fault. *)
Definition day_journal : RecoveryJournalEntry := planned_journal (prepared_of night_tree create_day).
Definition day_tree : FsTree :=
  tree_after (fs_rollback day_journal)
    (tree_after (fs_apply day_journal) (prepared_tree night_tree create_day) []) (done_times 6).

Lemma crashed_mode_rollback_is_stuck :
  fst (fs_rollback day_journal (mkFilesystem day_tree [])) =
    Err (Fs_failed "created mode changed before rollback") /\
  day_tree !! ["day"] = Some FsDirectory.
Proof. split; vm_compute; reflexivity. Qed.

(* ------------------------------------------------------------------ *)
(** ** Loading and changing the catalog *)

Definition night_load : result FsError ModeLoadAttempt * Filesystem := load_catalog (mkFilesystem night_tree []).
Definition night_modes : gmap string ModeBundle :=
  match fst night_load with Ok loaded => attempt_modes loaded | Err _ => ∅ end.
Definition night_catalog : ModeCatalog := mkModeCatalog 1 night_modes.

Example night_has_its_cue : catalog_soundboard_item night_catalog "night" "none" "none" = None /\
  option_map (fun mode => elements (dom (bundle_cues mode))) (night_modes !! "night") = Some ["storm"].
Proof. vm_compute. auto. Qed.

Lemma loaded_catalogs_are_valid_witness :
  match fst night_load with Ok loaded => catalog_valid (attempt_modes loaded) | Err _ => True end.
Proof.
  exact (loaded_catalogs_are_valid (mkFilesystem night_tree []) (fst night_load) (snd night_load)
    (surjective_pairing night_load)).
Defined.

(** A catalog with one mode, and a mutation of it. *)
Definition small_modes : gmap string ModeBundle :=
  {[ "night" := mkModeBundle (plain_manifest "night") ∅ ∅ ∅ None ]}.

Lemma small_modes_valid : catalog_valid small_modes.
Proof. apply map_Forall_singleton. by constructor. Defined.

Definition small_catalog : ModeCatalog := mkModeCatalog 1 small_modes.
Definition new_storm : ModeMutation := PutCue 1 "night" "storm" (with_cue_document_id (Some "storm") plain_cue) true.
Definition stormy_modes : gmap string ModeBundle :=
  match apply_catalog_mutation small_catalog new_storm with Ok modes => modes | Err _ => ∅ end.

Lemma accepted {E A : Type} (r : result E A) (otherwise : A) :
  match r with Ok _ => true | Err _ => false end = true ->
  r = Ok match r with Ok a => a | Err _ => otherwise end.
Proof. by destruct r. Qed.

Lemma mutations_keep_the_catalog_valid_witness :
  apply_catalog_mutation small_catalog new_storm = Ok stormy_modes /\ catalog_valid stormy_modes.
Proof.
  assert (Hok : apply_catalog_mutation small_catalog new_storm = Ok stormy_modes)
    by (unfold stormy_modes; apply accepted; vm_compute; reflexivity).
  split; [exact Hok|].
  apply (mutations_keep_the_catalog_valid small_catalog new_storm stormy_modes small_modes_valid Hok).
Defined.

(* ------------------------------------------------------------------ *)
(** * A mode command in the wired world *)

#[local] Open Scope string_scope.
#[local] Open Scope list_scope.

(* ------------------------------------------------------------------ *)
(** ** Texts of the journal's values *)

Definition quote_char : Ascii.ascii := Ascii.ascii_of_nat 34.
Definition object_char : Ascii.ascii := Ascii.ascii_of_nat 123.
Definition value_field (field : string * JsonValue) : option (string * (bool * string)) :=
  match field.2 with
  | Json_String text => Some (field.1, (true, text))
  | Json_Number text => Some (field.1, (false, text))
  | _ => None
  end.
Definition field_value (field : string * (bool * string)) : string * JsonValue :=
  (field.1, if field.2.1 : bool then Json_String field.2.2 else Json_Number field.2.2).

Lemma value_fields entries fields : mapM value_field entries = Some fields -> field_value <$> fields = entries.
Proof.
  revert fields. induction entries as [|[key value] entries IH]; intros fields; cbn; [by intros [= <-]|].
  intros (field & Hf & (fs & Hfs & [= <-])%bind_Some)%bind_Some. cbn. rewrite (IH _ Hfs).
  destruct value; try done; by injection Hf as <-.
Qed.

#[global] Instance bits_text : JsonText := {|
  value_to_string value :=
    match value with
    | Json_String text => Ok (String quote_char text)
    | Json_Object entries =>
        match mapM value_field entries with
        | Some fields => Ok (String object_char (bools_text (positive_bools (encode fields))))
        | None => Err "not supported"
        end
    | _ => Err "not supported"
    end;
  value_from_str text :=
    match text with
    | String a text =>
        if Ascii.eqb a quote_char then Ok (Json_String text) else
        match decode (bools_positive (text_bools text)) with
        | Some fields => Ok (Json_Object (field_value <$> fields))
        | None => Err "not a value"
        end
    | "" => Err "not a value"
    end |}.

#[global] Instance bits_text_spec : JsonTextSpec.
Proof.
  split. intros value text. cbn. destruct value as [| | |text'| |entries]; try done; [by intros [= <-]|].
  destruct (mapM value_field entries) as [fields|] eqn:Hf; [|done]. intros [= <-].
  by rewrite text_bools_text, bools_positive_bools, decode_encode, (value_fields _ _ Hf).
Qed.

#[global] Instance still_clock : JournalClock := {| journal_timestamp _ := 0%Z |}.
#[global] Instance still_seconds : ModeClock := {| mode_unix_seconds _ := 0%N |}.
#[global] Instance journal_ids : JournalIds := {| fresh_journal_id _ := journal_7 |}.
#[global] Instance no_equal_values : ValueEq := {| value_eqb _ _ := false |}.

(* ------------------------------------------------------------------ *)
(** ** The runs *)

(** The modes directory under [fates], the task with its catalog under [deaths]. *)
Definition world_under (fates : list SyscallFate) : ModeWorld :=
  mkModeWorld (mkFilesystem night_tree fates) (mkSqliteJournal ∅ 0 []) [] None.
Definition task_under (fates : list SyscallFate) (deaths : list bool) : Coordinator ModeWorld :=
  mkCoordinator (world_under fates) (Some night_catalog) (Some night_catalog)
    (mkModeStatus Load_Current 1 (Some 0%N) ["night"] ∅) deaths 0 0.

(** The world as the next start finds it, its faults over. *)
Definition healed (w : ModeWorld) : ModeWorld :=
  mkModeWorld (mkFilesystem (fs_tree (world_disk w)) []) (world_journal w) [] None.

Definition storm_file : FsPath := ["night"; "cues"; "storm.yaml"].
Definition replace_cue : ModeMutation :=
  PutCue 1 "night" "storm" (with_cue_document_id (Some "storm") plain_cue) false.

Lemma empty_journal_ok : sqlite_journal_ok (mkSqliteJournal ∅ 0 []).
Proof. apply map_Forall_empty. Defined.

Lemma task_ready fates deaths : ready (task_under fates deaths).
Proof.
  split; [apply empty_journal_ok|apply night_tree_wf| |reflexivity].
  intros k domain state plan Hk. vm_compute in Hk. discriminate.
Defined.

(** The process dies after the deletion is applied; the first restart dies in
    its recovery, the second completes it. *)
Definition dead_task : Coordinator ModeWorld :=
  snd (perform_mutation delete_storm (task_under [] [false; false; false; false; true])).
Definition dead_start : Coordinator ModeWorld :=
  snd (recover_mode_mutations (start_coordinator (world dead_task) [false; false; true])).
Definition second_start : Coordinator ModeWorld :=
  snd (recover_mode_mutations (start_coordinator (world dead_start) [])).

Example the_cue_comes_back :
  fs_tree (world_disk (world dead_task)) !! storm_file = None /\
  fs_tree (world_disk (world second_start)) !! storm_file = Some (FsFile "storm").
Proof. vm_compute. auto. Qed.

Lemma pair_of {A B : Type} (x : A * B) a : fst x = a -> x = (a, snd x).
Proof. intros <-. apply surjective_pairing. Qed.

(** The creation of a cue dies between the link and the release; the start after
    it calls the mutation undone, and the cue stays, as its whole text. *)
Definition make_rain : ModeMutation := PutCue 1 "night" "rain" (with_cue_document_id (Some "rain") plain_cue) true.
Definition linked_task : Coordinator ModeWorld := snd (perform_mutation make_rain (task_under (done_times 6) [])).
Definition linked_start : Coordinator ModeWorld :=
  snd (recover_mode_mutations (start_coordinator (world linked_task) [])).

Lemma mode_mutations_survive_crashes_witness :
  (as_before delete_storm (published_tree night_tree) (published_tree (fs_tree (world_disk (world second_start)))) \/
   carried_out delete_storm (published_tree night_tree) (published_tree (fs_tree (world_disk (world second_start)))) \/
   marked_failed journal_7 (world second_start)) /\
  fs_tree (world_disk (world linked_start)) !! ["night"; "cues"; "rain.yaml"] = Some (FsFile "cue") /\
  (as_before make_rain (published_tree night_tree) (published_tree (fs_tree (world_disk (world linked_start)))) \/
   carried_out make_rain (published_tree night_tree) (published_tree (fs_tree (world_disk (world linked_start)))) \/
   marked_failed journal_7 (world linked_start)).
Proof.
  assert (Hrun : perform_mutation delete_storm (task_under [] [false; false; false; false; true]) = (Err Stop_died, dead_task))
    by (unfold dead_task; apply pair_of; vm_compute; reflexivity).
  assert (Hdead : recover_mode_mutations (start_coordinator (world dead_task) [false; false; true]) = (Err Stop_died, dead_start))
    by (unfold dead_start; apply pair_of; vm_compute; reflexivity).
  assert (Hsecond : recover_mode_mutations (start_coordinator (world dead_start) []) = (Ok (), second_start))
    by (unfold second_start; apply pair_of; vm_compute; reflexivity).
  assert (Hrtc : rtc failed_start (world dead_task) (world dead_start))
    by (apply rtc_once; exists [false; false; true], Stop_died, dead_start; exact (conj Hdead eq_refl)).
  assert (Hrain : perform_mutation make_rain (task_under (done_times 6) []) = (Err Stop_died, linked_task))
    by (unfold linked_task; apply pair_of; vm_compute; reflexivity).
  assert (Hlinked : recover_mode_mutations (start_coordinator (world linked_task) []) = (Ok (), linked_start))
    by (unfold linked_start; apply pair_of; vm_compute; reflexivity).
  split; [exact (mode_mutations_survive_crashes delete_storm _ _ _ (task_ready [] _) eq_refl Hrun (world dead_start) [] second_start Hrtc Hsecond)|].
  split; [vm_compute; reflexivity|].
  exact (mode_mutations_survive_crashes make_rain _ _ _ (task_ready _ []) eq_refl Hrain _ [] linked_start (rtc_refl _ _) Hlinked).
Defined.

(** A replacement is applied, the load that verifies it fails, and so does the
    rename that would restore the old document. *)
Definition failed_task : Coordinator ModeWorld :=
  snd (perform_mutation replace_cue
    (task_under (repeat Sys_done 8 ++ [Sys_failed; Sys_done; Sys_done; Sys_failed]) [])).
Definition next_start : Coordinator ModeWorld :=
  snd (recover_mode_mutations (start_coordinator (healed (world failed_task)) [])).

(** The old document is still in the staging directory when the mutation ends,
    and the next start, which succeeds, deletes it: neither text is left. *)
Lemma failed_rollback_loses_the_document :
  fst (recover_mode_mutations (start_coordinator (healed (world failed_task)) [])) = Ok () /\
  fs_tree (world_disk (world failed_task)) !! artifact journal_7 "backup.yaml" = Some (FsFile "storm") /\
  fs_tree (world_disk (world next_start)) !! storm_file = None /\
  fs_tree (world_disk (world next_start)) !! artifact journal_7 "backup.yaml" = None /\
  marked_failed journal_7 (world next_start).
Proof.
  split_and!; [vm_compute; reflexivity..|].
  exists (prepared_plan (prepared_of night_tree replace_cue)). vm_compute. reflexivity.
Qed.

(** A reload whose reads fail. *)
Definition reload_task : Coordinator ModeWorld := task_under (repeat Sys_failed 20) [].

Lemma reloads_keep_the_last_good_catalog_witness :
  exists report, fst (perform_reload reload_task) = Ok report /\ refused reload_task report (snd (perform_reload reload_task)).
Proof.
  pose proof (reloads_keep_the_last_good_catalog reload_task _ _ (surjective_pairing (perform_reload reload_task))) as Hr.
  destruct (fst (perform_reload reload_task)) as [report|stop] eqn:Hreport; [|vm_compute in Hreport; discriminate].
  exists report. split; [reflexivity|]. destruct Hr as [_ Hr].
  assert (Hp : report_published report = false) by (vm_compute in Hreport; injection Hreport as <-; reflexivity).
  rewrite Hp in Hr. exact Hr.
Defined.

(** A start, a mutation, a command that is out of date, and a reload. *)
Definition night_run : list ModeReply * result ModeStop () * Coordinator ModeWorld :=
  run_mode_coordinator true [Command_Mutate delete_storm; Command_Mutate delete_storm; Command_Reload]
    (start_coordinator (world_under []) []).

Lemma published_generations_are_consecutive_witness :
  omap published_generation (fst (fst night_run)) = [2; 3]%N /\
  status_generation (watched_status (snd night_run)) = 3%N.
Proof.
  assert (Hreplies : omap published_generation (fst (fst night_run)) = [2; 3]%N) by (vm_compute; reflexivity).
  split; [exact Hreplies|].
  destruct (published_generations_are_consecutive true [Command_Mutate delete_storm; Command_Mutate delete_storm; Command_Reload]
    (world_under []) [] (fst (fst night_run)) (snd (fst night_run)) (snd night_run)) as (first & _ & _ & Hend).
  - unfold night_run. destruct (run_mode_coordinator _ _ _) as [[replies r] c]. reflexivity.
  - destruct Hend as (_ & Hstatus & Hlast); [vm_compute; discriminate|].
    rewrite Hstatus, Hlast, Hreplies. reflexivity.
Defined.
