(* ===== verification/Library.v ===== *)
(** * The library index

    [crates/music-domain/src/library.rs] and the reading side of
    [crates/music-storage/src/library.rs]: an indexed track, the rows of the
    tables [tracks], [track_originals] and [track_user_tags], and the decoding
    of a row. A statement's type errors are not modelled: the columns are typed;
    a [DATETIME] column is what [strftime('%s', ..)] reads from it. *)

From S2P Require Import Prelude MediaPath PlaybackState JobStore.
From Stdlib Require Import SpecFloat.

#[local] Open Scope string_scope.
#[local] Open Scope N_scope.
#[local] Open Scope list_scope.

(* ------------------------------------------------------------------ *)
(** ** Domain records *)

Inductive LibraryRecordError : Type :=
| GenerationOverflow
| NegativeGeneration
| InvalidDuration
| NegativeSize
| NumericFieldOutOfRange (field : string).

(** [LibraryGeneration(u64)]: [next] and [TryFrom<i64>]. *)
Definition LibraryGeneration_next (generation : N) : result LibraryRecordError N :=
  ok_or GenerationOverflow (u64_checked_add generation 1).
Definition LibraryGeneration_try_from (value : Z) : result LibraryRecordError N :=
  ok_or NegativeGeneration (u64_try_from_i64 value).

Record TrackMetadata : Type := mkTrackMetadata {
  metadata_title : string;
  metadata_artist : string;
  metadata_album_artist : string;
  metadata_album : string;
  metadata_release_date : string;
  metadata_original_release_date : string;
  metadata_composer : string;
  metadata_track_no : option N;
  metadata_disc_no : option N;
  metadata_year : option N;
  metadata_genre : string;
  metadata_bpm : option N
}.

Record TrackOriginal : Type := mkTrackOriginal {
  original_extension : string;
  original_size_bytes : N;
  original_mtime_unix_seconds : Z
}.

(** A [Duration] is a number of nanoseconds. *)
Record IndexedTrack : Type := mkIndexedTrack {
  track_id : TrackId;
  track_path : LibraryPath;
  track_metadata : TrackMetadata;
  track_duration : N;
  track_display_title : string;
  track_origin : string;
  track_size_bytes : N;
  track_mtime_unix_seconds : Z;
  track_added_at_unix_seconds : Z;
  track_original : option TrackOriginal
}.

#[global] Instance TrackMetadata_eq_dec : EqDecision TrackMetadata.
Proof. solve_decision. Defined.
#[global] Instance TrackOriginal_eq_dec : EqDecision TrackOriginal.
Proof. solve_decision. Defined.
#[global] Instance IndexedTrack_eq_dec : EqDecision IndexedTrack.
Proof. assert (EqDecision LibraryPath) by (intros [a] [b]; solve_decision). solve_decision. Defined.

(** Where a converted track's original file sits under the originals root. *)
Definition original_path (track : IndexedTrack) : option LibraryPath :=
  match track_original track with
  | Some original => result_ok (with_extension (track_path track) (original_extension original))
  | None => None
  end.

(* ------------------------------------------------------------------ *)
(** ** Durations *)

Definition nanos_per_second : N := 1000000000.

(** [numerator / 2^shift] rounded to nearest, ties to even. *)
Definition round_half_even (numerator shift : N) : N :=
  let divisor := 2 ^ shift in
  let quotient := numerator / divisor in
  let rest := 2 * (numerator mod divisor) in
  if rest <? divisor then quotient
  else if divisor <? rest then quotient + 1
  else if N.even quotient then quotient else quotient + 1.

(** [Duration::try_from_secs_f64] in nanoseconds: [None] for a negative
    value, a value of 2^64 seconds or more, and what is not finite. *)
Definition try_from_secs_f64 (seconds : f64) : option N :=
  match seconds with
  | S754_zero _ => Some 0
  | S754_finite false mantissa exponent =>
      let scaled := Npos mantissa * nanos_per_second in
      let nanos :=
        match exponent with
        | Zneg shift => round_half_even scaled (Npos shift)
        | _ => scaled * 2 ^ Z.to_N exponent
        end in
      if nanos / nanos_per_second <=? u64_max then Some nanos else None
  | _ => None
  end.

(* ------------------------------------------------------------------ *)
(** ** The tables *)

(** The errors the repositories over the library's tables return. *)
Inductive LibraryStorageError : Type :=
| LibraryStorage_Database (cause : string)
| InvalidLibraryRecord (detail : string)
| InvalidLibraryPath (error : MediaPathError)
| InvalidLibraryState (detail : string)
| InvalidTimestamp
| ManifestSerialization (cause : string).

Record TrackRow : Type := mkTrackRow {
  tracks_id : Z;
  tracks_path : string;
  tracks_title : string;
  tracks_artist : string;
  tracks_album_artist : string;
  tracks_album : string;
  tracks_track_no : option Z;
  tracks_disc_no : option Z;
  tracks_year : option Z;
  tracks_release_date : string;
  tracks_original_release_date : string;
  tracks_composer : string;
  tracks_genre : string;
  tracks_length_s : f64;
  tracks_bpm : option Z;
  tracks_display_title : string;
  tracks_origin : string;
  tracks_size_bytes : Z;
  tracks_mtime : Z;
  tracks_added_at : option Z
}.

Record OriginalRow : Type := mkOriginalRow {
  originals_track_id : Z;
  originals_extension : string;
  originals_size_bytes : Z;
  originals_mtime : Z
}.

Record LibraryTables : Type := mkLibraryTables {
  tracks_table : list TrackRow;
  originals_table : list OriginalRow;
  (** [track_user_tags]: the track and the tag. *)
  user_tags_table : list (Z * string)
}.

(** A row under [TRACK_COLUMNS]: the track and its kept original, if any. *)
Definition with_original (tables : LibraryTables) (row : TrackRow) : TrackRow * option OriginalRow :=
  (row, List.find (fun original => originals_track_id original =? tracks_id row)%Z
          (originals_table tables)).

(* ------------------------------------------------------------------ *)
(** ** Decoding a row *)

Definition numeric (field : string) (value : option Z) : result LibraryStorageError (option N) :=
  option_transpose (fun value => ok_or (InvalidLibraryRecord field) (u32_try_from_i64 value)) value.

Definition track_original_from_row (original : option OriginalRow)
    : result LibraryStorageError (option TrackOriginal) :=
  match original with
  | None => Ok None
  | Some row =>
      size_bytes ← ok_or (InvalidLibraryRecord "kept original size is invalid")
                     (u64_try_from_i64 (originals_size_bytes row));
      Ok (Some {| original_extension := originals_extension row;
                  original_size_bytes := size_bytes;
                  original_mtime_unix_seconds := originals_mtime row |})
  end.

Definition indexed_track_from_row (columns : TrackRow * option OriginalRow)
    : result LibraryStorageError IndexedTrack :=
  let '(row, original) := columns in
  duration ← ok_or (InvalidLibraryRecord "track duration is invalid")
               (try_from_secs_f64 (tracks_length_s row));
  id ← map_err (fun _ => InvalidLibraryRecord "track id is invalid") (TrackId_new (tracks_id row));
  path ← map_err InvalidLibraryPath (path_parse (tracks_path row));
  track_no ← numeric "track_no is invalid" (tracks_track_no row);
  disc_no ← numeric "disc_no is invalid" (tracks_disc_no row);
  year ← numeric "year is invalid" (tracks_year row);
  bpm ← numeric "bpm is invalid" (tracks_bpm row);
  size_bytes ← ok_or (InvalidLibraryRecord "track size is negative")
                 (u64_try_from_i64 (tracks_size_bytes row));
  added_at ← ok_or InvalidTimestamp (tracks_added_at row);
  original ← track_original_from_row original;
  Ok {|
    track_id := id;
    track_path := path;
    track_metadata := {|
      metadata_title := tracks_title row;
      metadata_artist := tracks_artist row;
      metadata_album_artist := tracks_album_artist row;
      metadata_album := tracks_album row;
      metadata_release_date := tracks_release_date row;
      metadata_original_release_date := tracks_original_release_date row;
      metadata_composer := tracks_composer row;
      metadata_track_no := track_no;
      metadata_disc_no := disc_no;
      metadata_year := year;
      metadata_genre := tracks_genre row;
      metadata_bpm := bpm |};
    track_duration := duration;
    track_display_title := tracks_display_title row;
    track_origin := tracks_origin row;
    track_size_bytes := size_bytes;
    track_mtime_unix_seconds := tracks_mtime row;
    track_added_at_unix_seconds := added_at;
    track_original := original |}.

(** [SELECT {TRACK_COLUMNS} FROM tracks ORDER BY path, id] *)
Definition track_row_le (a b : TrackRow) : Prop :=
  if String.eqb (tracks_path a) (tracks_path b) then (tracks_id a <= tracks_id b)%Z
  else string_leb (tracks_path a) (tracks_path b) = true.
#[global] Instance track_row_le_dec a b : Decision (track_row_le a b).
Proof. unfold track_row_le. case_match; apply _. Defined.

Definition all_tracks (tables : LibraryTables) : result LibraryStorageError (list IndexedTrack) :=
  result_collect indexed_track_from_row
    (with_original tables <$> merge_sort track_row_le (tracks_table tables)).

(* ------------------------------------------------------------------ *)
(** ** Lemmas *)

Lemma indexed_track_id columns track :
  indexed_track_from_row columns = Ok track -> TrackId_get (track_id track) = tracks_id columns.1.
Proof.
  destruct columns as [row original]. unfold indexed_track_from_row. intros H. inv_results.
  repeat match goal with H : map_err _ _ = Ok _ |- _ => apply map_err_ok in H end. cbn.
  unfold TrackId_get. by destruct (tracks_id row); simplify_eq/=.
Qed.
