(* ===== verification/Playlists.v ===== *)
(** * Playlists

    [crates/music-application/src/playlists.rs]: the records of a playlist, the
    rules of automatic playlists with their normalisation, their JSON and their
    resolution against the library, the repository interface and the service in
    front of it. SHA-256 is the class [Sha256]; [yield_now] between two calls of
    the repository is where other writers of the store may act. *)

From S2P Require Import Prelude Text Library PlaybackState MediaPath JobStore RecoveryJournal.

#[local] Open Scope string_scope.
#[local] Open Scope N_scope.
#[local] Open Scope list_scope.

Definition AUTOMATIC_RULE_SCHEMA : string := "automatic-playlist/v1".
Definition MAX_PLAYLIST_ITEMS : N := 20000.


(* ------------------------------------------------------------------ *)
(** ** Records *)

Record PlaylistRecord : Type := mkPlaylistRecord {
  playlist_id : Z;
  playlist_name : string;
  playlist_mode_id : option string;
  playlist_category : option string;
  automatic_rule_json : string;
  automatic_source_signature : option string;
  automatic_refreshed_at : option Z;
  playlist_created_at : Z;
  playlist_updated_at : Z
}.

Record PlaylistCreate : Type := mkPlaylistCreate {
  create_name : string;
  create_mode_id : option string;
  create_category : option string
}.

Inductive PatchValue (A : Type) : Type :=
| Unchanged
| Set_to (value : A).
Arguments Unchanged {A}.
Arguments Set_to {A} value.

(** [if let PatchValue::Set(value) = patch { field = value }] *)
Definition patched {A} (patch : PatchValue A) (field : A) : A :=
  match patch with Set_to value => value | Unchanged => field end.

Record PlaylistPatch : Type := mkPlaylistPatch {
  patch_name : PatchValue string;
  patch_mode_id : PatchValue string;
  patch_category : PatchValue (option string)
}.

Definition PlaylistPatch_default : PlaylistPatch := mkPlaylistPatch Unchanged Unchanged Unchanged.

Record PlaylistFilter : Type := mkPlaylistFilter {
  filter_mode_id : option string;
  filter_category : option string
}.

Record PlaylistItemRecord : Type := mkPlaylistItemRecord {
  item_position : Z;
  item_track_id : Z;
  item_track : option IndexedTrack
}.

Record PlaylistItems : Type := mkPlaylistItems {
  items_playlist : PlaylistRecord;
  items_items : list PlaylistItemRecord
}.

(* ------------------------------------------------------------------ *)
(** ** Automatic rules *)

Inductive AutomaticMatch : Type := Match_Any | Match_All.
Inductive AutomaticTagSources : Type := Sources_Manual.
Inductive AutomaticOrder : Type :=
| Order_Title | Order_Newest | Order_BpmAscending | Order_BpmDescending.

Record AutomaticPlaylistRule : Type := mkAutomaticPlaylistRule {
  rule_schema_version : string;
  rule_include_tags : list string;
  rule_match : AutomaticMatch;
  rule_exclude_tags : list string;
  rule_tag_sources : AutomaticTagSources;
  rule_min_bpm : option N;
  rule_max_bpm : option N;
  rule_include_unknown_bpm : bool;
  rule_maximum_tracks : N;
  rule_order_by : AutomaticOrder
}.

Inductive AutomaticRuleError : Type :=
| UnsupportedSchema
| TooManyTags
| BlankTag
| TagTooLong
| InvalidTagCharacter
| OverlappingTags
| BpmOutOfRange
| InvalidBpmRange
| MaximumTracksOutOfRange
| StoredRuleInvalid
| SignatureSerialization.

Definition AutomaticRuleError_fmt (error : AutomaticRuleError) : string :=
  match error with
  | UnsupportedSchema => "automatic playlist schema is unsupported"
  | TooManyTags => "automatic playlist tag lists cannot exceed 32 entries"
  | BlankTag => "tags cannot be blank"
  | TagTooLong => "tags cannot exceed 64 characters"
  | InvalidTagCharacter => "tags cannot contain control characters"
  | OverlappingTags => "included and excluded tags must be disjoint"
  | BpmOutOfRange => "BPM bounds must be between 1 and 999"
  | InvalidBpmRange => "min_bpm cannot be greater than max_bpm"
  | MaximumTracksOutOfRange => "maximum_tracks must be between 1 and 1000"
  | StoredRuleInvalid => "stored automatic playlist rule is invalid"
  | SignatureSerialization => "automatic playlist signature could not be encoded"
  end.

#[global] Instance AutomaticMatch_eq_dec : EqDecision AutomaticMatch.
Proof. solve_decision. Defined.
#[global] Instance AutomaticTagSources_eq_dec : EqDecision AutomaticTagSources.
Proof. solve_decision. Defined.
#[global] Instance AutomaticOrder_eq_dec : EqDecision AutomaticOrder.
Proof. solve_decision. Defined.
#[global] Instance AutomaticPlaylistRule_eq_dec : EqDecision AutomaticPlaylistRule.
Proof. solve_decision. Defined.

Section Rules.
Context `{Unicode}.

(** [matches!(get_general_category(character), ..)] *)
Definition is_unicode_other (character : char) : bool :=
  match get_general_category character with
  | Control | Format | PrivateUse | Surrogate | Unassigned => true
  | _ => false
  end.

(** The text a tag is compared by. *)
Definition folded_tag (tag : string) : string :=
  case_fold (join_with " " (split_whitespace (nfkc tag))).

Definition normalize_tag (tag : string) : result AutomaticRuleError string :=
  let folded := folded_tag tag in
  if String.eqb folded "" then Err BlankTag
  else if (64 <? chars_count folded)%nat then Err TagTooLong
  else if existsb is_unicode_other (chars folded) then Err InvalidTagCharacter
  else Ok folded.

(** The loop over the tags; [unique] holds what [normalized] does. *)
Fixpoint normalize_tags_from (normalized tags : list string)
    : result AutomaticRuleError (list string) :=
  match tags with
  | [] => Ok normalized
  | tag :: tags =>
      folded ← normalize_tag tag;
      normalize_tags_from (push_unique normalized folded) tags
  end.
Definition normalize_tags (tags : list string) : result AutomaticRuleError (list string) :=
  normalize_tags_from [] tags.

Definition bpm_out_of_range (bpm : option N) : bool :=
  match bpm with Some value => negb ((1 <=? value) && (value <=? 999)) | None => false end.

Definition bpm_range_inverted (minimum maximum : option N) : bool :=
  match minimum, maximum with Some minimum, Some maximum => maximum <? minimum | _, _ => false end.

(** [AutomaticPlaylistRule::normalized] *)
Definition normalized (rule : AutomaticPlaylistRule)
    : result AutomaticRuleError AutomaticPlaylistRule :=
  if negb (String.eqb (rule_schema_version rule) AUTOMATIC_RULE_SCHEMA) then Err UnsupportedSchema
  else if (32 <? length (rule_include_tags rule))%nat || (32 <? length (rule_exclude_tags rule))%nat
  then Err TooManyTags
  else
    include_tags ← normalize_tags (rule_include_tags rule);
    exclude_tags ← normalize_tags (rule_exclude_tags rule);
    if existsb (fun tag => contains tag exclude_tags) include_tags then Err OverlappingTags
    else if bpm_out_of_range (rule_min_bpm rule) || bpm_out_of_range (rule_max_bpm rule)
    then Err BpmOutOfRange
    else if bpm_range_inverted (rule_min_bpm rule) (rule_max_bpm rule) then Err InvalidBpmRange
    else if negb ((1 <=? rule_maximum_tracks rule) && (rule_maximum_tracks rule <=? 1000))
    then Err MaximumTracksOutOfRange
    else Ok {|
      rule_schema_version := rule_schema_version rule;
      rule_include_tags := include_tags;
      rule_match := rule_match rule;
      rule_exclude_tags := exclude_tags;
      rule_tag_sources := rule_tag_sources rule;
      rule_min_bpm := rule_min_bpm rule;
      rule_max_bpm := rule_max_bpm rule;
      rule_include_unknown_bpm := rule_include_unknown_bpm rule;
      rule_maximum_tracks := rule_maximum_tracks rule;
      rule_order_by := rule_order_by rule |}.

(* ------------------------------------------------------------------ *)
(** ** Resolution *)

Record AutomaticSourceTrack : Type := mkAutomaticSourceTrack {
  source_track : IndexedTrack;
  source_tags : gset string
}.

Record AutomaticPlaylistResolution : Type := mkAutomaticPlaylistResolution {
  resolution_source_signature : string;
  resolution_library_tracks : nat;
  resolution_tracks : list IndexedTrack
}.

Definition has_tag (entry : AutomaticSourceTrack) (tag : string) : bool :=
  bool_decide (tag ∈ source_tags entry).

Definition automatic_match (entry : AutomaticSourceTrack) (rule : AutomaticPlaylistRule) : bool :=
  let included :=
    match rule_match rule with
    | Match_Any => bool_decide (rule_include_tags rule = [])
                   || existsb (has_tag entry) (rule_include_tags rule)
    | Match_All => forallb (has_tag entry) (rule_include_tags rule)
    end in
  if negb included || existsb (has_tag entry) (rule_exclude_tags rule) then false
  else
    match metadata_bpm (track_metadata (source_track entry)) with
    | None => rule_include_unknown_bpm rule
    | Some bpm =>
        match rule_min_bpm rule with None => true | Some minimum => minimum <=? bpm end
        && match rule_max_bpm rule with None => true | Some maximum => bpm <=? maximum end
    end.

Definition compare_bpm (left right : IndexedTrack) (descending : bool) : comparison :=
  match metadata_bpm (track_metadata left), metadata_bpm (track_metadata right) with
  | Some l, Some r => if descending then r ?= l else l ?= r
  | Some _, None => Lt
  | None, Some _ => Gt
  | None, None => Eq
  end.

Definition automatic_title (track : IndexedTrack) : string :=
  case_fold
    (if negb (String.eqb (track_display_title track) "") then track_display_title track
     else if negb (String.eqb (metadata_title (track_metadata track)) "")
     then metadata_title (track_metadata track)
     else as_str (track_path track)).

(** [a.then_with(|| b)] *)
Definition then_with (a b : comparison) : comparison := match a with Eq => b | _ => a end.

Definition compare_titles (left right : IndexedTrack) : comparison :=
  then_with (String.compare (automatic_title left) (automatic_title right))
    (Pos.compare (track_id left) (track_id right)).

Definition automatic_order (order : AutomaticOrder) (left right : IndexedTrack) : comparison :=
  match order with
  | Order_Title => compare_titles left right
  | Order_Newest =>
      then_with (Z.compare (track_added_at_unix_seconds right) (track_added_at_unix_seconds left))
        (compare_titles left right)
  | Order_BpmAscending => then_with (compare_bpm left right false) (compare_titles left right)
  | Order_BpmDescending => then_with (compare_bpm left right true) (compare_titles left right)
  end.

Definition order_le (order : AutomaticOrder) (left right : IndexedTrack) : Prop :=
  automatic_order order left right <> Gt.
#[global] Instance order_le_dec order left right : Decision (order_le order left right).
Proof. unfold order_le. apply _. Defined.

Definition id_le (left right : AutomaticSourceTrack) : Prop :=
  (track_id (source_track left) <= track_id (source_track right))%positive.
#[global] Instance id_le_dec left right : Decision (id_le left right).
Proof. unfold id_le. apply _. Defined.

(* ------------------------------------------------------------------ *)
(** ** JSON *)

Definition match_name (m : AutomaticMatch) : string :=
  match m with Match_Any => "any" | Match_All => "all" end.
Definition sources_name (s : AutomaticTagSources) : string :=
  match s with Sources_Manual => "manual" end.
Definition order_name (o : AutomaticOrder) : string :=
  match o with
  | Order_Title => "title" | Order_Newest => "newest"
  | Order_BpmAscending => "bpm_ascending" | Order_BpmDescending => "bpm_descending"
  end.

(** The derived [Serialize]: the fields in the order of the declaration. *)
Definition rule_entries (rule : AutomaticPlaylistRule) : list (string * JsonValue) :=
  [("schema", Json_String (rule_schema_version rule));
   ("include_tags", json_strings (rule_include_tags rule));
   ("match", Json_String (match_name (rule_match rule)));
   ("exclude_tags", json_strings (rule_exclude_tags rule));
   ("tag_sources", Json_String (sources_name (rule_tag_sources rule)));
   ("min_bpm", json_option json_number (rule_min_bpm rule));
   ("max_bpm", json_option json_number (rule_max_bpm rule));
   ("include_unknown_bpm", Json_Bool (rule_include_unknown_bpm rule));
   ("maximum_tracks", json_number (rule_maximum_tracks rule));
   ("order_by", Json_String (order_name (rule_order_by rule)))].

(** [serde_json::to_value(rule)], and the text [serde_json::to_string(rule)]. *)
Definition rule_to_value (rule : AutomaticPlaylistRule) : JsonValue := json_map (rule_entries rule).
Definition rule_to_string `{JsonText} (rule : AutomaticPlaylistRule) : result string string :=
  value_to_string (Json_Object (rule_entries rule)).

Definition match_of (name : string) : option AutomaticMatch :=
  if String.eqb name "any" then Some Match_Any
  else if String.eqb name "all" then Some Match_All else None.
Definition sources_of (name : string) : option AutomaticTagSources :=
  if String.eqb name "manual" then Some Sources_Manual else None.
Definition order_of (name : string) : option AutomaticOrder :=
  if String.eqb name "title" then Some Order_Title
  else if String.eqb name "newest" then Some Order_Newest
  else if String.eqb name "bpm_ascending" then Some Order_BpmAscending
  else if String.eqb name "bpm_descending" then Some Order_BpmDescending else None.

(** A field under [#[serde(default = ..)]]. *)
Definition field_or {A} (default : A) (name : string) (f : JsonValue -> option A)
    (entries : list (string * JsonValue)) : option A :=
  match lookup_field name entries with Some value => f value | None => Some default end.

Definition rule_fields : list string :=
  ["schema"; "include_tags"; "match"; "exclude_tags"; "tag_sources"; "min_bpm"; "max_bpm";
   "include_unknown_bpm"; "maximum_tracks"; "order_by"].

Definition u16_max : N := 65535.

(** [deny_unknown_fields]; a repeated field is refused as well. *)
Definition rule_from_value (value : JsonValue) : option AutomaticPlaylistRule :=
  match value with
  | Json_Object entries =>
      if negb (forallb (fun entry => contains entry.1 rule_fields) entries)
         || negb (bool_decide (NoDup (fst <$> entries))) then None
      else
        schema ← lookup_field "schema" entries ≫= as_string;
        include_tags ← field_or [] "include_tags" as_strings entries;
        match_ ← field_or Match_Any "match" (fun v => as_string v ≫= match_of) entries;
        exclude_tags ← field_or [] "exclude_tags" as_strings entries;
        tag_sources ← field_or Sources_Manual "tag_sources"
                        (fun v => as_string v ≫= sources_of) entries;
        min_bpm ← field_or None "min_bpm" (as_option (as_unsigned u32_max)) entries;
        max_bpm ← field_or None "max_bpm" (as_option (as_unsigned u32_max)) entries;
        include_unknown_bpm ← field_or true "include_unknown_bpm" as_bool entries;
        maximum_tracks ← field_or 200 "maximum_tracks" (as_unsigned u16_max) entries;
        order_by ← field_or Order_Title "order_by" (fun v => as_string v ≫= order_of) entries;
        Some (mkAutomaticPlaylistRule schema include_tags match_ exclude_tags tag_sources min_bpm
                max_bpm include_unknown_bpm maximum_tracks order_by)
  | _ => None
  end.

(* ------------------------------------------------------------------ *)
(** ** The signature of a source *)

Definition string_le (a b : string) : Prop := string_leb a b = true.
#[global] Instance string_le_dec a b : Decision (string_le a b).
Proof. unfold string_le. apply _. Defined.

(** A [BTreeSet<String>] in its order. *)
Definition sorted_tags (tags : gset string) : list string := merge_sort string_le (elements tags).

(** The [BTreeMap] of one track, its keys in order. *)
Definition signature_entry (entry : AutomaticSourceTrack) : JsonValue :=
  let track := source_track entry in
  Json_Object
    [("bpm", json_option json_number (metadata_bpm (track_metadata track)));
     ("display_title", Json_String (track_display_title track));
     ("id", json_integer (TrackId_get (track_id track)));
     ("mtime", json_integer (track_mtime_unix_seconds track));
     ("path", Json_String (as_str (track_path track)));
     ("size_bytes", json_number (track_size_bytes track));
     ("tags", json_strings (sorted_tags (source_tags entry)));
     ("title", Json_String (metadata_title (track_metadata track)))].

Definition signature_payload (rule : AutomaticPlaylistRule) (source : list AutomaticSourceTrack)
    : JsonValue :=
  Json_Object [("rule", rule_to_value rule); ("tracks", Json_Array (signature_entry <$> source))].

Context `{JsonText, Sha256}.

(** [PlaylistRecord::is_automatic] and [::automatic_rule]. *)
Definition is_automatic (playlist : PlaylistRecord) : bool :=
  negb (String.eqb (automatic_rule_json playlist) "").

Definition automatic_rule (playlist : PlaylistRecord)
    : result AutomaticRuleError (option AutomaticPlaylistRule) :=
  if negb (is_automatic playlist) then Ok None
  else
    value ← map_err (fun _ => StoredRuleInvalid) (value_from_str (automatic_rule_json playlist));
    rule ← ok_or StoredRuleInvalid (rule_from_value value);
    Some <$> normalized rule.

Definition automatic_signature (rule : AutomaticPlaylistRule)
    (source : list AutomaticSourceTrack) : result AutomaticRuleError string :=
  encoded ← map_err (fun _ => SignatureSerialization)
              (value_to_string (signature_payload rule source));
  Ok (sha256_hex encoded).

Definition resolve_automatic_playlist (rule : AutomaticPlaylistRule)
    (source : list AutomaticSourceTrack) : result AutomaticRuleError AutomaticPlaylistResolution :=
  rule ← normalized rule;
  let tracks := merge_sort id_le source in
  source_signature ← automatic_signature rule tracks;
  let library_tracks := length tracks in
  let tracks := source_track <$> List.filter (fun entry => automatic_match entry rule) tracks in
  let tracks := merge_sort (order_le (rule_order_by rule)) tracks in
  Ok {| resolution_source_signature := source_signature;
        resolution_library_tracks := library_tracks;
        resolution_tracks := take (N.to_nat (rule_maximum_tracks rule)) tracks |}.

End Rules.

(* ------------------------------------------------------------------ *)
(** ** The repository *)

Inductive PlaylistMutation (A : Type) : Type :=
| Mutation_Applied (value : A)
| Mutation_PlaylistNotFound
| Mutation_TrackNotFound
| Mutation_PositionOutOfRange
| Mutation_AutomaticItemsManaged
| Mutation_CapacityExceeded.
Arguments Mutation_Applied {A} value.
Arguments Mutation_PlaylistNotFound {A}.
Arguments Mutation_TrackNotFound {A}.
Arguments Mutation_PositionOutOfRange {A}.
Arguments Mutation_AutomaticItemsManaged {A}.
Arguments Mutation_CapacityExceeded {A}.

Inductive AutomaticMaterialization : Type :=
| Materialization_Applied (playlist : PlaylistRecord) (resolution : AutomaticPlaylistResolution)
| Materialization_Unchanged (playlist : PlaylistRecord) (resolution : AutomaticPlaylistResolution)
| Materialization_PlaylistNotFound
| Materialization_StalePreview
| Materialization_RuleChanged.

Class PlaylistRepository (store : Type) : Type := {
  playlist_error : Type;
  playlists_create : PlaylistCreate -> stateful store playlist_error PlaylistRecord;
  playlists_list : PlaylistFilter -> stateful store playlist_error (list PlaylistRecord);
  playlists_get : Z -> stateful store playlist_error (option PlaylistRecord);
  playlists_update : Z -> PlaylistPatch -> stateful store playlist_error (option PlaylistRecord);
  playlists_delete : Z -> stateful store playlist_error bool;
  playlists_items : Z -> stateful store playlist_error (option PlaylistItems);
  playlists_add_track : Z -> TrackId -> option nat ->
    stateful store playlist_error (PlaylistMutation PlaylistItemRecord);
  playlists_remove_track : Z -> nat -> stateful store playlist_error (PlaylistMutation ());
  playlists_move_track : Z -> nat -> nat -> stateful store playlist_error (PlaylistMutation ());
  playlists_automatic_source : AutomaticTagSources ->
    stateful store playlist_error (list AutomaticSourceTrack);
  playlists_materialize_automatic : Z -> AutomaticPlaylistRule -> option string -> bool ->
    stateful store playlist_error AutomaticMaterialization;
  playlists_disable_automatic : Z -> stateful store playlist_error (option PlaylistRecord)
}.

(* ------------------------------------------------------------------ *)
(** ** The service *)

Inductive PlaylistServiceError (E : Type) : Type :=
| Service_NotFound
| Service_TrackNotFound
| Service_PositionOutOfRange
| Service_AutomaticItemsManaged
| Service_NotAutomatic
| Service_StalePreview
| Service_CapacityExceeded
| Service_ConcurrentChange
| Service_InvalidRule (error : AutomaticRuleError)
| Service_Dependency (error : E).
Arguments Service_NotFound {E}.
Arguments Service_TrackNotFound {E}.
Arguments Service_PositionOutOfRange {E}.
Arguments Service_AutomaticItemsManaged {E}.
Arguments Service_NotAutomatic {E}.
Arguments Service_StalePreview {E}.
Arguments Service_CapacityExceeded {E}.
Arguments Service_ConcurrentChange {E}.
Arguments Service_InvalidRule {E} error.
Arguments Service_Dependency {E} error.

Definition map_mutation {E A} (outcome : PlaylistMutation A)
    : result (PlaylistServiceError E) A :=
  match outcome with
  | Mutation_Applied value => Ok value
  | Mutation_PlaylistNotFound => Err Service_NotFound
  | Mutation_TrackNotFound => Err Service_TrackNotFound
  | Mutation_PositionOutOfRange => Err Service_PositionOutOfRange
  | Mutation_AutomaticItemsManaged => Err Service_AutomaticItemsManaged
  | Mutation_CapacityExceeded => Err Service_CapacityExceeded
  end.

Section Service.
Context {store : Type} `{!PlaylistRepository store} `{!Unicode, !JsonText, !Sha256}.

Definition service (A : Type) : Type := stateful store (PlaylistServiceError playlist_error) A.

(** [repository.operation().await?] *)
Definition dependency {A} (operation : stateful store playlist_error A) : service A := fun st =>
  let '(r, st) := operation st in (map_err Service_Dependency r, st).

Definition service_create (request : PlaylistCreate) : service PlaylistRecord :=
  dependency (playlists_create request).

Definition service_list (filter : PlaylistFilter) : service (list PlaylistRecord) :=
  dependency (playlists_list filter).

Definition service_get (id : Z) : service PlaylistRecord :=
  found ← dependency (playlists_get id);
  try (ok_or Service_NotFound found).

Definition service_update (id : Z) (patch : PlaylistPatch) : service PlaylistRecord :=
  found ← dependency (playlists_update id patch);
  try (ok_or Service_NotFound found).

Definition service_delete (id : Z) : service () :=
  deleted ← dependency (playlists_delete id);
  if deleted : bool then mret () else throw Service_NotFound.

(** The loop of [items], [for _ in 0..2]. *)
Fixpoint refresh_items (attempts : nat) (id : Z) : service () :=
  match attempts with
  | O => mret ()
  | S attempts =>
      playlist ← service_get id;
      if is_automatic playlist then
        match automatic_rule playlist with
        | Ok (Some rule) =>
            outcome ← dependency (playlists_materialize_automatic id rule None false);
            match outcome with
            | Materialization_RuleChanged => refresh_items attempts id
            | Materialization_PlaylistNotFound => throw Service_NotFound
            | Materialization_Applied _ _ | Materialization_Unchanged _ _ => mret ()
            | Materialization_StalePreview => throw Service_ConcurrentChange
            end
        | Ok None | Err _ => mret ()
        end
      else mret ()
  end.

Definition service_items (id : Z) : service PlaylistItems :=
  _ ← refresh_items 2 id;
  found ← dependency (playlists_items id);
  try (ok_or Service_NotFound found).

Definition track_ids_of (items : PlaylistItems) : list TrackId :=
  omap (fun item => track_id <$> item_track item) (items_items items).

Definition service_track_ids (id : Z) : service (list TrackId) :=
  items ← service_items id;
  mret (track_ids_of items).

Definition service_add_track (id : Z) (track : TrackId) (position : option nat)
    : service PlaylistItemRecord :=
  outcome ← dependency (playlists_add_track id track position);
  try (map_mutation outcome).

Definition service_remove_track (id : Z) (position : nat) : service () :=
  outcome ← dependency (playlists_remove_track id position);
  try (map_mutation outcome).

Definition service_move_track (id : Z) (from_position to_position : nat) : service () :=
  outcome ← dependency (playlists_move_track id from_position to_position);
  try (map_mutation outcome).

Definition service_preview (id : Z) (rule : AutomaticPlaylistRule)
    : service AutomaticPlaylistResolution :=
  _ ← service_get id;
  rule ← try (map_err Service_InvalidRule (normalized rule));
  source ← dependency (playlists_automatic_source (rule_tag_sources rule));
  try (map_err Service_InvalidRule (resolve_automatic_playlist rule source)).

Definition service_configure (id : Z) (rule : AutomaticPlaylistRule)
    (expected_source_signature : string) : service (PlaylistRecord * AutomaticPlaylistResolution) :=
  rule ← try (map_err Service_InvalidRule (normalized rule));
  outcome ← dependency
    (playlists_materialize_automatic id rule (Some expected_source_signature) true);
  match outcome with
  | Materialization_Applied playlist resolution
  | Materialization_Unchanged playlist resolution => mret (playlist, resolution)
  | Materialization_PlaylistNotFound => throw Service_NotFound
  | Materialization_StalePreview => throw Service_StalePreview
  | Materialization_RuleChanged => throw Service_ConcurrentChange
  end.

(** The loop of [refresh], [for _ in 0..2]. *)
Fixpoint refresh_attempts (attempts : nat) (id : Z)
    : service (PlaylistRecord * AutomaticPlaylistResolution) :=
  match attempts with
  | O => throw Service_ConcurrentChange
  | S attempts =>
      playlist ← service_get id;
      stored ← try (map_err Service_InvalidRule (automatic_rule playlist));
      rule ← try (ok_or Service_NotAutomatic stored);
      outcome ← dependency (playlists_materialize_automatic id rule None true);
      match outcome with
      | Materialization_Applied playlist resolution
      | Materialization_Unchanged playlist resolution => mret (playlist, resolution)
      | Materialization_PlaylistNotFound => throw Service_NotFound
      | Materialization_StalePreview => throw Service_StalePreview
      | Materialization_RuleChanged => refresh_attempts attempts id
      end
  end.
Definition service_refresh (id : Z) : service (PlaylistRecord * AutomaticPlaylistResolution) :=
  refresh_attempts 2 id.

Definition service_disable_automatic (id : Z) : service PlaylistRecord :=
  found ← dependency (playlists_disable_automatic id);
  try (ok_or Service_NotFound found).

End Service.
