(* ===== verification/PlaylistsSpec.v ===== *)
(** * Properties of automatic rules

    The comparators of [Playlists] are total preorders that tie only on one
    track; normalised rules stay within the limits and are read back from their
    JSON; a resolution is the first tracks the rule admits, in its order,
    whatever the order of the source, and its signature determines it. *)

From S2P Require Import Prelude Text Library PlaybackState MediaPath JobStore RecoveryJournal.
From S2P Require Import Playlists.

#[local] Open Scope string_scope.
#[local] Open Scope N_scope.
#[local] Open Scope list_scope.

(* ------------------------------------------------------------------ *)
(** ** Comparators *)

(** A comparison that is antisymmetric and whose [<=] is transitive. *)
Class Comparator {A} (cmp : A -> A -> comparison) : Prop := {
  cmp_opp x y : cmp y x = CompOpp (cmp x y);
  cmp_trans x y z : cmp x y <> Gt -> cmp y z <> Gt -> cmp x z <> Gt
}.
Arguments cmp_opp {A} cmp {_} x y.
Arguments cmp_trans {A} cmp {_} x y z.

Section Comparator.
Context {A : Type}.
Implicit Types cmp : A -> A -> comparison.

Lemma cmp_refl cmp `{!Comparator cmp} x : cmp x x = Eq.
Proof. pose proof (cmp_opp cmp x x) as H. by destruct (cmp x x). Qed.

Lemma cmp_eq_le cmp `{!Comparator cmp} x y : cmp x y = Eq -> cmp y x <> Gt.
Proof. rewrite (cmp_opp cmp x y). by intros ->. Qed.

(** A tie compares alike with everything. *)
Lemma cmp_eq_l cmp `{!Comparator cmp} x y z : cmp x y = Eq -> cmp x z = cmp y z.
Proof.
  intros Hxy. pose proof (cmp_opp cmp x y) as Hyx. pose proof (cmp_opp cmp x z) as Hzx.
  pose proof (cmp_opp cmp y z) as Hzy. rewrite Hxy in Hyx.
  destruct (cmp x z) eqn:Hxz, (cmp y z) eqn:Hyz; try done; exfalso;
    first [ by apply (cmp_trans cmp x y z); rewrite ?Hxy, ?Hyz
          | by apply (cmp_trans cmp y x z); rewrite ?Hyx, ?Hxz
          | by apply (cmp_trans cmp z x y); rewrite ?Hxy, ?Hzx
          | by apply (cmp_trans cmp z y x); rewrite ?Hyx, ?Hzy ].
Qed.

Lemma cmp_lt_le cmp `{!Comparator cmp} x y z : cmp x y = Lt -> cmp y z <> Gt -> cmp x z = Lt.
Proof.
  intros Hxy Hyz. pose proof (cmp_opp cmp x y) as Hyx. pose proof (cmp_opp cmp x z) as Hzx.
  rewrite Hxy in Hyx. destruct (cmp x z) eqn:Hxz; [|done|]; exfalso.
  - apply (cmp_trans cmp y z x); [done| |done]. by rewrite Hzx.
  - apply (cmp_trans cmp x y z); [by rewrite Hxy|done..].
Qed.

#[export] Instance then_with_comparator cmp cmp' `{!Comparator cmp} `{!Comparator cmp'} :
  Comparator (fun x y => then_with (cmp x y) (cmp' x y)).
Proof.
  split.
  - intros x y. rewrite (cmp_opp cmp x y), (cmp_opp cmp' x y).
    by destruct (cmp x y).
  - intros x y z. unfold then_with. destruct (cmp x y) eqn:Hxy; [| |done].
    + intros ?. rewrite (cmp_eq_l cmp x y z Hxy). destruct (cmp y z); [|done..].
      by apply cmp_trans.
    + intros _ Hyz. rewrite (cmp_lt_le cmp x y z Hxy); [done|]. by destruct (cmp y z).
Qed.

#[export] Instance compare_on_comparator {B} (f : B -> A) cmp `{!Comparator cmp} :
  Comparator (fun x y => cmp (f x) (f y)).
Proof. split; intros; [apply (cmp_opp cmp) | by eapply (cmp_trans cmp)]. Qed.

Lemma flip_comparator cmp `{!Comparator cmp} : Comparator (fun x y => cmp y x).
Proof. split; intros; [apply (cmp_opp cmp) | by eapply (cmp_trans cmp)]. Qed.

Context (cmp : A -> A -> comparison) `{!Comparator cmp}.

Lemma comparator_total : Total (fun x y => cmp x y <> Gt).
Proof. intros x y. rewrite (cmp_opp cmp x y). destruct (cmp x y); naive_solver. Qed.
Lemma comparator_transitive : Transitive (fun x y => cmp x y <> Gt).
Proof. intros x y z. by apply cmp_trans. Qed.
End Comparator.

#[export] Instance N_comparator : Comparator N.compare.
Proof. split; intros *; [apply N.compare_antisym | rewrite !N.compare_le_iff; lia]. Qed.
#[export] Instance Z_comparator : Comparator Z.compare.
Proof. split; intros *; [apply Z.compare_antisym | rewrite !Z.compare_le_iff; lia]. Qed.
#[export] Instance Pos_comparator : Comparator Pos.compare.
Proof. split; intros *; [apply Pos.compare_antisym | rewrite !Pos.compare_le_iff; lia]. Qed.
#[export] Instance string_comparator : Comparator String.compare.
Proof.
  split.
  - intros x y. apply String.compare_antisym.
  - intros x y z Hxy Hyz Hxz. pose proof (string_leb_trans x y z) as Ht.
    unfold string_leb, String.leb in Ht.
    destruct (String.compare x y), (String.compare y z); try done; rewrite Hxz in Ht; naive_solver.
Qed.

(** The tempo comparison: the known ones first. *)
#[export] Instance compare_bpm_comparator descending :
  Comparator (fun x y => compare_bpm x y descending).
Proof.
  split.
  - intros x y. unfold compare_bpm.
    destruct (metadata_bpm _), (metadata_bpm _), descending; try done; apply N.compare_antisym.
  - intros x y z. unfold compare_bpm.
    destruct (metadata_bpm (track_metadata x)), (metadata_bpm (track_metadata y)),
      (metadata_bpm (track_metadata z)), descending; try done; rewrite !N.compare_le_iff; lia.
Qed.

Section Rules.
Context `{Unicode}.

#[export] Instance compare_titles_comparator : Comparator compare_titles.
Proof.
  unfold compare_titles. apply then_with_comparator.
  - apply (compare_on_comparator automatic_title String.compare).
  - apply (compare_on_comparator track_id Pos.compare).
Qed.

#[export] Instance automatic_order_comparator order : Comparator (automatic_order order).
Proof.
  destruct order; cbn; try apply _.
  assert (Comparator (fun x y =>
    Z.compare (track_added_at_unix_seconds y) (track_added_at_unix_seconds x))).
  { apply (flip_comparator (fun x y =>
      Z.compare (track_added_at_unix_seconds x) (track_added_at_unix_seconds y))). }
  apply _.
Qed.

#[export] Instance order_le_total order : Total (order_le order).
Proof. apply comparator_total. apply _. Qed.
#[export] Instance order_le_trans order : Transitive (order_le order).
Proof. apply comparator_transitive. apply _. Qed.
#[export] Instance id_le_total : Total id_le.
Proof. intros x y. unfold id_le. lia. Qed.
#[export] Instance id_le_trans : Transitive id_le.
Proof. intros x y z. unfold id_le. lia. Qed.

(** Only a track ties with itself. *)
Lemma order_tie order x y : order_le order x y -> order_le order y x -> track_id x = track_id y.
Proof.
  unfold order_le. rewrite (cmp_opp (automatic_order order) x y). intros Hxy Hyx.
  assert (automatic_order order x y = Eq) as Heq by (by destruct (automatic_order order x y)).
  assert (compare_titles x y = Eq) as Ht.
  { destruct order; cbn in Heq; unfold then_with in Heq; [done|..];
      by destruct (Z.compare _ _) || destruct (compare_bpm _ _ _). }
  unfold compare_titles, then_with in Ht. destruct (String.compare _ _); [|done..].
  by apply Pos.compare_eq.
Qed.

(* ------------------------------------------------------------------ *)
(** ** Normalisation *)

(** What an accepted tag is. *)
Definition canonical_tag (tag : string) : Prop :=
  tag <> "" /\ (chars_count tag <= 64)%nat /\
  Forall (fun character => is_unicode_other character = false) (chars tag).

Lemma normalize_tag_ok tag folded :
  normalize_tag tag = Ok folded <-> folded = folded_tag tag /\ canonical_tag folded.
Proof.
  unfold normalize_tag, canonical_tag.
  destruct (String.eqb_spec (folded_tag tag) "") as [Hb|Hb].
  { split; [done|]. intros [-> [? _]]. done. }
  destruct (Nat.ltb_spec 64 (chars_count (folded_tag tag))) as [Hl|Hl].
  { split; [done|]. intros (-> & _ & ? & _). lia. }
  destruct (existsb _ _) eqn:Hc; split.
  - done.
  - intros (-> & _ & _ & Hall). apply existsb_exists in Hc as (c & Hin & Hc).
    rewrite Forall_forall in Hall. rewrite (Hall c) in Hc; [done|]. by apply list_elem_of_In.
  - intros [= <-]. split_and!; [done..|]. apply Forall_forall. intros c Hin%list_elem_of_In.
    apply not_true_is_false. intros Ho. apply not_true_iff_false in Hc. apply Hc.
    apply existsb_exists. eauto.
  - by intros [-> _].
Qed.

Lemma normalize_tags_from_ok out tags l :
  normalize_tags_from out tags = Ok l ->
  NoDup out -> Forall canonical_tag out ->
  NoDup l /\ Forall canonical_tag l /\
  (forall t, t ∈ l <-> t ∈ out \/ t ∈ folded_tag <$> tags) /\
  (length l <= length out + length tags)%nat.
Proof.
  revert out. induction tags as [|tag tags IH]; intros out Hl Hnd Hall; cbn in Hl.
  { injection Hl as <-. split_and!; [done..|set_solver|lia]. }
  inv_results. apply normalize_tag_ok in H0 as [-> Hcanon].
  apply IH in Hl as (Hnd' & Hall' & Hmem & Hlen).
  - split_and!; [done..| |].
    + intros t. rewrite Hmem. unfold push_unique, contains. case_bool_decide; set_solver.
    + unfold push_unique, contains in Hlen. case_bool_decide; rewrite ?length_app in Hlen; cbn in *; lia.
  - unfold push_unique, contains. case_bool_decide; [done|].
    apply NoDup_app. set_solver by (constructor; [set_solver|constructor]).
  - unfold push_unique. destruct (contains _ _); [done|]. apply Forall_app; auto.
Qed.

Lemma normalize_tags_ok tags l :
  normalize_tags tags = Ok l ->
  NoDup l /\ Forall canonical_tag l /\ (forall t, t ∈ l <-> t ∈ folded_tag <$> tags) /\
  (length l <= length tags)%nat.
Proof.
  intros Hl. apply normalize_tags_from_ok in Hl; [|constructor..].
  destruct Hl as (? & ? & Hmem & ?). split_and!; [done..| |done]. intros t. rewrite Hmem. set_solver.
Qed.

(** What an accepted rule is. *)
Definition bpm_wf (bpm : option N) : Prop :=
  match bpm with Some value => 1 <= value <= 999 | None => True end.

Record rule_wf (rule : AutomaticPlaylistRule) : Prop := mkRuleWf {
  wf_schema : rule_schema_version rule = AUTOMATIC_RULE_SCHEMA;
  wf_include : NoDup (rule_include_tags rule) /\ Forall canonical_tag (rule_include_tags rule) /\
    (length (rule_include_tags rule) <= 32)%nat;
  wf_exclude : NoDup (rule_exclude_tags rule) /\ Forall canonical_tag (rule_exclude_tags rule) /\
    (length (rule_exclude_tags rule) <= 32)%nat;
  wf_disjoint : forall tag, tag ∈ rule_include_tags rule -> tag ∉ rule_exclude_tags rule;
  wf_bpm : bpm_wf (rule_min_bpm rule) /\ bpm_wf (rule_max_bpm rule);
  wf_range : match rule_min_bpm rule, rule_max_bpm rule with
    | Some minimum, Some maximum => minimum <= maximum
    | _, _ => True
    end;
  wf_maximum : 1 <= rule_maximum_tracks rule <= 1000
}.

(** The rule with its tags folded. *)
Definition with_tags (include_tags exclude_tags : list string) (rule : AutomaticPlaylistRule)
    : AutomaticPlaylistRule :=
  mkAutomaticPlaylistRule (rule_schema_version rule) include_tags (rule_match rule) exclude_tags
    (rule_tag_sources rule) (rule_min_bpm rule) (rule_max_bpm rule)
    (rule_include_unknown_bpm rule) (rule_maximum_tracks rule) (rule_order_by rule).

Lemma bpm_out_of_range_false bpm : bpm_out_of_range bpm = false <-> bpm_wf bpm.
Proof.
  destruct bpm as [v|]; cbn; [|done].
  rewrite negb_false_iff, andb_true_iff, !N.leb_le. done.
Qed.

Lemma normalized_ok rule rule' :
  normalized rule = Ok rule' -> rule_wf rule' /\
  (forall t, t ∈ rule_include_tags rule' <-> t ∈ folded_tag <$> rule_include_tags rule) /\
  (forall t, t ∈ rule_exclude_tags rule' <-> t ∈ folded_tag <$> rule_exclude_tags rule) /\
  rule' = with_tags (rule_include_tags rule') (rule_exclude_tags rule') rule.
Proof.
  unfold normalized. destruct (String.eqb_spec (rule_schema_version rule) AUTOMATIC_RULE_SCHEMA) as [Hs|];
    [cbn [negb]|done]. destruct (_ || _) eqn:Hlen; [done|]. intros Hr.
  apply orb_false_iff in Hlen as [?%Nat.ltb_ge ?%Nat.ltb_ge].
  apply bind_ok in Hr as (inc & Hinc & Hr). apply bind_ok in Hr as (exc & Hexc & Hr).
  apply normalize_tags_ok in Hinc as (? & ? & ? & ?), Hexc as (? & ? & ? & ?).
  destruct (existsb _ _) eqn:Hover; [done|]. destruct (_ || _) eqn:Hbpm; [done|].
  destruct (bpm_range_inverted _ _) eqn:Hrange; [done|]. destruct (negb _) eqn:Hmax; [done|].
  injection Hr as <-.
  apply orb_false_iff in Hbpm as [Hmin Hmaxb].
  rewrite negb_false_iff, andb_true_iff, !N.leb_le in Hmax.
  split; [|by split_and!]. split; cbn; try (split_and!; [done..|lia]).
  - done.
  - intros tag Hin Hex. apply not_true_iff_false in Hover. apply Hover. apply existsb_exists.
    exists tag. split; [by apply list_elem_of_In|]. unfold contains. by case_bool_decide.
  - by rewrite <- !bpm_out_of_range_false.
  - unfold bpm_range_inverted in Hrange. repeat case_match; try done. by apply N.ltb_ge in Hrange.
  - done.
Qed.

(* ------------------------------------------------------------------ *)
(** ** Resolution *)

(** What a rule asks of a track. *)
Definition admits (rule : AutomaticPlaylistRule) (entry : AutomaticSourceTrack) : Prop :=
  match rule_match rule with
  | Match_Any => rule_include_tags rule = [] \/
                 exists tag, tag ∈ rule_include_tags rule /\ tag ∈ source_tags entry
  | Match_All => forall tag, tag ∈ rule_include_tags rule -> tag ∈ source_tags entry
  end /\
  (forall tag, tag ∈ rule_exclude_tags rule -> tag ∉ source_tags entry) /\
  match metadata_bpm (track_metadata (source_track entry)) with
  | None => rule_include_unknown_bpm rule = true
  | Some bpm => (forall minimum, rule_min_bpm rule = Some minimum -> minimum <= bpm) /\
                (forall maximum, rule_max_bpm rule = Some maximum -> bpm <= maximum)
  end.

Lemma existsb_has_tag entry tags :
  existsb (has_tag entry) tags = true <-> exists tag, tag ∈ tags /\ tag ∈ source_tags entry.
Proof.
  rewrite existsb_exists. unfold has_tag.
  by setoid_rewrite <- list_elem_of_In; setoid_rewrite bool_decide_eq_true.
Qed.

Lemma forallb_has_tag entry tags :
  forallb (has_tag entry) tags = true <-> forall tag, tag ∈ tags -> tag ∈ source_tags entry.
Proof.
  rewrite forallb_forall. unfold has_tag.
  by setoid_rewrite <- list_elem_of_In; setoid_rewrite bool_decide_eq_true.
Qed.

Lemma automatic_match_spec entry rule : automatic_match entry rule = true <-> admits rule entry.
Proof.
  unfold automatic_match, admits.
  set (included := match rule_match rule with Match_Any => _ | Match_All => _ end).
  match goal with |- _ <-> ?P /\ _ => assert (included = true <-> P) as Hinc end.
  { unfold included. destruct (rule_match rule); [|apply forallb_has_tag].
    by rewrite orb_true_iff, bool_decide_eq_true, existsb_has_tag. }
  assert (existsb (has_tag entry) (rule_exclude_tags rule) = false <->
    forall tag, tag ∈ rule_exclude_tags rule -> tag ∉ source_tags entry) as Hexc.
  { rewrite <- not_true_iff_false, existsb_has_tag. naive_solver. }
  rewrite <- Hinc, <- Hexc. clear Hinc Hexc.
  destruct included; [|by cbn; naive_solver]. destruct (existsb _ _); [by cbn; naive_solver|]. cbn [negb orb].
  destruct (metadata_bpm _) as [bpm|]; [|naive_solver]. rewrite andb_true_iff.
  destruct (rule_min_bpm rule), (rule_max_bpm rule); rewrite ?N.leb_le; naive_solver.
Qed.

Lemma NoDup_filtered_ids (p : AutomaticSourceTrack -> bool) (l : list AutomaticSourceTrack) :
  NoDup ((fun entry => track_id (source_track entry)) <$> l) ->
  NoDup (track_id <$> (source_track <$> List.filter p l)).
Proof.
  rewrite <- list_fmap_compose. intros Hnd. eapply sublist_NoDup; [exact Hnd|].
  clear Hnd. apply fmap_sublist. induction l as [|x l IH]; [constructor|]. cbn.
  destruct (p x); by constructor.
Qed.

Context `{JsonText, Sha256}.

(** The candidates of a rule, before the cut. *)
Definition candidates (rule : AutomaticPlaylistRule) (source : list AutomaticSourceTrack)
    : list IndexedTrack :=
  merge_sort (order_le (rule_order_by rule))
    (source_track <$> List.filter (fun entry => automatic_match entry rule)
                        (merge_sort id_le source)).

Lemma elem_of_candidates rule source track :
  track ∈ candidates rule source <->
  exists entry, entry ∈ source /\ source_track entry = track /\ admits rule entry.
Proof.
  unfold candidates. rewrite merge_sort_Permutation, list_elem_of_fmap.
  setoid_rewrite list_elem_of_In. setoid_rewrite filter_In. setoid_rewrite <- list_elem_of_In.
  setoid_rewrite (merge_sort_Permutation id_le source). setoid_rewrite automatic_match_spec.
  naive_solver.
Qed.

Lemma resolve_inv rule source res :
  resolve_automatic_playlist rule source = Ok res <->
  exists rule' text, normalized rule = Ok rule' /\
    value_to_string (signature_payload rule' (merge_sort id_le source)) = Ok text /\
    res = mkAutomaticPlaylistResolution (sha256_hex text) (length source)
            (take (N.to_nat (rule_maximum_tracks rule')) (candidates rule' source)).
Proof.
  unfold resolve_automatic_playlist, automatic_signature. rewrite bind_ok. split.
  - intros (rule' & Hrule & Hres). apply bind_ok in Hres as (sig & Hsig & Hres).
    apply bind_ok in Hsig as (text & Htext%map_err_ok & Hsig). injection Hsig as <-.
    injection Hres as <-. exists rule', text. split_and!; [done..|].
    unfold candidates. by rewrite (Permutation_length (merge_sort_Permutation id_le source)).
  - intros (rule' & text & Hrule & Htext & ->). exists rule'. split; [done|]. rewrite Htext. cbn.
    unfold candidates. by rewrite (Permutation_length (merge_sort_Permutation id_le source)).
Qed.

Definition source_ids (source : list AutomaticSourceTrack) : list TrackId :=
  (fun entry => track_id (source_track entry)) <$> source.

Lemma NoDup_candidates rule source :
  NoDup (source_ids source) -> NoDup (track_id <$> candidates rule source).
Proof.
  intros Hnd. unfold candidates. rewrite merge_sort_Permutation. apply NoDup_filtered_ids.
  by rewrite merge_sort_Permutation.
Qed.

Lemma candidates_sorted rule source :
  StronglySorted (order_le (rule_order_by rule)) (candidates rule source).
Proof. apply StronglySorted_merge_sort; apply _. Qed.

(** C40: a resolution lists the tracks the normalised rule admits, without
    repetition and in the rule's order, cut at its maximum: a track the rule
    admits is listed unless the list is full of tracks that come before it. *)
Theorem resolution_follows_the_rule rule source res :
  resolve_automatic_playlist rule source = Ok res ->
  NoDup (source_ids source) ->
  exists rule', normalized rule = Ok rule' /\
    let tracks := resolution_tracks res in
    let maximum := N.to_nat (rule_maximum_tracks rule') in
    StronglySorted (order_le (rule_order_by rule')) tracks /\
    NoDup (track_id <$> tracks) /\
    (length tracks <= maximum <= 1000)%nat /\
    resolution_library_tracks res = length source /\
    (forall track, track ∈ tracks ->
       exists entry, entry ∈ source /\ source_track entry = track /\ admits rule' entry) /\
    (forall entry, entry ∈ source -> admits rule' entry ->
       source_track entry ∈ tracks \/
       (length tracks = maximum /\
        forall track, track ∈ tracks -> order_le (rule_order_by rule') track (source_track entry))).
Proof.
  intros Hres Hnd. apply resolve_inv in Hres as (rule' & text & Hrule & Htext & ->).
  exists rule'. split; [done|]. cbn [resolution_tracks resolution_library_tracks]. cbv zeta.
  apply normalized_ok in Hrule as [Hwf _]. pose proof (wf_maximum _ Hwf) as Hmax.
  set (maximum := N.to_nat (rule_maximum_tracks rule')).
  pose proof (candidates_sorted rule' source) as Hsorted.
  pose proof (take_drop maximum (candidates rule' source)) as Hsplit.
  split_and!.
  - rewrite <- Hsplit in Hsorted. by apply StronglySorted_app_1_l in Hsorted.
  - rewrite fmap_take. eapply sublist_NoDup; [by apply (NoDup_candidates rule')|apply sublist_take].
  - rewrite length_take. lia.
  - unfold maximum. lia.
  - done.
  - intros track Hin. apply elem_of_candidates. by eapply elem_of_sublist; [|apply sublist_take].
  - intros entry Hin Hadm.
    assert (source_track entry ∈ candidates rule' source) as Hc by (apply elem_of_candidates; eauto).
    rewrite <- Hsplit, elem_of_app in Hc. destruct Hc as [Hc|Hc]; [by left|]. right. split.
    + rewrite length_take. assert (length (drop maximum (candidates rule' source)) <> 0)%nat as Hlen.
      { intros Hz%nil_length_inv. rewrite Hz in Hc. set_solver. }
      rewrite length_drop in Hlen. lia.
    + intros track Ht. rewrite <- Hsplit in Hsorted. by eapply StronglySorted_app_le.
Qed.

Lemma source_sorted_unique source source' :
  NoDup (source_ids source) -> source ≡ₚ source' -> merge_sort id_le source = merge_sort id_le source'.
Proof.
  intros Hnd Hperm.
  apply (merge_sort_canonical id_le (fun entry => track_id (source_track entry))); [|done..].
  intros x y. unfold id_le. lia.
Qed.

(** The order of the source's tracks does not matter, for the tracks or for
    the signature. *)
Theorem resolution_ignores_source_order rule source source' :
  NoDup (source_ids source) -> source ≡ₚ source' ->
  resolve_automatic_playlist rule source = resolve_automatic_playlist rule source'.
Proof.
  intros Hnd Hperm. unfold resolve_automatic_playlist.
  by rewrite (source_sorted_unique source source').
Qed.

(* ------------------------------------------------------------------ *)
(** ** Signatures *)

Lemma json_number_inj m n : json_number m = json_number n -> m = n.
Proof. intros [= Heq]. by apply decimal_inj. Qed.
Lemma json_integer_inj m n : json_integer m = json_integer n -> m = n.
Proof. intros [= Heq]. by apply decimal_Z_inj. Qed.
Lemma json_bpm_inj o p : json_option json_number o = json_option json_number p -> o = p.
Proof. destruct o, p; cbn; try done. intros Heq%json_number_inj. by subst. Qed.
#[local] Instance Json_String_inj : Inj eq eq Json_String.
Proof. by intros ? ? [=]. Qed.
Lemma json_strings_inj l k : json_strings l = json_strings k -> l = k.
Proof. intros [= Heq]. by apply (inj (fmap Json_String)). Qed.

Lemma rule_to_value_inj rule rule' : rule_to_value rule = rule_to_value rule' -> rule = rule'.
Proof.
  destruct rule as [schema inc mt exc src lo hi unk mx ord].
  destruct rule' as [schema' inc' mt' exc' src' lo' hi' unk' mx' ord'].
  cbn. intros Heq. injection Heq as Hexc Hinc Hunk Hmt Hhi Hmx Hlo Hord Hschema Hsrc.
  apply (inj (fmap Json_String)) in Hexc, Hinc.
  apply json_bpm_inj in Hhi, Hlo. apply decimal_inj in Hmx. subst.
  destruct mt, mt', src, src', ord, ord'; done.
Qed.

Lemma sorted_tags_inj tags tags' : sorted_tags tags = sorted_tags tags' -> tags = tags'.
Proof.
  intros Heq. apply set_eq. intros tag. rewrite <- !elem_of_elements.
  rewrite <- (merge_sort_Permutation string_le (elements tags)).
  rewrite <- (merge_sort_Permutation string_le (elements tags')).
  unfold sorted_tags in Heq. by rewrite Heq.
Qed.

(** What the signature says of one track. *)
Lemma signature_entry_inj e e' :
  signature_entry e = signature_entry e' ->
  source_tags e = source_tags e' /\
  track_id (source_track e) = track_id (source_track e') /\
  metadata_bpm (track_metadata (source_track e)) = metadata_bpm (track_metadata (source_track e')) /\
  automatic_title (source_track e) = automatic_title (source_track e').
Proof.
  unfold signature_entry. intros [= Hbpm Hdisplay Hid Hmtime Hpath Hsize Htags Htitle].
  apply json_bpm_inj in Hbpm. apply decimal_inj in Hid.
  apply (inj (fmap Json_String)) in Htags. apply sorted_tags_inj in Htags.
  split_and!; [done|congruence|done|]. unfold automatic_title. by rewrite Hdisplay, Htitle, Hpath.
Qed.

(** Two tracks the rule's order cannot tell apart. *)
Definition same_view (order : AutomaticOrder) (t t' : IndexedTrack) : Prop :=
  track_id t = track_id t' /\ metadata_bpm (track_metadata t) = metadata_bpm (track_metadata t') /\
  automatic_title t = automatic_title t' /\
  (order = Order_Newest -> track_added_at_unix_seconds t = track_added_at_unix_seconds t').

Lemma same_view_order order x x' y y' :
  same_view order x x' -> same_view order y y' ->
  automatic_order order x y = automatic_order order x' y'.
Proof.
  intros (Hi & Hb & Ht & Ha) (Hi' & Hb' & Ht' & Ha').
  assert (compare_titles x y = compare_titles x' y') as Htitles
    by (unfold compare_titles; congruence).
  unfold automatic_order. destruct order; rewrite Htitles; [done| | |].
  - by rewrite Ha, Ha'.
  - unfold compare_bpm. by rewrite Hb, Hb'.
  - unfold compare_bpm. by rewrite Hb, Hb'.
Qed.

(** Lists with the same view are sorted alike. *)
Lemma sort_same_view order l l' :
  Forall2 (same_view order) l l' -> NoDup (track_id <$> l) ->
  track_id <$> merge_sort (order_le order) l = track_id <$> merge_sort (order_le order) l'.
Proof.
  intros Hview Hnd.
  assert (track_id <$> l = track_id <$> l') as Hids.
  { clear Hnd. induction Hview as [|x x' l l' (Hid & _) _ IH]; [done|]. cbn. by rewrite Hid, IH. }
  set (R := fun p q : IndexedTrack * IndexedTrack => order_le order p.1 q.1).
  assert (Total R) by (intros p q; apply order_le_total).
  assert (Transitive R) by (intros p q r; apply order_le_trans).
  assert (RelDecision R) as Hdec by (intros p q; unfold R; apply _).
  set (pairs := merge_sort R (zip l l')).
  assert (pairs ≡ₚ zip l l') as Hpairs by apply merge_sort_Permutation.
  assert (StronglySorted R pairs) as Hsorted by (apply StronglySorted_merge_sort; apply _).
  assert (Forall (fun p => same_view order p.1 p.2) pairs) as Hall.
  { rewrite Hpairs. clear -Hview. induction Hview; cbn; by constructor. }
  assert (fst <$> pairs = merge_sort (order_le order) l) as <-.
  { apply (sorted_canonical (order_le order) track_id).
    - apply order_tie.
    - by rewrite Hpairs, (fst_zip_Forall2 _ _ _ Hview).
    - by rewrite Hpairs, (fst_zip_Forall2 _ _ _ Hview).
    - eapply fmap_StronglySorted; [|done]. by intros p q _ _. }
  assert (snd <$> pairs = merge_sort (order_le order) l') as <-.
  { apply (sorted_canonical (order_le order) track_id).
    - apply order_tie.
    - rewrite Hpairs, (snd_zip_Forall2 _ _ _ Hview). by rewrite <- Hids.
    - by rewrite Hpairs, (snd_zip_Forall2 _ _ _ Hview).
    - eapply fmap_StronglySorted; [|done]. rewrite Forall_forall in Hall.
      intros p q Hp Hq. unfold R, order_le.
      by rewrite (same_view_order order p.1 p.2 q.1 q.2) by auto. }
  rewrite <- !list_fmap_compose. apply list_fmap_ext. intros i p Hp. cbn.
  rewrite Forall_forall in Hall. apply Hall. apply list_elem_of_lookup. by exists i.
Qed.

(** Two sources whose tracks were added at the same times. *)
Definition added_alike (source source' : list AutomaticSourceTrack) : Prop :=
  forall e e', e ∈ source -> e' ∈ source' ->
  track_id (source_track e) = track_id (source_track e') ->
  track_added_at_unix_seconds (source_track e) = track_added_at_unix_seconds (source_track e').

Lemma filter_same_view rule s s' :
  (rule_order_by rule = Order_Newest -> added_alike s s') ->
  signature_entry <$> s = signature_entry <$> s' ->
  Forall2 (same_view (rule_order_by rule))
    (source_track <$> List.filter (fun entry => automatic_match entry rule) s)
    (source_track <$> List.filter (fun entry => automatic_match entry rule) s').
Proof.
  revert s'. induction s as [|e s IH]; intros [|e' s'] Hadded Heq; try done.
  rewrite !fmap_cons in Heq.
  assert (signature_entry e = signature_entry e') as (Htags & Hid & Hbpm & Htitle)%signature_entry_inj
    by congruence.
  assert (signature_entry <$> s = signature_entry <$> s') as Hrest_entries by congruence.
  assert (automatic_match e rule = automatic_match e' rule) as Hmatch.
  { unfold automatic_match, has_tag. by rewrite Htags, Hbpm. }
  assert (Forall2 (same_view (rule_order_by rule))
    (source_track <$> List.filter (fun entry => automatic_match entry rule) s)
    (source_track <$> List.filter (fun entry => automatic_match entry rule) s')) as Hrest.
  { apply IH; [|done]. intros Hnew x y Hx Hy. apply Hadded; [done|set_solver..]. }
  cbn. rewrite Hmatch. destruct (automatic_match e' rule); cbn; [|done]. constructor; [|done].
  unfold same_view. split_and!; [done..|]. intros Hnew. apply Hadded; [done|set_solver..].
Qed.

(** Equal signatures mean equal contents: when SHA-256 does not collide and
    the text of a JSON value determines it, two resolutions with one signature
    come from the same normalised rule and library and list the same tracks,
    provided (for the order by age) that no track changed its age. *)
Theorem signature_determines_resolution `{!JsonTextSpec} `{!Inj (=) (=) sha256_hex}
    rule rule' source source' res res' :
  resolve_automatic_playlist rule source = Ok res ->
  resolve_automatic_playlist rule' source' = Ok res' ->
  NoDup (source_ids source) ->
  (rule_order_by rule = Order_Newest -> added_alike source source') ->
  resolution_source_signature res = resolution_source_signature res' ->
  normalized rule = normalized rule' /\
  track_id <$> resolution_tracks res = track_id <$> resolution_tracks res' /\
  resolution_library_tracks res = resolution_library_tracks res'.
Proof.
  intros Hres Hres' Hnd Hadded Hsig.
  apply resolve_inv in Hres as (r & text & Hr & Htext & ->).
  apply resolve_inv in Hres' as (r' & text' & Hr' & Htext' & ->).
  cbn in Hsig |- *. apply (inj sha256_hex) in Hsig as <-.
  apply value_from_str_to_string in Htext, Htext'. rewrite Htext in Htext'.
  apply Ok_inj in Htext'. unfold signature_payload in Htext'.
  assert (rule_to_value r = rule_to_value r') as <-%rule_to_value_inj by congruence.
  assert (signature_entry <$> merge_sort id_le source = signature_entry <$> merge_sort id_le source')
    as Htracks by congruence.
  assert (rule_order_by r = rule_order_by rule) as Horder.
  { apply normalized_ok in Hr as (_ & _ & _ & ->). done. }
  split_and!; [congruence| |].
  - rewrite !fmap_take. f_equal. unfold candidates. apply sort_same_view.
    + apply filter_same_view; [|done]. rewrite Horder. intros Hnew x y Hx Hy.
      rewrite merge_sort_Permutation in Hx, Hy. by apply Hadded.
    + apply NoDup_filtered_ids. by rewrite merge_sort_Permutation.
  - apply (f_equal length) in Htracks. rewrite !length_fmap in Htracks.
    by rewrite !(Permutation_length (merge_sort_Permutation _ _)) in Htracks.
Qed.

(* ------------------------------------------------------------------ *)
(** ** Stored rules *)

Lemma as_strings_of l : as_strings (json_strings l) = Some l.
Proof.
  cbn. induction l as [|x l IH]; [done|]. cbn [fmap list_fmap mapM]. cbn. fold (mapM as_string).
  change (list_fmap _ _ Json_String l) with (Json_String <$> l). by rewrite IH.
Qed.

Lemma as_option_of maximum o :
  (forall n, o = Some n -> n <= maximum) ->
  as_option (as_unsigned maximum) (json_option json_number o) = Some o.
Proof.
  intros Hmax. destruct o as [n|]; [|done]. cbn [json_option]. unfold as_option.
  rewrite as_unsigned_of by auto. done.
Qed.

(** The derived [Deserialize] reads what the derived [Serialize] wrote. *)
Lemma rule_from_value_entries rule :
  (forall n, rule_min_bpm rule = Some n -> n <= u32_max) ->
  (forall n, rule_max_bpm rule = Some n -> n <= u32_max) ->
  rule_maximum_tracks rule <= u16_max ->
  rule_from_value (Json_Object (rule_entries rule)) = Some rule.
Proof.
  intros Hmin Hmax Htracks. unfold rule_from_value.
  assert (forallb (fun entry => contains entry.1 rule_fields) (rule_entries rule) = true) as ->
    by reflexivity.
  assert (fst <$> rule_entries rule = rule_fields) as -> by reflexivity.
  rewrite bool_decide_true by (apply (bool_decide_unpack (NoDup rule_fields)); by vm_compute).
  cbn [negb orb].
  unfold field_or, lookup_field. cbn [rule_entries List.find String.eqb Ascii.eqb Bool.eqb fst snd fmap option_fmap option_map].
  rewrite !as_strings_of, as_unsigned_of, !as_option_of by done.
  destruct rule as [schema inc mt exc src lo hi unk mx ord]; cbn. by destruct mt, src, ord.
Qed.

Lemma rule_from_value_wf rule :
  rule_wf rule -> rule_from_value (Json_Object (rule_entries rule)) = Some rule.
Proof.
  intros Hwf. destruct (wf_bpm _ Hwf) as [Hmin Hmax]. pose proof (wf_maximum _ Hwf).
  apply rule_from_value_entries; unfold u32_max, u16_max; [intros n Hn..|lia].
  - rewrite Hn in Hmin. cbn in Hmin. lia.
  - rewrite Hn in Hmax. cbn in Hmax. lia.
Qed.

(** The rule of a playlist whose column holds the text of an accepted rule. *)
Lemma automatic_rule_stored `{!JsonTextSpec} rule text playlist :
  rule_wf rule -> rule_to_string rule = Ok text -> text <> "" ->
  automatic_rule_json playlist = text -> automatic_rule playlist = Some <$> normalized rule.
Proof.
  intros Hwf Htext Hne Hjson. unfold automatic_rule, is_automatic. rewrite Hjson.
  destruct (String.eqb_spec text ""); [done|]. cbn [negb].
  apply value_from_str_to_string in Htext as ->. cbn [map_err mbind result_bind].
  by rewrite rule_from_value_wf.
Qed.

End Rules.
