(* ===== verification/PlaylistStore.v ===== *)
(** * The playlist repository

    [crates/music-storage/src/playlists.rs]: the repository of [Playlists] on
    the SQLite tables [playlists] and [playlist_items] next to the library's
    tables. A transaction acts on the tables and is rolled back when its body
    fails or asks for it; the next entry of [playlist_faults] makes the database
    fail before the work or, for an outcome that is reported lost, after it.
    The primary keys and foreign keys of the migrations are checked by the
    inserts; deleting a playlist or a track deletes its items. *)

From S2P Require Import Prelude Text Library PlaybackState MediaPath Store JobStore.
From S2P Require Import RecoveryJournal Playlists.

#[local] Open Scope string_scope.
#[local] Open Scope Z_scope.
#[local] Open Scope list_scope.

(* ------------------------------------------------------------------ *)
(** ** The tables *)

Record PlaylistRow : Type := mkPlaylistRow {
  playlists_id : Z;
  playlists_name : string;
  playlists_mode_id : option string;
  playlists_category : option string;
  playlists_automatic_rule_json : string;
  playlists_automatic_source_signature : option string;
  playlists_automatic_refreshed_at : option Z;
  playlists_created_at : option Z;
  playlists_updated_at : option Z
}.

Record ItemRow : Type := mkItemRow {
  items_playlist_id : Z;
  items_position : Z;
  items_track_id : Z
}.

#[global] Instance PlaylistRow_eq_dec : EqDecision PlaylistRow.
Proof. solve_decision. Defined.
#[global] Instance ItemRow_eq_dec : EqDecision ItemRow.
Proof. solve_decision. Defined.

Record SqlitePlaylists : Type := mkSqlitePlaylists {
  playlists_table : list PlaylistRow;
  items_table : list ItemRow;
  library : LibraryTables;
  playlist_clock : nat;
  playlist_faults : list Fault
}.

Definition set_playlists (rows : list PlaylistRow) (db : SqlitePlaylists) : SqlitePlaylists :=
  mkSqlitePlaylists rows (items_table db) (library db) (playlist_clock db) (playlist_faults db).
Definition set_items (rows : list ItemRow) (db : SqlitePlaylists) : SqlitePlaylists :=
  mkSqlitePlaylists (playlists_table db) rows (library db) (playlist_clock db) (playlist_faults db).
Definition next_tick (db : SqlitePlaylists) : SqlitePlaylists :=
  mkSqlitePlaylists (playlists_table db) (items_table db) (library db) (S (playlist_clock db))
    (playlist_faults db).
Definition next_fault (db : SqlitePlaylists) : SqlitePlaylists :=
  mkSqlitePlaylists (playlists_table db) (items_table db) (library db) (playlist_clock db)
    (tail (playlist_faults db)).
(** What a rollback restores. *)
Definition restore (before after : SqlitePlaylists) : SqlitePlaylists :=
  mkSqlitePlaylists (playlists_table before) (items_table before) (library before)
    (playlist_clock after) (playlist_faults after).

Definition ptx (A : Type) : Type := stateful SqlitePlaylists LibraryStorageError A.

(** [begin_with(BEGIN_WRITE)], the body, and [commit] or [rollback]; a body
    that fails drops the transaction, which rolls it back. *)
Definition playlist_transaction {A} (body : ptx (TxEnd A)) : ptx A := fun db =>
  let rest := next_fault db in
  let '(r, after) := body rest in
  let ended :=
    match r with
    | Ok (Tx_commit a) => (Ok a, after)
    | Ok (Tx_rollback a) => (Ok a, restore db after)
    | Err e => (Err e, restore db after)
    end in
  match head (playlist_faults db) with
  | Some (FailBefore cause) => (Err (LibraryStorage_Database cause), rest)
  | Some (FailAfter cause) =>
      match ended with
      | (Ok _, after) => (Err (LibraryStorage_Database cause), after)
      | failed => failed
      end
  | Some NoFault | None => ended
  end.

(** A statement on the pool, outside a transaction, is one of its own. *)
Definition statement {A} (body : ptx A) : ptx A :=
  playlist_transaction (a ← body; mret (Tx_commit a)).

(* ------------------------------------------------------------------ *)
(** ** Statements *)

Definition row_has_id (id : Z) (row : PlaylistRow) : bool := playlists_id row =? id.
Definition item_of (id : Z) (row : ItemRow) : bool := items_playlist_id row =? id.

Definition playlist_from_row (row : PlaylistRow) : result LibraryStorageError PlaylistRecord :=
  created_at ← ok_or InvalidTimestamp (playlists_created_at row);
  updated_at ← ok_or InvalidTimestamp (playlists_updated_at row);
  Ok {|
    playlist_id := playlists_id row;
    playlist_name := playlists_name row;
    playlist_mode_id := playlists_mode_id row;
    playlist_category := playlists_category row;
    automatic_rule_json := playlists_automatic_rule_json row;
    automatic_source_signature := playlists_automatic_source_signature row;
    automatic_refreshed_at := playlists_automatic_refreshed_at row;
    playlist_created_at := created_at;
    playlist_updated_at := updated_at |}.

(** [SELECT {PLAYLIST_COLUMNS} FROM playlists WHERE id = ?] *)
Definition load_playlist (id : Z) : ptx (option PlaylistRecord) :=
  row ← gets (fun db => List.find (row_has_id id) (playlists_table db));
  try (option_transpose playlist_from_row row).

(** [SELECT .. FROM playlist_items WHERE playlist_id = ? ORDER BY position] *)
Definition position_le (a b : ItemRow) : Prop := items_position a <= items_position b.
#[global] Instance position_le_dec a b : Decision (position_le a b).
Proof. unfold position_le. apply _. Defined.
#[global] Instance position_le_total : Total position_le.
Proof. intros a b. unfold position_le. lia. Qed.
#[global] Instance position_le_trans : Transitive position_le.
Proof. intros a b c. unfold position_le. lia. Qed.

Definition ordered_items (id : Z) (rows : list ItemRow) : list ItemRow :=
  merge_sort position_le (List.filter (item_of id) rows).

Definition ordered_track_ids (id : Z) : ptx (list Z) :=
  rows ← gets (fun db => ordered_items id (items_table db));
  if (MAX_PLAYLIST_ITEMS <? N.of_nat (length rows))%N
  then throw (InvalidLibraryState "playlist exceeds the supported item capacity")
  else mret (items_track_id <$> rows).

(** [INSERT INTO playlist_items ..] under the primary key and the foreign
    keys of the table; the column [added_at] is not read back. *)
Definition insert_item (row : ItemRow) : ptx () := fun db =>
  if existsb (fun other => (items_playlist_id other =? items_playlist_id row)
                           && (items_position other =? items_position row)) (items_table db)
  then (Err (LibraryStorage_Database "UNIQUE constraint failed"), db)
  else if negb (existsb (row_has_id (items_playlist_id row)) (playlists_table db))
       || negb (existsb (fun track => tracks_id track =? items_track_id row)
                  (tracks_table (library db)))
  then (Err (LibraryStorage_Database "FOREIGN KEY constraint failed"), db)
  else (Ok (), set_items (items_table db ++ [row]) db).

(** [DELETE FROM playlist_items WHERE playlist_id = ?] *)
Definition delete_items (id : Z) : ptx () := modify (fun db =>
  set_items (List.filter (fun row => negb (item_of id row)) (items_table db)) db).

Fixpoint insert_items (id position : Z) (track_ids : list Z) : ptx () :=
  match track_ids with
  | [] => mret ()
  | track_id :: track_ids =>
      _ ← try (ok_or (InvalidLibraryState "playlist position exceeds SQLite range")
                 (if position <=? i64_max_Z then Some position else None));
      _ ← insert_item (mkItemRow id position track_id);
      insert_items id (position + 1) track_ids
  end.

Definition replace_items (id : Z) (track_ids : list Z) : ptx () :=
  _ ← delete_items id;
  insert_items id 0 track_ids.

(** [positions.iter().enumerate().all(..)] *)
Fixpoint contiguous_from (expected : Z) (positions : list Z) : bool :=
  match positions with
  | [] => true
  | position :: positions =>
      (expected <=? i64_max_Z) && (expected =? position) && contiguous_from (expected + 1) positions
  end.

Definition repack_items_if_needed (id : Z) (track_ids : list Z) : ptx () :=
  positions ← gets (fun db => items_position <$> ordered_items id (items_table db));
  if contiguous_from 0 positions then mret () else replace_items id track_ids.

(** [SELECT {TRACK_COLUMNS} FROM tracks WHERE id IN (..)], by id. *)
Definition tracks_among (track_ids : list Z) (tables : LibraryTables)
    : result LibraryStorageError (gmap Z IndexedTrack) :=
  match track_ids with
  | [] => Ok ∅
  | _ =>
      tracks ← result_collect indexed_track_from_row (map (with_original tables)
        (List.filter (fun row => bool_decide (tracks_id row ∈ track_ids)) (tracks_table tables)));
      Ok (collect_map (map (fun track => (TrackId_get (track_id track), track)) tracks))
  end.
Definition load_tracks (track_ids : list Z) : ptx (gmap Z IndexedTrack) :=
  tables ← gets library;
  try (tracks_among track_ids tables).

Definition track_with_id (id : Z) (tables : LibraryTables)
    : result LibraryStorageError (option IndexedTrack) :=
  option_transpose indexed_track_from_row (with_original tables <$>
    List.find (fun row => tracks_id row =? id) (tracks_table tables)).
Definition load_track (id : Z) : ptx (option IndexedTrack) :=
  tables ← gets library;
  try (track_with_id id tables).

(** [SELECT {TRACK_COLUMNS} FROM tracks ORDER BY id] *)
Definition track_id_le (a b : TrackRow) : Prop := tracks_id a <= tracks_id b.
#[global] Instance track_id_le_dec a b : Decision (track_id_le a b).
Proof. unfold track_id_le. apply _. Defined.

(** The manual tags of a track. *)
Definition tags_of (tables : LibraryTables) (id : Z) : gset string :=
  list_to_set (snd <$> List.filter (fun row => row.1 =? id) (user_tags_table tables)).

Definition source_of (tables : LibraryTables)
    : result LibraryStorageError (list AutomaticSourceTrack) :=
  tracks ← result_collect indexed_track_from_row
             (map (with_original tables) (merge_sort track_id_le (tracks_table tables)));
  Ok (map (fun track => mkAutomaticSourceTrack track (tags_of tables (TrackId_get (track_id track))))
        tracks).
Definition load_automatic_source (sources : AutomaticTagSources)
    : ptx (list AutomaticSourceTrack) :=
  tables ← gets library;
  try (source_of tables).

(** SQLite's next rowid: one more than the largest. *)
Definition next_playlist_id (rows : list PlaylistRow) : Z :=
  foldr (fun row next => Z.max (playlists_id row + 1) next) 1 rows.

Section Sqlite.
Context `{!SqliteClock, !Unicode, !JsonText, !Sha256}.

Definition now (db : SqlitePlaylists) : Z := current_timestamp (playlist_clock db).

(** [INSERT INTO playlists ..]: the new row's id. *)
Definition insert_playlist (request : PlaylistCreate) : ptx Z := fun db =>
  let id := next_playlist_id (playlists_table db) in
  (Ok id,
   next_tick (set_playlists
     (playlists_table db ++
      [mkPlaylistRow id (create_name request) (create_mode_id request) (create_category request)
         "" None None (Some (now db)) (Some (now db))]) db)).

(** [UPDATE playlists SET .. WHERE id = ?]: the rows affected. *)
Definition update_playlist (id : Z) (set : Z -> PlaylistRow -> PlaylistRow) : ptx nat := fun db =>
  (Ok (length (List.filter (row_has_id id) (playlists_table db))),
   next_tick (set_playlists
     (map (fun row => if row_has_id id row then set (now db) row else row) (playlists_table db)) db)).

(** The columns the three [UPDATE] statements assign. *)
Definition set_names (name : string) (mode_id category : option string) (at_ : Z)
    (row : PlaylistRow) : PlaylistRow :=
  mkPlaylistRow (playlists_id row) name mode_id category (playlists_automatic_rule_json row)
    (playlists_automatic_source_signature row) (playlists_automatic_refreshed_at row)
    (playlists_created_at row) (Some at_).

Definition set_automatic (rule_json : string) (signature : option string) (refreshed : bool)
    (at_ : Z) (row : PlaylistRow) : PlaylistRow :=
  mkPlaylistRow (playlists_id row) (playlists_name row) (playlists_mode_id row)
    (playlists_category row) rule_json signature (if refreshed then Some at_ else None)
    (playlists_created_at row) (Some at_).

(* ------------------------------------------------------------------ *)
(** ** The operations *)

Definition create_playlist (request : PlaylistCreate) : ptx PlaylistRecord :=
  playlist_transaction (
    id ← insert_playlist request;
    loaded ← load_playlist id;
    playlist ← try (ok_or (InvalidLibraryState "created playlist disappeared") loaded);
    mret (Tx_commit playlist)).

(** [WHERE mode_id = ? AND category = ? ORDER BY created_at DESC, id DESC] *)
Definition filter_admits (filter : PlaylistFilter) (row : PlaylistRow) : bool :=
  match filter_mode_id filter with
  | Some mode_id => bool_decide (playlists_mode_id row = Some mode_id)
  | None => true
  end &&
  match filter_category filter with
  | Some category => bool_decide (playlists_category row = Some category)
  | None => true
  end.

Definition newer_playlist (a b : PlaylistRow) : Prop :=
  default 0 (playlists_created_at b) < default 0 (playlists_created_at a) \/
  (default 0 (playlists_created_at a) = default 0 (playlists_created_at b) /\
   playlists_id b <= playlists_id a).
#[global] Instance newer_playlist_dec a b : Decision (newer_playlist a b).
Proof. unfold newer_playlist. apply _. Defined.

Definition list_playlists (filter : PlaylistFilter) : ptx (list PlaylistRecord) :=
  statement (
    rows ← gets (fun db =>
      merge_sort newer_playlist (List.filter (filter_admits filter) (playlists_table db)));
    try (result_collect playlist_from_row rows)).

Definition get_playlist (id : Z) : ptx (option PlaylistRecord) := statement (load_playlist id).

Definition update_names (id : Z) (patch : PlaylistPatch) : ptx (option PlaylistRecord) :=
  playlist_transaction (
    loaded ← load_playlist id;
    match loaded with
    | None => mret (Tx_rollback None)
    | Some playlist =>
        let name := patched (patch_name patch) (playlist_name playlist) in
        let mode_id := match patch_mode_id patch with
                       | Set_to mode_id => Some mode_id
                       | Unchanged => playlist_mode_id playlist
                       end in
        let category := patched (patch_category patch) (playlist_category playlist) in
        if bool_decide ((playlist_name playlist, playlist_mode_id playlist, playlist_category playlist)
                        <> (name, mode_id, category)) then
          _ ← update_playlist id (set_names name mode_id category);
          loaded ← load_playlist id;
          playlist ← try (ok_or (InvalidLibraryState "updated playlist disappeared") loaded);
          mret (Tx_commit (Some playlist))
        else mret (Tx_commit (Some playlist))
    end).

(** [DELETE FROM playlists WHERE id = ?], with [ON DELETE CASCADE]. *)
Definition delete_playlist (id : Z) : ptx bool :=
  statement (fun db =>
    (Ok (length (List.filter (row_has_id id) (playlists_table db)) =? 1)%nat,
     set_items (List.filter (fun row => negb (item_of id row)) (items_table db))
       (set_playlists (List.filter (fun row => negb (row_has_id id row)) (playlists_table db)) db))).

Definition list_items (id : Z) : ptx (option PlaylistItems) :=
  playlist_transaction (
    loaded ← load_playlist id;
    match loaded with
    | None => mret (Tx_rollback None)
    | Some playlist =>
        track_ids ← ordered_track_ids id;
        _ ← repack_items_if_needed id track_ids;
        tracks ← load_tracks track_ids;
        let items := imap (fun position track_id =>
          mkPlaylistItemRecord (Z.of_nat position) track_id (tracks !! track_id)) track_ids in
        mret (Tx_commit (Some (mkPlaylistItems playlist items)))
    end).

Definition add_track (id : Z) (track_id : TrackId) (position : option nat)
    : ptx (PlaylistMutation PlaylistItemRecord) :=
  playlist_transaction (
    loaded ← load_playlist id;
    match loaded with
    | None => mret (Tx_rollback Mutation_PlaylistNotFound)
    | Some playlist =>
        if is_automatic playlist then mret (Tx_rollback Mutation_AutomaticItemsManaged)
        else
          found ← load_track (TrackId_get track_id);
          match found with
          | None => mret (Tx_rollback Mutation_TrackNotFound)
          | Some track =>
              track_ids ← ordered_track_ids id;
              if (MAX_PLAYLIST_ITEMS <=? N.of_nat (length track_ids))%N
              then mret (Tx_rollback Mutation_CapacityExceeded)
              else
                let target := default (length track_ids) position in
                if (length track_ids <? target)%nat
                then mret (Tx_rollback Mutation_PositionOutOfRange)
                else
                  _ ← replace_items id (vec_insert target (TrackId_get track_id) track_ids);
                  mret (Tx_commit (Mutation_Applied
                    (mkPlaylistItemRecord (Z.of_nat target) (TrackId_get track_id) (Some track))))
          end
    end).

(** [mutate_items]: the closure gives the new ids or an outcome. *)
Definition mutate_items (id : Z) (mutate : list Z -> result (PlaylistMutation ()) (list Z))
    : ptx (PlaylistMutation ()) :=
  playlist_transaction (
    loaded ← load_playlist id;
    match loaded with
    | None => mret (Tx_rollback Mutation_PlaylistNotFound)
    | Some playlist =>
        if is_automatic playlist then mret (Tx_rollback Mutation_AutomaticItemsManaged)
        else
          track_ids ← ordered_track_ids id;
          match mutate track_ids with
          | Err outcome => mret (Tx_rollback outcome)
          | Ok track_ids =>
              _ ← replace_items id track_ids;
              mret (Tx_commit (Mutation_Applied ()))
          end
    end).

Definition remove_position (position : nat) (track_ids : list Z)
    : result (PlaylistMutation ()) (list Z) :=
  if (length track_ids <=? position)%nat then Err Mutation_PositionOutOfRange
  else Ok (vec_remove position track_ids).

Definition move_position (from_position to_position : nat) (track_ids : list Z)
    : result (PlaylistMutation ()) (list Z) :=
  if (length track_ids <=? from_position)%nat || (length track_ids <=? to_position)%nat
  then Err Mutation_PositionOutOfRange
  else if (from_position =? to_position)%nat then Ok track_ids
  else
    match track_ids !! from_position with
    | Some track_id => Ok (vec_insert to_position track_id (vec_remove from_position track_ids))
    | None => Ok track_ids
    end.

Definition remove_track (id : Z) (position : nat) : ptx (PlaylistMutation ()) :=
  mutate_items id (remove_position position).
Definition move_track (id : Z) (from_position to_position : nat) : ptx (PlaylistMutation ()) :=
  mutate_items id (move_position from_position to_position).

Definition automatic_source (sources : AutomaticTagSources) : ptx (list AutomaticSourceTrack) :=
  playlist_transaction (source ← load_automatic_source sources; mret (Tx_commit source)).

Definition same_signature (stored : option string) (signature : string) : bool :=
  bool_decide (stored = Some signature).

Definition materialize_automatic (id : Z) (rule : AutomaticPlaylistRule)
    (expected_source_signature : option string) (force : bool) : ptx AutomaticMaterialization :=
  playlist_transaction (
    loaded ← load_playlist id;
    match loaded with
    | None => mret (Tx_rollback Materialization_PlaylistNotFound)
    | Some current =>
        if bool_decide (expected_source_signature = None)
           && negb (bool_decide (mjoin (result_ok (automatic_rule current)) = Some rule))
        then mret (Tx_rollback Materialization_RuleChanged)
        else
          source ← load_automatic_source (rule_tag_sources rule);
          resolution ← try (map_err (fun _ => InvalidLibraryState "automatic playlist rule is invalid")
                              (resolve_automatic_playlist rule source));
          let signature := resolution_source_signature resolution in
          if match expected_source_signature with
             | Some expected => negb (String.eqb expected signature)
             | None => false
             end
          then mret (Tx_rollback Materialization_StalePreview)
          else if negb force && same_signature (automatic_source_signature current) signature
          then mret (Tx_commit (Materialization_Unchanged current resolution))
          else
            _ ← replace_items id ((fun track => TrackId_get (track_id track))
                                    <$> resolution_tracks resolution);
            rule_json ← try (map_err ManifestSerialization (rule_to_string rule));
            _ ← update_playlist id (set_automatic rule_json (Some signature) true);
            loaded ← load_playlist id;
            playlist ← try (ok_or (InvalidLibraryState "materialized playlist disappeared") loaded);
            mret (Tx_commit (Materialization_Applied playlist resolution))
    end).

Definition disable_automatic (id : Z) : ptx (option PlaylistRecord) :=
  playlist_transaction (
    rows_affected ← update_playlist id (set_automatic "" None false);
    if (rows_affected =? 1)%nat
    then playlist ← load_playlist id; mret (Tx_commit playlist)
    else mret (Tx_commit None)).

(** [impl PlaylistRepository for SqliteStorage] *)
#[global] Instance SqlitePlaylistRepository : PlaylistRepository SqlitePlaylists := {|
  playlist_error := LibraryStorageError;
  playlists_create := create_playlist;
  playlists_list := list_playlists;
  playlists_get := get_playlist;
  playlists_update := update_names;
  playlists_delete := delete_playlist;
  playlists_items := list_items;
  playlists_add_track := add_track;
  playlists_remove_track := remove_track;
  playlists_move_track := move_track;
  playlists_automatic_source := automatic_source;
  playlists_materialize_automatic := materialize_automatic;
  playlists_disable_automatic := disable_automatic
|}.

End Sqlite.

(* ------------------------------------------------------------------ *)
(** ** The library changes *)

(** A change of the library's tables by their own repository: the items of
    the tracks that are gone go with them, [ON DELETE CASCADE]. *)
Definition replace_library (tables : LibraryTables) (db : SqlitePlaylists) : SqlitePlaylists :=
  mkSqlitePlaylists (playlists_table db)
    (List.filter (fun row => existsb (fun track => tracks_id track =? items_track_id row)
                               (tracks_table tables)) (items_table db))
    tables (playlist_clock db) (playlist_faults db).
