(* ===== verification/PlaylistStoreSpec.v ===== *)
(** * The playlist tables

    What the statements of [PlaylistStore] do to well-formed tables: the items
    of a playlist as a list of track ids, and how replacing them, reading them
    and changing a row act on it. *)

From S2P Require Import Prelude Text Library PlaybackState MediaPath Store JobStore.
From S2P Require Import RecoveryJournal Playlists PlaylistsSpec PlaylistStore.

#[local] Open Scope string_scope.
#[local] Open Scope Z_scope.
#[local] Open Scope list_scope.

(* ------------------------------------------------------------------ *)
(** ** Well-formed tables *)

Definition item_key (row : ItemRow) : Z * Z := (items_playlist_id row, items_position row).

(** The track ids of a playlist, in order. *)
Definition items_of (id : Z) (rows : list ItemRow) : list Z :=
  items_track_id <$> ordered_items id rows.

Record tables_wf (db : SqlitePlaylists) : Prop := mkTablesWf {
  wf_playlist_ids : NoDup (playlists_id <$> playlists_table db);
  wf_playlist_dates : Forall (fun row => is_Some (playlists_created_at row) /\
                                         is_Some (playlists_updated_at row)) (playlists_table db);
  wf_item_keys : NoDup (item_key <$> items_table db);
  wf_item_playlists : Forall (fun row => items_playlist_id row ∈ playlists_id <$> playlists_table db)
                        (items_table db);
  wf_item_tracks : Forall (fun row => items_track_id row ∈ tracks_id <$> tracks_table (library db))
                     (items_table db);
  wf_capacity : forall id, (N.of_nat (length (items_of id (items_table db))) <= MAX_PLAYLIST_ITEMS)%N;
  wf_track_ids : NoDup (tracks_id <$> tracks_table (library db))
}.

(** Two states that differ in the clock and the faults to come at most. *)
Definition same_tables (db db' : SqlitePlaylists) : Prop :=
  playlists_table db' = playlists_table db /\ items_table db' = items_table db /\
  library db' = library db.

#[export] Instance same_tables_equivalence : Equivalence same_tables.
Proof.
  split; unfold same_tables; [done|intros ?? (-> & -> & ->); done|].
  intros ??? (-> & -> & ->) (-> & -> & ->). done.
Qed.

#[export] Instance tables_wf_proper : Proper (same_tables ==> iff) tables_wf.
Proof.
  intros db db' (Hp & Hi & Hl). split; intros []; split; rewrite ?Hp, ?Hi, ?Hl in *; done.
Qed.

Lemma same_restore db after : same_tables db (restore db after).
Proof. done. Qed.
Lemma same_next_fault db : same_tables db (next_fault db).
Proof. done. Qed.

(* ------------------------------------------------------------------ *)
(** ** Transactions *)

(** What a transaction leaves: nothing, unless its body ended in a commit;
    then the body's tables, whose answer may be lost. *)
Lemma playlist_transaction_inv {A} (body : ptx (TxEnd A)) db r db' :
  playlist_transaction body db = (r, db') ->
  (exists a, body (next_fault db) = (Ok (Tx_commit a), db') /\
     (r = Ok a \/ exists cause, r = Err (LibraryStorage_Database cause))) \/
  (same_tables db db' /\
   match r with
   | Ok a => exists after, body (next_fault db) = (Ok (Tx_rollback a), after)
   | Err e => (exists after, body (next_fault db) = (Err e, after)) \/
              exists cause, e = LibraryStorage_Database cause
   end).
Proof.
  unfold playlist_transaction. destruct (body (next_fault db)) as [[[a|a]|e] after] eqn:Hbody;
    destruct (head (playlist_faults db)) as [[]|]; intros [= <- <-];
    first [ right; split; [done|]; solve [eauto | left; eauto | right; eauto]
          | left; eexists; split; [done|]; solve [left; eauto | right; eauto] ].
Qed.

(** Without faults the transaction is its body. *)
Lemma playlist_transaction_ok {A} (body : ptx (TxEnd A)) db :
  head (playlist_faults db) = None \/ head (playlist_faults db) = Some NoFault ->
  playlist_transaction body db =
    match body (next_fault db) with
    | (Ok (Tx_commit a), after) => (Ok a, after)
    | (Ok (Tx_rollback a), after) => (Ok a, restore db after)
    | (Err e, after) => (Err e, restore db after)
    end.
Proof.
  unfold playlist_transaction. intros [-> | ->];
    by destruct (body (next_fault db)) as [[[a|a]|e] after].
Qed.

(* ------------------------------------------------------------------ *)
(** ** Reading *)

Lemma find_row_id id rows row :
  List.find (row_has_id id) rows = Some row -> row ∈ rows /\ playlists_id row = id.
Proof.
  intros [Hin Hid]%List.find_some. apply list_elem_of_In in Hin. unfold row_has_id in Hid.
  by apply Z.eqb_eq in Hid.
Qed.

Lemma find_row_unique rows row :
  NoDup (playlists_id <$> rows) -> row ∈ rows ->
  List.find (row_has_id (playlists_id row)) rows = Some row.
Proof.
  induction rows as [|other rows IH]; intros Hnd Hin; [set_solver|]. cbn.
  unfold row_has_id at 1. apply NoDup_cons in Hnd as [Hne Hnd].
  destruct (Z.eqb_spec (playlists_id other) (playlists_id row)) as [Heq|Hneq].
  - apply elem_of_cons in Hin as [->|Hin]; [done|]. destruct Hne. rewrite Heq.
    by apply list_elem_of_fmap_2.
  - apply elem_of_cons in Hin as [->|Hin]; [done|]. by apply IH.
Qed.

Lemma find_playlist_row_None id rows :
  List.find (row_has_id id) rows = None <-> id ∉ playlists_id <$> rows.
Proof.
  split.
  - intros Hf (row & -> & Hin)%list_elem_of_fmap.
    pose proof (List.find_none _ _ Hf row) as Hn. unfold row_has_id in Hn.
    rewrite Z.eqb_refl in Hn. discriminate Hn. by apply list_elem_of_In.
  - intros Hn. destruct (List.find _ _) as [row|] eqn:Hf; [|done].
    apply find_row_id in Hf as [Hin <-]. destruct Hn. by apply list_elem_of_fmap_2.
Qed.

Lemma load_playlist_state id db r db' : load_playlist id db = (r, db') -> db' = db.
Proof. unfold load_playlist. by intros [= _ <-]. Qed.

(** The record of a row whose dates are readable. *)
Definition record_of (row : PlaylistRow) : PlaylistRecord := {|
  playlist_id := playlists_id row;
  playlist_name := playlists_name row;
  playlist_mode_id := playlists_mode_id row;
  playlist_category := playlists_category row;
  automatic_rule_json := playlists_automatic_rule_json row;
  automatic_source_signature := playlists_automatic_source_signature row;
  automatic_refreshed_at := playlists_automatic_refreshed_at row;
  playlist_created_at := default 0 (playlists_created_at row);
  playlist_updated_at := default 0 (playlists_updated_at row) |}.

Lemma playlist_from_row_ok row :
  is_Some (playlists_created_at row) -> is_Some (playlists_updated_at row) ->
  playlist_from_row row = Ok (record_of row).
Proof. intros [c Hc] [u Hu]. unfold playlist_from_row, record_of. by rewrite Hc, Hu. Qed.

Lemma load_playlist_ok id db :
  tables_wf db ->
  load_playlist id db = (Ok (record_of <$> List.find (row_has_id id) (playlists_table db)), db).
Proof.
  intros Hwf. unfold load_playlist, gets, try, mbind, stateful_bind, option_transpose.
  destruct (List.find _ _) as [row|] eqn:Hrow; [|done].
  apply find_row_id in Hrow as [Hin _]. pose proof (wf_playlist_dates _ Hwf) as Hdates.
  rewrite Forall_forall in Hdates. destruct (Hdates row Hin).
  by rewrite playlist_from_row_ok.
Qed.

Lemma ordered_track_ids_ok id db :
  tables_wf db -> ordered_track_ids id db = (Ok (items_of id (items_table db)), db).
Proof.
  intros Hwf. unfold ordered_track_ids, gets, mbind, stateful_bind.
  pose proof (wf_capacity _ Hwf id) as Hc. unfold items_of in Hc. rewrite length_fmap in Hc.
  destruct (N.ltb_spec MAX_PLAYLIST_ITEMS (N.of_nat (length (ordered_items id (items_table db)))));
    [lia|done].
Qed.

(* ------------------------------------------------------------------ *)
(** ** Replacing the items of a playlist *)

(** Rows at consecutive positions. *)
Definition numbered (id position : Z) (track_ids : list Z) : list ItemRow :=
  imap (fun index track_id => mkItemRow id (position + Z.of_nat index) track_id) track_ids.

Lemma numbered_cons id position track_id track_ids :
  numbered id position (track_id :: track_ids)
  = mkItemRow id position track_id :: numbered id (position + 1) track_ids.
Proof.
  unfold numbered. cbn. rewrite Z.add_0_r. f_equal. apply imap_ext. intros i x _. cbn. f_equal. lia.
Qed.

Lemma numbered_ids id position track_ids : items_track_id <$> numbered id position track_ids = track_ids.
Proof.
  revert position. induction track_ids as [|t l IH]; intros position; [done|].
  rewrite numbered_cons. cbn. by rewrite IH.
Qed.

Lemma elem_of_numbered id position track_ids row :
  row ∈ numbered id position track_ids ->
  items_playlist_id row = id /\ position <= items_position row < position + Z.of_nat (length track_ids) /\
  items_track_id row ∈ track_ids.
Proof.
  revert position. induction track_ids as [|t l IH]; intros position; [set_solver|].
  rewrite numbered_cons. intros [->|Hin]%elem_of_cons; cbn; [split_and!; [done|lia..|set_solver]|].
  apply IH in Hin as (? & ? & ?). split_and!; [done|lia..|set_solver].
Qed.

Lemma numbered_sorted id position track_ids :
  StronglySorted position_le (numbered id position track_ids).
Proof.
  revert position. induction track_ids as [|t l IH]; intros position; [constructor|].
  rewrite numbered_cons. constructor; [done|]. apply Forall_forall. intros row Hrow.
  apply elem_of_numbered in Hrow as (_ & ? & _). unfold position_le. cbn. lia.
Qed.

Lemma numbered_positions_NoDup id position track_ids :
  NoDup (items_position <$> numbered id position track_ids).
Proof.
  revert position. induction track_ids as [|t l IH]; intros position; [constructor|].
  rewrite numbered_cons. cbn. apply NoDup_cons. split; [|done].
  intros (row & Heq & Hin)%list_elem_of_fmap. apply elem_of_numbered in Hin as (_ & ? & _). lia.
Qed.

Lemma filter_all {A} (p : A -> bool) l : (forall x, x ∈ l -> p x = true) -> List.filter p l = l.
Proof. induction l as [|x l IH]; intros Hp; cbn; [done|]. rewrite Hp by set_solver. rewrite IH; set_solver. Qed.
Lemma filter_twice {A} (p q : A -> bool) l :
  (forall x, x ∈ l -> p x = true -> q x = true) -> List.filter p (List.filter q l) = List.filter p l.
Proof.
  induction l as [|x l IH]; intros Hpq; cbn; [done|]. specialize (Hpq x) as Hx.
  destruct (q x) eqn:Hq; cbn.
  - rewrite IH by set_solver. done.
  - destruct (p x); [by discriminate Hx; set_solver|]. apply IH. set_solver.
Qed.

Lemma filter_Forall {A} (p : A -> bool) (P : A -> Prop) l : Forall P l -> Forall P (List.filter p l).
Proof. induction 1; cbn; [constructor|]. destruct (p x); auto. Qed.

(** What [replace_items] leaves in the table. *)
Definition replaced (id : Z) (track_ids : list Z) (rows : list ItemRow) : list ItemRow :=
  List.filter (fun row => negb (item_of id row)) rows ++ numbered id 0 track_ids.

Lemma insert_items_ok id position track_ids db :
  0 <= position ->
  position + Z.of_nat (length track_ids) <= i64_max_Z ->
  id ∈ playlists_id <$> playlists_table db ->
  (forall t, t ∈ track_ids -> t ∈ tracks_id <$> tracks_table (library db)) ->
  (forall row, row ∈ items_table db -> items_playlist_id row = id -> items_position row < position) ->
  insert_items id position track_ids db
  = (Ok (), set_items (items_table db ++ numbered id position track_ids) db).
Proof.
  revert position db. induction track_ids as [|t l IH]; intros position db Hpos Hmax Hid Htracks Hfresh.
  { cbn. rewrite app_nil_r. by destruct db. }
  cbn [insert_items length] in *. unfold mbind, stateful_bind at 1, try at 1.
  destruct (Z.leb_spec position i64_max_Z); [|lia]. cbn [ok_or].
  unfold stateful_bind at 1, insert_item. cbn [items_playlist_id items_position items_track_id].
  assert (existsb (fun other => (items_playlist_id other =? id) && (items_position other =? position))
            (items_table db) = false) as ->.
  { apply not_true_is_false. intros (row & Hin & Hrow)%existsb_exists.
    apply list_elem_of_In in Hin. apply andb_true_iff in Hrow as [?%Z.eqb_eq ?%Z.eqb_eq].
    pose proof (Hfresh row Hin). lia. }
  assert (existsb (row_has_id id) (playlists_table db) = true) as ->.
  { apply list_elem_of_fmap in Hid as (row & -> & Hin). apply existsb_exists. exists row.
    split; [by apply list_elem_of_In|]. apply Z.eqb_refl. }
  assert (existsb (fun track => tracks_id track =? t) (tracks_table (library db)) = true) as ->.
  { assert (t ∈ tracks_id <$> tracks_table (library db)) as (row & -> & Hin)%list_elem_of_fmap
      by (apply Htracks; set_solver). apply existsb_exists. exists row.
    split; [by apply list_elem_of_In|]. apply Z.eqb_refl. }
  cbn [negb orb]. rewrite (IH (position + 1)); [|lia|lia|done|..].
  - rewrite numbered_cons. cbn [items_table set_items]. by rewrite <- app_assoc.
  - intros t' Ht'. apply Htracks. set_solver.
  - cbn. intros row [Hin|Hin]%elem_of_app Hrow.
    + pose proof (Hfresh row Hin Hrow). lia.
    + apply list_elem_of_singleton in Hin as ->. cbn. lia.
Qed.

Lemma replace_items_ok id track_ids db :
  tables_wf db ->
  id ∈ playlists_id <$> playlists_table db ->
  (forall t, t ∈ track_ids -> t ∈ tracks_id <$> tracks_table (library db)) ->
  (N.of_nat (length track_ids) <= MAX_PLAYLIST_ITEMS)%N ->
  replace_items id track_ids db = (Ok (), set_items (replaced id track_ids (items_table db)) db).
Proof.
  intros Hwf Hid Htracks Hlen. unfold replace_items, delete_items, modify, mbind, stateful_bind.
  rewrite insert_items_ok; [done|done| |done|done|].
  - unfold MAX_PLAYLIST_ITEMS in Hlen. unfold i64_max_Z. lia.
  - cbn. intros row Hrow Hof. apply list_elem_of_In, filter_In in Hrow as [_ Hrow].
    unfold item_of in Hrow. rewrite Hof, Z.eqb_refl in Hrow. done.
Qed.

Lemma items_of_replaced id track_ids rows : items_of id (replaced id track_ids rows) = track_ids.
Proof.
  unfold items_of, ordered_items, replaced. rewrite List.filter_app.
  rewrite (filter_none (item_of id) (List.filter _ rows)).
  2: { intros row Hrow. apply list_elem_of_In, filter_In in Hrow as [_ Hrow].
       by destruct (item_of id row). }
  rewrite filter_all.
  2: { intros row Hrow. apply elem_of_numbered in Hrow as (Hrow & _). unfold item_of. by apply Z.eqb_eq. }
  assert (numbered id 0 track_ids = merge_sort position_le (numbered id 0 track_ids)) as Hsort.
  { apply (sorted_canonical position_le items_position); [|by apply numbered_positions_NoDup|done|].
    - unfold position_le. lia.
    - apply numbered_sorted. }
  cbn [app]. rewrite <- Hsort. apply numbered_ids.
Qed.

Lemma ordered_items_replaced_ne id id' track_ids rows :
  id' <> id -> ordered_items id' (replaced id track_ids rows) = ordered_items id' rows.
Proof.
  intros Hne. unfold ordered_items, replaced. rewrite List.filter_app.
  rewrite (filter_none (item_of id') (numbered id 0 track_ids)), app_nil_r.
  - by rewrite filter_twice by (unfold item_of; intros row _ ?%Z.eqb_eq; apply negb_true_iff, Z.eqb_neq; lia).
  - intros row Hrow. apply elem_of_numbered in Hrow as (Hrow & _). unfold item_of. apply Z.eqb_neq. lia.
Qed.

Lemma tables_wf_replaced id track_ids db :
  tables_wf db ->
  id ∈ playlists_id <$> playlists_table db ->
  (forall t, t ∈ track_ids -> t ∈ tracks_id <$> tracks_table (library db)) ->
  (N.of_nat (length track_ids) <= MAX_PLAYLIST_ITEMS)%N ->
  tables_wf (set_items (replaced id track_ids (items_table db)) db).
Proof.
  intros Hwf Hid Htracks Hlen.
  split; cbn [items_table set_items playlists_table library]; try apply Hwf.
  - unfold replaced. rewrite fmap_app. apply NoDup_app. split_and!.
    + eapply sublist_NoDup; [exact (wf_item_keys _ Hwf)|]. apply fmap_sublist, filter_sublist.
    + intros key (row & -> & Hrow)%list_elem_of_fmap (row' & Hkey & Hrow')%list_elem_of_fmap.
      apply list_elem_of_In, filter_In in Hrow as [_ Hrow]. apply elem_of_numbered in Hrow' as (Hrow' & _).
      unfold item_key in Hkey. injection Hkey as Hkey _. unfold item_of in Hrow.
      rewrite Hkey, Hrow', Z.eqb_refl in Hrow. done.
    + eapply (NoDup_fmap_1 snd). rewrite <- list_fmap_compose. apply numbered_positions_NoDup.
  - unfold replaced. apply Forall_app. split.
    + apply filter_Forall, Hwf.
    + apply Forall_forall. intros row Hrow. by apply elem_of_numbered in Hrow as (-> & _).
  - unfold replaced. apply Forall_app. split.
    + apply filter_Forall, Hwf.
    + apply Forall_forall. intros row Hrow. apply elem_of_numbered in Hrow as (_ & _ & ?). auto.
  - intros id'. destruct (decide (id' = id)) as [->|Hne]; [by rewrite items_of_replaced|].
    unfold items_of. rewrite ordered_items_replaced_ne by done. apply (wf_capacity _ Hwf).
Qed.
