(* ===== verification/PlaylistBook.v ===== *)
(** * The playlist book

    What the playlist repository promises: a book that maps a playlist's id to
    its columns and its list of track ids. Each operation of the repository is
    one function on the book, or is refused; the tables refine it, whatever the
    positions of the items are and whenever the database fails. *)

From S2P Require Import Prelude PlaybackState Store JobStore Text MediaPath RecoveryJournal.
From S2P Require Import Library Playlists PlaylistsSpec PlaylistStore PlaylistStoreSpec.

#[local] Open Scope string_scope.
#[local] Open Scope Z_scope.
#[local] Open Scope list_scope.

(* ------------------------------------------------------------------ *)
(** ** The specification *)

Abbreviation Book := (gmap Z (PlaylistRow * list Z)) (only parsing).

Inductive PlaylistOp : Type :=
| Op_create (request : PlaylistCreate)
| Op_list (filter : PlaylistFilter)
| Op_get (id : Z)
| Op_update (id : Z) (patch : PlaylistPatch)
| Op_delete (id : Z)
| Op_items (id : Z)
| Op_add_track (id : Z) (track_id : TrackId) (position : option nat)
| Op_remove_track (id : Z) (position : nat)
| Op_move_track (id : Z) (from_position to_position : nat)
| Op_automatic_source (sources : AutomaticTagSources)
| Op_materialize (id : Z) (rule : AutomaticPlaylistRule) (expected : option string) (force : bool)
| Op_disable (id : Z).

Inductive PlaylistAnswer : Type :=
| Answer_record (playlist : PlaylistRecord)
| Answer_records (playlists : list PlaylistRecord)
| Answer_found (playlist : option PlaylistRecord)
| Answer_deleted (deleted : bool)
| Answer_items (items : option PlaylistItems)
| Answer_added (outcome : PlaylistMutation PlaylistItemRecord)
| Answer_edited (outcome : PlaylistMutation ())
| Answer_source (source : list AutomaticSourceTrack)
| Answer_materialized (outcome : AutomaticMaterialization).

Section Book.
Context `{!SqliteClock, !Unicode, !JsonText, !Sha256}.

Definition answer_with {A} (f : A -> PlaylistAnswer) (m : ptx A) : ptx PlaylistAnswer :=
  a ← m; mret (f a).

Definition run_op (op : PlaylistOp) : ptx PlaylistAnswer :=
  match op with
  | Op_create request => answer_with Answer_record (create_playlist request)
  | Op_list filter => answer_with Answer_records (list_playlists filter)
  | Op_get id => answer_with Answer_found (get_playlist id)
  | Op_update id patch => answer_with Answer_found (update_names id patch)
  | Op_delete id => answer_with Answer_deleted (delete_playlist id)
  | Op_items id => answer_with Answer_items (list_items id)
  | Op_add_track id track_id position => answer_with Answer_added (add_track id track_id position)
  | Op_remove_track id position => answer_with Answer_edited (remove_track id position)
  | Op_move_track id from to => answer_with Answer_edited (move_track id from to)
  | Op_automatic_source sources => answer_with Answer_source (automatic_source sources)
  | Op_materialize id rule expected force =>
      answer_with Answer_materialized (materialize_automatic id rule expected force)
  | Op_disable id => answer_with Answer_found (disable_automatic id)
  end.

(** An answer and the next book, or a refusal that leaves the book alone. *)
Definition spec (A : Type) : Type := result LibraryStorageError (A * Book).

(** Editing the items of a playlist that no rule manages. *)
Definition spec_edit {A} (id : Z) (edit : list Z -> result LibraryStorageError (PlaylistMutation A * list Z))
    (b : Book) : spec (PlaylistMutation A) :=
  match b !! id with
  | None => Ok (Mutation_PlaylistNotFound, b)
  | Some (row, ids) =>
      if is_automatic (record_of row) then Ok (Mutation_AutomaticItemsManaged, b)
      else '(outcome, ids) ← edit ids; Ok (outcome, <[id := (row, ids)]> b)
  end.

Definition spec_insert (track_id : TrackId) (position : option nat) (tables : LibraryTables)
    (ids : list Z) : result LibraryStorageError (PlaylistMutation PlaylistItemRecord * list Z) :=
  found ← track_with_id (TrackId_get track_id) tables;
  match found with
  | None => Ok (Mutation_TrackNotFound, ids)
  | Some track =>
      let target := default (length ids) position in
      if (MAX_PLAYLIST_ITEMS <=? N.of_nat (length ids))%N then Ok (Mutation_CapacityExceeded, ids)
      else if (length ids <? target)%nat then Ok (Mutation_PositionOutOfRange, ids)
      else Ok (Mutation_Applied (mkPlaylistItemRecord (Z.of_nat target) (TrackId_get track_id) (Some track)),
               vec_insert target (TrackId_get track_id) ids)
  end.

Definition spec_change (change : list Z -> result (PlaylistMutation ()) (list Z)) (ids : list Z)
    : result LibraryStorageError (PlaylistMutation () * list Z) :=
  Ok match change ids with
     | Ok ids => (Mutation_Applied (), ids)
     | Err outcome => (outcome, ids)
     end.

Definition spec_items (id : Z) (tables : LibraryTables) (b : Book) : spec (option PlaylistItems) :=
  match b !! id with
  | None => Ok (None, b)
  | Some (row, ids) =>
      tracks ← tracks_among ids tables;
      Ok (Some (mkPlaylistItems (record_of row)
                  (imap (fun position id => mkPlaylistItemRecord (Z.of_nat position) id (tracks !! id))
                     ids)), b)
  end.

Definition spec_update (id : Z) (patch : PlaylistPatch) (at_ : Z) (b : Book)
    : spec (option PlaylistRecord) :=
  match b !! id with
  | None => Ok (None, b)
  | Some (row, ids) =>
      let name := patched (patch_name patch) (playlists_name row) in
      let mode_id := match patch_mode_id patch with
                     | Set_to mode_id => Some mode_id
                     | Unchanged => playlists_mode_id row
                     end in
      let category := patched (patch_category patch) (playlists_category row) in
      if bool_decide ((playlists_name row, playlists_mode_id row, playlists_category row)
                      = (name, mode_id, category))
      then Ok (Some (record_of row), b)
      else let row := set_names name mode_id category at_ row in
           Ok (Some (record_of row), <[id := (row, ids)]> b)
  end.

(** Materialising a rule: the items become the rule's resolution against the
    library, unless the stored rule changed, the preview is stale, or nothing
    changed since. *)
Definition spec_materialize (id : Z) (rule : AutomaticPlaylistRule) (expected : option string)
    (force : bool) (at_ : Z) (tables : LibraryTables) (b : Book) : spec AutomaticMaterialization :=
  match b !! id with
  | None => Ok (Materialization_PlaylistNotFound, b)
  | Some (row, ids) =>
      let current := record_of row in
      if bool_decide (expected = None)
         && negb (bool_decide (mjoin (result_ok (automatic_rule current)) = Some rule))
      then Ok (Materialization_RuleChanged, b)
      else
        source ← source_of tables;
        resolution ← map_err (fun _ => InvalidLibraryState "automatic playlist rule is invalid")
                       (resolve_automatic_playlist rule source);
        let signature := resolution_source_signature resolution in
        if match expected with Some expected => negb (String.eqb expected signature) | None => false end
        then Ok (Materialization_StalePreview, b)
        else if negb force && same_signature (automatic_source_signature current) signature
        then Ok (Materialization_Unchanged current resolution, b)
        else
          rule_json ← map_err ManifestSerialization (rule_to_string rule);
          let row := set_automatic rule_json (Some signature) true at_ row in
          Ok (Materialization_Applied (record_of row) resolution,
              <[id := (row, (fun track => TrackId_get (track_id track))
                              <$> resolution_tracks resolution)]> b)
  end.

Definition spec_op (op : PlaylistOp) (fresh at_ : Z) (tables : LibraryTables) (b : Book)
    : spec PlaylistAnswer :=
  match op with
  | Op_create request =>
      let row := mkPlaylistRow fresh (create_name request) (create_mode_id request)
                   (create_category request) "" None None (Some at_) (Some at_) in
      Ok (Answer_record (record_of row), <[fresh := (row, [])]> b)
  | Op_list filter =>
      Ok (Answer_records (record_of <$>
            merge_sort newer_playlist
              (List.filter (filter_admits filter) ((fun entry => entry.2.1) <$> map_to_list b))), b)
  | Op_get id => Ok (Answer_found (record_of ∘ fst <$> b !! id), b)
  | Op_update id patch => prod_map Answer_found (fun b => b) <$> spec_update id patch at_ b
  | Op_delete id => Ok (Answer_deleted (bool_decide (is_Some (b !! id))), delete id b)
  | Op_items id => prod_map Answer_items (fun b => b) <$> spec_items id tables b
  | Op_add_track id track_id position =>
      prod_map Answer_added (fun b => b) <$> spec_edit id (spec_insert track_id position tables) b
  | Op_remove_track id position =>
      prod_map Answer_edited (fun b => b) <$> spec_edit id (spec_change (remove_position position)) b
  | Op_move_track id from to =>
      prod_map Answer_edited (fun b => b) <$> spec_edit id (spec_change (move_position from to)) b
  | Op_automatic_source _ => source ← source_of tables; Ok (Answer_source source, b)
  | Op_materialize id rule expected force =>
      prod_map Answer_materialized (fun b => b) <$>
        spec_materialize id rule expected force at_ tables b
  | Op_disable id =>
      Ok match b !! id with
         | None => (Answer_found None, b)
         | Some (row, ids) =>
             let row := set_automatic "" None false at_ row in
             (Answer_found (Some (record_of row)), <[id := (row, ids)]> b)
         end
  end.

End Book.

(* ------------------------------------------------------------------ *)
(** * The tables refine the book *)

#[local] Open Scope string_scope.
#[local] Open Scope Z_scope.
#[local] Open Scope list_scope.

(* ------------------------------------------------------------------ *)
(** ** The book of the tables *)

Definition listing (items : list ItemRow) (row : PlaylistRow) : PlaylistRow * list Z :=
  (row, items_of (playlists_id row) items).
Definition book (db : SqlitePlaylists) : Book :=
  list_to_map ((fun row => (playlists_id row, listing (items_table db) row)) <$> playlists_table db).

Lemma book_lookup db id :
  book db !! id = listing (items_table db) <$> List.find (row_has_id id) (playlists_table db).
Proof.
  unfold book. induction (playlists_table db) as [|row rows IH]; [done|].
  rewrite fmap_cons. cbv beta. rewrite list_to_map_cons. cbn [List.find].
  unfold row_has_id at 1. destruct (Z.eqb_spec (playlists_id row) id) as [->|Hne].
  - by rewrite lookup_insert_eq.
  - by rewrite lookup_insert_ne.
Qed.

Lemma book_lookup_Some db id row ids :
  book db !! id = Some (row, ids) ->
  List.find (row_has_id id) (playlists_table db) = Some row /\ row ∈ playlists_table db /\
  playlists_id row = id /\ ids = items_of id (items_table db).
Proof.
  rewrite book_lookup. destruct (List.find _ _) as [row'|] eqn:Hf; [|done].
  intros [= <- <-]. apply find_row_id in Hf as Hrow. destruct Hrow as [Hin Hid].
  split_and!; [done..|]. by rewrite Hid.
Qed.

Lemma book_lookup_None db id :
  book db !! id = None <-> id ∉ playlists_id <$> playlists_table db.
Proof. rewrite book_lookup, fmap_None. apply find_playlist_row_None. Qed.

(** Reading a playlist reads the book. *)
Lemma load_playlist_book id db :
  tables_wf db -> load_playlist id db = (Ok (record_of ∘ fst <$> book db !! id), db).
Proof.
  intros Hwf. rewrite load_playlist_ok, book_lookup by done. by destruct (List.find _ _).
Qed.

Lemma book_proper db db' : same_tables db db' -> book db' = book db.
Proof. intros (Hp & Hi & _). unfold book. by rewrite Hp, Hi. Qed.

Lemma book_replaced id row ids track_ids db :
  book db !! id = Some (row, ids) ->
  book (set_items (replaced id track_ids (items_table db)) db) = <[id := (row, track_ids)]> (book db).
Proof.
  intros Hid. apply book_lookup_Some in Hid as (Hfind & _ & Hrow & _). apply map_eq. intros id'.
  rewrite !book_lookup. cbn [items_table playlists_table set_items].
  destruct (decide (id' = id)) as [->|Hne].
  - rewrite lookup_insert_eq, Hfind. cbn. unfold listing. by rewrite Hrow, items_of_replaced.
  - rewrite lookup_insert_ne, book_lookup by done.
    destruct (List.find (row_has_id id') _) as [row'|] eqn:Hf; [|done]. cbn. f_equal. unfold listing.
    apply find_row_id in Hf as [_ Hid']. f_equal. unfold items_of.
    rewrite ordered_items_replaced_ne; [done|]. congruence.
Qed.

(* ------------------------------------------------------------------ *)
(** ** Changing the rows *)

Lemma find_app {A} (p : A -> bool) l k :
  List.find p (l ++ k) = match List.find p l with Some x => Some x | None => List.find p k end.
Proof. induction l as [|x l IH]; [done|]. cbn. by destruct (p x). Qed.

Lemma find_map_rows id id' (set : PlaylistRow -> PlaylistRow) rows :
  (forall row, playlists_id (set row) = playlists_id row) ->
  List.find (row_has_id id') (map (fun row => if row_has_id id row then set row else row) rows)
  = (if decide (id' = id) then set <$> List.find (row_has_id id') rows
     else List.find (row_has_id id') rows).
Proof.
  intros Hset. induction rows as [|row rows IH]; cbn; [by case_decide|].
  assert (row_has_id id' (if row_has_id id row then set row else row) = row_has_id id' row) as ->.
  { unfold row_has_id at 1. destruct (row_has_id id row); [by rewrite Hset|done]. }
  destruct (row_has_id id' row) eqn:Hrow; [|done]. unfold row_has_id in Hrow. apply Z.eqb_eq in Hrow.
  unfold row_has_id. destruct (Z.eqb_spec (playlists_id row) id); case_decide; cbn; congruence.
Qed.

Lemma find_filter_rows id id' rows :
  List.find (row_has_id id') (List.filter (fun row => negb (row_has_id id row)) rows)
  = (if decide (id' = id) then None else List.find (row_has_id id') rows).
Proof.
  induction rows as [|row rows IH]; cbn [List.filter List.find]; [by case_decide|].
  destruct (row_has_id id row) eqn:Hrow; cbn [negb List.find]; rewrite IH;
    destruct (row_has_id id' row) eqn:Hrow'; try done;
    unfold row_has_id in Hrow, Hrow'; rewrite ?Z.eqb_eq, ?Z.eqb_neq in *; case_decide; congruence.
Qed.

Lemma map_rows_ids id (set : PlaylistRow -> PlaylistRow) rows :
  (forall row, playlists_id (set row) = playlists_id row) ->
  playlists_id <$> map (fun row => if row_has_id id row then set row else row) rows
  = playlists_id <$> rows.
Proof.
  intros Hset. induction rows as [|row rows IH]; cbn; [done|].
  f_equal; [|exact IH]. destruct (row_has_id id row); [apply Hset|done].
Qed.

Section Refinement.
Context `{!SqliteClock, !Unicode, !JsonText, !Sha256}.

(** An [UPDATE] of the readable columns of one row. *)
Definition updates (set : Z -> PlaylistRow -> PlaylistRow) : Prop := forall at_ row,
  playlists_id (set at_ row) = playlists_id row /\
  playlists_created_at (set at_ row) = playlists_created_at row /\
  is_Some (playlists_updated_at (set at_ row)).

Lemma set_names_updates name mode_id category : updates (set_names name mode_id category).
Proof. intros at_ row. split_and!; [done..|by eexists]. Qed.
Lemma set_automatic_updates rule_json signature refreshed :
  updates (set_automatic rule_json signature refreshed).
Proof. intros at_ row. split_and!; [done..|by eexists]. Qed.

Lemma listed_count id db :
  tables_wf db ->
  length (List.filter (row_has_id id) (playlists_table db))
  = if decide (is_Some (book db !! id)) then 1%nat else 0%nat.
Proof.
  intros Hwf. rewrite book_lookup. pose proof (wf_playlist_ids _ Hwf) as Hnd. clear -Hnd.
  induction (playlists_table db) as [|row rows IH]; cbn; [by rewrite decide_False by (by intros [])|].
  apply NoDup_cons in Hnd as [Hnin Hnd].
  destruct (row_has_id id row) eqn:Hrow; [|by apply IH].
  cbn. rewrite decide_True by done. f_equal.
  unfold row_has_id in Hrow. apply Z.eqb_eq in Hrow.
  rewrite filter_none; [done|]. intros other Hother. unfold row_has_id. apply Z.eqb_neq.
  intros Heq. apply Hnin. rewrite Hrow, <- Heq. by apply list_elem_of_fmap_2.
Qed.

Lemma update_playlist_spec id set db n db' :
  tables_wf db -> updates set -> update_playlist id set db = (Ok n, db') ->
  tables_wf db' /\ library db' = library db /\
  match book db !! id with
  | Some (row, ids) => n = 1%nat /\ book db' = <[id := (set (now db) row, ids)]> (book db)
  | None => n = 0%nat /\ book db' = book db
  end.
Proof.
  intros Hwf Hset. unfold update_playlist. intros [= <- <-].
  set (set' := set (now db)). assert (forall row, playlists_id (set' row) = playlists_id row) as Hid
    by (intros row; apply Hset).
  split_and!; [|done|].
  - pose proof (wf_playlist_dates _ Hwf) as Hdates.
    split; cbn [playlists_table set_playlists next_tick items_table library]; try apply Hwf.
    + rewrite map_rows_ids by done. apply Hwf.
    + apply Forall_fmap. eapply Forall_impl; [exact Hdates|]. intros row [Hc Hu]. cbn.
      destruct (row_has_id id row); [|done]. destruct (Hset (now db) row) as (_ & Hcreated & ?).
      unfold set'. by rewrite Hcreated.
    + rewrite map_rows_ids by done. apply Hwf.
  - assert (forall id', book (next_tick (set_playlists (map (fun row => if row_has_id id row then
        set' row else row) (playlists_table db)) db)) !! id'
      = if decide (id' = id) then (fun e => (set' e.1, e.2)) <$> book db !! id' else book db !! id')
      as Hbook.
    { intros id'. rewrite !book_lookup. cbn [items_table playlists_table next_tick set_playlists].
      rewrite find_map_rows by done. case_decide; [|done]. subst.
      destruct (List.find _ _) as [row|]; [|done]. cbn. unfold listing. by rewrite Hid. }
    pose proof (listed_count id db Hwf) as Hlen.
    destruct (book db !! id) as [[row ids]|] eqn:Hrow; (split; [by rewrite Hlen|]);
      apply map_eq; intros id'; rewrite Hbook;
      destruct (decide (id' = id)) as [->|Hne]; rewrite ?Hrow;
      rewrite ?lookup_insert_eq, ?lookup_insert_ne by done; done.
Qed.

Lemma next_playlist_id_fresh rows id :
  id ∈ playlists_id <$> rows -> id < next_playlist_id rows.
Proof.
  induction rows as [|row rows IH]; [set_solver|]. cbn [fmap list_fmap next_playlist_id foldr].
  fold (next_playlist_id rows). intros [->|Hin]%elem_of_cons; [lia|]. apply IH in Hin. lia.
Qed.

Lemma items_of_unlisted id db :
  tables_wf db -> id ∉ playlists_id <$> playlists_table db -> items_of id (items_table db) = [].
Proof.
  intros Hwf Hid. unfold items_of, ordered_items. rewrite filter_none; [done|].
  intros row Hrow. unfold item_of. apply Z.eqb_neq. intros <-. apply Hid.
  pose proof (wf_item_playlists _ Hwf) as Hall. rewrite Forall_forall in Hall. by apply Hall.
Qed.

Lemma insert_playlist_spec request db id db' :
  tables_wf db -> insert_playlist request db = (Ok id, db') ->
  tables_wf db' /\ library db' = library db /\ id = next_playlist_id (playlists_table db) /\
  book db' = <[id := (mkPlaylistRow id (create_name request) (create_mode_id request)
    (create_category request) "" None None (Some (now db)) (Some (now db)), [])]> (book db).
Proof.
  intros Hwf. unfold insert_playlist. intros [= <- <-].
  pose proof (next_playlist_id_fresh (playlists_table db)) as Hfresh.
  assert (next_playlist_id (playlists_table db) ∉ playlists_id <$> playlists_table db) as Hnew.
  { intros Hin%Hfresh. lia. }
  split_and!; [|done..|].
  - split; cbn [playlists_table set_playlists next_tick items_table library]; try apply Hwf.
    + rewrite fmap_app. apply NoDup_app. split_and!; [apply Hwf| |apply NoDup_singleton]. set_solver.
    + apply Forall_app. split; [apply Hwf|]. constructor; [|done]. by split; eexists.
    + eapply Forall_impl; [apply Hwf|]. intros row Hrow. cbn in Hrow. rewrite fmap_app. set_solver.
  - apply map_eq. intros id. rewrite !book_lookup. cbn [items_table playlists_table next_tick set_playlists].
    rewrite find_app. destruct (decide (id = next_playlist_id (playlists_table db))) as [->|Hne].
    + rewrite lookup_insert_eq. apply find_playlist_row_None in Hnew as Hnone. rewrite Hnone. cbn.
      unfold row_has_id. cbn. rewrite Z.eqb_refl. cbn. unfold listing. cbn.
      by rewrite items_of_unlisted.
    + rewrite lookup_insert_ne, book_lookup by done.
      destruct (List.find (row_has_id id) _); [done|]. cbn. unfold row_has_id. cbn.
      by destruct (Z.eqb_spec (next_playlist_id (playlists_table db)) id); [congruence|].
Qed.

(* ------------------------------------------------------------------ *)
(** ** Answers *)

(** The next statement meets no fault. *)
Definition faultless (db : SqlitePlaylists) : Prop :=
  head (playlist_faults db) = None \/ head (playlist_faults db) = Some NoFault.

(** An operation answers as specified: it gives the specified answer and book,
    or refuses as specified; when the database fails, its error is reported
    and the book is the old or (a lost acknowledgement) the new one. *)
Definition answers {A} (db : SqlitePlaylists) (s : spec A)
    (r : result LibraryStorageError A) (db' : SqlitePlaylists) : Prop :=
  tables_wf db' /\ library db' = library db /\
  let failed := ~ faultless db /\ exists cause, r = Err (LibraryStorage_Database cause) in
  match s with
  | Ok (a, b) => (r = Ok a /\ book db' = b) \/ (failed /\ (book db' = book db \/ book db' = b))
  | Err e => book db' = book db /\ (r = Err e \/ failed)
  end.

(** What a transaction's body does when the database does not fail. *)
Definition body_meets {A} (body : ptx (TxEnd A)) (s : spec A) (db : SqlitePlaylists) : Prop :=
  match s with
  | Ok (a, b) =>
      (exists db', body db = (Ok (Tx_commit a), db') /\ tables_wf db' /\ library db' = library db /\
                   book db' = b) \/
      (b = book db /\ exists after, body db = (Ok (Tx_rollback a), after))
  | Err e => exists after, body db = (Err e, after)
  end.

Lemma transaction_answers {A} (body : ptx (TxEnd A)) s db r db' :
  tables_wf db -> body_meets body s (next_fault db) ->
  playlist_transaction body db = (r, db') -> answers db s r db'.
Proof.
  intros Hwf Hbody. unfold playlist_transaction, answers, faultless.
  assert (forall after, tables_wf (restore db after) /\ library (restore db after) = library db /\
    book (restore db after) = book db) as Hrestore.
  { intros after. split_and!; [|done..]. by rewrite <- (same_restore db after). }
  assert (tables_wf (next_fault db)) as Hnext by (by rewrite <- (same_next_fault db)).
  unfold body_meets in Hbody. destruct s as [[a b]|e].
  - destruct Hbody as [(after & -> & Hafter & Hlib & Hbook)|(-> & after & ->)];
      destruct (Hrestore after) as (? & ? & ?); destruct (head (playlist_faults db)) as [[]|] eqn:Hf; intros [= <- <-];
      (split_and!; [done..|]);
      first [ left; split; [done|]; done
            | right; split; [split; [by intros [[=]|[=]]|by eexists]|]; first [by left|by right] ].
  - destruct Hbody as (after & ->); destruct (Hrestore after) as (? & ? & ?);
      destruct (head (playlist_faults db)) as [[]|] eqn:Hf; intros [= <- <-];
      (split_and!; [done..|]);
      first [ by left | right; split; [by intros [[=]|[=]]|by eexists] ].
Qed.

(** Running a body statement by statement. *)
Lemma run_bind {A B} (m : ptx A) (k : A -> ptx B) x db db1 :
  m db = (Ok x, db1) -> mbind k m db = k x db1.
Proof. unfold mbind, stateful_bind. by intros ->. Qed.
Lemma run_bind_err {A B} (m : ptx A) (k : A -> ptx B) e db db1 :
  m db = (Err e, db1) -> mbind k m db = (Err e, db1).
Proof. unfold mbind, stateful_bind. by intros ->. Qed.

Lemma answer_with_answers {A} (f : A -> PlaylistAnswer) (m : ptx A) (s : spec A) db r db' :
  (forall r db', m db = (r, db') -> answers db s r db') ->
  answer_with f m db = (r, db') ->
  answers db (prod_map f (fun b => b) <$> s) r db'.
Proof.
  intros Hm. unfold answer_with, mbind, stateful_bind. destruct (m db) as [r0 db0] eqn:Hrun.
  specialize (Hm _ _ eq_refl). destruct Hm as (Hwf & Hlib & Hm).
  destruct r0 as [a|e]; intros [= <- <-]; (split_and!; [done..|]); destruct s as [[a' b]|e']; cbn in *.
  - destruct Hm as [([= ->] & ?)|((_ & ? & [=]) & _)]. by left.
  - destruct Hm as [_ [[=]|(_ & ? & [=])]].
  - destruct Hm as [([=] & ?)|((? & cause & [= ->]) & ?)]. right. split; [|done]. split; [done|by eexists].
  - destruct Hm as [? [[= ->]|(? & cause & [= ->])]]; split; [done|by left|done|].
    right. split; [done|by eexists].
Qed.

(* ------------------------------------------------------------------ *)
(** ** The operations *)

#[local] Ltac step H := rewrite (run_bind _ _ _ _ _ H); cbv beta iota.

Lemma create_answers request db r db' :
  tables_wf db -> create_playlist request db = (r, db') ->
  let fresh := next_playlist_id (playlists_table db) in
  let row := mkPlaylistRow fresh (create_name request) (create_mode_id request)
               (create_category request) "" None None (Some (now db)) (Some (now db)) in
  answers db (Ok (record_of row, <[fresh := (row, [])]> (book db))) r db'.
Proof.
  intros Hwf Hrun. eapply transaction_answers; [done| |exact Hrun]. left.
  assert (tables_wf (next_fault db)) as Hnext by (by rewrite <- (same_next_fault db)).
  destruct (insert_playlist request (next_fault db)) as [[id|] db1] eqn:Hins; [|by unfold insert_playlist in Hins].
  destruct (insert_playlist_spec _ _ _ _ Hnext Hins) as (Hwf1 & Hlib & -> & Hbook).
  exists db1. split_and!; [|done..]. step Hins.
  rewrite (run_bind _ _ _ _ _ (load_playlist_book _ _ Hwf1)). rewrite Hbook, lookup_insert_eq. done.
Qed.

Lemma filter_perm {A} (p : A -> bool) (l k : list A) :
  l ≡ₚ k -> List.filter p l ≡ₚ List.filter p k.
Proof.
  induction 1 as [|x l k _ IH|x y l|l k m _ IH1 _ IH2]; cbn; [done|..|by etrans].
  - destruct (p x); by rewrite ?IH.
  - destruct (p x), (p y); try done. constructor.
Qed.

Lemma book_rows db :
  tables_wf db -> ((fun entry => entry.2.1) <$> map_to_list (book db)) ≡ₚ playlists_table db.
Proof.
  intros Hwf. unfold book. rewrite map_to_list_to_map.
  - rewrite <- list_fmap_compose. cbn. by rewrite list_fmap_id.
  - rewrite <- list_fmap_compose. cbn. apply Hwf.
Qed.

Lemma newer_playlist_total : Total newer_playlist.
Proof. intros a b. unfold newer_playlist. lia. Qed.
Lemma newer_playlist_trans : Transitive newer_playlist.
Proof. intros a b c. unfold newer_playlist. lia. Qed.

Lemma list_answers filter db r db' :
  tables_wf db -> list_playlists filter db = (r, db') ->
  answers db (Ok (record_of <$> merge_sort newer_playlist
    (List.filter (filter_admits filter) ((fun entry => entry.2.1) <$> map_to_list (book db))), book db))
    r db'.
Proof.
  intros Hwf Hrun. pose proof newer_playlist_total. pose proof newer_playlist_trans.
  assert (tables_wf (next_fault db)) as Hnext by (by rewrite <- (same_next_fault db)).
  eapply transaction_answers; [done| |exact Hrun]. left.
  exists (next_fault db). split_and!; [|done..]. unfold mbind, stateful_bind, gets, try, mret, stateful_ret.
  assert (merge_sort newer_playlist (List.filter (filter_admits filter) (playlists_table db))
    = merge_sort newer_playlist
        (List.filter (filter_admits filter) ((fun entry => entry.2.1) <$> map_to_list (book db)))) as Hsort.
  { apply (merge_sort_canonical newer_playlist playlists_id).
    - intros a b. unfold newer_playlist. lia.
    - eapply sublist_NoDup; [apply (wf_playlist_ids _ Hwf)|]. apply fmap_sublist, filter_sublist.
    - apply filter_perm. by rewrite book_rows. }
  cbn [playlists_table next_fault]. rewrite <- Hsort.
  rewrite (result_collect_ok _ record_of).
  - done.
  - intros row Hrow. rewrite merge_sort_Permutation in Hrow.
    apply list_elem_of_In, filter_In in Hrow as [Hrow%list_elem_of_In _].
    pose proof (wf_playlist_dates _ Hwf) as Hall. rewrite Forall_forall in Hall.
    destruct (Hall _ Hrow). by apply playlist_from_row_ok.
Qed.

Lemma get_answers id db r db' :
  tables_wf db -> get_playlist id db = (r, db') ->
  answers db (Ok (record_of ∘ fst <$> book db !! id, book db)) r db'.
Proof.
  intros Hwf Hrun. assert (tables_wf (next_fault db)) as Hnext by (by rewrite <- (same_next_fault db)).
  eapply transaction_answers; [done| |exact Hrun]. left.
  exists (next_fault db). split_and!; [|done..].
  by step (load_playlist_book id _ Hnext).
Qed.

(** A body that answers without touching the tables. *)
Lemma commit_unchanged {A} (a : A) b db :
  tables_wf db -> b = book db -> body_meets (mret (Tx_commit a)) (Ok (a, b)) db.
Proof. intros Hwf ->. left. by exists db. Qed.
Lemma rollback_unchanged {A} (a : A) b db :
  b = book db -> body_meets (mret (Tx_rollback a)) (Ok (a, b)) db.
Proof. intros ->. right. split; [done|]. by eexists. Qed.

Lemma body_bind {A B} (m : ptx B) (k : B -> ptx (TxEnd A)) s x db :
  m db = (Ok x, db) -> body_meets (k x) s db -> body_meets (mbind k m) s db.
Proof. intros Hm. unfold body_meets. by rewrite (run_bind _ _ _ _ _ Hm). Qed.

Lemma body_try {A B} (o : result LibraryStorageError B) (k : B -> ptx (TxEnd A)) (s : B -> spec A) db :
  (forall x, o = Ok x -> body_meets (k x) (s x) db) ->
  body_meets (x ← try o; k x) (mbind (M := result LibraryStorageError) s o) db.
Proof.
  destruct o as [x|e]; intros Hk.
  - by apply (body_bind _ _ _ x), Hk.
  - by exists db.
Qed.

(** The body commits answer [a] with book [b]. *)
Definition commits {A} (body : ptx (TxEnd A)) (a : A) (b : Book) (db : SqlitePlaylists) : Prop :=
  exists db', body db = (Ok (Tx_commit a), db') /\ tables_wf db' /\ library db' = library db /\
              book db' = b.

(** Updating a listed playlist and reading it back. *)
Lemma commits_update {A} id set row ids (k : nat -> ptx (TxEnd A)) a b db :
  tables_wf db -> updates set -> book db !! id = Some (row, ids) ->
  (forall db1, tables_wf db1 -> book db1 = <[id := (set (now db) row, ids)]> (book db) ->
     commits (k 1%nat) a b db1) ->
  commits (n ← update_playlist id set; k n) a b db.
Proof.
  intros Hwf Hset Hid Hk. unfold commits.
  destruct (update_playlist id set db) as [[n|] db1] eqn:Hup; [|done].
  apply update_playlist_spec in Hup as Hspec; [|done..]. rewrite Hid in Hspec.
  destruct Hspec as (Hwf1 & Hlib & -> & Hbook). rewrite (run_bind _ _ _ _ _ Hup).
  destruct (Hk db1 Hwf1 Hbook) as (db2 & ? & ? & Hlib2 & ?). exists db2. by rewrite Hlib2.
Qed.

Lemma commits_load {A} id row ids (k : option PlaylistRecord -> ptx (TxEnd A)) a b db :
  tables_wf db -> book db !! id = Some (row, ids) -> commits (k (Some (record_of row))) a b db ->
  commits (loaded ← load_playlist id; k loaded) a b db.
Proof.
  intros Hwf Hid Hk. unfold commits. rewrite (run_bind _ _ _ _ _ (load_playlist_book id db Hwf)).
  by rewrite Hid.
Qed.

Lemma commits_mret {A} (a : A) b db :
  tables_wf db -> book db = b -> commits (mret (Tx_commit a)) a b db.
Proof. intros Hwf <-. by exists db. Qed.

(** Replacing the items of a listed playlist. *)
Lemma body_replace {A} id row ids track_ids (k : ptx (TxEnd A)) a b db :
  tables_wf db -> book db !! id = Some (row, ids) ->
  (forall t, t ∈ track_ids -> t ∈ tracks_id <$> tracks_table (library db)) ->
  (N.of_nat (length track_ids) <= MAX_PLAYLIST_ITEMS)%N ->
  (forall db1, tables_wf db1 -> playlist_clock db1 = playlist_clock db ->
     book db1 = <[id := (row, track_ids)]> (book db) ->
     commits (k) a b db1) ->
  body_meets (_ ← replace_items id track_ids; k) (Ok (a, b)) db.
Proof.
  intros Hwf Hid Htracks Hlen Hk. left.
  assert (id ∈ playlists_id <$> playlists_table db) as Hlisted.
  { apply book_lookup_Some in Hid as (_ & Hin & <- & _). by apply list_elem_of_fmap_2. }
  rewrite (run_bind _ _ _ _ _ (replace_items_ok id track_ids db Hwf Hlisted Htracks Hlen)).
  destruct (Hk (set_items (replaced id track_ids (items_table db)) db)) as (db2 & ? & ? & ? & ?);
    [by apply tables_wf_replaced|done|by eapply book_replaced|]. by exists db2.
Qed.

Lemma items_in_library id db t :
  tables_wf db -> t ∈ items_of id (items_table db) -> t ∈ tracks_id <$> tracks_table (library db).
Proof.
  intros Hwf (row & -> & Hrow)%list_elem_of_fmap. unfold ordered_items in Hrow.
  rewrite merge_sort_Permutation in Hrow. apply list_elem_of_In, filter_In in Hrow as [Hrow _].
  pose proof (wf_item_tracks _ Hwf) as Hall. rewrite Forall_forall in Hall.
  by apply Hall, list_elem_of_In.
Qed.

#[local] Ltac begin Hwf Hrun :=
  let Hnext := fresh "Hnext" in
  match type of Hwf with tables_wf ?db =>
    assert (tables_wf (next_fault db)) as Hnext by (by rewrite <- (same_next_fault db))
  end;
  eapply transaction_answers; [exact Hwf| |exact Hrun];
  try (eapply body_bind; [exact (load_playlist_book _ _ Hnext)|]);
  try match type of Hwf with tables_wf ?db => change (book (next_fault db)) with (book db) end.

Lemma update_answers id patch db r db' :
  tables_wf db -> update_names id patch db = (r, db') ->
  answers db (spec_update id patch (now db) (book db)) r db'.
Proof.
  intros Hwf Hrun. begin Hwf Hrun. unfold spec_update.
  destruct (book db !! id) as [[row ids]|] eqn:Hid; [|by apply rollback_unchanged].
  cbn [fmap option_fmap option_map compose fst record_of playlist_name playlist_mode_id playlist_category].
  set (mode_id := match patch_mode_id patch with Unchanged => _ | Set_to _ => _ end).
  destruct (bool_decide_reflect ((playlists_name row, playlists_mode_id row, playlists_category row)
    = (patched (patch_name patch) (playlists_name row), mode_id,
       patched (patch_category patch) (playlists_category row)))) as [Heq|Hne].
  - rewrite bool_decide_false by (by intros Hne; apply Hne). by apply commit_unchanged.
  - rewrite bool_decide_true by done. left.
    eapply commits_update; [done|apply set_names_updates|exact Hid|]. intros db1 Hwf1 Hbook.
    eapply commits_load; [done|by rewrite Hbook, lookup_insert_eq|]. by apply commits_mret.
Qed.

Lemma delete_answers id db r db' :
  tables_wf db -> delete_playlist id db = (r, db') ->
  answers db (Ok (bool_decide (is_Some (book db !! id)), delete id (book db))) r db'.
Proof.
  intros Hwf Hrun. begin Hwf Hrun. left. eexists. split_and!.
  - unfold mbind, stateful_bind, mret, stateful_ret. cbn [playlists_table next_fault].
    rewrite (listed_count id db Hwf). by destruct (decide _); case_bool_decide.
  - split; cbn [items_table playlists_table library set_items set_playlists next_fault]; try apply Hwf.
    + eapply sublist_NoDup; [apply (wf_playlist_ids _ Hwf)|]. apply fmap_sublist, filter_sublist.
    + apply filter_Forall, Hwf.
    + eapply sublist_NoDup; [apply (wf_item_keys _ Hwf)|]. apply fmap_sublist, filter_sublist.
    + apply Forall_forall. intros row [Hin Hne]%list_elem_of_In%filter_In.
      pose proof (wf_item_playlists _ Hwf) as Hall. rewrite Forall_forall in Hall.
      apply list_elem_of_In, Hall in Hin. apply list_elem_of_fmap in Hin as (other & Heq & Hother).
      unfold item_of in Hne. apply negb_true_iff, Z.eqb_neq in Hne. rewrite Heq.
      apply list_elem_of_fmap_2, list_elem_of_In, filter_In. split; [by apply list_elem_of_In|].
      unfold row_has_id. apply negb_true_iff, Z.eqb_neq. congruence.
    + apply filter_Forall, Hwf.
    + intros id'. pose proof (wf_capacity _ Hwf id') as Hcap.
      enough (length (items_of id' (List.filter (fun row => negb (item_of id row)) (items_table db)))
              <= length (items_of id' (items_table db)))%nat by lia.
      unfold items_of, ordered_items. rewrite !length_fmap, !(Permutation_length (merge_sort_Permutation _ _)).
      generalize (items_table db). clear. intros l.
      induction l as [|x l IH]; cbn; [done|].
      destruct (item_of id x), (item_of id' x) eqn:Hx; cbn; rewrite ?Hx; cbn; lia.
  - done.
  - apply map_eq. intros id'. rewrite !book_lookup.
    cbn [items_table playlists_table set_items set_playlists next_fault]. rewrite find_filter_rows.
    destruct (decide (id' = id)) as [->|Hne]; [by rewrite lookup_delete_eq|].
    rewrite lookup_delete_ne, book_lookup by done.
    destruct (List.find (row_has_id id') _) as [row|] eqn:Hf; [|done]. cbn. f_equal. unfold listing.
    apply find_row_id in Hf as [_ Hid']. f_equal. unfold items_of, ordered_items.
    rewrite filter_twice; [done|]. intros other _ Hother. unfold item_of in *.
    apply Z.eqb_eq in Hother. apply negb_true_iff, Z.eqb_neq. congruence.
Qed.

Lemma items_answers id db r db' :
  tables_wf db -> list_items id db = (r, db') ->
  answers db (spec_items id (library db) (book db)) r db'.
Proof.
  intros Hwf Hrun. begin Hwf Hrun. unfold spec_items.
  destruct (book db !! id) as [[row ids]|] eqn:Hid; [|by apply rollback_unchanged].
  apply book_lookup_Some in Hid as Hlisted. destruct Hlisted as (_ & Hin & Hrow & Hids).
  cbn [fmap option_fmap option_map compose fst].
  eapply body_bind; [apply (ordered_track_ids_ok id _ Hnext)|].
  cbn [items_table next_fault]. rewrite <- Hids.
  assert (exists db1, repack_items_if_needed id ids (next_fault db) = (Ok (), db1) /\ tables_wf db1 /\
    library db1 = library db /\ book db1 = book db) as (db1 & Hrepack & Hwf1 & Hlib & Hbook).
  { unfold repack_items_if_needed, gets, mbind, stateful_bind.
    destruct (contiguous_from _ _); [by exists (next_fault db)|].
    assert (forall t, t ∈ ids -> t ∈ tracks_id <$> tracks_table (library db)) as Htracks.
    { intros t Ht. rewrite Hids in Ht. by eapply items_in_library. }
    assert ((N.of_nat (length ids) <= MAX_PLAYLIST_ITEMS)%N) as Hlen
      by (rewrite Hids; apply (wf_capacity _ Hwf)).
    assert (id ∈ playlists_id <$> playlists_table db) as Hlisted
      by (rewrite <- Hrow; by apply list_elem_of_fmap_2).
    rewrite replace_items_ok by done. eexists. split; [done|].
    split; [by apply tables_wf_replaced|]. split; [done|].
    erewrite book_replaced by exact Hid. by apply insert_id. }
  destruct (tracks_among ids (library db)) as [tracks|e] eqn:Htracks.
  - left. exists db1. split_and!; [|done..]. step Hrepack.
    unfold load_tracks, gets, try, mbind, stateful_bind. rewrite Hlib, Htracks. done.
  - eexists. step Hrepack. unfold load_tracks, gets, try, mbind, stateful_bind.
    rewrite Hlib, Htracks. done.
Qed.

(** Committing new items. *)
Lemma replace_meets {A} id row ids track_ids (a : A) b db :
  tables_wf db -> book db !! id = Some (row, ids) -> b = <[id := (row, track_ids)]> (book db) ->
  (forall t, t ∈ track_ids -> t ∈ tracks_id <$> tracks_table (library db)) ->
  (N.of_nat (length track_ids) <= MAX_PLAYLIST_ITEMS)%N ->
  body_meets (_ ← replace_items id track_ids; mret (Tx_commit a))
    (Ok (a, b)) db.
Proof.
  intros Hwf Hid -> Htracks Hlen. eapply (body_replace id row ids track_ids (mret (Tx_commit a)));
    [done..|].
  intros db1 Hwf1 _ Hbook. by apply commits_mret.
Qed.

Lemma same_items id row ids (b : Book) : b !! id = Some (row, ids) -> <[id := (row, ids)]> b = b.
Proof. apply insert_id. Qed.

Lemma track_with_id_listed id tables track :
  track_with_id id tables = Ok (Some track) -> id ∈ tracks_id <$> tracks_table tables.
Proof.
  unfold track_with_id. destruct (List.find _ _) as [row|] eqn:Hf; [|done]. intros _.
  apply List.find_some in Hf as [Hin%list_elem_of_In Hid%Z.eqb_eq]. rewrite <- Hid.
  by apply list_elem_of_fmap_2.
Qed.

Lemma add_answers id track_id position db r db' :
  tables_wf db -> add_track id track_id position db = (r, db') ->
  answers db (spec_edit id (spec_insert track_id position (library db)) (book db)) r db'.
Proof.
  intros Hwf Hrun. begin Hwf Hrun. unfold spec_edit, spec_insert.
  destruct (book db !! id) as [[row ids]|] eqn:Hid; [|by apply rollback_unchanged].
  cbn [fmap option_fmap option_map compose fst].
  destruct (is_automatic (record_of row)); [by apply rollback_unchanged|].
  apply book_lookup_Some in Hid as Hlisted. destruct Hlisted as (_ & _ & _ & Hids).
  assert (load_track (TrackId_get track_id) (next_fault db)
    = (track_with_id (TrackId_get track_id) (library db), next_fault db)) as Hload by done.
  destruct (track_with_id (TrackId_get track_id) (library db)) as [[track|]|e] eqn:Htrack;
    cbn [mbind result_bind].
  - eapply body_bind; [exact Hload|].
    eapply body_bind; [apply (ordered_track_ids_ok id _ Hnext)|].
    cbn [items_table next_fault]. rewrite <- Hids.
    destruct (N.leb_spec MAX_PLAYLIST_ITEMS (N.of_nat (length ids)));
      [by apply rollback_unchanged, same_items|].
    destruct (_ <? _)%nat; [by apply rollback_unchanged, same_items|].
    apply (replace_meets id row ids); [done|done|done| |].
    + intros t [->|Ht]%elem_of_vec_insert; [by eapply track_with_id_listed|].
      rewrite Hids in Ht. by eapply items_in_library.
    + unfold vec_insert. rewrite length_app. cbn. rewrite length_take, length_drop. lia.
  - eapply body_bind; [exact Hload|]. by apply rollback_unchanged, same_items.
  - eexists. by rewrite (run_bind_err _ _ _ _ _ Hload).
Qed.

(** A change of the items keeps to the tracks that were there. *)
Definition keeps_tracks (change : list Z -> result (PlaylistMutation ()) (list Z)) : Prop :=
  forall ids ids', change ids = Ok ids' ->
  (forall t, t ∈ ids' -> t ∈ ids) /\ (length ids' <= length ids)%nat.

Lemma remove_position_keeps position : keeps_tracks (remove_position position).
Proof.
  intros ids ids'. unfold remove_position. destruct (Nat.leb_spec (length ids) position); [done|].
  intros [= <-]. split; [intros t; apply elem_of_vec_remove|].
  unfold vec_remove. rewrite length_app, length_take, length_drop. lia.
Qed.

Lemma move_position_keeps from to : keeps_tracks (move_position from to).
Proof.
  intros ids ids'. unfold move_position. destruct (_ || _) eqn:Hb; [done|].
  apply orb_false_iff in Hb as [Hfrom%Nat.leb_gt Hto%Nat.leb_gt].
  destruct (Nat.eqb_spec from to); [intros [= <-]; auto|].
  destruct (ids !! from) as [track_id|] eqn:Ht; intros [= <-]; [|auto]. split.
  - intros t [->|Hin]%elem_of_vec_insert; [by eapply list_elem_of_lookup_2|].
    by eapply elem_of_vec_remove.
  - unfold vec_insert, vec_remove. rewrite !length_app. cbn.
    rewrite !length_take, !length_drop, !length_app, !length_take, !length_drop. lia.
Qed.

Lemma mutate_answers id change db r db' :
  tables_wf db -> keeps_tracks change -> mutate_items id change db = (r, db') ->
  answers db (spec_edit id (spec_change change) (book db)) r db'.
Proof.
  intros Hwf Hkeeps Hrun. begin Hwf Hrun. unfold spec_edit, spec_change.
  destruct (book db !! id) as [[row ids]|] eqn:Hid; [|by apply rollback_unchanged].
  cbn [fmap option_fmap option_map compose fst].
  destruct (is_automatic (record_of row)); [by apply rollback_unchanged|].
  apply book_lookup_Some in Hid as Hlisted. destruct Hlisted as (_ & _ & _ & Hids).
  eapply body_bind; [apply (ordered_track_ids_ok id _ Hnext)|].
  cbn [items_table next_fault]. rewrite <- Hids.
  destruct (change ids) as [ids'|outcome] eqn:Hchange; [|by apply rollback_unchanged, same_items].
  apply Hkeeps in Hchange as [Hin Hlen]. apply (replace_meets id row ids); [done|done|done| |].
  - intros t Ht. apply Hin in Ht. rewrite Hids in Ht. by eapply items_in_library.
  - pose proof (wf_capacity _ Hwf id) as Hcap. rewrite <- Hids in Hcap. lia.
Qed.

Lemma source_answers sources db r db' :
  tables_wf db -> automatic_source sources db = (r, db') ->
  answers db (source ← source_of (library db); Ok (source, book db)) r db'.
Proof.
  intros Hwf Hrun. assert (tables_wf (next_fault db)) as Hnext by (by rewrite <- (same_next_fault db)).
  eapply transaction_answers; [done| |exact Hrun].
  assert (load_automatic_source sources (next_fault db) = (source_of (library db), next_fault db))
    as Hload by done.
  destruct (source_of (library db)) as [source|e].
  - eapply body_bind; [exact Hload|]. by apply commit_unchanged.
  - eexists. by rewrite (run_bind_err _ _ _ _ _ Hload).
Qed.

Lemma disable_answers id db r db' :
  tables_wf db -> disable_automatic id db = (r, db') ->
  answers db (Ok match book db !! id with
                 | None => (None, book db)
                 | Some (row, ids) =>
                     let row := set_automatic "" None false (now db) row in
                     (Some (record_of row), <[id := (row, ids)]> (book db))
                 end) r db'.
Proof.
  intros Hwf Hrun. assert (tables_wf (next_fault db)) as Hnext by (by rewrite <- (same_next_fault db)).
  eapply transaction_answers; [done| |exact Hrun].
  destruct (book db !! id) as [[row ids]|] eqn:Hid; left.
  - apply (commits_update id _ row ids _ _ _ (next_fault db)); [done|apply set_automatic_updates|done|].
    intros db1 Hwf1 Hbook. cbn [Nat.eqb].
    eapply commits_load; [done|by rewrite Hbook, lookup_insert_eq|]. by apply commits_mret.
  - destruct (update_playlist id (set_automatic "" None false) (next_fault db))
      as [[n|] db1] eqn:Hup; [|done].
    apply update_playlist_spec in Hup as Hspec; [|done|apply set_automatic_updates].
    change (book (next_fault db)) with (book db) in Hspec. rewrite Hid in Hspec.
    destruct Hspec as (Hwf1 & Hlib & -> & Hbook). exists db1. split_and!; [|done..]. by step Hup.
Qed.

(* ------------------------------------------------------------------ *)
(** ** Materialising a rule *)

Lemma source_of_ids tables source :
  source_of tables = Ok source ->
  (fun entry => TrackId_get (track_id (source_track entry))) <$> source
  = tracks_id <$> merge_sort track_id_le (tracks_table tables).
Proof.
  unfold source_of. intros (tracks & Htracks & Hsource)%bind_ok. injection Hsource as <-.
  apply result_collect_inv in Htracks. rewrite <- list_fmap_compose.
  revert tracks Htracks. induction (merge_sort track_id_le _) as [|row rows IH]; intros tracks Hall;
    inversion Hall as [|? track ? tracks' Hrow Hrest]; subst; [done|].
  cbn. apply indexed_track_id in Hrow. cbn in Hrow. by rewrite Hrow, IH.
Qed.

Lemma source_ids_NoDup tables source :
  NoDup (tracks_id <$> tracks_table tables) -> source_of tables = Ok source ->
  NoDup (source_ids source).
Proof.
  intros Hnd Hsource%source_of_ids. apply (NoDup_fmap_1 TrackId_get). unfold source_ids.
  rewrite <- list_fmap_compose. cbn.
  change (NoDup ((fun entry => TrackId_get (track_id (source_track entry))) <$> source)).
  rewrite Hsource. by rewrite merge_sort_Permutation.
Qed.

Definition resolved_ids (resolution : AutomaticPlaylistResolution) : list Z :=
  (fun track => TrackId_get (track_id track)) <$> resolution_tracks resolution.

Lemma resolved_ids_listed tables source rule resolution t :
  source_of tables = Ok source -> resolve_automatic_playlist rule source = Ok resolution ->
  t ∈ resolved_ids resolution -> t ∈ tracks_id <$> tracks_table tables.
Proof.
  intros Hsource Hres Ht. apply resolve_inv in Hres as (rule' & text & _ & _ & ->). revert Ht.
  unfold resolved_ids. cbn [resolution_tracks]. intros (track & -> & Htrack)%list_elem_of_fmap.
  assert (track ∈ candidates rule' source) as Hin by (by eapply elem_of_sublist; [|apply sublist_take]).
  apply elem_of_candidates in Hin as (entry & Hentry & <- & _).
  rewrite <- (merge_sort_Permutation track_id_le (tracks_table tables)), <- (source_of_ids _ _ Hsource).
  apply list_elem_of_fmap. by exists entry.
Qed.

Lemma resolution_length rule source resolution :
  resolve_automatic_playlist rule source = Ok resolution ->
  (length (resolution_tracks resolution) <= 1000)%nat.
Proof.
  intros (rule' & text & Hrule & _ & ->)%resolve_inv. cbn.
  apply normalized_ok in Hrule as [Hwf _]. pose proof (wf_maximum _ Hwf). rewrite length_take. lia.
Qed.

Lemma materialize_answers id rule expected force db r db' :
  tables_wf db -> materialize_automatic id rule expected force db = (r, db') ->
  answers db (spec_materialize id rule expected force (now db) (library db) (book db)) r db'.
Proof.
  intros Hwf Hrun. begin Hwf Hrun. unfold spec_materialize.
  destruct (book db !! id) as [[row ids]|] eqn:Hid; [|by apply rollback_unchanged].
  cbn [fmap option_fmap option_map compose fst].
  destruct (_ && _); [by apply rollback_unchanged|].
  assert (load_automatic_source (rule_tag_sources rule) (next_fault db)
    = (source_of (library db), next_fault db)) as Hload by done.
  destruct (source_of (library db)) as [source|e] eqn:Hsource; cbn [mbind result_bind];
    [eapply body_bind; [exact Hload|]|by eexists; rewrite (run_bind_err _ _ _ _ _ Hload)].
  apply body_try. intros resolution Hres%map_err_ok.
  destruct (match expected with Some _ => _ | None => _ end); [by apply rollback_unchanged|].
  destruct (_ && _); [by apply commit_unchanged|].
  assert (id ∈ playlists_id <$> playlists_table db) as Hlisted.
  { apply book_lookup_Some in Hid as (_ & Hin & <- & _). by apply list_elem_of_fmap_2. }
  assert (forall t, t ∈ resolved_ids resolution -> t ∈ tracks_id <$> tracks_table (library db)) as Hids
    by (intros t Ht; by eapply resolved_ids_listed).
  assert ((N.of_nat (length (resolved_ids resolution)) <= MAX_PLAYLIST_ITEMS)%N) as Hlen.
  { unfold resolved_ids. rewrite length_fmap. apply resolution_length in Hres.
    unfold MAX_PLAYLIST_ITEMS. lia. }
  destruct (rule_to_string rule) as [rule_json|cause] eqn:Hjson; cbn [map_err mbind result_bind].
  - eapply (body_replace id row ids); [done..|].
    intros db1 Hwf1 Hclock Hbook.
    assert (now db1 = now db) as Hnow by (unfold now; by rewrite Hclock).
    unfold commits, try at 1. unfold mbind at 1, stateful_bind at 1.
    eapply commits_update; [done|apply set_automatic_updates|by rewrite Hbook, lookup_insert_eq|].
    intros db2 Hwf2 Hbook2. rewrite Hnow in Hbook2.
    eapply commits_load; [done|by rewrite Hbook2, lookup_insert_eq|].
    apply commits_mret; [done|]. by rewrite Hbook2, Hbook, insert_insert_eq.
  - eexists. rewrite (run_bind _ _ _ _ _ (replace_items_ok id (resolved_ids resolution) _ Hnext
      Hlisted Hids Hlen)). done.
Qed.

(** C9: every operation of the repository acts on the book as specified, the
    tables stay well formed and the library is not touched. *)
Theorem repository_refines_book op db r db' :
  tables_wf db -> run_op op db = (r, db') ->
  exists fresh, (forall id, id ∈ dom (book db) -> id < fresh) /\
    answers db (spec_op op fresh (now db) (library db) (book db)) r db'.
Proof.
  intros Hwf Hrun. exists (next_playlist_id (playlists_table db)). split.
  { intros id Hid%elem_of_dom. apply next_playlist_id_fresh.
    destruct (decide (id ∈ playlists_id <$> playlists_table db)) as [|Hn]; [done|].
    apply book_lookup_None in Hn. rewrite Hn in Hid. by destruct Hid. }
  destruct op; cbn [run_op spec_op] in *.
  - exact (answer_with_answers _ _ (Ok (_, _)) _ _ _ (fun r db' => create_answers _ _ r db' Hwf) Hrun).
  - exact (answer_with_answers _ _ (Ok (_, _)) _ _ _ (fun r db' => list_answers _ _ r db' Hwf) Hrun).
  - exact (answer_with_answers _ _ (Ok (_, _)) _ _ _ (fun r db' => get_answers _ _ r db' Hwf) Hrun).
  - exact (answer_with_answers _ _ _ _ _ _ (fun r db' => update_answers _ _ _ r db' Hwf) Hrun).
  - exact (answer_with_answers _ _ (Ok (_, _)) _ _ _ (fun r db' => delete_answers _ _ r db' Hwf) Hrun).
  - exact (answer_with_answers _ _ _ _ _ _ (fun r db' => items_answers _ _ r db' Hwf) Hrun).
  - exact (answer_with_answers _ _ _ _ _ _ (fun r db' => add_answers _ _ _ _ r db' Hwf) Hrun).
  - exact (answer_with_answers _ _ _ _ _ _
      (fun r db' => mutate_answers _ _ _ r db' Hwf (remove_position_keeps _)) Hrun).
  - exact (answer_with_answers _ _ _ _ _ _
      (fun r db' => mutate_answers _ _ _ r db' Hwf (move_position_keeps _ _)) Hrun).
  - pose proof (answer_with_answers _ _ _ _ _ _ (fun r db' => source_answers _ _ r db' Hwf) Hrun) as Ha.
    by destruct (source_of (library db)).
  - exact (answer_with_answers _ _ _ _ _ _ (fun r db' => materialize_answers _ _ _ _ _ r db' Hwf) Hrun).
  - pose proof (answer_with_answers _ _ _ _ _ _ (fun r db' => disable_answers _ _ r db' Hwf) Hrun) as Ha.
    by destruct (book db !! id) as [[row ids]|].
Qed.

End Refinement.
