(* ===== verification/PlaylistServiceSpec.v ===== *)
(** * The playlist service

    What the service's answers mean, proved on the repository over the tables:
    an automatic playlist is served as its rule's resolution against the library
    of the moment, although it is only materialised again when the signature of
    its source changed, and a configured rule is applied exactly as it was
    previewed. *)

From S2P Require Import Prelude Text Library PlaybackState MediaPath Store JobStore.
From S2P Require Import RecoveryJournal Playlists PlaylistsSpec PlaylistStore PlaylistStoreSpec.
From S2P Require Import PlaylistBook.

#[local] Open Scope string_scope.
#[local] Open Scope Z_scope.
#[local] Open Scope list_scope.

(** No JSON value has an empty text. *)
Class JsonTextEof `{JsonText} : Prop := {
  value_from_str_eof : exists e, value_from_str "" = Err e
}.

Definition library_ids (tables : LibraryTables) : list Z := tracks_id <$> tracks_table tables.

(** Tracks that two states of the library share were added at one time. *)
Definition same_ages (tables tables' : LibraryTables) : Prop := forall row row',
  row ∈ tracks_table tables -> row' ∈ tracks_table tables' -> tracks_id row = tracks_id row' ->
  tracks_added_at row = tracks_added_at row'.

(** A change of the library that brings in no id that was in use before. *)
Record library_change (seen : gset Z) (tables tables' : LibraryTables) : Prop := mkLibraryChange {
  change_unique : NoDup (library_ids tables');
  change_fresh : forall t, t ∈ library_ids tables' -> t ∈ library_ids tables \/ t ∉ seen;
  change_ages : same_ages tables tables'
}.

Section Service.
Context `{!SqliteClock, !Unicode, !JsonText, !Sha256}.

Lemma answers_ok {A} db (s : spec A) a db' :
  answers db s (Ok a) db' ->
  tables_wf db' /\ library db' = library db /\ exists b, s = Ok (a, b) /\ book db' = b.
Proof.
  intros (Hwf & Hlib & Hs). split_and!; [done..|]. destruct s as [[a' b]|e].
  - destruct Hs as [([= ->] & ?)|((_ & ? & [=]) & _)]. by exists b.
  - destruct Hs as [_ [[=]|(_ & ? & [=])]].
Qed.

(** Any answer leaves the old book or the specified one. *)
Lemma answers_book {A} db (s : spec A) r db' :
  answers db s r db' -> book db' = book db \/ exists a, s = Ok (a, book db').
Proof.
  intros (_ & _ & Hs). destruct s as [[a b]|e].
  - destruct Hs as [(_ & <-)|(_ & [?|<-])]; eauto.
  - destruct Hs; auto.
Qed.

Lemma dependency_ok {A} (m : ptx A) db a db' :
  dependency m db = (Ok a, db') <-> m db = (Ok a, db').
Proof.
  unfold dependency. destruct (m db) as [r st]. split.
  - intros [= Hr <-]. by apply map_err_ok in Hr as ->.
  - by intros [= -> ->].
Qed.

Lemma try_run_ok {S E A} (o : result E A) (s : S) a s' : try o s = (Ok a, s') -> o = Ok a /\ s' = s.
Proof. by intros [= -> ->]. Qed.

Lemma ok_or_run {E A} (e : E) (o : option A) a : ok_or e o = Ok a -> o = Some a.
Proof. destruct o; naive_solver. Qed.

Lemma service_get_ok id db playlist db' :
  tables_wf db -> service_get id db = (Ok playlist, db') ->
  tables_wf db' /\ library db' = library db /\ book db' = book db /\
  exists row ids, book db !! id = Some (row, ids) /\ playlist = record_of row.
Proof.
  intros Hwf. unfold service_get. intros (found & db1 & Hget & Hfound)%stateful_bind_ok.
  apply try_run_ok in Hfound as [Hfound%ok_or_run ->]. subst found.
  apply dependency_ok in Hget. apply (get_answers _ _ _ _ Hwf) in Hget.
  apply answers_ok in Hget as (Hwf1 & Hlib & b & Hb & Hbook).
  injection Hb as Hrow <-. split_and!; [done..|].
  destruct (book db !! id) as [[row ids]|]; [|done]. injection Hrow as <-. eauto.
Qed.

(* ------------------------------------------------------------------ *)
(** ** Materialised playlists *)

(** The items of an automatic playlist with a signature: what its stored rule
    resolved to against an earlier state of the library, less the tracks that
    have left it since. *)
Definition materialized_from (seen : gset Z) (db : SqlitePlaylists) (row : PlaylistRow) (ids : list Z)
    (signature : string) : Prop :=
  exists rule tables source resolution,
    rule_to_string rule = Ok (playlists_automatic_rule_json row) /\
    NoDup (library_ids tables) /\ (forall t, t ∈ library_ids tables -> t ∈ seen) /\
    source_of tables = Ok source /\ resolve_automatic_playlist rule source = Ok resolution /\
    resolution_source_signature resolution = signature /\
    ids = List.filter (fun t => bool_decide (t ∈ library_ids (library db))) (resolved_ids resolution) /\
    same_ages tables (library db).

Record materialized (seen : gset Z) (db : SqlitePlaylists) : Prop := mkMaterialized {
  mat_wf : tables_wf db;
  mat_seen : forall t, t ∈ library_ids (library db) -> t ∈ seen;
  mat_items : forall id row ids signature,
    book db !! id = Some (row, ids) ->
    playlists_automatic_source_signature row = Some signature ->
    is_automatic (record_of row) = true /\ materialized_from seen db row ids signature
}.

(** The steps between two requests. *)
Inductive PlaylistEvent : Type :=
| Event_op (op : PlaylistOp)
| Event_library (tables : LibraryTables).

Definition run_event (event : PlaylistEvent) (db : SqlitePlaylists) : SqlitePlaylists :=
  match event with
  | Event_op op => (run_op op db).2
  | Event_library tables => replace_library tables db
  end.

(** The ids in use so far. *)
Definition seen_after (event : PlaylistEvent) (seen : gset Z) : gset Z :=
  match event with
  | Event_op _ => seen
  | Event_library tables => seen ∪ list_to_set (library_ids tables)
  end.

Fixpoint run_events (events : list PlaylistEvent) (db : SqlitePlaylists) : SqlitePlaylists :=
  match events with
  | [] => db
  | event :: events => run_events events (run_event event db)
  end.

(** Every library change of the events keeps to fresh ids. *)
Fixpoint events_fresh (seen : gset Z) (events : list PlaylistEvent) (db : SqlitePlaylists) : Prop :=
  match events with
  | [] => True
  | event :: events =>
      match event with
      | Event_op _ => True
      | Event_library tables => library_change seen (library db) tables
      end /\
      events_fresh (seen_after event seen) events (run_event event db)
  end.

Fixpoint seen_after_all (events : list PlaylistEvent) (seen : gset Z) : gset Z :=
  match events with
  | [] => seen
  | event :: events => seen_after_all events (seen_after event seen)
  end.

Lemma same_ages_refl tables : NoDup (library_ids tables) -> same_ages tables tables.
Proof.
  intros Hnd row row' Hrow Hrow' Hid.
  apply list_elem_of_lookup in Hrow as [i Hi], Hrow' as [j Hj].
  assert (i = j) as ->; [|congruence].
  eapply (NoDup_lookup (library_ids tables)); [done|by unfold library_ids; rewrite list_lookup_fmap, Hi|].
  unfold library_ids. rewrite list_lookup_fmap, Hj. cbn. by rewrite Hid.
Qed.

Lemma filter_listed tables l :
  (forall t, t ∈ l -> t ∈ library_ids tables) ->
  List.filter (fun t => bool_decide (t ∈ library_ids tables)) l = l.
Proof. intros Hl. apply filter_all. intros t Ht. apply bool_decide_true. auto. Qed.

(** Changing the items of a playlist that no rule manages. *)
Lemma spec_edit_cases {A} id edit (b b' : Book) (outcome : PlaylistMutation A) :
  spec_edit id edit b = Ok (outcome, b') ->
  b' = b \/ exists row ids ids', b !! id = Some (row, ids) /\ is_automatic (record_of row) = false /\
            b' = <[id := (row, ids')]> b.
Proof.
  unfold spec_edit. destruct (b !! id) as [[row ids]|] eqn:Hid; [|by intros [= _ <-]; left].
  destruct (is_automatic _) eqn:Hauto; [by intros [= _ <-]; left|].
  intros ([outcome' ids'] & Hedit & [= _ <-])%bind_ok. right. by exists row, ids, ids'.
Qed.

Context `{!JsonTextSpec, !JsonTextEof}.

Lemma rule_text_nonempty rule text : rule_to_string rule = Ok text -> text <> "".
Proof.
  intros Htext ->. apply value_from_str_to_string in Htext.
  destruct value_from_str_eof as [e He]. congruence.
Qed.

(** Where a playlist of the next book comes from: it is as it was, has no
    signature, has new names only, has new items under no rule, or was
    materialised. *)
Definition listing_step (tables : LibraryTables) (b : Book) (id : Z) (row : PlaylistRow)
    (ids : list Z) : Prop :=
  b !! id = Some (row, ids) \/
  playlists_automatic_source_signature row = None \/
  (exists row0, b !! id = Some (row0, ids) /\
     playlists_automatic_rule_json row = playlists_automatic_rule_json row0 /\
     playlists_automatic_source_signature row = playlists_automatic_source_signature row0) \/
  (exists ids0, b !! id = Some (row, ids0) /\ is_automatic (record_of row) = false) \/
  (exists rule source resolution,
     rule_to_string rule = Ok (playlists_automatic_rule_json row) /\
     source_of tables = Ok source /\ resolve_automatic_playlist rule source = Ok resolution /\
     playlists_automatic_source_signature row = Some (resolution_source_signature resolution) /\
     ids = resolved_ids resolution).

Lemma insert_change (b : Book) id id' v row ids :
  <[id := v]> b !! id' = Some (row, ids) ->
  (id' = id /\ v = (row, ids)) \/ b !! id' = Some (row, ids).
Proof.
  destruct (decide (id' = id)) as [->|Hne].
  - rewrite lookup_insert_eq. intros [= ->]. by left.
  - rewrite lookup_insert_ne by done. by right.
Qed.

Lemma spec_op_change op fresh at_ tables (b b' : Book) answer id row ids :
  spec_op op fresh at_ tables b = Ok (answer, b') -> b' !! id = Some (row, ids) ->
  listing_step tables b id row ids.
Proof.
  unfold listing_step. assert (forall A (edit : list Z -> _) (id0 : Z) (outcome : PlaylistMutation A),
    spec_edit id0 edit b = Ok (outcome, b') -> b' !! id = Some (row, ids) ->
    b !! id = Some (row, ids) \/
    exists ids0, b !! id = Some (row, ids0) /\ is_automatic (record_of row) = false) as Hedit.
  { intros A edit id0 outcome [->|(row0 & ids0 & ids' & Hid & Hauto & ->)]%spec_edit_cases; [by left|].
    intros [[-> [= -> ->]]|?]%insert_change; [right; by exists ids0|by left]. }
  destruct op; cbn [spec_op]; intros Hspec Hrow.
  - injection Hspec as _ <-. apply insert_change in Hrow as [[-> [= <- <-]]|?]; [|by left]. by right; left.
  - injection Hspec as _ <-. by left.
  - injection Hspec as _ <-. by left.
  - unfold spec_update in Hspec. destruct (b !! id0) as [[row0 ids0]|] eqn:Hid;
      [|injection Hspec as _ <-; by left].
    case_bool_decide; injection Hspec as _ <-; [by left|].
    apply insert_change in Hrow as [[-> [= <- <-]]|?]; [|by left]. right; right; left. by exists row0.
  - injection Hspec as _ <-. apply lookup_delete_Some in Hrow as [_ ?]. by left.
  - unfold spec_items in Hspec. destruct (b !! id0) as [[row0 ids0]|]; [|injection Hspec as _ <-; by left].
    destruct (tracks_among _ _); [|done]. injection Hspec as _ <-. by left.
  - destruct (spec_edit _ _ _) as [[outcome b'']|] eqn:Hs; [|done]. injection Hspec as _ ->.
    destruct (Hedit _ _ _ _ Hs Hrow) as [?|?]; auto.
  - destruct (spec_edit _ _ _) as [[outcome b'']|] eqn:Hs; [|done]. injection Hspec as _ ->.
    destruct (Hedit _ _ _ _ Hs Hrow) as [?|?]; auto.
  - destruct (spec_edit _ _ _) as [[outcome b'']|] eqn:Hs; [|done]. injection Hspec as _ ->.
    destruct (Hedit _ _ _ _ Hs Hrow) as [?|?]; auto.
  - destruct (source_of tables); [|done]. injection Hspec as _ <-. by left.
  - unfold spec_materialize in Hspec. destruct (b !! id0) as [[row0 ids0]|] eqn:Hid;
      [|injection Hspec as _ <-; by left].
    destruct (_ && _); [injection Hspec as _ <-; by left|].
    destruct (source_of tables) as [source|] eqn:Hsource; [|done]. cbn [mbind result_bind] in Hspec.
    destruct (resolve_automatic_playlist rule source) as [resolution|] eqn:Hres; [|done].
    cbn [mbind result_bind map_err] in Hspec.
    destruct (match expected with Some _ => _ | None => _ end); [injection Hspec as _ <-; by left|].
    destruct (_ && _); [injection Hspec as _ <-; by left|].
    destruct (rule_to_string rule) as [text|] eqn:Htext; [|done]. injection Hspec as _ <-.
    apply insert_change in Hrow as [[-> [= <- <-]]|?]; [|by left].
    right; right; right; right. by exists rule, source, resolution.
  - destruct (b !! id0) as [[row0 ids0]|] eqn:Hid; injection Hspec as _ <-; [|by left].
    apply insert_change in Hrow as [[-> [= <- <-]]|?]; [|by left]. by right; left.
Qed.

Lemma materialized_op seen op db r db' :
  materialized seen db -> run_op op db = (r, db') -> materialized seen db'.
Proof.
  intros [Hwf Hseen Hitems] Hrun.
  destruct (repository_refines_book op db r db' Hwf Hrun) as (fresh & _ & Hans).
  pose proof Hans as (Hwf' & Hlib & _).
  split; [done|by rewrite Hlib|].
  intros id row ids signature Hid Hsig.
  assert (materialized_from seen db row ids signature -> materialized_from seen db' row ids signature)
    as Hmove by (unfold materialized_from; by rewrite Hlib).
  apply answers_book in Hans as [Hbook|[answer Hspec]].
  { rewrite Hbook in Hid. destruct (Hitems _ _ _ _ Hid Hsig). auto. }
  destruct (spec_op_change _ _ _ _ _ _ _ _ _ _ Hspec Hid)
    as [Hold|[Hnone|[(row0 & Hold & Hjson & Hsame)|[(ids0 & Hold & Hauto)|
         (rule & source & resolution & Htext & Hsource & Hres & Hs & ->)]]]].
  - destruct (Hitems _ _ _ _ Hold Hsig). auto.
  - congruence.
  - rewrite Hsig in Hsame. destruct (Hitems _ _ _ _ Hold (eq_sym Hsame)) as [Hauto Hmat].
    unfold is_automatic in *. cbn in *. rewrite Hjson. split; [done|]. apply Hmove.
    unfold materialized_from in *. by rewrite Hjson.
  - destruct (Hitems _ _ _ _ Hold Hsig). congruence.
  - rewrite Hsig in Hs. injection Hs as ->. split.
    + unfold is_automatic. cbn. apply rule_text_nonempty in Htext. by destruct (String.eqb_spec (playlists_automatic_rule_json row) "").
    + apply Hmove. exists rule, (library db), source, resolution.
      pose proof (wf_track_ids _ Hwf) as Hnd. split_and!; try done.
      * rewrite filter_listed; [done|]. intros t Ht. by eapply resolved_ids_listed.
      * by apply same_ages_refl.
Qed.

(* ------------------------------------------------------------------ *)
(** ** Library changes *)

Definition row_listed (tables : LibraryTables) (row : ItemRow) : bool :=
  existsb (fun track => tracks_id track =? items_track_id row) (tracks_table tables).

Lemma row_listed_spec tables row :
  row_listed tables row = bool_decide (items_track_id row ∈ library_ids tables).
Proof.
  apply eq_true_iff_eq. unfold row_listed. rewrite existsb_exists, bool_decide_eq_true. unfold library_ids.
  rewrite list_elem_of_fmap. setoid_rewrite <- list_elem_of_In. setoid_rewrite Z.eqb_eq. naive_solver.
Qed.

Lemma filter_fmap {A B} (f : A -> B) (q : B -> bool) l :
  f <$> List.filter (fun x => q (f x)) l = List.filter q (f <$> l).
Proof. induction l as [|x l IH]; cbn; [done|]. destruct (q (f x)); cbn; by rewrite <- IH. Qed.

Lemma filter_StronglySorted {A} (R : relation A) (p : A -> bool) l :
  StronglySorted R l -> StronglySorted R (List.filter p l).
Proof.
  induction 1 as [|x l _ IH Hx]; cbn; [constructor|]. destruct (p x); [|done].
  constructor; [done|]. by apply filter_Forall.
Qed.

Lemma positions_NoDup id db :
  tables_wf db -> NoDup (items_position <$> List.filter (item_of id) (items_table db)).
Proof.
  intros Hwf. pose proof (wf_item_keys _ Hwf) as Hnd. revert Hnd. generalize (items_table db). clear.
  intros l. induction l as [|x l IH]; cbn; intros Hnd; [constructor|].
  apply NoDup_cons in Hnd as [Hx Hnd]. destruct (item_of id x) eqn:Hid; [|by apply IH].
  cbn. apply NoDup_cons. split; [|by apply IH].
  intros (y & Hpos & [Hy Hid']%list_elem_of_In%filter_In)%list_elem_of_fmap.
  apply Hx. apply list_elem_of_fmap. exists y. split; [|by apply list_elem_of_In].
  unfold item_of in *. apply Z.eqb_eq in Hid, Hid'. unfold item_key. congruence.
Qed.

Lemma items_of_filtered id tables db :
  tables_wf db ->
  items_of id (List.filter (row_listed tables) (items_table db))
  = List.filter (fun t => bool_decide (t ∈ library_ids tables)) (items_of id (items_table db)).
Proof.
  intros Hwf. unfold items_of. rewrite <- filter_fmap. f_equal. unfold ordered_items.
  rewrite filter_comm. symmetry.
  assert (List.filter (fun row => bool_decide (items_track_id row ∈ library_ids tables))
    (merge_sort position_le (List.filter (item_of id) (items_table db)))
    = List.filter (row_listed tables) (merge_sort position_le (List.filter (item_of id) (items_table db))))
    as ->.
  { apply List.filter_ext. intros row. by rewrite row_listed_spec. }
  apply (sorted_canonical position_le items_position).
  - unfold position_le. lia.
  - eapply sublist_NoDup; [|apply fmap_sublist, filter_sublist].
    rewrite merge_sort_Permutation. by apply positions_NoDup.
  - apply filter_perm. apply merge_sort_Permutation.
  - apply filter_StronglySorted. apply StronglySorted_merge_sort; apply _.
Qed.

Lemma book_replace_library tables db id row ids' :
  tables_wf db -> book (replace_library tables db) !! id = Some (row, ids') ->
  exists ids, book db !! id = Some (row, ids) /\
    ids' = List.filter (fun t => bool_decide (t ∈ library_ids tables)) ids.
Proof.
  intros Hwf. rewrite !book_lookup. cbn [playlists_table items_table replace_library].
  destruct (List.find _ _) as [other|] eqn:Hf; [|done]. intros [= <- <-]. unfold listing.
  eexists. split; [done|]. by apply items_of_filtered.
Qed.

Lemma tables_wf_replace_library tables db :
  tables_wf db -> NoDup (library_ids tables) -> tables_wf (replace_library tables db).
Proof.
  intros Hwf Hnd. split; cbn [playlists_table items_table library replace_library]; try apply Hwf; [..|done].
  - eapply sublist_NoDup; [apply (wf_item_keys _ Hwf)|]. apply fmap_sublist, filter_sublist.
  - apply filter_Forall, Hwf.
  - apply Forall_forall. intros row [_ Hrow]%list_elem_of_In%filter_In.
    change (row_listed tables row = true) in Hrow. by rewrite row_listed_spec, bool_decide_eq_true in Hrow.
  - intros id. fold (row_listed tables). pose proof (wf_capacity _ Hwf id) as Hcap.
    change (fun row => _) with (row_listed tables).
    rewrite items_of_filtered by done. pose proof (List.filter_length_le
      (fun t => bool_decide (t ∈ library_ids tables)) (items_of id (items_table db))). lia.
Qed.

Lemma materialized_library seen db tables :
  materialized seen db -> library_change seen (library db) tables ->
  materialized (seen_after (Event_library tables) seen) (replace_library tables db).
Proof.
  intros [Hwf Hseen Hitems] [Hunique Hfresh Hages]. cbn [seen_after].
  split; [by apply tables_wf_replace_library|cbn; set_solver|].
  intros id row ids' signature Hid Hsig.
  destruct (book_replace_library _ _ _ _ _ Hwf Hid) as (ids & Hold & ->).
  destruct (Hitems _ _ _ _ Hold Hsig) as [Hauto (rule & tables0 & source & resolution & Htext & Hnd0 &
    Hin & Hsource & Hres & Hs & -> & Hages0)]. split; [done|].
  exists rule, tables0, source, resolution. split_and!; try done.
  - intros t Ht. apply elem_of_union_l. auto.
  - cbn [library replace_library]. symmetry. rewrite filter_comm. symmetry. apply filter_all.
    intros t [Hres' Ht]%list_elem_of_In%filter_In. apply bool_decide_eq_true in Ht. apply bool_decide_true.
    assert (t ∈ seen) as Hts.
    { apply Hin. eapply resolved_ids_listed; [done..|]. by apply list_elem_of_In. }
    destruct (Hfresh t Ht); [done|contradiction].
  - cbn [library replace_library]. intros row0 row' Hrow0 Hrow' Heq.
    assert (tracks_id row' ∈ library_ids tables) as Hlisted by (by apply list_elem_of_fmap_2).
    assert (tracks_id row' ∈ seen) as Hts by (rewrite <- Heq; by apply Hin, list_elem_of_fmap_2).
    destruct (Hfresh _ Hlisted) as [Hmid|]; [|contradiction].
    apply list_elem_of_fmap in Hmid as (mid & Hmid & Hmidin).
    rewrite (Hages0 row0 mid) by congruence. by apply Hages.
Qed.

Lemma materialized_events seen events db :
  materialized seen db -> events_fresh seen events db ->
  materialized (seen_after_all events seen) (run_events events db).
Proof.
  revert seen db. induction events as [|event events IH]; intros seen db Hmat Hfresh; cbn in *; [done|].
  destruct Hfresh as [Hone Hrest]. apply IH; [|done]. destruct event as [op|tables]; cbn in *.
  - destruct (run_op op db) as [r db'] eqn:Hrun. by eapply materialized_op.
  - by apply materialized_library.
Qed.

(* ------------------------------------------------------------------ *)
(** ** Serving a playlist *)

Lemma tracks_among_lookup ids tables tracks t :
  NoDup (library_ids tables) -> tracks_among ids tables = Ok tracks ->
  t ∈ ids -> t ∈ library_ids tables ->
  exists track, tracks !! t = Some track /\ TrackId_get (track_id track) = t.
Proof.
  intros Hnd Htracks Ht Hlisted. unfold tracks_among in Htracks.
  destruct ids as [|i ids]; [set_solver|]. set (among := i :: ids) in *.
  apply bind_ok in Htracks as (found & Hfound & Htracks). injection Htracks as <-.
  apply result_collect_inv in Hfound.
  set (rows := List.filter (fun row => bool_decide (tracks_id row ∈ among)) (tracks_table tables)) in *.
  assert ((fun track => TrackId_get (track_id track)) <$> found = tracks_id <$> rows) as Hkeys.
  { clear -Hfound. revert found Hfound. induction rows as [|row rows IH]; intros found Hall;
      inversion Hall as [|? track ? found' Hrow Hrest]; subst; [done|].
    cbn. apply indexed_track_id in Hrow. cbn in Hrow. by rewrite Hrow, IH. }
  assert (t ∈ (fun track => TrackId_get (track_id track)) <$> found) as (track & -> & Hin)%list_elem_of_fmap.
  { rewrite Hkeys. unfold library_ids in Hlisted. apply list_elem_of_fmap in Hlisted as (row & -> & Hrow).
    apply list_elem_of_fmap_2. unfold rows. apply list_elem_of_In, filter_In.
    split; [by apply list_elem_of_In|]. by apply bool_decide_true. }
  exists track. split; [|done]. apply collect_map_lookup.
  - change (NoDup (fst <$> ((fun track => (TrackId_get (track_id track), track)) <$> found))).
    rewrite <- list_fmap_compose. change (NoDup ((fun track => TrackId_get (track_id track)) <$> found)).
    rewrite Hkeys. eapply sublist_NoDup; [exact Hnd|]. apply fmap_sublist, filter_sublist.
  - by apply (list_elem_of_fmap_2 (fun track => (TrackId_get (track_id track), track))).
Qed.

Lemma track_ids_of_items (tracks : gmap Z IndexedTrack) playlist ids :
  (forall t, t ∈ ids -> exists track, tracks !! t = Some track /\ TrackId_get (track_id track) = t) ->
  TrackId_get <$> track_ids_of (mkPlaylistItems playlist
    (imap (fun position id => mkPlaylistItemRecord (Z.of_nat position) id (tracks !! id)) ids)) = ids.
Proof.
  unfold track_ids_of. cbn [items_items]. intros Hids.
  assert (forall f : nat -> Z -> Z,
    TrackId_get <$> omap (fun item => track_id <$> item_track item)
      (imap (fun position id => mkPlaylistItemRecord (f position id) id (tracks !! id)) ids) = ids)
    as Hgen; [|exact (Hgen (fun position _ => Z.of_nat position))].
  induction ids as [|t ids IH]; intros f; [done|]. cbn.
  destruct (Hids t) as (track & Htrack & Hid); [set_solver|]. rewrite Htrack. cbn.
  rewrite Hid. f_equal. apply (IH ltac:(set_solver) (fun position => f (S position))).
Qed.

Lemma resolved_ids_fmap resolution :
  resolved_ids resolution = TrackId_get <$> (track_id <$> resolution_tracks resolution).
Proof. by rewrite <- list_fmap_compose. Qed.

(** Serving reads the book: the items are the book's, all in the library. *)
Lemma list_items_ok id db items db' :
  tables_wf db -> list_items id db = (Ok items, db') ->
  tables_wf db' /\ library db' = library db /\ book db' = book db /\
  match book db !! id with
  | None => items = None
  | Some (row, ids) =>
      exists found, items = Some found /\ items_playlist found = record_of row /\
                    TrackId_get <$> track_ids_of found = ids
  end.
Proof.
  intros Hwf Hrun. apply (items_answers _ _ _ _ Hwf) in Hrun.
  apply answers_ok in Hrun as (Hwf' & Hlib & b & Hspec & Hbook). unfold spec_items in Hspec.
  destruct (book db !! id) as [[row ids]|] eqn:Hid; [|by injection Hspec as <- <-].
  apply bind_ok in Hspec as (tracks & Htracks & Hspec). injection Hspec as <- <-.
  split_and!; [done..|]. eexists. split_and!; [done..|]. apply track_ids_of_items.
  intros t Ht. eapply tracks_among_lookup; [apply (wf_track_ids _ Hwf)|done..|].
  apply book_lookup_Some in Hid as (_ & _ & _ & ->). by eapply items_in_library.
Qed.

#[local] Instance TrackId_get_injective : Inj (=) (=) TrackId_get.
Proof. by intros ? ? [=]. Qed.
Lemma TrackId_get_inj (l k : list TrackId) : TrackId_get <$> l = TrackId_get <$> k -> l = k.
Proof. apply (inj (fmap (M := list) TrackId_get)). Qed.

(** The source of the library's tables has the ages of their rows. *)
Lemma source_ages tables tables' source source' :
  source_of tables = Ok source -> source_of tables' = Ok source' -> same_ages tables tables' ->
  added_alike source source'.
Proof.
  assert (forall tables source entry, source_of tables = Ok source -> entry ∈ source ->
    exists row, row ∈ tracks_table tables /\
      tracks_id row = TrackId_get (track_id (source_track entry)) /\
      tracks_added_at row = Some (track_added_at_unix_seconds (source_track entry))) as Hrow.
  { clear. intros tables source entry Hsource Hentry. unfold source_of in Hsource.
    apply bind_ok in Hsource as (tracks & Htracks & Hsource). injection Hsource as <-.
    apply list_elem_of_fmap in Hentry as (track & -> & Htrack).
    apply result_collect_inv in Htracks. apply list_elem_of_lookup in Htrack as [i Hi].
    destruct (Forall2_lookup_r _ _ _ _ _ Htracks Hi) as (columns & Hc & Hdecode).
    apply list_elem_of_lookup_2, list_elem_of_fmap in Hc as (row & -> & Hin).
    rewrite merge_sort_Permutation in Hin. exists row. split; [done|]. split.
    - by apply indexed_track_id in Hdecode.
    - unfold indexed_track_from_row, with_original in Hdecode. inv_results. done. }
  intros Hs Hs' Hages e e' He He' Hid.
  destruct (Hrow _ _ _ Hs He) as (row & Hin & Hrid & Hadded).
  destruct (Hrow _ _ _ Hs' He') as (row' & Hin' & Hrid' & Hadded').
  assert (tracks_id row = tracks_id row') as Hsame by congruence.
  pose proof (Hages row row' Hin Hin' Hsame). congruence.
Qed.

Context `{!Inj (=) (=) sha256_hex}.

(** After the check for a refresh the book holds the current resolution. *)
Lemma materialize_serves seen db id row stored rule outcome db' :
  materialized seen db -> book db !! id = Some (row, stored) ->
  automatic_rule (record_of row) = Ok (Some rule) ->
  materialize_automatic id rule None false db = (Ok outcome, db') ->
  tables_wf db' /\ library db' = library db /\
  (exists playlist resolution, outcome = Materialization_Applied playlist resolution \/
                               outcome = Materialization_Unchanged playlist resolution) /\
  exists source resolution row', source_of (library db) = Ok source /\
    resolve_automatic_playlist rule source = Ok resolution /\
    book db' !! id = Some (row', resolved_ids resolution).
Proof.
  intros [Hwf Hseen Hitems] Hid Hrule Hrun. apply (materialize_answers _ _ _ _ _ _ _ Hwf) in Hrun.
  apply answers_ok in Hrun as (Hwf' & Hlib & b & Hspec & Hbook).
  split; [done|]. split; [done|]. unfold spec_materialize in Hspec. rewrite Hid, Hrule in Hspec.
  rewrite (bool_decide_true (mjoin _ = _)) in Hspec by done.
  rewrite andb_false_r in Hspec.
  destruct (source_of (library db)) as [source|] eqn:Hsource; [|done]. cbn [mbind result_bind] in Hspec.
  destruct (resolve_automatic_playlist rule source) as [resolution|] eqn:Hres; [|done].
  cbn [map_err mbind result_bind negb andb] in Hspec.
  destruct (same_signature _ _) eqn:Hsame.
  - injection Hspec as <- <-. split; [by eexists _, _; right|].
    exists source, resolution, row. split_and!; [done..|]. rewrite Hbook, Hid. do 2 f_equal.
    unfold same_signature in Hsame. apply bool_decide_eq_true in Hsame. cbn in Hsame.
    destruct (Hitems _ _ _ _ Hid Hsame) as [_ (rule0 & tables0 & source0 & resolution0 & _ & Hnd0 & _ &
      Hsource0 & Hres0 & Hsig & -> & Hages)].
    assert (track_id <$> resolution_tracks resolution0 = track_id <$> resolution_tracks resolution) as Hids.
    { eapply signature_determines_resolution; [exact Hres0|exact Hres| |intros _|exact Hsig].
      - by eapply source_ids_NoDup.
      - by eapply source_ages. }
    assert (resolved_ids resolution0 = resolved_ids resolution) as ->.
    { by rewrite !resolved_ids_fmap, Hids. }
    apply filter_listed. intros t Ht. by eapply resolved_ids_listed.
  - destruct (rule_to_string rule) as [text|]; [|done]. injection Hspec as <- <-.
    split; [by eexists _, _; left|]. exists source, resolution. eexists. split_and!; [done..|].
    by rewrite Hbook, lookup_insert_eq.
Qed.

(** C16: what the service serves of a playlist: a manual one, or one whose stored
    rule is damaged, as it is stored; an automatic one as its rule resolves
    against the library of the moment. The changes of the library since the
    start must not give a track the id of one that was there before and is
    gone, nor another time of addition: the signature of a resolution does not
    notice either. *)
Theorem playlists_are_served_current seen events db0 id row stored ids db' :
  materialized seen db0 -> events_fresh seen events db0 ->
  let db := run_events events db0 in
  book db !! id = Some (row, stored) ->
  service_track_ids id db = (Ok ids, db') ->
  match automatic_rule (record_of row) with
  | Ok (Some rule) =>
      exists source resolution, source_of (library db) = Ok source /\
        resolve_automatic_playlist rule source = Ok resolution /\
        ids = track_id <$> resolution_tracks resolution
  | Ok None | Err _ => TrackId_get <$> ids = stored
  end.
Proof.
  intros Hmat0 Hfresh db Hid Hrun.
  pose proof (materialized_events _ _ _ Hmat0 Hfresh) as Hmat. fold db in Hmat.
  unfold service_track_ids in Hrun. apply stateful_bind_ok in Hrun as (items & db2 & Hrun & Hret).
  injection Hret as <- <-. unfold service_items in Hrun.
  apply stateful_bind_ok in Hrun as ([] & db1 & Hrefresh & Hrun).
  apply stateful_bind_ok in Hrun as (found & db3 & Hlist & Hfound).
  apply dependency_ok in Hlist. apply try_run_ok in Hfound as [->%ok_or_run ->].
  assert (forall row' ids', tables_wf db1 -> book db1 !! id = Some (row', ids') ->
    TrackId_get <$> track_ids_of items = ids') as Hserve.
  { intros row' ids' Hwf1 Hid'. apply (list_items_ok _ _ _ _ Hwf1) in Hlist as (_ & _ & _ & Hitems).
    rewrite Hid' in Hitems. by destruct Hitems as (found & [= <-] & _ & ?). }
  cbn [refresh_items] in Hrefresh. apply stateful_bind_ok in Hrefresh as (playlist & dbg & Hget & Hrefresh).
  destruct (service_get_ok _ _ _ _ (mat_wf _ _ Hmat) Hget) as (Hwfg & Hlibg & Hbookg & row0 & ids0 & Hid0 & ->).
  rewrite Hid in Hid0. injection Hid0 as <- <-.
  assert (materialized (seen_after_all events seen) dbg) as Hmatg.
  { destruct Hmat as [_ Hseen Hitems]. split; [done|by rewrite Hlibg|]. intros id' row' ids' s.
    rewrite Hbookg. unfold materialized_from. rewrite Hlibg. apply Hitems. }
  assert ((mret () : service ()) dbg = (Ok (), db1) -> TrackId_get <$> track_ids_of items = stored) as Hkept.
  { intros [= <-]. eapply Hserve; [done|by rewrite Hbookg]. }
  destruct (is_automatic (record_of row)) eqn:Hauto.
  2: { assert (automatic_rule (record_of row) = Ok None) as -> by (unfold automatic_rule; by rewrite Hauto).
       auto. }
  destruct (automatic_rule (record_of row)) as [[rule|]|e] eqn:Hrule; [|auto..].
  apply stateful_bind_ok in Hrefresh as (outcome & dbm & Hmrun & Hrefresh). apply dependency_ok in Hmrun.
  rewrite <- Hbookg in Hid.
  destruct (materialize_serves _ _ _ _ _ _ _ _ Hmatg Hid Hrule Hmrun)
    as (Hwfm & Hlibm & (playlist & resolution0 & Houtcome) & source & resolution & row' & Hsource & Hres & Hbookm).
  exists source, resolution. rewrite <- Hlibg. split_and!; [done..|].
  assert (db1 = dbm) as -> by (destruct Houtcome as [-> | ->]; by injection Hrefresh as ->).
  apply TrackId_get_inj. rewrite (Hserve _ _ Hwfm Hbookm). apply resolved_ids_fmap.
Qed.

(** C17: a configured rule is applied as previewed: when the service accepts the
    signature of a preview, however much later, the playlist holds the tracks
    the preview showed, in its order. Under the order by age this needs the
    tracks the two libraries share to have been added at the same times, which
    the signature leaves out. *)
Theorem configured_rules_apply_the_preview id rule rule' preview playlist resolution db0 db0' db db' :
  tables_wf db0 -> tables_wf db ->
  (rule_order_by rule = Order_Newest -> same_ages (library db0) (library db)) ->
  service_preview id rule db0 = (Ok preview, db0') ->
  service_configure id rule' (resolution_source_signature preview) db
  = (Ok (playlist, resolution), db') ->
  track_id <$> resolution_tracks resolution = track_id <$> resolution_tracks preview /\
  exists row, book db' !! id = Some (row, TrackId_get <$> (track_id <$> resolution_tracks preview)) /\
    playlist = record_of row /\
    playlists_automatic_source_signature row = Some (resolution_source_signature preview).
Proof.
  intros Hwf0 Hwf Hages Hpreview Hconf.
  unfold service_preview in Hpreview.
  apply stateful_bind_ok in Hpreview as (p0 & dbp & Hget & Hpreview).
  destruct (service_get_ok _ _ _ _ Hwf0 Hget) as (Hwfp & Hlibp & _ & _).
  apply stateful_bind_ok in Hpreview as (r0 & dbr & Hnorm & Hpreview).
  apply try_run_ok in Hnorm as [Hnorm%map_err_ok ->].
  apply stateful_bind_ok in Hpreview as (source0 & dbs & Hsrc & Hpreview).
  apply try_run_ok in Hpreview as [Hres0%map_err_ok ->].
  apply dependency_ok in Hsrc. apply (source_answers _ _ _ _ Hwfp) in Hsrc.
  apply answers_ok in Hsrc as (_ & _ & b0 & Hsrc & _).
  destruct (source_of (library dbp)) as [source0'|] eqn:Hsource0; [|done]. injection Hsrc as -> _.
  rewrite Hlibp in Hsource0.
  unfold service_configure in Hconf. apply stateful_bind_ok in Hconf as (r1 & db1 & Hnorm1 & Hconf).
  apply try_run_ok in Hnorm1 as [Hnorm1%map_err_ok ->].
  apply stateful_bind_ok in Hconf as (outcome & db2 & Hmat & Hconf).
  apply dependency_ok in Hmat. apply (materialize_answers _ _ _ _ _ _ _ Hwf) in Hmat.
  apply answers_ok in Hmat as (_ & _ & b & Hspec & Hbook). unfold spec_materialize in Hspec.
  destruct (book db !! id) as [[row ids]|]; [|injection Hspec as <- <-; done].
  rewrite bool_decide_false in Hspec by done. cbn [andb] in Hspec.
  destruct (source_of (library db)) as [source|] eqn:Hsource; [|done]. cbn [mbind result_bind] in Hspec.
  destruct (resolve_automatic_playlist r1 source) as [resolution1|] eqn:Hres; [|done].
  cbn [map_err mbind result_bind negb andb] in Hspec.
  destruct (String.eqb_spec (resolution_source_signature preview) (resolution_source_signature resolution1))
    as [Hsig|]; cbn [negb] in Hspec; [|injection Hspec as <- <-; done].
  destruct (rule_to_string r1) as [text|]; [|done]. injection Hspec as <- <-.
  injection Hconf as <- <- <-.
  assert (track_id <$> resolution_tracks preview = track_id <$> resolution_tracks resolution1) as Hids.
  { assert (rule_order_by r0 = rule_order_by rule) as Horder by by apply normalized_ok in Hnorm as (_ & _ & _ & ->).
    eapply signature_determines_resolution; [exact Hres0|exact Hres| |rewrite Horder; intros Hnew|exact Hsig].
    - eapply source_ids_NoDup; [apply (wf_track_ids _ Hwf0)|done].
    - eapply source_ages; [done..|auto]. }
  split; [done|]. eexists. split_and!; [|done|by rewrite Hsig].
  rewrite Hbook, lookup_insert_eq. do 2 f_equal.
  change ((fun track => _) <$> _) with (resolved_ids resolution1). by rewrite resolved_ids_fmap, Hids.
Qed.

End Service.
