(* ===== verification/PlaylistScenario.v ===== *)
(** * A library and an automatic playlist

    Three tracks, a playlist made automatic through a preview, and what the
    service serves when the library changes; and the track that an automatic
    playlist loses when it leaves the library and returns under its old id. *)

From S2P Require Import Prelude Text Library PlaybackState MediaPath Store JobStore.
From S2P Require Import RecoveryJournal Playlists PlaylistsSpec PlaylistStore PlaylistStoreSpec.
From S2P Require Import PlaylistBook PlaylistServiceSpec JournalStore.

#[local] Open Scope string_scope.
#[local] Open Scope Z_scope.
#[local] Open Scope list_scope.

(** ASCII lower case stands for the Unicode tables, the identity for SHA-256. *)
Definition lower_byte (byte : Ascii.ascii) : Ascii.ascii :=
  if ((65 <=? byte_of byte) && (byte_of byte <=? 90))%N
  then Ascii.ascii_of_N (byte_of byte + 32) else byte.
Fixpoint lower (s : string) : string :=
  match s with EmptyString => "" | String byte s => String (lower_byte byte) (lower s) end.

#[global] Instance ascii_unicode : Unicode := {|
  nfkc s := s;
  case_fold := lower;
  get_general_category character :=
    match bytes_of character with [b] => if (b <? 32)%N then Control else LowercaseLetter | _ => OtherLetter end |}.
#[global] Instance plain_sha256 : Sha256 := {| sha256_hex text := text |}.
#[global] Instance plain_sha256_inj : Inj (=) (=) (@sha256_hex plain_sha256).
Proof. by intros ? ?. Qed.
#[global] Instance ticking_clock : SqliteClock := {| current_timestamp := Z.of_nat |}.
#[global] Instance coded_text_eof : JsonTextEof.
Proof. split. by eexists. Qed.

Definition track_row (id : Z) (title : string) (bpm : option Z) : TrackRow := {|
  tracks_id := id;
  tracks_path := title +:+ ".mp3";
  tracks_title := title;
  tracks_artist := "";
  tracks_album_artist := "";
  tracks_album := "";
  tracks_track_no := None;
  tracks_disc_no := None;
  tracks_year := None;
  tracks_release_date := "";
  tracks_original_release_date := "";
  tracks_composer := "";
  tracks_genre := "";
  tracks_length_s := f64_of_Z 60;
  tracks_bpm := bpm;
  tracks_display_title := "";
  tracks_origin := "";
  tracks_size_bytes := 10;
  tracks_mtime := 20;
  tracks_added_at := Some 30 |}.

Definition three_tracks : LibraryTables := {|
  tracks_table := [track_row 1 "Beta" (Some 90); track_row 2 "Alpha" None; track_row 3 "Zulu" (Some 120)];
  originals_table := [];
  user_tags_table := [(1, "calm"); (2, "calm"); (3, "calm")] |}.

Definition calm_rule : AutomaticPlaylistRule := {|
  rule_schema_version := AUTOMATIC_RULE_SCHEMA;
  rule_include_tags := [" Calm  "];
  rule_match := Match_Any;
  rule_exclude_tags := [];
  rule_tag_sources := Sources_Manual;
  rule_min_bpm := None;
  rule_max_bpm := Some 100%N;
  rule_include_unknown_bpm := true;
  rule_maximum_tracks := 200;
  rule_order_by := Order_Title |}.

Definition empty_playlists : SqlitePlaylists := mkSqlitePlaylists [] [] three_tracks 0 [].
Definition calm_playlist : PlaylistCreate := mkPlaylistCreate "Calm" None None.


Definition ok_or_else {E A} (default : A) (r : result E A) : A :=
  match r with Ok a => a | Err _ => default end.

(** The playlist is created, the rule previewed and configured. *)
Definition with_playlist : SqlitePlaylists := (create_playlist calm_playlist empty_playlists).2.
Definition calm_preview : AutomaticPlaylistResolution :=
  ok_or_else (mkAutomaticPlaylistResolution "" 0 []) (service_preview 1 calm_rule with_playlist).1.
Definition normalized_rule : AutomaticPlaylistRule := ok_or_else calm_rule (normalized calm_rule).
Definition configure_op : PlaylistOp :=
  Op_materialize 1 normalized_rule (Some (resolution_source_signature calm_preview)) true.

(** Later the tempo of the third track is cleared. *)
Definition untimed_tracks : LibraryTables := {|
  tracks_table := [track_row 1 "Beta" (Some 90); track_row 2 "Alpha" None; track_row 3 "Zulu" None];
  originals_table := [];
  user_tags_table := user_tags_table three_tracks |}.

Definition calm_events : list PlaylistEvent :=
  [Event_op (Op_create calm_playlist); Event_op configure_op; Event_library untimed_tracks].
Definition calm_db : SqlitePlaylists := run_events calm_events empty_playlists.
Definition seen_ids : gset Z := list_to_set (library_ids three_tracks).

Lemma empty_wf tables : NoDup (library_ids tables) -> tables_wf (mkSqlitePlaylists [] [] tables 0 []).
Proof. intros Hnd. split; cbn; try constructor; [done|]. by intros. Qed.

Lemma three_tracks_unique : NoDup (library_ids three_tracks).
Proof. apply (bool_decide_unpack (NoDup (library_ids three_tracks))). by vm_compute. Qed.

Lemma empty_materialized : materialized seen_ids empty_playlists.
Proof.
  split.
  - apply empty_wf, three_tracks_unique.
  - intros t Ht. unfold seen_ids. by apply elem_of_list_to_set.
  - intros id row ids signature Hid. unfold book in Hid. cbn in Hid. by rewrite lookup_empty in Hid.
Qed.

Lemma calm_change : library_change seen_ids three_tracks untimed_tracks.
Proof.
  split.
  - apply three_tracks_unique.
  - by left.
  - intros row row' Hrow Hrow' _. cbn in Hrow, Hrow'.
    rewrite !elem_of_cons, elem_of_nil in Hrow, Hrow'.
    assert (tracks_added_at row = Some 30) as -> by naive_solver.
    by assert (tracks_added_at row' = Some 30) as -> by naive_solver.
Qed.

Lemma calm_fresh : events_fresh seen_ids calm_events empty_playlists.
Proof.
  split; [done|]. split; [done|]. split; [|done].
  assert (library (run_event (Event_op configure_op) (run_event (Event_op (Op_create calm_playlist))
    empty_playlists)) = three_tracks) as -> by (vm_compute; reflexivity).
  apply calm_change.
Qed.

(** The row and the items of the first playlist, and what the service answers. *)
Definition first_listing (db : SqlitePlaylists) : PlaylistRow * list Z :=
  default (mkPlaylistRow 0 "" None None "" None None None None, []) (book db !! 1).
Definition served (db : SqlitePlaylists) : list TrackId :=
  ok_or_else [] (service_track_ids 1 db).1.

Lemma playlists_are_served_current_witness :
  (first_listing calm_db).2 = [2; 1] /\ served calm_db = [2; 1; 3]%positive /\
  exists source resolution, source_of (library calm_db) = Ok source /\
    resolve_automatic_playlist normalized_rule source = Ok resolution /\
    [2; 1; 3]%positive = track_id <$> resolution_tracks resolution.
Proof.
  split; [vm_compute; reflexivity|]. split; [vm_compute; reflexivity|].
  pose proof (playlists_are_served_current seen_ids calm_events empty_playlists 1
    (first_listing calm_db).1 [2; 1] [2; 1; 3]%positive (service_track_ids 1 calm_db).2
    empty_materialized calm_fresh) as Hserved.
  assert (automatic_rule (record_of (first_listing calm_db).1) = Ok (Some normalized_rule)) as Hrule
    by (vm_compute; reflexivity).
  cbv zeta in Hserved. rewrite Hrule in Hserved. apply Hserved; vm_compute; reflexivity.
Defined.

Lemma with_playlist_wf : tables_wf with_playlist.
Proof.
  destruct (create_playlist calm_playlist empty_playlists) as [r db] eqn:Hcreate.
  unfold with_playlist. rewrite Hcreate.
  eapply (create_answers calm_playlist empty_playlists r db); [|exact Hcreate].
  apply empty_wf, three_tracks_unique.
Qed.

Lemma configured_rules_apply_the_preview_witness :
  track_id <$> resolution_tracks calm_preview = [2; 1]%positive /\
  exists db' playlist resolution,
    service_configure 1 calm_rule (resolution_source_signature calm_preview) with_playlist
    = (Ok (playlist, resolution), db') /\
    track_id <$> resolution_tracks resolution = track_id <$> resolution_tracks calm_preview.
Proof.
  split; [vm_compute; reflexivity|].
  destruct (service_configure 1 calm_rule (resolution_source_signature calm_preview) with_playlist)
    as [[[playlist resolution]|e] db'] eqn:Hconf; [|vm_compute in Hconf; discriminate Hconf].
  exists db', playlist, resolution. split; [reflexivity|].
  pose proof with_playlist_wf as Hwf.
  eapply (configured_rules_apply_the_preview 1 calm_rule calm_rule calm_preview playlist resolution
    with_playlist (service_preview 1 calm_rule with_playlist).2 with_playlist db' Hwf Hwf);
    [|vm_compute; reflexivity|exact Hconf].
  intros _. apply same_ages_refl, three_tracks_unique.
Defined.

Lemma resolution_follows_the_rule_witness :
  exists source resolution, source_of three_tracks = Ok source /\
    resolve_automatic_playlist calm_rule source = Ok resolution /\
    NoDup (track_id <$> resolution_tracks resolution) /\ resolution_library_tracks resolution = 3%nat.
Proof.
  destruct (source_of three_tracks) as [source|] eqn:Hsource; [|vm_compute in Hsource; discriminate Hsource].
  assert (NoDup (source_ids source)) as Hnd by (eapply source_ids_NoDup; [apply three_tracks_unique|exact Hsource]).
  destruct (resolve_automatic_playlist calm_rule source) as [resolution|] eqn:Hres.
  - exists source, resolution. split; [reflexivity|]. split; [exact Hres|].
    destruct (resolution_follows_the_rule calm_rule source resolution Hres Hnd)
      as (rule & _ & _ & Hids & _ & Hcount & _).
    split; [exact Hids|]. rewrite Hcount. vm_compute in Hsource. injection Hsource as <-. reflexivity.
  - vm_compute in Hsource. injection Hsource as <-. vm_compute in Hres. discriminate Hres.
Defined.

Lemma repository_refines_book_witness :
  exists db, run_op (Op_add_track 1 2%positive None) with_playlist
    = (Ok (Answer_added (Mutation_Applied (mkPlaylistItemRecord 0 2
         (ok_or_else None (track_with_id 2 three_tracks))))), db) /\
    tables_wf db /\ library db = library with_playlist /\ (first_listing db).2 = [2].
Proof.
  destruct (run_op (Op_add_track 1 2%positive None) with_playlist) as [r db] eqn:Hrun. exists db.
  destruct (repository_refines_book _ _ _ _ with_playlist_wf Hrun)
    as (fresh & _ & Hwf & Hlib & _).
  split; [|split; [exact Hwf|split; [exact Hlib|]]].
  - f_equal. pose proof (f_equal fst Hrun) as Hr. cbn [fst] in Hr. rewrite <- Hr. vm_compute. reflexivity.
  - pose proof (f_equal (fun x => (first_listing x.2).2) Hrun) as Hr. cbn [snd] in Hr.
    rewrite <- Hr. vm_compute. reflexivity.
Defined.

(* ------------------------------------------------------------------ *)
(** ** A track that returns under its old id *)

(** The library without its third track, and with it again; the deleted row
    had the greatest id, so SQLite gives it out again. *)
Definition two_tracks : LibraryTables := {|
  tracks_table := take 2 (tracks_table untimed_tracks);
  originals_table := [];
  user_tags_table := [] |}.
Definition any_rule : AutomaticPlaylistRule :=
  with_tags [] [] (ok_or_else calm_rule (normalized calm_rule)).
Definition untagged_tracks : LibraryTables :=
  mkLibraryTables (tracks_table untimed_tracks) [] [].
Definition any_events : list PlaylistEvent :=
  [Event_op (Op_create calm_playlist); Event_library untagged_tracks;
   Event_op (Op_materialize 1 any_rule (Some (ok_or_else "" (source ← map_err (fun _ => StoredRuleInvalid)
      (source_of untagged_tracks); resolution_source_signature <$> resolve_automatic_playlist any_rule source))) true);
   Event_library two_tracks; Event_library untagged_tracks].
Definition returned_db : SqlitePlaylists := run_events any_events empty_playlists.

(** The rule admits all three tracks, but the signature of the library is the
    one of the last materialisation, so the service serves the two items the
    deletion left. *)
Theorem returning_track_is_lost :
  library returned_db = untagged_tracks /\
  (source ← map_err (fun _ => StoredRuleInvalid) (source_of (library returned_db));
   (fun r => track_id <$> resolution_tracks r) <$> resolve_automatic_playlist any_rule source)
  = Ok [2; 1; 3]%positive /\
  served returned_db = [2; 1]%positive.
Proof. split_and!; vm_compute; reflexivity. Qed.

(** The third track again, under its old id and with a new time of addition. *)
Definition added_at_40 (row : TrackRow) : TrackRow := {|
  tracks_id := tracks_id row; tracks_path := tracks_path row; tracks_title := tracks_title row;
  tracks_artist := tracks_artist row; tracks_album_artist := tracks_album_artist row;
  tracks_album := tracks_album row; tracks_track_no := tracks_track_no row;
  tracks_disc_no := tracks_disc_no row; tracks_year := tracks_year row;
  tracks_release_date := tracks_release_date row;
  tracks_original_release_date := tracks_original_release_date row;
  tracks_composer := tracks_composer row; tracks_genre := tracks_genre row;
  tracks_length_s := tracks_length_s row; tracks_bpm := tracks_bpm row;
  tracks_display_title := tracks_display_title row; tracks_origin := tracks_origin row;
  tracks_size_bytes := tracks_size_bytes row; tracks_mtime := tracks_mtime row;
  tracks_added_at := Some 40 |}.
Definition readded_tracks : LibraryTables :=
  mkLibraryTables (take 2 (tracks_table untimed_tracks) ++ (added_at_40 <$> drop 2 (tracks_table untimed_tracks))) [] [].
Definition newest_rule : AutomaticPlaylistRule := {|
  rule_schema_version := AUTOMATIC_RULE_SCHEMA; rule_include_tags := []; rule_match := Match_Any;
  rule_exclude_tags := []; rule_tag_sources := Sources_Manual; rule_min_bpm := None; rule_max_bpm := None;
  rule_include_unknown_bpm := true; rule_maximum_tracks := 200; rule_order_by := Order_Newest |}.
Definition before_return : SqlitePlaylists :=
  run_events [Event_op (Op_create calm_playlist); Event_library untagged_tracks] empty_playlists.
Definition after_return : SqlitePlaylists :=
  run_events [Event_library two_tracks; Event_library readded_tracks] before_return.
Definition newest_preview : AutomaticPlaylistResolution :=
  ok_or_else (mkAutomaticPlaylistResolution "" 0 []) (service_preview 1 newest_rule before_return).1.

(** The signature of the preview is accepted after the track has come back, and
    the playlist gets another order than the preview showed. *)
Theorem readded_track_reorders_a_preview :
  track_id <$> resolution_tracks newest_preview = [2; 1; 3]%positive /\
  ((fun answer : PlaylistRecord * AutomaticPlaylistResolution => track_id <$> resolution_tracks answer.2) <$>
     (service_configure 1 newest_rule (resolution_source_signature newest_preview) after_return).1)
  = Ok [3; 2; 1]%positive.
Proof. split; vm_compute; reflexivity. Qed.
