(* ===== verification/CatalogCommands.v ===== *)
(** * Catalog commands

    [crates/music-application/src/playback/catalog_commands.rs]: requests that
    name library or mode resources, resolved against the current catalogs and
    submitted to the playback actor at that catalog generation, once more when a
    concurrent change made the resolution stale. The owners of the catalogs are
    the class [CatalogOwners]; each of its calls, and [yield_now], is where
    other tasks may act. *)

From S2P Require Import Prelude Text PlaybackState Reducer Catalog Presence Library MediaPath.
From S2P Require Import Modes Playlists.

#[local] Open Scope string_scope.
#[local] Open Scope list_scope.

(** [ATTEMPTS] *)
Definition ATTEMPTS : nat := 2.

(* ------------------------------------------------------------------ *)
(** ** Requests and errors *)

Inductive CatalogRequest : Type :=
| Request_SetActiveMode (mode_id : option string)
| Request_PlayTrack (track_id : TrackId)
| Request_SetQueue (track_ids : list TrackId)
| Request_Enqueue (track_id : TrackId) (position : option nat)
| Request_PlayPlaylist (playlist_id : Z) (start_index : nat)
| Request_PlayFolder (path : string) (start_index : nat)
| Request_SetActiveSoundboard (soundboard_id : option string)
| Request_SetActivePresets (preset_ids : list string)
| Request_InterruptTrack (track_id : TrackId) (fade : InterruptFade)
| Request_InterruptPlaylist (playlist_id : Z) (fade : InterruptFade)
| Request_FireCue (cue_id : string)
| Request_FireSfx (soundboard_id item_path : string) (volume : UnitInterval)
| Request_StartLoop (looping : LoopingSfx).

Inductive PlaylistProblem : Type :=
| Problem_NotFound | Problem_InvalidRule | Problem_ConcurrentChange | Problem_Unavailable.

Inductive CatalogCommandError : Type :=
| NotReady
| PlaybackFailed
| CatalogChanged
| UnknownMode (mode : string)
| ModeChanged
| TrackNotInLibrary
| NoActiveMode
| NoActiveModeForSoundboard
| SoundboardNotInActiveMode (soundboard mode : string)
| SoundboardChanged
| UnknownPresets (presets : list string)
| PresetCrossfadeTooLarge
| PresetSelectionChanged
| PlaylistError (problem : PlaylistProblem)
| PlaylistEmpty
| PlaylistTrackMissing
| LibraryUnavailable
| NoTracksInLibrary
| NoTracksInFolder (path : string)
| UnknownSoundboard (soundboard mode : string)
| SoundboardItemMissing (item soundboard : string)
| SoundboardItemChanged
| UnknownCue (cue mode : string)
| CueUnknownPreset (preset : string)
| CuePresetCrossfadeTooLarge
| CueSfxUnknownSoundboard (soundboard mode : string)
| CueSfxItemMissing (item soundboard : string)
| CueLoopInvalid
| VolumeOutOfRange
| CuePlaylistMissing (name mode : string)
| CuePlaylistEmpty (name : string)
| CueStartIndexTooLarge
| ActiveModeChanged
| CueChanged.

Definition quoted (text : string) : string := "'" +:+ text +:+ "'".
Definition double_quoted (text : string) : string :=
  String (Ascii.ascii_of_nat 34) (text +:+ String (Ascii.ascii_of_nat 34) "").

(** [Display for CatalogCommandError] *)
Definition CatalogCommandError_fmt (error : CatalogCommandError) : string :=
  match error with
  | NotReady => "the required library or mode catalog is not ready"
  | PlaybackFailed => "playback action failed"
  | CatalogChanged => "catalog changed; retry the request"
  | UnknownMode mode => "unknown mode: " +:+ mode
  | ModeChanged => "mode changed; retry the request"
  | TrackNotInLibrary => "track not in library"
  | NoActiveMode => "no active mode"
  | NoActiveModeForSoundboard => "no active mode; cannot set soundboard without a mode"
  | SoundboardNotInActiveMode soundboard mode =>
      "soundboard " +:+ quoted soundboard +:+ " not in active mode " +:+ quoted mode
  | SoundboardChanged => "soundboard changed; retry the request"
  | UnknownPresets presets => "unknown preset(s): " +:+ join_with ", " presets
  | PresetCrossfadeTooLarge => "preset crossfade is too large"
  | PresetSelectionChanged => "preset selection changed; retry the request"
  | PlaylistError Problem_NotFound => "playlist not found"
  | PlaylistError Problem_InvalidRule => "automatic playlist rule is invalid"
  | PlaylistError Problem_ConcurrentChange => "playlist changed; retry the request"
  | PlaylistError Problem_Unavailable => "playlist resolution failed"
  | PlaylistEmpty => "playlist is empty"
  | PlaylistTrackMissing => "playlist contains a track that is no longer in the library"
  | LibraryUnavailable => "library resolution failed"
  | NoTracksInLibrary => "no tracks in the library"
  | NoTracksInFolder path => "no tracks in " +:+ double_quoted path
  | UnknownSoundboard soundboard mode =>
      "unknown soundboard " +:+ quoted soundboard +:+ " in mode " +:+ quoted mode
  | SoundboardItemMissing item soundboard =>
      "item " +:+ quoted item +:+ " not in soundboard " +:+ quoted soundboard
  | SoundboardItemChanged => "soundboard item changed; retry the request"
  | UnknownCue cue mode => "unknown cue " +:+ quoted cue +:+ " in mode " +:+ quoted mode
  | CueUnknownPreset preset => "cue references unknown preset " +:+ quoted preset
  | CuePresetCrossfadeTooLarge => "cue preset crossfade is too large"
  | CueSfxUnknownSoundboard soundboard mode =>
      "cue SFX: unknown soundboard " +:+ quoted soundboard +:+ " in mode " +:+ quoted mode
  | CueSfxItemMissing item soundboard =>
      "cue SFX: item " +:+ quoted item +:+ " not in soundboard " +:+ quoted soundboard
  | CueLoopInvalid => "cue loop parameters are invalid"
  | VolumeOutOfRange => "volume is outside the supported range"
  | CuePlaylistMissing name mode => "no playlist named " +:+ quoted name +:+ " for mode " +:+ quoted mode
  | CuePlaylistEmpty name => "cue playlist " +:+ quoted name +:+ " is empty"
  | CueStartIndexTooLarge => "cue start index is too large"
  | ActiveModeChanged => "active mode changed; retry the cue"
  | CueChanged => "cue changed; retry the request"
  end.

(** [From<PlaylistServiceError>] *)
Definition from_playlist_error {E} (error : PlaylistServiceError E) : CatalogCommandError :=
  PlaylistError match error with
                | Service_NotFound => Problem_NotFound
                | Service_InvalidRule _ => Problem_InvalidRule
                | Service_ConcurrentChange => Problem_ConcurrentChange
                | _ => Problem_Unavailable
                end.

(* ------------------------------------------------------------------ *)
(** ** Resolution against the mode catalog *)

(** [u32::try_from(u64)] and [usize::try_from(u64)] *)
Definition u32_try_from (value : N) : option N := if (value <=? u32_max)%N then Some value else None.
Definition usize_try_from (value : N) : option nat :=
  if (value <=? u64_max)%N then Some (N.to_nat value) else None.

Definition volume (value : f64) : result CatalogCommandError UnitInterval :=
  map_err (fun _ => VolumeOutOfRange) (UnitInterval_new value).

Definition interrupt_command (track_ids : list TrackId) (fade : InterruptFade) : PlaybackCommand :=
  FireInterruptSequence track_ids fade.

Definition has_key {A} (key : string) (map : gmap string A) : bool := bool_decide (is_Some (map !! key)).

(** [value.map(u32::try_from).transpose().map_err(..)] *)
Definition crossfade_u32 (error : CatalogCommandError) (crossfade_ms : option N)
    : result CatalogCommandError (option N) :=
  match crossfade_ms with
  | None => Ok None
  | Some value => Some <$> ok_or error (u32_try_from value)
  end.

(** The last selected preset that sets a crossfade wins. *)
Definition selected_crossfade (mode : ModeBundle) (preset_ids : list string) : option N :=
  foldl (fun effective preset_id =>
    match bundle_presets mode !! preset_id ≫= preset_document_crossfade_ms with
    | Some crossfade_ms => Some crossfade_ms
    | None => effective
    end) None preset_ids.

(** [resolve_simple] *)
Definition resolve_simple (request : CatalogRequest) (state : PlaybackState) (known : ModeCatalog)
    : result CatalogCommandError PlaybackCommand :=
  match request with
  | Request_SetActiveMode mode_id =>
      match mode_id with
      | Some id => if negb (has_key id (mode_catalog_modes known)) then Err (UnknownMode id)
                   else Ok (SetActiveMode mode_id)
      | None => Ok (SetActiveMode mode_id)
      end
  | Request_PlayTrack track_id => Ok (AmbientPlayTrack track_id)
  | Request_SetQueue track_ids => Ok (AmbientSetQueue track_ids)
  | Request_Enqueue track_id position => Ok (AmbientEnqueue track_id position)
  | Request_InterruptTrack track_id fade => Ok (interrupt_command [track_id] fade)
  | Request_SetActiveSoundboard soundboard_id =>
      match soundboard_id with
      | Some id =>
          mode_id ← ok_or NoActiveModeForSoundboard (active_mode_id state);
          if negb (option_is_some_and (mode_catalog_modes known !! mode_id)
                     (fun mode => has_key id (bundle_soundboards mode)))
          then Err (SoundboardNotInActiveMode id mode_id)
          else Ok (SetActiveSoundboard soundboard_id)
      | None => Ok (SetActiveSoundboard soundboard_id)
      end
  | Request_SetActivePresets preset_ids =>
      let mode := mode_id ← active_mode_id state; mode_catalog_modes known !! mode_id in
      let unknown := List.filter (fun preset_id =>
        negb (option_is_some_and mode (fun mode => has_key preset_id (bundle_presets mode)))) preset_ids in
      match unknown with
      | [] =>
          crossfade_ms ← crossfade_u32 PresetCrossfadeTooLarge
            (mode ← mode; selected_crossfade mode preset_ids);
          Ok (SetActivePresets preset_ids crossfade_ms)
      | _ => Err (UnknownPresets unknown)
      end
  | _ => Err PlaybackFailed
  end.

Definition invalid_reference (request : CatalogRequest) : CatalogCommandError :=
  match request with
  | Request_SetActiveMode _ => ModeChanged
  | Request_SetActiveSoundboard _ => SoundboardChanged
  | Request_SetActivePresets _ => PresetSelectionChanged
  | _ => TrackNotInLibrary
  end.

Definition cue_item (mode : ModeBundle) (mode_id soundboard_id item_path : string)
    : result CatalogCommandError SoundboardItemDocument :=
  if negb (has_key soundboard_id (bundle_soundboards mode))
  then Err (CueSfxUnknownSoundboard soundboard_id mode_id)
  else ok_or (CueSfxItemMissing item_path soundboard_id)
         (bundle_soundboard_item mode soundboard_id item_path).

(** The parts of [resolve_cue]. *)
Definition resolve_cue_preset (mode : ModeBundle) (cue : CueDocument)
    : result CatalogCommandError (option CuePreset) :=
  match cue_document_preset cue with
  | None => Ok None
  | Some preset_id =>
      preset ← ok_or (CueUnknownPreset preset_id) (bundle_presets mode !! preset_id);
      crossfade_ms ← crossfade_u32 CuePresetCrossfadeTooLarge (preset_document_crossfade_ms preset);
      Ok (Some (mkCuePreset preset_id crossfade_ms))
  end.

Definition resolve_cue_loop (mode : ModeBundle) (mode_id cue_id : string)
    (indexed : nat * CueLoopDocument) : result CatalogCommandError LoopingSfx :=
  let '(index, spec) := indexed in
  item ← cue_item mode mode_id (cue_loop_soundboard spec) (cue_loop_item spec);
  loop_volume ← volume (cue_loop_volume spec);
  map_err (fun _ => CueLoopInvalid)
    (LoopingSfx_new ("cue:" +:+ cue_id +:+ ":" +:+ decimal (N.of_nat index)) (item_name item)
       (cue_loop_soundboard spec) (cue_loop_item spec) (cue_loop_interval_s spec) loop_volume).

Definition resolve_cue_sfx (mode : ModeBundle) (mode_id : string) (spec : CueSfxDocument)
    : result CatalogCommandError CueSfx :=
  _ ← cue_item mode mode_id (cue_sfx_document_soundboard spec) (cue_sfx_document_item spec);
  sfx_volume ← volume (cue_sfx_document_volume spec);
  Ok (mkCueSfx (cue_sfx_document_soundboard spec) (cue_sfx_document_item spec) sfx_volume).

(** [soundboard.categories.iter().flat_map(..).any(|item| item.file == item_path)] *)
Definition item_exists (soundboard : SoundboardDocument) (item_path : string) : bool :=
  existsb (fun item => String.eqb (item_file item) item_path) (soundboard_items soundboard).

(* ------------------------------------------------------------------ *)
(** ** Folders *)

Definition is_separator (byte : Ascii.ascii) : bool := Ascii.eqb byte slash || Ascii.eqb byte backslash.

Fixpoint trim_start_separators (path : string) : string :=
  match path with
  | EmptyString => EmptyString
  | String byte rest => if is_separator byte then trim_start_separators rest else path
  end.
Fixpoint trim_end_separators (path : string) : string :=
  match path with
  | EmptyString => EmptyString
  | String byte rest =>
      match trim_end_separators rest with
      | EmptyString => if is_separator byte then EmptyString else String byte EmptyString
      | trimmed => String byte trimmed
      end
  end.
Fixpoint forward_slashes (path : string) : string :=
  match path with
  | EmptyString => EmptyString
  | String byte rest => String (if Ascii.eqb byte backslash then slash else byte) (forward_slashes rest)
  end.

(** [requested.trim_matches(&['/', '\\'][..]).replace('\\', "/")] *)
Definition requested_folder (requested : string) : string :=
  forward_slashes (trim_end_separators (trim_start_separators requested)).

Fixpoint strip_prefix (prefix text : string) : option string :=
  match prefix, text with
  | EmptyString, _ => Some text
  | String a prefix, String b text => if Ascii.eqb a b then strip_prefix prefix text else None
  | _, EmptyString => None
  end.

Definition in_folder (folder : string) (track : IndexedTrack) : bool :=
  String.eqb folder "" || String.eqb (as_str (track_path track)) folder
  || option_is_some_and (strip_prefix folder (as_str (track_path track))) (starts_with_char slash).

(* ------------------------------------------------------------------ *)
(** ** The owners *)

Class CatalogOwners (W : Type) : Type := {
  owner_error : Type;
  playback_snapshot : stateful W PlaybackActorError PlaybackState;
  playback_execute : ResolvedPlaybackCommand -> stateful W PlaybackActorError ();
  library_generation : W -> N;
  library_all_tracks : stateful W owner_error (list IndexedTrack);
  modes_snapshot : W -> option ModeCatalog;
  playlist_list : PlaylistFilter ->
    stateful W (PlaylistServiceError owner_error) (list PlaylistRecord);
  playlist_track_ids : Z -> stateful W (PlaylistServiceError owner_error) (list TrackId);
  yield_now : W -> W
}.

Inductive Attempt : Type := Attempt_Applied | Attempt_Stale | Attempt_InvalidReference.

Section Commands.
Context {W : Type} `{!CatalogOwners W}.

Definition cat (A : Type) : Type := stateful W CatalogCommandError A.

(** [operation.await.map_err(f)?] *)
Definition mapped {E A} (f : E -> CatalogCommandError) (operation : stateful W E A) : cat A := fun w =>
  let '(r, w) := operation w in (map_err f r, w).

Definition playback_state : cat PlaybackState := mapped (fun _ => PlaybackFailed) playback_snapshot.

Definition mode_catalog : cat ModeCatalog :=
  known ← gets modes_snapshot; try (ok_or NotReady known).

(** [self.generation(&catalog)] *)
Definition current_generation (known : ModeCatalog) : cat CatalogGeneration :=
  gets (fun w => mkCatalogGeneration (library_generation w) (mode_catalog_generation known)).

Definition the_active_mode_id : cat string :=
  state ← playback_state; try (ok_or NoActiveMode (active_mode_id state)).

Definition submit (command : PlaybackCommand) (generation : CatalogGeneration) : cat Attempt := fun w =>
  let '(r, w) := playback_execute (resolved_at_generation command generation) w in
  match r with
  | Ok _ => (Ok Attempt_Applied, w)
  | Err (StaleCatalog _ _) => (Ok Attempt_Stale, yield_now w)
  | Err InvalidCatalogReference => (Ok Attempt_InvalidReference, w)
  | Err _ => (Err PlaybackFailed, w)
  end.

Definition submit_current (command : PlaybackCommand) : cat Attempt :=
  known ← mode_catalog;
  generation ← current_generation known;
  submit command generation.

Definition submit_sfx (command : PlaybackCommand) (generation : CatalogGeneration) : cat bool :=
  attempt ← submit command generation;
  match attempt with
  | Attempt_Applied => mret true
  | Attempt_Stale => mret false
  | Attempt_InvalidReference => throw SoundboardItemChanged
  end.

Definition playlist_tracks (playlist_id : Z) : cat (list TrackId) :=
  track_ids ← mapped from_playlist_error (playlist_track_ids playlist_id);
  match track_ids with [] => throw PlaylistEmpty | _ => mret track_ids end.

Definition yielding : cat () := modify yield_now.

Definition play_folder (requested : string) (start_index : nat) : cat bool :=
  let folder := requested_folder requested in
  before ← gets library_generation;
  tracks ← mapped (fun _ => LibraryUnavailable) library_all_tracks;
  after ← gets library_generation;
  if negb (before =? after)%N then _ ← yielding; mret false
  else
    match track_id <$> List.filter (in_folder folder) tracks with
    | [] => throw (if String.eqb requested "" then NoTracksInLibrary else NoTracksInFolder requested)
    | track_ids =>
        known ← mode_catalog;
        let generation := mkCatalogGeneration after (mode_catalog_generation known) in
        attempt ← submit (AmbientPlaySequence track_ids start_index None) generation;
        match attempt with
        | Attempt_Applied => mret true
        | Attempt_Stale => mret false
        | Attempt_InvalidReference => _ ← yielding; mret false
        end
    end.

Definition check_soundboard_item (soundboard_id item_path : string) : cat CatalogGeneration :=
  mode_id ← the_active_mode_id;
  known ← mode_catalog;
  let unknown_soundboard := UnknownSoundboard soundboard_id mode_id in
  mode ← try (ok_or unknown_soundboard (mode_catalog_modes known !! mode_id));
  soundboard ← try (ok_or unknown_soundboard (bundle_soundboards mode !! soundboard_id));
  if negb (item_exists soundboard item_path) then throw (SoundboardItemMissing item_path soundboard_id)
  else current_generation known.

(** The candidate of the cue's playlist name with the least id. *)
Definition least_id (a b : PlaylistRecord) : Prop := (playlist_id a <= playlist_id b)%Z.
#[global] Instance least_id_dec a b : Decision (least_id a b).
Proof. unfold least_id. apply _. Defined.

Definition named_playlist (name : string) (candidates : list PlaylistRecord) : option PlaylistRecord :=
  head (merge_sort least_id (List.filter (fun playlist => String.eqb (playlist_name playlist) name)
                               candidates)).

Definition resolve_cue_playlist (mode_id : string) (cue : CueDocument) : cat (option CuePlaylist) :=
  match cue_document_playlist cue with
  | None => mret None
  | Some name =>
      candidates ← mapped from_playlist_error (playlist_list (mkPlaylistFilter (Some mode_id) None));
      playlist ← try (ok_or (CuePlaylistMissing name mode_id) (named_playlist name candidates));
      track_ids ← mapped from_playlist_error (playlist_track_ids (playlist_id playlist));
      match track_ids with
      | [] => throw (CuePlaylistEmpty name)
      | _ =>
          start_index ← try (ok_or CueStartIndexTooLarge (usize_try_from (cue_document_start_index cue)));
          mret (Some (mkCuePlaylist track_ids start_index (cue_document_start_ms cue)
                        (playlist_id playlist)))
      end
  end.

Definition resolve_cue (cue_id : string) : cat (string * PlaybackCommand * CatalogGeneration) :=
  mode_id ← the_active_mode_id;
  known ← mode_catalog;
  let unknown_cue := UnknownCue cue_id mode_id in
  mode ← try (ok_or unknown_cue (mode_catalog_modes known !! mode_id));
  cue ← try (ok_or unknown_cue (bundle_cues mode !! cue_id));
  preset ← try (resolve_cue_preset mode cue);
  loops ← try (result_collect (resolve_cue_loop mode mode_id cue_id) (imap pair (cue_document_loops cue)));
  sfx ← try (result_collect (resolve_cue_sfx mode mode_id) (cue_document_sfx cue));
  playlist ← resolve_cue_playlist mode_id cue;
  generation ← current_generation known;
  mret (mode_id, FireCue (mkCuePlayback mode_id cue_id preset playlist loops sfx), generation).

(* ------------------------------------------------------------------ *)
(** ** One attempt and its retry *)

(** The arm of a playlist request: [None] asks for another attempt. *)
Definition submit_playlist (command : PlaybackCommand) : cat bool :=
  attempt ← submit_current command;
  match attempt with
  | Attempt_Applied => mret true
  | Attempt_Stale => mret false
  | Attempt_InvalidReference => throw PlaylistTrackMissing
  end.

(** The answer to a cue whose references the actor refused. *)
Definition refuse_cue (mode_id : string) : cat bool := fun w =>
  let '(r, w) := playback_snapshot w in
  let mode_changed :=
    match r with
    | Ok state => negb (bool_decide (active_mode_id state = Some mode_id))
    | Err _ => true
    end in
  (Err (if mode_changed then ActiveModeChanged else CueChanged), w).

Definition fire_cue_request (cue_id : string) : cat bool :=
  '(mode_id, command, generation) ← resolve_cue cue_id;
  attempt ← submit command generation;
  match attempt with
  | Attempt_Applied => mret true
  | Attempt_Stale => mret false
  | Attempt_InvalidReference => refuse_cue mode_id
  end.

Definition simple_request (request : CatalogRequest) (last_attempt : bool) : cat bool :=
  state ← playback_state;
  known ← mode_catalog;
  command ← try (resolve_simple request state known);
  generation ← current_generation known;
  attempt ← submit command generation;
  match attempt with
  | Attempt_Applied => mret true
  | Attempt_Stale => mret false
  | Attempt_InvalidReference =>
      if last_attempt then throw (invalid_reference request)
      else _ ← yielding; mret false
  end.

(** The body of the loop of [execute]: whether the request was applied. *)
Definition attempt_request (request : CatalogRequest) (last_attempt : bool) : cat bool :=
  match request with
  | Request_PlayFolder path start_index => play_folder path start_index
  | Request_PlayPlaylist playlist_id start_index =>
      track_ids ← playlist_tracks playlist_id;
      submit_playlist (AmbientPlaySequence track_ids start_index (Some playlist_id))
  | Request_InterruptPlaylist playlist_id fade =>
      track_ids ← playlist_tracks playlist_id;
      submit_playlist (interrupt_command track_ids fade)
  | Request_FireCue cue_id => fire_cue_request cue_id
  | Request_FireSfx soundboard_id item_path volume =>
      generation ← check_soundboard_item soundboard_id item_path;
      submit_sfx (FireSfx soundboard_id item_path volume) generation
  | Request_StartLoop looping =>
      generation ← check_soundboard_item (loop_soundboard_id looping) (loop_item_path looping);
      submit_sfx (StartLoop looping) generation
  | _ => simple_request request last_attempt
  end.

Fixpoint execute_attempts (remaining : nat) (request : CatalogRequest) : cat () :=
  match remaining with
  | O => throw CatalogChanged
  | S remaining =>
      applied ← attempt_request request (remaining =? 0)%nat;
      if applied : bool then mret () else execute_attempts remaining request
  end.

(** [CatalogCommands::execute] *)
Definition execute_request (request : CatalogRequest) : cat () := execute_attempts ATTEMPTS request.

End Commands.
