(* ===== verification/CatalogCommandsSpec.v ===== *)
(** * A catalog request is applied at most once

    Requests run against owners that change under them: every call of an owner
    and every yield may let other tasks act. Whatever those do, a request is
    submitted at most twice, always as a command of its own kind resolved at a
    generation, and it is applied exactly when it is answered positively, by its
    last submission. *)

From S2P Require Import Prelude Text PlaybackState Reducer Catalog Presence Library MediaPath.
From S2P Require Import Modes Playlists CatalogCommands.

#[local] Open Scope list_scope.

(** The commands a request may be resolved to. *)
Definition request_command (request : CatalogRequest) (command : PlaybackCommand) : Prop :=
  match request, command with
  | Request_SetActiveMode mode_id, SetActiveMode mode_id' => mode_id' = mode_id
  | Request_PlayTrack track_id, AmbientPlayTrack track_id' => track_id' = track_id
  | Request_SetQueue track_ids, AmbientSetQueue track_ids' => track_ids' = track_ids
  | Request_Enqueue track_id position, AmbientEnqueue track_id' position' =>
      track_id' = track_id /\ position' = position
  | Request_PlayPlaylist playlist_id start_index, AmbientPlaySequence track_ids start_index' source =>
      track_ids <> [] /\ start_index' = start_index /\ source = Some playlist_id
  | Request_PlayFolder _ start_index, AmbientPlaySequence track_ids start_index' source =>
      track_ids <> [] /\ start_index' = start_index /\ source = None
  | Request_SetActiveSoundboard soundboard_id, SetActiveSoundboard soundboard_id' =>
      soundboard_id' = soundboard_id
  | Request_SetActivePresets preset_ids, SetActivePresets preset_ids' _ => preset_ids' = preset_ids
  | Request_InterruptTrack track_id fade, FireInterruptSequence track_ids fade' =>
      track_ids = [track_id] /\ fade' = fade
  | Request_InterruptPlaylist _ fade, FireInterruptSequence track_ids fade' =>
      track_ids <> [] /\ fade' = fade
  | Request_FireCue id, FireCue cue => cue_id cue = id
  | Request_FireSfx soundboard_id item_path volume, FireSfx soundboard_id' item_path' volume' =>
      soundboard_id' = soundboard_id /\ item_path' = item_path /\ volume' = volume
  | Request_StartLoop looping, StartLoop looping' => looping' = looping
  | _, _ => False
  end.

Definition is_accepted {E A} (verdict : result E A) : bool :=
  match verdict with Ok _ => true | Err _ => false end.

(** The request would be resolved once more after this refusal. *)
Definition is_retried (error : PlaybackActorError) : bool :=
  match error with StaleCatalog _ _ | InvalidCatalogReference => true | _ => false end.

(* ------------------------------------------------------------------ *)
(** ** Reads and submissions *)

(** [related] is any preorder that the reading calls and the yields respect. *)
Section Reads.
Context {W : Type} `{!CatalogOwners W}.
Variable related : W -> W -> Prop.
Hypothesis related_preorder : PreOrder related.

Definition keeps {E A} (operation : stateful W E A) : Prop :=
  forall w r w', operation w = (r, w') -> related w w'.

Lemma reads_bind {E A B} (m : stateful W E A) (f : A -> stateful W E B) :
  keeps m -> (forall x, keeps (f x)) -> keeps (mbind f m).
Proof.
  intros Hm Hf w r w'. unfold mbind, stateful_bind.
  destruct (m w) as [[x|e] w1] eqn:E1; intros H.
  - transitivity w1; [by eapply Hm|by eapply Hf].
  - injection H as <- <-. by eapply Hm.
Qed.

Lemma reads_ret {E A} (x : A) : keeps (mret x : stateful W E A).
Proof. by intros w r w' [= <- <-]. Qed.
Lemma reads_throw {E A} (e : E) : keeps (throw e : stateful W E A).
Proof. by intros w r w' [= <- <-]. Qed.
Lemma reads_try {E A} (x : result E A) : keeps (try x : stateful W E A).
Proof. by intros w r w' [= <- <-]. Qed.
Lemma reads_gets {E A} (f : W -> A) : keeps (gets f : stateful W E A).
Proof. by intros w r w' [= <- <-]. Qed.

Lemma reads_mapped {E A} (f : E -> CatalogCommandError) (m : stateful W E A) :
  keeps m -> keeps (mapped f m).
Proof.
  intros Hm w r w'. unfold mapped. destruct (m w) as [x w1] eqn:E1. intros [= _ <-]. by eapply Hm.
Qed.

Record reading : Prop := {
  snapshot_reads : keeps playback_snapshot;
  tracks_reads : keeps library_all_tracks;
  list_reads filter : keeps (playlist_list filter);
  items_reads id : keeps (playlist_track_ids id);
  yield_reads w : related w (yield_now w)
}.
Hypothesis reads : reading.

Lemma keeps_playback_state : keeps playback_state.
Proof. apply reads_mapped, reads. Qed.
Lemma keeps_mode_catalog : keeps mode_catalog.
Proof. apply reads_bind; [apply reads_gets|intros known; apply reads_try]. Qed.
Lemma keeps_current_generation known : keeps (current_generation known).
Proof. apply reads_gets. Qed.
Lemma keeps_active_mode_id : keeps the_active_mode_id.
Proof. apply reads_bind; [apply keeps_playback_state|intros s; apply reads_try]. Qed.
Lemma keeps_yielding : keeps yielding.
Proof. intros w r w' [= <- <-]. apply reads. Qed.

Ltac keep :=
  repeat first
    [ apply reads_bind; [|intros] | apply reads_ret | apply reads_throw | apply reads_try
    | apply reads_gets | apply keeps_playback_state | apply keeps_mode_catalog
    | apply keeps_active_mode_id | apply keeps_yielding | apply reads_mapped, list_reads, reads
    | apply reads_mapped, items_reads, reads | apply reads_mapped, tracks_reads, reads ].

Lemma keeps_playlist_tracks id : keeps (playlist_tracks id).
Proof. unfold playlist_tracks. keep. case_match; keep. Qed.

Lemma keeps_check_soundboard_item soundboard_id item_path :
  keeps (check_soundboard_item soundboard_id item_path).
Proof. unfold check_soundboard_item. keep. case_match; keep. Qed.

Lemma keeps_resolve_cue id : keeps (resolve_cue id).
Proof.
  unfold resolve_cue, resolve_cue_playlist. keep. case_match; keep. case_match; keep.
Qed.

(** What one attempt amounts to: it ends before submitting anything, or it
    submits one command of [P] at some generation and answers the verdict. *)
Inductive submits (P : PlaybackCommand -> Prop) w (r : result CatalogCommandError bool) w' : Prop :=
| Submits w1 command generation verdict w2 :
    related w w1 ->
    playback_execute (resolved_at_generation command generation) w1 = (verdict, w2) ->
    related w2 w' -> P command ->
    match r with
    | Ok true => verdict = Ok ()
    | Ok false => exists e, verdict = Err e /\ is_retried e = true
    | Err _ => exists e, verdict = Err e
    end -> submits P w r w'.

Definition attempted (P : PlaybackCommand -> Prop) (attempt : cat bool) : Prop :=
  forall w r w', attempt w = (r, w') -> related w w' /\ r <> Ok true \/ submits P w r w'.

Lemma attempted_bind {A} P (m : cat A) (f : A -> cat bool) :
  keeps m -> (forall w x w', m w = (Ok x, w') -> attempted P (f x)) -> attempted P (mbind f m).
Proof.
  intros Hm Hf w r w'. unfold mbind, stateful_bind. destruct (m w) as [[x|e] w1] eqn:E1; intros H.
  - apply Hm in E1 as Hw. destruct (Hf _ _ _ E1 _ _ _ H) as [[Hw' Hr]|Hs].
    + left. split; [by transitivity w1|done].
    + right. destruct Hs. econstructor; [by transitivity w1|done..].
  - injection H as <- <-. left. split; [by eapply Hm|done].
Qed.

Lemma attempted_end P (m : cat bool) :
  keeps m -> (forall w r w', m w = (r, w') -> r <> Ok true) -> attempted P m.
Proof. intros Hm Hr w r w' H. left. split; [by eapply Hm|by eapply Hr]. Qed.

Lemma attempted_throw P e : attempted P (throw e).
Proof. apply attempted_end; [apply reads_throw|]. by intros w r w' [= <- _]. Qed.

(** A submission followed by what the attempt makes of the answer. *)
Lemma attempted_submit P command generation (f : Attempt -> cat bool) :
  P command ->
  (forall attempt, keeps (f attempt)) ->
  (forall w w' r, f Attempt_Applied w = (r, w') -> r = Ok true) ->
  (forall attempt w w' r, attempt <> Attempt_Applied -> f attempt w = (r, w') -> r <> Ok true) ->
  attempted P (mbind f (submit command generation)).
Proof.
  intros HP Hk Ht Hf w r w' H. right. unfold mbind, stateful_bind, submit in H.
  destruct (playback_execute _ w) as [v w1] eqn:Ex.
  assert (related w1 w') as Hw.
  { destruct v as [[]|[]]; try (by eapply Hk); try (injection H as <- <-; reflexivity).
    transitivity (yield_now w1); [apply reads|by eapply Hk]. }
  econstructor; [reflexivity|exact Ex|exact Hw|exact HP|].
  destruct v as [[]|e].
  - by rewrite (Ht _ _ _ H).
  - assert (r <> Ok true) as Hr.
    { destruct e; try (injection H as <- <-; done); by eapply Hf in H. }
    destruct r as [[]|]; [done| |by exists e].
    exists e. split; [done|]. by destruct e.
Qed.

Lemma attempted_submit_current P command (f : Attempt -> cat bool) :
  P command ->
  (forall attempt, keeps (f attempt)) ->
  (forall w w' r, f Attempt_Applied w = (r, w') -> r = Ok true) ->
  (forall attempt w w' r, attempt <> Attempt_Applied -> f attempt w = (r, w') -> r <> Ok true) ->
  attempted P (mbind f (submit_current command)).
Proof.
  intros HP Hk Ht Hf w r w' H.
  assert (mbind f (submit_current command) w =
          (known ← mode_catalog; generation ← current_generation known;
           mbind f (submit command generation)) w) as Heq.
  { unfold submit_current, mode_catalog, current_generation, mbind, stateful_bind, gets, try, ok_or.
    by destruct (modes_snapshot w). }
  rewrite Heq in H. revert H. apply attempted_bind; [apply keeps_mode_catalog|intros _ known _ _].
  apply attempted_bind; [apply keeps_current_generation|intros _ generation _ _].
  by apply attempted_submit.
Qed.

Lemma attempted_submit_playlist P command : P command -> attempted P (submit_playlist command).
Proof.
  intros HP. apply attempted_submit_current; [done|intros []; keep| |];
    [by intros ? ? ? [= <- _]|by intros [] ? ? ? ? [= <- _]].
Qed.

Lemma attempted_submit_sfx P command generation :
  P command -> attempted P (submit_sfx command generation).
Proof.
  intros HP. apply attempted_submit; [done|intros []; keep| |];
    [by intros ? ? ? [= <- _]|by intros [] ? ? ? ? [= <- _]].
Qed.

Lemma playlist_tracks_nonempty id w track_ids w' :
  playlist_tracks id w = (Ok track_ids, w') -> track_ids <> [].
Proof.
  unfold playlist_tracks, mbind, stateful_bind. destruct (mapped _ _ w) as [[[|t l]|e] w1];
    by intros [= <- _].
Qed.

Lemma attempted_play_folder path start_index :
  attempted (request_command (Request_PlayFolder path start_index)) (play_folder path start_index).
Proof.
  unfold play_folder. apply attempted_bind; [keep|intros _ before _ _].
  apply attempted_bind; [keep|intros _ tracks _ _].
  apply attempted_bind; [keep|intros _ after _ _].
  case_match; [apply attempted_end; [keep|by intros ? ? ? [= <- _]]|].
  destruct (track_id <$> _) as [|first others]; [apply attempted_throw|].
  apply attempted_bind; [keep|intros _ known _ _]. cbv zeta.
  apply attempted_submit; [done|intros []; keep| |];
    [by intros ? ? ? [= <- _]|by intros [] ? ? ? ? [= <- _]].
Qed.

Lemma resolve_cue_command id w mode_id command generation w' :
  resolve_cue id w = (Ok (mode_id, command, generation), w') ->
  exists preset playlist loops sfx,
    command = FireCue (mkCuePlayback mode_id id preset playlist loops sfx).
Proof.
  unfold resolve_cue. intros H.
  repeat (apply stateful_bind_ok in H as (? & ? & _ & H)). injection H as <- <- _ _. by do 4 eexists.
Qed.

Lemma attempted_cue id : attempted (request_command (Request_FireCue id)) (fire_cue_request id).
Proof.
  unfold fire_cue_request. apply attempted_bind; [apply keeps_resolve_cue|].
  intros w [[mode_id command] generation] w' H.
  apply resolve_cue_command in H as (preset & playlist & loops & sfx & ->).
  apply attempted_submit; [done| | |].
  - intros []; keep. intros w1 r w2. unfold refuse_cue.
    destruct (playback_snapshot w1) as [x w3] eqn:E1. intros [= _ <-]. by eapply snapshot_reads.
  - by intros ? ? ? [= <- _].
  - intros [] ? ? ? ?; [done|by intros [= <- _]|]. unfold refuse_cue.
    destruct (playback_snapshot _). by intros [= <- _].
Qed.

Lemma resolve_simple_command request s known command :
  resolve_simple request s known = Ok command -> request_command request command.
Proof.
  destruct request; cbn [resolve_simple]; intros H; try done; repeat (case_match; try done); inv_results;
    try done; repeat (case_match; try done); inv_results; done.
Qed.

Lemma attempted_simple request last_attempt :
  attempted (request_command request) (simple_request request last_attempt).
Proof.
  unfold simple_request. apply attempted_bind; [keep|intros _ s _ _].
  apply attempted_bind; [keep|intros _ known _ _].
  apply attempted_bind; [keep|intros w command w' [= H _]].
  apply attempted_bind; [keep|intros _ generation _ _].
  apply attempted_submit.
  - by eapply resolve_simple_command.
  - intros []; keep. case_match; keep.
  - by intros ? ? ? [= <- _].
  - intros [] ? ? ? ?; [done|by intros [= <- _]|]. destruct last_attempt; by intros [= <- _].
Qed.

Lemma attempted_request request last_attempt :
  attempted (request_command request) (attempt_request request last_attempt).
Proof.
  destruct request; cbn [attempt_request]; try apply attempted_simple.
  - apply attempted_bind; [apply keeps_playlist_tracks|intros w track_ids w' H].
    apply attempted_submit_playlist. apply playlist_tracks_nonempty in H. done.
  - apply attempted_play_folder.
  - apply attempted_bind; [apply keeps_playlist_tracks|intros w track_ids w' H].
    apply attempted_submit_playlist. apply playlist_tracks_nonempty in H. done.
  - apply attempted_cue.
  - apply attempted_bind; [apply keeps_check_soundboard_item|intros _ generation _ _].
    by apply attempted_submit_sfx.
  - apply attempted_bind; [apply keeps_check_soundboard_item|intros _ generation _ _].
    by apply attempted_submit_sfx.
Qed.

End Reads.

(* ------------------------------------------------------------------ *)
(** ** The record of the submissions *)

Definition Submission : Type := ResolvedPlaybackCommand * result PlaybackActorError ().

(** A call of the owners, with what was submitted so far beside it. *)
Definition beside {W L E A} (operation : stateful W E A) : stateful (W * L) E A := fun '(w, log) =>
  let '(r, w) := operation w in (r, (w, log)).

(** The same owners, keeping a record of every submission and its verdict. *)
Definition recording {W} (owners : CatalogOwners W) : CatalogOwners (W * list Submission) := {|
  owner_error := owner_error;
  playback_snapshot := beside playback_snapshot;
  playback_execute := fun resolved '(w, log) =>
    let '(r, w) := playback_execute resolved w in (r, (w, log ++ [(resolved, r)]));
  library_generation := fun wl => library_generation wl.1;
  library_all_tracks := beside library_all_tracks;
  modes_snapshot := fun wl => modes_snapshot wl.1;
  playlist_list := fun filter => beside (playlist_list filter);
  playlist_track_ids := fun id => beside (playlist_track_ids id);
  yield_now := fun '(w, log) => (yield_now w, log) |}.

(** A submission of the request, at some generation of the catalogs. *)
Definition of_request (request : CatalogRequest) (submission : Submission) : Prop :=
  request_command request (resolved_command submission.1) /\
  is_Some (resolved_generation submission.1).

Section Once.
Context {W : Type} (owners : CatalogOwners W).

Definition same_log (a b : W * list Submission) : Prop := a.2 = b.2.

#[local] Instance same_log_preorder : PreOrder same_log.
Proof. split; [by intros x|]. intros x y z Hxy Hyz. by unfold same_log in *; rewrite Hxy. Qed.

Lemma beside_reads {E A} (m : stateful W E A) : keeps same_log (beside m).
Proof. intros [w log] r [w' log']. unfold beside. destruct (m w). by intros [= _ _ <-]. Qed.

Lemma recording_reading : @reading _ (recording owners) same_log.
Proof. split; try (intros; apply beside_reads). by intros []. Qed.

Lemma attempt_recorded request last_attempt log w r w' log' :
  @attempt_request _ (recording owners) request last_attempt (w, log) = (r, (w', log')) ->
  log' = log /\ r <> Ok true \/
  exists submission, log' = log ++ [submission] /\ of_request request submission /\
    match r with
    | Ok true => submission.2 = Ok ()
    | Ok false => exists e, submission.2 = Err e /\ is_retried e = true
    | Err _ => exists e, submission.2 = Err e
    end.
Proof.
  intros H. apply (attempted_request same_log) in H as [[Hl Hr]|[w1 command generation verdict w2 H1 Hx H2 Hc Hv]];
    [left; by cbn in Hl| |apply _|apply recording_reading].
  right. destruct w1 as [w1 log1], w2 as [w2 log2]. unfold same_log in H1, H2. cbn in H1, H2. subst.
  cbn in Hx. destruct (playback_execute _ w1). injection Hx as <- <- <-.
  by eexists.
Qed.

(** C15: whatever happens around it, a request is submitted at most twice and
    applied at most once: it is answered positively exactly when its last
    submission was accepted, every earlier one having been refused as stale or
    as a reference that no longer exists; and every submission is a command of
    the request at a generation of the catalogs. *)
Theorem requests_are_applied_once request w r w' log :
  @execute_request _ (recording owners) request (w, []) = (r, (w', log)) ->
  (length log <= ATTEMPTS)%nat /\ Forall (of_request request) log /\
  match r with
  | Ok () => exists earlier applied, log = earlier ++ [(applied, Ok ())] /\
               Forall (fun submission => exists e, submission.2 = Err e /\ is_retried e = true) earlier
  | Err _ => Forall (fun submission => is_accepted submission.2 = false) log
  end.
Proof.
  unfold execute_request, ATTEMPTS, execute_attempts. cbn [Nat.eqb]. intros H.
  unfold mbind, stateful_bind in H.
  destruct (attempt_request request false (w, [])) as [r1 [w1 log1]] eqn:E1.
  apply attempt_recorded in E1.
  destruct r1 as [[]|e1].
  - injection H as <- <- <-. destruct E1 as [[_ ?]|([resolved v] & -> & Hof & Hv)]; [done|].
    cbn in Hv. subst. split; [cbn; lia|]. split; [by constructor|]. by exists [], resolved.
  - destruct (attempt_request request true (w1, log1)) as [r2 [w2 log2]] eqn:E2.
    apply attempt_recorded in E2.
    assert ((length log1 <= 1)%nat /\ Forall (of_request request) log1 /\
      Forall (fun submission => exists e, submission.2 = Err e /\ is_retried e = true) log1)
      as (Hlen & Hof1 & Hr1).
    { destruct E1 as [[-> _]|(s & -> & ? & ?)]; [by split_and!; [cbn; lia|..]|].
      split_and!; [cbn; lia|by constructor..]. }
    assert (Forall (fun submission : Submission => is_accepted submission.2 = false) log1) as Hn1.
    { eapply Forall_impl; [exact Hr1|]. intros s (e & He & _). cbn beta. by rewrite He. }
    destruct E2 as [[-> Hr2]|(s2 & -> & Hof2 & Hv2)].
    + assert (log = log1) as -> by (by destruct r2 as [[]|]; injection H as _ _ <-).
      split; [lia|]. split; [done|]. by destruct r2 as [[]|]; injection H as <- _.
    + assert (log = log1 ++ [s2]) as -> by (by destruct r2 as [[]|]; injection H as _ _ <-).
      rewrite length_app. cbn [length]. split; [lia|].
      split; [by apply Forall_app; split; [|constructor]|].
      destruct r2 as [[]|]; injection H as <- _.
      * destruct s2 as [resolved v]. cbn in Hv2. subst. by exists log1, resolved.
      * apply Forall_app. split; [done|]. destruct Hv2 as (e & He & _). constructor; [by rewrite He|done].
      * apply Forall_app. split; [done|]. destruct Hv2 as (e & He). constructor; [by rewrite He|done].
  - injection H as <- <- <-. destruct E1 as [[-> _]|(s & -> & Hof & e & He)].
    + by split_and!; [cbn; lia|..].
    + split_and!; [cbn; lia|by constructor|]. constructor; [by rewrite He|done].
Qed.

End Once.
