(* ===== verification/CatalogSettled.v ===== *)
(** * Catalog requests in a settled world

    While the library and the modes do not change, the actor's catalog is the
    projection of the catalogs requests are resolved against. Then what
    [CatalogCommands] resolves is what the actor admits: a request is decided by
    its own resolution or by one execution of the actor, its refusals say what is
    really missing, and it never asks for a retry. *)

From S2P Require Import Prelude Text PlaybackState Reducer Persistence Store Catalog Presence.
From S2P Require Import Actor ActorMessages ActorLemmas Library MediaPath Modes Playlists.
From S2P Require Import CatalogCommands CatalogCommandsSpec.

#[local] Open Scope list_scope.

(* ------------------------------------------------------------------ *)
(** ** The projection of the mode catalog *)

Definition projected_modes (known : ModeCatalog) : gmap string CatalogMode :=
  CatalogMode_from <$> playback_references (mode_catalog_modes known).

Definition projected_mode (mode : ModeBundle) : CatalogMode := CatalogMode_from (mode_references mode).

Lemma lookup_projected known id :
  projected_modes known !! id = projected_mode <$> mode_catalog_modes known !! id.
Proof.
  unfold projected_modes, playback_references. rewrite !lookup_fmap.
  by destruct (mode_catalog_modes known !! id).
Qed.

Lemma find_item_file path items :
  is_Some (List.find (fun item => String.eqb (item_file item) path) items) <->
  path ∈ item_file <$> items.
Proof.
  induction items as [|item items IH]; cbn; [rewrite elem_of_nil, is_Some_alt; done|].
  rewrite elem_of_cons. destruct (String.eqb_spec (item_file item) path) as [->|Hne].
  - split; [by left|by eexists].
  - rewrite IH. split; [by right|]. by intros [?|?].
Qed.

Lemma projected_item_valid mode soundboard_id path :
  item_valid (projected_mode mode) soundboard_id path
  = bool_decide (is_Some (bundle_soundboard_item mode soundboard_id path)).
Proof.
  unfold item_valid, bundle_soundboard_item. cbn. rewrite lookup_fmap.
  destruct (bundle_soundboards mode !! soundboard_id) as [soundboard|]; cbn; [|done].
  apply bool_decide_ext. by rewrite elem_of_list_to_set, find_item_file.
Qed.

Lemma item_exists_valid mode soundboard_id soundboard path :
  bundle_soundboards mode !! soundboard_id = Some soundboard ->
  item_valid (projected_mode mode) soundboard_id path = item_exists soundboard path.
Proof.
  intros Hs. rewrite projected_item_valid. unfold bundle_soundboard_item, item_exists. rewrite Hs. cbn.
  destruct (existsb _ _) eqn:Hx.
  - rewrite bool_decide_eq_true. apply find_item_file. apply existsb_exists in Hx as (item & Hin & Hf).
    apply list_elem_of_fmap. exists item. apply String.eqb_eq in Hf. by rewrite list_elem_of_In.
  - rewrite bool_decide_eq_false, find_item_file, list_elem_of_fmap. intros (item & -> & Hin).
    apply not_true_iff_false in Hx. apply Hx, existsb_exists. exists item.
    by rewrite String.eqb_refl, <- list_elem_of_In.
Qed.

(* ------------------------------------------------------------------ *)
(** ** The owners of a settled world *)

Record Surroundings (E : Type) : Type := mkSurroundings {
  around_library_generation : N;
  around_tracks : list IndexedTrack;
  around_modes : ModeCatalog;
  around_playlists : PlaylistFilter -> result (PlaylistServiceError E) (list PlaylistRecord);
  around_items : Z -> result (PlaylistServiceError E) (list TrackId)
}.
Arguments mkSurroundings {E}.
Arguments around_library_generation {E}.
Arguments around_tracks {E}.
Arguments around_modes {E}.
Arguments around_playlists {E}.
Arguments around_items {E}.

Section Settled.
Context {text store : Type}.
Context `{!SerdeJson text} `{!PlaybackStateStore text store}.
Context `{!PlaybackStateStoreSpec text store}.
Context {clk : PlaybackClock} {clk_spec : PlaybackClockSpec} {rnd : QueueRandom}.
Context {E : Type} (around : Surroundings E).

#[local] Notation actor := (PlaybackActor store).
Implicit Types (a : actor).

(** The actor is the real one; the other owners stand still. *)
#[local] Instance settled_owners : CatalogOwners actor := {|
  owner_error := E;
  playback_snapshot := fun a => let '(r, a) := snapshot a in (publication_state <$> r, a);
  playback_execute := fun resolved a => let '(r, a) := execute resolved a in ((fun _ => ()) <$> r, a);
  library_generation := fun _ => around_library_generation around;
  library_all_tracks := fun a => (Ok (around_tracks around), a);
  modes_snapshot := fun _ => Some (around_modes around);
  playlist_list := fun filter a => (around_playlists around filter, a);
  playlist_track_ids := fun id a => (around_items around id, a);
  yield_now := fun a => a |}.

Definition library_ids : gset TrackId := list_to_set (track_id <$> around_tracks around).

(** The actor has loaded the catalogs of the surroundings, and playlists hold
    tracks of the library. *)
Record settled a : Prop := mkSettled {
  settled_generation : catalog_generation (catalog a) =
    mkCatalogGeneration (around_library_generation around)
      (mode_catalog_generation (around_modes around));
  settled_modes : catalog_modes (catalog a) = Some (projected_modes (around_modes around));
  settled_tracks : exists known, catalog_tracks (catalog a) = Some known /\ dom known = library_ids;
  settled_items : forall id track_ids, around_items around id = Ok track_ids ->
    Forall (fun track_id => track_id ∈ library_ids) track_ids
}.

Lemma settled_reads a a1 : reads a a1 -> settled a -> settled a1.
Proof.
  intros Hr [H1 H2 H3 H4]. apply reads_fields in Hr as (_ & _ & _ & _ & _ & Hc & _).
  by split; rewrite ?Hc.
Qed.

Lemma settled_tracks_valid a track_ids :
  settled a -> tracks_valid (catalog a) track_ids = true <->
               Forall (fun track_id => track_id ∈ library_ids) track_ids.
Proof.
  intros [_ _ (known & Hk & Hdom) _]. unfold tracks_valid. rewrite Hk.
  destruct track_ids as [|first others]; [by split; [constructor|]|].
  rewrite forallb_forall, Forall_forall. setoid_rewrite <- list_elem_of_In.
  split; intros H id Hin; specialize (H id Hin);
    [apply bool_decide_eq_true in H|apply bool_decide_eq_true]; by rewrite <- Hdom, elem_of_dom in *.
Qed.

(** The mode the actor checks references against. *)
Lemma settled_active_mode a mode_id :
  settled a -> active_mode_id (actor_state a) = Some mode_id ->
  active_mode (catalog a) (actor_state a)
  = projected_mode <$> mode_catalog_modes (around_modes around) !! mode_id.
Proof.
  intros [_ Hm _ _] Ha. unfold active_mode. rewrite Ha, Hm. cbn. apply lookup_projected.
Qed.

(* ------------------------------------------------------------------ *)
(** ** One submission *)

Definition resolved_here (command : PlaybackCommand) a : ResolvedPlaybackCommand :=
  resolved_at_generation command (catalog_generation (catalog a)).

(** The actor decided about the command: it was applied, or refused for a
    reason of the actor's own. *)
Inductive decided (command : PlaybackCommand) a : result CatalogCommandError bool -> actor -> Prop :=
| Decided_applied a1 v a' :
    reads a a1 -> execute (resolved_here command a) a1 = (Ok v, a') -> decided command a (Ok true) a'
| Decided_failed a1 e a' :
    reads a a1 -> execute (resolved_here command a) a1 = (Err e, a') -> is_retried e = false ->
    decided command a (Err PlaybackFailed) a'.

(** The actor found a reference missing and did nothing. *)
Definition unresolved (command : PlaybackCommand) a : Prop :=
  catalog_references_valid command (catalog a) (actor_state a) = false.

Lemma execute_settled command a a1 r a2 :
  reads a a1 -> execute (resolved_here command a) a1 = (r, a2) ->
  match r with
  | Ok _ => True
  | Err e => is_retried e = true -> e = InvalidCatalogReference /\ unresolved command a /\ a2 = a1
  end.
Proof.
  intros Hr. pose proof (reads_fields _ _ Hr) as (Hst & _ & _ & _ & _ & Hcat & _).
  unfold execute. intros H. act_simpl H.
  assert (validate_resolved_command (resolved_here command a) (catalog a1) = Ok ()) as Hv.
  { unfold validate_resolved_command. destruct (command_requires_catalog _); [|done]. cbn.
    by rewrite Hcat, bool_decide_eq_true_2. }
  rewrite Hv in H. unfold validate_live_references in H. cbn [resolved_command resolved_here] in H.
  destruct (validate_outputs _ a1) as [[]|e] eqn:Hout; cbn in H.
  2: { injection H as <- <-. unfold validate_outputs in Hout.
       destruct command; try done; repeat (case_match; try done); by simplify_eq. }
  rewrite Hcat, Hst in H. destruct (catalog_references_valid _ _ _) eqn:Href.
  2: { injection H as <- <-. done. }
  cbn in H. unfold sample_clock in H.
  destruct (clock_sample _) as [sample|e] eqn:Hclock in H; cbn in H.
  2: { injection H as <- <-. by apply clock_error in Hclock as [-> | ->]. }
  destruct (draw_queue_index _ _) as [choice a3] eqn:Hd in H.
  apply draw_queue_index_inv in Hd as (_ & _ & choice' & ->).
  destruct (reduce _ _ _) as [red|e] eqn:Hred in H; cbn in H; [|by injection H as <- <-].
  destruct r as [|e]; [done|]. apply commit_fails_with in H. by destruct e.
Qed.

Lemma submit_settled command a a1 r a2 :
  reads a a1 -> submit command (catalog_generation (catalog a)) a1 = (r, a2) ->
  match r with
  | Ok Attempt_Applied => decided command a (Ok true) a2
  | Ok Attempt_Stale => False
  | Ok Attempt_InvalidReference => unresolved command a /\ reads a a2
  | Err e => e = PlaybackFailed /\ decided command a (Err PlaybackFailed) a2
  end.
Proof.
  intros Hr. unfold submit. cbn [playback_execute settled_owners].
  destruct (execute _ a1) as [[v|e] a3] eqn:Hx; cbn.
  - intros [= <- <-]. by econstructor.
  - apply execute_settled in Hx as Hs; [|done].
    destruct e; cbn; intros [= <- <-]; try (split; [done|]; by econstructor).
    + by destruct Hs.
    + destruct Hs as (_ & ? & ->); done.
Qed.

(** A command with valid references is decided. *)
Lemma submitted_settled command a a1 (f : Attempt -> cat bool) r a2 :
  reads a a1 -> catalog_references_valid command (catalog a) (actor_state a) = true ->
  (forall w, f Attempt_Applied w = (Ok true, w)) ->
  mbind f (submit command (catalog_generation (catalog a))) a1 = (r, a2) -> decided command a r a2.
Proof.
  intros Hr Hv Hf. unfold mbind, stateful_bind.
  destruct (submit _ _ a1) as [x a3] eqn:Hs. apply submit_settled in Hs; [|done].
  destruct x as [[]|e].
  - rewrite Hf. by intros [= <- <-].
  - done.
  - destruct Hs as [Hs _]. by unfold unresolved in Hs; rewrite Hs in Hv.
  - destruct Hs as [-> Hs]. by intros [= <- <-].
Qed.

Lemma current_generation_settled a a1 :
  settled a -> reads a a1 ->
  current_generation (around_modes around) a1 = (Ok (catalog_generation (catalog a)), a1).
Proof. intros [Hg _ _ _] _. unfold current_generation, gets. by rewrite Hg. Qed.

(** What a read of the state says. *)
Lemma playback_state_settled a r a1 :
  playback_state a = (r, a1) ->
  reads a a1 /\ match r with
                | Ok s => active_mode_id s = active_mode_id (actor_state a)
                | Err e => e = PlaybackFailed /\ exists n error, clock_sample n = Err error
                end.
Proof.
  unfold playback_state, mapped, playback_snapshot, settled_owners, snapshot, mbind, stateful_bind.
  destruct (sample_clock a) as [x a2] eqn:Hs. apply sample_clock_reads in Hs as Hr.
  destruct x as [sample|e]; cbn; intros [= <- <-]; (split; [done|]).
  - unfold publication, materialize_positions. cbn.
    pose proof (reads_fields _ _ Hr) as [-> _]. by destruct (interrupt _).
  - split; [done|]. unfold sample_clock in Hs. injection Hs as Hs _. by eexists _, _.
Qed.

(* ------------------------------------------------------------------ *)
(** ** Truthful refusals *)

(** The requests [resolve_simple] resolves. *)
Definition is_simple (request : CatalogRequest) : bool :=
  match request with
  | Request_PlayPlaylist _ _ | Request_PlayFolder _ _ | Request_InterruptPlaylist _ _
  | Request_FireCue _ | Request_FireSfx _ _ _ | Request_StartLoop _ => false
  | _ => true
  end.

(** The tracks a request names itself. *)
Definition request_tracks (request : CatalogRequest) : list TrackId :=
  match request with
  | Request_PlayTrack track_id | Request_Enqueue track_id _ | Request_InterruptTrack track_id _ => [track_id]
  | Request_SetQueue track_ids => track_ids
  | _ => []
  end.

(** The bundle of the active mode. *)
Definition active_bundle a : option ModeBundle :=
  mode_id ← active_mode_id (actor_state a); mode_catalog_modes (around_modes around) !! mode_id.

(** What an error says about the world; the errors that blame a concurrent
    change are never given. *)
Definition truthful (request : CatalogRequest) a (error : CatalogCommandError) : Prop :=
  match error with
  | NotReady | LibraryUnavailable | CatalogChanged | ModeChanged | SoundboardChanged
  | PresetSelectionChanged | SoundboardItemChanged | PlaylistTrackMissing | ActiveModeChanged
  | CueChanged => False
  | PlaybackFailed => exists n failure, clock_sample n = Err failure
  | TrackNotInLibrary => exists id, id ∈ request_tracks request /\ id ∉ library_ids
  | UnknownMode mode => request = Request_SetActiveMode (Some mode) /\
                        mode_catalog_modes (around_modes around) !! mode = None
  | NoActiveMode | NoActiveModeForSoundboard => active_mode_id (actor_state a) = None
  | SoundboardNotInActiveMode soundboard mode | UnknownSoundboard soundboard mode
  | CueSfxUnknownSoundboard soundboard mode =>
      active_mode_id (actor_state a) = Some mode /\
      (bundle ← active_bundle a; bundle_soundboards bundle !! soundboard) = None
  | SoundboardItemMissing item soundboard | CueSfxItemMissing item soundboard =>
      (bundle ← active_bundle a; bundle_soundboard_item bundle soundboard item) = None
  | UnknownPresets presets =>
      presets <> [] /\ exists preset_ids, request = Request_SetActivePresets preset_ids /\
      forall id, id ∈ presets <->
        id ∈ preset_ids /\ (bundle ← active_bundle a; bundle_presets bundle !! id) = None
  | UnknownCue cue mode =>
      request = Request_FireCue cue /\ active_mode_id (actor_state a) = Some mode /\
      (bundle ← active_bundle a; bundle_cues bundle !! cue) = None
  | CueUnknownPreset preset => (bundle ← active_bundle a; bundle_presets bundle !! preset) = None
  | CuePlaylistMissing name mode =>
      exists playlists, around_playlists around (mkPlaylistFilter (Some mode) None) = Ok playlists /\
        Forall (fun playlist => playlist_name playlist <> name) playlists
  | PlaylistEmpty | CuePlaylistEmpty _ => exists id, around_items around id = Ok []
  | PlaylistError problem => exists failure, from_playlist_error failure = error /\
      ((exists id, around_items around id = Err failure) \/
       exists filter, around_playlists around filter = Err failure)
  | NoTracksInLibrary => around_tracks around = []
  | NoTracksInFolder path =>
      List.filter (in_folder (requested_folder path)) (around_tracks around) = []
  | PresetCrossfadeTooLarge | CuePresetCrossfadeTooLarge | CueLoopInvalid | VolumeOutOfRange
  | CueStartIndexTooLarge => True
  end.

(** The outcomes of an attempt: decided by the actor, refused truthfully, or
    tried once more for a track that is not in the library. *)
Inductive outcome (request : CatalogRequest) (last_attempt : bool) a
    : result CatalogCommandError bool -> actor -> Prop :=
| Outcome_decided command r a' :
    request_command request command -> decided command a r a' -> outcome request last_attempt a r a'
| Outcome_refused e a' :
    reads a a' -> truthful request a e -> outcome request last_attempt a (Err e) a'
| Outcome_retried a' :
    reads a a' -> last_attempt = false -> truthful request a TrackNotInLibrary ->
    outcome request last_attempt a (Ok false) a'.

Definition attempts_from request last_attempt a a1 (m : cat bool) : Prop :=
  forall r a', m a1 = (r, a') -> outcome request last_attempt a r a'.

Section Attempt.
Variables (request : CatalogRequest) (last_attempt : bool) (a : actor).
Hypothesis Hsettled : settled a.

#[local] Notation attempts := (attempts_from request last_attempt a).

Lemma attempts_bind {A} a1 (m : cat A) (f : A -> cat bool) :
  reads a a1 ->
  (forall x a2, m a1 = (x, a2) -> reads a1 a2 /\
     match x with Ok v => reads a a2 -> attempts a2 (f v) | Err e => truthful request a e end) ->
  attempts a1 (mbind f m).
Proof.
  intros Hr Hm r a'. unfold mbind, stateful_bind. destruct (m a1) as [[v|e] a2] eqn:Hx; intros H.
  - destruct (Hm _ _ eq_refl) as [Hr2 Hf]. apply (Hf (reads_trans _ _ _ Hr Hr2) _ _ H).
  - injection H as <- <-. destruct (Hm _ _ eq_refl) as [Hr2 Ht].
    constructor; [by eapply reads_trans|done].
Qed.

Lemma attempts_assoc {A B} a1 (m : cat A) (f : A -> cat B) (g : B -> cat bool) :
  attempts a1 (mbind (fun x => mbind g (f x)) m) -> attempts a1 (mbind g (mbind f m)).
Proof. intros H r a' Hr. apply H. rewrite <- Hr. symmetry. apply stateful_bind_assoc. Qed.

Lemma attempts_try {A} a1 (x : result CatalogCommandError A) (f : A -> cat bool) :
  reads a a1 ->
  match x with Ok v => attempts a1 (f v) | Err e => truthful request a e end ->
  attempts a1 (mbind f (try x)).
Proof.
  intros Hr Hx. apply attempts_bind; [done|]. intros y a2 [= <- <-].
  split; [apply reads_refl|]. by destruct x.
Qed.

Lemma attempts_throw a1 e : reads a a1 -> truthful request a e -> attempts a1 (throw e).
Proof. intros Hr He r a' [= <- <-]. by constructor. Qed.

Lemma attempts_modes a1 (f : ModeCatalog -> cat bool) :
  reads a a1 -> attempts a1 (f (around_modes around)) -> attempts a1 (mbind f mode_catalog).
Proof.
  intros Hr Hf. apply attempts_bind; [done|]. intros x a2 [= <- <-]. by split; [apply reads_refl|].
Qed.

Lemma attempts_generation a1 (f : CatalogGeneration -> cat bool) :
  reads a a1 -> attempts a1 (f (catalog_generation (catalog a))) ->
  attempts a1 (mbind f (current_generation (around_modes around))).
Proof.
  intros Hr Hf. apply attempts_bind; [done|]. intros x a2.
  rewrite (current_generation_settled a a1) by done. intros [= <- <-]. by split; [apply reads_refl|].
Qed.

Lemma attempts_state a1 (f : PlaybackState -> cat bool) :
  reads a a1 ->
  (forall s a2, reads a a2 -> active_mode_id s = active_mode_id (actor_state a) -> attempts a2 (f s)) ->
  attempts a1 (mbind f playback_state).
Proof.
  intros Hr Hf. apply attempts_bind; [done|]. intros x a2 Hx.
  apply playback_state_settled in Hx as [Hr2 Hx]. split; [done|].
  destruct x as [s|e]; [|by destruct Hx as [-> ?]]. intros Hr3. apply Hf; [done|].
  rewrite Hx. by pose proof (reads_fields _ _ Hr) as [-> _].
Qed.

Lemma attempts_active_mode a1 (f : string -> cat bool) :
  reads a a1 ->
  (forall mode_id a2, reads a a2 -> active_mode_id (actor_state a) = Some mode_id ->
     attempts a2 (f mode_id)) ->
  attempts a1 (mbind f the_active_mode_id).
Proof.
  intros Hr Hf. apply attempts_assoc, attempts_state; [done|]. intros s a2 Hr2 Hs. apply attempts_try; [done|].
  rewrite Hs. destruct (active_mode_id (actor_state a)) eqn:Ha; cbn; [by apply Hf|done].
Qed.

Lemma attempts_submit a1 command (f : Attempt -> cat bool) :
  reads a a1 -> request_command request command ->
  catalog_references_valid command (catalog a) (actor_state a) = true ->
  (forall w, f Attempt_Applied w = (Ok true, w)) ->
  attempts a1 (mbind f (submit command (catalog_generation (catalog a)))).
Proof.
  intros Hr Hc Hv Hf r a' H. apply (Outcome_decided _ _ _ command); [done|].
  by eapply submitted_settled.
Qed.

(* ------------------------------------------------------------------ *)
(** ** Requests for modes, soundboards, presets and tracks *)

Lemma known_tracks track_ids :
  Forall (fun id => id ∈ library_ids) track_ids -> tracks_valid (catalog a) track_ids = true.
Proof. intros H. by apply (settled_tracks_valid _ _ Hsettled). Qed.

Lemma tracks_known_or_missing track_ids :
  request_tracks request = track_ids ->
  tracks_valid (catalog a) track_ids = true \/ truthful request a TrackNotInLibrary.
Proof.
  intros Heq. destruct (decide (Forall (fun id => id ∈ library_ids) track_ids)) as [H|H].
  - left. by apply known_tracks.
  - right. apply not_Forall_Exists in H; [|apply _]. apply Exists_exists in H as (id & Hin & Hid).
    exists id. by rewrite Heq.
Qed.

Lemma has_key_lookup {A} key (map : gmap string A) : has_key key map = true <-> is_Some (map !! key).
Proof. apply bool_decide_eq_true. Qed.

Lemma projected_presets_valid mode preset_ids :
  (forall id, id ∈ preset_ids -> exists bundle, mode = Some bundle /\ is_Some (bundle_presets bundle !! id)) ->
  presets_valid (projected_mode <$> mode) preset_ids = true.
Proof.
  intros H. unfold presets_valid. destruct preset_ids as [|first others]; [done|].
  destruct (H first) as (bundle & -> & _); [by left|]. cbn [option_is_some_and fmap option_fmap option_map].
  apply forallb_forall. intros id Hin. apply bool_decide_eq_true. cbn. apply elem_of_dom.
  apply list_elem_of_In in Hin. by destruct (H id Hin) as (? & [= <-] & ?).
Qed.

Lemma active_mode_settled :
  active_mode (catalog a) (actor_state a) = projected_mode <$> active_bundle a.
Proof.
  unfold active_bundle. destruct (active_mode_id (actor_state a)) eqn:Ha; cbn.
  - by apply settled_active_mode.
  - unfold active_mode. by rewrite Ha.
Qed.

Lemma lacks_preset (mode : option ModeBundle) id :
  option_is_some_and mode (fun mode => has_key id (bundle_presets mode)) = false <->
  (bundle ← mode; bundle_presets bundle !! id) = None.
Proof.
  destruct mode; cbn; [|done]. unfold has_key. rewrite bool_decide_eq_false. symmetry.
  apply eq_None_not_Some.
Qed.

Lemma resolve_presets_settled s preset_ids :
  request = Request_SetActivePresets preset_ids ->
  active_mode_id s = active_mode_id (actor_state a) ->
  match resolve_simple request s (around_modes around) with
  | Ok command => catalog_references_valid command (catalog a) (actor_state a) = true
  | Err e => truthful request a e
  end.
Proof.
  intros Hreq Hs. rewrite Hreq. cbn [resolve_simple]. rewrite Hs. fold (active_bundle a).
  set (lacking := fun id => negb _).
  assert (forall id, lacking id = true <-> (bundle ← active_bundle a; bundle_presets bundle !! id) = None)
    as Hl by (intros id; unfold lacking; rewrite negb_true_iff; apply lacks_preset).
  destruct (List.filter lacking preset_ids) as [|first others] eqn:Hf.
  - destruct (crossfade_u32 _ _) as [crossfade|e] eqn:Hc; cbn.
    + rewrite active_mode_settled. apply projected_presets_valid. intros id Hin.
      assert (lacking id = false) as Hid.
      { destruct (lacking id) eqn:Hid; [|done]. exfalso.
        assert (id ∈ List.filter lacking preset_ids) as Hx
          by (by apply list_elem_of_In, filter_In; rewrite <- list_elem_of_In).
        rewrite Hf in Hx. by apply elem_of_nil in Hx. }
      apply not_true_iff_false in Hid. rewrite Hl in Hid.
      destruct (active_bundle a) as [bundle|]; [|done]. exists bundle.
      split; [done|]. by apply not_eq_None_Some in Hid.
    + unfold crossfade_u32 in Hc. destruct (_ ≫= _) as [value|]; [|done].
      unfold ok_or in Hc. destruct (u32_try_from value); [done|]. by simplify_eq/=.
  - cbn. split; [done|]. exists preset_ids. split; [done|]. intros id.
    rewrite <- Hf, list_elem_of_In, filter_In, <- list_elem_of_In. by rewrite Hl.
Qed.

Lemma resolve_simple_settled s :
  active_mode_id s = active_mode_id (actor_state a) ->
  match resolve_simple request s (around_modes around) with
  | Ok command =>
      catalog_references_valid command (catalog a) (actor_state a) = true \/
      truthful request a TrackNotInLibrary /\ invalid_reference request = TrackNotInLibrary
  | Err e => is_simple request = true -> truthful request a e
  end.
Proof.
  intros Hs. destruct request as [[mode|]|id|ids|id position|? ?|? ?|[soundboard|]|preset_ids|id fade|? ?|?|? ? ?|?] eqn:Hreq;
    cbn [resolve_simple is_simple catalog_references_valid interrupt_command]; try done; try by left.
  - destruct (has_key mode _) eqn:Hk; cbn.
    + left. apply has_key_lookup in Hk as [bundle Hb]. rewrite (settled_modes _ Hsettled). cbn.
      rewrite lookup_projected, Hb. by apply bool_decide_eq_true.
    + intros _. split; [done|]. apply not_true_iff_false in Hk. rewrite has_key_lookup in Hk.
      by apply eq_None_not_Some.
  - destruct (tracks_known_or_missing [id]); subst; [done|by left|by right].
  - destruct (tracks_known_or_missing ids); subst; [done|by left|by right].
  - destruct (tracks_known_or_missing [id]); subst; [done|by left|by right].
  - rewrite Hs. destruct (active_mode_id (actor_state a)) as [mode_id|] eqn:Ha; cbn; [|done].
    assert (active_bundle a = mode_catalog_modes (around_modes around) !! mode_id) as Hab.
    { unfold active_bundle. by rewrite Ha. }
    destruct (mode_catalog_modes (around_modes around) !! mode_id) as [bundle|] eqn:Hm;
      cbn [option_is_some_and negb]; [|cbn; by rewrite Hab].
    destruct (has_key soundboard _) eqn:Hk; cbn [negb].
    + left. cbn. rewrite active_mode_settled, Hab. apply has_key_lookup in Hk as [sb Hk].
      apply bool_decide_eq_true. cbn. by rewrite lookup_fmap, Hk.
    + intros _. cbn. rewrite Hab. split; [done|]. apply not_true_iff_false in Hk.
      rewrite has_key_lookup in Hk. by apply eq_None_not_Some.
  - pose proof (resolve_presets_settled s preset_ids Hreq Hs) as H. rewrite Hreq in H.
    cbn [resolve_simple] in H.
    match type of H with match ?resolved with _ => _ end => destruct resolved end; [by left|done].
  - destruct (tracks_known_or_missing [id]); subst; [done|by left|by right].
Qed.

Lemma attempts_simple : is_simple request = true -> attempts a (simple_request request last_attempt).
Proof.
  intros Hsimple. unfold simple_request. apply attempts_state; [apply reads_refl|].
  intros s a1 Hr1 Hs. apply attempts_modes; [done|].
  pose proof (resolve_simple_settled s Hs) as Hres.
  apply attempts_try; [done|]. destruct (resolve_simple _ _ _) as [command|e] eqn:Hcommand; [|by apply Hres].
  apply attempts_generation; [done|]. apply resolve_simple_command in Hcommand.
  intros r a' H. unfold mbind, stateful_bind in H.
  destruct (submit _ _ a1) as [x a2] eqn:Hsubmit. apply submit_settled in Hsubmit; [|done].
  destruct x as [[]|e].
  - injection H as <- <-. by eapply Outcome_decided.
  - done.
  - destruct Hsubmit as [Hun Hr2]. destruct Hres as [Hres|[Hmissing Heq]]; [by rewrite Hun in Hres|].
    destruct last_attempt eqn:Hlast.
    + injection H as <- <-. rewrite Heq. by constructor.
    + injection H as <- <-. by constructor.
  - destruct Hsubmit as [-> Hd]. injection H as <- <-. by eapply Outcome_decided.
Qed.

(* ------------------------------------------------------------------ *)
(** ** Folders and playlists *)

Lemma attempts_play_folder path start_index :
  request = Request_PlayFolder path start_index -> attempts a (play_folder path start_index).
Proof.
  intros Hreq. pose proof (reads_refl a) as Hr. unfold play_folder.
  apply attempts_bind; [done|]. intros x a1 [= <- <-]. split; [done|intros _].
  apply attempts_bind; [done|]. intros x a1 [= <- <-]. split; [done|intros _].
  apply attempts_bind; [done|]. intros x a1 [= <- <-]. split; [done|intros _].
  rewrite N.eqb_refl. cbn [negb].
  destruct (track_id <$> List.filter _ (around_tracks around)) as [|first others] eqn:Hids.
  - apply fmap_nil_inv in Hids.
    apply attempts_throw; [done|]. destruct (String.eqb_spec path "") as [->|Hne]; [|done].
    cbn in Hids |- *. revert Hids. generalize (around_tracks around). by intros [].
  - apply attempts_modes; [done|]. cbv zeta.
    match goal with |- context [mkCatalogGeneration ?library _] =>
      change library with (around_library_generation around) end.
    rewrite <- (settled_generation _ Hsettled).
    apply attempts_submit; [done|by rewrite Hreq| |done].
    cbn [catalog_references_valid]. apply known_tracks. rewrite <- Hids. apply Forall_forall.
    intros id (track & -> & Hin)%list_elem_of_fmap. apply elem_of_list_to_set, list_elem_of_fmap.
    exists track. split; [done|]. rewrite list_elem_of_In in Hin. apply filter_In in Hin as [Hin _].
    by apply list_elem_of_In.
Qed.

Lemma attempts_items a1 id (f : list TrackId -> cat bool) :
  reads a a1 ->
  (forall track_ids, around_items around id = Ok track_ids ->
     Forall (fun id => id ∈ library_ids) track_ids -> attempts a1 (f track_ids)) ->
  attempts a1 (mbind f (mapped from_playlist_error (playlist_track_ids id))).
Proof.
  intros Hr Hf. apply attempts_bind; [done|]. intros x a2. unfold mapped. cbn.
  intros [= <- <-]. split; [apply reads_refl|].
  destruct (around_items around id) as [track_ids|failure] eqn:Hitems; cbn [map_err].
  - intros _. apply Hf; [done|]. by apply Hsettled in Hitems.
  - cbn. exists failure. split; [done|]. left. by exists id.
Qed.

Lemma attempts_playlist_tracks id (f : list TrackId -> cat bool) :
  (forall track_ids, track_ids <> [] -> Forall (fun id => id ∈ library_ids) track_ids ->
     attempts a (f track_ids)) ->
  attempts a (mbind f (playlist_tracks id)).
Proof.
  intros Hf. apply attempts_assoc, attempts_items; [apply reads_refl|]. intros [|first others] Hitems Hall.
  - intros r a' [= <- <-]. constructor; [apply reads_refl|]. by exists id.
  - by apply Hf.
Qed.

Lemma attempts_submit_playlist command :
  request_command request command ->
  catalog_references_valid command (catalog a) (actor_state a) = true ->
  attempts a (submit_playlist command).
Proof.
  intros Hc Hv. apply attempts_assoc, attempts_modes; [apply reads_refl|].
  apply attempts_assoc, attempts_generation; [apply reads_refl|]. by apply attempts_submit; [apply reads_refl|..].
Qed.

(* ------------------------------------------------------------------ *)
(** ** Sound effects and cues *)

Lemma attempts_check_item soundboard_id item_path (f : CatalogGeneration -> cat bool) :
  (forall bundle a1, reads a a1 -> active_bundle a = Some bundle ->
     item_valid (projected_mode bundle) soundboard_id item_path = true ->
     attempts a1 (f (catalog_generation (catalog a)))) ->
  attempts a (mbind f (check_soundboard_item soundboard_id item_path)).
Proof.
  intros Hf. apply attempts_assoc, attempts_active_mode; [apply reads_refl|].
  intros mode_id a1 Hr Ha. apply attempts_assoc, attempts_modes; [done|]. cbv zeta.
  assert (active_bundle a = mode_catalog_modes (around_modes around) !! mode_id) as Hab.
  { unfold active_bundle. by rewrite Ha. }
  apply attempts_assoc, attempts_try; [done|]. rewrite <- Hab.
  destruct (active_bundle a) as [bundle|] eqn:Hb; cbn [ok_or]; [|by cbn; rewrite Hb].
  apply attempts_assoc, attempts_try; [done|].
  destruct (bundle_soundboards bundle !! soundboard_id) as [soundboard|] eqn:Hs; cbn [ok_or];
    [|by cbn; rewrite Hb].
  pose proof (item_exists_valid _ _ _ item_path Hs) as Hvalid.
  destruct (item_exists soundboard item_path) eqn:Hx; cbn [negb].
  - apply attempts_generation; [done|]. by eapply Hf.
  - intros r a' [= <- <-]. constructor; [done|]. cbn. rewrite Hb. cbn.
    rewrite projected_item_valid in Hvalid. apply bool_decide_eq_false in Hvalid.
    by apply eq_None_not_Some.
Qed.

Lemma attempts_submit_sfx a1 command :
  reads a a1 -> request_command request command ->
  catalog_references_valid command (catalog a) (actor_state a) = true ->
  attempts a1 (submit_sfx command (catalog_generation (catalog a))).
Proof. intros Hr Hc Hv. by apply attempts_submit. Qed.

Section Cue.
Variables (mode_id : string) (bundle : ModeBundle).
Hypothesis Hactive : active_mode_id (actor_state a) = Some mode_id.
Hypothesis Hbundle : active_bundle a = Some bundle.

Lemma cue_item_settled soundboard_id item_path :
  match cue_item bundle mode_id soundboard_id item_path with
  | Ok _ => item_valid (projected_mode bundle) soundboard_id item_path = true
  | Err e => truthful request a e
  end.
Proof.
  unfold cue_item. destruct (has_key soundboard_id _) eqn:Hk; cbn [negb].
  - rewrite projected_item_valid. destruct (bundle_soundboard_item bundle soundboard_id item_path) eqn:Hi;
      cbn; [done|by rewrite Hbundle].
  - cbn. rewrite Hbundle. split; [done|]. apply not_true_iff_false in Hk.
    rewrite has_key_lookup in Hk. by apply eq_None_not_Some.
Qed.

Lemma cue_preset_settled cue :
  match resolve_cue_preset bundle cue with
  | Ok preset => option_is_none_or preset (fun preset =>
      bool_decide (cue_preset_id preset ∈ mode_preset_ids (projected_mode bundle))) = true
  | Err e => truthful request a e
  end.
Proof.
  unfold resolve_cue_preset. destruct (cue_document_preset cue) as [preset_id|]; [|done].
  destruct (bundle_presets bundle !! preset_id) as [preset|] eqn:Hp; cbn; [|by rewrite Hbundle].
  unfold crossfade_u32. destruct (preset_document_crossfade_ms preset) as [value|]; cbn.
  - unfold ok_or. destruct (u32_try_from value); cbn; [|done].
    apply bool_decide_eq_true, elem_of_dom. by rewrite Hp.
  - apply bool_decide_eq_true, elem_of_dom. by rewrite Hp.
Qed.

(** Resolving the entries of a cue one after the other. *)
Lemma cue_entries_settled {A B} (resolve : A -> result CatalogCommandError B) (valid : B -> bool) entries :
  (forall entry, match resolve entry with Ok x => valid x = true | Err e => truthful request a e end) ->
  match result_collect resolve entries with
  | Ok resolved => forallb valid resolved = true
  | Err e => truthful request a e
  end.
Proof.
  intros H. destruct (result_collect resolve entries) as [resolved|e] eqn:Hr.
  - apply result_collect_inv in Hr. apply forallb_forall. intros y Hin%list_elem_of_In.
    apply list_elem_of_lookup in Hin as [i Hi].
    eapply Forall2_lookup_r in Hr as (x & _ & Hx); [|exact Hi]. specialize (H x). by rewrite Hx in H.
  - apply result_collect_err in Hr as (x & _ & Hx). specialize (H x). by rewrite Hx in H.
Qed.

Lemma cue_loop_settled id entry :
  match resolve_cue_loop bundle mode_id id entry with
  | Ok looping => item_valid (projected_mode bundle) (loop_soundboard_id looping) (loop_item_path looping) = true
  | Err e => truthful request a e
  end.
Proof.
  destruct entry as [index spec]. unfold resolve_cue_loop.
  pose proof (cue_item_settled (cue_loop_soundboard spec) (cue_loop_item spec)) as Hi.
  destruct (cue_item _ _ _ _) as [item|e]; cbn; [|done].
  unfold volume. destruct (UnitInterval_new _); cbn; [|done].
  unfold LoopingSfx_new.
  by match goal with |- context [if ?invalid then Err InvalidLoopingSfx else _] => destruct invalid end.
Qed.

Lemma cue_sfx_settled spec :
  match resolve_cue_sfx bundle mode_id spec with
  | Ok sfx => item_valid (projected_mode bundle) (cue_sfx_soundboard_id sfx) (cue_sfx_item_path sfx) = true
  | Err e => truthful request a e
  end.
Proof.
  unfold resolve_cue_sfx.
  pose proof (cue_item_settled (cue_sfx_document_soundboard spec) (cue_sfx_document_item spec)) as Hi.
  destruct (cue_item _ _ _ _) as [item|e]; cbn; [|done].
  unfold volume. by destruct (UnitInterval_new _).
Qed.

Lemma named_playlist_none name candidates :
  named_playlist name candidates = None -> Forall (fun playlist => playlist_name playlist <> name) candidates.
Proof.
  unfold named_playlist. intros H.
  assert (List.filter (fun playlist => String.eqb (playlist_name playlist) name) candidates = []) as Hf.
  { pose proof (merge_sort_Permutation least_id
      (List.filter (fun playlist => String.eqb (playlist_name playlist) name) candidates)) as Hp.
    destruct (merge_sort least_id _); [|done]. by apply Permutation_nil_l in Hp. }
  apply Forall_forall. intros playlist Hin Hname.
  assert (playlist ∈ List.filter (fun playlist => String.eqb (playlist_name playlist) name) candidates) as Hx.
  { apply list_elem_of_In, filter_In. split; [by apply list_elem_of_In|by apply String.eqb_eq]. }
  rewrite Hf in Hx. by apply elem_of_nil in Hx.
Qed.

Lemma attempts_cue_playlist a1 cue (f : option CuePlaylist -> cat bool) :
  reads a a1 ->
  (forall playlist, option_is_none_or playlist (fun playlist =>
       negb (bool_decide (cue_track_ids playlist = [])) && tracks_valid (catalog a) (cue_track_ids playlist)) = true ->
     attempts a1 (f playlist)) ->
  attempts a1 (mbind f (resolve_cue_playlist mode_id cue)).
Proof.
  intros Hr Hf. unfold resolve_cue_playlist. destruct (cue_document_playlist cue) as [name|].
  2: { apply attempts_bind; [done|]. intros x a2 [= <- <-]. split; [apply reads_refl|]. intros _. by apply Hf. }
  apply attempts_assoc, attempts_bind; [done|]. intros x a2. unfold mapped. cbn.
  intros [= <- <-]. split; [apply reads_refl|].
  destruct (around_playlists around _) as [candidates|failure] eqn:Hlist; cbn [map_err].
  2: { cbn. exists failure. split; [done|]. right. by eexists. }
  intros _. apply attempts_assoc, attempts_try; [done|].
  destruct (named_playlist name candidates) as [playlist|] eqn:Hnamed; cbn [ok_or].
  2: { cbn. exists candidates. split; [done|]. by apply named_playlist_none. }
  apply attempts_assoc, attempts_items; [done|]. intros [|first others] Hitems Hall.
  - intros r a' [= <- <-]. constructor; [done|]. by exists (playlist_id playlist).
  - apply attempts_assoc, attempts_try; [done|].
    destruct (usize_try_from _); cbn [ok_or]; [|done].
    apply attempts_bind; [done|]. intros x a2 [= <- <-]. split; [apply reads_refl|]. intros _.
    apply Hf. cbn [option_is_none_or cue_track_ids]. rewrite bool_decide_eq_false_2 by done.
    by apply known_tracks.
Qed.

End Cue.

Lemma attempts_cue id : request = Request_FireCue id -> attempts a (fire_cue_request id).
Proof.
  intros Hreq. apply attempts_assoc, attempts_active_mode; [apply reads_refl|].
  intros mode_id a1 Hr Ha. apply attempts_assoc, attempts_modes; [done|]. cbv zeta.
  assert (active_bundle a = mode_catalog_modes (around_modes around) !! mode_id) as Hab.
  { unfold active_bundle. by rewrite Ha. }
  apply attempts_assoc, attempts_try; [done|]. rewrite <- Hab.
  destruct (active_bundle a) as [bundle|] eqn:Hb; cbn [ok_or]; [|by cbn; rewrite Hb].
  apply attempts_assoc, attempts_try; [done|].
  destruct (bundle_cues bundle !! id) as [cue|] eqn:Hcue; cbn [ok_or]; [|by cbn; rewrite Hb].
  apply attempts_assoc, attempts_try; [done|].
  pose proof (cue_preset_settled bundle Hb cue) as Hpreset.
  destruct (resolve_cue_preset bundle cue) as [preset|]; [|done].
  apply attempts_assoc, attempts_try; [done|].
  pose proof (cue_entries_settled _ _ (imap pair (cue_document_loops cue))
    (cue_loop_settled mode_id bundle Ha Hb id)) as Hloops.
  destruct (result_collect (resolve_cue_loop _ _ _) _) as [loops|]; [|done].
  apply attempts_assoc, attempts_try; [done|].
  pose proof (cue_entries_settled _ _ (cue_document_sfx cue) (cue_sfx_settled mode_id bundle Ha Hb)) as Hsfx.
  destruct (result_collect (resolve_cue_sfx _ _) _) as [sfx|]; [|done].
  apply attempts_assoc, attempts_cue_playlist; [done|]. intros playlist Hplaylist.
  apply attempts_assoc, attempts_generation; [done|].
  apply attempts_bind; [done|]. intros x a2 [= <- <-]. split; [apply reads_refl|]. intros _.
  apply attempts_submit; [done|by rewrite Hreq| |done].
  cbn [catalog_references_valid]. unfold cue_references_valid.
  cbn [cue_mode_id cue_id cue_preset cue_playlist cue_loops cue_sfx].
  rewrite Ha, bool_decide_eq_true_2 by done. rewrite (settled_modes _ Hsettled). cbn [mbind option_bind].
  rewrite lookup_projected, <- Hab. cbn [fmap option_fmap option_map option_is_some_and andb].
  rewrite Hpreset, Hplaylist, Hloops, Hsfx. rewrite bool_decide_eq_true_2; [done|].
  apply elem_of_dom. by rewrite Hcue.
Qed.

Lemma attempts_request : attempts a (attempt_request request last_attempt).
Proof.
  destruct request as [mode|id|ids|id position|id start_index|path start_index|soundboard|preset_ids|id fade
    |id fade|id|soundboard_id item_path volume|looping] eqn:Hreq; cbn [attempt_request]; rewrite <- Hreq;
    try (apply attempts_simple; by rewrite Hreq).
  - apply attempts_playlist_tracks. intros track_ids Hne Hall.
    apply attempts_submit_playlist; [by rewrite Hreq|]. by apply known_tracks.
  - by apply attempts_play_folder.
  - apply attempts_playlist_tracks. intros track_ids Hne Hall.
    apply attempts_submit_playlist; [by rewrite Hreq|]. by apply known_tracks.
  - by apply attempts_cue.
  - apply attempts_check_item. intros bundle a1 Hr Hb Hv.
    apply attempts_submit_sfx; [done|by rewrite Hreq|]. cbn. rewrite active_mode_settled, Hb. done.
  - apply attempts_check_item. intros bundle a1 Hr Hb Hv.
    apply attempts_submit_sfx; [done|by rewrite Hreq|]. cbn. rewrite active_mode_settled, Hb. done.
Qed.

End Attempt.

(* ------------------------------------------------------------------ *)
(** ** Requests *)

Lemma truthful_reads request a a1 e : reads a a1 -> truthful request a1 e -> truthful request a e.
Proof.
  intros Hr. pose proof (reads_fields _ _ Hr) as [Hs _].
  unfold truthful, active_bundle. by rewrite Hs.
Qed.

Lemma decided_reads command a a1 r a' : reads a a1 -> decided command a1 r a' -> decided command a r a'.
Proof.
  intros Hr Hd. pose proof (reads_fields _ _ Hr) as (_ & _ & _ & _ & _ & Hcat & _).
  assert (resolved_here command a1 = resolved_here command a) as Heq
    by (unfold resolved_here; by rewrite Hcat).
  destruct Hd as [a2 v a' Hr2 Hx|a2 e a' Hr2 Hx He]; rewrite Heq in Hx.
  - apply (Decided_applied command a a2 v a'); [by eapply reads_trans|done].
  - apply (Decided_failed command a a2 e a'); [by eapply reads_trans|done..].
Qed.

(** C13: while neither the library nor the modes change, a request is decided at
    once: either its command is executed by the actor, which applies it or
    refuses it for a reason other than the catalogs, or it is refused with
    nothing changed and an error that says what is missing. No request is told
    to retry because something changed. *)
Theorem settled_requests_are_decided request a r a' :
  settled a -> execute_request request a = (r, a') ->
  (exists command, request_command request command /\ decided command a ((fun _ => true) <$> r) a') \/
  (exists e, r = Err e /\ reads a a' /\ truthful request a e).
Proof.
  intros Hsettled. unfold execute_request, ATTEMPTS, execute_attempts. cbn [Nat.eqb].
  intros H. unfold mbind, stateful_bind in H.
  destruct (attempt_request request false a) as [r1 a1] eqn:H1.
  apply attempts_request in H1; [|done]. destruct H1 as [command r1 a1 Hc Hd|e a1 Hr He|a1 Hr _ _].
  - left. exists command. split; [done|].
    destruct Hd as [a2 v a1 Hr Hx|a2 e a1 Hr Hx He]; injection H as <- <-; by econstructor.
  - right. injection H as <- <-. by exists e.
  - destruct (attempt_request request true a1) as [r2 a2] eqn:H2.
    apply attempts_request in H2; [|by eapply settled_reads].
    destruct H2 as [command r2 a2 Hc Hd|e a2 Hr2 He|a2 _ Hlast _]; [| |done].
    + left. exists command. split; [done|]. apply (decided_reads _ _ _ _ _ Hr) in Hd.
      destruct Hd as [a3 v a2 Hr3 Hx|a3 e a2 Hr3 Hx He]; injection H as <- <-; by econstructor.
    + right. injection H as <- <-. exists e. split_and!; [done|by eapply reads_trans|].
      by eapply truthful_reads.
Qed.

End Settled.
