(* ===== verification/CatalogScenario.v ===== *)
(** * Catalog requests on a small world

    The actor of the scenarios, loaded with the projection of a library of three
    tracks and one mode with a cue; requests that are applied and refused. *)

From S2P Require Import Prelude Text PlaybackState Reducer ReducerLemmas Persistence.
From S2P Require Import Store Catalog Presence Actor ActorMessages ActorLemmas.
From S2P Require Import Library MediaPath Modes Playlists CatalogCommands CatalogCommandsSpec.
From S2P Require Import CatalogSettled JournalStore PlaylistScenario.

#[local] Open Scope string_scope.
#[local] Open Scope list_scope.

Definition thunder : SoundboardItemDocument := mkSoundboardItemDocument "thunder.ogg" "Thunder" None None ∅.
Definition weather : SoundboardDocument := {|
  soundboard_document_id := None;
  soundboard_document_name := None;
  soundboard_categories := [mkSoundboardCategoryDocument "sky" "Sky" [thunder] ∅];
  soundboard_extra := ∅ |}.

Definition ambush : CueDocument := {|
  cue_document_id := None;
  cue_document_name := "Ambush";
  cue_document_description := None;
  cue_document_preset := Some "tense";
  cue_document_playlist := Some "Calm";
  cue_document_start_index := 1;
  cue_document_start_ms := 0;
  cue_document_sfx := [mkCueSfxDocument "weather" "thunder.ogg" (f64_of_Z 1) ∅];
  cue_document_loops := [mkCueLoopDocument "weather" "thunder.ogg" (f64_of_Z 5) (f64_of_Z 1) ∅];
  cue_document_extra := ∅ |}.

Definition dnd_bundle : ModeBundle := {|
  bundle_manifest := mkModeDocument "dnd" "D&D" None [] [] [] (mkIntegrationsDocument None ∅) 0 None false ∅;
  bundle_soundboards := {["weather" := weather]};
  bundle_cues := {["ambush" := ambush]};
  bundle_presets := {["tense" := mkPresetDocument None "Tense" None [] (Some 500%N) ∅]};
  bundle_theme_css := None |}.

Definition small_modes : ModeCatalog := mkModeCatalog 1 {["dnd" := dnd_bundle]}.

Definition calm_record : PlaylistRecord := mkPlaylistRecord 7 "Calm" (Some "dnd") None "" None None 0 0.

Definition small_world : Surroundings () := {|
  around_library_generation := 1;
  around_tracks := ok_or_else [] (all_tracks three_tracks);
  around_modes := small_modes;
  around_playlists := fun _ => Ok [calm_record];
  around_items := fun id => if (id =? 7)%Z then Ok [2; 3]%positive else Err Service_NotFound |}.

Definition small_tracks : gmap TrackId CatalogTrack :=
  list_to_map ((fun track => (track_id track, mkCatalogTrack (Some 60000%N) None)) <$> around_tracks small_world).

Definition small_catalog : CatalogSnapshot :=
  mkCatalogSnapshot (mkCatalogGeneration 1 1) (Some small_tracks) (Some (projected_modes small_modes)).

(** The actor started on that catalog, in the mode of the cue. *)
Definition small_actor : PlaybackActor Table :=
  match (start_playback_actor PlaybackActorConfig_default small_catalog empty_table).1 with
  | Ok a => (run [admit_now (SetActiveMode (Some "dnd"))] a).2
  | Err _ => blank_actor
  end.

Lemma small_loaded : catalog small_actor = small_catalog.
Proof. vm_compute. reflexivity. Qed.

Lemma small_settled : settled small_world small_actor.
Proof.
  split; rewrite ?small_loaded; [done|done| |].
  - exists small_tracks. split; [done|].
    unfold small_tracks, library_ids. by rewrite dom_list_to_map_L.
  - intros id track_ids. cbn. case_match; [|done]. intros [= <-].
    repeat constructor; apply elem_of_list_to_set; vm_compute; set_solver.
Qed.

#[local] Notation ask request := (@execute_request _ (settled_owners small_world) request small_actor).

(** The cue is fired: the queue is its playlist from the second track on. *)
Example cue_is_fired :
  (ask (Request_FireCue "ambush")).1 = Ok () /\
  let s := actor_state (ask (Request_FireCue "ambush")).2 in
  ambient_current_track_id (ambient s) = Some 3%positive /\ active_preset_ids s = ["tense"] /\
  (loop_id <$> looping_sfx s) = ["cue:ambush:0"].
Proof. cbv zeta. split_and!; vm_compute; reflexivity. Qed.

Example refusals :
  (ask (Request_PlayTrack 9)).1 = Err TrackNotInLibrary /\
  (ask (Request_PlayFolder "/Beta.mp3" 0)).1 = Ok () /\
  (ask (Request_PlayFolder "music" 0)).1 = Err (NoTracksInFolder "music") /\
  (ask (Request_FireCue "siege")).1 = Err (UnknownCue "siege" "dnd") /\
  CatalogCommandError_fmt (UnknownCue "siege" "dnd") = "unknown cue 'siege' in mode 'dnd'".
Proof. split_and!; vm_compute; reflexivity. Qed.

Lemma settled_requests_are_decided_witness :
  exists e, (ask (Request_PlayTrack 9)).1 = Err e /\ truthful small_world (Request_PlayTrack 9) small_actor e.
Proof.
  destruct (ask (Request_PlayTrack 9)) as [r a'] eqn:Hrun.
  destruct (settled_requests_are_decided small_world _ _ _ _ small_settled Hrun)
    as [(command & Hcommand & Hd)|(e & He & _ & Ht)].
  - assert (r = Err TrackNotInLibrary) as Hr.
    { pose proof (f_equal fst Hrun) as Hx. cbn [fst] in Hx. rewrite <- Hx. vm_compute. reflexivity. }
    rewrite Hr in Hd. inversion Hd.
  - exists e. split; [exact He|exact Ht].
Defined.

Lemma requests_are_applied_once_witness :
  exists log w', @execute_request _ (recording (settled_owners small_world)) (Request_PlayTrack 9) (small_actor, [])
    = (Err TrackNotInLibrary, (w', log)) /\ length log = 2%nat /\ (length log <= ATTEMPTS)%nat.
Proof.
  destruct (@execute_request _ (recording (settled_owners small_world)) (Request_PlayTrack 9) (small_actor, []))
    as [r [w' log]] eqn:Hrun.
  destruct (requests_are_applied_once _ _ _ _ _ _ Hrun) as [Hlen _]. exists log, w'.
  assert (r = Err TrackNotInLibrary /\ length log = 2%nat) as [Hr Hl].
  { pose proof (f_equal (fun x => (x.1, length x.2.2)) Hrun) as Hx. cbn [fst snd] in Hx.
    vm_compute in Hx. injection Hx as Hr Hl. split; [exact (eq_sym Hr)|exact (eq_sym Hl)]. }
  split; [rewrite Hr; reflexivity|]. split; [exact Hl|exact Hlen].
Defined.
