(* ===== verification/LibraryMutation.v ===== *)
(** * Library mutations

    [crates/music-application/src/library/metadata_patch.rs] and
    [library/mutation.rs], with [crates/music-domain/src/metadata_date.rs]: the
    edits a track's metadata takes, the changes of the library's files with the
    plan each writes in its recovery journal, what carrying one out reports, and
    that a plan read back from a journal is the mutation that wrote it. *)

From S2P Require Import Prelude Text MediaPath PlaybackState Library RecoveryJournal.

#[local] Open Scope string_scope.
#[local] Open Scope N_scope.
#[local] Open Scope list_scope.

(* ------------------------------------------------------------------ *)
(** ** Calendar dates *)

(** [text.parse::<u32>().ok()] on a text of digits. *)
Definition parse_u32 (text : string) : option N :=
  value ← parse_decimal text; if value <=? u32_max then Some value else None.

Definition is_multiple_of (value divisor : N) : bool := value mod divisor =? 0.

Definition month_days (year month : N) : N :=
  if month =? 2 then
    if is_multiple_of year 400 || (is_multiple_of year 4 && negb (is_multiple_of year 100))
    then 29 else 28
  else if existsb (N.eqb month) [4; 6; 9; 11] then 30
  else 31.

(** [.filter(|value| (1..=maximum).contains(value) && text.len() == length)] *)
Definition date_part (text : string) (maximum : N) (len : nat) : option N :=
  value ← parse_u32 text;
  if (1 <=? value) && (value <=? maximum) && (String.length text =? len)%nat
  then Some value else None.

Definition hyphen : Ascii.ascii := Ascii.ascii_of_nat 45.

Definition metadata_date_year (value : string) : option N :=
  let parts := split_on hyphen value in
  match parts with
  | year_text :: rest =>
      if negb (length parts <=? 3)%nat || negb (String.length year_text =? 4)%nat
         || negb (forallb (all_bytes is_ascii_digit) parts)
      then None
      else
        year ← date_part year_text 9999 4;
        match rest with
        | [] => Some year
        | month_text :: rest =>
            month ← date_part month_text 12 2;
            match rest with
            | [] => Some year
            | day_text :: _ => _ ← date_part day_text (month_days year month) 2; Some year
            end
        end
  | [] => None
  end.

(* ------------------------------------------------------------------ *)
(** ** Metadata patches *)

Definition MAX_TEXT_LENGTH : nat := 512.
Definition MAX_GENRE_LENGTH : nat := 128.
Definition MAX_NUMERIC_VALUE : N := 9999.

Inductive TrackMetadataField : Type :=
| Field_Title | Field_Artist | Field_AlbumArtist | Field_Album | Field_ReleaseDate
| Field_OriginalReleaseDate | Field_Composer | Field_TrackNumber | Field_DiscNumber
| Field_Year | Field_Genre | Field_Bpm | Field_DisplayTitle | Field_Origin.

#[global] Instance TrackMetadataField_eq_dec : EqDecision TrackMetadataField.
Proof. solve_decision. Defined.

Definition TrackMetadataField_as_str (field : TrackMetadataField) : string :=
  match field with
  | Field_Title => "title"
  | Field_Artist => "artist"
  | Field_AlbumArtist => "album_artist"
  | Field_Album => "album"
  | Field_ReleaseDate => "release_date"
  | Field_OriginalReleaseDate => "original_release_date"
  | Field_Composer => "composer"
  | Field_TrackNumber => "track_no"
  | Field_DiscNumber => "disc_no"
  | Field_Year => "year"
  | Field_Genre => "genre"
  | Field_Bpm => "bpm"
  | Field_DisplayTitle => "display_title"
  | Field_Origin => "origin"
  end.

Inductive TrackMetadataPatchError : Type :=
| UnknownField
| InvalidDate (field : TrackMetadataField)
| InvalidJson
| DuplicateField (field : TrackMetadataField)
| WrongValueType (field : TrackMetadataField)
| TextTooLong (field : TrackMetadataField) (maximum : nat)
| InvalidTextCharacter (field : TrackMetadataField)
| NumberOutOfRange (field : TrackMetadataField).

Definition TrackMetadataPatchError_fmt (error : TrackMetadataPatchError) : string :=
  match error with
  | InvalidDate field =>
      TrackMetadataField_as_str field +:+ " must be a calendar date: YYYY, YYYY-MM or YYYY-MM-DD"
  | UnknownField => "metadata patch field is unknown"
  | InvalidJson => "metadata patch JSON is invalid"
  | DuplicateField field => "metadata patch repeats " +:+ TrackMetadataField_as_str field
  | WrongValueType field =>
      "metadata patch has the wrong type for " +:+ TrackMetadataField_as_str field
  | TextTooLong field maximum =>
      TrackMetadataField_as_str field +:+ " exceeds " +:+ decimal (N.of_nat maximum) +:+ " characters"
  | InvalidTextCharacter field => TrackMetadataField_as_str field +:+ " contains a null character"
  | NumberOutOfRange field =>
      TrackMetadataField_as_str field +:+ " exceeds " +:+ decimal MAX_NUMERIC_VALUE
  end.

Definition TrackMetadataField_parse (value : string)
    : result TrackMetadataPatchError TrackMetadataField :=
  if String.eqb value "title" then Ok Field_Title
  else if String.eqb value "artist" then Ok Field_Artist
  else if String.eqb value "album_artist" then Ok Field_AlbumArtist
  else if String.eqb value "album" then Ok Field_Album
  else if String.eqb value "release_date" then Ok Field_ReleaseDate
  else if String.eqb value "original_release_date" then Ok Field_OriginalReleaseDate
  else if String.eqb value "composer" then Ok Field_Composer
  else if String.eqb value "track_no" then Ok Field_TrackNumber
  else if String.eqb value "disc_no" then Ok Field_DiscNumber
  else if String.eqb value "year" then Ok Field_Year
  else if String.eqb value "genre" then Ok Field_Genre
  else if String.eqb value "bpm" then Ok Field_Bpm
  else if String.eqb value "display_title" then Ok Field_DisplayTitle
  else if String.eqb value "origin" then Ok Field_Origin
  else Err UnknownField.

Lemma field_parse_as_str field :
  TrackMetadataField_parse (TrackMetadataField_as_str field) = Ok field.
Proof. by destruct field. Qed.

#[global] Instance TrackMetadataField_countable : Countable TrackMetadataField.
Proof.
  apply (inj_countable TrackMetadataField_as_str
    (fun name => result_ok (TrackMetadataField_parse name))).
  intros field. by rewrite field_parse_as_str.
Defined.

Definition is_tag_backed (field : TrackMetadataField) : bool :=
  match field with Field_DisplayTitle | Field_Origin => false | _ => true end.

Definition is_numeric (field : TrackMetadataField) : bool :=
  match field with
  | Field_TrackNumber | Field_DiscNumber | Field_Year | Field_Bpm => true
  | _ => false
  end.

(** The derived [Ord]: the order of the declaration. *)
Definition field_rank (field : TrackMetadataField) : N :=
  match field with
  | Field_Title => 0 | Field_Artist => 1 | Field_AlbumArtist => 2 | Field_Album => 3
  | Field_ReleaseDate => 4 | Field_OriginalReleaseDate => 5 | Field_Composer => 6
  | Field_TrackNumber => 7 | Field_DiscNumber => 8 | Field_Year => 9 | Field_Genre => 10
  | Field_Bpm => 11 | Field_DisplayTitle => 12 | Field_Origin => 13
  end.
Definition field_leb (a b : TrackMetadataField) : bool := field_rank a <=? field_rank b.

Inductive TrackMetadataPatchValue : Type :=
| Patch_Text (text : string)
| Patch_Number (number : N)
| Patch_Cleared.

#[global] Instance TrackMetadataPatchValue_eq_dec : EqDecision TrackMetadataPatchValue.
Proof. solve_decision. Defined.

(** [BTreeMap<TrackMetadataField, TrackMetadataPatchValue>] *)
Record TrackMetadataPatch : Type := mkTrackMetadataPatch {
  patch_changes : gmap TrackMetadataField TrackMetadataPatchValue
}.

#[global] Instance TrackMetadataPatch_eq_dec : EqDecision TrackMetadataPatch.
Proof. solve_decision. Defined.

Definition patch_new : TrackMetadataPatch := mkTrackMetadataPatch ∅.

(** A method on [&mut self]; [insert] has replaced the value it reports. *)
Definition patch_insert (field : TrackMetadataField) (value : TrackMetadataPatchValue)
    : stateful TrackMetadataPatch TrackMetadataPatchError () := fun patch =>
  let present := patch_changes patch !! field in
  let patch := mkTrackMetadataPatch (<[field := value]> (patch_changes patch)) in
  match present with
  | Some _ => (Err (DuplicateField field), patch)
  | None => (Ok (), patch)
  end.

Definition is_date (field : TrackMetadataField) : bool :=
  match field with Field_ReleaseDate | Field_OriginalReleaseDate => true | _ => false end.

Definition text_maximum (field : TrackMetadataField) : nat :=
  if decide (field = Field_Genre) then MAX_GENRE_LENGTH else MAX_TEXT_LENGTH.

Definition insert_text (field : TrackMetadataField) (value : option string)
    : stateful TrackMetadataPatch TrackMetadataPatchError () :=
  if is_numeric field then throw (WrongValueType field)
  else
    value ← match value with
            | Some value =>
                if contains_char Ascii.zero value then throw (InvalidTextCharacter field)
                else if is_date field && negb (String.eqb value "")
                     && bool_decide (metadata_date_year value = None)
                then throw (InvalidDate field)
                else if (text_maximum field <? chars_count value)%nat
                then throw (TextTooLong field (text_maximum field))
                else mret (Patch_Text value)
            | None => mret Patch_Cleared
            end;
    patch_insert field value.

Definition insert_number (field : TrackMetadataField) (value : option N)
    : stateful TrackMetadataPatch TrackMetadataPatchError () :=
  if negb (is_numeric field) then throw (WrongValueType field)
  else
    value ← match value with
            | Some value =>
                if MAX_NUMERIC_VALUE <? value then throw (NumberOutOfRange field)
                else mret (Patch_Number value)
            | None => mret Patch_Cleared
            end;
    patch_insert field value.

Definition patch_is_empty (patch : TrackMetadataPatch) : bool :=
  bool_decide (patch_changes patch = ∅).

(** [patch.changes()]: the changes in the order of the fields. *)
Definition changes (patch : TrackMetadataPatch) : list (TrackMetadataField * TrackMetadataPatchValue) :=
  sorted_entries field_leb (patch_changes patch).

Definition has_tag_changes (patch : TrackMetadataPatch) : bool :=
  existsb (fun change => is_tag_backed change.1) (changes patch).

Definition database_only (patch : TrackMetadataPatch) : TrackMetadataPatch :=
  mkTrackMetadataPatch (filter (fun change => is_tag_backed change.1 = false) (patch_changes patch)).

Definition patch_value_to_json (value : TrackMetadataPatchValue) : JsonValue :=
  match value with
  | Patch_Text value => Json_String value
  | Patch_Number value => json_number value
  | Patch_Cleared => Json_Null
  end.

Definition patch_to_json (patch : TrackMetadataPatch) : JsonValue :=
  json_map ((fun change => (TrackMetadataField_as_str change.1, patch_value_to_json change.2))
              <$> changes patch).

(** One round of the loop over [object]. *)
Definition insert_json (name : string) (value : JsonValue)
    : stateful TrackMetadataPatch TrackMetadataPatchError () :=
  field ← try (TrackMetadataField_parse name);
  if is_numeric field then
    value ← match value with
            | Json_Null => mret None
            | Json_Number _ => value ← try (ok_or InvalidJson (as_unsigned u32_max value)); mret (Some value)
            | _ => throw InvalidJson
            end;
    insert_number field value
  else
    value ← match value with
            | Json_Null => mret None
            | Json_String value => mret (Some value)
            | _ => throw InvalidJson
            end;
    insert_text field value.

Fixpoint insert_json_entries (entries : list (string * JsonValue))
    : stateful TrackMetadataPatch TrackMetadataPatchError () :=
  match entries with
  | [] => mret ()
  | (name, value) :: entries => _ ← insert_json name value; insert_json_entries entries
  end.

Definition patch_from_json (value : JsonValue) : result TrackMetadataPatchError TrackMetadataPatch :=
  match value with
  | Json_Object object =>
      if (14 <? length object)%nat then Err InvalidJson
      else
        match insert_json_entries object patch_new with
        | (Ok _, patch) => Ok patch
        | (Err error, _) => Err error
        end
  | _ => Err InvalidJson
  end.

(* ------------------------------------------------------------------ *)
(** ** Mutations *)

Inductive LibraryFileMutation : Type :=
| CreateFolder (path : LibraryPath)
| RenameFolder (source destination : LibraryPath)
| DeleteFolder (path : LibraryPath) (recursive : bool)
| MoveTrack (track_id : TrackId) (source destination : LibraryPath)
| DeleteTrack (track_id : TrackId) (path : LibraryPath)
| UpdateTrackMetadata (track_id : TrackId) (path : LibraryPath) (patch : TrackMetadataPatch)
| PublishUpload (staged destination : LibraryPath) (replace_existing : bool)
| ConvertTrack (track_id : TrackId) (source staged destination : LibraryPath)
| RestoreTrack (track_id : TrackId) (path destination : LibraryPath).

Inductive LibraryMutationValidationError : Type :=
| InvalidJournalOperation
| UnknownJournalOperation
| InvalidJournalPlan.

Definition LibraryMutationValidationError_fmt (error : LibraryMutationValidationError) : string :=
  match error with
  | InvalidJournalOperation => "library journal operation is invalid"
  | UnknownJournalOperation => "library journal operation is unknown"
  | InvalidJournalPlan => "library journal plan is invalid"
  end.

Definition operation_name (mutation : LibraryFileMutation) : string :=
  match mutation with
  | CreateFolder _ => "create_folder"
  | RenameFolder _ _ => "rename_folder"
  | DeleteFolder _ _ => "delete_folder"
  | MoveTrack _ _ _ => "move_track"
  | DeleteTrack _ _ => "delete_track"
  | UpdateTrackMetadata _ _ _ => "update_track_metadata"
  | PublishUpload _ _ _ => "publish_upload"
  | ConvertTrack _ _ _ _ => "convert_track"
  | RestoreTrack _ _ _ => "restore_track"
  end.

Definition operation (mutation : LibraryFileMutation)
    : result LibraryMutationValidationError RecoveryOperation :=
  map_err (fun _ => InvalidJournalOperation) (RecoveryOperation_parse (operation_name mutation)).

Definition json_path (path : LibraryPath) : JsonValue := Json_String (as_str path).
Definition json_track_id (track_id : TrackId) : JsonValue := json_integer (TrackId_get track_id).

Definition plan (mutation : LibraryFileMutation) : JsonValue :=
  match mutation with
  | CreateFolder path => json_map [("path", json_path path)]
  | RenameFolder source destination =>
      json_map [("source", json_path source); ("destination", json_path destination)]
  | DeleteFolder path recursive =>
      json_map [("path", json_path path); ("recursive", Json_Bool recursive)]
  | MoveTrack track_id source destination =>
      json_map [("track_id", json_track_id track_id); ("source", json_path source);
                ("destination", json_path destination)]
  | DeleteTrack track_id path =>
      json_map [("track_id", json_track_id track_id); ("path", json_path path)]
  | UpdateTrackMetadata track_id path patch =>
      json_map [("track_id", json_track_id track_id); ("path", json_path path);
                ("updates", patch_to_json patch)]
  | PublishUpload staged destination replace_existing =>
      json_map [("staged", json_path staged); ("destination", json_path destination);
                ("replace_existing", Json_Bool replace_existing)]
  | ConvertTrack track_id source staged destination =>
      json_map [("track_id", json_track_id track_id); ("source", json_path source);
                ("staged", json_path staged); ("destination", json_path destination)]
  | RestoreTrack track_id path destination =>
      json_map [("track_id", json_track_id track_id); ("path", json_path path);
                ("destination", json_path destination)]
  end.

(** [value.get(name)] *)
Definition value_get (name : string) (value : JsonValue) : option JsonValue :=
  match value with Json_Object entries => lookup_field name entries | _ => None end.

(** [Value::as_i64]: an integer in the range of [i64]. *)
Definition as_i64 (value : JsonValue) : option Z :=
  match value with
  | Json_Number (String first rest) =>
      if Ascii.eqb first hyphen then
        n ← parse_decimal rest; if (1 <=? n) && (n <=? i64_max + 1) then Some (- Z.of_N n)%Z else None
      else n ← parse_decimal (String first rest); if n <=? i64_max then Some (Z.of_N n) else None
  | _ => None
  end.

Definition parse_track_id (plan : JsonValue) : result LibraryMutationValidationError TrackId :=
  value ← ok_or InvalidJournalPlan (value_get "track_id" plan ≫= as_i64);
  map_err (fun _ => InvalidJournalPlan) (TrackId_new value).

Definition parse_path (plan : JsonValue) (name : string)
    : result LibraryMutationValidationError LibraryPath :=
  value ← ok_or InvalidJournalPlan (value_get name plan ≫= as_string);
  map_err (fun _ => InvalidJournalPlan) (path_parse value).

Definition parse_bool (plan : JsonValue) (name : string)
    : result LibraryMutationValidationError bool :=
  ok_or InvalidJournalPlan (value_get name plan ≫= as_bool).

Definition from_journal (entry : RecoveryJournalEntry)
    : result LibraryMutationValidationError LibraryFileMutation :=
  let plan := entry_plan entry in
  let name := operation_text (entry_operation entry) in
  if String.eqb name "create_folder" then
    path ← parse_path plan "path";
    Ok (CreateFolder path)
  else if String.eqb name "rename_folder" then
    source ← parse_path plan "source";
    destination ← parse_path plan "destination";
    Ok (RenameFolder source destination)
  else if String.eqb name "delete_folder" then
    path ← parse_path plan "path";
    recursive ← parse_bool plan "recursive";
    Ok (DeleteFolder path recursive)
  else if String.eqb name "move_track" then
    track_id ← parse_track_id plan;
    source ← parse_path plan "source";
    destination ← parse_path plan "destination";
    Ok (MoveTrack track_id source destination)
  else if String.eqb name "delete_track" then
    track_id ← parse_track_id plan;
    path ← parse_path plan "path";
    Ok (DeleteTrack track_id path)
  else if String.eqb name "update_track_metadata" then
    track_id ← parse_track_id plan;
    path ← parse_path plan "path";
    updates ← ok_or InvalidJournalPlan (value_get "updates" plan);
    patch ← map_err (fun _ => InvalidJournalPlan) (patch_from_json updates);
    Ok (UpdateTrackMetadata track_id path patch)
  else if String.eqb name "publish_upload" then
    staged ← parse_path plan "staged";
    destination ← parse_path plan "destination";
    replace_existing ← parse_bool plan "replace_existing";
    Ok (PublishUpload staged destination replace_existing)
  else if String.eqb name "convert_track" then
    track_id ← parse_track_id plan;
    source ← parse_path plan "source";
    staged ← parse_path plan "staged";
    destination ← parse_path plan "destination";
    Ok (ConvertTrack track_id source staged destination)
  else if String.eqb name "restore_track" then
    track_id ← parse_track_id plan;
    path ← parse_path plan "path";
    destination ← parse_path plan "destination";
    Ok (RestoreTrack track_id path destination)
  else Err UnknownJournalOperation.

Definition needs_metadata_reconciliation (mutation : LibraryFileMutation) : bool :=
  match mutation with RenameFolder _ _ => true | _ => false end.

(* ------------------------------------------------------------------ *)
(** ** Outcomes *)

Record DiscoveredTrack : Type := mkDiscoveredTrack {
  discovered_path : LibraryPath;
  discovered_metadata : TrackMetadata;
  discovered_duration : N;
  discovered_size_bytes : N;
  discovered_mtime_unix_seconds : Z
}.

Inductive LibraryFileMutationOutcome : Type :=
| Outcome_Folder (path : LibraryPath) (has_children : bool)
| TrackMoved (track_id : TrackId) (track : DiscoveredTrack)
| TrackDeleted (track_id : TrackId)
| TrackMetadataUpdated (track_id : TrackId) (discovered : option DiscoveredTrack)
    (original : option TrackOriginal)
| UploadPublished (destination : LibraryPath) (discovered : option DiscoveredTrack)
| TrackConverted (track_id : TrackId) (track : DiscoveredTrack) (original : TrackOriginal)
| TrackRestored (track_id : TrackId) (track : DiscoveredTrack)
| Outcome_Deleted.

Inductive LibraryMutationFailureKind : Type :=
| Failure_NotFound | Failure_Conflict | Failure_NotEmpty | Failure_Invalid | Failure_Io.

#[global] Instance LibraryMutationFailureKind_eq_dec : EqDecision LibraryMutationFailureKind.
Proof. solve_decision. Defined.

Record LibraryMutationFailure : Type := mkLibraryMutationFailure {
  failure_kind : LibraryMutationFailureKind;
  failure_code : string;
  requires_recovery : bool;
  failure_source : string
}.

Definition LibraryMutationFailure_new (kind : LibraryMutationFailureKind) (code source : string)
    : LibraryMutationFailure :=
  mkLibraryMutationFailure kind code (bool_decide (kind = Failure_Io)) source.
Definition LibraryMutationFailure_without_recovery (kind : LibraryMutationFailureKind)
    (code source : string) : LibraryMutationFailure :=
  mkLibraryMutationFailure kind code false source.

Inductive ReconciliationStatus : Type :=
| Reconciliation_Pending | Reconciling | Reconciliation_Current | Reconciliation_Failed.

#[global] Instance ReconciliationStatus_eq_dec : EqDecision ReconciliationStatus.
Proof. solve_decision. Defined.

Record LibraryStatus : Type := mkLibraryStatus {
  status_generation : N;
  status_status : ReconciliationStatus;
  status_scan_started_at : option Z;
  status_last_scan_at : option Z;
  status_last_error_code : option string;
  status_discovered_tracks : N
}.

Record LibraryIndexMutationCommit : Type := mkLibraryIndexMutationCommit {
  index_status : LibraryStatus;
  index_affected_tracks : N
}.

Record LibraryTrackMutationCommit : Type := mkLibraryTrackMutationCommit {
  commit_status : LibraryStatus;
  commit_track : IndexedTrack
}.

Record LibraryUploadMutationCommit : Type := mkLibraryUploadMutationCommit {
  upload_status : LibraryStatus;
  upload_track : option IndexedTrack;
  upload_affected_tracks : N
}.

Record ReconciliationSummary : Type := mkReconciliationSummary {
  summary_added : N;
  summary_updated : N;
  summary_removed : N;
  summary_unchanged : N
}.

Inductive ReconciliationCommit : Type :=
| Reconciliation_Applied (status : LibraryStatus) (summary : ReconciliationSummary)
    (track_ids : gset TrackId)
| Reconciliation_Conflict (current_generation : N).

(* ------------------------------------------------------------------ *)
(** ** What a patch may hold *)

(** The text or number [insert_text] and [insert_number] admit for a field. *)
Definition value_admitted (field : TrackMetadataField) (value : TrackMetadataPatchValue) : Prop :=
  match value with
  | Patch_Text text =>
      is_numeric field = false /\ contains_char Ascii.zero text = false /\
      (is_date field = true -> text <> "" -> metadata_date_year text <> None) /\
      (chars_count text <= text_maximum field)%nat
  | Patch_Number number => is_numeric field = true /\ number <= MAX_NUMERIC_VALUE
  | Patch_Cleared => True
  end.

Definition patch_wf (patch : TrackMetadataPatch) : Prop :=
  map_Forall value_admitted (patch_changes patch).

Lemma patch_new_wf : patch_wf patch_new.
Proof. by apply map_Forall_empty. Qed.

Lemma patch_insert_wf field value patch r patch' :
  patch_wf patch -> value_admitted field value -> patch_insert field value patch = (r, patch') ->
  patch_wf patch'.
Proof.
  intros Hpatch Hvalue. unfold patch_insert. intros Hrun.
  assert (patch' = mkTrackMetadataPatch (<[field := value]> (patch_changes patch))) as ->
    by (destruct (_ !! field); congruence).
  by apply map_Forall_insert_2.
Qed.

(** Both insertions only ever store admitted values. *)
Lemma insert_text_wf field value patch r patch' :
  patch_wf patch -> insert_text field value patch = (r, patch') -> patch_wf patch'.
Proof.
  intros Hpatch Hrun. unfold insert_text in Hrun.
  destruct (is_numeric field) eqn:Hnumeric; [by injection Hrun as _ <-|].
  unfold mbind, stateful_bind, throw, mret, stateful_ret in Hrun.
  destruct value as [value|]; [|by eapply patch_insert_wf in Hrun].
  destruct (contains_char _ _) eqn:Hnul; [by injection Hrun as _ <-|].
  destruct (is_date field && _ && _) eqn:Hdate; [by injection Hrun as _ <-|].
  destruct (Nat.ltb_spec (text_maximum field) (chars_count value)); [by injection Hrun as _ <-|].
  eapply patch_insert_wf in Hrun; [done..|]. cbn. split_and!; [done..| |done].
  intros Hd Htext Hnone. rewrite Hd in Hdate. cbn in Hdate. rewrite bool_decide_true in Hdate by done.
  by destruct (String.eqb_spec value "").
Qed.

Lemma insert_number_wf field value patch r patch' :
  patch_wf patch -> insert_number field value patch = (r, patch') -> patch_wf patch'.
Proof.
  intros Hpatch Hrun. unfold insert_number in Hrun.
  destruct (is_numeric field) eqn:Hnumeric; [|by injection Hrun as _ <-]. cbn in Hrun.
  unfold mbind, stateful_bind, throw, mret, stateful_ret in Hrun.
  destruct value as [value|]; [|by eapply patch_insert_wf in Hrun].
  destruct (N.ltb_spec MAX_NUMERIC_VALUE value); [by injection Hrun as _ <-|].
  by eapply patch_insert_wf in Hrun.
Qed.

(* ------------------------------------------------------------------ *)
(** ** Round trips *)

Lemma as_i64_json_integer track_id :
  (TrackId_get track_id <= Z.of_N i64_max)%Z -> as_i64 (json_track_id track_id) = Some (TrackId_get track_id).
Proof.
  intros Hmax. unfold json_track_id, json_integer, TrackId_get in *. cbn [decimal_Z as_i64].
  pose proof (decimal_head (Npos track_id)) as Hhead. pose proof (parse_decimal_of (Npos track_id)) as Hparse.
  destruct (decimal (Npos track_id)) as [|first rest]; [done|].
  destruct (Ascii.eqb_spec first hyphen) as [->|_]; [by destruct Hhead as [Hhead _]; vm_compute in Hhead|].
  rewrite Hparse. cbn. destruct (N.leb_spec (Npos track_id) i64_max); [done|lia].
Qed.

Lemma parse_u32_le text value : parse_u32 text = Some value -> value <= u32_max.
Proof.
  unfold parse_u32. destruct (parse_decimal text) as [v|]; cbn; [|done].
  destruct (N.leb_spec v u32_max); [|done]. by intros [= <-].
Qed.

(** What the loop of [from_json] does with a change that [to_json] wrote. *)
Lemma insert_json_value field value patch :
  value_admitted field value ->
  insert_json (TrackMetadataField_as_str field) (patch_value_to_json value) patch =
  patch_insert field value patch.
Proof.
  intros Hvalue. unfold insert_json, mbind, stateful_bind, try.
  rewrite field_parse_as_str.
  destruct value as [text|number|]; cbn [value_admitted patch_value_to_json] in *.
  - destruct Hvalue as (Hnum & Hnul & Hdate & Hlen). rewrite Hnum. cbn.
    unfold insert_text, mbind, stateful_bind, throw, mret, stateful_ret. rewrite Hnum, Hnul.
    destruct (is_date field && _ && _) eqn:Hd.
    + apply andb_true_iff in Hd as [[Hd Ht]%andb_true_iff Hn%bool_decide_eq_true_1].
      apply negb_true_iff, String.eqb_neq in Ht. by destruct (Hdate Hd Ht).
    + by destruct (Nat.ltb_spec (text_maximum field) (chars_count text)); [lia|].
  - destruct Hvalue as [Hnum Hmax]. rewrite Hnum. cbn [json_number].
    fold (json_number number). rewrite as_unsigned_of by (unfold MAX_NUMERIC_VALUE, u32_max in *; lia).
    cbn. unfold insert_number, mbind, stateful_bind, throw, mret, stateful_ret. rewrite Hnum. cbn [negb].
    by destruct (N.ltb_spec MAX_NUMERIC_VALUE number); [lia|].
  - unfold insert_text, insert_number, mbind, stateful_bind, mret, stateful_ret.
    by destruct (is_numeric field).
Qed.

Definition change_to_json (change : TrackMetadataField * TrackMetadataPatchValue) : string * JsonValue :=
  (TrackMetadataField_as_str change.1, patch_value_to_json change.2).

Lemma insert_json_changes l patch :
  NoDup (l.*1) -> (forall field, field ∈ l.*1 -> patch_changes patch !! field = None) ->
  Forall (fun change => value_admitted change.1 change.2) l ->
  insert_json_entries (change_to_json <$> l) patch =
  (Ok (), mkTrackMetadataPatch (foldl (fun m change => <[change.1 := change.2]> m) (patch_changes patch) l)).
Proof.
  revert patch. induction l as [|[field value] l IH]; intros patch Hnd Hfresh Hall.
  { cbn. by destruct patch. }
  apply NoDup_cons in Hnd as [Hfield Hnd]. apply Forall_cons in Hall as [Hvalue Hall].
  cbn [fmap list_fmap insert_json_entries change_to_json fst snd] in *.
  unfold mbind, stateful_bind. rewrite insert_json_value by done.
  unfold patch_insert. rewrite Hfresh by set_solver.
  rewrite IH; [done|done| |done]. intros other Hother. cbn.
  rewrite lookup_insert_ne by (intros ->; done). apply Hfresh. set_solver.
Qed.

Definition all_fields : list TrackMetadataField :=
  [Field_Title; Field_Artist; Field_AlbumArtist; Field_Album; Field_ReleaseDate;
   Field_OriginalReleaseDate; Field_Composer; Field_TrackNumber; Field_DiscNumber; Field_Year;
   Field_Genre; Field_Bpm; Field_DisplayTitle; Field_Origin].

Lemma fields_bounded (l : list TrackMetadataField) : NoDup l -> (length l <= 14)%nat.
Proof.
  intros Hnd. change 14%nat with (length all_fields). apply submseteq_length, NoDup_submseteq; [done|].
  intros [] _; unfold all_fields; repeat constructor.
Qed.

Lemma patch_round_trip patch : patch_wf patch -> patch_from_json (patch_to_json patch) = Ok patch.
Proof.
  intros Hwf. unfold patch_to_json. fold change_to_json.
  set (l := changes patch).
  assert (NoDup (l.*1)) as Hnd by apply NoDup_sorted_keys.
  assert (forall change, change ∈ l <-> patch_changes patch !! change.1 = Some change.2) as Hl
    by (intros []; apply elem_of_sorted_entries).
  assert ((change_to_json <$> l).*1 = TrackMetadataField_as_str <$> l.*1) as Hkeys
    by (rewrite <- !list_fmap_compose; done).
  destruct (json_map_entries (change_to_json <$> l)) as (sorted & Hsorted & Hperm).
  { rewrite Hkeys. apply NoDup_fmap_2; [|done]. intros a b Hab.
    assert (Ok (E := TrackMetadataPatchError) a = Ok b) as [=]; [|done].
    by rewrite <- (field_parse_as_str a), <- (field_parse_as_str b), Hab. }
  fold (change_to_json <$> l). change (fmap _ l) with (change_to_json <$> l). rewrite Hsorted. cbn [patch_from_json].
  apply Permutation_map_inv in Hperm as (l' & -> & Hperm).
  assert (NoDup (l'.*1)) as Hnd' by (by rewrite <- Hperm).
  rewrite length_map.
  destruct (Nat.ltb_spec 14 (length l')) as [Hlong|_].
  { pose proof (fields_bounded _ Hnd') as Hmax. rewrite length_fmap in Hmax. lia. }
  change (map change_to_json l') with (change_to_json <$> l').
  rewrite insert_json_changes; [|done..|].
  - f_equal. destruct patch as [m]. f_equal. cbn. fold (collect_map l'). apply map_eq. intros field.
    apply option_eq. intros value. rewrite collect_map_lookup by done.
    rewrite <- Hperm. apply Hl.
  - apply Forall_forall. intros change Hchange. rewrite <- Hperm in Hchange. apply Hl in Hchange.
    by apply Hwf in Hchange.
Qed.

(** The paths, ids and values the program's types hold. *)
Definition path_wf (path : LibraryPath) : Prop := path_parse (as_str path) = Ok path.
Definition id_wf (track_id : TrackId) : Prop := (TrackId_get track_id <= Z.of_N i64_max)%Z.

Definition mutation_wf (mutation : LibraryFileMutation) : Prop :=
  match mutation with
  | CreateFolder path | DeleteFolder path _ => path_wf path
  | RenameFolder source destination => path_wf source /\ path_wf destination
  | MoveTrack track_id source destination | RestoreTrack track_id source destination =>
      id_wf track_id /\ path_wf source /\ path_wf destination
  | DeleteTrack track_id path => id_wf track_id /\ path_wf path
  | UpdateTrackMetadata track_id path patch => id_wf track_id /\ path_wf path /\ patch_wf patch
  | PublishUpload staged destination _ => path_wf staged /\ path_wf destination
  | ConvertTrack track_id source staged destination =>
      id_wf track_id /\ path_wf source /\ path_wf staged /\ path_wf destination
  end.

Lemma operation_ok mutation : operation mutation = Ok (mkRecoveryOperation (operation_name mutation)).
Proof. by destruct mutation. Qed.

Lemma parse_path_at plan name path :
  value_get name plan = Some (json_path path) -> path_wf path -> parse_path plan name = Ok path.
Proof. unfold parse_path. intros ->. unfold path_wf. cbn -[path_parse]. by intros ->. Qed.

Lemma parse_track_id_at plan track_id :
  value_get "track_id" plan = Some (json_track_id track_id) -> id_wf track_id ->
  parse_track_id plan = Ok track_id.
Proof.
  unfold parse_track_id. intros -> Hid. cbn -[as_i64 json_track_id]. by rewrite as_i64_json_integer.
Qed.

(** A journal entry with a mutation's operation and plan is read back as it. *)
Lemma from_journal_plan mutation entry :
  mutation_wf mutation -> entry_operation entry = mkRecoveryOperation (operation_name mutation) ->
  entry_plan entry = plan mutation -> from_journal entry = Ok mutation.
Proof.
  intros Hwf Hoperation Hplan. unfold from_journal. rewrite Hoperation, Hplan. clear entry Hoperation Hplan.
  destruct mutation; cbn [mutation_wf] in Hwf;
    repeat match goal with H : _ /\ _ |- _ => destruct H end;
    cbn -[parse_path parse_track_id parse_bool value_get plan];
    repeat (erewrite parse_track_id_at by (reflexivity || done)); cbn -[parse_path parse_bool value_get plan];
    repeat (erewrite parse_path_at by (reflexivity || done); cbn -[parse_path parse_bool value_get plan]);
    try done.
  change (value_get _ _) with (Some (patch_to_json patch)). cbn -[patch_from_json patch_to_json].
  by rewrite patch_round_trip.
Qed.

Lemma plan_inj m n :
  mutation_wf m -> mutation_wf n -> operation_name m = operation_name n -> plan m = plan n -> m = n.
Proof.
  intros Hm Hn Hname Hplan.
  set (entry := mkRecoveryJournalEntry (mkRecoveryJournalId "") Domain_Library
    (mkRecoveryOperation (operation_name m)) Applying (plan m) Json_Null 0 0 None).
  assert (Ok (E := LibraryMutationValidationError) m = Ok n) as [=]; [|done].
  rewrite <- (from_journal_plan m entry), <- (from_journal_plan n entry); try done.
  cbn. by rewrite Hname.
Qed.

(** C31: the journal keeps a mutation: the operation and the plan that are stored for
    it, through the text of the plan, are read back as the mutation itself, and
    no other mutation has them. *)
Theorem mutation_survives_the_journal `{JsonText, !JsonTextSpec} mutation stored text entry :
  mutation_wf mutation -> operation mutation = Ok stored -> value_to_string (plan mutation) = Ok text ->
  entry_operation entry = stored -> value_from_str text = Ok (entry_plan entry) ->
  from_journal entry = Ok mutation /\
  forall other, mutation_wf other -> operation other = Ok stored -> plan other = plan mutation -> other = mutation.
Proof.
  intros Hwf Hstored Htext Hoperation Hplan. rewrite operation_ok in Hstored. injection Hstored as <-.
  apply value_from_str_to_string in Htext. rewrite Htext in Hplan. injection Hplan as Hplan.
  split; [by apply from_journal_plan|]. intros other Hother Hname Heq. rewrite operation_ok in Hname.
  injection Hname as Hname. by apply plan_inj.
Qed.
