(* ===== verification/LibraryCoordinator.v ===== *)
(** * The library coordinator

    [crates/music-application/src/library.rs]: the one task that changes the
    library. It journals a mutation, has the file effects carry it out, commits
    the index with the journal, hands the catalog to playback and publishes its
    status; it installs scans, works through batches and, when it starts,
    finishes what was interrupted. The repository, the discovery, the effects
    and the catalog sink are classes over the states they act on; [seen] records
    what the sink was given and which statuses were published, in order. The
    boxed sources of errors are dropped, the replies are returned; the three
    clean-up commands are not modelled. *)

From S2P Require Import Prelude MediaPath PlaybackState Library RecoveryJournal Catalog.
From S2P Require Import LibraryMutation.

#[local] Open Scope string_scope.
#[local] Open Scope N_scope.
#[local] Open Scope list_scope.

(* ------------------------------------------------------------------ *)
(** ** Interfaces *)

Class LibraryMutationRepository (store : Type) : Type := {
  library_error : Type;
  repository_status : stateful store library_error LibraryStatus;
  repository_track : TrackId -> stateful store library_error (option IndexedTrack);
  repository_playback_catalog : stateful store library_error (list LibraryCatalogTrack);
  begin_reconciliation : stateful store library_error LibraryStatus;
  commit_reconciliation : N -> list DiscoveredTrack -> stateful store library_error ReconciliationCommit;
  fail_reconciliation : N -> string -> stateful store library_error LibraryStatus;
  commit_folder_rename : RecoveryJournalId -> LibraryPath -> LibraryPath ->
    stateful store library_error LibraryIndexMutationCommit;
  commit_folder_delete : RecoveryJournalId -> LibraryPath ->
    stateful store library_error LibraryIndexMutationCommit;
  commit_track_move : RecoveryJournalId -> TrackId -> LibraryPath -> DiscoveredTrack ->
    stateful store library_error LibraryTrackMutationCommit;
  commit_track_delete : RecoveryJournalId -> TrackId -> LibraryPath ->
    stateful store library_error LibraryIndexMutationCommit;
  commit_track_metadata : RecoveryJournalId -> TrackId -> LibraryPath -> TrackMetadataPatch ->
    option DiscoveredTrack -> option TrackOriginal ->
    stateful store library_error LibraryTrackMutationCommit;
  commit_track_conversion : RecoveryJournalId -> TrackId -> LibraryPath -> LibraryPath ->
    DiscoveredTrack -> TrackOriginal -> stateful store library_error LibraryTrackMutationCommit;
  commit_track_restore : RecoveryJournalId -> TrackId -> LibraryPath -> DiscoveredTrack ->
    stateful store library_error LibraryTrackMutationCommit;
  commit_upload : RecoveryJournalId -> LibraryPath -> LibraryPath -> bool -> option DiscoveredTrack ->
    stateful store library_error LibraryUploadMutationCommit
}.

Record LibraryDiscoveryFailure : Type := mkLibraryDiscoveryFailure {
  discovery_code : string;
  discovery_source : string
}.

Class LibraryDiscovery (files : Type) : Type := {
  discover : stateful files LibraryDiscoveryFailure (list DiscoveredTrack)
}.

Inductive UploadConflictPolicy : Type := Policy_Rename | Policy_Overwrite | Policy_Skip.

Inductive LibraryUploadResolution : Type :=
| Resolution_Publish (destination : LibraryPath) (replace_existing : bool)
| Resolution_Skip.

Class LibraryMutationEffects (files : Type) : Type := {
  resolve_upload : LibraryPath -> UploadConflictPolicy ->
    stateful files LibraryMutationFailure LibraryUploadResolution;
  discard_upload : LibraryPath -> stateful files LibraryMutationFailure ();
  effects_apply : RecoveryJournalId -> LibraryFileMutation -> bool ->
    stateful files LibraryMutationFailure LibraryFileMutationOutcome
}.

Class LibraryCatalogSink (sink : Type) : Type := {
  sink_publish : N -> list LibraryCatalogTrack -> stateful sink string ()
}.

(** [RecoveryJournalId::new()] at its n-th call. *)
Class LibraryJournalIds : Type := { library_journal_id : nat -> RecoveryJournalId }.

(* ------------------------------------------------------------------ *)
(** ** Errors *)

Inductive LibraryCoordinatorError : Type :=
| Dependency (operation : string)
| Discovery (failure : LibraryDiscoveryFailure)
| GenerationConflict (expected current : N)
| Mutation (failure : LibraryMutationFailure)
| InvalidMutation (error : LibraryMutationValidationError)
| RecoveryConflict
| InvalidMutationOutcome
| TrackNotFound (track_id : TrackId)
| TrackAlreadyConverted (track_id : TrackId)
| TrackNotConverted (track_id : TrackId).

Definition LibraryCoordinatorError_fmt (error : LibraryCoordinatorError) : string :=
  let id track_id := Text.decimal (Npos track_id) in
  match error with
  | Dependency operation => "library coordinator could not " +:+ operation
  | Discovery failure => "library discovery failed (" +:+ discovery_code failure +:+ ")"
  | GenerationConflict expected current =>
      "library generation changed during reconciliation (expected " +:+ Text.decimal expected
      +:+ ", current " +:+ Text.decimal current +:+ ")"
  | Mutation failure => "library mutation failed (" +:+ failure_code failure +:+ ")"
  | InvalidMutation error => LibraryMutationValidationError_fmt error
  | RecoveryConflict => "library recovery journal changed unexpectedly"
  | InvalidMutationOutcome => "library mutation returned an unexpected outcome"
  | TrackNotFound track_id => "library track " +:+ id track_id +:+ " was not found"
  | TrackAlreadyConverted track_id => "library track " +:+ id track_id +:+ " is already converted"
  | TrackNotConverted track_id => "library track " +:+ id track_id +:+ " has no kept original"
  end.

Definition mutation_error_requires_recovery (error : LibraryCoordinatorError) : bool :=
  match error with
  | Dependency _ | RecoveryConflict | InvalidMutationOutcome => true
  | Mutation failure => requires_recovery failure
  | _ => false
  end.

(** [result.as_ref().is_err_and(mutation_error_requires_recovery)] *)
Definition stops_batch {A} (r : result LibraryCoordinatorError A) : bool :=
  match r with Err error => mutation_error_requires_recovery error | Ok _ => false end.

(* ------------------------------------------------------------------ *)
(** ** State *)

(** What other tasks get to see: a catalog that the sink accepted, or the status. *)
Inductive LibraryEvent : Type :=
| Catalog_published (generation : N)
| Status_published (status : LibraryStatus).

Record LibraryCoordinator (store files sink : Type) : Type := mkLibraryCoordinator {
  repository : store;
  files_of : files;
  catalog_sink : sink;
  seen : list LibraryEvent;
  journals_drawn : nat
}.
#[global] Arguments mkLibraryCoordinator {store files sink} _ _ _ _ _.
#[global] Arguments repository {store files sink} _.
#[global] Arguments files_of {store files sink} _.
#[global] Arguments catalog_sink {store files sink} _.
#[global] Arguments seen {store files sink} _.
#[global] Arguments journals_drawn {store files sink} _.

Record AppliedLibraryMutation : Type := mkAppliedLibraryMutation {
  applied_outcome : LibraryFileMutationOutcome;
  applied_affected_tracks : N;
  applied_track : option IndexedTrack
}.

Definition path_same (a b : LibraryPath) : bool := String.eqb (as_str a) (as_str b).
Definition id_same (a b : TrackId) : bool := Pos.eqb a b.
(** [discovered.as_ref().is_none_or(|track| &track.path == path)] *)
Definition none_or_at (path : LibraryPath) (discovered : option DiscoveredTrack) : bool :=
  match discovered with Some track => path_same (discovered_path track) path | None => true end.

Section Coordinator.
Context {store files sink : Type} `{LibraryMutationRepository store, RecoveryJournalRepository store}.
Context `{LibraryDiscovery files, LibraryMutationEffects files, LibraryCatalogSink sink}.
Context `{LibraryJournalIds, JsonText}.

Definition coordinator : Type := LibraryCoordinator store files sink.
Definition cmd (A : Type) : Type := stateful coordinator LibraryCoordinatorError A.

(** [self.repository.op().await.map_err(|source| dependency(operation, source))?] *)
Definition on_store {E A} (operation : string) (op : stateful store E A) : cmd A := fun c =>
  let '(r, s) := op (repository c) in
  (map_err (fun _ => Dependency operation) r,
   mkLibraryCoordinator s (files_of c) (catalog_sink c) (seen c) (journals_drawn c)).

(** A call whose error the caller looks at. *)
Definition on_store_result {E A} (op : stateful store E A) : cmd (result E A) := fun c =>
  let '(r, s) := op (repository c) in
  (Ok r, mkLibraryCoordinator s (files_of c) (catalog_sink c) (seen c) (journals_drawn c)).
Definition on_files {E A} (op : stateful files E A) : cmd (result E A) := fun c =>
  let '(r, f) := op (files_of c) in
  (Ok r, mkLibraryCoordinator (repository c) f (catalog_sink c) (seen c) (journals_drawn c)).

Definition publish_to_sink (operation : string) (generation : N) (tracks : list LibraryCatalogTrack)
    : cmd () := fun c =>
  let '(r, s) := sink_publish generation tracks (catalog_sink c) in
  (map_err (fun _ => Dependency operation) r,
   mkLibraryCoordinator (repository c) (files_of c) s
     (match r with Ok _ => seen c ++ [Catalog_published generation] | Err _ => seen c end)
     (journals_drawn c)).

(** [self.status.send_replace(status)] *)
Definition publish_status (status : LibraryStatus) : cmd () := modify (fun c =>
  mkLibraryCoordinator (repository c) (files_of c) (catalog_sink c)
    (seen c ++ [Status_published status]) (journals_drawn c)).

Definition draw_journal_id : cmd RecoveryJournalId := fun c =>
  (Ok (library_journal_id (journals_drawn c)),
   mkLibraryCoordinator (repository c) (files_of c) (catalog_sink c) (seen c) (S (journals_drawn c))).

Definition transition_applied (transition : RecoveryTransition)
    : result LibraryCoordinatorError RecoveryJournalEntry :=
  match transition with
  | Transition_Applied entry => Ok entry
  | Transition_Conflict _ => Err RecoveryConflict
  end.

Definition transition (operation : string) (id : RecoveryJournalId) (expected next : RecoveryState)
    (progress : JsonValue) : cmd RecoveryJournalEntry :=
  moved ← on_store operation (transition_recovery_journal id expected next progress);
  try (transition_applied moved).

Definition error_progress (failure : LibraryMutationFailure) : JsonValue :=
  json_map [("error_code", Json_String (failure_code failure))].

(* ------------------------------------------------------------------ *)
(** ** One mutation *)

Definition index_committed (outcome : LibraryFileMutationOutcome) (commit : LibraryIndexMutationCommit)
    : AppliedLibraryMutation * option LibraryStatus :=
  (mkAppliedLibraryMutation outcome (index_affected_tracks commit) None, Some (index_status commit)).
Definition track_committed (outcome : LibraryFileMutationOutcome) (commit : LibraryTrackMutationCommit)
    : AppliedLibraryMutation * option LibraryStatus :=
  (mkAppliedLibraryMutation outcome 1 (Some (commit_track commit)), Some (commit_status commit)).

Definition commit_applied_library_mutation (journal : RecoveryJournalId)
    (mutation : LibraryFileMutation) (outcome : LibraryFileMutationOutcome)
    : cmd (AppliedLibraryMutation * option LibraryStatus) :=
  match mutation, outcome with
  | CreateFolder expected, Outcome_Folder path _ =>
      if path_same path expected then
        _ ← transition "commit a folder creation journal" journal Applying Committed
              (json_map [("created", Json_Bool true)]);
        mret (mkAppliedLibraryMutation outcome 0 None, None)
      else throw InvalidMutationOutcome
  | RenameFolder source destination, Outcome_Folder path _ =>
      if path_same path destination then
        commit ← on_store "commit a folder rename" (commit_folder_rename journal source destination);
        mret (index_committed outcome commit)
      else throw InvalidMutationOutcome
  | DeleteFolder path _, Outcome_Deleted =>
      commit ← on_store "commit a folder deletion" (commit_folder_delete journal path);
      mret (index_committed outcome commit)
  | MoveTrack track_id source destination, TrackMoved moved_id track =>
      if id_same track_id moved_id && path_same destination (discovered_path track) then
        commit ← on_store "commit a track move" (commit_track_move journal track_id source track);
        mret (track_committed outcome commit)
      else throw InvalidMutationOutcome
  | DeleteTrack track_id path, TrackDeleted deleted_id =>
      if id_same track_id deleted_id then
        commit ← on_store "commit a track deletion" (commit_track_delete journal track_id path);
        mret (index_committed outcome commit)
      else throw InvalidMutationOutcome
  | UpdateTrackMetadata track_id path patch, TrackMetadataUpdated updated_id discovered original =>
      if id_same track_id updated_id && none_or_at path discovered then
        commit ← on_store "commit a track metadata update"
                   (commit_track_metadata journal track_id path patch discovered original);
        mret (track_committed outcome commit)
      else throw InvalidMutationOutcome
  | PublishUpload staged destination replace_existing, UploadPublished published discovered =>
      if path_same destination published && none_or_at published discovered then
        commit ← on_store "commit a library upload"
                   (commit_upload journal staged destination replace_existing discovered);
        mret (mkAppliedLibraryMutation outcome (upload_affected_tracks commit) (upload_track commit),
              Some (upload_status commit))
      else throw InvalidMutationOutcome
  | ConvertTrack track_id source staged destination, TrackConverted converted_id track original =>
      if id_same track_id converted_id && path_same destination (discovered_path track) then
        commit ← on_store "commit a track conversion"
                   (commit_track_conversion journal track_id source staged track original);
        mret (track_committed outcome commit)
      else throw InvalidMutationOutcome
  | RestoreTrack track_id path destination, TrackRestored restored_id track =>
      if id_same track_id restored_id && path_same destination (discovered_path track) then
        commit ← on_store "commit a track restore" (commit_track_restore journal track_id path track);
        mret (track_committed outcome commit)
      else throw InvalidMutationOutcome
  | _, _ => throw InvalidMutationOutcome
  end.

Definition apply_mutation (mutation : LibraryFileMutation) (publish_catalog : bool)
    : cmd AppliedLibraryMutation :=
  operation ← try (map_err InvalidMutation (operation mutation));
  id ← draw_journal_id;
  draft ← try (map_err (fun _ => Dependency "validate a library mutation journal")
                 (RecoveryJournalDraft_new id Domain_Library operation (plan mutation)));
  planned ← on_store "create a library mutation journal" (create_recovery_journal draft);
  applying ← transition "start a library mutation journal" (entry_id planned) Planned Applying
               (Json_Object []);
  effect ← on_files (effects_apply (entry_id applying) mutation false);
  match effect with
  | Err failure =>
      _ ← (if requires_recovery failure then mret ()
           else
             _ ← transition "record a failed library mutation" (entry_id applying) Applying State_Failed
                   (error_progress failure);
             mret ());
      throw (Mutation failure)
  | Ok outcome =>
      committed ← commit_applied_library_mutation (entry_id applying) mutation outcome;
      match committed with
      | (applied, Some status) =>
          _ ← (if publish_catalog then
                 tracks ← on_store "load the mutated track catalog" repository_playback_catalog;
                 publish_to_sink "publish the mutated track catalog" (status_generation status) tracks
               else mret ());
          _ ← publish_status status;
          mret applied
      | (applied, None) => mret applied
      end
  end.

Definition load_track (operation : string) (track_id : TrackId) : cmd IndexedTrack :=
  track ← on_store operation (repository_track track_id);
  try (ok_or (TrackNotFound track_id) track).

(** [applied.track.ok_or(..)] for the outcome that was asked for. *)
Definition applied_track_of (expected : bool) (applied : AppliedLibraryMutation) : cmd IndexedTrack :=
  if expected then try (ok_or InvalidMutationOutcome (applied_track applied))
  else throw InvalidMutationOutcome.

Definition move_track_once (track_id : TrackId) (destination : LibraryPath) (publish_catalog : bool)
    : cmd IndexedTrack :=
  track ← load_track "load a track for moving" track_id;
  if path_same (track_path track) destination then mret track
  else
    applied ← apply_mutation (MoveTrack track_id (track_path track) destination) publish_catalog;
    applied_track_of
      (match applied_outcome applied with TrackMoved moved _ => id_same moved track_id | _ => false end)
      applied.

Definition delete_track_once (track_id : TrackId) (publish_catalog : bool) : cmd () :=
  track ← load_track "load a track for deletion" track_id;
  applied ← apply_mutation (DeleteTrack track_id (track_path track)) publish_catalog;
  if match applied_outcome applied with TrackDeleted deleted => id_same deleted track_id | _ => false end
  then mret () else throw InvalidMutationOutcome.

Definition update_track_metadata_once (track_id : TrackId) (patch : TrackMetadataPatch)
    (publish_catalog : bool) : cmd IndexedTrack :=
  track ← load_track "load a track for metadata editing" track_id;
  if patch_is_empty patch then mret track
  else
    applied ← apply_mutation (UpdateTrackMetadata track_id (track_path track) patch) publish_catalog;
    applied_track_of
      (match applied_outcome applied with
       | TrackMetadataUpdated updated _ _ => id_same updated track_id | _ => false end)
      applied.

Definition CONVERTED_TRACK_EXTENSION : string := "m4a".

Definition convert_staged_track (track_id : TrackId) (staged : LibraryPath) : cmd IndexedTrack :=
  track ← load_track "load a track for conversion" track_id;
  if bool_decide (is_Some (track_original track)) then throw (TrackAlreadyConverted track_id)
  else
    destination ← try (map_err (fun _ => Dependency "derive the converted track path")
                         (with_extension (track_path track) CONVERTED_TRACK_EXTENSION));
    applied ← apply_mutation (ConvertTrack track_id (track_path track) staged destination) true;
    applied_track_of
      (match applied_outcome applied with
       | TrackConverted converted _ _ => id_same converted track_id | _ => false end)
      applied.

(** What a call returns, errors included. *)
Definition attempt {A} (m : cmd A) : cmd (result LibraryCoordinatorError A) := fun c =>
  let '(r, c) := m c in (Ok r, c).

Definition convert_track_once (track_id : TrackId) (staged : LibraryPath) : cmd IndexedTrack :=
  r ← attempt (convert_staged_track track_id staged);
  _ ← (match r with
       | Err error =>
           if mutation_error_requires_recovery error then mret ()
           else _ ← on_files (discard_upload staged); mret ()
       | Ok _ => mret ()
       end);
  try r.

Definition restore_track_once (track_id : TrackId) : cmd IndexedTrack :=
  track ← load_track "load a track for restoring" track_id;
  destination ← try (ok_or (TrackNotConverted track_id) (original_path track));
  applied ← apply_mutation (RestoreTrack track_id (track_path track) destination) false;
  applied_track_of
    (match applied_outcome applied with
     | TrackRestored restored _ => id_same restored track_id | _ => false end)
    applied.

Definition publish_current_catalog : cmd () :=
  status ← on_store "load the mutated library status" repository_status;
  tracks ← on_store "load the mutated track catalog" repository_playback_catalog;
  _ ← publish_to_sink "publish the mutated track catalog" (status_generation status) tracks;
  publish_status status.

(* ------------------------------------------------------------------ *)
(** ** Batches *)

(** The loop of the three batches: after an error that needs recovery the rest
    is refused. [key] is what a request is answered under. *)
Fixpoint batch_loop {R K A} (key : R -> K) (once : R -> cmd A) (requests : list R)
    : cmd (list (K * result LibraryCoordinatorError A)) :=
  match requests with
  | [] => mret []
  | request :: requests =>
      r ← attempt (once request);
      if stops_batch r
      then mret ((key request, r) :: map (fun request => (key request, Err RecoveryConflict)) requests)
      else
        results ← batch_loop key once requests;
        mret ((key request, r) :: results)
  end.

Definition succeeded {K A} (results : list (K * result LibraryCoordinatorError A)) : bool :=
  existsb (fun item => match item.2 with Ok _ => true | Err _ => false end) results.

Definition batch {R K A} (key : R -> K) (once : R -> cmd A) (requests : list R)
    : cmd (list (K * result LibraryCoordinatorError A)) :=
  results ← batch_loop key once requests;
  _ ← (if succeeded results then publish_current_catalog else mret ());
  mret results.

Definition move_tracks_once (requests : list (TrackId * LibraryPath))
    : cmd (list (TrackId * result LibraryCoordinatorError IndexedTrack)) :=
  batch fst (fun request => move_track_once request.1 request.2 false) requests.
Definition delete_tracks_once (track_ids : list TrackId)
    : cmd (list (TrackId * result LibraryCoordinatorError ())) :=
  batch id (fun track_id => delete_track_once track_id false) track_ids.
Definition restore_tracks_once (track_ids : list TrackId)
    : cmd (list (TrackId * result LibraryCoordinatorError IndexedTrack)) :=
  batch id restore_track_once track_ids.

Record TrackMetadataBatchItem : Type := mkTrackMetadataBatchItem {
  item_track_id : TrackId;
  item_track : option IndexedTrack;
  item_error : option LibraryCoordinatorError
}.

Definition refused_item (track_id : TrackId) : TrackMetadataBatchItem :=
  mkTrackMetadataBatchItem track_id None (Some RecoveryConflict).

(** The loop of [update_tracks_metadata_once]: the items, and whether a track
    was changed. *)
Fixpoint metadata_loop (patch : TrackMetadataPatch) (track_ids : list TrackId)
    : cmd (list TrackMetadataBatchItem * bool) :=
  match track_ids with
  | [] => mret ([], false)
  | track_id :: track_ids =>
      let continue item mutated :=
        rest ← metadata_loop patch track_ids;
        mret (item :: rest.1, mutated || rest.2) in
      let failed error := mkTrackMetadataBatchItem track_id None (Some error) in
      let stop error := mret (failed error :: map refused_item track_ids, false) in
      r ← attempt (update_track_metadata_once track_id patch false);
      match r with
      | Ok track => continue (mkTrackMetadataBatchItem track_id (Some track) None) (negb (patch_is_empty patch))
      | Err error =>
          if mutation_error_requires_recovery error then stop error
          else if negb (patch_is_empty (database_only patch)) && has_tag_changes patch then
            r ← attempt (update_track_metadata_once track_id (database_only patch) false);
            match r with
            | Ok track => continue (mkTrackMetadataBatchItem track_id (Some track) (Some error)) true
            | Err error =>
                if mutation_error_requires_recovery error then stop error
                else continue (failed error) false
            end
          else continue (failed error) false
      end
  end.

Definition update_tracks_metadata_once (track_ids : list TrackId) (patch : TrackMetadataPatch)
    : cmd (list TrackMetadataBatchItem) :=
  items ← metadata_loop patch track_ids;
  _ ← (if items.2 : bool then publish_current_catalog else mret ());
  mret items.1.

Record StagedLibraryUpload : Type := mkStagedLibraryUpload {
  upload_staged : LibraryPath;
  upload_requested : LibraryPath
}.

Inductive LibraryUploadBatchItem : Type :=
| Item_Published (destination : LibraryPath) (track : option IndexedTrack)
| Item_Skipped (requested : LibraryPath).

Fixpoint discard_staged_uploads (uploads : list StagedLibraryUpload) : cmd () :=
  match uploads with
  | [] => mret ()
  | upload :: uploads =>
      _ ← on_files (discard_upload (upload_staged upload));
      discard_staged_uploads uploads
  end.

(** [catalog_changed] is true once a published upload affected a track. *)
Fixpoint publish_uploads_from (policy : UploadConflictPolicy) (catalog_changed : bool)
    (uploads : list StagedLibraryUpload) : cmd (list LibraryUploadBatchItem) :=
  let abandon rest error :=
    _ ← discard_staged_uploads rest;
    _ ← (if catalog_changed then publish_current_catalog else mret ());
    throw error in
  match uploads with
  | [] => _ ← (if catalog_changed then publish_current_catalog else mret ()); mret []
  | upload :: rest =>
      resolved ← on_files (resolve_upload (upload_requested upload) policy);
      match resolved with
      | Err failure =>
          _ ← on_files (discard_upload (upload_staged upload));
          _ ← discard_staged_uploads rest;
          throw (Mutation failure)
      | Ok Resolution_Skip =>
          discarded ← on_files (discard_upload (upload_staged upload));
          match discarded with
          | Err failure => _ ← discard_staged_uploads rest; throw (Mutation failure)
          | Ok _ =>
              items ← publish_uploads_from policy catalog_changed rest;
              mret (Item_Skipped (upload_requested upload) :: items)
          end
      | Ok (Resolution_Publish destination replace_existing) =>
          r ← attempt (apply_mutation
                (PublishUpload (upload_staged upload) destination replace_existing) false);
          match r with
          | Err error =>
              _ ← (if mutation_error_requires_recovery error then mret ()
                   else _ ← on_files (discard_upload (upload_staged upload)); mret ());
              abandon rest error
          | Ok applied =>
              let catalog_changed := catalog_changed || (0 <? applied_affected_tracks applied) in
              let abandon :=
                _ ← discard_staged_uploads rest;
                _ ← (if catalog_changed then publish_current_catalog else mret ());
                throw InvalidMutationOutcome in
              match applied_outcome applied with
              | UploadPublished published _ =>
                  if path_same published destination then
                    items ← publish_uploads_from policy catalog_changed rest;
                    mret (Item_Published published (applied_track applied) :: items)
                  else abandon
              | _ => abandon
              end
          end
      end
  end.
Definition publish_uploads_once (uploads : list StagedLibraryUpload) (policy : UploadConflictPolicy)
    : cmd (list LibraryUploadBatchItem) := publish_uploads_from policy false uploads.

(* ------------------------------------------------------------------ *)
(** ** Reconciliation *)

Definition reconcile_once : cmd ReconciliationSummary :=
  started ← on_store "begin library reconciliation" begin_reconciliation;
  _ ← publish_status started;
  discovered ← on_files discover;
  match discovered with
  | Err failure =>
      failed ← on_store "record library discovery failure"
                 (fail_reconciliation (status_generation started) (discovery_code failure));
      _ ← publish_status failed;
      throw (Discovery failure)
  | Ok discovered =>
      committed ← on_store_result (commit_reconciliation (status_generation started) discovered);
      match committed with
      | Err _ =>
          failed ← on_store "record library commit failure"
                     (fail_reconciliation (status_generation started) "scan_commit_failed");
          _ ← publish_status failed;
          throw (Dependency "commit library reconciliation")
      | Ok (Reconciliation_Applied status summary _) =>
          tracks ← on_store "load the reconciled track catalog" repository_playback_catalog;
          _ ← publish_to_sink "publish reconciled track catalog" (status_generation status) tracks;
          _ ← publish_status status;
          mret summary
      | Ok (Reconciliation_Conflict current_generation) =>
          current ← on_store "reload conflicted library status" repository_status;
          _ ← publish_status current;
          throw (GenerationConflict (status_generation started) current_generation)
      end
  end.

(* ------------------------------------------------------------------ *)
(** ** Commands *)

Inductive LibraryCommand : Type :=
| Command_Reconcile
| Command_Mutate (mutation : LibraryFileMutation)
| Command_MoveTrack (track_id : TrackId) (destination : LibraryPath)
| Command_DeleteTrack (track_id : TrackId)
| Command_MoveTracks (requests : list (TrackId * LibraryPath))
| Command_DeleteTracks (track_ids : list TrackId)
| Command_UpdateTrackMetadata (track_id : TrackId) (patch : TrackMetadataPatch)
| Command_UpdateTracksMetadata (track_ids : list TrackId) (patch : TrackMetadataPatch)
| Command_PublishUploads (uploads : list StagedLibraryUpload) (policy : UploadConflictPolicy)
| Command_ConvertTrack (track_id : TrackId) (staged : LibraryPath)
| Command_RestoreTracks (track_ids : list TrackId).

(** What is sent on the reply channel of a command. *)
Inductive LibraryReply : Type :=
| Reply_Summary (r : result LibraryCoordinatorError ReconciliationSummary)
| Reply_Applied (r : result LibraryCoordinatorError AppliedLibraryMutation)
| Reply_Track (r : result LibraryCoordinatorError IndexedTrack)
| Reply_Unit (r : result LibraryCoordinatorError ())
| Reply_Tracks (r : result LibraryCoordinatorError
    (list (TrackId * result LibraryCoordinatorError IndexedTrack)))
| Reply_Units (r : result LibraryCoordinatorError (list (TrackId * result LibraryCoordinatorError ())))
| Reply_Items (r : result LibraryCoordinatorError (list TrackMetadataBatchItem))
| Reply_Uploads (r : result LibraryCoordinatorError (list LibraryUploadBatchItem)).

Definition replying {A} (reply : result LibraryCoordinatorError A -> LibraryReply) (m : cmd A)
    (c : coordinator) : LibraryReply * coordinator :=
  let '(r, c) := m c in (reply r, c).

(** One round of the loop of [run]. *)
Definition handle_command (command : LibraryCommand) (c : coordinator) : LibraryReply * coordinator :=
  match command with
  | Command_Reconcile => replying Reply_Summary reconcile_once c
  | Command_Mutate mutation =>
      let '(r, c) := apply_mutation mutation true c in
      match r with
      | Ok _ =>
          if needs_metadata_reconciliation mutation
          then let '(_, c) := reconcile_once c in (Reply_Applied r, c) else (Reply_Applied r, c)
      | Err _ => (Reply_Applied r, c)
      end
  | Command_MoveTrack track_id destination => replying Reply_Track (move_track_once track_id destination true) c
  | Command_DeleteTrack track_id => replying Reply_Unit (delete_track_once track_id true) c
  | Command_MoveTracks requests => replying Reply_Tracks (move_tracks_once requests) c
  | Command_DeleteTracks track_ids => replying Reply_Units (delete_tracks_once track_ids) c
  | Command_UpdateTrackMetadata track_id patch =>
      replying Reply_Track (update_track_metadata_once track_id patch true) c
  | Command_UpdateTracksMetadata track_ids patch =>
      replying Reply_Items (update_tracks_metadata_once track_ids patch) c
  | Command_PublishUploads uploads policy => replying Reply_Uploads (publish_uploads_once uploads policy) c
  | Command_ConvertTrack track_id staged => replying Reply_Track (convert_track_once track_id staged) c
  | Command_RestoreTracks track_ids => replying Reply_Tracks (restore_tracks_once track_ids) c
  end.

(** The loop of [run] over the commands it receives. *)
Fixpoint run (commands : list LibraryCommand) (c : coordinator) : list LibraryReply * coordinator :=
  match commands with
  | [] => ([], c)
  | command :: commands =>
      let '(reply, c) := handle_command command c in
      let '(replies, c) := run commands c in
      (reply :: replies, c)
  end.

(** The handle's own reading of the three folder replies. *)
Definition folder_result (r : result LibraryCoordinatorError AppliedLibraryMutation)
    : result LibraryCoordinatorError (LibraryPath * bool) :=
  applied ← r;
  match applied_outcome applied with
  | Outcome_Folder path has_children => Ok (path, has_children)
  | _ => Err InvalidMutationOutcome
  end.
Definition folder_deletion_result (r : result LibraryCoordinatorError AppliedLibraryMutation)
    : result LibraryCoordinatorError N :=
  applied ← r;
  match applied_outcome applied with
  | Outcome_Deleted => Ok (applied_affected_tracks applied)
  | _ => Err InvalidMutationOutcome
  end.

(* ------------------------------------------------------------------ *)
(** ** Starting *)

Definition recovered_progress : JsonValue := json_map [("recovered", Json_Bool true)].

(** One round of [recover_library_mutations]. *)
Definition recover_entry (entry : RecoveryJournalEntry) : cmd () :=
  mutation ← try (map_err InvalidMutation (from_journal entry));
  applying ← match entry_state entry with
             | Planned => transition "resume a planned library mutation" (entry_id entry) Planned Applying
                            recovered_progress
             | Applying => mret entry
             | Committed | RollingBack | RolledBack | State_Failed => throw RecoveryConflict
             end;
  effect ← on_files (effects_apply (entry_id applying) mutation true);
  match effect with
  | Ok outcome =>
      _ ← commit_applied_library_mutation (entry_id applying) mutation outcome;
      mret ()
  | Err failure =>
      if requires_recovery failure then throw (Mutation failure)
      else
        _ ← transition "record a failed recovered library mutation" (entry_id applying) Applying
              State_Failed (error_progress failure);
        mret ()
  end.

Fixpoint recover_entries (entries : list RecoveryJournalEntry) : cmd () :=
  match entries with
  | [] => mret ()
  | entry :: entries => _ ← recover_entry entry; recover_entries entries
  end.

Definition recover_library_mutations : cmd () :=
  entries ← on_store "load unfinished library mutations" (unfinished_recovery_journals Domain_Library);
  recover_entries entries.

Definition is_reconciling (status : LibraryStatus) : bool :=
  match status_status status with Reconciling => true | _ => false end.

(** [start_library_coordinator]: the watched status, or [None] when clean-up
    mutations are to be recovered first, which is not modelled. *)
Definition start_library_coordinator : cmd (option LibraryStatus) :=
  _ ← recover_library_mutations;
  status ← on_store "load durable library status" repository_status;
  status ← (if is_reconciling status
            then on_store "recover an interrupted reconciliation"
                   (fail_reconciliation (status_generation status) "scan_interrupted")
            else mret status);
  cleanups ← on_store "load unfinished cleanup mutations" (unfinished_recovery_journals Domain_Cleanup);
  match cleanups with
  | _ :: _ => mret None
  | [] =>
      status ← on_store "reload recovered library status" repository_status;
      tracks ← on_store "load the durable track catalog" repository_playback_catalog;
      _ ← publish_to_sink "publish the durable track catalog" (status_generation status) tracks;
      _ ← publish_status status;
      mret (Some status)
  end.
End Coordinator.
