(* ===== verification/LibraryStore.v ===== *)
(** * The library repository

    [crates/music-storage/src/library.rs] on the tables [tracks],
    [track_originals], [track_user_tags], [library_state] and
    [recovery_journal]: the readings of the index, the installation of a scan
    and the commits of the library's file mutations, each one transaction with
    the row of its journal. The table [tracks] is in the order of its rowid; its
    unique index on the path is checked row by row, as SQLite does. A
    transaction acts on the tables and is rolled back when its body fails; the
    next entry of [db_faults] makes the database fail before the work or, for an
    outcome that is reported lost, after it. [LibraryTables] is part of
    [Library]; the mutations, their plans and outcomes are those of
    [LibraryMutation]. The clean-up contexts of the commits are not modelled. *)

From S2P Require Import Prelude Text MediaPath PlaybackState Store JobStore Library.
From S2P Require Import RecoveryJournal.
From S2P Require Import JournalStore Catalog LibraryMutation LibraryCoordinator.
From Stdlib Require Import SpecFloat.

#[local] Open Scope string_scope.
#[local] Open Scope Z_scope.
#[local] Open Scope list_scope.

(* ------------------------------------------------------------------ *)
(** ** SQL text *)

(** [value.replace(c, with_)] for an ASCII [c]. *)
Fixpoint replace_char (c : Ascii.ascii) (with_ value : string) : string :=
  match value with
  | EmptyString => EmptyString
  | String first rest =>
      if Ascii.eqb first c then with_ +:+ replace_char c with_ rest
      else String first (replace_char c with_ rest)
  end.

Definition percent : Ascii.ascii := Ascii.ascii_of_nat 37.
Definition underscore : Ascii.ascii := Ascii.ascii_of_nat 95.

Definition escape_like (value : string) : string :=
  replace_char underscore "\_" (replace_char percent "\%" (replace_char backslash "\\" value)).

(** SQLite compares the letters of ASCII without their case. *)
Definition eq_nocase (a b : Ascii.ascii) : bool := Ascii.eqb (ascii_lower a) (ascii_lower b).

Fixpoint skip_continuation (value : string) : string :=
  match value with
  | String first rest => if is_continuation first then skip_continuation rest else value
  | EmptyString => EmptyString
  end.

(** [value LIKE pattern ESCAPE '\'] under the default, case-insensitive
    comparison. *)
Fixpoint sql_like (pattern : string) (value : string) : bool :=
  match pattern with
  | EmptyString => String.eqb value ""
  | String p rest =>
      if Ascii.eqb p percent then
        (fix any (value : string) : bool :=
           sql_like rest value || match value with String _ tail => any tail | EmptyString => false end)
          value
      else if Ascii.eqb p underscore then
        match value with
        | String _ tail => sql_like rest (skip_continuation tail)
        | EmptyString => false
        end
      else if Ascii.eqb p backslash then
        match rest, value with
        | String literal rest, String c tail => eq_nocase literal c && sql_like rest tail
        | _, _ => false
        end
      else
        match value with
        | String c tail => eq_nocase p c && sql_like rest tail
        | EmptyString => false
        end
  end.

(** [substr(value, n + 1)]: the text after the first [n] characters. *)
Fixpoint sql_drop (n : nat) (value : string) : string :=
  match value with
  | EmptyString => EmptyString
  | String first rest =>
      if is_continuation first then sql_drop n rest
      else match n with O => value | S n => sql_drop n rest end
  end.

(** [value.strip_prefix(prefix)] *)
Fixpoint strip_prefix (prefix value : string) : option string :=
  match prefix, value with
  | EmptyString, _ => Some value
  | String p prefix, String c value => if Ascii.eqb p c then strip_prefix prefix value else None
  | String _ _, EmptyString => None
  end.

(** [duration.as_secs_f64()] of a number of nanoseconds. *)
Definition as_secs_f64 (duration : N) : f64 :=
  SFadd 53 1024 (f64_of_Z (Z.of_N (duration / nanos_per_second)))
    (SFdiv 53 1024 (f64_of_Z (Z.of_N (duration mod nanos_per_second)))
       (f64_of_Z (Z.of_N nanos_per_second))).

(* ------------------------------------------------------------------ *)
(** ** The database *)

(** The singleton row of [library_state]; [updated_at] is not read. *)
Record StateRow : Type := mkStateRow {
  state_generation : Z;
  state_status : string;
  state_scan_started_at : option Z;
  state_last_scan_at : option Z;
  state_last_error_code : option string;
  state_discovered_tracks : Z
}.

#[global] Instance StateRow_eq_dec : EqDecision StateRow.
Proof. solve_decision. Defined.

Record SqliteLibrary : Type := mkSqliteLibrary {
  db_tables : LibraryTables;
  db_state : option StateRow;
  db_journal : gmap string JournalRow;
  db_clock : nat;
  db_faults : list Fault
}.

Definition with_tables (tables : LibraryTables) (db : SqliteLibrary) : SqliteLibrary :=
  mkSqliteLibrary tables (db_state db) (db_journal db) (db_clock db) (db_faults db).
Definition with_tracks (tracks : list TrackRow) (db : SqliteLibrary) : SqliteLibrary :=
  with_tables (mkLibraryTables tracks (originals_table (db_tables db)) (user_tags_table (db_tables db))) db.
Definition with_originals (originals : list OriginalRow) (db : SqliteLibrary) : SqliteLibrary :=
  with_tables (mkLibraryTables (tracks_table (db_tables db)) originals (user_tags_table (db_tables db))) db.
Definition with_state (state : option StateRow) (db : SqliteLibrary) : SqliteLibrary :=
  mkSqliteLibrary (db_tables db) state (db_journal db) (db_clock db) (db_faults db).
Definition with_journal (journal : gmap string JournalRow) (db : SqliteLibrary) : SqliteLibrary :=
  mkSqliteLibrary (db_tables db) (db_state db) journal (db_clock db) (db_faults db).
Definition next_db_fault (db : SqliteLibrary) : SqliteLibrary :=
  mkSqliteLibrary (db_tables db) (db_state db) (db_journal db) (db_clock db) (tail (db_faults db)).
Definition next_db_tick (db : SqliteLibrary) : SqliteLibrary :=
  mkSqliteLibrary (db_tables db) (db_state db) (db_journal db) (S (db_clock db)) (db_faults db).
(** What a rollback restores. *)
Definition roll_back (before after : SqliteLibrary) : SqliteLibrary :=
  mkSqliteLibrary (db_tables before) (db_state before) (db_journal before) (db_clock after) (db_faults after).

(** [StorageError]: the library's errors and the journal's. *)
Inductive LibraryWriteError : Type :=
| Write_Library (error : LibraryStorageError)
| Write_Journal (error : JournalStorageError).

Definition ltx (A : Type) : Type := stateful SqliteLibrary LibraryWriteError A.

Definition database_error (cause : string) : LibraryWriteError :=
  Write_Library (LibraryStorage_Database cause).
Definition invalid_record (detail : string) : LibraryWriteError :=
  Write_Library (InvalidLibraryRecord detail).
Definition invalid_state (detail : string) : LibraryWriteError :=
  Write_Library (InvalidLibraryState detail).
Definition invalid_journal_record : LibraryWriteError := Write_Journal InvalidRecoveryJournalRecord.

Definition transaction_ending {A} (body : ltx (TxEnd A)) : ltx A := fun db =>
  let rest := next_db_fault db in
  let '(r, after) := body rest in
  let ended :=
    match r with
    | Ok (Tx_commit a) => (Ok a, after)
    | Ok (Tx_rollback a) => (Ok a, roll_back db after)
    | Err e => (Err e, roll_back db after)
    end in
  match head (db_faults db) with
  | Some (FailBefore cause) => (Err (database_error cause), rest)
  | Some (FailAfter cause) =>
      match ended with
      | (Ok _, after) => (Err (database_error cause), after)
      | failed => failed
      end
  | Some NoFault | None => ended
  end.

(** A transaction that is committed at the end of its body; a statement on the
    pool is one of its own. *)
Definition library_transaction {A} (body : ltx A) : ltx A :=
  transaction_ending (a ← body; mret (Tx_commit a)).
Definition library_statement {A} : ltx A -> ltx A := library_transaction.

(** The operations of [recovery.rs] on the same database. *)
Definition on_journal {A} (m : stateful SqliteJournal JournalStorageError A) : ltx A := fun db =>
  let '(r, journal) := m (mkSqliteJournal (db_journal db) (db_clock db) (db_faults db)) in
  (map_err Write_Journal r,
   mkSqliteLibrary (db_tables db) (db_state db) (journal_table journal) (journal_clock journal)
     (journal_faults journal)).

(* ------------------------------------------------------------------ *)
(** ** Statements on the tracks *)

Definition track_id_is (id : Z) (row : TrackRow) : bool := tracks_id row =? id.
Definition path_is (path : string) (row : TrackRow) : bool := String.eqb (tracks_path row) path.
(** [WHERE id = ? AND path = ?] *)
Definition track_at (id : Z) (path : string) (row : TrackRow) : bool :=
  track_id_is id row && path_is path row.
(** [WHERE path LIKE ? ESCAPE '\'] *)
Definition path_like (pattern : string) (row : TrackRow) : bool := sql_like pattern (tracks_path row).

(** The rows after [updated] ones in the order of the table: the new path of
    a row must be free at that moment. *)
Fixpoint update_rows (p : TrackRow -> bool) (set : TrackRow -> TrackRow) (updated rows : list TrackRow)
    : option (list TrackRow) :=
  match rows with
  | [] => Some updated
  | row :: rows =>
      if p row then
        let row := set row in
        if existsb (path_is (tracks_path row)) (updated ++ rows) then None
        else update_rows p set (updated ++ [row]) rows
      else update_rows p set (updated ++ [row]) rows
  end.

(** [UPDATE tracks SET .. WHERE ..]: the rows affected. *)
Definition update_tracks (p : TrackRow -> bool) (set : TrackRow -> TrackRow) : ltx N := fun db =>
  match update_rows p set [] (tracks_table (db_tables db)) with
  | None => (Err (database_error "UNIQUE constraint failed"), db)
  | Some tracks => (Ok (N.of_nat (length (List.filter p (tracks_table (db_tables db))))), with_tracks tracks db)
  end.

(** The rows of the other tables go with their track, [ON DELETE CASCADE]. *)
Definition has_track (tracks : list TrackRow) (id : Z) : bool := existsb (track_id_is id) tracks.
Definition cascade (tracks : list TrackRow) (tables : LibraryTables) : LibraryTables :=
  mkLibraryTables tracks
    (List.filter (fun row => has_track tracks (originals_track_id row)) (originals_table tables))
    (List.filter (fun row => has_track tracks row.1) (user_tags_table tables)).

(** [DELETE FROM tracks WHERE ..]: the rows affected. *)
Definition delete_tracks (p : TrackRow -> bool) : ltx N := fun db =>
  let tracks := tracks_table (db_tables db) in
  (Ok (N.of_nat (length (List.filter p tracks))),
   with_tables (cascade (List.filter (fun row => negb (p row)) tracks) (db_tables db)) db).

(** SQLite's next rowid: one more than the largest. *)
Definition next_track_id (rows : list TrackRow) : Z :=
  foldr (fun row next => Z.max (tracks_id row + 1) next) 1 rows.

(** The columns a scan reads from the file. *)
Definition set_discovered (track : DiscoveredTrack) (row : TrackRow) : TrackRow :=
  let metadata := discovered_metadata track in
  {| tracks_id := tracks_id row;
     tracks_path := as_str (discovered_path track);
     tracks_title := metadata_title metadata;
     tracks_artist := metadata_artist metadata;
     tracks_album_artist := metadata_album_artist metadata;
     tracks_album := metadata_album metadata;
     tracks_track_no := Z.of_N <$> metadata_track_no metadata;
     tracks_disc_no := Z.of_N <$> metadata_disc_no metadata;
     tracks_year := Z.of_N <$> metadata_year metadata;
     tracks_release_date := metadata_release_date metadata;
     tracks_original_release_date := metadata_original_release_date metadata;
     tracks_composer := metadata_composer metadata;
     tracks_genre := metadata_genre metadata;
     tracks_length_s := as_secs_f64 (discovered_duration track);
     tracks_bpm := Z.of_N <$> metadata_bpm metadata;
     tracks_display_title := tracks_display_title row;
     tracks_origin := tracks_origin row;
     tracks_size_bytes := Z.of_N (discovered_size_bytes track);
     tracks_mtime := discovered_mtime_unix_seconds track;
     tracks_added_at := tracks_added_at row |}.

(** The row of [INSERT INTO tracks .. VALUES (.., '', '', .., CURRENT_TIMESTAMP)] *)
Definition inserted_row (id : Z) (now : Z) (track : DiscoveredTrack) : TrackRow :=
  set_discovered track
    {| tracks_id := id; tracks_path := ""; tracks_title := ""; tracks_artist := "";
       tracks_album_artist := ""; tracks_album := ""; tracks_track_no := None;
       tracks_disc_no := None; tracks_year := None; tracks_release_date := "";
       tracks_original_release_date := ""; tracks_composer := ""; tracks_genre := "";
       tracks_length_s := S754_zero false; tracks_bpm := None; tracks_display_title := "";
       tracks_origin := ""; tracks_size_bytes := 0; tracks_mtime := 0; tracks_added_at := Some now |}.

(** [INSERT .. ON CONFLICT(path) DO UPDATE SET .. WHERE differs]: one value. *)
Definition upsert_row (now : Z) (differs : TrackRow -> DiscoveredTrack -> bool)
    (tracks : list TrackRow) (track : DiscoveredTrack) : list TrackRow :=
  if existsb (path_is (as_str (discovered_path track))) tracks
  then map (fun row =>
    if path_is (as_str (discovered_path track)) row && differs row track then set_discovered track row
    else row) tracks
  else tracks ++ [inserted_row (next_track_id tracks) now track].

(** [tracks.title IS NOT staged.title OR ..] over the scanned columns. *)
Definition scan_differs (row : TrackRow) (track : DiscoveredTrack) : bool :=
  let staged := set_discovered track row in
  negb (String.eqb (tracks_title row) (tracks_title staged)
        && String.eqb (tracks_artist row) (tracks_artist staged)
        && String.eqb (tracks_album_artist row) (tracks_album_artist staged)
        && String.eqb (tracks_album row) (tracks_album staged)
        && bool_decide (tracks_track_no row = tracks_track_no staged)
        && bool_decide (tracks_disc_no row = tracks_disc_no staged)
        && bool_decide (tracks_year row = tracks_year staged)
        && String.eqb (tracks_release_date row) (tracks_release_date staged)
        && String.eqb (tracks_original_release_date row) (tracks_original_release_date staged)
        && String.eqb (tracks_composer row) (tracks_composer staged)
        && String.eqb (tracks_genre row) (tracks_genre staged)
        && f64_eqb (tracks_length_s row) (tracks_length_s staged)
        && bool_decide (tracks_bpm row = tracks_bpm staged)
        && (tracks_size_bytes row =? tracks_size_bytes staged)
        && (tracks_mtime row =? tracks_mtime staged)).

(** [SELECT {TRACK_COLUMNS} FROM tracks WHERE .. ], the first row. *)
Definition find_track (p : TrackRow -> bool) (tables : LibraryTables)
    : result LibraryStorageError (option IndexedTrack) :=
  option_transpose indexed_track_from_row
    (with_original tables <$> List.find p (tracks_table tables)).
Definition select_track (p : TrackRow -> bool) : ltx (option IndexedTrack) :=
  tables ← gets db_tables;
  try (map_err Write_Library (find_track p tables)).

(** [fetch_one] *)
Definition fetch_track (p : TrackRow -> bool) : ltx IndexedTrack :=
  track ← select_track p;
  try (ok_or (database_error "no rows returned by a query that expected to return at least one row") track).

(* ------------------------------------------------------------------ *)
(** ** Readings *)

Definition read_tables {A} (f : LibraryTables -> result LibraryStorageError A) : ltx A :=
  library_statement (tables ← gets db_tables; try (map_err Write_Library (f tables))).

Definition ordered_tracks (tables : LibraryTables) : list TrackRow :=
  merge_sort track_row_le (tracks_table tables).

Definition library_all_tracks : ltx (list IndexedTrack) := read_tables all_tracks.

Definition row_track_id (row : TrackRow) : result LibraryStorageError TrackId :=
  map_err (fun _ => InvalidLibraryRecord "track id is invalid") (TrackId_new (tracks_id row)).

Definition catalog_track_ids : ltx (list TrackId) :=
  read_tables (fun tables => result_collect row_track_id (ordered_tracks tables)).

Definition library_catalog_track_from_row (row : TrackRow)
    : result LibraryStorageError LibraryCatalogTrack :=
  id ← row_track_id row;
  path ← map_err InvalidLibraryPath (path_parse (Kind := LibraryMedia) (tracks_path row));
  duration ← ok_or (InvalidLibraryRecord "track duration is invalid")
               (try_from_secs_f64 (tracks_length_s row));
  Ok (mkLibraryCatalogTrack id (as_str path) duration).

Definition playback_catalog : ltx (list LibraryCatalogTrack) :=
  read_tables (fun tables => result_collect library_catalog_track_from_row (ordered_tracks tables)).

Definition library_track (track_id : TrackId) : ltx (option IndexedTrack) :=
  read_tables (find_track (track_id_is (TrackId_get track_id))).
Definition track_by_path (path : LibraryPath) : ltx (option IndexedTrack) :=
  read_tables (find_track (path_is (as_str path))).

(** [ids.iter().filter(|id| seen.insert(id)).filter_map(|id| by_id.remove(id))] *)
Definition tracks_by_ids (track_ids : list TrackId) : ltx (list IndexedTrack) :=
  match track_ids with
  | [] => mret []
  | _ =>
      read_tables (fun tables =>
        tracks ← result_collect indexed_track_from_row (map (with_original tables)
          (List.filter (fun row => contains (tracks_id row) (TrackId_get <$> track_ids))
             (tracks_table tables)));
        let by_id := collect_map (map (fun track => (track_id track, track)) tracks) in
        Ok (omap (fun id => by_id !! id) (dedup track_ids)))
  end.

(** The slice of [tracks_in_directory]: below the directory, and not deeper. *)
Definition in_directory (directory : option LibraryPath) (row : TrackRow) : bool :=
  match directory with
  | Some directory =>
      let prefix := escape_like (as_str directory +:+ "/") in
      path_like (prefix +:+ "%") row && negb (path_like (prefix +:+ "%/%") row)
  | None => negb (contains_char slash (tracks_path row))
  end.

Definition tracks_in_directory (directory : option LibraryPath) : ltx (list IndexedTrack) :=
  read_tables (fun tables =>
    result_collect indexed_track_from_row (map (with_original tables)
      (List.filter (in_directory directory) (ordered_tracks tables)))).

(** The directories above a path, the nearest first; a parent is shorter, so
    the length of the path is enough fuel. *)
Fixpoint ancestors (fuel : nat) (path : LibraryPath) : list LibraryPath :=
  match fuel, parent path with
  | S fuel, Some directory => directory :: ancestors fuel directory
  | _, _ => []
  end.
Definition path_ancestors (path : LibraryPath) : list LibraryPath :=
  ancestors (String.length (as_str path)) path.

(** [*counts.entry(directory).or_insert(0) = count.checked_add(1)?] *)
Fixpoint count_directories (counts : gmap string N) (directories : list LibraryPath)
    : result LibraryStorageError (gmap string N) :=
  match directories with
  | [] => Ok counts
  | directory :: directories =>
      count ← ok_or (InvalidLibraryState "folder track count overflowed")
                (u64_checked_add (default 0%N (counts !! as_str directory)) 1);
      count_directories (<[as_str directory := count]> counts) directories
  end.

Fixpoint count_folders (counts : gmap string N) (paths : list string)
    : result LibraryStorageError (gmap string N) :=
  match paths with
  | [] => Ok counts
  | stored :: paths =>
      path ← map_err InvalidLibraryPath (path_parse stored);
      counts ← count_directories counts (path_ancestors path);
      count_folders counts paths
  end.

Definition folder_track_counts : ltx (gmap string N) :=
  read_tables (fun tables => count_folders ∅ (tracks_path <$> ordered_tracks tables)).

Definition status_of (row : StateRow) : result LibraryStorageError LibraryStatus :=
  status ←
    (if String.eqb (state_status row) "pending" then Ok Reconciliation_Pending
     else if String.eqb (state_status row) "reconciling" then Ok Reconciling
     else if String.eqb (state_status row) "current" then Ok Reconciliation_Current
     else if String.eqb (state_status row) "failed" then Ok Reconciliation_Failed
     else Err (InvalidLibraryState "reconciliation status is unsupported"));
  generation ← map_err (fun _ => InvalidLibraryState "generation is invalid")
                 (LibraryGeneration_try_from (state_generation row));
  discovered_tracks ← ok_or (InvalidLibraryState "discovered track count is invalid")
                        (u64_try_from_i64 (state_discovered_tracks row));
  Ok (mkLibraryStatus generation status (state_scan_started_at row) (state_last_scan_at row)
        (state_last_error_code row) discovered_tracks).

(** [SELECT .. FROM library_state WHERE id = 1], [fetch_one] *)
Definition fetch_state : ltx StateRow :=
  row ← gets db_state;
  try (ok_or (database_error "no rows returned by a query that expected to return at least one row") row).

Definition read_library_status : ltx LibraryStatus :=
  library_statement (row ← fetch_state; try (map_err Write_Library (status_of row))).

(* ------------------------------------------------------------------ *)
(** ** Writes *)

Definition MAX_RECONCILIATION_TRACKS : N := 1000000.

Inductive LibraryCatalogEffect : Type := PreserveMembership | AddTracks | RemoveTracks.

Definition stored_size (size_bytes : N) : result LibraryStorageError Z :=
  ok_or (InvalidLibraryRecord "track size exceeds SQLite integer range") (i64_try_from_u64 size_bytes).

Definition oversized (track : DiscoveredTrack) : bool := (i64_max <? discovered_size_bytes track)%N.

(** [discovered.is_some_and(..)] *)
Definition is_some_and {A} (p : A -> bool) (o : option A) : bool :=
  match o with Some x => p x | None => false end.

Definition path_eqb (a b : LibraryPath) : bool := String.eqb (as_str a) (as_str b).

(** [serde_json::Value == serde_json::Value] *)
Fixpoint json_eqb (a b : JsonValue) {struct a} : bool :=
  match a, b with
  | Json_Null, Json_Null => true
  | Json_Bool a, Json_Bool b => eqb a b
  | Json_Number a, Json_Number b | Json_String a, Json_String b => String.eqb a b
  | Json_Array a, Json_Array b =>
      (fix all a b := match a, b with
        | [], [] => true
        | x :: a, y :: b => json_eqb x y && all a b
        | _, _ => false
        end) a b
  | Json_Object a, Json_Object b =>
      (fix all a b := match a, b with
        | [], [] => true
        | (k, x) :: a, (l, y) :: b => String.eqb k l && json_eqb x y && all a b
        | _, _ => false
        end) a b
  | _, _ => false
  end.

Section Sqlite.
Context `{!JsonText, !JournalClock}.

(** [CURRENT_TIMESTAMP] of one statement. *)
Definition now : ltx Z := fun db => (Ok (journal_timestamp (db_clock db)), next_db_tick db).

(** [UPDATE library_state SET .. WHERE id = 1 AND ..]: the rows affected. *)
Definition update_state (p : StateRow -> bool) (set : Z -> StateRow -> StateRow) : ltx nat :=
  at_ ← now;
  row ← gets db_state;
  match row with
  | Some row => if p row then _ ← modify (with_state (Some (set at_ row))); mret 1%nat else mret 0%nat
  | None => mret 0%nat
  end.

(** The rows of [SELECT domain, operation, state, plan_json FROM recovery_journal
    WHERE id = ?]: [read_applying_mutation_journal]. *)
Definition journal_is (domain operation state : string) (row : JournalRow) : bool :=
  String.eqb (journal_row_domain row) domain && String.eqb (journal_row_operation row) operation
  && String.eqb (journal_row_state row) state.

Definition read_applying_mutation_journal (id : RecoveryJournalId) (domain operation : string)
    : ltx JsonValue :=
  found ← gets (fun db => db_journal db !! journal_id_text id);
  row ← try (ok_or invalid_journal_record found);
  if negb (journal_is domain operation "applying" row) then throw invalid_journal_record
  else try (map_err (fun e => Write_Journal (RecoveryJournalSerialization e))
              (value_from_str (journal_row_plan_json row))).

(** [validate_library_mutation_journal] in the library's own context. *)
Definition validate_library_mutation_journal (id : RecoveryJournalId) (mutation : LibraryFileMutation)
    : ltx () :=
  operation ← try (map_err (fun _ => invalid_journal_record) (operation mutation));
  stored ← read_applying_mutation_journal id "library" (operation_text operation);
  if negb (json_eqb stored (plan mutation)) then throw invalid_journal_record else mret ().

Definition validate_library_delete_journal (id : RecoveryJournalId) (path : LibraryPath) : ltx () :=
  plan ← read_applying_mutation_journal id "library" "delete_folder";
  match plan with
  | Json_Object object =>
      if negb (length object =? 2)%nat
         || negb (bool_decide (value_get "path" plan ≫= as_string = Some (as_str path)))
         || bool_decide (value_get "recursive" plan ≫= as_bool = None)
      then throw invalid_journal_record else mret ()
  | _ => throw invalid_journal_record
  end.

(** The row of [SET state = 'committed', progress_json = ?, updated_at = ..,
    completed_at = CURRENT_TIMESTAMP]. *)
Definition commit_journal (id : RecoveryJournalId) (operation progress_json : string) : ltx nat :=
  at_ ← now;
  found ← gets (fun db => db_journal db !! journal_id_text id);
  match found with
  | Some row =>
      if journal_is "library" operation "applying" row then
        _ ← modify (fun db => with_journal
              (<[journal_id_text id := transitioned_row Committed progress_json at_ row]> (db_journal db)) db);
        mret 1%nat
      else mret 0%nat
  | None => mret 0%nat
  end.

(** [SET generation = ?, status = 'current', scan_started_at = NULL,
    last_error_code = NULL, discovered_tracks = ?] *)
Definition set_generation (generation tracks : Z) (row : StateRow) : StateRow :=
  mkStateRow generation "current" None (state_last_scan_at row) None tracks.

Definition generation_range : LibraryWriteError := invalid_state "generation exceeds SQLite integer range".

Definition state_generation_of (row : StateRow) : ltx N :=
  try (map_err (fun _ => invalid_state "generation is invalid")
         (LibraryGeneration_try_from (state_generation row))).
Definition next_generation (generation : N) : ltx N :=
  try (map_err (fun _ => invalid_state "generation overflowed") (LibraryGeneration_next generation)).

(** The new number of tracks. *)
Definition effect_count (effect : LibraryCatalogEffect) (current affected : N) : ltx N :=
  match effect with
  | PreserveMembership => mret current
  | AddTracks =>
      try (ok_or (invalid_state "catalog count overflowed during track addition")
             (u64_checked_add current affected))
  | RemoveTracks =>
      if (current <? affected)%N then throw (invalid_state "track removal exceeds the catalog count")
      else mret (current - affected)%N
  end.

Definition finish_library_index_mutation (id : RecoveryJournalId) (operation : string)
    (affected_tracks : N) (effect : LibraryCatalogEffect) : ltx () :=
  _ ← (if (0 <? affected_tracks)%N then
         state ← fetch_state;
         current_generation ← state_generation_of state;
         generation ← next_generation current_generation;
         current_tracks ← try (ok_or (invalid_state "track count is invalid")
                                 (u64_try_from_i64 (state_discovered_tracks state)));
         track_count ← effect_count effect current_tracks affected_tracks;
         generation ← try (ok_or generation_range (i64_try_from_u64 generation));
         track_count ← try (ok_or (invalid_state "track count exceeds SQLite integer range")
                              (i64_try_from_u64 track_count));
         current ← try (ok_or generation_range (i64_try_from_u64 current_generation));
         rows_affected ← update_state (fun row => state_generation row =? current)
                           (fun _ => set_generation generation track_count);
         if (rows_affected =? 1)%nat then mret ()
         else throw (invalid_state "library state changed during mutation")
       else mret ());
  progress_json ← try (map_err (fun e => Write_Journal (RecoveryJournalSerialization e))
                         (value_to_string (json_map [("affected_tracks", json_number affected_tracks)])));
  rows_affected ← commit_journal id operation progress_json;
  if (rows_affected =? 1)%nat then mret () else throw invalid_journal_record.

Definition with_status {A} (f : LibraryStatus -> A) : ltx A :=
  status ← read_library_status; mret (f status).

(* ------------------------------------------------------------------ *)
(** ** The commits of the file mutations *)

Definition commit_library_track_move (journal_id : RecoveryJournalId) (track_id : TrackId)
    (source : LibraryPath) (discovered : DiscoveredTrack) : ltx LibraryTrackMutationCommit :=
  if oversized discovered then throw (invalid_record "track size exceeds SQLite integer range")
  else
    track ← library_transaction (
      _ ← validate_library_mutation_journal journal_id
            (MoveTrack track_id source (discovered_path discovered));
      updated ← update_tracks (track_at (TrackId_get track_id) (as_str source)) (set_discovered discovered);
      if negb (updated =? 1)%N then throw (invalid_record "track move source changed")
      else
        _ ← finish_library_index_mutation journal_id "move_track" 1 PreserveMembership;
        track ← fetch_track (track_id_is (TrackId_get track_id));
        mret track);
    with_status (fun status => mkLibraryTrackMutationCommit status track).

Definition commit_library_track_delete (journal_id : RecoveryJournalId) (track_id : TrackId)
    (path : LibraryPath) : ltx LibraryIndexMutationCommit :=
  affected_tracks ← library_transaction (
    _ ← validate_library_mutation_journal journal_id (DeleteTrack track_id path);
    affected_tracks ← delete_tracks (track_at (TrackId_get track_id) (as_str path));
    _ ← finish_library_index_mutation journal_id "delete_track" affected_tracks RemoveTracks;
    mret affected_tracks);
  with_status (fun status => mkLibraryIndexMutationCommit status affected_tracks).

(** The loop over [patch.changes()] on the two fields of the database. *)
Fixpoint apply_database_changes (changes : list (TrackMetadataField * TrackMetadataPatchValue))
    (display_title origin : string) : result LibraryWriteError (string * string) :=
  match changes with
  | [] => Ok (display_title, origin)
  | (field, value) :: changes =>
      let text :=
        match value with
        | Patch_Text value => Ok value
        | Patch_Cleared => Ok ""
        | Patch_Number _ => Err (invalid_state "database-only metadata field has a numeric value")
        end in
      match field with
      | Field_DisplayTitle => text ← text; apply_database_changes changes text origin
      | Field_Origin => text ← text; apply_database_changes changes display_title text
      | _ => apply_database_changes changes display_title origin
      end
  end.

(** [track] as the statement binds it: the columns of the decoded track. *)
Definition set_metadata (track : IndexedTrack) (row : TrackRow) : TrackRow :=
  let metadata := track_metadata track in
  {| tracks_id := tracks_id row;
     tracks_path := tracks_path row;
     tracks_title := metadata_title metadata;
     tracks_artist := metadata_artist metadata;
     tracks_album_artist := metadata_album_artist metadata;
     tracks_album := metadata_album metadata;
     tracks_track_no := Z.of_N <$> metadata_track_no metadata;
     tracks_disc_no := Z.of_N <$> metadata_disc_no metadata;
     tracks_year := Z.of_N <$> metadata_year metadata;
     tracks_release_date := metadata_release_date metadata;
     tracks_original_release_date := metadata_original_release_date metadata;
     tracks_composer := metadata_composer metadata;
     tracks_genre := metadata_genre metadata;
     tracks_length_s := as_secs_f64 (track_duration track);
     tracks_bpm := Z.of_N <$> metadata_bpm metadata;
     tracks_display_title := track_display_title track;
     tracks_origin := track_origin track;
     tracks_size_bytes := Z.of_N (track_size_bytes track);
     tracks_mtime := track_mtime_unix_seconds track;
     tracks_added_at := tracks_added_at row |}.

Definition edited_track (track : IndexedTrack) (discovered : option DiscoveredTrack)
    (display_title origin : string) : IndexedTrack :=
  {| track_id := track_id track;
     track_path := track_path track;
     track_metadata := default (track_metadata track) (discovered_metadata <$> discovered);
     track_duration := default (track_duration track) (discovered_duration <$> discovered);
     track_display_title := display_title;
     track_origin := origin;
     track_size_bytes := default (track_size_bytes track) (discovered_size_bytes <$> discovered);
     track_mtime_unix_seconds :=
       default (track_mtime_unix_seconds track) (discovered_mtime_unix_seconds <$> discovered);
     track_added_at_unix_seconds := track_added_at_unix_seconds track;
     track_original := track_original track |}.

(** [UPDATE track_originals SET size_bytes = ?, mtime = ? WHERE track_id = ?] *)
Definition original_of (id : Z) (row : OriginalRow) : bool := originals_track_id row =? id.
Definition update_original (id size_bytes mtime : Z) : ltx nat := fun db =>
  let originals := originals_table (db_tables db) in
  (Ok (length (List.filter (original_of id) originals)),
   with_originals (map (fun row =>
     if original_of id row then mkOriginalRow id (originals_extension row) size_bytes mtime else row)
     originals) db).

Definition commit_library_track_metadata (journal_id : RecoveryJournalId) (track_id : TrackId)
    (path : LibraryPath) (patch : TrackMetadataPatch) (discovered : option DiscoveredTrack)
    (original : option TrackOriginal) : ltx LibraryTrackMutationCommit :=
  if patch_is_empty patch || negb (eqb (has_tag_changes patch) (bool_decide (is_Some discovered)))
  then throw (invalid_state "metadata mutation outcome does not match its patch")
  else if is_some_and (fun track => negb (path_eqb (discovered_path track) path)) discovered
  then throw (invalid_record "metadata mutation changed the track path")
  else if is_some_and oversized discovered
  then throw (invalid_record "track size exceeds SQLite integer range")
  else
    track ← library_transaction (
      _ ← validate_library_mutation_journal journal_id (UpdateTrackMetadata track_id path patch);
      found ← select_track (track_at (TrackId_get track_id) (as_str path));
      track ← try (ok_or (invalid_record "metadata mutation track changed") found);
      edits ← try (apply_database_changes (changes patch) (track_display_title track) (track_origin track));
      updated ← update_tracks (track_at (TrackId_get track_id) (as_str path))
                  (set_metadata (edited_track track discovered edits.1 edits.2));
      if negb (updated =? 1)%N then throw (invalid_record "metadata mutation track changed")
      else
        _ ← match original with
            | None => mret ()
            | Some original =>
                size_bytes ← try (map_err Write_Library (stored_size (original_size_bytes original)));
                refreshed ← update_original (TrackId_get track_id) size_bytes
                              (original_mtime_unix_seconds original);
                if negb (refreshed =? 1)%nat
                then throw (invalid_record "edited original is not recorded for the track") else mret ()
            end;
        _ ← finish_library_index_mutation journal_id "update_track_metadata" 1 PreserveMembership;
        track ← fetch_track (track_id_is (TrackId_get track_id));
        mret track);
    with_status (fun status => mkLibraryTrackMutationCommit status track).

(** [INSERT INTO track_originals ..] under its primary and foreign keys. *)
Definition insert_original (row : OriginalRow) : ltx nat := fun db =>
  if existsb (original_of (originals_track_id row)) (originals_table (db_tables db))
  then (Err (database_error "UNIQUE constraint failed"), db)
  else if negb (has_track (tracks_table (db_tables db)) (originals_track_id row))
  then (Err (database_error "FOREIGN KEY constraint failed"), db)
  else (Ok 1%nat, with_originals (originals_table (db_tables db) ++ [row]) db).

(** [DELETE FROM track_originals WHERE track_id = ?] *)
Definition delete_original (id : Z) : ltx nat := fun db =>
  let originals := originals_table (db_tables db) in
  (Ok (length (List.filter (original_of id) originals)),
   with_originals (List.filter (fun row => negb (original_of id row)) originals) db).

Definition commit_library_track_file_swap (journal_id : RecoveryJournalId) (track_id : TrackId)
    (mutation : LibraryFileMutation) (previous_path : LibraryPath) (discovered : DiscoveredTrack)
    (original : option TrackOriginal) : ltx LibraryTrackMutationCommit :=
  _ ← try (map_err Write_Library (stored_size (discovered_size_bytes discovered)));
  track ← library_transaction (
    _ ← validate_library_mutation_journal journal_id mutation;
    updated ← update_tracks (track_at (TrackId_get track_id) (as_str previous_path))
                (set_discovered discovered);
    if negb (updated =? 1)%N
    then throw (invalid_record "converted track changed during its file swap")
    else
      recorded ← match original with
                 | Some original =>
                     size_bytes ← try (map_err Write_Library (stored_size (original_size_bytes original)));
                     insert_original (mkOriginalRow (TrackId_get track_id) (original_extension original)
                                        size_bytes (original_mtime_unix_seconds original))
                 | None => delete_original (TrackId_get track_id)
                 end;
      if negb (recorded =? 1)%nat
      then throw (invalid_record "kept original record changed during its file swap")
      else
        let operation :=
          match mutation with ConvertTrack _ _ _ _ => "convert_track" | _ => "restore_track" end in
        _ ← finish_library_index_mutation journal_id operation 1 PreserveMembership;
        track ← fetch_track (track_id_is (TrackId_get track_id));
        mret track);
  with_status (fun status => mkLibraryTrackMutationCommit status track).

(** [INSERT INTO tracks .. ON CONFLICT(path) DO UPDATE SET ..] *)
Definition upsert_track (track : DiscoveredTrack) : ltx () :=
  at_ ← now;
  modify (fun db => with_tracks
    (upsert_row at_ (fun _ _ => true) (tracks_table (db_tables db)) track) db).

Definition commit_library_upload (journal_id : RecoveryJournalId) (staged destination : LibraryPath)
    (replace_existing : bool) (discovered : option DiscoveredTrack) : ltx LibraryUploadMutationCommit :=
  if is_some_and (fun track => negb (path_eqb (discovered_path track) destination)) discovered
  then throw (invalid_record "uploaded track path changed")
  else if is_some_and oversized discovered
  then throw (invalid_record "uploaded track size exceeds SQLite integer range")
  else
    published ← library_transaction (
      _ ← validate_library_mutation_journal journal_id
            (PublishUpload staged destination replace_existing);
      existed ← gets (fun db =>
        negb (length (List.filter (path_is (as_str destination)) (tracks_table (db_tables db))) =? 0)%nat);
      found ← match discovered with
              | Some discovered =>
                  _ ← upsert_track discovered;
                  track ← fetch_track (path_is (as_str destination));
                  mret (1%N, if existed : bool then PreserveMembership else AddTracks, Some track)
              | None => mret (0%N, PreserveMembership, None)
              end;
      let '(affected_tracks, effect, track) := found in
      _ ← finish_library_index_mutation journal_id "publish_upload" affected_tracks effect;
      mret (affected_tracks, track));
    with_status (fun status => mkLibraryUploadMutationCommit status published.2 published.1).

(** The suffixes of the paths below the source, each at its destination. *)
Fixpoint validate_renamed (source_prefix : string) (destination : LibraryPath) (rows : list TrackRow)
    : result LibraryWriteError () :=
  match rows with
  | [] => Ok ()
  | row :: rows =>
      suffix ← ok_or (invalid_record "folder mutation path has an invalid prefix")
                 (strip_prefix source_prefix (tracks_path row));
      _ ← map_err (fun e => Write_Library (InvalidLibraryPath e)) (join destination suffix);
      validate_renamed source_prefix destination rows
  end.

(** [SET path = ? || substr(path, length(?) + 1)] *)
Definition set_path (path : string) (row : TrackRow) : TrackRow :=
  mkTrackRow (tracks_id row) path (tracks_title row) (tracks_artist row) (tracks_album_artist row)
    (tracks_album row) (tracks_track_no row) (tracks_disc_no row) (tracks_year row)
    (tracks_release_date row) (tracks_original_release_date row) (tracks_composer row)
    (tracks_genre row) (tracks_length_s row) (tracks_bpm row) (tracks_display_title row)
    (tracks_origin row) (tracks_size_bytes row) (tracks_mtime row) (tracks_added_at row).
Definition rename_row (source destination : LibraryPath) (row : TrackRow) : TrackRow :=
  set_path (as_str destination +:+ sql_drop (chars_count (as_str source)) (tracks_path row)) row.

(** The pattern of the paths below a folder. *)
Definition below_pattern (path : LibraryPath) : string := escape_like (as_str path +:+ "/") +:+ "%".

Definition commit_library_folder_rename (journal_id : RecoveryJournalId)
    (source destination : LibraryPath) : ltx LibraryIndexMutationCommit :=
  affected_tracks ← library_transaction (
    _ ← validate_library_mutation_journal journal_id (RenameFolder source destination);
    rows ← gets (fun db => List.filter (path_like (below_pattern source)) (tracks_table (db_tables db)));
    let affected_tracks := N.of_nat (length rows) in
    if (MAX_RECONCILIATION_TRACKS <? affected_tracks)%N
    then throw (invalid_state "folder mutation contains too many tracks")
    else
      _ ← try (validate_renamed (as_str source +:+ "/") destination rows);
      updated ← update_tracks (path_like (below_pattern source)) (rename_row source destination);
      if negb (updated =? affected_tracks)%N
      then throw (invalid_record "folder mutation track set changed")
      else
        _ ← finish_library_index_mutation journal_id "rename_folder" affected_tracks PreserveMembership;
        mret affected_tracks);
  with_status (fun status => mkLibraryIndexMutationCommit status affected_tracks).

Definition commit_library_folder_delete (journal_id : RecoveryJournalId) (path : LibraryPath)
    : ltx LibraryIndexMutationCommit :=
  affected_tracks ← library_transaction (
    _ ← validate_library_delete_journal journal_id path;
    affected_tracks ← delete_tracks (path_like (below_pattern path));
    _ ← finish_library_index_mutation journal_id "delete_folder" affected_tracks RemoveTracks;
    mret affected_tracks);
  with_status (fun status => mkLibraryIndexMutationCommit status affected_tracks).

(* ------------------------------------------------------------------ *)
(** ** The reconciliation *)

Definition begin_library_reconciliation : ltx LibraryStatus :=
  _ ← library_transaction (
    rows_affected ← update_state (fun _ => true) (fun at_ row =>
      mkStateRow (state_generation row) "reconciling" (Some at_) (state_last_scan_at row) None
        (state_discovered_tracks row));
    if (rows_affected =? 1)%nat then mret ()
    else throw (invalid_state "singleton reconciliation row is missing"));
  read_library_status.

Definition is_staged (discovered : list DiscoveredTrack) (row : TrackRow) : bool :=
  existsb (fun track => path_is (as_str (discovered_path track)) row) discovered.
Definition track_of (tracks : list TrackRow) (track : DiscoveredTrack) : option TrackRow :=
  List.find (path_is (as_str (discovered_path track))) tracks.

(** The four counts over the staged scan and the table. *)
Definition scan_summary (tracks : list TrackRow) (discovered : list DiscoveredTrack)
    : option ReconciliationSummary :=
  let count {A} (p : A -> bool) (l : list A) := N.of_nat (length (List.filter p l)) in
  let added := count (fun track => bool_decide (track_of tracks track = None)) discovered in
  let updated := count (fun track => is_some_and (fun row => scan_differs row track)
                                       (track_of tracks track)) discovered in
  let matching := count (fun track => bool_decide (is_Some (track_of tracks track))) discovered in
  let removed := count (fun row => negb (is_staged discovered row)) tracks in
  if (matching <? updated)%N then None
  else Some (mkReconciliationSummary added updated removed (matching - updated)).

(** The upsert of the staged rows, in the order they were staged. *)
Definition upsert_scan (at_ : Z) (tracks : list TrackRow) (discovered : list DiscoveredTrack)
    : list TrackRow := foldl (upsert_row at_ scan_differs) tracks discovered.

Definition commit_library_reconciliation (expected_generation : N) (discovered : list DiscoveredTrack)
    : ltx ReconciliationCommit :=
  if (MAX_RECONCILIATION_TRACKS <? N.of_nat (length discovered))%N
  then throw (invalid_state "reconciliation contains too many tracks")
  else if negb (bool_decide (NoDup (map (fun track => as_str (discovered_path track)) discovered)))
  then throw (invalid_state "reconciliation contains duplicate paths")
  else if existsb oversized discovered
  then throw (invalid_state "track size exceeds SQLite integer range")
  else
    committed ← transaction_ending (
      state ← fetch_state;
      current_generation ← state_generation_of state;
      if negb (current_generation =? expected_generation)%N
      then mret (Tx_rollback (Err current_generation))
      else if negb (String.eqb (state_status state) "reconciling")
      then throw (invalid_state "reconciliation was not started")
      else
        tracks ← gets (fun db => tracks_table (db_tables db));
        summary ← try (ok_or (invalid_state "reconciliation counts are inconsistent")
                         (scan_summary tracks discovered));
        at_ ← now;
        _ ← modify (fun db => with_tracks (upsert_scan at_ (tracks_table (db_tables db)) discovered) db);
        _ ← delete_tracks (fun row => negb (is_staged discovered row));
        generation ← next_generation expected_generation;
        generation ← try (ok_or generation_range (i64_try_from_u64 generation));
        expected ← try (ok_or generation_range (i64_try_from_u64 expected_generation));
        rows_affected ← update_state
          (fun row => (state_generation row =? expected) && String.eqb (state_status row) "reconciling")
          (fun at_ _ => mkStateRow generation "current" None (Some at_) None
                          (Z.of_nat (length discovered)));
        if negb (rows_affected =? 1)%nat
        then throw (invalid_state "reconciliation state changed during commit")
        else
          tracks ← gets (fun db => tracks_table (db_tables db));
          track_ids ← try (map_err Write_Library (result_collect row_track_id tracks));
          mret (Tx_commit (Ok (summary, list_to_set (C := gset TrackId) track_ids))));
    match committed with
    | Err current_generation => mret (Reconciliation_Conflict current_generation)
    | Ok (summary, track_ids) =>
        with_status (fun status => Reconciliation_Applied status summary track_ids)
    end.

Definition error_code_valid (error_code : string) : bool :=
  (1 <=? String.length error_code)%nat && (String.length error_code <=? 64)%nat
  && all_bytes (fun byte => is_ascii_lowercase byte || is_ascii_digit byte
                            || (byte_of byte =? 95)%N) error_code.

Definition fail_library_reconciliation (expected_generation : N) (error_code : string)
    : ltx LibraryStatus :=
  if negb (error_code_valid error_code)
  then throw (invalid_state "reconciliation error code is invalid")
  else
    expected ← try (ok_or generation_range (i64_try_from_u64 expected_generation));
    _ ← library_statement (update_state
          (fun row => (state_generation row =? expected) && String.eqb (state_status row) "reconciling")
          (fun _ row => mkStateRow (state_generation row) "failed" (state_scan_started_at row)
             (state_last_scan_at row) (Some error_code) (state_discovered_tracks row)));
    read_library_status.

(** [impl RecoveryJournalRepository] and [impl LibraryMutationRepository] *)
#[global] Instance SqliteLibraryJournal : RecoveryJournalRepository SqliteLibrary := {|
  journal_error := LibraryWriteError;
  create_recovery_journal draft := on_journal (create_journal draft);
  unfinished_recovery_journals domain := on_journal (unfinished_journals domain);
  transition_recovery_journal id expected next progress :=
    on_journal (transition_journal id expected next progress)
|}.

#[global] Instance SqliteLibraryRepository : LibraryMutationRepository SqliteLibrary := {|
  library_error := LibraryWriteError;
  repository_status := read_library_status;
  repository_track := library_track;
  repository_playback_catalog := playback_catalog;
  begin_reconciliation := begin_library_reconciliation;
  commit_reconciliation := commit_library_reconciliation;
  fail_reconciliation := fail_library_reconciliation;
  commit_folder_rename := commit_library_folder_rename;
  commit_folder_delete := commit_library_folder_delete;
  commit_track_move := commit_library_track_move;
  commit_track_delete := commit_library_track_delete;
  commit_track_metadata := commit_library_track_metadata;
  commit_track_conversion journal_id track_id source staged discovered original :=
    commit_library_track_file_swap journal_id track_id
      (ConvertTrack track_id source staged (discovered_path discovered)) source discovered (Some original);
  commit_track_restore journal_id track_id path discovered :=
    commit_library_track_file_swap journal_id track_id
      (RestoreTrack track_id path (discovered_path discovered)) path discovered None;
  commit_upload := commit_library_upload
|}.
End Sqlite.
