(* ===== verification/LibraryStoreSpec.v ===== *)
(** * What the library repository promises

    The readings of the paths below a folder, the invariant of the tables that
    every operation of [LibraryStore] keeps whatever fails, the atomicity of a
    commit with its journal, and what the installation of a scan leaves. *)

From S2P Require Import Prelude Text MediaPath PlaybackState Store JobStore Library.
From S2P Require Import RecoveryJournal.
From S2P Require Import JournalStore Catalog LibraryMutation LibraryStore.

#[local] Open Scope string_scope.
#[local] Open Scope Z_scope.
#[local] Open Scope list_scope.

(* ------------------------------------------------------------------ *)
(** ** The paths below a folder *)

(** The three escapes of [escape_like], byte by byte. *)
Definition escaped (c : Ascii.ascii) : string :=
  if Ascii.eqb c backslash then "\\"
  else if Ascii.eqb c percent then "\%"
  else if Ascii.eqb c underscore then "\_"
  else String c "".

Lemma replace_char_app c w a b : replace_char c w (a +:+ b) = replace_char c w a +:+ replace_char c w b.
Proof.
  induction a as [|first a IH]; [done|]. rewrite app_cons. cbn. rewrite IH.
  destruct (Ascii.eqb first c); [by rewrite app_assoc_str|done].
Qed.

Lemma escape_like_cons c value : escape_like (String c value) = escaped c +:+ escape_like value.
Proof.
  unfold escape_like, escaped. cbn [replace_char].
  destruct (Ascii.eqb_spec c backslash) as [->|Hb].
  { by rewrite !replace_char_app. }
  cbn [replace_char]. destruct (Ascii.eqb_spec c percent) as [->|Hp].
  { by rewrite !replace_char_app. }
  cbn [replace_char]. by destruct (Ascii.eqb_spec c underscore) as [->|Hu].
Qed.

Lemma sql_like_escaped c rest value :
  sql_like (escaped c +:+ rest) value =
  match value with String d tail => eq_nocase c d && sql_like rest tail | EmptyString => false end.
Proof.
  unfold escaped.
  destruct (Ascii.eqb_spec c backslash) as [->|Hb]; [by destruct value|].
  destruct (Ascii.eqb_spec c percent) as [->|Hp]; [by destruct value|].
  destruct (Ascii.eqb_spec c underscore) as [->|Hu]; [by destruct value|].
  change (String c "" +:+ rest) with (String c rest). cbn.
  rewrite (proj2 (Ascii.eqb_neq _ _) Hp), (proj2 (Ascii.eqb_neq _ _) Hu), (proj2 (Ascii.eqb_neq _ _) Hb).
  done.
Qed.

Lemma sql_like_any value : sql_like "%" value = true.
Proof. cbn. destruct value; [done|]. by induction value as [|c value IH]; cbn in *; rewrite ?orb_true_r. Qed.

(** [path LIKE escape_like(prefix) || '%'] reads the prefix without the case
    of its ASCII letters. *)
Lemma sql_like_prefix prefix value :
  sql_like (escape_like prefix +:+ "%") value = true <-> starts_with (lower prefix) (lower value) = true.
Proof.
  revert value. induction prefix as [|c prefix IH]; intros value.
  { change (escape_like "" +:+ "%") with "%". rewrite sql_like_any. cbn. by destruct (lower value). }
  rewrite escape_like_cons, <- app_assoc_str, sql_like_escaped.
  destruct value as [|d value]; [done|]. cbn [lower starts_with String.prefix].
  unfold eq_nocase. rewrite andb_true_iff, IH, Ascii.eqb_eq. unfold starts_with. cbn [String.prefix].
  destruct (Ascii.ascii_dec (ascii_lower c) (ascii_lower d)); intuition done.
Qed.

Lemma strip_prefix_Some prefix value suffix :
  strip_prefix prefix value = Some suffix <-> value = prefix +:+ suffix.
Proof.
  revert value. induction prefix as [|p prefix IH]; intros value; cbn.
  { split; [by intros [= ->]|by intros ->]. }
  destruct value as [|c value]; [done|]. rewrite app_cons.
  destruct (Ascii.eqb_spec p c) as [->|Hne]; [|split; [done|intros [= ? ?]; congruence]].
  rewrite IH. split; [by intros ->|by intros [= ->]].
Qed.

Lemma starts_with_spec prefix value :
  starts_with prefix value = true <-> exists suffix, value = prefix +:+ suffix.
Proof.
  unfold starts_with. revert value. induction prefix as [|p prefix IH]; intros value; cbn.
  { split; [by exists value|by destruct value]. }
  destruct value as [|c value]; [by split; [|intros [? [=]]]|].
  cbn [String.prefix]. destruct (Ascii.ascii_dec p c) as [->|Hne].
  - rewrite IH. split; intros [suffix Heq]; exists suffix; rewrite app_cons in *; congruence.
  - split; [done|]. intros [suffix [= ? _]]. congruence.
Qed.

Lemma lower_app a b : lower (a +:+ b) = lower a +:+ lower b.
Proof. induction a as [|c a IH]; [done|]. rewrite !app_cons. cbn. by rewrite IH, app_cons. Qed.

Lemma path_below_app path suffix value :
  value = as_str path +:+ "/" +:+ suffix ->
  sql_like (below_pattern path) value = true.
Proof.
  intros ->. unfold below_pattern. apply sql_like_prefix, starts_with_spec.
  exists (lower suffix). by rewrite <- lower_app, <- app_assoc_str.
Qed.

(** [substr(path, length(source) + 1)] of a path below the source. *)
Lemma sql_drop_app source rest :
  begins_with_continuation rest = false -> sql_drop (chars_count source) (source +:+ rest) = rest.
Proof.
  intros Hrest. induction source as [|c source IH].
  { rewrite app_nil. cbn. destruct rest as [|c rest]; [done|]. cbn in *. by rewrite Hrest. }
  rewrite app_cons. destruct (is_continuation c) eqn:Hc; cbn; by rewrite Hc.
Qed.

Lemma renamed_path source destination suffix row :
  tracks_path row = as_str source +:+ "/" +:+ suffix ->
  tracks_path (rename_row source destination row) = as_str destination +:+ "/" +:+ suffix.
Proof. intros Hpath. cbn. by rewrite Hpath, sql_drop_app. Qed.

Lemma validate_renamed_ok prefix destination rows :
  validate_renamed prefix destination rows = Ok () ->
  Forall (fun row => exists suffix, tracks_path row = prefix +:+ suffix /\
    validate (as_str destination +:+ String slash suffix) = Ok ()) rows.
Proof.
  induction rows as [|row rows IH]; cbn; [constructor|]. intros Hrun. inv_results.
  match goal with H : strip_prefix _ _ = Some _ |- _ => apply strip_prefix_Some in H end.
  constructor; [|by apply IH]. eexists. split; [done|].
  match goal with H : map_err _ _ = Ok _ |- _ => apply map_err_ok in H; unfold join, path_parse in H end.
  inv_results. match goal with x : () |- _ => destruct x end. done.
Qed.

(* ------------------------------------------------------------------ *)
(** ** Transactions *)

(** The database apart from its clock and its faults. *)
Definition same_data (a b : SqliteLibrary) : Prop :=
  db_tables a = db_tables b /\ db_state a = db_state b /\ db_journal a = db_journal b.

#[global] Instance same_data_equiv : Equivalence same_data.
Proof. unfold same_data. split; [intros ?|intros ? ?|intros ? ? ?]; naive_solver congruence. Qed.

(** What was committed is there, or nothing happened; an answer is that of the body. *)
Lemma transaction_ending_inv {A} (body : ltx (TxEnd A)) db r db' :
  transaction_ending body db = (r, db') ->
  (exists a after, body (next_db_fault db) = (Ok (Tx_commit a), after) /\ same_data after db' /\
     match r with Ok x => x = a | Err _ => True end) \/
  (same_data db db' /\
   match r with
   | Ok x => exists after, body (next_db_fault db) = (Ok (Tx_rollback x), after)
   | Err _ => True
   end).
Proof.
  unfold transaction_ending. destruct (body (next_db_fault db)) as [[[a|a]|e] after] eqn:Hbody;
    destruct (head (db_faults db)) as [[|cause|cause]|]; intros [= <- <-];
    first [by right | left; by exists a, after | right; by split; [|exists after]].
Qed.

Lemma library_transaction_inv {A} (body : ltx A) db r db' :
  library_transaction body db = (r, db') ->
  (exists a after, body (next_db_fault db) = (Ok a, after) /\ same_data after db' /\
     match r with Ok x => x = a | Err _ => True end) \/
  (same_data db db' /\ exists e, r = Err e).
Proof.
  intros [(a & after & Hbody & Hsame & Hr)|[Hsame Hr]]%transaction_ending_inv.
  - left. apply stateful_bind_ok in Hbody as (x & s & Hbody & Hret). injection Hret as <- <-.
    by exists x, s.
  - right. split; [done|]. destruct r as [x|e]; [|by exists e].
    destruct Hr as [after Hbody]. apply stateful_bind_ok in Hbody as (? & ? & _ & [=]).
Qed.

(** A reading leaves the data alone and answers from it. *)
Lemma read_tables_inv {A} (f : LibraryTables -> result LibraryStorageError A) db r db' :
  read_tables f db = (r, db') ->
  same_data db db' /\ match r with Ok a => f (db_tables db) = Ok a | Err _ => True end.
Proof.
  intros [(a & after & Hbody & Hsame & Hr)|[Hsame [e ->]]]%library_transaction_inv; [|done].
  cbn in Hbody. injection Hbody as Hf <-. apply map_err_ok in Hf.
  split; [done|]. destruct r; [by subst|done].
Qed.

Lemma read_library_status_inv db r db' :
  read_library_status db = (r, db') ->
  same_data db db' /\
  match r with
  | Ok status => exists row, db_state db = Some row /\ status_of row = Ok status
  | Err _ => True
  end.
Proof.
  intros [(a & after & Hbody & Hsame & Hr)|[Hsame [e ->]]]%library_transaction_inv; [|done].
  apply stateful_bind_ok in Hbody as (row & s & Hfetch & Hbody).
  unfold fetch_state, mbind, stateful_bind, gets, try in Hfetch. cbn in Hfetch.
  destruct (db_state db) as [found|] eqn:Hstate; [|done]. injection Hfetch as <- <-.
  unfold try in Hbody. injection Hbody as Hf <-. apply map_err_ok in Hf.
  split; [done|]. destruct r; [|done]. subst. by exists found.
Qed.

(** Reading the status after a commit adds nothing. *)
Lemma with_status_inv {A} (f : LibraryStatus -> A) db r db' :
  with_status f db = (r, db') ->
  same_data db db' /\
  match r with
  | Ok a => exists row status, db_state db = Some row /\ status_of row = Ok status /\ a = f status
  | Err _ => True
  end.
Proof.
  unfold with_status, mbind, stateful_bind.
  destruct (read_library_status db) as [[status|e] db1] eqn:Hread; intros [= <- <-];
    apply read_library_status_inv in Hread as [Hsame Hread]; [|done].
  split; [done|]. destruct Hread as (row & ? & ?). by exists row, status.
Qed.

(** A commit and the status after it: the data the transaction left, or an
    error and the data from before. *)
Lemma committed_inv {A B} (body : ltx A) (f : A -> LibraryStatus -> B) db r db' :
  (a ← library_transaction body; with_status (f a)) db = (r, db') ->
  (exists a after, body (next_db_fault db) = (Ok a, after) /\ same_data after db' /\
     match r with
     | Ok b => exists row status, db_state db' = Some row /\ status_of row = Ok status /\ b = f a status
     | Err _ => True
     end) \/
  (same_data db db' /\ exists e, r = Err e).
Proof.
  unfold mbind, stateful_bind.
  destruct (library_transaction body db) as [[a|e] db1] eqn:Hrun;
    apply library_transaction_inv in Hrun as [(x & after & Hbody & Hsame & Hr)|[Hsame [e' Hr]]];
    intros Hrest; try done.
  - subst. apply with_status_inv in Hrest as [Hsame' Hrest]. left. exists x, after.
    split_and!; [done|by transitivity db1|]. destruct r as [b|]; [|done].
    destruct Hrest as (row & status & Hrow & ? & ?). exists row, status.
    destruct Hsame' as (_ & <- & _). done.
  - injection Hrest as <- <-. left. by exists x, after.
  - injection Hrest as <- <-. right. split; [done|]. by exists e.
Qed.

(* ------------------------------------------------------------------ *)
(** ** Well-formed tables *)

Abbreviation ids rows := (tracks_id <$> rows) (only parsing).
Abbreviation paths rows := (tracks_path <$> rows) (only parsing).

(** The keys the schema declares: the rowids ascend, a path is in the table
    once, and the rows of the other tables belong to a track. *)
Record tables_wf (tables : LibraryTables) : Prop := {
  wf_order : StronglySorted Z.lt (ids (tracks_table tables));
  wf_positive : Forall (fun row => 0 < tracks_id row) (tracks_table tables);
  wf_paths : NoDup (paths (tracks_table tables));
  wf_originals_key : NoDup (originals_track_id <$> originals_table tables);
  wf_originals : Forall (fun row => has_track (tracks_table tables) (originals_track_id row) = true)
                   (originals_table tables);
  wf_tags : Forall (fun row => has_track (tracks_table tables) row.1 = true) (user_tags_table tables)
}.

Lemma has_track_spec tracks id : has_track tracks id = true <-> id ∈ ids tracks.
Proof.
  unfold has_track. rewrite existsb_exists, list_elem_of_fmap. unfold track_id_is.
  split; intros (row & H1 & H2); exists row; rewrite <- list_elem_of_In in *; split; try done; lia.
Qed.

Lemma has_track_ids a b : ids a = ids b -> forall id, has_track a id = has_track b id.
Proof.
  intros Hids id. destruct (has_track b id) eqn:Hb.
  - apply has_track_spec. rewrite Hids. by apply has_track_spec.
  - apply not_true_iff_false. rewrite has_track_spec, Hids, <- has_track_spec. congruence.
Qed.

Lemma path_is_spec tracks path : existsb (path_is path) tracks = true <-> path ∈ paths tracks.
Proof.
  rewrite existsb_exists, list_elem_of_fmap. unfold path_is.
  split; intros (row & H1 & H2); exists row; rewrite <- list_elem_of_In in *.
  - apply String.eqb_eq in H2. done.
  - split; [done|]. by apply String.eqb_eq.
Qed.

Lemma ids_NoDup tracks : StronglySorted Z.lt (ids tracks) -> NoDup (ids tracks).
Proof.
  induction tracks as [|row tracks IH]; cbn; [constructor|]. intros [Hs Hlt]%StronglySorted_inv.
  constructor; [|by apply IH]. intros Hin. rewrite Forall_forall in Hlt. specialize (Hlt _ Hin). lia.
Qed.

(** The same ids in the same places, with paths that stay distinct. *)
Lemma tables_wf_tracks tables tracks :
  tables_wf tables -> ids tracks = ids (tracks_table tables) -> NoDup (paths tracks) ->
  tables_wf (mkLibraryTables tracks (originals_table tables) (user_tags_table tables)).
Proof.
  intros [Ho Hp Hpaths Hk Hor Ht] Hids Hnd.
  assert (forall id, has_track tracks id = has_track (tracks_table tables) id) as Hhas
    by (by apply has_track_ids).
  split; cbn [tracks_table originals_table user_tags_table]; try done.
  - by rewrite Hids.
  - rewrite <- (Forall_fmap tracks_id (fun id => 0 < id)) in Hp |- *. by rewrite Hids.
  - eapply Forall_impl; [exact Hor|]. intros row. by rewrite Hhas.
  - eapply Forall_impl; [exact Ht|]. intros row. by rewrite Hhas.
Qed.


Lemma StronglySorted_sublist {A} (R : relation A) l k :
  l `sublist_of` k -> StronglySorted R k -> StronglySorted R l.
Proof.
  induction 1 as [|x l k Hsub IH|x l k Hsub IH]; [done|..]; intros [Hs Hx]%StronglySorted_inv; [|by apply IH].
  constructor; [by apply IH|]. rewrite Forall_forall in Hx |- *. intros y Hy. apply Hx.
  by eapply elem_of_sublist.
Qed.

Lemma tables_wf_delete tables p :
  tables_wf tables ->
  tables_wf (cascade (List.filter p (tracks_table tables)) tables).
Proof.
  intros [Ho Hp Hpaths Hk Hor Ht]. pose proof (filter_sublist p (tracks_table tables)) as Hsub.
  split; cbn.
  - eapply StronglySorted_sublist; [|exact Ho]. by apply fmap_sublist.
  - rewrite Forall_forall in Hp |- *. intros row Hrow. apply Hp. by eapply elem_of_sublist.
  - eapply sublist_NoDup; [exact Hpaths|]. by apply fmap_sublist.
  - eapply sublist_NoDup; [exact Hk|]. by apply fmap_sublist, filter_sublist.
  - apply retain_Forall.
  - apply retain_Forall.
Qed.

Lemma tables_wf_originals tables originals :
  tables_wf tables -> NoDup (originals_track_id <$> originals) ->
  Forall (fun row => has_track (tracks_table tables) (originals_track_id row) = true) originals ->
  tables_wf (mkLibraryTables (tracks_table tables) originals (user_tags_table tables)).
Proof. intros [Ho Hp Hpaths Hk Hor Ht] Hkey Hall. by split. Qed.

(* ------------------------------------------------------------------ *)
(** ** The statements *)

Definition preserves_ids (set : TrackRow -> TrackRow) : Prop :=
  forall row, tracks_id (set row) = tracks_id row.

Definition map_if {A} (p : A -> bool) (f : A -> A) (l : list A) : list A :=
  map (fun x => if p x then f x else x) l.

Lemma ids_map_if p set rows : preserves_ids set -> ids (map_if p set rows) = ids rows.
Proof.
  intros Hset. unfold map_if. induction rows as [|row rows IH]; [done|]. cbn. rewrite <- IH. f_equal.
  by destruct (p row).
Qed.

Lemma update_rows_inv p set updated rows out :
  update_rows p set updated rows = Some out ->
  out = updated ++ map_if p set rows /\ (NoDup (paths (updated ++ rows)) -> NoDup (paths out)).
Proof.
  unfold map_if. revert updated. induction rows as [|row rows IH]; intros updated; cbn.
  { intros [= <-]. by rewrite app_nil_r. }
  assert (forall new, update_rows p set (updated ++ [new]) rows = Some out ->
    (NoDup (paths (updated ++ row :: rows)) -> NoDup (paths (updated ++ new :: rows))) ->
    out = updated ++ new :: map (fun x => if p x then set x else x) rows /\
    (NoDup (paths (updated ++ row :: rows)) -> NoDup (paths out))) as Hstep.
  { intros new Hrun Hnew. apply IH in Hrun as [-> Hnd]. split; [by rewrite <- app_assoc|].
    intros Hold. apply Hnd. rewrite <- app_assoc. by apply Hnew. }
  destruct (p row) eqn:Hp; [|intros Hrun; by apply Hstep].
  destruct (existsb _ _) eqn:Hfree; [done|]. intros Hrun. apply Hstep; [done|]. intros Hnd.
  apply not_true_iff_false in Hfree. rewrite path_is_spec in Hfree.
  rewrite fmap_app in *. cbn in *. rewrite <- Permutation_middle in Hnd |- *.
  apply NoDup_cons in Hnd as [_ Hnd]. by constructor.
Qed.

Lemma update_tracks_inv p set db n db' :
  update_tracks p set db = (Ok n, db') ->
  n = N.of_nat (length (List.filter p (tracks_table (db_tables db)))) /\
  db' = with_tracks (map_if p set (tracks_table (db_tables db))) db /\
  (NoDup (paths (tracks_table (db_tables db))) ->
   NoDup (paths (map_if p set (tracks_table (db_tables db))))).
Proof.
  unfold update_tracks. destruct (update_rows _ _ _ _) as [out|] eqn:Hrun; [|done]. intros [= <- <-].
  apply update_rows_inv in Hrun as [-> Hnd]. done.
Qed.

Lemma set_discovered_id track : preserves_ids (set_discovered track).
Proof. done. Qed.
Lemma set_metadata_id track : preserves_ids (set_metadata track).
Proof. done. Qed.
Lemma rename_row_id source destination : preserves_ids (rename_row source destination).
Proof. done. Qed.

(** The rowid after all others. *)
Lemma next_track_id_spec tracks : 0 < next_track_id tracks /\ Forall (fun row => tracks_id row < next_track_id tracks) tracks.
Proof.
  induction tracks as [|row tracks [Hpos Hall]]; [by split; [|constructor]|].
  change (next_track_id (row :: tracks)) with (Z.max (tracks_id row + 1) (next_track_id tracks)).
  split; [lia|]. constructor; [lia|]. eapply Forall_impl; [exact Hall|]. intros other Hother. cbv beta in *. lia.
Qed.

Lemma upsert_ids at_ differs tracks track :
  ids (upsert_row at_ differs tracks track) =
  ids tracks ++ (if existsb (path_is (as_str (discovered_path track))) tracks then []
                 else [next_track_id tracks]).
Proof.
  unfold upsert_row. destruct (existsb _ _).
  - rewrite app_nil_r. induction tracks as [|row tracks IH]; [done|]. cbn. rewrite <- IH. f_equal.
    by destruct (path_is _ _ && _).
  - by rewrite fmap_app.
Qed.

Lemma upsert_paths at_ differs tracks track :
  paths (upsert_row at_ differs tracks track) =
  paths tracks ++ (if existsb (path_is (as_str (discovered_path track))) tracks then []
                   else [as_str (discovered_path track)]).
Proof.
  unfold upsert_row. destruct (existsb _ _).
  - rewrite app_nil_r. induction tracks as [|row tracks IH]; [done|]. cbn. rewrite <- IH. f_equal.
    destruct (path_is _ row) eqn:Hpath; cbn; [|done]. apply String.eqb_eq in Hpath.
    by destruct (differs row track).
  - by rewrite fmap_app.
Qed.

Lemma tables_wf_upsert tables at_ differs track :
  tables_wf tables ->
  tables_wf (mkLibraryTables (upsert_row at_ differs (tracks_table tables) track)
               (originals_table tables) (user_tags_table tables)).
Proof.
  intros [Ho Hp Hpaths Hk Hor Ht]. set (tracks := tracks_table tables) in *.
  pose proof (upsert_ids at_ differs tracks track) as Hids.
  pose proof (upsert_paths at_ differs tracks track) as Hpath.
  pose proof (next_track_id_spec tracks) as [Hpos Hlast].
  assert (forall id, has_track tracks id = true -> has_track (upsert_row at_ differs tracks track) id = true) as Hhas.
  { intros id. rewrite !has_track_spec, Hids. set_solver. }
  split; cbn [tracks_table originals_table user_tags_table].
  - rewrite Hids. destruct (existsb _ _); [by rewrite app_nil_r|].
    generalize dependent (next_track_id tracks). clearbody tracks. intros n _ _ Hlast.
    clear -Ho Hlast. induction tracks as [|row rows IH]; [by repeat constructor|].
    cbn in Ho |- *. apply StronglySorted_inv in Ho as [Ho Hlt]. apply Forall_cons in Hlast as [Hrow Hrows].
    constructor; [by apply IH|]. apply Forall_app; split; [done|by repeat constructor].
  - rewrite <- (Forall_fmap tracks_id (fun id => 0 < id)) in Hp |- *. rewrite Hids. apply Forall_app.
    split; [done|]. destruct (existsb _ _); by repeat constructor.
  - rewrite Hpath. destruct (existsb _ _) eqn:He; [by rewrite app_nil_r|].
    apply not_true_iff_false in He. rewrite path_is_spec in He.
    apply NoDup_app. split_and!; [done| |by repeat constructor; set_solver]. set_solver.
  - done.
  - eapply Forall_impl; [exact Hor|]. auto.
  - eapply Forall_impl; [exact Ht|]. auto.
Qed.

(* ------------------------------------------------------------------ *)
(** ** The state row and the journal *)

(** The generation is a stored [i64], the count is that of the table. *)
Definition state_wf (row : StateRow) (tracks : nat) : Prop :=
  0 <= state_generation row <= i64_max_Z /\ state_discovered_tracks row = Z.of_nat tracks /\
  state_status row ∈ ["pending"; "reconciling"; "current"; "failed"].

Definition library_wf (db : SqliteLibrary) : Prop :=
  tables_wf (db_tables db) /\
  exists row, db_state db = Some row /\ state_wf row (length (tracks_table (db_tables db))).

Lemma library_wf_same a b : same_data a b -> library_wf a -> library_wf b.
Proof. unfold library_wf. by intros (<- & <- & _). Qed.

(** The count an effect leads to. *)
Definition effect_total (effect : LibraryCatalogEffect) (count affected : Z) : Z :=
  match effect with
  | PreserveMembership => count
  | AddTracks => count + affected
  | RemoveTracks => count - affected
  end.

Section Commits.
Context `{!JsonText, !JournalClock}.

(** The row of a journal that its commit leaves. *)
Definition committed_row (affected : N) (before after : JournalRow) : Prop :=
  exists progress_json at_,
    value_to_string (json_map [("affected_tracks", json_number affected)]) = Ok progress_json /\
    after = transitioned_row Committed progress_json at_ before.

Lemma update_state_inv p set db n db' :
  update_state p set db = (Ok n, db') ->
  db_tables db' = db_tables db /\ db_journal db' = db_journal db /\
  match db_state db with
  | Some row =>
      if p row then n = 1%nat /\ db_state db' = Some (set (journal_timestamp (db_clock db)) row)
      else n = 0%nat /\ db_state db' = db_state db
  | None => n = 0%nat /\ db_state db' = db_state db
  end.
Proof.
  unfold update_state, mbind, stateful_bind, now, gets, modify, mret, stateful_ret. cbn.
  destruct (db_state db) as [row|] eqn:Hstate; [|by intros [= <- <-]].
  destruct (p row); by intros [= <- <-].
Qed.

Lemma commit_journal_inv id operation progress_json db db' :
  commit_journal id operation progress_json db = (Ok 1%nat, db') ->
  db_tables db' = db_tables db /\ db_state db' = db_state db /\
  exists row, db_journal db !! journal_id_text id = Some row /\
    journal_is "library" operation "applying" row = true /\
    db_journal db' = <[journal_id_text id :=
      transitioned_row Committed progress_json (journal_timestamp (db_clock db)) row]> (db_journal db).
Proof.
  unfold commit_journal, mbind, stateful_bind, now, gets, modify, mret, stateful_ret. cbn.
  destruct (db_journal db !! journal_id_text id) as [row|] eqn:Hrow; [|done].
  destruct (journal_is _ _ _ row) eqn:His; [|done]. intros [= <-]. cbn. split_and!; [done..|]. by exists row.
Qed.

Lemma effect_count_inv effect current affected db total db' :
  effect_count effect current affected db = (Ok total, db') ->
  db' = db /\ Z.of_N total = effect_total effect (Z.of_N current) (Z.of_N affected).
Proof.
  unfold effect_count. destruct effect.
  - by intros [= <- <-].
  - unfold try. destruct (u64_checked_add current affected) as [sum|] eqn:Hsum; [|done].
    intros [= <- <-]. apply u64_checked_add_Some in Hsum as [-> _]. split; [done|]. cbn. lia.
  - destruct (N.ltb_spec current affected); [done|]. intros [= <- <-]. split; [done|]. cbn. lia.
Qed.

Lemma u64_try_from_inv v n : u64_try_from_i64 v = Some n -> v = Z.of_N n.
Proof. unfold u64_try_from_i64. destruct (Z.leb_spec 0 v); [|done]. intros [= <-]. lia. Qed.
Lemma i64_try_from_inv n v : i64_try_from_u64 n = Some v -> v = Z.of_N n /\ v <= i64_max_Z.
Proof. unfold i64_try_from_u64. destruct (Z.leb_spec (Z.of_N n) i64_max_Z); [|done]. by intros [= <-]. Qed.

(** [try] of a result in the middle of a body. *)
Lemma try_inv {E A} (r : result E A) (db db' : SqliteLibrary) x :
  try r db = (Ok x, db') -> r = Ok x /\ db' = db.
Proof. unfold try. by intros [= -> ->]. Qed.

Lemma fetch_state_inv db row db' :
  fetch_state db = (Ok row, db') -> db_state db = Some row /\ db' = db.
Proof.
  unfold fetch_state, mbind, stateful_bind, gets, try. cbn.
  destruct (db_state db); cbn; [|done]. by intros [= <- <-].
Qed.

Lemma next_generation_inv generation db next db' :
  next_generation generation db = (Ok next, db') -> next = (generation + 1)%N /\ db' = db.
Proof.
  unfold next_generation, LibraryGeneration_next. intros [Hr ->]%try_inv. apply map_err_ok in Hr.
  destruct (u64_checked_add generation 1) as [n|] eqn:Hn; [|done]. injection Hr as <-.
  by apply u64_checked_add_Some in Hn as [-> _].
Qed.

Lemma state_generation_of_inv row db generation db' :
  state_generation_of row db = (Ok generation, db') ->
  state_generation row = Z.of_N generation /\ db' = db.
Proof.
  unfold state_generation_of, LibraryGeneration_try_from. intros [Hr ->]%try_inv. apply map_err_ok in Hr.
  destruct (u64_try_from_i64 (state_generation row)) as [n|] eqn:Hn; [|done]. injection Hr as <-.
  by apply u64_try_from_inv in Hn.
Qed.

(** The state after a commit of [affected] tracks: the next generation, or the
    same when nothing was affected. *)
Definition finished_state (affected : N) (effect : LibraryCatalogEffect) (before after : option StateRow) : Prop :=
  if (0 <? affected)%N then
    exists row, before = Some row /\ 0 <= state_generation row /\ state_generation row + 1 <= i64_max_Z /\
      after = Some (set_generation (state_generation row + 1)
        (effect_total effect (state_discovered_tracks row) (Z.of_N affected)) row)
  else after = before.

(** What a commit does to the journal: its row, that was applying, is committed. *)
Definition finished_journal (id : RecoveryJournalId) (operation : string) (affected : N)
    (before after : gmap string JournalRow) : Prop :=
  exists old new, before !! journal_id_text id = Some old /\
    journal_is "library" operation "applying" old = true /\
    committed_row affected old new /\ after = <[journal_id_text id := new]> before.

Lemma finish_inv id operation affected effect db db' :
  finish_library_index_mutation id operation affected effect db = (Ok (), db') ->
  db_tables db' = db_tables db /\
  finished_state affected effect (db_state db) (db_state db') /\
  finished_journal id operation affected (db_journal db) (db_journal db').
Proof.
  unfold finish_library_index_mutation. intros Hrun.
  apply stateful_bind_ok in Hrun as ([] & db1 & Hstate & Hrun).
  apply stateful_bind_ok in Hrun as (progress & db2 & Hp & Hrun). apply try_inv in Hp as [Hp ->].
  apply map_err_ok in Hp.
  apply stateful_bind_ok in Hrun as (n & db3 & Hj & Hrun).
  destruct (Nat.eqb_spec n 1) as [->|]; [|done]. injection Hrun as <-.
  apply commit_journal_inv in Hj as (Ht3 & Hs3 & old & Hold & His & Hj3).
  assert (db_tables db1 = db_tables db /\ db_journal db1 = db_journal db /\
    finished_state affected effect (db_state db) (db_state db1)) as (Ht1 & Hj1 & Hs1).
  { unfold finished_state. destruct (0 <? affected)%N; [|by injection Hstate as <-].
    apply stateful_bind_ok in Hstate as (row & s & Hrow & Hm). apply fetch_state_inv in Hrow as [Hrow ->].
    apply stateful_bind_ok in Hm as (g & s & Hg & Hm). apply state_generation_of_inv in Hg as [Hg ->].
    apply stateful_bind_ok in Hm as (g' & s & Hg' & Hm). apply next_generation_inv in Hg' as [-> ->].
    apply stateful_bind_ok in Hm as (c & s & Hc & Hm). apply try_inv in Hc as [Hc ->].
    destruct (u64_try_from_i64 _) as [c'|] eqn:Hc'; [|done]. injection Hc as <-. apply u64_try_from_inv in Hc'.
    apply stateful_bind_ok in Hm as (total & s & He & Hm). apply effect_count_inv in He as [-> He].
    apply stateful_bind_ok in Hm as (gz & s & Hgz & Hm). apply try_inv in Hgz as [Hgz ->].
    destruct (i64_try_from_u64 (g + 1)) as [z|] eqn:Hz; [|done]. injection Hgz as <-. apply i64_try_from_inv in Hz as [-> Hmax].
    apply stateful_bind_ok in Hm as (tz & s & Htz & Hm). apply try_inv in Htz as [Htz ->].
    destruct (i64_try_from_u64 total) as [z|] eqn:Hz; [|done]. injection Htz as <-. apply i64_try_from_inv in Hz as [-> _].
    apply stateful_bind_ok in Hm as (cz & s & Hcz & Hm). apply try_inv in Hcz as [Hcz ->].
    destruct (i64_try_from_u64 g) as [z|] eqn:Hz; [|done]. injection Hcz as <-. apply i64_try_from_inv in Hz as [-> _].
    apply stateful_bind_ok in Hm as (n & s & Hu & Hm). destruct (Nat.eqb_spec n 1) as [->|]; [|done].
    injection Hm as <-. apply update_state_inv in Hu as (? & ? & Hu). rewrite Hrow in Hu.
    destruct (Z.eqb_spec (state_generation row) (Z.of_N g)); [|by destruct Hu].
    destruct Hu as [_ Hu]. split_and!; [done..|]. exists row.
    split_and!; [done|lia|lia|]. rewrite Hu, He, <- Hc'. repeat f_equal. lia. }
  split_and!; [congruence|by rewrite Hs3|]. exists old. eexists. rewrite Hj1 in Hold, Hj3.
  split_and!; [done|done| |exact Hj3]. by exists progress, (journal_timestamp (db_clock db1)).
Qed.
End Commits.

(* ------------------------------------------------------------------ *)
(** ** What each commit changes *)

Lemma json_eqb_eq a b : json_eqb a b = true <-> a = b.
Proof.
  split; [|intros <-].
  - revert b. induction a as [|x|x|x|values IH|entries IH] using JsonValue_rect'; intros [|y|y|y|values'|entries'];
      cbn; try done.
    + intros Hxy%eqb_prop. by subst.
    + intros Hxy%String.eqb_eq. by subst.
    + intros Hxy%String.eqb_eq. by subst.
    + intros Hall. f_equal. revert values' Hall.
      induction IH as [|v values Hv _ IH]; intros [|v' values']; try done.
      intros [Hx Hall]%andb_true_iff. f_equal; auto.
    + intros Hall. f_equal. revert entries' Hall.
      induction IH as [|[k v] entries Hv _ IH]; intros [|[k' v'] entries']; try done.
      intros [[Hk%String.eqb_eq Hx]%andb_true_iff Hall]%andb_true_iff. subst. f_equal; [f_equal|]; auto.
  - induction a as [|x|x|x|values IH|entries IH] using JsonValue_rect'; cbn;
      rewrite ?eqb_reflx, ?String.eqb_refl; try done.
    + induction IH as [|v values Hv _ IH]; [done|]. by rewrite Hv, IH.
    + induction IH as [|[k v] entries Hv _ IH]; [done|]. cbn in Hv. by rewrite String.eqb_refl, Hv, IH.
Qed.

Definition set_tracks (tracks : list TrackRow) (tables : LibraryTables) : LibraryTables :=
  mkLibraryTables tracks (originals_table tables) (user_tags_table tables).
Definition set_originals (originals : list OriginalRow) (tables : LibraryTables) : LibraryTables :=
  mkLibraryTables (tracks_table tables) originals (user_tags_table tables).

(** A path in the folder, as the file system has it. *)
Definition below (folder : LibraryPath) (row : TrackRow) : bool :=
  starts_with (as_str folder +:+ "/") (tracks_path row).
(** A path in the folder up to the case of ASCII letters. *)
Definition below_nocase (folder : LibraryPath) (row : TrackRow) : bool :=
  starts_with (lower (as_str folder +:+ "/")) (lower (tracks_path row)).

Lemma path_like_below folder row : path_like (below_pattern folder) row = below_nocase folder row.
Proof.
  unfold path_like, below_pattern, below_nocase. apply eq_true_iff_eq. apply sql_like_prefix.
Qed.

Lemma below_is_nocase folder row : below folder row = true -> below_nocase folder row = true.
Proof.
  unfold below, below_nocase. rewrite !starts_with_spec. intros [suffix ->]. rewrite lower_app. by eexists.
Qed.

Definition rows_where (p : TrackRow -> bool) (tables : LibraryTables) : N :=
  N.of_nat (length (List.filter p (tracks_table tables))).

(** The index after a mutation with its outcome, the tracks it affected and
    how their number changed. *)
Definition index_change (at_ : Z) (mutation : LibraryFileMutation) (outcome : LibraryFileMutationOutcome)
    (tables : LibraryTables) : LibraryTables * N * LibraryCatalogEffect :=
  let rows := tracks_table tables in
  let swap id path track originals :=
    (mkLibraryTables (map_if (track_at (TrackId_get id) (as_str path)) (set_discovered track) rows)
       originals (user_tags_table tables), 1%N, PreserveMembership) in
  match mutation, outcome with
  | RenameFolder source destination, _ =>
      (set_tracks (map_if (below source) (rename_row source destination) rows) tables,
       rows_where (below source) tables, PreserveMembership)
  | DeleteFolder path _, _ =>
      (cascade (List.filter (fun row => negb (below_nocase path row)) rows) tables,
       rows_where (below_nocase path) tables, RemoveTracks)
  | MoveTrack id source _, TrackMoved _ track => swap id source track (originals_table tables)
  | DeleteTrack id path, _ =>
      let p := track_at (TrackId_get id) (as_str path) in
      (cascade (List.filter (fun row => negb (p row)) rows) tables, rows_where p tables, RemoveTracks)
  | UpdateTrackMetadata id path patch, TrackMetadataUpdated _ discovered original =>
      let p := track_at (TrackId_get id) (as_str path) in
      match find_track p tables with
      | Ok (Some track) =>
          let edits := default ("", "") (result_ok
            (apply_database_changes (changes patch) (track_display_title track) (track_origin track))) in
          (mkLibraryTables
             (map_if p (set_metadata (edited_track track discovered edits.1 edits.2)) rows)
             (match original with
              | Some original => map_if (original_of (TrackId_get id)) (fun row =>
                  mkOriginalRow (TrackId_get id) (originals_extension row)
                    (Z.of_N (original_size_bytes original)) (original_mtime_unix_seconds original))
                  (originals_table tables)
              | None => originals_table tables
              end)
             (user_tags_table tables), 1%N, PreserveMembership)
      | _ => (tables, 0%N, PreserveMembership)
      end
  | PublishUpload _ destination _, UploadPublished _ (Some track) =>
      (set_tracks (upsert_row at_ (fun _ _ => true) rows track) tables, 1%N,
       if existsb (path_is (as_str destination)) rows then PreserveMembership else AddTracks)
  | ConvertTrack id source _ _, TrackConverted _ track original =>
      swap id source track (originals_table tables ++
        [mkOriginalRow (TrackId_get id) (original_extension original)
           (Z.of_N (original_size_bytes original)) (original_mtime_unix_seconds original)])
  | RestoreTrack id path _, TrackRestored _ track =>
      swap id path track (List.filter (fun row => negb (original_of (TrackId_get id) row))
                            (originals_table tables))
  | _, _ => (tables, 0%N, PreserveMembership)
  end.

Section Changes.
Context `{!JsonText, !JournalClock}.

(** The journal row a mutation is committed against holds its plan. *)
Definition planned (id : RecoveryJournalId) (mutation : LibraryFileMutation) (db : SqliteLibrary) : Prop :=
  exists row stored, db_journal db !! journal_id_text id = Some row /\
    value_from_str (journal_row_plan_json row) = Ok stored /\
    match mutation with
    | DeleteFolder path _ => value_get "path" stored = Some (json_path path)
    | _ => stored = plan mutation
    end.

(** One committed transaction of a mutation: the index changed as it says, the
    generation counts it and its journal is committed with it. *)
Record commits (id : RecoveryJournalId) (mutation : LibraryFileMutation)
    (outcome : LibraryFileMutationOutcome) (before after : SqliteLibrary) : Prop := {
  commits_change : exists at_ affected effect,
    index_change at_ mutation outcome (db_tables before) = (db_tables after, affected, effect) /\
    finished_state affected effect (db_state before) (db_state after) /\
    finished_journal id (operation_name mutation) affected (db_journal before) (db_journal after) /\
    Z.of_nat (length (tracks_table (db_tables after))) =
      effect_total effect (Z.of_nat (length (tracks_table (db_tables before)))) (Z.of_N affected);
  commits_planned : planned id mutation before;
  commits_wf : tables_wf (db_tables before) -> tables_wf (db_tables after)
}.


Lemma commits_same id mutation outcome before after after' :
  commits id mutation outcome before after -> same_data after after' ->
  commits id mutation outcome before after'.
Proof.
  intros [Hc Hp Hw] (Ht & Hs & Hj). split; [|done|by rewrite <- Ht].
  by rewrite <- Ht, <- Hs, <- Hj.
Qed.

(** A commit keeps the database well-formed. *)
Lemma commits_library_wf id mutation outcome before after :
  commits id mutation outcome before after -> library_wf before -> library_wf after.
Proof.
  intros [(at_ & affected & effect & _ & Hstate & _ & Hlen) _ Hwf] (Ht & row & Hrow & Hgen & Hcount & Hstatus).
  split; [by apply Hwf|]. unfold finished_state in Hstate.
  destruct (N.ltb_spec 0 affected).
  - destruct Hstate as (row' & Hrow' & Hpos & Hmax & Hafter). assert (row' = row) as -> by congruence.
    eexists. split; [exact Hafter|]. unfold state_wf. cbn. split_and!; [lia|lia| |set_solver].
    by rewrite Hcount, Hlen.
  - exists row. split; [congruence|]. split_and!; [lia|lia| |done].
    rewrite Hcount. assert (affected = 0%N) as -> by lia. destruct effect; cbn in Hlen; lia.
Qed.

Lemma read_applying_inv id domain operation db value db' :
  read_applying_mutation_journal id domain operation db = (Ok value, db') ->
  db' = db /\ exists row, db_journal db !! journal_id_text id = Some row /\
    journal_is domain operation "applying" row = true /\
    value_from_str (journal_row_plan_json row) = Ok value.
Proof.
  unfold read_applying_mutation_journal. intros Hrun.
  apply stateful_bind_ok in Hrun as (found & s & Hfound & Hrun). injection Hfound as <- <-.
  apply stateful_bind_ok in Hrun as (row & s & Hrow & Hrun). apply try_inv in Hrow as [Hrow ->].
  destruct (db_journal db !! _) as [row'|]; [|done]. injection Hrow as ->.
  destruct (journal_is _ _ _ row) eqn:His; [|done].
  apply try_inv in Hrun as [Hvalue ->]. apply map_err_ok in Hvalue. split; [done|]. by exists row.
Qed.

Lemma validate_inv id mutation db u db' :
  validate_library_mutation_journal id mutation db = (Ok u, db') ->
  db' = db /\ planned id mutation db.
Proof.
  unfold validate_library_mutation_journal. rewrite operation_ok. intros Hrun.
  apply stateful_bind_ok in Hrun as (op & s & Hop & Hrun). apply try_inv in Hop as [Hop ->]. injection Hop as <-.
  apply stateful_bind_ok in Hrun as (stored & s & Hread & Hrun).
  apply read_applying_inv in Hread as [-> (row & Hrow & _ & Hstored)].
  destruct (json_eqb stored _) eqn:Heq; [|done]. injection Hrun as _ <-. apply json_eqb_eq in Heq as ->.
  split; [done|]. exists row, (plan mutation). split_and!; [done..|]. by destruct mutation.
Qed.

Lemma validate_delete_inv id path recursive db u db' :
  validate_library_delete_journal id path db = (Ok u, db') ->
  db' = db /\ planned id (DeleteFolder path recursive) db.
Proof.
  unfold validate_library_delete_journal. intros Hrun.
  apply stateful_bind_ok in Hrun as (stored & s & Hread & Hrun).
  apply read_applying_inv in Hread as [-> (row & Hrow & _ & Hstored)].
  destruct stored; try done. destruct (_ || _ || _) eqn:Hcheck; [done|]. injection Hrun as _ <-.
  apply orb_false_iff in Hcheck as [[_ Hpath]%orb_false_iff _].
  apply negb_false_iff, bool_decide_eq_true_1 in Hpath.
  split; [done|]. eexists row, _. split_and!; [done..|]. unfold json_path.
  destruct (value_get "path" _) as [[]|]; try done. cbn in Hpath. congruence.
Qed.

(** The end of every commit. *)
Lemma commits_finish id mutation outcome at_ affected effect db db1 db2 :
  planned id mutation db -> db_state db1 = db_state db -> db_journal db1 = db_journal db ->
  index_change at_ mutation outcome (db_tables db) = (db_tables db1, affected, effect) ->
  (tables_wf (db_tables db) -> tables_wf (db_tables db1)) ->
  Z.of_nat (length (tracks_table (db_tables db1))) =
    effect_total effect (Z.of_nat (length (tracks_table (db_tables db)))) (Z.of_N affected) ->
  finish_library_index_mutation id (operation_name mutation) affected effect db1 = (Ok (), db2) ->
  commits id mutation outcome db db2.
Proof.
  intros Hplan Hstate Hjournal Hchange Hwf Hlen (Ht & Hs & Hj)%finish_inv.
  rewrite Hstate in Hs. rewrite Hjournal in Hj.
  split; [|done|by rewrite Ht]. exists at_, affected, effect. by rewrite Ht.
Qed.

Lemma select_track_inv p db found db' :
  select_track p db = (Ok found, db') -> db' = db /\ find_track p (db_tables db) = Ok found.
Proof.
  unfold select_track. intros Hrun. apply stateful_bind_ok in Hrun as (t & s & Hg & Hrun).
  injection Hg as <- <-. apply try_inv in Hrun as [Hf ->]. by apply map_err_ok in Hf.
Qed.

Lemma fetch_track_inv p db track db' :
  fetch_track p db = (Ok track, db') -> db' = db /\ find_track p (db_tables db) = Ok (Some track).
Proof.
  unfold fetch_track. intros Hrun. apply stateful_bind_ok in Hrun as (found & s & Hs & Hrun).
  apply select_track_inv in Hs as [-> Hs]. apply try_inv in Hrun as [Hf ->].
  destruct found; [|done]. injection Hf as ->. done.
Qed.

Lemma length_map_if {A} (p : A -> bool) f (l : list A) : length (map_if p f l) = length l.
Proof. apply length_map. Qed.

Lemma filter_split {A} (p : A -> bool) l :
  (length (List.filter (fun x => negb (p x)) l) + length (List.filter p l) = length l)%nat.
Proof. induction l as [|x l IH]; [done|]. cbn. destruct (p x); cbn; lia. Qed.

(** The status a commit answers with is the stored one. *)
Definition reports (status : LibraryStatus) (db : SqliteLibrary) : Prop :=
  exists row, db_state db = Some row /\ status_of row = Ok status.

(** A commit was made, with its answer, or it failed and changed nothing. *)
Definition commit_outcome {A} (id : RecoveryJournalId) (mutation : LibraryFileMutation)
    (outcome : LibraryFileMutationOutcome) (answer : A -> SqliteLibrary -> Prop)
    (db : SqliteLibrary) (r : result LibraryWriteError A) (db' : SqliteLibrary) : Prop :=
  (commits id mutation outcome db db' /\ match r with Ok a => answer a db' | Err _ => True end) \/
  (same_data db db' /\ exists e, r = Err e).

Lemma commit_outcome_of {A B} id mutation outcome answer (body : ltx A) (f : A -> LibraryStatus -> B) db r db' :
  (a ← library_transaction body; with_status (f a)) db = (r, db') ->
  (forall a after, body (next_db_fault db) = (Ok a, after) ->
    commits id mutation outcome db after /\
    forall status db', same_data after db' -> reports status db' -> answer (f a status) db') ->
  commit_outcome id mutation outcome answer db r db'.
Proof.
  intros [(a & after & Hbody & Hsame & Hr)|Hfailed]%committed_inv Hok; [|by right].
  apply Hok in Hbody as [Hcommits Hanswer]. left. split; [by eapply commits_same|].
  destruct r as [b|]; [|done]. destruct Hr as (row & status & Hrow & Hstatus & ->).
  apply Hanswer; [done|]. by exists row.
Qed.

Definition answers_track (id : TrackId) (c : LibraryTrackMutationCommit) (db : SqliteLibrary) : Prop :=
  reports (commit_status c) db /\
  find_track (track_id_is (TrackId_get id)) (db_tables db) = Ok (Some (commit_track c)).
Definition answers_index (affected : N) (c : LibraryIndexMutationCommit) (db : SqliteLibrary) : Prop :=
  reports (index_status c) db /\ index_affected_tracks c = affected.

Lemma answers_track_of id track status db db' :
  find_track (track_id_is (TrackId_get id)) (db_tables db) = Ok (Some track) ->
  same_data db db' -> reports status db' ->
  answers_track id (mkLibraryTrackMutationCommit status track) db'.
Proof. intros Hfind (Ht & _ & _) Hstatus. split; [done|]. by rewrite <- Ht. Qed.

Lemma move_outcome id track_id source d db r db' :
  commit_library_track_move id track_id source d db = (r, db') ->
  commit_outcome id (MoveTrack track_id source (discovered_path d)) (TrackMoved track_id d)
    (answers_track track_id) db r db'.
Proof.
  unfold commit_library_track_move. destruct (oversized d); [intros [= <- <-]; right; by split; [|eexists]|].
  intros Hrun. eapply commit_outcome_of in Hrun; [exact Hrun|]. clear Hrun. intros track after Hbody.
  apply stateful_bind_ok in Hbody as (u & s & Hv & Hbody). apply validate_inv in Hv as [-> Hplan].
  apply stateful_bind_ok in Hbody as (n & s & Hu & Hbody). apply update_tracks_inv in Hu as (Hn & -> & Hnd).
  destruct (N.eqb_spec n 1) as [->|]; [|done].
  apply stateful_bind_ok in Hbody as ([] & s & Hf & Hbody).
  apply stateful_bind_ok in Hbody as (t & s' & Hfetch & Hbody). injection Hbody as <- <-.
  apply fetch_track_inv in Hfetch as [-> Hfetch]. split.
  - eapply (commits_finish _ _ _ 0 1 PreserveMembership); [..|exact Hf]; try done; cbn; [|by rewrite length_map_if].
    intros Hwf. apply tables_wf_tracks; [done|by apply ids_map_if|]. apply Hnd, Hwf.
  - intros status db1 Hsame Hstatus. by eapply answers_track_of.
Qed.

Lemma delete_tracks_inv p db n db' :
  delete_tracks p db = (Ok n, db') ->
  n = rows_where p (db_tables db) /\
  db' = with_tables (cascade (List.filter (fun row => negb (p row)) (tracks_table (db_tables db))) (db_tables db)) db.
Proof. unfold delete_tracks. by intros [= <- <-]. Qed.

Lemma delete_length p (rows : list TrackRow) :
  Z.of_nat (length (List.filter (fun row => negb (p row)) rows)) =
  Z.of_nat (length rows) - Z.of_N (N.of_nat (length (List.filter p rows))).
Proof. pose proof (filter_split p rows). lia. Qed.

Lemma track_delete_outcome id track_id path db r db' :
  commit_library_track_delete id track_id path db = (r, db') ->
  commit_outcome id (DeleteTrack track_id path) (TrackDeleted track_id)
    (answers_index (rows_where (track_at (TrackId_get track_id) (as_str path)) (db_tables db))) db r db'.
Proof.
  unfold commit_library_track_delete. intros Hrun.
  eapply commit_outcome_of in Hrun; [exact Hrun|]. clear Hrun. intros affected after Hbody.
  apply stateful_bind_ok in Hbody as (u & s & Hv & Hbody). apply validate_inv in Hv as [-> Hplan].
  apply stateful_bind_ok in Hbody as (n & s & Hd & Hbody). apply delete_tracks_inv in Hd as [-> ->].
  apply stateful_bind_ok in Hbody as ([] & s & Hf & Hbody). injection Hbody as <- <-.
  split; [|by intros status db1 _ Hstatus].
  eapply (commits_finish _ _ _ 0 _ RemoveTracks); [..|exact Hf]; try done; cbn.
  - apply tables_wf_delete.
  - apply delete_length.
Qed.

Lemma filter_ext_length {A} (p q : A -> bool) l :
  (forall x, p x = q x) -> List.filter p l = List.filter q l.
Proof. intros Heq. induction l as [|x l IH]; [done|]. cbn. rewrite Heq. by destruct (q x); rewrite IH. Qed.

Lemma folder_delete_outcome id path recursive db r db' :
  commit_library_folder_delete id path db = (r, db') ->
  commit_outcome id (DeleteFolder path recursive) Outcome_Deleted
    (answers_index (rows_where (below_nocase path) (db_tables db))) db r db'.
Proof.
  unfold commit_library_folder_delete. intros Hrun.
  eapply commit_outcome_of in Hrun; [exact Hrun|]. clear Hrun. intros affected after Hbody.
  apply stateful_bind_ok in Hbody as (u & s & Hv & Hbody). apply (validate_delete_inv _ _ recursive) in Hv as [-> Hplan].
  apply stateful_bind_ok in Hbody as (n & s & Hd & Hbody). apply delete_tracks_inv in Hd as [-> ->].
  apply stateful_bind_ok in Hbody as ([] & s & Hf & Hbody). injection Hbody as <- <-.
  assert (rows_where (path_like (below_pattern path)) (db_tables db) = rows_where (below_nocase path) (db_tables db)) as Hrows.
  { unfold rows_where. do 2 f_equal. apply filter_ext_length, path_like_below. }
  cbn [db_tables next_db_fault] in *. rewrite Hrows in Hf.
  split; [|by intros status db1 _ Hstatus; split; [|cbn; rewrite Hrows]].
  eapply (commits_finish _ _ _ 0 _ RemoveTracks); [..|exact Hf]; try done; cbn.
  - do 3 f_equal. apply filter_ext_length. intros row. by rewrite path_like_below.
  - apply tables_wf_delete.
  - unfold rows_where. rewrite (filter_ext_length _ (fun row => negb (below_nocase path row)))
      by (intros row; by rewrite path_like_below). apply delete_length.
Qed.

Lemma map_if_ext p q (f : TrackRow -> TrackRow) rows :
  Forall (fun row => p row = q row) rows -> map_if p f rows = map_if q f rows.
Proof. unfold map_if. induction 1 as [|row rows Hrow _ IH]; [done|]. cbn. by rewrite Hrow, IH. Qed.

Lemma Forall_kept {A} (p : A -> bool) (P : A -> Prop) l :
  Forall P (List.filter p l) <-> Forall (fun x => p x = true -> P x) l.
Proof.
  induction l as [|x l IH]; cbn; [by split; constructor|]. rewrite Forall_cons, <- IH.
  destruct (p x); [rewrite Forall_cons|]; naive_solver.
Qed.

(** The check of the renamed paths refuses a folder that differs in case. *)
Lemma renamed_same source destination rows :
  validate_renamed (as_str source +:+ "/") destination (List.filter (path_like (below_pattern source)) rows) = Ok () ->
  Forall (fun row => path_like (below_pattern source) row = below source row) rows.
Proof.
  intros Hvalid%validate_renamed_ok%Forall_kept. eapply Forall_impl; [exact Hvalid|].
  intros row Hrow. cbv beta in Hrow. apply eq_true_iff_eq. rewrite path_like_below in *.
  split; [|apply below_is_nocase]. intros (suffix & Hpath & _)%Hrow. apply starts_with_spec. by exists suffix.
Qed.

Lemma folder_rename_outcome id source destination has_children db r db' :
  commit_library_folder_rename id source destination db = (r, db') ->
  commit_outcome id (RenameFolder source destination) (Outcome_Folder destination has_children)
    (answers_index (rows_where (below source) (db_tables db))) db r db'.
Proof.
  unfold commit_library_folder_rename. intros Hrun.
  eapply commit_outcome_of in Hrun; [exact Hrun|]. clear Hrun. intros affected after Hbody.
  apply stateful_bind_ok in Hbody as (u & s & Hv & Hbody). apply validate_inv in Hv as [-> Hplan].
  apply stateful_bind_ok in Hbody as (rows & s & Hrows & Hbody). injection Hrows as <- <-.
  destruct (MAX_RECONCILIATION_TRACKS <? _)%N; [done|].
  apply stateful_bind_ok in Hbody as ([] & s & Hvalid & Hbody). apply try_inv in Hvalid as [Hvalid ->].
  apply renamed_same in Hvalid as Hsame. cbn [db_tables next_db_fault] in *.
  set (tracks := tracks_table (db_tables db)) in *.
  apply stateful_bind_ok in Hbody as (n & s & Hu & Hbody). apply update_tracks_inv in Hu as (Hn & -> & Hnd).
  destruct (N.eqb_spec n (N.of_nat (length (List.filter (path_like (below_pattern source)) tracks)))) as [->|]; [|done].
  apply stateful_bind_ok in Hbody as ([] & s & Hf & Hbody). injection Hbody as <- <-.
  assert (N.of_nat (length (List.filter (path_like (below_pattern source)) tracks)) =
    rows_where (below source) (db_tables db)) as Hrows.
  { unfold rows_where. fold tracks. do 2 f_equal. clear -Hsame.
    induction Hsame as [|row rows Hrow _ IH]; [done|]. cbn. rewrite Hrow. by destruct (below source row); rewrite IH. }
  rewrite Hrows in Hf. cbn [db_tables next_db_fault] in *. fold tracks in Hnd, Hf. rewrite (map_if_ext _ _ _ _ Hsame) in Hnd, Hf.
  split; [|by intros status db1 _ Hstatus].
  eapply (commits_finish _ _ _ 0 _ PreserveMembership); [..|exact Hf]; try done; cbn; [|by rewrite length_map_if].
  intros Hwf. apply tables_wf_tracks; [done|by apply ids_map_if|]. apply Hnd, Hwf.
Qed.

Lemma stored_size_inv size (db db' : SqliteLibrary) stored :
  try (map_err Write_Library (stored_size size)) db = (Ok stored, db') -> stored = Z.of_N size /\ db' = db.
Proof.
  intros [Hs ->]%try_inv. apply map_err_ok in Hs. unfold stored_size in Hs.
  destruct (i64_try_from_u64 size) as [v|] eqn:Hv; [|done]. injection Hs as <-.
  by apply i64_try_from_inv in Hv as [-> _].
Qed.

Lemma originals_map_if tables id set :
  tables_wf tables -> (forall row, original_of id row = true -> originals_track_id (set row) = id) ->
  tables_wf (set_originals (map_if (original_of id) set (originals_table tables)) tables).
Proof.
  intros Hwf Hset. pose proof Hwf as [_ _ _ Hk Hor _].
  assert (forall row, originals_track_id (if original_of id row then set row else row) = originals_track_id row) as Hid.
  { intros row. destruct (original_of id row) eqn:Ho; [|done]. rewrite Hset by done. unfold original_of in Ho. lia. }
  apply tables_wf_originals; [done|..]; unfold map_if.
  - change (map ?f ?l) with (f <$> l). rewrite <- list_fmap_compose. erewrite list_fmap_ext; [exact Hk|]. intros. apply Hid.
  - apply Forall_fmap. eapply Forall_impl; [exact Hor|]. intros row. cbn -[has_track]. by rewrite Hid.
Qed.

(** Rows updated in place and a new list of originals. *)
Lemma tables_wf_swap tables p set originals :
  tables_wf tables -> preserves_ids set ->
  (NoDup (paths (tracks_table tables)) -> NoDup (paths (map_if p set (tracks_table tables)))) ->
  tables_wf (set_originals originals tables) ->
  tables_wf (mkLibraryTables (map_if p set (tracks_table tables)) originals (user_tags_table tables)).
Proof.
  intros Hwf Hset Hnd Hor.
  apply (tables_wf_tracks (set_originals originals tables)); [done|by apply ids_map_if|].
  apply Hnd, Hwf.
Qed.

Lemma metadata_outcome id track_id path patch discovered original db r db' :
  commit_library_track_metadata id track_id path patch discovered original db = (r, db') ->
  commit_outcome id (UpdateTrackMetadata track_id path patch) (TrackMetadataUpdated track_id discovered original)
    (answers_track track_id) db r db'.
Proof.
  unfold commit_library_track_metadata.
  do 3 (case_match; [intros [= <- <-]; right; by split; [|eexists]|]).
  intros Hrun. eapply commit_outcome_of in Hrun; [exact Hrun|]. clear Hrun. intros final after Hbody.
  apply stateful_bind_ok in Hbody as (u & s & Hv & Hbody). apply validate_inv in Hv as [-> Hplan].
  apply stateful_bind_ok in Hbody as (found & s & Hs & Hbody). apply select_track_inv in Hs as [-> Hfind].
  apply stateful_bind_ok in Hbody as (track & s & Ht & Hbody). apply try_inv in Ht as [Ht ->].
  destruct found as [track'|]; [|done]. injection Ht as ->.
  apply stateful_bind_ok in Hbody as (edits & s & He & Hbody). apply try_inv in He as [He ->].
  apply stateful_bind_ok in Hbody as (n & s & Hu & Hbody). apply update_tracks_inv in Hu as (Hn & -> & Hnd).
  destruct (N.eqb_spec n 1) as [->|]; [|done].
  apply stateful_bind_ok in Hbody as ([] & s1 & Ho & Hbody).
  apply stateful_bind_ok in Hbody as ([] & s & Hf & Hbody).
  apply stateful_bind_ok in Hbody as (t & s' & Hfetch & Hbody). injection Hbody as <- <-.
  apply fetch_track_inv in Hfetch as [-> Hfetch].
  cbn [db_tables next_db_fault] in *.
  set (p := track_at (TrackId_get track_id) (as_str path)) in *.
  set (set_row := set_metadata (edited_track track discovered edits.1 edits.2)) in *.
  set (originals := match original with
    | Some original => map_if (original_of (TrackId_get track_id)) (fun row =>
        mkOriginalRow (TrackId_get track_id) (originals_extension row)
          (Z.of_N (original_size_bytes original)) (original_mtime_unix_seconds original)) (originals_table (db_tables db))
    | None => originals_table (db_tables db) end).
  assert (db_tables s1 = mkLibraryTables (map_if p set_row (tracks_table (db_tables db))) originals
    (user_tags_table (db_tables db)) /\ db_state s1 = db_state db /\ db_journal s1 = db_journal db) as (Ht1 & Hs1 & Hj1).
  { unfold originals. destruct original as [original|]; [|by injection Ho as <-].
    apply stateful_bind_ok in Ho as (size & s2 & Hsize & Ho). apply stored_size_inv in Hsize as [-> ->].
    apply stateful_bind_ok in Ho as (k & s2 & Hk & Ho). unfold update_original in Hk. injection Hk as <- <-.
    destruct (length _ =? 1)%nat; [|done]. by injection Ho as <-. }
  split; [|by intros; eapply answers_track_of].
  eapply (commits_finish _ _ _ 0 1 PreserveMembership); [..|exact Hf]; try done.
  - cbn [index_change]. fold p. rewrite Hfind, He, Ht1. done.
  - intros Hwf. rewrite Ht1. apply tables_wf_swap; [done..|]. unfold originals.
    destruct original; [by apply originals_map_if|by destruct Hwf; split].
  - rewrite Ht1. cbn. by rewrite length_map_if.
Qed.

Lemma insert_original_inv row db n db' :
  insert_original row db = (Ok n, db') ->
  db' = with_originals (originals_table (db_tables db) ++ [row]) db /\
  (tables_wf (db_tables db) -> tables_wf (set_originals (originals_table (db_tables db) ++ [row]) (db_tables db))).
Proof.
  unfold insert_original. destruct (existsb _ _) eqn:Hfree; [done|].
  destruct (has_track _ _) eqn:Hhas; [|done]. intros [= <- <-]. split; [done|]. intros Hwf.
  pose proof Hwf as [_ _ _ Hk Hor _]. apply tables_wf_originals; [done|..].
  - rewrite fmap_app. apply NoDup_app. split_and!; [done| |by repeat constructor; set_solver].
    intros id Hid Hnew. apply list_elem_of_singleton in Hnew as ->. apply not_true_iff_false in Hfree.
    apply Hfree, existsb_exists. apply list_elem_of_fmap in Hid as (other & Heq & Hin).
    exists other. split; [by apply list_elem_of_In|]. unfold original_of. lia.
  - apply Forall_app. split; [done|by repeat constructor].
Qed.

Lemma delete_original_inv id db n db' :
  delete_original id db = (Ok n, db') ->
  let originals := List.filter (fun row => negb (original_of id row)) (originals_table (db_tables db)) in
  db' = with_originals originals db /\
  (tables_wf (db_tables db) -> tables_wf (set_originals originals (db_tables db))).
Proof.
  unfold delete_original. intros [= <- <-]. split; [done|]. intros Hwf.
  pose proof Hwf as [_ _ _ Hk Hor _]. apply tables_wf_originals; [done|..].
  - eapply sublist_NoDup; [exact Hk|]. by apply fmap_sublist, filter_sublist.
  - rewrite Forall_forall in Hor |- *. intros row Hrow. apply Hor. eapply elem_of_sublist; [exact Hrow|apply filter_sublist].
Qed.

(** The two swaps of a track's file, by the mutation they are journaled as. *)
Lemma file_swap_outcome id track_id mutation previous discovered original db r db' :
  match mutation, original with
  | ConvertTrack t source _ _, Some _ => t = track_id /\ source = previous
  | RestoreTrack t path _, None => t = track_id /\ path = previous
  | _, _ => False
  end ->
  commit_library_track_file_swap id track_id mutation previous discovered original db = (r, db') ->
  commit_outcome id mutation
    (match original with
     | Some original => TrackConverted track_id discovered original
     | None => TrackRestored track_id discovered
     end) (answers_track track_id) db r db'.
Proof.
  intros Hmutation. unfold commit_library_track_file_swap.
  intros Hrun. apply stateful_bind_cases in Hrun as [(e & Hs & ->)|(size & s & Hs & Hrun)].
  { unfold try in Hs. injection Hs as _ <-. right. by split; [|eexists]. }
  apply stored_size_inv in Hs as [_ ->].
  eapply commit_outcome_of in Hrun; [exact Hrun|]. clear Hrun. intros final after Hbody.
  apply stateful_bind_ok in Hbody as (u & s & Hv & Hbody). apply validate_inv in Hv as [-> Hplan].
  apply stateful_bind_ok in Hbody as (n & s & Hu & Hbody). apply update_tracks_inv in Hu as (Hn & -> & Hnd).
  destruct (N.eqb_spec n 1) as [->|]; [|done].
  apply stateful_bind_ok in Hbody as (k & s1 & Ho & Hbody). destruct (Nat.eqb_spec k 1) as [->|]; [|done].
  apply stateful_bind_ok in Hbody as ([] & s & Hf & Hbody).
  apply stateful_bind_ok in Hbody as (t & s' & Hfetch & Hbody). injection Hbody as <- <-.
  apply fetch_track_inv in Hfetch as [-> Hfetch]. cbn [db_tables next_db_fault] in *.
  set (outcome := match original with Some original => _ | None => _ end).
  set (updated := with_tracks _ (next_db_fault db)) in *.
  assert (forall originals, s1 = with_originals originals updated ->
    (tables_wf (db_tables updated) -> tables_wf (set_originals originals (db_tables updated))) ->
    index_change 0 mutation outcome (db_tables db) =
      (set_originals originals (db_tables updated), 1%N, PreserveMembership) ->
    commits id mutation outcome db s) as Hdone.
  { intros originals -> Hor Hchange.
    eapply (commits_finish _ _ _ 0 1 PreserveMembership db (with_originals originals updated)); [exact Hplan|done|done|exact Hchange|..].
    - intros Hwf. apply Hor, tables_wf_tracks; [done|by apply ids_map_if|]. apply Hnd, Hwf.
    - cbn. by rewrite length_map_if.
    - destruct mutation, original; try done; exact Hf. }
  split; [|by intros; eapply answers_track_of].
  destruct original as [original|]; destruct mutation; try done; destruct Hmutation as [-> ->].
  - apply stateful_bind_ok in Ho as (osize & s0 & Hsize & Ho). apply stored_size_inv in Hsize as [-> ->].
    apply insert_original_inv in Ho as [-> Hor]. by eapply Hdone.
  - apply delete_original_inv in Ho as [-> Hor]. by eapply Hdone.
Qed.

Lemma conversion_outcome id track_id source staged discovered original db r db' :
  commit_library_track_file_swap id track_id (ConvertTrack track_id source staged (discovered_path discovered))
    source discovered (Some original) db = (r, db') ->
  commit_outcome id (ConvertTrack track_id source staged (discovered_path discovered))
    (TrackConverted track_id discovered original) (answers_track track_id) db r db'.
Proof. by apply (file_swap_outcome _ _ _ _ _ (Some original)). Qed.

Lemma restore_outcome id track_id path discovered db r db' :
  commit_library_track_file_swap id track_id (RestoreTrack track_id path (discovered_path discovered))
    path discovered None db = (r, db') ->
  commit_outcome id (RestoreTrack track_id path (discovered_path discovered))
    (TrackRestored track_id discovered) (answers_track track_id) db r db'.
Proof. by apply (file_swap_outcome _ _ _ _ _ None). Qed.

Lemma path_eqb_eq (a b : LibraryPath) : path_eqb a b = true <-> a = b.
Proof. destruct a as [a], b as [b]. unfold path_eqb, as_str. cbn. rewrite String.eqb_eq. split; congruence. Qed.

Definition answers_upload (destination : LibraryPath) (discovered : option DiscoveredTrack)
    (c : LibraryUploadMutationCommit) (db : SqliteLibrary) : Prop :=
  reports (upload_status c) db /\
  match discovered with
  | Some _ => upload_affected_tracks c = 1%N /\
      find_track (path_is (as_str destination)) (db_tables db) = Ok (upload_track c) /\ is_Some (upload_track c)
  | None => upload_affected_tracks c = 0%N /\ upload_track c = None
  end.

Lemma upload_outcome id staged destination replace_existing discovered db r db' :
  commit_library_upload id staged destination replace_existing discovered db = (r, db') ->
  commit_outcome id (PublishUpload staged destination replace_existing) (UploadPublished destination discovered)
    (answers_upload destination discovered) db r db'.
Proof.
  unfold commit_library_upload.
  destruct (is_some_and _ discovered) eqn:Hpath; [intros [= <- <-]; right; by split; [|eexists]|].
  destruct (is_some_and oversized discovered); [intros [= <- <-]; right; by split; [|eexists]|].
  intros Hrun. eapply commit_outcome_of in Hrun; [exact Hrun|]. clear Hrun. intros [affected track] after Hbody.
  apply stateful_bind_ok in Hbody as (u & s & Hv & Hbody). apply validate_inv in Hv as [-> Hplan].
  apply stateful_bind_ok in Hbody as (existed & s & Hexisted & Hbody). injection Hexisted as Hexisted <-.
  apply stateful_bind_ok in Hbody as ([[affected' effect] track'] & s1 & Hfound & Hbody).
  apply stateful_bind_ok in Hbody as ([] & s & Hf & Hbody). injection Hbody as <- <- <-.
  cbn [db_tables next_db_fault] in *.
  set (tracks := tracks_table (db_tables db)) in *.
  destruct discovered as [d|].
  2:{ injection Hfound as <- <- <- <-. split; [|done].
      by eapply (commits_finish _ _ _ 0 0 PreserveMembership); [..|exact Hf]. }
  cbn in Hpath. apply negb_false_iff, path_eqb_eq in Hpath as <-.
  apply stateful_bind_ok in Hfound as ([] & s0 & Hup & Hfound).
  apply stateful_bind_ok in Hfound as (t & s2 & Hfetch & Hfound). injection Hfound as <- <- <- <-.
  apply fetch_track_inv in Hfetch as [-> Hfetch].
  apply stateful_bind_ok in Hup as (at_ & s2 & Hat & Hup). injection Hat as <- <-. injection Hup as <-.
  cbn [db_tables next_db_fault next_db_tick with_tracks with_tables] in *.
  assert (existed = existsb (path_is (as_str (discovered_path d))) tracks) as ->.
  { rewrite <- Hexisted. clear. induction tracks as [|row rows IH]; [done|]. cbn. by destruct (path_is _ row). }
  split.
  - refine (commits_finish _ (PublishUpload staged (discovered_path d) replace_existing) _ (journal_timestamp (db_clock db)) 1 _ db _ _ Hplan _ _ _ _ _ Hf); try done; cbn.
    + apply tables_wf_upsert.
    + rewrite <- (length_fmap tracks_id), upsert_ids, length_app, length_fmap. fold tracks.
      destruct (existsb _ tracks); cbn; lia.
  - intros status db1 (Ht & _ & _) Hstatus. split; [done|]. cbn. split_and!; [done| |by eexists].
    rewrite <- Ht. by apply finish_inv in Hf as (-> & _).
Qed.

(** C30: a rename of a folder that is answered moved every track below it, by the
    case of its letters, to the same place below the destination and left every
    other track alone; a track whose path differs from the folder's only in the
    case of ASCII letters does not exist then, since the pattern of the
    statement takes it too and the check refuses it. The answer counts the moved
    tracks. *)
Theorem folder_rename_moves_its_tracks id source destination db commit db' :
  commit_library_folder_rename id source destination db = (Ok commit, db') ->
  let old := tracks_table (db_tables db) in
  Forall (fun row => below_nocase source row = below source row) old /\
  Forall2 (fun row row' => tracks_id row' = tracks_id row /\
    if below source row then
      exists suffix, tracks_path row = as_str source +:+ "/" +:+ suffix /\
        row' = set_path (as_str destination +:+ "/" +:+ suffix) row
    else row' = row) old (tracks_table (db_tables db')) /\
  index_affected_tracks commit = N.of_nat (length (List.filter (below source) old)) /\
  reports (index_status commit) db'.
Proof.
  intros Hrun old. pose proof (folder_rename_outcome id source destination false _ _ _ Hrun) as Hdone.
  destruct Hdone as [[[(at_ & affected & effect & Hchange & _) _ _] [Hstatus Haffected]]|[_ [e [=]]]].
  cbn [index_change] in Hchange. injection Hchange as <- _ _.
  split_and!; [| |done|done].
  - apply committed_inv in Hrun as [(n & after & Hbody & _)|[_ [e [=]]]].
    apply stateful_bind_ok in Hbody as (u & s & Hv & Hbody). apply validate_inv in Hv as [-> _].
    apply stateful_bind_ok in Hbody as (rows & s & Hrows & Hbody). injection Hrows as <- <-. cbv zeta in Hbody.
    destruct (MAX_RECONCILIATION_TRACKS <? _)%N; [done|].
    apply stateful_bind_ok in Hbody as ([] & s & Hvalid & _). apply try_inv in Hvalid as [Hvalid%renamed_same _].
    eapply Forall_impl; [exact Hvalid|]. intros row Hrow. cbv beta in Hrow. by rewrite <- path_like_below.
  - cbn [tracks_table set_tracks]. fold old. clear. unfold map_if. induction old as [|row rows IH]; cbn; constructor; [|done].
    split; [by destruct (below source row)|]. destruct (below source row) eqn:Hbelow; [|done].
    apply starts_with_spec in Hbelow as [suffix Hsuffix]. exists suffix.
    rewrite <- app_assoc_str in Hsuffix. split; [done|]. unfold rename_row. by rewrite Hsuffix, sql_drop_app.
Qed.
End Changes.

(* ------------------------------------------------------------------ *)
(** ** The installation of a scan *)

Definition scan_path (track : DiscoveredTrack) : string := as_str (discovered_path track).

(** A row after the scan: the columns of the file at its path when they differ. *)
Definition rescan (discovered : list DiscoveredTrack) (row : TrackRow) : TrackRow :=
  match List.find (fun track => path_is (scan_path track) row) discovered with
  | Some track => if scan_differs row track then set_discovered track row else row
  | None => row
  end.

(** Rows of files the table did not have, under the ids after all others. *)
Fixpoint fresh_rows (at_ next : Z) (discovered : list DiscoveredTrack) : list TrackRow :=
  match discovered with
  | [] => []
  | track :: discovered => inserted_row next at_ track :: fresh_rows at_ (next + 1) discovered
  end.

Definition unknown (tracks : list TrackRow) (track : DiscoveredTrack) : bool :=
  negb (existsb (path_is (scan_path track)) tracks).

(** The table a scan leaves. *)
Definition installed_rows (at_ : Z) (tracks : list TrackRow) (discovered : list DiscoveredTrack)
    : list TrackRow :=
  map (rescan discovered) (List.filter (is_staged discovered) tracks) ++
  fresh_rows at_ (next_track_id tracks) (List.filter (unknown tracks) discovered).

Lemma fresh_rows_snoc at_ next ds d :
  fresh_rows at_ next (ds ++ [d]) =
  fresh_rows at_ next ds ++ [inserted_row (next + Z.of_nat (length ds)) at_ d].
Proof.
  revert next. induction ds as [|d' ds IH]; intros next; cbn [app fresh_rows length].
  - by rewrite Z.add_0_r.
  - rewrite IH. by replace (next + Z.of_nat (S (length ds))) with (next + 1 + Z.of_nat (length ds)) by lia.
Qed.

Lemma fresh_rows_length at_ next ds : length (fresh_rows at_ next ds) = length ds.
Proof. revert next. induction ds as [|d ds IH]; intros next; cbn; [done|]. by rewrite IH. Qed.

Lemma fresh_rows_paths at_ next ds : paths (fresh_rows at_ next ds) = scan_path <$> ds.
Proof. revert next. induction ds as [|d ds IH]; intros next; cbn; [done|]. by rewrite IH. Qed.

Lemma next_track_id_fresh at_ rows ds :
  next_track_id (rows ++ fresh_rows at_ (next_track_id rows) ds) = next_track_id rows + Z.of_nat (length ds).
Proof.
  induction ds as [|d ds IH] using rev_ind; [cbn; rewrite app_nil_r; lia|].
  rewrite fresh_rows_snoc, app_assoc, length_app.
  assert (forall l row, next_track_id (l ++ [row]) = Z.max (tracks_id row + 1) (next_track_id l)) as Hsnoc.
  { intros l row. pose proof (next_track_id_spec l) as [Hpos _].
    induction l as [|x l IHl]; [cbn; lia|].
    change (next_track_id ((x :: l) ++ [row])) with (Z.max (tracks_id x + 1) (next_track_id (l ++ [row]))).
    pose proof (next_track_id_spec l) as [Hl _]. rewrite IHl by done.
    change (next_track_id (x :: l)) with (Z.max (tracks_id x + 1) (next_track_id l)). lia. }
  rewrite Hsnoc, IH. cbn. lia.
Qed.

Lemma rescan_ids ds : preserves_ids (rescan ds).
Proof. intros row. unfold rescan. destruct (List.find _ ds) as [d|]; [|done]. by destruct (scan_differs row d). Qed.

Lemma rescan_path ds row : tracks_path (rescan ds row) = tracks_path row.
Proof.
  unfold rescan. destruct (List.find _ ds) as [d|] eqn:Hd; [|done]. destruct (scan_differs row d); [|done].
  apply List.find_some in Hd as [_ Hpath]. apply String.eqb_eq in Hpath. by rewrite Hpath.
Qed.

Lemma next_track_id_ids a b : ids a = ids b -> next_track_id a = next_track_id b.
Proof.
  revert b. induction a as [|x a IH]; intros [|y b]; try done. cbn [fmap list_fmap]. intros [= Hxy Hab].
  change (next_track_id (x :: a)) with (Z.max (tracks_id x + 1) (next_track_id a)).
  change (next_track_id (y :: b)) with (Z.max (tracks_id y + 1) (next_track_id b)). by rewrite Hxy, (IH b).
Qed.

Lemma rescan_snoc ds d row :
  scan_path d ∉ (scan_path <$> ds) ->
  rescan (ds ++ [d]) row =
  if path_is (scan_path d) (rescan ds row) && scan_differs (rescan ds row) d
  then set_discovered d (rescan ds row) else rescan ds row.
Proof.
  intros Hfresh. unfold path_is. rewrite rescan_path. unfold rescan.
  assert (List.find (fun t => path_is (scan_path t) row) (ds ++ [d]) =
    match List.find (fun t => path_is (scan_path t) row) ds with
    | Some t => Some t | None => if path_is (scan_path d) row then Some d else None end) as ->.
  { clear. induction ds as [|x ds IH]; [done|]. cbn. by destruct (path_is (scan_path x) row). }
  destruct (List.find _ ds) as [t|] eqn:Ht.
  - apply List.find_some in Ht as [Hin Hpath]. apply String.eqb_eq in Hpath.
    destruct (String.eqb_spec (tracks_path row) (scan_path d)) as [Heq|]; [|done].
    exfalso. apply Hfresh. apply list_elem_of_fmap. exists t. split; [congruence|by apply list_elem_of_In].
  - unfold path_is. destruct (String.eqb (tracks_path row) (scan_path d)); [|done]. by destruct (scan_differs row d).
Qed.

(** The upserts, one staged row after the other, in closed form. *)
Lemma upsert_scan_eq at_ tracks discovered :
  NoDup (scan_path <$> discovered) ->
  upsert_scan at_ tracks discovered =
  map (rescan discovered) tracks ++
  fresh_rows at_ (next_track_id tracks) (List.filter (unknown tracks) discovered).
Proof.
  unfold upsert_scan. induction discovered as [|d ds IH] using rev_ind; intros Hnd.
  { cbn. rewrite app_nil_r. by rewrite map_id. }
  rewrite fmap_app, NoDup_app in Hnd. destruct Hnd as (Hnd & Hfresh & _).
  assert (scan_path d ∉ (scan_path <$> ds)) as Hd by (intros Hin; by apply (Hfresh _ Hin), list_elem_of_here).
  rewrite foldl_app. cbn [foldl]. rewrite IH by done. clear IH.
  set (fresh := fresh_rows at_ (next_track_id tracks) (List.filter (unknown tracks) ds)).
  rewrite List.filter_app. cbn [List.filter]. unfold upsert_row. fold (scan_path d).
  assert (existsb (path_is (scan_path d)) (map (rescan ds) tracks ++ fresh) = existsb (path_is (scan_path d)) tracks) as ->.
  { apply eq_true_iff_eq. rewrite !path_is_spec, fmap_app. change (map ?f tracks) with (f <$> tracks).
    rewrite <- list_fmap_compose. erewrite (list_fmap_ext (tracks_path ∘ rescan ds) tracks_path) by (intros; apply rescan_path).
    unfold fresh. rewrite fresh_rows_paths, elem_of_app. split; [|by left]. intros [?|Hin]; [done|].
    exfalso. apply Hd. eapply elem_of_sublist; [exact Hin|]. by apply fmap_sublist, filter_sublist. }
  unfold unknown at 2. destruct (existsb (path_is (scan_path d)) tracks) eqn:He; cbn [negb].
  - rewrite app_nil_r, map_app, List.map_map. f_equal.
    + apply map_ext. intros row. by rewrite rescan_snoc.
    + fold fresh. rewrite <- (map_id fresh) at 2. apply map_ext_in. intros row Hin.
      destruct (path_is (scan_path d) row) eqn:Hpath; [|done]. exfalso. apply String.eqb_eq in Hpath.
      apply Hd. rewrite <- Hpath. apply list_elem_of_In in Hin.
      assert (tracks_path row ∈ paths fresh) as Hp by (apply list_elem_of_fmap; by exists row).
      unfold fresh in Hp. rewrite fresh_rows_paths in Hp. eapply elem_of_sublist; [exact Hp|].
      by apply fmap_sublist, filter_sublist.
  - rewrite fresh_rows_snoc. fold fresh. rewrite <- app_assoc. f_equal.
    + apply map_ext_in. intros row Hin. rewrite rescan_snoc by done.
      destruct (path_is (scan_path d) (rescan ds row)) eqn:Hpath; [|done]. exfalso.
      unfold path_is in Hpath. rewrite rescan_path in Hpath. apply not_true_iff_false in He. apply He.
      apply existsb_exists. by exists row.
    + f_equal. f_equal. f_equal. unfold fresh. rewrite <- (next_track_id_fresh at_).
      apply next_track_id_ids. rewrite !fmap_app. f_equal.
      change (map ?f tracks) with (f <$> tracks). rewrite <- list_fmap_compose.
      apply list_fmap_ext. intros; apply rescan_ids.
Qed.

Lemma is_staged_spec discovered row :
  is_staged discovered row = true <-> tracks_path row ∈ (scan_path <$> discovered).
Proof.
  unfold is_staged. rewrite existsb_exists, list_elem_of_fmap. unfold path_is.
  split; intros (d & H1 & H2); exists d; rewrite <- list_elem_of_In in *.
  - by apply String.eqb_eq in H2.
  - split; [done|]. by apply String.eqb_eq.
Qed.

Lemma is_staged_path discovered a b :
  tracks_path a = tracks_path b -> is_staged discovered a = is_staged discovered b.
Proof. intros Heq. apply eq_true_iff_eq. by rewrite !is_staged_spec, Heq. Qed.

Lemma installed_eq at_ tracks discovered :
  NoDup (scan_path <$> discovered) ->
  List.filter (is_staged discovered) (upsert_scan at_ tracks discovered) =
  installed_rows at_ tracks discovered.
Proof.
  intros Hnd. rewrite upsert_scan_eq, List.filter_app by done. unfold installed_rows. f_equal.
  - induction tracks as [|row tracks IH]; [done|]. cbn.
    rewrite (is_staged_path _ (rescan discovered row) row) by apply rescan_path.
    destruct (is_staged discovered row); cbn; by rewrite IH.
  - apply retain_id. apply Forall_forall. intros row Hrow. apply is_staged_spec.
    assert (tracks_path row ∈ paths (fresh_rows at_ (next_track_id tracks) (List.filter (unknown tracks) discovered))) as Hp
      by (apply list_elem_of_fmap; by exists row).
    rewrite fresh_rows_paths in Hp. eapply elem_of_sublist; [exact Hp|]. by apply fmap_sublist, filter_sublist.
Qed.

Lemma installed_paths at_ tracks discovered :
  NoDup (paths tracks) -> NoDup (scan_path <$> discovered) ->
  paths (installed_rows at_ tracks discovered) ≡ₚ (scan_path <$> discovered).
Proof.
  intros Htracks Hnd. unfold installed_rows. rewrite fmap_app, fresh_rows_paths.
  assert (paths (map (rescan discovered) (List.filter (is_staged discovered) tracks)) =
    paths (List.filter (is_staged discovered) tracks)) as ->.
  { change (map ?f ?l) with (f <$> l). rewrite <- list_fmap_compose.
    apply list_fmap_ext. intros. apply rescan_path. }
  assert (forall path, path ∈ paths (List.filter (is_staged discovered) tracks) <->
    path ∈ paths tracks /\ path ∈ (scan_path <$> discovered)) as Hkept.
  { intros path. rewrite list_elem_of_fmap. split.
    - intros (row & -> & [Hin Hs]%elem_of_retain). split; [apply list_elem_of_fmap; by exists row|].
      by apply is_staged_spec.
    - intros [(row & -> & Hin)%list_elem_of_fmap Hs]. exists row. split; [done|].
      apply elem_of_retain. split; [done|]. by apply is_staged_spec. }
  assert (forall path, path ∈ (scan_path <$> List.filter (unknown tracks) discovered) <->
    path ∉ paths tracks /\ path ∈ (scan_path <$> discovered)) as Hnew.
  { intros path. rewrite !list_elem_of_fmap. unfold unknown. split.
    - intros (d & -> & [Hin Hs]%elem_of_retain). split; [|by exists d].
      apply negb_true_iff, not_true_iff_false in Hs. rewrite path_is_spec in Hs.
      by rewrite list_elem_of_fmap in Hs.
    - intros (Hout & d & -> & Hin). exists d. split; [done|]. apply elem_of_retain. split; [done|].
      apply negb_true_iff, not_true_iff_false. rewrite path_is_spec. by rewrite list_elem_of_fmap. }
  apply NoDup_Permutation; [|done|].
  - apply NoDup_app. split_and!.
    + eapply sublist_NoDup; [exact Htracks|]. by apply fmap_sublist, filter_sublist.
    + intros path [Hin _]%Hkept [Hout _]%Hnew. done.
    + eapply sublist_NoDup; [exact Hnd|]. by apply fmap_sublist, filter_sublist.
  - intros path. rewrite elem_of_app, Hkept, Hnew. destruct (decide (path ∈ paths tracks)); tauto.
Qed.

Lemma installed_wf at_ tables discovered :
  tables_wf tables -> NoDup (scan_path <$> discovered) ->
  tables_wf (cascade (installed_rows at_ (tracks_table tables) discovered) tables).
Proof.
  intros Hwf Hnd. rewrite <- installed_eq by done.
  assert (tables_wf (set_tracks (upsert_scan at_ (tracks_table tables) discovered) tables)) as Hup.
  { unfold upsert_scan. revert Hwf. clear Hnd. revert tables. induction discovered as [|d ds IH]; intros tables Hwf.
    - by destruct Hwf; split.
    - cbn [foldl]. apply (IH (set_tracks (upsert_row at_ scan_differs (tracks_table tables) d) tables)).
      by apply tables_wf_upsert. }
  by apply (tables_wf_delete _ (is_staged discovered)) in Hup.
Qed.

(** The counts of a scan: they never fail, and they account for every file
    that was found and every track there was. *)
Lemma scan_summary_counts tracks discovered :
  NoDup (paths tracks) -> NoDup (scan_path <$> discovered) ->
  exists summary, scan_summary tracks discovered = Some summary /\
    N.to_nat (summary_added summary) = length (List.filter (unknown tracks) discovered) /\
    N.to_nat (summary_removed summary) = length (List.filter (fun row => negb (is_staged discovered row)) tracks) /\
    N.to_nat (summary_updated summary) = length (List.filter (fun track =>
      is_some_and (fun row => scan_differs row track) (track_of tracks track)) discovered) /\
    N.to_nat (summary_added summary + summary_updated summary + summary_unchanged summary) = length discovered /\
    N.to_nat (summary_removed summary + summary_updated summary + summary_unchanged summary) = length tracks.
Proof.
  intros Htracks Hnd. unfold scan_summary.
  assert (forall d, bool_decide (track_of tracks d = None) = unknown tracks d) as Hunknown.
  { intros d. unfold track_of, unknown. clear. induction tracks as [|row tracks IH]; [done|]. cbn. fold (scan_path d).
    by destruct (path_is (scan_path d) row). }
  assert (forall d, bool_decide (is_Some (track_of tracks d)) = negb (unknown tracks d)) as Hknown.
  { intros d. rewrite <- Hunknown. destruct (track_of tracks d) as [row|]; repeat case_bool_decide; try done.
    exfalso. by match goal with H : ~ is_Some (Some _) |- _ => apply H end. }
  rewrite (filter_ext_length _ _ discovered Hunknown), (filter_ext_length _ _ discovered Hknown).
  assert (length (List.filter (fun d => negb (unknown tracks d)) discovered) =
    length (List.filter (is_staged discovered) tracks)) as Hboth.
  { rewrite <- (length_fmap scan_path), <- (length_fmap tracks_path (List.filter (is_staged discovered) tracks)).
    apply Permutation_length, NoDup_Permutation.
    - eapply sublist_NoDup; [exact Hnd|]. by apply fmap_sublist, filter_sublist.
    - eapply sublist_NoDup; [exact Htracks|]. by apply fmap_sublist, filter_sublist.
    - intros path. rewrite !list_elem_of_fmap. split.
      + intros (d & -> & [Hin Hs]%elem_of_retain). unfold unknown in Hs. rewrite negb_involutive in Hs.
        apply path_is_spec, list_elem_of_fmap in Hs as (row & Hrow & Hin'). exists row. split; [done|].
        apply elem_of_retain. split; [done|]. apply is_staged_spec. rewrite <- Hrow. apply list_elem_of_fmap. by exists d.
      + intros (row & -> & [Hin Hs]%elem_of_retain). apply is_staged_spec, list_elem_of_fmap in Hs as (d & Hd & Hin').
        exists d. split; [done|]. apply elem_of_retain. split; [done|]. unfold unknown. rewrite negb_involutive.
        apply path_is_spec. rewrite <- Hd. apply list_elem_of_fmap. by exists row. }
  assert (length (List.filter (fun track => is_some_and (fun row => scan_differs row track) (track_of tracks track)) discovered)
    <= length (List.filter (fun d => negb (unknown tracks d)) discovered))%nat as Hle.
  { clear -Hknown. induction discovered as [|d ds IH]; [done|]. cbn [List.filter]. specialize (Hknown d).
    destruct (track_of tracks d) as [row|]; cbn [is_some_and].
    - rewrite bool_decide_true in Hknown by (by eexists). rewrite <- Hknown.
      destruct (scan_differs row d); cbn [length]; lia.
    - destruct (negb (unknown tracks d)); cbn [length]; lia. }
  destruct (N.ltb_spec (N.of_nat (length (List.filter (fun d => negb (unknown tracks d)) discovered)))
    (N.of_nat (length (List.filter (fun track => is_some_and (fun row => scan_differs row track) (track_of tracks track)) discovered))));
    [lia|].
  eexists. split; [done|]. cbn [summary_added summary_removed summary_updated summary_unchanged].
  pose proof (filter_split (unknown tracks) discovered). pose proof (filter_split (is_staged discovered) tracks).
  split_and!; lia.
Qed.

Section Reconciliation.
Context `{!JsonText, !JournalClock}.

(** The installation of a scan that began at a generation. *)
Definition installs (generation : N) (discovered : list DiscoveredTrack) (before after : SqliteLibrary) : Prop :=
  exists at_ finished_at row,
    NoDup (scan_path <$> discovered) /\
    db_tables after = cascade (installed_rows at_ (tracks_table (db_tables before)) discovered) (db_tables before) /\
    db_journal after = db_journal before /\
    db_state before = Some row /\ state_generation row = Z.of_N generation /\ state_status row = "reconciling" /\
    Z.of_N generation + 1 <= i64_max_Z /\
    db_state after = Some (mkStateRow (Z.of_N generation + 1) "current" None (Some finished_at) None
      (Z.of_nat (length discovered))).

Definition reconciliation_answer (generation : N) (discovered : list DiscoveredTrack)
    (before : SqliteLibrary) (r : result LibraryWriteError ReconciliationCommit) (after : SqliteLibrary) : Prop :=
  match r with
  | Ok (Reconciliation_Applied status summary track_ids) =>
      installs generation discovered before after /\ reports status after /\
      scan_summary (tracks_table (db_tables before)) discovered = Some summary /\
      forall id, id ∈ track_ids <-> has_track (tracks_table (db_tables after)) (TrackId_get id) = true
  | Ok (Reconciliation_Conflict current) =>
      same_data before after /\ current <> generation /\
      exists row, db_state before = Some row /\ state_generation row = Z.of_N current
  | Err _ => same_data before after \/ installs generation discovered before after
  end.

Lemma installs_same generation discovered before after after' :
  installs generation discovered before after -> same_data after after' ->
  installs generation discovered before after'.
Proof. intros (at_ & f & row & Hi) (Ht & Hs & Hj). exists at_, f, row. by rewrite <- Ht, <- Hs, <- Hj. Qed.

Lemma row_track_ids tracks track_ids :
  result_collect row_track_id tracks = Ok track_ids ->
  forall id, id ∈ list_to_set (C := gset TrackId) track_ids <-> has_track tracks (TrackId_get id) = true.
Proof.
  intros Hall%result_collect_inv id. rewrite elem_of_list_to_set, has_track_spec, list_elem_of_fmap.
  assert (forall row id, row_track_id row = Ok id <-> tracks_id row = TrackId_get id) as Hid.
  { intros row id'. unfold row_track_id, TrackId_new, TrackId_get.
    destruct (tracks_id row); cbn; split; try done; intros [=]; congruence. }
  split.
  - intros Hin. apply list_elem_of_lookup in Hin as [i Hi].
    destruct (Forall2_lookup_r _ _ _ _ _ Hall Hi) as (row & Hrow & Hr). exists row.
    split; [by symmetry; apply Hid|by eapply list_elem_of_lookup_2].
  - intros (row & Hrow & Hin). apply list_elem_of_lookup in Hin as [i Hi].
    destruct (Forall2_lookup_l _ _ _ _ _ Hall Hi) as (id' & Hid' & Hr). apply Hid in Hr.
    assert (id' = id) as -> by (unfold TrackId_get in *; congruence). by eapply list_elem_of_lookup_2.
Qed.

Lemma reconciliation_body generation discovered db end_ after (body : ltx (TxEnd _)) :
  NoDup (scan_path <$> discovered) ->
  body = (state ← fetch_state;
    current_generation ← state_generation_of state;
    if negb (current_generation =? generation)%N
    then mret (Tx_rollback (Err current_generation))
    else if negb (String.eqb (state_status state) "reconciling")
    then throw (invalid_state "reconciliation was not started")
    else
      tracks ← gets (fun db => tracks_table (db_tables db));
      summary ← try (ok_or (invalid_state "reconciliation counts are inconsistent")
                       (scan_summary tracks discovered));
      at_ ← now;
      _ ← modify (fun db => with_tracks (upsert_scan at_ (tracks_table (db_tables db)) discovered) db);
      _ ← delete_tracks (fun row => negb (is_staged discovered row));
      next ← next_generation generation;
      next ← try (ok_or generation_range (i64_try_from_u64 next));
      expected ← try (ok_or generation_range (i64_try_from_u64 generation));
      rows_affected ← update_state
        (fun row => (state_generation row =? expected) && String.eqb (state_status row) "reconciling")
        (fun at_ _ => mkStateRow next "current" None (Some at_) None (Z.of_nat (length discovered)));
      if negb (rows_affected =? 1)%nat
      then throw (invalid_state "reconciliation state changed during commit")
      else
        tracks ← gets (fun db => tracks_table (db_tables db));
        track_ids ← try (map_err Write_Library (result_collect row_track_id tracks));
        mret (Tx_commit (Ok (summary, list_to_set (C := gset TrackId) track_ids)))) ->
  body (next_db_fault db) = (Ok end_, after) ->
  match end_ with
  | Tx_commit (Ok (summary, track_ids)) =>
      installs generation discovered db after /\
      scan_summary (tracks_table (db_tables db)) discovered = Some summary /\
      forall id, id ∈ track_ids <-> has_track (tracks_table (db_tables after)) (TrackId_get id) = true
  | Tx_rollback (Err current) =>
      current <> generation /\ exists row, db_state db = Some row /\ state_generation row = Z.of_N current
  | _ => False
  end.
Proof.
  intros Hnd -> Hbody.
  apply stateful_bind_ok in Hbody as (row & s & Hrow & Hbody). apply fetch_state_inv in Hrow as [Hrow ->].
  apply stateful_bind_ok in Hbody as (current & s & Hg & Hbody). apply state_generation_of_inv in Hg as [Hg ->].
  destruct (N.eqb_spec current generation) as [->|Hne]; cbn [negb] in Hbody.
  2:{ injection Hbody as <- <-. split; [done|]. by exists row. }
  destruct (String.eqb_spec (state_status row) "reconciling") as [Hstatus|]; [|done]. cbn [negb] in Hbody.
  apply stateful_bind_ok in Hbody as (tracks & s & Ht & Hbody). injection Ht as <- <-.
  apply stateful_bind_ok in Hbody as (summary & s & Hs & Hbody). apply try_inv in Hs as [Hs ->].
  destruct (scan_summary _ _) as [summary'|] eqn:Hsummary; [|done]. injection Hs as ->.
  apply stateful_bind_ok in Hbody as (at_ & s & Hat & Hbody). injection Hat as <- <-.
  apply stateful_bind_ok in Hbody as ([] & s & Hm & Hbody). injection Hm as <-.
  apply stateful_bind_ok in Hbody as (n & s & Hd & Hbody). apply delete_tracks_inv in Hd as [_ ->].
  apply stateful_bind_ok in Hbody as (next & s & Hn & Hbody). apply next_generation_inv in Hn as [-> ->].
  apply stateful_bind_ok in Hbody as (gz & s & Hgz & Hbody). apply try_inv in Hgz as [Hgz ->].
  destruct (i64_try_from_u64 (generation + 1)) as [z|] eqn:Hz; [|done]. injection Hgz as <-.
  apply i64_try_from_inv in Hz as [-> Hmax].
  apply stateful_bind_ok in Hbody as (cz & s & Hcz & Hbody). apply try_inv in Hcz as [Hcz ->].
  destruct (i64_try_from_u64 generation) as [z|] eqn:Hz; [|done]. injection Hcz as <-.
  apply i64_try_from_inv in Hz as [-> _].
  apply stateful_bind_ok in Hbody as (k & s & Hu & Hbody).
  destruct (Nat.eqb_spec k 1) as [->|]; [|done]. cbn [negb] in Hbody.
  apply stateful_bind_ok in Hbody as (tracks & s' & Ht & Hbody). injection Ht as <- <-.
  apply stateful_bind_ok in Hbody as (track_ids & s' & Hids & Hbody). apply try_inv in Hids as [Hids ->].
  injection Hbody as <- <-. apply map_err_ok in Hids.
  apply update_state_inv in Hu as (Htables & Hjournal & Hu).
  cbn [db_tables db_state db_journal next_db_fault next_db_tick with_tracks with_tables] in *. rewrite Hrow in Hu.
  destruct (_ && _); [|by destruct Hu]. destruct Hu as [_ Hu].
  split_and!; [|done|by apply row_track_ids].
  eexists _, _, row. split_and!; [done| |done..|lia|].
  - rewrite Htables. unfold cascade. cbn [tracks_table originals_table user_tags_table].
    rewrite (filter_ext_length (fun row => negb (negb (is_staged discovered row))) (is_staged discovered))
      by (intros; apply negb_involutive). rewrite installed_eq by done. reflexivity.
  - rewrite Hu. repeat f_equal. lia.
Qed.

Lemma reconciliation_outcome generation discovered db r db' :
  commit_library_reconciliation generation discovered db = (r, db') ->
  reconciliation_answer generation discovered db r db'.
Proof.
  unfold commit_library_reconciliation.
  destruct (_ <? _)%N; [intros [= <- <-]; by left|].
  case_bool_decide as Hnd; cbn [negb]; [|intros [= <- <-]; by left].
  destruct (existsb oversized discovered); [intros [= <- <-]; by left|].
  intros [(e & Htx & ->)|(committed & db1 & Htx & Hrun)]%stateful_bind_cases;
    apply transaction_ending_inv in Htx as [(a & after & Hbody & Hsame & Hr)|[Hsame Hr]].
  - eapply reconciliation_body in Hbody; [|done|done]. destruct a as [[summary track_ids]|]; [|done].
    right. destruct Hbody as [Hi _]. by eapply installs_same.
  - by left.
  - subst. eapply reconciliation_body in Hbody; [|done|done]. destruct a as [[summary track_ids]|]; [|done].
    destruct Hbody as (Hi & Hsum & Hids). apply with_status_inv in Hrun as [Hsame' Hrun].
    assert (installs generation discovered db db') as Hi'
      by (eapply installs_same; [by eapply installs_same|done]).
    destruct r as [commit|e]; [|by right]. destruct Hrun as (row & status & Hrow & Hstatus & ->). cbn.
    split_and!; [done| |done|].
    + exists row. split; [|done]. by destruct Hsame' as (_ & <- & _).
    + destruct Hsame as (Ht & _), Hsame' as (Ht' & _). by rewrite <- Ht', <- Ht.
  - destruct Hr as [after Hbody]. eapply reconciliation_body in Hbody; [|done|done].
    destruct committed as [|current]; [done|]. injection Hrun as <- <-. destruct Hbody as [Hne Hrow]. done.
Qed.

Lemma installs_wf generation discovered db db' :
  installs generation discovered db db' -> library_wf db -> library_wf db'.
Proof.
  intros (at_ & f & row & Hnd & Ht & _ & Hrow & Hg & _ & Hmax & Hs) (Hwf & row' & Hrow' & Hgen & _).
  split; [rewrite Ht; by apply installed_wf|]. eexists. split; [exact Hs|]. unfold state_wf. cbn.
  split_and!; [lia|lia| |set_solver].
  rewrite Ht. cbn. f_equal. rewrite <- (length_fmap tracks_path (installed_rows _ _ _)), <- (length_fmap scan_path).
  apply Permutation_length. symmetry. apply installed_paths; [|done]. apply Hwf.
Qed.
End Reconciliation.
