(* ===== verification/LibraryCoordinatorSpec.v ===== *)
(** * What the library coordinator promises

    The theorems about [LibraryCoordinator] over the SQLite repository of
    [LibraryStore]: the index stays well-formed whatever the files, the sink
    and the database do; it changes only with the commit of the journal under
    which the files were changed; a start finishes every interrupted mutation;
    what a batch answers; and in which order others see a change. *)

From S2P Require Import Prelude Text MediaPath PlaybackState Store JobStore Library.
From S2P Require Import RecoveryJournal.
From S2P Require Import JournalStore Catalog LibraryMutation LibraryCoordinator LibraryStore.
From S2P Require Import LibraryStoreSpec.

#[local] Open Scope string_scope.
#[local] Open Scope Z_scope.
#[local] Open Scope list_scope.

(* ------------------------------------------------------------------ *)
(** ** What a command does to the repository *)

Definition op_within {store E A} (R : relation store) (op : stateful store E A) : Prop :=
  forall s r s', op s = (r, s') -> R s s'.

(** The operations on the index stay within a relation. *)
Class IndexWithin {store} `{LibraryMutationRepository store, RecoveryJournalRepository store}
    (R : relation store) : Prop := {
  within_preorder :: PreOrder R;
  within_status : op_within R repository_status;
  within_track id : op_within R (repository_track id);
  within_catalog : op_within R repository_playback_catalog;
  within_begin : op_within R begin_reconciliation;
  within_reconciliation generation tracks : op_within R (commit_reconciliation generation tracks);
  within_fail generation code : op_within R (fail_reconciliation generation code);
  within_rename journal a b : op_within R (commit_folder_rename journal a b);
  within_folder_delete journal path : op_within R (commit_folder_delete journal path);
  within_move journal id path track : op_within R (commit_track_move journal id path track);
  within_delete journal id path : op_within R (commit_track_delete journal id path);
  within_metadata journal id path patch track original :
    op_within R (commit_track_metadata journal id path patch track original);
  within_conversion journal id a b track original :
    op_within R (commit_track_conversion journal id a b track original);
  within_restore journal id path track : op_within R (commit_track_restore journal id path track);
  within_upload journal a b replace track : op_within R (commit_upload journal a b replace track);
  within_unfinished domain : op_within R (unfinished_recovery_journals domain)
}.

(** Every operation of the repository does. *)
Class RepositoryWithin {store} `{LibraryMutationRepository store, RecoveryJournalRepository store}
    (R : relation store) : Prop := {
  within_index :: IndexWithin R;
  within_create draft : op_within R (create_recovery_journal draft);
  within_transition id expected next progress :
    op_within R (transition_recovery_journal id expected next progress)
}.

Create HintDb within.
#[export] Hint Resolve within_status within_track within_catalog within_begin within_reconciliation
  within_fail within_rename within_folder_delete within_move within_delete within_metadata
  within_conversion within_restore within_upload within_create within_unfinished within_transition
  : within.

Section Within.
Context {store files sink : Type} `{LibraryMutationRepository store, RecoveryJournalRepository store}.
Context `{LibraryDiscovery files, LibraryMutationEffects files, LibraryCatalogSink sink}.
Context `{LibraryJournalIds, JsonText}.
Context (R : relation store) `{!PreOrder R}.

Definition within {A} (m : cmd (files := files) (sink := sink) A) : Prop :=
  forall c r c', m c = (r, c') -> R (repository c) (repository c').

Lemma within_quiet {A} (m : cmd (files := files) (sink := sink) A) :
  (forall c, repository (m c).2 = repository c) -> within m.
Proof. intros Hm c r c' Hrun. specialize (Hm c). rewrite Hrun in Hm. cbn in Hm. by rewrite Hm. Qed.

Lemma within_ret {A} (x : A) : within (mret x).
Proof. by apply within_quiet. Qed.
Lemma within_throw {A} e : within (throw (A := A) e).
Proof. by apply within_quiet. Qed.
Lemma within_try {A} (r : result _ A) : within (try r).
Proof. by apply within_quiet. Qed.
Lemma within_publish_status status : within (publish_status status).
Proof. by apply within_quiet. Qed.
Lemma within_draw : within draw_journal_id.
Proof. by apply within_quiet. Qed.
Lemma within_files {E A} (op : stateful files E A) : within (on_files op).
Proof. apply within_quiet. intros c. unfold on_files. by destruct (op _). Qed.
Lemma within_sink operation generation tracks : within (publish_to_sink operation generation tracks).
Proof. apply within_quiet. intros c. unfold publish_to_sink. by destruct (sink_publish _ _ _). Qed.

Lemma within_store {E A} operation (op : stateful store E A) : op_within R op -> within (on_store operation op).
Proof.
  intros Hop c r c'. unfold on_store. destruct (op (repository c)) as [r' s] eqn:Hrun.
  intros [= _ <-]. by eapply Hop.
Qed.
Lemma within_store_result {E A} (op : stateful store E A) : op_within R op -> within (on_store_result op).
Proof.
  intros Hop c r c'. unfold on_store_result. destruct (op (repository c)) as [r' s] eqn:Hrun.
  intros [= _ <-]. by eapply Hop.
Qed.

Lemma within_bind {A B} (m : cmd A) (f : A -> cmd B) :
  within m -> (forall x, within (f x)) -> within (mbind f m).
Proof.
  intros Hm Hf c r c' [(e & Hrun & _)|(x & c1 & Hrun & Hrest)]%stateful_bind_cases; [by eapply Hm|].
  etransitivity; [by eapply Hm|by eapply Hf].
Qed.

Lemma within_attempt {A} (m : cmd A) : within m -> within (attempt m).
Proof.
  intros Hm c r c'. unfold attempt. destruct (m c) as [r' c1] eqn:Hrun. intros [= _ <-]. by eapply Hm.
Qed.
End Within.

#[export] Hint Resolve within_ret within_throw within_try within_publish_status within_draw within_files
  within_sink within_store within_store_result within_bind within_attempt : within.

(** Goes through a command operation by operation. *)
Ltac go_within :=
  intros; cbv beta iota;
  lazymatch goal with
  | |- within _ (mbind _ _) => apply within_bind; [apply _| |intros]; go_within
  | |- within _ (attempt _) => apply within_attempt; go_within
  | |- within _ (match ?x with _ => _ end) => destruct x; go_within
  | |- _ => eauto with within typeclass_instances
  end.

Section Index.
Context {store files sink : Type} `{LibraryMutationRepository store, RecoveryJournalRepository store}.
Context `{LibraryDiscovery files, LibraryMutationEffects files, LibraryCatalogSink sink}.
Context `{LibraryJournalIds, JsonText}.
Context (R : relation store) `{!IndexWithin R}.

Lemma within_move_journal operation id expected next progress :
  op_within R (transition_recovery_journal id expected next progress) ->
  within (files := files) (sink := sink) R (transition operation id expected next progress).
Proof. intros Hmove. unfold transition. go_within. Qed.

Lemma within_commit journal mutation outcome :
  (forall progress, op_within R (transition_recovery_journal journal Applying Committed progress)) ->
  within (files := files) (sink := sink) R (commit_applied_library_mutation journal mutation outcome).
Proof.
  intros Hmove. unfold commit_applied_library_mutation. pose proof within_move_journal. go_within.
Qed.
End Index.
#[export] Hint Resolve within_move_journal within_commit : within.

Section Commands.
Context {store files sink : Type} `{LibraryMutationRepository store, RecoveryJournalRepository store}.
Context `{LibraryDiscovery files, LibraryMutationEffects files, LibraryCatalogSink sink}.
Context `{LibraryJournalIds, JsonText}.
Context (R : relation store) `{!RepositoryWithin R}.

Abbreviation within m := (within (files := files) (sink := sink) R m) (only parsing).

Lemma within_apply mutation publish : within (apply_mutation mutation publish).
Proof. unfold apply_mutation. go_within. Qed.
#[local] Hint Resolve within_apply : within.

Lemma within_load operation id : within (load_track operation id).
Proof. unfold load_track. go_within. Qed.
#[local] Hint Resolve within_load : within.

Lemma within_applied expected applied : within (applied_track_of expected applied).
Proof. unfold applied_track_of. go_within. Qed.
#[local] Hint Resolve within_applied : within.

Lemma within_current : within publish_current_catalog.
Proof. unfold publish_current_catalog. go_within. Qed.
#[local] Hint Resolve within_current : within.

Lemma within_move_once id path publish : within (move_track_once id path publish).
Proof. unfold move_track_once. go_within. Qed.
Lemma within_delete_once id publish : within (delete_track_once id publish).
Proof. unfold delete_track_once. go_within. Qed.
Lemma within_update_once id patch publish : within (update_track_metadata_once id patch publish).
Proof. unfold update_track_metadata_once. go_within. Qed.
Lemma within_restore_once id : within (restore_track_once id).
Proof. unfold restore_track_once. go_within. Qed.
Lemma within_convert_once id staged : within (convert_track_once id staged).
Proof. unfold convert_track_once, convert_staged_track. go_within. Qed.
#[local] Hint Resolve within_move_once within_delete_once within_update_once within_restore_once
  within_convert_once : within.

Lemma within_batch {Q K A} (key : Q -> K) (once : Q -> cmd A) requests :
  (forall request, within (once request)) -> within (batch key once requests).
Proof.
  intros Honce. unfold batch.
  assert (within (batch_loop key once requests)) by (induction requests; cbn [batch_loop]; go_within).
  go_within.
Qed.

Lemma within_metadata_batch ids patch : within (update_tracks_metadata_once ids patch).
Proof.
  unfold update_tracks_metadata_once.
  assert (within (metadata_loop patch ids)) by (induction ids; cbn [metadata_loop]; go_within).
  go_within.
Qed.

Lemma within_discard uploads : within (discard_staged_uploads uploads).
Proof. induction uploads; cbn [discard_staged_uploads]; go_within. Qed.
#[local] Hint Resolve within_discard : within.

Lemma within_uploads uploads policy : within (publish_uploads_once uploads policy).
Proof.
  unfold publish_uploads_once. generalize false.
  induction uploads; intros changed; cbn [publish_uploads_from]; go_within.
Qed.

Lemma within_reconcile : within reconcile_once.
Proof. unfold reconcile_once. go_within. Qed.
#[local] Hint Resolve within_batch within_metadata_batch within_uploads within_reconcile : within.

Lemma within_recover : within recover_library_mutations.
Proof.
  unfold recover_library_mutations.
  assert (forall entries, within (recover_entries entries)).
  { induction entries; cbn [recover_entries]; unfold recover_entry; go_within. }
  go_within.
Qed.
#[local] Hint Resolve within_recover : within.

Lemma within_start : within start_library_coordinator.
Proof. unfold start_library_coordinator. go_within. Qed.

Lemma within_command command c reply c' :
  handle_command (files := files) (sink := sink) command c = (reply, c') -> R (repository c) (repository c').
Proof.
  assert (forall A (reply : _ -> LibraryReply) (m : cmd A) c a c', within m ->
    replying reply m c = (a, c') -> R (repository c) (repository c')) as Hreplying.
  { intros A rep m c0 a c1 Hm. unfold replying. destruct (m c0) as [r c2] eqn:Hrun. intros [= _ <-].
    by eapply Hm. }
  destruct command; cbn [handle_command]; try (apply Hreplying; eauto with within typeclass_instances).
  all: try (unfold move_tracks_once, delete_tracks_once, restore_tracks_once; apply within_batch; eauto with within).
  destruct (apply_mutation mutation true c) as [[applied|e] c1] eqn:Happly; apply within_apply in Happly.
  - destruct (needs_metadata_reconciliation mutation); [|by intros [= _ <-]].
    destruct (reconcile_once c1) as [r c2] eqn:Hrec; apply within_reconcile in Hrec.
    intros [= _ <-]. by transitivity (repository c1).
  - by intros [= _ <-].
Qed.

Lemma within_run commands c replies c' :
  run (files := files) (sink := sink) commands c = (replies, c') -> R (repository c) (repository c').
Proof.
  revert c replies. induction commands as [|command commands IH]; intros c replies; cbn [run].
  - intros [= _ <-]. done.
  - destruct (handle_command command c) as [reply c1] eqn:Hcommand. apply within_command in Hcommand.
    destruct (run commands c1) as [replies' c2] eqn:Hrun. intros [= _ <-].
    etransitivity; [exact Hcommand|by eapply IH].
Qed.
End Commands.

(* ------------------------------------------------------------------ *)
(** ** The invariant of the database *)

(** The primary key of the journal. *)
Definition journal_keyed_rows (table : gmap string JournalRow) : Prop :=
  forall key row, table !! key = Some row -> journal_row_id row = key.

Definition library_ok (db : SqliteLibrary) : Prop := library_wf db /\ journal_keyed_rows (db_journal db).

(** The database after the migrations. *)
Definition fresh_library (clock : nat) (faults : list Fault) : SqliteLibrary :=
  mkSqliteLibrary (mkLibraryTables [] [] []) (Some (mkStateRow 0 "pending" None None None 0)) ∅ clock faults.

Lemma fresh_library_ok clock faults : library_ok (fresh_library clock faults).
Proof.
  split; [|done]. split.
  - split; cbn; by constructor.
  - eexists. split; [done|]. unfold state_wf. cbn. split_and!; [lia|done|done|set_solver].
Qed.

Lemma keyed_insert table row : journal_keyed_rows table -> journal_keyed_rows (<[journal_row_id row := row]> table).
Proof.
  intros Hkeyed key row'. destruct (decide (journal_row_id row = key)) as [<-|Hne].
  - rewrite lookup_insert_eq. by intros [= ->].
  - rewrite lookup_insert_ne by done. apply Hkeyed.
Qed.

Lemma keyed_update table key old row :
  journal_keyed_rows table -> table !! key = Some old -> journal_row_id row = journal_row_id old ->
  journal_keyed_rows (<[key := row]> table).
Proof. intros Hkeyed Hold Hrow. rewrite <- (Hkeyed _ _ Hold), <- Hrow. by apply keyed_insert. Qed.

Section Sqlite.
Context `{!JsonText, !JournalClock}.

(** What the operations of the journal do to its rows. *)
Lemma on_journal_inv {A} (m : stateful SqliteJournal JournalStorageError A) db r db' :
  on_journal m db = (r, db') ->
  db_tables db' = db_tables db /\ db_state db' = db_state db /\
  exists r' s', m (mkSqliteJournal (db_journal db) (db_clock db) (db_faults db)) = (r', s') /\
    r = map_err Write_Journal r' /\ db_journal db' = journal_table s'.
Proof.
  unfold on_journal. destruct (m _) as [r' s'] eqn:Hm. intros [= <- <-]. split_and!; [done..|].
  by exists r', s'.
Qed.

Lemma read_entry_row id s r s' :
  read_entry id s = (r, s') ->
  journal_table s' = journal_table s /\
  match r with
  | Ok (Some entry) => exists row, journal_table s !! journal_id_text id = Some row /\ entry_from_row row = Ok entry
  | Ok None => journal_table s !! journal_id_text id = None
  | Err _ => True
  end.
Proof.
  unfold read_entry. intros [(e & Hst%journal_statement_inv & ->)|(row & s1 & Hst%journal_statement_inv & Hrest)]%stateful_bind_cases.
  - by destruct Hst as [?|(? & [= _ ?])].
  - cbn in Hst. injection Hst as <- Htable. rewrite Htable in Hrest |- *. destruct (journal_table s1 !! _) as [row|] eqn:Hrow.
    + apply stateful_bind_cases in Hrest as [(e & [= Hrow' <-] & ->)|(entry & s2 & [= Hrow' <-] & [= <- <-])]; [done|].
      split; [done|]. by exists row.
    + by injection Hrest as <- <-.
Qed.

(** A journal is created: its row is new and planned. *)
Lemma create_row draft db r db' :
  create_recovery_journal (store := SqliteLibrary) draft db = (r, db') ->
  db_tables db' = db_tables db /\ db_state db' = db_state db /\
  let created := exists row, journal_row_id row = journal_id_text (draft_id draft) /\
    db_journal db !! journal_id_text (draft_id draft) = None /\
    journal_row_domain row = RecoveryDomain_as_str (draft_domain draft) /\ journal_row_state row = "planned" /\
    db_journal db' = <[journal_id_text (draft_id draft) := row]> (db_journal db) in
  match r with
  | Ok entry => created /\ exists row, db_journal db' !! journal_id_text (draft_id draft) = Some row /\
                  entry_from_row row = Ok entry
  | Err _ => db_journal db' = db_journal db \/ created
  end.
Proof.
  cbn [create_recovery_journal SqliteLibraryJournal].
  intros (Ht & Hs & r' & s' & Hrun & -> & ->)%on_journal_inv. split_and!; [done..|].
  unfold create_journal in Hrun.
  do 4 (apply stateful_bind_cases in Hrun as [(e & [= _ <-] & ->)|(? & ? & [= ? <-] & Hrun)]; [by left|]).
  apply stateful_bind_cases in Hrun as [(e & Hins%insert_journal_inv & ->)|(? & s1 & Hins%insert_journal_inv & Hrun)].
  { cbn in Hins. destruct Hins as [?|[Hnew ->]]; [by left|]. right. eexists (planned_row draft _ _ _). by split_and!. }
  cbn in Hins. destruct Hins as [Hnew Hins].
  assert (exists row, journal_row_id row = journal_id_text (draft_id draft) /\
    db_journal db !! journal_id_text (draft_id draft) = None /\
    journal_row_domain row = RecoveryDomain_as_str (draft_domain draft) /\ journal_row_state row = "planned" /\
    journal_table s1 = <[journal_id_text (draft_id draft) := row]> (db_journal db)) as Hcreated.
  { eexists (planned_row draft _ _ _). by split_and!. }
  apply stateful_bind_cases in Hrun as [(e & Hread%read_entry_row & ->)|(found & s2 & Hread%read_entry_row & Hrun)].
  - destruct Hread as [-> _]. by right.
  - destruct Hread as [Heq Hread]. injection Hrun as <- <-. destruct found as [entry|]; cbn.
    + rewrite Heq. by split.
    + rewrite Heq. by right.
Qed.

(** A row is moved on, or the table is what it was. *)
Lemma transition_row id expected next progress db r db' :
  transition_recovery_journal (store := SqliteLibrary) id expected next progress db = (r, db') ->
  db_tables db' = db_tables db /\ db_state db' = db_state db /\
  let moved := exists old new, db_journal db !! journal_id_text id = Some old /\
    journal_row_state old = RecoveryState_as_str expected /\ allows expected next = true /\
    journal_row_state new = RecoveryState_as_str next /\ journal_row_id new = journal_row_id old /\
    journal_row_domain new = journal_row_domain old /\
    db_journal db' = <[journal_id_text id := new]> (db_journal db) in
  match r with
  | Ok (Transition_Applied entry) => moved /\
      exists row, db_journal db' !! journal_id_text id = Some row /\ entry_from_row row = Ok entry
  | Ok (Transition_Conflict _) => db_journal db' = db_journal db
  | Err _ => db_journal db' = db_journal db \/ moved
  end.
Proof.
  cbn [transition_recovery_journal SqliteLibraryJournal].
  intros (Ht & Hs & r' & s' & Hrun & -> & ->)%on_journal_inv. split_and!; [done..|].
  unfold transition_journal in Hrun.
  destruct (allows expected next) eqn:Hallows; cbn [negb] in Hrun; [|injection Hrun as <- <-; by left].
  apply stateful_bind_cases in Hrun as [(e & [= _ <-] & ->)|(? & ? & [= _ <-] & Hrun)]; [by left|].
  apply stateful_bind_cases in Hrun as [(e & [= _ <-] & ->)|(text & ? & [= _ <-] & Hrun)]; [by left|].
  assert (forall s1, (exists row, db_journal db !! journal_id_text id = Some row /\
      journal_row_state row = RecoveryState_as_str expected /\
      journal_table s1 = <[journal_id_text id := transitioned_row next text (journal_timestamp (db_clock db)) row]>
        (db_journal db)) ->
    exists old new, db_journal db !! journal_id_text id = Some old /\
      journal_row_state old = RecoveryState_as_str expected /\ true = true /\
      journal_row_state new = RecoveryState_as_str next /\ journal_row_id new = journal_row_id old /\
      journal_row_domain new = journal_row_domain old /\
      journal_table s1 = <[journal_id_text id := new]> (db_journal db)) as Hmoved.
  { intros s1 (row & Hrow & Hstate & ->). eexists row, (transitioned_row next text _ row). by split_and!. }
  apply stateful_bind_cases in Hrun as [(e & Hupd%update_journal_inv & ->)|(n & s1 & Hupd%update_journal_inv & Hrun)].
  { cbn in Hupd. destruct Hupd as [?|Hupd]; [by left|]. right. by apply Hmoved. }
  cbn in Hupd.
  apply stateful_bind_cases in Hrun as [(e & Hread%read_entry_row & ->)|(found & s2 & Hread%read_entry_row & Hrun)].
  - destruct Hread as [-> _]. cbn. destruct n as [|[|n]]; [left; apply Hupd|right; by apply Hmoved|left; apply Hupd].
  - destruct Hread as [Heq Hread]. destruct (Nat.eqb_spec n 1) as [->|Hn].
    + apply stateful_bind_cases in Hrun as [(e & [= _ <-] & ->)|(entry & s3 & [= Hf <-] & [= <- <-])]; cbn; rewrite Heq.
      * right. by apply Hmoved.
      * destruct found as [found|]; [|done]. injection Hf as ->. split; [by apply Hmoved|done].
    + injection Hrun as <- <-. cbn. rewrite Heq. destruct n as [|[|n]]; [apply Hupd|done|apply Hupd].
Qed.

Lemma unfinished_row domain db r db' :
  unfinished_recovery_journals (store := SqliteLibrary) domain db = (r, db') ->
  same_data db db' /\
  match r with
  | Ok entries => forall key row, db_journal db !! key = Some row -> journal_unfinished domain row = true ->
      exists entry, entry ∈ entries /\ entry_from_row row = Ok entry
  | Err _ => True
  end.
Proof.
  cbn [unfinished_recovery_journals SqliteLibraryJournal].
  intros (Ht & Hs & r' & s' & Hrun & -> & Hj)%on_journal_inv.
  unfold unfinished_journals in Hrun.
  apply stateful_bind_cases in Hrun as [(e & Hst%journal_statement_inv & ->)|(rows & s1 & Hst%journal_statement_inv & Hrun)].
  - split; [|done]. cbn in Hst. split_and!; [done..|]. rewrite Hj. by destruct Hst as [?|(? & [= _ ?])].
  - cbn in Hst. injection Hst as <- Htab. destruct (Nat.ltb_spec MAX_UNFINISHED_JOURNALS
      (length (unfinished_rows domain (db_journal db)))) as [|Hfew].
    { injection Hrun as <- <-. split; [|done]. split_and!; [done..|]. congruence. }
    injection Hrun as <- <-. split; [split_and!; [done..|congruence]|].
    destruct (result_collect _ _) as [entries|] eqn:Hall; [|done]. cbn.
    apply result_collect_inv in Hall. intros key row Hrow Hopen.
    assert (row ∈ unfinished_rows domain (db_journal db)) as Hin
      by (apply elem_of_unfinished_rows; [lia|]; split; [done|by exists key]).
    apply list_elem_of_lookup in Hin as [i Hi].
    destruct (Forall2_lookup_l _ _ _ _ _ Hall Hi) as (entry & Hentry & Hr). exists entry.
    split; [by eapply list_elem_of_lookup_2|done].
Qed.

Lemma commits_keyed id mutation outcome before after :
  commits id mutation outcome before after ->
  journal_keyed_rows (db_journal before) -> journal_keyed_rows (db_journal after).
Proof.
  intros [(at_ & affected & effect & _ & _ & (old & new & Hold & _ & Hnew & ->) & _) _ _] Hkeyed.
  destruct Hnew as (text & now & _ & ->). by eapply keyed_update.
Qed.

Lemma commits_ok id mutation outcome before after :
  commits id mutation outcome before after -> library_ok before -> library_ok after.
Proof. intros Hc [Hwf Hkeyed]. split; [by eapply commits_library_wf|by eapply commits_keyed]. Qed.

Lemma same_ok a b : same_data a b -> library_ok a -> library_ok b.
Proof. intros Hsame [Hwf Hkeyed]. split; [by eapply library_wf_same|]. by destruct Hsame as (_ & _ & <-). Qed.

Lemma commit_outcome_ok {A} id mutation outcome (answer : A -> _ -> Prop) db r db' :
  commit_outcome id mutation outcome answer db r db' -> library_ok db -> library_ok db'.
Proof. intros [[Hc _]|[Hsame _]] Hok; [by eapply commits_ok|by eapply same_ok]. Qed.

(** A reconciliation begins and fails on the row of the state alone. *)
Definition begun (at_ : Z) (row : StateRow) : StateRow :=
  mkStateRow (state_generation row) "reconciling" (Some at_) (state_last_scan_at row) None
    (state_discovered_tracks row).
Definition failed (code : string) (row : StateRow) : StateRow :=
  mkStateRow (state_generation row) "failed" (state_scan_started_at row) (state_last_scan_at row)
    (Some code) (state_discovered_tracks row).
Definition scans_at (generation : N) (row : StateRow) : bool :=
  (state_generation row =? Z.of_N generation) && String.eqb (state_status row) "reconciling".

Definition state_only (before after : SqliteLibrary) : Prop :=
  db_tables after = db_tables before /\ db_journal after = db_journal before.

Lemma begin_inv db r db' :
  begin_library_reconciliation db = (r, db') ->
  state_only db db' /\
  (db_state db' = db_state db \/ exists row at_, db_state db = Some row /\ db_state db' = Some (begun at_ row)).
Proof.
  unfold begin_library_reconciliation, state_only. intros Hrun.
  assert (forall db1 r1, library_transaction (rows_affected ← update_state (fun _ => true) (fun at_ => begun at_);
      if (rows_affected =? 1)%nat then mret ()
      else throw (invalid_state "singleton reconciliation row is missing")) db = (r1, db1) ->
    (db_tables db1 = db_tables db /\ db_journal db1 = db_journal db) /\
    (db_state db1 = db_state db \/ exists row at_, db_state db = Some row /\ db_state db1 = Some (begun at_ row)))
    as Hbegun.
  { intros db1 r1 [(a & after & Hbody & (Ht & Hs & Hj) & _)|[(-> & -> & ->) _]]%library_transaction_inv; [|by auto].
    apply stateful_bind_ok in Hbody as (n & s & Hup%update_state_inv & Hret).
    destruct (n =? 1)%nat; [|done]. injection Hret as _ <-. cbn [next_db_fault db_state db_tables db_journal] in Hup.
    rewrite <- Ht, <- Hs, <- Hj. destruct Hup as (? & ? & Hup). split; [done|].
    destruct (db_state db) as [row|]; [right|by left; destruct Hup]. destruct Hup as [_ Hup]. by eexists row, _. }
  apply stateful_bind_cases in Hrun as [(e & Htx%Hbegun & _)|(u & db1 & Htx%Hbegun & Hread%read_library_status_inv)]; [done|].
  destruct Hread as [(<- & <- & <-) _]. done.
Qed.

Lemma fail_inv generation code db r db' :
  fail_library_reconciliation generation code db = (r, db') ->
  let marked := match db_state db with
    | Some row => db_state db' = Some (if scans_at generation row then failed code row else row)
    | None => db_state db' = None
    end in
  state_only db db' /\
  match r with Ok status => marked /\ reports status db' | Err _ => db_state db' = db_state db \/ marked end.
Proof.
  unfold fail_library_reconciliation, state_only. intros Hrun.
  destruct (error_code_valid code); cbn [negb] in Hrun; [|injection Hrun as <- <-; by auto].
  apply stateful_bind_cases in Hrun as [(e & [= _ <-] & ->)|(expected & db1 & [= Hexpected <-] & Hrun)]; [by auto|].
  assert (expected = Z.of_N generation) as ->.
  { destruct (i64_try_from_u64 generation) as [z|] eqn:Hz; [|done]. injection Hexpected as <-.
    by apply i64_try_from_inv in Hz as [-> _]. }
  assert (forall db1 r1, library_statement (update_state (scans_at generation) (fun _ => failed code)) db = (r1, db1) ->
    let marked := match db_state db with
      | Some row => db_state db1 = Some (if scans_at generation row then failed code row else row)
      | None => db_state db1 = None
      end in
    (db_tables db1 = db_tables db /\ db_journal db1 = db_journal db) /\
    match r1 with Ok _ => marked | Err _ => db_state db1 = db_state db \/ marked end) as Hfailed.
  { intros db1 r1 [(n & after & Hup%update_state_inv & (Ht & Hs & Hj) & Hr)|[(-> & -> & ->) [e ->]]]%library_transaction_inv;
      [|by auto].
    cbn [next_db_fault db_state db_tables db_journal] in Hup. rewrite <- Ht, <- Hs, <- Hj.
    destruct Hup as (? & ? & Hup). cbn. split; [done|]. destruct (db_state db) as [row|]; [|destruct r1; naive_solver].
    destruct (scans_at generation row), Hup as [_ Hup], r1; auto. }
  apply stateful_bind_cases in Hrun as [(e & Htx%Hfailed & ->)|(u & db1 & Htx%Hfailed & Hread%read_library_status_inv)]; [done|].
  destruct Hread as [(Ht & Hs & Hj) Hread]. rewrite <- Ht, <- Hj, <- Hs. destruct Htx as [? Htx]. split; [done|].
  destruct r as [status|]; [|by right]. split; [done|]. unfold reports. by rewrite <- Hs.
Qed.

Lemma state_only_ok db db' row row' :
  state_only db db' -> db_state db = Some row -> db_state db' = Some row' ->
  state_generation row' = state_generation row -> state_discovered_tracks row' = state_discovered_tracks row ->
  state_status row' ∈ ["pending"; "reconciling"; "current"; "failed"] ->
  library_ok db -> library_ok db'.
Proof.
  intros [Ht Hj] Hrow Hrow' Hg Hc Hst [(Htables & r & Hr & Hgr & Hcr & _) Hkeyed].
  split; [|by rewrite Hj]. split; [by rewrite Ht|]. exists row'. split; [done|].
  assert (r = row) as -> by congruence. unfold state_wf. rewrite Ht, Hg, Hc. split_and!; [lia|lia|done|done].
Qed.

Lemma begin_ok db r db' : begin_library_reconciliation db = (r, db') -> library_ok db -> library_ok db'.
Proof.
  intros [Hsame Hstate]%begin_inv Hok. destruct Hstate as [Hstate|(row & at_ & Hrow & Hstate)].
  - eapply same_ok; [|exact Hok]. destruct Hsame. unfold same_data. by split_and!.
  - eapply state_only_ok; try done. cbn. set_solver.
Qed.

Lemma fail_ok generation code db r db' :
  fail_library_reconciliation generation code db = (r, db') -> library_ok db -> library_ok db'.
Proof.
  intros [Hsame Hstate]%fail_inv Hok.
  assert (db_state db' = db_state db \/ exists row, db_state db = Some row /\ db_state db' = Some (failed code row))
    as [Heq|(row & Hrow & Hstate')].
  { destruct Hok as [(_ & row & Hrow & _) _]. rewrite Hrow in *.
    destruct r as [status|e]; [destruct Hstate as [Hstate _]|destruct Hstate as [?|Hstate]; [by left|]];
      destruct (scans_at generation row); eauto. }
  - eapply same_ok; [|exact Hok]. destruct Hsame. unfold same_data. by split_and!.
  - eapply state_only_ok; try done. cbn. set_solver.
Qed.

Definition keeps_ok (before after : SqliteLibrary) : Prop := library_ok before -> library_ok after.

#[global] Instance keeps_ok_preorder : PreOrder keeps_ok.
Proof. unfold keeps_ok. split; [intros ?|intros ? ? ?]; tauto. Qed.

Lemma create_ok draft : op_within keeps_ok (create_recovery_journal (store := SqliteLibrary) draft).
Proof.
  intros db r db' (Ht & Hs & Hj)%create_row [Hwf Hkeyed].
  split; [unfold library_wf in *; by rewrite Ht, Hs|].
  assert (db_journal db' = db_journal db \/ exists row, journal_row_id row = journal_id_text (draft_id draft) /\
    db_journal db' = <[journal_id_text (draft_id draft) := row]> (db_journal db)) as [->|(row & Hid & ->)].
  { destruct r; [right|destruct Hj as [?|Hj]; [by left|right]]; naive_solver. }
  - done.
  - rewrite <- Hid. by apply keyed_insert.
Qed.

Lemma transition_ok id expected next progress :
  op_within keeps_ok (transition_recovery_journal (store := SqliteLibrary) id expected next progress).
Proof.
  intros db r db' (Ht & Hs & Hj)%transition_row [Hwf Hkeyed].
  split; [unfold library_wf in *; by rewrite Ht, Hs|].
  assert (db_journal db' = db_journal db \/ exists old new, db_journal db !! journal_id_text id = Some old /\
    journal_row_id new = journal_row_id old /\
    db_journal db' = <[journal_id_text id := new]> (db_journal db)) as [->|(old & new & Hold & Hid & ->)].
  { destruct r as [[|]|]; [right|by left|destruct Hj as [?|Hj]; [by left|right]]; naive_solver. }
  - done.
  - by eapply keyed_update.
Qed.

#[global] Instance sqlite_index_ok : IndexWithin keeps_ok.
Proof.
  split; try apply _.
  - intros db r db' [Hsame _]%read_library_status_inv. exact (same_ok _ _ Hsame).
  - intros id db r db' [Hsame _]%read_tables_inv. exact (same_ok _ _ Hsame).
  - intros db r db' [Hsame _]%read_tables_inv. exact (same_ok _ _ Hsame).
  - exact begin_ok.
  - intros generation tracks db r db' Hrun%reconciliation_outcome.
    assert (same_data db db' \/ installs generation tracks db db') as [Hsame|Hi].
    { destruct r as [[status summary ids|current]|e]; [right|left|]; by try apply Hrun. }
    + exact (same_ok _ _ Hsame).
    + intros [Hwf Hkeyed]. split; [by eapply installs_wf|].
      destruct Hi as (? & ? & ? & _ & _ & -> & _). done.
  - exact fail_ok.
  - intros journal a b db r db' Hrun Hok. by eapply commit_outcome_ok; [eapply (folder_rename_outcome _ _ _ false); exact Hrun|].
  - intros journal path db r db' Hrun Hok. by eapply commit_outcome_ok; [eapply (folder_delete_outcome _ _ false); exact Hrun|].
  - intros journal id path track db r db' Hrun Hok. by eapply commit_outcome_ok; [eapply move_outcome; exact Hrun|].
  - intros journal id path db r db' Hrun Hok. by eapply commit_outcome_ok; [eapply track_delete_outcome; exact Hrun|].
  - intros journal id path patch track original db r db' Hrun Hok. by eapply commit_outcome_ok; [eapply metadata_outcome; exact Hrun|].
  - intros journal id a b track original db r db' Hrun Hok. by eapply commit_outcome_ok; [eapply conversion_outcome; exact Hrun|].
  - intros journal id path track db r db' Hrun Hok. by eapply commit_outcome_ok; [eapply restore_outcome; exact Hrun|].
  - intros journal a b replace track db r db' Hrun Hok. by eapply commit_outcome_ok; [eapply upload_outcome; exact Hrun|].
  - intros domain db r db' [Hsame _]%unfinished_row. exact (same_ok _ _ Hsame).
Qed.

#[global] Instance sqlite_keeps_ok : RepositoryWithin keeps_ok.
Proof. split; [apply _|exact create_ok|exact transition_ok]. Qed.
End Sqlite.

(* ------------------------------------------------------------------ *)
(** ** The coordinator over SQLite *)

Lemma path_same_eq (a b : LibraryPath) : path_same a b = true <-> a = b.
Proof. apply path_eqb_eq. Qed.
Lemma id_same_eq (a b : TrackId) : id_same a b = true <-> a = b.
Proof. apply Pos.eqb_eq. Qed.

Section Coordinator.
Context {files sink : Type} `{!LibraryDiscovery files, !LibraryMutationEffects files, !LibraryCatalogSink sink}.
Context `{!LibraryJournalIds, !JsonText, !JournalClock}.

Abbreviation coord := (coordinator (store := SqliteLibrary) (files := files) (sink := sink)) (only parsing).
Abbreviation command A := (cmd (store := SqliteLibrary) (files := files) (sink := sink) A) (only parsing).

Lemma start_keeps_ok (c c' : coord) r :
  library_ok (repository c) -> start_library_coordinator c = (r, c') -> library_ok (repository c').
Proof. intros Hok Hrun%(within_start keeps_ok). by apply Hrun. Qed.

Lemma run_keeps_ok commands (c c' : coord) replies :
  library_ok (repository c) -> run commands c = (replies, c') -> library_ok (repository c').
Proof. intros Hok Hrun%(within_run keeps_ok). by apply Hrun. Qed.

(** C6: whatever the files, the sink and the database answer, and wherever they
    fail, a start and the commands after it leave a library whose ids ascend,
    whose paths are there once, whose kept originals and tags belong to a track
    and whose count and generation are those of its tracks. *)
Theorem coordinator_keeps_library (c c1 c2 : coord) r commands replies :
  library_ok (repository c) ->
  start_library_coordinator c = (r, c1) -> run commands c1 = (replies, c2) ->
  library_ok (repository c1) /\ library_ok (repository c2).
Proof.
  intros Hok Hstart Hrun. split; [by eapply start_keeps_ok|].
  eapply run_keeps_ok; [|exact Hrun]. by eapply start_keeps_ok.
Qed.

(** Only the repository changed. *)
Definition quiet (c c' : coord) : Prop :=
  files_of c' = files_of c /\ catalog_sink c' = catalog_sink c /\ seen c' = seen c /\
  journals_drawn c' = journals_drawn c.

Lemma on_store_inv {E A} operation (op : stateful SqliteLibrary E A) (c : coord) r c' :
  on_store operation op c = (r, c') ->
  exists r0, op (repository c) = (r0, repository c') /\ r = map_err (fun _ => Dependency operation) r0 /\ quiet c c'.
Proof.
  unfold on_store. destruct (op (repository c)) as [r0 s] eqn:Hop. intros [= <- <-]. by exists r0.
Qed.

(** The index is what it was. *)
Definition same_index (a b : SqliteLibrary) : Prop := db_tables a = db_tables b /\ db_state a = db_state b.

#[local] Instance same_index_equiv : Equivalence same_index.
Proof. unfold same_index. split; [intros ?|intros ? ?|intros ? ? ?]; naive_solver congruence. Qed.

Lemma same_data_index a b : same_data a b -> same_index a b.
Proof. by intros (? & ? & _). Qed.

Definition row_state_is (state : RecoveryState) (id : RecoveryJournalId) (db : SqliteLibrary) : Prop :=
  exists row, db_journal db !! journal_id_text id = Some row /\ journal_row_state row = RecoveryState_as_str state.

Lemma transition_inv operation id expected next progress (c : coord) r c' :
  transition operation id expected next progress c = (r, c') ->
  quiet c c' /\ same_index (repository c) (repository c') /\
  match r with
  | Ok entry => row_state_is expected id (repository c) /\ row_state_is next id (repository c') /\
      (journal_keyed_rows (db_journal (repository c')) -> entry_id entry = id)
  | Err e => mutation_error_requires_recovery e = true
  end.
Proof.
  unfold transition. intros Hrun.
  assert (forall c1 r0, on_store operation (transition_recovery_journal id expected next progress) c = (r0, c1) ->
    quiet c c1 /\ same_index (repository c) (repository c1) /\
    match r0 with
    | Ok (Transition_Applied entry) => row_state_is expected id (repository c) /\ row_state_is next id (repository c1) /\
        (journal_keyed_rows (db_journal (repository c1)) -> entry_id entry = id)
    | Err e => mutation_error_requires_recovery e = true
    | _ => True
    end) as Hmoved.
  { intros c1 r0 (r1 & (Ht & Hs & Hj)%transition_row & -> & Hquiet)%on_store_inv.
    split_and!; [done|done|]. destruct r1 as [[entry|]|]; cbn; try done.
    destruct Hj as [(old & new & Hold & Hso & _ & Hsn & _ & _ & Hj) (row & Hrow & Hentry)].
    split; [by exists old|]. split; [exists new; by rewrite Hj, lookup_insert_eq|].
    intros Hkeyed. specialize (Hkeyed _ _ Hrow).
    apply entry_from_row_ok in Hentry as (Hid%journal_id_parse_ok & _).
    rewrite Hkeyed in Hid. destruct (entry_id entry), id. cbn in Hid. congruence. }
  apply stateful_bind_cases in Hrun as [(e & Hstep%Hmoved & ->)|(moved & c1 & Hstep%Hmoved & [= <- <-])]; destruct Hstep as (? & ? & Hstep).
  - by split_and!.
  - split_and!; [done..|]. by destruct moved.
Qed.

(** What the commit of an applied mutation did. *)
Definition committed_with (id : RecoveryJournalId) (mutation : LibraryFileMutation)
    (outcome : LibraryFileMutationOutcome) (before after : SqliteLibrary)
    (r : result LibraryCoordinatorError (AppliedLibraryMutation * option LibraryStatus)) : Prop :=
  (commits id mutation outcome before after /\
   match r with
   | Ok (applied, status) => applied_outcome applied = outcome /\
       exists status', status = Some status' /\ reports status' after
   | Err e => mutation_error_requires_recovery e = true
   end) \/
  (same_index before after /\
   match r with
   | Ok (applied, status) => applied_outcome applied = outcome /\ status = None /\
       (exists path, mutation = CreateFolder path) /\ row_state_is Committed id after
   | Err e => mutation_error_requires_recovery e = true
   end).

Lemma committed_with_of {A} id mutation outcome operation (op : stateful SqliteLibrary LibraryWriteError A)
    (answer : SqliteLibrary -> A -> SqliteLibrary -> Prop) (f : A -> AppliedLibraryMutation * option LibraryStatus)
    (c : coord) r c' :
  (commit ← on_store operation op; mret (f commit)) c = (r, c') ->
  (forall db r db', op db = (r, db') -> commit_outcome id mutation outcome (answer db) db r db') ->
  (forall commit before after, answer before commit after ->
     applied_outcome (f commit).1 = outcome /\ exists status, (f commit).2 = Some status /\ reports status after) ->
  quiet c c' /\ committed_with id mutation outcome (repository c) (repository c') r.
Proof.
  intros Hrun Hop Hf.
  apply stateful_bind_cases in Hrun as [(e & (r0 & Hdone%Hop & Hr & Hquiet)%on_store_inv & ->)
    |(commit & c1 & (r0 & Hdone%Hop & Hr & Hquiet)%on_store_inv & [= <- <-])]; (split; [exact Hquiet|]);
    destruct r0 as [x|e0]; try done; cbn in Hr.
  - injection Hr as ->. destruct Hdone as [[Hdone _]|[Hsame _]]; [by left|right].
    split; [by apply same_data_index|done].
  - injection Hr as ->. destruct Hdone as [[Hdone Hanswer]|[_ [e [=]]]]. left. split; [done|].
    apply Hf in Hanswer as [? ?]. by destruct (f x).
Qed.

Lemma committed_upload id staged destination replace discovered (c : coord) r c' :
  (commit ← on_store "commit a library upload" (commit_upload id staged destination replace discovered);
   mret (mkAppliedLibraryMutation (UploadPublished destination discovered) (upload_affected_tracks commit)
           (upload_track commit), Some (upload_status commit))) c = (r, c') ->
  quiet c c' /\ committed_with id (PublishUpload staged destination replace) (UploadPublished destination discovered)
    (repository c) (repository c') r.
Proof.
  intros Hrun. refine (committed_with_of _ _ _ _ _ (fun _ => answers_upload destination discovered) _ _ _ _ Hrun _ _).
  - intros db. apply upload_outcome.
  - intros commit before after [? _]. split; [done|by eexists].
Qed.

Lemma commit_applied_inv id mutation outcome (c : coord) r c' :
  commit_applied_library_mutation id mutation outcome c = (r, c') ->
  quiet c c' /\ committed_with id mutation outcome (repository c) (repository c') r.
Proof.
  assert (forall c c' r e, throw e c = (r, c') ->
    mutation_error_requires_recovery e = true ->
    quiet c c' /\ committed_with id mutation outcome (repository c) (repository c') r) as Hthrow.
  { intros c0 c0' r0 e [= <- <-] He. split; [done|]. right. done. }
  unfold commit_applied_library_mutation, none_or_at.
  destruct mutation, outcome; try (intros; by eapply Hthrow); repeat case_match; try (intros; by eapply Hthrow);
    repeat match goal with
    | Heq : (_ && _) = true |- _ => apply andb_true_iff in Heq as [? ?]
    | Heq : path_same _ _ = true |- _ => apply path_same_eq in Heq
    | Heq : id_same _ _ = true |- _ => apply id_same_eq in Heq
    end; subst; intros Hrun.
  - apply stateful_bind_cases in Hrun as [(e & Hstep%transition_inv & ->)|(entry & c1 & Hstep%transition_inv & [= <- <-])];
      destruct Hstep as (Hquiet & Hsame & Hstep); (split; [done|right]); (split; [done|]); [done|].
    split_and!; [done|done|by eexists|]. apply Hstep.
  - eapply committed_with_of; [exact Hrun|intros *; apply folder_rename_outcome|intros commit before after [? _]; by eauto].
  - eapply committed_with_of; [exact Hrun|intros *; apply folder_delete_outcome|intros commit before after [? _]; by eauto].
  - eapply committed_with_of; [exact Hrun|intros *; apply move_outcome|intros commit before after [? _]; by eauto].
  - eapply committed_with_of; [exact Hrun|intros *; apply track_delete_outcome|intros commit before after [? _]; by eauto].
  - eapply committed_with_of; [exact Hrun|intros *; apply metadata_outcome|intros commit before after [? _]; by eauto].
  - eapply committed_with_of; [exact Hrun|intros *; apply metadata_outcome|intros commit before after [? _]; by eauto].
  - by eapply committed_upload.
  - by eapply committed_upload.
  - refine (committed_with_of _ _ _ _ _ (fun _ => answers_track _) _ _ _ _ Hrun _ _);
      [intros db r0 db' Hop; by eapply conversion_outcome|intros commit before after [? _]; by eauto].
  - refine (committed_with_of _ _ _ _ _ (fun _ => answers_track _) _ _ _ _ Hrun _ _);
      [intros db r0 db' Hop; by eapply restore_outcome|intros commit before after [? _]; by eauto].
Qed.

Lemma commits_committed id mutation outcome before after :
  commits id mutation outcome before after -> row_state_is Committed id after.
Proof.
  intros [(at_ & affected & effect & _ & _ & (old & new & _ & _ & (text & now & _ & ->) & Hj) & _) _ _].
  eexists. split; [by rewrite Hj, lookup_insert_eq|done].
Qed.

Lemma same_data_row_state state id a b : same_data a b -> row_state_is state id a -> row_state_is state id b.
Proof. intros (_ & _ & Hj). unfold row_state_is. by rewrite Hj. Qed.

Lemma quiet_trans (a b c : coord) : quiet a b -> quiet b c -> quiet a c.
Proof. unfold quiet. intuition congruence. Qed.

(** The journal of a mutation, up to the point where the files are touched. *)
Definition begin_mutation (mutation : LibraryFileMutation) : command RecoveryJournalEntry :=
  operation ← try (map_err InvalidMutation (operation mutation));
  id ← draw_journal_id;
  draft ← try (map_err (fun _ => Dependency "validate a library mutation journal")
                 (RecoveryJournalDraft_new id Domain_Library operation (plan mutation)));
  planned ← on_store "create a library mutation journal" (create_recovery_journal draft);
  transition "start a library mutation journal" (entry_id planned) Planned Applying (Json_Object []).

Definition touched_nothing (c c' : coord) : Prop :=
  files_of c' = files_of c /\ catalog_sink c' = catalog_sink c /\ seen c' = seen c /\
  same_index (repository c) (repository c').

Lemma begin_mutation_inv mutation (c : coord) r c' :
  library_ok (repository c) -> begin_mutation mutation c = (r, c') ->
  touched_nothing c c' /\ library_ok (repository c') /\
  match r with
  | Ok entry => entry_id entry = library_journal_id (journals_drawn c) /\
      row_state_is Applying (library_journal_id (journals_drawn c)) (repository c')
  | Err _ => True
  end.
Proof.
  intros Hok Hrun.
  assert (library_ok (repository c')) as Hok'.
  { eapply (within_bind keeps_ok) in Hrun; [by apply Hrun|go_within..]. }
  unfold begin_mutation in Hrun. rewrite operation_ok in Hrun.
  apply stateful_bind_cases in Hrun as [(e & [=] & _)|(op & c1 & [= _ <-] & Hrun)].
  apply stateful_bind_cases in Hrun as [(e & [=] & _)|(id & c1 & [= <- <-] & Hrun)].
  apply stateful_bind_cases in Hrun as [(e & [= _ <-] & ->)|(draft & c1 & [= Hdraft <-] & Hrun)]; [done|].
  apply map_err_ok, bind_ok in Hdraft as (u & _ & [= <-]).
  apply stateful_bind_cases in Hrun as [(e & (r0 & (Ht & Hs & Hrow)%create_row & Hr & Hquiet)%on_store_inv & ->)
    |(planned & c1 & (r0 & Hcreate & Hr & Hquiet)%on_store_inv & Hrun)].
  { split; [|done]. destruct Hquiet as (? & ? & ? & _). by split_and!. }
  destruct (create_ok _ _ _ _ Hcreate Hok) as [_ Hkeyed]. apply create_row in Hcreate as (Ht & Hs & Hrow).
  destruct r0 as [planned'|]; [|done]. injection Hr as ->. destruct Hrow as [_ (row & Hrow & Hentry)].
  apply transition_inv in Hrun as (Hquiet' & Hsame & Hrun).
  split; [|split; [done|]].
  { destruct Hquiet as (? & ? & ? & _), Hquiet' as (? & ? & ? & _), Hsame as [? ?]. cbn in *.
    unfold touched_nothing, same_index. intuition congruence. }
  destruct r as [entry|e]; [|done]. destruct Hrun as (_ & Happlying & Hid).
  assert (entry_id planned' = library_journal_id (journals_drawn c)) as Hplanned.
  { specialize (Hkeyed _ _ Hrow). apply entry_from_row_ok in Hentry as (Hparse%journal_id_parse_ok & _).
    enough (journal_id_text (entry_id planned') = journal_id_text (library_journal_id (journals_drawn c))) as Heq
      by (destruct (entry_id planned'), (library_journal_id _); cbn in Heq; congruence).
    by rewrite Hparse, Hkeyed. }
  rewrite Hplanned in *. split; [|done]. by apply Hid, Hok'.
Qed.

(** What follows the commit of the index. *)
Definition publish_mutation (publish_catalog : bool) (committed : AppliedLibraryMutation * option LibraryStatus)
    : command AppliedLibraryMutation :=
  match committed with
  | (applied, Some status) =>
      _ ← (if publish_catalog then
             tracks ← on_store "load the mutated track catalog" repository_playback_catalog;
             publish_to_sink "publish the mutated track catalog" (status_generation status) tracks
           else mret ());
      _ ← publish_status status;
      mret applied
  | (applied, None) => mret applied
  end.

(** The rest of [apply_mutation]. *)
Definition finish_mutation (mutation : LibraryFileMutation) (publish_catalog : bool)
    (applying : RecoveryJournalEntry) : command AppliedLibraryMutation :=
  effect ← on_files (effects_apply (entry_id applying) mutation false);
  match effect with
  | Err failure =>
      _ ← (if requires_recovery failure then mret ()
           else
             _ ← transition "record a failed library mutation" (entry_id applying) Applying State_Failed
                   (error_progress failure);
             mret ());
      throw (Mutation failure)
  | Ok outcome =>
      committed ← commit_applied_library_mutation (entry_id applying) mutation outcome;
      publish_mutation publish_catalog committed
  end.

Lemma apply_mutation_eq mutation publish c :
  apply_mutation mutation publish c =
  (applying ← begin_mutation mutation; finish_mutation mutation publish applying) c.
Proof.
  unfold apply_mutation, begin_mutation, finish_mutation, publish_mutation, mbind, stateful_bind, try.
  rewrite operation_ok. cbn [map_err]. destruct (draw_journal_id c) as [[id|e] c1]; [|done].
  destruct (map_err _ (RecoveryJournalDraft_new _ _ _ _)) as [draft|e]; [|done].
  destruct (on_store _ _ c1) as [[planned|e] c2]; [|done].
  destruct (transition _ _ _ _ _ c2) as [[applying|e] c3]; [|done].
  destruct (on_files _ c3) as [[[outcome|failure]|e] c4]; [|done|done].
  destruct (commit_applied_library_mutation _ _ _ c4) as [[[applied [status|]]|e] c5]; done.
Qed.

(** A catalog that was read and handed over. *)
Definition catalog_handed (generation : N) (c c' : coord) : Prop :=
  exists tracks : list LibraryCatalogTrack,
    result_collect library_catalog_track_from_row (ordered_tracks (db_tables (repository c'))) = Ok tracks /\
    sink_publish generation tracks (catalog_sink c) = (Ok (), catalog_sink c').

Lemma publish_mutation_inv publish applied status (c : coord) r c' :
  publish_mutation publish (applied, status) c = (r, c') ->
  files_of c' = files_of c /\ same_data (repository c) (repository c') /\
  match r with
  | Ok applied' => applied' = applied /\
      match status with
      | Some status =>
          if publish then
            catalog_handed (status_generation status) c c' /\
            seen c' = seen c ++ [Catalog_published (status_generation status); Status_published status]
          else catalog_sink c' = catalog_sink c /\ seen c' = seen c ++ [Status_published status]
      | None => catalog_sink c' = catalog_sink c /\ seen c' = seen c
      end
  | Err e => mutation_error_requires_recovery e = true /\ publish = true /\ seen c' = seen c
  end.
Proof.
  destruct status as [status|]; cbn [publish_mutation]; [|by intros [= <- <-]].
  destruct publish; [|by intros [= <- <-]]. intros Hrun.
  apply stateful_bind_cases in Hrun as [(e & Hsink & ->)|(u & c1 & Hsink & [= <- <-])];
    apply stateful_bind_cases in Hsink as [(e' & (r0 & Hcat%read_tables_inv & Hr & Hquiet)%on_store_inv & He)
      |(tracks & c2 & (r0 & Hcat%read_tables_inv & Hr & Hquiet)%on_store_inv & Hsink)];
    destruct Hcat as [Hsame Hcat], Hquiet as (Hfiles & Hsinks & Hseen & _), r0 as [tracks'|]; try done.
  - injection He as ->. injection Hr as ->. done.
  - injection Hr as ->. unfold publish_to_sink in Hsink.
    destruct (sink_publish _ _ _) as [[?|?] s]; [done|]. by injection Hsink as <- <-.
  - injection Hr as ->. unfold publish_to_sink in Hsink.
    destruct (sink_publish (status_generation status) tracks' (catalog_sink c2)) as [[[]|?] s] eqn:Hpub; [|done].
    injection Hsink as _ <-. cbn. split; [done|]. split; [done|]. split; [done|]. split.
    + exists tracks'. cbn. rewrite <- Hsinks. split; [|done]. by destruct Hsame as (<- & _).
    + by rewrite Hseen, <- app_assoc.
Qed.

Lemma on_files_inv {E A} (op : stateful files E A) (c : coord) r c' :
  on_files op c = (r, c') ->
  exists r0, r = Ok r0 /\ op (files_of c) = (r0, files_of c') /\ repository c' = repository c /\
    catalog_sink c' = catalog_sink c /\ seen c' = seen c.
Proof. unfold on_files. destruct (op (files_of c)) as [r0 f] eqn:Hop. intros [= <- <-]. by exists r0. Qed.

(** What one mutation did, by what the files answered. *)
Inductive mutation_done (mutation : LibraryFileMutation) (id : RecoveryJournalId) (c c' : coord)
    : result LibraryCoordinatorError AppliedLibraryMutation -> Prop :=
| Nothing_done e : touched_nothing c c' -> mutation_done mutation id c c' (Err e)
| Files_refused failure e :
    effects_apply id mutation false (files_of c) = (Err failure, files_of c') ->
    same_index (repository c) (repository c') ->
    mutation_error_requires_recovery e = true \/
      e = Mutation failure /\ row_state_is State_Failed id (repository c') ->
    mutation_done mutation id c c' (Err e)
| Files_changed outcome before r :
    same_index (repository c) before -> row_state_is Applying id before ->
    effects_apply id mutation false (files_of c) = (Ok outcome, files_of c') ->
    commits id mutation outcome before (repository c') \/ same_index before (repository c') ->
    match r with
    | Ok applied => applied_outcome applied = outcome /\ row_state_is Committed id (repository c') /\
        (commits id mutation outcome before (repository c') \/ exists path, mutation = CreateFolder path)
    | Err e => mutation_error_requires_recovery e = true
    end ->
    mutation_done mutation id c c' r.

Lemma finish_mutation_inv mutation publish applying id (c : coord) r c' :
  entry_id applying = id -> row_state_is Applying id (repository c) ->
  finish_mutation mutation publish applying c = (r, c') -> mutation_done mutation id c c' r.
Proof.
  intros Hid Happlying Hrun. unfold finish_mutation in Hrun. rewrite Hid in Hrun.
  apply stateful_bind_cases in Hrun as [(e & Hfiles%on_files_inv & ->)|(effect & c1 & Hfiles%on_files_inv & Hrun)].
  { by destruct Hfiles as (? & [=] & _). }
  destruct Hfiles as (r0 & [= <-] & Hfiles & Hrepo & _). destruct effect as [outcome|failure].
  - apply stateful_bind_cases in Hrun as [(e & [Hquiet Hc]%commit_applied_inv & ->)
      |([applied status] & c2 & [Hquiet Hc]%commit_applied_inv & Hrun)].
    + apply (Files_changed _ _ _ _ outcome (repository c)); try done.
      * by destruct Hquiet as (-> & _).
      * rewrite Hrepo in Hc. destruct Hc as [[? _]|[? _]]; [by left|by right].
      * by destruct Hc as [[_ ?]|[_ ?]].
    + apply publish_mutation_inv in Hrun as (Hf & Hsame & Hr). rewrite Hrepo in Hc.
      apply (Files_changed _ _ _ _ outcome (repository c)); try done.
      * rewrite Hf. by destruct Hquiet as (-> & _).
      * destruct Hc as [[? _]|[? _]]; [left; by eapply commits_same|right].
        etransitivity; [done|by apply same_data_index].
      * destruct r as [applied'|e]; [|apply Hr]. destruct Hr as [-> _].
        destruct Hc as [(Hc & ? & _)|(_ & ? & _ & ? & Hrow)]; split_and!; try done.
        -- eapply same_data_row_state; [exact Hsame|by eapply commits_committed].
        -- left. by eapply commits_same.
        -- by eapply same_data_row_state.
        -- by right.
  - apply stateful_bind_cases in Hrun as [(e & Hrec & ->)|(u & c2 & Hrec & [= <- <-])].
    all: destruct (requires_recovery failure) eqn:Hreq; [try done; injection Hrec as _ <-|].
    + apply stateful_bind_cases in Hrec as [(e' & Htr%transition_inv & [= <-])|(? & c2 & _ & [=])].
      destruct Htr as ((Hf & _) & Hsame & He). apply (Files_refused _ _ _ _ failure); [by rewrite Hf|by rewrite <- Hrepo|].
      by left.
    + apply (Files_refused _ _ _ _ failure); [done|by rewrite Hrepo|by left].
    + apply stateful_bind_cases in Hrec as [(e' & _ & [=])|(entry & c3 & Htr%transition_inv & [= _ <-])].
      destruct Htr as ((Hf & _) & Hsame & _ & Hrow & _).
      apply (Files_refused _ _ _ _ failure); [by rewrite Hf|by rewrite <- Hrepo|by right].
Qed.

(** C5: one mutation carries its journal from planned to applying before the files
    are touched. If the files refuse, the index is what it was, and the journal
    failed unless recovery is asked for. If they changed, either one transaction
    changed the index as the mutation and its outcome say, with the generation
    and the journal in it, or the index is what it was and the error asks for
    recovery; an answer is given only when the journal is committed. *)
Theorem mutation_commits_what_the_files_did mutation publish (c : coord) r c' :
  library_ok (repository c) -> apply_mutation mutation publish c = (r, c') ->
  mutation_done mutation (library_journal_id (journals_drawn c)) c c' r.
Proof.
  intros Hok Hrun. rewrite apply_mutation_eq in Hrun.
  apply stateful_bind_cases in Hrun as [(e & Hb & ->)|(entry & c1 & Hb & Hrun)];
    apply begin_mutation_inv in Hb as (Hnothing & Hok1 & Hentry); try done.
  - by apply Nothing_done.
  - destruct Hentry as [Hid Happlying], Hnothing as (Hf & Hk & Hs & Hsame).
    eapply finish_mutation_inv in Hrun; [|exact Hid|exact Happlying].
    destruct Hrun as [e (Hf' & ? & ? & Hsame')|failure e Hrun Hsame' He|outcome before r Hsame' Hrow Hrun Hdone Hr].
    + apply Nothing_done. split_and!; [congruence..|by etransitivity].
    + apply (Files_refused _ _ _ _ failure); [by rewrite <- Hf|by etransitivity|done].
    + apply (Files_changed _ _ _ _ outcome before); [by etransitivity|done|by rewrite <- Hf|done|done].
Qed.

(** C29: a mutation that changes the index is seen in one order: the sink took the
    catalog of the new index at its generation, and then the status of that
    generation is published. A mutation that fails is not seen at all. *)
Theorem catalog_is_seen_before_status mutation (c : coord) r c' :
  library_ok (repository c) -> apply_mutation mutation true c = (r, c') ->
  match r with
  | Ok applied =>
      (exists status, reports status (repository c') /\ catalog_handed (status_generation status) c c' /\
         seen c' = seen c ++ [Catalog_published (status_generation status); Status_published status]) \/
      (exists path, mutation = CreateFolder path) /\ seen c' = seen c /\ catalog_sink c' = catalog_sink c
  | Err _ => seen c' = seen c
  end.
Proof.
  intros Hok Hrun. rewrite apply_mutation_eq in Hrun.
  apply stateful_bind_cases in Hrun as [(e & Hb & ->)|(entry & c1 & Hb & Hrun)];
    apply begin_mutation_inv in Hb as ((_ & Hk1 & Hs1 & _) & _ & _); try done.
  unfold finish_mutation in Hrun.
  apply stateful_bind_cases in Hrun as [(e & Hfiles%on_files_inv & ->)|(effect & c2 & Hfiles%on_files_inv & Hrun)];
    destruct Hfiles as (r0 & Hr0 & _ & _ & Hk2 & Hs2); [done|]. destruct effect as [outcome|failure].
  - apply stateful_bind_cases in Hrun as [(e & [Hquiet Hc]%commit_applied_inv & ->)
      |([applied status] & c3 & [Hquiet Hc]%commit_applied_inv & Hrun)]; destruct Hquiet as (_ & Hk3 & Hs3 & _).
    + by rewrite Hs3, Hs2.
    + apply publish_mutation_inv in Hrun as (_ & Hsame & Hr).
      destruct r as [applied'|e]; [|destruct Hr as (_ & _ & ->); by rewrite Hs3, Hs2]. destruct Hr as [-> Hr].
      destruct Hc as [(_ & _ & status' & -> & Hreports)|(_ & _ & -> & Hfolder & _)]; [left|right].
      * destruct Hr as [(tracks & Htracks & Hpub) Hseen]. exists status'. split_and!.
        -- destruct Hreports as (row & Hrow & ?), Hsame as (_ & Hst & _). exists row. by rewrite <- Hst.
        -- exists tracks. split; [done|]. by rewrite Hk3, Hk2, Hk1 in Hpub.
        -- by rewrite Hseen, Hs3, Hs2, Hs1.
      * destruct Hr as [Hk Hs]. split; [done|]. by rewrite Hs, Hs3, Hs2, Hk, Hk3, Hk2.
  - apply stateful_bind_cases in Hrun as [(e & Hrec & ->)|(u & c3 & Hrec & [= <- <-])].
    all: destruct (requires_recovery failure); [try done; injection Hrec as _ <-; congruence|].
    all: apply stateful_bind_cases in Hrec as [(e' & ((_ & _ & Hs & _) & _)%transition_inv & ?)
      |(? & c4 & ((_ & _ & Hs & _) & _)%transition_inv & [= <-])]; try done; simplify_eq; congruence.
Qed.

(* ------------------------------------------------------------------ *)
(** ** The start *)

(** A journal of the library that is not finished. *)
Definition open_journal (db : SqliteLibrary) (key : string) : Prop :=
  exists row, db_journal db !! key = Some row /\ journal_unfinished Domain_Library row = true.

Definition closes (before after : SqliteLibrary) : Prop :=
  forall key, open_journal after key -> open_journal before key.

#[local] Instance closes_preorder : PreOrder closes.
Proof. unfold closes. split; [intros ?|intros ? ? ?]; auto. Qed.

Lemma closes_same a b : db_journal b = db_journal a -> closes a b.
Proof. unfold closes, open_journal. by intros ->. Qed.

Lemma closes_update a b key old new :
  db_journal a !! key = Some old -> db_journal b = <[key := new]> (db_journal a) ->
  journal_row_domain new = journal_row_domain old ->
  existsb (String.eqb (journal_row_state old)) ["committed"; "rolled_back"; "failed"] = false ->
  closes a b.
Proof.
  intros Hold Hb Hdomain Hstate key' (row & Hrow & Hopen). rewrite Hb in Hrow.
  destruct (decide (key = key')) as [<-|Hne].
  - rewrite lookup_insert_eq in Hrow. injection Hrow as <-. exists old. split; [done|].
    unfold journal_unfinished in *. rewrite Hdomain in Hopen. rewrite Hstate.
    apply andb_true_iff in Hopen as [-> _]. done.
  - rewrite lookup_insert_ne in Hrow by done. by exists row.
Qed.

Lemma transition_closes id expected next progress :
  expected = Planned \/ expected = Applying ->
  op_within closes (transition_recovery_journal (store := SqliteLibrary) id expected next progress).
Proof.
  intros Hexpected db r db' (_ & _ & Hj)%transition_row.
  assert (db_journal db' = db_journal db \/ exists old new, db_journal db !! journal_id_text id = Some old /\
    journal_row_state old = RecoveryState_as_str expected /\ journal_row_domain new = journal_row_domain old /\
    db_journal db' = <[journal_id_text id := new]> (db_journal db)) as [?|(old & new & Hold & Hstate & Hd & Hj')].
  { destruct r as [[|]|]; [right|by left|destruct Hj as [?|Hj]; [by left|right]]; naive_solver. }
  - by apply closes_same.
  - eapply closes_update; [done..|]. rewrite Hstate. by destruct Hexpected as [->| ->].
Qed.

Lemma commits_closes id mutation outcome before after :
  commits id mutation outcome before after -> closes before after.
Proof.
  intros [(at_ & affected & effect & _ & _ & (old & new & Hold & His & (text & now & _ & ->) & Hj) & _) _ _].
  eapply closes_update; [done|done|done|]. unfold journal_is in His.
  apply andb_true_iff in His as [_ Hstate%String.eqb_eq]. by rewrite Hstate.
Qed.

Lemma commit_outcome_closes {A} id mutation outcome (answer : A -> _ -> Prop) db r db' :
  commit_outcome id mutation outcome answer db r db' -> closes db db'.
Proof. intros [[Hc _]|[Hsame _]]; [by eapply commits_closes|]. apply closes_same. by destruct Hsame as (_ & _ & ->). Qed.

Lemma finished_not_open id state db :
  row_state_is state id db -> is_terminal state = true -> ~ open_journal db (journal_id_text id).
Proof.
  intros (row & Hrow & Hstate) Hterminal (row' & Hrow' & Hopen). assert (row' = row) as -> by congruence.
  unfold journal_unfinished in Hopen. rewrite Hstate in Hopen. apply andb_true_iff in Hopen as [_ Hopen].
  by destruct state.
Qed.

Lemma closes_same_data a b : same_data a b -> closes a b.
Proof. intros (_ & _ & Hj). by apply closes_same. Qed.

#[local] Instance sqlite_index_closes : IndexWithin closes.
Proof.
  split; try apply _.
  - intros db r db' [Hsame _]%read_library_status_inv. by apply closes_same_data.
  - intros id db r db' [Hsame _]%read_tables_inv. by apply closes_same_data.
  - intros db r db' [Hsame _]%read_tables_inv. by apply closes_same_data.
  - intros db r db' [[_ Hj] _]%begin_inv. by apply closes_same.
  - intros generation tracks db r db' Hrun%reconciliation_outcome.
    assert (same_data db db' \/ installs generation tracks db db') as [Hsame|Hi].
    { destruct r as [[status summary ids|current]|e]; [right|left|]; by try apply Hrun. }
    + by apply closes_same_data.
    + apply closes_same. by destruct Hi as (? & ? & ? & _ & _ & -> & _).
  - intros generation code db r db' [[_ Hj] _]%fail_inv. by apply closes_same.
  - intros journal a b db r db' Hrun. by eapply commit_outcome_closes, (folder_rename_outcome _ _ _ false), Hrun.
  - intros journal path db r db' Hrun. by eapply commit_outcome_closes, (folder_delete_outcome _ _ false), Hrun.
  - intros journal id path track db r db' Hrun. by eapply commit_outcome_closes, move_outcome, Hrun.
  - intros journal id path db r db' Hrun. by eapply commit_outcome_closes, track_delete_outcome, Hrun.
  - intros journal id path patch track original db r db' Hrun. by eapply commit_outcome_closes, metadata_outcome, Hrun.
  - intros journal id a b track original db r db' Hrun. by eapply commit_outcome_closes, conversion_outcome, Hrun.
  - intros journal id path track db r db' Hrun. by eapply commit_outcome_closes, restore_outcome, Hrun.
  - intros journal a b replace track db r db' Hrun. by eapply commit_outcome_closes, upload_outcome, Hrun.
  - intros domain db r db' [Hsame _]%unfinished_row. by apply closes_same_data.
Qed.

Abbreviation within R m := (within (files := files) (sink := sink) R m) (only parsing).

Lemma within_closes_transition operation id expected next progress :
  expected = Planned \/ expected = Applying -> within closes (transition operation id expected next progress).
Proof. intros Hexpected. apply (within_move_journal closes). by apply transition_closes. Qed.

Lemma within_closes_commit journal mutation outcome :
  within closes (commit_applied_library_mutation journal mutation outcome).
Proof. apply (within_commit closes). intros progress. apply transition_closes. by right. Qed.

Lemma within_recover_entry entry : within closes (recover_entry entry).
Proof.
  unfold recover_entry. pose proof within_closes_transition. pose proof within_closes_commit. go_within.
Qed.

Lemma within_recover_entries entries : within closes (recover_entries entries).
Proof. pose proof within_recover_entry. induction entries; cbn [recover_entries]; go_within. Qed.

Lemma recover_entry_ok entry : within keeps_ok (recover_entry entry).
Proof. unfold recover_entry. go_within. Qed.

(** One entry that was recovered is not open any more. *)
Lemma recover_entry_finishes entry (c : coord) c' :
  library_ok (repository c) -> recover_entry entry c = (Ok (), c') ->
  ~ open_journal (repository c') (journal_id_text (entry_id entry)).
Proof.
  intros Hok Hrun. unfold recover_entry in Hrun.
  apply stateful_bind_ok in Hrun as (mutation & c1 & [= _ <-] & Hrun).
  apply stateful_bind_ok in Hrun as (applying & c2 & Hresume & Hrun).
  assert (entry_id applying = entry_id entry) as Hid.
  { destruct (entry_state entry); try done; [|by injection Hresume as <-].
    assert (library_ok (repository c2)) as [_ Hkeyed] by (eapply (within_move_journal keeps_ok) in Hresume; [by apply Hresume|apply transition_ok]).
    apply transition_inv in Hresume as (_ & _ & _ & _ & Hid). auto. }
  apply stateful_bind_ok in Hrun as (effect & c3 & Hfiles%on_files_inv & Hrun). rewrite Hid in Hrun.
  destruct effect as [outcome|failure].
  - apply stateful_bind_ok in Hrun as ([applied status] & c4 & [_ Hc]%commit_applied_inv & [= <-]).
    apply (finished_not_open _ Committed); [|done].
    destruct Hc as [[Hc _]|(_ & _ & _ & _ & Hrow)]; [by eapply commits_committed|done].
  - destruct (requires_recovery failure); [done|].
    apply stateful_bind_ok in Hrun as (failed & c4 & Htr%transition_inv & [= <-]).
    apply (finished_not_open _ State_Failed); [apply Htr|done].
Qed.

Lemma recover_entries_finish entries (c : coord) c' :
  library_ok (repository c) -> recover_entries entries c = (Ok (), c') ->
  forall entry, entry ∈ entries -> ~ open_journal (repository c') (journal_id_text (entry_id entry)).
Proof.
  revert c. induction entries as [|entry entries IH]; intros c Hok Hrun entry' Hin; [set_solver|].
  cbn [recover_entries] in Hrun. apply stateful_bind_ok in Hrun as ([] & c1 & Hone & Hrun).
  apply elem_of_cons in Hin as [->|Hin].
  - intros Hopen. eapply recover_entry_finishes; [exact Hok|exact Hone|].
    by apply (within_recover_entries _ _ _ _ Hrun).
  - eapply IH; [|done|done]. by apply (recover_entry_ok _ _ _ _ Hone).
Qed.

Lemma recovered_nothing_open (c : coord) c' :
  library_ok (repository c) -> recover_library_mutations c = (Ok (), c') ->
  forall key, ~ open_journal (repository c') key.
Proof.
  intros Hok Hrun key Hopen. unfold recover_library_mutations in Hrun.
  apply stateful_bind_ok in Hrun as (entries & c1 & (r0 & [Hsame Hall]%unfinished_row & Hr & _)%on_store_inv & Hrun).
  destruct r0 as [entries'|]; [|done]. injection Hr as ->.
  assert (library_ok (repository c1)) as Hok1 by by eapply same_ok.
  assert (open_journal (repository c1) key) as (row & Hrow & Hunfinished)
    by by apply (within_recover_entries _ _ _ _ Hrun).
  destruct (Hall key row) as (entry & Hin & Hentry); [by destruct Hsame as (_ & _ & ->)|done|].
  eapply (recover_entries_finish entries' c1); [done|exact Hrun|exact Hin|].
  apply entry_from_row_ok in Hentry as (Hid%journal_id_parse_ok & _). rewrite Hid.
  by rewrite (proj2 Hok1 _ _ Hrow).
Qed.

(** Nothing is shown to others. *)
Definition unseen {A} (m : command A) : Prop :=
  forall c r c', m c = (r, c') -> seen c' = seen c /\ catalog_sink c' = catalog_sink c.

Lemma unseen_bind {A B} (m : command A) (f : A -> command B) :
  unseen m -> (forall x, unseen (f x)) -> unseen (mbind f m).
Proof.
  intros Hm Hf c r c' [(e & Hrun%Hm & _)|(x & c1 & Hrun%Hm & Hrest%Hf)]%stateful_bind_cases; [done|].
  destruct Hrun, Hrest. split; congruence.
Qed.
Lemma unseen_quiet {A} (m : command A) : (forall c r c', m c = (r, c') -> quiet c c') -> unseen m.
Proof. intros Hm c r c' (_ & ? & ? & _)%Hm. done. Qed.

Lemma unseen_store {E A} operation (op : stateful SqliteLibrary E A) : unseen (on_store operation op).
Proof. apply unseen_quiet. by intros c r c' (r0 & _ & _ & ?)%on_store_inv. Qed.
Lemma unseen_files {E A} (op : stateful files E A) : unseen (on_files op).
Proof. by intros c r c' (r0 & _ & _ & _ & ? & ?)%on_files_inv. Qed.
Lemma unseen_transition operation id expected next progress : unseen (transition operation id expected next progress).
Proof. apply unseen_quiet. by intros c r c' [? _]%transition_inv. Qed.
Lemma unseen_commit id mutation outcome : unseen (commit_applied_library_mutation id mutation outcome).
Proof. apply unseen_quiet. by intros c r c' [? _]%commit_applied_inv. Qed.
Lemma unseen_ret {A} (x : A) : unseen (mret x).
Proof. by intros c r c' [= _ <-]. Qed.
Lemma unseen_result {A} (r : result LibraryCoordinatorError A) : unseen (fun c => (r, c)).
Proof. by intros c r' c' [= _ <-]. Qed.

Lemma unseen_recover : unseen recover_library_mutations.
Proof.
  apply unseen_bind; [apply unseen_store|]. intros entries.
  induction entries as [|entry entries IH]; cbn [recover_entries]; [apply unseen_ret|].
  apply unseen_bind; [|done]. unfold recover_entry.
  apply unseen_bind; [apply unseen_result|intros mutation].
  apply unseen_bind; [destruct (entry_state entry); first [apply unseen_transition|apply unseen_result]|intros applying].
  apply unseen_bind; [apply unseen_files|intros [outcome|failure]].
  - apply unseen_bind; [apply unseen_commit|intros ?; apply unseen_ret].
  - destruct (requires_recovery failure); [apply unseen_result|].
    apply unseen_bind; [apply unseen_transition|intros ?; apply unseen_ret].
Qed.

Lemma recover_ok : within keeps_ok recover_library_mutations.
Proof. apply (within_recover keeps_ok). Qed.

Lemma status_of_generation row status :
  status_of row = Ok status -> state_generation row = Z.of_N (status_generation status).
Proof.
  unfold status_of. intros Hread. apply bind_ok in Hread as (s & _ & Hread).
  apply bind_ok in Hread as (g & Hg%map_err_ok & Hread). apply bind_ok in Hread as (d & _ & [= <-]). cbn.
  unfold LibraryGeneration_try_from in Hg. destruct (u64_try_from_i64 (state_generation row)) eqn:Hn; [|done].
  injection Hg as <-. by apply u64_try_from_inv.
Qed.

(** The status after the start of a coordinator is not that of a running scan. *)
Lemma settled_status (c : coord) status c' :
  (status ← on_store "load durable library status" repository_status;
   if is_reconciling status
   then on_store "recover an interrupted reconciliation"
          (fail_reconciliation (status_generation status) "scan_interrupted")
   else mret status) c = (Ok status, c') ->
  quiet c c' /\ db_journal (repository c') = db_journal (repository c) /\
  forall row, db_state (repository c') = Some row -> state_status row <> "reconciling".
Proof.
  intros Hrun.
  apply stateful_bind_ok in Hrun as (read & c1 & (r0 & [Hsame Hread]%read_library_status_inv & Hr & Hquiet)%on_store_inv & Hrun).
  destruct r0 as [read'|]; [|done]. injection Hr as ->. destruct Hread as (row & Hrow & Hread).
  destruct Hsame as (_ & Hs & Hj).
  destruct (is_reconciling read') eqn:His.
  - apply on_store_inv in Hrun as (r1 & [[_ Hj'] Hfail]%fail_inv & Hr & Hquiet').
    destruct r1 as [status'|]; [|done]. split; [by eapply quiet_trans|]. split; [congruence|].
    destruct Hfail as [Hmarked _]. rewrite <- Hs, Hrow in Hmarked.
    apply status_of_generation in Hread as Hgeneration.
    intros row' Hrow'. rewrite Hmarked in Hrow'. injection Hrow' as <-. unfold scans_at.
    rewrite Hgeneration, Z.eqb_refl. cbn. by destruct (String.eqb_spec (state_status row) "reconciling").
  - injection Hrun as <- <-. split; [done|]. split; [done|]. rewrite <- Hs, Hrow. intros row' [= <-] Hst.
    unfold status_of in Hread. rewrite Hst in Hread. cbn in Hread.
    apply bind_ok in Hread as (g & _ & Hread). apply bind_ok in Hread as (d & _ & [= <-]). done.
Qed.

(** C7: a coordinator that starts left no journal of the library open: each
    interrupted mutation was carried out and committed, or failed. No scan is
    marked as running, and what others see first is the stored catalog and then
    the stored status. *)
Theorem start_finishes_what_was_interrupted (c : coord) status c' :
  library_ok (repository c) -> start_library_coordinator c = (Ok (Some status), c') ->
  (forall key, ~ open_journal (repository c') key) /\
  status_status status <> Reconciling /\ reports status (repository c') /\
  catalog_handed (status_generation status) c c' /\
  seen c' = seen c ++ [Catalog_published (status_generation status); Status_published status].
Proof.
  intros Hok Hrun. unfold start_library_coordinator in Hrun.
  apply stateful_bind_ok in Hrun as ([] & c1 & Hrecover & Hrun).
  pose proof (recovered_nothing_open _ _ Hok Hrecover) as Hclosed.
  apply unseen_recover in Hrecover as [Hseen Hsink].
  apply stateful_bind_ok in Hrun as (read & c2 & Hread & Hrun).
  apply stateful_bind_ok in Hrun as (fixed & c3 & Hfix & Hrun).
  assert (quiet c1 c3 /\ db_journal (repository c3) = db_journal (repository c1) /\
    forall row, db_state (repository c3) = Some row -> state_status row <> "reconciling") as (Hq3 & Hj3 & Hst3).
  { eapply settled_status. apply stateful_bind_ok. by eexists _, _. }
  apply stateful_bind_ok in Hrun as (cleanups & c4 & (r4 & [Hsame4 _]%unfinished_row & _ & Hq4)%on_store_inv & Hrun).
  destruct cleanups; [|done].
  apply stateful_bind_ok in Hrun as (status' & c5 & (r5 & [Hsame5 Hread5]%read_library_status_inv & Hr5 & Hq5)%on_store_inv & Hrun).
  apply stateful_bind_ok in Hrun as (tracks & c6 & (r6 & [Hsame6 Hread6]%read_tables_inv & Hr6 & Hq6)%on_store_inv & Hrun).
  destruct r5 as [s5|], r6 as [t6|]; try done. injection Hr5 as ->. injection Hr6 as ->.
  apply stateful_bind_ok in Hrun as ([] & c7 & Hpub & Hrun). cbn in Hrun. injection Hrun as <- <-. cbn.
  unfold publish_to_sink in Hpub.
  destruct (sink_publish _ _ _) as [[[]|] sink'] eqn:Hpublished; [|done]. injection Hpub as <-. cbn.
  destruct Hread5 as (row & Hrow & Hstatus), Hsame4 as (Ht4 & Hs4 & Hj4), Hsame5 as (Ht5 & Hs5 & Hj5), Hsame6 as (Ht6 & Hs6 & Hj6).
  destruct Hq3 as (_ & Hk3 & Hn3 & _), Hq4 as (_ & Hk4 & Hn4 & _), Hq5 as (_ & Hk5 & Hn5 & _), Hq6 as (_ & Hk6 & Hn6 & _).
  split_and!.
  - intros key (row' & Hrow' & Hopen). apply (Hclosed key). exists row'. split; [congruence|done].
  - intros Hrec. apply (Hst3 row); [congruence|]. unfold status_of in Hstatus.
    repeat case_match; try done; cbn in Hstatus; try by apply String.eqb_eq.
    all: apply bind_ok in Hstatus as (g & _ & Hstatus); apply bind_ok in Hstatus as (d & _ & [= <-]); done.
  - exists row. split; [congruence|done].
  - exists t6. cbn. split; [by rewrite <- Ht6|]. rewrite <- Hpublished. congruence.
  - rewrite <- app_assoc. cbn. congruence.
Qed.

(* ------------------------------------------------------------------ *)
(** ** Batches *)

(** The requests of a batch that were carried out, one after the other. *)
Inductive carries_out {R A} (once : R -> command A) : list R -> coord -> list (result LibraryCoordinatorError A) -> coord -> Prop :=
| Carried_none c : carries_out once [] c [] c
| Carried_one request requests c r c1 answers c2 :
    once request c = (r, c1) -> carries_out once requests c1 answers c2 ->
    carries_out once (request :: requests) c (r :: answers) c2.

Lemma refused_zip {R K B} (key : R -> K) (refused : B) requests :
  map (fun request => (key request, refused)) requests = zip (key <$> requests) (const refused <$> requests).
Proof. induction requests as [|request requests IH]; [done|]. cbn. by rewrite IH. Qed.

(** A batch never fails as a whole, whatever its requests do: it answers every
    request under its key, in the order they came. It carries them out one
    after the other up to the first answer that asks for recovery, and refuses
    the rest without touching anything. *)
Theorem batch_answers_every_request {R K A} (key : R -> K) (once : R -> command A) requests (c : coord) :
  exists done refused answers c',
    requests = done ++ refused /\ carries_out once done c answers c' /\
    batch_loop key once requests c =
      (Ok (zip (key <$> requests) (answers ++ (const (Err RecoveryConflict) <$> refused))), c') /\
    Forall (fun r => stops_batch r = false) (removelast answers) /\
    (refused <> [] -> exists e, last answers = Some (Err e) /\ mutation_error_requires_recovery e = true).
Proof.
  revert c. induction requests as [|request requests IH]; intros c.
  - exists [], [], [], c. by split_and!; try constructor.
  - cbn [batch_loop]. unfold mbind, stateful_bind, attempt. destruct (once request c) as [r c1] eqn:Hone.
    destruct (stops_batch r) eqn:Hstop.
    + exists [request], requests, [r], c1. split_and!; [done| | |constructor|].
      * by repeat econstructor.
      * cbn. by rewrite refused_zip.
      * intros _. destruct r as [|e]; [done|]. by exists e.
    + destruct (IH c1) as (done & refused & answers & c' & -> & Hcarried & Hrun & Hgo & Hlast).
      exists (request :: done), refused, (r :: answers), c'. split_and!; [done|by econstructor| | |].
      * rewrite Hrun. done.
      * destruct answers; [constructor|]. by constructor.
      * intros Hrefused. destruct (Hlast Hrefused) as (e & He & ?). exists e.
        destruct answers; [done|]. done.
Qed.

(* ------------------------------------------------------------------ *)
(** ** Scans *)

(** What a track keeps over a scan. *)
Definition same_track (row row' : TrackRow) : Prop :=
  tracks_id row' = tracks_id row /\ tracks_path row' = tracks_path row /\
  tracks_display_title row' = tracks_display_title row /\ tracks_origin row' = tracks_origin row /\
  tracks_added_at row' = tracks_added_at row.

Lemma rescan_same discovered row : same_track row (rescan discovered row).
Proof.
  unfold same_track. rewrite rescan_path. unfold rescan.
  destruct (List.find _ discovered) as [d|]; [|done]. by destruct (scan_differs row d).
Qed.

Lemma fresh_rows_ids at_ next ds : Forall (fun row => next <= tracks_id row) (fresh_rows at_ next ds).
Proof.
  revert next. induction ds as [|d ds IH]; intros next; constructor; [done|].
  eapply Forall_impl; [apply IH|]. intros row Hrow. cbv beta in *. lia.
Qed.

(** What the columns of a row say of a file, written down apart from the scan:
    the texts, the numbers, the size and time of the file, and its length. *)
Definition texts_of_row (row : TrackRow) : list string :=
  [tracks_title row; tracks_artist row; tracks_album_artist row; tracks_album row; tracks_release_date row;
   tracks_original_release_date row; tracks_composer row; tracks_genre row].
Definition texts_of_file (file : DiscoveredTrack) : list string :=
  let m := discovered_metadata file in
  [metadata_title m; metadata_artist m; metadata_album_artist m; metadata_album m; metadata_release_date m;
   metadata_original_release_date m; metadata_composer m; metadata_genre m].
Definition numbers_of_row (row : TrackRow) : list (option Z) :=
  [tracks_track_no row; tracks_disc_no row; tracks_year row; tracks_bpm row;
   Some (tracks_size_bytes row); Some (tracks_mtime row)].
Definition numbers_of_file (file : DiscoveredTrack) : list (option Z) :=
  let m := discovered_metadata file in
  [Z.of_N <$> metadata_track_no m; Z.of_N <$> metadata_disc_no m; Z.of_N <$> metadata_year m;
   Z.of_N <$> metadata_bpm m; Some (Z.of_N (discovered_size_bytes file));
   Some (discovered_mtime_unix_seconds file)].
Definition length_of_file (file : DiscoveredTrack) : f64 := as_secs_f64 (discovered_duration file).
Definition shows (file : DiscoveredTrack) (row : TrackRow) : bool :=
  bool_decide (texts_of_row row = texts_of_file file) &&
  bool_decide (numbers_of_row row = numbers_of_file file) &&
  f64_eqb (tracks_length_s row) (length_of_file file).

(** A row that describes a file: its length is the file's, as written or as
    floats compare. *)
Definition describes (row : TrackRow) (file : DiscoveredTrack) : Prop :=
  tracks_path row = scan_path file /\ texts_of_row row = texts_of_file file /\
  numbers_of_row row = numbers_of_file file /\
  (tracks_length_s row = length_of_file file \/ f64_eqb (tracks_length_s row) (length_of_file file) = true).

Lemma scan_differs_shows row file : scan_differs row file = negb (shows file row).
Proof.
  unfold scan_differs, shows. f_equal. apply eq_true_iff_eq.
  rewrite !andb_true_iff, !bool_decide_eq_true, !Z.eqb_eq, !String.eqb_eq.
  cbn [set_discovered tracks_title tracks_artist tracks_album_artist tracks_album tracks_track_no
    tracks_disc_no tracks_year tracks_release_date tracks_original_release_date tracks_composer
    tracks_genre tracks_length_s tracks_bpm tracks_size_bytes tracks_mtime].
  unfold texts_of_row, texts_of_file, numbers_of_row, numbers_of_file, length_of_file.
  split; [intros; destruct_and!; split_and!; congruence|].
  intros [[Ht Hn] ?]. injection Ht as. injection Hn as. by split_and!.
Qed.

Lemma set_discovered_describes file row : describes (set_discovered file row) file.
Proof. split_and!; [done..|by left]. Qed.

Lemma rescan_describes discovered row file :
  NoDup (scan_path <$> discovered) -> file ∈ discovered -> tracks_path row = scan_path file ->
  describes (rescan discovered row) file /\ (shows file row = true -> rescan discovered row = row).
Proof.
  intros Hnd Hin Hpath. unfold rescan.
  destruct (List.find _ discovered) as [found|] eqn:Hfind.
  - apply List.find_some in Hfind as [Hfound Hp%String.eqb_eq]. apply list_elem_of_In in Hfound.
    assert (found = file) as ->.
    { apply list_elem_of_lookup in Hin as [i Hi], Hfound as [j Hj].
      assert (i = j) as ->; [|congruence].
      apply (NoDup_lookup _ i j (scan_path file) Hnd); rewrite list_lookup_fmap; [by rewrite Hi|rewrite Hj; cbn; congruence]. }
    rewrite scan_differs_shows. destruct (shows file row) eqn:Hshows; cbn [negb].
    + split; [|done]. unfold shows in Hshows. apply andb_true_iff in Hshows as [[Ht Hn]%andb_true_iff Hl].
      apply bool_decide_eq_true in Ht, Hn. split_and!; [done..|by right].
    + split; [apply set_discovered_describes|done].
  - exfalso. eapply List.find_none in Hfind; [|by apply list_elem_of_In]. cbv beta in Hfind.
    apply String.eqb_neq in Hfind. done.
Qed.

Lemma fresh_rows_describe at_ next ds file :
  file ∈ ds -> exists row, row ∈ fresh_rows at_ next ds /\ describes row file /\
    tracks_display_title row = "" /\ tracks_origin row = "" /\ tracks_added_at row = Some at_.
Proof.
  revert next. induction ds as [|d ds IH]; intros next; [by intros ?%elem_of_nil|].
  intros [->|Hin]%elem_of_cons.
  - exists (inserted_row next at_ d). split; [left|]. split; [apply set_discovered_describes|done].
  - destruct (IH (next + 1) Hin) as (row & Hrow & ?). exists row. split; [by right|done].
Qed.

(** What a scan that found some files leaves of the old tracks. *)
Definition rows_installed (discovered : list DiscoveredTrack) (old new : list TrackRow) : Prop :=
  paths new ≡ₚ (scan_path <$> discovered) /\
  (forall file, file ∈ discovered -> exists row, row ∈ new /\ describes row file) /\
  (forall row file, row ∈ old -> file ∈ discovered -> tracks_path row = scan_path file ->
     exists row', row' ∈ new /\ same_track row row' /\ (shows file row = true -> row' = row)) /\
  (exists at_, forall file, file ∈ discovered -> scan_path file ∉ paths old ->
     exists row, row ∈ new /\ tracks_path row = scan_path file /\
       tracks_display_title row = "" /\ tracks_origin row = "" /\ tracks_added_at row = Some at_ /\
       Forall (fun o => tracks_id o < tracks_id row) old).

Lemma installed_tracks at_ tracks discovered :
  NoDup (paths tracks) -> NoDup (scan_path <$> discovered) ->
  rows_installed discovered tracks (installed_rows at_ tracks discovered).
Proof.
  intros Htracks Hnd.
  assert (forall row file, row ∈ tracks -> file ∈ discovered -> tracks_path row = scan_path file ->
    rescan discovered row ∈ installed_rows at_ tracks discovered) as Hkept.
  { intros row file Hrow Hin Hpath. apply elem_of_app. left. apply (list_elem_of_fmap_2 (rescan discovered)).
    apply elem_of_retain. split; [done|]. apply is_staged_spec. rewrite Hpath. by apply list_elem_of_fmap_2. }
  assert (forall file, file ∈ discovered -> scan_path file ∉ paths tracks ->
    file ∈ List.filter (unknown tracks) discovered) as Hnew.
  { intros file Hin Hout. apply elem_of_retain. split; [done|]. unfold unknown.
    apply negb_true_iff, not_true_iff_false. by rewrite path_is_spec. }
  assert (forall file, file ∈ discovered -> scan_path file ∉ paths tracks ->
    exists row, row ∈ installed_rows at_ tracks discovered /\ describes row file /\
      tracks_display_title row = "" /\ tracks_origin row = "" /\ tracks_added_at row = Some at_ /\
      Forall (fun o => tracks_id o < tracks_id row) tracks) as Hfresh.
  { intros file Hin Hout.
    destruct (fresh_rows_describe at_ (next_track_id tracks) _ file (Hnew file Hin Hout)) as (row & Hrow & ? & ? & ? & ?).
    exists row. split; [apply elem_of_app; by right|]. split_and!; [done..|].
    pose proof (fresh_rows_ids at_ (next_track_id tracks) (List.filter (unknown tracks) discovered)) as Hids.
    rewrite Forall_forall in Hids. apply Hids in Hrow.
    eapply Forall_impl; [apply next_track_id_spec|]. intros old Hold. cbv beta in *. lia. }
  split_and!; [by apply installed_paths|..].
  - intros file Hin. destruct (decide (scan_path file ∈ paths tracks)) as [(row & Hpath & Hrow)%list_elem_of_fmap|Hout].
    + exists (rescan discovered row). split; [by eapply Hkept|]. by apply rescan_describes.
    + destruct (Hfresh file Hin Hout) as (row & ? & ? & _). by exists row.
  - intros row file Hrow Hin Hpath. exists (rescan discovered row). split; [by eapply Hkept|].
    split; [apply rescan_same|]. by apply rescan_describes.
  - exists at_. intros file Hin Hout. destruct (Hfresh file Hin Hout) as (row & ? & [? _] & ? & ? & ? & ?).
    exists row. by split_and!.
Qed.

(** The files whose old track did not show them. *)
Definition outdated (old : list TrackRow) (discovered : list DiscoveredTrack) : list DiscoveredTrack :=
  List.filter (fun file => is_some_and (fun row => negb (shows file row))
                             (List.find (path_is (scan_path file)) old)) discovered.

Lemma outdated_eq old discovered :
  List.filter (fun file => is_some_and (fun row => scan_differs row file) (track_of old file)) discovered =
  outdated old discovered.
Proof.
  unfold outdated, track_of. apply List.filter_ext. intros file. fold (scan_path file).
  destruct (List.find _ old) as [row|]; [apply scan_differs_shows|done].
Qed.

(** C8: a scan that is answered made the index what the files are: a track for each
    file, once, whose texts, numbers, size, time and length are the ones read from
    it. A track whose file is still there keeps its id, its display title, its
    origin and the time it was added, and is the same row when it showed the
    file already; the track of a new file starts without display title and origin,
    under an id above all that were there. The counts are exact: the files that
    had no track are added, the files their track did not show are updated, and
    with these two every file and every old track is accounted for. The
    generation is the next one, and others see that the scan runs, then the new
    catalog, then the new status. *)
Theorem scan_is_installed (c : coord) summary c' :
  library_ok (repository c) -> reconcile_once c = (Ok summary, c') ->
  exists discovered started status,
    discover (files_of c) = (Ok discovered, files_of c') /\
    let old := tracks_table (db_tables (repository c)) in
    let new := tracks_table (db_tables (repository c')) in
    rows_installed discovered old new /\
    N.to_nat (summary_added summary) = length (List.filter (unknown old) discovered) /\
    N.to_nat (summary_updated summary) = length (outdated old discovered) /\
    N.to_nat (summary_added summary + summary_updated summary + summary_unchanged summary) = length discovered /\
    N.to_nat (summary_removed summary + summary_updated summary + summary_unchanged summary) = length old /\
    reports status (repository c') /\ status_generation status = (status_generation started + 1)%N /\
    catalog_handed (status_generation status) c c' /\
    seen c' = seen c ++ [Status_published started; Catalog_published (status_generation status);
                         Status_published status].
Proof.
  intros Hok Hrun. unfold reconcile_once in Hrun.
  apply stateful_bind_ok in Hrun as (started & c1 & (r1 & Hbegin & Hr1 & Hq1)%on_store_inv & Hrun).
  destruct r1 as [started'|]; [|done]. injection Hr1 as ->.
  pose proof (begin_ok _ _ _ Hbegin Hok) as [[Hwf _] _]. apply begin_inv in Hbegin as [[Ht1 _] _].
  apply stateful_bind_ok in Hrun as (u & c2 & [= _ <-] & Hrun).
  apply stateful_bind_ok in Hrun as (found & c3 & (r3 & [= <-] & Hfiles & Hrepo & Hk3 & Hs3)%on_files_inv & Hrun).
  destruct found as [discovered|failure].
  2:{ apply stateful_bind_ok in Hrun as (? & ? & _ & Hrun). apply stateful_bind_ok in Hrun as (? & ? & _ & [=]). }
  cbn [files_of repository catalog_sink seen] in *.
  apply stateful_bind_ok in Hrun as (committed & c4 & Hcommit & Hrun). unfold on_store_result in Hcommit.
  destruct (commit_reconciliation _ _ (repository c3)) as [r4 db4] eqn:Hrec. injection Hcommit as <- <-.
  apply reconciliation_outcome in Hrec. rewrite Hrepo in Hrec.
  destruct r4 as [[status summary' ids|current]|e].
  2:{ apply stateful_bind_ok in Hrun as (? & ? & _ & Hrun). apply stateful_bind_ok in Hrun as (? & ? & _ & [=]). }
  2:{ apply stateful_bind_ok in Hrun as (? & ? & _ & Hrun). apply stateful_bind_ok in Hrun as (? & ? & _ & [=]). }
  destruct Hrec as (Hinstalls & Hreports & Hsummary & _).
  apply stateful_bind_ok in Hrun as (tracks & c5 & (r5 & [Hsame5 Hread5]%read_tables_inv & Hr5 & Hq5)%on_store_inv & Hrun).
  destruct r5 as [tracks'|]; [|done]. injection Hr5 as ->.
  apply stateful_bind_ok in Hrun as ([] & c6 & Hpub & Hrun).
  apply stateful_bind_ok in Hrun as (u' & c7 & [= _ <-] & Hrun). injection Hrun as -> <-.
  unfold publish_to_sink in Hpub. destruct (sink_publish _ _ _) as [[[]|] sink'] eqn:Hpublished; [|done].
  injection Hpub as <-. cbn in *.
  destruct Hinstalls as (at_ & finished & row & Hnd & Ht4 & _ & Hrow & Hgen & _ & _ & Hs4).
  destruct Hsame5 as (Ht5 & Hs5 & _), Hq1 as (Hf1 & Hk1 & Hn1 & _), Hq5 as (Hf5 & Hk5 & Hn5 & _).
  rewrite Ht1 in Ht4, Hsummary. rewrite Ht1 in Hwf.
  exists discovered, started', status. rewrite Hf1 in Hfiles. split; [by rewrite Hf5|].
  rewrite <- Ht5, Ht4. cbn [tracks_table cascade].
  pose proof (installed_tracks at_ (tracks_table (db_tables (repository c))) discovered
    ltac:(apply Hwf) Hnd) as Hrows.
  destruct (scan_summary_counts (tracks_table (db_tables (repository c))) discovered) as (s' & Hs' & Ha & Hr & Hu & Hd & Ho);
    [apply Hwf|done|]. rewrite outdated_eq in Hu. rewrite Hsummary in Hs'. injection Hs' as <-.
  split_and!; try done.
  - destruct Hreports as (row' & Hrow' & Hstatus). exists row'. by rewrite <- Hs5.
  - destruct Hreports as (row' & Hrow' & Hstatus%status_of_generation). rewrite Hs4 in Hrow'. injection Hrow' as <-.
    cbn in Hstatus. lia.
  - exists tracks'. cbn. split; [rewrite <- Ht5; exact Hread5|]. rewrite <- Hpublished. cbn in Hk5. congruence.
  - rewrite Hn5. cbn. by rewrite Hs3, Hn1, <- !app_assoc.
Qed.
End Coordinator.
