(* ===== verification/LibraryScenario.v ===== *)
(** * A concrete library

    Files that can be moved, deleted and uploaded, a sink that takes every
    catalog, and an empty database: a scan, the mutations of the library, a
    crash between the files and the index with the start after it, and three
    runs in which the index or playback does not follow the files. *)

From S2P Require Import Prelude Text MediaPath PlaybackState Store JobStore Library.
From S2P Require Import RecoveryJournal.
From S2P Require Import JournalStore Catalog LibraryMutation LibraryCoordinator LibraryStore.
From S2P Require Import LibraryStoreSpec.
From S2P Require Import LibraryCoordinatorSpec JournalStore.

#[local] Open Scope string_scope.
#[local] Open Scope list_scope.

(* ------------------------------------------------------------------ *)
(** ** Files *)

(** The files by their paths, whether the next effect is cut off, and the title
    in each file. *)
Record ToyFiles : Type := mkToyFiles { toy_paths : list string; toy_crash : bool; toy_title : string -> string }.
Definition untitled (path : string) : string := "".

Definition toy_path (text : string) : LibraryPath := mkRootedMediaPath text.
Definition toy_track (title : string) (path : LibraryPath) : DiscoveredTrack :=
  mkDiscoveredTrack path (mkTrackMetadata title "" "" "" "" "" "" None None None "" None)
    (2 * nanos_per_second) 10 20.

Definition toy_failure (code : string) : LibraryMutationFailure :=
  LibraryMutationFailure_new Failure_Conflict code "".
Definition without (path : string) (paths : list string) : list string :=
  List.filter (fun other => negb (String.eqb path other)) paths.
Definition toy_below (folder : LibraryPath) (path : string) : bool :=
  starts_with (as_str folder +:+ "/") path.
Definition renamed (source destination : LibraryPath) (path : string) : string :=
  match strip_prefix (as_str source) path with Some suffix => as_str destination +:+ suffix | None => path end.

(** What a mutation makes of the files. *)
Definition toy_apply (mutation : LibraryFileMutation) (paths : list string)
    : option (LibraryFileMutationOutcome * list string) :=
  match mutation with
  | CreateFolder path => Some (Outcome_Folder path false, paths)
  | RenameFolder source destination =>
      Some (Outcome_Folder destination false,
            map (fun path => if toy_below source path then renamed source destination path else path) paths)
  | DeleteFolder path _ => Some (Outcome_Deleted, List.filter (fun p => negb (toy_below path p)) paths)
  | MoveTrack id source destination =>
      Some (TrackMoved id (toy_track "" destination), without (as_str source) paths ++ [as_str destination])
  | DeleteTrack id path => Some (TrackDeleted id, without (as_str path) paths)
  | PublishUpload staged destination _ =>
      Some (UploadPublished destination (Some (toy_track "" destination)), paths ++ [as_str destination])
  | _ => None
  end.

(** A recovered mutation finds its work done. *)
Definition toy_recovered (mutation : LibraryFileMutation) (paths : list string)
    : option (LibraryFileMutationOutcome * list string) :=
  match toy_apply mutation paths with Some (outcome, _) => Some (outcome, paths) | None => None end.

#[global] Instance toy_discovery : LibraryDiscovery ToyFiles := {|
  discover files := (Ok (map (fun path => toy_track (toy_title files path) (toy_path path)) (toy_paths files)), files) |}.

#[global] Instance toy_effects : LibraryMutationEffects ToyFiles := {|
  resolve_upload requested _ files :=
    if existsb (String.eqb (as_str requested)) (toy_paths files)
    then (Err (toy_failure "upload_conflict"), files) else (Ok (Resolution_Publish requested false), files);
  discard_upload _ files := (Ok (), files);
  effects_apply _ mutation recovering files :=
    match (if recovering then toy_recovered else toy_apply) mutation (toy_paths files) with
    | None => (Err (toy_failure "refused"), files)
    | Some (outcome, paths) =>
        if toy_crash files
        then (Err (LibraryMutationFailure_new Failure_Io "io" ""), mkToyFiles paths false (toy_title files))
        else (Ok outcome, mkToyFiles paths false (toy_title files))
    end |}.

(** The catalogs that were taken, the last one first. *)
#[global] Instance toy_sink : LibraryCatalogSink (list (N * list string)) := {|
  sink_publish generation tracks taken := (Ok (), (generation, map (fun track => library_track_path track) tracks) :: taken) |}.

#[global] Instance toy_journal_ids : LibraryJournalIds := {|
  library_journal_id n := mkRecoveryJournalId ("0000000000000000000000000000" +:+ Text.decimal (1000 + N.of_nat n)) |}.
#[global] Instance toy_clock : JournalClock := {| journal_timestamp := Z.of_nat |}.

Abbreviation toy := (LibraryCoordinator SqliteLibrary ToyFiles (list (N * list string))) (only parsing).

Definition toy_start (files : list string) : toy :=
  mkLibraryCoordinator (fresh_library 0 []) (mkToyFiles files false untitled) [] [] 0.
Definition started (c : toy) : toy := (start_library_coordinator c).2.
Definition after (commands : list LibraryCommand) (c : toy) : toy := (run commands c).2.
(** The next effect is cut off after the files changed. *)
Definition crashing (c : toy) : toy :=
  mkLibraryCoordinator (repository c) (mkToyFiles (toy_paths (files_of c)) true (toy_title (files_of c))) (catalog_sink c) (seen c)
    (journals_drawn c).

Definition index_paths (c : toy) : list string := tracks_path <$> tracks_table (db_tables (repository c)).
Definition journal_states (c : toy) : list string :=
  (fun row => journal_row_state row.2) <$> map_to_list (db_journal (repository c)).

(** Two albums whose names differ in the case of a letter. *)
Definition scanned : toy :=
  after [Command_Reconcile] (started (toy_start ["Jazz/One.mp3"; "Jazz/Two.mp3"; "jazz/Three.mp3"])).

Lemma scanned_index : index_paths scanned = ["Jazz/One.mp3"; "Jazz/Two.mp3"; "jazz/Three.mp3"].
Proof. by vm_compute. Qed.
Lemma answered {A S} (p : A * S) a : p.1 = a -> p = (a, p.2).
Proof. intros <-. apply surjective_pairing. Qed.

Definition track_one : TrackId := 1%positive.
Definition moving : LibraryCommand := Command_MoveTrack track_one (toy_path "Jazz/Uno.mp3").
Definition a_session : list LibraryCommand :=
  [moving; Command_MoveTracks [(2%positive, toy_path "Blues/Two.mp3"); (9%positive, toy_path "Nine.mp3")];
   Command_PublishUploads [mkStagedLibraryUpload (toy_path "tmp/a") (toy_path "Four.mp3")] Policy_Rename;
   Command_DeleteTracks [3%positive]; Command_Mutate (RenameFolder (toy_path "Blues") (toy_path "Soul"));
   Command_ConvertTrack track_one (toy_path "tmp/c"); Command_Reconcile].

(** A session with moves, an upload, a deletion, a rename, a refused conversion
    and a scan, some of its database calls failing. *)
Definition unreliable (c : toy) : toy :=
  let db := repository c in
  mkLibraryCoordinator
    (mkSqliteLibrary (db_tables db) (db_state db) (db_journal db) (db_clock db)
       (replicate 9 NoFault ++ [FailAfter "lost"; NoFault; FailBefore "busy"]))
    (files_of c) (catalog_sink c) (seen c) (journals_drawn c).

Lemma toy_start_ok files : library_ok (repository (toy_start files)).
Proof. apply fresh_library_ok. Qed.

Lemma scanned_ok : library_ok (repository scanned).
Proof.
  eapply run_keeps_ok; [|apply surjective_pairing].
  eapply start_keeps_ok; [apply toy_start_ok|apply surjective_pairing].
Qed.

Lemma coordinator_keeps_library_witness :
  index_paths (after a_session (unreliable scanned)) = ["Jazz/Uno.mp3"; "Jazz/Two.mp3"] /\
  library_ok (repository (after a_session (started (toy_start ["Jazz/One.mp3"])))).
Proof.
  split; [by vm_compute|].
  eapply (coordinator_keeps_library (toy_start ["Jazz/One.mp3"]));
    [apply toy_start_ok|apply surjective_pairing|apply surjective_pairing].
Defined.

(** The move of a track, from its journal to the answer. *)
Definition move_one : LibraryFileMutation := MoveTrack track_one (toy_path "Jazz/One.mp3") (toy_path "Jazz/Uno.mp3").
Definition moved : result LibraryCoordinatorError AppliedLibraryMutation * toy := apply_mutation move_one true scanned.

Lemma mutation_commits_what_the_files_did_witness :
  library_ok (repository scanned) /\ index_paths moved.2 = ["Jazz/Uno.mp3"; "Jazz/Two.mp3"; "jazz/Three.mp3"] /\
  journal_states moved.2 = ["committed"] /\
  mutation_done move_one (library_journal_id (journals_drawn scanned)) scanned moved.2 moved.1.
Proof.
  split; [exact scanned_ok|]. split; [by vm_compute|]. split; [by vm_compute|].
  apply (mutation_commits_what_the_files_did move_one true); [exact scanned_ok|exact (surjective_pairing moved)].
Defined.

Lemma catalog_is_seen_before_status_witness :
  exists applied, moved.1 = Ok applied /\
  ((exists status, reports status (repository moved.2) /\
      catalog_handed (status_generation status) scanned moved.2 /\
      seen moved.2 = seen scanned ++ [Catalog_published (status_generation status); Status_published status]) \/
   (exists path, move_one = CreateFolder path) /\ seen moved.2 = seen scanned /\
     catalog_sink moved.2 = catalog_sink scanned).
Proof.
  destruct moved.1 as [applied|e] eqn:Hmoved; [exists applied; split; [done|]|by vm_compute in Hmoved].
  apply (catalog_is_seen_before_status move_one scanned (Ok applied) moved.2); [exact scanned_ok|].
  rewrite <- Hmoved. exact (surjective_pairing moved).
Defined.

(** The files were moved when the coordinator died; the start commits the move. *)
Definition interrupted : toy := after [moving] (crashing scanned).

Lemma interrupted_ok : library_ok (repository interrupted).
Proof.
  exact (run_keeps_ok [moving] (crashing scanned) _ _ scanned_ok (surjective_pairing (run [moving] (crashing scanned)))).
Qed.

Definition restarted_status : LibraryStatus :=
  mkLibraryStatus 2 Reconciliation_Current None (Some 4%Z) None 3.

Lemma start_finishes_what_was_interrupted_witness :
  index_paths interrupted = ["Jazz/One.mp3"; "Jazz/Two.mp3"; "jazz/Three.mp3"] /\
  toy_paths (files_of interrupted) = ["Jazz/Two.mp3"; "jazz/Three.mp3"; "Jazz/Uno.mp3"] /\
  journal_states interrupted = ["applying"] /\
  index_paths (started interrupted) = ["Jazz/Uno.mp3"; "Jazz/Two.mp3"; "jazz/Three.mp3"] /\
  (forall key, ~ open_journal (repository (started interrupted)) key) /\
  status_status restarted_status <> Reconciling /\ reports restarted_status (repository (started interrupted)) /\
  catalog_handed (status_generation restarted_status) interrupted (started interrupted) /\
  seen (started interrupted) =
    seen interrupted ++ [Catalog_published (status_generation restarted_status); Status_published restarted_status].
Proof.
  do 4 (split; [by vm_compute|]).
  apply (start_finishes_what_was_interrupted interrupted); [exact interrupted_ok|].
  apply (answered (start_library_coordinator interrupted)). by vm_compute.
Defined.

(** The first scan again: one file is new, one is gone, and the title of one of
    the others was edited. *)
Definition edited (path : string) : string := if String.eqb path "Jazz/Two.mp3" then "Two" else "".
Definition changed_files : toy :=
  mkLibraryCoordinator (repository scanned)
    (mkToyFiles ["Jazz/Two.mp3"; "New.mp3"; "jazz/Three.mp3"] false edited)
    (catalog_sink scanned) (seen scanned) (journals_drawn scanned).
Definition rescanned : result LibraryCoordinatorError ReconciliationSummary * toy := reconcile_once changed_files.

Lemma scan_is_installed_witness :
  tracks_id <$> tracks_table (db_tables (repository rescanned.2)) = [2%Z; 3%Z; 4%Z] /\
  tracks_title <$> tracks_table (db_tables (repository rescanned.2)) = ["Two"; ""; ""] /\
  exists summary discovered, rescanned.1 = Ok summary /\ summary = mkReconciliationSummary 1 1 1 1 /\
    discover (files_of changed_files) = (Ok discovered, files_of rescanned.2) /\
    rows_installed discovered (tracks_table (db_tables (repository scanned)))
      (tracks_table (db_tables (repository rescanned.2))).
Proof.
  split; [by vm_compute|]. split; [by vm_compute|].
  destruct (scan_is_installed changed_files (mkReconciliationSummary 1 1 1 1) rescanned.2)
    as (discovered & started_ & status_ & Hfiles & Hrows & _); [exact scanned_ok| |].
  - apply (answered rescanned). by vm_compute.
  - exists (mkReconciliationSummary 1 1 1 1), discovered. split; [by vm_compute|]. by split_and!.
Defined.

(** A rename without a sibling that differs in case. *)
Definition one_album : toy := after [Command_Reconcile] (started (toy_start ["Jazz/One.mp3"; "Soul.mp3"])).
Definition rename_jazz : LibraryFileMutation := RenameFolder (toy_path "Jazz") (toy_path "Blues").
Definition applying_rename : SqliteLibrary :=
  repository (after [Command_Mutate rename_jazz] (crashing one_album)).
Abbreviation renamed_jazz := (commit_library_folder_rename (library_journal_id 0) (toy_path "Jazz")
  (toy_path "Blues") applying_rename) (only parsing).

Lemma folder_rename_moves_its_tracks_witness :
  exists commit db', renamed_jazz = (Ok commit, db') /\
    tracks_path <$> tracks_table (db_tables db') = ["Blues/One.mp3"; "Soul.mp3"] /\
    index_affected_tracks commit = 1%N.
Proof.
  assert (tracks_path <$> tracks_table (db_tables renamed_jazz.2) = ["Blues/One.mp3"; "Soul.mp3"]) as Hpaths
    by by vm_compute.
  destruct renamed_jazz as [[commit|e] db'] eqn:Hrun; [|by vm_compute in Hrun].
  exists commit, db'. split; [done|]. split; [exact Hpaths|].
  apply folder_rename_moves_its_tracks in Hrun as (_ & _ & Hcount & _).
  rewrite Hcount. by vm_compute.
Defined.

(** An edit of three fields, one of them cleared. *)
Definition title_edit : TrackMetadataPatch := (insert_text Field_Title (Some "Uno") patch_new).2.
Definition year_edit : TrackMetadataPatch := (insert_number Field_Year (Some 1999%N) title_edit).2.
Definition edit : TrackMetadataPatch := (insert_text Field_Genre None year_edit).2.
Definition edit_one : LibraryFileMutation := UpdateTrackMetadata track_one (toy_path "Jazz/One.mp3") edit.
Definition edit_entry : RecoveryJournalEntry :=
  mkRecoveryJournalEntry (library_journal_id 0) Domain_Library (mkRecoveryOperation "update_track_metadata") Applying
    (plan edit_one) (Json_Object []) 0 0 None.

Lemma edit_wf : mutation_wf edit_one.
Proof.
  split; [done|]. split; [done|].
  eapply (insert_text_wf _ _ year_edit); [|apply surjective_pairing].
  eapply (insert_number_wf _ _ title_edit); [|apply surjective_pairing].
  eapply (insert_text_wf _ _ patch_new); [apply patch_new_wf|apply surjective_pairing].
Qed.

Lemma mutation_survives_the_journal_witness :
  exists text, value_to_string (plan edit_one) = Ok text /\ from_journal edit_entry = Ok edit_one.
Proof.
  destruct (value_to_string (plan edit_one)) as [text|e] eqn:Htext; [|by vm_compute in Htext].
  exists text. split; [done|].
  apply (mutation_survives_the_journal edit_one (mkRecoveryOperation "update_track_metadata") text edit_entry);
    [exact edit_wf|done|done|done|by apply value_from_str_to_string].
Defined.

(* ------------------------------------------------------------------ *)
(** ** Where the index or playback does not follow the files *)

(** Deleting [Jazz] also takes the tracks of [jazz] out of the index. *)
Lemma folder_deletion_takes_another_folder :
  let deleted := after [Command_Mutate (DeleteFolder (toy_path "Jazz") true)] scanned in
  toy_paths (files_of deleted) = ["jazz/Three.mp3"] /\ index_paths deleted = [].
Proof. by vm_compute. Qed.

(** Renaming [Jazz] beside [jazz] moves the files and then fails for good: no
    start recovers the journal. *)
Lemma folder_rename_is_stuck :
  let stuck := after [Command_Mutate (RenameFolder (toy_path "Jazz") (toy_path "Blues"))] scanned in
  toy_paths (files_of stuck) = ["Blues/One.mp3"; "Blues/Two.mp3"; "jazz/Three.mp3"] /\
  index_paths stuck = ["Jazz/One.mp3"; "Jazz/Two.mp3"; "jazz/Three.mp3"] /\
  (start_library_coordinator stuck).1 = Err (Dependency "commit a folder rename") /\
  journal_states (started stuck) = ["applying"].
Proof. by vm_compute. Qed.

(** The first upload is in the index under the next generation; the second one
    cannot be resolved, and playback keeps the catalog without the first. *)
Lemma failed_upload_leaves_playback_behind :
  let uploaded := after [Command_PublishUploads
    [mkStagedLibraryUpload (toy_path "tmp/a") (toy_path "Four.mp3");
     mkStagedLibraryUpload (toy_path "tmp/b") (toy_path "Jazz/One.mp3")] Policy_Rename] scanned in
  index_paths uploaded = ["Jazz/One.mp3"; "Jazz/Two.mp3"; "jazz/Three.mp3"; "Four.mp3"] /\
  catalog_sink uploaded = catalog_sink scanned /\
  exists status, last (seen uploaded) = Some (Status_published status) /\ status_generation status = 2%N.
Proof. split; [by vm_compute|]. split; [by vm_compute|]. eexists. by vm_compute. Qed.

(** In a batch the status of a generation is published before its catalog. *)
Lemma batch_status_precedes_catalog :
  let moved := after [Command_MoveTracks [(track_one, toy_path "Jazz/Uno.mp3")]] scanned in
  exists status, status_generation status = 2%N /\
  seen moved = seen scanned ++ [Status_published status; Catalog_published 2; Status_published status].
Proof. eexists. split; [|by vm_compute]. done. Qed.
