(* ===== verification/Auth.v ===== *)
(** * Authentication

    [crates/music-application/src/auth.rs] over the statements of
    [crates/music-storage/src/auth.rs]: sign-in, sessions and the throttle of
    failed sign-ins. Requests of several clients run at once, so a request is a
    [future]: what it does up to its next call of the clock, the random source,
    the password worker or the database, and how it goes on with the answer. *)

From S2P Require Import Prelude Text Store RecoveryJournal.

#[local] Open Scope string_scope.
#[local] Open Scope Z_scope.
#[local] Open Scope list_scope.

Definition SECONDS_PER_DAY : Z := 86400.

(** [Box<dyn Error>]: its message. *)
Abbreviation DependencyError := string (only parsing).

(** [UnixSeconds], an [i64]. *)
Abbreviation UnixSeconds := Z (only parsing).

Inductive AuthServiceError : Type :=
| InvalidConfiguration (detail : string)
| InvalidCredentials
| InvalidSessionId
| TimestampOverflow
| Auth_Dependency (operation : string) (source : DependencyError).

#[global] Instance AuthServiceError_eq_dec : EqDecision AuthServiceError.
Proof. solve_decision. Defined.

(** [i64::from(days).checked_mul(SECONDS_PER_DAY)] and [checked_add]. *)
Definition checked_add_days (time : UnixSeconds) (days : N) : result AuthServiceError UnixSeconds :=
  let seconds := Z.of_N days * SECONDS_PER_DAY in
  if i64_max_Z <? seconds then Err TimestampOverflow
  else ok_or TimestampOverflow (i64_checked_add time seconds).

Record UserInfo : Type := mkUserInfo { user_id : Z; username : string }.

Record UserCredentialRecord : Type := mkUserCredentialRecord {
  credential_user : UserInfo;
  password_hash : string
}.

Record AuthenticatedSession : Type := mkAuthenticatedSession {
  session_user : UserInfo;
  session_token : string;
  session_expires_at : UnixSeconds
}.

(** [StoredSessionSummary] and [ActiveSession]. *)
Record StoredSessionSummary : Type := mkStoredSessionSummary {
  summary_session_id : string;
  summary_is_current : bool;
  summary_created_at : UnixSeconds;
  summary_expires_at : UnixSeconds;
  summary_last_seen : UnixSeconds
}.

Record ActiveSession : Type := mkActiveSession {
  active_session_id : string;
  active_created_at : UnixSeconds;
  active_expires_at : UnixSeconds;
  active_last_seen : UnixSeconds;
  active_is_current : bool
}.

Inductive SessionLookup : Type :=
| Lookup_Authenticated (user : UserInfo) (expires_at : UnixSeconds)
| Lookup_Expired
| Lookup_Missing.

Inductive SessionTouch : Type := UpdateLastSeen | PreserveLastSeen.
Inductive RevokeSessionOutcome : Type := Revoked | Revoke_Missing.

(* ------------------------------------------------------------------ *)
(** ** Rows and statements *)

Record UserRow : Type := mkUserRow {
  users_id : Z;
  users_username : string;
  users_password_hash : string;
  users_created_at : Z
}.

Record SessionRow : Type := mkSessionRow {
  sessions_session_id : string;
  sessions_token_hash : string;
  sessions_user_id : Z;
  sessions_created_at : Z;
  sessions_expires_at : Z;
  sessions_last_seen : Z
}.

(** The statements and the transaction that change the tables. *)
Inductive AuthWrite : Type :=
| Insert_user (username password_hash : string) (created_at : Z)
| Insert_session (session_id token_hash : string) (user_id created_at expires_at last_seen : Z)
| Delete_token (token_hash : string)
| Update_last_seen (now : Z) (token_hash : string)
| Delete_user_sessions (user_id : Z)
| Delete_session (user_id : Z) (session_id : string)
| Replace_password (username password_hash : string) (revoke_sessions : bool).

(** What a statement reports: the rows affected, the id of an inserted user, or
    that the transaction of [Replace_password] found no such user. *)
Inductive WriteReport : Type :=
| Rows_affected (rows : nat)
| Inserted_id (id : Z)
| No_such_user.

(* ------------------------------------------------------------------ *)
(** ** Futures *)

(** A request up to its next call. The answers are [Result]s, for every call
    may fail. *)
Inductive future (A : Type) : Type :=
| Ready (value : A)
| Clock_now (k : result DependencyError UnixSeconds -> future A)
| Generate_token (k : result DependencyError string -> future A)
| New_uuid (k : string -> future A)
| Verify_blocking (hash : option string) (candidate : string) 
    (k : result DependencyError (result DependencyError bool) -> future A)
| Select_user (username : string) (k : result DependencyError (option UserRow) -> future A)
| Select_session (token_hash : string)
    (k : result DependencyError (option (SessionRow * option string)) -> future A)
| Select_sessions (user_id : Z) (k : result DependencyError (list SessionRow) -> future A)
| Execute (write : AuthWrite) (k : result DependencyError WriteReport -> future A).
Arguments Ready {A} _.
Arguments Clock_now {A} _.
Arguments Generate_token {A} _.
Arguments New_uuid {A} _.
Arguments Verify_blocking {A} _ _ _.
Arguments Select_user {A} _ _.
Arguments Select_session {A} _ _.
Arguments Select_sessions {A} _ _.
Arguments Execute {A} _ _.

(** [future.await] followed by the rest. *)
Fixpoint and_then {A B : Type} (f : A -> future B) (m : future A) : future B :=
  match m with
  | Ready a => f a
  | Clock_now k => Clock_now (fun r => and_then f (k r))
  | Generate_token k => Generate_token (fun r => and_then f (k r))
  | New_uuid k => New_uuid (fun r => and_then f (k r))
  | Verify_blocking hash candidate k => Verify_blocking hash candidate (fun r => and_then f (k r))
  | Select_user name k => Select_user name (fun r => and_then f (k r))
  | Select_session hash k => Select_session hash (fun r => and_then f (k r))
  | Select_sessions id k => Select_sessions id (fun r => and_then f (k r))
  | Execute w k => Execute w (fun r => and_then f (k r))
  end.

(** A future of a [Result]; [x ← m; rest] is [let x = m.await?; rest]. *)
Definition fallible (E A : Type) : Type := future (result E A).
#[global] Instance fallible_ret {E} : MRet (fallible E) := fun A a => Ready (Ok a).
#[global] Instance fallible_bind {E} : MBind (fallible E) := fun A B f m =>
  and_then (fun r => match r with Ok a => f a | Err e => Ready (Err e) end) m.

Definition fail {E A} (error : E) : fallible E A := Ready (Err error).
(** [r?] *)
Definition yield {E A} (r : result E A) : fallible E A := Ready r.
(** [call.await.map_err(f)] *)
Definition map_err_future {E F A} (f : E -> F) (m : fallible E A) : fallible F A :=
  and_then (fun r => Ready (map_err f r)) m.
Definition dependency {A} (operation : string) (m : fallible DependencyError A)
    : fallible AuthServiceError A :=
  map_err_future (Auth_Dependency operation) m.

(* ------------------------------------------------------------------ *)
(** ** The service *)

(** [AuthRepository] *)
Class AuthRepository : Type := {
  find_user_by_username : string -> fallible DependencyError (option UserCredentialRecord);
  create_session : Z -> string -> UnixSeconds -> UnixSeconds -> fallible DependencyError ();
  lookup_session : string -> UnixSeconds -> SessionTouch -> Z -> fallible DependencyError SessionLookup;
  delete_sessions_for_user : Z -> fallible DependencyError nat;
  repository_list_sessions : Z -> string -> fallible DependencyError (list StoredSessionSummary);
  revoke_session_id : Z -> string -> fallible DependencyError RevokeSessionOutcome
}.

Record AuthServiceConfig : Type := mkAuthServiceConfig {
  session_ttl_days : N;
  (** [last_seen_throttle.as_secs()] *)
  last_seen_throttle : Z
}.

Definition AuthServiceConfig_new (session_ttl_days : N) : result AuthServiceError AuthServiceConfig :=
  if (session_ttl_days =? 0)%N then Err (InvalidConfiguration "session TTL must be positive")
  else Ok (mkAuthServiceConfig session_ttl_days 60).

Section Service.
Context `{AuthRepository} (config : AuthServiceConfig).

(** [self.clock.now()], [self.token_source.generate()] and the call of the
    verifier on a blocking worker, which may itself fail. *)
Definition clock_now : fallible DependencyError UnixSeconds := Clock_now Ready.
Definition generate : fallible DependencyError string := Generate_token Ready.
Definition verify_candidate (hash : option string) (candidate : string)
    : fallible DependencyError (result DependencyError bool) :=
  Verify_blocking hash candidate Ready.

Definition verified_user (username password : string) : fallible AuthServiceError UserCredentialRecord :=
  if negb (chars_within 1 64 username) || negb (chars_within 1 256 password) then fail InvalidCredentials
  else
    record ← dependency "user lookup" (find_user_by_username username);
    answer ← dependency "password worker" (verify_candidate (password_hash <$> record) password);
    verified ← yield (map_err (Auth_Dependency "password verification") answer);
    match record with
    | Some record => if (verified : bool) then mret record else fail InvalidCredentials
    | None => fail InvalidCredentials
    end.

Definition login (username password : string) : fallible AuthServiceError AuthenticatedSession :=
  record ← verified_user username password;
  now ← dependency "system clock" clock_now;
  expires_at ← yield (checked_add_days now (session_ttl_days config));
  token ← dependency "session token generation" generate;
  _ ← dependency "session creation"
        (create_session (user_id (credential_user record)) token now expires_at);
  mret (mkAuthenticatedSession (credential_user record) token expires_at).

Definition verify_credentials (username password : string) : fallible AuthServiceError () :=
  _ ← verified_user username password; mret ().

Definition authenticate (token : string) (touch : SessionTouch) : fallible AuthServiceError SessionLookup :=
  if String.eqb token "" || (96 <? String.length token)%nat then mret Lookup_Missing
  else
    now ← dependency "system clock" clock_now;
    dependency "session lookup" (lookup_session token now touch (last_seen_throttle config)).

Definition logout (user : Z) : fallible AuthServiceError () :=
  _ ← dependency "session logout" (delete_sessions_for_user user); mret ().

Definition list_sessions (user : Z) (current_token : string)
    : fallible AuthServiceError (list ActiveSession) :=
  sessions ← dependency "session listing" (repository_list_sessions user current_token);
  mret ((fun session => {|
    active_session_id := summary_session_id session;
    active_created_at := summary_created_at session;
    active_expires_at := summary_expires_at session;
    active_last_seen := summary_last_seen session;
    active_is_current := summary_is_current session |}) <$> sessions).

Definition revoke_session (user : Z) (session_id : string)
    : fallible AuthServiceError RevokeSessionOutcome :=
  if negb (String.length session_id =? 32)%nat
     || negb (all_bytes (fun byte => is_ascii_digit byte || is_hex_letter byte) session_id)
  then fail InvalidSessionId
  else dependency "session revocation" (revoke_session_id user session_id).
End Service.

(* ------------------------------------------------------------------ *)
(** ** The throttle of failed sign-ins *)

(** [Instant]s and [Duration]s in nanoseconds. *)
Record LoginThrottleConfig : Type := mkLoginThrottleConfig {
  throttle_window : N;
  per_key_failures : nat;
  global_failures : nat;
  maximum_keys : nat
}.

Definition LoginThrottleConfig_default : LoginThrottleConfig :=
  mkLoginThrottleConfig 60000000000 10 50 1024.

Record LoginThrottle : Type := mkLoginThrottle {
  throttle_config : LoginThrottleConfig;
  failures : gmap string (list N)
}.

Definition LoginThrottle_new (config : LoginThrottleConfig) : LoginThrottle := mkLoginThrottle config ∅.
Definition set_failures (failures : gmap string (list N)) (throttle : LoginThrottle) : LoginThrottle :=
  mkLoginThrottle (throttle_config throttle) failures.

(** [attempts.retain(|attempt| now.saturating_duration_since(attempt) < window)];
    a key without attempts is dropped. *)
Definition recent_attempts (now window : N) (attempts : list N) : option (list N) :=
  match retain (fun attempt => now - attempt <? window)%N attempts with
  | [] => None
  | attempts => Some attempts
  end.
Definition retain_recent (now window : N) (failures : gmap string (list N)) : gmap string (list N) :=
  omap (recent_attempts now window) failures.

(** [failures.values().map(Vec::len).sum()] *)
Definition total_failures (failures : gmap string (list N)) : nat :=
  list_sum (length <$> (map_to_list failures).*2).
Definition failures_of (key : string) (failures : gmap string (list N)) : nat :=
  match failures !! key with Some attempts => length attempts | None => 0 end.

Definition blocked_at (key : string) (now : N) (throttle : LoginThrottle) : bool * LoginThrottle :=
  let config := throttle_config throttle in
  let failures := retain_recent now (throttle_window config) (failures throttle) in
  ((per_key_failures config <=? failures_of key failures)%nat
   || (global_failures config <=? total_failures failures)%nat,
   set_failures failures throttle).

Definition record_failure_at (key : string) (now : N) (throttle : LoginThrottle) : LoginThrottle :=
  let config := throttle_config throttle in
  let failures := retain_recent now (throttle_window config) (failures throttle) in
  match failures !! key with
  | None =>
      if (maximum_keys config <=? size failures)%nat then set_failures failures throttle
      else set_failures (<[key := [now]]> failures) throttle
  | Some attempts => set_failures (<[key := attempts ++ [now]]> failures) throttle
  end.

Definition record_success (key : string) (throttle : LoginThrottle) : LoginThrottle :=
  set_failures (delete key (failures throttle)) throttle.
