(* ===== verification/AuthStore.v ===== *)
(** * The authentication repository

    [crates/music-storage/src/auth.rs]: the statements of [Auth] on the tables
    [users] and [auth_sessions] with their constraints, the repository as
    futures over them, and the requests of several clients run in any order, one
    call at a time. A column written with [datetime(.., 'unixepoch')] is kept as
    the seconds [unixepoch] reads back. *)

From S2P Require Import Prelude Text Store RecoveryJournal Auth.

#[local] Open Scope string_scope.
#[local] Open Scope Z_scope.
#[local] Open Scope list_scope.

Record AuthTables : Type := mkAuthTables {
  users_table : list UserRow;
  sessions_table : list SessionRow
}.

(* ------------------------------------------------------------------ *)
(** ** Statements *)

(** [datetime(?, 'unixepoch')]: [NULL] outside the years 0 to 9999. *)
Definition sqlite_datetime (seconds : Z) : option Z :=
  if (-62167219200 <=? seconds) && (seconds <=? 253402300799) then Some seconds else None.

Definition has_username (name : string) (row : UserRow) : bool := String.eqb (users_username row) name.
Definition has_user_id (id : Z) (row : UserRow) : bool := users_id row =? id.
Definition has_token_hash (hash : string) (row : SessionRow) : bool :=
  String.eqb (sessions_token_hash row) hash.
Definition of_user (id : Z) (row : SessionRow) : bool := sessions_user_id row =? id.
Definition has_session_id (id : string) (row : SessionRow) : bool :=
  String.eqb (sessions_session_id row) id.

(** The rowid SQLite gives the next row of [users]. *)
Definition next_user_id (users : list UserRow) : Z := 1 + foldr Z.max 0 (users_id <$> users).

(** [DELETE FROM auth_sessions WHERE ..] *)
Definition delete_sessions (doomed : SessionRow -> bool) (t : AuthTables) : WriteReport * AuthTables :=
  (Rows_affected (length (List.filter doomed (sessions_table t))),
   mkAuthTables (users_table t) (retain (fun row => negb (doomed row)) (sessions_table t))).

Definition insert_user_row (name hash : string) (created_at : Z) (t : AuthTables)
    : option (WriteReport * AuthTables) :=
  created_at ← sqlite_datetime created_at;
  if existsb (has_username name) (users_table t) then None
  else
    let id := next_user_id (users_table t) in
    Some (Inserted_id id, mkAuthTables (users_table t ++ [mkUserRow id name hash created_at]) (sessions_table t)).

Definition insert_session_row (session_id token_hash : string) (user created_at expires_at last_seen : Z)
    (t : AuthTables) : option (WriteReport * AuthTables) :=
  created_at ← sqlite_datetime created_at;
  expires_at ← sqlite_datetime expires_at;
  last_seen ← sqlite_datetime last_seen;
  if existsb (has_session_id session_id) (sessions_table t)
     || existsb (has_token_hash token_hash) (sessions_table t)
     || negb (existsb (has_user_id user) (users_table t))
  then None
  else Some (Rows_affected 1, mkAuthTables (users_table t)
    (sessions_table t ++ [mkSessionRow session_id token_hash user created_at expires_at last_seen])).

Definition seen_at (at_ : Z) (row : SessionRow) : SessionRow :=
  mkSessionRow (sessions_session_id row) (sessions_token_hash row) (sessions_user_id row)
    (sessions_created_at row) (sessions_expires_at row) at_.

(** [UPDATE auth_sessions SET last_seen = datetime(?, 'unixepoch')
    WHERE token_hash = ? AND unixepoch(expires_at) > ?] *)
Definition update_last_seen (now : Z) (hash : string) (t : AuthTables) : option (WriteReport * AuthTables) :=
  let touched row := has_token_hash hash row && (now <? sessions_expires_at row) in
  match List.filter touched (sessions_table t), sqlite_datetime now with
  | [], _ => Some (Rows_affected 0, t)
  | _ :: _, None => None
  | rows, Some at_ => Some (Rows_affected (length rows), mkAuthTables (users_table t)
      ((fun row => if touched row then seen_at at_ row else row) <$> sessions_table t))
  end.

Definition with_password (hash : string) (row : UserRow) : UserRow :=
  mkUserRow (users_id row) (users_username row) hash (users_created_at row).

(** The transaction of [replace_user_password]. *)
Definition replace_password (name hash : string) (revoke : bool) (t : AuthTables) : WriteReport * AuthTables :=
  match List.find (has_username name) (users_table t) with
  | None => (No_such_user, t)
  | Some user =>
      let t := mkAuthTables ((fun row => if has_user_id (users_id user) row then with_password hash row else row)
                               <$> users_table t) (sessions_table t) in
      if revoke then delete_sessions (of_user (users_id user)) t else (Rows_affected 0, t)
  end.

(** [None] when a constraint refuses it. *)
Definition run_write (write : AuthWrite) (t : AuthTables) : option (WriteReport * AuthTables) :=
  match write with
  | Insert_user name hash created_at => insert_user_row name hash created_at t
  | Insert_session session_id hash user created_at expires_at last_seen =>
      insert_session_row session_id hash user created_at expires_at last_seen t
  | Delete_token hash => Some (delete_sessions (has_token_hash hash) t)
  | Update_last_seen now hash => update_last_seen now hash t
  | Delete_user_sessions id => Some (delete_sessions (of_user id) t)
  | Delete_session user id => Some (delete_sessions (fun row => of_user user row && has_session_id id row) t)
  | Replace_password name hash revoke => Some (replace_password name hash revoke t)
  end.

(** [SELECT .. FROM auth_sessions AS s LEFT JOIN users AS u ..] *)
Definition select_session (hash : string) (t : AuthTables) : option (SessionRow * option string) :=
  (fun row => (row, users_username <$> List.find (has_user_id (sessions_user_id row)) (users_table t)))
    <$> List.find (has_token_hash hash) (sessions_table t).

(** [ORDER BY last_seen DESC] *)
Definition seen_later (a b : SessionRow) : Prop := sessions_last_seen b <= sessions_last_seen a.
#[global] Instance seen_later_dec a b : Decision (seen_later a b).
Proof. unfold seen_later. apply _. Defined.

Definition select_sessions (user : Z) (t : AuthTables) : list SessionRow :=
  merge_sort seen_later (List.filter (of_user user) (sessions_table t)).

(* ------------------------------------------------------------------ *)
(** ** The repository *)

(** [argon2]: whether a password matches an encoded hash. *)
Class PasswordHashing : Type := { verify_password : string -> string -> result string bool }.

Definition DUMMY_PASSWORD_HASH : string :=
  "$argon2id$v=19$m=65536,t=3,p=4$cmV3cml0ZS1maXh0dXJlLXNhbHQ$tgdYDN8ijOk+7HZgF2oUm50+O8nOMKGggRmynxNu4ko".

Definition Argon2_verify_candidate `{PasswordHashing} (hash : option string) (candidate : string)
    : result DependencyError bool :=
  valid ← verify_password (default DUMMY_PASSWORD_HASH hash) candidate;
  Ok (bool_decide (is_Some hash) && valid).

Definition session_token_hash `{Sha256} (token : string) : string :=
  sha256_hex ("music-session/v1" +:+ String (Ascii.ascii_of_N 0) token).

(** [a.saturating_sub(b)] on [i64] *)
Definition i64_saturating_sub (a b : Z) : Z := Z.max (- i64_max_Z - 1) (Z.min i64_max_Z (a - b)).

Section Repository.
Context `{Sha256}.

Definition sqlite_find_user (name : string) : fallible DependencyError (option UserCredentialRecord) :=
  row ← Select_user name Ready;
  mret ((fun row => mkUserCredentialRecord (mkUserInfo (users_id row) (users_username row))
                      (users_password_hash row)) <$> row).

Definition execute_write (write : AuthWrite) : fallible DependencyError WriteReport := Execute write Ready.

Definition sqlite_create_session (user : Z) (token : string) (created_at expires_at : UnixSeconds)
    : fallible DependencyError () :=
  New_uuid (fun session_id =>
    _ ← execute_write (Insert_session session_id (session_token_hash token) user created_at expires_at created_at);
    mret ()).

Definition sqlite_lookup_session (token : string) (now : UnixSeconds) (touch : SessionTouch)
    (last_seen_throttle : Z) : fallible DependencyError SessionLookup :=
  let hash := session_token_hash token in
  row ← Select_session hash Ready;
  match row with
  | None => mret Lookup_Missing
  | Some (row, name) =>
      let expires_at := sessions_expires_at row in
      if expires_at <=? now then _ ← execute_write (Delete_token hash); mret Lookup_Expired
      else
        match name with
        | None => mret Lookup_Missing
        | Some name =>
            let found := Lookup_Authenticated (mkUserInfo (sessions_user_id row) name) expires_at in
            match touch with
            | PreserveLastSeen => mret found
            | UpdateLastSeen =>
                if i64_saturating_sub now (sessions_last_seen row) <=? last_seen_throttle then mret found
                else
                  report ← execute_write (Update_last_seen now hash);
                  match report with
                  | Rows_affected 0 => mret Lookup_Missing
                  | _ => mret found
                  end
            end
        end
  end.

Definition rows_of (report : WriteReport) : nat :=
  match report with Rows_affected rows => rows | _ => 0 end.

Definition sqlite_delete_sessions_for_user (user : Z) : fallible DependencyError nat :=
  report ← execute_write (Delete_user_sessions user); mret (rows_of report).

Definition sqlite_list_sessions (user : Z) (current_token : string)
    : fallible DependencyError (list StoredSessionSummary) :=
  rows ← Select_sessions user Ready;
  mret ((fun row => {|
    summary_session_id := sessions_session_id row;
    summary_is_current := has_token_hash (session_token_hash current_token) row;
    summary_created_at := sessions_created_at row;
    summary_expires_at := sessions_expires_at row;
    summary_last_seen := sessions_last_seen row |}) <$> rows).

Definition sqlite_revoke_session_id (user : Z) (session_id : string)
    : fallible DependencyError RevokeSessionOutcome :=
  report ← execute_write (Delete_session user session_id);
  mret (if (rows_of report =? 1)%nat then Revoked else Revoke_Missing).

#[global] Instance SqliteAuthRepository : AuthRepository := {|
  find_user_by_username := sqlite_find_user;
  create_session := sqlite_create_session;
  lookup_session := sqlite_lookup_session;
  delete_sessions_for_user := sqlite_delete_sessions_for_user;
  repository_list_sessions := sqlite_list_sessions;
  revoke_session_id := sqlite_revoke_session_id
|}.

(** The administration commands: [create_user] and [replace_user_password],
    which answers [None] for an unknown user and else the sessions revoked. *)
Definition create_user (name hash : string) (created_at : UnixSeconds) : fallible DependencyError Z :=
  report ← execute_write (Insert_user name hash created_at);
  mret (match report with Inserted_id id => id | _ => 0 end).

Definition replace_user_password (name hash : string) (revoke_sessions : bool)
    : fallible DependencyError (option nat) :=
  report ← execute_write (Replace_password name hash revoke_sessions);
  mret (match report with No_such_user => None | report => Some (rows_of report) end).
End Repository.

(* ------------------------------------------------------------------ *)
(** ** Many requests at once *)

Inductive AuthRequest : Type :=
| Login (username password : string)
| Verify_credentials (username password : string)
| Authenticate (token : string) (touch : SessionTouch)
| Logout (user : Z)
| List_sessions (user : Z) (current_token : string)
| Revoke_session (user : Z) (session_id : string)
| Create_user (username password_hash : string) (created_at : UnixSeconds)
| Replace_user_password (username password_hash : string) (revoke_sessions : bool).

Inductive AuthReply : Type :=
| Reply_login (r : result AuthServiceError AuthenticatedSession)
| Reply_verified (r : result AuthServiceError ())
| Reply_lookup (r : result AuthServiceError SessionLookup)
| Reply_logout (r : result AuthServiceError ())
| Reply_sessions (r : result AuthServiceError (list ActiveSession))
| Reply_revoke (r : result AuthServiceError RevokeSessionOutcome)
| Reply_created (r : result DependencyError Z)
| Reply_replaced (r : result DependencyError (option nat)).

(** A call that was made, with its answer; of a write, also whether it took
    effect. *)
Inductive AuthEvent : Type :=
| Saw_time (r : result DependencyError UnixSeconds)
| Drew_token (r : result DependencyError string)
| Drew_uuid (id : string)
| Verified (hash : option string) (candidate : string) (r : result DependencyError (result DependencyError bool))
| Read_user (username : string) (r : result DependencyError (option UserRow))
| Read_session (token_hash : string) (r : result DependencyError (option (SessionRow * option string)))
| Read_sessions (user : Z) (r : result DependencyError (list SessionRow))
| Wrote (write : AuthWrite) (r : result DependencyError WriteReport) (landed : bool).

(** What the environment makes of the next call of a request. *)
Record Fate : Type := mkFate { fate_fault : Fault; fate_time : Z; fate_text : string }.

Inductive Move : Type :=
| Arrive (request : AuthRequest)
| Advance (request : nat) (fate : Fate).

Record Thread : Type := mkThread { thread_request : AuthRequest; thread_rest : future AuthReply }.

Record AuthSystem : Type := mkAuthSystem {
  tables : AuthTables;
  threads : list Thread;
  (** Every call so far with the request that made it, the latest last. *)
  history : list (nat * AuthEvent)
}.

Section System.
Context `{Sha256, PasswordHashing} (config : AuthServiceConfig).

Definition replying {A} (f : A -> AuthReply) (m : future A) : future AuthReply :=
  and_then (fun a => Ready (f a)) m.

Definition serve (request : AuthRequest) : future AuthReply :=
  match request with
  | Login name password => replying Reply_login (login config name password)
  | Verify_credentials name password => replying Reply_verified (verify_credentials name password)
  | Authenticate token touch => replying Reply_lookup (authenticate config token touch)
  | Logout user => replying Reply_logout (logout user)
  | List_sessions user token => replying Reply_sessions (list_sessions user token)
  | Revoke_session user id => replying Reply_revoke (revoke_session user id)
  | Create_user name hash created_at => replying Reply_created (create_user name hash created_at)
  | Replace_user_password name hash revoke => replying Reply_replaced (replace_user_password name hash revoke)
  end.

(** A call that answers [a] unless the environment fails it. *)
Definition answer {A} (fate : Fate) (a : A) : result DependencyError A :=
  match fate_fault fate with
  | NoFault => Ok a
  | FailBefore cause | FailAfter cause => Err cause
  end.

Definition write_answer (fate : Fate) (write : AuthWrite) (t : AuthTables)
    : result DependencyError WriteReport * bool * AuthTables :=
  match fate_fault fate, run_write write t with
  | FailBefore cause, _ => (Err cause, false, t)
  | _, None => (Err "constraint failed", false, t)
  | NoFault, Some (report, t) => (Ok report, true, t)
  | FailAfter cause, Some (_, t) => (Err cause, true, t)
  end.

(** The next call of a future: the event, the tables and the rest. *)
Definition perform {A} (fate : Fate) (m : future A) (t : AuthTables)
    : option (AuthEvent * AuthTables * future A) :=
  match m with
  | Ready _ => None
  | Clock_now k => let r := answer fate (fate_time fate) in Some (Saw_time r, t, k r)
  | Generate_token k => let r := answer fate (fate_text fate) in Some (Drew_token r, t, k r)
  | New_uuid k => Some (Drew_uuid (fate_text fate), t, k (fate_text fate))
  | Verify_blocking hash candidate k =>
      let r := answer fate (Argon2_verify_candidate hash candidate) in
      Some (Verified hash candidate r, t, k r)
  | Select_user name k =>
      let r := answer fate (List.find (has_username name) (users_table t)) in
      Some (Read_user name r, t, k r)
  | Select_session hash k =>
      let r := answer fate (select_session hash t) in Some (Read_session hash r, t, k r)
  | Select_sessions user k =>
      let r := answer fate (select_sessions user t) in Some (Read_sessions user r, t, k r)
  | Execute write k =>
      let '(r, landed, t) := write_answer fate write t in Some (Wrote write r landed, t, k r)
  end.

Definition move (s : AuthSystem) (m : Move) : AuthSystem :=
  match m with
  | Arrive request => mkAuthSystem (tables s) (threads s ++ [mkThread request (serve request)]) (history s)
  | Advance i fate =>
      match threads s !! i with
      | None => s
      | Some thread =>
          match perform fate (thread_rest thread) (tables s) with
          | None => s
          | Some (event, t, rest) =>
              mkAuthSystem t (<[i := mkThread (thread_request thread) rest]> (threads s))
                (history s ++ [(i, event)])
          end
      end
  end.

Definition start : AuthSystem := mkAuthSystem (mkAuthTables [] []) [] [].
Definition run_moves (moves : list Move) : AuthSystem := foldl move start moves.
End System.
