(* ===== verification/AuthSpec.v ===== *)
(** * What authentication promises

    Over every order in which the calls of any number of requests are made and
    fail: the sessions in the table are those opened and not closed since, a
    request is let in only on such a session, and a session is opened only for
    the user whose password was verified. *)

From S2P Require Import Prelude Text Store RecoveryJournal Auth AuthStore.

#[local] Open Scope string_scope.
#[local] Open Scope Z_scope.
#[local] Open Scope list_scope.

(* ------------------------------------------------------------------ *)
(** ** Sessions and the writes that open and close them *)

(** What of a session never changes. *)
Record Session : Type := mkSession {
  key_session_id : string;
  key_token_hash : string;
  key_user : Z;
  key_created_at : Z;
  key_expires_at : Z
}.

Definition session_key (row : SessionRow) : Session :=
  mkSession (sessions_session_id row) (sessions_token_hash row) (sessions_user_id row)
    (sessions_created_at row) (sessions_expires_at row).

Definition sessions_in (t : AuthTables) : list Session := session_key <$> sessions_table t.

Definition opens (write : AuthWrite) : option Session :=
  match write with
  | Insert_session id hash user created_at expires_at _ => Some (mkSession id hash user created_at expires_at)
  | _ => None
  end.

(** Whether a write ends a session; a user is known by name to one of them. *)
Definition closes (users : list UserRow) (write : AuthWrite) (session : Session) : bool :=
  match write with
  | Delete_token hash => String.eqb (key_token_hash session) hash
  | Delete_user_sessions user => key_user session =? user
  | Delete_session user id => (key_user session =? user) && String.eqb (key_session_id session) id
  | Replace_password name _ true =>
      existsb (fun row => has_username name row && has_user_id (key_user session) row) users
  | _ => false
  end.

(** A write of the history opened the session and none after it closed it. *)
Definition open_in (users : list UserRow) (events : list (nat * AuthEvent)) (session : Session) : Prop :=
  exists before i write r after,
    events = before ++ (i, Wrote write r true) :: after /\ opens write = Some session /\
    forall j write' r', (j, Wrote write' r' true) ∈ after -> closes users write' session = false.

(* ------------------------------------------------------------------ *)
(** ** The tables *)

Record tables_wf (t : AuthTables) : Prop := {
  wf_user_ids : NoDup (users_id <$> users_table t);
  wf_user_bound : Forall (fun id => 0 < id) (users_id <$> users_table t);
  wf_usernames : NoDup (users_username <$> users_table t);
  wf_session_ids : NoDup (sessions_session_id <$> sessions_table t);
  wf_token_hashes : NoDup (sessions_token_hash <$> sessions_table t);
  wf_owners : forall row, row ∈ sessions_table t -> sessions_user_id row ∈ users_id <$> users_table t
}.

(** Names and ids only grow. *)
Definition identity (row : UserRow) : Z * string := (users_id row, users_username row).

Lemma existsb_fmap {A} (p : A -> bool) l : existsb p l = true <-> exists x, x ∈ l /\ p x = true.
Proof. rewrite existsb_exists. by setoid_rewrite list_elem_of_In. Qed.

Lemma existsb_eqb_fmap {A B} (f : A -> B) (p : A -> bool) b l :
  (forall x, p x = true <-> f x = b) -> existsb p l = false -> b ∉ f <$> l.
Proof.
  intros Hp Hnone (x & -> & Hx)%list_elem_of_fmap.
  assert (existsb p l = true) by (apply existsb_fmap; exists x; by rewrite Hp). congruence.
Qed.

Lemma next_user_id_fresh users : forall id, id ∈ users_id <$> users -> id < next_user_id users.
Proof.
  unfold next_user_id. induction users as [|u users IH]; cbn; [set_solver|].
  intros id [->|Hin]%elem_of_cons; [lia|]. specialize (IH id Hin). lia.
Qed.

Lemma next_user_id_pos users : 0 < next_user_id users.
Proof. unfold next_user_id. induction users; cbn; lia. Qed.

Lemma retain_fmap_NoDup {A B} (f : A -> B) p l : NoDup (f <$> l) -> NoDup (f <$> retain p l).
Proof.
  induction l as [|x l IH]; cbn; [done|]. intros [Hx Hl]%NoDup_cons. destruct (p x); cbn; [|auto].
  apply NoDup_cons. split; [|auto]. intros (y & Heq & Hy)%list_elem_of_fmap.
  apply elem_of_retain in Hy as [Hy _]. apply Hx. rewrite Heq. by apply list_elem_of_fmap_2.
Qed.

Lemma retain_keys (doomed : SessionRow -> bool) (closed : Session -> bool) l k :
  (forall row, doomed row = closed (session_key row)) ->
  k ∈ session_key <$> retain (fun row => negb (doomed row)) l <->
  k ∈ session_key <$> l /\ closed k = false.
Proof.
  intros Hd. rewrite !list_elem_of_fmap. split.
  - intros (row & -> & [Hin Hp]%elem_of_retain). apply negb_true_iff in Hp. rewrite Hd in Hp. eauto.
  - intros [(row & -> & Hin) Hc]. exists row. split; [done|]. apply elem_of_retain. by rewrite Hd, Hc.
Qed.

Lemma delete_sessions_wf doomed t rep t' :
  delete_sessions doomed t = (rep, t') -> tables_wf t -> tables_wf t' /\ users_table t' = users_table t.
Proof.
  intros [= <- <-] [? ? ? ? ? Hown]. split; [|done]. split; cbn; auto using retain_fmap_NoDup.
  intros row [Hin _]%elem_of_retain. auto.
Qed.

(** A write keeps the tables well formed, opens and closes what it says, and
    forgets no user. *)
Record write_effect (write : AuthWrite) (t t' : AuthTables) : Prop := {
  effect_wf : tables_wf t';
  effect_sessions k : k ∈ sessions_in t' <->
    opens write = Some k \/ (k ∈ sessions_in t /\ closes (users_table t) write k = false);
  effect_users : identity <$> users_table t `prefix_of` identity <$> users_table t'
}.

Lemma sqlite_datetime_same s s' : sqlite_datetime s = Some s' -> s' = s.
Proof. unfold sqlite_datetime. intros. repeat split_match; congruence. Qed.

Lemma delete_sessions_effect write doomed t rep t' :
  opens write = None -> (forall row, doomed row = closes (users_table t) write (session_key row)) ->
  delete_sessions doomed t = (rep, t') -> tables_wf t -> write_effect write t t'.
Proof.
  intros Hopens Hd Hrun Hwf. destruct (delete_sessions_wf _ _ _ _ Hrun Hwf) as [Hwf' Husers].
  injection Hrun as _ <-. split; [done|intros k; cbn|by rewrite Husers].
  rewrite (retain_keys doomed (closes (users_table t) write)), Hopens by done. naive_solver.
Qed.

Lemma insert_user_effect name hash created_at t rep t' :
  insert_user_row name hash created_at t = Some (rep, t') -> tables_wf t ->
  write_effect (Insert_user name hash created_at) t t'.
Proof.
  unfold insert_user_row. intros Hrun [? ? ? ? ? Hown]. destruct (sqlite_datetime created_at); [cbn in Hrun|done].
  destruct (existsb _ _) eqn:Hname; [done|]. injection Hrun as _ <-.
  split; cbn; [split; cbn|..].
  - rewrite fmap_app. apply NoDup_app. split_and!; [done| |cbn; apply NoDup_singleton].
    intros id Hid Hnew. apply next_user_id_fresh in Hid. set_solver by lia.
  - rewrite fmap_app. apply Forall_app. split; [done|]. constructor; [apply next_user_id_pos|done].
  - rewrite fmap_app. apply NoDup_app. split_and!; [done| |apply NoDup_singleton].
    intros n Hn ->%list_elem_of_singleton. revert Hn. apply (existsb_eqb_fmap _ _ _ _ (fun u => String.eqb_eq _ _) Hname).
  - done.
  - done.
  - intros row Hrow. rewrite fmap_app. set_solver.
  - intros k. naive_solver.
  - rewrite fmap_app. by eexists.
Qed.

Lemma insert_session_effect id hash user created_at expires_at last_seen t rep t' :
  insert_session_row id hash user created_at expires_at last_seen t = Some (rep, t') -> tables_wf t ->
  write_effect (Insert_session id hash user created_at expires_at last_seen) t t'.
Proof.
  unfold insert_session_row. intros Hrun [? ? ? ? ? Hown].
  destruct (sqlite_datetime created_at) as [c|] eqn:Hc; [cbn in Hrun|done].
  destruct (sqlite_datetime expires_at) as [e|] eqn:He; [cbn in Hrun|done].
  destruct (sqlite_datetime last_seen) as [l|] eqn:Hl; [cbn in Hrun|done].
  apply sqlite_datetime_same in Hc as ->. apply sqlite_datetime_same in He as ->.
  destruct (existsb (has_session_id id) _) eqn:Hid; [done|].
  destruct (existsb (has_token_hash hash) _) eqn:Hhash; [done|].
  destruct (existsb (has_user_id user) _) eqn:Huser; [|done]. injection Hrun as _ <-.
  split; cbn; [split; cbn|..]; try done.
  - rewrite fmap_app. apply NoDup_app. split_and!; [done| |apply NoDup_singleton].
    intros n Hn ->%list_elem_of_singleton. revert Hn.
    apply (existsb_eqb_fmap _ _ _ _ (fun u => String.eqb_eq _ _) Hid).
  - rewrite fmap_app. apply NoDup_app. split_and!; [done| |apply NoDup_singleton].
    intros n Hn ->%list_elem_of_singleton. revert Hn.
    apply (existsb_eqb_fmap _ _ _ _ (fun u => String.eqb_eq _ _) Hhash).
  - intros row [Hrow| ->%list_elem_of_singleton]%elem_of_app; [auto|]. cbn.
    apply existsb_fmap in Huser as (u & Hu & <-%Z.eqb_eq). by apply list_elem_of_fmap_2.
  - intros k. unfold sessions_in. cbn. rewrite fmap_app, elem_of_app. cbn. rewrite list_elem_of_singleton.
    naive_solver.
Qed.

Lemma seen_at_key at_ row : session_key (seen_at at_ row) = session_key row.
Proof. done. Qed.

Lemma update_last_seen_effect now hash t rep t' :
  update_last_seen now hash t = Some (rep, t') -> tables_wf t ->
  write_effect (Update_last_seen now hash) t t'.
Proof.
  unfold update_last_seen. intros Hrun Hwf.
  set (touched := fun row => has_token_hash hash row && (now <? sessions_expires_at row)) in *.
  assert (t' = t \/ exists at_, t' = mkAuthTables (users_table t)
    ((fun row => if touched row then seen_at at_ row else row) <$> sessions_table t)) as [->|[at_ ->]].
  { destruct (List.filter _ _); [|destruct (sqlite_datetime now)]; naive_solver. }
  { split; naive_solver. }
  set (touch := fun row : SessionRow => if touched row then seen_at at_ row else row).
  assert (forall B (f : SessionRow -> B), (forall row, f (seen_at at_ row) = f row) ->
    f <$> (touch <$> sessions_table t) = f <$> sessions_table t) as Hsame.
  { intros B f Hf. rewrite <- list_fmap_compose. apply list_fmap_ext. intros _ row _.
    unfold compose, touch. by destruct (touched row). }
  destruct Hwf as [? ? ? ? ? Hown]. split; cbn; [split; cbn|..]; try done.
  - by rewrite Hsame.
  - by rewrite Hsame.
  - intros row' (row & -> & Hrow)%list_elem_of_fmap. unfold touch. destruct (touched row); auto.
    by apply (Hown row).
  - intros k. unfold sessions_in. cbn. rewrite Hsame by done. naive_solver.
Qed.

Lemma with_password_identity hash (p : UserRow -> bool) (users : list UserRow) :
  identity <$> ((fun row => if p row then with_password hash row else row) <$> users) = identity <$> users.
Proof.
  rewrite <- list_fmap_compose. apply list_fmap_ext. intros _ row _. unfold compose. by destruct (p row).
Qed.

Lemma fmap_identity_ids (users : list UserRow) : users_id <$> users = fst <$> (identity <$> users).
Proof. by rewrite <- list_fmap_compose. Qed.
Lemma fmap_identity_names (users : list UserRow) : users_username <$> users = snd <$> (identity <$> users).
Proof. by rewrite <- list_fmap_compose. Qed.

Lemma tables_wf_users users' t :
  identity <$> users' = identity <$> users_table t -> tables_wf t -> tables_wf (mkAuthTables users' (sessions_table t)).
Proof.
  intros Heq [Hids Hpos Hnames ? ? Hown].
  rewrite fmap_identity_ids, <- Heq, <- fmap_identity_ids in Hids, Hpos.
  rewrite fmap_identity_names, <- Heq, <- fmap_identity_names in Hnames.
  split; cbn; try done. intros row Hrow. specialize (Hown row Hrow).
  by rewrite fmap_identity_ids, <- Heq, <- fmap_identity_ids in Hown.
Qed.

(** The user of a name, among rows with distinct ids and names. *)
Lemma find_username name t user :
  tables_wf t -> List.find (has_username name) (users_table t) = Some user ->
  forall id, existsb (fun row => has_username name row && has_user_id id row) (users_table t)
             = (id =? users_id user).
Proof.
  intros Hwf [Hin Hname]%List.find_some id. apply list_elem_of_In in Hin.
  apply eq_true_iff_eq. rewrite existsb_fmap, Z.eqb_eq. split.
  - intros (row & Hrow & [Hn Hid]%andb_true_iff). apply String.eqb_eq in Hn, Hname. apply Z.eqb_eq in Hid.
    subst id. apply list_elem_of_lookup in Hin as [i Hi], Hrow as [j Hj].
    enough (i = j) by congruence. eapply (NoDup_lookup _ _ _ _ (wf_usernames t Hwf)).
    + by rewrite list_lookup_fmap, Hi.
    + rewrite list_lookup_fmap, Hj. cbn. congruence.
  - intros ->. exists user. split; [done|]. rewrite Hname. cbn. apply Z.eqb_refl.
Qed.

Lemma replace_password_effect name hash revoke t rep t' :
  replace_password name hash revoke t = (rep, t') -> tables_wf t ->
  write_effect (Replace_password name hash revoke) t t'.
Proof.
  unfold replace_password. intros Hrun Hwf. destruct (List.find _ _) as [user|] eqn:Hfind.
  - set (users' := (fun row => if has_user_id (users_id user) row then with_password hash row else row)
                     <$> users_table t) in *.
    assert (identity <$> users' = identity <$> users_table t) as Hid by apply with_password_identity.
    pose proof (tables_wf_users users' t Hid Hwf) as Hwf'. destruct revoke.
    + assert (forall k, closes (users_table t) (Replace_password name hash true) k = (key_user k =? users_id user))
        as Hcloses by (intros k; apply (find_username name t user Hwf Hfind)).
      destruct (delete_sessions_wf _ _ _ _ Hrun Hwf') as [Hwf'' Husers].
      injection Hrun as _ <-. split; [done| |by rewrite Husers; cbn; rewrite Hid].
      intros k. unfold sessions_in. cbn -[closes].
      rewrite (retain_keys _ (fun k => key_user k =? users_id user)), Hcloses by done. naive_solver.
    + injection Hrun as _ <-. split; [done|naive_solver|cbn; by rewrite Hid].
  - injection Hrun as _ <-. split; [done| |done]. intros k. split; [|naive_solver].
    intros Hk. right. split; [done|]. destruct revoke; [|done]. cbn.
    apply not_true_iff_false. intros (row & Hrow & [Hn _]%andb_true_iff)%existsb_fmap.
    apply list_elem_of_In in Hrow. by rewrite (List.find_none _ _ Hfind row Hrow) in Hn.
Qed.

Lemma run_write_effect write t rep t' :
  run_write write t = Some (rep, t') -> tables_wf t -> write_effect write t t'.
Proof.
  destruct write as [| |hash| |user|user id|]; cbn [run_write]; intros Hrun Hwf.
  - eauto using insert_user_effect.
  - eauto using insert_session_effect.
  - apply (inj Some) in Hrun. by eapply delete_sessions_effect in Hrun.
  - eauto using update_last_seen_effect.
  - apply (inj Some) in Hrun. by eapply delete_sessions_effect in Hrun.
  - apply (inj Some) in Hrun. by eapply delete_sessions_effect in Hrun.
  - apply (inj Some) in Hrun. eauto using replace_password_effect.
Qed.

(* ------------------------------------------------------------------ *)
(** ** Open sessions along a history *)

Lemma snoc_split {A} (l before after : list A) x y :
  l ++ [x] = before ++ y :: after ->
  (after = [] /\ l = before /\ x = y) \/
  exists after', after = after' ++ [x] /\ l = before ++ y :: after'.
Proof.
  intros Heq. destruct after as [|z after _] using rev_ind.
  - left. apply app_inj_tail in Heq as [-> ->]. done.
  - right. exists after. rewrite app_comm_cons, app_assoc in Heq. by apply app_inj_tail in Heq as [-> ->].
Qed.

Lemma open_in_opened users events i write r k :
  opens write = Some k -> open_in users (events ++ [(i, Wrote write r true)]) k.
Proof. intros Hopens. exists events, i, write, r, []. split_and!; [done..|]. set_solver. Qed.

Lemma open_in_keep users events i e k :
  (forall write r, e = Wrote write r true -> closes users write k = false) ->
  open_in users events k -> open_in users (events ++ [(i, e)]) k.
Proof.
  intros Hkeep (before & j & w & r & after & -> & Hopens & Hafter).
  exists before, j, w, r, (after ++ [(i, e)]). rewrite <- app_assoc. split_and!; [done..|].
  intros j' w' r' [Hin|[= -> <-]%list_elem_of_singleton]%elem_of_app; eauto.
Qed.

Lemma open_in_snoc users events i e k :
  open_in users (events ++ [(i, e)]) k ->
  (exists write r, e = Wrote write r true /\ opens write = Some k) \/
  (open_in users events k /\ forall write r, e = Wrote write r true -> closes users write k = false).
Proof.
  intros (before & j & w & r & after & Heq & Hopens & Hafter).
  apply snoc_split in Heq as [(-> & -> & [= -> ->])|(after' & -> & ->)]; [left; eauto|].
  right. split.
  - exists before, j, w, r, after'. split_and!; [done..|]. intros. eapply Hafter. apply elem_of_app. eauto.
  - intros w' r' ->. apply (Hafter i w' r'). set_solver.
Qed.

Lemma closes_mono users users' write k :
  identity <$> users `prefix_of` identity <$> users' ->
  closes users' write k = false -> closes users write k = false.
Proof.
  intros [more Hmore] Hc. destruct write as [| | | | | |name hash []]; try done. cbn in *.
  apply not_true_iff_false. apply not_true_iff_false in Hc. intros (row & Hrow & Hp)%existsb_fmap. apply Hc.
  assert (identity row ∈ identity <$> users') as (row' & Heq & Hrow')%list_elem_of_fmap
    by (rewrite Hmore; apply elem_of_app; left; by apply list_elem_of_fmap_2).
  apply existsb_fmap. exists row'. split; [done|]. injection Heq as Hid Hname.
  unfold has_username, has_user_id in *. congruence.
Qed.

Lemma closes_stable users users' write k :
  identity <$> users `prefix_of` identity <$> users' -> NoDup (users_id <$> users') ->
  key_user k ∈ users_id <$> users ->
  closes users write k = false -> closes users' write k = false.
Proof.
  intros [more Hmore] Hnd Hk Hc. destruct write as [| | | | | |name hash []]; try done. cbn in *.
  apply not_true_iff_false. apply not_true_iff_false in Hc.
  intros (row & Hrow & [Hn Hid]%andb_true_iff)%existsb_fmap. apply Hc. apply existsb_fmap.
  apply list_elem_of_fmap in Hk as (u & Hk & Hu).
  assert (identity u ∈ identity <$> users') as (u' & Heq & Hu')%list_elem_of_fmap
    by (rewrite Hmore; apply elem_of_app; left; by apply list_elem_of_fmap_2).
  injection Heq as Hid' Hname. apply Z.eqb_eq in Hid. exists u. split; [done|].
  assert (u' = row) as ->.
  { apply list_elem_of_lookup in Hu' as [a Ha], Hrow as [b Hb].
    enough (a = b) by congruence. eapply (NoDup_lookup _ _ _ _ Hnd).
    - by rewrite list_lookup_fmap, Ha.
    - rewrite list_lookup_fmap, Hb. cbn. congruence. }
  unfold has_username, has_user_id in *. rewrite Hname, Hn. cbn. apply Z.eqb_eq. congruence.
Qed.

Lemma open_in_users users users' events k :
  (forall write, closes users write k = false -> closes users' write k = false) ->
  open_in users events k -> open_in users' events k.
Proof. intros Hc (before & i & w & r & after & -> & Hopens & Hafter). exists before, i, w, r, after. eauto 10. Qed.

(** The sessions of the table are those open in the history. *)
Definition sessions_follow (t : AuthTables) (events : list (nat * AuthEvent)) : Prop :=
  forall k, k ∈ sessions_in t <-> open_in (users_table t) events k.

Lemma session_owner t k : tables_wf t -> k ∈ sessions_in t -> key_user k ∈ users_id <$> users_table t.
Proof. intros Hwf (row & -> & Hrow)%list_elem_of_fmap. by apply (wf_owners t Hwf). Qed.

Lemma sessions_follow_write write t t' events i r :
  write_effect write t t' -> tables_wf t -> sessions_follow t events ->
  sessions_follow t' (events ++ [(i, Wrote write r true)]).
Proof.
  intros [Hwf' Hsessions Husers] Hwf Hfollow k. rewrite Hsessions. split.
  - intros [Hopens|[Hk Hc]]; [by apply open_in_opened|].
    pose proof (session_owner t k Hwf Hk) as Hown.
    assert (forall w, closes (users_table t) w k = false -> closes (users_table t') w k = false) as Hstable
      by (intros w; eapply closes_stable; [done|apply Hwf'|done]).
    apply open_in_keep.
    + intros w r' [= <- _]. auto.
    + eapply open_in_users; [done|]. by apply Hfollow.
  - intros [(w & r' & [= <- _] & Hopens)|[Hopen Hc]]%open_in_snoc; [by left|]. right. split.
    + apply Hfollow. eapply open_in_users; [|done]. intros w. by apply closes_mono.
    + eapply closes_mono; [done|]. by eapply Hc.
Qed.

(* ------------------------------------------------------------------ *)
(** ** What a request has done *)

Section System.
Context `{Sha256, PasswordHashing} (config : AuthServiceConfig).

(** [rest] is what is left of [m] after the calls of [events]. *)
Fixpoint resumes {A} (m : future A) (events : list AuthEvent) (rest : future A)
    {struct events} : Prop :=
  match events with
  | [] => rest = m
  | event :: events =>
      match m, event with
      | Clock_now k, Saw_time r => resumes (k r) events rest
      | Generate_token k, Drew_token r => resumes (k r) events rest
      | New_uuid k, Drew_uuid id => resumes (k id) events rest
      | Verify_blocking hash candidate k, Verified hash' candidate' r =>
          hash' = hash /\ candidate' = candidate /\ resumes (k r) events rest
      | Select_user name k, Read_user name' r => name' = name /\ resumes (k r) events rest
      | Select_session hash k, Read_session hash' r => hash' = hash /\ resumes (k r) events rest
      | Select_sessions user k, Read_sessions user' r => user' = user /\ resumes (k r) events rest
      | Execute write k, Wrote write' r _ => write' = write /\ resumes (k r) events rest
      | _, _ => False
      end
  end.

(** An event tells the truth about the tables it was answered from. *)
Definition truthful (t : AuthTables) (event : AuthEvent) : Prop :=
  match event with
  | Verified hash candidate (Ok r) => r = Argon2_verify_candidate hash candidate
  | Read_user name (Ok row) => row = List.find (has_username name) (users_table t)
  | Read_session hash (Ok row) => row = select_session hash t
  | Read_sessions user (Ok rows) => rows = select_sessions user t
  | _ => True
  end.

Lemma resumes_app {A} (m m' rest : future A) events more :
  resumes m events m' -> resumes m' more rest -> resumes m (events ++ more) rest.
Proof.
  revert m. induction events as [|e events IH]; intros m; cbn; [by intros ->|].
  destruct m, e; try done; naive_solver.
Qed.

Lemma answer_ok {A} fate (a x : A) : answer fate a = Ok x -> x = a.
Proof. unfold answer. destruct (fate_fault fate); naive_solver. Qed.

Lemma write_answer_cases fate write t r landed t' :
  write_answer fate write t = (r, landed, t') ->
  (landed = false /\ t' = t /\ exists cause, r = Err cause) \/
  (landed = true /\ exists report, run_write write t = Some (report, t') /\ (r = Ok report \/ exists cause, r = Err cause)).
Proof. unfold write_answer. destruct (fate_fault fate), (run_write write t) as [[]|]; naive_solver. Qed.

Lemma performed {A} fate (m : future A) t event t' rest :
  perform fate m t = Some (event, t', rest) ->
  resumes m [event] rest /\ truthful t event /\
  ((t' = t /\ forall write r, event <> Wrote write r true) \/
   exists write r report, event = Wrote write r true /\ run_write write t = Some (report, t')).
Proof.
  destruct m; cbn [perform]; try done;
    try (intros [= <- <- <-]; split; [cbn; auto|split; [cbn; auto|by left]];
         (destruct (answer _ _) eqn:Ha; [by apply answer_ok in Ha|done])).
  destruct (write_answer _ _ _) as [[r landed] t1] eqn:Hw. intros [= <- <- <-]. cbn. split_and!; auto.
  apply write_answer_cases in Hw as [(-> & -> & _)|(-> & report & Hrun & _)]; [left|right]; naive_solver.
Qed.

(** The calls of one request. *)
Definition calls_of (i : nat) (events : list (nat * AuthEvent)) : list AuthEvent :=
  snd <$> List.filter (fun call => (call.1 =? i)%nat) events.
#[local] Arguments calls_of : simpl never.

Lemma calls_of_snoc i j e events :
  calls_of i (events ++ [(j, e)]) = calls_of i events ++ (if decide (j = i) then [e] else []).
Proof.
  unfold calls_of. rewrite List.filter_app, fmap_app. cbn. destruct (Nat.eqb_spec j i), (decide (j = i)); done.
Qed.

Lemma elem_of_calls i e events : e ∈ calls_of i events <-> (i, e) ∈ events.
Proof.
  unfold calls_of. rewrite list_elem_of_fmap. split.
  - intros ([j e'] & -> & Hin). apply list_elem_of_In, List.filter_In in Hin as [Hin Hj].
    apply Nat.eqb_eq in Hj as <-. by apply list_elem_of_In.
  - intros Hin. exists (i, e). split; [done|]. apply list_elem_of_In, List.filter_In.
    rewrite <- list_elem_of_In. cbn. by rewrite Nat.eqb_refl.
Qed.

(** The tables an event was answered from. *)
Definition answered_from (t : AuthTables) (before : list (nat * AuthEvent)) (event : AuthEvent) : Prop :=
  tables_wf t /\ sessions_follow t before /\ truthful t event.

Record system_ok (s : AuthSystem) : Prop := {
  ok_tables : tables_wf (tables s);
  ok_sessions : sessions_follow (tables s) (history s);
  ok_threads i thread : threads s !! i = Some thread ->
    resumes (serve config (thread_request thread)) (calls_of i (history s)) (thread_rest thread);
  ok_known i event : (i, event) ∈ history s -> (i < length (threads s))%nat;
  ok_past before i event after : history s = before ++ (i, event) :: after ->
    exists t, answered_from t before event /\
              identity <$> users_table t `prefix_of` identity <$> users_table (tables s)
}.

Lemma start_ok : system_ok start.
Proof.
  split; cbn.
  - split; cbn; try constructor. set_solver.
  - intros k. split; [set_solver|]. intros (before & ? & ? & ? & ? & Heq & _). by destruct before.
  - done.
  - set_solver.
  - intros before ? ? ? Heq. by destruct before.
Qed.

Lemma arrive_ok s request : system_ok s -> system_ok (move config s (Arrive request)).
Proof.
  intros [Hwf Hsessions Hthreads Hknown Hpast]. split; cbn; try done.
  - intros i thread [Hi|[Hge Hi]]%lookup_app_Some; [by apply Hthreads|].
    apply list_lookup_singleton_Some in Hi as [Hi <-]. cbn.
    replace (calls_of i (history s)) with ([] : list AuthEvent); [exact eq_refl|].
    destruct (calls_of i (history s)) as [|e es] eqn:Hcalls; [done|].
    assert (e ∈ calls_of i (history s)) as He%elem_of_calls by (rewrite Hcalls; set_solver).
    apply Hknown in He. lia.
  - intros i e Hin. rewrite length_app. specialize (Hknown i e Hin). lia.
Qed.

Lemma perform_ok s i thread fate event t rest :
  system_ok s -> threads s !! i = Some thread ->
  perform fate (thread_rest thread) (tables s) = Some (event, t, rest) ->
  system_ok (mkAuthSystem t (<[i := mkThread (thread_request thread) rest]> (threads s))
               (history s ++ [(i, event)])).
Proof.
  intros [Hwf Hsessions Hthreads Hknown Hpast] Hi Hrun.
  apply performed in Hrun as (Hresumes & Htrue & Hwrite).
  assert (tables_wf t /\ sessions_follow t (history s ++ [(i, event)]) /\
          identity <$> users_table (tables s) `prefix_of` identity <$> users_table t) as (Hwf' & Hfollow & Hgrow).
  { destruct Hwrite as [[-> Hno]|(write & r & report & -> & Hrun)].
    - split_and!; [done| |done]. intros k. rewrite (Hsessions k). split.
      + apply open_in_keep. intros w r ->. by destruct (Hno w r).
      + intros [(w & r & -> & _)|[Hopen _]]%open_in_snoc; [by destruct (Hno w r)|done].
    - apply run_write_effect in Hrun as Heffect; [|done].
      split_and!; [apply Heffect|by eapply sessions_follow_write|apply Heffect]. }
  split; cbn; [done|done|..].
  - intros j thread' Hj. rewrite calls_of_snoc. destruct (decide (i = j)) as [<-|Hne].
    + rewrite list_lookup_insert_eq in Hj by (by eapply lookup_lt_Some). injection Hj as <-. cbn.
      eapply resumes_app; [by apply Hthreads|done].
    + rewrite list_lookup_insert_ne in Hj by done. rewrite app_nil_r. by apply Hthreads.
  - intros j e [Hin|[= -> ->]%list_elem_of_singleton]%elem_of_app; rewrite length_insert; [eauto|].
    by eapply lookup_lt_Some.
  - intros before j e after [(-> & <- & [= -> ->])|(after' & -> & Heq)]%snoc_split.
    + by exists (tables s).
    + destruct (Hpast before j e after' Heq) as (t0 & ? & ?). exists t0. split; [done|]. by etrans.
Qed.

Lemma move_ok s m : system_ok s -> system_ok (move config s m).
Proof.
  destruct m as [request|i fate]; [apply arrive_ok|]. intros Hok. cbn.
  destruct (threads s !! i) as [thread|] eqn:Hi; [|done].
  destruct (perform _ _ _) as [[[event t] rest]|] eqn:Hrun; [|done]. by eapply perform_ok.
Qed.

Lemma run_moves_ok moves : system_ok (run_moves config moves).
Proof.
  unfold run_moves. generalize start, start_ok. induction moves as [|m moves IH]; intros s Hok; cbn; [done|].
  by apply IH, move_ok.
Qed.

(* ------------------------------------------------------------------ *)
(** ** What requests do *)

(** After the calls of [past], every write [m] goes on to make is one [W] allows
    there, and [Q] holds of the calls and the value it ends with. *)
Fixpoint wp {A} (past : list AuthEvent) (m : future A) (W : list AuthEvent -> AuthWrite -> Prop)
    (Q : list AuthEvent -> A -> Prop) : Prop :=
  match m with
  | Ready a => Q past a
  | Clock_now k => forall r, wp (past ++ [Saw_time r]) (k r) W Q
  | Generate_token k => forall r, wp (past ++ [Drew_token r]) (k r) W Q
  | New_uuid k => forall id, wp (past ++ [Drew_uuid id]) (k id) W Q
  | Verify_blocking hash candidate k => forall r, wp (past ++ [Verified hash candidate r]) (k r) W Q
  | Select_user name k => forall r, wp (past ++ [Read_user name r]) (k r) W Q
  | Select_session hash k => forall r, wp (past ++ [Read_session hash r]) (k r) W Q
  | Select_sessions user k => forall r, wp (past ++ [Read_sessions user r]) (k r) W Q
  | Execute write k => W past write /\ forall r landed, wp (past ++ [Wrote write r landed]) (k r) W Q
  end.

Lemma wp_sound_from {A} past (m : future A) events rest W Q :
  wp past m W Q -> resumes m events rest ->
  (forall before write r landed after, events = before ++ Wrote write r landed :: after -> W (past ++ before) write) /\
  (forall a, rest = Ready a -> Q (past ++ events) a).
Proof.
  revert past m. induction events as [|e events IH]; intros past m Hwp Hresumes.
  - cbn in Hresumes. subst rest. split; [by intros []|]. intros a ->. by rewrite app_nil_r.
  - assert (exists m', wp (past ++ [e]) m' W Q /\ resumes m' events rest /\
      forall write r landed, e = Wrote write r landed -> W past write) as (m' & Hwp' & Hresumes' & Hw).
    { destruct m, e; try done; cbn in Hwp, Hresumes; destruct_and?; subst; eexists; split_and!; eauto; naive_solver. }
    destruct (IH _ _ Hwp' Hresumes') as [Hwrites Hend]. rewrite <- app_assoc in Hend. split; [|done].
    intros before write r landed after Heq. destruct before as [|e' before]; cbn in Heq; injection Heq as -> ->.
    + rewrite app_nil_r. eauto.
    + specialize (Hwrites before write r landed after eq_refl). by rewrite <- app_assoc in Hwrites.
Qed.

Lemma wp_ready {A} past (a : A) W (Q : list AuthEvent -> A -> Prop) : Q past a -> wp past (Ready a) W Q.
Proof. done. Qed.

Lemma wp_and_then {A B} past (f : A -> future B) (m : future A) W Q :
  wp past m W (fun past a => wp past (f a) W Q) -> wp past (and_then f m) W Q.
Proof. revert past. induction m; cbn; naive_solver. Qed.

Lemma wp_weaken {A} past (m : future A) W (Q Q' : list AuthEvent -> A -> Prop) :
  (forall past a, Q past a -> Q' past a) -> wp past m W Q -> wp past m W Q'.
Proof. intros HQ. revert past. induction m; cbn; naive_solver. Qed.

Lemma wp_bind {E A B} past (f : A -> fallible E B) (m : fallible E A) W Q :
  wp past m W (fun past r => match r with Ok a => wp past (f a) W Q | Err e => Q past (Err e) end) ->
  wp past (mbind f m) W Q.
Proof. intros Hwp. apply wp_and_then. eapply wp_weaken; [|done]. by intros past' []. Qed.

Lemma wp_dependency {A} past operation (m : fallible DependencyError A) W Q :
  wp past m W (fun past r => Q past (map_err (Auth_Dependency operation) r)) ->
  wp past (dependency operation m) W Q.
Proof. intros Hwp. apply wp_and_then. exact Hwp. Qed.

(** The calls a login makes before it opens a session: the clock, the token,
    the user's row and the verifier's consent to its hash. *)
Definition opened_by_login (request : AuthRequest) (past : list AuthEvent) (write : AuthWrite) : Prop :=
  forall session, opens write = Some session ->
  exists name password row now token,
    request = Login name password /\
    Read_user name (Ok (Some row)) ∈ past /\
    Verified (Some (users_password_hash row)) password (Ok (Ok true)) ∈ past /\
    Saw_time (Ok now) ∈ past /\ Drew_token (Ok token) ∈ past /\
    checked_add_days now (session_ttl_days config) = Ok (key_expires_at session) /\
    key_token_hash session = session_token_hash token /\
    key_user session = users_id row /\ key_created_at session = now.

Lemma verified_user_wp name password past (W : list AuthEvent -> AuthWrite -> Prop) Q :
  (forall error past, Q past (Err error)) ->
  (forall row past, Read_user name (Ok (Some row)) ∈ past ->
    Verified (Some (users_password_hash row)) password (Ok (Ok true)) ∈ past ->
    Q past (Ok (mkUserCredentialRecord (mkUserInfo (users_id row) (users_username row)) (users_password_hash row)))) ->
  wp past (verified_user name password) W Q.
Proof.
  intros Herr Hok. unfold verified_user. destruct (_ || _); [by apply Herr|].
  apply wp_bind, wp_dependency. intros [[row|]|cause]; [| |by apply Herr];
    apply wp_bind, wp_dependency; intros [[[]|cause]|cause]; try by apply Herr.
  apply Hok; set_solver.
Qed.

Lemma login_wp name password :
  wp [] (serve config (Login name password)) (opened_by_login (Login name password)) (fun _ _ => True).
Proof.
  unfold serve, replying, login. apply wp_and_then, wp_bind, verified_user_wp; [done|].
  intros row past Hrow Hverified. apply wp_bind, wp_dependency. intros [now|cause]; [|done].
  apply wp_bind, wp_ready. destruct (checked_add_days now _) as [expires_at|] eqn:Hexpires; [|done].
  apply wp_bind, wp_dependency. intros [token|cause]; [|done].
  apply wp_bind, wp_dependency. intros id. apply wp_bind. cbn. split.
  - intros session [= <-]. exists name, password, row, now, token. cbn.
    split_and!; [done|set_solver..|done|done|done|done].
  - by intros [] _.
Qed.

(** Why a request is let in: the row it read, with its user's name, expires
    after the time it saw. *)
Definition let_in_by (token : string) (past : list AuthEvent) (user : UserInfo) (expires_at : Z) : Prop :=
  exists now row name,
    Saw_time (Ok now) ∈ past /\
    Read_session (session_token_hash token) (Ok (Some (row, Some name))) ∈ past /\
    expires_at = sessions_expires_at row /\ now < expires_at /\ user = mkUserInfo (sessions_user_id row) name.

(** What looking a session up may write. *)
Definition housekeeping (token : string) (write : AuthWrite) : Prop :=
  write = Delete_token (session_token_hash token) \/
  exists now, write = Update_last_seen now (session_token_hash token).

Lemma authenticate_wp past token touch W Q :
  (forall past write, housekeeping token write -> W past write) ->
  (forall past r, (forall user expires_at, r = Ok (Lookup_Authenticated user expires_at) ->
    let_in_by token past user expires_at) -> Q past r) ->
  wp past (authenticate config token touch) W Q.
Proof.
  intros HW HQ. unfold authenticate. destruct (_ || _); [by apply HQ|].
  apply wp_bind, wp_dependency. intros [now|cause]; [|by apply HQ]. apply wp_dependency, wp_bind.
  intros [[[row name]|]|cause]; [|by apply HQ..]. apply wp_ready.
  cbn zeta. destruct (Z.leb_spec (sessions_expires_at row) now) as [Hle|Hlt].
  { apply wp_bind. split; [apply HW; by left|]. intros [] ?; by apply HQ. }
  destruct name as [name|]; [|by apply HQ].
  assert (forall past, Saw_time (Ok now) ∈ past ->
    Read_session (session_token_hash token) (Ok (Some (row, Some name))) ∈ past ->
    Q past (Ok (Lookup_Authenticated (mkUserInfo (sessions_user_id row) name) (sessions_expires_at row)))) as Hin.
  { intros past' ? ?. apply HQ. intros user expires_at [= <- <-]. exists now, row, name. split_and!; auto. }
  destruct touch; [|apply Hin; set_solver]. destruct (_ <=? _); [apply Hin; set_solver|].
  apply wp_bind. split; [apply HW; right; eauto|].
  intros [[[|rows]| |]|cause] landed; try (apply Hin; set_solver); by apply HQ.
Qed.

Lemma housekeeping_opens token write : housekeeping token write -> opens write = None.
Proof. by intros [->|[now ->]]. Qed.

Lemma serve_authenticate_wp token touch :
  wp [] (serve config (Authenticate token touch)) (fun _ write => opens write = None) (fun past reply =>
    forall user expires_at, reply = Reply_lookup (Ok (Lookup_Authenticated user expires_at)) ->
    let_in_by token past user expires_at).
Proof.
  unfold serve, replying. apply wp_and_then, authenticate_wp.
  - intros past write. apply housekeeping_opens.
  - intros past r Hr user expires_at [= ->]. by apply Hr.
Qed.

Lemma serve_opens_nothing request :
  (forall name password, request <> Login name password) ->
  wp [] (serve config request) (fun _ write => opens write = None) (fun _ _ => True).
Proof.
  intros Hne. destruct request as [name password|name password|token touch|user|user token|user id|name hash c|name hash revoke];
    unfold serve, replying.
  - by destruct (Hne name password).
  - apply wp_and_then. unfold verify_credentials. by apply wp_bind, verified_user_wp.
  - eapply wp_weaken; [|apply (serve_authenticate_wp token touch)]. done.
  - apply wp_and_then, wp_bind, wp_dependency, wp_bind. split; [done|]. by intros [].
  - apply wp_and_then, wp_bind, wp_dependency, wp_bind. by intros [].
  - apply wp_and_then. unfold revoke_session. destruct (_ || _); [done|].
    apply wp_dependency, wp_bind. split; [done|]. by intros [].
  - apply wp_and_then, wp_bind. split; [done|]. by intros [].
  - apply wp_and_then, wp_bind. split; [done|]. by intros [].
Qed.

(** Every write of a request that opens a session is that of a login. *)
Lemma serve_opens_by_login request calls rest before write r landed after :
  resumes (serve config request) calls rest -> calls = before ++ Wrote write r landed :: after ->
  opened_by_login request before write.
Proof.
  intros Hresumes Heq. destruct request as [name password| | | | | | | ] eqn:Hrequest.
  { destruct (wp_sound_from _ _ _ _ _ _ (login_wp name password) Hresumes) as [Hw _]. by eapply Hw. }
  all: rewrite <- Hrequest in Hresumes; pose proof (serve_opens_nothing request) as Hnone;
    destruct (wp_sound_from _ _ _ _ _ _ (Hnone ltac:(by rewrite Hrequest)) Hresumes) as [Hw _];
    intros session Hs; by rewrite (Hw _ _ _ _ _ Heq) in Hs.
Qed.

(* ------------------------------------------------------------------ *)
(** ** Whom the server lets in *)

(** C11: The sessions in the table are exactly those a write of the history opened
    and no later one closed, whatever requests ran, in whatever order their
    calls were made and wherever they failed. *)
Theorem sessions_are_open_until_closed moves session :
  let s := run_moves config moves in
  session ∈ sessions_in (tables s) <-> open_in (users_table (tables s)) (history s) session.
Proof. apply (ok_sessions _ (run_moves_ok moves)). Qed.

Lemma calls_of_split i event before after :
  calls_of i (before ++ (i, event) :: after) = calls_of i before ++ event :: calls_of i after.
Proof.
  unfold calls_of. rewrite List.filter_app, fmap_app. cbn. by rewrite Nat.eqb_refl.
Qed.

Lemma past_event s i event :
  system_ok s -> (i, event) ∈ history s ->
  exists t before, answered_from t before event /\
    identity <$> users_table t `prefix_of` identity <$> users_table (tables s).
Proof.
  intros Hok (before & after & Heq)%list_elem_of_split.
  destruct (ok_past s Hok _ _ _ _ Heq) as (t & ? & ?). by exists t, before.
Qed.

(** Two rows of one user, read at different times, carry the same name. *)
Lemma names_are_stable (s : AuthSystem) t t' (row row' : UserRow) :
  system_ok s ->
  identity <$> users_table t `prefix_of` identity <$> users_table (tables s) ->
  identity <$> users_table t' `prefix_of` identity <$> users_table (tables s) ->
  row ∈ users_table t -> row' ∈ users_table t' -> users_id row = users_id row' ->
  users_username row = users_username row'.
Proof.
  intros Hok [more Hmore] [more' Hmore'] Hrow Hrow' Hid.
  assert (identity row ∈ identity <$> users_table (tables s)) as [a Ha]%list_elem_of_lookup
    by (rewrite Hmore; apply elem_of_app; left; by apply list_elem_of_fmap_2).
  assert (identity row' ∈ identity <$> users_table (tables s)) as [b Hb]%list_elem_of_lookup
    by (rewrite Hmore'; apply elem_of_app; left; by apply list_elem_of_fmap_2).
  pose proof (wf_user_ids _ (ok_tables s Hok)) as Hnd. rewrite fmap_identity_ids in Hnd.
  assert (a = b) as ->; [|by simplify_eq].
  eapply (NoDup_lookup _ _ _ _ Hnd).
  - by rewrite list_lookup_fmap, Ha.
  - rewrite list_lookup_fmap, Hb. cbn. by rewrite Hid.
Qed.

(** Request [j] is the login that opened a session: it gave the name of a user
    and a password the verifier accepts for the hash it read in that user's row,
    and drew the token. *)
Definition login_of (s : AuthSystem) (j : nat) (user : UserInfo) (token : string) (session : Session) : Prop :=
  exists password rest row now,
    threads s !! j = Some (mkThread (Login (username user) password) rest) /\
    (j, Read_user (username user) (Ok (Some row))) ∈ history s /\
    (j, Saw_time (Ok now)) ∈ history s /\ (j, Drew_token (Ok token)) ∈ history s /\
    verify_password (users_password_hash row) password = Ok true /\
    user_id user = users_id row /\ key_user session = users_id row /\
    key_token_hash session = session_token_hash token /\
    checked_add_days now (session_ttl_days config) = Ok (key_expires_at session).

Lemma opened_login s before j write r after session :
  system_ok s -> history s = before ++ (j, Wrote write r true) :: after -> opens write = Some session ->
  exists name token, login_of s j (mkUserInfo (key_user session) name) token session /\
    exists t (row : UserRow), row ∈ users_table t /\ users_username row = name /\ users_id row = key_user session /\
      identity <$> users_table t `prefix_of` identity <$> users_table (tables s).
Proof.
  intros Hok Heq Hopens.
  assert (is_Some (threads s !! j)) as [[request rest] Hj].
  { apply lookup_lt_is_Some. apply (ok_known s Hok j (Wrote write r true)). rewrite Heq. set_solver. }
  pose proof (ok_threads s Hok j _ Hj) as Hresumes. cbn in Hresumes.
  rewrite Heq, calls_of_split in Hresumes.
  pose proof (serve_opens_by_login _ _ _ _ _ _ _ _ Hresumes eq_refl session Hopens)
    as (name & password & row & now & token & -> & Hrow & Hverified & Hnow & Htoken & Hexpires & Hhash & Huser & _).
  assert (forall e, e ∈ calls_of j before -> (j, e) ∈ history s) as Hin.
  { intros e He%elem_of_calls. rewrite Heq. set_solver. }
  apply Hin in Hrow, Hverified, Hnow, Htoken.
  destruct (past_event s j _ Hok Hrow) as (t & b & (_ & _ & Htrue) & Hgrow). cbn in Htrue.
  symmetry in Htrue. apply List.find_some in Htrue as [Hmem Hname]. apply list_elem_of_In in Hmem.
  apply String.eqb_eq in Hname.
  destruct (past_event s j _ Hok Hverified) as (t' & b' & (_ & _ & Htrue') & _). cbn in Htrue'.
  unfold Argon2_verify_candidate in Htrue'. cbn in Htrue'.
  destruct (verify_password _ _) as [valid|] eqn:Hvalid; [|done]. cbn in Htrue'. injection Htrue' as <-.
  exists name, token. split; [|by exists t, row]. exists password, rest, row, now. by split_and!.
Qed.

Lemma followed_sessions_stay_open s t before k :
  system_ok s -> tables_wf t -> sessions_follow t before ->
  identity <$> users_table t `prefix_of` identity <$> users_table (tables s) ->
  k ∈ sessions_in t -> open_in (users_table (tables s)) before k.
Proof.
  intros Hok Hwf Hfollow Hgrow Hk. eapply open_in_users; [|by apply Hfollow].
  intros w. eapply closes_stable; [done|apply (ok_tables s Hok)|by apply session_owner].
Qed.

Lemma select_session_some hash t row name :
  select_session hash t = Some (row, Some name) ->
  row ∈ sessions_table t /\ sessions_token_hash row = hash /\
  exists user, user ∈ users_table t /\ users_id user = sessions_user_id row /\ users_username user = name.
Proof.
  unfold select_session. destruct (List.find (has_token_hash hash) _) as [row'|] eqn:Hrow; [cbn|done].
  destruct (List.find _ (users_table t)) as [user|] eqn:Huser; [cbn|done]. intros [= <- <-].
  apply List.find_some in Hrow as [Hrow Hhash%String.eqb_eq], Huser as [Huser Hid%Z.eqb_eq].
  apply list_elem_of_In in Hrow, Huser. eauto 10.
Qed.

(** C10: A request is let in only on a session that was open when it looked and had
    not expired at the time it saw; the session was opened by a login under the
    user's name whose password the verifier accepted for that user's hash, and
    the token it drew hashes as the one presented. *)
Theorem requests_are_let_in_on_open_sessions moves i token touch user expires_at :
  let s := run_moves config moves in
  threads s !! i = Some (mkThread (Authenticate token touch)
    (Ready (Reply_lookup (Ok (Lookup_Authenticated user expires_at))))) ->
  exists before after found now session j drawn,
    history s = before ++ (i, Read_session (session_token_hash token) (Ok found)) :: after /\
    open_in (users_table (tables s)) before session /\
    (i, Saw_time (Ok now)) ∈ history s /\ now < expires_at /\ key_expires_at session = expires_at /\
    login_of s j user drawn session /\ session_token_hash drawn = session_token_hash token.
Proof.
  intros s Hi. pose proof (run_moves_ok moves) as Hok. fold s in Hok.
  pose proof (ok_threads s Hok i _ Hi) as Hresumes. cbn [thread_request thread_rest] in Hresumes.
  destruct (wp_sound_from _ _ _ _ _ _ (serve_authenticate_wp token touch) Hresumes) as [_ Hend].
  destruct (Hend _ eq_refl user expires_at eq_refl) as (now & row & name & Hnow & Hread & -> & Hlt & ->).
  cbn [app] in Hnow, Hread. apply elem_of_calls in Hnow, Hread.
  apply list_elem_of_split in Hread as (before & after & Heq).
  destruct (ok_past s Hok _ _ _ _ Heq) as (t & (Hwf & Hfollow & Htrue) & Hgrow). cbn in Htrue.
  symmetry in Htrue. apply select_session_some in Htrue as (Hrow & Hhash & owner & Howner & Hid & Hname).
  set (session := session_key row).
  assert (open_in (users_table (tables s)) before session) as Hopen
    by (eapply followed_sessions_stay_open; try done; by apply list_elem_of_fmap_2).
  pose proof Hopen as (b & j & write & r & a & -> & Hopens & _). rewrite <- app_assoc in Heq. cbn in Heq.
  destruct (opened_login s b j write r _ session Hok Heq Hopens)
    as (name' & drawn & Hlogin & t' & u & Hu & Hname' & Hid' & Hgrow').
  assert (name' = name) as ->.
  { rewrite <- Hname, <- Hname'. eapply (names_are_stable s t' t); try done. by rewrite Hid'. }
  exists (b ++ (j, Wrote write r true) :: a), after, (Some (row, Some name)), now, session, j, drawn.
  pose proof Hlogin as (? & ? & ? & ? & ? & ? & ? & ? & ? & ? & ? & Hdrawn & _).
  split_and!; try done; [by rewrite <- app_assoc|]. by rewrite <- Hdrawn, <- Hhash.
Qed.

(* ------------------------------------------------------------------ *)
(** ** Open sessions are let in *)

(** A request that makes its next calls undisturbed and without faults, all at
    one time. *)
Definition calm (now : Z) : Fate := mkFate NoFault now "".

Fixpoint settle (calls : nat) (now : Z) {A} (m : future A) (t : AuthTables) : future A * AuthTables :=
  match calls with
  | O => (m, t)
  | S calls =>
      match perform (calm now) m t with
      | None => (m, t)
      | Some (_, t, m) => settle calls now m t
      end
  end.

Definition alone (s : AuthSystem) (request : AuthRequest) (calls : nat) (now : Z) : AuthSystem :=
  foldl (move config) (move config s (Arrive request)) (replicate calls (Advance (length (threads s)) (calm now))).

Lemma settle_ready calls now {A} (a : A) t : settle calls now (Ready a) t = (Ready a, t).
Proof. by destruct calls. Qed.

Lemma alone_settles s request calls now :
  let '(rest, t) := settle calls now (serve config request) (tables s) in
  threads (alone s request calls now) !! length (threads s) = Some (mkThread request rest) /\
  tables (alone s request calls now) = t.
Proof.
  unfold alone. set (n := length (threads s)).
  assert (forall calls s' m, threads s' !! n = Some (mkThread request m) ->
    let '(rest, t) := settle calls now m (tables s') in
    let final := foldl (move config) s' (replicate calls (Advance n (calm now))) in
    threads final !! n = Some (mkThread request rest) /\ tables final = t) as Hgen.
  { clear calls. intros calls. induction calls as [|calls IH]; intros s' m Hn; cbn [settle replicate foldl]; [done|].
    unfold move at 2 4. rewrite Hn. cbn [thread_rest thread_request].
    destruct (perform (calm now) m (tables s')) as [[[e t] m']|] eqn:Hrun.
    - apply (IH (mkAuthSystem t (<[n := mkThread request m']> (threads s')) (history s' ++ [(n, e)])) m').
      apply list_lookup_insert_eq. by eapply lookup_lt_Some.
    - clear IH. induction calls as [|calls IH]; cbn [replicate foldl]; [done|].
      unfold move at 2 4. rewrite Hn. cbn [thread_rest]. by rewrite Hrun. }
  apply (Hgen calls (move config s (Arrive request)) (serve config request)).
  cbn. subst n. by apply list_lookup_middle.
Qed.

(** The row and the owner of an open session. *)
Lemma open_session_found s session :
  system_ok s -> open_in (users_table (tables s)) (history s) session ->
  exists row owner, session_key row = session /\ users_id owner = key_user session /\
    select_session (key_token_hash session) (tables s) = Some (row, Some (users_username owner)).
Proof.
  intros Hok Hopen. apply (ok_sessions s Hok) in Hopen as (row & -> & Hrow)%list_elem_of_fmap.
  pose proof (ok_tables s Hok) as Hwf. unfold select_session. cbn.
  destruct (List.find (has_token_hash (sessions_token_hash row)) (sessions_table (tables s))) as [row'|] eqn:Hfind.
  - apply List.find_some in Hfind as [Hin Hhash%String.eqb_eq]. apply list_elem_of_In in Hin.
    assert (row' = row) as ->.
    { apply list_elem_of_lookup in Hrow as [a Ha], Hin as [b Hb]. enough (a = b) by congruence.
      eapply (NoDup_lookup _ _ _ _ (wf_token_hashes _ Hwf)).
      - by rewrite list_lookup_fmap, Ha.
      - rewrite list_lookup_fmap, Hb. cbn. by rewrite Hhash. }
    pose proof (wf_owners _ Hwf row Hrow) as (u & Hu & Huin)%list_elem_of_fmap. cbn.
    destruct (List.find (has_user_id (sessions_user_id row)) (users_table (tables s))) as [owner|] eqn:Howner.
    + exists row, owner. split_and!; [done| |done]. by apply List.find_some in Howner as [_ ?%Z.eqb_eq].
    + apply list_elem_of_In in Huin. pose proof (List.find_none _ _ Howner u Huin) as Hne.
      unfold has_user_id in Hne. by rewrite Hu, Z.eqb_refl in Hne.
  - apply list_elem_of_In in Hrow. pose proof (List.find_none _ _ Hfind row Hrow) as Hne.
    unfold has_token_hash in Hne. by rewrite String.eqb_refl in Hne.
Qed.

(** The touch of an unexpired session writes at least its row. *)
Lemma touch_writes now hash t row :
  select_session hash t = Some row -> now < sessions_expires_at row.1 -> is_Some (sqlite_datetime now) ->
  exists rows t', run_write (Update_last_seen now hash) t = Some (Rows_affected (S rows), t').
Proof.
  intros Hrow Hlt [at_ Hat]. unfold select_session in Hrow.
  destruct (List.find (has_token_hash hash) _) as [row'|] eqn:Hfind; [|done]. injection Hrow as <-. cbn in Hlt.
  apply List.find_some in Hfind as [Hin Hhash]. cbn. unfold update_last_seen. rewrite Hat.
  destruct (List.filter _ (sessions_table t)) as [|x rows] eqn:Hfilter; [|by eauto].
  exfalso. assert (In row' []) as []; rewrite <- Hfilter. apply List.filter_In. split; [done|].
  rewrite Hhash. by apply Z.ltb_lt.
Qed.

(** C26: Who presents the token of an open session before it expires, and is not
    disturbed by a fault or another request, is let in as its user. *)
Theorem open_sessions_are_let_in moves token touch now session :
  let s := run_moves config moves in
  open_in (users_table (tables s)) (history s) session ->
  key_token_hash session = session_token_hash token ->
  token <> "" -> (String.length token <= 96)%nat ->
  now < key_expires_at session -> is_Some (sqlite_datetime now) ->
  exists name,
    threads (alone s (Authenticate token touch) 3 now) !! length (threads s) =
    Some (mkThread (Authenticate token touch)
      (Ready (Reply_lookup (Ok (Lookup_Authenticated (mkUserInfo (key_user session) name) (key_expires_at session)))))).
Proof.
  intros s Hopen Hhash Hne Hlen Hlt Hdate. pose proof (run_moves_ok moves) as Hok. fold s in Hok.
  destruct (open_session_found s session Hok Hopen) as (row & owner & <- & Howner & Hselect).
  cbn [session_key key_token_hash key_expires_at key_user] in *. rewrite Hhash in Hselect.
  exists (users_username owner).
  pose proof (alone_settles s (Authenticate token touch) 3 now) as Hsettle.
  enough (exists t, settle 3 now (serve config (Authenticate token touch)) (tables s) =
    (Ready (Reply_lookup (Ok (Lookup_Authenticated (mkUserInfo (sessions_user_id row) (users_username owner))
       (sessions_expires_at row)))), t)) as [t Ht] by (rewrite Ht in Hsettle; apply Hsettle).
  unfold serve, replying, authenticate. destruct (String.eqb_spec token "") as [|_]; [done|].
  destruct (Nat.ltb_spec 96 (String.length token)); [lia|].
  cbn -[select_session session_token_hash run_write i64_saturating_sub]. rewrite Hselect.
  cbn -[session_token_hash run_write i64_saturating_sub].
  destruct (Z.leb_spec (sessions_expires_at row) now); [lia|].
  destruct touch; [|by eexists]. destruct (_ <=? _); [by eexists|].
  destruct (touch_writes now _ _ _ Hselect Hlt Hdate) as (rows & t & Hwrite).
  cbn -[session_token_hash run_write]. unfold write_answer. cbn [calm fate_fault]. rewrite Hwrite. by eexists.
Qed.
End System.
