(* ===== verification/AuthServer.v ===== *)
(** * Sign-in at the server

    [crates/music-server/src/auth.rs]: the gate in front of the password check
    ([RuntimeAuth]), the session cookie, the handlers, and how a time is written
    in an answer. The handlers are futures over the calls of [Auth]; the gate is
    a state of its own that many attempts share. *)

From S2P Require Import Prelude Text Store MediaPath RecoveryJournal Auth AuthStore.

#[local] Open Scope string_scope.
#[local] Open Scope Z_scope.
#[local] Open Scope list_scope.

Definition ARGON2_CONCURRENCY : nat := 2.
Definition LOGIN_THROTTLE_DETAIL : string := "too many login attempts; try again shortly".
Definition INVALID_CREDENTIALS_DETAIL : string := "invalid credentials".
Definition NOT_AUTHENTICATED_DETAIL : string := "not authenticated".

(** The constructors of [ApiError] these handlers use. *)
Inductive ApiError : Type :=
| Api_unauthorized (detail : string)
| Api_too_many_requests (detail : string)
| Api_bad_request (detail : string)
| Api_not_found (detail : string)
| Api_validation
| Api_service_unavailable
| Api_internal.

(* ------------------------------------------------------------------ *)
(** ** The gate *)

(** [password_slots] is the number of permits left. *)
Record RuntimeAuth : Type := mkRuntimeAuth {
  throttle : LoginThrottle;
  password_slots : nat
}.

Definition RuntimeAuth_new : RuntimeAuth :=
  mkRuntimeAuth (LoginThrottle_new LoginThrottleConfig_default) ARGON2_CONCURRENCY.

Inductive LoginError : Type :=
| Throttled
| Login_InvalidCredentials
| Internal (error : AuthServiceError).

(** [throttle.blocked]: the throttle's lock is taken for the question alone. *)
Definition gate_check (key : string) (now : N) (auth : RuntimeAuth) : result LoginError () * RuntimeAuth :=
  let '(blocked, throttle) := blocked_at key now (throttle auth) in
  (if blocked then Err Throttled else Ok (), mkRuntimeAuth throttle (password_slots auth)).

(** [password_slots.try_acquire_owned] *)
Definition gate_acquire (auth : RuntimeAuth) : result LoginError () * RuntimeAuth :=
  match password_slots auth with
  | O => (Err Throttled, auth)
  | S slots => (Ok (), mkRuntimeAuth (throttle auth) slots)
  end.

(** What is made of the service's answer; the permit is still held. *)
Definition gate_answer {A} (key : string) (now : N) (outcome : result AuthServiceError A) (auth : RuntimeAuth)
    : result LoginError A * RuntimeAuth :=
  match outcome with
  | Ok session => (Ok session, mkRuntimeAuth (record_success key (throttle auth)) (password_slots auth))
  | Err InvalidCredentials =>
      (Err Login_InvalidCredentials,
       mkRuntimeAuth (record_failure_at key now (throttle auth)) (password_slots auth))
  | Err error => (Err (Internal error), auth)
  end.

(** The permit is dropped. *)
Definition gate_release (auth : RuntimeAuth) : RuntimeAuth :=
  mkRuntimeAuth (throttle auth) (S (password_slots auth)).

(** [RuntimeAuth::login] and [RuntimeAuth::reauthenticate] around the answer of
    [service.login] and [service.verify_credentials], undisturbed. *)
Definition gated {A} (key : string) (checked answered : N) (outcome : result AuthServiceError A) (auth : RuntimeAuth)
    : result LoginError A * RuntimeAuth :=
  match gate_check key checked auth with
  | (Err error, auth) => (Err error, auth)
  | (Ok _, auth) =>
      match gate_acquire auth with
      | (Err error, auth) => (Err error, auth)
      | (Ok _, auth) => let '(answer, auth) := gate_answer key answered outcome auth in (answer, gate_release auth)
      end
  end.

(* ------------------------------------------------------------------ *)
(** ** The cookie *)

(** [HeaderValue::from_str] of the crate [http]: which texts a header takes. *)
Class HeaderText : Type := { header_valid : string -> bool }.

Record CookieSettings : Type := mkCookieSettings {
  cookie_name : string;
  cookie_secure : bool;
  cookie_domain : option string;
  max_age_seconds : N
}.

Definition cookie_options (settings : CookieSettings) : string :=
  (if cookie_secure settings then "; Secure" else "") +:+
  match cookie_domain settings with Some domain => "; Domain=" +:+ domain | None => "" end.

Definition header_value `{HeaderText} (text : string) : result ApiError string :=
  if header_valid text then Ok text else Err Api_internal.

Definition set_header `{HeaderText} (settings : CookieSettings) (token : string) : result ApiError string :=
  header_value (cookie_name settings +:+ "=" +:+ token +:+ "; Max-Age=" +:+ decimal (max_age_seconds settings)
    +:+ "; Path=/; HttpOnly; SameSite=Lax" +:+ cookie_options settings).

Definition delete_header `{HeaderText} (settings : CookieSettings) : result ApiError string :=
  header_value (cookie_name settings +:+ "=; Max-Age=0; Expires=Thu, 01 Jan 1970 00:00:00 GMT; Path=/; HttpOnly; SameSite=Lax"
    +:+ cookie_options settings).

Fixpoint drop_whitespace (characters : list char) : list char :=
  match characters with
  | character :: rest => if is_whitespace character then drop_whitespace rest else characters
  | [] => []
  end.

(** [text.trim()] *)
Definition trim (text : string) : string :=
  String.concat "" (rev (drop_whitespace (rev (drop_whitespace (chars text))))).

Definition semicolon : Ascii.ascii := Ascii.ascii_of_nat 59.
Definition equals_sign : Ascii.ascii := Ascii.ascii_of_nat 61.

(** [text.split_once(c)] *)
Fixpoint split_once (c : Ascii.ascii) (text : string) : option (string * string) :=
  match text with
  | EmptyString => None
  | String first rest =>
      if Ascii.eqb first c then Some (EmptyString, rest)
      else '(before, after) ← split_once c rest; Some (String first before, after)
  end.

Definition cookie_of_pair (name pair : string) : option string :=
  '(found, value) ← split_once equals_sign (trim pair);
  if String.eqb found name && negb (String.eqb value "") then Some value else None.

(** [iter.find_map(f)] *)
Fixpoint find_map {A B} (f : A -> option B) (l : list A) : option B :=
  match l with
  | [] => None
  | x :: l => match f x with Some y => Some y | None => find_map f l end
  end.

(** The headers as [to_str().ok()] gives them. *)
Definition session_cookie (headers : list (option string)) (name : string) : option string :=
  find_map (fun header => header ← header; find_map (cookie_of_pair name) (split_on semicolon header)) headers.

(* ------------------------------------------------------------------ *)
(** ** Times *)

Definition civil_from_days (days_since_epoch : Z) : Z * Z * Z :=
  let shifted := days_since_epoch + 719468 in
  let era := Z.quot (if 0 <=? shifted then shifted else shifted - 146096) 146097 in
  let day_of_era := shifted - era * 146097 in
  let year_of_era :=
    Z.quot (day_of_era - Z.quot day_of_era 1460 + Z.quot day_of_era 36524 - Z.quot day_of_era 146096) 365 in
  let year := year_of_era + era * 400 in
  let day_of_year := day_of_era - (365 * year_of_era + Z.quot year_of_era 4 - Z.quot year_of_era 100) in
  let month_piece := Z.quot (5 * day_of_year + 2) 153 in
  let day := day_of_year - Z.quot (153 * month_piece + 2) 5 + 1 in
  let month := month_piece + (if month_piece <? 10 then 3 else -9) in
  (year + (if month <=? 2 then 1 else 0), month, day).

(** [{value:0width$}] of a non-negative number. *)
Definition padded (width : nat) (value : Z) : string :=
  let digits := decimal (Z.to_N value) in
  String.concat "" (replicate (width - String.length digits) "0") +:+ digits.

Definition format_rfc3339 (seconds : UnixSeconds) : result ApiError string :=
  let days := seconds / 86400 in
  let seconds_in_day := seconds mod 86400 in
  let '(year, month, day) := civil_from_days days in
  if negb ((0 <=? year) && (year <=? 9999)) then Err Api_internal
  else
    let hour := seconds_in_day / 3600 in
    let minute := (seconds_in_day mod 3600) / 60 in
    let second := seconds_in_day mod 60 in
    Ok (padded 4 year +:+ "-" +:+ padded 2 month +:+ "-" +:+ padded 2 day +:+ "T" +:+
        padded 2 hour +:+ ":" +:+ padded 2 minute +:+ ":" +:+ padded 2 second +:+ "Z").

(* ------------------------------------------------------------------ *)
(** ** The handlers *)

Record CurrentSession : Type := mkCurrentSession {
  current_user : UserInfo;
  current_token : string;
  current_expires_at : UnixSeconds
}.

Record ActiveSessionResponse : Type := mkActiveSessionResponse {
  response_session_id : string;
  response_created_at : string;
  response_expires_at : string;
  response_last_seen : string;
  response_is_current : bool
}.

Definition active_session_response (session : ActiveSession) : result ApiError ActiveSessionResponse :=
  created_at ← format_rfc3339 (active_created_at session);
  expires_at ← format_rfc3339 (active_expires_at session);
  last_seen ← format_rfc3339 (active_last_seen session);
  Ok (mkActiveSessionResponse (active_session_id session) created_at expires_at last_seen
        (active_is_current session)).

(** [.map_err(|error| { tracing::error!(..); ApiError::internal() })] *)
Definition or_internal {A} (m : fallible AuthServiceError A) : fallible ApiError A :=
  map_err_future (fun _ => Api_internal) m.

Section Handlers.
Context `{Sha256, HeaderText} (config : AuthServiceConfig) (cookies : CookieSettings).

(** [available] says whether the server runs with authentication
    ([state.auth]). *)
Definition optional_session (available : bool) (headers : list (option string)) (touch : SessionTouch)
    : fallible ApiError (option CurrentSession) :=
  if negb available then mret None
  else
    match session_cookie headers (cookie_name cookies) with
    | None => mret None
    | Some token =>
        found ← or_internal (authenticate config token touch);
        mret match found with
             | Lookup_Authenticated user expires_at => Some (mkCurrentSession user token expires_at)
             | Lookup_Expired | Lookup_Missing => None
             end
    end.

Definition current_session (available : bool) (headers : list (option string)) (touch : SessionTouch)
    : fallible ApiError CurrentSession :=
  if negb available then fail Api_service_unavailable
  else
    match session_cookie headers (cookie_name cookies) with
    | None => fail (Api_unauthorized NOT_AUTHENTICATED_DETAIL)
    | Some token =>
        found ← or_internal (authenticate config token touch);
        match found with
        | Lookup_Authenticated user expires_at => mret (mkCurrentSession user token expires_at)
        | Lookup_Expired | Lookup_Missing => fail (Api_unauthorized NOT_AUTHENTICATED_DETAIL)
        end
    end.

(** The extractor [Operator] in front of a handler. *)
Definition operator (available : bool) (headers : list (option string)) : fallible ApiError CurrentSession :=
  current_session available headers UpdateLastSeen.

Definition me (available : bool) (headers : list (option string)) : fallible ApiError UserInfo :=
  current ← operator available headers; mret (current_user current).

Definition login_error (error : LoginError) : ApiError :=
  match error with
  | Throttled => Api_too_many_requests LOGIN_THROTTLE_DETAIL
  | Login_InvalidCredentials => Api_unauthorized INVALID_CREDENTIALS_DETAIL
  | Internal _ => Api_internal
  end.

(** What the handler checks before it calls [RuntimeAuth::login], and makes of
    its answer. *)
Definition login_request (available : bool) (name password : string) : result ApiError () :=
  if negb (chars_within 1 64 name) || negb (chars_within 1 256 password) then Err Api_validation
  else if available then Ok () else Err Api_service_unavailable.

Definition login_response (outcome : result LoginError AuthenticatedSession) : result ApiError (UserInfo * string) :=
  session ← map_err login_error outcome;
  cookie ← set_header cookies (session_token session);
  Ok (session_user session, cookie).

Definition logout_handler (available : bool) (headers : list (option string)) : fallible ApiError string :=
  current ← operator available headers;
  _ ← or_internal (logout (user_id (current_user current)));
  yield (delete_header cookies).

Definition list_sessions_handler (available : bool) (headers : list (option string))
    : fallible ApiError (list ActiveSessionResponse) :=
  current ← operator available headers;
  sessions ← or_internal (list_sessions (user_id (current_user current)) (current_token current));
  yield (result_collect active_session_response sessions).

Definition revoke_session_handler (available : bool) (headers : list (option string)) (session_id : string)
    : fallible ApiError () :=
  current ← operator available headers;
  and_then (fun outcome => Ready match outcome with
    | Ok Revoked => Ok ()
    | Ok Revoke_Missing => Err (Api_not_found "no matching session")
    | Err InvalidSessionId => Err (Api_bad_request "invalid session ID")
    | Err _ => Err Api_internal
    end) (revoke_session (user_id (current_user current)) session_id).
End Handlers.

(* ------------------------------------------------------------------ *)
(** ** Attempts at the gate *)

(** How far an attempt is: it passed the throttle and has yet to ask for a
    permit; its request waits for the service; the throttle knows the answer and
    the permit is still held; or its request was dropped, because its client is
    gone, and only the password worker goes on, which nothing aborts. *)
Inductive AttemptPhase : Type := Checked | Awaited | Answered | Abandoned.

Record GateAttempt : Type := mkGateAttempt { attempt_key : string; attempt_phase : AttemptPhase }.

Record Gate : Type := mkGate {
  gate_auth : RuntimeAuth;
  gate_attempts : list GateAttempt;
  (** What the throttle was told, the latest last: the failures with their
      times, and the successes. *)
  gate_log : list (string * option N)
}.

(** The steps between which other threads get at the throttle and the permits. *)
Inductive GateMove : Type :=
| Gate_check (key : string) (now : N)
| Gate_acquire (attempt : nat)
| Gate_answer (attempt : nat) (now : N) (outcome : result AuthServiceError ())
| Gate_release (attempt : nat)
| Gate_drop (attempt : nat)
| Gate_worker_done (attempt : nat).

Definition log_of {A} (key : string) (now : N) (outcome : result AuthServiceError A) : list (string * option N) :=
  match outcome with
  | Ok _ => [(key, None)]
  | Err InvalidCredentials => [(key, Some now)]
  | Err _ => []
  end.

Definition is_checked (attempt : GateAttempt) : bool :=
  match attempt_phase attempt with Checked => true | _ => false end.

(** [workers] is the number of threads of the runtime. Nothing is awaited between
    the throttle's answer and the permit, so an attempt between them occupies a
    thread: there are never more of them than threads. *)
Definition gate_move (workers : nat) (gate : Gate) (m : GateMove) : Gate :=
  let auth := gate_auth gate in
  let attempts := gate_attempts gate in
  match m with
  | Gate_check key now =>
      if (length (List.filter is_checked attempts) <? workers)%nat then
        match gate_check key now auth with
        | (Ok _, auth) => mkGate auth (attempts ++ [mkGateAttempt key Checked]) (gate_log gate)
        | (Err _, auth) => mkGate auth attempts (gate_log gate)
        end
      else gate
  | Gate_acquire i =>
      match attempts !! i with
      | Some (mkGateAttempt key Checked) =>
          match gate_acquire auth with
          | (Ok _, auth) => mkGate auth (<[i := mkGateAttempt key Awaited]> attempts) (gate_log gate)
          | (Err _, auth) => mkGate auth (delete i attempts) (gate_log gate)
          end
      | _ => gate
      end
  | Gate_answer i now outcome =>
      match attempts !! i with
      | Some (mkGateAttempt key Awaited) =>
          mkGate (gate_answer key now outcome auth).2 (<[i := mkGateAttempt key Answered]> attempts)
            (gate_log gate ++ log_of key now outcome)
      | _ => gate
      end
  | Gate_release i =>
      match attempts !! i with
      | Some (mkGateAttempt key Answered) => mkGate (gate_release auth) (delete i attempts) (gate_log gate)
      | _ => gate
      end
  | Gate_drop i =>
      match attempts !! i with
      | Some (mkGateAttempt key Awaited) =>
          mkGate (gate_release auth) (<[i := mkGateAttempt key Abandoned]> attempts) (gate_log gate)
      | _ => gate
      end
  | Gate_worker_done i =>
      match attempts !! i with
      | Some (mkGateAttempt _ Abandoned) => mkGate auth (delete i attempts) (gate_log gate)
      | _ => gate
      end
  end.

Definition gate_new : Gate := mkGate RuntimeAuth_new [] [].
Definition gate_run (workers : nat) (moves : list GateMove) : Gate := foldl (gate_move workers) gate_new moves.
