(* ===== verification/AuthServerSpec.v ===== *)
(** * What the sign-in gate and the written times promise

    The gate of [AuthServer] decides by the failures of the last minute and
    bounds them, over every interleaving of attempts; a time is written as the
    second of the calendar it is. *)

From S2P Require Import Prelude Text Store MediaPath RecoveryJournal Auth AuthStore AuthSpec.
From S2P Require Import AuthServer.

#[local] Open Scope list_scope.
#[local] Open Scope string_scope.
#[local] Open Scope nat_scope.
#[local] Open Scope list_scope.

(* ------------------------------------------------------------------ *)
(** ** The failures a log stands for *)

(** The failures no later success of their key has forgiven. *)
Definition forgiving (standing : list (string * N)) (entry : string * option N) : list (string * N) :=
  match entry with
  | (key, None) => List.filter (fun failure => negb (String.eqb failure.1 key)) standing
  | (key, Some time) => standing ++ [(key, time)]
  end.
Definition standing_failures (log : list (string * option N)) : list (string * N) := foldl forgiving [] log.

Definition is_recent (now window : N) (failure : string * N) : bool := (now - failure.2 <? window)%N.
Definition recent_failures (now window : N) (log : list (string * option N)) : list (string * N) :=
  List.filter (is_recent now window) (standing_failures log).
Definition of_key (key : string) (failures : list (string * N)) : list (string * N) :=
  List.filter (fun failure => String.eqb failure.1 key) failures.

(** The attempts that may still fail, and those that hold a permit. *)
Definition may_fail (attempt : GateAttempt) : bool :=
  match attempt_phase attempt with Checked | Awaited => true | Answered | Abandoned => false end.
Definition may_fail_of (key : string) (attempt : GateAttempt) : bool :=
  may_fail attempt && String.eqb (attempt_key attempt) key.
Definition holds_permit (attempt : GateAttempt) : bool :=
  match attempt_phase attempt with Awaited | Answered => true | Checked | Abandoned => false end.
Definition count (p : GateAttempt -> bool) (gate : Gate) : nat := length (List.filter p (gate_attempts gate)).

Definition window : N := throttle_window LoginThrottleConfig_default.
Definition PER_KEY : nat := per_key_failures LoginThrottleConfig_default.
Definition GLOBAL : nat := global_failures LoginThrottleConfig_default.

Lemma filter_and {A} (p q : A -> bool) l :
  List.filter p (List.filter q l) = List.filter (fun x => q x && p x) l.
Proof. induction l as [|x l IH]; cbn; [done|]. destruct (q x); cbn; [destruct (p x); by rewrite IH|done]. Qed.

Lemma filter_same {A} (p q : A -> bool) l :
  (forall x, x ∈ l -> p x = q x) -> List.filter p l = List.filter q l.
Proof. intros Hpq. apply List.filter_ext_in. intros x Hx. apply Hpq. by apply list_elem_of_In. Qed.



(* ------------------------------------------------------------------ *)
(** ** The throttle's map *)

Definition times_at (key : string) (m : gmap string (list N)) : list N := default [] (m !! key).
Definition recent_time (now time : N) : bool := (now - time <? window)%N.















(* ------------------------------------------------------------------ *)
(** ** The throttle follows the log *)

Lemma recent_time_later now latest time :
  (now <= latest)%N -> recent_time now time && recent_time latest time = recent_time latest time.
Proof. unfold recent_time. intros. destruct (N.ltb_spec (now - time) window), (N.ltb_spec (latest - time) window); cbn; lia || done. Qed.

Lemma filter_later now latest times :
  (now <= latest)%N ->
  List.filter (recent_time latest) (List.filter (recent_time now) times) = List.filter (recent_time latest) times.
Proof. intros. rewrite filter_and. apply filter_same. intros. by apply recent_time_later. Qed.

(** Of each key the throttle keeps some of its standing failures, among them
    all that are recent at the latest time there was. *)
Definition keeps (latest : N) (m : gmap string (list N)) (standing : list (string * N)) : Prop :=
  forall key, times_at key m `sublist_of` (of_key key standing).*2 /\
    List.filter (recent_time latest) (times_at key m) = List.filter (recent_time latest) (of_key key standing).*2.

Lemma keeps_later latest latest' m standing :
  (latest <= latest')%N -> keeps latest m standing -> keeps latest' m standing.
Proof.
  intros Hle Hk key. destruct (Hk key) as [Hsub Heq]. split; [done|].
  by rewrite <- (filter_later latest), Heq, filter_later.
Qed.







(* ------------------------------------------------------------------ *)
(** ** The gate *)


(** At a time no earlier than any so far. The bounds count what the throttle
    keeps and every attempt that may yet fail. *)
Record gate_ok (workers : nat) (latest : N) (g : Gate) : Prop := {
  ok_config : throttle_config (throttle (gate_auth g)) = LoginThrottleConfig_default;
  ok_keeps : keeps latest (failures (throttle (gate_auth g))) (standing_failures (gate_log g));
  ok_slots : password_slots (gate_auth g) + count holds_permit g = ARGON2_CONCURRENCY;
  ok_checked : count is_checked g <= workers;
  ok_global : total_failures (failures (throttle (gate_auth g))) + count may_fail g <= GLOBAL + 1 + workers;
  ok_key key : length (times_at key (failures (throttle (gate_auth g)))) + count (may_fail_of key) g
                 <= PER_KEY + 1 + workers
}.

Lemma gate_ok_later workers latest latest' g :
  (latest <= latest')%N -> gate_ok workers latest g -> gate_ok workers latest' g.
Proof. intros Hle []. split; try done. by eapply keeps_later. Qed.














Lemma gate_release_failures auth : failures (throttle (gate_release auth)) = failures (throttle auth).
Proof. done. Qed.










(** Attempts that stand between the throttle and the permits exceed the limit:
    with nine failures of a key, three pass the throttle and all fail. *)
Definition failing (i : nat) : list GateMove :=
  [Gate_acquire i; Gate_answer i 2%N (Err InvalidCredentials); Gate_release i].
Definition overtaking : list GateMove :=
  mjoin (replicate 9 (Gate_check "peer" 1%N :: failing 0)) ++
  replicate 3 (Gate_check "peer" 1%N) ++ mjoin (replicate 3 (failing 0)).

Example passed_attempts_exceed_the_limit :
  length (of_key "peer" (recent_failures 2 window (gate_log (gate_run 3 overtaking)))) = PER_KEY + 2.
Proof. by vm_compute. Qed.

Lemma dropped_round workers l :
  1 <= workers -> List.filter is_checked l = [] ->
  foldl (gate_move workers) (mkGate RuntimeAuth_new l [])
    [Gate_check "peer" 0%N; Gate_acquire (length l); Gate_drop (length l)] =
  mkGate RuntimeAuth_new (l ++ [mkGateAttempt "peer" Abandoned]) [].
Proof.
  intros Hworkers Hl.
  assert (gate_check "peer" 0%N RuntimeAuth_new = (Ok (), RuntimeAuth_new)) as Hcheck by by vm_compute.
  cbn [foldl]. unfold gate_move at 3. cbn [gate_auth gate_attempts gate_log]. rewrite Hl, Hcheck.
  destruct (Nat.ltb_spec (length (@nil GateAttempt)) workers) as [|Hge]; [|cbn in Hge; lia].
  unfold gate_move at 2. cbn [gate_auth gate_attempts gate_log]. rewrite list_lookup_middle by done.
  cbn [gate_acquire RuntimeAuth_new password_slots throttle ARGON2_CONCURRENCY].
  unfold gate_move. cbn [gate_auth gate_attempts gate_log].
  rewrite insert_app_r_alt, Nat.sub_diag by done. cbn [list_insert insert]. rewrite list_lookup_middle by done.
  rewrite insert_app_r_alt, Nat.sub_diag by done. done.
Qed.

(** Dropped attempts free their permits while their hashes are computed on: any
    number of workers run at once, and the throttle learns of none of them. *)
Theorem dropped_attempts_compute_on workers n :
  1 <= workers ->
  exists moves, length (gate_attempts (gate_run workers moves)) = n /\ gate_log (gate_run workers moves) = [] /\
    gate_auth (gate_run workers moves) = RuntimeAuth_new.
Proof.
  intros Hworkers. exists (seq 0 n ≫= fun i => [Gate_check "peer" 0%N; Gate_acquire i; Gate_drop i]).
  enough (gate_run workers (seq 0 n ≫= fun i => [Gate_check "peer" 0%N; Gate_acquire i; Gate_drop i])
      = mkGate RuntimeAuth_new (replicate n (mkGateAttempt "peer" Abandoned)) []) as ->
    by (split_and!; [apply length_replicate|done|done]).
  induction n as [|n IH]; [done|]. rewrite seq_S, bind_app. unfold gate_run in *. rewrite foldl_app, IH.
  pose proof (dropped_round workers (replicate n (mkGateAttempt "peer" Abandoned)) Hworkers) as Hround.
  rewrite length_replicate, <- replicate_S_end in Hround. apply Hround.
  apply filter_none. by intros a [-> _]%elem_of_replicate.
Qed.

(* ------------------------------------------------------------------ *)
(** ** Dates *)

#[local] Open Scope Z_scope.

(** The Gregorian calendar, by the day that follows a day. *)
Definition is_leap (year : Z) : bool :=
  (year mod 4 =? 0) && (negb (year mod 100 =? 0) || (year mod 400 =? 0)).
Definition days_in_month (year month : Z) : Z :=
  if month =? 2 then if is_leap year then 29 else 28
  else if existsb (Z.eqb month) [4; 6; 9; 11] then 30 else 31.
Definition next_day (date : Z * Z * Z) : Z * Z * Z :=
  let '(year, month, day) := date in
  if day <? days_in_month year month then (year, month, day + 1)
  else if month <? 12 then (year, month + 1, 1)
  else (year + 1, 1, 1).

Definition later_by (years : Z) (date : Z * Z * Z) : Z * Z * Z :=
  let '(year, month, day) := date in (year + years, month, day).

Lemma is_leap_era year k : is_leap (year + k * 400) = is_leap year.
Proof.
  unfold is_leap. rewrite Z.mod_add by lia.
  replace (year + k * 400) with (year + (k * 4) * 100) at 2 by lia. rewrite Z.mod_add by lia.
  replace (year + k * 400) with (year + (k * 100) * 4) by lia. by rewrite Z.mod_add by lia.
Qed.

Lemma next_day_era date k : next_day (later_by (k * 400) date) = later_by (k * 400) (next_day date).
Proof.
  destruct date as [[year month] day]. cbn. unfold days_in_month. rewrite is_leap_era.
  repeat match goal with |- context [if ?b then _ else _] => destruct b end; cbn; try done; do 2 f_equal; lia.
Qed.

Lemma era_floor s : Z.quot (if 0 <=? s then s else s - 146096) 146097 = s / 146097.
Proof. destruct (Z.leb_spec 0 s); Z.to_euclidean_division_equations; lia. Qed.

Lemma civil_era days k : civil_from_days (days + k * 146097) = later_by (k * 400) (civil_from_days days).
Proof.
  unfold civil_from_days. rewrite !era_floor.
  replace (days + k * 146097 + 719468) with (days + 719468 + k * 146097) by lia.
  rewrite Z.div_add by lia. set (s := days + 719468).
  replace (s + k * 146097 - (s / 146097 + k) * 146097) with (s - s / 146097 * 146097) by lia.
  cbn -[Z.quot Z.mul Z.div]. do 2 f_equal. lia.
Qed.

(** The days of an era, counted from a first of March: the year of a day, the
    first day of a year, and the date of a day of the year. *)
Definition year_of_day (day : Z) : Z := (day - day / 1460 + day / 36524 - day / 146096) / 365.
Definition first_day (year : Z) : Z := 365 * year + year / 4 - year / 100.
Definition month_day (day : Z) : Z * Z :=
  let piece := (5 * day + 2) / 153 in
  (piece + (if piece <? 10 then 3 else -9), day - (153 * piece + 2) / 5 + 1).
Definition date_of (year day : Z) : Z * Z * Z :=
  let '(month, day) := month_day day in (year + (if month <=? 2 then 1 else 0), month, day).

Lemma year_of_day_spec day :
  0 <= day < 146097 ->
  0 <= year_of_day day < 400 /\ first_day (year_of_day day) <= day /\
  (day < 146096 -> day < first_day (year_of_day day + 1)).
Proof. unfold year_of_day, first_day. intros Hday. split_and!; intros; Z.to_euclidean_division_equations; lia. Qed.

Lemma year_of_day_unique day year :
  0 <= day < 146097 -> 0 <= year < 400 -> first_day year <= day ->
  (day < first_day (year + 1) \/ year = 399) -> year_of_day day = year.
Proof.
  intros Hday Hyear Hfirst Hlast. destruct (year_of_day_spec day Hday) as (Hy & Hge & Hlt).
  assert (forall a b, 0 <= a -> a < b -> first_day (a + 1) <= first_day b) as Hmono
    by (unfold first_day; intros; Z.to_euclidean_division_equations; lia).
  assert (first_day 400 = 146096) as H400 by done.
  destruct (Z.lt_trichotomy (year_of_day day) year) as [Hlt'|[?|Hgt]]; [|done|].
  - pose proof (Hmono (year_of_day day) year ltac:(lia) Hlt').
    destruct (decide (day < 146096)); [lia|]. assert (day = 146096) as -> by lia.
    assert (year_of_day 146096 = 399) by done. lia.
  - pose proof (Hmono year (year_of_day day) ltac:(lia) Hgt). lia.
Qed.

Lemma civil_of_day day :
  0 <= day < 146097 -> civil_from_days (day - 719468) = date_of (year_of_day day) (day - first_day (year_of_day day)).
Proof.
  intros Hday. destruct (year_of_day_spec day Hday) as (Hy & Hge & _).
  unfold civil_from_days. rewrite era_floor. replace (day - 719468 + 719468) with day by lia.
  rewrite (Z.div_small day) by lia. rewrite Z.mul_0_l, Z.sub_0_r, Z.add_0_r.
  unfold year_of_day, first_day, date_of, month_day in *.
  rewrite !(Z.quot_div_nonneg day) by lia. rewrite (Z.quot_div_nonneg _ 365) by (Z.to_euclidean_division_equations; lia).
  set (year := (day - day / 1460 + day / 36524 - day / 146096) / 365) in *.
  rewrite !(Z.quot_div_nonneg year) by lia. set (in_year := day - (365 * year + year / 4 - year / 100)).
  assert (0 <= in_year) by (subst in_year; lia).
  rewrite (Z.quot_div_nonneg (5 * in_year + 2)) by lia.
  rewrite Z.quot_div_nonneg by (Z.to_euclidean_division_equations; lia). done.
Qed.

(** Within a year, up to the 28th of February. *)
Definition steps (day : Z) : bool :=
  let '(month, d) := month_day day in
  let '(month', d') := month_day (day + 1) in
  if d <? (if month =? 2 then 28 else days_in_month 1 month) then (month' =? month) && (d' =? d + 1)
  else negb (month =? 2) && (month' =? (if month <? 12 then month + 1 else 1)) && (d' =? 1).

Lemma steps_all day : 0 <= day < 364 -> steps day = true.
Proof.
  intros Hday. assert (forallb (fun n => steps (Z.of_nat n)) (seq 0 364) = true) as Hall by by vm_compute.
  rewrite forallb_forall in Hall. rewrite <- (Z2Nat.id day) by lia. apply Hall, in_seq. lia.
Qed.

Lemma days_in_month_other year year' month : month <> 2 -> days_in_month year month = days_in_month year' month.
Proof. intros Hne. unfold days_in_month. by destruct (Z.eqb_spec month 2). Qed.

Lemma date_of_next year day : 0 <= day < 364 -> next_day (date_of year day) = date_of year (day + 1).
Proof.
  intros Hday. pose proof (steps_all day Hday) as Hsteps. unfold steps, date_of, next_day in *.
  destruct (month_day day) as [month d]. destruct (month_day (day + 1)) as [month' d'].
  destruct (Z.eqb_spec month 2) as [->|Hne].
  - destruct (Z.ltb_spec d 28); [|done].
    apply andb_true_iff in Hsteps as [->%Z.eqb_eq ->%Z.eqb_eq].
    destruct (Z.ltb_spec d (days_in_month (year + (if 2 <=? 2 then 1 else 0)) 2)) as [|Hge]; [done|].
    unfold days_in_month in Hge. cbn in Hge. destruct (is_leap _); lia.
  - rewrite (days_in_month_other 1 (year + (if month <=? 2 then 1 else 0))) in Hsteps by done.
    destruct (d <? _); [by apply andb_true_iff in Hsteps as [->%Z.eqb_eq ->%Z.eqb_eq]|].
    cbn [negb andb] in Hsteps. apply andb_true_iff in Hsteps as [->%Z.eqb_eq ->%Z.eqb_eq].
    destruct (Z.ltb_spec month 12); repeat match goal with |- context [?a <=? 2] => destruct (Z.leb_spec a 2) end;
      try lia; do 2 f_equal; lia.
Qed.

Lemma leap_after year :
  0 <= year < 400 -> is_leap (year + 1) = (first_day (year + 1) =? first_day year + 366) || (year =? 399).
Proof.
  intros Hyear.
  assert (forallb (fun n => eqb (is_leap (Z.of_nat n + 1))
    ((first_day (Z.of_nat n + 1) =? first_day (Z.of_nat n) + 366) || (Z.of_nat n =? 399))) (seq 0 400) = true) as Hall
    by by vm_compute.
  rewrite forallb_forall in Hall. specialize (Hall (Z.to_nat year)). rewrite Z2Nat.id in Hall by lia.
  apply eqb_prop, Hall, in_seq. lia.
Qed.

(** The day after a day of the era is dated by the calendar. *)
Lemma era_step day :
  0 <= day < 146097 -> civil_from_days (day - 719468 + 1) = next_day (civil_from_days (day - 719468)).
Proof.
  intros Hday. rewrite (civil_of_day day) by done. destruct (year_of_day_spec day Hday) as (Hy & Hge & Hlt).
  set (year := year_of_day day) in *. pose proof (leap_after year Hy) as Hleap.
  assert (first_day (year + 1) = first_day year + 365 \/ first_day (year + 1) = first_day year + 366) as Hlength
    by (unfold first_day; Z.to_euclidean_division_equations; lia).
  assert (first_day 400 = 146096) as H400 by done.
  assert (day = 146096 -> year = 399) as Hend by (intros ->; done).
  assert (year = 399 -> first_day year = 145731) as H399 by (intros ->; done).
  destruct (decide (day - first_day year < 364)) as [Hin|Hout].
  { rewrite date_of_next by lia. replace (day - 719468 + 1) with (day + 1 - 719468) by lia.
    rewrite civil_of_day by lia. rewrite (year_of_day_unique (day + 1) year) by lia. f_equal. lia. }
  assert (day - first_day year = 364 \/ day - first_day year = 365) as Hcases by lia.
  assert (forall d, (d = 28 /\ is_leap (year + 1) = false) \/ (d = 29 /\ is_leap (year + 1) = true) ->
    next_day (year + 1, 2, d) = (year + 1, 3, 1)) as Hmarch.
  { intros d. unfold next_day, days_in_month. cbn [Z.eqb]. intros [[-> ->]|[-> ->]]; done. }
  assert (forall d, d = day + 1 -> (d = first_day (year + 1) /\ year < 399) \/ d = 146097 ->
    civil_from_days (day - 719468 + 1) = (year + 1, 3, 1)) as Hnew.
  { intros d -> [[Hd Hy']| Hd].
    - replace (day - 719468 + 1) with (day + 1 - 719468) by lia. rewrite civil_of_day by lia.
      rewrite (year_of_day_unique (day + 1) (year + 1)); [|lia|lia|lia|].
      + rewrite Hd, Z.sub_diag. transitivity (year + 1 + 0, 3, 1); [done|]. by rewrite Z.add_0_r.
      + unfold first_day in *. Z.to_euclidean_division_equations; lia.
    - assert (year = 399) as -> by (apply Hend; lia). replace (day - 719468 + 1) with (- 719468 + 1 * 146097) by lia.
      rewrite civil_era. done. }
  destruct Hcases as [Hd|Hd]; rewrite Hd.
  - replace (date_of year 364) with (year + 1, 2, 28) by done.
    destruct (is_leap (year + 1)) eqn:Hl.
    + assert (next_day (year + 1, 2, 28) = date_of year 365) as ->
        by (unfold next_day, days_in_month; cbn [Z.eqb]; rewrite Hl; done).
      symmetry in Hleap. apply orb_true_iff in Hleap as [Hleap|Hleap]; apply Z.eqb_eq in Hleap;
        replace (day - 719468 + 1) with (day + 1 - 719468) by lia; rewrite civil_of_day by lia;
        rewrite (year_of_day_unique (day + 1) year) by lia; f_equal; lia.
    + rewrite Hmarch by tauto. apply (Hnew (day + 1)); [done|]. left.
      symmetry in Hleap. apply orb_false_iff in Hleap as [Hl1%Z.eqb_neq Hl2%Z.eqb_neq]. lia.
  - replace (date_of year 365) with (year + 1, 2, 29) by done.
    assert (is_leap (year + 1) = true) as Hl.
    { rewrite Hleap. destruct (decide (year = 399)) as [->|]; [done|].
      assert (first_day (year + 1) = first_day year + 366) as -> by lia. by rewrite Z.eqb_refl. }
    rewrite Hmarch by tauto. apply (Hnew (day + 1)); [done|].
    destruct (decide (year = 399)) as [->|]; [right; lia|left; lia].
Qed.

(** C27: The date written for a day is that of the Gregorian calendar: day 0 is 1
    January 1970, and the date of the next day is the next date. *)
Theorem written_dates_follow_the_calendar :
  civil_from_days 0 = (1970, 1, 1) /\
  forall days, civil_from_days (days + 1) = next_day (civil_from_days days).
Proof.
  split; [done|]. intros days. set (k := (days + 719468) / 146097). set (i := (days + 719468) mod 146097).
  assert (days = -719468 + i + k * 146097) as Hdays
    by (pose proof (Z.div_mod (days + 719468) 146097 ltac:(lia)); lia).
  pose proof (Z.mod_pos_bound (days + 719468) 146097 ltac:(lia)).
  replace (days + 1) with (-719468 + i + 1 + k * 146097) by lia. rewrite Hdays, !civil_era, next_day_era.
  f_equal. replace (-719468 + i + 1) with (i - 719468 + 1) by lia. replace (-719468 + i) with (i - 719468) by lia.
  by apply era_step.
Qed.

(* ------------------------------------------------------------------ *)
(** ** Handlers *)

Section Handlers.
Context `{Sha256, HeaderText} (config : AuthServiceConfig) (cookies : CookieSettings).

(** A write a handler may make: keeping the presented session, or ending
    sessions of the user it let in. *)
Definition acts_for (headers : list (option string)) (past : list AuthEvent) (write : AuthWrite) : Prop :=
  exists token, session_cookie headers (cookie_name cookies) = Some token /\
    (housekeeping token write \/
     exists user expires_at, let_in_by token past user expires_at /\
       (write = Delete_user_sessions (user_id user) \/
        exists session_id, write = Delete_session (user_id user) session_id)).

Lemma operator_wp available headers W Q :
  (forall past write, acts_for headers past write -> W past write) ->
  (forall past error, Q past (Err error)) ->
  (forall past current, session_cookie headers (cookie_name cookies) = Some (current_token current) ->
    let_in_by (current_token current) past (current_user current) (current_expires_at current) -> Q past (Ok current)) ->
  wp [] (operator config cookies available headers) W Q.
Proof.
  intros HW Herr Hok. unfold operator, current_session. destruct available; [|by apply Herr].
  cbn [negb]. destruct (session_cookie headers _) as [token|] eqn:Htoken; [|by apply Herr].
  apply wp_bind, wp_and_then, authenticate_wp.
  - intros past write Hw. apply HW. exists token. auto.
  - intros past [[user expires_at| |]|error] Hin; cbn; try by apply Herr. apply Hok; [done|]. by apply Hin.
Qed.

Lemma or_internal_wp {A} past (m : fallible AuthServiceError A) W Q :
  wp past m W (fun past r => Q past (map_err (fun _ => Api_internal) r)) -> wp past (or_internal m) W Q.
Proof. intros Hwp. apply wp_and_then. exact Hwp. Qed.

Lemma logout_handler_wp available headers :
  wp [] (logout_handler config cookies available headers) (acts_for headers) (fun _ _ => True).
Proof.
  unfold logout_handler. apply wp_bind, operator_wp; [done..|]. intros past current Hcookie Hin.
  apply wp_bind, or_internal_wp, wp_bind, wp_dependency, wp_bind. split; [|by intros []].
  exists (current_token current). eauto 10.
Qed.

Lemma revoke_session_handler_wp available headers session_id :
  wp [] (revoke_session_handler config cookies available headers session_id) (acts_for headers) (fun _ _ => True).
Proof.
  unfold revoke_session_handler. apply wp_bind, operator_wp; [done..|]. intros past current Hcookie Hin.
  apply wp_and_then. unfold revoke_session. destruct (_ || _); [done|].
  apply wp_dependency, wp_bind. split; [|by intros []]. exists (current_token current). eauto 10.
Qed.

Lemma list_sessions_handler_wp available headers :
  wp [] (list_sessions_handler config cookies available headers) (acts_for headers) (fun _ _ => True).
Proof.
  unfold list_sessions_handler. apply wp_bind, operator_wp; [done..|]. intros past current Hcookie Hin.
  apply wp_bind, or_internal_wp, wp_bind, wp_dependency, wp_bind. by intros [].
Qed.

(** Whatever the database, the clock and other requests do, the handlers of
    sign-out, revocation and listing write only for the user the presented
    cookie let in before: they keep that session's row, or end that user's
    sessions. *)
Theorem handlers_act_for_who_was_let_in available headers session_id :
  (forall calls rest before write r landed after,
    resumes (logout_handler config cookies available headers) calls rest ->
    calls = before ++ Wrote write r landed :: after -> acts_for headers before write) /\
  (forall calls rest before write r landed after,
    resumes (revoke_session_handler config cookies available headers session_id) calls rest ->
    calls = before ++ Wrote write r landed :: after -> acts_for headers before write) /\
  (forall calls rest before write r landed after,
    resumes (list_sessions_handler config cookies available headers) calls rest ->
    calls = before ++ Wrote write r landed :: after -> acts_for headers before write).
Proof.
  split_and!; intros calls rest before write r landed after Hresumes Heq.
  - destruct (wp_sound_from _ _ _ _ _ _ (logout_handler_wp available headers) Hresumes) as [Hw _]. by eapply Hw.
  - destruct (wp_sound_from _ _ _ _ _ _ (revoke_session_handler_wp available headers session_id) Hresumes) as [Hw _].
    by eapply Hw.
  - destruct (wp_sound_from _ _ _ _ _ _ (list_sessions_handler_wp available headers) Hresumes) as [Hw _]. by eapply Hw.
Qed.
End Handlers.
