(* ===== verification/Devices.v ===== *)
(** * Remembered devices

    [crates/music-application/src/devices.rs] and
    [crates/music-storage/src/devices.rs]: the service and its validation, the
    table [remembered_devices], and the document that carries the devices from
    one server to another. The column [updated_at] is never read and left out. *)

From S2P Require Import Prelude Text Store MediaPath Filesystem RecoveryJournal.

#[local] Open Scope string_scope.
#[local] Open Scope list_scope.

Record RememberedDevice : Type := mkRememberedDevice {
  client_id : string;
  device_name : string;
  is_output : bool;
  added_at : option string
}.

#[global] Instance RememberedDevice_eq_dec : EqDecision RememberedDevice.
Proof. solve_decision. Defined.

(* ------------------------------------------------------------------ *)
(** ** The service *)

(** [Box<dyn Error>]: its message. *)
Inductive DeviceServiceError : Type :=
| InvalidClientId
| InvalidName
| Device_Dependency (operation : string) (source : string).

(** [RememberedDeviceRepository] *)
Class RememberedDeviceRepository (store : Type) : Type := {
  list_devices : stateful store string (list RememberedDevice);
  find_device : string -> stateful store string (option RememberedDevice);
  upsert_device : string -> string -> bool -> stateful store string RememberedDevice;
  delete_device : string -> stateful store string bool
}.

Definition validate_client_id (client_id : string) : result DeviceServiceError () :=
  if negb (chars_within 1 64 client_id) || any_control client_id then Err InvalidClientId else Ok ().

Section Service.
Context {store : Type} `{RememberedDeviceRepository store}.

Definition device_dependency {A} (operation : string) (m : stateful store string A)
    : stateful store DeviceServiceError A :=
  fun s => let '(r, s) := m s in (map_err (Device_Dependency operation) r, s).

Definition devices_list : stateful store DeviceServiceError (list RememberedDevice) :=
  device_dependency "device listing" list_devices.

Definition devices_find (client_id : string) : stateful store DeviceServiceError (option RememberedDevice) :=
  device_dependency "device lookup" (find_device client_id).

Definition is_default_output (client_id : string) : stateful store DeviceServiceError bool :=
  device ← devices_find client_id;
  mret match device with Some device => is_output device | None => false end.

Definition devices_save (client_id name : string) (is_output : bool)
    : stateful store DeviceServiceError RememberedDevice :=
  _ ← try (validate_client_id client_id);
  if negb (chars_within 1 128 name) then throw InvalidName
  else device_dependency "device save" (upsert_device client_id name is_output).

Definition devices_forget (client_id : string) : stateful store DeviceServiceError bool :=
  _ ← try (validate_client_id client_id);
  device_dependency "device deletion" (delete_device client_id).
End Service.

(* ------------------------------------------------------------------ *)
(** ** The table *)

(** [strftime('%Y-%m-%dT%H:%M:%SZ', 'now')] of the n-th statement. *)
Class DeviceClock : Type := { device_timestamp : nat -> string }.

(** The rows by primary key. *)
Record SqliteDevices : Type := mkSqliteDevices {
  remembered_devices : gmap string RememberedDevice;
  device_clock : nat;
  device_faults : list Fault
}.

Definition dtx (A : Type) : Type := stateful SqliteDevices string A.

(** A statement or a transaction: [body] is its effect at a time, and [None] a
    violated constraint. *)
Definition device_statement {A}
    (body : nat -> gmap string RememberedDevice -> option (A * gmap string RememberedDevice)) : dtx A := fun db =>
  let next rows := mkSqliteDevices rows (S (device_clock db)) (tail (device_faults db)) in
  match head (device_faults db), body (device_clock db) (remembered_devices db) with
  | Some (FailBefore cause), _ => (Err cause, next (remembered_devices db))
  | _, None => (Err "constraint failed", next (remembered_devices db))
  | Some (FailAfter cause), Some (_, rows) => (Err cause, next rows)
  | _, Some (a, rows) => (Ok a, next rows)
  end.

(** [ORDER BY is_output DESC, name COLLATE NOCASE, client_id] *)
Definition device_le (a b : RememberedDevice) : Prop :=
  match is_output a, is_output b with
  | true, false => True
  | false, true => False
  | _, _ =>
      let x := lower (device_name a) in
      let y := lower (device_name b) in
      if decide (x = y) then string_leb (client_id a) (client_id b) = true else string_leb x y = true
  end.
#[global] Instance device_le_dec a b : Decision (device_le a b).
Proof. unfold device_le. destruct (is_output a), (is_output b); repeat case_decide; apply _. Defined.

(** [ORDER BY client_id] *)
Definition client_le (a b : RememberedDevice) : Prop := string_leb (client_id a) (client_id b) = true.
#[global] Instance client_le_dec a b : Decision (client_le a b).
Proof. unfold client_le. apply _. Defined.

Definition device_rows (rows : gmap string RememberedDevice) : list RememberedDevice := (map_to_list rows).*2.

Section Sqlite.
Context `{DeviceClock}.

Definition sqlite_list_devices : dtx (list RememberedDevice) :=
  device_statement (fun _ rows => Some (merge_sort device_le (device_rows rows), rows)).

Definition sqlite_find_device (client_id : string) : dtx (option RememberedDevice) :=
  device_statement (fun _ rows => Some (rows !! client_id, rows)).

(** [INSERT .. ON CONFLICT(client_id) DO UPDATE SET name = .., is_output = ..]
    and the row read back, in one transaction. *)
Definition upserted (client_id name : string) (is_output : bool) (now : nat) (row : option RememberedDevice)
    : RememberedDevice :=
  mkRememberedDevice client_id name is_output
    match row with Some row => added_at row | None => Some (device_timestamp now) end.

Definition sqlite_upsert_device (client_id name : string) (is_output : bool) : dtx RememberedDevice :=
  device_statement (fun now rows =>
    let device := upserted client_id name is_output now (rows !! client_id) in
    Some (device, <[client_id := device]> rows)).

Definition sqlite_delete_device (client_id : string) : dtx bool :=
  device_statement (fun _ rows => Some (bool_decide (is_Some (rows !! client_id)), delete client_id rows)).

#[global] Instance SqliteDeviceRepository : RememberedDeviceRepository SqliteDevices := {|
  list_devices := sqlite_list_devices;
  find_device := sqlite_find_device;
  upsert_device := sqlite_upsert_device;
  delete_device := sqlite_delete_device
|}.
End Sqlite.

(* ------------------------------------------------------------------ *)
(** ** The transfer document *)

Definition MAX_TRANSFER_FILE_BYTES : N := 4 * 1024 * 1024.
Definition MAX_TRANSFER_DEVICE_COUNT : N := 4096.
Definition DEVICE_TRANSFER_SCHEMA : string := "remembered-devices/v1".

Record DeviceTransferDocument : Type := mkDeviceTransferDocument {
  schema_version : string;
  transferred : list RememberedDevice
}.

(** [serde_json::to_vec_pretty] and [from_slice] on the document; white space
    around a value is ignored. *)
Class DeviceTransferText : Type := {
  document_to_vec_pretty : DeviceTransferDocument -> result string string;
  document_from_slice : string -> result string DeviceTransferDocument
}.
Definition newline : string := String (Ascii.ascii_of_nat 10) EmptyString.
Class DeviceTransferTextSpec `{DeviceTransferText} : Prop := {
  document_from_to document bytes :
    document_to_vec_pretty document = Ok bytes -> document_from_slice (bytes +:+ newline) = Ok document
}.

Inductive DeviceStorageError : Type :=
| Device_Database (cause : string)
| Device_Io (error : FsError)
| DeviceTransferSerialization (cause : string)
| InvalidDeviceTransfer (detail : string).

Record DeviceExportOutcome : Type := mkDeviceExportOutcome {
  export_schema_version : string;
  exported_count : nat;
  export_path : FsPath
}.

Inductive DeviceImportOutcome : Type :=
| Imported (schema_version : string) (imported_count replaced_count : nat)
| TargetNotEmpty (existing_count : nat).

(** The checks on one record; [client_ids] are those before it. *)
Definition check_record (client_ids : list string) (record : RememberedDevice) : result DeviceStorageError () :=
  if negb (chars_within 1 64 (client_id record)) || any_control (client_id record)
  then Err (InvalidDeviceTransfer "client_id must contain 1 to 64 printable characters")
  else if contains (client_id record) client_ids
  then Err (InvalidDeviceTransfer "client_id values must be unique")
  else if negb (chars_within 1 128 (device_name record)) || any_control (device_name record)
  then Err (InvalidDeviceTransfer "name must contain 1 to 128 printable characters")
  else if match added_at record with
          | Some at_ => negb (chars_within 1 64 at_) || any_control at_
          | None => false
          end
  then Err (InvalidDeviceTransfer "added_at must be a bounded printable timestamp")
  else Ok ().

Fixpoint check_records (client_ids : list string) (records : list RememberedDevice)
    : result DeviceStorageError (list RememberedDevice) :=
  match records with
  | [] => Ok []
  | record :: records =>
      _ ← check_record client_ids record;
      devices ← check_records (client_id record :: client_ids) records;
      Ok (record :: devices)
  end.

Section Transfer.
Context `{DeviceClock, DeviceTransferText}.

(** The database and the files an administration command sees. *)
Definition transfer (A : Type) : Type := stateful (SqliteDevices * Filesystem) DeviceStorageError A.

Definition with_devices {A} (m : dtx A) : transfer A := fun '(db, files) =>
  let '(r, db) := m db in (map_err Device_Database r, (db, files)).
Definition with_files {A} (m : fs A) : transfer A := fun '(db, files) =>
  let '(r, files) := m files in (map_err Device_Io r, (db, files)).

(** [staged.persist_noclobber(path)] *)
Definition persist_noclobber (staged path : FsPath) : fs () :=
  syscall "publish remembered-device export to" (fun t =>
    match t !! staged with
    | Some (FsFile content) =>
        if negb (fs_exists path t) && parent_is_dir path t
        then Some ((), <[path := FsFile content]> (delete staged t)) else None
    | _ => None
    end).

(** [temporary] is the name [NamedTempFile::new_in] draws in the parent; the
    file is removed when the function fails. *)
Definition write_transfer_file (path : FsPath) (temporary : string) (bytes : string) : transfer () :=
  match path with
  | [] => throw (InvalidDeviceTransfer "export path must name a file")
  | _ =>
      let staged := removelast path ++ [temporary] in
      _ ← with_files (fs_create_new "create staged remembered-device export in" staged);
      with_files (fun files =>
        match (_ ← fs_write_all "write staged remembered-device export for" staged bytes;
               persist_noclobber staged path) files with
        | (Err (Fs_failed detail), files) =>
            let '(_, files) := ignore_failure (fs_remove_file "" staged) files in (Err (Fs_failed detail), files)
        | other => other
        end)
  end.

Definition read_transfer_file (path : FsPath) : transfer (list RememberedDevice) :=
  t ← gets (fun world => fs_tree world.2);
  if negb (fs_exists path t) then throw (Device_Io (Fs_failed "inspect remembered-device transfer"))
  else
    match fs_node path t with
    | Some (FsFile content) =>
        if (MAX_TRANSFER_FILE_BYTES <? N.of_nat (String.length content))%N
        then throw (InvalidDeviceTransfer "input exceeds the four MiB limit")
        else
          bytes ← with_files (fs_read "read remembered-device transfer" path);
          match document_from_slice bytes with
          | Err _ => throw (InvalidDeviceTransfer "document is not valid versioned JSON")
          | Ok document =>
              if negb (String.eqb (schema_version document) DEVICE_TRANSFER_SCHEMA)
              then throw (InvalidDeviceTransfer "schema_version is unsupported")
              else if (MAX_TRANSFER_DEVICE_COUNT <? N.of_nat (length (transferred document)))%N
              then throw (InvalidDeviceTransfer "document contains too many devices")
              else try (check_records [] (transferred document))
          end
    | _ => throw (InvalidDeviceTransfer "input must be a regular non-symlink file")
    end.

Definition export_remembered_devices (path : FsPath) (temporary : string) : transfer DeviceExportOutcome :=
  devices ← with_devices (device_statement (fun _ rows => Some (merge_sort client_le (device_rows rows), rows)));
  bytes ← try (map_err DeviceTransferSerialization
                 (document_to_vec_pretty (mkDeviceTransferDocument DEVICE_TRANSFER_SCHEMA devices)));
  _ ← write_transfer_file path temporary (bytes +:+ newline);
  mret (mkDeviceExportOutcome DEVICE_TRANSFER_SCHEMA (length devices) path).

(** The inserts of an import; [COALESCE(?, strftime(.., 'now'))]. *)
Definition imported_row (now : nat) (device : RememberedDevice) : RememberedDevice :=
  mkRememberedDevice (client_id device) (device_name device) (is_output device)
    (Some (default (device_timestamp now) (added_at device))).

Fixpoint insert_devices (now : nat) (devices : list RememberedDevice) (rows : gmap string RememberedDevice)
    : option (gmap string RememberedDevice) :=
  match devices with
  | [] => Some rows
  | device :: devices =>
      match rows !! client_id device with
      | Some _ => None
      | None => insert_devices now devices (<[client_id device := imported_row now device]> rows)
      end
  end.

(** The transaction of an import. *)
Definition import_rows (devices : list RememberedDevice) (replace : bool) (now : nat)
    (rows : gmap string RememberedDevice) : option (DeviceImportOutcome * gmap string RememberedDevice) :=
  let existing_count := size rows in
  if negb (existing_count =? 0)%nat && negb replace then Some (TargetNotEmpty existing_count, rows)
  else
    rows ← insert_devices now devices (if replace then ∅ else rows);
    Some (Imported DEVICE_TRANSFER_SCHEMA (length devices) (if replace then existing_count else 0), rows).

Definition import_remembered_devices (path : FsPath) (replace : bool) : transfer DeviceImportOutcome :=
  devices ← read_transfer_file path;
  with_devices (device_statement (import_rows devices replace)).
End Transfer.

(* ------------------------------------------------------------------ *)
(** * What the transfer promises *)

(* ------------------------------------------------------------------ *)
(** ** Files *)

Lemma syscall_ok {A} detail (body : FsTree -> option (A * FsTree)) f a f' :
  syscall detail body f = (Ok a, f') ->
  body (fs_tree f) = Some (a, fs_tree f') /\ fs_fates f' = tail (fs_fates f).
Proof.
  unfold syscall. destruct (head (fs_fates f)) as [[]|]; try done;
    destruct (body (fs_tree f)) as [[]|]; naive_solver.
Qed.

Lemma syscall_calm {A} detail (body : FsTree -> option (A * FsTree)) t a t' :
  body t = Some (a, t') -> syscall detail body (mkFilesystem t []) = (Ok a, mkFilesystem t' []).
Proof. unfold syscall. cbn. by intros ->. Qed.

Section Files.
Context `{DeviceClock, DeviceTransferText}.

Lemma with_files_ok {A} (m : fs A) db f a world :
  with_files m (db, f) = (Ok a, world) -> exists f', m f = (Ok a, f') /\ world = (db, f').
Proof. unfold with_files. destruct (m f) as [[]]; cbn; naive_solver. Qed.

Lemma with_devices_ok {A} (m : dtx A) db f a world :
  with_devices m (db, f) = (Ok a, world) -> exists db', m db = (Ok a, db') /\ world = (db', f).
Proof. unfold with_devices. destruct (m db) as [[]]; cbn; naive_solver. Qed.

(** A written export is the file at its path. *)
Lemma write_transfer_file_ok path temporary bytes db f world :
  write_transfer_file path temporary bytes (db, f) = (Ok (), world) ->
  exists f', world = (db, f') /\ path <> [] /\ fs_tree f' !! path = Some (FsFile bytes) /\
    (fs_fates f = [] -> fs_fates f' = []).
Proof.
  unfold write_transfer_file. destruct path as [|c path]; [done|]. set (full := c :: path).
  set (staged := removelast full ++ [temporary]).
  intros (x & w & Hcreate & Hrun)%stateful_bind_ok. apply with_files_ok in Hcreate as (f1 & Hcreate & ->).
  apply with_files_ok in Hrun as (f2 & Hrun & ->). apply syscall_ok in Hcreate as [_ Hfates1].
  match type of Hrun with context [match ?m with _ => _ end] => destruct m as [[[]|[]] f3] eqn:Hbody end;
    [|by destruct (ignore_failure _ _)|done]. injection Hrun as <-.
  apply stateful_bind_ok in Hbody as (y & f4 & Hwrite & Hpersist).
  apply syscall_ok in Hwrite as [Hwrite Hfates2], Hpersist as [Hpersist Hfates3].
  exists f3. split_and!; [done|done| |by intros Hnone; rewrite Hfates3, Hfates2, Hfates1, Hnone].
  destruct (fs_is_file staged (fs_tree f1)); [|done]. injection Hwrite as _ Htree.
  rewrite <- Htree, lookup_insert_eq in Hpersist. destruct (_ && _); [|done]. injection Hpersist as Hpath.
  rewrite <- Hpath. apply lookup_insert_eq.
Qed.
End Files.

(* ------------------------------------------------------------------ *)
(** ** Records *)

(** A device the document may carry. *)
Definition transferable (device : RememberedDevice) : Prop := check_record [] device = Ok ().

Lemma check_record_fresh client_ids device :
  transferable device -> client_id device ∉ client_ids -> check_record client_ids device = Ok ().
Proof.
  unfold transferable, check_record, contains. intros Hok Hfresh. rewrite bool_decide_eq_false_2 by done.
  rewrite bool_decide_eq_false_2 in Hok by set_solver. done.
Qed.

Lemma check_records_ok client_ids devices :
  Forall transferable devices -> NoDup (client_id <$> devices) ->
  (forall device, device ∈ devices -> client_id device ∉ client_ids) ->
  check_records client_ids devices = Ok devices.
Proof.
  revert client_ids. induction devices as [|device devices IH]; intros client_ids Hall Hnd Hfresh; [done|].
  apply Forall_cons in Hall as [Hdevice Hall]. cbn in Hnd. apply NoDup_cons in Hnd as [Hnotin Hnd]. cbn.
  rewrite check_record_fresh by (done || apply Hfresh; set_solver). cbn. rewrite IH; [done..|].
  intros other Hother. apply not_elem_of_cons. split; [|apply Hfresh; set_solver].
  intros Heq. apply Hnotin. rewrite <- Heq. by apply list_elem_of_fmap_2.
Qed.

Lemma check_record_bad client_ids device :
  check_record [] device <> Ok () -> exists detail, check_record client_ids device = Err (InvalidDeviceTransfer detail).
Proof.
  unfold check_record, contains. rewrite (bool_decide_eq_false_2 (client_id device ∈ [])) by set_solver.
  intros Hbad. repeat case_match; eauto; done.
Qed.

Lemma check_records_bad client_ids devices device :
  device ∈ devices -> check_record [] device <> Ok () ->
  exists detail, check_records client_ids devices = Err (InvalidDeviceTransfer detail).
Proof.
  revert client_ids. induction devices as [|first devices IH]; intros client_ids Hin Hbad; [set_solver|]. cbn.
  destruct (check_record client_ids first) as [[]|error] eqn:Hfirst; cbn.
  - apply elem_of_cons in Hin as [<-|Hin].
    + destruct (check_record_bad client_ids device Hbad) as [detail Hdetail]. congruence.
    + destruct (IH (client_id first :: client_ids) Hin Hbad) as [detail ->]. cbn. eauto.
  - clear IH. revert Hfirst. unfold check_record. repeat case_match; intros [= <-]; eauto.
Qed.

(* ------------------------------------------------------------------ *)
(** ** From one server to another *)

Definition rows_keyed (rows : gmap string RememberedDevice) : Prop :=
  map_Forall (fun key device => client_id device = key) rows.

Lemma keyed_ids rows : rows_keyed rows -> client_id <$> device_rows rows = (map_to_list rows).*1.
Proof.
  intros Hkeyed. unfold device_rows. rewrite <- list_fmap_compose. apply list_fmap_ext.
  intros i [key device] Hin%list_elem_of_lookup_2. by apply elem_of_map_to_list, Hkeyed in Hin.
Qed.

Lemma elem_of_device_rows rows device :
  rows_keyed rows -> device ∈ device_rows rows <-> rows !! client_id device = Some device.
Proof.
  intros Hkeyed. unfold device_rows. rewrite list_elem_of_fmap. split.
  - intros ([key d] & -> & Hin%elem_of_map_to_list). cbn. by rewrite (Hkeyed _ _ Hin).
  - intros Hd. exists (client_id device, device). by rewrite elem_of_map_to_list.
Qed.

Section Transfers.
Context `{DeviceClock, DeviceTransferText}.

Lemma insert_devices_spec now devices rows :
  NoDup (client_id <$> devices) -> (forall device, device ∈ devices -> rows !! client_id device = None) ->
  exists rows', insert_devices now devices rows = Some rows' /\
    (forall device, device ∈ devices -> rows' !! client_id device = Some (imported_row now device)) /\
    (forall key, key ∉ client_id <$> devices -> rows' !! key = rows !! key).
Proof.
  revert rows. induction devices as [|device devices IH]; intros rows Hnd Hfresh; cbn in *.
  - exists rows. split_and!; [done|set_solver|done].
  - apply NoDup_cons in Hnd as [Hnotin Hnd]. rewrite (Hfresh device) by set_solver.
    destruct (IH (<[client_id device := imported_row now device]> rows) Hnd) as (rows' & -> & Hin & Hout).
    { intros other Hother. rewrite lookup_insert_ne; [by apply Hfresh; set_solver|].
      intros Heq. apply Hnotin. rewrite Heq. by apply list_elem_of_fmap_2. }
    exists rows'. split_and!; [done| |].
    + intros other [->|Hother]%elem_of_cons; [|by apply Hin].
      rewrite Hout by done. by rewrite lookup_insert_eq.
    + intros key [Hne Hkey]%not_elem_of_cons. rewrite Hout by done. by rewrite lookup_insert_ne.
Qed.

Lemma import_all now devices rows :
  rows_keyed rows -> devices ≡ₚ device_rows rows ->
  insert_devices now devices ∅ = Some (imported_row now <$> rows).
Proof.
  intros Hkeyed Hperm.
  assert (client_id <$> devices ≡ₚ (map_to_list rows).*1) as Hids by by rewrite Hperm, keyed_ids.
  destruct (insert_devices_spec now devices ∅) as (rows' & -> & Hin & Hout).
  { rewrite Hids. apply NoDup_fst_map_to_list. }
  { intros. apply lookup_empty. }
  f_equal. apply map_eq. intros key. rewrite lookup_fmap. destruct (rows !! key) as [device|] eqn:Hkey; cbn.
  - pose proof (Hkeyed _ _ Hkey) as <-. apply Hin. rewrite Hperm. by apply elem_of_device_rows.
  - rewrite Hout; [apply lookup_empty|]. rewrite Hids. intros ([k d] & -> & Hd%elem_of_map_to_list)%list_elem_of_fmap.
    cbn in Hkey. congruence.
Qed.

Lemma export_ok path temporary db f outcome world :
  export_remembered_devices path temporary (db, f) = (Ok outcome, world) ->
  exists bytes devices, devices ≡ₚ device_rows (remembered_devices db) /\
    document_to_vec_pretty (mkDeviceTransferDocument DEVICE_TRANSFER_SCHEMA devices) = Ok bytes /\
    path <> [] /\ fs_tree world.2 !! path = Some (FsFile (bytes +:+ newline)) /\
    remembered_devices world.1 = remembered_devices db /\
    (fs_fates f = [] -> fs_fates world.2 = []).
Proof.
  unfold export_remembered_devices. intros (devices & w & Hread & Hrun)%stateful_bind_ok.
  apply with_devices_ok in Hread as (db' & Hread & ->).
  assert (devices = merge_sort client_le (device_rows (remembered_devices db)) /\
          remembered_devices db' = remembered_devices db) as [-> Hrows].
  { revert Hread. unfold device_statement. destruct (head _) as [[]|]; naive_solver. }
  apply stateful_bind_ok in Hrun as (bytes & w & Htext & Hrun). unfold try in Htext. injection Htext as Htext <-.
  apply map_err_ok in Htext. apply stateful_bind_ok in Hrun as ([] & w & Hwrite & Hend). injection Hend as _ <-.
  apply write_transfer_file_ok in Hwrite as (f' & -> & Hne & Hfile & Hfates).
  exists bytes, (merge_sort client_le (device_rows (remembered_devices db))).
  split_and!; [apply merge_sort_Permutation|done..].
Qed.

(** What an undisturbed reading of an exported file answers. *)
Lemma read_exported `{!DeviceTransferTextSpec} path bytes devices db f :
  path <> [] -> fs_tree f !! path = Some (FsFile (bytes +:+ newline)) -> fs_fates f = [] ->
  document_to_vec_pretty (mkDeviceTransferDocument DEVICE_TRANSFER_SCHEMA devices) = Ok bytes ->
  (N.of_nat (String.length (bytes +:+ newline)) <= MAX_TRANSFER_FILE_BYTES)%N ->
  (N.of_nat (length devices) <= MAX_TRANSFER_DEVICE_COUNT)%N ->
  read_transfer_file path (db, f) = (check_records [] devices, (db, f)).
Proof.
  intros Hne Hfile Hfates Htext Hlen Hcount. unfold read_transfer_file.
  assert (fs_node path (fs_tree f) = Some (FsFile (bytes +:+ newline))) as Hnode by by destruct path.
  unfold mbind at 1, stateful_bind, gets. cbn [snd]. unfold fs_exists. rewrite Hnode. cbn [negb bool_decide].
  rewrite bool_decide_eq_true_2 by by eexists. cbn [negb].
  destruct (N.ltb_spec MAX_TRANSFER_FILE_BYTES (N.of_nat (String.length (bytes +:+ newline)))); [lia|].
  assert (with_files (fs_read "read remembered-device transfer" path) (db, f) = (Ok (bytes +:+ newline), (db, f))) as Hread.
  { unfold with_files, fs_read. destruct f as [t fates]. cbn in Hfates, Hfile. subst fates.
    rewrite (syscall_calm _ _ t (bytes +:+ newline) t) by by rewrite Hfile. done. }
  unfold mbind, stateful_bind. rewrite Hread, (document_from_to _ _ Htext). cbn [schema_version transferred].
  rewrite String.eqb_refl. cbn [negb].
  destruct (N.ltb_spec MAX_TRANSFER_DEVICE_COUNT (N.of_nat (length devices))); [lia|]. done.
Qed.

Lemma device_rows_length rows : length (device_rows rows) = size rows.
Proof. unfold device_rows. rewrite length_fmap. apply length_map_to_list. Qed.

(** C28: An exported document of transferable devices, imported with replacement on
    any other server, makes its table the exported one, with the time of the
    import where a device had none. *)
Theorem exported_devices_are_imported `{!DeviceTransferTextSpec} path temporary db f outcome world target :
  rows_keyed (remembered_devices db) -> Forall transferable (device_rows (remembered_devices db)) ->
  (N.of_nat (size (remembered_devices db)) <= MAX_TRANSFER_DEVICE_COUNT)%N ->
  export_remembered_devices path temporary (db, f) = (Ok outcome, world) -> fs_fates f = [] ->
  (forall content, fs_tree world.2 !! path = Some (FsFile content) ->
    (N.of_nat (String.length content) <= MAX_TRANSFER_FILE_BYTES)%N) ->
  device_faults target = [] ->
  exists target',
    import_remembered_devices path true (target, world.2) =
      (Ok (Imported DEVICE_TRANSFER_SCHEMA (size (remembered_devices db)) (size (remembered_devices target))),
       (target', world.2)) /\
    remembered_devices target' =
      (fun device => if added_at device then device
                     else mkRememberedDevice (client_id device) (device_name device) (is_output device)
                            (Some (device_timestamp (device_clock target)))) <$> remembered_devices db.
Proof.
  intros Hkeyed Hall Hcount Hexport Hfates Hlen Hfaults.
  apply export_ok in Hexport as (bytes & devices & Hperm & Htext & Hne & Hfile & _ & Hkeep).
  assert (length devices = size (remembered_devices db)) as Hsize by by rewrite Hperm, device_rows_length.
  assert (client_id <$> devices ≡ₚ (map_to_list (remembered_devices db)).*1) as Hids by by rewrite Hperm, keyed_ids.
  unfold import_remembered_devices, mbind, stateful_bind.
  rewrite (read_exported path bytes devices) by (try done; rewrite ?Hsize; auto).
  rewrite check_records_ok; [| |by rewrite Hids; apply NoDup_fst_map_to_list|set_solver].
  2: { rewrite Forall_forall in Hall |- *. intros device Hd. apply Hall. by rewrite <- Hperm. }
  unfold with_devices, device_statement, import_rows. rewrite Hfaults. cbn [head]. rewrite andb_false_r.
  rewrite (import_all _ _ _ Hkeyed Hperm). cbn. rewrite Hsize. eexists. split; [done|].
  apply map_fmap_ext. intros _ [id name output [at_|]] _; done.
Qed.

(** A device saved under a name with a control character is exported, and then
    no server imports the document. *)
Theorem saved_names_may_not_transfer `{!DeviceTransferTextSpec} id name output device db0 db path temporary f outcome world
    replace target :
  devices_save id name output db0 = (Ok device, db) -> any_control name = true ->
  rows_keyed (remembered_devices db) -> (N.of_nat (size (remembered_devices db)) <= MAX_TRANSFER_DEVICE_COUNT)%N ->
  export_remembered_devices path temporary (db, f) = (Ok outcome, world) -> fs_fates f = [] ->
  (forall content, fs_tree world.2 !! path = Some (FsFile content) ->
    (N.of_nat (String.length content) <= MAX_TRANSFER_FILE_BYTES)%N) ->
  exists detail,
    import_remembered_devices path replace (target, world.2) = (Err (InvalidDeviceTransfer detail), (target, world.2)).
Proof.
  intros Hsave Hname Hkeyed Hcount Hexport Hfates Hlen.
  assert (remembered_devices db !! id = Some device /\ device_name device = name) as [Hdevice Hdn].
  { unfold devices_save in Hsave. apply stateful_bind_ok in Hsave as ([] & s & Hvalid & Hsave).
    unfold try in Hvalid. injection Hvalid as _ <-. destruct (negb _); [done|].
    unfold device_dependency in Hsave. cbn in Hsave. unfold sqlite_upsert_device, device_statement in Hsave.
    destruct (head (device_faults db0)) as [[]|]; try done; cbn in Hsave; injection Hsave as <- <-; cbn;
      by rewrite lookup_insert_eq. }
  apply export_ok in Hexport as (bytes & devices & Hperm & Htext & Hne & Hfile & _ & Hkeep).
  assert (length devices = size (remembered_devices db)) as Hsize by by rewrite Hperm, device_rows_length.
  unfold import_remembered_devices, mbind, stateful_bind.
  rewrite (read_exported path bytes devices) by (try done; rewrite ?Hsize; auto).
  destruct (check_records_bad [] devices device) as [detail ->].
  - rewrite Hperm. apply elem_of_device_rows; [done|]. by rewrite (Hkeyed _ _ Hdevice).
  - unfold check_record. rewrite Hdn, Hname, orb_true_r. repeat case_match; done.
  - by exists detail.
Qed.
End Transfers.
