(* ===== verification/AuthScenario.v ===== *)
(** * Sign-in and devices run on examples

    One operator who signs in, is let in and signs out while another request
    runs; attempts at the gate; devices carried from one server to the next. The
    identity stands for SHA-256 and equality for the password hash. *)

From S2P Require Import Prelude Text Store MediaPath Filesystem RecoveryJournal Devices.
From S2P Require Import Auth AuthStore AuthSpec AuthServer AuthServerSpec.

#[local] Open Scope string_scope.
#[local] Open Scope Z_scope.
#[local] Open Scope list_scope.

(* ------------------------------------------------------------------ *)
(** ** Sessions *)

#[local] Instance toy_sha256 : Sha256 := {| sha256_hex := fun text => text |}.
#[local] Instance toy_hashing : PasswordHashing := {| verify_password := fun hash password => Ok (String.eqb hash password) |}.

Definition thirty_days : AuthServiceConfig := mkAuthServiceConfig 30 60.

Definition at_time (time : Z) (text : string) : Fate := mkFate NoFault time text.

(** The operator is created and signs in; a sign-in with a wrong password runs
    in between. *)
Definition signed_in : list Move :=
  [ Arrive (Create_user "operator" "secret" 1799000000); Advance 0 (at_time 0 "");
    Arrive (Login "operator" "secret"); Arrive (Login "operator" "guess") ] ++
  (Advance 1 <$> [at_time 0 ""; at_time 0 ""]) ++ [Advance 2 (at_time 0 ""); Advance 2 (at_time 0 "")] ++
  (Advance 1 <$> [at_time 1800000000 ""; at_time 0 "bearer"; at_time 0 "session"; at_time 0 ""]).

Definition let_in : list Move :=
  signed_in ++ [Arrive (Authenticate "bearer" UpdateLastSeen)] ++ replicate 3 (Advance 3 (at_time 1800000100 "")).

Definition operator_session : Session :=
  mkSession "session" (session_token_hash "bearer") 1 1800000000 1802592000.

Lemma requests_are_let_in_on_open_sessions_witness :
  let s := run_moves thirty_days let_in in
  exists before after found now session j drawn,
    history s = before ++ (3%nat, Read_session (session_token_hash "bearer") (Ok found)) :: after /\
    open_in (users_table (tables s)) before session /\
    (3%nat, Saw_time (Ok now)) ∈ history s /\ now < 1802592000 /\ key_expires_at session = 1802592000 /\
    login_of thirty_days s j (mkUserInfo 1 "operator") drawn session /\
    session_token_hash drawn = session_token_hash "bearer".
Proof.
  apply (requests_are_let_in_on_open_sessions thirty_days let_in 3 "bearer" UpdateLastSeen (mkUserInfo 1 "operator")
           1802592000).
  by vm_compute.
Defined.

Lemma operator_session_open :
  let s := run_moves thirty_days signed_in in open_in (users_table (tables s)) (history s) operator_session.
Proof. apply (ok_sessions _ _ (run_moves_ok thirty_days signed_in)). vm_compute. left. Qed.

Lemma open_sessions_are_let_in_witness :
  let s := run_moves thirty_days signed_in in
  exists name,
    threads (alone thirty_days s (Authenticate "bearer" UpdateLastSeen) 3 1800000100) !! length (threads s) =
    Some (mkThread (Authenticate "bearer" UpdateLastSeen)
      (Ready (Reply_lookup (Ok (Lookup_Authenticated (mkUserInfo 1 name) 1802592000))))).
Proof.
  apply (open_sessions_are_let_in thirty_days signed_in "bearer" UpdateLastSeen 1800000100 operator_session).
  - apply operator_session_open.
  - reflexivity.
  - discriminate.
  - cbn. lia.
  - reflexivity.
  - by eexists.
Defined.

(** After the operator has signed out the token is refused. *)
Example signed_out_is_refused :
  let s := run_moves thirty_days (signed_in ++ [Arrive (Logout 1); Advance 3 (at_time 0 "")]) in
  threads (alone thirty_days s (Authenticate "bearer" UpdateLastSeen) 3 1800000100) !! length (threads s) =
  Some (mkThread (Authenticate "bearer" UpdateLastSeen) (Ready (Reply_lookup (Ok Lookup_Missing)))).
Proof. by vm_compute. Qed.

(* ------------------------------------------------------------------ *)
(** ** The gate *)



(* ------------------------------------------------------------------ *)
(** ** The times of an answer *)

Example epoch_is_written : format_rfc3339 0 = Ok "1970-01-01T00:00:00Z".
Proof. by vm_compute. Qed.
Example session_time_is_written : format_rfc3339 1800000000 = Ok "2027-01-15T08:00:00Z".
Proof. by vm_compute. Qed.
Example cookie_is_found :
  session_cookie [None; Some "music_session_old=nope; music_session=right-token"] "music_session" = Some "right-token".
Proof. by vm_compute. Qed.

(* ------------------------------------------------------------------ *)
(** ** Devices *)

#[local] Instance toy_device_clock : DeviceClock := {| device_timestamp := fun _ => "2027-01-15T08:00:00Z" |}.

(** Two documents, each with its text. *)
Definition phone : RememberedDevice := mkRememberedDevice "phone" "Phone" false (Some "2027-01-15T08:00:00Z").
Definition document : DeviceTransferDocument := mkDeviceTransferDocument DEVICE_TRANSFER_SCHEMA [phone].
Definition bell : string := String (Ascii.ascii_of_nat 7) EmptyString.
Definition noisy : RememberedDevice := mkRememberedDevice "tv" bell true (Some "2027-01-15T08:00:00Z").
Definition noisy_document : DeviceTransferDocument := mkDeviceTransferDocument DEVICE_TRANSFER_SCHEMA [noisy].

#[local] Instance DeviceTransferDocument_eq_dec : EqDecision DeviceTransferDocument.
Proof. solve_decision. Defined.

#[local] Instance toy_transfer_text : DeviceTransferText := {|
  document_to_vec_pretty d :=
    if decide (d = document) then Ok "phone" else if decide (d = noisy_document) then Ok "noisy" else Err "";
  document_from_slice text :=
    if String.eqb text ("phone" +:+ newline) then Ok document
    else if String.eqb text ("noisy" +:+ newline) then Ok noisy_document else Err ""
|}.

#[local] Instance toy_transfer_text_spec : DeviceTransferTextSpec.
Proof.
  split. intros d bytes. cbn. repeat case_decide; intros [= <-]; subst; reflexivity.
Qed.

Definition source_devices : SqliteDevices := mkSqliteDevices {["phone" := phone]} 1 [].
Definition noisy_devices : SqliteDevices := mkSqliteDevices {["tv" := noisy]} 1 [].
Definition no_files : Filesystem := mkFilesystem ∅ [].
Definition new_server : SqliteDevices := mkSqliteDevices ∅ 0 [].

Definition export_of (db : SqliteDevices) : result DeviceStorageError DeviceExportOutcome * (SqliteDevices * Filesystem) :=
  export_remembered_devices ["devices.json"] ".tmp" (db, no_files).

Lemma exported_devices_are_imported_witness :
  exists target',
    import_remembered_devices ["devices.json"] true (new_server, (export_of source_devices).2.2) =
      (Ok (Imported DEVICE_TRANSFER_SCHEMA 1 0), (target', (export_of source_devices).2.2)) /\
    remembered_devices target' = {["phone" := phone]}.
Proof.
  destruct (exported_devices_are_imported ["devices.json"] ".tmp" source_devices no_files
           (mkDeviceExportOutcome DEVICE_TRANSFER_SCHEMA 1 ["devices.json"]) (export_of source_devices).2 new_server)
    as (target' & Himport & Hrows).
  - apply map_Forall_singleton. reflexivity.
  - assert (device_rows (remembered_devices source_devices) = [phone]) as -> by (vm_compute; reflexivity).
    constructor; [vm_compute; reflexivity|constructor].
  - apply N.leb_le. by vm_compute.
  - by vm_compute.
  - reflexivity.
  - intros content Hcontent. vm_compute in Hcontent. injection Hcontent as <-. apply N.leb_le. by vm_compute.
  - reflexivity.
  - exists target'. split; [exact Himport|]. rewrite Hrows. vm_compute. reflexivity.
Defined.

(** A name that is a control character is saved and exported, and refused. *)
Example noisy_name_is_stuck :
  devices_save "tv" bell true new_server = (Ok noisy, mkSqliteDevices {["tv" := noisy]} 1 []) /\
  (exists outcome, (export_of noisy_devices).1 = Ok outcome) /\
  (import_remembered_devices ["devices.json"] true (new_server, (export_of noisy_devices).2.2)).1 =
    Err (InvalidDeviceTransfer "name must contain 1 to 128 printable characters").
Proof. vm_compute. eauto. Qed.
